(* ===== verification/_CoqProject ===== *)
-Q . S2P
Prelude.v
Result.v
CppText.v
Order.v
Utf8.v
System.v
Buffer.v
CpuCommon.v
CpuInfo.v
CpuCache.v
Memory.v
Network.v
NetworkStats.v
NetworkRoutes.v
NetworkRoutesFormat.v
Connection.v
Os.v
Process.v
ProcessList.v
Float.v
Software.v
SoftwareLinux.v
Storage.v
StorageLinux.v
Ipc.v
IpcLinux.v
Security.v
SecurityLinux.v
Numa.v
Display.v
Virtualization.v
Cgroups.v
VirtualizationLinux.v
Filesystem.v
Resource.v
Sensor.v
NaturalOrder.v
Printer.v
PrinterHttp.v
PrinterIpp.v
PrinterIppFormat.v
PrinterLinux.v
Power.v
Wifi.v
WifiLinux.v
Hardware.v
HardwareLinux.v
DeviceText.v
Input.v
Bluetooth.v
Camera.v
Audio.v
Gpu.v
Locale.v
Passwd.v
Environment.v
User.v
Dns.v
NetworkPublic.v
NetworkLinux.v
RedoxProcesses.v
Redox.v
