(* ===== verification/Prelude.v ===== *)
(** * Syscape: a verification development

    Syscape ([src/]) is a header-only C++ library that answers questions about
    the system it runs on: processors, memory, network, processes and so on.
    Each domain has a public header ([include/syscape/<domain>.hpp]), a file of
    records and boundary checks all platforms share
    ([detail/<domain>/common.hpp]) and one backend per platform
    ([detail/<domain>/<platform>.hpp]).  A query calls the backend, which
    reads a file, a directory or a system call, parses what it finds and
    returns a [result]: a value or an error code.  The backend's result passes
    the boundary check of the shared file before a caller sees it.

    This library models the shared files and the Linux backends of the
    domains listed below, and three backends of Redox OS, down to the characters and bytes they examine, and
    proves what the parsers accept and return, that the arithmetic does not
    wrap where the code relies on it, that the readers of binary data stay
    inside their buffers, that the loops end, and that what the backends return
    satisfies the boundary checks.

    ** How the code is rendered

    - Texts ([std::string], [std::string_view]) are lists of characters, bytes
      and integers are [Z]; where a C++ expression can wrap, the wrap is
      written ([wrap] for unsigned types, [Os.wrap_signed] for durations).
    - [result<T>] is [Result.result] and its propagation the monadic bind.
      [Result] also has the error categories and the comparison of an error
      code with a condition, on which several backends branch.
    - Loops over text are the combinators of [CppText]: [each_field] (lines and
      other separated fields) and [each_token] (words).  Both run with fuel one
      above the length of the input and are proved equal to folds without fuel
      ([each_field_fields], [each_token_tokens], [each_token_rest]).
      [std::from_chars], [std::to_string], [std::sort] and the members of
      [std::string_view] are modelled in the same file.
    - System calls are operations of the class [System.Kernel] on an arbitrary
      state (opening and reading a file as a sequence of read events, listing
      a directory, [sysconf]); a backend query is a function on that state
      ([System.query]).  Calls that only one backend makes ([readlink],
      [getpwuid_r], [getrlimit], ...) are arguments of its definitions.
    - Pointers into a received buffer are indices into a list of bytes
      ([Buffer]); an access outside the list, like a loop out of fuel, is
      [None], so that a theorem that shows a result shows safety and
      termination.
    - Structures that C++ fills member by member are built at the end;
      optional members and value-with-flag pairs are [option].

    ** Files

    - [Prelude]: characters, machine integers, tactics and hints.
      [Result] ([error.hpp], [result.hpp], [capability.hpp]), [CppText],
      [Utf8] ([detail/utf8.hpp]), [System] ([detail/linux/file.hpp],
      [detail/linux/process_metrics.hpp]) and [Buffer] are the foundation.
    - [CpuCommon] ([detail/cpu/common.hpp]), [CpuInfo] and [CpuCache]
      ([detail/cpu/linux.hpp]).
    - [Memory] ([detail/memory/common.hpp], [detail/memory/linux.hpp]).
    - [Network] ([detail/network/common.hpp], [detail/network/posix.hpp]),
      [NetworkStats] ([stats_linux.hpp]), [NetworkRoutes] ([routes_linux.hpp]) and
      [NetworkRoutesFormat] (an encoder of the netlink format, a
      specification); [Dns] ([dns_linux.hpp]), [NetworkPublic]
      ([network.hpp], over the class of a backend) and [NetworkLinux] (the
      system calls of [posix.hpp] and [routes_linux.hpp]).
    - [Connection] ([detail/connection/common.hpp] and [linux.hpp]).
    - [Os] ([detail/os/common.hpp] and [linux.hpp]), [Process]
      ([detail/process/common.hpp], [posix.hpp], [linux.hpp]) and [ProcessList]
      ([detail/process_list/common.hpp] and [linux.hpp]); [Process] and
      [ProcessList] take the boot time from [Os].
    - [Order]: comparisons field by field, as the code writes them for sorting,
      and why they are the orders the sort requires.  [Float]: [double] as the
      binary64 numbers of the Standard Library's [SpecFloat].
    - [Software] (records, orders, keys and the parsers of kernel modules, unit
      files, package databases, desktop entries and updates) and [SoftwareLinux]
      (the queries over directories, files and the child process), from
      [detail/software/common.hpp], [linux.hpp] and [software.hpp].
    - [Storage] (records, mount table, health logs, sense data) and
      [StorageLinux] (the queries over block devices), from
      [detail/storage/common.hpp], [linux.hpp] and [storage.hpp].
    - [Ipc] (records, orders, the kernel's tables) and [IpcLinux] (the queries,
      with the processes of each socket), from [detail/ipc/common.hpp],
      [linux.hpp] and [ipc.hpp].
    - [Security] (records, firmware, kernel and capability texts) and
      [SecurityLinux] (the queries, with the encryption of layered devices),
      from [detail/security/common.hpp], [linux.hpp] and [security.hpp].
    - [Numa], [Display] and [Power]: both files of their domain and the public
      queries.  [Wifi] and [WifiLinux]: records, addresses, channels; the
      queries.
    - [Printer] (records, configuration file and order), [PrinterHttp] (the
      responses of the printing daemon), [PrinterIpp] (the printing protocol),
      [PrinterIppFormat] (an encoder of it, a specification) and [PrinterLinux]
      (the queries), from [detail/printer/common.hpp], [linux.hpp] and
      [printer.hpp].
    - [Virtualization] ([detail/virtualization/common.hpp]), [Cgroups] (the
      control-group mounts and limits) and [VirtualizationLinux] (hypervisors,
      containers, namespaces and the queries), from
      [detail/virtualization/linux.hpp] and [virtualization.hpp].
    - [Filesystem], [Resource] and [Sensor]: both files of their domain and the
      public queries; [Filesystem] reads the mount table with the escapes of
      [Storage], [Resource] walks the processes of [Process].
    - [NaturalOrder] ([natural_less] of the printer, wifi, bluetooth and camera
      domains).
    - [Hardware] ([detail/hardware/common.hpp] with the SMBIOS parser) and
      [HardwareLinux] (firmware, board, PCI, USB and memory devices:
      [detail/hardware/linux.hpp], [hardware.hpp]).
    - [DeviceText]: the helpers of which the input, bluetooth, camera and audio
      domains have a copy each.  [Input], [Bluetooth], [Camera] and [Audio]:
      both files of their domain and the public queries; opening a device and
      its requests are operations of a class of each file.
    - [Gpu] ([detail/gpu/common.hpp] and [linux.hpp]).
    - [Passwd] ([detail/posix/passwd.hpp]), [Locale]
      ([detail/locale/common.hpp], [posix.hpp], [preferences_linux.hpp]),
      [Environment] ([detail/environment/common.hpp], [posix_common.hpp],
      [posix.hpp]) and [User] ([detail/user/common.hpp], [posix.hpp]), each
      with its public queries; [Environment] and [User] read the password
      database through [Passwd].

    - [RedoxProcesses] ([detail/process_list/redox.hpp]) and [Redox]
      ([detail/network/redox.hpp], [detail/os/redox.hpp]): the process list
      with the entry and order of [ProcessList], the resolver configuration
      with the state of [Dns], and the facts of the operating system.

    ** What is proved

    - Text encoding: [is_valid_utf8] accepts exactly the encodings of scalar
      values, and the two conversions are inverse of each other on exactly the
      valid inputs ([is_valid_utf8_correct], [utf8_utf16_inverse],
      [utf8_to_utf16_error]).
    - Reading: the result of [read_text_file] depends only on what the
      descriptor delivers ([read_text_file_spec]); a link is never truncated
      ([read_link_with_growth_complete]).
    - Parsers: printing then parsing gives back the data, or the parser is
      characterised on every input ([parse_cpu_list_ranges],
      [parse_cpu_list_bounded], [parse_meminfo_latest],
      [parse_memory_pressure_text], [parse_micro_percent_spec],
      [parse_proc_net_dev_text], [parse_endpoint_text],
      [parse_proc_net_line_text], [decode_os_release_quoted],
      [parse_command_line_arguments], [parse_stat_text],
      [unescape_mountinfo_escape], [validate_uuid_text_spec]).
    - Arithmetic: [ticks_to_nanoseconds_exact], [utilization_percent_exact],
      [uptime_value_exact] with the overflow beyond its bound
      ([uptime_value_overflows]), [positive_ratio_less_exact].
    - Buffers: the netlink and SMBIOS parsers read inside their buffers on
      every input, end, and return well-formed records
      ([route_datagram_safe], [smbios_memory_devices_safe]); a routing dump in
      the netlink format is read back exactly ([dump_round_trip]).
    - Boundary checks: what they accept ([validate_cache_entries_spec],
      [validate_route_records_spec], [prefix_from_netmask_spec],
      [limit_snapshot_spec]) and that backends satisfy them
      ([cache_descriptors_valid], [convert_ifaddrs_valid]); the merge of cache
      observations ([merge_instances_spec]); the walk over the processes
      ([processes_listed]); the expansion of an affinity mask
      ([affinity_indices_bits]).
    - Binary formats: a health log is read field by field with the limits of
      every counter ([parse_nvme_smart_log_bytes]), the health queries read
      inside their buffers whatever these hold ([health_safe]), a display's
      identification block reads back ([parse_edid_block_text]), and so does a
      response of the printing daemon through both of its protocols
      ([parse_http_ipp_response_text], [parse_ipp_printers_response_text]),
      which no input makes read outside ([parse_http_ipp_response_safe],
      [parse_ipp_printers_response_safe]).
    - Listings: what the enumerations of packages, services, updates,
      runtimes, drives, batteries, displays, memory nodes and wireless adapters
      return - order, no doubles, entries of the directory they come from,
      ranges - ([installed_packages_listed], [services_listed],
      [system_updates_listed], [installed_runtimes_listed], [drives_listed],
      [batteries_listed], [displays_listed], [nodes_listed],
      [adapters_listed]), and that nothing is lost
      ([installed_packages_complete], [printers_from_daemon],
      [merge_added]).
    - The resolver configuration: the first error of the lines, or their
      servers in order with the last list ([resolver_configuration_read], and
      [parse_dns_content_meaning] for Redox); the default gateways are the next
      hops of the routes to every address ([default_gateways_exact]); the queries
      of interfaces and routes from their system calls on
      ([linux_interfaces_public], [linux_routes_dump]).
    - Redox: each process of the kernel's table of contexts once, in the best
      state of its threads ([contexts_listed]).
    - Files of packages, printers and mounts read back
      ([parse_dpkg_status_text], [parse_cups_printers_conf_text],
      [parse_mount_table_text]); the child process is reported as it ended
      ([run_checkupdates_spec]).
    - Interprocess objects: the kernel's tables parse exactly when their lines
      have the documented columns ([sysv_tables_spec],
      [parse_proc_net_unix_spec]); each local socket has exactly the processes
      that hold it ([local_sockets_owners]); the objects are ordered and in
      range ([ipc_objects_listed]).
    - Containers: the limit of a control group is the least of its ancestors'
      ([effective_limit_least], [effective_cpu_tightest]), the group found is
      well formed ([current_cgroup_well_formed]), the process counts as
      isolated only with evidence - a namespace other than that of process 1, a
      second identifier, a map of its users - and as not isolated only without
      ([namespace_isolation_sound]).
    - Filesystems and resources: capacities without wrap-around
      ([space_exact]), mounts ([mounts_text]) and volume identifiers
      ([volume_id_words]) read back; the numbers of processes and threads are
      exact ([process_and_thread_counts]); the load averages and their format
      ([parse_loadavg_value]).
    - Sensors and hardware: every attribute of a chip is read once
      ([sensors_once]), thermal zones carry the right trip points
      ([thermal_zones_denote]), bus devices are those of the directory
      ([bus_devices_listed]), the firmware table is read inside its bytes
      and gives exactly the memory devices it records ([memory_devices_safe]), the speed of a port is computed without
      wrap-around on the accepted texts ([parse_usb_speed_denotes]).
    - Devices: the kernel's list of input devices reads back
      ([parse_devices_text]) and only well-formed devices come out of it
      ([devices_well_formed]); the paired devices are those of the pairing
      records ([paired_devices_denote]); the cameras are the nodes of the class
      directory, with what their drivers answer ([cameras_listed]); the card and device files of the sound
      system read back as its devices ([audio_devices_denote]); the graphics
      devices are the cards and the controllers that are not behind one
      ([gpu_devices_denote]).
    - The process and its user: a time-zone identifier names a zone file below
      the directory of [TZDIR] or the system's ([time_zone_located]) and an offset text parses
      exactly when it is in range ([parse_gmt_offset_spec]); a program is the
      first executable candidate of the search path ([executable_found]), the
      variables read back ([environment_text]); the login sessions and the
      users logged in are those of the database ([sessions_listed]), the
      groups each once ([supplementary_groups_exact]); a password entry is
      looked up with a buffer that grows until it suffices ([lookup_grows]).
    - Security: the capabilities of a process from the pieces [read] delivers
      ([read_capabilities_spec]) to the names of their bits
      ([parse_hex_u64_spec], [decode_capabilities_bits],
      [privileges_of_bits]); a device is encrypted exactly when its layers are
      ([device_encryption_layers], [encrypted_volumes_complete]), and a path is
      on the longest mount point above it ([matched_mount_longest]).
    - Agreement of routines the code has twice
      ([parse_uint64_exact_from_chars], [parse_proc_cmdline_agrees],
      [stat_parsers_agree], [natural_less_order]).
    - Orders: the comparisons given to [std::sort] are strict weak or total
      orders ([compare_connection_records_order], [natural_less_order]), names
      with numbers sort by value ([natural_less_numbers]), and names match as
      documented ([matches_process_name_spec]).

    ** Fuel and bounds

    Loops over text and buffers get one unit more than the length of the input
    and consume at least one character or byte per iteration.  Growing buffers
    double from a fixed size to a fixed maximum, so their number of iterations
    is a constant ([host_name]: 13, [working_directory]: 11, [cpu_affinity]:
    10, each with a lemma that the loop has ended); a [readlink] loop can be
    interrupted without bound, so its fuel is an argument and the theorem
    relates it to the number of interruptions.  The attempts of [Passwd]
    (11), [Locale] (6), the groups (15) and the login name (13) of [User] are
    bounded by their growing buffers; an [open] that is interrupted without
    end gives the Redox readers fuel as an argument.  [ratio_loop] gets 130
    iterations: each but the first halves the product of numerator and
    denominator, which is below 2 to the power 128.

    ** What is not modelled

    The backends of other platforms, the declarations of the public headers
    beyond the records and queries used, the preprocessor selection of
    platforms and compilers, and the resource handles.  [std::bad_alloc] is not an outcome.  Dates and durations are
    counts of their unit.  A directory is listed at once: the entries the walk
    visits are those the listing names, while the code reads them one after the
    other. *)
From stdpp Require Export prelude gmap sorting strings.
From Stdlib Require Export ZArith Ascii.
From Stdlib Require String.

Open Scope Z_scope.

(** ** Bytes and texts

    A [char] is modelled by its eight bits; a [std::string] or a
    [std::string_view] by the list of its characters.  The code compares
    characters only with ASCII bounds, so its results do not depend on the
    signedness of [char], except in [NaturalOrder], where the signedness is a
    parameter; [code] is the [unsigned char] value. *)

Abbreviation text := (list ascii).

Definition lit (s : string) : text := String.list_ascii_of_string s.

Definition code (c : ascii) : Z := Z.of_N (N_of_ascii c).

(** [static_cast<char>(value)]: the low eight bits. *)
Definition char_of (value : Z) : ascii := ascii_of_N (Z.to_N (value mod 256)).

(** ** Machine integers

    An unsigned integer of [w] bits is a [Z]; [wrap w] is the reduction C++
    performs when a result does not fit. *)

Definition wrap (w : Z) (value : Z) : Z := value mod 2 ^ w.

Definition uint8_max : Z := 255.

Definition uint16_max : Z := 65535.

Definition uint32_max : Z := 4294967295.

Definition uint64_max : Z := 18446744073709551615.

Definition int32_min : Z := -2147483648.

Definition int32_max : Z := 2147483647.

Definition int64_min : Z := -9223372036854775808.

Definition int64_max : Z := 9223372036854775807.

(** ** Automation *)

Create HintDb syscape discriminated.
Create Rewrite HintDb syscape.

Ltac unfold_bounds :=
  unfold uint8_max, uint16_max, uint32_max, uint64_max,
    int32_min, int32_max, int64_min, int64_max in *.

(** Linear arithmetic with the machine bounds unfolded. *)
Ltac zlia := unfold_bounds; lia.

(** Turns boolean comparisons of the context into propositions. *)
Ltac bool_to_prop :=
  repeat match goal with
  | H : andb _ _ = true |- _ => apply andb_true_iff in H; destruct H
  | H : orb _ _ = false |- _ => apply orb_false_iff in H; destruct H
  | H : andb _ _ = false |- _ => apply andb_false_iff in H
  | H : orb _ _ = true |- _ => apply orb_true_iff in H
  | H : negb _ = true |- _ => apply negb_true_iff in H
  | H : negb _ = false |- _ => apply negb_false_iff in H
  | H : (_ <? _) = true |- _ => apply Z.ltb_lt in H
  | H : (_ <? _) = false |- _ => apply Z.ltb_ge in H
  | H : (_ <=? _) = true |- _ => apply Z.leb_le in H
  | H : (_ <=? _) = false |- _ => apply Z.leb_gt in H
  | H : (_ =? _) = true |- _ => apply Z.eqb_eq in H
  | H : (_ =? _) = false |- _ => apply Z.eqb_neq in H
  | H : _ \/ _ |- _ =>
      first [rewrite orb_true_iff in H | rewrite andb_false_iff in H
            |rewrite andb_true_iff in H | rewrite orb_false_iff in H
            |rewrite negb_true_iff in H | rewrite negb_false_iff in H
            |rewrite Z.ltb_lt in H | rewrite Z.ltb_ge in H
            |rewrite Z.leb_le in H | rewrite Z.leb_gt in H
            |rewrite Z.eqb_eq in H | rewrite Z.eqb_neq in H]
  | H : bool_decide _ = true |- _ => apply bool_decide_eq_true_1 in H
  | H : bool_decide _ = false |- _ => apply bool_decide_eq_false_1 in H
  end.

(** Proves a closed decidable proposition by evaluating its decision. *)
Ltac by_compute :=
  match goal with |- ?P => refine (@bool_decide_unpack P _ _); vm_compute; exact I end.

(** Case analysis on an innermost condition of an [if] in the goal. *)
Ltac split_if :=
  match goal with
  | |- context [if ?b then _ else _] =>
      lazymatch b with
      | context [if _ then _ else _] => fail
      | _ => destruct b eqn:?
      end
  end; bool_to_prop.

(** ** Characters *)

Lemma code_bound c : 0 <= code c < 256.
Proof. unfold code. pose proof (N_ascii_bounded c). lia. Qed.

Lemma char_of_code c : char_of (code c) = c.
Proof.
  unfold char_of. rewrite Z.mod_small by apply code_bound.
  unfold code. rewrite N2Z.id. apply ascii_N_embedding.
Qed.

Lemma code_char_of z : 0 <= z < 256 -> code (char_of z) = z.
Proof.
  intros Hz. unfold char_of, code. rewrite Z.mod_small by lia.
  rewrite N_ascii_embedding by lia. lia.
Qed.

#[global] Instance code_inj : Inj (=) (=) code.
Proof. intros a b H. rewrite <- (char_of_code a), H. apply char_of_code. Qed.

#[export] Hint Resolve code_bound char_of_code code_char_of : syscape.
#[export] Hint Rewrite char_of_code : syscape.

(** ** Lists *)

Lemma drop_lookup_cons {A} (l : list A) i x :
  l !! i = Some x -> drop i l = x :: drop (S i) l.
Proof. intros H. by apply drop_S. Qed.

Lemma drop_nil_iff {A} (l : list A) i : drop i l = [] <-> (length l <= i)%nat.
Proof.
  split; [|apply drop_ge]. intros H.
  apply (f_equal length) in H. rewrite length_drop in H. simpl in H. lia.
Qed.

Lemma forallb_true {A} (f : A -> bool) l : forallb f l = true <-> Forall (fun x => f x = true) l.
Proof. rewrite forallb_forall, Forall_forall. by setoid_rewrite list_elem_of_In. Qed.

(** Strong induction on the length of a list. *)
Lemma list_length_ind {A} (P : list A -> Prop) :
  (forall l, (forall k, (length k < length l)%nat -> P k) -> P l) -> forall l, P l.
Proof.
  intros step l. remember (length l) as n eqn:Hn.
  revert l Hn. induction n as [n IH] using lt_wf_ind. intros l ->.
  apply step. intros k Hk. by apply (IH (length k)).
Qed.

Lemma StronglySorted_weaken {A} (R R' : relation A) l :
  (forall a b, R a b -> R' a b) -> StronglySorted R l -> StronglySorted R' l.
Proof.
  intros HR. induction 1 as [|a l Hl IH Ha]; constructor; [done|].
  eapply Forall_impl; [exact Ha|]. by apply HR.
Qed.

(** Bits of a value below a power of two. *)
Lemma testbit_high x w i : 0 <= x < 2 ^ w -> w <= i -> Z.testbit x i = false.
Proof.
  intros Hx Hi. destruct (Z.ltb_spec w 0).
  - rewrite Z.pow_neg_r in Hx by lia. lia.
  - rewrite <- (Z.mod_small x (2 ^ w)) by lia. apply Z.mod_pow2_bits_high. lia.
Qed.

Lemma land_power_bit x i : 0 <= i -> negb (Z.land x (2 ^ i) =? 0) = Z.testbit x i.
Proof.
  intros Hi. destruct (Z.testbit x i) eqn:E.
  - apply negb_true_iff, Z.eqb_neq. intros Hz. apply (f_equal (fun z => Z.testbit z i)) in Hz.
    by rewrite Z.land_spec, E, Z.pow2_bits_true, Z.bits_0 in Hz by lia.
  - apply negb_false_iff, Z.eqb_eq, Z.bits_inj_iff'. intros n Hn. rewrite Z.land_spec, Z.bits_0.
    destruct (Z.eqb_spec n i) as [->|Hne]; [by rewrite E|].
    rewrite Z.pow2_bits_false by lia. apply andb_false_r.
Qed.

(** [std::uint64_t{1} << bit] as a mask. *)
Lemma land_bit_wrapped w x i : 0 <= i < w -> negb (Z.land x (wrap w (Z.shiftl 1 i)) =? 0) = Z.testbit x i.
Proof.
  intros Hi. rewrite Z.shiftl_mul_pow2, Z.mul_1_l by lia. unfold wrap. rewrite Z.mod_small.
  - apply land_power_bit. lia.
  - split; [apply Z.pow_nonneg; lia|]. apply Z.pow_lt_mono_r; lia.
Qed.

(** ** Bit operations as arithmetic *)

Lemma lor_add n a b : 0 <= n -> a mod 2 ^ n = 0 -> 0 <= b < 2 ^ n -> Z.lor a b = a + b.
Proof.
  intros Hn Ha Hb. rewrite <- Z.add_nocarry_lor; [done|].
  apply Z.bits_inj'. intros i Hi. rewrite Z.land_spec, Z.bits_0.
  destruct (Z.ltb_spec i n).
  - rewrite <- (Z.mod_pow2_bits_low a n i), Ha by lia. by rewrite Z.bits_0.
  - rewrite (testbit_high b n i) by lia. apply andb_false_r.
Qed.

Lemma land_mask n x m : 0 <= n -> m = Z.ones n -> Z.land x m = x mod 2 ^ n.
Proof. intros Hn ->. by apply Z.land_ones. Qed.

(** Masks, shifts and disjoint unions of bits become [mod], [/], [*] and [+]. *)
Ltac bits_to_arith :=
  repeat match goal with
  | |- context [Z.land ?x 0xFF] => rewrite (land_mask 8 x 0xFF) by (done || lia)
  | |- context [Z.land ?x 0x3FF] => rewrite (land_mask 10 x 0x3FF) by (done || lia)
  | |- context [Z.land ?x 0x3F] => rewrite (land_mask 6 x 0x3F) by (done || lia)
  | |- context [Z.land ?x 0x1F] => rewrite (land_mask 5 x 0x1F) by (done || lia)
  | |- context [Z.land ?x 0x0F] => rewrite (land_mask 4 x 0x0F) by (done || lia)
  | |- context [Z.land ?x 0x07] => rewrite (land_mask 3 x 0x07) by (done || lia)
  end;
  rewrite ?Z.shiftr_div_pow2, ?Z.shiftl_mul_pow2 by lia.

(** [lia] with quotients and remainders by constants. *)
Ltac div_lia := Z.to_euclidean_division_equations; lia.
