(* ===== verification/Result.v ===== *)
(** * Errors, results and capabilities

    [include/syscape/error.hpp], [include/syscape/result.hpp] and
    [include/syscape/capability.hpp]: the portable error enumeration with its
    category, the comparison of error codes with error conditions, the
    value-or-error type every query returns, and the capability status. *)
From S2P Require Import Prelude.

(** ** error.hpp *)

Inductive errc :=
  | errc_success
  | errc_unknown
  | errc_not_supported
  | errc_permission_denied
  | errc_not_found
  | errc_temporarily_unavailable
  | errc_malformed_data
  | errc_io_error
  | errc_invalid_encoding
  | errc_value_too_large
  | errc_resource_exhausted
  | errc_invalid_argument.

#[global] Instance errc_eq_dec : EqDecision errc.
Proof. solve_decision. Defined.

Definition errc_value (e : errc) : Z :=
  match e with
  | errc_success => 0
  | errc_unknown => 1
  | errc_not_supported => 2
  | errc_permission_denied => 3
  | errc_not_found => 4
  | errc_temporarily_unavailable => 5
  | errc_malformed_data => 6
  | errc_io_error => 7
  | errc_invalid_encoding => 8
  | errc_value_too_large => 9
  | errc_resource_exhausted => 10
  | errc_invalid_argument => 11
  end.

(** The categories a [std::error_code] of the Linux backends can have.
    [system_category] is the one of a default-constructed error code. *)
Inductive error_category :=
  | syscape_error_category
  | generic_category
  | system_category.

#[global] Instance error_category_eq_dec : EqDecision error_category.
Proof. solve_decision. Defined.

Record error_code := Error_code {
  ec_value : Z;
  ec_category : error_category
}.

#[global] Instance error_code_eq_dec : EqDecision error_code.
Proof. solve_decision. Defined.

Record error_condition := Error_condition {
  cond_value : Z;
  cond_category : error_category
}.

#[global] Instance error_condition_eq_dec : EqDecision error_condition.
Proof. solve_decision. Defined.

(** [std::errc] enumerators used by the code, with their Linux values. *)
Definition EPERM : Z := 1.
Definition ENOENT : Z := 2.
Definition ESRCH : Z := 3.
Definition EINTR : Z := 4.
Definition EIO : Z := 5.
Definition ENXIO : Z := 6.
Definition EBADF : Z := 9.
Definition EAGAIN : Z := 11.
Definition ENOMEM : Z := 12.
Definition EACCES : Z := 13.
Definition ENODEV : Z := 19.
Definition ENOTDIR : Z := 20.
Definition EINVAL : Z := 22.
Definition ENFILE : Z := 23.
Definition EMFILE : Z := 24.
Definition ENOTTY : Z := 25.
Definition ERANGE : Z := 34.
Definition EOVERFLOW : Z := 75.
Definition EILSEQ : Z := 84.
Definition EOPNOTSUPP : Z := 95.

(** [std::make_error_condition(std::errc)]. *)
Definition make_error_condition (native : Z) : error_condition :=
  Error_condition native generic_category.

Definition make_error_code (value : errc) : error_code :=
  Error_code (errc_value value) syscape_error_category.

(** [std::error_code(errno, std::generic_category())]. *)
Definition native_error (errno : Z) : error_code :=
  Error_code errno generic_category.

(** [static_cast<errc>(value)] as the [switch] statements read it. *)
Definition errc_of_value (value : Z) : option errc :=
  match value with
  | 0 => Some errc_success
  | 1 => Some errc_unknown
  | 2 => Some errc_not_supported
  | 3 => Some errc_permission_denied
  | 4 => Some errc_not_found
  | 5 => Some errc_temporarily_unavailable
  | 6 => Some errc_malformed_data
  | 7 => Some errc_io_error
  | 8 => Some errc_invalid_encoding
  | 9 => Some errc_value_too_large
  | 10 => Some errc_resource_exhausted
  | 11 => Some errc_invalid_argument
  | _ => None
  end.

Definition message (value : Z) : string :=
  match errc_of_value value with
  | Some errc_success => "success"
  | Some errc_unknown => "unknown error"
  | Some errc_not_supported => "capability not supported"
  | Some errc_permission_denied => "permission denied"
  | Some errc_not_found => "information not found"
  | Some errc_temporarily_unavailable => "information temporarily unavailable"
  | Some errc_malformed_data => "malformed platform data"
  | Some errc_io_error => "input or output error"
  | Some errc_invalid_encoding => "invalid text encoding"
  | Some errc_value_too_large => "value too large"
  | Some errc_resource_exhausted => "resource exhausted"
  | Some errc_invalid_argument => "invalid argument"
  | None => "unrecognized syscape error"
  end.

(** [syscape_error_category::default_error_condition]; the empty condition
    [{}] is [std::error_condition()], zero in the generic category. *)
Definition syscape_default_condition (value : Z) : error_condition :=
  match errc_of_value value with
  | Some errc_success => make_error_condition 0
  | Some errc_not_supported => make_error_condition EOPNOTSUPP
  | Some errc_permission_denied => make_error_condition EACCES
  | Some errc_not_found => make_error_condition ENOENT
  | Some errc_temporarily_unavailable => make_error_condition EAGAIN
  | Some errc_malformed_data => make_error_condition EILSEQ
  | Some errc_invalid_encoding => make_error_condition EILSEQ
  | Some errc_io_error => make_error_condition EIO
  | Some errc_value_too_large => make_error_condition EOVERFLOW
  | Some errc_resource_exhausted => make_error_condition ENOMEM
  | Some errc_invalid_argument => make_error_condition EINVAL
  | Some errc_unknown | None => Error_condition value syscape_error_category
  end.

(** [std::error_category::default_error_condition], virtual call; the system
    category of a POSIX platform maps its numbers to the generic category. *)
Definition default_error_condition (cat : error_category) (value : Z)
    : error_condition :=
  match cat with
  | syscape_error_category => syscape_default_condition value
  | generic_category | system_category => Error_condition value generic_category
  end.

(** [error_code == error_condition]: either category accepts the pair. *)
Definition equivalent (e : error_code) (c : error_condition) : bool :=
  bool_decide (default_error_condition (ec_category e) (ec_value e) = c) ||
  (bool_decide (cond_category c = ec_category e) && (ec_value e =? cond_value c)).

(** [error == std::errc::x] and [error == errc::x]: the first compares with a
    condition, the second converts the enumerator to an error code. *)
Definition matches_std_errc (e : error_code) (native : Z) : bool :=
  equivalent e (make_error_condition native).

Definition matches_errc (e : error_code) (value : errc) : bool :=
  bool_decide (e = make_error_code value).

(** ** result.hpp *)

Inductive result (A : Type) :=
  | Value (value : A)
  | Failure (error : error_code).
Arguments Value {A} value.
Arguments Failure {A} error.

#[global] Instance result_eq_dec {A} `{EqDecision A} : EqDecision (result A).
Proof. solve_decision. Defined.

Definition fail {A} (e : errc) : result A := Failure (make_error_code e).

Definition fail_native {A} (errno : Z) : result A := Failure (native_error errno).

Definition has_value {A} (r : result A) : bool :=
  match r with Value _ => true | Failure _ => false end.

(** [error()]: the stored error, or the success code of a value. *)
Definition error {A} (r : result A) : error_code :=
  match r with
  | Value _ => Error_code 0 system_category
  | Failure e => e
  end.

(** [value()]: the stored value, or the [bad_result_access] it throws. *)
Definition value {A} (r : result A) : A + error_code :=
  match r with Value v => inl v | Failure e => inr e end.

Definition value_or {A} (r : result A) (fallback : A) : A :=
  match r with Value v => v | Failure _ => fallback end.

(** [if (!r) return fail(r.error());] is the monadic bind. *)
#[global] Instance result_ret : MRet result := @Value.

#[global] Instance result_bind : MBind result := fun A B f r =>
  match r with Value v => f v | Failure e => Failure e end.

#[global] Instance result_fmap : FMap result := fun A B f r =>
  match r with Value v => Value (f v) | Failure e => Failure e end.

(** [for (x : l) { ... }] over a state, where the body may return a failure. *)
Fixpoint fold_result {S A} (f : A -> S -> result S) (l : list A) (s : S) : result S :=
  match l with
  | [] => Value s
  | x :: l => s ← f x s; fold_result f l s
  end.

(** The same without state: every element must pass the check. *)
Fixpoint for_each {A} (check : A -> result unit) (l : list A) : result unit :=
  match l with
  | [] => Value ()
  | x :: l => check x;; for_each check l
  end.

(** [if (condition) return fail(e);] *)
Definition reject (condition : bool) (e : errc) : result unit :=
  if condition then fail e else Value ().

(** ** capability.hpp *)

Inductive capability_state :=
  | capability_unknown
  | capability_unsupported
  | capability_available
  | capability_permission_required
  | capability_temporarily_unavailable.

#[global] Instance capability_state_eq_dec : EqDecision capability_state.
Proof. solve_decision. Defined.

Record capability := Capability { state : capability_state }.

Definition default_capability : capability := Capability capability_unknown.

Definition available (c : capability) : bool :=
  bool_decide (state c = capability_available).

Definition recognized (c : capability) : bool :=
  negb (bool_decide (state c = capability_unknown)).

Definition capability_state_name (s : capability_state) : string :=
  match s with
  | capability_unsupported => "unsupported"
  | capability_available => "available"
  | capability_permission_required => "permission-required"
  | capability_temporarily_unavailable => "temporarily-unavailable"
  | capability_unknown => "unknown"
  end.

(** ** Lemmas on results *)

Lemma bind_value {A B} (r : result A) (f : A -> result B) v :
  (x ← r; f x) = Value v <-> exists x, r = Value x /\ f x = Value v.
Proof.
  destruct r as [x|e]; split; simpl.
  - by exists x.
  - by intros (? & [= ->] & ?).
  - done.
  - by intros (? & ? & _).
Qed.

Lemma reject_value c e : reject c e = Value () <-> c = false.
Proof. by destruct c. Qed.

Lemma for_each_value {A} (check : A -> result unit) l :
  for_each check l = Value () <-> Forall (fun x => check x = Value ()) l.
Proof.
  induction l as [|x l IH]; simpl; [by split|].
  rewrite Forall_cons, bind_value, <- IH. split.
  - intros ([] & -> & ->). done.
  - intros [-> ->]. by exists ().
Qed.

(** A failing loop reports the failure of one of its elements. *)
Lemma for_each_failure {A} (check : A -> result unit) l e :
  for_each check l = Failure e -> exists x, x ∈ l /\ check x = Failure e.
Proof.
  induction l as [|x l IH]; simpl; [done|].
  destruct (check x) as [[]|e'] eqn:E; simpl.
  - intros H. destruct (IH H) as (y & Hy & ?). exists y. split; [by right|done].
  - intros [= <-]. exists x. split; [by left|done].
Qed.

#[export] Hint Rewrite @reject_value @for_each_value : syscape.

(** Inverts [(x ← r; k) = Value v] and [reject c e = Value ()]. *)
Ltac inv_result :=
  repeat match goal with
  | H : (mbind _ _) = Value _ |- _ =>
      let x := fresh "v" in
      apply bind_value in H; destruct H as (x & ? & H); try match type of x with unit => destruct x end
  | H : reject _ _ = Value _ |- _ =>
      apply reject_value in H
  | H : Value _ = Value _ |- _ => injection H as H; subst
  | H : fail _ = Value _ |- _ => discriminate H
  | H : Failure _ = Value _ |- _ => discriminate H
  end.
