(* ===== verification/CppText.v ===== *)
(** * Text primitives of the C++ standard library, and the loops over text

    The [std::string_view] members and [std::from_chars] the parsers call, the
    two loops every parser repeats (over separated fields and over tokens),
    each with the structural function it computes, and [std::to_string]. *)
From S2P Require Import Prelude Result.

Definition ch_nul : ascii := "000"%char.
Definition ch_tab : ascii := "009"%char.
Definition ch_lf : ascii := "010"%char.
Definition ch_vt : ascii := "011"%char.
Definition ch_ff : ascii := "012"%char.
Definition ch_cr : ascii := "013"%char.

(** Equality of texts and characters as the code's [==]. *)
Definition same (a b : text) : bool := bool_decide (a = b).
Definition is_char (a b : ascii) : bool := bool_decide (a = b).

Definition empty (l : text) : bool := match l with [] => true | _ => false end.

(** [std::isspace] in the classic locale. *)
Definition isspace (c : ascii) : bool :=
  is_char c " " || is_char c ch_tab || is_char c ch_lf || is_char c ch_vt || is_char c ch_ff ||
  is_char c ch_cr.

(** ** std::string_view *)

Fixpoint find_first (p : ascii -> bool) (l : text) : option nat :=
  match l with
  | [] => None
  | c :: l => if p c then Some 0%nat else S <$> find_first p l
  end.

(** [input.find(c, pos)]; [npos] is [None]. *)
Definition find (c : ascii) (input : text) (pos : nat) : option nat :=
  (fun i => pos + i)%nat <$> find_first (is_char c) (drop pos input).

(** [input.find_first_of(set)]. *)
Definition find_first_of (set : text) (input : text) : option nat :=
  find_first (fun c => bool_decide (c ∈ set)) input.

Fixpoint find_last (p : ascii -> bool) (l : text) : option nat :=
  match l with
  | [] => None
  | c :: l =>
      match find_last p l with
      | Some i => Some (S i)
      | None => if p c then Some 0%nat else None
      end
  end.

(** [input.rfind(c)] and [input.find_last_of(set)]. *)
Definition rfind (c : ascii) (input : text) : option nat := find_last (is_char c) input.

Definition find_last_of (set : text) (input : text) : option nat :=
  find_last (fun c => bool_decide (c ∈ set)) input.

(** [input.substr(pos, count)] and [input.substr(pos)], [pos <= size()]. *)
Definition substr (pos count : nat) (input : text) : text := take count (drop pos input).

Definition substr_from (pos : nat) (input : text) : text := drop pos input.

(** [input.compare(0, prefix.size(), prefix) == 0]. *)
Definition starts_with (prefix input : text) : bool :=
  same (take (length prefix) input) prefix.

(** [input.find(part) != npos]. *)
Fixpoint contains (part input : text) : bool :=
  starts_with part input || match input with [] => false | _ :: rest => contains part rest end.

(** [input.find(part, pos)]. *)
Fixpoint find_part (part l : text) : option nat :=
  if starts_with part l then Some 0%nat
  else match l with [] => None | _ :: l => S <$> find_part part l end.

Definition find_text (part input : text) (pos : nat) : option nat :=
  (fun i => pos + i)%nat <$> find_part part (drop pos input).

(** [input.size() > suffix.size() && input.compare(input.size() - suffix.size(),
    suffix.size(), suffix) == 0]. *)
Definition ends_after (suffix input : text) : bool :=
  (length suffix <? length input)%nat && same (drop (length input - length suffix) input) suffix.

(** [while (!v.empty() && p(v.front())) v.remove_prefix(1);] *)
Fixpoint drop_front (p : ascii -> bool) (l : text) : text :=
  match l with
  | [] => []
  | c :: l' => if p c then drop_front p l' else l
  end.

(** [while (!v.empty() && p(v.back())) v.remove_suffix(1);] *)
Definition drop_back (p : ascii -> bool) (l : text) : text :=
  reverse (drop_front p (reverse l)).

Definition trim (p : ascii -> bool) (l : text) : text := drop_back p (drop_front p l).

(** [std::tolower] in the classic locale, and the loop of the comparisons that
    ignore case. *)
Definition tolower (c : ascii) : Z :=
  if (65 <=? code c) && (code c <=? 90) then code c + 32 else code c.

Fixpoint ignore_case_loop (l r : text) : bool :=
  match l, r with
  | a :: l, b :: r => if negb (tolower a =? tolower b) then false else ignore_case_loop l r
  | _, _ => true
  end.

(** ** std::from_chars *)

Inductive chars_errc := chars_ok | chars_invalid_argument | chars_result_out_of_range.

#[global] Instance chars_errc_eq_dec : EqDecision chars_errc.
Proof. solve_decision. Defined.

(** The pointer is an index into the input.  The value is the variable the
    call writes, zero when the call leaves it as the callers initialise it. *)
Record from_chars_result := From_chars_result {
  fc_ptr : nat;
  fc_ec : chars_errc;
  fc_value : Z
}.

Definition digit_of (base : Z) (c : ascii) : option Z :=
  let n := code c in
  let d := if (48 <=? n) && (n <=? 57) then n - 48
           else if (97 <=? n) && (n <=? 122) then n - 87
           else if (65 <=? n) && (n <=? 90) then n - 55
           else base in
  if d <? base then Some d else None.

Definition is_digit_in (base : Z) (c : ascii) : bool :=
  match digit_of base c with Some _ => true | None => false end.

(** Digits of the longest prefix made of digits. *)
Fixpoint digit_run (base : Z) (l : text) : list Z :=
  match l with
  | [] => []
  | c :: l' =>
      match digit_of base c with
      | Some d => d :: digit_run base l'
      | None => []
      end
  end.

Definition digits_value (base : Z) (ds : list Z) : Z :=
  foldl (fun v d => v * base + d) 0 ds.

(** [std::from_chars] on an unsigned type with maximum [max]. *)
Definition from_chars_unsigned (max base : Z) (input : text) : from_chars_result :=
  let ds := digit_run base input in
  let v := digits_value base ds in
  match ds with
  | [] => From_chars_result 0 chars_invalid_argument 0
  | _ =>
      if v <=? max then From_chars_result (length ds) chars_ok v
      else From_chars_result (length ds) chars_result_out_of_range 0
  end.

(** [std::from_chars] on a signed type: an optional minus sign. *)
Definition from_chars_signed (min max base : Z) (input : text) : from_chars_result :=
  match input with
  | c :: rest =>
      if is_char c "-" then
        let ds := digit_run base rest in
        let v := - digits_value base ds in
        match ds with
        | [] => From_chars_result 0 chars_invalid_argument 0
        | _ =>
            if min <=? v then From_chars_result (S (length ds)) chars_ok v
            else From_chars_result (S (length ds)) chars_result_out_of_range 0
        end
      else from_chars_unsigned max base input
  | [] => From_chars_result 0 chars_invalid_argument 0
  end.

(** [parsed.ec == std::errc() && parsed.ptr == last]. *)
Definition consumed (r : from_chars_result) (input : text) : bool :=
  bool_decide (fc_ec r = chars_ok) && (fc_ptr r =? length input)%nat.

Definition out_of_range (r : from_chars_result) : bool :=
  bool_decide (fc_ec r = chars_result_out_of_range).

(** ** std::to_string on an unsigned value *)

Definition digit_char (d : Z) : ascii := char_of (48 + d).

Fixpoint decimal_digits (fuel : nat) (n : Z) (acc : list Z) : list Z :=
  match fuel with
  | O => acc
  | S fuel =>
      if n <? 10 then n :: acc
      else decimal_digits fuel (n / 10) (n mod 10 :: acc)
  end.

Definition to_decimal (n : Z) : text :=
  digit_char <$> decimal_digits (S (Z.to_nat (Z.log2 n))) n [].

(** ** Loops

    The outcome of a loop body: go on with a new state, or return. *)

Inductive step (S R : Type) :=
  | Next (state : S)
  | Return (value : R).
Arguments Next {S R} state.
Arguments Return {S R} value.

(** The loop every line parser opens with:
<<
    while (offset < input.size()) {
        const std::size_t end = input.find(sep, offset);
        const std::string_view line = input.substr(offset,
            end == npos ? input.size() - offset : end - offset);
        offset = end == npos ? input.size() : end + 1U;
        ...
    }
>>
    One unit of fuel is one iteration; [each_field_fields] shows the loop
    computes a fold that has no fuel. *)
Fixpoint field_loop {S R} (fuel : nat) (sep : ascii) (input : text) (offset : nat)
    (body : text -> S -> step S R) (state : S) : step S R :=
  match fuel with
  | O => Next state
  | Datatypes.S fuel =>
      if (offset <? length input)%nat then
        let stop := find sep input offset in
        let line := substr offset
          (match stop with
           | None => length input - offset
           | Some stop => stop - offset
           end)%nat input in
        let offset' :=
          match stop with None => length input | Some stop => Datatypes.S stop end in
        match body line state with
        | Next state' => field_loop fuel sep input offset' body state'
        | Return r => Return r
        end
      else Next state
  end.

Definition each_field {S R} (sep : ascii) (input : text)
    (body : text -> S -> step S R) (state : S) : step S R :=
  field_loop (Datatypes.S (length input)) sep input 0 body state.

(** The position after the characters satisfying [p] that start at [pos]:
    [while (pos < input.size() && p(input[pos])) ++pos;] *)
Fixpoint prefix_length (p : ascii -> bool) (l : text) : nat :=
  match l with
  | [] => 0
  | c :: l => if p c then S (prefix_length p l) else 0
  end.

Definition scan (p : ascii -> bool) (input : text) (pos : nat) : nat :=
  (pos + prefix_length p (drop pos input))%nat.

(** The tokenizing loop:
<<
    while (pos < input.size() && more) {
        while (pos < input.size() && separator(input[pos])) { ++pos; }
        if (pos >= input.size()) { break; }
        const std::size_t start = pos;
        while (pos < input.size() && !separator(input[pos])) { ++pos; }
        ... input.substr(start, pos - start) ...
    }
>>
    The final state is paired with the final position. *)
Fixpoint token_loop {S R} (fuel : nat) (separator : ascii -> bool) (more : S -> bool)
    (input : text) (pos : nat) (body : text -> S -> step S R) (state : S)
    : step (S * nat) R :=
  match fuel with
  | O => Next (state, pos)
  | Datatypes.S fuel =>
      if (pos <? length input)%nat && more state then
        let start := scan separator input pos in
        if (length input <=? start)%nat then Next (state, start)
        else
          let stop := scan (fun c => negb (separator c)) input start in
          match body (substr start (stop - start) input) state with
          | Next state' => token_loop fuel separator more input stop body state'
          | Return r => Return r
          end
      else Next (state, pos)
  end.

Definition each_token {S R} (separator : ascii -> bool) (more : S -> bool)
    (input : text) (body : text -> S -> step S R) (state : S) : step (S * nat) R :=
  token_loop (Datatypes.S (length input)) separator more input 0 body state.

(** [if (!r) return fail(r.error());] inside a loop body. *)
Definition try_step {A S R} (r : result A) (k : A -> step S (result R))
    : step S (result R) :=
  match r with Value v => k v | Failure e => Return (Failure e) end.

Notation "x <-? r ; k" := (try_step r (fun x => k))
  (at level 20, r at level 100, k at level 200, only parsing).

(** What follows the loop, when the body did not return. *)
Definition finish {S R} (o : step S (result R)) (k : S -> result R) : result R :=
  match o with Next s => k s | Return r => r end.

(** ** Containers and algorithms *)

(** Iteration over a [std::set<std::uint32_t>]: ascending. *)
Definition set_to_vector (s : gset Z) : list Z := merge_sort Z.le (elements s).

(** [for (v = first;; ++v) { s.insert(v); if (v == last) break; }] *)
Definition insert_range (first last : Z) (s : gset Z) : gset Z :=
  list_to_set (seqZ first (last - first + 1)) ∪ s.

(** [std::sort] with a strict comparison.  The standard leaves the order of
    equivalent elements open; the model keeps it. *)
Definition not_after {A} (lt : A -> A -> bool) : relation A := fun a b => lt b a = false.

#[global] Instance not_after_dec {A} (lt : A -> A -> bool) : RelDecision (not_after lt).
Proof. intros a b. unfold not_after. solve_decision. Defined.

Definition std_sort {A} (lt : A -> A -> bool) (l : list A) : list A :=
  merge_sort (not_after lt) l.

(** [std::vector::operator<] and [std::string::operator<]. *)
Fixpoint lexicographic (l k : list Z) : bool :=
  match l, k with
  | _, [] => false
  | [], _ :: _ => true
  | x :: l, y :: k => if x <? y then true else if y <? x then false else lexicographic l k
  end.

Definition text_less (a b : text) : bool := lexicographic (code <$> a) (code <$> b).

(** [std::unique] and [erase]: the first of each run of equal elements. *)
Fixpoint std_unique {A} `{EqDecision A} (l : list A) : list A :=
  match l with
  | a :: ((b :: _) as rest) => if bool_decide (a = b) then std_unique rest else a :: std_unique rest
  | _ => l
  end.

(** [std::binary_search] and [std::set_intersection] on ascending ranges. *)
Definition binary_search (l : list Z) (x : Z) : bool := bool_decide (x ∈ l).

Definition set_intersection (l k : list Z) : list Z := filter (fun x => x ∈ k) l.

(** ** Structural counterparts of the loops *)

Fixpoint fields (sep : ascii) (l : text) : list text :=
  match l with
  | [] => []
  | c :: l =>
      if is_char sep c then [] :: fields sep l
      else match fields sep l with
           | [] => [[c]]
           | f :: fs => (c :: f) :: fs
           end
  end.

Fixpoint tokens (separator : ascii -> bool) (l : text) : list text :=
  match l with
  | [] => []
  | c :: l =>
      if separator c then tokens separator l
      else match l with
           | [] => [[c]]
           | d :: _ =>
               if separator d then [c] :: tokens separator l
               else match tokens separator l with
                    | [] => [[c]]
                    | t :: ts => (c :: t) :: ts
                    end
           end
  end.

Fixpoint fold_steps {S R A} (body : A -> S -> step S R) (fs : list A) (state : S)
    : step S R :=
  match fs with
  | [] => Next state
  | f :: fs =>
      match body f state with
      | Next state' => fold_steps body fs state'
      | Return r => Return r
      end
  end.

(** The parts between separators, the one after the last separator included. *)
Fixpoint split_at (separator : ascii) (l : text) : list text :=
  match l with
  | [] => [[]]
  | c :: l =>
      if is_char separator c then [] :: split_at separator l
      else match split_at separator l with
           | [] => [[c]]
           | f :: fs => (c :: f) :: fs
           end
  end.

(** Texts joined by a separator. *)
Fixpoint join (sep : ascii) (fs : list text) : text :=
  match fs with
  | [] => []
  | [f] => f
  | f :: fs => f ++ sep :: join sep fs
  end.

(** [fold_steps] under the loop condition [more]. *)
Fixpoint fold_while {S R A} (more : S -> bool) (body : A -> S -> step S R) (fs : list A)
    (state : S) : step S R :=
  match fs with
  | [] => Next state
  | f :: fs =>
      if more state then
        match body f state with
        | Next state' => fold_while more body fs state'
        | Return r => Return r
        end
      else Next state
  end.

(** Forgets the position [token_loop] ends at. *)
Definition loop_state {S R} (o : step (S * nat) R) : step S R :=
  match o with Next (s, _) => Next s | Return r => Return r end.

(** A whole numeral of a base, and its value. *)
Definition numeric (base : Z) (l : text) : bool :=
  negb (empty l) && forallb (is_digit_in base) l.

Definition numeral (base : Z) (l : text) : Z := digits_value base (digit_run base l).

(** ** Lemmas on searching and trimming *)

Lemma is_char_true a b : is_char a b = true <-> a = b.
Proof. unfold is_char. apply bool_decide_eq_true. Qed.

Lemma is_char_false a b : is_char a b = false <-> a <> b.
Proof. unfold is_char. apply bool_decide_eq_false. Qed.

Lemma same_true a b : same a b = true <-> a = b.
Proof. unfold same. apply bool_decide_eq_true. Qed.

Lemma same_false a b : same a b = false <-> a <> b.
Proof. rewrite <- not_true_iff_false, same_true. done. Qed.

Lemma empty_true l : empty l = true <-> l = [].
Proof. destruct l; simpl; split; congruence. Qed.

Lemma empty_false l : empty l = false <-> l <> [].
Proof. destruct l; simpl; split; congruence. Qed.

Lemma find_first_lt p l i : find_first p l = Some i -> (i < length l)%nat.
Proof.
  revert i. induction l as [|c l IH]; intros i; simpl; [done|].
  destruct (p c); [intros [= <-]; lia|].
  destruct (find_first p l) as [j|] eqn:E; simpl; [|done].
  intros [= <-]. specialize (IH j eq_refl). lia.
Qed.

Lemma find_first_split p l i :
  find_first p l = Some i ->
  exists c, l = take i l ++ c :: drop (S i) l /\ p c = true /\
            Forall (fun d => p d = false) (take i l).
Proof.
  revert i. induction l as [|c l IH]; intros i; simpl; [done|].
  destruct (p c) eqn:Hc.
  - intros [= <-]. exists c. simpl. by rewrite drop_0.
  - destruct (find_first p l) as [j|] eqn:E; simpl; [|done].
    intros [= <-]. destruct (IH j eq_refl) as (d & Hl & Hd & Hf).
    exists d. simpl. split; [by f_equal|]. split; [done|]. by constructor.
Qed.

Lemma find_first_app p l1 c l2 :
  Forall (fun d => p d = false) l1 -> p c = true ->
  find_first p (l1 ++ c :: l2) = Some (length l1).
Proof.
  intros Hl Hc. induction Hl as [|d l1 Hd Hl IH]; simpl; [by rewrite Hc|].
  by rewrite Hd, IH.
Qed.

Lemma find_first_none p l :
  find_first p l = None <-> Forall (fun d => p d = false) l.
Proof.
  induction l as [|c l IH]; simpl; [done|].
  rewrite Forall_cons, <- IH. destruct (p c); [by split; [|intros []]|].
  destruct (find_first p l); simpl; [by split; [|intros []]|done].
Qed.

Lemma find_last_app p l1 c l2 :
  p c = true -> Forall (fun d => p d = false) l2 ->
  find_last p (l1 ++ c :: l2) = Some (length l1).
Proof.
  intros Hc Hl. induction l1 as [|d l1 IH]; simpl; [|by rewrite IH].
  enough (find_last p l2 = None) as -> by (by rewrite Hc).
  induction Hl as [|e l2 He Hl IH]; simpl; [done|]. by rewrite IH, He.
Qed.

Lemma find_last_none p l : Forall (fun c => p c = false) l -> find_last p l = None.
Proof. induction 1 as [|c l Hc _ IH]; [done|]. simpl. by rewrite IH, Hc. Qed.

Lemma find_last_split p l i :
  find_last p l = Some i -> exists c, l = take i l ++ c :: drop (S i) l /\ p c = true.
Proof.
  revert i. induction l as [|d l IH]; intros i; simpl; [done|].
  destruct (find_last p l) as [j|] eqn:E.
  - intros [= <-]. destruct (IH j eq_refl) as (c & Hl & Hc). exists c. cbn [take drop app]. by rewrite <- Hl.
  - destruct (p d) eqn:Hd; [|done]. intros [= <-]. by exists d.
Qed.

Lemma find_0 c l : find c l 0 = find_first (is_char c) l.
Proof. unfold find. rewrite drop_0. by destruct (find_first _ l). Qed.

Lemma starts_with_app p l : starts_with p (p ++ l) = true.
Proof. unfold starts_with. rewrite take_app_length. by apply same_true. Qed.

Lemma starts_with_true p l : starts_with p l = true -> exists rest, l = p ++ rest.
Proof.
  intros H%same_true. exists (drop (length p) l). rewrite <- (take_drop (length p) l) at 1. by rewrite H.
Qed.

Lemma find_part_skip c part pre l :
  c ∉ pre -> find_part (c :: part) (pre ++ l) = (fun i => length pre + i)%nat <$> find_part (c :: part) l.
Proof.
  induction pre as [|d pre IH]; intros Hc; [cbn [app]; by destruct (find_part _ l)|].
  apply not_elem_of_cons in Hc as [Hd Hc]. cbn [find_part app].
  assert (starts_with (c :: part) (d :: pre ++ l) = false) as ->.
  { apply bool_decide_eq_false. cbn [length take]. congruence. }
  rewrite IH by done. by destruct (find_part _ l).
Qed.

Lemma find_part_here part l : find_part part (part ++ l) = Some 0%nat.
Proof. pose proof (starts_with_app part l) as Hs. destruct (part ++ l); cbn [find_part]; by rewrite Hs. Qed.

(** The first occurrence of a part. *)
Lemma find_part_split part l i :
  find_part part l = Some i ->
  l = take i l ++ part ++ drop (i + length part) l /\ (i <= length l)%nat /\
  forall j, (j < i)%nat -> take (length part) (drop j l) <> part.
Proof.
  revert i. induction l as [|c l IH]; intros i; cbn [find_part]; destruct (starts_with part _) eqn:E.
  1, 3: intros [= <-]; apply starts_with_true in E as [rest ->]; cbn [take Nat.add app]; rewrite drop_app_length; split; [done|];
    split; [lia|intros; lia].
  - done.
  - destruct (find_part part l) as [k|]; [|done]. intros [= <-]. destruct (IH k eq_refl) as (Hl & Hk & Hj).
    cbn [take app Nat.add drop length]. split; [by f_equal|]. split; [lia|]. intros [|j] Hlt; [|apply Hj; lia].
    unfold starts_with in E. apply same_false in E. by rewrite drop_0.
Qed.

(** The first occurrence of a key is after text without its first character. *)
Lemma find_part_first c part pre l : c ∉ pre -> find_part (c :: part) (pre ++ (c :: part) ++ l) = Some (length pre).
Proof. intros Hc. rewrite find_part_skip, find_part_here by done. cbn. f_equal. lia. Qed.

Lemma find_part_second c part pre mid l :
  c ∉ pre -> c ∉ mid -> starts_with (c :: part) (c :: mid ++ (c :: part) ++ l) = false ->
  find_part (c :: part) (pre ++ c :: mid ++ (c :: part) ++ l) = Some (length pre + S (length mid))%nat.
Proof.
  intros Hpre Hmid Hs. rewrite find_part_skip by done. cbn [find_part]. rewrite Hs, find_part_first by done. done.
Qed.

Lemma drop_front_id p l : (forall c, l !! 0%nat = Some c -> p c = false) -> drop_front p l = l.
Proof. destruct l as [|c l]; simpl; [done|]. intros H. by rewrite H. Qed.

Lemma drop_front_app p l1 l2 :
  Forall (fun c => p c = true) l1 -> drop_front p (l1 ++ l2) = drop_front p l2.
Proof. induction 1 as [|c l1 Hc _ IH]; simpl; [done|]. by rewrite Hc. Qed.

Lemma drop_front_all p l : Forall (fun c => p c = true) l -> drop_front p l = [].
Proof. induction 1 as [|c l Hc _ IH]; simpl; [done|]. by rewrite Hc. Qed.

Lemma drop_back_all p l : Forall (fun c => p c = true) l -> drop_back p l = [].
Proof. intros H. unfold drop_back. rewrite drop_front_all; [done|]. by apply Forall_reverse. Qed.

Lemma drop_back_app p l1 l2 :
  Forall (fun c => p c = true) l2 -> drop_back p (l1 ++ l2) = drop_back p l1.
Proof.
  intros H. unfold drop_back. rewrite reverse_app, drop_front_app; [done|].
  by apply Forall_reverse.
Qed.

Lemma drop_back_id p l : (forall c, last l = Some c -> p c = false) -> drop_back p l = l.
Proof.
  intros H. unfold drop_back. rewrite drop_front_id; [apply reverse_involutive|].
  intros c Hc. apply H. rewrite <- (reverse_involutive l), last_reverse.
  by destruct (reverse l).
Qed.

(** A text with no blank at either end is what [trim] leaves of it between
    blanks. *)
Definition trimmed (p : ascii -> bool) (l : text) : Prop :=
  (forall c, l !! 0%nat = Some c -> p c = false) /\ (forall c, last l = Some c -> p c = false).

Lemma trim_app p l1 l l2 :
  Forall (fun c => p c = true) l1 -> trimmed p l -> Forall (fun c => p c = true) l2 ->
  trim p (l1 ++ l ++ l2) = l.
Proof.
  intros H1 [Hf Hb] H2. unfold trim. rewrite drop_front_app by done.
  destruct l as [|c l].
  - simpl. rewrite drop_front_all by done. by apply drop_back_all.
  - rewrite (drop_front_id p ((c :: l) ++ l2)) by (simpl; intros d [= ->]; by apply Hf).
    rewrite drop_back_app by done. by apply drop_back_id.
Qed.

Lemma trim_trimmed p l : trimmed p l -> trim p l = l.
Proof.
  intros H. rewrite <- (app_nil_r l) at 1. apply (trim_app p [] l []); auto.
Qed.

Lemma drop_front_split p l :
  exists l1, l = l1 ++ drop_front p l /\ Forall (fun c => p c = true) l1.
Proof.
  induction l as [|c l (l1 & Hl & Hf)]; simpl; [by exists []|].
  destruct (p c) eqn:Hc; [|by exists []].
  exists (c :: l1). split; [by rewrite Hl at 1|]. by constructor.
Qed.

Lemma drop_front_head p l c : drop_front p l !! 0%nat = Some c -> p c = false.
Proof.
  induction l as [|d l IH]; simpl; [done|].
  destruct (p d) eqn:Hd; [done|]. simpl. by intros [= <-].
Qed.

Lemma drop_back_split p l :
  exists l2, l = drop_back p l ++ l2 /\ Forall (fun c => p c = true) l2.
Proof.
  destruct (drop_front_split p (reverse l)) as (l1 & Hl & Hf).
  exists (reverse l1). split; [|by apply Forall_reverse].
  rewrite <- (reverse_involutive l) at 1. rewrite Hl at 1.
  by rewrite reverse_app.
Qed.

Lemma drop_back_last p l c : last (drop_back p l) = Some c -> p c = false.
Proof.
  unfold drop_back. rewrite last_reverse. intros H.
  apply (drop_front_head p (reverse l)). by destruct (drop_front p (reverse l)).
Qed.

Lemma drop_front_nil p l : drop_front p l = [] -> Forall (fun c => p c = true) l.
Proof.
  intros H. destruct (drop_front_split p l) as (l1 & Hl & Hf). rewrite H, app_nil_r in Hl. by subst.
Qed.

Lemma trim_blank p l : trim p l = [] -> Forall (fun c => p c = true) l.
Proof.
  unfold trim. destruct (drop_front_split p l) as (l1 & Hl & Hf). intros Ht.
  destruct (drop_back_split p (drop_front p l)) as (l2 & Hl2 & Hf2).
  rewrite Ht, app_nil_l in Hl2. rewrite Hl, Hl2. by apply Forall_app.
Qed.

Lemma trim_is_trimmed p l : trimmed p (trim p l).
Proof.
  unfold trim. split; [|apply drop_back_last].
  intros c Hc. apply (drop_front_head p l).
  destruct (drop_back_split p (drop_front p l)) as (l2 & Hl & _).
  rewrite Hl. destruct (drop_back p (drop_front p l)); [done|]. by simpl in *.
Qed.

Lemma trim_idem p l : trim p (trim p l) = trim p l.
Proof. apply trim_trimmed, trim_is_trimmed. Qed.

Lemma ignore_case_loop_spec l r :
  length l = length r -> ignore_case_loop l r = true <-> tolower <$> l = tolower <$> r.
Proof.
  revert r. induction l as [|a l IH]; intros [|b r] H; try done. simpl in H. csimpl.
  destruct (Z.eqb_spec (tolower a) (tolower b)) as [E|E]; simpl.
  - rewrite IH by lia. rewrite E. split; [by intros ->|by intros [= ->]].
  - split; [done|]. by intros [= ? _].
Qed.

#[export] Hint Rewrite is_char_true is_char_false same_true empty_true empty_false trim_idem : syscape.
#[export] Hint Resolve trim_is_trimmed trim_trimmed : syscape.

(** ** The field loop computes a fold over [fields] *)

Lemma fields_unfold sep l :
  fields sep l =
  match find_first (is_char sep) l with
  | Some i => take i l :: fields sep (drop (S i) l)
  | None => match l with [] => [] | _ => [l] end
  end.
Proof.
  induction l as [|c l IH]; [done|]. simpl. fold (is_char sep c).
  destruct (is_char sep c) eqn:Hc; [by rewrite drop_0|].
  rewrite IH. destruct (find_first (is_char sep) l) as [i|]; simpl; [done|].
  by destruct l.
Qed.

Lemma fields_app sep f l :
  sep ∉ f -> fields sep (f ++ sep :: l) = f :: fields sep l.
Proof.
  intros Hf. rewrite fields_unfold, find_first_app.
  - rewrite take_app_length. f_equal. f_equal.
    replace (S (length f)) with (length f + 1)%nat by lia.
    by rewrite <- drop_drop, drop_app_length.
  - rewrite Forall_forall. intros d Hd. apply is_char_false. intros ->. done.
  - by apply is_char_true.
Qed.

Lemma fields_one sep f : sep ∉ f -> f <> [] -> fields sep f = [f].
Proof.
  intros Hf Hne. rewrite fields_unfold.
  rewrite (proj2 (find_first_none _ _)); [by destruct f|].
  rewrite Forall_forall. intros d Hd. apply is_char_false. intros ->. done.
Qed.

(** Fields terminated by [sep], concatenated. *)
Lemma fields_concat sep fs rest :
  Forall (fun f => sep ∉ f) fs ->
  fields sep (concat ((fun f => f ++ [sep]) <$> fs) ++ rest) = fs ++ fields sep rest.
Proof.
  induction 1 as [|f fs Hf _ IH]; csimpl; [done|].
  rewrite <- !app_assoc. csimpl. by rewrite fields_app, IH.
Qed.

Lemma fields_no_sep sep l : Forall (fun f => sep ∉ f) (fields sep l).
Proof.
  induction l as [l IH] using list_length_ind. rewrite fields_unfold.
  destruct (find_first (is_char sep) l) as [i|] eqn:E.
  - destruct (find_first_split _ _ _ E) as (c & Hl & _ & Hf).
    constructor.
    + intros Hin. rewrite Forall_forall in Hf. apply Hf in Hin.
      by apply is_char_false in Hin.
    + apply IH. rewrite length_drop. apply find_first_lt in E. lia.
  - apply find_first_none in E. destruct l as [|c l]; [done|].
    constructor; [|done]. intros Hin. rewrite Forall_forall in E.
    by apply E, is_char_false in Hin.
Qed.

Section field_loop_spec.
Context {S R : Type}.

Lemma field_loop_fields fuel sep input offset (body : text -> S -> step S R) s :
  (length input < fuel + offset)%nat ->
  field_loop fuel sep input offset body s = fold_steps body (fields sep (drop offset input)) s.
Proof.
  revert offset s. induction fuel as [|fuel IH]; intros offset s Hfuel; simpl.
  - by rewrite drop_ge by lia.
  - destruct (Nat.ltb_spec offset (length input)) as [Hlt|Hge];
      [|by rewrite drop_ge by lia].
    rewrite fields_unfold. unfold find, substr.
    destruct (find_first (is_char sep) (drop offset input)) as [i|] eqn:E; simpl.
    + replace (offset + i - offset)%nat with i by lia.
      destruct (body _ s) as [s'|r]; [|done]. rewrite IH by lia.
      rewrite drop_drop. do 2 f_equal. f_equal. lia.
    + rewrite take_ge by (rewrite length_drop; lia).
      destruct (drop offset input) as [|c l] eqn:D.
      { apply drop_nil_iff in D. lia. }
      simpl. destruct (body (c :: l) s) as [s'|r]; [|done].
      rewrite IH by lia. by rewrite drop_ge by lia.
Qed.

(** [each_field] terminates with the fold over the fields of the input. *)
Lemma each_field_fields sep input (body : text -> S -> step S R) s :
  each_field sep input body s = fold_steps body (fields sep input) s.
Proof. unfold each_field. rewrite field_loop_fields by lia. by rewrite drop_0. Qed.

Lemma fold_steps_app {A} (body : A -> S -> step S R) l1 l2 s :
  fold_steps body (l1 ++ l2) s =
  match fold_steps body l1 s with
  | Next s' => fold_steps body l2 s'
  | Return r => Return r
  end.
Proof.
  revert s. induction l1 as [|a l1 IH]; intros s; simpl; [done|].
  by destruct (body a s).
Qed.

(** An invariant of the body holds of the state the fold ends in. *)
Lemma fold_steps_inv {A} (P : S -> Prop) (Q : R -> Prop) (body : A -> S -> step S R) l s :
  P s ->
  (forall a s, P s -> match body a s with Next s' => P s' | Return r => Q r end) ->
  match fold_steps body l s with Next s' => P s' | Return r => Q r end.
Proof.
  intros Hs Hbody. revert s Hs. induction l as [|a l IH]; intros s Hs; simpl; [done|].
  pose proof (Hbody a s Hs) as Ha. destruct (body a s); [by apply IH|done].
Qed.

Lemma fold_steps_skip {A} (body : A -> S -> step S R) l s :
  (forall a, a ∈ l -> body a s = Next s) -> fold_steps body l s = Next s.
Proof.
  induction l as [|a l IH]; simpl; [done|]. intros H.
  rewrite H by set_solver. apply IH. set_solver.
Qed.

End field_loop_spec.

(** ** The token loop computes a fold over [tokens] *)

Lemma prefix_length_le p l : (prefix_length p l <= length l)%nat.
Proof. induction l as [|c l IH]; simpl; [done|]. destruct (p c); lia. Qed.

Lemma tokens_drop_front sep l :
  tokens sep l = tokens sep (drop (prefix_length sep l) l).
Proof.
  induction l as [|c l IH]; [done|]. simpl.
  destruct (sep c) eqn:Hc; simpl; [done|]. by rewrite Hc.
Qed.

Lemma drop_prefix_head p l c l' :
  drop (prefix_length p l) l = c :: l' -> p c = false.
Proof.
  induction l as [|d l IH]; simpl; [done|].
  destruct (p d) eqn:Hd; simpl; [done|]. by intros [= <- <-].
Qed.

Lemma tokens_cons sep c l :
  sep c = false ->
  let k := prefix_length (fun c => negb (sep c)) (c :: l) in
  tokens sep (c :: l) = take k (c :: l) :: tokens sep (drop k (c :: l)).
Proof.
  revert c. induction l as [|d l IH]; intros c Hc; simpl; rewrite Hc; simpl; [done|].
  destruct (sep d) eqn:Hd; simpl; [by rewrite Hd|].
  specialize (IH d Hd). simpl in IH. rewrite Hd in IH. simpl in IH.
  by rewrite IH.
Qed.

Section token_loop_spec.
Context {S R : Type}.

Lemma token_loop_tokens fuel sep more input pos (body : text -> S -> step S R) s :
  (length input < fuel + pos)%nat ->
  loop_state (token_loop fuel sep more input pos body s) =
  fold_while more body (tokens sep (drop pos input)) s.
Proof.
  revert pos s. induction fuel as [|fuel IH]; intros pos s Hfuel; simpl.
  - by rewrite drop_ge by lia.
  - destruct (Nat.ltb_spec pos (length input)) as [Hlt|Hge]; simpl;
      [|by rewrite drop_ge by lia].
    rewrite tokens_drop_front, drop_drop. fold (scan sep input pos).
    destruct (Nat.leb_spec (length input) (scan sep input pos)) as [Hle|Hgt].
    { rewrite drop_ge by lia. simpl. by destruct (more s). }
    destruct (drop (scan sep input pos) input) as [|c l] eqn:D.
    { apply drop_nil_iff in D. lia. }
    assert (Hc : sep c = false).
    { apply (drop_prefix_head sep (drop pos input) c l). rewrite drop_drop. apply D. }
    rewrite (tokens_cons sep c l Hc). simpl fold_while.
    destruct (more s); [|done].
    set (start := scan sep input pos) in *.
    set (k := prefix_length (fun c => negb (sep c)) (c :: l)) in *.
    assert (scan (fun c => negb (sep c)) input start = start + k)%nat as ->.
    { unfold scan. by rewrite D. }
    assert (0 < k)%nat by (subst k; simpl; rewrite Hc; simpl; lia).
    assert (pos <= start)%nat by (subst start; unfold scan; lia).
    unfold substr. rewrite D. replace (start + k - start)%nat with k by lia.
    destruct (body _ s) as [s'|r]; [|done].
    rewrite IH by lia. by rewrite <- drop_drop, D.
Qed.

Lemma each_token_tokens sep more input (body : text -> S -> step S R) s :
  loop_state (each_token sep more input body s) = fold_while more body (tokens sep input) s.
Proof. unfold each_token. rewrite token_loop_tokens by lia. by rewrite drop_0. Qed.

Lemma fold_while_true {A} (body : A -> S -> step S R) l s :
  fold_while (fun _ => true) body l s = fold_steps body l s.
Proof.
  revert s. induction l as [|a l IH]; intros s; simpl; [done|]. by destruct (body a s).
Qed.

End token_loop_spec.

Lemma tokens_app sep t c l :
  t <> [] -> Forall (fun c => sep c = false) t -> sep c = true ->
  tokens sep (t ++ c :: l) = t :: tokens sep l.
Proof.
  intros Hne Ht Hc. induction Ht as [|d t Hd Ht IH]; [done|]. simpl. rewrite Hd.
  destruct t as [|e t].
  - simpl. by rewrite Hc.
  - apply Forall_cons_1 in Ht as [He Ht]. simpl. rewrite He.
    simpl in IH. rewrite He in IH. by rewrite IH.
Qed.

Lemma tokens_one sep t :
  t <> [] -> Forall (fun c => sep c = false) t -> tokens sep t = [t].
Proof.
  intros Hne Ht. induction Ht as [|d t Hd Ht IH]; [done|]. simpl. rewrite Hd.
  destruct t as [|e t]; [done|].
  apply Forall_cons_1 in Ht as [He Ht]. simpl in IH |- *. rewrite He in IH |- *.
  by rewrite IH.
Qed.

Lemma tokens_skip sep c l : sep c = true -> tokens sep (c :: l) = tokens sep l.
Proof. intros Hc. simpl. by rewrite Hc. Qed.

Lemma tokens_blank sep l : Forall (fun c => sep c = true) l -> tokens sep l = [].
Proof. induction 1 as [|c l Hc _ IH]; [done|]. by rewrite tokens_skip. Qed.

(** ** Numerals *)

Lemma digit_of_bound base c d : digit_of base c = Some d -> 0 <= d < base.
Proof.
  unfold digit_of. pose proof (code_bound c). cbv zeta.
  repeat split_if; intros [= <-]; lia.
Qed.

Lemma digit_run_bound base l : Forall (fun d => 0 <= d < base) (digit_run base l).
Proof.
  induction l as [|c l IH]; simpl; [done|].
  destruct (digit_of base c) eqn:E; [|done]. constructor; [|done].
  by apply digit_of_bound in E.
Qed.

Lemma digits_value_acc base ds v :
  foldl (fun v d => v * base + d) v ds = v * base ^ Z.of_nat (length ds) + digits_value base ds.
Proof.
  revert v. induction ds as [|d ds IH]; intros v.
  { unfold digits_value. simpl. lia. }
  unfold digits_value. simpl foldl. rewrite (IH (v * base + d)), (IH (0 * base + d)).
  simpl length. rewrite Nat2Z.inj_succ, Z.pow_succ_r by lia. ring.
Qed.

Lemma digits_value_app base ds1 ds2 :
  digits_value base (ds1 ++ ds2) =
  digits_value base ds1 * base ^ Z.of_nat (length ds2) + digits_value base ds2.
Proof. unfold digits_value at 1. rewrite foldl_app. apply digits_value_acc. Qed.

Lemma digits_value_bound base ds :
  0 < base -> Forall (fun d => 0 <= d < base) ds ->
  0 <= digits_value base ds < base ^ Z.of_nat (length ds).
Proof.
  intros Hb. induction ds as [|d ds IH] using rev_ind; intros H.
  { unfold digits_value. simpl. lia. }
  apply Forall_app in H as [H Hd]. apply Forall_cons_1 in Hd as [Hd _].
  specialize (IH H). rewrite digits_value_app, length_app. simpl length.
  rewrite Nat2Z.inj_add, Z.pow_add_r by lia.
  assert (digits_value base [d] = d) as -> by (unfold digits_value; cbn [foldl]; ring).
  change (Z.of_nat 1) with 1. rewrite !Z.pow_1_r.
  nia.
Qed.

Lemma numeral_nonneg base l : 0 < base -> 0 <= numeral base l.
Proof.
  intros H. unfold numeral.
  pose proof (digits_value_bound base (digit_run base l) H (digit_run_bound base l)). lia.
Qed.

Lemma digit_run_numeric base l :
  forallb (is_digit_in base) l = true <-> length (digit_run base l) = length l.
Proof.
  induction l as [|c l IH]; [done|]. simpl. unfold is_digit_in at 1.
  destruct (digit_of base c); simpl; [|done]. rewrite IH. lia.
Qed.

Lemma digit_run_app base l1 l2 :
  forallb (is_digit_in base) l1 = true ->
  digit_run base (l1 ++ l2) = digit_run base l1 ++ digit_run base l2.
Proof.
  induction l1 as [|c l1 IH]; [done|]. simpl. unfold is_digit_in at 1.
  destruct (digit_of base c); simpl; [|done]. intros H. by rewrite IH.
Qed.

Lemma numeric_split base l :
  numeric base l = true <-> l <> [] /\ forallb (is_digit_in base) l = true.
Proof. unfold numeric. rewrite andb_true_iff, negb_true_iff, empty_false. done. Qed.

(** The value of hexadecimal digits read after those of [v]. *)
Definition hex_digits_value (l : text) (v : Z) : Z := foldl (fun v d => v * 16 + d) v (digit_run 16 l).

Lemma hex_digits_value_ge l v : 0 <= v -> v <= hex_digits_value l v.
Proof.
  unfold hex_digits_value. revert v. induction l as [|c l IH]; intros v Hv; cbn [digit_run]; [cbn; lia|].
  destruct (digit_of 16 c) as [d|] eqn:Ed; [|cbn; lia]. apply digit_of_bound in Ed. cbn [foldl].
  specialize (IH (v * 16 + d)). lia.
Qed.

(** What [from_chars] returns on a whole numeral. *)
Lemma from_chars_numeric max base l :
  numeric base l = true ->
  from_chars_unsigned max base l =
  if numeral base l <=? max then From_chars_result (length l) chars_ok (numeral base l)
  else From_chars_result (length l) chars_result_out_of_range 0.
Proof.
  rewrite numeric_split. intros [Hne Hd]. unfold from_chars_unsigned, numeral.
  apply digit_run_numeric in Hd. rewrite Hd.
  destruct (digit_run base l); [|done]. by destruct l.
Qed.

(** [from_chars] succeeds on the whole text exactly on numerals in range. *)
Lemma consumed_unsigned max base l :
  consumed (from_chars_unsigned max base l) l = true <->
  numeric base l = true /\ numeral base l <= max.
Proof.
  split.
  - unfold consumed, from_chars_unsigned, numeral.
    destruct (digit_run base l) as [|d ds] eqn:E; [done|].
    destruct (Z.leb_spec (digits_value base (d :: ds)) max); simpl; [|done].
    intros Hl. change ((length (d :: ds) =? length l)%nat = true) in Hl.
    apply Nat.eqb_eq in Hl. split; [|done]. apply numeric_split. split; [by destruct l|].
    apply digit_run_numeric. by rewrite E.
  - intros [Hn Hv]. rewrite from_chars_numeric by done.
    rewrite (proj2 (Z.leb_le _ _) Hv). unfold consumed. simpl.
    by apply Nat.eqb_refl.
Qed.

Lemma consumed_value max base l :
  consumed (from_chars_unsigned max base l) l = true ->
  fc_value (from_chars_unsigned max base l) = numeral base l.
Proof.
  rewrite consumed_unsigned. intros [Hn Hv]. rewrite from_chars_numeric by done.
  by rewrite (proj2 (Z.leb_le _ _) Hv).
Qed.

Lemma out_of_range_numeric max base l :
  numeric base l = true ->
  out_of_range (from_chars_unsigned max base l) = negb (numeral base l <=? max).
Proof.
  intros Hn. rewrite from_chars_numeric by done. unfold out_of_range.
  by destruct (numeral base l <=? max).
Qed.

Lemma fc_value_bound max base l :
  0 < base -> 0 <= max -> 0 <= fc_value (from_chars_unsigned max base l) <= max.
Proof.
  intros Hb Hm. pose proof (numeral_nonneg base l Hb) as Hn.
  unfold from_chars_unsigned, numeral in *. destruct (digit_run base l); simpl; [lia|].
  split_if; simpl; lia.
Qed.

Lemma fc_signed_bound min max base l :
  0 < base -> min <= 0 -> 0 <= max -> min <= fc_value (from_chars_signed min max base l) <= max.
Proof.
  intros Hb Hmin Hmax. unfold from_chars_signed. destruct l as [|c l]; simpl; [lia|].
  destruct (is_char c "-").
  - pose proof (numeral_nonneg base l Hb). unfold numeral in *.
    destruct (digit_run base l); simpl; [lia|]. split_if; simpl; lia.
  - pose proof (fc_value_bound max base (c :: l) Hb Hmax). lia.
Qed.

(** ** to_string *)

Lemma decimal_digits_value fuel n acc :
  0 <= n < 10 ^ Z.of_nat fuel ->
  foldl (fun v d => v * 10 + d) 0 (decimal_digits fuel n acc) =
  foldl (fun v d => v * 10 + d) n acc.
Proof.
  revert n acc. induction fuel as [|fuel IH]; intros n acc Hn.
  - simpl in Hn. replace n with 0 by lia. done.
  - simpl. destruct (Z.ltb_spec n 10); simpl; [by f_equal; lia|].
    rewrite Nat2Z.inj_succ, Z.pow_succ_r in Hn by lia. rewrite IH.
    + simpl. f_equal. pose proof (Z.div_mod n 10). lia.
    + split; [apply Z.div_pos; lia|]. apply Z.div_lt_upper_bound; lia.
Qed.

Lemma decimal_digits_bound fuel n acc :
  0 <= n -> Forall (fun d => 0 <= d < 10) acc ->
  Forall (fun d => 0 <= d < 10) (decimal_digits fuel n acc).
Proof.
  revert n acc. induction fuel as [|fuel IH]; intros n acc Hn Ha; simpl; [done|].
  destruct (Z.ltb_spec n 10); [constructor; [lia|done]|].
  apply IH; [apply Z.div_pos; lia|]. constructor; [|done].
  apply Z.mod_pos_bound. lia.
Qed.

Lemma decimal_digits_ne fuel n acc : decimal_digits (S fuel) n acc <> [].
Proof.
  revert n acc. induction fuel as [|fuel IH]; intros n acc.
  - simpl. by destruct (n <? 10).
  - remember (S fuel) as k. simpl. subst k. destruct (n <? 10); [done|]. apply IH.
Qed.

Lemma digit_of_digit_char d : 0 <= d < 10 -> digit_of 10 (digit_char d) = Some d.
Proof.
  intros Hd. unfold digit_of, digit_char. rewrite code_char_of by lia. cbv zeta.
  rewrite (proj2 (Z.leb_le 48 _)), (proj2 (Z.leb_le _ 57)) by lia. simpl andb. cbv iota.
  rewrite (proj2 (Z.ltb_lt _ 10)) by lia. f_equal. lia.
Qed.

Lemma digit_run_digit_char ds :
  Forall (fun d => 0 <= d < 10) ds -> digit_run 10 (digit_char <$> ds) = ds.
Proof.
  induction 1 as [|d ds Hd _ IH]; [done|]. csimpl.
  rewrite digit_of_digit_char by done. by rewrite IH.
Qed.

Lemma to_decimal_digits n :
  0 <= n -> digit_run 10 (to_decimal n) = decimal_digits (S (Z.to_nat (Z.log2 n))) n [].
Proof. intros Hn. apply digit_run_digit_char, decimal_digits_bound; auto. Qed.

Lemma numeral_to_decimal n : 0 <= n -> numeral 10 (to_decimal n) = n.
Proof.
  intros Hn. unfold numeral. rewrite to_decimal_digits by done.
  unfold digits_value. rewrite decimal_digits_value; [done|]. split; [done|].
  rewrite Nat2Z.inj_succ, Z2Nat.id by apply Z.log2_nonneg.
  destruct (Z.eq_dec n 0) as [->|]; [done|].
  apply Z.lt_le_trans with (2 ^ Z.succ (Z.log2 n)); [apply Z.log2_spec; lia|].
  apply Z.pow_le_mono_l. lia.
Qed.

Lemma numeric_to_decimal n : 0 <= n -> numeric 10 (to_decimal n) = true.
Proof.
  intros Hn. apply numeric_split. split.
  - unfold to_decimal. intros H. apply fmap_nil_inv in H.
    by apply decimal_digits_ne in H.
  - apply digit_run_numeric. rewrite to_decimal_digits by done.
    unfold to_decimal. by rewrite length_fmap.
Qed.

(** A digit is neither a blank nor a punctuation character. *)
Lemma digit_code c : is_digit_in 10 c = true <-> 48 <= code c <= 57.
Proof.
  unfold is_digit_in, digit_of. pose proof (code_bound c). cbv zeta. split.
  - repeat split_if; intros; try discriminate; lia.
  - intros Hc. rewrite (proj2 (Z.leb_le 48 _)), (proj2 (Z.leb_le _ 57)) by lia.
    simpl. by rewrite (proj2 (Z.ltb_lt _ 10)) by lia.
Qed.

Lemma numeric_Forall l :
  numeric 10 l = true -> Forall (fun c => 48 <= code c <= 57) l.
Proof.
  rewrite numeric_split. intros [_ H]. apply Forall_forall. intros c Hc.
  apply digit_code. apply forallb_forall with (x := c) in H; [done|].
  by apply list_elem_of_In.
Qed.

#[export] Hint Resolve numeral_nonneg numeric_to_decimal : syscape.
#[export] Hint Rewrite numeral_to_decimal using lia : syscape.

Lemma fields_join sep fs :
  Forall (fun f => sep ∉ f) fs -> Forall (fun f => f <> []) fs ->
  fields sep (join sep fs) = fs.
Proof.
  induction 1 as [|f fs Hf Hfs IH]; intros Hne; [done|].
  apply Forall_cons in Hne as [Hn Hne]. destruct fs as [|g fs].
  - simpl. by apply fields_one.
  - change (join sep (f :: g :: fs)) with (f ++ sep :: join sep (g :: fs)).
    by rewrite fields_app, IH.
Qed.

Lemma trimmed_Forall p l : Forall (fun c => p c = false) l -> trimmed p l.
Proof.
  intros H. rewrite Forall_forall in H. split; intros c Hc; apply H.
  - by apply list_elem_of_lookup_2 in Hc.
  - rewrite last_lookup in Hc. by apply list_elem_of_lookup_2 in Hc.
Qed.

Lemma to_decimal_Forall n : 0 <= n -> Forall (fun c => 48 <= code c <= 57) (to_decimal n).
Proof. intros Hn. by apply numeric_Forall, numeric_to_decimal. Qed.

Lemma to_decimal_ne n : 0 <= n -> to_decimal n <> [].
Proof. intros Hn. pose proof (numeric_to_decimal n Hn) as H. by apply numeric_split in H as [? _]. Qed.

Lemma not_in_digits c l :
  Forall (fun c => 48 <= code c <= 57) l -> ~ (48 <= code c <= 57) -> c ∉ l.
Proof. rewrite Forall_forall. intros H Hc Hin. by apply Hc, H. Qed.

(** A class of characters without digits is absent from a text of digits. *)
Lemma digits_class (p : ascii -> bool) l :
  (forall c, 48 <= code c <= 57 -> p c = false) ->
  Forall (fun c => 48 <= code c <= 57) l -> Forall (fun c => p c = false) l.
Proof. intros Hp H. eapply Forall_impl; [exact H|]. auto. Qed.

Lemma from_chars_to_decimal max n :
  0 <= n <= max ->
  from_chars_unsigned max 10 (to_decimal n) =
  From_chars_result (length (to_decimal n)) chars_ok n.
Proof.
  intros Hn. rewrite from_chars_numeric by (apply numeric_to_decimal; lia).
  rewrite numeral_to_decimal by lia. by rewrite (proj2 (Z.leb_le _ _)) by lia.
Qed.

Lemma consumed_to_decimal max n :
  0 <= n <= max ->
  consumed (from_chars_unsigned max 10 (to_decimal n)) (to_decimal n) = true.
Proof.
  intros Hn. apply consumed_unsigned. split; [apply numeric_to_decimal; lia|].
  rewrite numeral_to_decimal; lia.
Qed.

Lemma find_none c l : c ∉ l -> find c l 0 = None.
Proof.
  intros Hc. rewrite find_0. apply find_first_none, Forall_forall.
  intros d Hd. apply is_char_false. intros ->. done.
Qed.

Lemma find_app c l1 l2 : c ∉ l1 -> find c (l1 ++ c :: l2) 0 = Some (length l1).
Proof.
  intros Hc. rewrite find_0. apply find_first_app; [|by apply is_char_true].
  apply Forall_forall. intros d Hd. apply is_char_false. intros ->. done.
Qed.

Lemma find_after c l1 l2 d :
  c ∉ l2 -> find c (l1 ++ d :: l2) (S (length l1)) = None.
Proof.
  intros Hc. unfold find. replace (S (length l1)) with (length l1 + 1)%nat by lia.
  rewrite <- drop_drop, drop_app_length. simpl. rewrite drop_0.
  rewrite <- find_0, find_none by done. done.
Qed.

Lemma substr_prefix l1 l2 : substr 0 (length l1) (l1 ++ l2) = l1.
Proof. unfold substr. rewrite drop_0. apply take_app_length. Qed.

Lemma substr_suffix l1 c l2 : substr_from (S (length l1)) (l1 ++ c :: l2) = l2.
Proof.
  unfold substr_from. replace (S (length l1)) with (length l1 + 1)%nat by lia.
  by rewrite <- drop_drop, drop_app_length.
Qed.

(** ** The algorithms *)

Lemma elem_of_set_to_vector x s : x ∈ set_to_vector s <-> x ∈ s.
Proof. unfold set_to_vector. by rewrite merge_sort_Permutation, elem_of_elements. Qed.

Lemma set_to_vector_sorted s : StronglySorted Z.lt (set_to_vector s).
Proof.
  assert (StronglySorted Z.le (set_to_vector s)) as H.
  { unfold set_to_vector. apply StronglySorted_merge_sort; apply _. }
  assert (NoDup (set_to_vector s)) as Hn.
  { unfold set_to_vector. rewrite merge_sort_Permutation. apply NoDup_elements. }
  induction H as [|x l Hl IH Hx]; constructor.
  - apply NoDup_cons in Hn as [_ Hn]. by apply IH.
  - apply NoDup_cons in Hn as [Hn _]. rewrite Forall_forall in Hx |- *.
    intros y Hy. specialize (Hx y Hy). assert (x <> y) by (intros ->; done). lia.
Qed.

Lemma set_to_vector_nil s : set_to_vector s = [] <-> s = ∅.
Proof.
  split.
  - intros H. apply set_eq. intros x. rewrite <- elem_of_set_to_vector, H. set_solver.
  - intros ->. unfold set_to_vector. by rewrite elements_empty.
Qed.

Lemma elem_of_insert_range x first last s :
  x ∈ insert_range first last s <-> first <= x <= last \/ x ∈ s.
Proof.
  unfold insert_range. rewrite elem_of_union, elem_of_list_to_set, elem_of_seqZ.
  assert (first <= x < first + (last - first + 1) <-> first <= x <= last) as -> by lia.
  done.
Qed.

(** [std_sort] on a strict weak order: a sorted permutation. *)
Lemma std_sort_permutation {A} (lt : A -> A -> bool) l : std_sort lt l ≡ₚ l.
Proof. apply merge_sort_Permutation. Qed.

Lemma std_sort_sorted {A} (lt : A -> A -> bool) l :
  Transitive (not_after lt) -> Total (not_after lt) ->
  StronglySorted (not_after lt) (std_sort lt l).
Proof. intros. by apply StronglySorted_merge_sort. Qed.

(** ** Lexicographic comparisons are total orders *)

Lemma lexicographic_asym l k : lexicographic l k = true -> lexicographic k l = false.
Proof.
  revert k. induction l as [|x l IH]; intros [|y k]; simpl; try done.
  repeat split_if; try done; try lia. apply IH.
Qed.

Lemma lexicographic_trans l1 l2 l3 :
  lexicographic l2 l1 = false -> lexicographic l3 l2 = false -> lexicographic l3 l1 = false.
Proof.
  revert l2 l3. induction l1 as [|x l1 IH]; intros [|y l2] [|z l3]; simpl; try done.
  repeat split_if; try done; try lia. apply IH.
Qed.

Lemma lexicographic_antisym l k :
  lexicographic l k = false -> lexicographic k l = false -> l = k.
Proof.
  revert k. induction l as [|x l IH]; intros [|y k]; simpl; try done.
  repeat split_if; try done; try lia. intros. f_equal; [lia|]. by apply IH.
Qed.

Lemma lexicographic_irrefl l : lexicographic l l = false.
Proof. induction l as [|x l IH]; simpl; [done|]. by rewrite Z.ltb_irrefl. Qed.

Lemma lexicographic_lt_trans l1 l2 l3 :
  lexicographic l1 l2 = true -> lexicographic l2 l3 = true -> lexicographic l1 l3 = true.
Proof.
  intros H1 H2. apply not_false_iff_true. intros H3.
  pose proof (lexicographic_asym _ _ H2) as H2'.
  assert (lexicographic l1 l2 = false) by (by apply (lexicographic_trans l2 l3 l1)). congruence.
Qed.

Lemma lexicographic_app a b x y :
  length a = length b ->
  lexicographic (a ++ x) (b ++ y) =
  if bool_decide (a = b) then lexicographic x y else lexicographic a b.
Proof.
  revert b. induction a as [|h a IH]; intros [|k b]; try done. intros [= Hl]. cbn [app lexicographic].
  rewrite (IH b Hl). destruct (Z.ltb_spec h k).
  - rewrite bool_decide_eq_false_2; [done|]. intros [=]. lia.
  - destruct (Z.ltb_spec k h).
    + rewrite bool_decide_eq_false_2; [done|]. intros [=]. lia.
    + assert (h = k) as -> by lia. destruct (bool_decide (a = b)) eqn:E; bool_to_prop.
      * subst. by rewrite bool_decide_eq_true_2.
      * rewrite bool_decide_eq_false_2; [done|]. by intros [=].
Qed.

Section key_order.
Context {A : Type} (lt : A -> A -> bool) (key : A -> list Z).
Context (lt_key : forall a b, lt a b = lexicographic (key a) (key b)).

Lemma not_after_total : Total (not_after lt).
Proof.
  intros a b. unfold not_after. rewrite !lt_key.
  destruct (lexicographic (key b) (key a)) eqn:E; [right|by left].
  by apply lexicographic_asym.
Qed.

Lemma not_after_trans : Transitive (not_after lt).
Proof. intros a b c. unfold not_after. rewrite !lt_key. apply lexicographic_trans. Qed.

Lemma std_sort_key_sorted l : StronglySorted (not_after lt) (std_sort lt l).
Proof. apply std_sort_sorted; [apply not_after_trans|apply not_after_total]. Qed.

Lemma not_after_key_antisym a b : not_after lt a b -> not_after lt b a -> key a = key b.
Proof. unfold not_after. rewrite !lt_key. intros. by apply lexicographic_antisym. Qed.

End key_order.

Lemma set_intersection_sorted l k :
  StronglySorted Z.lt l -> StronglySorted Z.lt (set_intersection l k).
Proof.
  unfold set_intersection. induction 1 as [|x l Hl IH Hx]; [constructor|].
  rewrite filter_cons. case_decide; [|done]. constructor; [done|].
  rewrite Forall_forall in Hx |- *. intros y Hy. apply Hx. by apply list_elem_of_filter in Hy as [_ Hy].
Qed.

(** ** Finding a separator *)

Lemma numeral_lt base l : 0 < base -> numeral base l < base ^ Z.of_nat (length (digit_run base l)).
Proof. intros Hb. apply digits_value_bound; [done|apply digit_run_bound]. Qed.

Lemma numeral_length base l :
  1 < base -> numeric base l = true -> 0 <= numeral base l < base ^ Z.of_nat (length l).
Proof.
  intros Hb [_ Hd]%numeric_split. apply digit_run_numeric in Hd. rewrite <- Hd.
  split; [apply numeral_nonneg; lia|apply numeral_lt; lia].
Qed.

Lemma find_split c l i :
  find c l 0 = Some i ->
  l = substr 0 i l ++ c :: substr_from (S i) l /\ c ∉ substr 0 i l /\ length (substr 0 i l) = i.
Proof.
  rewrite find_0. intros Hf. pose proof (find_first_lt _ _ _ Hf) as Hlt.
  apply find_first_split in Hf as (d & Hl & Hd%is_char_true & Hf). subst d.
  unfold substr, substr_from. rewrite drop_0. split; [done|]. split.
  - intros Hin. rewrite Forall_forall in Hf. apply Hf in Hin. by apply is_char_false in Hin.
  - rewrite length_take. lia.
Qed.

Lemma find_app_parts c l1 l2 :
  c ∉ l1 -> find c (l1 ++ c :: l2) 0 = Some (length l1) /\
  substr 0 (length l1) (l1 ++ c :: l2) = l1 /\ substr_from (S (length l1)) (l1 ++ c :: l2) = l2.
Proof. intros Hc. by rewrite find_app, substr_prefix, substr_suffix. Qed.

Lemma numeric_no_char c l : numeric 10 l = true -> ~ (48 <= code c <= 57) -> c ∉ l.
Proof. intros Hn Hc. by apply not_in_digits; [apply numeric_Forall|]. Qed.

(** ** Digits *)

Lemma digit_char_range d : 0 <= d < 10 -> 48 <= code (digit_char d) <= 57.
Proof. intros Hd. unfold digit_char. rewrite code_char_of; lia. Qed.

Lemma two_digits_value a b :
  0 <= a < 10 -> 0 <= b < 10 ->
  numeric 10 [digit_char a; digit_char b] = true /\
  numeral 10 [digit_char a; digit_char b] = 10 * a + b.
Proof.
  intros Ha Hb. unfold numeric, numeral, is_digit_in, digits_value. cbn [digit_run forallb].
  rewrite !digit_of_digit_char by done. cbn [foldl]. split; [done|]. lia.
Qed.

Lemma decimal_digits_length fuel k n acc :
  0 <= n < 10 ^ Z.of_nat k -> (0 < k)%nat ->
  (length (decimal_digits fuel n acc) <= k + length acc)%nat.
Proof.
  revert k n acc. induction fuel as [|fuel IH]; intros k n acc Hn Hk; simpl; [lia|].
  destruct (Z.ltb_spec n 10); simpl; [lia|].
  destruct k as [|[|k]]; [lia|simpl in Hn; lia|].
  assert (0 <= n / 10 < 10 ^ Z.of_nat (S k)) as Hq.
  { rewrite (Nat2Z.inj_succ (S k)), Z.pow_succ_r in Hn by lia.
    split; [apply Z.div_pos; lia|]. apply Z.div_lt_upper_bound; lia. }
  specialize (IH (S k) (n / 10) (n mod 10 :: acc) Hq ltac:(lia)). simpl in IH. lia.
Qed.

Lemma to_decimal_length n k :
  0 <= n < 10 ^ Z.of_nat k -> (0 < k)%nat -> (1 <= length (to_decimal n) <= k)%nat.
Proof.
  intros Hn Hk. split.
  - unfold to_decimal. rewrite length_fmap. pose proof (decimal_digits_ne (Z.to_nat (Z.log2 n)) n []).
    destruct (decimal_digits _ n []); [done|simpl; lia].
  - unfold to_decimal. rewrite length_fmap.
    pose proof (decimal_digits_length (S (Z.to_nat (Z.log2 n))) k n [] Hn Hk) as H.
    cbn [length] in H. lia.
Qed.

(** ** Where the token loop stops *)

Section token_loop_rest.
Context {S R : Type}.

(** [fold_while], with the elements it did not visit. *)
Fixpoint fold_rest {A} (more : S -> bool) (body : A -> S -> step S R) (fs : list A) (state : S)
    : step (S * list A) R :=
  match fs with
  | [] => Next (state, [])
  | f :: rest =>
      if more state then
        match body f state with
        | Next state' => fold_rest more body rest state'
        | Return r => Return r
        end
      else Next (state, fs)
  end.

Lemma scan_tokens sep input pos :
  (pos <= length input)%nat ->
  (scan sep input pos <= length input)%nat /\
  tokens sep (drop (scan sep input pos) input) = tokens sep (drop pos input) /\
  (scan sep input pos = length input <-> tokens sep (drop pos input) = []).
Proof.
  intros Hpos. pose proof (prefix_length_le sep (drop pos input)) as Hle. rewrite length_drop in Hle.
  assert (scan sep input pos <= length input)%nat as Hs by (unfold scan; lia).
  assert (tokens sep (drop (scan sep input pos) input) = tokens sep (drop pos input)) as Ht
    by (rewrite (tokens_drop_front sep (drop pos input)), drop_drop; done).
  split; [done|]. split; [done|]. rewrite <- Ht. split.
  - intros He. by rewrite drop_ge by lia.
  - intros Hnil. destruct (decide (scan sep input pos = length input)) as [|Hne]; [done|exfalso].
    destruct (drop (scan sep input pos) input) as [|c l] eqn:D; [apply drop_nil_iff in D; lia|].
    assert (sep c = false) as Hc.
    { apply (drop_prefix_head sep (drop pos input) c l). rewrite drop_drop. apply D. }
    by rewrite tokens_cons in Hnil.
Qed.

Lemma token_loop_rest fuel sep more input pos (body : text -> S -> step S R) s :
  (length input < fuel + pos)%nat -> (pos <= length input)%nat ->
  match token_loop fuel sep more input pos body s with
  | Next (s', pos') =>
      (pos' <= length input)%nat /\
      fold_rest more body (tokens sep (drop pos input)) s = Next (s', tokens sep (drop pos' input))
  | Return r => fold_rest more body (tokens sep (drop pos input)) s = Return r
  end.
Proof.
  revert pos s. induction fuel as [|fuel IH]; intros pos s Hfuel Hpos; [lia|]. cbn [token_loop].
  destruct (scan_tokens sep input pos Hpos) as (Hs & Ht & He).
  destruct (Nat.ltb_spec pos (length input)) as [Hlt|Hge]; simpl;
    [|by rewrite drop_ge by lia].
  destruct (more s) eqn:Hm.
  - destruct (Nat.leb_spec (length input) (scan sep input pos)) as [Hle|Hgt].
    { split; [done|]. rewrite Ht. assert (tokens sep (drop pos input) = []) as -> by (apply He; lia).
      done. }
    rewrite <- Ht. destruct (drop (scan sep input pos) input) as [|c l] eqn:D.
    { apply drop_nil_iff in D. lia. }
    assert (Hc : sep c = false).
    { apply (drop_prefix_head sep (drop pos input) c l). rewrite drop_drop. apply D. }
    rewrite (tokens_cons sep c l Hc). cbn [fold_rest]. rewrite Hm.
    set (start := scan sep input pos) in *.
    set (k := prefix_length (fun c => negb (sep c)) (c :: l)) in *.
    assert (scan (fun c => negb (sep c)) input start = start + k)%nat as Hk.
    { unfold scan. by rewrite D. }
    pose proof (prefix_length_le (fun c => negb (sep c)) (c :: l)) as Hkl. fold k in Hkl.
    apply (f_equal length) in D as Hlen. rewrite length_drop in Hlen.
    assert (0 < k)%nat by (subst k; simpl; rewrite Hc; simpl; lia).
    assert (pos <= start)%nat by (subst start; unfold scan; lia).
    rewrite Hk. unfold substr. rewrite D. replace (start + k - start)%nat with k by lia.
    destruct (body _ s) as [s'|r]; [|done].
    specialize (IH (start + k)%nat s' ltac:(lia) ltac:(lia)).
    rewrite <- drop_drop, D in IH. apply IH.
  - split; [done|]. destruct (tokens sep (drop pos input)) as [|t ts]; [done|].
    cbn [fold_rest]. by rewrite Hm.
Qed.

Lemma each_token_rest sep more input (body : text -> S -> step S R) s :
  match each_token sep more input body s with
  | Next (s', pos) =>
      (pos <= length input)%nat /\
      fold_rest more body (tokens sep input) s = Next (s', tokens sep (drop pos input))
  | Return r => fold_rest more body (tokens sep input) s = Return r
  end.
Proof.
  pose proof (token_loop_rest (Datatypes.S (length input)) sep more input 0 body s) as H.
  rewrite drop_0 in H. apply H; lia.
Qed.

End token_loop_rest.

Lemma tokens_concat sep c ts :
  sep c = true -> Forall (fun t => t <> [] /\ Forall (fun c => sep c = false) t) ts ->
  tokens sep (concat (cons c <$> ts)) = ts.
Proof.
  intros Hc. induction 1 as [|t ts [Hne Ht] Hts IH]; [done|].
  change (concat (cons c <$> t :: ts)) with (c :: t ++ concat (cons c <$> ts)).
  rewrite tokens_skip by done. destruct ts as [|t' ts].
  - simpl. rewrite app_nil_r. by apply tokens_one.
  - change (concat (cons c <$> t' :: ts)) with (c :: t' ++ concat (cons c <$> ts)) in *.
    rewrite tokens_app by done. rewrite tokens_skip in IH by done. by rewrite IH.
Qed.

Lemma rfind_app_parts c l1 l2 :
  c ∉ l2 -> rfind c (l1 ++ c :: l2) = Some (length l1) /\
  substr 0 (length l1) (l1 ++ c :: l2) = l1 /\ substr_from (S (length l1)) (l1 ++ c :: l2) = l2.
Proof.
  intros Hc. split; [|by rewrite substr_prefix, substr_suffix].
  unfold rfind. apply find_last_app; [by apply is_char_true|].
  apply Forall_forall. intros d Hd. apply is_char_false. intros ->. done.
Qed.

Lemma not_in_spaced c ts :
  c <> " "%char -> Forall (fun t => c ∉ t) ts -> c ∉ concat (cons " "%char <$> ts).
Proof.
  intros Hc. induction 1 as [|t ts Ht _ IH]; [apply not_elem_of_nil|]. csimpl.
  rewrite not_elem_of_cons, not_elem_of_app. done.
Qed.

(** ** Fixed-width hexadecimal *)

(** The upper-case digit [printf("%X")] prints. *)
Definition hex_digit (d : Z) : ascii := char_of (if d <? 10 then 48 + d else 55 + d).

Fixpoint hex_text (n : nat) (v : Z) : text :=
  match n with
  | O => []
  | S n => hex_text n (v / 16) ++ [hex_digit (v mod 16)]
  end.

Lemma digit_of_hex_digit d : 0 <= d < 16 -> digit_of 16 (hex_digit d) = Some d.
Proof.
  intros Hd. assert (d ∈ seqZ 0 16) as Hin by (apply elem_of_seqZ; lia).
  assert (Forall (fun d => digit_of 16 (hex_digit d) = Some d) (seqZ 0 16)) as H by by_compute.
  rewrite Forall_forall in H. by apply H.
Qed.

Lemma hex_text_length n v : length (hex_text n v) = n.
Proof. revert v. induction n as [|n IH]; intros v; simpl; [done|]. rewrite length_app, IH. simpl. lia. Qed.

Lemma hex_text_digits n v :
  0 <= v -> forallb (is_digit_in 16) (hex_text n v) = true /\
  numeral 16 (hex_text n v) = v mod 16 ^ Z.of_nat n.
Proof.
  revert v. induction n as [|n IH]; intros v Hv.
  { simpl. by rewrite Z.mod_1_r. }
  destruct (IH (v / 16)) as [Hd Hn]; [apply Z.div_pos; lia|].
  pose proof (digit_of_hex_digit (v mod 16) ltac:(apply Z.mod_pos_bound; lia)) as Hx.
  cbn [hex_text]. split.
  - rewrite forallb_app, Hd. simpl. unfold is_digit_in. by rewrite Hx.
  - unfold numeral in *. rewrite digit_run_app by done. cbn [digit_run]. rewrite Hx, digits_value_app, Hn.
    assert (digits_value 16 [v mod 16] = v mod 16) as ->
      by (unfold digits_value; cbn [foldl]; ring).
    change (16 ^ Z.of_nat (length [v mod 16])) with 16.
    rewrite Nat2Z.inj_succ, Z.pow_succ_r, (Z.rem_mul_r v 16) by lia. lia.
Qed.

Lemma hex_text_numeric n v :
  0 <= v < 16 ^ Z.of_nat n -> (0 < n)%nat ->
  numeric 16 (hex_text n v) = true /\ numeral 16 (hex_text n v) = v.
Proof.
  intros Hv Hn. destruct (hex_text_digits n v) as [Hd Hx]; [lia|]. split.
  - apply numeric_split. split; [|done]. intros H. apply (f_equal length) in H.
    rewrite hex_text_length in H. simpl in H. lia.
  - rewrite Hx. apply Z.mod_small. lia.
Qed.

Definition hex_char (c : ascii) : Prop := 48 <= code c <= 57 \/ 65 <= code c <= 70.

Lemma hex_text_chars n v : 0 <= v -> Forall hex_char (hex_text n v).
Proof.
  revert v. induction n as [|n IH]; intros v Hv; simpl; [constructor|].
  apply Forall_app. split; [apply IH, Z.div_pos; lia|]. constructor; [|constructor].
  pose proof (Z.mod_pos_bound v 16 ltac:(lia)). unfold hex_char, hex_digit.
  destruct (Z.ltb_spec (v mod 16) 10); rewrite code_char_of by lia; lia.
Qed.

Lemma hex_chars_no l c : Forall hex_char l -> ~ hex_char c -> c ∉ l.
Proof. rewrite Forall_forall. intros H Hc Hin. by apply Hc, H. Qed.

(** ** The parts between separators *)

Lemma split_at_find separator l :
  split_at separator l =
  match find_first (is_char separator) l with
  | None => [l]
  | Some i => take i l :: split_at separator (drop (S i) l)
  end.
Proof.
  induction l as [|c l IH]; [done|]. cbn [split_at find_first]. destruct (is_char separator c); [done|].
  rewrite IH. destruct (find_first (is_char separator) l); done.
Qed.

Lemma split_at_app separator f l :
  separator ∉ f -> split_at separator (f ++ separator :: l) = f :: split_at separator l.
Proof.
  intros Hf. rewrite split_at_find. pose proof (find_app separator f l Hf) as H. rewrite find_0 in H.
  rewrite H, take_app_length. f_equal. f_equal.
  change (separator :: l) with ([separator] ++ l). rewrite app_assoc, drop_app_length'; [done|].
  rewrite length_app. simpl. lia.
Qed.

Lemma split_at_none separator f : separator ∉ f -> split_at separator f = [f].
Proof.
  intros Hf. rewrite split_at_find. pose proof (find_none separator f Hf) as H. rewrite find_0 in H. by rewrite H.
Qed.

Lemma split_at_clean separator l : Forall (fun f => separator ∉ f) (split_at separator l).
Proof.
  induction l as [|c l IH]; [repeat constructor; apply not_elem_of_nil|]. cbn [split_at].
  destruct (is_char separator c) eqn:E; [constructor; [apply not_elem_of_nil|done]|].
  apply is_char_false in E. destruct (split_at separator l) as [|f fs].
  - repeat constructor. by rewrite list_elem_of_singleton.
  - apply Forall_cons in IH as [Hf Hfs]. constructor; [|done]. by rewrite not_elem_of_cons.
Qed.

Lemma split_at_cons separator l : exists f fs, split_at separator l = f :: fs.
Proof. rewrite split_at_find. destruct (find_first _ l); eauto. Qed.

(** Joining the parts gives the text back. *)
Lemma join_split_at separator l : join separator (split_at separator l) = l.
Proof.
  induction l as [|c l IH]; [done|]. cbn [split_at]. destruct (split_at_cons separator l) as (f & fs & E).
  rewrite E in IH |- *. rewrite <- IH. destruct (is_char separator c) eqn:Ec; [|by destruct fs].
  apply is_char_true in Ec. by subst.
Qed.

Lemma split_at_join separator fs : fs <> [] -> Forall (fun f => separator ∉ f) fs -> split_at separator (join separator fs) = fs.
Proof.
  intros Hne Hf. induction Hf as [|f fs Hf _ IH]; [done|]. destruct fs as [|g fs]; [by apply split_at_none|].
  change (join separator (f :: g :: fs)) with (f ++ separator :: join separator (g :: fs)).
  by rewrite split_at_app, IH.
Qed.

(** The loop that takes the parts one after the other, [find] by [find]. *)
Lemma split_at_from separator l start :
  split_at separator (drop start l) =
  match find separator l start with
  | None => [substr_from start l]
  | Some stop => substr start (stop - start) l :: split_at separator (drop (S stop) l)
  end.
Proof.
  rewrite split_at_find. unfold find. destruct (find_first _ _) as [i|]; cbn [fmap option_fmap option_map]; [|done].
  unfold substr. rewrite drop_drop. f_equal; [f_equal; lia|]. do 2 f_equal. lia.
Qed.

Lemma join_cons sep (f : text) fs : fs <> [] -> join sep (f :: fs) = f ++ sep :: join sep fs.
Proof. by destruct fs. Qed.

Lemma join_concat sep t ts : join sep (t :: ts) = t ++ concat (cons sep <$> ts).
Proof.
  revert t. induction ts as [|t' ts IH]; intros t; [by rewrite app_nil_r|]. change (join sep (t :: t' :: ts)) with (t ++ sep :: join sep (t' :: ts)).
  rewrite IH. done.
Qed.

Lemma concat_join sep fs : fs <> [] -> concat (cons sep <$> fs) = sep :: join sep fs.
Proof. destruct fs as [|f fs]; [done|]. intros _. by rewrite join_concat. Qed.

(** ** Sorted lists without repetitions *)

Lemma std_unique_cons {A} `{EqDecision A} (a b : A) l :
  std_unique (a :: b :: l) = if bool_decide (a = b) then std_unique (b :: l) else a :: std_unique (b :: l).
Proof. done. Qed.

Lemma std_unique_elem {A} `{EqDecision A} (x : A) l : x ∈ std_unique l <-> x ∈ l.
Proof.
  induction l as [|a l IH]; [done|]. destruct l as [|b l]; [done|]. rewrite std_unique_cons.
  destruct (bool_decide (a = b)) eqn:E.
  - apply bool_decide_eq_true in E as ->. rewrite IH, !elem_of_cons. tauto.
  - rewrite elem_of_cons, IH. by rewrite (elem_of_cons _ x a).
Qed.

(** A list in an order becomes a strictly ascending one. *)
Lemma std_unique_sorted {A} `{EqDecision A} (R : A -> A -> Prop) l :
  (forall a b, R a b -> R b a -> a = b) -> StronglySorted R l -> StronglySorted (fun a b => R a b /\ a <> b) (std_unique l).
Proof.
  intros Hanti. induction 1 as [|a l Hl IH Ha]; [constructor|]. destruct l as [|b l]; [by repeat constructor|].
  rewrite std_unique_cons. destruct (bool_decide (a = b)) eqn:E; [done|]. apply bool_decide_eq_false in E.
  constructor; [done|]. apply Forall_forall. intros x Hx. rewrite std_unique_elem in Hx. rewrite Forall_forall in Ha. split; [by apply Ha|].
  intros ->. apply elem_of_cons in Hx as [->|Hx]; [by apply E|]. apply E, Hanti; [apply Ha; by left|].
  inversion Hl as [|? ? _ Hb]. subst. rewrite Forall_forall in Hb. by apply Hb.
Qed.
