(* ===== verification/Order.v ===== *)
(** * Comparisons field by field

    The orders the code writes for [std::sort]: the fields of two records are
    compared one after the other, the first difference deciding.  Each is the
    lexicographic order of a list of numbers, which makes it the strict weak
    order the sort requires. *)
From S2P Require Import Prelude CppText.

(** ** Orders

    [std::optional]'s [<] puts the empty one first. *)

Definition optional_less {A} (less : A -> A -> bool) (a b : option A) : bool :=
  match a, b with
  | _, None => false
  | None, Some _ => true
  | Some x, Some y => less x y
  end.

(** [if (a.x != b.x) { return a.x < b.x; } rest] *)
Definition then_by {A} `{EqDecision A} (less : A -> A -> bool) (a b : A) (rest : bool) : bool :=
  if negb (bool_decide (a = b)) then less a b else rest.

(** ** The orders are lexicographic

    A type whose comparison is that of lists of numbers that follow one
    another in a longer list. *)

Class Keyed (A : Type) `{EqDecision A} (less : A -> A -> bool) := {
  encode : A -> list Z;
  encode_less a b l k :
    lexicographic (encode a ++ l) (encode b ++ k) =
    then_by less a b (lexicographic l k)
}.

#[global] Program Instance keyed_Z : Keyed Z Z.ltb := {| encode v := [v] |}.
Next Obligation.
  intros a b l k. cbn [app lexicographic]. unfold then_by.
  destruct (Z.ltb_spec a b).
  - rewrite bool_decide_eq_false_2 by lia. done.
  - destruct (Z.ltb_spec b a); [rewrite bool_decide_eq_false_2 by lia; done|].
    rewrite bool_decide_eq_true_2 by lia. done.
Qed.

(** Each character plus one, then zero. *)
#[global] Program Instance keyed_text : Keyed text text_less :=
  {| encode t := ((fun c => code c + 1) <$> t) ++ [0] |}.
Next Obligation.
  intros a b l k. revert b. induction a as [|c a IH]; intros [|d b].
  - cbn [fmap list_fmap app]. unfold then_by. rewrite bool_decide_eq_true_2 by done.
    simpl. done.
  - csimpl. pose proof (code_bound d). rewrite (proj2 (Z.ltb_lt 0 _)) by lia. done.
  - csimpl. pose proof (code_bound c). rewrite (proj2 (Z.ltb_ge _ 0)), (proj2 (Z.ltb_lt 0 _)) by lia. done.
  - csimpl. specialize (IH b). unfold then_by, text_less in *. csimpl.
    destruct (Z.ltb_spec (code c + 1) (code d + 1)), (Z.ltb_spec (code c) (code d)); try lia.
    { rewrite bool_decide_eq_false_2; [done|]. intros [= -> _]. lia. }
    destruct (Z.ltb_spec (code d + 1) (code c + 1)), (Z.ltb_spec (code d) (code c)); try lia.
    { rewrite bool_decide_eq_false_2; [done|]. intros [= -> _]. lia. }
    assert (c = d) as -> by (apply code_inj; lia). rewrite IH.
    destruct (decide (a = b)) as [->|Hne]; [by rewrite !bool_decide_eq_true_2|].
    rewrite !bool_decide_eq_false_2 by (done || by intros [=]). done.
Qed.

#[global] Program Instance keyed_option {A} `{Keyed A less} : Keyed (option A) (optional_less less) :=
  {| encode v := match v with None => [0] | Some v => 1 :: encode v end |}.
Next Obligation.
  intros A HA less HK [a|] [b|] l k; unfold then_by; simpl.
  - rewrite encode_less. unfold then_by.
    destruct (decide (a = b)) as [->|Hne]; [by rewrite !bool_decide_eq_true_2|].
    by rewrite !bool_decide_eq_false_2 by (done || by intros [=]).
  - done.
  - done.
  - done.
Qed.

Lemma then_by_encode {A} `{Keyed A less} a b rest l k :
  rest = lexicographic l k -> then_by less a b rest = lexicographic (encode a ++ l) (encode b ++ k).
Proof. intros ->. by rewrite encode_less. Qed.

Lemma less_encode {A} `{Keyed A less} a b :
  less a a = false -> less a b = lexicographic (encode a ++ []) (encode b ++ []).
Proof.
  intros Hirr. rewrite encode_less. unfold then_by. destruct (decide (a = b)) as [<-|Hne].
  - by rewrite bool_decide_eq_true_2.
  - by rewrite bool_decide_eq_false_2.
Qed.

Lemma optional_text_irreflexive (t : option text) : optional_less text_less t t = false.
Proof. destruct t as [t|]; [|done]. apply lexicographic_irrefl. Qed.

#[global] Hint Resolve optional_text_irreflexive : core.
