(* ===== verification/Utf8.v ===== *)
(** * UTF-8 and UTF-16 conversion

    [include/syscape/detail/utf8.hpp].  The specification side is the list of
    Unicode scalar values a text encodes: [encode_utf8] and [encode_utf16] of
    a list of scalars. *)
From S2P Require Import Prelude Result CppText.

(** ** The code *)

Record decoded_code_point := Decoded_code_point {
  dcp_value : Z;
  dcp_length : nat
}.

(** [byte(index)]: every use is under a bounds test of the index. *)
Definition byte (input : text) (index : nat) : Z := code (nth index input ch_nul).

Definition continuation (value : Z) : bool := (0x80 <=? value) && (value <=? 0xBF).

Definition between (low value high : Z) : bool := (low <=? value) && (value <=? high).

Definition decode_two (input : text) (offset : nat) (first : Z) : result decoded_code_point :=
  if (length input <=? offset + 1)%nat || negb (continuation (byte input (offset + 1)))
  then fail errc_invalid_encoding
  else
    let value := Z.lor (Z.shiftl (Z.land first 0x1F) 6)
                       (Z.land (byte input (offset + 1)) 0x3F) in
    Value (Decoded_code_point value 2).

Definition decode_three (input : text) (offset : nat) (first : Z) : result decoded_code_point :=
  if (length input <=? offset + 2)%nat then fail errc_invalid_encoding
  else
    let second := byte input (offset + 1) in
    let third := byte input (offset + 2) in
    let second_valid :=
      if first =? 0xE0 then between 0xA0 second 0xBF
      else if first =? 0xED then between 0x80 second 0x9F
      else continuation second in
    if negb second_valid || negb (continuation third) then fail errc_invalid_encoding
    else
      let value := Z.lor (Z.lor (Z.shiftl (Z.land first 0x0F) 12)
                                (Z.shiftl (Z.land second 0x3F) 6))
                         (Z.land third 0x3F) in
      Value (Decoded_code_point value 3).

Definition decode_four (input : text) (offset : nat) (first : Z) : result decoded_code_point :=
  if (length input <=? offset + 3)%nat then fail errc_invalid_encoding
  else
    let second := byte input (offset + 1) in
    let third := byte input (offset + 2) in
    let fourth := byte input (offset + 3) in
    let second_valid :=
      if first =? 0xF0 then between 0x90 second 0xBF
      else if first =? 0xF4 then between 0x80 second 0x8F
      else continuation second in
    if negb second_valid || negb (continuation third) || negb (continuation fourth)
    then fail errc_invalid_encoding
    else
      let value := Z.lor (Z.lor (Z.lor (Z.shiftl (Z.land first 0x07) 18)
                                       (Z.shiftl (Z.land second 0x3F) 12))
                                (Z.shiftl (Z.land third 0x3F) 6))
                         (Z.land fourth 0x3F) in
      Value (Decoded_code_point value 4).

Definition decode_utf8_code_point (input : text) (offset : nat)
    : result decoded_code_point :=
  if (length input <=? offset)%nat then fail errc_invalid_encoding
  else
    let first := byte input offset in
    if first <=? 0x7F then Value (Decoded_code_point first 1)
    else if between 0xC2 first 0xDF then decode_two input offset first
    else if between 0xE0 first 0xEF then decode_three input offset first
    else if between 0xF0 first 0xF4 then decode_four input offset first
    else fail errc_invalid_encoding.

(** The [while (offset < input.size())] loops; every iteration that goes on
    advances by at least one byte. *)
Fixpoint is_valid_utf8_loop (fuel : nat) (input : text) (offset : nat) : bool :=
  match fuel with
  | O => true
  | S fuel =>
      if (offset <? length input)%nat then
        match decode_utf8_code_point input offset with
        | Failure _ => false
        | Value decoded => is_valid_utf8_loop fuel input (offset + dcp_length decoded)
        end
      else true
  end.

Definition is_valid_utf8 (input : text) : bool :=
  is_valid_utf8_loop (S (length input)) input 0.

(** [push_back] of one code point as UTF-16 code units. *)
Definition append_utf16 (output : list Z) (value : Z) : list Z :=
  if value <=? 0xFFFF then output ++ [wrap 16 value]
  else
    let adjusted := value - 0x10000 in
    output ++ [wrap 16 (0xD800 + Z.shiftr adjusted 10);
               wrap 16 (0xDC00 + Z.land adjusted 0x3FF)].

Fixpoint utf8_to_utf16_loop (fuel : nat) (input : text) (offset : nat) (output : list Z)
    : result (list Z) :=
  match fuel with
  | O => Value output
  | S fuel =>
      if (offset <? length input)%nat then
        match decode_utf8_code_point input offset with
        | Failure e => Failure e
        | Value decoded =>
            utf8_to_utf16_loop fuel input (offset + dcp_length decoded)
              (append_utf16 output (dcp_value decoded))
        end
      else Value output
  end.

Definition utf8_to_utf16 (input : text) : result (list Z) :=
  utf8_to_utf16_loop (S (length input)) input 0 [].

Definition append_utf8 (output : text) (value : Z) : text :=
  if value <=? 0x7F then output ++ [char_of value]
  else if value <=? 0x7FF then
    output ++ [char_of (Z.lor 0xC0 (Z.shiftr value 6));
               char_of (Z.lor 0x80 (Z.land value 0x3F))]
  else if value <=? 0xFFFF then
    output ++ [char_of (Z.lor 0xE0 (Z.shiftr value 12));
               char_of (Z.lor 0x80 (Z.land (Z.shiftr value 6) 0x3F));
               char_of (Z.lor 0x80 (Z.land value 0x3F))]
  else
    output ++ [char_of (Z.lor 0xF0 (Z.shiftr value 18));
               char_of (Z.lor 0x80 (Z.land (Z.shiftr value 12) 0x3F));
               char_of (Z.lor 0x80 (Z.land (Z.shiftr value 6) 0x3F));
               char_of (Z.lor 0x80 (Z.land value 0x3F))].

(** The loop over code units: the remaining input is the suffix from [index]. *)
Fixpoint utf16_to_utf8_loop (rest : list Z) (output : text) : result text :=
  match rest with
  | [] => Value output
  | first :: rest =>
      if between 0xD800 first 0xDBFF then
        match rest with
        | [] => fail errc_invalid_encoding
        | second :: rest =>
            if (second <? 0xDC00) || (0xDFFF <? second) then fail errc_invalid_encoding
            else
              let value := 0x10000 + Z.shiftl (first - 0xD800) 10 + (second - 0xDC00) in
              utf16_to_utf8_loop rest (append_utf8 output value)
        end
      else if between 0xDC00 first 0xDFFF then fail errc_invalid_encoding
      else utf16_to_utf8_loop rest (append_utf8 output first)
  end.

Definition utf16_to_utf8 (input : list Z) : result text := utf16_to_utf8_loop input [].

(** ** Specification: Unicode scalar values *)

Definition scalar (value : Z) : Prop :=
  0 <= value <= 0x10FFFF /\ ~ (0xD800 <= value <= 0xDFFF).

Definition encode_utf8 (values : list Z) : text := concat (append_utf8 [] <$> values).

Definition encode_utf16 (values : list Z) : list Z := concat (append_utf16 [] <$> values).

(** A [char16_t]. *)
Definition code_unit (unit : Z) : Prop := 0 <= unit <= 0xFFFF.

(** ** Bytes of an encoded scalar *)

Lemma append_utf8_app out v : append_utf8 out v = out ++ append_utf8 [] v.
Proof. unfold append_utf8. by repeat split_if. Qed.

Lemma append_utf16_app out v : append_utf16 out v = out ++ append_utf16 [] v.
Proof. unfold append_utf16. by split_if. Qed.

Lemma encode_utf8_cons v vs : encode_utf8 (v :: vs) = append_utf8 [] v ++ encode_utf8 vs.
Proof. done. Qed.

Lemma encode_utf16_cons v vs : encode_utf16 (v :: vs) = append_utf16 [] v ++ encode_utf16 vs.
Proof. done. Qed.

Lemma encode_two v :
  0x80 <= v <= 0x7FF ->
  append_utf8 [] v = [char_of (192 + v / 64); char_of (128 + v mod 64)].
Proof.
  intros Hv. unfold append_utf8. repeat split_if; try lia. bits_to_arith.
  rewrite (lor_add 6 0xC0), (lor_add 6 0x80) by (done || div_lia). done.
Qed.

Lemma encode_three v :
  0x800 <= v <= 0xFFFF ->
  append_utf8 [] v =
  [char_of (224 + v / 4096); char_of (128 + v / 64 mod 64); char_of (128 + v mod 64)].
Proof.
  intros Hv. unfold append_utf8. repeat split_if; try lia. bits_to_arith.
  rewrite (lor_add 4 0xE0), !(lor_add 6 0x80) by (done || div_lia). done.
Qed.

Lemma encode_four v :
  0x10000 <= v <= 0x10FFFF ->
  append_utf8 [] v =
  [char_of (240 + v / 262144); char_of (128 + v / 4096 mod 64);
   char_of (128 + v / 64 mod 64); char_of (128 + v mod 64)].
Proof.
  intros Hv. unfold append_utf8. repeat split_if; try lia. bits_to_arith.
  rewrite (lor_add 4 0xF0), !(lor_add 6 0x80) by (done || div_lia). done.
Qed.

Lemma continuation_true b : continuation b = true <-> 128 <= b <= 191.
Proof. unfold continuation. rewrite andb_true_iff, !Z.leb_le. lia. Qed.

Lemma between_true l v h : between l v h = true <-> l <= v <= h.
Proof. unfold between. rewrite andb_true_iff, !Z.leb_le. lia. Qed.

(** ** Decoding at an offset is decoding the suffix *)

Lemma byte_drop input offset k : byte input (offset + k) = byte (drop offset input) k.
Proof.
  unfold byte. f_equal. revert offset. induction input as [|c input IH]; intros [|offset]; simpl;
    try done. by destruct k.
Qed.

Lemma decode_drop input offset :
  decode_utf8_code_point input offset = decode_utf8_code_point (drop offset input) 0.
Proof.
  assert (Hl : forall k, (length input <=? offset + k)%nat = (length (drop offset input) <=? k)%nat).
  { intros k. rewrite length_drop. apply eq_true_iff_eq. rewrite !Nat.leb_le. lia. }
  pose proof (Hl 0%nat) as Hl0. pose proof (byte_drop input offset 0) as Hb0.
  rewrite Nat.add_0_r in Hl0, Hb0.
  unfold decode_utf8_code_point, decode_two, decode_three, decode_four.
  rewrite Hl0, Hb0, !Hl, !byte_drop. done.
Qed.

(** Turns the byte range tests of the context into bounds. *)
Ltac byte_ranges :=
  bool_to_prop;
  repeat match goal with
  | H : between _ _ _ = true |- _ => apply between_true in H
  | H : continuation _ = true |- _ => apply continuation_true in H
  end.

(** Closes [c = char_of n] for a byte [c] known in [Z]. *)
Ltac byte_eq := rewrite <- char_of_code at 1; f_equal; div_lia.

Lemma decode_two_sound c0 l d :
  between 0xC2 (code c0) 0xDF = true -> decode_two (c0 :: l) 0 (code c0) = Value d ->
  scalar (dcp_value d) /\
  c0 :: l = append_utf8 [] (dcp_value d) ++ drop (dcp_length d) (c0 :: l) /\
  (0 < dcp_length d)%nat.
Proof.
  intros H0 H. unfold decode_two in H. destruct l as [|c1 l]; [done|].
  change (byte (c0 :: c1 :: l) (0 + 1)) with (code c1) in H. simpl in H.
  destruct (continuation (code c1)) eqn:C1; [|done]. simpl in H.
  byte_ranges. injection H as <-. simpl. bits_to_arith.
  rewrite (lor_add 6) by (done || div_lia). rewrite encode_two by div_lia.
  rewrite drop_0. split; [unfold scalar; div_lia|]. split; [|lia].
  simpl. f_equal; [byte_eq|]. f_equal. byte_eq.
Qed.

Lemma decode_three_sound c0 l d :
  between 0xE0 (code c0) 0xEF = true -> decode_three (c0 :: l) 0 (code c0) = Value d ->
  scalar (dcp_value d) /\
  c0 :: l = append_utf8 [] (dcp_value d) ++ drop (dcp_length d) (c0 :: l) /\
  (0 < dcp_length d)%nat.
Proof.
  intros H0 H. unfold decode_three in H. destruct l as [|c1 [|c2 l]]; [done|done|].
  change (byte (c0 :: c1 :: c2 :: l) (0 + 1)) with (code c1) in H.
  change (byte (c0 :: c1 :: c2 :: l) (0 + 2)) with (code c2) in H. simpl in H.
  match type of H with context [negb ?b || _] => destruct b eqn:C1 end; [|done].
  destruct (continuation (code c2)) eqn:C2; [|done]. simpl in H.
  assert (128 <= code c1 <= 191 /\ 2048 <= (code c0 - 224) * 4096 + (code c1 - 128) * 64 /\
          ~ (55296 <= (code c0 - 224) * 4096 + (code c1 - 128) * 64 <= 57343)) as C.
  { destruct (code c0 =? 0xE0) eqn:E1; cbv iota in C1; [byte_ranges; lia|].
    destruct (code c0 =? 0xED) eqn:E2; cbv iota in C1; byte_ranges; lia. }
  byte_ranges. injection H as <-. simpl. bits_to_arith.
  rewrite (lor_add 12 (_ * _)), (lor_add 6) by (done || div_lia). rewrite encode_three by div_lia.
  rewrite drop_0. split; [unfold scalar; div_lia|]. split; [|lia].
  simpl. f_equal; [byte_eq|]. f_equal; [byte_eq|]. f_equal. byte_eq.
Qed.

Lemma decode_four_sound c0 l d :
  between 0xF0 (code c0) 0xF4 = true -> decode_four (c0 :: l) 0 (code c0) = Value d ->
  scalar (dcp_value d) /\
  c0 :: l = append_utf8 [] (dcp_value d) ++ drop (dcp_length d) (c0 :: l) /\
  (0 < dcp_length d)%nat.
Proof.
  intros H0 H. unfold decode_four in H. destruct l as [|c1 [|c2 [|c3 l]]]; [done..|].
  change (byte (c0 :: c1 :: c2 :: c3 :: l) (0 + 1)) with (code c1) in H.
  change (byte (c0 :: c1 :: c2 :: c3 :: l) (0 + 2)) with (code c2) in H.
  change (byte (c0 :: c1 :: c2 :: c3 :: l) (0 + 3)) with (code c3) in H. simpl in H.
  match type of H with context [negb ?b || _] => destruct b eqn:C1 end; [|done].
  destruct (continuation (code c2)) eqn:C2; [|done].
  destruct (continuation (code c3)) eqn:C3; [|done]. simpl in H.
  assert (128 <= code c1 <= 191 /\
          65536 <= (code c0 - 240) * 262144 + (code c1 - 128) * 4096 <= 1110016) as C.
  { destruct (code c0 =? 0xF0) eqn:E1; cbv iota in C1; [byte_ranges; lia|].
    destruct (code c0 =? 0xF4) eqn:E2; cbv iota in C1; byte_ranges; lia. }
  byte_ranges. injection H as <-. simpl. bits_to_arith.
  rewrite (lor_add 18 (_ * _)), (lor_add 12 (_ + _)), (lor_add 6) by (done || div_lia).
  rewrite encode_four by div_lia.
  rewrite drop_0. split; [unfold scalar; div_lia|]. split; [|lia].
  simpl. f_equal; [byte_eq|]. f_equal; [byte_eq|]. f_equal; [byte_eq|]. f_equal. byte_eq.
Qed.

(** What a successful decoding of the first code point says of the text. *)
Lemma decode_sound l d :
  decode_utf8_code_point l 0 = Value d ->
  scalar (dcp_value d) /\ l = append_utf8 [] (dcp_value d) ++ drop (dcp_length d) l /\
  (0 < dcp_length d)%nat.
Proof.
  unfold decode_utf8_code_point. destruct l as [|c0 l]; [done|].
  change ((length (c0 :: l) <=? 0)%nat) with false. cbv iota zeta.
  change (byte (c0 :: l) 0) with (code c0). pose proof (code_bound c0) as B0.
  split_if; [|repeat split_if; auto using decode_two_sound, decode_three_sound, decode_four_sound].
  - intros [= <-]. simpl. unfold append_utf8. rewrite (proj2 (Z.leb_le _ _)) by lia.
    rewrite char_of_code, drop_0. split; [unfold scalar; lia|]. split; [done|lia].
  - done.
Qed.

(** Evaluates the byte tests of the decoder on bytes with known bounds. *)
Ltac decode_tests :=
  unfold between, continuation;
  repeat (split_if; simpl in *; bool_to_prop; try (exfalso; lia));
  do 2 f_equal.

Lemma decode_complete v rest :
  scalar v ->
  decode_utf8_code_point (append_utf8 [] v ++ rest) 0 =
  Value (Decoded_code_point v (length (append_utf8 [] v))).
Proof.
  intros [Hv Hs].
  assert (v <= 0x7F \/ 0x80 <= v <= 0x7FF \/ 0x800 <= v <= 0xFFFF \/ 0x10000 <= v)
    as [H|[H|[H|H]]] by lia.
  - unfold append_utf8. rewrite (proj2 (Z.leb_le _ _)) by lia. simpl.
    unfold decode_utf8_code_point. simpl. unfold byte. simpl.
    rewrite code_char_of by lia. by rewrite (proj2 (Z.leb_le _ _)) by lia.
  - rewrite encode_two by done.
    assert (exists b0 b1, b0 = 192 + v / 64 /\ b1 = 128 + v mod 64 /\
      194 <= b0 <= 223 /\ 128 <= b1 <= 191 /\ v = (b0 - 192) * 64 + (b1 - 128))
      as (b0 & b1 & <- & <- & H0 & H1 & Hval) by (do 2 eexists; repeat split; div_lia).
    simpl. unfold decode_utf8_code_point, decode_two, byte. simpl.
    rewrite !code_char_of by lia. decode_tests. bits_to_arith.
    rewrite (lor_add 6) by (done || div_lia). div_lia.
  - rewrite encode_three by done.
    assert (exists b0 b1 b2, b0 = 224 + v / 4096 /\ b1 = 128 + v / 64 mod 64 /\
      b2 = 128 + v mod 64 /\ 224 <= b0 <= 239 /\ 128 <= b1 <= 191 /\ 128 <= b2 <= 191 /\
      v = (b0 - 224) * 4096 + (b1 - 128) * 64 + (b2 - 128))
      as (b0 & b1 & b2 & <- & <- & <- & H0 & H1 & H2 & Hval)
      by (do 3 eexists; repeat split; div_lia).
    simpl. unfold decode_utf8_code_point, decode_three, byte. simpl.
    rewrite !code_char_of by lia. decode_tests; bits_to_arith;
    rewrite (lor_add 12 (_ * _)), (lor_add 6) by (done || div_lia); div_lia.
  - rewrite encode_four by lia.
    assert (exists b0 b1 b2 b3, b0 = 240 + v / 262144 /\ b1 = 128 + v / 4096 mod 64 /\
      b2 = 128 + v / 64 mod 64 /\ b3 = 128 + v mod 64 /\
      240 <= b0 <= 244 /\ 128 <= b1 <= 191 /\ 128 <= b2 <= 191 /\ 128 <= b3 <= 191 /\
      v = (b0 - 240) * 262144 + (b1 - 128) * 4096 + (b2 - 128) * 64 + (b3 - 128))
      as (b0 & b1 & b2 & b3 & <- & <- & <- & <- & H0 & H1 & H2 & H3 & Hval)
      by (do 4 eexists; repeat split; div_lia).
    simpl. unfold decode_utf8_code_point, decode_four, byte. simpl.
    rewrite !code_char_of by lia. decode_tests; bits_to_arith;
    rewrite (lor_add 18 (_ * _)), (lor_add 12 (_ + _)), (lor_add 6) by (done || div_lia); div_lia.
Qed.

Lemma append_utf8_length v : scalar v -> (0 < length (append_utf8 [] v))%nat.
Proof. intros _. unfold append_utf8. repeat split_if; simpl; lia. Qed.

Lemma decode_at input offset d :
  decode_utf8_code_point input offset = Value d ->
  scalar (dcp_value d) /\
  drop offset input = append_utf8 [] (dcp_value d) ++ drop (offset + dcp_length d) input /\
  (0 < dcp_length d)%nat.
Proof. rewrite decode_drop. intros H. rewrite <- drop_drop. by apply decode_sound. Qed.

(** The decoder fails only with [invalid_encoding]. *)
Lemma decode_failure input offset e :
  decode_utf8_code_point input offset = Failure e ->
  e = make_error_code errc_invalid_encoding.
Proof.
  unfold decode_utf8_code_point, decode_two, decode_three, decode_four. cbv zeta.
  repeat split_if; unfold fail; by intros [= <-].
Qed.

(** A suffix that encodes scalars decodes to its first scalar. *)
Lemma decode_encoded input offset v vs :
  drop offset input = encode_utf8 (v :: vs) -> Forall scalar (v :: vs) ->
  decode_utf8_code_point input offset =
    Value (Decoded_code_point v (length (append_utf8 [] v))) /\
  drop (offset + length (append_utf8 [] v)) input = encode_utf8 vs.
Proof.
  intros Hd Hs. apply Forall_cons in Hs as [Hv Hs]. rewrite encode_utf8_cons in Hd. split.
  - rewrite decode_drop, Hd. by apply decode_complete.
  - rewrite <- drop_drop, Hd. apply drop_app_length.
Qed.

Lemma encode_utf8_nil vs : Forall scalar vs -> [] = encode_utf8 vs -> vs = [].
Proof.
  destruct 1 as [|v vs Hv _]; [done|]. rewrite encode_utf8_cons.
  apply append_utf8_length in Hv. by destruct (append_utf8 [] v); [simpl in Hv; lia|].
Qed.

Lemma utf8_loop_sound fuel input offset out us :
  (length input < fuel + offset)%nat ->
  utf8_to_utf16_loop fuel input offset out = Value us ->
  exists vs, Forall scalar vs /\ drop offset input = encode_utf8 vs /\
             us = out ++ encode_utf16 vs.
Proof.
  revert offset out. induction fuel as [|fuel IH]; intros offset out Hf; simpl.
  { intros [= <-]. exists []. rewrite drop_ge by lia. by rewrite app_nil_r. }
  destruct (Nat.ltb_spec offset (length input)).
  - destruct (decode_utf8_code_point input offset) as [d|e] eqn:D; [|done].
    apply decode_at in D as (Hs & Hd & Hl). intros Hloop.
    apply IH in Hloop as (vs & Hvs & Hr & ->); [|lia].
    exists (dcp_value d :: vs). split; [by constructor|].
    rewrite encode_utf8_cons, encode_utf16_cons, app_assoc, <- append_utf16_app.
    split; [by rewrite Hd, Hr|done].
  - intros [= <-]. exists []. rewrite drop_ge by lia. by rewrite app_nil_r.
Qed.

Lemma utf8_loop_complete fuel input offset out vs :
  (length input < fuel + offset)%nat ->
  Forall scalar vs -> drop offset input = encode_utf8 vs ->
  utf8_to_utf16_loop fuel input offset out = Value (out ++ encode_utf16 vs).
Proof.
  revert offset out vs. induction fuel as [|fuel IH]; intros offset out vs Hf Hs Hd; simpl.
  { rewrite drop_ge in Hd by lia. rewrite (encode_utf8_nil vs) by done. by rewrite app_nil_r. }
  destruct (Nat.ltb_spec offset (length input)) as [Hlt|Hge].
  - destruct vs as [|v vs].
    { apply drop_nil_iff in Hd. lia. }
    destruct (decode_encoded _ _ _ _ Hd Hs) as [-> Hd']. simpl.
    apply Forall_cons in Hs as [Hv Hs]. pose proof (append_utf8_length v Hv).
    rewrite (IH _ _ vs) by (done || lia).
    by rewrite encode_utf16_cons, app_assoc, <- append_utf16_app.
  - rewrite drop_ge in Hd by lia. rewrite (encode_utf8_nil vs) by done. by rewrite app_nil_r.
Qed.

Lemma utf8_to_utf16_spec input us :
  utf8_to_utf16 input = Value us <->
  exists vs, Forall scalar vs /\ input = encode_utf8 vs /\ us = encode_utf16 vs.
Proof.
  unfold utf8_to_utf16. split.
  - intros H. by apply utf8_loop_sound in H; [|lia].
  - intros (vs & Hs & -> & ->). by rewrite (utf8_loop_complete _ _ _ _ vs) by (done || lia).
Qed.

(** The validity loop and the conversion loop agree. *)
Lemma is_valid_loop_utf16 fuel input offset out :
  is_valid_utf8_loop fuel input offset = has_value (utf8_to_utf16_loop fuel input offset out).
Proof.
  revert offset out. induction fuel as [|fuel IH]; intros offset out; simpl; [done|].
  split_if; [|done]. by destruct (decode_utf8_code_point input offset).
Qed.

Lemma is_valid_utf8_utf16 input : is_valid_utf8 input = has_value (utf8_to_utf16 input).
Proof. apply is_valid_loop_utf16. Qed.

Lemma utf8_to_utf16_failure input e :
  utf8_to_utf16 input = Failure e -> e = make_error_code errc_invalid_encoding.
Proof.
  unfold utf8_to_utf16. generalize (S (length input)), 0%nat, (@nil Z).
  intros fuel. induction fuel as [|fuel IH]; intros offset out; simpl; [done|].
  split_if; [|done]. destruct (decode_utf8_code_point input offset) as [d|e'] eqn:D; [apply IH|].
  intros [= <-]. by apply decode_failure in D.
Qed.

(** ** UTF-16 *)

Lemma append_utf16_bmp v : 0 <= v <= 0xFFFF -> append_utf16 [] v = [v].
Proof.
  intros Hv. unfold append_utf16. rewrite (proj2 (Z.leb_le _ _)) by lia. simpl.
  unfold wrap. by rewrite Z.mod_small by lia.
Qed.

Lemma append_utf16_pair v :
  0x10000 <= v <= 0x10FFFF ->
  append_utf16 [] v = [0xD800 + (v - 0x10000) / 1024; 0xDC00 + (v - 0x10000) mod 1024].
Proof.
  intros Hv. unfold append_utf16. rewrite (proj2 (Z.leb_gt _ _)) by lia. cbv zeta. simpl.
  bits_to_arith. unfold wrap. rewrite !Z.mod_small by div_lia. done.
Qed.

Lemma utf16_loop_sound us out t :
  Forall code_unit us -> utf16_to_utf8_loop us out = Value t ->
  exists vs, Forall scalar vs /\ us = encode_utf16 vs /\ t = out ++ encode_utf8 vs.
Proof.
  revert out. induction us as [us IH] using list_length_ind. intros out Hu.
  destruct us as [|first rest]; simpl.
  { intros [= <-]. exists []. by rewrite app_nil_r. }
  apply Forall_cons in Hu as [Hfirst Hu]. unfold code_unit in Hfirst.
  destruct (between 0xD800 first 0xDBFF) eqn:B1; byte_ranges.
  - destruct rest as [|second rest]; [done|]. apply Forall_cons in Hu as [Hsecond Hu].
    split_if; [done|]. intros Hrun. apply IH in Hrun as (vs & Hs & -> & ->); [|simpl; lia|done].
    rewrite Z.shiftl_mul_pow2 by lia.
    exists (0x10000 + (first - 0xD800) * 2 ^ 10 + (second - 0xDC00) :: vs).
    rewrite encode_utf16_cons, append_utf16_pair by lia.
    rewrite encode_utf8_cons, app_assoc, <- append_utf8_app.
    split; [constructor; [unfold scalar; lia|done]|]. split; [|done].
    simpl. f_equal; [div_lia|]. f_equal. div_lia.
  - destruct (between 0xDC00 first 0xDFFF) eqn:B2; [done|]. intros Hrun.
    apply IH in Hrun as (vs & Hs & -> & ->); [|simpl; lia|done]. exists (first :: vs).
    assert (scalar first).
    { unfold scalar, between in *. bool_to_prop. lia. }
    rewrite encode_utf16_cons, append_utf16_bmp by lia.
    rewrite encode_utf8_cons, app_assoc, <- append_utf8_app. split; [by constructor|done].
Qed.

Lemma utf16_loop_complete vs out :
  Forall scalar vs ->
  utf16_to_utf8_loop (encode_utf16 vs) out = Value (out ++ encode_utf8 vs).
Proof.
  intros Hs. revert out. induction Hs as [|v vs Hv Hs IH]; intros out; simpl.
  { by rewrite app_nil_r. }
  rewrite encode_utf16_cons, encode_utf8_cons, app_assoc, <- append_utf8_app, <- IH.
  unfold scalar in Hv. destruct (Z.leb_spec v 0xFFFF).
  - rewrite append_utf16_bmp by lia. simpl.
    unfold between. repeat split_if; try lia; done.
  - rewrite append_utf16_pair by lia. simpl.
    assert (0 <= (v - 65536) / 1024 < 1024 /\ 0 <= (v - 65536) mod 1024 < 1024) by div_lia.
    unfold between. repeat split_if; simpl in *; bool_to_prop; try lia.
    f_equal. f_equal. rewrite Z.shiftl_mul_pow2 by lia. div_lia.
Qed.

Lemma encode_utf16_units vs : Forall scalar vs -> Forall code_unit (encode_utf16 vs).
Proof.
  induction 1 as [|v vs Hv _ IH]; [done|]. rewrite encode_utf16_cons.
  apply Forall_app. split; [|done]. unfold scalar in Hv.
  destruct (Z.leb_spec v 0xFFFF).
  - rewrite append_utf16_bmp by lia. by constructor; [unfold code_unit; lia|].
  - rewrite append_utf16_pair by lia. unfold code_unit.
    repeat constructor; div_lia.
Qed.

Lemma utf16_to_utf8_spec us t :
  Forall code_unit us ->
  utf16_to_utf8 us = Value t <->
  exists vs, Forall scalar vs /\ us = encode_utf16 vs /\ t = encode_utf8 vs.
Proof.
  intros Hu. unfold utf16_to_utf8. split.
  - intros H. by apply utf16_loop_sound in H.
  - intros (vs & Hs & -> & ->). by rewrite utf16_loop_complete.
Qed.

(** ** Cutting at an ASCII character *)

Lemma valid_utf8_encoding input :
  is_valid_utf8 input = true <-> exists vs, Forall scalar vs /\ input = encode_utf8 vs.
Proof.
  rewrite is_valid_utf8_utf16. split.
  - destruct (utf8_to_utf16 input) as [us|e] eqn:E; [|done]. intros _.
    apply utf8_to_utf16_spec in E as (vs & Hs & -> & _). by exists vs.
  - intros (vs & Hs & ->). by rewrite (proj2 (utf8_to_utf16_spec _ (encode_utf16 vs))) by eauto.
Qed.

(** The encoding of a scalar is one ASCII character, or has none. *)
Lemma encoded_ascii v : scalar v ->
  append_utf8 [] v = [char_of v] \/ Forall (fun c => 128 <= code c) (append_utf8 [] v).
Proof.
  intros [Hv _]. destruct (Z.leb_spec v 0x7F); [left; unfold append_utf8; by rewrite (proj2 (Z.leb_le v 0x7F))|right].
  destruct (Z.leb_spec v 0x7FF); [rewrite encode_two by lia|
    destruct (Z.leb_spec v 0xFFFF); [rewrite encode_three by lia|rewrite encode_four by lia]];
    repeat constructor; rewrite code_char_of; div_lia.
Qed.

Lemma encode_utf8_cut vs l1 c l2 :
  code c < 128 -> Forall scalar vs -> l1 ++ c :: l2 = encode_utf8 vs ->
  exists vs1 vs2, Forall scalar vs1 /\ Forall scalar vs2 /\ l1 = encode_utf8 vs1 /\ l2 = encode_utf8 vs2.
Proof.
  intros Hc Hvs. revert l1. induction Hvs as [|v vs Hv Hvs IH]; intros l1 E; [by destruct l1|].
  rewrite encode_utf8_cons in E. apply app_eq_inv in E as [(k & -> & E)|(k & Ev & E)].
  - destruct (IH k (eq_sym E)) as (vs1 & vs2 & H1 & H2 & -> & ->).
    exists (v :: vs1), vs2. rewrite encode_utf8_cons. by repeat split; [constructor|..].
  - destruct k as [|d k]; simplify_eq/=.
    + rewrite app_nil_r in Ev. destruct (IH [] E) as (vs1 & vs2 & H1 & H2 & E1 & ->).
      exists [v], vs2. rewrite encode_utf8_cons, <- Ev. cbn [encode_utf8]. rewrite app_nil_r.
      by repeat split; [repeat constructor; apply Hv|..].
    + destruct (encoded_ascii v Hv) as [Ha|Ha]; rewrite Ev in Ha.
      * destruct l1 as [|? [|]]; simplify_eq/=. by exists [], vs.
      * apply Forall_app in Ha as [_ Ha]. apply Forall_cons in Ha as [Ha _]. lia.
Qed.

Lemma valid_utf8_cut l1 c l2 :
  code c < 128 -> is_valid_utf8 (l1 ++ c :: l2) = true -> is_valid_utf8 l1 = true /\ is_valid_utf8 l2 = true.
Proof.
  rewrite !valid_utf8_encoding. intros Hc (vs & Hvs & E).
  destruct (encode_utf8_cut vs l1 c l2 Hc Hvs E) as (vs1 & vs2 & H1 & H2 & -> & ->).
  split; [by exists vs1|by exists vs2].
Qed.

Lemma valid_utf8_app l1 l2 : is_valid_utf8 l1 = true -> is_valid_utf8 l2 = true -> is_valid_utf8 (l1 ++ l2) = true.
Proof.
  rewrite !valid_utf8_encoding. intros (vs1 & H1 & ->) (vs2 & H2 & ->). exists (vs1 ++ vs2).
  split; [by apply Forall_app|]. unfold encode_utf8. by rewrite fmap_app, concat_app.
Qed.

(** ** Properties *)

(** C1: [is_valid_utf8] accepts exactly the byte sequences that are the UTF-8
    encoding of a list of Unicode scalar values: no surrogates, no overlong
    forms, nothing above U+10FFFF, no truncated sequences. *)
Theorem is_valid_utf8_correct (input : text) :
  is_valid_utf8 input = true <-> exists vs, Forall scalar vs /\ input = encode_utf8 vs.
Proof. apply valid_utf8_encoding. Qed.

(** C2: the two conversions are inverse of each other: [utf8_to_utf16] turns a
    text into a sequence of code units exactly when [utf16_to_utf8] turns
    those units back into the text. *)
Theorem utf8_utf16_inverse (input : text) (units : list Z) :
  utf8_to_utf16 input = Value units <->
  Forall code_unit units /\ utf16_to_utf8 units = Value input.
Proof.
  rewrite utf8_to_utf16_spec. split.
  - intros (vs & Hs & -> & ->). split; [by apply encode_utf16_units|].
    apply utf16_to_utf8_spec; [by apply encode_utf16_units|]. by exists vs.
  - intros [Hu H]. apply utf16_to_utf8_spec in H as (vs & Hs & -> & ->); [|done].
    by exists vs.
Qed.

(** [utf8_to_utf16] fails exactly on the texts [is_valid_utf8] rejects, and
    then with [invalid_encoding]. *)
Lemma utf8_to_utf16_error (input : text) :
  utf8_to_utf16 input = fail errc_invalid_encoding <-> is_valid_utf8 input = false.
Proof.
  rewrite is_valid_utf8_utf16. destruct (utf8_to_utf16 input) as [us|e] eqn:E; simpl; [done|].
  split; [done|]. intros _. by apply utf8_to_utf16_failure in E as ->.
Qed.
