(* ===== verification/System.v ===== *)
(** * The operating-system boundary, file reading and process metrics

    The system calls the Linux backends issue are an interface, the class
    [Kernel]: an arbitrary state with one operation per call.  A query is a
    function of that state; [read_text_file] and [trim_line_end]
    ([include/syscape/detail/linux/file.hpp]) and the conversions of
    [include/syscape/detail/linux/process_metrics.hpp] are modelled here. *)
From S2P Require Import Prelude Result CppText.

(** ** Queries *)

Definition query (W A : Type) : Type := W -> result A * W.

#[global] Instance query_ret {W} : MRet (query W) := fun A v w => (Value v, w).

(** [if (!r) return fail(r.error());] between two effectful steps. *)
#[global] Instance query_bind {W} : MBind (query W) := fun A B f m w =>
  match m w with
  | (Value v, w) => f v w
  | (Failure e, w) => (Failure e, w)
  end.

(** A pure step, and a step whose outcome the code inspects itself. *)
Definition pure {W A} (r : result A) : query W A := fun w => (r, w).

Definition attempt {W A} (m : query W A) : query W (result A) := fun w =>
  match m w with (r, w) => (Value r, w) end.

(** ** The kernel

    [open_file]: [errno] of a failed [open], or what successive [read] calls
    on the descriptor deliver: chunks of bytes and [errno]s, then end of file.
    [list_directory]: [errno] of a failed [opendir], or the entry names and
    the [errno] the final [readdir] leaves (zero at the end of the stream).
    [sysconf]: the value and the [errno] after the call. *)

Inductive read_event :=
  | Read_bytes (chunk : text)
  | Read_error (errno : Z).

Inductive sysconf_name := SC_NPROCESSORS_ONLN | SC_CLK_TCK | SC_PAGESIZE.

Class Kernel (W : Type) := {
  open_file : text -> W -> (Z + list read_event) * W;
  list_directory : text -> W -> (Z + list text * Z) * W;
  sysconf : sysconf_name -> W -> (Z * Z) * W
}.

(** ** file.hpp *)

(** The read loop, after [open] succeeded.  [output] is the accumulated text. *)
Fixpoint read_loop (maximum_size : Z) (events : list read_event) (output : text)
    : result text :=
  match events with
  | [] => Value output
  | Read_bytes [] :: _ => Value output
  | Read_bytes chunk :: events =>
      let size := Z.of_nat (length chunk) in
      let held := Z.of_nat (length output) in
      if (maximum_size <? held) || (maximum_size - held <? size)
      then fail errc_value_too_large
      else read_loop maximum_size events (output ++ chunk)
  | Read_error errno :: events =>
      if errno =? EINTR then read_loop maximum_size events output
      else fail_native errno
  end.

Definition read_text_file {W} `{Kernel W} (path : text) (maximum_size : Z)
    : query W text := fun w =>
  match open_file path w with
  | (inl errno, w) => (fail_native errno, w)
  | (inr events, w) => (read_loop maximum_size events [], w)
  end.

(** The default argument [1024U * 1024U]. *)
Definition default_maximum_size : Z := 1048576.

(** How the backends read a file that may be missing: its content, [None] when
    it does not exist. *)
Definition content_if_any {W} `{Kernel W} (path : text) (maximum_size : Z) : query W (option text) :=
  content ← attempt (read_text_file path maximum_size);
  pure (match content with
        | Value content => Value (Some content)
        | Failure e => if matches_std_errc e ENOENT then Value None else Failure e
        end).

Definition trim_line_end (v : text) : text :=
  drop_back (fun c => is_char c ch_lf || is_char c ch_cr) v.

(** ** process_metrics.hpp

    [std::chrono::nanoseconds] counts in a signed 64-bit integer; the clock
    duration of [system_clock] is the nanosecond, as in libstdc++. *)

Definition ticks_to_nanoseconds (ticks ticks_per_second : Z) : result Z :=
  if (ticks_per_second <=? 0) || (uint64_max / 1000000000 <? wrap 64 ticks_per_second)
  then fail errc_not_supported
  else
    let rate := wrap 64 ticks_per_second in
    let whole_seconds := ticks / rate in
    let maximum_whole_seconds := int64_max / 1000000000 in
    if maximum_whole_seconds <? whole_seconds then fail errc_value_too_large
    else
      let remainder_ticks := ticks mod rate in
      let remainder_nanoseconds := wrap 64 (remainder_ticks * 1000000000) / rate in
      let whole_nanoseconds := wrap 64 (whole_seconds * 1000000000) in
      let maximum_nanoseconds := int64_max in
      if wrap 64 (maximum_nanoseconds - remainder_nanoseconds) <? whole_nanoseconds
      then fail errc_value_too_large
      else Value (wrap 64 (whole_nanoseconds + remainder_nanoseconds)).

Definition scale_resident_bytes (pages page_size : Z) : result Z :=
  if page_size =? 0 then fail errc_malformed_data
  else if uint64_max / page_size <? pages then fail errc_value_too_large
  else Value (wrap 64 (pages * page_size)).

Definition compose_start_time (boot_time age : Z) : result Z :=
  if (age <? 0) || (int64_max - age <? boot_time) then fail errc_value_too_large
  else Value (boot_time + age).

(** ** A concrete kernel

    Files with fixed contents, everything else missing: the instance on which
    the development evaluates its queries. *)

Definition static_file (files : list (string * string)) (path : text) : Z + list read_event :=
  match list_find (fun f => lit (fst f) = path) files with
  | Some (_, (_, content)) => inr [Read_bytes (lit content)]
  | None => inl ENOENT
  end.

Definition static_kernel (files : list (string * string)) : Kernel unit := {|
  open_file path w := (static_file files path, w);
  list_directory path w := (inl ENOENT, w);
  sysconf name w :=
    ((match name with
      | SC_NPROCESSORS_ONLN => 4
      | SC_CLK_TCK => 100
      | SC_PAGESIZE => 4096
      end, 0), w)
|}.

(** Files and directories with fixed contents. *)
Definition listing_kernel (files : list (string * string)) (dirs : list (string * list string)) : Kernel unit := {|
  open_file path w := (static_file files path, w);
  list_directory path w :=
    (match list_find (fun d => lit (fst d) = path) dirs with
     | Some (_, (_, names)) => inr (lit <$> names, 0)
     | None => inl ENOENT
     end, w);
  sysconf name w := ((0, EINVAL), w)
|}.

(** ** Reading: what the descriptor delivers *)

(** The bytes delivered before end of file or a failing [read], and the
    [errno] of that failure. *)
Fixpoint delivered (events : list read_event) : text * option Z :=
  match events with
  | [] | Read_bytes [] :: _ => ([], None)
  | Read_bytes chunk :: events =>
      let (content, errno) := delivered events in (chunk ++ content, errno)
  | Read_error errno :: events =>
      if errno =? EINTR then delivered events else ([], Some errno)
  end.

Definition read_outcome (maximum_size : Z) (content : text) (errno : option Z) : result text :=
  if maximum_size <? Z.of_nat (length content) then fail errc_value_too_large
  else match errno with Some e => fail_native e | None => Value content end.

Lemma read_loop_delivered maximum_size events output :
  Z.of_nat (length output) <= maximum_size ->
  read_loop maximum_size events output =
  let (content, errno) := delivered events in
  read_outcome maximum_size (output ++ content) errno.
Proof.
  unfold read_outcome. revert output.
  induction events as [|[[|c chunk]|errno] events IH]; intros output Hout; simpl.
  - rewrite app_nil_r. split_if; [lia|done].
  - rewrite app_nil_r. split_if; [lia|done].
  - destruct (delivered events) as [content e] eqn:D.
    split_if.
    + rewrite (proj2 (Z.ltb_lt _ _)); [done|].
      rewrite length_app. cbn [length]. rewrite length_app. lia.
    + rewrite IH by (rewrite length_app; cbn [length]; lia).
      by rewrite <- app_assoc.
  - split_if; [by apply IH|]. rewrite app_nil_r. split_if; [lia|done].
Qed.

(** The file can be opened, and delivers this content up to its end. *)
Definition file_delivers {W} `{Kernel W} (w : W) (path content : text) : Prop :=
  exists events w1, open_file path w = (inr events, w1) /\ delivered events = (content, None).

Lemma read_text_file_value {W} `{Kernel W} (path : text) (maximum_size : Z) (w : W) content :
  0 <= maximum_size ->
  fst (read_text_file path maximum_size w) = Value content <->
  file_delivers w path content /\ Z.of_nat (length content) <= maximum_size.
Proof.
  intros Hm. unfold read_text_file, file_delivers. destruct (open_file path w) as [[errno|events] w2] eqn:E; cbn [fst].
  { split; [done|]. by intros [(? & ? & ? & _) _]. }
  rewrite read_loop_delivered by done. destruct (delivered events) as [bytes errno] eqn:Ed. unfold read_outcome. cbn [app]. split.
  - destruct (Z.ltb_spec maximum_size (Z.of_nat (length bytes))) as [|Hl]; [done|].
    destruct errno; intros [= <-]. split; [|done]. by exists events, w2.
  - intros [(events' & w3 & [= <- <-] & Hd) Hl]. rewrite Ed in Hd. injection Hd as -> ->. by rewrite (proj2 (Z.ltb_ge _ _)).
Qed.

Lemma read_text_file_delivers {W} `{Kernel W} (path : text) (maximum_size : Z) (w w1 : W) content :
  0 <= maximum_size -> read_text_file path maximum_size w = (Value content, w1) ->
  file_delivers w path content /\ Z.of_nat (length content) <= maximum_size.
Proof. intros Hm Hr. apply read_text_file_value; [done|]. by rewrite Hr. Qed.

(** C6: [read_text_file] returns what the descriptor delivers up to end of
    file, whatever the chunking and however often a read is interrupted; more
    than [maximum_size] bytes are [value_too_large], and any other failing
    call is reported with its [errno]. *)
Theorem read_text_file_spec {W} `{Kernel W} (path : text) (maximum_size : Z) (w : W) :
  0 <= maximum_size ->
  read_text_file path maximum_size w =
  (match fst (open_file path w) with
   | inl errno => fail_native errno
   | inr events =>
       let (content, errno) := delivered events in read_outcome maximum_size content errno
   end, snd (open_file path w)).
Proof.
  intros Hm. unfold read_text_file. destruct (open_file path w) as [[errno|events] w']; [done|].
  simpl. by rewrite read_loop_delivered by done.
Qed.

Lemma read_text_file_spec_witness :
  0 <= 5 /\
  @read_text_file unit (static_kernel [("/a"%string, "abc"%string)]) (lit "/a") 5 tt
    = (Value (lit "abc"), tt).
Proof.
  split; [lia|].
  refine (eq_trans (@read_text_file_spec unit (static_kernel _) (lit "/a") 5 tt _) _);
    [lia|vm_compute; reflexivity].
Defined.

(** ** What a query can return *)

(** Every value [m] returns satisfies [P]. *)
Definition yields {W A} (m : query W A) (P : A -> Prop) : Prop :=
  forall w v w', m w = (Value v, w') -> P v.

Lemma yields_ret {W A} (v : A) (P : A -> Prop) : P v -> yields (W := W) (mret v) P.
Proof. by intros HP w v' w' [= <- <-]. Qed.

Lemma yields_pure {W A} (r : result A) (P : A -> Prop) :
  (forall v, r = Value v -> P v) -> yields (W := W) (pure r) P.
Proof. intros HP w v w' [= -> <-]. by apply HP. Qed.

Lemma yields_bind {W A B} (m : query W A) (f : A -> query W B) (Q : A -> Prop) P :
  yields m Q -> (forall x, Q x -> yields (f x) P) -> yields (x ← m; f x) P.
Proof.
  intros Hm Hf w v w'. unfold mbind, query_bind.
  destruct (m w) as [[x|e] w1] eqn:E; [|done]. apply (Hf x), (Hm _ _ _ E).
Qed.

Lemma yields_any {W A} (m : query W A) : yields m (fun _ => True).
Proof. done. Qed.

Lemma yields_weaken {W A} (m : query W A) (P Q : A -> Prop) :
  yields m P -> (forall v, P v -> Q v) -> yields m Q.
Proof. intros Hm HPQ w v w' E. apply HPQ, (Hm _ _ _ E). Qed.

(** A step whose value is irrelevant to the postcondition. *)
Lemma yields_skip {W A B} (m : query W A) (f : A -> query W B) P :
  (forall x, yields (f x) P) -> yields (x ← m; f x) P.
Proof. intros H. apply (yields_bind m f (fun _ => True)); [apply yields_any|auto]. Qed.

(** A pure step followed by the rest. *)
Lemma yields_pure_bind {W A B} (r : result A) (f : A -> query W B) P :
  (forall x, r = Value x -> yields (f x) P) -> yields (x ← pure r; f x) P.
Proof. intros H. apply (yields_bind _ f (fun x => r = Value x)); [by apply yields_pure|done]. Qed.

(** ** Queries that leave the state as it is *)

Definition quiet {W A} (w : W) (m : query W A) : Prop := snd (m w) = w.

Lemma quiet_bind {W A B} (w : W) (m : query W A) (f : A -> query W B) :
  quiet w m -> (forall v, fst (m w) = Value v -> quiet w (f v)) -> quiet w (v ← m; f v).
Proof.
  unfold quiet, mbind, query_bind. intros Hm Hf. destruct (m w) as [[v|e] w1]; cbn in *; subst w1; [by apply Hf|done].
Qed.

Lemma quiet_pure {W A} (w : W) (r : result A) : quiet w (pure r).
Proof. done. Qed.

Lemma quiet_ret {W A} (w : W) (v : A) : quiet w (mret v).
Proof. done. Qed.

Lemma quiet_attempt {W A} (w : W) (m : query W A) : quiet w m -> quiet w (attempt m).
Proof. unfold quiet, attempt. by destruct (m w). Qed.

Lemma quiet_read {W} `{Kernel W} (w : W) (open_quiet : forall path, snd (open_file path w) = w) path maximum_size :
  quiet w (read_text_file path maximum_size).
Proof. unfold quiet, read_text_file. pose proof (open_quiet path). by destruct (open_file path w) as [[?|?] w1]. Qed.

Lemma quiet_if_any {W} `{Kernel W} (w : W) (open_quiet : forall path, snd (open_file path w) = w) path maximum_size :
  quiet w (content_if_any path maximum_size).
Proof. unfold content_if_any. apply quiet_bind; [apply quiet_attempt, quiet_read, open_quiet|done]. Qed.

(** A step of a quiet query that has a value. *)
Lemma quiet_value {W A B} (w : W) (m : query W A) (f : A -> query W B) v :
  quiet w m -> fst ((x ← m; f x) w) = Value v <-> exists x, fst (m w) = Value x /\ fst (f x w) = Value v.
Proof.
  unfold quiet, mbind, query_bind. destruct (m w) as [[x|e] w1]; cbn; intros ->.
  - split; [by exists x|]. by intros (? & [= ->] & ?).
  - split; [done|]. by intros (? & ? & _).
Qed.

Create HintDb quiet.

#[export] Hint Resolve quiet_pure quiet_ret quiet_attempt quiet_read quiet_bind : quiet.

(** ** Metrics *)

Lemma euclid_scale t r k :
  0 < r -> 0 <= t -> 0 <= k -> t / r * k + t mod r * k / r = t * k / r.
Proof.
  intros Hr Ht Hk. pose proof (Z.div_mod t r ltac:(lia)) as Hdm.
  generalize dependent (t mod r). generalize dependent (t / r). intros q m Hdm.
  subst t. replace ((r * q + m) * k) with (q * k * r + m * k) by ring.
  by rewrite Z.div_add_l by lia.
Qed.

(** For a usable rate [ticks_to_nanoseconds] is the exact quotient
    [ticks * 10^9 / rate] rounded down when it fits the nanosecond type, and
    [value_too_large] exactly when it does not: no intermediate product wraps. *)
Theorem ticks_to_nanoseconds_exact (ticks rate : Z) :
  0 <= ticks <= uint64_max -> 0 < rate <= uint64_max / 1000000000 ->
  ticks_to_nanoseconds ticks rate =
  if ticks * 1000000000 / rate <=? int64_max
  then Value (ticks * 1000000000 / rate) else fail errc_value_too_large.
Proof.
  intros Ht Hr. unfold ticks_to_nanoseconds. unfold_bounds.
  change (18446744073709551615 / 1000000000) with 18446744073 in *.
  change (9223372036854775807 / 1000000000) with 9223372036 in *.
  assert (wrap 64 rate = rate) as -> by (unfold wrap; rewrite Z.mod_small; lia).
  rewrite (proj2 (Z.leb_gt _ _)), (proj2 (Z.ltb_ge _ rate)) by lia. cbv zeta. simpl orb. cbv iota.
  pose proof (euclid_scale ticks rate 1000000000 ltac:(lia) ltac:(lia) ltac:(lia)) as Hsum.
  pose proof (Z.mod_pos_bound ticks rate ltac:(lia)) as Hrem.
  pose proof (Z.div_pos ticks rate ltac:(lia) ltac:(lia)) as Hquo.
  assert (0 <= ticks mod rate * 1000000000 / rate < 1000000000) as Hns.
  { split; [apply Z.div_pos; lia|]. apply Z.div_lt_upper_bound; nia. }
  unfold wrap. rewrite (Z.mod_small (ticks mod rate * 1000000000)) by lia.
  set (whole := ticks / rate) in *. set (part := ticks mod rate * 1000000000 / rate) in *.
  rewrite <- Hsum. split_if.
  - by rewrite (proj2 (Z.leb_gt _ _)) by lia.
  - rewrite !Z.mod_small by lia. split_if; split_if; try lia; done.
Qed.

Lemma ticks_to_nanoseconds_exact_witness :
  ticks_to_nanoseconds 250 100 = Value 2500000000 /\
  ticks_to_nanoseconds 1844674407370955161 100 = fail errc_value_too_large.
Proof.
  split.
  - refine (eq_trans (ticks_to_nanoseconds_exact 250 100 _ _) _);
      [vm_compute; split; discriminate|vm_compute; split; [reflexivity|discriminate]|reflexivity].
  - refine (eq_trans (ticks_to_nanoseconds_exact 1844674407370955161 100 _ _) _);
      [vm_compute; split; discriminate|vm_compute; split; [reflexivity|discriminate]|reflexivity].
Defined.

Lemma scale_resident_bytes_value pages page_size :
  0 <= pages -> 0 < page_size ->
  scale_resident_bytes pages page_size =
  if pages * page_size <=? uint64_max then Value (pages * page_size)
  else fail errc_value_too_large.
Proof.
  intros Hp Hs. unfold scale_resident_bytes. unfold_bounds.
  rewrite (proj2 (Z.eqb_neq _ _)) by lia.
  pose proof (Z.div_mod 18446744073709551615 page_size ltac:(lia)).
  pose proof (Z.mod_pos_bound 18446744073709551615 page_size ltac:(lia)).
  unfold wrap. repeat split_if; try nia; [done|].
  rewrite Z.mod_small; [done|]. split; nia.
Qed.
