(* ===== verification/Buffer.v ===== *)
(** * Bytes in a buffer

    What the parsers of received or recorded bytes share: a buffer is a list of
    bytes and a pointer an index into it; an access outside the buffer and a
    loop that runs out of fuel have no result, so that a result means that
    every access was inside and that every loop ended. *)
From S2P Require Import Prelude Result CppText.

(** The big-endian value of bytes. *)
Fixpoint be_value (bytes : list Z) : Z :=
  match bytes with
  | [] => 0
  | b :: bytes => b * 2 ^ (8 * Z.of_nat (length bytes)) + be_value bytes
  end.

Definition is_byte (b : Z) : Prop := 0 <= b < 256.

Lemma be_value_bound l : Forall is_byte l -> 0 <= be_value l < 2 ^ (8 * Z.of_nat (length l)).
Proof.
  induction 1 as [|b l Hb _ IH]; [done|]. simpl be_value. simpl length. unfold is_byte in Hb.
  rewrite Nat2Z.inj_succ, <- Z.add_1_r, Z.mul_add_distr_l, Z.pow_add_r by lia.
  change (2 ^ (8 * 1)) with 256. nia.
Qed.

(** ** Checked memory accesses *)

(** A computation on a buffer: [None] is an access outside it. *)
Definition checked (A : Type) : Type := option (result A).

#[global] Instance checked_ret : MRet checked := fun A v => Some (Value v).

#[global] Instance checked_bind : MBind checked := fun A B f m =>
  match m with
  | None => None
  | Some (Failure e) => Some (Failure e)
  | Some (Value v) => f v
  end.

Definition check {A} (r : result A) : checked A := Some r.

(** Evaluates the bind of a value. *)
Ltac checked_step :=
  change (@mbind checked _) with checked_bind; cbn [checked_bind mret checked_ret check].

(** [memcpy] of [count] bytes from the address [pos]. *)
Definition load (memory : list Z) (pos count : nat) : checked (list Z) :=
  if (pos + count <=? length memory)%nat
  then Some (Value (take count (drop pos memory))) else None.

Definition load_byte (memory : list Z) (pos : nat) : checked Z :=
  match memory !! pos with Some b => Some (Value b) | None => None end.

(** The same on a buffer of characters: a range of it, and one element. *)
Definition slice (memory : text) (pos count : nat) : checked text :=
  if (pos + count <=? length memory)%nat then Some (Value (substr pos count memory)) else None.

Definition byte_at (memory : text) (pos : nat) : checked ascii :=
  match memory !! pos with Some c => Some (Value c) | None => None end.

(** ** Safety *)

(** [m] has a result, and a value it returns satisfies [P]. *)
Definition ensures {A} (m : checked A) (P : A -> Prop) : Prop :=
  match m with
  | None => False
  | Some (Failure _) => True
  | Some (Value v) => P v
  end.

Lemma ensures_bind {A B} (m : checked A) (f : A -> checked B) (Q : A -> Prop) P :
  ensures m Q -> (forall v, Q v -> ensures (f v) P) -> ensures (v ← m; f v) P.
Proof. intros Hm Hf. destruct m as [[v|e]|]; simpl in *; [by apply Hf|done..]. Qed.

Lemma ensures_is_some {A} (m : checked A) P : ensures m P -> is_Some m.
Proof. destruct m; [by eexists|done]. Qed.

Lemma ensures_check {A} (r : result A) (P : A -> Prop) :
  (forall v, r = Value v -> P v) -> ensures (check r) P.
Proof. intros H. destruct r; [by apply H|done]. Qed.

(** A pure step before the rest. *)
Lemma ensures_check_bind {A B} (r : result A) (f : A -> checked B) (P : B -> Prop) :
  (forall v, r = Value v -> ensures (f v) P) -> ensures (v ← check r; f v) P.
Proof. intros H. destruct r; [by apply H|done]. Qed.

(** [if (c) return fail(e);] before the rest. *)
Lemma ensures_reject {B} c e (m : checked B) (P : B -> Prop) :
  (c = false -> ensures m P) -> ensures (check (reject c e);; m) P.
Proof. intros H. destruct c; [done|by apply H]. Qed.

Lemma ensures_fail {A} e (P : A -> Prop) : ensures (check (fail e)) P.
Proof. done. Qed.

Lemma ensures_load memory pos count :
  (pos + count <= length memory)%nat ->
  Forall is_byte memory ->
  ensures (load memory pos count) (fun bytes => length bytes = count /\ Forall is_byte bytes).
Proof.
  intros H Hb. unfold load. rewrite (proj2 (Nat.leb_le _ _)) by done. simpl. split.
  - rewrite length_take, length_drop. lia.
  - by apply Forall_take, Forall_drop.
Qed.

Lemma load_byte_ensures memory pos :
  (pos < length memory)%nat -> Forall is_byte memory -> ensures (load_byte memory pos) is_byte.
Proof.
  intros Hp Hb. unfold load_byte. destruct (lookup_lt_is_Some_2 memory pos Hp) as [b E].
  rewrite E. simpl. by eapply Forall_lookup_1.
Qed.

Lemma ensures_slice memory pos count :
  (pos + count <= length memory)%nat ->
  ensures (slice memory pos count) (fun v => v = substr pos count memory).
Proof. intros H. unfold slice. by rewrite (proj2 (Nat.leb_le _ _)). Qed.

Lemma ensures_byte_at memory pos :
  (pos < length memory)%nat -> ensures (byte_at memory pos) (fun _ => True).
Proof.
  intros H. unfold byte_at. destruct (memory !! pos) eqn:E; [done|].
  apply lookup_ge_None in E. lia.
Qed.

(** ** What a buffer holds *)

(** The elements are in the memory at this address. *)
Definition holds {A} (memory : list A) (pos : nat) (bytes : list A) : Prop :=
  exists before after, memory = before ++ bytes ++ after /\ length before = pos.

Lemma holds_app {A} (memory : list A) pos a b :
  holds memory pos (a ++ b) <-> holds memory pos a /\ holds memory (pos + length a) b.
Proof.
  unfold holds. split.
  - intros (before & after & -> & <-). split.
    + exists before, (b ++ after). by rewrite <- app_assoc.
    + exists (before ++ a), after. by rewrite length_app, <- !app_assoc.
  - intros [(before & after & -> & <-) (before2 & after2 & E & Hl)].
    exists before, after2. split; [|done]. rewrite <- app_assoc.
    rewrite (app_assoc before a after), (app_assoc before a (b ++ after2)) in *.
    rewrite <- length_app in Hl. by apply app_inj_1 in E as [-> ->].
Qed.

Lemma load_holds memory pos bytes count :
  holds memory pos bytes -> length bytes = count -> load memory pos count = mret bytes.
Proof.
  intros (before & after & -> & <-) <-. unfold load.
  rewrite (proj2 (Nat.leb_le _ _)) by (rewrite !length_app; lia).
  by rewrite drop_app_length, take_app_length.
Qed.

Lemma holds_bound {A} (memory : list A) pos bytes : holds memory pos bytes -> (pos + length bytes <= length memory)%nat.
Proof. intros (before & after & -> & <-). rewrite !length_app. lia. Qed.

Lemma slice_holds memory pos bytes count :
  holds memory pos bytes -> length bytes = count -> slice memory pos count = mret bytes.
Proof.
  intros (before & after & -> & <-) <-. unfold slice, substr.
  rewrite (proj2 (Nat.leb_le _ _)) by (rewrite !length_app; lia).
  by rewrite drop_app_length, take_app_length.
Qed.

Lemma byte_at_holds memory pos bytes i c :
  holds memory pos bytes -> bytes !! i = Some c -> byte_at memory (pos + i) = mret c.
Proof.
  intros (before & after & -> & <-) H. unfold byte_at.
  rewrite lookup_app_r by lia. replace (length before + i - length before)%nat with i by lia.
  by rewrite (lookup_app_l_Some _ _ _ _ H).
Qed.

Lemma holds_whole {A} (memory : list A) : holds memory 0 memory.
Proof. exists [], []. by rewrite app_nil_r. Qed.
