(* ===== verification/CpuCommon.v ===== *)
(** * Processor facts shared by the backends

    [include/syscape/detail/cpu/common.hpp] and the cache kinds of
    [include/syscape/cpu.hpp]: the usage buckets, the cache entries and the
    checks every backend result passes at the public boundary. *)
From S2P Require Import Prelude Result CppText Utf8.

Inductive cache_kind :=
  | kind_data
  | kind_instruction
  | kind_unified
  | kind_trace
  | kind_unknown.

#[global] Instance cache_kind_eq_dec : EqDecision cache_kind.
Proof. solve_decision. Defined.

(** The underlying value, by which kinds compare. *)
Definition kind_value (k : cache_kind) : Z :=
  match k with
  | kind_data => 0
  | kind_instruction => 1
  | kind_unified => 2
  | kind_trace => 3
  | kind_unknown => 4
  end.

Record usage_information := Usage_information {
  user_ticks : Z;
  system_ticks : Z;
  idle_ticks : Z
}.

#[global] Instance usage_information_eq_dec : EqDecision usage_information.
Proof. solve_decision. Defined.

Record cache_entry := Cache_entry {
  level : Z;
  kind : cache_kind;
  instance_size_bytes : Z;
  line_size_bytes : Z;
  associativity_ways : Z;
  sets_count : Z;
  shared_logical_processor_count : Z
}.

#[global] Instance cache_entry_eq_dec : EqDecision cache_entry.
Proof. solve_decision. Defined.

Definition validate_utf8_labels (labels : result (list text)) : result (list text) :=
  v ← labels;
  reject (bool_decide (v = [])) errc_malformed_data;;
  for_each (fun label =>
    reject (empty label || negb (is_valid_utf8 label)) errc_malformed_data) v;;
  Value v.

(** The loop's variables: [have_previous], [previous_level], [previous_kind]. *)
Definition validate_cache_entry (entry : cache_entry) (previous : bool * Z * cache_kind)
    : result (bool * Z * cache_kind) :=
  let '(have_previous, previous_level, previous_kind) := previous in
  reject ((level entry =? 0) || (instance_size_bytes entry =? 0) ||
          (line_size_bytes entry =? 0)) errc_malformed_data;;
  reject (have_previous &&
          ((level entry <? previous_level) ||
           ((level entry =? previous_level) &&
            (kind_value (kind entry) <? kind_value previous_kind)))) errc_malformed_data;;
  Value (true, level entry, kind entry).

Definition validate_cache_entries (entries : result (list cache_entry))
    : result (list cache_entry) :=
  v ← entries;
  fold_result validate_cache_entry v (false, 0, kind_data);;
  Value v.

(** ** What the checks establish *)

(** A usable entry, and the documented order: by level, then by kind. *)
Definition positive_entry (e : cache_entry) : Prop :=
  level e <> 0 /\ instance_size_bytes e <> 0 /\ line_size_bytes e <> 0.

Definition entry_le (a b : cache_entry) : Prop :=
  level a < level b \/ (level a = level b /\ kind_value (kind a) <= kind_value (kind b)).

#[global] Instance entry_le_trans : Transitive entry_le.
Proof. intros a b c. unfold entry_le. lia. Qed.

Lemma validate_cache_entry_value e have l k r :
  validate_cache_entry e (have, l, k) = Value r <->
  positive_entry e /\ r = (true, level e, kind e) /\
  (have = true -> l < level e \/ (l = level e /\ kind_value k <= kind_value (kind e))).
Proof.
  unfold validate_cache_entry, positive_entry. rewrite !bind_value. split.
  - intros ([] & H1 & ([] & H2 & [= <-])%bind_value). apply reject_value in H1, H2.
    bool_to_prop. split; [done|]. split; [done|]. intros ->. simpl in H2. bool_to_prop. lia.
  - intros (Hp & -> & Ho). exists (). split; [apply reject_value|apply bind_value; exists ()].
    + repeat (apply orb_false_iff; split); apply Z.eqb_neq; tauto.
    + split; [|done]. apply reject_value. destruct have; [|done]. specialize (Ho eq_refl).
      simpl. apply orb_false_iff. split; [apply Z.ltb_ge; lia|].
      apply andb_false_iff. destruct Ho; [left; apply Z.eqb_neq; lia|].
      right. apply Z.ltb_ge. lia.
Qed.

Lemma validate_loop_value es e0 :
  (exists r, fold_result validate_cache_entry es (true, level e0, kind e0) = Value r) <->
  Forall positive_entry es /\ StronglySorted entry_le es /\ Forall (entry_le e0) es.
Proof.
  revert e0. induction es as [|e es IH]; intros e0; cbn [fold_result].
  - split; [by repeat constructor|]. by eexists.
  - split.
    + intros (r & (s & Hs & Hr)%bind_value). apply validate_cache_entry_value in Hs as (Hp & -> & Ho).
      specialize (Ho eq_refl).
      destruct (proj1 (IH e)) as (H1 & H2 & H3); [by exists r|].
      split; [by constructor|]. split; [by constructor|]. constructor; [done|].
      eapply Forall_impl; [done|]. intros x Hx. by transitivity e.
    + intros (Hp & Hs & Hle). apply Forall_cons in Hp as [Hp Hps].
      apply StronglySorted_inv in Hs as [Hss Hse]. apply Forall_cons in Hle as [Hle _].
      destruct (proj2 (IH e)) as [r Hr]; [done|]. exists r. apply bind_value.
      exists (true, level e, kind e). split; [|done].
      apply validate_cache_entry_value. split; [done|]. split; [done|]. intros _. apply Hle.
Qed.

Lemma validate_cache_entries_accepts es :
  Forall positive_entry es -> StronglySorted entry_le es ->
  validate_cache_entries (Value es) = Value es.
Proof.
  intros Hp Hs. unfold validate_cache_entries. simpl. destruct es as [|e es]; [done|].
  apply Forall_cons in Hp as [Hp Hps]. apply StronglySorted_inv in Hs as [Hss Hse].
  destruct (proj2 (validate_loop_value es e)) as [r Hr]; [done|].
  apply bind_value. exists r. split; [|done]. apply bind_value.
  exists (true, level e, kind e). split; [|done]. by apply validate_cache_entry_value.
Qed.

(** [validate_cache_entries] accepts a collection exactly when every entry
    has a positive level, instance size and line size and the entries are
    sorted by level and then by kind; it returns an accepted collection
    unchanged. *)
Theorem validate_cache_entries_spec (es out : list cache_entry) :
  validate_cache_entries (Value es) = Value out <->
  out = es /\ Forall positive_entry es /\ StronglySorted entry_le es.
Proof.
  unfold validate_cache_entries. simpl. rewrite bind_value. split.
  - intros (r & Hr & [= <-]). split; [done|]. destruct es as [|e es]; [split; constructor|].
    apply bind_value in Hr as (s & (Hp & -> & _)%validate_cache_entry_value & Hr).
    destruct (proj1 (validate_loop_value es e)) as (? & ? & ?); [by exists r|].
    split; by constructor.
  - intros (-> & Hp & Hs). pose proof (validate_cache_entries_accepts es Hp Hs) as Hv.
    unfold validate_cache_entries in Hv. simpl in Hv. by apply bind_value in Hv.
Qed.
