(* ===== verification/CpuInfo.v ===== *)
(** * The Linux processor backend: cpuinfo, topology, frequencies and usage

    [include/syscape/detail/cpu/linux.hpp] except its cache walk, which is in
    [CpuCache]. *)
From S2P Require Import Prelude Result CppText Utf8 System CpuCommon.

(** ** Identity *)

Record identity_information := Identity_information {
  vendors : list text;
  models : list text
}.

Definition cpu_space (v : ascii) : bool :=
  is_char v " " || is_char v ch_tab || is_char v ch_cr || is_char v ch_lf.

Definition trim_cpu_field (v : text) : text := trim cpu_space v.

Definition append_unique_label (labels : list text) (label : text) : list text :=
  if bool_decide (label ∈ labels) then labels else labels ++ [label].

Definition is_vendor_key (key : text) : bool :=
  same key (lit "vendor_id") || same key (lit "CPU implementer") || same key (lit "vendor").

Definition is_model_key (key : text) : bool :=
  same key (lit "model name") || same key (lit "Processor") || same key (lit "cpu model").

Definition parse_cpuinfo_line (line : text) (output : identity_information)
    : step identity_information (result identity_information) :=
  match find ":" line 0 with
  | None => Next output
  | Some separator =>
      let key := trim_cpu_field (substr 0 separator line) in
      let v := trim_cpu_field (substr_from (S separator) line) in
      if negb (is_vendor_key key) && negb (is_model_key key) then Next output
      else if empty v then Return (fail errc_malformed_data)
      else if is_vendor_key key then
        Next (Identity_information (append_unique_label (vendors output) v) (models output))
      else
        Next (Identity_information (vendors output) (append_unique_label (models output) v))
  end.

Definition parse_cpuinfo (input : text) : result identity_information :=
  finish (each_field ch_lf input parse_cpuinfo_line (Identity_information [] [])) Value.

Section identity_queries.
Context {W : Type} `{Kernel W}.

Definition identity : query W identity_information :=
  let maximum_cpuinfo_size := 16 * 1024 * 1024 in
  content ← read_text_file (lit "/proc/cpuinfo") maximum_cpuinfo_size;
  pure (parse_cpuinfo content).

Definition vendor_identifiers : query W (list text) :=
  v ← identity;
  pure (if bool_decide (vendors v = []) then fail errc_not_found else Value (vendors v)).

Definition model_names : query W (list text) :=
  v ← identity;
  pure (if bool_decide (models v = []) then fail errc_not_found else Value (models v)).

(** [positive_processor_count]: the [sysconf] value and the [errno] after it. *)
Definition positive_processor_count (v errno : Z) : result Z :=
  if v <? 0 then if errno =? 0 then fail errc_not_supported else fail_native errno
  else if v =? 0 then fail errc_malformed_data
  else if uint32_max <? v then fail errc_value_too_large
  else Value v.

Definition online_logical_processor_count : query W Z := fun w =>
  match sysconf SC_NPROCESSORS_ONLN w with
  | ((v, errno), w) => (positive_processor_count v errno, w)
  end.

End identity_queries.

(** ** Processor lists and topology *)

Definition maximum_cpu_index : Z := 1048576.

Definition parse_cpu_list_item (field : text) (values : gset Z)
    : step (gset Z) (result (list Z)) :=
  let item := trim_cpu_field field in
  if empty item then Return (fail errc_malformed_data)
  else
    let dash := find "-" item 0 in
    let first_text := match dash with None => item | Some dash => substr 0 dash item end in
    let last_text :=
      match dash with None => first_text | Some dash => substr_from (S dash) item end in
    let second_dash :=
      match dash with
      | None => false
      | Some dash => match find "-" item (S dash) with Some _ => true | None => false end
      end in
    if empty first_text || empty last_text || second_dash
    then Return (fail errc_malformed_data)
    else
      let parsed_first := from_chars_unsigned uint32_max 10 first_text in
      let parsed_last := from_chars_unsigned uint32_max 10 last_text in
      let first := fc_value parsed_first in
      let last := fc_value parsed_last in
      if negb (consumed parsed_first first_text) || negb (consumed parsed_last last_text) ||
         (last <? first) || (maximum_cpu_index <? last)
      then Return (fail errc_malformed_data)
      else Next (insert_range first last values).

(** The loop stops at the field no comma follows, which is the last one. *)
Definition parse_cpu_list (input : text) : result (list Z) :=
  let input := trim_cpu_field input in
  if empty input then fail errc_malformed_data
  else finish (each_field "," input parse_cpu_list_item ∅)
         (fun values => Value (set_to_vector values)).

Definition parse_topology_id (input : text) : result Z :=
  let input := trim_cpu_field input in
  if empty input then fail errc_malformed_data
  else
    let parsed := from_chars_signed int32_min int32_max 10 input in
    if out_of_range parsed then fail errc_value_too_large
    else if negb (consumed parsed input) then fail errc_malformed_data
    else if fc_value parsed =? -1 then fail errc_not_supported
    else if fc_value parsed <? 0 then fail errc_malformed_data
    else Value (fc_value parsed).

Record topology_information := Topology_information {
  physical_cores : Z;
  packages : Z
}.

Section topology_queries.
Context {W : Type} `{Kernel W}.

Definition cpu_path (cpu : Z) (rest : text) : text :=
  lit "/sys/devices/system/cpu/cpu" ++ to_decimal cpu ++ rest.

Definition read_topology_id (cpu : Z) (name : text) : query W Z :=
  content ← attempt (read_text_file (cpu_path cpu (lit "/topology/" ++ name)) 128);
  pure (match content with
        | Value content => parse_topology_id content
        | Failure e =>
            if matches_std_errc e ENOENT then fail errc_temporarily_unavailable
            else Failure e
        end).

Fixpoint topology_loop (online : list Z) (packages : gset Z) (cores : gset (Z * Z))
    : query W (gset Z * gset (Z * Z)) :=
  match online with
  | [] => mret (packages, cores)
  | cpu :: online =>
      package ← read_topology_id cpu (lit "physical_package_id");
      core ← read_topology_id cpu (lit "core_id");
      topology_loop online ({[package]} ∪ packages) ({[(package, core)]} ∪ cores)
  end.

Definition read_online_list : query W (list Z) :=
  online_text ← read_text_file (lit "/sys/devices/system/cpu/online") (1024 * 1024);
  pure (parse_cpu_list online_text).

Definition online_topology : query W topology_information :=
  online ← read_online_list;
  pure (reject (bool_decide (online = [])) errc_malformed_data);;
  sets ← topology_loop online ∅ ∅;
  let '(packages, cores) := sets in
  pure (reject (bool_decide (packages = ∅) || bool_decide (cores = ∅)) errc_malformed_data);;
  pure (reject ((uint32_max <? Z.of_nat (size packages)) ||
                (uint32_max <? Z.of_nat (size cores))) errc_value_too_large);;
  mret (Topology_information (Z.of_nat (size cores)) (Z.of_nat (size packages))).

Definition online_physical_core_count : query W Z :=
  v ← online_topology; mret (physical_cores v).

Definition online_processor_package_count : query W Z :=
  v ← online_topology; mret (packages v).

End topology_queries.

(** ** Frequencies *)

Definition parse_khz_text (input : text) : result Z :=
  let input := trim_cpu_field input in
  if empty input then fail errc_malformed_data
  else
    let parsed := from_chars_unsigned uint64_max 10 input in
    if out_of_range parsed then fail errc_value_too_large
    else if negb (consumed parsed input) then fail errc_malformed_data
    else if fc_value parsed =? 0 then fail errc_malformed_data
    else if uint32_max <? fc_value parsed then fail errc_value_too_large
    else Value (fc_value parsed).

Definition maximum_megahertz : Z := uint32_max / 1000.

(** The whole-megahertz loop from the suffix at [offset]: the value and the
    suffix it stops at. *)
Fixpoint megahertz_loop (rest : text) (megahertz : Z) : result (Z * text) :=
  match rest with
  | [] => Value (megahertz, [])
  | c :: rest' =>
      if is_digit_in 10 c then
        let digit := code c - 48 in
        if maximum_megahertz <? megahertz then fail errc_value_too_large
        else megahertz_loop rest' (wrap 64 (megahertz * 10 + digit))
      else Value (megahertz, rest)
  end.

Record fraction_state := Fraction_state {
  fraction : Z;
  fraction_digits : Z;
  round_up : bool
}.

Fixpoint fraction_loop (rest : text) (s : fraction_state) : fraction_state * text :=
  match rest with
  | [] => (s, [])
  | c :: rest' =>
      if is_digit_in 10 c then
        let digit := code c - 48 in
        let s :=
          if fraction_digits s <? 3 then
            Fraction_state (wrap 32 (fraction s * 10 + digit)) (fraction_digits s) (round_up s)
          else if (fraction_digits s =? 3) && (5 <=? digit) then
            Fraction_state (fraction s) (fraction_digits s) true
          else s in
        fraction_loop rest'
          (Fraction_state (fraction s) (wrap 32 (fraction_digits s + 1)) (round_up s))
      else (s, rest)
  end.

(** [while (fraction_digits < 3U) { fraction *= 10U; ++fraction_digits; }] *)
Fixpoint pad_loop (fuel : nat) (fraction digits : Z) : Z :=
  match fuel with
  | O => fraction
  | S fuel =>
      if digits <? 3 then pad_loop fuel (wrap 32 (fraction * 10)) (digits + 1) else fraction
  end.

(** At most three iterations: the digit count starts at zero or more. *)
Definition pad_fraction (s : fraction_state) : Z := pad_loop 3 (fraction s) (fraction_digits s).

Definition parse_mhz_fraction (rest : text) : result fraction_state :=
  match rest with
  | [] => Value (Fraction_state 0 0 false)
  | c :: rest =>
      if negb (is_char c ".") then fail errc_malformed_data
      else
        let '(s, rest) := fraction_loop rest (Fraction_state 0 0 false) in
        if (fraction_digits s =? 0) || negb (empty rest) then fail errc_malformed_data
        else Value s
  end.

Definition parse_mhz_text (input : text) : result Z :=
  let input := trim_cpu_field input in
  if empty input then fail errc_malformed_data
  else
    '(megahertz, rest) ← megahertz_loop input 0;
    reject (length rest =? length input)%nat errc_malformed_data;;
    s ← parse_mhz_fraction rest;
    let kilohertz := wrap 64 (megahertz * 1000 + pad_fraction s) in
    let kilohertz := if round_up s then wrap 64 (kilohertz + 1) else kilohertz in
    reject (kilohertz =? 0) errc_malformed_data;;
    reject (uint32_max <? kilohertz) errc_value_too_large;;
    Value kilohertz.

(** The loop's variables: [values], [blocks], [pending_block]. *)
Record frequency_state := Frequency_state {
  fq_values : list Z;
  fq_blocks : nat;
  fq_pending : bool
}.

(** Whether a "processor" value is one whole unsigned number. *)
Definition processor_index_valid (v : text) : bool :=
  negb (empty v) && consumed (from_chars_unsigned uint32_max 10 v) v.

Definition frequency_line (line : text) (s : frequency_state)
    : step frequency_state (result (list Z)) :=
  match find ":" line 0 with
  | None => Next s
  | Some separator =>
      let key := trim_cpu_field (substr 0 separator line) in
      let v := trim_cpu_field (substr_from (S separator) line) in
      if negb (same key (lit "processor")) && negb (same key (lit "cpu MHz")) then Next s
      else if same key (lit "processor") then
        if negb (processor_index_valid v) then Return (fail errc_malformed_data)
        else if fq_pending s then Return (fail errc_malformed_data)
        else Next (Frequency_state (fq_values s) (S (fq_blocks s)) true)
      else if negb (fq_pending s) then Return (fail errc_malformed_data)
      else
        frequency <-? parse_mhz_text v;
        Next (Frequency_state (fq_values s ++ [frequency]) (fq_blocks s) false)
  end.

Definition parse_cpuinfo_frequencies (input : text) : result (list Z) :=
  finish (each_field ch_lf input frequency_line (Frequency_state [] 0 false)) (fun s =>
    if (fq_blocks s =? 0)%nat then fail errc_malformed_data
    else if bool_decide (fq_values s = []) then fail errc_not_supported
    else if negb (length (fq_values s) =? fq_blocks s)%nat then fail errc_malformed_data
    else Value (fq_values s)).

Section frequency_queries.
Context {W : Type} `{Kernel W}.

Definition cpuinfo_current_frequencies : query W (list Z) :=
  let maximum_cpuinfo_size := 16 * 1024 * 1024 in
  content ← read_text_file (lit "/proc/cpuinfo") maximum_cpuinfo_size;
  pure (parse_cpuinfo_frequencies content).

Fixpoint sysfs_current_frequencies (online_cpus : list Z) : query W (list Z) :=
  match online_cpus with
  | [] => mret []
  | cpu :: online_cpus =>
      content ← attempt (read_text_file (cpu_path cpu (lit "/cpufreq/scaling_cur_freq")) 128);
      match content with
      | Failure e =>
          pure (if matches_std_errc e ENOENT then fail errc_not_supported else Failure e)
      | Value content =>
          v ← pure (parse_khz_text content);
          rest ← sysfs_current_frequencies online_cpus;
          mret (v :: rest)
      end
  end.

Definition current_frequencies_khz : query W (list Z) :=
  online_text ← attempt (read_text_file (lit "/sys/devices/system/cpu/online") (1024 * 1024));
  match online_text with
  | Value online_text =>
      online ← pure (parse_cpu_list online_text);
      values ← attempt (sysfs_current_frequencies online);
      if has_value values || negb (matches_errc (error values) errc_not_supported)
      then pure values
      else cpuinfo_current_frequencies
  | Failure e =>
      if negb (matches_std_errc e ENOENT) then pure (Failure e)
      else cpuinfo_current_frequencies
  end.

(** The loop over the online processors: the values in order; processors
    without the attribute are skipped. *)
Fixpoint cpufreq_bounds_loop (attribute : text) (online : list Z) : query W (list Z) :=
  match online with
  | [] => mret []
  | cpu :: online =>
      content ← attempt (read_text_file (cpu_path cpu (lit "/cpufreq/" ++ attribute)) 128);
      match content with
      | Failure e =>
          if matches_std_errc e ENOENT then cpufreq_bounds_loop attribute online
          else pure (Failure e)
      | Value content =>
          v ← pure (parse_khz_text content);
          rest ← cpufreq_bounds_loop attribute online;
          mret (v :: rest)
      end
  end.

(** [saw_any_attribute] is set exactly when a value was stored. *)
Definition collect_cpufreq_bounds (attribute : text) : query W (list Z) :=
  online ← read_online_list;
  values ← cpufreq_bounds_loop attribute online;
  pure (if bool_decide (values = []) then fail errc_not_supported else Value values).

(** [std::min_element] and [std::max_element] of a nonempty collection. *)
Definition min_element (values : list Z) : Z := foldr Z.min (hd 0 values) values.
Definition max_element (values : list Z) : Z := foldr Z.max (hd 0 values) values.

Definition minimum_frequency_khz : query W Z :=
  values ← collect_cpufreq_bounds (lit "cpuinfo_min_freq");
  mret (min_element values).

Definition maximum_frequency_khz : query W Z :=
  values ← collect_cpufreq_bounds (lit "cpuinfo_max_freq");
  mret (max_element values).

End frequency_queries.

(** ** Instruction-set features *)

Definition is_feature_key (key : text) : bool :=
  same key (lit "flags") || same key (lit "Features") || same key (lit "features").

Definition append_feature_tokens (labels : list text) (v : text) : list text :=
  match loop_state (each_token (R := False) cpu_space (fun _ => true) v
          (fun token labels => Next (append_unique_label labels token)) labels) with
  | Next labels => labels
  | Return no => match no with end
  end.

Record feature_state := Feature_state {
  ft_tokens : list text;
  ft_blocks : nat;
  ft_with_features : nat;
  ft_pending : bool;
  ft_block_has : bool
}.

Definition feature_line (line : text) (s : feature_state)
    : step feature_state (result (list text)) :=
  match find ":" line 0 with
  | None => Next s
  | Some separator =>
      let key := trim_cpu_field (substr 0 separator line) in
      let v := trim_cpu_field (substr_from (S separator) line) in
      if same key (lit "processor") then
        if negb (processor_index_valid v) then Return (fail errc_malformed_data)
        else
          Next (Feature_state (ft_tokens s) (S (ft_blocks s))
                  (if ft_pending s && ft_block_has s then S (ft_with_features s)
                   else ft_with_features s) true false)
      else if negb (is_feature_key key) then Next s
      else if negb (ft_pending s) then Return (fail errc_malformed_data)
      else if empty v then Return (fail errc_malformed_data)
      else Next (Feature_state (append_feature_tokens (ft_tokens s) v) (ft_blocks s)
                   (ft_with_features s) (ft_pending s) true)
  end.

Definition parse_cpuinfo_features (input : text) : result (list text) :=
  finish (each_field ch_lf input feature_line (Feature_state [] 0 0 false false)) (fun s =>
    let blocks_with_features :=
      if ft_pending s && ft_block_has s then S (ft_with_features s) else ft_with_features s in
    if (ft_blocks s =? 0)%nat then fail errc_malformed_data
    else if (blocks_with_features =? 0)%nat then fail errc_not_found
    else if negb (blocks_with_features =? ft_blocks s)%nat then fail errc_malformed_data
    else Value (ft_tokens s)).

(** ** Usage *)

Definition parse_stat_counter (input : text) : result Z :=
  let parsed := from_chars_unsigned uint64_max 10 input in
  if out_of_range parsed then fail errc_value_too_large
  else if empty input || negb (consumed parsed input) then fail errc_malformed_data
  else Value (fc_value parsed).

Definition add_counter (sum v : Z) : result Z :=
  if uint64_max - v <? sum then fail errc_value_too_large else Value (wrap 64 (sum + v)).

(** [counters[i]] when the line has such a field, zero otherwise. *)
Definition counter (counters : list Z) (i : nat) : Z := nth i counters 0.

Fixpoint parse_counters (items : list text) : result (list Z) :=
  match items with
  | [] => Value []
  | item :: items =>
      v ← parse_stat_counter item;
      rest ← parse_counters items;
      Value (v :: rest)
  end.

Definition split_fields (fields : text) : list text :=
  match loop_state (each_token (R := False) cpu_space (fun _ => true) fields
          (fun token items => Next (items ++ [token])) []) with
  | Next items => items
  | Return no => match no with end
  end.

Definition parse_cpu_usage_fields (fields : text) : result usage_information :=
  let items := split_fields fields in
  reject (length items <? 4)%nat errc_malformed_data;;
  counters ← parse_counters items;
  user_ticks ← add_counter (counter counters 0) (counter counters 1);
  system_ticks ← add_counter (counter counters 2)
    (if (5 <? length items)%nat then counter counters 5 else 0);
  system_with_softirq ←
    (if (6 <? length items)%nat then add_counter system_ticks (counter counters 6)
     else Value system_ticks);
  idle_ticks ← add_counter (counter counters 3)
    (if (4 <? length items)%nat then counter counters 4 else 0);
  Value (Usage_information user_ticks system_with_softirq idle_ticks).

Definition usage_line (line : text) (s : unit) : step unit (result usage_information) :=
  if negb (starts_with (lit "cpu ") line) then Next s
  else Return (parse_cpu_usage_fields (substr_from 4 line)).

Definition parse_proc_stat_usage (input : text) : result usage_information :=
  finish (each_field ch_lf input usage_line ()) (fun _ => fail errc_not_found).

Section usage_queries.
Context {W : Type} `{Kernel W}.

Definition instruction_set_features : query W (list text) :=
  let maximum_cpuinfo_size := 16 * 1024 * 1024 in
  content ← read_text_file (lit "/proc/cpuinfo") maximum_cpuinfo_size;
  pure (parse_cpuinfo_features content).

Definition cumulative_processor_usage : query W usage_information :=
  let maximum_stat_size := 16 * 1024 * 1024 in
  content ← read_text_file (lit "/proc/stat") maximum_stat_size;
  pure (parse_proc_stat_usage content).

End usage_queries.

(** ** Processor lists: what the parser accepts *)

(** The kernel's rendering of a processor range list. *)
Definition range_text (r : Z * Z) : text :=
  if fst r =? snd r then to_decimal (fst r)
  else to_decimal (fst r) ++ "-"%char :: to_decimal (snd r).

Definition cpu_list_text (rs : list (Z * Z)) : text := join "," (range_text <$> rs) ++ [ch_lf].

Definition valid_range (r : Z * Z) : Prop := 0 <= fst r <= snd r /\ snd r <= maximum_cpu_index.

(** Digits and the punctuation of a list: never blank, never a comma. *)
Definition list_char (c : ascii) : Prop := 48 <= code c <= 57 \/ c = "-"%char.

Lemma list_char_space c : list_char c -> cpu_space c = false.
Proof.
  intros Hc. unfold cpu_space, is_char.
  repeat (apply orb_false_iff; split); apply bool_decide_eq_false; intros ->;
    destruct Hc as [Hc|Hc]; vm_compute in Hc; intuition congruence.
Qed.

Lemma digits_list_char l : Forall (fun c => 48 <= code c <= 57) l -> Forall list_char l.
Proof. intros H. eapply Forall_impl; [exact H|]. intros c Hc. by left. Qed.

Lemma range_text_chars r : valid_range r -> Forall list_char (range_text r).
Proof.
  intros [[Ha Hb] _]. unfold range_text.
  pose proof (digits_list_char _ (to_decimal_Forall (fst r) ltac:(lia))).
  split_if; [done|]. apply Forall_app. split; [done|]. constructor; [by right|].
  apply digits_list_char, to_decimal_Forall. lia.
Qed.

Lemma list_char_comma l : Forall list_char l -> ","%char ∉ l.
Proof.
  rewrite Forall_forall. intros H Hin. destruct (H _ Hin) as [Hc|Hc]; [|done].
  vm_compute in Hc. intuition congruence.
Qed.

Lemma range_text_ne r : valid_range r -> range_text r <> [].
Proof.
  intros [[Ha Hb] _]. unfold range_text. pose proof (to_decimal_ne (fst r) ltac:(lia)).
  split_if; [done|]. by destruct (to_decimal (fst r)).
Qed.

Lemma range_text_trim r : valid_range r -> trim_cpu_field (range_text r) = range_text r.
Proof.
  intros Hr. apply trim_trimmed, trimmed_Forall.
  eapply Forall_impl; [by apply range_text_chars|]. apply list_char_space.
Qed.

Lemma digits_no_dash n : 0 <= n -> "-"%char ∉ to_decimal n.
Proof.
  intros Hn. apply not_in_digits; [by apply to_decimal_Forall|]. vm_compute. intuition congruence.
Qed.

Lemma parse_range_item r values :
  valid_range r ->
  parse_cpu_list_item (range_text r) values = Next (insert_range (fst r) (snd r) values).
Proof.
  intros Hr. pose proof (range_text_ne r Hr) as Hne. unfold parse_cpu_list_item.
  rewrite range_text_trim by done. rewrite (proj2 (empty_false _) Hne).
  destruct r as [a b]. destruct Hr as [[Ha Hab] Hb]. unfold range_text in *. cbn [fst snd] in *.
  unfold maximum_cpu_index in *.
  pose proof (to_decimal_ne a Ha) as Hna. pose proof (to_decimal_ne b ltac:(lia)) as Hnb.
  destruct (Z.eqb_spec a b) as [<-|Hneq].
  - rewrite find_none by (by apply digits_no_dash). cbv zeta.
    rewrite (proj2 (empty_false _) Hna). simpl orb. cbv iota.
    rewrite consumed_to_decimal, from_chars_to_decimal by zlia. simpl.
    by rewrite Z.ltb_irrefl, (proj2 (Z.ltb_ge _ _)) by lia.
  - rewrite find_app by (by apply digits_no_dash). cbv zeta.
    rewrite substr_prefix, substr_suffix, find_after by (apply digits_no_dash; lia).
    rewrite (proj2 (empty_false _) Hna), (proj2 (empty_false _) Hnb). simpl orb. cbv iota.
    rewrite !consumed_to_decimal, !from_chars_to_decimal by zlia. simpl.
    by rewrite !(proj2 (Z.ltb_ge _ _)) by lia.
Qed.

Lemma parse_range_items rs values :
  Forall valid_range rs ->
  exists s, fold_steps parse_cpu_list_item (range_text <$> rs) values = Next s /\
    forall x, x ∈ s <-> x ∈ values \/ exists r, r ∈ rs /\ fst r <= x <= snd r.
Proof.
  intros Hrs. revert values. induction Hrs as [|r rs Hr _ IH]; intros values; csimpl.
  - exists values. split; [done|]. intros x. split; [by left|].
    intros [Hx|(r & Hr & _)]; [done|]. by apply not_elem_of_nil in Hr.
  - rewrite parse_range_item by done.
    destruct (IH (insert_range (fst r) (snd r) values)) as (s & Hs & Hx).
    exists s. split; [done|]. intros x. rewrite Hx, elem_of_insert_range. split.
    + intros [[Hr'|Hv]|(r' & Hin & Hr')]; [right; exists r|by left|right; exists r'].
      * split; [by left|done].
      * split; [by right|done].
    + intros [Hv|(r' & [->|Hin]%elem_of_cons & Hr')]; [by left; right|by left; left|].
      right. by exists r'.
Qed.

Lemma join_range_chars rs :
  Forall valid_range rs -> Forall (fun c => cpu_space c = false) (join "," (range_text <$> rs)).
Proof.
  induction 1 as [|r rs Hr _ IH]; [done|].
  assert (Forall (fun c => cpu_space c = false) (range_text r)).
  { eapply Forall_impl; [by apply range_text_chars|]. apply list_char_space. }
  destruct rs as [|r' rs]; [done|]. csimpl in *.
  apply Forall_app. split; [done|]. by constructor.
Qed.

Lemma cpu_list_trim rs :
  rs <> [] -> Forall valid_range rs ->
  trim_cpu_field (cpu_list_text rs) = join "," (range_text <$> rs) /\
  join "," (range_text <$> rs) <> [].
Proof.
  intros Hne Hrs. split.
  - unfold trim_cpu_field, cpu_list_text.
    apply (trim_app cpu_space [] (join "," (range_text <$> rs)) [ch_lf]); [done| |].
    + by apply trimmed_Forall, join_range_chars.
    + by repeat constructor.
  - destruct Hrs as [|r rs Hr _]; [done|]. apply range_text_ne in Hr. csimpl.
    destruct (range_text <$> rs); [done|]. by destruct (range_text r).
Qed.

(** A rendered list of processor ranges parses to the ascending list of
    exactly the processors the ranges cover, each once, whatever the order and
    the overlaps of the ranges. *)
Theorem parse_cpu_list_ranges (rs : list (Z * Z)) :
  rs <> [] -> Forall valid_range rs ->
  exists cpus, parse_cpu_list (cpu_list_text rs) = Value cpus /\
    StronglySorted Z.lt cpus /\
    forall x, x ∈ cpus <-> exists r, r ∈ rs /\ fst r <= x <= snd r.
Proof.
  intros Hne Hrs. unfold parse_cpu_list. destruct (cpu_list_trim rs Hne Hrs) as [-> Hj].
  rewrite (proj2 (empty_false _) Hj), each_field_fields, fields_join.
  - destruct (parse_range_items rs ∅ Hrs) as (s & -> & Hx). simpl.
    exists (set_to_vector s). split; [done|]. split; [apply set_to_vector_sorted|].
    intros x. rewrite elem_of_set_to_vector, Hx.
    split; [intros [[]%not_elem_of_empty|?]; done|by right].
  - apply Forall_fmap. eapply Forall_impl; [exact Hrs|]. intros r Hr.
    by apply list_char_comma, range_text_chars.
  - apply Forall_fmap. eapply Forall_impl; [exact Hrs|]. intros r Hr.
    by apply range_text_ne.
Qed.

Lemma parse_cpu_list_ranges_witness :
  cpu_list_text [(4, 6); (0, 1); (5, 5)] = lit "4-6,0-1,5" ++ [ch_lf] /\
  exists cpus, parse_cpu_list (cpu_list_text [(4, 6); (0, 1); (5, 5)]) = Value cpus /\
    StronglySorted Z.lt cpus /\
    forall x, x ∈ cpus <-> exists r, r ∈ [(4, 6); (0, 1); (5, 5)] /\ fst r <= x <= snd r.
Proof.
  split; [reflexivity|]. apply (parse_cpu_list_ranges [(4, 6); (0, 1); (5, 5)]); [discriminate|].
  repeat constructor; unfold valid_range, maximum_cpu_index; simpl; lia.
Defined.

(** An accepted field inserts a range of processor indices. *)
Lemma parse_item_next field values values' :
  parse_cpu_list_item field values = Next values' ->
  exists a b, 0 <= a <= b /\ b <= maximum_cpu_index /\ values' = insert_range a b values.
Proof.
  unfold parse_cpu_list_item. cbv zeta.
  set (first_text := match find "-" (trim_cpu_field field) 0 with
                     | Some dash => _ | None => _ end).
  set (last_text := match find "-" (trim_cpu_field field) 0 with
                    | Some dash => _ | None => _ end).
  set (second_dash := match find "-" (trim_cpu_field field) 0 with
                      | Some dash => _ | None => _ end).
  destruct (empty (trim_cpu_field field)); [done|].
  destruct (empty first_text || empty last_text || second_dash); [done|].
  pose proof (fc_value_bound uint32_max 10 first_text ltac:(lia) ltac:(zlia)).
  split_if; [done|]. intros [= <-].
  exists (fc_value (from_chars_unsigned uint32_max 10 first_text)),
    (fc_value (from_chars_unsigned uint32_max 10 last_text)).
  split; [lia|]. by split; [lia|].
Qed.

Lemma parse_item_return field values r :
  parse_cpu_list_item field values = Return r -> r = fail errc_malformed_data.
Proof.
  unfold parse_cpu_list_item. cbv zeta. intros Hitem.
  repeat match type of Hitem with (if ?b then _ else _) = _ => destruct b end; congruence.
Qed.

Definition cpu_set_ok (s : gset Z) : Prop :=
  s <> ∅ /\ forall x, x ∈ s -> 0 <= x <= maximum_cpu_index.

Lemma cpu_set_insert a b s :
  0 <= a <= b -> b <= maximum_cpu_index -> (forall x, x ∈ s -> 0 <= x <= maximum_cpu_index) ->
  cpu_set_ok (insert_range a b s).
Proof.
  intros Hab Hb Hs. split.
  - assert (a ∈ insert_range a b s) by (rewrite elem_of_insert_range; left; lia).
    intros Hempty. rewrite Hempty in *. by apply (not_elem_of_empty (C := gset Z) a).
  - intros x. rewrite elem_of_insert_range. intros [Hx|Hx]; [lia|]. by apply Hs.
Qed.

Lemma parse_cpu_list_sorted input cpus :
  parse_cpu_list input = Value cpus -> StronglySorted Z.lt cpus.
Proof.
  unfold parse_cpu_list. split_if; [done|]. rewrite each_field_fields.
  pose proof (fold_steps_inv (fun _ => True) (fun r => r = fail errc_malformed_data)
    parse_cpu_list_item (fields "," (trim_cpu_field input)) ∅ I) as Hinv.
  destruct (fold_steps _ _ _) as [s|r]; simpl.
  - intros [= <-]. apply set_to_vector_sorted.
  - rewrite Hinv; [done|]. intros field s _.
    destruct (parse_cpu_list_item field s) eqn:E; [done|by apply parse_item_return in E].
Qed.

(** What the loop over the items returns on a text that is not blank. *)
Lemma cpu_list_fold l :
  l <> [] ->
  match fold_steps parse_cpu_list_item (fields "," l) ∅ with
  | Next s => cpu_set_ok s
  | Return r => r = fail errc_malformed_data
  end.
Proof.
  intros Hne. assert (fields "," l <> []) as Hf.
  { destruct l as [|c l]; [done|]. simpl. destruct (is_char "," c); [done|]. by destruct (fields "," l). }
  destruct (fields "," l) as [|f fs]; [done|]. simpl.
  destruct (parse_cpu_list_item f ∅) as [s0|r] eqn:E1; [|by apply parse_item_return in E1].
  apply parse_item_next in E1 as (a & b & Hab & Hb & ->).
  apply (fold_steps_inv cpu_set_ok (fun r => r = fail errc_malformed_data)); [by apply cpu_set_insert|].
  intros field s' [_ Hs]. destruct (parse_cpu_list_item field s') as [s''|r] eqn:E.
  - apply parse_item_next in E as (a' & b' & ? & ? & ->). by apply cpu_set_insert.
  - by apply parse_item_return in E.
Qed.

(** Whatever the text, the processors [parse_cpu_list] returns are strictly
    ascending, at least one, and never above the documented maximum index. *)
Theorem parse_cpu_list_bounded (input : text) (cpus : list Z) :
  parse_cpu_list input = Value cpus ->
  StronglySorted Z.lt cpus /\ cpus <> [] /\
  Forall (fun x => 0 <= x <= maximum_cpu_index) cpus.
Proof.
  unfold parse_cpu_list. destruct (empty (trim_cpu_field input)) eqn:Hne; [done|].
  rewrite each_field_fields. apply empty_false in Hne. pose proof (cpu_list_fold _ Hne) as H.
  destruct (fold_steps _ _ _) as [s|r]; simpl; [|by subst r]. intros [= <-]. destruct H as [Hs Hx].
  split; [apply set_to_vector_sorted|]. rewrite set_to_vector_nil. split; [done|].
  apply Forall_forall. intros x. rewrite elem_of_set_to_vector. apply Hx.
Qed.

Lemma parse_cpu_list_bounded_witness :
  parse_cpu_list (lit "7,2-3") = Value [2; 3; 7] /\
  StronglySorted Z.lt [2; 3; 7] /\ [2; 3; 7] <> [] /\
  Forall (fun x => 0 <= x <= maximum_cpu_index) [2; 3; 7].
Proof.
  split; [vm_compute; reflexivity|].
  apply (parse_cpu_list_bounded (lit "7,2-3")). vm_compute. reflexivity.
Defined.

(** A processor block without a frequency is [not_supported] only when no
    other block follows it. *)
Lemma parse_cpuinfo_frequencies_missing :
  parse_cpuinfo_frequencies (lit "processor : 0") = fail errc_not_supported /\
  parse_cpuinfo_frequencies (lit "processor : 0" ++ [ch_lf] ++ lit "processor : 1")
    = fail errc_malformed_data.
Proof. by vm_compute. Qed.
