(* ===== verification/CpuCache.v ===== *)
(** * The Linux processor backend: cache descriptors

    The cache attribute parsers, the walk over the sysfs cache directories and
    the merge of the observed instances of
    [include/syscape/detail/cpu/linux.hpp]. *)
From S2P Require Import Prelude Result CppText Utf8 System CpuCommon CpuInfo.

(** ** Attributes *)

Definition parse_signed_cache_attribute (input : text) : result Z :=
  let input := trim_cpu_field input in
  if empty input then fail errc_malformed_data
  else
    let parsed := from_chars_signed int64_min int64_max 10 input in
    if out_of_range parsed then fail errc_value_too_large
    else if negb (consumed parsed input) then fail errc_malformed_data
    else if fc_value parsed =? -1 then Value 0
    else if fc_value parsed <? 0 then fail errc_malformed_data
    else Value (fc_value parsed).

Definition parse_positive_cache_attribute (input : text) : result Z :=
  v ← parse_signed_cache_attribute input;
  reject (v =? 0) errc_malformed_data;;
  reject (uint32_max <? wrap 64 v) errc_value_too_large;;
  Value (wrap 32 v).

Definition parse_optional_cache_attribute (input : text) : result Z :=
  if empty (trim_cpu_field input) then Value 0
  else
    v ← parse_signed_cache_attribute input;
    reject (uint32_max <? wrap 64 v) errc_value_too_large;;
    Value (wrap 32 v).

(** The [switch] on the last character. *)
Definition size_multiplier (c : ascii) : option Z :=
  if is_char c "K" then Some 1024
  else if is_char c "M" then Some (1024 * 1024)
  else if is_char c "G" then Some (1024 * 1024 * 1024)
  else None.

Definition parse_cache_size_bytes (input : text) : result Z :=
  let input := trim_cpu_field input in
  if (length input <? 2)%nat then fail errc_malformed_data
  else
    match last input ≫= size_multiplier with
    | None => fail errc_malformed_data
    | Some multiplier =>
        let digits := substr 0 (length input - 1) input in
        let parsed := from_chars_unsigned uint64_max 10 digits in
        if out_of_range parsed then fail errc_value_too_large
        else if negb (consumed parsed digits) then fail errc_malformed_data
        else
          let v := fc_value parsed in
          if negb (v =? 0) && (uint64_max / v <? multiplier) then fail errc_value_too_large
          else
            let bytes := wrap 64 (v * multiplier) in
            if bytes =? 0 then fail errc_malformed_data else Value bytes
    end.

Definition parse_cache_type (input : text) : result cache_kind :=
  let input := trim_cpu_field input in
  if same input (lit "Data") then Value kind_data
  else if same input (lit "Instruction") then Value kind_instruction
  else if same input (lit "Unified") then Value kind_unified
  else fail errc_malformed_data.

(** ** Observed instances *)

Record observed_cache_instance := Observed_cache_instance {
  entry : cache_entry;
  shared_processors : list Z
}.

Definition precedes (left right : observed_cache_instance) : bool :=
  let l := entry left in
  let r := entry right in
  if negb (level l =? level r) then level l <? level r
  else if negb (kind_value (kind l) =? kind_value (kind r))
  then kind_value (kind l) <? kind_value (kind r)
  else lexicographic (shared_processors left) (shared_processors right).

Definition same_instance (left right : observed_cache_instance) : bool :=
  (level (entry left) =? level (entry right)) &&
  bool_decide (kind (entry left) = kind (entry right)) &&
  bool_decide (shared_processors left = shared_processors right).

Definition same_cache_geometry (left right : cache_entry) : bool :=
  (level left =? level right) && bool_decide (kind left = kind right) &&
  (instance_size_bytes left =? instance_size_bytes right) &&
  (line_size_bytes left =? line_size_bytes right) &&
  (associativity_ways left =? associativity_ways right) &&
  (sets_count left =? sets_count right) &&
  (shared_logical_processor_count left =? shared_logical_processor_count right).

(** The two positions are the two suffixes still to be compared. *)
Fixpoint processor_sets_overlap (left : list Z) : list Z -> bool :=
  match left with
  | [] => fun _ => false
  | x :: left' =>
      fix skip (right : list Z) : bool :=
        match right with
        | [] => false
        | y :: right' =>
            if x =? y then true
            else if x <? y then processor_sets_overlap left' right
            else skip right'
        end
  end.

(** ** The walk over one processor's cache directories *)

Section cache_walk.
Context {W : Type} `{Kernel W}.

Definition read_required_cache_attribute (path : text) : query W text :=
  content ← attempt (read_text_file path 4096);
  pure (match content with
        | Failure e =>
            if matches_std_errc e ENOENT then fail errc_temporarily_unavailable else content
        | Value _ => content
        end).

Definition read_optional_cache_attribute (path : text) : query W text :=
  content ← attempt (read_text_file path 4096);
  pure (match content with
        | Failure e => if matches_std_errc e ENOENT then Value [] else content
        | Value _ => content
        end).

(** The loop body after the type attribute was found. *)
Definition observe_cache (cpu : Z) (online_processors : list Z) (directory type_text : text)
    : query W observed_cache_instance :=
  type ← pure (parse_cache_type type_text);
  level_text ← read_required_cache_attribute (directory ++ lit "/level");
  level ← pure (parse_positive_cache_attribute level_text);
  size_text ← read_required_cache_attribute (directory ++ lit "/size");
  size ← pure (parse_cache_size_bytes size_text);
  line_text ← read_required_cache_attribute (directory ++ lit "/coherency_line_size");
  line ← pure (parse_positive_cache_attribute line_text);
  shared_text ← read_required_cache_attribute (directory ++ lit "/shared_cpu_list");
  shared ← pure (parse_cpu_list shared_text);
  pure (reject (bool_decide (shared = [])) errc_malformed_data);;
  pure (reject (negb (binary_search shared cpu)) errc_temporarily_unavailable);;
  let online_shared := set_intersection shared online_processors in
  pure (reject (bool_decide (online_shared = [])) errc_temporarily_unavailable);;
  ways_text ← read_optional_cache_attribute (directory ++ lit "/ways_of_associativity");
  sets_text ← read_optional_cache_attribute (directory ++ lit "/number_of_sets");
  ways ← pure (parse_optional_cache_attribute ways_text);
  sets ← pure (parse_optional_cache_attribute sets_text);
  mret (Observed_cache_instance
          (Cache_entry level type size line ways sets (wrap 32 (Z.of_nat (length online_shared))))
          online_shared).

Definition maximum_cache_index : nat := 1024.

(** [remaining] is [maximum_cache_index - index]; the code fails where it
    reaches zero. *)
Fixpoint cache_index_loop (remaining : nat) (cpu : Z) (online_processors : list Z)
    (base : text) (index : Z) (instances : list observed_cache_instance)
    : query W (list observed_cache_instance) :=
  match remaining with
  | O => pure (fail errc_value_too_large)
  | S remaining =>
      let directory := base ++ lit "index" ++ to_decimal index in
      type_text ← read_optional_cache_attribute (directory ++ lit "/type");
      if empty type_text then mret instances
      else
        observed ← observe_cache cpu online_processors directory type_text;
        cache_index_loop remaining cpu online_processors base (index + 1)
          (instances ++ [observed])
  end.

Definition observe_processor_caches (cpu : Z) (online_processors : list Z)
    (instances : list observed_cache_instance) : query W (list observed_cache_instance) :=
  cache_index_loop maximum_cache_index cpu online_processors (cpu_path cpu (lit "/cache/"))
    0 instances.

Fixpoint observe_loop (cpus online_processors : list Z)
    (instances : list observed_cache_instance) : query W (list observed_cache_instance) :=
  match cpus with
  | [] => mret instances
  | cpu :: cpus =>
      instances ← observe_processor_caches cpu online_processors instances;
      observe_loop cpus online_processors instances
  end.

End cache_walk.

(** ** The merge

    [unique_instances] is kept with its back element first. *)

(** The loop from [rbegin()] over the instances of the same level and kind. *)
Fixpoint overlaps_previous (unique_instances : list observed_cache_instance)
    (instance : observed_cache_instance) : bool :=
  match unique_instances with
  | [] => false
  | previous :: rest =>
      if (level (entry previous) =? level (entry instance)) &&
         bool_decide (kind (entry previous) = kind (entry instance))
      then processor_sets_overlap (shared_processors previous) (shared_processors instance) ||
           overlaps_previous rest instance
      else false
  end.

Definition merge_instance (instance : observed_cache_instance)
    (unique_instances : list observed_cache_instance) : result (list observed_cache_instance) :=
  match unique_instances with
  | back :: _ =>
      if same_instance back instance then
        reject (negb (same_cache_geometry (entry back) (entry instance)))
          errc_temporarily_unavailable;;
        Value unique_instances
      else
        reject (overlaps_previous unique_instances instance) errc_temporarily_unavailable;;
        Value (instance :: unique_instances)
  | [] => Value [instance]
  end.

Definition merge_instances (instances : list observed_cache_instance)
    : result (list observed_cache_instance) :=
  unique_instances ← fold_result merge_instance (std_sort precedes instances) [];
  Value (reverse unique_instances).

Section descriptors.
Context {W : Type} `{Kernel W}.

Definition cache_descriptors : query W (list cache_entry) :=
  online ← read_online_list;
  pure (reject (bool_decide (online = [])) errc_malformed_data);;
  instances ← observe_loop online online [];
  online_after ← read_online_list;
  pure (reject (negb (bool_decide (online_after = online))) errc_temporarily_unavailable);;
  pure (reject (bool_decide (instances = [])) errc_not_supported);;
  unique_instances ← pure (merge_instances instances);
  mret (entry <$> unique_instances).

End descriptors.

(** ** Overlap of ascending sets *)

Lemma overlap_spec left right :
  StronglySorted Z.lt left -> StronglySorted Z.lt right ->
  processor_sets_overlap left right = true <-> exists x, x ∈ left /\ x ∈ right.
Proof.
  revert right. induction left as [|x left IHl]; intros right Hl Hr.
  { split; [done|]. by intros (x & ?%not_elem_of_nil & _). }
  apply StronglySorted_inv in Hl as [Hl Hx]. rewrite Forall_forall in Hx.
  induction right as [|y right IHr].
  { split; [done|]. by intros (z & _ & ?%not_elem_of_nil). }
  pose proof Hr as Hr'. apply StronglySorted_inv in Hr' as [Hr' Hy]. rewrite Forall_forall in Hy.
  simpl. destruct (Z.eqb_spec x y) as [<-|Hne].
  { split; [|done]. intros _. exists x. split; by left. }
  destruct (Z.ltb_spec x y) as [Hlt|Hge].
  - rewrite IHl by done. setoid_rewrite elem_of_cons. split.
    + intros (z & ? & ?). exists z. auto.
    + intros (z & [->|Hz] & [->|Hz']); [done| |by exists y; auto|by exists z; auto].
      specialize (Hy x Hz'). lia.
  - change ((fix skip (right : list Z) : bool := _) right) with
      (processor_sets_overlap (x :: left) right).
    rewrite IHr by done. setoid_rewrite elem_of_cons. split.
    + intros (z & ? & ?). exists z. auto.
    + intros (z & [->|Hz] & [->|Hz']); [lia|by exists x; auto| |by exists z; auto].
      specialize (Hx y Hz). lia.
Qed.

(** ** The order of instances *)

Definition instance_key (i : observed_cache_instance) : list Z :=
  level (entry i) :: kind_value (kind (entry i)) :: shared_processors i.

Lemma precedes_key a b : precedes a b = lexicographic (instance_key a) (instance_key b).
Proof. unfold precedes. simpl. repeat split_if; try done; lia. Qed.

Lemma kind_value_inj k1 k2 : kind_value k1 = kind_value k2 -> k1 = k2.
Proof. by destruct k1, k2. Qed.

(** Same level and kind: one class of caches of the system. *)
Definition same_class (a b : observed_cache_instance) : Prop :=
  level (entry a) = level (entry b) /\ kind (entry a) = kind (entry b).

Lemma not_after_entry_le a b : not_after precedes a b -> entry_le (entry a) (entry b).
Proof.
  unfold not_after, entry_le. rewrite precedes_key. simpl. repeat split_if; try done; lia.
Qed.

Lemma entry_le_class a b c :
  entry_le (entry a) (entry b) -> entry_le (entry b) (entry c) ->
  same_class a c -> same_class a b.
Proof.
  unfold entry_le, same_class. intros H1 H2 [H3 H4]. rewrite <- H4 in H2.
  split; [lia|]. apply kind_value_inj. lia.
Qed.

Lemma same_instance_true a b :
  same_instance a b = true <-> same_class a b /\ shared_processors a = shared_processors b.
Proof.
  unfold same_instance, same_class. rewrite !andb_true_iff, Z.eqb_eq, !bool_decide_eq_true. done.
Qed.

Lemma same_cache_geometry_true a b : same_cache_geometry a b = true <-> a = b.
Proof.
  unfold same_cache_geometry. rewrite !andb_true_iff, !Z.eqb_eq, bool_decide_eq_true.
  destruct a, b; simpl. split; [|by intros [= -> -> -> -> -> -> ->]].
  by intros [[[[[[-> ->] ->] ->] ->] ->] ->].
Qed.

(** ** The merge *)

Definition well_formed_instance (i : observed_cache_instance) : Prop :=
  StronglySorted Z.lt (shared_processors i) /\ shared_processors i <> [].

Definition disjoint_sharing (a b : observed_cache_instance) : Prop :=
  forall x, x ∈ shared_processors a -> x ∈ shared_processors b -> False.

(** A processor has one cache of a level and kind: two observations of the
    same class are the same instance or share no processor. *)
Definition compatible (a b : observed_cache_instance) : Prop :=
  same_class a b -> a = b \/ disjoint_sharing a b.

Definition coherent (l : list observed_cache_instance) : Prop :=
  forall a b, a ∈ l -> b ∈ l -> compatible a b.

Lemma overlap_disjoint a b :
  well_formed_instance a -> well_formed_instance b ->
  processor_sets_overlap (shared_processors a) (shared_processors b) = false <->
  disjoint_sharing a b.
Proof.
  intros [Ha _] [Hb _]. rewrite <- not_true_iff_false, overlap_spec by done.
  unfold disjoint_sharing. split; [intros H x ? ?; apply H; by exists x|].
  intros H (x & ? & ?). by apply (H x).
Qed.

Lemma not_disjoint_self a : well_formed_instance a -> ~ disjoint_sharing a a.
Proof.
  intros [_ Hne] H. destruct (shared_processors a) as [|x l] eqn:E; [done|].
  apply (H x); rewrite E; by left.
Qed.

Section merge.

Let before : relation observed_cache_instance := not_after precedes.

Lemma before_trans : Transitive before.
Proof. exact (not_after_trans precedes instance_key precedes_key). Qed.

(** What the merge loop keeps of the instances already merged, and of those
    that remain. *)
Record merge_state (unique rest : list observed_cache_instance) : Prop := {
  ms_sorted : StronglySorted (flip before) unique;
  ms_before : forall u i, u ∈ unique -> i ∈ rest -> before u i;
  ms_unique : Forall well_formed_instance unique;
  ms_rest : Forall well_formed_instance rest
}.

Lemma overlaps_previous_spec unique i :
  StronglySorted (flip before) unique -> (forall u, u ∈ unique -> before u i) ->
  Forall well_formed_instance unique -> well_formed_instance i ->
  overlaps_previous unique i = false <->
  forall u, u ∈ unique -> same_class u i -> disjoint_sharing u i.
Proof.
  intros Hs Hb Hw Hi. induction Hs as [|p unique Hs IH Hp]; simpl.
  { split; [|done]. by intros _ u ?%not_elem_of_nil. }
  apply Forall_cons in Hw as [Hwp Hw].
  assert (forall u, u ∈ unique -> before u i) as Hb' by (intros u ?; apply Hb; by right).
  specialize (IH Hb' Hw).
  destruct ((level (entry p) =? level (entry i)) && bool_decide (kind (entry p) = kind (entry i)))
    eqn:Hc.
  - rewrite orb_false_iff, overlap_disjoint, IH by done. split.
    + intros [H1 H2] u [->|Hu]%elem_of_cons Hcl; auto.
    + intros Hall. split; [apply Hall; [by left|]; bool_to_prop; by split|].
      intros u Hu. apply Hall. by right.
  - split; [|done]. intros _ u [->|Hu]%elem_of_cons Hcl.
    + destruct Hcl as [H1 H2]. rewrite H1, H2, Z.eqb_refl in Hc.
      by rewrite bool_decide_eq_true_2 in Hc.
    + exfalso. rewrite Forall_forall in Hp. specialize (Hp u Hu).
      destruct (entry_le_class u p i) as [H1 H2]; [by apply not_after_entry_le| |done|].
      * apply not_after_entry_le, Hb. by left.
      * destruct Hcl as [H3 H4]. rewrite <- H1, <- H2, H3, H4, Z.eqb_refl in Hc.
        by rewrite bool_decide_eq_true_2 in Hc.
Qed.

Lemma overlaps_previous_true unique i :
  Forall well_formed_instance unique -> well_formed_instance i ->
  overlaps_previous unique i = true ->
  exists u, u ∈ unique /\ same_class u i /\ ~ disjoint_sharing u i.
Proof.
  intros Hw Hi. induction Hw as [|p unique Hp _ IH]; simpl; [done|].
  split_if; [|done]. intros [Ho|Ho]%orb_true_iff.
  - exists p. split; [by left|]. split; [by split|]. intros Hd.
    apply overlap_disjoint in Hd; [congruence|done|done].
  - destruct (IH Ho) as (u & Hu & Hcl). exists u. split; [by right|done].
Qed.

Lemma same_instance_key a b : instance_key a = instance_key b -> same_instance a b = true.
Proof.
  intros [= H1 H2%kind_value_inj H3]. apply same_instance_true. by repeat split.
Qed.

(** The back element is the only merged instance that can equal the next. *)
Lemma merged_not_back back unique i :
  merge_state (back :: unique) [i] -> i ∈ back :: unique -> same_instance back i = true.
Proof.
  intros [Hs Hb _ _] [->|Hi]%elem_of_cons; [by apply same_instance_key|].
  apply StronglySorted_inv in Hs as [_ Hs]. rewrite Forall_forall in Hs.
  apply same_instance_key, (not_after_key_antisym precedes instance_key precedes_key).
  - apply Hb; by left.
  - by apply Hs.
Qed.

(** One step merges the instance, or finds one it contradicts. *)
Lemma merge_instance_step unique i :
  merge_state unique [i] ->
  match merge_instance i unique with
  | Value unique' =>
      (unique' = unique /\ i ∈ unique) \/
      (unique' = i :: unique /\ forall u, u ∈ unique -> same_class u i -> disjoint_sharing u i)
  | Failure e =>
      e = make_error_code errc_temporarily_unavailable /\ exists u, u ∈ unique /\ ~ compatible u i
  end.
Proof.
  intros Hm. pose proof Hm as [Hs Hb Hw Hr]. apply Forall_cons in Hr as [Hi _].
  destruct unique as [|back unique]; cbn [merge_instance].
  { right. split; [done|]. by intros u ?%not_elem_of_nil. }
  destruct (same_instance back i) eqn:Hsame.
  - apply same_instance_true in Hsame as [Hcl Hsp].
    destruct (same_cache_geometry (entry back) (entry i)) eqn:Hg; simpl.
    + left. split; [done|]. apply same_cache_geometry_true in Hg.
      assert (back = i) as -> by (by destruct back, i; simpl in *; subst). by left.
    + split; [done|]. exists back. split; [by left|]. intros Hc. destruct (Hc Hcl) as [->|Hd].
      * by rewrite (proj2 (same_cache_geometry_true (entry i) (entry i))) in Hg.
      * apply (not_disjoint_self i Hi). intros x Hx Hx'. apply (Hd x); [by rewrite Hsp|done].
  - destruct (overlaps_previous (back :: unique) i) eqn:Ho; cbn [reject mbind result_bind].
    + split; [done|]. apply overlaps_previous_true in Ho as (u & Hu & Hcl & Hd); [|done|done].
      exists u. split; [done|]. intros Hc. destruct (Hc Hcl) as [->|?]; [|done].
      by rewrite (merged_not_back back unique i) in Hsame.
    + right. split; [done|]. apply overlaps_previous_spec; [done| |done|done|done].
      intros u Hu. apply Hb; [done|by left].
Qed.

Lemma coherent_sub l k : (forall x, x ∈ l -> x ∈ k) -> coherent k -> coherent l.
Proof. intros Hl Hk a b Ha Hb. apply Hk; by apply Hl. Qed.

Lemma coherent_cons i l :
  coherent l -> (forall u, u ∈ l -> same_class u i -> disjoint_sharing u i) -> coherent (i :: l).
Proof.
  intros Hl Hd a b [->|Ha]%elem_of_cons [->|Hb]%elem_of_cons.
  - by left.
  - intros [H1 H2]. right. intros x Hx Hx'. by apply (Hd b Hb) with x.
  - intros Hc. right. by apply Hd.
  - by apply Hl.
Qed.

Lemma merge_state_rest unique i rest :
  merge_state unique (i :: rest) -> merge_state unique rest /\ merge_state unique [i].
Proof.
  intros [Hs Hb Hw [Hi Hr]%Forall_cons]. split; split; try done.
  - intros u j ? ?. apply Hb; [done|by right].
  - intros u j ? ->%list_elem_of_singleton. apply Hb; [done|by left].
  - by constructor.
Qed.

Lemma merge_state_push unique i rest :
  Forall (before i) rest -> merge_state unique (i :: rest) -> merge_state (i :: unique) rest.
Proof.
  intros Hi [Hs Hb Hw [Hwi Hr]%Forall_cons]. rewrite Forall_forall in Hi. split.
  - constructor; [done|]. apply Forall_forall. intros u Hu. apply Hb; [done|by left].
  - intros u j [->|Hu]%elem_of_cons Hj; [by apply Hi|]. apply Hb; [done|by right].
  - by constructor.
  - done.
Qed.

(** The loop returns the merged instances, pairwise compatible, each once; it
    fails exactly on incoherent observations. *)
Lemma merge_loop_spec rest unique :
  StronglySorted before rest -> merge_state unique rest -> NoDup unique -> coherent unique ->
  match fold_result merge_instance rest unique with
  | Value out =>
      StronglySorted (flip before) out /\ NoDup out /\ coherent out /\
      forall x, x ∈ out <-> x ∈ unique \/ x ∈ rest
  | Failure e =>
      e = make_error_code errc_temporarily_unavailable /\ ~ coherent (unique ++ rest)
  end.
Proof.
  intros Hrest. revert unique.
  induction Hrest as [|i rest Hrest IH Hi]; intros unique Hm Hnd Hco; cbn [fold_result].
  { destruct Hm. split_and!; [done..|]. intros x. split; [by left|].
    by intros [?|?%not_elem_of_nil]. }
  destruct (merge_state_rest _ _ _ Hm) as [Hm' Hstep].
  pose proof (ms_unique _ _ Hm) as Hw. pose proof (ms_rest _ _ Hm) as Hwi.
  apply Forall_cons in Hwi as [Hwi _]. rewrite Forall_forall in Hw.
  apply merge_instance_step in Hstep.
  destruct (merge_instance i unique) as [unique'|e]; cbn [mbind result_bind].
  - assert (merge_state unique' rest /\ NoDup unique' /\ coherent unique' /\
      forall x, x ∈ unique' <-> x ∈ unique \/ x = i) as (Hm2 & Hnd2 & Hco2 & Hin2).
    { destruct Hstep as [[-> Hin]|[-> Hdis]].
      - split_and!; [done..|]. intros x. split; [by left|]. by intros [?| ->].
      - split; [by apply merge_state_push|]. split.
        + constructor; [|done]. intros Hin. apply (not_disjoint_self i Hwi), (Hdis i Hin).
          by split.
        + split; [by apply coherent_cons|]. intros x. rewrite elem_of_cons. tauto. }
    specialize (IH unique' Hm2 Hnd2 Hco2).
    destruct (fold_result merge_instance rest unique') as [out|e].
    + destruct IH as (H1 & H2 & H3 & Hx). split_and!; [done..|].
      intros x. rewrite Hx, Hin2, elem_of_cons. tauto.
    + destruct IH as [-> Hn]. split; [done|]. intros Hc. apply Hn.
      apply (coherent_sub _ (unique ++ i :: rest)); [|done]. intros x.
      rewrite !elem_of_app, Hin2, elem_of_cons. tauto.
  - destruct Hstep as [-> (u & Hu & Hn)]. split; [done|]. intros Hc. apply Hn, Hc.
    + apply elem_of_app. by left.
    + apply elem_of_app. right. by left.
Qed.

End merge.

Lemma coherent_permutation l k : l ≡ₚ k -> coherent l -> coherent k.
Proof. intros Hp. apply coherent_sub. intros x. by rewrite Hp. Qed.

Lemma sorted_reverse {A} (R : relation A) l :
  StronglySorted (flip R) l -> StronglySorted R (reverse l).
Proof.
  induction 1 as [|x l Hl IH Hx]; [constructor|]. rewrite reverse_cons.
  apply StronglySorted_app. split; [|split; [done|by repeat constructor]].
  intros a b Ha ->%list_elem_of_singleton. rewrite elem_of_reverse in Ha.
  rewrite Forall_forall in Hx. by apply Hx.
Qed.

Lemma entries_sorted unique :
  StronglySorted (flip (not_after precedes)) unique ->
  StronglySorted entry_le (entry <$> reverse unique).
Proof.
  intros Hs%sorted_reverse. induction Hs as [|i l Hl IH Hi]; csimpl; constructor; [done|].
  apply Forall_fmap. eapply Forall_impl; [exact Hi|]. intros j. apply not_after_entry_le.
Qed.

(** The loop started on the sorted observations. *)
Lemma merge_run instances :
  Forall well_formed_instance instances ->
  match fold_result merge_instance (std_sort precedes instances) [] with
  | Value out =>
      StronglySorted (flip (not_after precedes)) out /\ NoDup out /\ coherent instances /\
      forall x, x ∈ out <-> x ∈ instances
  | Failure e =>
      e = make_error_code errc_temporarily_unavailable /\ ~ coherent instances
  end.
Proof.
  intros Hw. pose proof (std_sort_permutation precedes instances) as Hp.
  assert (merge_state [] (std_sort precedes instances)) as Hm.
  { split; [constructor|by intros u ? ?%not_elem_of_nil|constructor|by rewrite Hp]. }
  assert (coherent []) as Hnil by (by intros a b ?%not_elem_of_nil).
  pose proof (merge_loop_spec _ _ (std_sort_key_sorted precedes instance_key precedes_key instances)
    Hm (NoDup_nil_2 (A := observed_cache_instance)) Hnil) as Hloop.
  destruct (fold_result merge_instance (std_sort precedes instances) []) as [out|e].
  - destruct Hloop as (Hs & Hnd & Hco & Hx).
    assert (forall x, x ∈ out <-> x ∈ instances) as Hin.
    { intros x. rewrite Hx, Hp. split; [by intros [?%not_elem_of_nil|?]|by right]. }
    split_and!; [done..| |done]. apply (coherent_sub _ out); [intros x; apply Hin|done].
  - destruct Hloop as [-> Hn]. split; [done|]. intros Hc. apply Hn.
    by apply (coherent_permutation instances).
Qed.

(** C4: [cache_descriptors] merges the observations of all processors into one
    entry per cache instance, each once, ordered by level and kind: no two
    instances of a level and kind share a processor.  The merge fails, with
    [temporarily_unavailable], exactly when two observations of the same level
    and kind contradict each other. *)
Theorem merge_instances_spec (instances : list observed_cache_instance) :
  Forall well_formed_instance instances ->
  match merge_instances instances with
  | Value unique =>
      NoDup unique /\ (forall x, x ∈ unique <-> x ∈ instances) /\
      StronglySorted entry_le (entry <$> unique) /\ coherent instances
  | Failure e =>
      e = make_error_code errc_temporarily_unavailable /\ ~ coherent instances
  end.
Proof.
  intros Hw%merge_run. unfold merge_instances.
  destruct (fold_result merge_instance _ []) as [out|e]; simpl; [|done].
  destruct Hw as (Hs & Hnd & Hco & Hx). split_and!; [by rewrite reverse_Permutation| | |done].
  - intros x. by rewrite elem_of_reverse.
  - apply entries_sorted, Hs.
Qed.

Lemma merge_instances_spec_witness :
  let one := Cache_entry 1 kind_data 32768 64 8 64 2 in
  let a := Observed_cache_instance one [0; 1] in
  let b := Observed_cache_instance one [2; 3] in
  let c := Observed_cache_instance one [1; 2] in
  merge_instances [b; a; a] = Value [a; b] /\ coherent [b; a; a] /\
  merge_instances [b; a; c] = fail errc_temporarily_unavailable /\ ~ coherent [b; a; c].
Proof.
  intros one a b c.
  assert (Forall well_formed_instance [b; a; a] /\ Forall well_formed_instance [b; a; c]) as [H1 H2].
  { split; repeat constructor; simpl; discriminate || lia. }
  pose proof (merge_instances_spec [b; a; a] H1) as M1.
  pose proof (merge_instances_spec [b; a; c] H2) as M2.
  assert (merge_instances [b; a; a] = Value [a; b]) as E1 by (vm_compute; reflexivity).
  assert (merge_instances [b; a; c] = fail errc_temporarily_unavailable) as E2
    by (vm_compute; reflexivity).
  rewrite E1 in M1. rewrite E2 in M2. destruct M1 as (_ & _ & _ & M1). destruct M2 as [_ M2].
  exact (conj E1 (conj M1 (conj E2 M2))).
Defined.

(** ** What the walk returns *)

Lemma wrap_32_positive v : v <> 0 -> 0 <= v < 2 ^ 64 -> wrap 64 v <= uint32_max -> wrap 32 v <> 0.
Proof. unfold wrap. intros Hne Hv. rewrite Z.mod_small by lia. intros. rewrite Z.mod_small; zlia. Qed.

Lemma parse_signed_cache_attribute_bound input v :
  parse_signed_cache_attribute input = Value v -> 0 <= v <= int64_max.
Proof.
  unfold parse_signed_cache_attribute. cbv zeta. set (t := trim_cpu_field input).
  pose proof (fc_signed_bound int64_min int64_max 10 t ltac:(lia) ltac:(zlia) ltac:(zlia)).
  repeat split_if; intros Hv; inv_result; zlia.
Qed.

Lemma parse_positive_cache_attribute_ne input v :
  parse_positive_cache_attribute input = Value v -> v <> 0.
Proof.
  unfold parse_positive_cache_attribute. intros Hv. inv_result. bool_to_prop.
  match goal with H : parse_signed_cache_attribute _ = _ |- _ =>
    apply parse_signed_cache_attribute_bound in H end.
  apply wrap_32_positive; unfold wrap in *; zlia.
Qed.

Lemma parse_cache_size_bytes_ne input v : parse_cache_size_bytes input = Value v -> v <> 0.
Proof.
  unfold parse_cache_size_bytes. cbv zeta.
  destruct (last _ ≫= size_multiplier); repeat split_if; intros Hv; inv_result; lia.
Qed.

Section walk.
Context {W : Type} `{Kernel W}.

Definition observed_ok (i : observed_cache_instance) : Prop :=
  positive_entry (entry i) /\ well_formed_instance i.

Lemma observe_cache_yields cpu online directory type_text :
  yields (observe_cache cpu online directory type_text) observed_ok.
Proof.
  unfold observe_cache.
  apply yields_skip; intros type. apply yields_skip; intros level_text.
  apply yields_pure_bind; intros lv Hlv. apply yields_skip; intros size_text.
  apply yields_pure_bind; intros sz Hsz. apply yields_skip; intros line_text.
  apply yields_pure_bind; intros ln Hln. apply yields_skip; intros shared_text.
  apply yields_pure_bind; intros shared Hshared.
  apply yields_skip; intros _. apply yields_skip; intros _. cbv zeta.
  apply yields_pure_bind; intros [] Hne%reject_value. bool_to_prop.
  do 4 (apply yields_skip; intros ?). apply yields_ret. split; simpl.
  - split; [by apply parse_positive_cache_attribute_ne in Hlv|].
    split; [by apply parse_cache_size_bytes_ne in Hsz|].
    by apply parse_positive_cache_attribute_ne in Hln.
  - split; [|done]. by apply set_intersection_sorted, parse_cpu_list_sorted with shared_text.
Qed.

Lemma cache_index_loop_yields remaining cpu online base index instances :
  Forall observed_ok instances ->
  yields (cache_index_loop remaining cpu online base index instances) (Forall observed_ok).
Proof.
  revert index instances. induction remaining as [|n IH]; intros index instances Hi; simpl.
  - by apply yields_pure.
  - apply yields_skip; intros type_text. split_if; [by apply yields_ret|].
    eapply yields_bind; [apply observe_cache_yields|]. intros i Hok. apply IH.
    apply Forall_app. split; [done|by constructor].
Qed.

Lemma observe_loop_yields cpus online instances :
  Forall observed_ok instances ->
  yields (observe_loop cpus online instances) (Forall observed_ok).
Proof.
  revert instances. induction cpus as [|cpu cpus IH]; intros instances Hi; simpl.
  - by apply yields_ret.
  - eapply yields_bind; [by apply cache_index_loop_yields|apply IH].
Qed.

Lemma merged_entries_accepted instances unique :
  Forall observed_ok instances -> merge_instances instances = Value unique ->
  validate_cache_entries (Value (entry <$> unique)) = Value (entry <$> unique).
Proof.
  intros Hok Hm. assert (Forall well_formed_instance instances) as Hrun%merge_run.
  { eapply Forall_impl; [exact Hok|]. by intros i [_ Hi]. }
  unfold merge_instances in Hm. destruct (fold_result merge_instance _ []) as [out|e]; [|done].
  simpl in Hm. injection Hm as <-. destruct Hrun as (Hs & _ & _ & Hx).
  apply validate_cache_entries_accepts; [|by apply entries_sorted].
  apply Forall_fmap, Forall_forall. intros i Hi. rewrite elem_of_reverse in Hi.
  apply Hx in Hi. rewrite Forall_forall in Hok. by apply Hok.
Qed.

(** C5: whatever the kernel's files hold, the entries [cache_descriptors]
    returns pass the check of the public boundary, [validate_cache_entries]:
    the Linux backend never turns its own result into [malformed_data]. *)
Theorem cache_descriptors_valid (w w' : W) (entries : list cache_entry) :
  cache_descriptors w = (Value entries, w') ->
  validate_cache_entries (Value entries) = Value entries.
Proof.
  revert w entries w'. change (yields cache_descriptors
    (fun entries => validate_cache_entries (Value entries) = Value entries)).
  unfold cache_descriptors. apply yields_skip; intros online. apply yields_skip; intros _.
  eapply yields_bind; [by apply observe_loop_yields|]. intros instances Hok.
  do 3 (apply yields_skip; intros ?). apply yields_pure_bind; intros unique Hm.
  by apply yields_ret, (merged_entries_accepted instances).
Qed.

End walk.

(** A machine with one processor and one cache. *)
Definition one_cache_files : list (string * string) := [
  ("/sys/devices/system/cpu/online", "0");
  ("/sys/devices/system/cpu/cpu0/cache/index0/type", "Unified");
  ("/sys/devices/system/cpu/cpu0/cache/index0/level", "2");
  ("/sys/devices/system/cpu/cpu0/cache/index0/size", "512K");
  ("/sys/devices/system/cpu/cpu0/cache/index0/coherency_line_size", "64");
  ("/sys/devices/system/cpu/cpu0/cache/index0/shared_cpu_list", "0")]%string.

Lemma cache_descriptors_valid_witness :
  let K := static_kernel one_cache_files in
  let entries := [Cache_entry 2 kind_unified 524288 64 0 0 1] in
  @cache_descriptors unit K tt = (Value entries, tt) /\
  validate_cache_entries (Value entries) = Value entries.
Proof.
  intros K entries.
  assert (@cache_descriptors unit K tt = (Value entries, tt)) as E by (vm_compute; reflexivity).
  exact (conj E (@cache_descriptors_valid unit K tt tt entries E)).
Defined.
