(* ===== verification/Memory.v ===== *)
(** * Memory capacity, commit, huge pages and pressure

    [include/syscape/detail/memory/common.hpp], the types and checks shared by
    the backends, and [include/syscape/detail/memory/linux.hpp], the parsers of
    /proc/meminfo and /proc/pressure/memory with their queries. *)
From S2P Require Import Prelude Result CppText System.

(** ** common.hpp *)

Module MemoryCommon.

Record swap_usage := Swap_usage { swap_total : Z; swap_free : Z }.

Definition validate_swap_usage (v : result swap_usage) : result swap_usage :=
  usage ← v;
  reject (swap_total usage <? swap_free usage) errc_malformed_data;;
  Value usage.

Record commit_usage := Commit_usage { committed_bytes : Z; commit_limit_bytes : Z }.

Record huge_page_pool_usage := Huge_page_pool_usage { total_count : Z; free_count : Z }.

Definition validate_huge_page_pool (v : result huge_page_pool_usage)
    : result huge_page_pool_usage :=
  pool ← v;
  reject (total_count pool <? free_count pool) errc_malformed_data;;
  Value pool.

Definition validate_huge_page_size (v : result Z) : result Z :=
  size ← v;
  reject ((size =? 0) || negb (Z.land size (wrap 64 (size - 1)) =? 0)) errc_malformed_data;;
  Value size.

Definition utilization_percent (used_units total_units : Z) : result Z :=
  let scale := 100 in
  if total_units =? 0 then fail errc_malformed_data
  else if uint64_max / (2 * scale) <? total_units then fail errc_value_too_large
  else
    let percent := wrap 64 (wrap 64 (used_units * scale) + total_units / 2) / total_units in
    if scale <? percent then fail errc_malformed_data else Value (wrap 32 percent).

Record pressure_sample := Pressure_sample {
  average10_micro_percent : Z;
  average60_micro_percent : Z;
  average300_micro_percent : Z;
  total_microseconds : Z
}.

Record pressure_status := Pressure_status {
  some : pressure_sample;
  has_full : bool;
  full : pressure_sample
}.

End MemoryCommon.
Import MemoryCommon.

(** ** /proc/meminfo

    A value and its [has_] flag, which the code always sets together and reads
    the value under, are an [option]. *)

Record memory_information := Memory_information {
  mi_total : option Z;
  mi_available : option Z;
  mi_swap_total : option Z;
  mi_swap_free : option Z;
  mi_committed : option Z;
  mi_commit_limit : option Z;
  mi_huge_total : option Z;
  mi_huge_free : option Z;
  mi_huge_page_size : option Z
}.

Definition empty_information : memory_information :=
  Memory_information None None None None None None None None None.

Definition memory_space (v : ascii) : bool :=
  is_char v " " || is_char v ch_tab || is_char v ch_cr || is_char v ch_lf.

Definition trim_memory_field (v : text) : text := trim memory_space v.

Definition parse_kilobyte_amount (input : text) : result Z :=
  let v := trim_memory_field input in
  if empty v then fail errc_malformed_data
  else
    let parsed := from_chars_unsigned uint64_max 10 v in
    if negb (bool_decide (fc_ec parsed = chars_ok)) || (fc_ptr parsed =? 0)%nat
    then fail errc_malformed_data
    else
      let unit_text := trim_memory_field (substr_from (fc_ptr parsed) v) in
      if negb (same unit_text (lit "kB")) then fail errc_malformed_data
      else
        let maximum_kilobytes := Z.shiftr uint64_max 10 in
        if maximum_kilobytes <? fc_value parsed then fail errc_value_too_large
        else Value (wrap 64 (Z.shiftl (fc_value parsed) 10)).

Definition parse_bare_count (input : text) : result Z :=
  let v := trim_memory_field input in
  if empty v then fail errc_malformed_data
  else
    let parsed := from_chars_unsigned uint64_max 10 v in
    if negb (consumed parsed v) then fail errc_malformed_data
    else Value (fc_value parsed).

Inductive meminfo_field :=
  | field_unrecognized
  | field_total
  | field_available
  | field_swap_total
  | field_swap_free
  | field_committed
  | field_commit_limit
  | field_huge_total_count
  | field_huge_free_count
  | field_huge_page_size.

#[global] Instance meminfo_field_eq_dec : EqDecision meminfo_field.
Proof. solve_decision. Defined.

Definition documented_meminfo_keys : list (text * meminfo_field) := [
  (lit "MemTotal", field_total);
  (lit "MemAvailable", field_available);
  (lit "SwapTotal", field_swap_total);
  (lit "SwapFree", field_swap_free);
  (lit "Committed_AS", field_committed);
  (lit "CommitLimit", field_commit_limit);
  (lit "HugePages_Total", field_huge_total_count);
  (lit "HugePages_Free", field_huge_free_count);
  (lit "Hugepagesize", field_huge_page_size)].

Fixpoint classify_in (table : list (text * meminfo_field)) (key : text) : meminfo_field :=
  match table with
  | [] => field_unrecognized
  | (name, field) :: table => if same name key then field else classify_in table key
  end.

Definition classify_meminfo_key (key : text) : meminfo_field :=
  classify_in documented_meminfo_keys key.

Definition is_bare_count_field (field : meminfo_field) : bool :=
  bool_decide (field = field_huge_total_count) || bool_decide (field = field_huge_free_count).

(** The [switch] that stores a value. *)
Definition store_field (field : meminfo_field) (v : Z) (o : memory_information)
    : memory_information :=
  let '(Memory_information t a st sf c cl ht hf hs) := o in
  match field with
  | field_total => Memory_information (Some v) a st sf c cl ht hf hs
  | field_available => Memory_information t (Some v) st sf c cl ht hf hs
  | field_swap_total => Memory_information t a (Some v) sf c cl ht hf hs
  | field_swap_free => Memory_information t a st (Some v) c cl ht hf hs
  | field_committed => Memory_information t a st sf (Some v) cl ht hf hs
  | field_commit_limit => Memory_information t a st sf c (Some v) ht hf hs
  | field_huge_total_count => Memory_information t a st sf c cl (Some v) hf hs
  | field_huge_free_count => Memory_information t a st sf c cl ht (Some v) hs
  | field_huge_page_size => Memory_information t a st sf c cl ht hf (Some v)
  | field_unrecognized => o
  end.

Definition meminfo_line (line : text) (output : memory_information)
    : step memory_information (result memory_information) :=
  match find ":" line 0 with
  | None => Next output
  | Some separator =>
      let field := classify_meminfo_key (trim_memory_field (substr 0 separator line)) in
      if bool_decide (field = field_unrecognized) then Next output
      else
        let amount := substr_from (S separator) line in
        v <-? (if is_bare_count_field field then parse_bare_count amount
               else parse_kilobyte_amount amount);
        Next (store_field field v output)
  end.

Definition parse_meminfo (input : text) : result memory_information :=
  finish (each_field ch_lf input meminfo_line empty_information) Value.

(** [if (!has_field) return fail(e);] *)
Definition recorded (v : option Z) (e : errc) : result Z :=
  match v with Some v => Value v | None => fail e end.

Section meminfo_queries.
Context {W : Type} `{Kernel W}.

Definition read_memory_information : query W memory_information :=
  content ← read_text_file (lit "/proc/meminfo") default_maximum_size;
  pure (parse_meminfo content).

Definition page_size_result (v errno : Z) : result Z :=
  if v <=? 0 then if errno =? 0 then fail errc_not_supported else fail_native errno
  else Value (wrap 64 v).

Definition page_size_bytes : query W Z := fun w =>
  match sysconf SC_PAGESIZE w with ((v, errno), w) => (page_size_result v errno, w) end.

Definition physical_memory_bytes : query W Z :=
  information ← read_memory_information;
  pure (recorded (mi_total information) errc_not_found).

Definition available_memory_bytes : query W Z :=
  information ← read_memory_information;
  pure (recorded (mi_available information) errc_not_supported).

Definition swap_status : query W swap_usage :=
  information ← read_memory_information;
  total ← pure (recorded (mi_swap_total information) errc_not_found);
  free ← pure (recorded (mi_swap_free information) errc_not_found);
  mret (Swap_usage total free).

Definition commit_status : query W commit_usage :=
  information ← read_memory_information;
  committed ← pure (recorded (mi_committed information) errc_not_found);
  limit ← pure (recorded (mi_commit_limit information) errc_not_found);
  mret (Commit_usage committed limit).

Definition huge_page_size_bytes : query W Z :=
  information ← read_memory_information;
  pure (recorded (mi_huge_page_size information) errc_not_found).

Definition huge_page_pool_status : query W huge_page_pool_usage :=
  information ← read_memory_information;
  total ← pure (recorded (mi_huge_total information) errc_not_found);
  free ← pure (recorded (mi_huge_free information) errc_not_found);
  mret (Huge_page_pool_usage total free).

Definition load_percent (information : memory_information) : result Z :=
  available ← recorded (mi_available information) errc_not_supported;
  total ← recorded (mi_total information) errc_not_found;
  reject (total <? available) errc_malformed_data;;
  utilization_percent (wrap 64 (total - available)) total.

Definition memory_load_percent : query W Z :=
  information ← read_memory_information;
  pure (load_percent information).

End meminfo_queries.

(** ** /proc/pressure/memory *)

Definition parse_micro_percent (input : text) : result Z :=
  let v := trim_memory_field input in
  match find "." v 0 with
  | None => fail errc_malformed_data
  | Some separator =>
      if (separator =? 0)%nat || (3 <? separator)%nat ||
         negb (length v - separator =? 3)%nat
      then fail errc_malformed_data
      else
        let whole_text := substr 0 separator v in
        let parsed_whole := from_chars_unsigned uint64_max 10 whole_text in
        if negb (consumed parsed_whole whole_text) then fail errc_malformed_data
        else
          let fraction_text := substr_from (S separator) v in
          let parsed_fraction := from_chars_unsigned uint64_max 10 fraction_text in
          if negb (consumed parsed_fraction fraction_text) then fail errc_malformed_data
          else
            let hundredths :=
              wrap 64 (wrap 64 (fc_value parsed_whole * 100) + fc_value parsed_fraction) in
            if 10000 <? hundredths then fail errc_malformed_data
            else Value (wrap 64 (hundredths * 10000))
  end.

(** The sample's fields with their [has_] flags. *)
Record sample_state := Sample_state {
  ss_avg10 : option Z;
  ss_avg60 : option Z;
  ss_avg300 : option Z;
  ss_total : option Z
}.

Definition pressure_token (token : text) (s : sample_state)
    : step sample_state (result pressure_sample) :=
  match find "=" token 0 with
  | None => Next s
  | Some assignment =>
      let name := substr 0 assignment token in
      let content := substr_from (S assignment) token in
      if same name (lit "avg10") || same name (lit "avg60") || same name (lit "avg300") then
        percent <-? parse_micro_percent content;
        Next (if same name (lit "avg10") then
                Sample_state (Some percent) (ss_avg60 s) (ss_avg300 s) (ss_total s)
              else if same name (lit "avg60") then
                Sample_state (ss_avg10 s) (Some percent) (ss_avg300 s) (ss_total s)
              else Sample_state (ss_avg10 s) (ss_avg60 s) (Some percent) (ss_total s))
      else if same name (lit "total") then
        total <-? parse_bare_count content;
        Next (Sample_state (ss_avg10 s) (ss_avg60 s) (ss_avg300 s) (Some total))
      else Next s
  end.

Definition complete_sample (s : sample_state) : result pressure_sample :=
  match s with
  | Sample_state (Some avg10) (Some avg60) (Some avg300) (Some total) =>
      Value (Pressure_sample avg10 avg60 avg300 total)
  | _ => fail errc_malformed_data
  end.

Definition parse_pressure_sample (body : text) : result pressure_sample :=
  finish (each_field " " body pressure_token (Sample_state None None None None)) complete_sample.

(** [status.some] with [has_some] and [status.full] with [has_full]. *)
Record classified := Classified {
  cl_some : option pressure_sample;
  cl_full : option pressure_sample
}.

(** The returned [bool] and the updated [status] and flags. *)
Definition classify_pressure_line (line : text) (s : classified) : result (bool * classified) :=
  match find " " line 0 with
  | None => Value (false, s)
  | Some separator =>
      let kind := substr 0 separator line in
      if negb (same kind (lit "some")) && negb (same kind (lit "full")) then Value (false, s)
      else
        sample ← parse_pressure_sample (substr_from (S separator) line);
        Value (true, if same kind (lit "some") then Classified (Some sample) (cl_full s)
                     else Classified (cl_some s) (Some sample))
  end.

Definition pressure_line (line : text) (s : classified)
    : step classified (result pressure_status) :=
  if empty (trim_memory_field line) then Next s
  else
    recognized <-? classify_pressure_line line s;
    Next (snd recognized).

Definition parse_memory_pressure (input : text) : result pressure_status :=
  finish (each_field ch_lf input pressure_line (Classified None None)) (fun s =>
    match s with
    | Classified (Some some) (Some full) => Value (Pressure_status some true full)
    | _ => fail errc_malformed_data
    end).

Section pressure_queries.
Context {W : Type} `{Kernel W}.

Definition memory_pressure : query W pressure_status :=
  content ← attempt (read_text_file (lit "/proc/pressure/memory") default_maximum_size);
  pure (match content with
        | Failure e =>
            if bool_decide (ec_category e = generic_category) && (ec_value e =? ENOENT)
            then fail errc_not_supported else Failure e
        | Value content => parse_memory_pressure content
        end).

End pressure_queries.

(** ** Arithmetic of the shared checks *)

Lemma land_pred_power_of_two v :
  0 < v -> Z.land v (v - 1) = 0 <-> exists k, 0 <= k /\ v = 2 ^ k.
Proof.
  intros Hv. split.
  - intros Hl. pose proof (Z.log2_spec v Hv) as [H1 H2]. pose proof (Z.log2_nonneg v) as Hk.
    exists (Z.log2 v). split; [done|]. destruct (Z.eq_dec v (2 ^ Z.log2 v)) as [|Hne]; [done|].
    exfalso. assert (Z.testbit (Z.land v (v - 1)) (Z.log2 v) = true) as Hb; [|by rewrite Hl, Z.bits_0 in Hb].
    rewrite Z.land_spec, Z.bit_log2 by lia. simpl.
    replace (Z.log2 v) with (Z.log2 (v - 1)); [apply Z.bit_log2; lia|].
    apply Z.log2_unique; [done|]. lia.
  - intros (k & Hk & ->). apply Z.bits_inj'. intros i Hi.
    rewrite Z.land_spec, Z.pow2_bits_eqb, Z.bits_0 by lia.
    destruct (Z.eqb_spec k i) as [<-|]; [|done]. simpl.
    replace (2 ^ k - 1) with (Z.ones k) by (rewrite Z.ones_equiv; lia).
    apply Z.ones_spec_high. lia.
Qed.

(** A 64-bit huge-page size passes [validate_huge_page_size] exactly when
    it is a power of two. *)
Lemma validate_huge_page_size_spec (v : Z) :
  0 <= v <= uint64_max ->
  validate_huge_page_size (Value v) =
  if bool_decide (v = 2 ^ Z.log2 v) then Value v else fail errc_malformed_data.
Proof.
  intros Hv. unfold validate_huge_page_size. cbn [mbind result_bind].
  destruct (Z.eq_dec v 0) as [->|Hne]; [done|].
  unfold wrap. rewrite Z.mod_small, (proj2 (Z.eqb_neq _ _) Hne) by zlia.
  case_bool_decide as Hp.
  - rewrite (proj2 (land_pred_power_of_two v ltac:(lia))); [done|].
    exists (Z.log2 v). split; [apply Z.log2_nonneg|done].
  - destruct (Z.eqb_spec (Z.land v (v - 1)) 0) as [Hl|]; [|done].
    apply land_pred_power_of_two in Hl as (k & Hk & ->); [|lia].
    by rewrite Z.log2_pow2 in Hp by done.
Qed.

Lemma round_half_up u t :
  0 <= u -> 0 < t -> (u * 100 + t / 2) / t = (200 * u + t) / (2 * t).
Proof.
  intros Hu Ht. pose proof (Z.div_mod t 2 ltac:(lia)). pose proof (Z.mod_pos_bound t 2 ltac:(lia)).
  pose proof (Z.div_mod (u * 100 + t / 2) t ltac:(lia)).
  pose proof (Z.mod_pos_bound (u * 100 + t / 2) t ltac:(lia)).
  remember ((u * 100 + t / 2) / t) as q eqn:Eq. clear Eq.
  apply (Z.div_unique_pos _ _ _ (2 * ((u * 100 + t / 2) mod t) + t mod 2)); [lia|].
  generalize dependent ((u * 100 + t / 2) mod t). generalize dependent (t mod 2).
  generalize dependent (t / 2). intros. nia.
Qed.

Lemma utilization_percent_value used total :
  0 <= used <= total -> total <= uint64_max ->
  utilization_percent used total =
  if total =? 0 then fail errc_malformed_data
  else if uint64_max / 200 <? total then fail errc_value_too_large
  else Value ((200 * used + total) / (2 * total)).
Proof.
  intros Hu Ht. unfold utilization_percent. change (2 * 100) with 200. cbv zeta.
  destruct (Z.eqb_spec total 0) as [|Hne]; [done|]. split_if; [done|].
  unfold_bounds. change (18446744073709551615 / 200) with 92233720368547758 in *.
  assert (0 <= total / 2 <= total) by (split; [apply Z.div_pos; lia|apply Z.div_le_upper_bound; lia]).
  unfold wrap. rewrite (Z.mod_small (used * 100)), Z.mod_small, round_half_up by lia.
  assert (0 <= (200 * used + total) / (2 * total) <= 100).
  { split; [apply Z.div_pos; lia|]. apply Z.lt_succ_r, Z.div_lt_upper_bound; lia. }
  rewrite (proj2 (Z.ltb_ge _ _)) by lia. by rewrite Z.mod_small by lia.
Qed.

(** For a used amount within its total, [utilization_percent] is the exact
    percentage rounded half up, which lies between 0 and 100; it reports
    [value_too_large] exactly for totals above one two-hundredth of the 64-bit
    range, and a zero total as malformed. *)
Theorem utilization_percent_exact (used total : Z) :
  0 <= used <= total -> total <= uint64_max ->
  match utilization_percent used total with
  | Value p =>
      0 < total <= uint64_max / 200 /\ 0 <= p <= 100 /\
      2 * total * p <= 200 * used + total < 2 * total * (p + 1)
  | Failure e =>
      (total = 0 /\ e = make_error_code errc_malformed_data) \/
      (uint64_max / 200 < total /\ e = make_error_code errc_value_too_large)
  end.
Proof.
  intros Hu Ht. rewrite utilization_percent_value by done.
  destruct (Z.eqb_spec total 0) as [|Hne]; simpl; [by left|]. split_if; simpl; [by right|].
  pose proof (Z.div_mod (200 * used + total) (2 * total) ltac:(lia)).
  pose proof (Z.mod_pos_bound (200 * used + total) (2 * total) ltac:(lia)).
  split; [lia|]. split; [|lia]. split; [apply Z.div_pos; lia|].
  apply Z.lt_succ_r, Z.div_lt_upper_bound; lia.
Qed.

Lemma utilization_percent_exact_witness :
  utilization_percent 1 200 = Value 1 /\
  2 * 200 * 1 <= 200 * 1 + 200 < 2 * 200 * (1 + 1).
Proof.
  pose proof (utilization_percent_exact 1 200 ltac:(lia) ltac:(zlia)) as H.
  assert (utilization_percent 1 200 = Value 1) as E by (vm_compute; reflexivity).
  rewrite E in H. exact (conj E (proj2 (proj2 H))).
Defined.

(** The scaled product does wrap when the used amount exceeds its total. *)
Lemma utilization_percent_wraps : utilization_percent (2 ^ 63) 1 = Value 0.
Proof. reflexivity. Qed.

(** ** Percentages *)

Definition micro_percent_text (v : text) (n : Z) : Prop :=
  exists w f, v = w ++ "."%char :: f /\ (1 <= length w <= 3)%nat /\ length f = 2%nat /\
    numeric 10 w = true /\ numeric 10 f = true /\
    100 * numeral 10 w + numeral 10 f <= 10000 /\
    n = (100 * numeral 10 w + numeral 10 f) * 10000.

Lemma micro_percent_parts w f :
  (length w <= 3)%nat -> length f = 2%nat -> numeric 10 w = true -> numeric 10 f = true ->
  0 <= numeral 10 w < 1000 /\ 0 <= numeral 10 f < 100.
Proof.
  intros Hw Hf Hnw%numeral_length Hnf%numeral_length; [|lia..]. rewrite Hf in Hnf. split; [|done].
  split; [apply Hnw|]. apply Z.lt_le_trans with (10 ^ Z.of_nat (length w)); [apply Hnw|].
  change 1000 with (10 ^ 3). apply Z.pow_le_mono_r; lia.
Qed.

Lemma parse_micro_percent_accepts input n :
  micro_percent_text (trim_memory_field input) n -> parse_micro_percent input = Value n.
Proof.
  intros (w & f & Hv & Hw & Hf & Hnw & Hnf & Hle & ->). unfold parse_micro_percent. rewrite Hv.
  cbv zeta.
  destruct (find_app_parts "." w f) as (-> & -> & ->).
  { apply numeric_no_char; [done|]. vm_compute. intuition congruence. }
  rewrite length_app. simpl length. rewrite Hf.
  replace (length w + 3 - length w)%nat with 3%nat by lia.
  rewrite (proj2 (Nat.eqb_neq _ _)), (proj2 (Nat.ltb_ge _ _)) by lia. simpl orb. cbv iota.
  pose proof (micro_percent_parts w f ltac:(lia) Hf Hnw Hnf) as [Hbw Hbf].
  assert (consumed (from_chars_unsigned uint64_max 10 w) w = true) as Cw
    by (apply consumed_unsigned; split; [done|zlia]).
  assert (consumed (from_chars_unsigned uint64_max 10 f) f = true) as Cf
    by (apply consumed_unsigned; split; [done|zlia]).
  rewrite Cw, Cf, !consumed_value by done. simpl negb. cbv iota. unfold wrap.
  rewrite (Z.mod_small (numeral 10 w * 100)), (Z.mod_small (_ + _)) by lia.
  rewrite (proj2 (Z.ltb_ge _ _)) by lia. rewrite Z.mod_small by lia. f_equal. lia.
Qed.

(** [parse_micro_percent] accepts exactly one to three digits, a point and
    two digits, up to one hundred percent, between blanks; the value is the
    exact percentage in millionths, without rounding. *)
Theorem parse_micro_percent_spec (input : text) (n : Z) :
  parse_micro_percent input = Value n <-> micro_percent_text (trim_memory_field input) n.
Proof.
  unfold parse_micro_percent, micro_percent_text. cbv zeta.
  set (v := trim_memory_field input). split.
  - destruct (find "." v 0) as [i|] eqn:Hf; [|done].
    apply find_split in Hf as (Hv & _ & Hi).
    set (w := substr 0 i v) in *. set (f := substr_from (S i) v) in *.
    assert (length v = i + 1 + length f)%nat as Hl
      by (rewrite Hv, length_app, Hi; simpl; lia).
    destruct ((i =? 0)%nat || (3 <? i)%nat || negb (length v - i =? 3)%nat) eqn:Hc; [done|].
    apply orb_false_iff in Hc as [[H1%Nat.eqb_neq H2%Nat.ltb_ge]%orb_false_iff H3%negb_false_iff%Nat.eqb_eq].
    repeat split_if; intros [= <-]. rewrite !consumed_value in * by done.
    repeat match goal with H : consumed _ _ = true |- _ => apply consumed_unsigned in H as [? _] end.
    exists w, f. pose proof (micro_percent_parts w f) as Hb.
    destruct Hb as [Hw Hf']; [lia|lia|done|done|]. unfold wrap in *.
    assert (((numeral 10 w * 100) mod 2 ^ 64 + numeral 10 f) mod 2 ^ 64 =
      100 * numeral 10 w + numeral 10 f) as Hsum.
    { rewrite (Z.mod_small (numeral 10 w * 100)), Z.mod_small by lia. lia. }
    rewrite Hsum in *. split_and!; try done; try lia. by rewrite Z.mod_small by lia.
  - apply parse_micro_percent_accepts.
Qed.

(** ** The meminfo snapshot *)

(** The names the kernel documents (proc_meminfo(5)), one for each field, and
    the two fields that count pages instead of kibibytes. *)
Definition field_name (f : meminfo_field) : text :=
  match f with
  | field_total => lit "MemTotal"
  | field_available => lit "MemAvailable"
  | field_swap_total => lit "SwapTotal"
  | field_swap_free => lit "SwapFree"
  | field_committed => lit "Committed_AS"
  | field_commit_limit => lit "CommitLimit"
  | field_huge_total_count => lit "HugePages_Total"
  | field_huge_free_count => lit "HugePages_Free"
  | field_huge_page_size => lit "Hugepagesize"
  | field_unrecognized => []
  end.

Definition counts_pages (f : meminfo_field) : bool :=
  match f with field_huge_total_count | field_huge_free_count => true | _ => false end.

Definition field_value (f : meminfo_field) (o : memory_information) : option Z :=
  match f with
  | field_total => mi_total o
  | field_available => mi_available o
  | field_swap_total => mi_swap_total o
  | field_swap_free => mi_swap_free o
  | field_committed => mi_committed o
  | field_commit_limit => mi_commit_limit o
  | field_huge_total_count => mi_huge_total o
  | field_huge_free_count => mi_huge_free o
  | field_huge_page_size => mi_huge_page_size o
  | field_unrecognized => None
  end.

(** A line of the file: a documented field with the padding and the number the
    kernel prints, or any line whose key is not documented. *)
Inductive meminfo_record :=
  | Recorded (f : meminfo_field) (padding : nat) (amount : Z)
  | Unknown (line : text).

Definition record_text (r : meminfo_record) : text :=
  match r with
  | Recorded f padding amount =>
      field_name f ++ (":"%char :: repeat " "%char padding ++ to_decimal amount ++
        (if counts_pages f then [] else lit " kB"))
  | Unknown line => line
  end.

Definition record_bytes (f : meminfo_field) (amount : Z) : Z :=
  if counts_pages f then amount else amount * 1024.

Definition valid_record (r : meminfo_record) : Prop :=
  match r with
  | Recorded f _ amount =>
      f <> field_unrecognized /\ 0 <= amount /\ record_bytes f amount <= uint64_max
  | Unknown line =>
      ch_lf ∉ line /\
      match find ":" line 0 with
      | None => True
      | Some i => forall f, f <> field_unrecognized ->
          trim (fun c => is_char c " " || is_char c ch_tab || is_char c ch_cr || is_char c ch_lf) (take i line) <> field_name f
      end
  end.

Definition record_value (f : meminfo_field) (r : meminfo_record) : option Z :=
  match r with
  | Recorded g _ amount => if bool_decide (g = f) then Some (record_bytes f amount) else None
  | Unknown _ => None
  end.

(** The last record of a field. *)
Fixpoint latest (f : meminfo_field) (rs : list meminfo_record) : option Z :=
  match rs with
  | [] => None
  | r :: rs => match latest f rs with Some v => Some v | None => record_value f r end
  end.

Definition meminfo_text (rs : list meminfo_record) : text :=
  concat ((fun f => f ++ [ch_lf]) <$> (record_text <$> rs)).

Lemma digit_memory_space c : 48 <= code c <= 57 -> memory_space c = false.
Proof.
  intros Hc. unfold memory_space, is_char.
  repeat (apply orb_false_iff; split); apply bool_decide_eq_false; intros ->;
    vm_compute in Hc; intuition congruence.
Qed.

Lemma digits_trimmed l : Forall (fun c => 48 <= code c <= 57) l -> trimmed memory_space l.
Proof.
  intros H. apply trimmed_Forall. eapply Forall_impl; [exact H|]. apply digit_memory_space.
Qed.

Lemma padding_space n : Forall (fun c => memory_space c = true) (repeat " "%char n).
Proof. by apply Forall_forall; intros c Hc; apply list_elem_of_In, repeat_spec in Hc as ->. Qed.

Lemma parse_bare_count_padded padding n :
  0 <= n <= uint64_max ->
  parse_bare_count (repeat " "%char padding ++ to_decimal n) = Value n.
Proof.
  intros Hn. unfold parse_bare_count, trim_memory_field.
  rewrite <- (app_nil_r (to_decimal n)), trim_app;
    [|apply padding_space|apply digits_trimmed, to_decimal_Forall; lia|constructor].
  rewrite (proj2 (empty_false _) (to_decimal_ne n ltac:(lia))).
  by rewrite consumed_to_decimal, from_chars_to_decimal by done.
Qed.

Lemma from_chars_digits_then max n rest :
  0 <= n <= max -> match rest with c :: _ => is_digit_in 10 c = false | [] => True end ->
  from_chars_unsigned max 10 (to_decimal n ++ rest) =
  From_chars_result (length (to_decimal n)) chars_ok n.
Proof.
  intros Hn Hrest. rewrite <- (from_chars_to_decimal max n) by done.
  unfold from_chars_unsigned. rewrite digit_run_app.
  - destruct rest as [|c rest]; simpl; [by rewrite app_nil_r|]. unfold is_digit_in in Hrest.
    destruct (digit_of 10 c); [done|]. by rewrite app_nil_r.
  - apply (numeric_split 10 (to_decimal n)), numeric_to_decimal. lia.
Qed.

Lemma parse_kilobyte_amount_padded padding n :
  0 <= n -> n * 1024 <= uint64_max ->
  parse_kilobyte_amount (repeat " "%char padding ++ to_decimal n ++ lit " kB") = Value (n * 1024).
Proof.
  intros Hn Hm. unfold parse_kilobyte_amount, trim_memory_field.
  rewrite <- (app_nil_r (to_decimal n ++ lit " kB")), trim_app; [|apply padding_space| |constructor].
  - pose proof (to_decimal_ne n Hn) as Hne. rewrite (proj2 (empty_false _)) by (by destruct (to_decimal n)).
    rewrite from_chars_digits_then by (zlia || done).
    cbn [fc_ec fc_ptr fc_value]. 
    assert ((length (to_decimal n) =? 0)%nat = false) as -> by (by destruct (to_decimal n)).
    change (bool_decide (chars_ok = chars_ok)) with true. simpl orb. cbv iota.
    unfold substr_from. rewrite drop_app_length. simpl same. cbv iota.
    change (Z.shiftr uint64_max 10) with 18014398509481983. rewrite (proj2 (Z.ltb_ge _ _)) by zlia.
    rewrite Z.shiftl_mul_pow2 by lia. unfold wrap. by rewrite Z.mod_small by zlia.
  - pose proof (to_decimal_Forall n Hn) as Hd. pose proof (to_decimal_ne n Hn) as Hne.
    split.
    + destruct (to_decimal n) as [|d l]; [done|]. intros c [= <-].
      apply Forall_cons in Hd as [Hd _]. by apply digit_memory_space.
    + intros c. rewrite last_app. simpl. by intros [= <-].
Qed.

Lemma field_name_spec f :
  f <> field_unrecognized ->
  classify_meminfo_key (trim_memory_field (field_name f)) = f /\ ":"%char ∉ field_name f /\
  ch_lf ∉ field_name f.
Proof.
  destruct f; try done; intros _; (split; [vm_compute; reflexivity|]);
    split; by_compute.
Qed.

Lemma bare_counts f : is_bare_count_field f = counts_pages f.
Proof. by destruct f. Qed.

Lemma unknown_key key :
  (forall f, f <> field_unrecognized -> key <> field_name f) -> classify_meminfo_key key = field_unrecognized.
Proof.
  intros Hkey. assert (forall f, f <> field_unrecognized -> same (field_name f) key = false) as Hs
    by (intros f Hf; apply same_false; intros Heq; by apply (Hkey f Hf)).
  unfold classify_meminfo_key, documented_meminfo_keys. cbn [classify_in].
  rewrite (Hs field_total ltac:(discriminate) : same (lit "MemTotal") key = false).
  rewrite (Hs field_available ltac:(discriminate) : same (lit "MemAvailable") key = false).
  rewrite (Hs field_swap_total ltac:(discriminate) : same (lit "SwapTotal") key = false).
  rewrite (Hs field_swap_free ltac:(discriminate) : same (lit "SwapFree") key = false).
  rewrite (Hs field_committed ltac:(discriminate) : same (lit "Committed_AS") key = false).
  rewrite (Hs field_commit_limit ltac:(discriminate) : same (lit "CommitLimit") key = false).
  rewrite (Hs field_huge_total_count ltac:(discriminate) : same (lit "HugePages_Total") key = false).
  rewrite (Hs field_huge_free_count ltac:(discriminate) : same (lit "HugePages_Free") key = false).
  rewrite (Hs field_huge_page_size ltac:(discriminate) : same (lit "Hugepagesize") key = false).
  done.
Qed.

Lemma meminfo_line_record r o :
  valid_record r ->
  meminfo_line (record_text r) o =
  Next (match r with Recorded f _ n => store_field f (record_bytes f n) o | Unknown _ => o end).
Proof.
  unfold meminfo_line. destruct r as [f padding n|line]; cbn [record_text valid_record].
  - intros (Hf & Hn & Hm). destruct (field_name_spec f Hf) as (Hc & Hcolon & _).
    
    destruct (find_app_parts ":" (field_name f) (repeat " "%char padding ++ to_decimal n ++
      (if counts_pages f then [] else lit " kB")) Hcolon) as (-> & -> & ->).
    rewrite Hc. case_bool_decide; [done|]. unfold record_bytes in *. rewrite bare_counts.
    destruct (counts_pages f).
    + rewrite app_nil_r, parse_bare_count_padded by lia. done.
    + rewrite parse_kilobyte_amount_padded by done. done.
  - intros [_ Hl]. destruct (find ":" line 0) as [i|]; [|done].
    assert (classify_meminfo_key (trim_memory_field (substr 0 i line)) = field_unrecognized) as ->
      by (apply unknown_key; exact Hl). done.
Qed.

Lemma field_value_store f g v o :
  f <> field_unrecognized ->
  field_value f (store_field g v o) = if bool_decide (g = f) then Some v else field_value f o.
Proof. intros Hf. destruct o, f, g; done. Qed.

Lemma meminfo_fold rs o :
  Forall valid_record rs ->
  exists o', fold_steps meminfo_line (record_text <$> rs) o = Next o' /\
    forall f, f <> field_unrecognized ->
      field_value f o' = match latest f rs with Some v => Some v | None => field_value f o end.
Proof.
  intros Hrs. revert o. induction Hrs as [|r rs Hr _ IH]; intros o; csimpl.
  { by exists o. }
  rewrite meminfo_line_record by done.
  edestruct IH as (o' & -> & Hv). exists o'. split; [done|]. intros f Hf. rewrite Hv by done.
  destruct (latest f rs); [done|]. destruct r as [g k n|line]; [|done]. simpl.
  rewrite field_value_store by done. case_bool_decide; [by subst|done].
Qed.

Lemma record_no_newline r : valid_record r -> ch_lf ∉ record_text r.
Proof.
  destruct r as [f k n|line]; simpl; [|by intros []]. intros (Hf & Hn & _).
  destruct (field_name_spec f Hf) as (_ & _ & Hname).
  rewrite elem_of_app, elem_of_cons, !elem_of_app. intros [?|[?|[Hk|[Hd|Hu]]]]; try done.
  - apply list_elem_of_In, repeat_spec in Hk. discriminate Hk.
  - revert Hd. apply not_in_digits; [by apply to_decimal_Forall|]. vm_compute. intuition congruence.
  - revert Hu. destruct (counts_pages f); by_compute.
Qed.

(** C7: on a meminfo file of documented lines, in any order, with any padding
    and any unknown lines between them, [parse_meminfo] records for each field
    the bytes (kibibytes times 1024, or a plain page count) of its last line,
    and nothing for a field the file does not have. *)
Theorem parse_meminfo_latest (rs : list meminfo_record) :
  Forall valid_record rs ->
  exists information, parse_meminfo (meminfo_text rs) = Value information /\
    forall f, f <> field_unrecognized -> field_value f information = latest f rs.
Proof.
  intros Hrs. unfold parse_meminfo, meminfo_text. rewrite each_field_fields.
  rewrite <- (app_nil_r (concat _)), fields_concat.
  - rewrite app_nil_r. destruct (meminfo_fold rs empty_information Hrs) as (o & -> & Hv).
    exists o. split; [done|]. intros f Hf. rewrite Hv by done.
    destruct (latest f rs); [done|]. by destruct f.
  - apply Forall_fmap. eapply Forall_impl; [exact Hrs|]. apply record_no_newline.
Qed.

Lemma parse_meminfo_latest_witness :
  let rs := [Recorded field_total 7 16384252; Unknown (lit "Active(anon): x");
             Recorded field_huge_free_count 3 16; Recorded field_total 1 2048] in
  Forall valid_record rs /\
  exists information, parse_meminfo (meminfo_text rs) = Value information /\
    forall f, f <> field_unrecognized -> field_value f information = latest f rs.
Proof.
  intros rs. assert (Forall valid_record rs) as H.
  { subst rs. repeat constructor; try discriminate; [by_compute|]. by intros []. }
  exact (conj H (parse_meminfo_latest rs H)).
Defined.

(** ** The pressure snapshot *)

(** The kernel's rendering of [h] hundredths of a percent. *)
Definition percent_text (h : Z) : text :=
  to_decimal (h / 100) ++ ["."%char; digit_char (h / 10 mod 10); digit_char (h mod 10)].

Definition sample_tokens (s : pressure_sample) : list text := [
  lit "avg10=" ++ percent_text (average10_micro_percent s / 10000);
  lit "avg60=" ++ percent_text (average60_micro_percent s / 10000);
  lit "avg300=" ++ percent_text (average300_micro_percent s / 10000);
  lit "total=" ++ to_decimal (total_microseconds s)].

Definition sample_text (s : pressure_sample) : text := join " " (sample_tokens s).

Definition pressure_text (some full : pressure_sample) : text :=
  concat ((fun f => f ++ [ch_lf]) <$>
    [lit "some " ++ sample_text some; lit "full " ++ sample_text full]).

(** Averages are whole hundredths of a percent, up to one hundred percent. *)
Definition valid_average (v : Z) : Prop := 0 <= v <= 100000000 /\ v mod 10000 = 0.

Definition valid_sample (s : pressure_sample) : Prop :=
  valid_average (average10_micro_percent s) /\ valid_average (average60_micro_percent s) /\
  valid_average (average300_micro_percent s) /\ 0 <= total_microseconds s <= uint64_max.

(** Digits and points. *)
Definition number_char (c : ascii) : Prop := 48 <= code c <= 57 \/ c = "."%char.

Lemma number_char_no l c : Forall number_char l -> ~ number_char c -> c ∉ l.
Proof. rewrite Forall_forall. intros H Hc Hin. by apply Hc, H. Qed.

Lemma percent_text_chars h : 0 <= h -> Forall number_char (percent_text h).
Proof.
  intros Hh. unfold percent_text. pose proof (Z.mod_pos_bound (h / 10) 10 ltac:(lia)).
  pose proof (Z.mod_pos_bound h 10 ltac:(lia)).
  apply Forall_app. split.
  - eapply Forall_impl; [apply to_decimal_Forall; by apply Z.div_pos|]. by left.
  - constructor; [by right|]. constructor; [left; by apply digit_char_range|].
    constructor; [left; by apply digit_char_range|constructor].
Qed.

Lemma number_char_trim l : Forall number_char l -> trim_memory_field l = l.
Proof.
  intros H. apply trim_trimmed, trimmed_Forall. eapply Forall_impl; [exact H|].
  intros c [Hc| ->]; [by apply digit_memory_space|done].
Qed.

Lemma parse_percent_text v :
  valid_average v -> parse_micro_percent (percent_text (v / 10000)) = Value v.
Proof.
  intros [Hv Hm]. assert (v = v / 10000 * 10000 /\ 0 <= v / 10000 <= 10000) as [Hv' Hh] by div_lia.
  rewrite Hv' at 2. remember (v / 10000) as h eqn:E. clear E Hv Hv' Hm.
  apply parse_micro_percent_accepts. rewrite number_char_trim by (apply percent_text_chars; lia).
  assert (0 <= h / 100 <= 100) as Hq by div_lia.
  destruct (two_digits_value (h / 10 mod 10) (h mod 10)) as [Hn Hval]; [div_lia..|].
  exists (to_decimal (h / 100)), [digit_char (h / 10 mod 10); digit_char (h mod 10)].
  rewrite Hval, numeral_to_decimal by lia. split_and!; try done.
  - apply (to_decimal_length _ 3); [|lia]. change (10 ^ Z.of_nat 3) with 1000. lia.
  - apply (to_decimal_length _ 3); [|lia]. change (10 ^ Z.of_nat 3) with 1000. lia.
  - apply numeric_to_decimal. lia.
  - div_lia.
  - div_lia.
Qed.

(** One assignment of a record. *)
Lemma pressure_token_average name v s :
  name = lit "avg10" \/ name = lit "avg60" \/ name = lit "avg300" -> valid_average v ->
  pressure_token (name ++ "="%char :: percent_text (v / 10000)) s =
  Next (if same name (lit "avg10") then
          Sample_state (Some v) (ss_avg60 s) (ss_avg300 s) (ss_total s)
        else if same name (lit "avg60") then
          Sample_state (ss_avg10 s) (Some v) (ss_avg300 s) (ss_total s)
        else Sample_state (ss_avg10 s) (ss_avg60 s) (Some v) (ss_total s)).
Proof.
  intros Hname Hv. unfold pressure_token.
  destruct (find_app_parts "=" name (percent_text (v / 10000))) as (-> & -> & ->).
  { destruct Hname as [->|[->| ->]]; by_compute. }
  rewrite parse_percent_text by done. by destruct Hname as [->|[->| ->]].
Qed.

Lemma pressure_token_total n s :
  0 <= n <= uint64_max ->
  pressure_token (lit "total" ++ "="%char :: to_decimal n) s =
  Next (Sample_state (ss_avg10 s) (ss_avg60 s) (ss_avg300 s) (Some n)).
Proof.
  intros Hn. unfold pressure_token.
  destruct (find_app_parts "=" (lit "total") (to_decimal n)) as (-> & -> & ->); [by_compute|].
  pose proof (parse_bare_count_padded 0 n Hn) as Hp. simpl repeat in Hp.
  rewrite app_nil_l in Hp. by rewrite Hp.
Qed.

(** Characters of an assignment: neither a blank nor a line feed. *)
Definition token_char (c : ascii) : Prop := c <> " "%char /\ c <> ch_lf.

Lemma number_token_chars l : Forall number_char l -> Forall token_char l.
Proof.
  intros H. eapply Forall_impl; [exact H|]. intros c [Hc| ->]; [|by_compute].
  split; intros ->; vm_compute in Hc; intuition congruence.
Qed.

Lemma assignment_chars name v :
  valid_average v -> Forall token_char name -> Forall token_char (name ++ percent_text (v / 10000)).
Proof.
  intros [Hv _] Hn. apply Forall_app. split; [done|].
  apply number_token_chars, percent_text_chars. div_lia.
Qed.

Lemma sample_tokens_chars s : valid_sample s -> Forall (Forall token_char) (sample_tokens s).
Proof.
  intros (H1 & H2 & H3 & H4). unfold sample_tokens.
  do 3 (constructor; [apply assignment_chars; [done|by_compute]|]). constructor.
  - apply Forall_app. split; [by_compute|]. apply number_token_chars.
    eapply Forall_impl; [apply to_decimal_Forall; lia|]. by left.
  - constructor.
Qed.

Lemma sample_text_no_newline s : valid_sample s -> ch_lf ∉ sample_text s.
Proof.
  intros Hs%sample_tokens_chars. change (sample_text s) with (join " " (sample_tokens s)).
  assert (Forall (fun c => c <> ch_lf) (join " " (sample_tokens s))) as H.
  { induction Hs as [|t ts Ht _ IH]; [constructor|].
    assert (Forall (fun c => c <> ch_lf) t) by (eapply Forall_impl; [exact Ht|]; by intros c []).
    destruct ts as [|t' ts]; [done|]. apply Forall_app. split; [done|].
    constructor; [by_compute|exact IH]. }
  rewrite Forall_forall in H. intros Hin. by apply (H _ Hin).
Qed.

Lemma parse_sample_text s :
  valid_sample s -> parse_pressure_sample (sample_text s) = Value s.
Proof.
  intros Hs. pose proof Hs as (H1 & H2 & H3 & H4). unfold parse_pressure_sample.
  rewrite each_field_fields. change (sample_text s) with (join " " (sample_tokens s)).
  rewrite fields_join.
  - unfold sample_tokens.
    change (lit "avg10=" ++ ?p) with (lit "avg10" ++ ("="%char :: p)).
    change (lit "avg60=" ++ ?p) with (lit "avg60" ++ ("="%char :: p)).
    change (lit "avg300=" ++ ?p) with (lit "avg300" ++ ("="%char :: p)).
    change (lit "total=" ++ ?p) with (lit "total" ++ ("="%char :: p)). cbn [fold_steps].
    rewrite (pressure_token_average (lit "avg10")) by auto.
    rewrite (pressure_token_average (lit "avg60")) by auto.
    rewrite (pressure_token_average (lit "avg300")) by auto.
    rewrite (pressure_token_total) by done. by destruct s.
  - eapply Forall_impl; [by apply sample_tokens_chars|]. intros t Ht Hin.
    rewrite Forall_forall in Ht. by apply Ht in Hin as [].
  - by repeat constructor.
Qed.

Lemma pressure_line_sample kind s st :
  kind = lit "some" \/ kind = lit "full" -> valid_sample s ->
  pressure_line (kind ++ " "%char :: sample_text s) st =
  Next (if same kind (lit "some") then Classified (Some s) (cl_full st)
        else Classified (cl_some st) (Some s)).
Proof.
  intros Hk Hs. unfold pressure_line, classify_pressure_line.
  destruct (find_app_parts " " kind (sample_text s)) as (-> & -> & ->).
  { destruct Hk as [->| ->]; by_compute. }
  rewrite parse_sample_text by done.
  assert (empty (trim_memory_field (kind ++ " "%char :: sample_text s)) = false) as ->.
  { apply empty_false. intros Ht. pose proof (trim_blank memory_space _ Ht) as Hb.
    destruct Hk as [->| ->]; apply Forall_cons in Hb as [Hb _]; discriminate Hb. }
  by destruct Hk as [->| ->].
Qed.

(** The pressure snapshot the kernel prints for two samples parses to
    exactly these samples, with the full record present. *)
Theorem parse_memory_pressure_text (some full : pressure_sample) :
  valid_sample some -> valid_sample full ->
  parse_memory_pressure (pressure_text some full) = Value (Pressure_status some true full).
Proof.
  intros Hs Hf. unfold parse_memory_pressure, pressure_text. rewrite each_field_fields.
  rewrite <- (app_nil_r (concat _)), fields_concat.
  - change (lit "some " ++ ?p) with (lit "some" ++ (" "%char :: p)).
    change (lit "full " ++ ?p) with (lit "full" ++ (" "%char :: p)).
    change (fields ch_lf []) with (@nil text). rewrite app_nil_r. cbn [fold_steps].
    rewrite (pressure_line_sample (lit "some")) by auto.
    by rewrite (pressure_line_sample (lit "full")) by auto.
  - repeat constructor; rewrite elem_of_app; (intros [Hin|Hin];
      [revert Hin; by_compute|by apply sample_text_no_newline in Hin]).
Qed.

Lemma parse_memory_pressure_text_witness :
  let some := Pressure_sample 120000 34560000 100000000 987654321 in
  let full := Pressure_sample 0 50000 10000 18446744073709551615 in
  parse_memory_pressure (pressure_text some full) = Value (Pressure_status some true full) /\
  sample_text full = lit "avg10=0.00 avg60=0.05 avg300=0.01 total=18446744073709551615".
Proof.
  intros some full. split; [|vm_compute; reflexivity].
  apply (parse_memory_pressure_text some full); unfold valid_sample, valid_average; simpl;
    repeat split; try (vm_compute; discriminate); reflexivity.
Defined.
