(* ===== verification/Network.v ===== *)
(** * Network records, their checks, and the getifaddrs conversion

    [include/syscape/detail/network/common.hpp]: the records the network
    backends exchange and the checks of the public boundary; and
    [include/syscape/detail/network/posix.hpp] as compiled for Linux: netmask
    prefixes, interface flags and the conversion of a getifaddrs list. *)
From S2P Require Import Prelude Result CppText Utf8 System Buffer.

(** ** common.hpp *)

Inductive address_family := ipv4 | ipv6.

#[global] Instance address_family_eq_dec : EqDecision address_family.
Proof. solve_decision. Defined.

Inductive interface_state := interface_unknown | interface_down | interface_up.

Definition maximum_prefix_length (family : address_family) : Z :=
  match family with ipv4 => 32 | ipv6 => 128 end.

(** An address is sixteen bytes; an IPv4 address occupies the first four. *)
Record unicast_record := Unicast_record {
  u_family : address_family;
  u_value : list Z;
  u_prefix_length : Z;
  u_scope_id : Z
}.

Record interface_record := Interface_record {
  if_name : text;
  if_index : Z;
  if_state : interface_state;
  if_loopback : bool;
  if_hardware_address : list Z;
  if_addresses : list unicast_record;
  if_mtu_bytes : Z
}.

Record ip_address_record := Ip_address_record {
  ip_family : address_family;
  ip_value : list Z;
  ip_scope_id : Z
}.

Record route_record := Route_record {
  destination : ip_address_record;
  prefix_length : Z;
  next_hop : option ip_address_record;
  interface_index : Z;
  metric : option Z
}.

Record dns_server_record := Dns_server_record {
  dns_address : ip_address_record;
  dns_interface_index : option Z
}.

Record dns_record := Dns_record {
  servers : list dns_server_record;
  search_domains : option (list text);
  domain_name : option text
}.

Definition is_ipv4 (family : address_family) : bool := bool_decide (family = ipv4).

(** A loop over the bytes from [first] up to [last] that meets a nonzero one. *)
Definition nonzero_byte (first last : nat) (value : list Z) : bool :=
  existsb (fun b => negb (b =? 0)) (drop first (take last value)).

(** The enumeration has no further value, so the first test never fails. *)
Definition validate_ip_address (address : ip_address_record) : result unit :=
  reject (negb (bool_decide (ip_family address = ipv4)) &&
          negb (bool_decide (ip_family address = ipv6))) errc_malformed_data;;
  if is_ipv4 (ip_family address) then
    reject (negb (ip_scope_id address =? 0)) errc_malformed_data;;
    reject (nonzero_byte 4 (length (ip_value address)) (ip_value address)) errc_malformed_data
  else Value ().

Definition address_length (family : address_family) : nat :=
  if is_ipv4 family then 4 else 16.

Definition is_unspecified (address : ip_address_record) : bool :=
  negb (nonzero_byte 0 (address_length (ip_family address)) (ip_value address)).

(** The tests on the host part of a route's destination. *)
Definition host_bits_set (length : nat) (prefix : Z) (value : list Z) : bool :=
  let whole := Z.to_nat (prefix / 8) in
  let remainder := prefix mod 8 in
  let host_mask := wrap 8 (Z.shiftl 1 (8 - remainder) - 1) in
  (negb (remainder =? 0) && (whole <? length)%nat &&
   negb (Z.land (nth whole value 0) host_mask =? 0)) ||
  nonzero_byte (whole + (if remainder =? 0 then 0 else 1)) length value.

Definition validate_route_record (entry : route_record) : result unit :=
  let family := ip_family (destination entry) in
  validate_ip_address (destination entry);;
  reject ((interface_index entry =? 0) ||
          (maximum_prefix_length family <? prefix_length entry)) errc_malformed_data;;
  reject (host_bits_set (address_length family) (prefix_length entry)
            (ip_value (destination entry))) errc_malformed_data;;
  match next_hop entry with
  | None => Value ()
  | Some hop =>
      validate_ip_address hop;;
      reject (negb (bool_decide (ip_family hop = family))) errc_malformed_data
  end.

Definition validate_route_records (records : result (list route_record))
    : result (list route_record) :=
  v ← records; for_each validate_route_record v;; Value v.

Definition validate_unicast_record (address : unicast_record) : result unit :=
  reject (maximum_prefix_length (u_family address) <? u_prefix_length address)
    errc_malformed_data;;
  if is_ipv4 (u_family address) then
    reject (negb (u_scope_id address =? 0)) errc_malformed_data;;
    reject (nonzero_byte 4 (length (u_value address)) (u_value address)) errc_malformed_data
  else Value ().

Definition validate_interface_record (entry : interface_record) : result unit :=
  reject (empty (if_name entry) || (if_index entry =? 0)) errc_malformed_data;;
  reject (negb (is_valid_utf8 (if_name entry))) errc_invalid_encoding;;
  for_each validate_unicast_record (if_addresses entry).

Definition validate_interface_records (records : result (list interface_record))
    : result (list interface_record) :=
  v ← records; for_each validate_interface_record v;; Value v.

Definition validate_domain (domain : text) : result unit :=
  reject (empty domain || bool_decide (ch_nul ∈ domain)) errc_malformed_data;;
  reject (negb (is_valid_utf8 domain)) errc_invalid_encoding.

Definition validate_dns_server (server : dns_server_record) : result unit :=
  validate_ip_address (dns_address server);;
  reject (match dns_interface_index server with Some i => i =? 0 | None => false end)
    errc_malformed_data.

Definition validate_dns_record (record : result dns_record) : result dns_record :=
  v ← record;
  for_each validate_dns_server (servers v);;
  match search_domains v with
  | Some domains => for_each validate_domain domains
  | None => Value ()
  end;;
  match domain_name v with Some domain => validate_domain domain | None => Value () end;;
  Value v.

Record statistics_record := Statistics_record {
  st_name : text;
  st_index : Z;
  rx_bytes : Z;
  tx_bytes : Z;
  rx_packets : Z;
  tx_packets : Z;
  rx_errors : Z;
  tx_errors : Z;
  rx_dropped : Z;
  tx_dropped : Z;
  rx_multicast : option Z;
  collisions : option Z
}.

Definition add_statistics_counters (left right : Z) : result Z :=
  if uint64_max - right <? left then fail errc_value_too_large else Value (wrap 64 (left + right)).

Definition validate_statistics_entry (entry : statistics_record) : result unit :=
  reject (empty (st_name entry) || (st_index entry =? 0)) errc_malformed_data;;
  reject (negb (is_valid_utf8 (st_name entry))) errc_invalid_encoding.

Definition validate_statistics_record (record : result statistics_record)
    : result statistics_record :=
  v ← record; validate_statistics_entry v;; Value v.

Definition validate_statistics_records (records : result (list statistics_record))
    : result (list statistics_record) :=
  v ← records; for_each validate_statistics_entry v;; Value v.

(** ** posix.hpp: netmasks and flags *)

(** Linux flag words. *)
Definition IFF_UP : Z := 1.
Definition IFF_LOOPBACK : Z := 8.
Definition IFF_RUNNING : Z := 64.

Definition classify_state (flags : Z) : interface_state :=
  if Z.land flags IFF_UP =? 0 then interface_down
  else if negb (Z.land flags IFF_RUNNING =? 0) then interface_up
  else interface_unknown.

(** [while (mask != 0U && (byte & mask) != 0U)]: at most eight iterations. *)
Fixpoint mask_loop (fuel : nat) (byte mask prefix : Z) : Z * Z :=
  match fuel with
  | O => (mask, prefix)
  | S fuel =>
      if negb (mask =? 0) && negb (Z.land byte mask =? 0)
      then mask_loop fuel byte (wrap 8 (Z.shiftr mask 1)) (wrap 8 (prefix + 1))
      else (mask, prefix)
  end.

(** The loop over the bytes: [prefix] and [partial_seen]. *)
Fixpoint netmask_loop (bytes : list Z) (prefix : Z) (partial_seen : bool) : result Z :=
  match bytes with
  | [] => Value prefix
  | byte :: bytes =>
      if partial_seen then
        if negb (byte =? 0) then fail errc_malformed_data else netmask_loop bytes prefix true
      else if byte =? 255 then netmask_loop bytes (wrap 8 (prefix + 8)) false
      else
        let '(mask, prefix) := mask_loop 8 byte 128 prefix in
        if negb (Z.land byte (wrap 8 (mask - 1)) =? 0) then fail errc_malformed_data
        else netmask_loop bytes prefix true
  end.

Definition prefix_from_netmask (bytes : list Z) (maximum : Z) : result Z :=
  prefix ← netmask_loop bytes 0 false;
  if maximum <? prefix then fail errc_malformed_data else Value prefix.

(** The destination's bytes after the call; [source] has the recorded bytes. *)
Definition copy_recorded_netmask_bytes (source : list Z)
    (recorded_size address_offset destination_size : nat) : list Z :=
  let cleared := repeat 0 destination_size in
  if (recorded_size <=? address_offset)%nat then cleared
  else
    let available := (recorded_size - address_offset)%nat in
    let copy_size := if (available <? destination_size)%nat then available else destination_size in
    take copy_size (drop address_offset source) ++ drop copy_size cleared.

Definition make_ipv4_record (address : list Z) (netmask : option (list Z))
    : result unicast_record :=
  let value := take 4 address ++ repeat 0 12 in
  match netmask with
  | None => fail errc_malformed_data
  | Some netmask =>
      prefix ← prefix_from_netmask (take 4 netmask) (maximum_prefix_length ipv4);
      Value (Unicast_record ipv4 value prefix 0)
  end.

Definition make_ipv6_record (address : list Z) (netmask : option (list Z)) (scope_id : Z)
    : result unicast_record :=
  let value := take 16 address in
  let value :=
    if negb (scope_id =? 0) && (nth 0 value 0 =? 0xFE) && (Z.land (nth 1 value 0) 0xC0 =? 0x80)
    then <[2%nat := 0]> (<[3%nat := 0]> value) else value in
  match netmask with
  | None => fail errc_malformed_data
  | Some netmask =>
      prefix ← prefix_from_netmask (take 16 netmask) (maximum_prefix_length ipv6);
      Value (Unicast_record ipv6 value prefix scope_id)
  end.

(** ** posix.hpp: the getifaddrs list

    A socket address by the family it records: the address bytes, the scope
    of an IPv6 address, the recorded length and storage of a link-layer one. *)

Inductive sockaddr :=
  | Inet (address : list Z)
  | Inet6 (address : list Z) (scope_id : Z)
  | Packet (halen : nat) (storage : list Z)
  | Other_family.

(** A netmask: its family and the bytes at the address offset of the family
    of the row. *)
Inductive netmask_family := Mask_inet | Mask_inet6 | Mask_unspec | Mask_other.

#[global] Instance netmask_family_eq_dec : EqDecision netmask_family.
Proof. solve_decision. Defined.

Record ifaddrs_row := Ifaddrs_row {
  ifa_name : option text;
  ifa_flags : Z;
  ifa_addr : option sockaddr;
  ifa_netmask : option (netmask_family * list Z)
}.

(** [InterfaceApi]: the calls the conversion makes for a new interface. *)
Class InterfaceApi (W : Type) := {
  index_of : text -> query W Z;
  mtu_of : text -> query W Z
}.

(** [find_interface_by_name]: the position of the record. *)
Definition find_interface_by_name (interfaces : list interface_record) (name : text)
    : option nat :=
  fst <$> list_find (fun entry => if_name entry = name) interfaces.

Definition with_flags (flags : Z) (entry : interface_record) : interface_record :=
  Interface_record (if_name entry) (if_index entry) (classify_state flags)
    (negb (Z.land flags IFF_LOOPBACK =? 0)) (if_hardware_address entry) (if_addresses entry)
    (if_mtu_bytes entry).

Definition with_address (address : unicast_record) (entry : interface_record) : interface_record :=
  Interface_record (if_name entry) (if_index entry) (if_state entry) (if_loopback entry)
    (if_hardware_address entry) (if_addresses entry ++ [address]) (if_mtu_bytes entry).

Definition with_hardware_address (bytes : list Z) (entry : interface_record) : interface_record :=
  Interface_record (if_name entry) (if_index entry) (if_state entry) (if_loopback entry)
    bytes (if_addresses entry) (if_mtu_bytes entry).

Definition mask_family_ok (expected : netmask_family) (mask : option (netmask_family * list Z))
    : bool :=
  match mask with
  | Some (family, _) =>
      bool_decide (family = expected) || bool_decide (family = Mask_unspec)
  | None => true
  end.

(** The changes the row's address makes to its interface. *)
Definition convert_address (row : ifaddrs_row) (entry : interface_record)
    : result interface_record :=
  match ifa_addr row with
  | None => Value entry
  | Some (Inet address) =>
      reject (negb (mask_family_ok Mask_inet (ifa_netmask row))) errc_malformed_data;;
      record ← make_ipv4_record address (snd <$> ifa_netmask row);
      Value (with_address record entry)
  | Some (Inet6 address scope_id) =>
      reject (negb (mask_family_ok Mask_inet6 (ifa_netmask row))) errc_malformed_data;;
      record ← make_ipv6_record address (snd <$> ifa_netmask row) (wrap 32 scope_id);
      Value (with_address record entry)
  | Some (Packet halen storage) =>
      reject (length storage <? halen)%nat errc_not_supported;;
      Value (with_hardware_address (take halen storage) entry)
  | Some Other_family => Value entry
  end.

(** [native_interface_api::index_of]: the index and [errno] of
    [if_nametoindex], with [errno] cleared before the call. *)
Definition native_index_of (resolved errno : Z) : result Z :=
  if resolved =? 0 then fail_native (if negb (errno =? 0) then errno else ENXIO)
  else Value (wrap 32 resolved).

(** [read_mtu] after the last, uninterrupted [ioctl]. *)
Definition mtu_result (outcome errno mtu : Z) : result Z :=
  if negb (outcome =? 0) then fail_native errno
  else if mtu <? 0 then fail errc_malformed_data
  else Value (wrap 32 mtu).

Section conversion.
Context {W : Type} `{InterfaceApi W}.

Definition find_or_create (name : text) (interfaces : list interface_record)
    : query W (list interface_record * nat) :=
  match find_interface_by_name interfaces name with
  | Some position => mret (interfaces, position)
  | None =>
      index ← index_of name;
      mtu ← mtu_of name;
      mret (interfaces ++ [Interface_record name index interface_unknown false [] [] mtu],
            length interfaces)
  end.

Definition convert_ifaddrs_row (row : ifaddrs_row) (interfaces : list interface_record)
    : query W (list interface_record) :=
  match ifa_name row with
  | None => pure (fail errc_malformed_data)
  | Some name =>
      found ← find_or_create name interfaces;
      let '(interfaces, position) := found in
      match interfaces !! position with
      | None => mret interfaces
      | Some entry =>
          entry ← pure (convert_address row (with_flags (ifa_flags row) entry));
          mret (<[position := entry]> interfaces)
      end
  end.

Fixpoint convert_rows (rows : list ifaddrs_row) (interfaces : list interface_record)
    : query W (list interface_record) :=
  match rows with
  | [] => mret interfaces
  | row :: rows => interfaces ← convert_ifaddrs_row row interfaces; convert_rows rows interfaces
  end.

Definition convert_ifaddrs (rows : list ifaddrs_row) : query W (list interface_record) :=
  convert_rows rows [].

End conversion.

(** ** Addresses as numbers *)

Lemma be_value_zero l : Forall is_byte l -> be_value l = 0 <-> Forall (fun b => b = 0) l.
Proof.
  induction 1 as [|b l Hb Hl IH]; [done|]. simpl. rewrite Forall_cons, <- IH.
  pose proof (be_value_bound l Hl). unfold is_byte in Hb.
  assert (0 < 2 ^ (8 * Z.of_nat (length l))) by (apply Z.pow_pos_nonneg; lia).
  split; [|by intros [-> ->]]. intros. split; nia.
Qed.

Lemma nonzero_byte_false first last value :
  nonzero_byte first last value = false <->
  Forall (fun b => b = 0) (drop first (take last value)).
Proof.
  unfold nonzero_byte. induction (drop first (take last value)) as [|b l IH]; simpl; [done|].
  rewrite orb_false_iff, Forall_cons, IH, negb_false_iff, Z.eqb_eq. done.
Qed.

(** Dropping a whole byte of the prefix. *)
Lemma host_bits_set_cons n b p l :
  8 <= p -> host_bits_set (S n) p (b :: l) = host_bits_set n (p - 8) l.
Proof.
  intros Hp. unfold host_bits_set. rewrite <- (Z_mod_plus_full (p - 8) 1 8).
  replace (p - 8 + 1 * 8) with p by lia.
  replace (Z.to_nat (p / 8)) with (S (Z.to_nat ((p - 8) / 8))).
  - done.
  - rewrite <- Z2Nat.inj_succ by (apply Z.div_pos; lia). f_equal.
    replace p with (p - 8 + 1 * 8) at 2 by lia. rewrite Z.div_add by lia. lia.
Qed.

Lemma land_low_zero b r :
  is_byte b -> 0 <= r < 8 ->
  (Z.land b (wrap 8 (Z.shiftl 1 (8 - r) - 1)) =? 0) = (b mod 2 ^ (8 - r) =? 0).
Proof.
  intros Hb Hr. f_equal. rewrite Z.shiftl_1_l.
  assert (0 < 2 ^ (8 - r)) by (apply Z.pow_pos_nonneg; lia).
  replace (2 ^ (8 - r) - 1) with (Z.ones (8 - r)) by (rewrite Z.ones_equiv; lia).
  assert (wrap 8 (Z.ones (8 - r)) = Z.ones (8 - r)) as ->.
  { unfold wrap. apply Z.mod_small. rewrite Z.ones_equiv.
    assert (2 ^ (8 - r) <= 2 ^ 8) by (apply Z.pow_le_mono_r; lia). lia. }
  by rewrite Z.land_ones by lia.
Qed.

Lemma mod_split b k v m :
  0 < k -> 0 < m -> 0 <= v < k -> (b * k + v) mod (k * m) = 0 <-> v = 0 /\ b mod m = 0.
Proof.
  intros Hk Hm Hv. rewrite (Z.rem_mul_r _ k m) by lia.
  rewrite (Z.add_comm (b * k) v), Z.mod_add, Z.div_add by lia.
  rewrite (Z.mod_small v k), (Z.div_small v k) by lia.
  pose proof (Z.mod_pos_bound b m Hm). rewrite Z.add_0_l. split; [intros; nia|].
  intros [-> ->]. lia.
Qed.

(** The host part of an address is zero exactly when the prefix's complement
    divides its value. *)
Lemma host_bits_clear n p value :
  length value = n -> Forall is_byte value -> 0 <= p <= 8 * Z.of_nat n ->
  host_bits_set n p value = false <-> be_value value mod 2 ^ (8 * Z.of_nat n - p) = 0.
Proof.
  intros Hn Hv. revert n p Hn. induction Hv as [|b l Hb Hl IH]; intros n p Hn Hp.
  { simpl in Hn. subst n. assert (p = 0) as -> by lia. done. }
  simpl in Hn. subst n. destruct (Z.le_gt_cases 8 p) as [H8|H8].
  - rewrite host_bits_set_cons by done. rewrite (IH (length l)) by lia.
    simpl be_value. set (n := length l) in *.
    replace (8 * Z.of_nat (S n) - p) with (8 * Z.of_nat n - (p - 8)) by lia.
    set (k := 8 * Z.of_nat n - (p - 8)).
    replace (8 * Z.of_nat n) with (p - 8 + k) by lia.
    rewrite Z.pow_add_r, Z.mul_assoc, Z.add_comm, Z.mod_add by lia. done.
  - unfold host_bits_set. rewrite Z.div_small, Z.mod_small by lia. simpl Z.to_nat.
    set (n := length l) in *. simpl be_value. fold n.
    pose proof (be_value_bound l Hl) as Hbl. fold n in Hbl.
    replace (8 * Z.of_nat (S n) - p) with (8 * Z.of_nat n + (8 - p)) by lia.
    rewrite Z.pow_add_r by lia.
    rewrite mod_split; [|apply Z.pow_pos_nonneg; lia|apply Z.pow_pos_nonneg; lia|done].
    rewrite be_value_zero by done.
    assert (Forall (fun b => b = 0) (take n l) <-> Forall (fun b => b = 0) l) as Ht
      by (by rewrite take_ge by lia).
    simpl nth. rewrite land_low_zero by (done || lia). rewrite orb_false_iff.
    destruct (Z.eqb_spec p 0) as [->|Hne].
    + simpl. rewrite nonzero_byte_false. simpl. rewrite Forall_cons, Ht.
      unfold is_byte in Hb. change (2 ^ 8) with 256. rewrite Z.mod_small by done. tauto.
    + rewrite nonzero_byte_false. simpl. rewrite drop_0, Ht, negb_false_iff, Z.eqb_eq. tauto.
Qed.

(** ** Route records *)

Definition ip_address_ok (a : ip_address_record) : Prop :=
  ip_family a = ipv4 -> ip_scope_id a = 0 /\ Forall (fun b => b = 0) (drop 4 (ip_value a)).

Definition significant (a : ip_address_record) : list Z :=
  take (address_length (ip_family a)) (ip_value a).

(** What the code's types guarantee of a record: sixteen bytes. *)
Definition address_typed (a : ip_address_record) : Prop :=
  length (ip_value a) = 16%nat /\ Forall is_byte (ip_value a).

Definition route_ok (r : route_record) : Prop :=
  let bits := maximum_prefix_length (ip_family (destination r)) in
  ip_address_ok (destination r) /\ interface_index r <> 0 /\ prefix_length r <= bits /\
  be_value (significant (destination r)) mod 2 ^ (bits - prefix_length r) = 0 /\
  match next_hop r with
  | Some hop => ip_address_ok hop /\ ip_family hop = ip_family (destination r)
  | None => True
  end.

Lemma validate_ip_address_value a : validate_ip_address a = Value () <-> ip_address_ok a.
Proof.
  unfold validate_ip_address, ip_address_ok, is_ipv4. destruct (ip_family a); simpl; [|by split].
  rewrite bind_value. split.
  - intros ([] & Hs%reject_value%negb_false_iff%Z.eqb_eq & Hn%reject_value) _. rewrite nonzero_byte_false, take_ge in Hn by lia. done.
  - intros [Hs Hn]; [done|]. exists (). rewrite !reject_value, negb_false_iff, Z.eqb_eq, nonzero_byte_false, take_ge by lia. done.
Qed.

Lemma significant_bytes a :
  address_typed a ->
  length (significant a) = address_length (ip_family a) /\ Forall is_byte (significant a) /\
  8 * Z.of_nat (address_length (ip_family a)) = maximum_prefix_length (ip_family a).
Proof.
  intros [Hl Hb]. unfold significant, address_length, is_ipv4. rewrite length_take, Hl.
  split; [by destruct (ip_family a)|]. split; [by apply Forall_take|]. by destruct (ip_family a).
Qed.

Lemma host_bits_significant n p v : host_bits_set n p v = host_bits_set n p (take n v).
Proof.
  unfold host_bits_set, nonzero_byte. rewrite take_take, Nat.min_id.
  destruct (Nat.ltb_spec (Z.to_nat (p / 8)) n); [|by rewrite !andb_false_r].
  by rewrite !nth_lookup, lookup_take_lt by done.
Qed.

Lemma validate_route_record_value r :
  address_typed (destination r) -> 0 <= prefix_length r ->
  validate_route_record r = Value () <-> route_ok r.
Proof.
  intros Ht Hp. unfold validate_route_record, route_ok. cbv zeta.
  destruct (significant_bytes _ Ht) as (Hl & Hb & Hbits). fold (significant (destination r)).
  assert (forall c, prefix_length r <= maximum_prefix_length (ip_family (destination r)) ->
    c = host_bits_set (address_length (ip_family (destination r))) (prefix_length r)
          (ip_value (destination r)) ->
    c = false <-> be_value (significant (destination r)) mod
      2 ^ (maximum_prefix_length (ip_family (destination r)) - prefix_length r) = 0) as Hhost.
  { intros c Hle ->. rewrite host_bits_significant, <- Hbits. apply host_bits_clear; lia || done. }
  split.
  - intros ([] & H1%validate_ip_address_value & H5)%bind_value.
    apply bind_value in H5 as ([] & [H2%Z.eqb_neq H3%Z.ltb_ge]%reject_value%orb_false_iff & H5).
    apply bind_value in H5 as ([] & H4%reject_value & H5).
    split_and!; [done..| |]; [by eapply Hhost|].
    destruct (next_hop r) as [hop|]; [|done]. apply bind_value in H5 as ([] & H6 & H7).
    apply validate_ip_address_value in H6. apply reject_value, negb_false_iff in H7.
    by apply bool_decide_eq_true in H7.
  - intros (H1 & H2 & H3 & H4 & H5). apply bind_value. exists ().
    split; [by apply validate_ip_address_value|]. apply bind_value. exists (). split.
    { apply reject_value, orb_false_iff. split; [by apply Z.eqb_neq|by apply Z.ltb_ge]. }
    apply bind_value. exists (). split; [apply reject_value; by eapply Hhost|]. destruct (next_hop r) as [hop|]; [|done].
    destruct H5 as [H6 H7]. apply bind_value. exists ().
    split; [by apply validate_ip_address_value|]. apply reject_value, negb_false_iff.
    by apply bool_decide_eq_true.
Qed.

(** The public boundary accepts a route collection exactly when every
    route has a well-formed destination and next hop of the same family, an
    interface, a prefix within the family's width and no host bit beyond the
    prefix (its complement divides the address); accepted routes are returned
    unchanged. *)
Theorem validate_route_records_spec (rs out : list route_record) :
  Forall (fun r => address_typed (destination r) /\ 0 <= prefix_length r) rs ->
  validate_route_records (Value rs) = Value out <-> out = rs /\ Forall route_ok rs.
Proof.
  intros Ht. unfold validate_route_records. simpl. rewrite bind_value.
  split.
  - intros ([] & Hr%for_each_value & [= <-]). split; [done|].
    rewrite Forall_forall in *. intros r Hin. destruct (Ht r Hin) as [H1 H2].
    by apply validate_route_record_value, Hr.
  - intros [-> Hr]. exists (). split; [|done]. apply for_each_value.
    rewrite Forall_forall in *. intros r Hin. destruct (Ht r Hin) as [H1 H2].
    by apply validate_route_record_value, Hr.
Qed.

Lemma validate_route_records_spec_witness :
  let a := Ip_address_record ipv4 ([192; 168; 4; 0] ++ repeat 0 12) 0 in
  let ok := Route_record a 22 None 2 None in
  let bad := Route_record a 21 None 2 None in
  validate_route_records (Value [ok]) = Value [ok] /\ route_ok ok /\
  validate_route_records (Value [bad]) <> Value [bad].
Proof.
  intros a ok bad.
  assert (Forall (fun r => address_typed (destination r) /\ 0 <= prefix_length r) [ok]) as Hok.
  { constructor; [|constructor]. split; [split; [reflexivity|]|simpl; lia].
    unfold is_byte. repeat constructor; lia || discriminate. }
  assert (Forall (fun r => address_typed (destination r) /\ 0 <= prefix_length r) [bad]) as Hbad.
  { constructor; [|constructor]. split; [split; [reflexivity|]|simpl; lia].
    unfold is_byte. repeat constructor; lia || discriminate. }
  pose proof (validate_route_records_spec [ok] [ok] Hok) as [H1 _].
  pose proof (validate_route_records_spec [bad] [bad] Hbad) as [H2 _].
  assert (validate_route_records (Value [ok]) = Value [ok]) as E by (vm_compute; reflexivity).
  refine (conj E (conj (Forall_inv (proj2 (H1 E))) _)).
  vm_compute. discriminate.
Defined.

(** ** Netmasks *)

(** The mask of [p] one bits among [8 * n]. *)
Definition netmask_value (n : nat) (p : Z) : Z := 2 ^ (8 * Z.of_nat n) - 2 ^ (8 * Z.of_nat n - p).

Lemma mask_loop_shift fuel byte mask prefix :
  0 <= prefix -> prefix + Z.of_nat fuel < 256 ->
  mask_loop fuel byte mask prefix =
  (fst (mask_loop fuel byte mask 0), prefix + snd (mask_loop fuel byte mask 0)).
Proof.
  revert mask prefix. induction fuel as [|fuel IH]; intros mask prefix H0 Hp; simpl.
  { f_equal. lia. }
  destruct (negb (mask =? 0) && negb (Z.land byte mask =? 0)); [|simpl; f_equal; lia].
  unfold wrap. rewrite (Z.mod_small (prefix + 1)), (Z.mod_small (0 + 1)) by lia.
  rewrite IH by lia. rewrite (IH _ (0 + 1)) by lia. simpl. f_equal. lia.
Qed.

(** One byte, by evaluation over its 255 values below the full one. *)
Definition partial_byte_ok (byte : Z) : bool :=
  let '(mask, k) := mask_loop 8 byte 128 0 in
  (0 <=? k) && (k <? 8) &&
  bool_decide ((Z.land byte (wrap 8 (mask - 1)) =? 0) = (byte =? 256 - 2 ^ (8 - k))) &&
  forallb (fun j => implb (byte =? 256 - 2 ^ (8 - j)) (k =? j)) (seqZ 0 8).

Lemma partial_bytes : forallb partial_byte_ok (seqZ 0 255) = true.
Proof. vm_compute. reflexivity. Qed.

Lemma partial_byte byte :
  0 <= byte < 255 ->
  let m := mask_loop 8 byte 128 0 in
  0 <= snd m < 8 /\
  (Z.land byte (wrap 8 (fst m - 1)) =? 0) = (byte =? 256 - 2 ^ (8 - snd m)) /\
  forall j, 0 <= j < 8 -> byte = 256 - 2 ^ (8 - j) -> snd m = j.
Proof.
  intros Hb. pose proof (proj1 (forallb_forall _ _) partial_bytes byte) as H. cbv zeta.
  specialize (H ltac:(apply list_elem_of_In, elem_of_seqZ; lia)). unfold partial_byte_ok in H.
  destruct (mask_loop 8 byte 128 0) as [m k]. cbn [fst snd].
  apply andb_true_iff in H as [[[H1%Z.leb_le H2%Z.ltb_lt]%andb_true_iff
    H3%bool_decide_eq_true]%andb_true_iff H4].
  split; [lia|]. split; [done|]. intros j Hj Hbyte.
  pose proof (proj1 (forallb_forall _ _) H4 j) as H. specialize (H ltac:(apply list_elem_of_In, elem_of_seqZ; lia)).
  cbv beta in H. rewrite (proj2 (Z.eqb_eq _ _) Hbyte) in H. simpl in H. lia.
Qed.

Lemma netmask_loop_zeros bytes prefix q :
  netmask_loop bytes prefix true = Value q <-> q = prefix /\ Forall (fun b => b = 0) bytes.
Proof.
  induction bytes as [|b bytes IH]; simpl.
  - split; [by intros [= ->]|by intros [-> _]].
  - rewrite Forall_cons. destruct (Z.eqb_spec b 0); simpl; [rewrite IH; tauto|].
    split; [done|]. by intros (_ & ? & _).
Qed.

Lemma pow_byte n : 0 < 2 ^ (8 * Z.of_nat n) /\ 2 ^ (8 * Z.of_nat (S n)) = 256 * 2 ^ (8 * Z.of_nat n).
Proof.
  split; [apply Z.pow_pos_nonneg; lia|].
  replace (8 * Z.of_nat (S n)) with (8 + 8 * Z.of_nat n) by lia. by rewrite Z.pow_add_r by lia.
Qed.

(** The first byte of a mask, and what it leaves to the others. *)
Lemma netmask_value_low n p : 0 <= p < 8 ->
  netmask_value (S n) p = (256 - 2 ^ (8 - p)) * 2 ^ (8 * Z.of_nat n).
Proof.
  intros Hp. unfold netmask_value. destruct (pow_byte n) as [_ ->].
  replace (8 * Z.of_nat (S n) - p) with (8 - p + 8 * Z.of_nat n) by lia.
  rewrite Z.pow_add_r by lia. lia.
Qed.

Lemma netmask_value_high n p : 8 <= p <= 8 * Z.of_nat (S n) ->
  netmask_value (S n) p = 255 * 2 ^ (8 * Z.of_nat n) + netmask_value n (p - 8) /\
  0 <= netmask_value n (p - 8).
Proof.
  intros Hp. unfold netmask_value. destruct (pow_byte n) as [_ ->].
  replace (8 * Z.of_nat (S n) - p) with (8 * Z.of_nat n - (p - 8)) by lia.
  split; [lia|]. assert (2 ^ (8 * Z.of_nat n - (p - 8)) <= 2 ^ (8 * Z.of_nat n)); [|lia].
  apply Z.pow_le_mono_r; lia.
Qed.

Lemma digit_unique k b c v : 0 <= v < k -> b * k + v = c * k -> b = c /\ v = 0.
Proof.
  intros Hv He. destruct (Z.lt_trichotomy b c) as [H|[H|H]]; [nia| |nia]. subst. lia.
Qed.

Lemma netmask_loop_spec bytes prefix q :
  Forall is_byte bytes -> 0 <= prefix -> prefix + 8 * Z.of_nat (length bytes) < 248 ->
  netmask_loop bytes prefix false = Value q <->
  exists p, q = prefix + p /\ 0 <= p <= 8 * Z.of_nat (length bytes) /\
    be_value bytes = netmask_value (length bytes) p.
Proof.
  intros Hb. revert prefix q. induction Hb as [|b l Hb Hl IH]; intros prefix q H0 Hp.
  { simpl. split.
    - intros [= <-]. exists 0. split; [lia|]. by split.
    - intros (p & -> & Hp' & _). f_equal. lia. }
  cbn [netmask_loop be_value length]. cbn [length] in Hp. set (n := length l) in *.
  destruct (pow_byte n) as [Hpos _]. pose proof (be_value_bound l Hl) as Hbl. fold n in Hbl.
  unfold is_byte in Hb. destruct (Z.eqb_spec b 255) as [->|Hne].
  - unfold wrap. rewrite Z.mod_small, IH by lia. split.
    + intros (p & -> & Hr & ->). exists (p + 8). split; [lia|]. split; [lia|].
      destruct (netmask_value_high n (p + 8)) as [-> _]; [lia|]. by rewrite Z.add_simpl_r.
    + intros (p & -> & Hr & Hv). assert (8 <= p) as H8.
      { destruct (Z.le_gt_cases 8 p) as [|H8]; [done|exfalso].
        rewrite netmask_value_low in Hv by lia.
        assert (2 <= 2 ^ (8 - p)) by (change 2 with (2 ^ 1) at 1; apply Z.pow_le_mono_r; lia). nia. }
      exists (p - 8). split; [lia|]. split; [lia|].
      destruct (netmask_value_high n p) as [Hh _]; [lia|]. lia.
  - destruct (partial_byte b) as (Hk & Hcheck & Huniq); [lia|].
    rewrite mask_loop_shift by lia. destruct (mask_loop 8 b 128 0) as [m k]. cbn [fst snd] in *.
    rewrite Hcheck. destruct (Z.eqb_spec b (256 - 2 ^ (8 - k))) as [Hbk|Hbk]; cbn [negb].
    + rewrite netmask_loop_zeros, <- be_value_zero by done. split.
      * intros [-> Hz]. exists k. split; [lia|]. split; [lia|].
        rewrite netmask_value_low by lia. rewrite <- Hbk, Hz. lia.
      * intros (p & -> & Hr & Hv). destruct (Z.le_gt_cases 8 p) as [H8|H8].
        { destruct (netmask_value_high n p) as [Hh ?]; [lia|]. nia. }
        rewrite netmask_value_low in Hv by lia.
        apply digit_unique in Hv as [Hbp ?]; [|done].
        rewrite (Huniq p) by (lia || done). done.
    + split; [done|]. intros (p & -> & Hr & Hv). exfalso.
      destruct (Z.le_gt_cases 8 p) as [H8|H8].
      { destruct (netmask_value_high n p) as [Hh ?]; [lia|]. nia. }
      rewrite netmask_value_low in Hv by lia.
      apply digit_unique in Hv as [Hbp _]; [|done].
      apply Hbk. by rewrite (Huniq p) by (lia || done).
Qed.

(** [prefix_from_netmask] returns [p] exactly on the mask of [p] one bits
    followed by zeros; every other netmask is malformed. *)
Theorem prefix_from_netmask_spec (bytes : list Z) (p : Z) :
  Forall is_byte bytes -> (length bytes <= 16)%nat ->
  prefix_from_netmask bytes (8 * Z.of_nat (length bytes)) = Value p <->
  0 <= p <= 8 * Z.of_nat (length bytes) /\ be_value bytes = netmask_value (length bytes) p.
Proof.
  intros Hb Hl. unfold prefix_from_netmask. rewrite bind_value. split.
  - intros (q & Hq & Hp). apply netmask_loop_spec in Hq as (r & -> & Hr & Hv); [|done|lia|lia].
    destruct (_ <? _); [done|]. by injection Hp as <-.
  - intros [Hr Hv]. exists p. split.
    + apply netmask_loop_spec; [done|lia|lia|]. by exists p.
    + by rewrite (proj2 (Z.ltb_ge _ _)) by lia.
Qed.

Lemma prefix_from_netmask_spec_witness :
  prefix_from_netmask [255; 255; 252; 0] 32 = Value 22 /\
  be_value [255; 255; 252; 0] = netmask_value 4 22 /\
  prefix_from_netmask [255; 0; 255; 0] 32 <> Value 16.
Proof.
  assert (Forall is_byte [255; 255; 252; 0] /\ Forall is_byte [255; 0; 255; 0]) as [H1 H2].
  { unfold is_byte. split; repeat constructor; lia || discriminate. }
  pose proof (prefix_from_netmask_spec [255; 255; 252; 0] 22 H1 ltac:(simpl; lia)) as [P1 _].
  pose proof (prefix_from_netmask_spec [255; 0; 255; 0] 16 H2 ltac:(simpl; lia)) as [P2 _].
  assert (prefix_from_netmask [255; 255; 252; 0] 32 = Value 22) as E by (vm_compute; reflexivity).
  refine (conj E (conj (proj2 (P1 E)) (fun H => _))).
  pose proof (proj2 (P2 H)) as H'. vm_compute in H'. discriminate H'.
Defined.

(** ** What the conversion of a getifaddrs list returns *)

(** Names in the order of their first row. *)
Definition first_sight (names : list text) : list text :=
  foldl (fun seen name => if bool_decide (name ∈ seen) then seen else seen ++ [name]) [] names.

Definition row_names (rows : list ifaddrs_row) : list text := omap ifa_name rows.

Definition addresses_ok (r : interface_record) : Prop :=
  for_each validate_unicast_record (if_addresses r) = Value ().

Definition record_ok (names : list text) (r : interface_record) : Prop :=
  if_index r <> 0 /\ if_name r ∈ names /\ addresses_ok r.

Lemma prefix_from_netmask_bound bytes maximum p :
  prefix_from_netmask bytes maximum = Value p -> p <= maximum.
Proof.
  unfold prefix_from_netmask. intros (q & _ & Hp)%bind_value.
  destruct (Z.ltb_spec maximum q); [done|]. by injection Hp as <-.
Qed.

Lemma make_ipv4_record_valid address netmask r :
  make_ipv4_record address netmask = Value r -> validate_unicast_record r = Value ().
Proof.
  unfold make_ipv4_record. destruct netmask as [bytes|]; [|done].
  intros (p & Hp%prefix_from_netmask_bound & [= <-])%bind_value.
  unfold validate_unicast_record. cbn [u_family u_prefix_length u_scope_id u_value].
  rewrite (proj2 (Z.ltb_ge _ _)) by done. cbn [reject mbind result_bind]. simpl is_ipv4. cbv iota.
  apply reject_value, nonzero_byte_false. rewrite (take_ge _ (length _)) by lia.
  destruct address as [|a1 [|a2 [|a3 [|a4 l]]]]; simpl; by repeat constructor.
Qed.

Lemma make_ipv6_record_valid address netmask scope r :
  make_ipv6_record address netmask scope = Value r -> validate_unicast_record r = Value ().
Proof.
  unfold make_ipv6_record. destruct netmask as [bytes|]; [|done].
  intros (p & Hp%prefix_from_netmask_bound & [= <-])%bind_value.
  unfold validate_unicast_record. cbn [u_family u_prefix_length].
  by rewrite (proj2 (Z.ltb_ge _ _)) by done.
Qed.

Lemma for_each_snoc {A} (check : A -> result unit) l x :
  for_each check l = Value () -> check x = Value () -> for_each check (l ++ [x]) = Value ().
Proof. rewrite !for_each_value. intros ??. apply Forall_app. by split; [|constructor]. Qed.

Lemma convert_address_ok row entry entry' names :
  record_ok names entry -> convert_address row (with_flags (ifa_flags row) entry) = Value entry' ->
  record_ok names entry' /\ if_name entry' = if_name entry.
Proof.
  intros (Hi & Hn & Ha). unfold convert_address.
  destruct (ifa_addr row) as [[address|address scope|halen storage|]|].
  - intros ([] & _ & (r & Hr%make_ipv4_record_valid & [= <-])%bind_value)%bind_value.
    split; [|done]. split; [done|]. split; [done|]. by apply for_each_snoc.
  - intros ([] & _ & (r & Hr%make_ipv6_record_valid & [= <-])%bind_value)%bind_value.
    split; [|done]. split; [done|]. split; [done|]. by apply for_each_snoc.
  - intros ([] & _ & [= <-])%bind_value. done.
  - by intros [= <-].
  - by intros [= <-].
Qed.

Section conversion_spec.
Context {W : Type} `{InterfaceApi W}.
Context (index_nonzero : forall name, yields (index_of name) (fun i => i <> 0)).

Definition conversion_state (names : list text) (interfaces : list interface_record) : Prop :=
  if_name <$> interfaces = first_sight names /\ Forall (record_ok names) interfaces.

Lemma first_sight_snoc names name :
  first_sight (names ++ [name]) =
  if bool_decide (name ∈ first_sight names) then first_sight names else first_sight names ++ [name].
Proof. unfold first_sight. by rewrite foldl_app. Qed.

Lemma record_ok_more names name r : record_ok names r -> record_ok (names ++ [name]) r.
Proof. intros (? & ? & ?). split; [done|]. split; [|done]. apply elem_of_app. by left. Qed.

Lemma find_or_create_yields names name interfaces :
  conversion_state names interfaces ->
  yields (find_or_create name interfaces) (fun found =>
    conversion_state (names ++ [name]) (fst found) /\
    exists entry, fst found !! snd found = Some entry /\ if_name entry = name).
Proof.
  intros [Hn Hok]. unfold find_or_create, find_interface_by_name.
  destruct (list_find _ interfaces) as [[i entry]|] eqn:Hf; simpl.
  - apply list_find_Some in Hf as (Hl & He & _). apply yields_ret. split; [split|by exists entry].
    + rewrite first_sight_snoc, bool_decide_eq_true_2; [done|]. rewrite <- Hn.
      apply list_elem_of_fmap. exists entry. split; [done|]. by apply list_elem_of_lookup_2 in Hl.
    + eapply Forall_impl; [exact Hok|]. intros r. apply record_ok_more.
  - apply list_find_None in Hf. eapply yields_bind; [apply index_nonzero|]. intros index Hindex.
    apply yields_skip; intros mtu. apply yields_ret. cbn [fst snd]. split; [split|].
    + rewrite first_sight_snoc, bool_decide_eq_false_2, fmap_app, Hn; [done|].
      rewrite <- Hn. intros (r & -> & Hr)%list_elem_of_fmap.
      rewrite Forall_forall in Hf. by apply (Hf r).
    + apply Forall_app. split; [eapply Forall_impl; [exact Hok|]; intros r; apply record_ok_more|].
      constructor; [|constructor]. split; [done|]. split; [|done].
      apply elem_of_app. right. by apply list_elem_of_singleton.
    + eexists. split; [apply list_lookup_middle; done|done].
Qed.

Lemma convert_row_yields names row interfaces :
  conversion_state names interfaces ->
  yields (convert_ifaddrs_row row interfaces) (fun out =>
    exists name, ifa_name row = Some name /\ conversion_state (names ++ [name]) out).
Proof.
  intros Hs. unfold convert_ifaddrs_row. destruct (ifa_name row) as [name|]; [|by apply yields_pure].
  eapply yields_bind; [by apply find_or_create_yields|].
  intros [out position] ([Hn Hok] & entry & Hl & He). cbn [fst snd] in *. rewrite Hl.
  assert (record_ok (names ++ [name]) entry) as Hentry.
  { rewrite Forall_lookup in Hok. by eapply Hok. }
  apply yields_pure_bind. intros entry' Hc. apply yields_ret. exists name. split; [done|].
  eapply convert_address_ok in Hc as [Hok' Hname]; [|exact Hentry]. split.
  - rewrite list_fmap_insert, Hname, list_insert_id; [done|].
    by rewrite list_lookup_fmap, Hl.
  - by apply Forall_insert.
Qed.

Lemma convert_rows_yields rows names interfaces :
  conversion_state names interfaces ->
  yields (convert_rows rows interfaces) (conversion_state (names ++ row_names rows)).
Proof.
  revert names interfaces. induction rows as [|row rows IH]; intros names interfaces Hs; simpl.
  - apply yields_ret. by rewrite app_nil_r.
  - eapply yields_bind; [by apply convert_row_yields|]. intros out (name & Hrow & Hout).
    rewrite Hrow. specialize (IH _ _ Hout). by rewrite <- app_assoc in IH.
Qed.

(** The conversion of a getifaddrs list yields one record per interface
    name, in the order of first sight, each with a nonzero index and addresses
    the public boundary accepts, so that with nonempty UTF-8 names the whole
    snapshot passes [validate_interface_records]. *)
Theorem convert_ifaddrs_valid (rows : list ifaddrs_row) (w w' : W) (records : list interface_record) :
  Forall (fun name => name <> [] /\ is_valid_utf8 name = true) (row_names rows) ->
  convert_ifaddrs rows w = (Value records, w') ->
  if_name <$> records = first_sight (row_names rows) /\
  validate_interface_records (Value records) = Value records.
Proof.
  intros Hnames Hc. destruct (convert_rows_yields rows [] []) with (2 := Hc) as [Hn Hok].
  { split; [done|constructor]. }
  split; [done|]. unfold validate_interface_records. apply bind_value. exists records.
  split; [done|]. apply bind_value. exists (). split; [|done]. apply for_each_value.
  eapply Forall_impl; [exact Hok|]. intros r (Hi & Hin & Ha).
  rewrite Forall_forall in Hnames. destruct (Hnames _ Hin) as [Hne Hu].
  unfold validate_interface_record. rewrite (proj2 (empty_false _) Hne), (proj2 (Z.eqb_neq _ _) Hi), Hu.
  exact Ha.
Qed.

End conversion_spec.

(** Indices one, an MTU of 1500. *)
Definition constant_api : InterfaceApi unit := {|
  index_of _ := mret 1;
  mtu_of _ := mret 1500
|}.

Lemma convert_ifaddrs_valid_witness :
  let rows := [
    Ifaddrs_row (Some (lit "lo")) 73 (Some (Packet 6 (repeat 0 8))) None;
    Ifaddrs_row (Some (lit "eth0")) 67 (Some (Inet [192; 168; 1; 2])) (Some (Mask_inet, [255; 255; 255; 0]));
    Ifaddrs_row (Some (lit "lo")) 73 (Some (Inet [127; 0; 0; 1])) (Some (Mask_inet, [255; 0; 0; 0]))] in
  exists records, @convert_ifaddrs unit constant_api rows tt = (Value records, tt) /\
    if_name <$> records = [lit "lo"; lit "eth0"] /\
    validate_interface_records (Value records) = Value records.
Proof.
  intros rows. eexists. split; [vm_compute; reflexivity|].
  apply (@convert_ifaddrs_valid unit constant_api) with (rows := rows) (w := tt) (w' := tt).
  - intros name. by apply yields_ret.
  - by_compute.
  - vm_compute. reflexivity.
Defined.
