(* ===== verification/NetworkStats.v ===== *)
(** * Interface statistics on Linux

    [include/syscape/detail/network/stats_linux.hpp]: the /proc/net/dev parser,
    the sysfs attributes and the queries by name and by index. *)
From S2P Require Import Prelude Result CppText Utf8 System CpuInfo Network.

(** The loop over the characters. *)
Fixpoint uint64_loop (l : text) (v : Z) : result Z :=
  match l with
  | [] => Value v
  | c :: l =>
      if (code c <? 48) || (57 <? code c) then fail errc_malformed_data
      else
        let digit := code c - 48 in
        if (uint64_max - digit) / 10 <? v then fail errc_value_too_large
        else uint64_loop l (wrap 64 (v * 10 + digit))
  end.

Definition parse_uint64_exact (input : text) : result Z :=
  if empty input then fail errc_malformed_data else uint64_loop input 0.

Definition name_front (c : ascii) : bool := is_char c " " || is_char c ch_tab.
Definition net_blank (c : ascii) : bool := is_char c " " || is_char c ch_tab || is_char c ch_cr.

(** The sixteen counters of a line. *)
Definition net_counters (numbers_part : text) : result (list Z) :=
  match each_token net_blank (fun fields => length fields <? 16)%nat numbers_part
          (fun token fields =>
             v <-? parse_uint64_exact token; Next (fields ++ [v])) [] with
  | Return r => r
  | Next (fields, num_pos) =>
      if (length fields <? 16)%nat then fail errc_malformed_data
      else if negb (scan net_blank numbers_part num_pos =? length numbers_part)%nat
      then fail errc_malformed_data
      else Value fields
  end.

Definition field (fields : list Z) (i : nat) : Z := nth i fields 0.

Definition record_of_fields (name : text) (index : Z) (f : list Z) : statistics_record := {|
  st_name := name;
  st_index := index;
  rx_bytes := field f 0;
  tx_bytes := field f 8;
  rx_packets := field f 1;
  tx_packets := field f 9;
  rx_errors := field f 2;
  tx_errors := field f 10;
  rx_dropped := field f 3;
  tx_dropped := field f 11;
  rx_multicast := Some (field f 7);
  collisions := Some (field f 13)
|}.

(** A line without a colon: blank or one of the two header lines. *)
Definition header_line (line : text) : bool :=
  let trimmed := drop_front name_front line in
  empty trimmed || starts_with (lit "Inter-|") trimmed || starts_with (lit "face |") trimmed.

Definition interface_name (name_part : text) : text :=
  drop_back net_blank (drop_front name_front name_part).

Section statistics.
Context {W : Type} `{Kernel W} `{InterfaceApi W}.

(** The loop body: [None] skips the line. *)
Definition net_dev_line (line : text) : query W (option statistics_record) :=
  match rfind ":" line with
  | None => pure (if header_line line then Value None else fail errc_malformed_data)
  | Some colon_pos =>
      let name := interface_name (substr 0 colon_pos line) in
      pure (reject (empty name) errc_malformed_data);;
      pure (reject (negb (is_valid_utf8 name)) errc_invalid_encoding);;
      fields ← pure (net_counters (substr_from (S colon_pos) line));
      index ← index_of name;
      mret (Some (record_of_fields name index fields))
  end.

(** The loop over the lines, with the state of the system threaded through. *)
Definition net_dev_step (line : text) (s : list statistics_record * W)
    : step (list statistics_record * W) (result (list statistics_record) * W) :=
  let '(records, w) := s in
  match net_dev_line line w with
  | (Value None, w) => Next (records, w)
  | (Value (Some record), w) => Next (records ++ [record], w)
  | (Failure e, w) => Return (Failure e, w)
  end.

Definition parse_proc_net_dev (content : text) : query W (list statistics_record) := fun w =>
  match each_field ch_lf content net_dev_step ([], w) with
  | Next (records, w) => (Value records, w)
  | Return r => r
  end.

Definition read_sysfs_stat_file (base_path attr : text) : query W Z :=
  content ← read_text_file (base_path ++ lit "/statistics/" ++ attr) 128;
  pure (parse_uint64_exact (trim_line_end content)).

Definition read_optional_sysfs_stat_file (base_path attr : text) : query W (option Z) :=
  v ← attempt (read_sysfs_stat_file base_path attr);
  pure (match v with
        | Value v => Value (Some v)
        | Failure e =>
            if matches_std_errc e ENOENT || matches_std_errc e ENOTDIR
            then Value None else Failure e
        end).

Definition read_sysfs_statistics (name : text) : query W statistics_record :=
  let iface_dir := lit "/sys/class/net/" ++ name in
  index ← index_of name;
  rx_bytes ← read_sysfs_stat_file iface_dir (lit "rx_bytes");
  tx_bytes ← read_sysfs_stat_file iface_dir (lit "tx_bytes");
  rx_packets ← read_sysfs_stat_file iface_dir (lit "rx_packets");
  tx_packets ← read_sysfs_stat_file iface_dir (lit "tx_packets");
  rx_errors ← read_sysfs_stat_file iface_dir (lit "rx_errors");
  tx_errors ← read_sysfs_stat_file iface_dir (lit "tx_errors");
  rx_dropped ← read_sysfs_stat_file iface_dir (lit "rx_dropped");
  rx_missed ← read_sysfs_stat_file iface_dir (lit "rx_missed_errors");
  combined_rx_dropped ← pure (add_statistics_counters rx_dropped rx_missed);
  tx_dropped ← read_sysfs_stat_file iface_dir (lit "tx_dropped");
  multicast ← read_optional_sysfs_stat_file iface_dir (lit "multicast");
  collisions ← read_optional_sysfs_stat_file iface_dir (lit "collisions");
  mret (Statistics_record name index rx_bytes tx_bytes rx_packets tx_packets rx_errors
          tx_errors combined_rx_dropped tx_dropped multicast collisions).

(** [network_backend::statistics]. *)
Definition interface_statistics : query W (list statistics_record) :=
  content ← read_text_file (lit "/proc/net/dev") default_maximum_size;
  parse_proc_net_dev content.

Definition source_absent (e : error_code) : bool :=
  matches_std_errc e ENOENT || matches_std_errc e ENOTDIR ||
  matches_std_errc e ENODEV || matches_std_errc e ENXIO.

Definition find_statistics (name : text) (all : list statistics_record)
    : result statistics_record :=
  match list_find (fun rec => st_name rec = name) all with
  | Some (_, rec) => Value rec
  | None => fail errc_not_found
  end.

Definition statistics_by_name (name : text) : query W statistics_record :=
  pure (reject (empty name || bool_decide (ch_nul ∈ name)) errc_invalid_argument);;
  pure (reject (negb (is_valid_utf8 name)) errc_invalid_encoding);;
  sysfs_res ← attempt (read_sysfs_statistics name);
  match sysfs_res with
  | Value rec => mret rec
  | Failure e =>
      if negb (source_absent e) then pure (Failure e)
      else
        content ← read_text_file (lit "/proc/net/dev") default_maximum_size;
        all ← parse_proc_net_dev content;
        pure (find_statistics name all)
  end.

(** [if_indextoname] is an argument: the name it writes, or none. *)
Definition statistics_by_index (if_indextoname : Z -> W -> option text * W) (index : Z)
    : query W statistics_record := fun w =>
  if index =? 0 then (fail errc_invalid_argument, w)
  else
    match if_indextoname index w with
    | (None, w) => (fail errc_not_found, w)
    | (Some ifname, w) => statistics_by_name ifname w
    end.

End statistics.

(** ** The hand-written number parser *)

Lemma digit_test c : ((code c <? 48) || (57 <? code c)) = negb (is_digit_in 10 c).
Proof.
  destruct (is_digit_in 10 c) eqn:E.
  - apply digit_code in E. apply orb_false_iff. split; apply Z.ltb_ge; lia.
  - apply not_true_iff_false in E. rewrite digit_code in E. apply orb_true_iff.
    rewrite !Z.ltb_lt. lia.
Qed.

Lemma digit_of_code c : is_digit_in 10 c = true -> digit_of 10 c = Some (code c - 48).
Proof.
  intros Hc. pose proof Hc as Hd. apply digit_code in Hd. unfold digit_of. cbv zeta.
  rewrite (proj2 (Z.leb_le 48 _)), (proj2 (Z.leb_le _ 57)) by lia. simpl.
  by rewrite (proj2 (Z.ltb_lt _ 10)) by lia.
Qed.

Lemma digits_value_cons ds v :
  Forall (fun d => 0 <= d < 10) ds -> v <= foldl (fun v d => v * 10 + d) v ds \/ v < 0.
Proof.
  intros H. destruct (Z.lt_ge_cases v 0) as [|Hv]; [by right|left].
  rewrite digits_value_acc. pose proof (digits_value_bound 10 ds ltac:(lia) H) as [Hd _].
  assert (1 <= 10 ^ Z.of_nat (length ds)); [|nia].
  change 1 with (10 ^ 0). apply Z.pow_le_mono_r; lia.
Qed.

(** The accumulator overflows exactly when the whole run of digits does. *)
Lemma uint64_loop_spec l v :
  0 <= v <= uint64_max ->
  let total := foldl (fun v d => v * 10 + d) v (digit_run 10 l) in
  uint64_loop l v =
  if uint64_max <? total then fail errc_value_too_large
  else if negb (length (digit_run 10 l) =? length l)%nat then fail errc_malformed_data
  else Value total.
Proof.
  revert v. induction l as [|c l IH]; intros v Hv.
  { simpl. by rewrite (proj2 (Z.ltb_ge _ _)) by lia. }
  cbn [uint64_loop digit_run length]. rewrite digit_test.
  destruct (is_digit_in 10 c) eqn:Hc; cbn [negb].
  - rewrite (digit_of_code c Hc). cbn [foldl length]. pose proof Hc as Hd. apply digit_code in Hd.
    set (d := code c - 48). assert (0 <= d < 10) as Hd' by (subst d; lia).
    destruct (Z.ltb_spec ((uint64_max - d) / 10) v) as [Ho|Ho].
    + assert (uint64_max < v * 10 + d) as Hover.
      { pose proof (Z.mul_succ_div_gt (uint64_max - d) 10 ltac:(lia)). lia. }
      destruct (digits_value_cons (digit_run 10 l) (v * 10 + d)) as [Hm|Hm];
        [apply (digit_run_bound 10)| |zlia].
      by rewrite (proj2 (Z.ltb_lt _ _)) by lia.
    + pose proof (Z.mul_div_le (uint64_max - d) 10 ltac:(lia)).
      assert (v * 10 + d <= uint64_max) by lia.
      assert (wrap 64 (v * 10 + d) = v * 10 + d) as ->
        by (unfold wrap; apply Z.mod_small; zlia).
      rewrite IH by lia. done.
  - unfold is_digit_in in Hc. destruct (digit_of 10 c); [done|]. simpl.
    by rewrite (proj2 (Z.ltb_ge _ _)) by lia.
Qed.

(** the hand-written [parse_uint64_exact] agrees with the
    [std::from_chars] based [parse_stat_counter] on every text, errors
    included: both see the same overflow first. *)
Lemma parse_uint64_exact_from_chars (input : text) :
  parse_uint64_exact input = parse_stat_counter input.
Proof.
  unfold parse_uint64_exact, parse_stat_counter. cbv zeta.
  destruct input as [|c l]; [done|]. simpl empty. cbv iota. rewrite uint64_loop_spec by zlia.
  cbv zeta. unfold from_chars_unsigned, out_of_range, consumed.
  remember (c :: l) as input eqn:Ei. assert (input <> []) as Hne by (by subst).
  change (foldl (fun v d => v * 10 + d) 0 (digit_run 10 input)) with (digits_value 10 (digit_run 10 input)).
  pose proof (Z.ltb_antisym (digits_value 10 (digit_run 10 input)) uint64_max) as Ha.
  destruct (digit_run 10 input) as [|d ds] eqn:Hr.
  - simpl. destruct input; done.
  - rewrite Z.ltb_antisym. destruct (Z.leb_spec (digits_value 10 (d :: ds)) uint64_max); simpl; [|done].
    by destruct (S (length ds) =? length input)%nat.
Qed.

(** ** The statistics file *)

Lemma net_counters_tokens numbers :
  net_counters numbers =
  match fold_rest (fun fields => length fields <? 16)%nat
          (fun token fields => v <-? parse_uint64_exact token; Next (fields ++ [v]))
          (tokens net_blank numbers) [] with
  | Return r => r
  | Next (fields, rest) =>
      if (length fields <? 16)%nat then fail errc_malformed_data
      else if bool_decide (rest = []) then Value fields else fail errc_malformed_data
  end.
Proof.
  unfold net_counters.
  pose proof (each_token_rest (R := result (list Z)) net_blank (fun fields => length fields <? 16)%nat
    numbers (fun token fields => v <-? parse_uint64_exact token; Next (fields ++ [v])) []) as H.
  destruct (each_token _ _ _ _ _) as [[fields pos]|r].
  - destruct H as [Hp ->]. destruct (length fields <? 16)%nat; [done|].
    destruct (scan_tokens net_blank numbers pos Hp) as (_ & _ & He).
    destruct (Nat.eqb_spec (scan net_blank numbers pos) (length numbers)) as [E|E]; simpl.
    + rewrite bool_decide_eq_true_2; [done|by apply He].
    + rewrite bool_decide_eq_false_2; [done|by intros ?%He].
  - by rewrite H.
Qed.

Lemma uint64_exact_to_decimal v :
  0 <= v <= uint64_max -> parse_uint64_exact (to_decimal v) = Value v.
Proof.
  intros Hv. unfold parse_uint64_exact.
  rewrite (proj2 (empty_false _) (to_decimal_ne v ltac:(lia))).
  rewrite uint64_loop_spec by zlia. cbv zeta.
  change (foldl _ 0 (digit_run 10 (to_decimal v))) with (numeral 10 (to_decimal v)).
  rewrite numeral_to_decimal, (proj2 (Z.ltb_ge _ _)) by lia.
  destruct (numeric_split 10 (to_decimal v)) as [[_ Hd] _]; [apply numeric_to_decimal; lia|].
  apply digit_run_numeric in Hd. by rewrite Hd, Nat.eqb_refl.
Qed.

Lemma net_counters_text vs :
  length vs = 16%nat -> Forall (fun v => 0 <= v <= uint64_max) vs ->
  net_counters (concat (cons " "%char <$> (to_decimal <$> vs))) = Value vs.
Proof.
  intros Hl Hv. rewrite net_counters_tokens, tokens_concat; [|done|].
  - assert (forall acc, (length acc + length vs <= 16)%nat ->
      fold_rest (fun fields => length fields <? 16)%nat
        (fun token fields => v <-? parse_uint64_exact token; Next (fields ++ [v]))
        (to_decimal <$> vs) acc = Next (R := result (list Z)) (acc ++ vs, [])) as Hfold.
    { clear Hl. induction Hv as [|v vs Hv _ IH]; intros acc Hacc; csimpl; [by rewrite app_nil_r|].
      simpl in Hacc. rewrite (proj2 (Nat.ltb_lt _ _)) by lia. rewrite uint64_exact_to_decimal by done.
      simpl. rewrite IH by (rewrite length_app; simpl; lia). by rewrite <- app_assoc. }
    rewrite Hfold by (simpl; lia). simpl. by rewrite Hl.
  - apply Forall_fmap. eapply Forall_impl; [exact Hv|]. intros v Hb. cbv beta in Hb. simpl.
    split; [apply to_decimal_ne; lia|]. apply digits_class; [|apply to_decimal_Forall; lia].
    intros c Hc. unfold net_blank, is_char. repeat (apply orb_false_iff; split);
      apply bool_decide_eq_false; intros ->; vm_compute in Hc; intuition congruence.
Qed.

(** A line of the file: the name, padded, and the sixteen counters. *)
Definition net_dev_entry_text (e : nat * text * list Z) : text :=
  let '(padding, name, vs) := e in
  (repeat " "%char padding ++ name) ++ ":"%char :: concat (cons " "%char <$> (to_decimal <$> vs)).

Definition net_dev_header : list text := [
  lit "Inter-|   Receive                                                |  Transmit";
  lit " face |bytes    packets errs drop fifo frame compressed multicast|bytes    packets errs drop fifo colls carrier compressed"].

Definition net_dev_text (entries : list (nat * text * list Z)) : text :=
  concat ((fun l => l ++ [ch_lf]) <$> (net_dev_header ++ (net_dev_entry_text <$> entries))).

(** A name the kernel may print: UTF-8 without blanks or line feeds, colons
    allowed. *)
Definition valid_entry (e : nat * text * list Z) : Prop :=
  let '(_, name, vs) := e in
  name <> [] /\ Forall (fun c => net_blank c = false /\ c <> ch_lf) name /\
  is_valid_utf8 name = true /\ length vs = 16%nat /\ Forall (fun v => 0 <= v <= uint64_max) vs.

Section statistics_text.
Context {W : Type} `{Kernel W} `{InterfaceApi W}.
Context (index : text -> Z) (index_of_index : forall name w, index_of name w = (Value (index name), w)).

Definition entry_record (e : nat * text * list Z) : statistics_record :=
  let '(_, name, vs) := e in record_of_fields name (index name) vs.

Lemma interface_name_padded padding name :
  Forall (fun c => net_blank c = false) name ->
  interface_name (repeat " "%char padding ++ name) = name.
Proof.
  intros Hn. unfold interface_name. rewrite drop_front_app.
  - rewrite (drop_front_id name_front).
    + apply drop_back_id. intros c Hc. rewrite last_lookup in Hc.
      apply list_elem_of_lookup_2 in Hc. rewrite Forall_forall in Hn. by apply Hn.
    + intros c Hc. apply list_elem_of_lookup_2 in Hc. rewrite Forall_forall in Hn.
      apply Hn in Hc. unfold net_blank in Hc. unfold name_front. by apply orb_false_iff in Hc as [Hc _].
  - apply Forall_forall. intros c Hc. by apply list_elem_of_In, repeat_spec in Hc as ->.
Qed.

Lemma counters_no_char vs c :
  Forall (fun v => 0 <= v <= uint64_max) vs -> ~ (48 <= code c <= 57) -> c <> " "%char ->
  c ∉ concat (cons " "%char <$> (to_decimal <$> vs)).
Proof.
  intros Hv Hc Hs. induction Hv as [|v vs Hv _ IH]; csimpl; [apply not_elem_of_nil|].
  rewrite elem_of_cons, elem_of_app. intros [?|[Hd|?]]; [done| |done].
  revert Hd. apply not_in_digits; [apply to_decimal_Forall; lia|done].
Qed.

Lemma net_dev_entry e w :
  valid_entry e -> net_dev_line (net_dev_entry_text e) w = (Value (Some (entry_record e)), w).
Proof.
  destruct e as [[padding name] vs]. intros (Hne & Hn & Hu & Hl & Hv).
  unfold net_dev_line, net_dev_entry_text.
  destruct (rfind_app_parts ":" (repeat " "%char padding ++ name)
    (concat (cons " "%char <$> (to_decimal <$> vs)))) as (-> & -> & ->).
  { apply counters_no_char; [done| |done]. vm_compute. intuition congruence. }
  rewrite interface_name_padded by (eapply Forall_impl; [exact Hn|]; by intros c []).
  rewrite (proj2 (empty_false _) Hne), Hu, net_counters_text by done.
  unfold mbind, query_bind, pure. simpl. by rewrite index_of_index.
Qed.

Lemma net_dev_entries entries records w :
  Forall valid_entry entries ->
  fold_steps net_dev_step (net_dev_entry_text <$> entries) (records, w) =
  Next (records ++ (entry_record <$> entries), w).
Proof.
  intros He. revert records. induction He as [|e entries He _ IH]; intros records; csimpl.
  - by rewrite app_nil_r.
  - rewrite net_dev_entry by done. rewrite IH. by rewrite <- app_assoc.
Qed.

Lemma entry_no_newline e : valid_entry e -> ch_lf ∉ net_dev_entry_text e.
Proof.
  destruct e as [[padding name] vs]. intros (_ & Hn & _ & _ & Hv). unfold net_dev_entry_text.
  rewrite !elem_of_app, elem_of_cons. intros [[Hp|Hin]|[?|Hin]]; [| |done|].
  - apply list_elem_of_In, repeat_spec in Hp. discriminate Hp.
  - rewrite Forall_forall in Hn. by apply Hn in Hin as [_ ?].
  - revert Hin. apply counters_no_char; [done| |done]. vm_compute. intuition congruence.
Qed.

(** The statistics file the kernel prints parses to one record per
    interface, in order, each counter from its documented column; interface
    names may contain colons. *)
Theorem parse_proc_net_dev_text (entries : list (nat * text * list Z)) (w : W) :
  Forall valid_entry entries ->
  parse_proc_net_dev (net_dev_text entries) w = (Value (entry_record <$> entries), w).
Proof.
  intros He. unfold parse_proc_net_dev, net_dev_text. rewrite each_field_fields.
  rewrite <- (app_nil_r (concat _)), fields_concat.
  - rewrite app_nil_r. change (fields ch_lf []) with (@nil text).
    rewrite fold_steps_app.
    assert (fold_steps net_dev_step net_dev_header ([], w) = Next ([], w)) as -> by done.
    by rewrite net_dev_entries.
  - apply Forall_app. split; [repeat constructor; by_compute|].
    apply Forall_fmap. eapply Forall_impl; [exact He|]. apply entry_no_newline.
Qed.

End statistics_text.

Lemma parse_proc_net_dev_text_witness :
  let entries := [(4%nat, lit "lo", seqZ 1 16); (0%nat, lit "eth0:1", seqZ 100 16)] in
  @parse_proc_net_dev unit constant_api (net_dev_text entries) tt =
    (Value (entry_record (fun _ => 1) <$> entries), tt) /\
  tx_bytes (entry_record (fun _ => 1) (4%nat, lit "lo", seqZ 1 16)) = 9.
Proof.
  intros entries. split; [|reflexivity].
  apply (@parse_proc_net_dev_text unit constant_api (fun _ => 1) (fun name w => eq_refl)).
  subst entries. repeat constructor; try (by_compute || discriminate);
    vm_compute; repeat constructor; discriminate.
Defined.
