(* ===== verification/NetworkRoutes.v ===== *)
(** * The routing table over netlink

    [include/syscape/detail/network/routes_linux.hpp]: the parser of the
    netlink datagrams that dump the routing table.  The received buffer is a
    list of bytes and a pointer an index into it; a [memcpy] outside the buffer
    and a loop that runs out of fuel have no result, so that a result means
    that every access was inside the buffer and that every loop ended. *)
From S2P Require Import Prelude Result CppText System Buffer Network.

(** ** Linux structures

    Sizes and layouts of the Linux UAPI: [struct rtattr { u16 rta_len, rta_type; }],
    [struct rtnexthop { u16 rtnh_len; u8 flags, hops; int rtnh_ifindex; }],
    [struct rtmsg { u8 family, dst_len, src_len, tos, table, protocol, scope, type;
    u32 flags; }], [struct nlmsghdr { u32 len; u16 type, flags; u32 seq, pid; }] and
    [struct nlmsgerr { int error; struct nlmsghdr msg; }]. *)

Definition AF_INET : Z := 2.
Definition AF_INET6 : Z := 10.
Definition RTA_DST : Z := 1.
Definition RTA_OIF : Z := 4.
Definition RTA_GATEWAY : Z := 5.
Definition RTA_PRIORITY : Z := 6.
Definition RTA_MULTIPATH : Z := 9.
Definition RTA_VIA : Z := 18.
Definition linux_rta_nh_id : Z := 30.
Definition RTN_UNICAST : Z := 1.
Definition NLMSG_ERROR : Z := 2.
Definition NLMSG_DONE : Z := 3.
Definition NLMSG_OVERRUN : Z := 4.
Definition RTM_NEWROUTE : Z := 24.
Definition NLM_F_DUMP_INTR : Z := 16.

Definition sizeof_rtattr : nat := 4.
Definition sizeof_rtnexthop : nat := 8.
Definition sizeof_rtmsg : nat := 12.
Definition sizeof_nlmsghdr : nat := 16.
Definition sizeof_nlmsgerr : nat := 20.

Section routes.

(** The byte order of the machine. *)
Variable big_endian : bool.

Definition uint_of (bytes : list Z) : Z :=
  if big_endian then be_value bytes else be_value (reverse bytes).

(** A 32-bit [int]. *)
Definition int_of (bytes : list Z) : Z :=
  let v := uint_of bytes in if v <? 2 ^ 31 then v else v - 2 ^ 32.

(** A member of [count] bytes at [offset] of a copied structure. *)
Definition member (bytes : list Z) (offset count : nat) : list Z := take count (drop offset bytes).

(** [(value + 3U) & ~std::size_t(3U)] on a 64-bit [size_t]. *)
Definition netlink_align (value : nat) : nat :=
  Z.to_nat (Z.land (wrap 64 (Z.of_nat value + 3)) (wrap 64 (-4))).

(** ** Addresses *)

Definition netlink_address (family : Z) (memory : list Z) (data size : nat)
    : checked ip_address_record :=
  if family =? AF_INET then
    if negb (size =? 4)%nat then check (fail errc_malformed_data)
    else bytes ← load memory data 4; mret (Ip_address_record ipv4 (bytes ++ repeat 0 12) 0)
  else if family =? AF_INET6 then
    if negb (size =? 16)%nat then check (fail errc_malformed_data)
    else bytes ← load memory data 16; mret (Ip_address_record ipv6 bytes 0)
  else check (fail errc_not_supported).

(** ** Attributes *)

Record linux_route_attributes := Linux_route_attributes {
  ra_destination : option ip_address_record;
  ra_gateway : option ip_address_record;
  ra_interface_index : option Z;
  ra_metric : option Z;
  ra_has_nexthop_id : bool;
  ra_multipath : option nat;
  ra_multipath_size : nat
}.

Definition no_attributes : linux_route_attributes :=
  Linux_route_attributes None None None None false None 0.

(** [if (payload_size != sizeof(std::uint32_t)) ...; memcpy] *)
Definition load_uint32 (memory : list Z) (payload payload_size : nat) : checked Z :=
  if negb (payload_size =? 4)%nat then check (fail errc_malformed_data)
  else bytes ← load memory payload 4; mret (uint_of bytes).

(** The chain of tests on [rta_type]. *)
Definition parse_attribute (family : Z) (memory : list Z) (type : Z) (payload payload_size : nat)
    (parsed : linux_route_attributes) : checked linux_route_attributes :=
  let '(Linux_route_attributes dst gw oif prio nh mp mps) := parsed in
  if type =? RTA_DST then
    address ← netlink_address family memory payload payload_size;
    mret (Linux_route_attributes (Some address) gw oif prio nh mp mps)
  else if type =? RTA_GATEWAY then
    address ← netlink_address family memory payload payload_size;
    mret (Linux_route_attributes dst (Some address) oif prio nh mp mps)
  else if type =? RTA_OIF then
    v ← load_uint32 memory payload payload_size;
    mret (Linux_route_attributes dst gw (Some v) prio nh mp mps)
  else if type =? RTA_PRIORITY then
    v ← load_uint32 memory payload payload_size;
    mret (Linux_route_attributes dst gw oif (Some v) nh mp mps)
  else if type =? RTA_MULTIPATH then
    mret (Linux_route_attributes dst gw oif prio nh (Some payload) payload_size)
  else if type =? linux_rta_nh_id then
    v ← load_uint32 memory payload payload_size;
    check (reject (v =? 0) errc_malformed_data);;
    mret (Linux_route_attributes dst gw oif prio true mp mps)
  else if type =? RTA_VIA then check (fail errc_not_supported)
  else mret parsed.

(** The loop over the attributes of [size] bytes at [data]. *)
Fixpoint attributes_loop (fuel : nat) (family : Z) (memory : list Z) (data size offset : nat)
    (parsed : linux_route_attributes) : checked linux_route_attributes :=
  match fuel with
  | O => None
  | S fuel =>
      if (offset <? size)%nat then
        if (size - offset <? sizeof_rtattr)%nat then check (fail errc_malformed_data)
        else
          attribute ← load memory (data + offset) sizeof_rtattr;
          let length := Z.to_nat (uint_of (member attribute 0 2)) in
          if (length <? sizeof_rtattr)%nat || (size - offset <? length)%nat
          then check (fail errc_malformed_data)
          else
            parsed ← parse_attribute family memory (uint_of (member attribute 2 2))
              (data + offset + sizeof_rtattr) (length - sizeof_rtattr) parsed;
            let advance := netlink_align length in
            if (advance <? length)%nat || (size - offset <? advance)%nat
            then check (fail errc_malformed_data)
            else attributes_loop fuel family memory data size (offset + advance) parsed
      else mret parsed
  end.

Definition parse_route_attributes (family : Z) (memory : list Z) (data size : nat)
    : checked linux_route_attributes :=
  attributes_loop (S size) family memory data size 0 no_attributes.

(** ** Routes *)

Definition ipv6_link_local (address : ip_address_record) : bool :=
  bool_decide (ip_family address = ipv6) && (nth 0 (ip_value address) 0 =? 0xFE) &&
  (Z.land (nth 1 (ip_value address) 0) 0xC0 =? 0x80).

Definition family_of (family : Z) : address_family := if family =? AF_INET then ipv4 else ipv6.

Definition make_linux_route (family prefix_length : Z) (attributes : linux_route_attributes)
    (interface_index : Z) (gateway : option ip_address_record) : route_record :=
  Route_record
    (match ra_destination attributes with
     | Some destination => destination
     | None => Ip_address_record (family_of family) (repeat 0 16) 0
     end)
    prefix_length
    ((fun g => if ipv6_link_local g
               then Ip_address_record (ip_family g) (ip_value g) interface_index else g) <$> gateway)
    interface_index (ra_metric attributes).

Fixpoint multipath_loop (fuel : nat) (family prefix_length : Z) (memory : list Z)
    (attributes : linux_route_attributes) (multipath offset : nat) (routes : list route_record)
    : checked (list route_record) :=
  match fuel with
  | O => None
  | S fuel =>
      let size := ra_multipath_size attributes in
      if (offset <? size)%nat then
        if (size - offset <? sizeof_rtnexthop)%nat then check (fail errc_malformed_data)
        else
          hop ← load memory (multipath + offset) sizeof_rtnexthop;
          let length := Z.to_nat (uint_of (member hop 0 2)) in
          let ifindex := int_of (member hop 4 4) in
          if (length <? sizeof_rtnexthop)%nat || (size - offset <? length)%nat || (ifindex <=? 0)
          then check (fail errc_malformed_data)
          else
            nested ← parse_route_attributes family memory (multipath + offset + sizeof_rtnexthop)
              (length - sizeof_rtnexthop);
            let route := make_linux_route family prefix_length attributes (wrap 32 ifindex)
              (ra_gateway nested) in
            let advance := netlink_align length in
            if (advance <? length)%nat || (size - offset <? advance)%nat
            then check (fail errc_malformed_data)
            else multipath_loop fuel family prefix_length memory attributes multipath
                   (offset + advance) (routes ++ [route])
      else mret routes
  end.

Definition append_linux_multipath_routes (family prefix_length : Z) (memory : list Z)
    (attributes : linux_route_attributes) (multipath : nat) (routes : list route_record)
    : checked (list route_record) :=
  if (ra_multipath_size attributes =? 0)%nat then check (fail errc_malformed_data)
  else multipath_loop (S (ra_multipath_size attributes)) family prefix_length memory attributes
         multipath 0 routes.

Definition append_linux_route_message (memory : list Z) (data size : nat)
    (routes : list route_record) : checked (list route_record) :=
  if (size <? sizeof_rtmsg)%nat then check (fail errc_malformed_data)
  else
    message ← load memory data sizeof_rtmsg;
    let family := uint_of (member message 0 1) in
    let dst_len := uint_of (member message 1 1) in
    let type := uint_of (member message 7 1) in
    if negb (family =? AF_INET) && negb (family =? AF_INET6) then mret routes
    else if negb (type =? RTN_UNICAST) then mret routes
    else if maximum_prefix_length (family_of family) <? dst_len
    then check (fail errc_malformed_data)
    else
      let attribute_offset := netlink_align sizeof_rtmsg in
      if (size <? attribute_offset)%nat then check (fail errc_malformed_data)
      else
        attributes ← parse_route_attributes family memory (data + attribute_offset)
          (size - attribute_offset);
        check (reject (negb (dst_len =? 0) && bool_decide (ra_destination attributes = None))
          errc_malformed_data);;
        match ra_multipath attributes with
        | Some multipath =>
            append_linux_multipath_routes family dst_len memory attributes multipath routes
        | None =>
            match ra_interface_index attributes with
            | Some index =>
                if index =? 0 then
                  check (if ra_has_nexthop_id attributes then fail errc_not_supported
                         else fail errc_malformed_data)
                else
                  mret (routes ++ [make_linux_route family dst_len attributes index
                                     (ra_gateway attributes)])
            | None =>
                check (if ra_has_nexthop_id attributes then fail errc_not_supported
                       else fail errc_malformed_data)
            end
        end.

(** ** Datagrams *)

Record linux_route_dump_state := Linux_route_dump_state {
  dump_routes : list route_record;
  complete : bool
}.

(** The message of one header, after the tests on the header.  The negation of
    an error is that of an [int]; the kernel sends negative [errno] values, for
    which it does not overflow. *)
Definition dump_message (memory : list Z) (type : Z) (payload payload_size : nat)
    (state : linux_route_dump_state) : checked linux_route_dump_state :=
  if type =? NLMSG_DONE then mret (Linux_route_dump_state (dump_routes state) true)
  else if type =? NLMSG_ERROR then
    if (payload_size <? sizeof_nlmsgerr)%nat then check (fail errc_malformed_data)
    else
      error ← load memory payload sizeof_nlmsgerr;
      let native := int_of (member error 0 4) in
      if negb (native =? 0) then check (fail_native (if native <? 0 then - native else native)) else mret state
  else if type =? RTM_NEWROUTE then
    routes ← append_linux_route_message memory payload payload_size (dump_routes state);
    mret (Linux_route_dump_state routes (complete state))
  else if type =? NLMSG_OVERRUN then check (fail errc_temporarily_unavailable)
  else mret state.

Fixpoint datagram_loop (fuel : nat) (memory : list Z) (size : nat) (sequence : Z) (offset : nat)
    (state : linux_route_dump_state) : checked linux_route_dump_state :=
  match fuel with
  | O => None
  | S fuel =>
      if (offset <? size)%nat then
        if (size - offset <? sizeof_nlmsghdr)%nat then check (fail errc_malformed_data)
        else
          header ← load memory offset sizeof_nlmsghdr;
          let length := Z.to_nat (uint_of (member header 0 4)) in
          if (length <? sizeof_nlmsghdr)%nat || (size - offset <? length)%nat ||
             negb (uint_of (member header 8 4) =? sequence)
          then check (fail errc_malformed_data)
          else if negb (Z.land (uint_of (member header 6 2)) NLM_F_DUMP_INTR =? 0)
          then check (fail errc_temporarily_unavailable)
          else
            state ← dump_message memory (uint_of (member header 4 2))
              (offset + sizeof_nlmsghdr) (length - sizeof_nlmsghdr) state;
            let advance := netlink_align length in
            if (advance <? length)%nat || (size - offset <? advance)%nat
            then check (fail errc_malformed_data)
            else datagram_loop fuel memory size sequence (offset + advance) state
      else mret state
  end.

Definition parse_linux_route_datagram (memory : list Z) (size : nat) (sequence : Z)
    (state : linux_route_dump_state) : checked linux_route_dump_state :=
  datagram_loop (S size) memory size sequence 0 state.

(** The receive loop of [routes]: the outcomes of [recvmsg] that follow one
    another, interruptions left out: an [errno], or the bytes with the
    truncation flag and the sender's port. *)
Inductive received :=
  | Receive_error (errno : Z)
  | Received (bytes : list Z) (truncated : bool) (sender : Z).

Fixpoint receive_loop (messages : list received) (state : linux_route_dump_state)
    : checked (list route_record) :=
  if complete state then mret (dump_routes state)
  else
    match messages with
    | [] => None
    | Receive_error errno :: _ => check (fail_native errno)
    | Received bytes truncated sender :: messages =>
        if (length bytes =? 0)%nat then check (fail errc_temporarily_unavailable)
        else if truncated || negb (sender =? 0) then check (fail errc_malformed_data)
        else
          state ← parse_linux_route_datagram bytes (length bytes) 1 state;
          receive_loop messages state
    end.

End routes.

(** ** Safety: no access outside the buffer, no endless loop *)

Lemma netlink_align_bounds n :
  Z.of_nat n < 2 ^ 63 -> (n <= netlink_align n < n + 4)%nat /\ (netlink_align n mod 4 = 0)%nat.
Proof.
  intros Hn. unfold netlink_align.
  assert (Z.land (wrap 64 (Z.of_nat n + 3)) (wrap 64 (-4)) = 4 * ((Z.of_nat n + 3) / 4)) as ->.
  { unfold wrap. rewrite (Z.mod_small (Z.of_nat n + 3)) by lia.
    change ((-4) mod 2 ^ 64) with (Z.shiftl (Z.ones 62) 2).
    apply Z.bits_inj'. intros i Hi. rewrite Z.land_spec, Z.shiftl_spec by done.
    rewrite (Z.mul_comm 4). change 4 with (2 ^ 2). rewrite <- Z.shiftl_mul_pow2, <- Z.shiftr_div_pow2 by lia.
    rewrite Z.shiftl_spec by done. destruct (Z.ltb_spec i 2).
    - rewrite !(Z.testbit_neg_r _ (i - 2)) by lia. apply andb_false_r.
    - rewrite Z.shiftr_spec by lia. replace (i - 2 + 2) with i by lia.
      destruct (Z.ltb_spec (i - 2) 62).
      + rewrite Z.ones_spec_low by lia. apply andb_true_r.
      + rewrite (testbit_high _ 64) by lia. done. }
  split.
  - pose proof (Z.mul_div_le (Z.of_nat n + 3) 4 ltac:(lia)).
    pose proof (Z.mul_succ_div_gt (Z.of_nat n + 3) 4 ltac:(lia)). lia.
  - apply Nat2Z.inj. rewrite Nat2Z.inj_mod, Z2Nat.id by (apply Z.mul_nonneg_nonneg; [lia|apply Z.div_pos; lia]).
    rewrite Z.mul_comm. apply Z.mod_mul. lia.
Qed.

(** An address of the family, with the bytes the records promise. *)
Definition address_for (family : Z) (a : ip_address_record) : Prop :=
  ip_family a = family_of family /\ ip_address_ok a /\ ip_scope_id a = 0 /\
  length (ip_value a) = 16%nat /\ Forall is_byte (ip_value a).

Lemma netlink_address_ensures family memory data size :
  (data + size <= length memory)%nat -> Forall is_byte memory ->
  ensures (netlink_address family memory data size) (address_for family).
Proof.
  intros H Hbytes. unfold netlink_address, address_for, family_of.
  destruct (Z.eqb_spec family AF_INET) as [->|Hne].
  - destruct (Nat.eqb_spec size 4) as [->|]; [|apply ensures_fail].
    eapply ensures_bind; [by apply ensures_load|]. intros bytes [Hl Hb]. simpl. split_and!; try done.
    + unfold ip_address_ok. simpl. intros _. split; [done|].
      rewrite drop_app_ge by lia. rewrite Hl. simpl. by repeat constructor.
    + rewrite length_app, Hl. done.
    + apply Forall_app. split; [done|]. unfold is_byte. by repeat constructor.
  - destruct (family =? AF_INET6); [|apply ensures_fail].
    destruct (Nat.eqb_spec size 16) as [->|]; [|apply ensures_fail].
    eapply ensures_bind; [by apply ensures_load|]. intros bytes [Hl Hb]. simpl. by split_and!.
Qed.

Lemma load_uint32_ensures be memory payload size :
  (payload + size <= length memory)%nat -> Forall is_byte memory ->
  ensures (load_uint32 be memory payload size) (fun _ => True).
Proof.
  intros H Hb. unfold load_uint32. destruct (Nat.eqb_spec size 4) as [->|]; [|apply ensures_fail].
  eapply ensures_bind; [by apply ensures_load|]. done.
Qed.

(** What the attributes of a message promise: addresses of its family and a
    multipath payload inside the buffer. *)
Definition attributes_ok (family : Z) (memory : list Z) (a : linux_route_attributes) : Prop :=
  (forall d, ra_destination a = Some d -> address_for family d) /\
  (forall g, ra_gateway a = Some g -> address_for family g) /\
  (forall m, ra_multipath a = Some m -> (m + ra_multipath_size a <= length memory)%nat).

Section safety.
Variable big_endian : bool.
Variable memory : list Z.
Hypothesis memory_bytes : Forall is_byte memory.
Hypothesis memory_size : Z.of_nat (length memory) < 2 ^ 63.

Lemma uint_of_bound bytes offset count :
  Forall is_byte bytes ->
  0 <= uint_of big_endian (member bytes offset count) < 2 ^ (8 * Z.of_nat count).
Proof.
  intros Hb. unfold uint_of.
  assert (Forall is_byte (member bytes offset count)) as Hm by (by apply Forall_take, Forall_drop).
  assert (length (member bytes offset count) <= count)%nat as Hl
    by (unfold member; rewrite length_take; lia).
  assert (2 ^ (8 * Z.of_nat (length (member bytes offset count))) <= 2 ^ (8 * Z.of_nat count))
    by (apply Z.pow_le_mono_r; lia).
  destruct big_endian.
  - pose proof (be_value_bound _ Hm). lia.
  - pose proof (be_value_bound (reverse (member bytes offset count))) as Hr.
    rewrite length_reverse in Hr. specialize (Hr ltac:(by apply Forall_reverse)). lia.
Qed.

Lemma parse_attribute_ensures family type payload size parsed :
  (payload + size <= length memory)%nat -> attributes_ok family memory parsed ->
  ensures (parse_attribute big_endian family memory type payload size parsed)
    (attributes_ok family memory).
Proof.
  intros H (Hd & Hg & Hm). unfold parse_attribute.
  destruct parsed as [dst gw oif prio nh mp mps]. cbn in Hd, Hg, Hm.
  destruct (type =? RTA_DST).
  { eapply ensures_bind; [by apply netlink_address_ensures|]. intros a Ha.
    split; [by intros d [= <-]|]. by split. }
  destruct (type =? RTA_GATEWAY).
  { eapply ensures_bind; [by apply netlink_address_ensures|]. intros a Ha.
    split; [done|]. split; [by intros d [= <-]|done]. }
  destruct (type =? RTA_OIF).
  { eapply ensures_bind; [by apply load_uint32_ensures|]. by intros v _. }
  destruct (type =? RTA_PRIORITY).
  { eapply ensures_bind; [by apply load_uint32_ensures|]. by intros v _. }
  destruct (type =? RTA_MULTIPATH).
  { split; [done|]. split; [done|]. cbn. by intros m [= <-]. }
  destruct (type =? linux_rta_nh_id).
  { eapply ensures_bind; [by apply load_uint32_ensures|]. intros v _. by destruct (v =? 0). }
  destruct (type =? RTA_VIA); [apply ensures_fail|]. done.
Qed.

(** The common part of the three loops: an element of [length] bytes, checked
    against what is left, advances the offset within the data. *)
Lemma advance_bounds length size offset :
  Z.of_nat size < 2 ^ 63 -> (1 <= length)%nat -> (size - offset <? length)%nat = false ->
  (offset < size)%nat ->
  (length <= size - offset)%nat /\
  ((netlink_align length <? length)%nat || (size - offset <? netlink_align length)%nat = false ->
   (offset < offset + netlink_align length <= size)%nat).
Proof.
  intros Hs Hl H%Nat.ltb_ge Ho. split; [done|].
  intros [_ H2%Nat.ltb_ge]%orb_false_iff.
  pose proof (netlink_align_bounds length ltac:(lia)). lia.
Qed.

Lemma attributes_loop_ensures fuel family data size offset parsed :
  (data + size <= length memory)%nat ->
  (offset <= size)%nat -> (size - offset < fuel)%nat -> attributes_ok family memory parsed ->
  ensures (attributes_loop big_endian fuel family memory data size offset parsed)
    (attributes_ok family memory).
Proof.
  intros Hdata. revert offset parsed.
  induction fuel as [|fuel IH]; intros offset parsed Ho Hf Hok; [lia|]. cbn [attributes_loop].
  destruct (Nat.ltb_spec offset size) as [Hlt|]; [|done].
  unfold sizeof_rtattr. destruct (Nat.ltb_spec (size - offset) 4); [apply ensures_fail|].
  eapply ensures_bind; [by apply ensures_load; [lia|]|]. intros attribute _. cbv zeta.
  set (len := Z.to_nat _).
  destruct ((len <? 4)%nat || (size - offset <? len)%nat) eqn:E; [apply ensures_fail|].
  apply orb_false_iff in E as [E1%Nat.ltb_ge E2].
  destruct (advance_bounds len size offset) as [Hle Hadv]; [lia|lia|done|done|].
  eapply ensures_bind; [by apply parse_attribute_ensures; [lia|]|]. intros parsed' Hok'.
  destruct (_ || _) eqn:E3; [apply ensures_fail|]. specialize (Hadv eq_refl).
  apply IH; [lia|lia|done].
Qed.

Lemma parse_route_attributes_ensures family data size :
  (data + size <= length memory)%nat ->
  ensures (parse_route_attributes big_endian family memory data size) (attributes_ok family memory).
Proof. intros. apply attributes_loop_ensures; [done|lia|lia|]. by split_and!. Qed.

(** What every route of a dump satisfies. *)
Definition dumped_route (r : route_record) : Prop :=
  ip_address_ok (destination r) /\ address_typed (destination r) /\ interface_index r <> 0 /\
  0 <= prefix_length r <= maximum_prefix_length (ip_family (destination r)) /\
  match next_hop r with
  | Some hop => ip_address_ok hop /\ ip_family hop = ip_family (destination r)
  | None => True
  end.

Lemma make_linux_route_ok family prefix attributes index gateway :
  attributes_ok family memory attributes -> index <> 0 ->
  (forall g, gateway = Some g -> address_for family g) ->
  0 <= prefix <= maximum_prefix_length (family_of family) ->
  dumped_route (make_linux_route family prefix attributes index gateway).
Proof.
  intros (Hd & _ & _) Hi Hg Hp. unfold dumped_route, make_linux_route.
  cbn [destination interface_index prefix_length next_hop].
  assert (exists d, match ra_destination attributes with
     | Some destination => destination
     | None => Ip_address_record (family_of family) (repeat 0 16) 0 end = d /\
     ip_address_ok d /\ address_typed d /\ ip_family d = family_of family)
    as (d & -> & Hdok & Htyped & ->).
  { eexists. split; [done|]. destruct (ra_destination attributes) as [d|].
    - by destruct (Hd d eq_refl) as (? & ? & _ & ?).
    - split_and!; [|split|done]; [intros _; split; [done|]; by repeat constructor|done|].
      unfold is_byte. by repeat constructor. }
  split_and!; try done; try lia. destruct gateway as [g|]; [|done]. simpl.
  destruct (Hg g eq_refl) as (Hf & Hok & _). unfold ipv6_link_local.
  destruct (bool_decide (ip_family g = ipv6)) eqn:E; simpl; [|done].
  destruct (_ && _); [|done]. apply bool_decide_eq_true in E.
  split; [|done]. intros ?. simpl in *. congruence.
Qed.

Lemma multipath_loop_ensures fuel family prefix attributes multipath offset routes :
  (multipath + ra_multipath_size attributes <= length memory)%nat ->
  0 <= prefix <= maximum_prefix_length (family_of family) -> attributes_ok family memory attributes ->
  (offset <= ra_multipath_size attributes)%nat -> (ra_multipath_size attributes - offset < fuel)%nat ->
  Forall dumped_route routes ->
  ensures (multipath_loop big_endian fuel family prefix memory attributes multipath offset routes)
    (Forall dumped_route).
Proof.
  intros Hdata Hp Hattr. revert offset routes.
  induction fuel as [|fuel IH]; intros offset routes Ho Hf Hok; [lia|]. cbn [multipath_loop].
  set (size := ra_multipath_size attributes) in *.
  destruct (Nat.ltb_spec offset size) as [Hlt|]; [|done]. unfold sizeof_rtnexthop.
  destruct (Nat.ltb_spec (size - offset) 8); [apply ensures_fail|].
  eapply ensures_bind; [by apply ensures_load; [lia|]|]. intros hop [_ Hhop]. cbv zeta.
  set (len := Z.to_nat _). set (ifindex := int_of _ _).
  destruct ((len <? 8)%nat || (size - offset <? len)%nat || (ifindex <=? 0)) eqn:E; [apply ensures_fail|].
  apply orb_false_iff in E as [[E1%Nat.ltb_ge E2]%orb_false_iff E3%Z.leb_gt].
  destruct (advance_bounds len size offset) as [Hle Hadv]; [lia|lia|done|done|].
  eapply ensures_bind; [apply parse_route_attributes_ensures; lia|]. intros nested (_ & Hg & _).
  destruct (_ || _) eqn:E4; [apply ensures_fail|]. specialize (Hadv eq_refl).
  apply IH; [lia|lia|]. apply Forall_app. split; [done|]. constructor; [|constructor].
  apply make_linux_route_ok; [done| |done|done].
  pose proof (uint_of_bound hop 4 4 Hhop) as Hb. subst ifindex. unfold int_of in *.
  change (2 ^ (8 * Z.of_nat 4)) with (2 ^ 32) in Hb.
  destruct (Z.ltb_spec (uint_of big_endian (member hop 4 4)) (2 ^ 31)); [|lia].
  unfold wrap. rewrite Z.mod_small by lia. lia.
Qed.

Lemma append_message_ensures data size routes :
  (data + size <= length memory)%nat -> Forall dumped_route routes ->
  ensures (append_linux_route_message big_endian memory data size routes) (Forall dumped_route).
Proof.
  intros Hdata Hok. unfold append_linux_route_message, sizeof_rtmsg.
  destruct (Nat.ltb_spec size 12); [apply ensures_fail|].
  eapply ensures_bind; [by apply ensures_load; [lia|]|]. intros message [_ Hm]. cbv zeta.
  set (family := uint_of _ (member message 0 1)). set (dst_len := uint_of _ (member message 1 1)).
  pose proof (uint_of_bound message 1 1 Hm) as [Hd _]. fold dst_len in Hd.
  destruct (negb (family =? AF_INET) && negb (family =? AF_INET6)); [done|].
  destruct (negb (_ =? RTN_UNICAST)); [done|].
  destruct (Z.ltb_spec (maximum_prefix_length (family_of family)) dst_len); [apply ensures_fail|].
  change (netlink_align 12) with 12%nat. rewrite (proj2 (Nat.ltb_ge _ _)) by done.
  eapply ensures_bind; [apply parse_route_attributes_ensures; lia|]. intros attributes Ha.
  apply (ensures_bind _ _ (fun _ => True)); [by apply ensures_check|]. intros [] _. pose proof Ha as (_ & Hg & Hmp).
  destruct (ra_multipath attributes) as [multipath|].
  - unfold append_linux_multipath_routes. destruct (_ =? 0)%nat; [apply ensures_fail|].
    apply multipath_loop_ensures; try done; try lia. by apply Hmp.
  - destruct (ra_interface_index attributes) as [index|];
      [|by destruct (ra_has_nexthop_id attributes)].
    destruct (Z.eqb_spec index 0); [by destruct (ra_has_nexthop_id attributes)|].
    apply Forall_app. split; [done|]. constructor; [|constructor].
    by apply make_linux_route_ok.
Qed.

Definition dumped_state (s : linux_route_dump_state) : Prop := Forall dumped_route (dump_routes s).

Lemma dump_message_ensures type payload size state :
  (payload + size <= length memory)%nat -> dumped_state state ->
  ensures (dump_message big_endian memory type payload size state) dumped_state.
Proof.
  intros Hp Hok. unfold dump_message, sizeof_nlmsgerr. destruct (type =? NLMSG_DONE); [done|].
  destruct (type =? NLMSG_ERROR).
  { destruct (Nat.ltb_spec size 20); [apply ensures_fail|].
    eapply ensures_bind; [by apply ensures_load; [lia|]|]. intros error _. cbv zeta.
    by destruct (negb _). }
  destruct (type =? RTM_NEWROUTE).
  { eapply ensures_bind; [by apply append_message_ensures|]. done. }
  by destruct (type =? NLMSG_OVERRUN).
Qed.

Lemma datagram_loop_ensures fuel sequence offset state :
  (offset <= length memory)%nat -> (length memory - offset < fuel)%nat -> dumped_state state ->
  ensures (datagram_loop big_endian fuel memory (length memory) sequence offset state) dumped_state.
Proof.
  revert offset state. induction fuel as [|fuel IH]; intros offset state Ho Hf Hok; [lia|].
  cbn [datagram_loop]. destruct (Nat.ltb_spec offset (length memory)) as [Hlt|]; [|done].
  unfold sizeof_nlmsghdr. destruct (Nat.ltb_spec (length memory - offset) 16); [apply ensures_fail|].
  eapply ensures_bind; [by apply ensures_load; [lia|]|]. intros header _. cbv zeta.
  set (len := Z.to_nat _).
  destruct (_ || _ || _) eqn:E; [apply ensures_fail|].
  apply orb_false_iff in E as [[E1%Nat.ltb_ge E2]%orb_false_iff _].
  destruct (negb _); [apply ensures_fail|].
  destruct (advance_bounds len (length memory) offset) as [Hle Hadv]; [done|lia|done|done|].
  eapply ensures_bind; [by apply dump_message_ensures; [lia|]|]. intros state' Hok'.
  destruct (_ || _) eqn:E3; [apply ensures_fail|]. specialize (Hadv eq_refl).
  by apply IH; [lia|lia|].
Qed.

End safety.

(** C8: whatever bytes the kernel sends, the datagram parser reads inside the
    received buffer only and all its loops end, so it has a result; and every
    route it collects has a positive interface index, a prefix within the
    width of its family, and a destination and next hop of the same,
    well-formed family. *)
Theorem route_datagram_safe (big_endian : bool) (memory : list Z) (sequence : Z)
    (state : linux_route_dump_state) :
  Forall is_byte memory -> Z.of_nat (length memory) < 2 ^ 63 -> dumped_state state ->
  exists r, parse_linux_route_datagram big_endian memory (length memory) sequence state = Some r /\
    forall state', r = Value state' -> Forall dumped_route (dump_routes state').
Proof.
  intros Hb Hs Hok.
  pose proof (datagram_loop_ensures big_endian memory Hb Hs (S (length memory)) sequence 0 state
    ltac:(lia) ltac:(lia) Hok) as H.
  unfold parse_linux_route_datagram, ensures in *. destruct (datagram_loop _ _ _ _ _ _ _) as [r|]; [|done].
  exists r. split; [done|]. by intros state' ->.
Qed.

(** A buffer that ends inside its second header, and one whose length field
    points past the end. *)
Lemma route_datagram_safe_witness :
  let noop := [16; 0; 0; 0; 1; 0; 0; 0; 1; 0; 0; 0; 0; 0; 0; 0] in
  let start := Linux_route_dump_state [] false in
  parse_linux_route_datagram false (noop ++ [7; 7]) 18 1 start = Some (fail errc_malformed_data) /\
  exists r, parse_linux_route_datagram false (noop ++ [7; 7]) 18 1 start = Some r /\
    forall state', r = Value state' -> Forall dumped_route (dump_routes state').
Proof.
  intros noop start. split; [vm_compute; reflexivity|].
  apply (route_datagram_safe false (noop ++ [7; 7]) 1 start).
  - unfold is_byte. repeat constructor; lia || discriminate.
  - vm_compute. reflexivity.
  - constructor.
Defined.
