(* ===== verification/NetworkRoutesFormat.v ===== *)
(** * What a routing dump means

    The netlink format the parser of [NetworkRoutes] reads, written as an
    encoder: the messages a kernel sends for a list of routes, with single and
    multiple next hops, attributes the parser does not know and padding.  The
    theorem at the end is the functional correctness of the parser on that
    format, through the receive loop; the encoder is a specification and models
    no code of the library. *)
From S2P Require Import Prelude Result CppText System Buffer Network NetworkRoutes.

(** ** Integers and padding *)

Fixpoint be_bytes (count : nat) (v : Z) : list Z :=
  match count with
  | O => []
  | S count => (v / 2 ^ (8 * Z.of_nat count)) mod 256 :: be_bytes count v
  end.

Section encoder.
Variable big_endian : bool.

Definition uint_bytes (count : nat) (v : Z) : list Z :=
  if big_endian then be_bytes count v else reverse (be_bytes count v).

(** An element whose header holds the length of the element without the
    padding that follows it. *)
Definition padded (bytes : list Z) : list Z :=
  bytes ++ repeat 0 (netlink_align (length bytes) - length bytes).

Definition encode_attribute (attribute : Z * list Z) : list Z :=
  padded (uint_bytes 2 (Z.of_nat (4 + length attribute.2)) ++ uint_bytes 2 attribute.1 ++ attribute.2).

Definition encode_attributes (attributes : list (Z * list Z)) : list Z :=
  attributes ≫= encode_attribute.

(** ** Routes *)

(** A next hop: the interface and the bytes of a gateway. *)
Record wire_hop := Wire_hop {
  hop_index : Z;
  hop_gateway : option (list Z)
}.

(** One message: a route with one next hop, or several under [RTA_MULTIPATH].
    [wire_others] are attributes of types the parser does not look at. *)
Record wire_route := Wire_route {
  wire_family : address_family;
  wire_prefix : Z;
  wire_destination : option (list Z);
  wire_metric : option Z;
  wire_others : list (Z * list Z);
  wire_hops : wire_hop + list wire_hop
}.

Definition family_number (family : address_family) : Z :=
  match family with ipv4 => AF_INET | ipv6 => AF_INET6 end.

Definition address_width (family : address_family) : nat :=
  match family with ipv4 => 4 | ipv6 => 16 end.

Definition optional_attribute (type : Z) (payload : option (list Z)) : list (Z * list Z) :=
  match payload with Some payload => [(type, payload)] | None => [] end.

Definition encode_hop (hop : wire_hop) : list Z :=
  let gateway := encode_attributes (optional_attribute RTA_GATEWAY (hop_gateway hop)) in
  padded (uint_bytes 2 (Z.of_nat (8 + length gateway)) ++ [0; 0] ++ uint_bytes 4 (hop_index hop) ++
          gateway).

Definition hop_attributes (hops : wire_hop + list wire_hop) : list (Z * list Z) :=
  match hops with
  | inl hop => optional_attribute RTA_GATEWAY (hop_gateway hop) ++
               [(RTA_OIF, uint_bytes 4 (hop_index hop))]
  | inr hops => [(RTA_MULTIPATH, hops ≫= encode_hop)]
  end.

Definition route_attributes (route : wire_route) : list (Z * list Z) :=
  wire_others route ++ optional_attribute RTA_DST (wire_destination route) ++
  optional_attribute RTA_PRIORITY (uint_bytes 4 <$> wire_metric route) ++
  hop_attributes (wire_hops route).

(** [struct rtmsg] and the attributes: the source length, the type of service,
    the table, the protocol, the scope and the flags can be anything. *)
Definition encode_route (header : list Z * Z) (route : wire_route) : list Z :=
  [family_number (wire_family route); wire_prefix route] ++ take 5 header.1 ++ [RTN_UNICAST] ++
  uint_bytes 4 header.2 ++ encode_attributes (route_attributes route).

(** ** Messages *)

Definition encode_message (type flags sequence port : Z) (payload : list Z) : list Z :=
  padded (uint_bytes 4 (Z.of_nat (16 + length payload)) ++ uint_bytes 2 type ++ uint_bytes 2 flags ++
          uint_bytes 4 sequence ++ uint_bytes 4 port ++ payload).

(** A message of a dump: a route with what its header says besides, or the end
    with its payload. *)
Inductive wire_message :=
  | Wire_new_route (flags port : Z) (header : list Z * Z) (route : wire_route)
  | Wire_done (flags port : Z) (payload : list Z).

Definition encode_wire_message (sequence : Z) (m : wire_message) : list Z :=
  match m with
  | Wire_new_route flags port header route =>
      encode_message RTM_NEWROUTE flags sequence port (encode_route header route)
  | Wire_done flags port payload => encode_message NLMSG_DONE flags sequence port payload
  end.

Definition encode_datagram (sequence : Z) (messages : list wire_message) : list Z :=
  messages ≫= encode_wire_message sequence.

(** ** Well-formed messages *)

Definition fits (w : Z) (v : Z) : bool := (0 <=? v) && (v <? 2 ^ w).

Definition bytes_of_width (width : nat) (bytes : list Z) : bool :=
  (length bytes =? width)%nat && forallb (fits 8) bytes.

Definition option_test {A} (test : A -> bool) (o : option A) : bool :=
  match o with Some v => test v | None => true end.

(** The types the parser acts on. *)
Definition known_attribute (type : Z) : bool :=
  existsb (Z.eqb type)
    [RTA_DST; RTA_GATEWAY; RTA_OIF; RTA_PRIORITY; RTA_MULTIPATH; linux_rta_nh_id; RTA_VIA].

Definition attribute_fits (attribute : Z * list Z) : bool :=
  fits 16 attribute.1 && fits 16 (Z.of_nat (4 + length attribute.2)).

Definition hop_fits (family : address_family) (width : Z) (hop : wire_hop) : bool :=
  fits width (hop_index hop) && negb (hop_index hop =? 0) &&
  option_test (bytes_of_width (address_width family)) (hop_gateway hop).

Definition hops_fit (family : address_family) (hops : wire_hop + list wire_hop) : bool :=
  match hops with
  | inl hop => hop_fits family 32 hop
  | inr hops => forallb (hop_fits family 31) hops && negb (bool_decide (hops = [])) &&
                fits 16 (Z.of_nat (4 + length (hops ≫= encode_hop)))
  end.

Definition wire_route_fits (route : wire_route) : bool :=
  fits 8 (wire_prefix route) && (wire_prefix route <=? maximum_prefix_length (wire_family route)) &&
  option_test (bytes_of_width (address_width (wire_family route))) (wire_destination route) &&
  ((wire_prefix route =? 0) || negb (bool_decide (wire_destination route = None))) &&
  option_test (fits 32) (wire_metric route) &&
  forallb (fun a => attribute_fits a && negb (known_attribute a.1)) (wire_others route) &&
  hops_fit (wire_family route) (wire_hops route).

(** No message says that the dump was interrupted. *)
Definition flags_fit (flags : Z) : bool := fits 16 flags && (Z.land flags NLM_F_DUMP_INTR =? 0).

Definition wire_message_fits (sequence : Z) (m : wire_message) : bool :=
  fits 31 (Z.of_nat (length (encode_wire_message sequence m))) &&
  match m with
  | Wire_new_route flags _ header route =>
      flags_fit flags && (length header.1 =? 5)%nat && wire_route_fits route
  | Wire_done flags _ _ => flags_fit flags
  end.

Definition datagram_fits (sequence : Z) (messages : list wire_message) : bool :=
  negb (bool_decide (messages = [])) && forallb (wire_message_fits sequence) messages &&
  fits 63 (Z.of_nat (length (encode_datagram sequence messages))).

(** ** What a dump says *)

Definition wire_address (family : address_family) (scope : Z) (bytes : list Z) : ip_address_record :=
  Ip_address_record family (bytes ++ repeat 0 (16 - length bytes)) scope.

(** [fe80::/10]: an address that means something on one interface only. *)
Definition link_local (family : address_family) (bytes : list Z) : bool :=
  match family, bytes with
  | ipv6, first :: second :: _ => (first =? 0xFE) && (0x80 <=? second) && (second <? 0xC0)
  | _, _ => false
  end.

Definition route_of_hop (route : wire_route) (hop : wire_hop) : route_record :=
  let family := wire_family route in
  Route_record
    (wire_address family 0 (default (repeat 0 (address_width family)) (wire_destination route)))
    (wire_prefix route)
    ((fun g => wire_address family (if link_local family g then hop_index hop else 0) g)
       <$> hop_gateway hop)
    (hop_index hop) (wire_metric route).

Definition routes_of_wire (route : wire_route) : list route_record :=
  route_of_hop route <$> match wire_hops route with inl hop => [hop] | inr hops => hops end.

Definition routes_of_message (m : wire_message) : list route_record :=
  match m with Wire_new_route _ _ _ route => routes_of_wire route | Wire_done _ _ _ => [] end.

Definition ends_dump (m : wire_message) : bool :=
  match m with Wire_done _ _ _ => true | Wire_new_route _ _ _ _ => false end.

(** The loop over attributes, read off their list: [pos] is where the first one
    is in the memory. *)
Fixpoint attributes_effect (family : Z) (memory : list Z) (pos : nat)
    (attributes : list (Z * list Z)) (parsed : linux_route_attributes)
    : checked linux_route_attributes :=
  match attributes with
  | [] => mret parsed
  | attribute :: attributes =>
      parsed ← parse_attribute big_endian family memory attribute.1 (pos + sizeof_rtattr)
        (length attribute.2) parsed;
      attributes_effect family memory (pos + length (encode_attribute attribute)) attributes parsed
  end.

End encoder.

(** ** Bytes in memory *)

Lemma member_here a b n : length a = n -> member (a ++ b) 0 n = a.
Proof. intros <-. unfold member. by rewrite drop_0, take_app_length. Qed.

Lemma member_whole a n : length a = n -> member a 0 n = a.
Proof. intros <-. unfold member. by rewrite drop_0, take_ge. Qed.

Lemma member_skip a b k offset n :
  length a = k -> (k <= offset)%nat -> member (a ++ b) offset n = member b (offset - k) n.
Proof. intros <- H. unfold member. by rewrite drop_app_ge. Qed.

(** ** Integers as bytes *)

Lemma be_bytes_length n v : length (be_bytes n v) = n.
Proof. induction n; simpl; congruence. Qed.

Lemma uint_bytes_length be n v : length (uint_bytes be n v) = n.
Proof. unfold uint_bytes. destruct be; rewrite ?length_reverse; apply be_bytes_length. Qed.

Lemma be_value_be_bytes n v : be_value (be_bytes n v) = v mod 2 ^ (8 * Z.of_nat n).
Proof.
  induction n as [|n IH]; [by rewrite Z.mod_1_r|]. cbn [be_bytes be_value].
  rewrite be_bytes_length, IH, Nat2Z.inj_succ, <- Z.add_1_r, Z.mul_add_distr_l, Z.pow_add_r by lia.
  change (2 ^ (8 * 1)) with 256. rewrite Z.rem_mul_r by (try lia; by apply Z.pow_nonzero; lia). lia.
Qed.

Lemma uint_of_uint_bytes be n v :
  0 <= v < 2 ^ (8 * Z.of_nat n) -> uint_of be (uint_bytes be n v) = v.
Proof.
  intros H. unfold uint_of, uint_bytes.
  destruct be; rewrite ?reverse_involutive, be_value_be_bytes; by apply Z.mod_small.
Qed.

Lemma fits_spec w v : fits w v = true <-> 0 <= v < 2 ^ w.
Proof. unfold fits. lia. Qed.

Lemma uint_of_fits be n v w :
  w = 8 * Z.of_nat n -> fits w v = true -> uint_of be (uint_bytes be n v) = v.
Proof. intros -> H%fits_spec. by apply uint_of_uint_bytes. Qed.

(** ** Padding *)

Lemma padded_length bytes :
  Z.of_nat (length bytes) < 2 ^ 63 -> length (padded bytes) = netlink_align (length bytes).
Proof.
  intros H. unfold padded. rewrite length_app, repeat_length.
  pose proof (netlink_align_bounds _ H). lia.
Qed.

(** An element at [pos] whose first [count] bytes hold its unpadded length. *)
Lemma holds_padded memory pos bytes :
  holds memory pos (padded bytes) -> holds memory pos bytes.
Proof. unfold padded. by intros [? _]%holds_app. Qed.

Lemma advance_ok length size offset :
  Z.of_nat size < 2 ^ 63 -> (length <= netlink_align length)%nat ->
  (netlink_align length <= size - offset)%nat ->
  (netlink_align length <? length)%nat || (size - offset <? netlink_align length)%nat = false.
Proof. intros _ H1 H2. apply orb_false_iff. rewrite !Nat.ltb_ge. lia. Qed.

Section parsing.
Variable be : bool.
Variable memory : list Z.
Hypothesis memory_size : Z.of_nat (length memory) < 2 ^ 63.

Lemma encode_attribute_length a :
  attribute_fits a = true ->
  length (encode_attribute be a) = netlink_align (4 + length a.2) /\
  (4 + length a.2 <= length (encode_attribute be a))%nat /\
  Z.of_nat (4 + length a.2) < 2 ^ 16.
Proof.
  unfold attribute_fits. intros [_ H%fits_spec]%andb_true_iff. unfold encode_attribute.
  rewrite padded_length; rewrite !length_app, !uint_bytes_length; [|lia].
  pose proof (netlink_align_bounds (2 + (2 + length a.2)) ltac:(lia)) as [Hb _].
  split; [done|]. split; [|lia]. lia.
Qed.

(** The loop over attributes performs the effect of each in turn. *)
Lemma attributes_loop_encoded family data size attributes offset fuel parsed :
  forallb attribute_fits attributes = true ->
  holds memory (data + offset) (encode_attributes be attributes) ->
  size = (offset + length (encode_attributes be attributes))%nat -> (size - offset < fuel)%nat ->
  attributes_loop be fuel family memory data size offset parsed =
  attributes_effect be family memory (data + offset) attributes parsed.
Proof.
  revert offset fuel parsed. induction attributes as [|a attributes IH];
    intros offset fuel parsed Hfit Hh Hs Hf; (destruct fuel as [|fuel]; [lia|]); cbn [attributes_loop].
  - simpl in *. by rewrite (proj2 (Nat.ltb_ge _ _)) by lia.
  - cbn [forallb] in Hfit. apply andb_true_iff in Hfit as [Ha Hfit].
    destruct (encode_attribute_length a Ha) as (Hl & Hle & H16).
    unfold encode_attributes in Hh, Hs. cbn [mbind list_bind] in Hh, Hs.
    pose proof Hh as [H1 H2]%holds_app. rewrite length_app in Hs. pose proof (holds_bound _ _ _ Hh) as Hm.
    rewrite length_app in Hm.
    rewrite (proj2 (Nat.ltb_lt _ _)) by lia. unfold sizeof_rtattr.
    rewrite (proj2 (Nat.ltb_ge _ _)) by lia.
    apply holds_padded in H1. rewrite app_assoc in H1. apply holds_app in H1 as [H1 H3].
    rewrite (load_holds _ _ _ 4 H1) by by rewrite length_app, !uint_bytes_length.
    cbn [mbind checked_bind mret checked_ret]. cbv zeta.
    rewrite member_here by apply uint_bytes_length.
    rewrite (member_skip _ _ 2), member_whole by (apply uint_bytes_length || lia). 
    unfold attribute_fits in Ha. apply andb_true_iff in Ha as [Ht Hn].
    rewrite !(uint_of_fits be 2 _ 16) by done. rewrite Nat2Z.id.
    rewrite (proj2 (Nat.ltb_ge (4 + length a.2) 4)), (proj2 (Nat.ltb_ge _ (4 + length a.2))) by lia.
    cbn [orb]. cbn [attributes_effect]. rewrite (Nat.add_comm 4 (length a.2)), Nat.add_sub.
    rewrite (Nat.add_comm (length a.2)).
    destruct (parse_attribute _ _ _ _ _ _ _) as [[parsed'|e]|]; [|done..].
    cbn [mbind checked_bind]. rewrite <- Hl.
    rewrite (proj2 (Nat.ltb_ge _ (4 + _))), (proj2 (Nat.ltb_ge _ (length (encode_attribute be a)))) by lia.
    cbn [orb]. rewrite IH; [by rewrite Nat.add_assoc|done| |unfold encode_attributes; lia|lia].
    by rewrite Nat.add_assoc.
Qed.

Lemma attributes_effect_app family a b pos parsed :
  attributes_effect be family memory pos (a ++ b) parsed =
  parsed ← attributes_effect be family memory pos a parsed;
  attributes_effect be family memory (pos + length (encode_attributes be a)) b parsed.
Proof.
  revert pos parsed. induction a as [|x a IH]; intros pos parsed; cbn [app attributes_effect].
  - cbn. by rewrite Nat.add_0_r.
  - destruct (parse_attribute _ _ _ _ _ _ _) as [[parsed'|e]|]; [|done..].
    cbn [mbind checked_bind]. rewrite IH. unfold encode_attributes. cbn [mbind list_bind].
    by rewrite length_app, Nat.add_assoc.
Qed.

Lemma encode_attributes_app a b :
  encode_attributes be (a ++ b) = encode_attributes be a ++ encode_attributes be b.
Proof. apply bind_app. Qed.

(** Attributes of other types change nothing. *)
Lemma attributes_effect_unknown family attributes pos parsed :
  forallb (fun a => negb (known_attribute a.1)) attributes = true ->
  attributes_effect be family memory pos attributes parsed = mret parsed.
Proof.
  revert pos. induction attributes as [|[t p] attributes IH]; intros pos H; [done|].
  cbn [forallb] in H. apply andb_true_iff in H as [H1 H2]. cbn [attributes_effect fst snd] in *.
  replace (parse_attribute be family memory t (pos + sizeof_rtattr) (length p) parsed)
    with (mret parsed : checked linux_route_attributes); [by apply IH|].
  unfold known_attribute in H1. cbn [existsb] in H1. rewrite !negb_orb, !andb_true_iff in H1.
  destruct H1 as (E1 & E2 & E3 & E4 & E5 & E6 & E7 & _). apply negb_true_iff in E1, E2, E3, E4, E5, E6, E7.
  unfold parse_attribute. destruct parsed. by rewrite E1, E2, E3, E4, E5, E6, E7.
Qed.

(** An attribute in the memory starts with its header. *)
Lemma holds_attribute pos t p :
  holds memory pos (encode_attribute be (t, p)) -> holds memory (pos + sizeof_rtattr) p.
Proof.
  unfold encode_attribute. intros H%holds_padded. rewrite app_assoc in H.
  apply holds_app in H as [_ H]. by rewrite length_app, !uint_bytes_length in H.
Qed.

Lemma netlink_address_holds family pos bytes :
  holds memory pos bytes -> bytes_of_width (address_width family) bytes = true ->
  netlink_address (family_number family) memory pos (length bytes) =
  mret (wire_address family 0 bytes).
Proof.
  intros H [Hw%Nat.eqb_eq _]%andb_true_iff. unfold netlink_address, wire_address.
  destruct family; cbn [family_number address_width] in *.
  - rewrite Hw. simpl. by rewrite (load_holds _ _ _ 4 H Hw).
  - rewrite Hw. simpl. rewrite (load_holds _ _ _ 16 H Hw). cbn. by rewrite app_nil_r.
Qed.

Lemma load_uint32_holds pos v :
  holds memory pos (uint_bytes be 4 v) -> fits 32 v = true ->
  load_uint32 be memory pos (length (uint_bytes be 4 v)) = mret v.
Proof.
  intros H Hv. unfold load_uint32. rewrite uint_bytes_length. cbn [Nat.eqb negb].
  rewrite (load_holds _ _ _ 4 H) by apply uint_bytes_length.
  cbn [mbind checked_bind mret checked_ret]. by rewrite (uint_of_fits be 4 _ 32).
Qed.

(** What the loop leaves for a route's own attributes, [RTA_DST] to the next hops. *)
Lemma optional_effect family pos t payload parsed parsed' :
  (forall p, payload = Some p -> holds memory (pos + sizeof_rtattr) p ->
     parse_attribute be family memory t (pos + sizeof_rtattr) (length p) parsed = mret (parsed' p)) ->
  holds memory pos (encode_attributes be (optional_attribute t payload)) ->
  attributes_effect be family memory pos (optional_attribute t payload) parsed =
  mret (match payload with Some p => parsed' p | None => parsed end).
Proof.
  intros Hp H. destruct payload as [p|]; [|done]. cbn [optional_attribute attributes_effect fst snd].
  unfold encode_attributes in H. cbn [optional_attribute mbind list_bind] in H.
  rewrite app_nil_r in H. by rewrite (Hp p eq_refl (holds_attribute _ _ _ H)).
Qed.

Lemma destination_effect family pos payload gw oif prio nh mp mps :
  option_test (bytes_of_width (address_width family)) payload = true ->
  holds memory pos (encode_attributes be (optional_attribute RTA_DST payload)) ->
  attributes_effect be (family_number family) memory pos (optional_attribute RTA_DST payload)
    (Linux_route_attributes None gw oif prio nh mp mps) =
  mret (Linux_route_attributes (wire_address family 0 <$> payload) gw oif prio nh mp mps).
Proof.
  intros Hw H. erewrite optional_effect; [|intros p -> Hp|exact H].
  - by destruct payload; [instantiate (1 := fun p => Linux_route_attributes (Some _) _ _ _ _ _ _)|].
  - cbn in Hw. unfold parse_attribute. cbn [Z.eqb RTA_DST Pos.eqb].
    by rewrite (netlink_address_holds family).
Qed.

Lemma gateway_effect family pos payload dst oif prio nh mp mps :
  option_test (bytes_of_width (address_width family)) payload = true ->
  holds memory pos (encode_attributes be (optional_attribute RTA_GATEWAY payload)) ->
  attributes_effect be (family_number family) memory pos (optional_attribute RTA_GATEWAY payload)
    (Linux_route_attributes dst None oif prio nh mp mps) =
  mret (Linux_route_attributes dst (wire_address family 0 <$> payload) oif prio nh mp mps).
Proof.
  intros Hw H. erewrite optional_effect; [|intros p -> Hp|exact H].
  - by destruct payload; [instantiate (1 := fun p => Linux_route_attributes _ (Some _) _ _ _ _ _)|].
  - cbn in Hw. unfold parse_attribute. by rewrite (netlink_address_holds family).
Qed.

Lemma metric_effect family pos metric dst gw oif nh mp mps :
  option_test (fits 32) metric = true ->
  holds memory pos (encode_attributes be (optional_attribute RTA_PRIORITY (uint_bytes be 4 <$> metric))) ->
  attributes_effect be family memory pos (optional_attribute RTA_PRIORITY (uint_bytes be 4 <$> metric))
    (Linux_route_attributes dst gw oif None nh mp mps) =
  mret (Linux_route_attributes dst gw oif metric nh mp mps).
Proof.
  intros Hw H. destruct metric as [m|]; [|done]. cbn in Hw. cbn [fmap option_fmap option_map] in *.
  erewrite optional_effect; [|intros p [= <-] Hp|exact H].
  - by instantiate (1 := fun p => Linux_route_attributes _ _ _ _ _ _ _).
  - cbv beta. unfold parse_attribute. cbv [RTA_PRIORITY Z.eqb Pos.eqb RTA_DST RTA_GATEWAY RTA_OIF].
    by rewrite load_uint32_holds.
Qed.

(** The attributes that say where a route goes. *)
Definition hops_found (hops : wire_hop + list wire_hop) (family : address_family)
    (a : linux_route_attributes) : Prop :=
  match hops with
  | inl hop => ra_multipath a = None /\ ra_interface_index a = Some (hop_index hop) /\
               ra_gateway a = wire_address family 0 <$> hop_gateway hop
  | inr hops => exists p, ra_multipath a = Some p /\
                ra_multipath_size a = length (hops ≫= encode_hop be) /\
                holds memory p (hops ≫= encode_hop be)
  end.

Lemma hops_effect family pos hops dst metric :
  hops_fit be family hops = true ->
  holds memory pos (encode_attributes be (hop_attributes be hops)) ->
  exists a, attributes_effect be (family_number family) memory pos (hop_attributes be hops)
      (Linux_route_attributes dst None None metric false None 0) = mret a /\
    ra_destination a = dst /\ ra_metric a = metric /\ hops_found hops family a.
Proof.
  intros Hf H. destruct hops as [hop|hops]; cbn [hop_attributes hops_fit] in *.
  - unfold hop_fits in Hf. rewrite !andb_true_iff in Hf. destruct Hf as [[Hi _] Hg].
    rewrite encode_attributes_app in H. apply holds_app in H as [H1 H2].
    rewrite attributes_effect_app, gateway_effect by done. cbn [mbind checked_bind mret checked_ret].
    cbn [attributes_effect fst snd]. unfold encode_attributes in H2 at 2. cbn [mbind list_bind] in H2.
    rewrite app_nil_r in H2. apply holds_attribute in H2.
    unfold parse_attribute. cbv [Z.eqb Pos.eqb RTA_DST RTA_GATEWAY RTA_OIF].
    rewrite load_uint32_holds by done. cbn [mbind checked_bind mret checked_ret].
    eexists. split; [done|]. by split_and!.
  - cbn [attributes_effect fst snd]. unfold encode_attributes in H. cbn [mbind list_bind] in H.
    rewrite app_nil_r in H. apply holds_attribute in H.
    eexists. split; [done|]. split_and!; [done..|]. eexists. by split_and!.
Qed.

(** What the parser has after the attributes of a route. *)
Lemma route_attributes_parsed route data size :
  wire_route_fits be route = true -> forallb attribute_fits (route_attributes be route) = true ->
  holds memory data (encode_attributes be (route_attributes be route)) ->
  size = length (encode_attributes be (route_attributes be route)) ->
  exists a, parse_route_attributes be (family_number (wire_family route)) memory data size = mret a /\
    ra_destination a = wire_address (wire_family route) 0 <$> wire_destination route /\
    ra_metric a = wire_metric route /\ hops_found (wire_hops route) (wire_family route) a.
Proof.
  unfold wire_route_fits. rewrite !andb_true_iff. intros [[[[[[_ _] Hd] _] Hm] Ho] Hh] Hfit H ->.
  unfold parse_route_attributes.
  rewrite (attributes_loop_encoded _ _ _ (route_attributes be route))
    by (done || (rewrite ?Nat.add_0_r; done) || lia).
  rewrite Nat.add_0_r. unfold route_attributes in H |- *. rewrite !encode_attributes_app in H.
  apply holds_app in H as [_ H]. apply holds_app in H as [H1 H]. apply holds_app in H as [H2 H3].
  assert (forallb (fun a => negb (known_attribute a.1)) (wire_others route) = true) as Hu.
  { apply forallb_forall. intros a Ha. eapply forallb_forall in Ho; [|exact Ha].
    by apply andb_true_iff in Ho as [_ ?]. }
  rewrite attributes_effect_app, attributes_effect_unknown by done.
  cbn [mbind checked_bind mret checked_ret]. unfold no_attributes.
  rewrite attributes_effect_app, destination_effect by done. cbn [mbind checked_bind mret checked_ret].
  rewrite attributes_effect_app, metric_effect by done. cbn [mbind checked_bind mret checked_ret].
  by apply hops_effect.
Qed.

(** Every attribute of a well-formed route has an encodable length. *)
Lemma optional_attribute_fits t payload width :
  option_test (bytes_of_width width) payload = true -> fits 16 t = true -> (width <= 16)%nat ->
  forallb attribute_fits (optional_attribute t payload) = true.
Proof.
  intros H Ht Hw. destruct payload as [p|]; [|done]. cbn in H |- *.
  apply andb_true_iff in H as [H%Nat.eqb_eq _]. rewrite andb_true_r. unfold attribute_fits.
  cbn [fst snd]. rewrite Ht, H. apply fits_spec. lia.
Qed.

Lemma uint_attribute_fits t n v :
  fits 16 t = true -> (n <= 16)%nat -> attribute_fits (t, uint_bytes be n v) = true.
Proof.
  intros Ht Hn. unfold attribute_fits. cbn [fst snd]. rewrite Ht, uint_bytes_length.
  apply fits_spec. lia.
Qed.

Lemma route_attributes_fit route :
  wire_route_fits be route = true -> forallb attribute_fits (route_attributes be route) = true.
Proof.
  unfold wire_route_fits. rewrite !andb_true_iff. intros [[[[[[_ _] Hd] _] Hm] Ho] Hh].
  assert (address_width (wire_family route) <= 16)%nat by (destruct (wire_family route); simpl; lia).
  unfold route_attributes. rewrite !forallb_app, !andb_true_iff. split_and!.
  - apply forallb_forall. intros a Ha. eapply forallb_forall in Ho; [|exact Ha].
    by apply andb_true_iff in Ho as [? _].
  - by eapply optional_attribute_fits.
  - destruct (wire_metric route); [|done]. cbn. by rewrite uint_attribute_fits by (done || lia).
  - destruct (wire_hops route) as [hop|hops]; cbn [hops_fit hop_attributes] in *.
    + unfold hop_fits in Hh. rewrite !andb_true_iff in Hh. destruct Hh as [_ Hg].
      rewrite forallb_app, andb_true_iff. split; [by eapply optional_attribute_fits|].
      cbn [forallb]. by rewrite uint_attribute_fits by (done || lia).
    + rewrite !andb_true_iff in Hh. destruct Hh as [_ Hl]. cbn [forallb]. rewrite andb_true_r.
      unfold attribute_fits. cbn [fst snd]. by rewrite Hl.
Qed.

(** ** From attributes to routes *)

Lemma family_of_number family : family_of (family_number family) = family.
Proof. by destruct family. Qed.

(** The mask of the code is the interval of the specification. *)
Lemma link_local_mask second :
  fits 8 second = true ->
  (Z.land second 0xC0 =? 0x80) = (0x80 <=? second) && (second <? 0xC0).
Proof.
  intros H%fits_spec.
  assert (forallb (fun b => Bool.eqb (Z.land b 0xC0 =? 0x80) ((0x80 <=? b) && (b <? 0xC0)))
            (seqZ 0 256) = true) as Hall by (vm_compute; reflexivity).
  apply Bool.eqb_prop. rewrite forallb_forall in Hall.
  apply (Hall second), list_elem_of_In, elem_of_seqZ. lia.
Qed.

Lemma ipv6_link_local_wire family bytes :
  bytes_of_width (address_width family) bytes = true ->
  ipv6_link_local (wire_address family 0 bytes) = link_local family bytes.
Proof.
  intros [Hw%Nat.eqb_eq Hb]%andb_true_iff. unfold ipv6_link_local, wire_address. cbn [ip_family ip_value].
  destruct family; [by rewrite bool_decide_eq_false_2|]. rewrite bool_decide_eq_true_2 by done.
  destruct bytes as [|b1 [|b2 bytes]]; [done..|]. cbn [link_local app nth andb].
  rewrite <- andb_assoc. f_equal. apply link_local_mask.
  cbn [forallb] in Hb. rewrite !andb_true_iff in Hb. by destruct Hb as (_ & ? & _).
Qed.

Lemma make_linux_route_wire route attributes hop width :
  hop_fits (wire_family route) width hop = true ->
  ra_destination attributes = wire_address (wire_family route) 0 <$> wire_destination route ->
  ra_metric attributes = wire_metric route ->
  make_linux_route (family_number (wire_family route)) (wire_prefix route) attributes (hop_index hop)
    (wire_address (wire_family route) 0 <$> hop_gateway hop) = route_of_hop route hop.
Proof.
  intros Hf Hd Hm. unfold make_linux_route, route_of_hop. rewrite Hd, Hm, family_of_number. f_equal.
  - destruct (wire_destination route); [done|]. by destruct (wire_family route).
  - unfold hop_fits in Hf. rewrite !andb_true_iff in Hf. destruct Hf as [_ Hg].
    destruct (hop_gateway hop) as [g|]; [|done]. cbn in Hg |- *. rewrite ipv6_link_local_wire by done.
    by destruct (link_local _ g).
Qed.

(** ** Multiple next hops *)

Definition hop_payload (hop : wire_hop) : list Z :=
  encode_attributes be (optional_attribute RTA_GATEWAY (hop_gateway hop)).

Lemma hop_payload_small family width hop :
  hop_fits family width hop = true -> (length (hop_payload hop) <= 24)%nat.
Proof.
  unfold hop_fits, hop_payload. rewrite !andb_true_iff. intros [_ Hg].
  destruct (hop_gateway hop) as [g|]; [|simpl; lia]. cbn [option_test] in Hg.
  apply andb_true_iff in Hg as [Hl%Nat.eqb_eq _].
  assert (length g <= 16)%nat by (destruct family; simpl in *; lia).
  assert (attribute_fits (RTA_GATEWAY, g) = true) as Ha
    by (unfold attribute_fits; cbn [fst snd]; rewrite andb_true_iff, !fits_spec; unfold RTA_GATEWAY; lia).
  destruct (encode_attribute_length _ Ha) as [E _]. cbn [optional_attribute].
  unfold encode_attributes. cbn [mbind list_bind]. rewrite app_nil_r, E. cbn [snd].
  pose proof (netlink_align_bounds (4 + length g) ltac:(lia)). lia.
Qed.

Lemma encode_hop_length family width hop :
  hop_fits family width hop = true ->
  length (encode_hop be hop) = netlink_align (8 + length (hop_payload hop)) /\
  (8 + length (hop_payload hop) <= length (encode_hop be hop))%nat.
Proof.
  intros H. pose proof (hop_payload_small _ _ _ H) as Hs. unfold encode_hop. fold (hop_payload hop).
  rewrite padded_length; rewrite !length_app, !uint_bytes_length; [|simpl; lia].
  pose proof (netlink_align_bounds (8 + length (hop_payload hop)) ltac:(lia)) as [[Hb _] _].
  by split.
Qed.

(** The attributes of one next hop. *)
Lemma nested_attributes_parsed family width hop pos :
  hop_fits family width hop = true -> holds memory pos (hop_payload hop) ->
  exists a, parse_route_attributes be (family_number family) memory pos (length (hop_payload hop)) = mret a /\
    ra_gateway a = wire_address family 0 <$> hop_gateway hop.
Proof.
  unfold hop_fits. rewrite !andb_true_iff. intros [_ Hg] H. unfold parse_route_attributes, hop_payload in *.
  rewrite (attributes_loop_encoded _ _ _ (optional_attribute RTA_GATEWAY (hop_gateway hop))).
  - rewrite Nat.add_0_r. unfold no_attributes. rewrite gateway_effect by done. by eexists.
  - eapply optional_attribute_fits; [exact Hg|done|]. destruct family; simpl; lia.
  - by rewrite Nat.add_0_r.
  - done.
  - lia.
Qed.

Lemma hop_index_value family hop :
  hop_fits family 31 hop = true ->
  int_of be (uint_bytes be 4 (hop_index hop)) = hop_index hop /\ 0 < hop_index hop /\
  wrap 32 (hop_index hop) = hop_index hop.
Proof.
  unfold hop_fits. rewrite !andb_true_iff, fits_spec, negb_true_iff, Z.eqb_neq. intros [[H Hne] _].
  unfold int_of, wrap. rewrite uint_of_uint_bytes by (change (8 * Z.of_nat 4) with 32; lia).
  rewrite Z.mod_small, (proj2 (Z.ltb_lt _ _)) by lia. lia.
Qed.

Lemma multipath_loop_encoded route attributes multipath hops offset fuel routes :
  forallb (hop_fits (wire_family route) 31) hops = true ->
  ra_destination attributes = wire_address (wire_family route) 0 <$> wire_destination route ->
  ra_metric attributes = wire_metric route ->
  ra_multipath_size attributes = (offset + length (hops ≫= encode_hop be))%nat ->
  holds memory (multipath + offset) (hops ≫= encode_hop be) ->
  (ra_multipath_size attributes - offset < fuel)%nat ->
  multipath_loop be fuel (family_number (wire_family route)) (wire_prefix route) memory attributes
    multipath offset routes = mret (routes ++ (route_of_hop route <$> hops)).
Proof.
  intros Hfit Hd Hm. revert offset fuel routes Hfit.
  induction hops as [|hop hops IH]; intros offset fuel routes Hfit Hs Hh Hf;
    (destruct fuel as [|fuel]; [lia|]); cbn [multipath_loop].
  - simpl in Hs. rewrite (proj2 (Nat.ltb_ge _ _)) by lia. by rewrite app_nil_r.
  - cbn [forallb] in Hfit. apply andb_true_iff in Hfit as [Hhop Hfit].
    destruct (encode_hop_length _ _ _ Hhop) as [Hl Hle]. pose proof (hop_payload_small _ _ _ Hhop).
    destruct (hop_index_value _ _ Hhop) as (Hi & Hpos & Hw).
    cbn [mbind list_bind] in Hs, Hh. rewrite length_app in Hs.
    pose proof (holds_bound _ _ _ Hh) as Hb. rewrite length_app in Hb. apply holds_app in Hh as [H1 H2].
    rewrite (proj2 (Nat.ltb_lt _ _)) by lia. unfold sizeof_rtnexthop.
    rewrite (proj2 (Nat.ltb_ge _ 8)) by lia.
    apply holds_padded in H1. fold (hop_payload hop) in H1. rewrite !app_assoc in H1.
    apply holds_app in H1 as [H1 H3]. rewrite !length_app, !uint_bytes_length in H3. cbn in H3.
    rewrite (load_holds _ _ _ 8 H1) by by rewrite !length_app, !uint_bytes_length.
    cbn [mbind checked_bind mret checked_ret]. cbv zeta. rewrite <- !app_assoc.
    rewrite member_here by apply uint_bytes_length.
    rewrite (member_skip _ _ 2) by (apply uint_bytes_length || lia).
    rewrite (member_skip _ _ 2), member_whole by (apply uint_bytes_length || done || simpl; lia).
    rewrite (uint_of_uint_bytes be 2) by (change (2 ^ (8 * Z.of_nat 2)) with 65536; lia).
    rewrite Nat2Z.id, Hi.
    rewrite (proj2 (Nat.ltb_ge _ 8)), (proj2 (Nat.ltb_ge _ (8 + _))), (proj2 (Z.leb_gt _ 0)) by lia.
    cbn [orb]. rewrite (Nat.add_comm 8 (length _)), Nat.add_sub, (Nat.add_comm (length _) 8).
    destruct (nested_attributes_parsed _ _ _ _ Hhop H3) as (a & -> & Ha).
    cbn [mbind checked_bind mret checked_ret]. rewrite Hw, Ha, <- Hl.
    rewrite (make_linux_route_wire route attributes hop 31) by done.
    rewrite !(proj2 (Nat.ltb_ge _ _)) by lia. cbn [orb].
    rewrite IH; [by rewrite <- app_assoc|done|lia|by rewrite Nat.add_assoc|lia].
Qed.

(** The routes of a parsed message. *)
Lemma route_hops_appended route a routes :
  hops_fit be (wire_family route) (wire_hops route) = true ->
  ra_destination a = wire_address (wire_family route) 0 <$> wire_destination route ->
  ra_metric a = wire_metric route -> hops_found (wire_hops route) (wire_family route) a ->
  match ra_multipath a with
  | Some multipath =>
      append_linux_multipath_routes be (family_number (wire_family route)) (wire_prefix route) memory a
        multipath routes
  | None =>
      match ra_interface_index a with
      | Some index =>
          if index =? 0 then
            check (if ra_has_nexthop_id a then fail errc_not_supported else fail errc_malformed_data)
          else
            mret (routes ++ [make_linux_route (family_number (wire_family route)) (wire_prefix route) a
                               index (ra_gateway a)])
      | None =>
          check (if ra_has_nexthop_id a then fail errc_not_supported else fail errc_malformed_data)
      end
  end = mret (routes ++ routes_of_wire route).
Proof.
  intros Hfit Hd Hm. unfold routes_of_wire. destruct (wire_hops route) as [hop|hops]; cbn [hops_found].
  - intros (-> & -> & ->). cbn [hops_fit] in Hfit. pose proof Hfit as Hi. unfold hop_fits in Hi.
    rewrite !andb_true_iff, negb_true_iff in Hi. destruct Hi as [[_ ->] _].
    by rewrite (make_linux_route_wire route a hop 32).
  - intros (p & -> & Hs & Hh). cbn [hops_fit] in Hfit. rewrite !andb_true_iff in Hfit.
    destruct Hfit as [[Hhops Hne] _]. unfold append_linux_multipath_routes.
    assert (ra_multipath_size a <> 0%nat) as Hz.
    { destruct hops as [|hop hops]; [by rewrite bool_decide_eq_true_2 in Hne|].
      cbn [forallb] in Hhops. apply andb_true_iff in Hhops as [Hhop _].
      destruct (encode_hop_length _ _ _ Hhop) as [_ Hle]. rewrite Hs. cbn [mbind list_bind].
      rewrite length_app. lia. }
    rewrite (proj2 (Nat.eqb_neq _ _) Hz).
    apply multipath_loop_encoded; try done; [by rewrite Nat.add_0_r|lia].
Qed.

(** ** Messages *)

Lemma member_byte (bytes : list Z) k b :
  bytes !! k = Some b -> uint_of be (member bytes k 1) = b.
Proof.
  intros H. unfold member. rewrite (drop_S _ _ _ H). cbn [take]. rewrite take_0. unfold uint_of.
  destruct be; cbn; lia.
Qed.

Lemma route_message_encoded header route pos routes :
  wire_route_fits be route = true -> length header.1 = 5%nat ->
  holds memory pos (encode_route be header route) ->
  append_linux_route_message be memory pos (length (encode_route be header route)) routes =
  mret (routes ++ routes_of_wire route).
Proof.
  intros Hfit Hh H. pose proof (holds_bound _ _ _ H) as Hb.
  destruct header as [h flags]. cbn [fst snd] in *.
  set (attrs := encode_attributes be (route_attributes be route)).
  set (head := [family_number (wire_family route); wire_prefix route] ++ take 5 h ++ [RTN_UNICAST] ++
               uint_bytes be 4 flags).
  assert (encode_route be (h, flags) route = head ++ attrs) as E
    by (unfold encode_route, head; by rewrite <- !app_assoc).
  rewrite E in H, Hb |- *.
  assert (length head = 12%nat) as Hhead
    by (unfold head; rewrite !length_app, length_take, uint_bytes_length, Hh; done).
  apply holds_app in H as [H1 H2]. rewrite length_app, Hhead in *.
  unfold append_linux_route_message, sizeof_rtmsg. rewrite (proj2 (Nat.ltb_ge _ _)) by lia.
  rewrite (load_holds _ _ _ 12 H1 Hhead). cbn [mbind checked_bind mret checked_ret]. cbv zeta.
  destruct h as [|h1 [|h2 [|h3 [|h4 [|h5 [|]]]]]]; [done..| |done].
  rewrite !(member_byte head 0 (family_number (wire_family route))) by done.
  rewrite !(member_byte head 1 (wire_prefix route)) by done.
  rewrite (member_byte head 7 RTN_UNICAST) by done. rewrite family_of_number.
  replace (negb _ && negb _) with false by by destruct (wire_family route).
  pose proof Hfit as Hr. unfold wire_route_fits in Hr. rewrite !andb_true_iff in Hr.
  destruct Hr as [[[[[[_ Hp%Z.leb_le] _] Hz] _] _] Hhops].
  rewrite (proj2 (Z.ltb_ge _ _)) by done. cbn [Z.eqb Pos.eqb RTN_UNICAST negb].
  change (netlink_align 12) with 12%nat. rewrite (proj2 (Nat.ltb_ge _ 12)) by lia.
  rewrite (Nat.add_comm 12 (length attrs)), Nat.add_sub.
  destruct (route_attributes_parsed route (pos + 12) (length attrs) Hfit
    (route_attributes_fit _ Hfit) H2 eq_refl) as (a & -> & Hd & Hm & Hf).
  cbn [mbind checked_bind mret checked_ret]. rewrite Hd.
  replace (negb (wire_prefix route =? 0) && bool_decide (_ = None)) with false; cbn [reject check].
  2: { destruct (wire_destination route); [by rewrite bool_decide_eq_false_2, andb_false_r|].
       apply orb_true_iff in Hz as [->|Hz]; [done|]. by rewrite bool_decide_eq_true_2 in Hz. }
  by apply route_hops_appended.
Qed.

Definition message_state (m : wire_message) (state : linux_route_dump_state) : linux_route_dump_state :=
  Linux_route_dump_state (dump_routes state ++ routes_of_message m) (complete state || ends_dump m).

(** The payload of a message, its header read. *)
Definition wire_payload (m : wire_message) : Z * Z * Z * list Z :=
  match m with
  | Wire_new_route flags port header route => (RTM_NEWROUTE, flags, port, encode_route be header route)
  | Wire_done flags port payload => (NLMSG_DONE, flags, port, payload)
  end.

Lemma dump_message_encoded sequence m pos state :
  wire_message_fits be sequence m = true ->
  holds memory pos (wire_payload m).2 ->
  dump_message be memory (wire_payload m).1.1.1 pos (length (wire_payload m).2) state =
  mret (message_state m state).
Proof.
  intros [_ Hf]%andb_true_iff H. unfold message_state.
  destruct m as [flags port header route|flags port payload]; cbn [wire_payload fst snd] in *.
  - rewrite !andb_true_iff in Hf. destruct Hf as [[_ Hh%Nat.eqb_eq] Hr].
    unfold dump_message. cbv [RTM_NEWROUTE NLMSG_DONE NLMSG_ERROR Z.eqb Pos.eqb].
    rewrite route_message_encoded by done. cbn. by rewrite orb_false_r.
  - unfold dump_message. cbn. by rewrite app_nil_r, orb_true_r.
Qed.

Lemma encode_wire_message_length sequence m :
  wire_message_fits be sequence m = true ->
  length (encode_wire_message be sequence m) = netlink_align (16 + length (wire_payload m).2) /\
  (16 + length (wire_payload m).2 <= length (encode_wire_message be sequence m))%nat /\
  Z.of_nat (16 + length (wire_payload m).2) < 2 ^ 32 /\ flags_fit (wire_payload m).1.1.2 = true.
Proof.
  clear memory_size memory. intros [Hl%fits_spec Hf]%andb_true_iff.
  assert (encode_wire_message be sequence m = encode_message be (wire_payload m).1.1.1
    (wire_payload m).1.1.2 sequence (wire_payload m).1.2 (wire_payload m).2) as E by by destruct m.
  rewrite E in *. unfold encode_message in *.
  set (body := uint_bytes be 4 _ ++ _) in *.
  assert (length body = 16 + length (wire_payload m).2)%nat as Hbody
    by (unfold body; by rewrite !length_app, !uint_bytes_length).
  assert (length body <= length (padded body))%nat as Hle by (unfold padded; rewrite length_app; lia).
  rewrite <- Hbody, <- padded_length by lia. split_and!; [done|done|lia|].
  destruct m; [|done]. rewrite !andb_true_iff in Hf. apply Hf.
Qed.

(** The four members of a message header the parser reads. *)
Lemma header_members (a b c d e : list Z) :
  length a = 4%nat -> length b = 2%nat -> length c = 2%nat -> length d = 4%nat ->
  member (a ++ b ++ c ++ d ++ e) 0 4 = a /\ member (a ++ b ++ c ++ d ++ e) 4 2 = b /\
  member (a ++ b ++ c ++ d ++ e) 6 2 = c /\ member (a ++ b ++ c ++ d ++ e) 8 4 = d.
Proof.
  intros Ha Hb Hc Hd.
  assert (forall offset n, (4 <= offset)%nat ->
    member (a ++ b ++ c ++ d ++ e) offset n = member (b ++ c ++ d ++ e) (offset - 4) n) as H
    by (intros; by apply member_skip).
  rewrite member_here, !H by (done || lia). cbn [Nat.sub]. split; [done|].
  rewrite member_here, (member_skip b _ 2 2), (member_skip b _ 2 4) by (done || lia). cbn [Nat.sub].
  rewrite member_here, (member_skip c _ 2 2) by (done || lia). cbn [Nat.sub].
  by rewrite member_here.
Qed.

Lemma datagram_loop_encoded sequence messages offset fuel state :
  fits 32 sequence = true -> forallb (wire_message_fits be sequence) messages = true ->
  length memory = (offset + length (encode_datagram be sequence messages))%nat ->
  holds memory offset (encode_datagram be sequence messages) ->
  (length memory - offset < fuel)%nat ->
  datagram_loop be fuel memory (length memory) sequence offset state =
  mret (fold_left (fun state m => message_state m state) messages state).
Proof.
  intros Hseq. revert offset fuel state. induction messages as [|m messages IH];
    intros offset fuel state Hfit Hs Hh Hf; (destruct fuel as [|fuel]; [lia|]);
    cbn [datagram_loop fold_left].
  - simpl in Hs. by rewrite (proj2 (Nat.ltb_ge _ _)) by lia.
  - cbn [forallb] in Hfit. apply andb_true_iff in Hfit as [Hm Hfit].
    destruct (encode_wire_message_length _ _ Hm) as (Hl & Hle & H32 & [Hflags Hintr]%andb_true_iff).
    unfold encode_datagram in Hs, Hh. cbn [mbind list_bind] in Hs, Hh. rewrite length_app in Hs.
    apply holds_app in Hh as [H1 H2]. rewrite (proj2 (Nat.ltb_lt _ _)) by lia.
    unfold sizeof_nlmsghdr. rewrite (proj2 (Nat.ltb_ge _ 16)) by lia.
    assert (encode_wire_message be sequence m = encode_message be (wire_payload m).1.1.1
      (wire_payload m).1.1.2 sequence (wire_payload m).1.2 (wire_payload m).2) as E by by destruct m.
    rewrite E in H1. apply holds_padded in H1. rewrite !app_assoc in H1. apply holds_app in H1 as [H1 H3].
    rewrite !length_app, !uint_bytes_length in H3. cbn [Nat.add] in H3.
    rewrite (load_holds _ _ _ 16 H1) by by rewrite !length_app, !uint_bytes_length.
    cbn [mbind checked_bind mret checked_ret]. cbv zeta. rewrite <- !app_assoc.
    edestruct header_members as (-> & -> & -> & ->); [by apply uint_bytes_length..|].
    rewrite (uint_of_uint_bytes be 4 (Z.of_nat _)) by (change (8 * Z.of_nat 4) with 32; lia).
    rewrite !(uint_of_fits be 4 _ 32), (uint_of_fits be 2 (wire_payload m).1.1.2 16) by done.
    rewrite (uint_of_fits be 2 _ 16) by by destruct m.
    rewrite Nat2Z.id, Z.eqb_refl, Hintr. cbn [negb].
    rewrite (proj2 (Nat.ltb_ge _ 16)), (proj2 (Nat.ltb_ge _ (16 + _))) by lia. cbn [orb].
    rewrite (Nat.add_comm 16 (length _)), Nat.add_sub, (Nat.add_comm (length _) 16).
    rewrite (dump_message_encoded sequence) by done. cbn [mbind checked_bind mret checked_ret].
    rewrite <- Hl, !(proj2 (Nat.ltb_ge _ _)) by lia. cbn [orb].
    apply IH; [done|unfold encode_datagram; lia|done|lia].
Qed.

End parsing.

(** ** The whole dump *)

Lemma fold_message_state messages state :
  fold_left (fun state m => message_state m state) messages state =
  Linux_route_dump_state (dump_routes state ++ (messages ≫= routes_of_message))
    (complete state || existsb ends_dump messages).
Proof.
  revert state. induction messages as [|m messages IH]; intros [routes done_]; cbn [fold_left].
  - cbn. by rewrite app_nil_r, orb_false_r.
  - rewrite IH. unfold message_state. cbn. by rewrite <- app_assoc, <- orb_assoc.
Qed.

Lemma datagram_encoded be messages state :
  datagram_fits be 1 messages = true ->
  parse_linux_route_datagram be (encode_datagram be 1 messages)
    (length (encode_datagram be 1 messages)) 1 state =
  mret (Linux_route_dump_state (dump_routes state ++ (messages ≫= routes_of_message))
          (complete state || existsb ends_dump messages)).
Proof.
  unfold datagram_fits. rewrite !andb_true_iff. intros [[_ Hfit] [_ Hs]%fits_spec].
  unfold parse_linux_route_datagram. rewrite <- fold_message_state.
  apply datagram_loop_encoded; try done; [|lia]. exists [], []. by rewrite app_nil_r.
Qed.

Lemma datagram_not_empty be messages :
  datagram_fits be 1 messages = true -> length (encode_datagram be 1 messages) <> 0%nat.
Proof.
  unfold datagram_fits. rewrite !andb_true_iff. intros [[Hne Hfit] _].
  destruct messages as [|m messages]; [by rewrite bool_decide_eq_true_2 in Hne|].
  cbn [forallb] in Hfit. apply andb_true_iff in Hfit as [Hm _].
  destruct (encode_wire_message_length be 1 m Hm) as (_ & Hle & _).
  unfold encode_datagram. cbn [mbind list_bind]. rewrite length_app. lia.
Qed.

Lemma receive_loop_step be messages rest state :
  datagram_fits be 1 messages = true -> complete state = false ->
  receive_loop be (Received (encode_datagram be 1 messages) false 0 :: rest) state =
  receive_loop be rest (Linux_route_dump_state (dump_routes state ++ (messages ≫= routes_of_message))
                          (existsb ends_dump messages)).
Proof.
  intros Hfit Hc. cbn [receive_loop]. rewrite Hc.
  rewrite (proj2 (Nat.eqb_neq _ _) (datagram_not_empty _ _ Hfit)). cbn [orb negb Z.eqb].
  rewrite datagram_encoded by done. by rewrite Hc.
Qed.

(** The receive loop over an encoded dump. *)
Lemma receive_dump (be : bool) (initial : list (list wire_message)) (last : list wire_message)
    (rest : list received) :
  forallb (datagram_fits be 1) (initial ++ [last]) = true ->
  existsb ends_dump (mjoin initial) = false -> existsb ends_dump last = true ->
  receive_loop be
    (((fun d => Received (encode_datagram be 1 d) false 0) <$> initial ++ [last]) ++ rest)
    (Linux_route_dump_state [] false) =
  mret (mjoin (initial ++ [last]) ≫= routes_of_message).
Proof.
  intros Hfit Hi Hl.
  enough (forall state, complete state = false ->
    receive_loop be
      (((fun d => Received (encode_datagram be 1 d) false 0) <$> initial ++ [last]) ++ rest) state =
    mret (dump_routes state ++ (mjoin (initial ++ [last]) ≫= routes_of_message))) as H by by rewrite H.
  induction initial as [|d initial IH]; intros state Hc; cbn [app fmap list_fmap forallb] in *.
  - apply andb_true_iff in Hfit as [Hfit _]. rewrite receive_loop_step by done. rewrite Hl.
    cbn. rewrite app_nil_r. by destruct rest.
  - apply andb_true_iff in Hfit as [Hd Hfit]. cbn [mjoin list_join] in Hi |- *.
    rewrite existsb_app, orb_false_iff in Hi. destruct Hi as [Hd0 Hi].
    rewrite receive_loop_step, Hd0, IH by done. cbn [dump_routes]. by rewrite bind_app, <- app_assoc.
Qed.

(** C3: a routing dump is read back exactly, in either byte order: for any
    number of datagrams that encode routes, the last of them with the end of
    the dump, the receive loop returns the encoded routes in their order, one
    for each next hop, with the interface as the scope of a link-local gateway;
    what follows the end is not read.  Attributes of other types, padding, and
    the fields of the headers the library does not use change nothing. *)
Theorem dump_round_trip (be : bool) (initial : list (list wire_message)) (last : list wire_message)
    (rest : list received) :
  forallb (datagram_fits be 1) (initial ++ [last]) = true ->
  existsb ends_dump (mjoin initial) = false -> existsb ends_dump last = true ->
  receive_loop be
    (((fun d => Received (encode_datagram be 1 d) false 0) <$> initial ++ [last]) ++ rest)
    (Linux_route_dump_state [] false) =
  mret (mjoin (initial ++ [last]) ≫= routes_of_message).
Proof. apply receive_dump. Qed.

(** Two datagrams on a little-endian machine: an IPv4 default route with a
    metric and an attribute the parser skips, then an IPv6 route over two
    interfaces, one of them through a link-local gateway, and the end. *)
Lemma dump_round_trip_witness :
  let default_route := Wire_new_route 2 7 ([0; 0; 254; 3; 0], 0)
    (Wire_route ipv4 0 None (Some 100) [(15, [254; 0; 0; 0])]
       (inl (Wire_hop 2 (Some [192; 168; 1; 1])))) in
  let prefix := [0x20; 1; 0x0d; 0xb8; 0; 0; 0; 0; 0; 0; 0; 0; 0; 0; 0; 0] in
  let gateway := [0xFE; 0x80; 0; 0; 0; 0; 0; 0; 0; 0; 0; 0; 0; 0; 0; 1] in
  let multipath_route := Wire_new_route 2 7 ([0; 0; 254; 2; 0], 0)
    (Wire_route ipv6 32 (Some prefix) None []
       (inr [Wire_hop 3 (Some gateway); Wire_hop 4 None])) in
  receive_loop false
    [Received (encode_datagram false 1 [default_route]) false 0;
     Received (encode_datagram false 1 [multipath_route; Wire_done 2 7 [0; 0; 0; 0]]) false 0]
    (Linux_route_dump_state [] false) =
  Some (Value
    [Route_record (Ip_address_record ipv4 (repeat 0 16) 0) 0
       (Some (Ip_address_record ipv4 ([192; 168; 1; 1] ++ repeat 0 12) 0)) 2 (Some 100);
     Route_record (Ip_address_record ipv6 prefix 0) 32 (Some (Ip_address_record ipv6 gateway 3)) 3 None;
     Route_record (Ip_address_record ipv6 prefix 0) 32 None 4 None]).
Proof.
  intros default_route prefix gateway multipath_route.
  etransitivity; [|vm_compute; reflexivity].
  apply (dump_round_trip false [[default_route]]
    [multipath_route; Wire_done 2 7 [0; 0; 0; 0]] []); vm_compute; reflexivity.
Defined.
