(* ===== verification/Connection.v ===== *)
(** * Sockets and connections

    [include/syscape/detail/connection/common.hpp]: the records and their
    ordering; [include/syscape/detail/connection/linux.hpp]: the parser of
    /proc/net/{tcp,tcp6,udp,udp6}, the socket owners found under /proc, and the
    query. *)
From S2P Require Import Prelude Result CppText System Buffer.

(** ** common.hpp *)

Inductive protocol := tcp | udp.

#[global] Instance protocol_eq_dec : EqDecision protocol.
Proof. solve_decision. Defined.

Definition protocol_value (p : protocol) : Z := match p with tcp => 0 | udp => 1 end.

Inductive tcp_state :=
  | state_unknown
  | established
  | syn_sent
  | syn_recv
  | fin_wait1
  | fin_wait2
  | time_wait
  | closed
  | close_wait
  | last_ack
  | listen
  | closing.

#[global] Instance tcp_state_eq_dec : EqDecision tcp_state.
Proof. solve_decision. Defined.

Definition tcp_state_value (s : tcp_state) : Z :=
  match s with
  | state_unknown => 0
  | established => 1
  | syn_sent => 2
  | syn_recv => 3
  | fin_wait1 => 4
  | fin_wait2 => 5
  | time_wait => 6
  | closed => 7
  | close_wait => 8
  | last_ack => 9
  | listen => 10
  | closing => 11
  end.

Inductive address_family := ipv4 | ipv6.

#[global] Instance address_family_eq_dec : EqDecision address_family.
Proof. solve_decision. Defined.

Definition family_value (f : address_family) : Z := match f with ipv4 => 0 | ipv6 => 1 end.

Record ip_address_record := Ip_address_record {
  family : address_family;
  value : list Z;
  scope_id : Z
}.

#[global] Instance ip_address_record_eq_dec : EqDecision ip_address_record.
Proof. solve_decision. Defined.

Record socket_endpoint_record := Socket_endpoint_record {
  address : ip_address_record;
  port : Z
}.

Record connection_record := Connection_record {
  transport_protocol : protocol;
  local_endpoint : socket_endpoint_record;
  remote_endpoint : option socket_endpoint_record;
  state : tcp_state;
  pid : option Z;
  uid : option Z;
  inode : option Z;
  send_queue_bytes : option Z;
  receive_queue_bytes : option Z
}.

Definition compare_ip_addresses (lhs rhs : ip_address_record) : bool :=
  if negb (bool_decide (family lhs = family rhs))
  then family_value (family lhs) <? family_value (family rhs)
  else if negb (bool_decide (value lhs = value rhs)) then lexicographic (value lhs) (value rhs)
  else scope_id lhs <? scope_id rhs.

(** The test both functions make before comparing addresses. *)
Definition addresses_differ (lhs rhs : ip_address_record) : bool :=
  negb (bool_decide (family lhs = family rhs)) || negb (bool_decide (value lhs = value rhs)) ||
  negb (scope_id lhs =? scope_id rhs).

Definition compare_endpoints (lhs rhs : socket_endpoint_record) : bool :=
  if addresses_differ (address lhs) (address rhs)
  then compare_ip_addresses (address lhs) (address rhs)
  else port lhs <? port rhs.

Definition endpoints_differ (lhs rhs : socket_endpoint_record) : bool :=
  negb (port lhs =? port rhs) || addresses_differ (address lhs) (address rhs).

Definition compare_connection_records (lhs rhs : connection_record) : bool :=
  if negb (bool_decide (transport_protocol lhs = transport_protocol rhs))
  then protocol_value (transport_protocol lhs) <? protocol_value (transport_protocol rhs)
  else if endpoints_differ (local_endpoint lhs) (local_endpoint rhs)
  then compare_endpoints (local_endpoint lhs) (local_endpoint rhs)
  else
    let tail :=
      if negb (bool_decide (state lhs = state rhs))
      then tcp_state_value (state lhs) <? tcp_state_value (state rhs)
      else
        let lhs_pid := default 0 (pid lhs) in
        let rhs_pid := default 0 (pid rhs) in
        if negb (lhs_pid =? rhs_pid) then lhs_pid <? rhs_pid
        else default 0 (inode lhs) <? default 0 (inode rhs) in
    match remote_endpoint lhs, remote_endpoint rhs with
    | None, Some _ => true
    | Some _, None => false
    | Some l, Some r => if endpoints_differ l r then compare_endpoints l r else tail
    | None, None => tail
    end.

Definition sort_connection_records (records : list connection_record) : list connection_record :=
  std_sort compare_connection_records records.

(** ** linux.hpp: numbers and endpoints

    A function that returns [bool] and writes its result through a reference
    is an [option]. *)

Definition inode_pid_map_type : Type := gmap Z (list Z).

Definition parse_unsigned (max base : Z) (input : text) : option Z :=
  if empty input then None
  else
    let parsed := from_chars_unsigned max base input in
    if consumed parsed input then Some (fc_value parsed) else None.

Section parsing.

(** The byte order of the machine. *)
Variable host_is_little_endian : bool.

(** The four bytes the call stores. *)
Definition store_proc_address_word (v : Z) : list Z :=
  if host_is_little_endian then
    [Z.land v 0xFF; Z.land (Z.shiftr v 8) 0xFF; Z.land (Z.shiftr v 16) 0xFF;
     Z.land (Z.shiftr v 24) 0xFF]
  else
    [Z.land (Z.shiftr v 24) 0xFF; Z.land (Z.shiftr v 16) 0xFF; Z.land (Z.shiftr v 8) 0xFF;
     Z.land v 0xFF].

Definition parse_hex_ipv4 (hex : text) : option (list Z) :=
  if negb (length hex =? 8)%nat then None
  else
    v ← parse_unsigned uint32_max 16 hex;
    Some (store_proc_address_word v ++ repeat 0 12).

(** The loop over the four words, from [word] on. *)
Fixpoint hex_words (words : nat) (word : nat) (hex : text) : option (list Z) :=
  match words with
  | O => Some []
  | S words =>
      v ← parse_unsigned uint32_max 16 (substr (word * 8) 8 hex);
      rest ← hex_words words (S word) hex;
      Some (store_proc_address_word v ++ rest)
  end.

Definition parse_hex_ipv6 (hex : text) : option (list Z) :=
  if negb (length hex =? 32)%nat then None else hex_words 4 0 hex.

Definition map_linux_tcp_state (st : Z) : tcp_state :=
  match st with
  | 1 => established
  | 2 => syn_sent
  | 3 => syn_recv
  | 4 => fin_wait1
  | 5 => fin_wait2
  | 6 => time_wait
  | 7 => closed
  | 8 => close_wait
  | 9 => last_ack
  | 10 => listen
  | 11 => closing
  | _ => state_unknown
  end.

Definition parse_endpoint (input : text) (family : address_family) : option socket_endpoint_record :=
  match find ":" input 0 with
  | None => None
  | Some colon =>
      let addr_hex := substr 0 colon input in
      let port_hex := substr_from (S colon) input in
      v ← (match family with ipv4 => parse_hex_ipv4 addr_hex | ipv6 => parse_hex_ipv6 addr_hex end);
      port_val ← parse_unsigned uint32_max 16 port_hex;
      if 65535 <? port_val then None
      else Some (Socket_endpoint_record (Ip_address_record family v 0) (wrap 16 port_val))
  end.

Definition is_unspecified_address (family : address_family) (val : list Z) : bool :=
  let len := match family with ipv4 => 4%nat | ipv6 => 16%nat end in
  forallb (fun b => b =? 0) (take len val).

(** The queue column. *)
Definition parse_queues (queues : text) : option (Z * Z) :=
  match find ":" queues 0 with
  | None => None
  | Some colon =>
      match find ":" queues (S colon) with
      | Some _ => None
      | None =>
          tx ← parse_unsigned uint32_max 16 (substr 0 colon queues);
          rx ← parse_unsigned uint32_max 16 (substr_from (S colon) queues);
          Some (tx, rx)
      end
  end.

Definition ends_with_colon (sl : text) : bool :=
  match last sl with Some c => is_char c ":" | None => false end.

Definition parse_proc_net_line (line : text) (proto : protocol) (fam : address_family)
    (inode_pid_map : inode_pid_map_type) : option connection_record :=
  match tokens isspace line with
  | sl :: local_addr_str :: rem_addr_str :: state_str :: queues_str :: timer_str ::
      retrans_str :: uid_str :: timeout_str :: inode_str :: _ =>
      if empty sl || negb (ends_with_colon sl) then None
      else
        local ← parse_endpoint local_addr_str fam;
        remote ← parse_endpoint rem_addr_str fam;
        st_val ← parse_unsigned uint32_max 16 state_str;
        queues ← parse_queues queues_str;
        uid_val ← parse_unsigned uint32_max 10 uid_str;
        inode_num ← parse_unsigned uint64_max 10 inode_str;
        Some {|
          transport_protocol := proto;
          local_endpoint := local;
          remote_endpoint :=
            if is_unspecified_address fam (value (address remote)) && (port remote =? 0)
            then None else Some remote;
          state := match proto with tcp => map_linux_tcp_state st_val | udp => state_unknown end;
          pid := owners ← inode_pid_map !! inode_num; head owners;
          uid := Some uid_val;
          inode := Some inode_num;
          send_queue_bytes := Some (fst queues);
          receive_queue_bytes := Some (snd queues)
        |}
  | _ => None
  end.

Definition with_pid (p : option Z) (rec : connection_record) : connection_record :=
  Connection_record (transport_protocol rec) (local_endpoint rec) (remote_endpoint rec) (state rec)
    p (uid rec) (inode rec) (send_queue_bytes rec) (receive_queue_bytes rec).

Definition append_record_for_owners (rec : connection_record) (inode_pid_map : inode_pid_map_type)
    (out_records : list connection_record) : list connection_record :=
  match i ← inode rec; inode_pid_map !! i with
  | Some ((_ :: _) as owners) => out_records ++ ((fun p => with_pid (Some p) rec) <$> owners)
  | _ => out_records ++ [with_pid None rec]
  end.

(** ** linux.hpp: the tables and the socket owners *)

(** Lines [std::getline] delivers: a line that a failing read interrupts is
    lost, and the failure is found after the loop. *)
Definition stream_lines (events : list read_event) : list text * option Z :=
  match delivered events with
  | (content, None) => (fields ch_lf content, None)
  | (content, Some errno) =>
      (match rfind ch_lf content with
       | None => []
       | Some stop => fields ch_lf (substr 0 (S stop) content)
       end, Some errno)
  end.

Fixpoint read_lines (lines : list text) (proto : protocol) (fam : address_family)
    (inode_pid_map : inode_pid_map_type) (out_records : list connection_record)
    : result (list connection_record) :=
  match lines with
  | [] => Value out_records
  | line :: lines =>
      if empty line then read_lines lines proto fam inode_pid_map out_records
      else
        match parse_proc_net_line line proto fam inode_pid_map with
        | None => fail errc_malformed_data
        | Some rec =>
            read_lines lines proto fam inode_pid_map
              (append_record_for_owners rec inode_pid_map out_records)
        end
  end.

Section queries.
Context {W : Type} `{Kernel W}.

(** [readlink]: the target, or none when it fails. *)
Variable readlink : text -> W -> option text * W.

(** The inode of a "socket:[inode]" link target of at most 255 characters. *)
Definition socket_inode (target : text) : option Z :=
  let target := take 255 target in
  if starts_with (lit "socket:[") target && (9 <? length target)%nat &&
     match last target with Some c => is_char c "]" | None => false end
  then parse_unsigned uint64_max 10 (substr 8 (length target - 9) target)
  else None.

Definition add_owner (inode pid : Z) (map : inode_pid_map_type) : inode_pid_map_type :=
  let owners := default [] (map !! inode) in
  <[inode := if bool_decide (pid ∈ owners) then owners else owners ++ [pid]]> map.

(** The loop over a process's descriptors. *)
Fixpoint descriptor_loop (fd_dir_path : text) (pid : Z) (names : list text)
    (map : inode_pid_map_type) (w : W) : inode_pid_map_type * W :=
  match names with
  | [] => (map, w)
  | name :: names =>
      if starts_with (lit ".") name then descriptor_loop fd_dir_path pid names map w
      else
        match readlink (fd_dir_path ++ lit "/" ++ name) w with
        | (Some ((_ :: _) as target), w) =>
            descriptor_loop fd_dir_path pid names
              (match socket_inode target with
               | Some inode => add_owner inode pid map
               | None => map
               end) w
        | (_, w) => descriptor_loop fd_dir_path pid names map w
        end
  end.

Definition process_number (name : text) : option Z :=
  match name with
  | c :: _ =>
      if (code c <? 48) || (57 <? code c) then None
      else p ← parse_unsigned uint32_max 10 name; if p =? 0 then None else Some p
  | [] => None
  end.

Fixpoint process_loop (names : list text) (map : inode_pid_map_type) (w : W)
    : inode_pid_map_type * W :=
  match names with
  | [] => (map, w)
  | name :: names =>
      match process_number name with
      | None => process_loop names map w
      | Some pid =>
          let fd_dir_path := lit "/proc/" ++ name ++ lit "/fd" in
          match list_directory fd_dir_path w with
          | (inl _, w) => process_loop names map w
          | (inr (entries, _), w) =>
              let '(map, w) := descriptor_loop fd_dir_path pid entries map w in
              process_loop names map w
          end
      end
  end.

Definition build_inode_pid_map (w : W) : inode_pid_map_type * W :=
  match list_directory (lit "/proc") w with
  | (inl _, w) => (∅, w)
  | (inr (entries, _), w) =>
      let '(map, w) := process_loop entries ∅ w in (merge_sort Z.le <$> map, w)
  end.

(** [false], and the records unchanged, when the table does not exist. *)
Definition read_proc_net_file (path : text) (proto : protocol) (fam : address_family)
    (inode_pid_map : inode_pid_map_type) (out_records : list connection_record)
    : query W (bool * list connection_record) := fun w =>
  match open_file path w with
  | (inl errno, w) =>
      if (errno =? ENOENT) || (errno =? ENOTDIR) then (Value (false, out_records), w)
      else (fail_native (if negb (errno =? 0) then errno else EIO), w)
  | (inr events, w) =>
      let '(lines, bad) := stream_lines events in
      (match lines with
       | [] => fail errc_malformed_data
       | _ :: lines =>
           records ← read_lines lines proto fam inode_pid_map out_records;
           match bad with
           | Some errno => fail_native (if negb (errno =? 0) then errno else EIO)
           | None => Value (true, records)
           end
       end, w)
  end.

Definition sources : list (text * protocol * address_family) := [
  (lit "/proc/net/tcp", tcp, ipv4);
  (lit "/proc/net/tcp6", tcp, ipv6);
  (lit "/proc/net/udp", udp, ipv4);
  (lit "/proc/net/udp6", udp, ipv6)].

Fixpoint sources_loop (items : list (text * protocol * address_family))
    (inode_pid_map : inode_pid_map_type) (found : bool) (records : list connection_record)
    : query W (bool * list connection_record) :=
  match items with
  | [] => mret (found, records)
  | (path, proto, fam) :: items =>
      read ← read_proc_net_file path proto fam inode_pid_map records;
      sources_loop items inode_pid_map (found || fst read) (snd read)
  end.

Definition read_sources (inode_pid_map : inode_pid_map_type) : query W (list connection_record) :=
  outcome ← sources_loop sources inode_pid_map false [];
  let '(any_source_found, records) := outcome in
  pure (if any_source_found : bool then Value (sort_connection_records records)
        else fail errc_not_supported).

Definition connections : query W (list connection_record) := fun w =>
  let '(inode_pid_map, w) := build_inode_pid_map w in read_sources inode_pid_map w.

End queries.

End parsing.

(** ** The ordering *)

Definition ip_key (a : ip_address_record) : list Z :=
  family_value (family a) :: value a ++ [scope_id a].

Definition endpoint_key (e : socket_endpoint_record) : list Z := ip_key (address e) ++ [port e].

Definition remote_key (r : option socket_endpoint_record) : list Z :=
  match r with None => [0] | Some e => 1 :: endpoint_key e end.

(** Everything the ordering looks at, in its order of importance. *)
Definition connection_key (c : connection_record) : list Z :=
  protocol_value (transport_protocol c) :: endpoint_key (local_endpoint c) ++
  remote_key (remote_endpoint c) ++
  [tcp_state_value (state c); default 0 (pid c); default 0 (inode c)].

(** What the types promise: an address has sixteen bytes. *)
Definition endpoint_typed (e : socket_endpoint_record) : Prop :=
  length (value (address e)) = 16%nat.

Definition connection_typed (c : connection_record) : Prop :=
  endpoint_typed (local_endpoint c) /\
  match remote_endpoint c with Some e => endpoint_typed e | None => True end.

Lemma lexicographic_one x y : lexicographic [x] [y] = (x <? y).
Proof. simpl. destruct (Z.ltb_spec x y); [done|]. by destruct (y <? x). Qed.

Lemma family_value_inj f g : family_value f = family_value g <-> f = g.
Proof. by destruct f, g. Qed.

Lemma protocol_value_inj f g : protocol_value f = protocol_value g <-> f = g.
Proof. by destruct f, g. Qed.

Lemma tcp_state_value_inj f g : tcp_state_value f = tcp_state_value g <-> f = g.
Proof. by destruct f, g. Qed.

(** A leading number decides unless equal. *)
Lemma lexicographic_number x y l k :
  lexicographic (x :: l) (y :: k) = if negb (x =? y) then x <? y else lexicographic l k.
Proof.
  simpl. destruct (Z.ltb_spec x y); destruct (Z.ltb_spec y x); destruct (Z.eqb_spec x y); try done; lia.
Qed.

Lemma addresses_differ_false a b : addresses_differ a b = false <-> a = b.
Proof.
  unfold addresses_differ. rewrite !orb_false_iff, !negb_false_iff, !bool_decide_eq_true, Z.eqb_eq.
  destruct a, b; simpl. split; [by intros [[-> ->] ->]|by intros [= -> -> ->]].
Qed.

Lemma compare_ip_key a b :
  length (value a) = length (value b) ->
  compare_ip_addresses a b = lexicographic (ip_key a) (ip_key b).
Proof.
  intros Hl. unfold compare_ip_addresses, ip_key. rewrite lexicographic_number, lexicographic_app by done.
  rewrite lexicographic_one. destruct (Z.eqb_spec (family_value (family a)) (family_value (family b))) as [E|E].
  - apply family_value_inj in E. rewrite (bool_decide_eq_true_2 _ E). simpl.
    by destruct (bool_decide (value a = value b)).
  - rewrite bool_decide_eq_false_2 by (intros H; by apply E, family_value_inj). done.
Qed.

Lemma ip_key_length a : length (ip_key a) = (length (value a) + 2)%nat.
Proof. unfold ip_key. simpl. rewrite length_app. simpl. lia. Qed.

Lemma ip_key_inj a b : length (value a) = length (value b) -> ip_key a = ip_key b -> a = b.
Proof.
  intros Hl. unfold ip_key. intros [= Hf%family_value_inj [Hv Hs]%app_inj_1]; [|done].
  injection Hs as Hs. destruct a, b; simpl in *; by subst.
Qed.

Lemma compare_endpoint_key e f :
  endpoint_typed e -> endpoint_typed f ->
  compare_endpoints e f = lexicographic (endpoint_key e) (endpoint_key f).
Proof.
  unfold endpoint_typed. intros He Hf. unfold compare_endpoints, endpoint_key.
  rewrite lexicographic_app by (rewrite !ip_key_length; lia). rewrite lexicographic_one.
  destruct (addresses_differ (address e) (address f)) eqn:E.
  - rewrite bool_decide_eq_false_2; [apply compare_ip_key; congruence|].
    intros H. apply ip_key_inj in H; [|congruence].
    by rewrite (proj2 (addresses_differ_false _ _) H) in E.
  - apply addresses_differ_false in E as ->. by rewrite bool_decide_eq_true_2.
Qed.

Lemma endpoints_differ_key e f :
  endpoint_typed e -> endpoint_typed f ->
  endpoints_differ e f = negb (bool_decide (endpoint_key e = endpoint_key f)).
Proof.
  unfold endpoint_typed. intros He Hf. apply eq_true_iff_eq.
  rewrite negb_true_iff, bool_decide_eq_false, <- not_false_iff_true.
  unfold endpoints_differ. rewrite orb_false_iff, negb_false_iff, Z.eqb_eq, addresses_differ_false.
  apply not_iff_compat. unfold endpoint_key. split.
  - by intros [-> ->].
  - intros [H1 H2]%app_inj_2; [|done]. injection H2 as ->. split; [done|].
    apply ip_key_inj in H1; [done|congruence].
Qed.

Lemma endpoint_key_length e : endpoint_typed e -> length (endpoint_key e) = 19%nat.
Proof. intros H. unfold endpoint_key. rewrite length_app, ip_key_length, H. done. Qed.

Lemma compare_connection_key a b :
  connection_typed a -> connection_typed b ->
  compare_connection_records a b = lexicographic (connection_key a) (connection_key b).
Proof.
  intros [Hla Hra] [Hlb Hrb]. unfold compare_connection_records, connection_key.
  rewrite lexicographic_number, lexicographic_app by (by rewrite !endpoint_key_length).
  rewrite <- compare_endpoint_key, endpoints_differ_key by done.
  destruct (Z.eqb_spec (protocol_value (transport_protocol a)) (protocol_value (transport_protocol b)))
    as [E|E].
  - apply protocol_value_inj in E. rewrite (bool_decide_eq_true_2 _ E). cbn [negb].
    destruct (bool_decide (endpoint_key (local_endpoint a) = _)); cbn [negb]; [|done].
    set (tail := if negb (bool_decide (state a = state b)) then _ else _).
    assert (tail = lexicographic
      [tcp_state_value (state a); default 0 (pid a); default 0 (inode a)]
      [tcp_state_value (state b); default 0 (pid b); default 0 (inode b)]) as Htail.
    { subst tail. rewrite 2!lexicographic_number, lexicographic_one.
      destruct (Z.eqb_spec (tcp_state_value (state a)) (tcp_state_value (state b))) as [Es|Es].
      - apply tcp_state_value_inj in Es. by rewrite (bool_decide_eq_true_2 _ Es).
      - rewrite bool_decide_eq_false_2 by (intros H; by apply Es, tcp_state_value_inj). done. }
    rewrite Htail. destruct (remote_endpoint a) as [e|], (remote_endpoint b) as [f|]; try done.
    cbn [remote_key app]. rewrite (lexicographic_number 1 1), lexicographic_app by (by rewrite !endpoint_key_length).
    rewrite <- compare_endpoint_key, endpoints_differ_key by done.
    change (negb (1 =? 1)) with false. cbv iota.
    by destruct (bool_decide (endpoint_key e = endpoint_key f)).
  - rewrite bool_decide_eq_false_2 by (intros H; by apply E, protocol_value_inj). done.
Qed.

(** [compare_connection_records] is a strict weak order, as [std::sort]
    requires: irreflexive, transitive, and with transitive incomparability.
    Two records are incomparable only if they agree on every compared field. *)
Theorem compare_connection_records_order (a b c : connection_record) :
  connection_typed a -> connection_typed b -> connection_typed c ->
  compare_connection_records a a = false /\
  (compare_connection_records a b = true -> compare_connection_records b c = true ->
   compare_connection_records a c = true) /\
  (compare_connection_records a b = false -> compare_connection_records b a = false ->
   connection_key a = connection_key b /\
   compare_connection_records a c = compare_connection_records b c /\
   compare_connection_records c a = compare_connection_records c b).
Proof.
  intros Ha Hb Hc. rewrite !compare_connection_key by done. split; [apply lexicographic_irrefl|].
  split.
  - apply lexicographic_lt_trans.
  - intros H1 H2. assert (connection_key a = connection_key b) as E by (by apply lexicographic_antisym).
    by rewrite E.
Qed.

Lemma compare_connection_records_order_witness :
  let e n p := Socket_endpoint_record (Ip_address_record ipv4 (n :: repeat 0 15) 0) p in
  let r p := Connection_record tcp (e 127 p) None listen None None (Some 7) None None in
  compare_connection_records (r 22) (r 80) = true /\
  compare_connection_records (r 80) (r 443) = true /\
  compare_connection_records (r 22) (r 443) = true.
Proof.
  intros e r.
  assert (forall p, connection_typed (r p)) as Ht by (intros p; split; [reflexivity|exact I]).
  pose proof (compare_connection_records_order (r 22) (r 80) (r 443) (Ht 22) (Ht 80) (Ht 443))
    as (_ & Htrans & _).
  assert (compare_connection_records (r 22) (r 80) = true) as E1 by (vm_compute; reflexivity).
  assert (compare_connection_records (r 80) (r 443) = true) as E2 by (vm_compute; reflexivity).
  exact (conj E1 (conj E2 (Htrans E1 E2))).
Defined.

(** ** The endpoints of the tables *)

Section endpoints.
Variable host_is_little_endian : bool.

(** The number the kernel prints for the four bytes of an address word. *)
Definition word_value (b0 b1 b2 b3 : Z) : Z :=
  if host_is_little_endian then b0 + 256 * (b1 + 256 * (b2 + 256 * b3))
  else b3 + 256 * (b2 + 256 * (b1 + 256 * b0)).

Fixpoint address_words (bytes : list Z) : list Z :=
  match bytes with
  | b0 :: b1 :: b2 :: b3 :: bytes => word_value b0 b1 b2 b3 :: address_words bytes
  | _ => []
  end.

Definition address_text (a : ip_address_record) : text :=
  concat (hex_text 8 <$>
    address_words (match family a with ipv4 => take 4 (value a) | ipv6 => value a end)).

Definition endpoint_text (e : socket_endpoint_record) : text :=
  address_text (address e) ++ ":"%char :: hex_text 4 (port e).

(** An endpoint as the table can hold it: sixteen bytes, an IPv4 address in
    the first four, no scope. *)
Definition table_endpoint (e : socket_endpoint_record) : Prop :=
  length (value (address e)) = 16%nat /\ Forall is_byte (value (address e)) /\
  (family (address e) = ipv4 -> drop 4 (value (address e)) = repeat 0 12) /\
  scope_id (address e) = 0 /\ 0 <= port e < 65536.

Lemma word_value_bound b0 b1 b2 b3 :
  is_byte b0 -> is_byte b1 -> is_byte b2 -> is_byte b3 ->
  0 <= word_value b0 b1 b2 b3 < 2 ^ 32.
Proof. unfold is_byte, word_value. intros. destruct host_is_little_endian; lia. Qed.

Lemma store_word b0 b1 b2 b3 :
  is_byte b0 -> is_byte b1 -> is_byte b2 -> is_byte b3 ->
  store_proc_address_word host_is_little_endian (word_value b0 b1 b2 b3) = [b0; b1; b2; b3].
Proof.
  unfold is_byte, store_proc_address_word, word_value. intros.
  destruct host_is_little_endian; bits_to_arith; change (2 ^ 8) with 256; change (2 ^ 16) with 65536;
    change (2 ^ 24) with 16777216; repeat (f_equal; try div_lia).
Qed.

Lemma parse_unsigned_hex max n v :
  0 <= v < 16 ^ Z.of_nat n -> (0 < n)%nat -> v <= max ->
  parse_unsigned max 16 (hex_text n v) = Some v.
Proof.
  intros Hv Hn Hm. destruct (hex_text_numeric n v Hv Hn) as [Hnum Hval]. unfold parse_unsigned.
  rewrite (proj2 (empty_false _)) by (by apply numeric_split in Hnum as [? _]).
  assert (consumed (from_chars_unsigned max 16 (hex_text n v)) (hex_text n v) = true) as Hc
    by (apply consumed_unsigned; rewrite Hval; done).
  by rewrite Hc, consumed_value, Hval.
Qed.

Lemma parse_word b0 b1 b2 b3 :
  is_byte b0 -> is_byte b1 -> is_byte b2 -> is_byte b3 ->
  parse_unsigned uint32_max 16 (hex_text 8 (word_value b0 b1 b2 b3)) = Some (word_value b0 b1 b2 b3).
Proof.
  intros H0 H1 H2 H3. pose proof (word_value_bound b0 b1 b2 b3 H0 H1 H2 H3).
  apply parse_unsigned_hex; [change (16 ^ Z.of_nat 8) with (2 ^ 32); lia|lia|zlia].
Qed.

Definition words_text (bytes : list Z) : text := concat (hex_text 8 <$> address_words bytes).

Lemma words_text_cons b0 b1 b2 b3 bytes :
  words_text (b0 :: b1 :: b2 :: b3 :: bytes) = hex_text 8 (word_value b0 b1 b2 b3) ++ words_text bytes.
Proof. done. Qed.

Lemma hex_words_S n k hex :
  hex_words host_is_little_endian (S n) k hex =
  (v ← parse_unsigned uint32_max 16 (substr (k * 8) 8 hex);
   rest ← hex_words host_is_little_endian n (S k) hex;
   Some (store_proc_address_word host_is_little_endian v ++ rest)).
Proof. done. Qed.

Lemma words_text_chars l : Forall is_byte l -> Forall hex_char (words_text l).
Proof.
  induction l as [l IH] using list_length_ind. intros H.
  destruct l as [|b0 [|b1 [|b2 [|b3 l]]]]; try by constructor.
  rewrite words_text_cons.
  apply Forall_cons in H as [H0 [H1 [H2 [H3 H]%Forall_cons]%Forall_cons]%Forall_cons].
  apply Forall_app. split.
  - apply hex_text_chars. pose proof (word_value_bound b0 b1 b2 b3 H0 H1 H2 H3). lia.
  - apply IH; [simpl; lia|done].
Qed.

Lemma hex_words_text n k pre bytes :
  length pre = (k * 8)%nat -> length bytes = (n * 4)%nat -> Forall is_byte bytes ->
  hex_words host_is_little_endian n k (pre ++ words_text bytes) =
  Some bytes.
Proof.
  revert k pre bytes. induction n as [|n IH]; intros k pre bytes Hp Hl Hb.
  { by destruct bytes. }
  destruct bytes as [|b0 [|b1 [|b2 [|b3 bytes]]]]; try (simpl in Hl; lia).
  apply Forall_cons in Hb as [H0 [H1 [H2 [H3 Hb]%Forall_cons]%Forall_cons]%Forall_cons].
  rewrite hex_words_S, words_text_cons. unfold substr. rewrite <- Hp, drop_app_length.
  rewrite take_app_length' by (by rewrite hex_text_length). rewrite parse_word by done.
  cbn [mbind option_bind]. rewrite app_assoc, IH.
  - cbn [mbind option_bind]. by rewrite store_word.
  - rewrite length_app, hex_text_length. lia.
  - simpl in Hl. lia.
  - done.
Qed.

Lemma address_text_chars a : Forall is_byte (value a) -> Forall hex_char (address_text a).
Proof.
  intros Hb. apply words_text_chars. destruct (family a); [by apply Forall_take|done].
Qed.

Lemma not_hex_colon : ~ hex_char ":".
Proof. unfold hex_char. vm_compute. intuition congruence. Qed.

Lemma parse_endpoint_value e :
  table_endpoint e ->
  parse_endpoint host_is_little_endian (endpoint_text e) (family (address e)) = Some e.
Proof.
  intros (Hl & Hb & H4 & Hs & Hp). unfold parse_endpoint, endpoint_text.
  destruct (find_app_parts ":" (address_text (address e)) (hex_text 4 (port e))) as (-> & -> & ->).
  { apply hex_chars_no; [by apply address_text_chars|apply not_hex_colon]. }
  assert ((match family (address e) with
           | ipv4 => parse_hex_ipv4 host_is_little_endian (address_text (address e))
           | ipv6 => parse_hex_ipv6 host_is_little_endian (address_text (address e))
           end) = Some (value (address e))) as ->.
  { destruct e as [[fam v s] p]. unfold address_text. cbn [address family value scope_id] in *.
    destruct fam.
    - specialize (H4 eq_refl).
      destruct v as [|b0 [|b1 [|b2 [|b3 v]]]]; try (simpl in Hl; lia).
      apply Forall_cons in Hb as [H0 [H1 [H2 [H3 _]%Forall_cons]%Forall_cons]%Forall_cons].
      simpl drop in H4. rewrite drop_0 in H4. subst v. unfold parse_hex_ipv4.
      change (concat _) with (words_text [b0; b1; b2; b3]). rewrite words_text_cons.
      change (words_text []) with (@nil ascii). rewrite app_nil_r, hex_text_length, parse_word by done.
      cbn [negb Nat.eqb mbind option_bind]. by rewrite store_word.
    - unfold parse_hex_ipv6. change (concat _) with ([] ++ words_text v).
      rewrite (hex_words_text 4 0 [] v) by done. rewrite app_nil_l.
      assert (length (words_text v) = 32%nat) as ->; [|done].
      destruct v as [|b0 [|b1 [|b2 [|b3 [|b4 [|b5 [|b6 [|b7 [|b8 [|b9 [|b10 [|b11 [|b12 [|b13
        [|b14 [|b15 [|b16 v]]]]]]]]]]]]]]]]]; try (simpl in Hl; lia).
      by rewrite !words_text_cons, !length_app, !hex_text_length. }
  cbn [mbind option_bind]. rewrite parse_unsigned_hex; [|change (16 ^ Z.of_nat 4) with 65536; lia|lia|zlia].
  cbn [mbind option_bind]. rewrite (proj2 (Z.ltb_ge _ _)) by lia.
  unfold wrap. rewrite Z.mod_small by (change (2 ^ 16) with 65536; lia).
  destruct e as [[fam v s] p]. simpl in *. by subst.
Qed.

(** The hexadecimal endpoint the kernel prints, in the byte order of the
    machine whichever it is, parses back to the address in network order and
    the port. *)
Theorem parse_endpoint_text (e : socket_endpoint_record) :
  table_endpoint e ->
  parse_endpoint host_is_little_endian (endpoint_text e) (family (address e)) = Some e.
Proof. apply parse_endpoint_value. Qed.

End endpoints.

Lemma parse_endpoint_text_witness :
  let e := Socket_endpoint_record (Ip_address_record ipv4 ([127; 0; 0; 1] ++ repeat 0 12) 0) 8080 in
  endpoint_text true e = lit "0100007F:1F90" /\
  endpoint_text false e = lit "7F000001:1F90" /\
  parse_endpoint true (endpoint_text true e) ipv4 = Some e /\
  parse_endpoint false (endpoint_text false e) ipv4 = Some e.
Proof.
  intros e. assert (table_endpoint e) as He.
  { split; [reflexivity|]. split; [unfold is_byte; repeat constructor; lia || discriminate|].
    split; [reflexivity|]. split; [reflexivity|]. simpl. lia. }
  split; [vm_compute; reflexivity|]. split; [vm_compute; reflexivity|].
  exact (conj (parse_endpoint_text true e He) (parse_endpoint_text false e He)).
Defined.

(** ** The lines of the tables *)

Section lines.
Variable host_is_little_endian : bool.

(** A line of a socket table: the columns the code reads, and the others as
    they stand. *)
Record table_line := Table_line {
  tl_slot : Z;
  tl_local : socket_endpoint_record;
  tl_remote : socket_endpoint_record;
  tl_state : Z;
  tl_tx : Z;
  tl_rx : Z;
  tl_timer : text;
  tl_retransmits : text;
  tl_uid : Z;
  tl_timeout : text;
  tl_inode : Z;
  tl_rest : list text
}.

Definition line_tokens (l : table_line) : list text := [
  to_decimal (tl_slot l) ++ [":"%char];
  endpoint_text host_is_little_endian (tl_local l);
  endpoint_text host_is_little_endian (tl_remote l);
  hex_text 2 (tl_state l);
  hex_text 8 (tl_tx l) ++ ":"%char :: hex_text 8 (tl_rx l);
  tl_timer l;
  tl_retransmits l;
  to_decimal (tl_uid l);
  tl_timeout l;
  to_decimal (tl_inode l)] ++ tl_rest l.

Definition line_text (l : table_line) : text := concat (cons " "%char <$> line_tokens l).

Definition word (t : text) : Prop := t <> [] /\ Forall (fun c => isspace c = false) t.

Definition valid_line (fam : address_family) (l : table_line) : Prop :=
  0 <= tl_slot l /\
  (table_endpoint (tl_local l) /\ family (address (tl_local l)) = fam) /\
  (table_endpoint (tl_remote l) /\ family (address (tl_remote l)) = fam) /\
  0 <= tl_state l < 256 /\ 0 <= tl_tx l <= uint32_max /\ 0 <= tl_rx l <= uint32_max /\
  (word (tl_timer l) /\ word (tl_retransmits l) /\ word (tl_timeout l)) /\
  0 <= tl_uid l <= uint32_max /\ 0 <= tl_inode l <= uint64_max /\ Forall word (tl_rest l).

Definition line_record (proto : protocol) (owners : inode_pid_map_type) (l : table_line)
    : connection_record := {|
  transport_protocol := proto;
  local_endpoint := tl_local l;
  remote_endpoint :=
    if bool_decide (value (address (tl_remote l)) = repeat 0 16) && (port (tl_remote l) =? 0)
    then None else Some (tl_remote l);
  state := match proto with tcp => map_linux_tcp_state (tl_state l) | udp => state_unknown end;
  pid := found ← owners !! tl_inode l; head found;
  uid := Some (tl_uid l);
  inode := Some (tl_inode l);
  send_queue_bytes := Some (tl_tx l);
  receive_queue_bytes := Some (tl_rx l)
|}.

Lemma parse_unsigned_decimal max v :
  0 <= v <= max -> parse_unsigned max 10 (to_decimal v) = Some v.
Proof.
  intros Hv. unfold parse_unsigned.
  rewrite (proj2 (empty_false _) (to_decimal_ne v ltac:(lia))).
  by rewrite consumed_to_decimal, from_chars_to_decimal by done.
Qed.

(** Characters of the numeric columns: digits, upper-case letters, colons. *)
Definition column_char (c : ascii) : Prop := 48 <= code c <= 90.

Lemma column_char_space c : column_char c -> isspace c = false.
Proof.
  intros Hc. unfold isspace, is_char.
  repeat (apply orb_false_iff; split); apply bool_decide_eq_false; intros ->;
    vm_compute in Hc; intuition congruence.
Qed.

Lemma column_word t : t <> [] -> Forall column_char t -> word t.
Proof.
  intros Hne H. split; [done|]. eapply Forall_impl; [exact H|]. apply column_char_space.
Qed.

Lemma hex_columns l : Forall hex_char l -> Forall column_char l.
Proof. intros H. eapply Forall_impl; [exact H|]. unfold hex_char, column_char. lia. Qed.

Lemma decimal_columns n : 0 <= n -> Forall column_char (to_decimal n).
Proof.
  intros Hn. eapply Forall_impl; [by apply to_decimal_Forall|]. unfold column_char. lia.
Qed.

Lemma colon_column : column_char ":".
Proof. unfold column_char. vm_compute. split; discriminate. Qed.

Lemma endpoint_columns e : table_endpoint e -> Forall column_char (endpoint_text host_is_little_endian e).
Proof.
  intros (_ & Hb & _ & _ & Hp). unfold endpoint_text. apply Forall_app. split.
  - by apply hex_columns, address_text_chars.
  - constructor; [apply colon_column|]. apply hex_columns, hex_text_chars. lia.
Qed.

Lemma line_tokens_words fam l : valid_line fam l -> Forall word (line_tokens l).
Proof.
  intros (Hsl & [Hlo _] & [Hre _] & Hst & Htx & Hrx & (H1 & H2 & H3) & Hu & Hi & Hrest).
  unfold line_tokens. apply Forall_app. split; [|done].
  assert (forall n v, (0 < n)%nat -> 0 <= v -> word (hex_text n v)) as Hhex.
  { intros n v Hn Hv. apply column_word; [|by apply hex_columns, hex_text_chars].
    intros H. apply (f_equal length) in H. rewrite hex_text_length in H. simpl in H. lia. }
  assert (forall v, 0 <= v -> word (to_decimal v)) as Hdec.
  { intros v Hv. apply column_word; [by apply to_decimal_ne|by apply decimal_columns]. }
  assert (forall e, table_endpoint e -> word (endpoint_text host_is_little_endian e)) as Hep.
  { intros e He. apply column_word; [|by apply endpoint_columns].
    unfold endpoint_text. by destruct (address_text _ _). }
  constructor.
  { apply column_word; [by destruct (to_decimal _)|]. apply Forall_app.
    split; [by apply decimal_columns|]. constructor; [apply colon_column|constructor]. }
  do 2 (constructor; [by apply Hep|]). constructor; [apply Hhex; lia|]. constructor.
  { apply column_word; [by destruct (hex_text 8 (tl_tx l))|]. apply Forall_app.
    split; [apply hex_columns, hex_text_chars; lia|].
    constructor; [apply colon_column|]. apply hex_columns, hex_text_chars. lia. }
  do 2 (constructor; [done|]). constructor; [apply Hdec; lia|]. constructor; [done|].
  constructor; [apply Hdec; lia|constructor].
Qed.

Lemma parse_queues_text tx rx :
  0 <= tx <= uint32_max -> 0 <= rx <= uint32_max ->
  parse_queues (hex_text 8 tx ++ ":"%char :: hex_text 8 rx) = Some (tx, rx).
Proof.
  intros Ht Hr. unfold parse_queues.
  assert (":"%char ∉ hex_text 8 tx /\ ":"%char ∉ hex_text 8 rx) as [Hnt Hnr].
  { split; (apply hex_chars_no; [apply hex_text_chars; lia|apply not_hex_colon]). }
  destruct (find_app_parts ":" (hex_text 8 tx) (hex_text 8 rx) Hnt) as (-> & -> & ->).
  rewrite find_after by done.
  rewrite !parse_unsigned_hex by (lia || (change (16 ^ Z.of_nat 8) with (2 ^ 32); zlia)). done.
Qed.

Lemma unspecified_typed fam v :
  length v = 16%nat -> (fam = ipv4 -> drop 4 v = repeat 0 12) ->
  is_unspecified_address fam v = bool_decide (v = repeat 0 16).
Proof.
  intros Hl H4. unfold is_unspecified_address.
  assert (forall n l, forallb (fun b => b =? 0) l = bool_decide (l = repeat 0 n) \/ length l <> n) as Hz.
  { induction n as [|n IH]; intros [|b l]; try (by right); [by left|]. destruct (IH l) as [E|E].
    - left. simpl. rewrite E. destruct (Z.eqb_spec b 0) as [->|Hne]; simpl.
      + destruct (decide (l = repeat 0 n)) as [Hl'|Hn].
        * rewrite !bool_decide_eq_true_2; [done|by rewrite Hl'|done].
        * rewrite !bool_decide_eq_false_2; [done| |done]. by intros [=].
      + rewrite bool_decide_eq_false_2; [done|]. by intros [=].
    - right. simpl. lia. }
  destruct fam.
  - specialize (H4 eq_refl). destruct (Hz 4%nat (take 4 v)) as [->|E];
      [|rewrite length_take in E; lia].
    apply bool_decide_ext. rewrite <- (take_drop 4 v) at 2. rewrite H4.
    change (repeat 0 16) with (repeat 0 4 ++ repeat 0 12). split; [by intros ->|].
    by intros H%app_inv_tail.
  - rewrite take_ge by lia. by destruct (Hz 16%nat v) as [->|E].
Qed.

(** A line of a socket table parses to its endpoints, state, queues, user
    and inode, with the remote endpoint left out when it is unspecified, the
    state only for TCP, and the first owner of the inode as the process. *)
Theorem parse_proc_net_line_text (l : table_line) (proto : protocol) (fam : address_family)
    (owners : inode_pid_map_type) :
  valid_line fam l ->
  parse_proc_net_line host_is_little_endian (line_text l) proto fam owners =
  Some (line_record proto owners l).
Proof.
  intros Hv. pose proof (line_tokens_words fam l Hv) as Hwords.
  destruct Hv as (Hsl & [Hlo Hlf] & [Hre Hrf] & Hst & Htx & Hrx & _ & Hu & Hi & _).
  unfold parse_proc_net_line, line_text. rewrite tokens_concat by done.
  unfold line_tokens. cbn [app].
  assert (ends_with_colon (to_decimal (tl_slot l) ++ [":"%char]) = true) as ->
    by (unfold ends_with_colon; by rewrite last_snoc).
  assert (empty (to_decimal (tl_slot l) ++ [":"%char]) = false) as -> by (by destruct (to_decimal _)).
  pose proof (parse_endpoint_value host_is_little_endian (tl_local l) Hlo) as El.
  pose proof (parse_endpoint_value host_is_little_endian (tl_remote l) Hre) as Er.
  rewrite Hlf in El. rewrite Hrf in Er. rewrite El, Er.
  rewrite parse_unsigned_hex by (lia || (change (16 ^ Z.of_nat 2) with 256; zlia)).
  rewrite parse_queues_text, !parse_unsigned_decimal by done. simpl. unfold line_record.
  destruct Hre as (Hl & _ & H4 & _). rewrite Hrf in H4. by rewrite unspecified_typed by done.
Qed.

End lines.

Lemma parse_proc_net_line_text_witness :
  let e n p := Socket_endpoint_record (Ip_address_record ipv4 ([n; 0; 0; n / 127] ++ repeat 0 12) 0) p in
  let l := Table_line 0 (e 127 22) (e 0 0) 10 0 7 (lit "00:00000000") (lit "00000000") 1000 (lit "0")
    4711 [lit "1"; lit "0000000000000000"] in
  line_text true l = lit " 0: 0100007F:0016 00000000:0000 0A 00000000:00000007 00:00000000 00000000 1000 0 4711 1 0000000000000000" /\
  parse_proc_net_line true (line_text true l) tcp ipv4 {[4711 := [42; 43]]} =
    Some (line_record tcp {[4711 := [42; 43]]} l) /\
  pid (line_record tcp {[4711 := [42; 43]]} l) = Some 42.
Proof.
  intros e l. split; [vm_compute; reflexivity|]. split; [|vm_compute; reflexivity].
  apply (parse_proc_net_line_text true).
  assert (forall n p, is_byte n -> 0 <= p < 65536 -> table_endpoint (e n p)) as He.
  { intros n p Hn Hp. split; [reflexivity|]. unfold is_byte in *. split.
    - assert (0 <= n / 127 < 256) by div_lia. repeat constructor; lia || discriminate.
    - split; [reflexivity|]. split; [reflexivity|exact Hp]. }
  split; [simpl; lia|]. split; [split; [apply He; unfold is_byte; lia|reflexivity]|].
  split; [split; [apply He; unfold is_byte; lia|reflexivity]|].
  repeat split; try (simpl; zlia); try (vm_compute; discriminate); by_compute.
Defined.
