(* ===== verification/Os.v ===== *)
(** * Operating-system identity, uptime and boot time

    [include/syscape/detail/os/common.hpp] and
    [include/syscape/detail/os/linux.hpp]: the os-release parser with its
    quoting, the host name, the uptime and the boot time. *)
From S2P Require Import Prelude Result CppText Utf8 System.

(** ** common.hpp *)

Definition validate_utf8 (v : result text) : result text :=
  t ← v; reject (negb (is_valid_utf8 t)) errc_malformed_data;; Value t.

(** ** The os-release file *)

Record release_information := Release_information {
  name : text;
  pretty_name : text;
  version_id : text;
  build_id : text;
  image_id : text
}.

Definition no_release : release_information := Release_information [] [] [] [] [].

Definition is_space (v : ascii) : bool := is_char v " " || is_char v ch_tab.

Definition quote_single : ascii := "'".
Definition quote_double : ascii := "034".
Definition backslash : ascii := "\".

(** The loop over the characters between the quotes: [rest] is what is left of
    them, the closing quote excluded. *)
Fixpoint unquote_loop (quote : ascii) (rest output : text) : result text :=
  match rest with
  | [] => Value output
  | v :: rest =>
      if is_char v backslash && is_char quote quote_double then
        match rest with
        | [] => fail errc_malformed_data
        | escaped :: rest => unquote_loop quote rest (output ++ [escaped])
        end
      else unquote_loop quote rest (output ++ [v])
  end.

Definition decode_os_release_value (input : text) : result text :=
  match trim is_space input with
  | [] => Value []
  | quote :: rest =>
      if negb (is_char quote quote_single) && negb (is_char quote quote_double)
      then Value (quote :: rest)
      else
        match last rest with
        | Some closing =>
            if is_char closing quote then unquote_loop quote (removelast rest) []
            else fail errc_malformed_data
        | None => fail errc_malformed_data
        end
  end.

(** The chain of tests on the key. *)
Definition assign_release (key v : text) (o : release_information) : release_information :=
  let '(Release_information n p vi b i) := o in
  if same key (lit "NAME") then Release_information v p vi b i
  else if same key (lit "PRETTY_NAME") then Release_information n v vi b i
  else if same key (lit "VERSION_ID") then Release_information n p v b i
  else if same key (lit "BUILD_ID") then Release_information n p vi v i
  else if same key (lit "IMAGE_ID") then Release_information n p vi b v
  else if same key (lit "DISTRIB_ID") && empty n then Release_information v p vi b i
  else if same key (lit "DISTRIB_DESCRIPTION") && empty p then Release_information n v vi b i
  else if same key (lit "DISTRIB_RELEASE") && empty vi then Release_information n p v b i
  else if same key (lit "CHROMEOS_RELEASE_NAME") && empty n then Release_information v p vi b i
  else if same key (lit "CHROMEOS_RELEASE_VERSION") && empty vi then Release_information n p v b i
  else if same key (lit "CHROMEOS_RELEASE_BUILD_NUMBER") && empty b
  then Release_information n p vi v i
  else o.

(** The line without a carriage return at its end and blanks at its start. *)
Definition release_content (line : text) : text :=
  let line :=
    match last line with
    | Some c => if is_char c ch_cr then removelast line else line
    | None => line
    end in
  drop_front is_space line.

Definition release_line (line : text) (output : release_information)
    : step release_information (result release_information) :=
  let line := release_content line in
  match line with
  | [] => Next output
  | c :: _ =>
      if is_char c "#" then Next output
      else
        match find "=" line 0 with
        | None => Return (fail errc_malformed_data)
        | Some separator =>
            if (separator =? 0)%nat then Return (fail errc_malformed_data)
            else
              v <-? decode_os_release_value (substr_from (S separator) line);
              Next (assign_release (substr 0 separator line) v output)
        end
  end.

Definition parse_os_release (input : text) : result release_information :=
  finish (each_field ch_lf input release_line no_release) Value.

(** ** Queries *)

Record utsname := Utsname { sysname : text; uname_release : text }.

(** Durations are signed 64-bit counts. *)
Definition wrap_signed (w : Z) (v : Z) : Z := (v + 2 ^ (w - 1)) mod 2 ^ w - 2 ^ (w - 1).

Definition uptime_value (tv_sec tv_nsec : Z) : result Z :=
  if (tv_sec <? 0) || (tv_nsec <? 0) || (1000000000 <=? tv_nsec) then fail errc_malformed_data
  else
    let maximum_seconds := int64_max / 1000 in
    if maximum_seconds <? tv_sec then fail errc_value_too_large
    else
      let nanoseconds := wrap_signed 64 (wrap_signed 64 (tv_sec * 1000000000) + tv_nsec) in
      Value (Z.quot nanoseconds 1000000).

Definition boot_line (line : text) (s : unit) : step unit (result Z) :=
  if (6 <? length line)%nat && same (substr 0 6 line) (lit "btime ") then
    let digits := substr_from 6 line in
    let parsed := from_chars_signed int64_min int64_max 10 digits in
    if negb (consumed parsed digits) || (fc_value parsed <? 0) then Return (fail errc_malformed_data)
    else
      let maximum := int64_max / 1000000000 in
      if maximum <? fc_value parsed then Return (fail errc_value_too_large)
      else Return (Value (fc_value parsed * 1000000000))
  else Next s.

(** The loop of [boot_time] leaves at the line no line feed follows, which is
    the last field. *)
Definition parse_boot_time (statistics : text) : result Z :=
  finish (each_field ch_lf statistics boot_line ()) (fun _ => fail errc_not_found).

Section queries.
Context {W : Type} `{Kernel W}.

(** [if (!content && content.error() == no_such_file_or_directory) content = ...] *)
Definition or_else (first second : query W text) : query W (result text) :=
  content ← attempt first;
  match content with
  | Failure e => if matches_std_errc e ENOENT then attempt second else mret content
  | Value _ => mret content
  end.

Definition read_os_release : query W release_information :=
  content ← or_else (read_text_file (lit "/etc/os-release") default_maximum_size)
              (read_text_file (lit "/usr/lib/os-release") default_maximum_size);
  content ← or_else (pure content) (read_text_file (lit "/etc/lsb-release") default_maximum_size);
  content ← pure content;
  pure (parse_os_release content).

Definition product_name : query W text :=
  release ← read_os_release;
  pure (if negb (empty (pretty_name release)) then Value (pretty_name release)
        else if negb (empty (name release)) then Value (name release)
        else fail errc_not_found).

Definition product_version : query W text :=
  release ← read_os_release;
  pure (if empty (version_id release) then fail errc_not_found else Value (version_id release)).

Definition build_identifier : query W text :=
  release ← read_os_release;
  pure (if negb (empty (build_id release)) then Value (build_id release)
        else if negb (empty (image_id release)) then Value (image_id release)
        else fail errc_not_found).

(** [uname]: the record, or [errno]. *)
Variable uname : W -> (Z + utsname) * W.

Definition uname_information : query W utsname := fun w =>
  match uname w with
  | (inl errno, w) => (fail_native errno, w)
  | (inr v, w) => (Value v, w)
  end.

Definition kernel_name : query W text := v ← uname_information; mret (sysname v).

Definition kernel_version : query W text := v ← uname_information; mret (uname_release v).

(** [gethostname] on a buffer of a size: the buffer, or [errno]. *)
Variable gethostname : Z -> W -> (Z + text) * W.

Definition ENAMETOOLONG : Z := 36.

(** The sizes 256, 512, ... 2^20: after thirteen iterations the condition
    [buffer.size() <= maximum_size] fails. *)
Fixpoint host_name_loop (iterations : nat) (size : Z) : query W text := fun w =>
  match iterations with
  | O => (fail errc_value_too_large, w)
  | S iterations =>
      match gethostname size w with
      | (inr buffer, w) =>
          match find ch_nul buffer 0 with
          | Some stop => (Value (substr 0 stop buffer), w)
          | None => host_name_loop iterations (size * 2) w
          end
      | (inl errno, w) =>
          if negb (errno =? ENAMETOOLONG) && negb (errno =? EINVAL) then (fail_native errno, w)
          else host_name_loop iterations (size * 2) w
      end
  end.

Definition host_name : query W text := host_name_loop 13 256.

Definition boot_identifier : query W text :=
  v ← read_text_file (lit "/proc/sys/kernel/random/boot_id") default_maximum_size;
  let v := trim_line_end v in
  pure (if empty v then fail errc_malformed_data else Value v).

(** [clock_gettime]: seconds and nanoseconds, or [errno]. *)
Variable clock_gettime : W -> (Z + Z * Z) * W.

Definition uptime : query W Z := fun w =>
  match clock_gettime w with
  | (inl errno, w) => (fail_native errno, w)
  | (inr (tv_sec, tv_nsec), w) => (uptime_value tv_sec tv_nsec, w)
  end.

Definition boot_time : query W Z :=
  statistics ← read_text_file (lit "/proc/stat") default_maximum_size;
  pure (parse_boot_time statistics).

End queries.

(** ** Quoting *)

(** The double-quoted form of a value: quotes, backslashes, dollars and
    backquotes are escaped, as a shell needs it. *)
Definition needs_escape (c : ascii) : bool :=
  is_char c quote_double || is_char c backslash || is_char c "$" || is_char c "`".

Fixpoint escape (t : text) : text :=
  match t with
  | [] => []
  | c :: t => if needs_escape c then backslash :: c :: escape t else c :: escape t
  end.

Definition double_quoted (t : text) : text := quote_double :: escape t ++ [quote_double].

Lemma unquote_escape t output :
  unquote_loop quote_double (escape t) output = Value (output ++ t).
Proof.
  revert output. induction t as [|c t IH]; intros output; simpl; [by rewrite app_nil_r|].
  destruct (needs_escape c) eqn:Hc; simpl.
  - rewrite IH. by rewrite <- app_assoc.
  - unfold needs_escape in Hc. apply orb_false_iff in Hc as [[[_ Hb]%orb_false_iff _]%orb_false_iff _].
    rewrite Hb. simpl. rewrite IH. by rewrite <- app_assoc.
Qed.

Lemma unquote_single t output :
  unquote_loop quote_single t output = Value (output ++ t).
Proof.
  revert output. induction t as [|c t IH]; intros output; simpl; [by rewrite app_nil_r|].
  rewrite andb_false_r, IH. by rewrite <- app_assoc.
Qed.

Lemma trim_quoted c l blanks1 blanks2 :
  is_space c = false -> Forall (fun c => is_space c = true) blanks1 ->
  Forall (fun c => is_space c = true) blanks2 ->
  trim is_space (blanks1 ++ (c :: l ++ [c]) ++ blanks2) = c :: l ++ [c].
Proof.
  intros Hc H1 H2. apply trim_app; [done| |done]. split.
  - by intros d [= <-].
  - intros d. rewrite app_comm_cons, last_snoc. by intros [= <-].
Qed.

Lemma decode_quoted quote body blanks1 blanks2 :
  quote = quote_single \/ quote = quote_double ->
  Forall (fun c => is_space c = true) blanks1 -> Forall (fun c => is_space c = true) blanks2 ->
  decode_os_release_value (blanks1 ++ (quote :: body ++ [quote]) ++ blanks2) =
  unquote_loop quote body [].
Proof.
  intros Hq H1 H2. unfold decode_os_release_value.
  rewrite trim_quoted by (done || by destruct Hq as [->| ->]).
  assert (negb (is_char quote quote_single) && negb (is_char quote quote_double) = false) as ->
    by (by destruct Hq as [->| ->]).
  rewrite last_snoc. rewrite (proj2 (is_char_true quote quote) eq_refl).
  by rewrite removelast_last.
Qed.

(** [decode_os_release_value] undoes both quoting styles of os-release: the
    double-quoted form with its backslash escapes, for any value whatever, and
    the single-quoted form, between any blanks. *)
Theorem decode_os_release_quoted (t blanks1 blanks2 : text) :
  Forall (fun c => is_space c = true) blanks1 -> Forall (fun c => is_space c = true) blanks2 ->
  decode_os_release_value (blanks1 ++ double_quoted t ++ blanks2) = Value t /\
  decode_os_release_value (blanks1 ++ (quote_single :: t ++ [quote_single]) ++ blanks2) = Value t.
Proof.
  intros H1 H2. split.
  - unfold double_quoted. rewrite decode_quoted by auto. apply (unquote_escape t []).
  - rewrite decode_quoted by auto. apply (unquote_single t []).
Qed.

Lemma decode_os_release_quoted_witness :
  let t := lit "a" ++ [quote_double] ++ lit "b\$" in
  double_quoted t = [quote_double] ++ lit "a\" ++ [quote_double] ++ lit "b\\\$" ++ [quote_double] /\
  decode_os_release_value (lit " " ++ double_quoted t ++ []) = Value t.
Proof.
  intros t. split; [vm_compute; reflexivity|].
  apply (decode_os_release_quoted t (lit " ") []); repeat constructor.
Defined.

(** ** Uptime *)

Lemma wrap_signed_small v : int64_min <= v <= int64_max -> wrap_signed 64 v = v.
Proof. intros Hv. unfold wrap_signed. rewrite Z.mod_small by zlia. lia. Qed.

(** below 2^63 nanoseconds (about 292 years) [uptime] is the exact number
    of whole milliseconds. *)
Lemma uptime_value_exact (tv_sec tv_nsec : Z) :
  0 <= tv_sec < int64_max / 1000000000 -> 0 <= tv_nsec < 1000000000 ->
  uptime_value tv_sec tv_nsec = Value (tv_sec * 1000 + tv_nsec / 1000000).
Proof.
  intros Hs Hn. unfold uptime_value. change (int64_max / 1000) with 9223372036854775.
  change (int64_max / 1000000000) with 9223372036 in Hs.
  rewrite (proj2 (Z.ltb_ge tv_sec 0)), (proj2 (Z.ltb_ge tv_nsec 0)), (proj2 (Z.leb_gt _ _)) by lia.
  rewrite (proj2 (Z.ltb_ge _ tv_sec)) by lia. simpl orb. cbv iota zeta.
  rewrite (wrap_signed_small (tv_sec * 1000000000)) by zlia. rewrite wrap_signed_small by zlia.
  rewrite Z.quot_div_nonneg by lia.
  replace (tv_sec * 1000000000 + tv_nsec) with (tv_sec * 1000 * 1000000 + tv_nsec) by lia.
  by rewrite Z.div_add_l by lia.
Qed.


(** The guard lets pass seconds whose nanoseconds do not fit. *)
Lemma uptime_value_overflows : uptime_value 10000000000 0 = Value (-8446744073709).
Proof. reflexivity. Qed.
