(* ===== verification/Process.v ===== *)
(** * The calling process

    [include/syscape/detail/process/common.hpp],
    [include/syscape/detail/process/posix.hpp] and
    [include/syscape/detail/process/linux.hpp]: identifiers, the command line,
    the growing buffers of [readlink], [getcwd] and [sched_getaffinity], the
    parser of [/proc/self/stat] with the queries on it, nice values and
    resource limits. *)
From S2P Require Import Prelude Result CppText Utf8 System Os.

(** ** common.hpp *)

(** Nanoseconds. *)
Record cpu_time_usage := Cpu_time_usage { user : Z; system : Z }.

Record memory_usage_snapshot := Memory_usage_snapshot {
  resident_bytes : Z;
  virtual_bytes : Z
}.

Inductive limit_resource :=
  | core_file_size | limit_cpu_time | file_size | open_files | stack_size | address_space.

Record resource_limit_bound := Resource_limit_bound { amount : Z; unlimited : bool }.

#[global] Instance resource_limit_bound_eq_dec : EqDecision resource_limit_bound.
Proof. solve_decision. Defined.

Record resource_limit_snapshot := Resource_limit_snapshot {
  soft : resource_limit_bound;
  hard : resource_limit_bound
}.

Definition validate_utf8_path (v : result text) : result text :=
  t ← v;
  if empty t || negb (is_valid_utf8 t)
  then if empty t then fail errc_malformed_data else fail errc_invalid_encoding
  else Value t.

Definition validate_utf8_arguments (v : result (list text)) : result (list text) :=
  arguments ← v;
  for_each (fun argument => reject (negb (is_valid_utf8 argument)) errc_invalid_encoding) arguments;;
  Value arguments.

(** ** posix.hpp *)

(** Instantiated at [int]: the branch of signed types. *)
Definition validate_priority_in (v least_value greatest_value : Z) : result Z :=
  if (v <? least_value) || (greatest_value <? v) then fail errc_malformed_data else Value v.

(** [rlim_t] is an unsigned 64-bit integer and [RLIM_INFINITY] its maximum. *)
Definition RLIM_INFINITY : Z := uint64_max.

Definition convert_rlim_amount (v infinity_marker : Z) : result resource_limit_bound :=
  if v =? infinity_marker then Value (Resource_limit_bound 0 true)
  else Value (Resource_limit_bound v false).

Definition validate_limit_pair (soft hard : resource_limit_bound) : result unit :=
  let soft_within_hard :=
    unlimited hard || (negb (unlimited soft) && (amount soft <=? amount hard)) in
  if negb soft_within_hard then fail errc_malformed_data else Value ().

(** The [RLIMIT_*] constants of Linux. *)
Definition native_limit_resource (kind : limit_resource) : result Z :=
  match kind with
  | core_file_size => Value 4
  | limit_cpu_time => Value 0
  | file_size => Value 1
  | open_files => Value 7
  | stack_size => Value 3
  | address_space => Value 9
  end.

(** ** linux.hpp: identifiers *)

Definition process_id_value (v : Z) (zero_is_valid : bool) : result Z :=
  if (v <? 0) || (negb zero_is_valid && (v =? 0)) then fail errc_malformed_data
  else Value (wrap 32 v).

(** ** The command line *)

(** The loop from [start]: one unit of fuel is one argument. *)
Fixpoint argument_loop (fuel : nat) (input : text) (start : nat) (arguments : list text)
    : list text :=
  match fuel with
  | O => arguments
  | S fuel =>
      match find ch_nul input start with
      | None => arguments ++ [substr_from start input]
      | Some stop =>
          argument_loop fuel input (S stop) (arguments ++ [substr start (stop - start) input])
      end
  end.

Definition parse_command_line (input : text) : result (list text) :=
  match last input with
  | None => Value []
  | Some back =>
      if negb (is_char back ch_nul) then fail errc_malformed_data
      else
        let input := removelast input in
        Value (argument_loop (S (length input)) input 0 [])
  end.

(** ** /proc/self/stat *)

Record runtime_statistics := Runtime_statistics {
  user_ticks : Z;
  system_ticks : Z;
  threads : Z;
  start_ticks : Z;
  virtual_size_bytes : Z;
  resident_pages : Z
}.

Definition stat_separator (v : ascii) : bool :=
  is_char v " " || is_char v ch_tab || is_char v ch_lf || is_char v ch_cr || is_char v ch_ff ||
  is_char v ch_vt.

Definition parse_stat_field (token : text) : result Z :=
  if empty token then fail errc_malformed_data
  else
    let parsed := from_chars_unsigned uint64_max 10 token in
    if out_of_range parsed then fail errc_value_too_large
    else if negb (consumed parsed token) then fail errc_malformed_data
    else Value (fc_value parsed).

Definition required_fields : nat := 22.

(** The tokenizing loop: at most [required_fields] tokens. *)
Definition stat_fields (remainder : text) : list text :=
  match loop_state (each_token (R := False) stat_separator
          (fun fields => length fields <? required_fields)%nat remainder
          (fun token fields => Next (fields ++ [token])) []) with
  | Next fields => fields
  | Return no => match no with end
  end.

(** The part after the loop, on the tokens found. *)
Definition statistics_of_fields (fields : list text) : result runtime_statistics :=
  let field i := nth i fields [] in
  user_ticks ← parse_stat_field (field 11%nat);
  system_ticks ← parse_stat_field (field 12%nat);
  threads ← parse_stat_field (field 17%nat);
  reject (threads =? 0) errc_malformed_data;;
  reject (uint32_max <? threads) errc_value_too_large;;
  start_ticks ← parse_stat_field (field 19%nat);
  virtual_size ← parse_stat_field (field 20%nat);
  resident_pages ← parse_stat_field (field 21%nat);
  Value (Runtime_statistics user_ticks system_ticks (wrap 32 threads) start_ticks virtual_size
           resident_pages).

Definition parse_stat (input : text) : result runtime_statistics :=
  match find "(" input 0, rfind ")" input with
  | Some name_begin, Some name_end =>
      if (name_end <? name_begin)%nat then fail errc_malformed_data
      else
        let fields := stat_fields (substr_from (S name_end) input) in
        if (length fields <? required_fields)%nat then fail errc_malformed_data
        else statistics_of_fields fields
  | _, _ => fail errc_malformed_data
  end.

Definition clock_ticks_result (v errno : Z) : result Z :=
  if v <=? 0 then if errno =? 0 then fail errc_not_supported else fail_native errno else Value v.

Definition page_size_result (v errno : Z) : result Z :=
  if v <=? 0 then if errno =? 0 then fail errc_not_supported else fail_native errno
  else Value (wrap 64 v).

Definition validate_priority (v : Z) : result Z := validate_priority_in v (-20) 19.

(** ** Processor affinity: [sizeof(unsigned long)] is 8 *)

Definition affinity_bit (words : list Z) (word bit : nat) (indices : list Z) : result (list Z) :=
  if Z.land (Z.shiftr (nth word words 0) (Z.of_nat bit)) 1 =? 0 then Value indices
  else
    let index := wrap 64 (wrap 64 (wrap 64 (Z.of_nat word * 8) * 8) + Z.of_nat bit) in
    if uint32_max <? index then fail errc_value_too_large
    else Value (indices ++ [wrap 32 index]).

Definition affinity_word (words : list Z) (word : nat) (indices : list Z) : result (list Z) :=
  fold_result (affinity_bit words word) (seq 0 64) indices.

Definition affinity_indices (words : list Z) : result (list Z) :=
  indices ← fold_result (affinity_word words) (seq 0 (length words)) [];
  match indices with [] => fail errc_malformed_data | _ => Value indices end.

(** ** Queries *)

Section queries.
Context {W : Type} `{Kernel W}.

(** [getpid] and [getppid]. *)
Context (getpid getppid : W -> Z).

Definition process_id : query W Z := fun w => (process_id_value (getpid w) false, w).

Definition parent_process_id : query W Z := fun w => (process_id_value (getppid w) true, w).

(** [readlink] on a buffer of a size: the bytes it stored there, or [errno].
    The loop can be interrupted any number of times: [None] is a loop that has
    not ended after [fuel] calls. *)
Fixpoint read_link_loop (read_link : Z -> W -> (Z + text) * W) (fuel : nat) (size : Z) (w : W)
    : option (result text * W) :=
  match fuel with
  | O => None
  | S fuel =>
      match read_link size w with
      | (inr stored, w) =>
          if Z.of_nat (length stored) <? size then Some (Value stored, w)
          else if 1024 * 1024 / 2 <? size then Some (fail errc_value_too_large, w)
          else read_link_loop read_link fuel (size * 2) w
      | (inl errno, w) =>
          if negb (errno =? EINTR) then Some (fail_native errno, w)
          else read_link_loop read_link fuel size w
      end
  end.

Definition read_link_with_growth (read_link : Z -> W -> (Z + text) * W) (fuel : nat) (w : W)
    : option (result text * W) := read_link_loop read_link fuel 256 w.

Context (readlink : text -> Z -> W -> (Z + text) * W).

(** The test of [executable_path] on the link it read. *)
Definition absolute_path (v : result text) : result text :=
  path ← v;
  match path with
  | c :: _ => if is_char c "/" then Value path else fail errc_malformed_data
  | [] => fail errc_malformed_data
  end.

Definition executable_path (fuel : nat) (w : W) : option (result text * W) :=
  match read_link_with_growth (readlink (lit "/proc/self/exe")) fuel w with
  | Some (v, w) => Some (absolute_path v, w)
  | None => None
  end.

Definition command_line : query W (list text) :=
  input ← read_text_file (lit "/proc/self/cmdline") default_maximum_size;
  pure (parse_command_line input).

(** [getcwd] on a buffer of a size: the buffer up to its NUL, or [errno].
    [None] is a loop that has not ended after [fuel] calls. *)
Context (getcwd : Z -> W -> (Z + text) * W).

Fixpoint working_directory_loop (fuel : nat) (size : Z) (w : W) : option (result text * W) :=
  match fuel with
  | O => None
  | S fuel =>
      match getcwd size w with
      | (inr path, w) => Some (if empty path then fail errc_malformed_data else Value path, w)
      | (inl errno, w) =>
          if negb (errno =? ERANGE) then Some (fail_native errno, w)
          else
            let maximum_size := 1024 * 1024 in
            if maximum_size <=? size then Some (fail errc_value_too_large, w)
            else working_directory_loop fuel
                   (if size <=? maximum_size / 2 then size * 2 else maximum_size) w
      end
  end.

Definition working_directory (w : W) : option (result text * W) :=
  working_directory_loop 11 1024 w.

Definition read_runtime_statistics : query W runtime_statistics :=
  content ← read_text_file (lit "/proc/self/stat") default_maximum_size;
  pure (parse_stat content).

Definition clock_ticks_per_second : query W Z := fun w =>
  match sysconf SC_CLK_TCK w with ((v, errno), w) => (clock_ticks_result v errno, w) end.

Definition page_size_bytes : query W Z := fun w =>
  match sysconf SC_PAGESIZE w with ((v, errno), w) => (page_size_result v errno, w) end.

Definition cpu_time : query W cpu_time_usage :=
  statistics ← read_runtime_statistics;
  rate ← clock_ticks_per_second;
  user ← pure (ticks_to_nanoseconds (user_ticks statistics) rate);
  system ← pure (ticks_to_nanoseconds (system_ticks statistics) rate);
  mret (Cpu_time_usage user system).

Definition start_time : query W Z :=
  statistics ← read_runtime_statistics;
  rate ← clock_ticks_per_second;
  age ← pure (ticks_to_nanoseconds (start_ticks statistics) rate);
  boot ← boot_time;
  pure (compose_start_time boot age).

Definition thread_count : query W Z :=
  statistics ← read_runtime_statistics; mret (threads statistics).

Definition memory_usage : query W memory_usage_snapshot :=
  statistics ← read_runtime_statistics;
  page ← page_size_bytes;
  resident ← pure (scale_resident_bytes (resident_pages statistics) page);
  mret (Memory_usage_snapshot resident (virtual_size_bytes statistics)).

(** [getpriority]: the value and the [errno] it leaves. *)
Context (getpriority : W -> (Z * Z) * W).

Definition priority_in (least_value greatest_value : Z) : query W Z := fun w =>
  match getpriority w with
  | ((v, errno), w) =>
      (if (v =? -1) && negb (errno =? 0) then fail_native errno
       else validate_priority_in v least_value greatest_value, w)
  end.

Definition priority : query W Z := priority_in (-20) 19.

(** [sched_getaffinity] on a mask of so many words: the mask, or [errno].
    [cpu_set_t] has sixteen words; [None] is a loop that has not ended after
    [fuel] calls. *)
Context (sched_getaffinity : nat -> W -> (Z + list Z) * W).

Definition maximum_words : nat := 16 * 512.

Fixpoint cpu_affinity_loop (fuel : nat) (words : nat) (w : W) : option (result (list Z) * W) :=
  match fuel with
  | O => None
  | S fuel =>
      match sched_getaffinity words w with
      | (inr mask, w) => Some (affinity_indices mask, w)
      | (inl errno, w) =>
          if negb (errno =? EINVAL) || (maximum_words <=? words)%nat then
            Some (if (errno =? EINVAL) && (maximum_words <=? words)%nat
                  then fail errc_value_too_large else fail_native errno, w)
          else cpu_affinity_loop fuel (words * 2) w
      end
  end.

Definition cpu_affinity (w : W) : option (result (list Z) * W) := cpu_affinity_loop 10 16 w.

(** [getrlimit]: the soft and hard values, or [errno]. *)
Context (getrlimit : Z -> W -> (Z + Z * Z) * W).

Definition limit_snapshot (rlim_cur rlim_max : Z) : result resource_limit_snapshot :=
  soft ← convert_rlim_amount rlim_cur RLIM_INFINITY;
  hard ← convert_rlim_amount rlim_max RLIM_INFINITY;
  validate_limit_pair soft hard;;
  Value (Resource_limit_snapshot soft hard).

Definition resource_limit (kind : limit_resource) : query W resource_limit_snapshot := fun w =>
  match native_limit_resource kind with
  | Failure e => (Failure e, w)
  | Value native_kind =>
      match getrlimit native_kind w with
      | (inl errno, w) => (fail_native errno, w)
      | (inr (rlim_cur, rlim_max), w) => (limit_snapshot rlim_cur rlim_max, w)
      end
  end.

End queries.

(** ** The command line *)

Definition nul_terminated (arguments : list text) : text :=
  concat ((fun argument => argument ++ [ch_nul]) <$> arguments).

(** The arguments a text without its final NUL denotes. *)
Lemma argument_loop_split fuel input start arguments :
  (length input < fuel + start)%nat -> (start <= length input)%nat ->
  exists rest, argument_loop fuel input start arguments = arguments ++ rest /\
    Forall (fun a => ch_nul ∉ a) rest /\ rest <> [] /\
    drop start input ++ [ch_nul] = nul_terminated rest.
Proof.
  revert start arguments. induction fuel as [|fuel IH]; intros start arguments Hfuel Hstart; [lia|].
  simpl. unfold find. destruct (find_first (is_char ch_nul) (drop start input)) as [i|] eqn:E; simpl.
  - pose proof (find_first_lt _ _ _ E) as Hi. rewrite length_drop in Hi.
    destruct (find_first_split _ _ _ E) as (c & Hl & Hc & Hf). apply is_char_true in Hc as <-.
    destruct (IH (S (start + i)) (arguments ++ [substr start (start + i - start) input]))
      as (rest & -> & Hrest & _ & Hd); [lia..|].
    exists (take i (drop start input) :: rest). split_and!.
    + rewrite <- app_assoc. simpl. unfold substr. by replace (start + i - start)%nat with i by lia.
    + constructor; [|done]. intros Hin. rewrite Forall_forall in Hf.
      by apply Hf, is_char_false in Hin.
    + done.
    + unfold nul_terminated in *. csimpl. rewrite <- Hd. rewrite Hl at 1.
      rewrite <- !app_assoc. simpl. rewrite drop_drop. by replace (start + S i)%nat with (S (start + i)) by lia.
  - exists [substr_from start input]. split_and!; [done| |done|].
    + constructor; [|constructor]. intros Hin. apply find_first_none in E. rewrite Forall_forall in E.
      by apply E, is_char_false in Hin.
    + unfold nul_terminated. csimpl. by rewrite app_nil_r.
Qed.

Lemma nul_terminated_inj l k :
  Forall (fun a => ch_nul ∉ a) l -> Forall (fun a => ch_nul ∉ a) k ->
  nul_terminated l = nul_terminated k -> l = k.
Proof.
  intros Hl Hk H. apply (f_equal (fields ch_nul)) in H. unfold nul_terminated in H.
  rewrite <- (app_nil_r (concat _)), <- (app_nil_r (concat (_ <$> k))) in H.
  rewrite !fields_concat in H by done. simpl in H. by rewrite !app_nil_r in H.
Qed.

(** C9: the argument vector is recovered exactly: a list of arguments is the
    result if and only if none holds a NUL and the file is the arguments, each
    followed by a NUL; and every other file is malformed. *)
Theorem parse_command_line_arguments (input : text) :
  (forall arguments, parse_command_line input = Value arguments <->
    Forall (fun a => ch_nul ∉ a) arguments /\ input = nul_terminated arguments) /\
  (forall e, parse_command_line input = Failure e <->
    e = make_error_code errc_malformed_data /\ input <> [] /\ last input <> Some ch_nul).
Proof.
  unfold parse_command_line. destruct input as [|c body _] using rev_ind.
  { simpl. split; [|by intros e; split; [|intros (_ & [] & _)]]. intros arguments. split.
    - by intros [= <-].
    - intros [_ H]. destruct arguments as [|[|? ?] ?]; done. }
  rewrite last_snoc, removelast_last. destruct (is_char c ch_nul) eqn:Hc; cbn [negb].
  - apply is_char_true in Hc as ->.
    destruct (argument_loop_split (S (length body)) body 0 []) as (rest & -> & Hrest & _ & Hd); [lia..|].
    rewrite drop_0 in Hd. simpl. split.
    + intros arguments. split; [by intros [= <-]|]. intros [Ha Hb]. f_equal.
      apply nul_terminated_inj; [done..|]. congruence.
    + intros e. split; [done|]. intros (_ & _ & []). done.
  - split.
    + intros arguments. split; [done|]. intros [_ H]. exfalso.
      destruct arguments as [|a arguments _] using rev_ind; [by destruct body|].
      unfold nul_terminated in H. rewrite fmap_app, concat_app in H. csimpl in H.
      rewrite app_nil_r, app_assoc in H. apply app_inj_tail in H as [_ ->]. done.
    + intros e. split.
      * intros [= <-]. split_and!; [done|by destruct body|]. by intros [= ->].
      * by intros (-> & _ & _).
Qed.

(** ** The statistics file *)

Lemma parse_stat_field_to_decimal v :
  0 <= v <= uint64_max -> parse_stat_field (to_decimal v) = Value v.
Proof.
  intros Hv. unfold parse_stat_field.
  rewrite (proj2 (empty_false _) (to_decimal_ne v ltac:(lia))).
  rewrite from_chars_to_decimal by done. unfold out_of_range, consumed. simpl.
  by rewrite Nat.eqb_refl.
Qed.

Lemma stat_fields_tokens ts :
  (required_fields <= length ts)%nat ->
  Forall (fun t => t <> [] /\ Forall (fun c => stat_separator c = false) t) ts ->
  stat_fields (concat (cons " "%char <$> ts)) = take required_fields ts.
Proof.
  intros Hlen Hts. unfold stat_fields. rewrite each_token_tokens, tokens_concat by done.
  assert (forall n acc, length acc + n = required_fields -> (n <= length ts)%nat ->
    fold_while (R := False) (fun fields => length fields <? required_fields)%nat
      (fun token fields => Next (fields ++ [token])) ts acc = Next (acc ++ take n ts))%nat as H.
  { clear. induction ts as [|t ts IH]; intros n acc Hn Hle.
    - simpl in Hle. assert (n = 0)%nat as -> by lia. by rewrite app_nil_r.
    - cbn [fold_while]. destruct n as [|n].
      + rewrite (proj2 (Nat.ltb_ge _ _)) by lia. by rewrite take_0, app_nil_r.
      + rewrite (proj2 (Nat.ltb_lt _ _)) by lia. rewrite (IH n).
        * by rewrite <- app_assoc.
        * rewrite length_app. simpl. lia.
        * simpl in Hle. lia. }
  by rewrite (H required_fields []).
Qed.

(** A line of the file: identifier, name in parentheses, the other fields. *)
Definition stat_text (pid comm : text) (fields : list text) : text :=
  pid ++ "("%char :: comm ++ ")"%char :: concat (cons " "%char <$> fields).

Definition stat_token (t : text) : Prop :=
  t <> [] /\ Forall (fun c => stat_separator c = false /\ c <> ")"%char) t.

Lemma stat_text_parts pid comm fields :
  Forall stat_token fields ->
  exists name_begin name_end, find "(" (stat_text pid comm fields) 0 = Some name_begin /\
    rfind ")" (stat_text pid comm fields) = Some name_end /\ (name_begin <= name_end)%nat /\
    substr_from (S name_end) (stat_text pid comm fields) = concat (cons " "%char <$> fields).
Proof.
  intros Hf. unfold stat_text.
  assert (")"%char ∉ concat (cons " "%char <$> fields)) as Hout.
  { apply not_in_spaced; [done|]. eapply Forall_impl; [exact Hf|]. intros t [_ Ht] Hin.
    rewrite Forall_forall in Ht. by apply Ht in Hin as []. }
  destruct (rfind_app_parts ")" (pid ++ "("%char :: comm) (concat (cons " "%char <$> fields)) Hout)
    as (Hr & _ & Hs).
  rewrite <- app_assoc in Hr, Hs. cbn [app] in Hr, Hs. rewrite find_0.
  destruct (find_first (is_char "(") _) as [i|] eqn:E.
  - exists i, (length (pid ++ "("%char :: comm)). split_and!; [done|exact Hr| |exact Hs].
    rewrite length_app. cbn [length]. destruct (Nat.le_gt_cases i (length pid)); [lia|].
    apply find_first_split in E as (c & _ & _ & Hall). rewrite Forall_forall in Hall.
    assert ("("%char ∈ take i (pid ++ "("%char :: comm ++ ")"%char :: concat (cons " "%char <$> fields)))
      as Hin%Hall; [|by apply is_char_false in Hin].
    rewrite take_app_ge by lia. destruct (i - length pid)%nat eqn:Ei; [lia|]. simpl. set_solver.
  - exfalso. apply find_first_none in E. rewrite Forall_forall in E.
    assert (is_char "(" "(" = false) as H by (apply E; set_solver). done.
Qed.

Lemma parse_stat_fields pid comm fields :
  (required_fields <= length fields)%nat -> Forall stat_token fields ->
  parse_stat (stat_text pid comm fields) = statistics_of_fields (take required_fields fields).
Proof.
  intros Hlen Hf. unfold parse_stat. destruct (stat_text_parts pid comm fields Hf) as (i & j & -> & -> & Hij & ->).
  rewrite (proj2 (Nat.ltb_ge _ _)) by done. rewrite stat_fields_tokens; [|done|].
  - by rewrite length_take_le, Nat.ltb_irrefl by done.
  - eapply Forall_impl; [exact Hf|]. intros t [Hne Ht]. split; [done|].
    eapply Forall_impl; [exact Ht|]. by intros c [? _].
Qed.

(** C10: whatever the process is called, parentheses, blanks and line feeds
    included, [parse_stat] reads the six numbers from fields 14, 15, 20, 22, 23
    and 24 of the file; a thread count of zero is malformed and one above 32
    bits too large. *)
Theorem parse_stat_text (pid comm : text) (fields : list text)
    (user system threads start vsize rss : Z) :
  Forall stat_token fields -> (22 <= length fields)%nat ->
  fields !! 11%nat = Some (to_decimal user) -> fields !! 12%nat = Some (to_decimal system) ->
  fields !! 17%nat = Some (to_decimal threads) -> fields !! 19%nat = Some (to_decimal start) ->
  fields !! 20%nat = Some (to_decimal vsize) -> fields !! 21%nat = Some (to_decimal rss) ->
  Forall (fun v => 0 <= v <= uint64_max) [user; system; threads; start; vsize; rss] ->
  parse_stat (stat_text pid comm fields) =
  if threads =? 0 then fail errc_malformed_data
  else if uint32_max <? threads then fail errc_value_too_large
  else Value (Runtime_statistics user system threads start vsize rss).
Proof.
  intros Hf Hlen Hu Hs Ht Hst Hv Hr Hb. rewrite parse_stat_fields by done.
  assert (forall i t, fields !! i = Some t -> (i < 22)%nat -> nth i (take required_fields fields) [] = t)
    as Hnth.
  { intros i t Hi Hlt. apply nth_lookup_Some. by rewrite lookup_take_lt. }
  unfold statistics_of_fields. cbv zeta.
  rewrite (Hnth _ _ Hu), (Hnth _ _ Hs), (Hnth _ _ Ht), (Hnth _ _ Hst), (Hnth _ _ Hv), (Hnth _ _ Hr) by lia.
  rewrite !Forall_cons in Hb. destruct Hb as (? & ? & ? & ? & ? & ? & _).
  rewrite !parse_stat_field_to_decimal by done. simpl.
  destruct (Z.eqb_spec threads 0); [done|]. simpl. unfold reject.
  destruct (Z.ltb_spec uint32_max threads); [done|]. simpl.
  unfold wrap. rewrite Z.mod_small by zlia. done.
Qed.

Lemma parse_stat_text_witness :
  let fields := (fun s => lit s) <$>
    ["S"; "1"; "1"; "1"; "0"; "-1"; "4194560"; "10"; "0"; "0"; "0"; "250"; "17"; "0"; "0"; "20";
     "0"; "3"; "0"; "9000"; "1048576"; "512"; "184467440737"]%string in
  parse_stat (stat_text (lit "42") (lit "a) 1 (b") fields) =
  Value (Runtime_statistics 250 17 3 9000 1048576 512).
Proof.
  intros fields.
  refine (eq_trans (parse_stat_text (lit "42") (lit "a) 1 (b") fields 250 17 3 9000 1048576 512
    _ _ _ _ _ _ _ _ _) _);
    [|vm_compute; lia|reflexivity..| |reflexivity].
  - subst fields. unfold stat_token. csimpl.
    repeat (constructor; [split; [discriminate|repeat constructor; done]|]). constructor.
  - repeat (constructor; [vm_compute; split; discriminate|]). constructor.
Defined.

(** ** Growing buffers *)

Section read_link.
Context {W : Type} (read_link : Z -> W -> (Z + text) * W).

(** A link with a fixed target, read through calls each of which may be
    interrupted, at most [interruptions w] times from the state [w]. *)
Context (target : text) (interruptions : W -> nat).

Definition reads_target : Prop :=
  forall size w,
    match read_link size w with
    | (inl errno, w') => errno = EINTR /\ (interruptions w' < interruptions w)%nat
    | (inr stored, w') => stored = take (Z.to_nat size) target /\
                          (interruptions w' <= interruptions w)%nat
    end.

Lemma read_link_loop_target k fuel w :
  reads_target -> 0 <= k <= 12 -> (12 - Z.to_nat k + interruptions w < fuel)%nat ->
  exists w', read_link_loop read_link fuel (256 * 2 ^ k) w =
    Some (if Z.of_nat (length target) <? 2 ^ 20 then Value target else fail errc_value_too_large, w').
Proof.
  intros Hlaw. revert k w. induction fuel as [|fuel IH]; intros k w Hk Hfuel; [lia|]. cbn [read_link_loop].
  pose proof (Hlaw (256 * 2 ^ k) w) as Hcall.
  assert (256 * 2 ^ k <= 2 ^ 20) as Hmax.
  { change (2 ^ 20) with (256 * 2 ^ 12). pose proof (Z.pow_le_mono_r 2 k 12). lia. }
  pose proof (Z.pow_pos_nonneg 2 k ltac:(lia) ltac:(lia)) as Hpos.
  destruct (read_link (256 * 2 ^ k) w) as [[errno|stored] w'].
  - destruct Hcall as [-> Hlt]. cbn [negb Z.eqb]. simpl. apply IH; lia.
  - destruct Hcall as [-> Hle]. rewrite length_take.
    destruct (Z.ltb_spec (Z.of_nat (Z.to_nat (256 * 2 ^ k) `min` length target)) (256 * 2 ^ k)).
    + exists w'. rewrite take_ge by lia. by rewrite (proj2 (Z.ltb_lt _ _)) by lia.
    + destruct (decide (k = 12)) as [->|].
      * simpl. exists w'. by rewrite (proj2 (Z.ltb_ge _ (2 ^ 20))) by lia.
      * assert (256 * 2 ^ k <= 256 * 2 ^ 11) by (pose proof (Z.pow_le_mono_r 2 k 11); lia).
        rewrite (proj2 (Z.ltb_ge (1024 * 1024 / 2) _)) by (change (1024 * 1024 / 2) with (256 * 2 ^ 11); lia).
        replace (256 * 2 ^ k * 2) with (256 * 2 ^ (k + 1)) by (rewrite Z.pow_add_r; lia).
        apply IH; lia.
Qed.

End read_link.

(** C11: [read_link_with_growth] never returns a truncated target: whatever the
    length, it ends within thirteen calls besides the interrupted ones, with
    the whole target if it is below a mebibyte and [value_too_large] otherwise. *)
Theorem read_link_with_growth_complete {W} (read_link : Z -> W -> (Z + text) * W)
    (target : text) (interruptions : W -> nat) (fuel : nat) (w : W) :
  reads_target read_link target interruptions -> (12 + interruptions w < fuel)%nat ->
  exists w', read_link_with_growth read_link fuel w =
    Some (if Z.of_nat (length target) <? 2 ^ 20 then Value target else fail errc_value_too_large, w').
Proof.
  intros Hlaw Hfuel. apply (read_link_loop_target read_link target interruptions 0); [done|lia..].
Qed.

(** A link whose first [w] reads are interrupted. *)
Definition interrupted_link (target : text) (size : Z) (w : nat) : (Z + text) * nat :=
  match w with
  | O => (inr (take (Z.to_nat size) target), O)
  | S w => (inl EINTR, w)
  end.

Lemma read_link_with_growth_complete_witness :
  exists w', read_link_with_growth (interrupted_link (replicate 600 "a"%char)) 16 3%nat =
    Some (Value (replicate 600 "a"%char), w').
Proof.
  destruct (read_link_with_growth_complete (interrupted_link (replicate 600 "a"%char))
    (replicate 600 "a"%char) (fun w => w) 16 3%nat) as [w' Hw'].
  - intros size [|w]; simpl; [by split|split; [done|lia]].
  - lia.
  - exists w'. exact Hw'.
Defined.

(** The other two growing buffers have stopped when the fuel they are given ends. *)
Lemma working_directory_loop_total {W} (getcwd : Z -> W -> (Z + text) * W) k fuel w :
  0 <= k <= 10 -> (10 - Z.to_nat k < fuel)%nat ->
  working_directory_loop getcwd fuel (1024 * 2 ^ k) w <> None.
Proof.
  revert k w. induction fuel as [|fuel IH]; intros k w Hk Hfuel; [lia|]. cbn [working_directory_loop].
  destruct (getcwd _ w) as [[errno|path] w']; [|done]. destruct (negb _); [done|]. cbv zeta.
  destruct (decide (k = 10)) as [->|]; [done|].
  assert (1024 * 2 ^ k <= 1024 * 2 ^ 9) by (pose proof (Z.pow_le_mono_r 2 k 9); lia).
  change (1024 * 1024 / 2) with (1024 * 2 ^ 9).
  rewrite (proj2 (Z.leb_gt (1024 * 1024) _)), (proj2 (Z.leb_le _ (1024 * 2 ^ 9))) by lia.
  replace (1024 * 2 ^ k * 2) with (1024 * 2 ^ (k + 1)) by (rewrite Z.pow_add_r; lia).
  apply IH; lia.
Qed.

Lemma working_directory_total {W} (getcwd : Z -> W -> (Z + text) * W) w :
  working_directory getcwd w <> None.
Proof. apply (working_directory_loop_total getcwd 0); lia. Qed.

Lemma cpu_affinity_loop_total {W} (sched : nat -> W -> (Z + list Z) * W) k fuel w :
  (k <= 9)%nat -> (9 - k < fuel)%nat -> cpu_affinity_loop sched fuel (16 * 2 ^ k) w <> None.
Proof.
  revert k w. induction fuel as [|fuel IH]; intros k w Hk Hfuel; [lia|]. cbn [cpu_affinity_loop].
  destruct (sched _ w) as [[errno|mask] w']; [|done]. destruct (_ || _) eqn:E; [done|].
  apply orb_false_iff in E as [_ E]. apply Nat.leb_gt in E.
  change maximum_words with (16 * 2 ^ 9)%nat in E.
  replace (16 * 2 ^ k * 2)%nat with (16 * 2 ^ (k + 1))%nat by (rewrite Nat.pow_add_r; simpl; lia).
  destruct (decide (k = 9)%nat) as [->|]; [lia|]. apply IH; lia.
Qed.

Lemma cpu_affinity_total {W} (sched : nat -> W -> (Z + list Z) * W) w :
  cpu_affinity sched w <> None.
Proof. apply (cpu_affinity_loop_total sched 0); lia. Qed.

(** ** Affinity *)

Definition mask_bit (words : list Z) (i : nat) : bool :=
  Z.testbit (nth (i / 64) words 0) (Z.of_nat (i mod 64)).

Lemma affinity_bit_spec words word bit indices :
  Z.of_nat (length words) <= 2 ^ 26 -> (word < length words)%nat -> (bit < 64)%nat ->
  affinity_bit words word bit indices =
  Value (indices ++ (Z.of_nat <$> filter (mask_bit words) [(word * 64 + bit)%nat])).
Proof.
  intros Hlen Hw Hb. unfold affinity_bit, mask_bit.
  assert (Z.land (Z.shiftr (nth word words 0) (Z.of_nat bit)) 1 =
          Z.b2z (Z.testbit (nth word words 0) (Z.of_nat bit))) as ->.
  { change 1 with (Z.ones 1). rewrite Z.land_ones, Z.testbit_spec' by lia.
    by rewrite Z.shiftr_div_pow2 by lia. }
  assert (Z.of_nat word < 67108864) by lia.
  rewrite filter_cons. rewrite Nat.div_add_l, Nat.div_small by lia.
  rewrite (Nat.add_comm _ bit), Nat.Div0.mod_add, (Nat.mod_small bit), Nat.add_0_r by lia.
  destruct (Z.testbit _ _); cbn [Z.b2z Z.eqb].
  - rewrite decide_True by done. unfold wrap.
    rewrite (Z.mod_small (Z.of_nat word * 8)), (Z.mod_small (Z.of_nat word * 8 * 8)),
      (Z.mod_small (_ + _)) by lia.
    rewrite (proj2 (Z.ltb_ge _ _)) by zlia. rewrite Z.mod_small by zlia.
    rewrite filter_nil. csimpl. do 3 f_equal. lia.
  - rewrite decide_False by (by intros []). csimpl. by rewrite app_nil_r.
Qed.

Lemma filter_seq_extend words from n :
  Z.of_nat <$> filter (mask_bit words) (seq from (S n)) =
  (Z.of_nat <$> filter (mask_bit words) (seq from n)) ++
  (Z.of_nat <$> filter (mask_bit words) [(from + n)%nat]).
Proof. by rewrite seq_S, filter_app, fmap_app. Qed.

Lemma affinity_word_spec words word indices :
  Z.of_nat (length words) <= 2 ^ 26 -> (word < length words)%nat ->
  affinity_word words word indices =
  Value (indices ++ (Z.of_nat <$> filter (mask_bit words) (seq (word * 64) 64))).
Proof.
  intros Hlen Hw. unfold affinity_word.
  assert (forall n bit acc, (bit + n <= 64)%nat ->
    fold_result (affinity_bit words word) (seq bit n) acc =
    Value (acc ++ (Z.of_nat <$> filter (mask_bit words) (seq (word * 64 + bit) n)))) as H.
  { induction n as [|n IH]; intros bit acc Hb; [by csimpl; rewrite app_nil_r|].
    cbn [seq fold_result]. rewrite affinity_bit_spec by lia. simpl mbind. cbn [mbind result_bind].
    rewrite IH by lia. rewrite <- app_assoc, <- fmap_app, <- filter_app. cbn [app].
    by rewrite Nat.add_succ_r. }
  rewrite (H 64%nat 0%nat indices) by lia. by rewrite Nat.add_0_r.
Qed.

(** [affinity_indices] lists exactly the set bits of the mask, in ascending
    order, bit [b] of word [i] being processor [64 i + b]; a mask without bits
    is malformed. *)
Theorem affinity_indices_bits (words : list Z) :
  Z.of_nat (length words) <= 2 ^ 26 ->
  affinity_indices words =
  match filter (mask_bit words) (seq 0 (64 * length words)) with
  | [] => fail errc_malformed_data
  | indices => Value (Z.of_nat <$> indices)
  end.
Proof.
  intros Hlen. unfold affinity_indices.
  assert (forall n word acc, (word + n <= length words)%nat ->
    fold_result (affinity_word words) (seq word n) acc =
    Value (acc ++ (Z.of_nat <$> filter (mask_bit words) (seq (word * 64) (64 * n))))) as H.
  { induction n as [|n IH]; intros word acc Hw; [by csimpl; rewrite app_nil_r|].
    cbn [seq fold_result]. rewrite affinity_word_spec by lia. cbn [mbind result_bind].
    rewrite IH by lia. rewrite <- app_assoc, <- fmap_app, <- filter_app.
    replace (64 * S n)%nat with (64 + 64 * n)%nat by lia. rewrite seq_app.
    by replace (S word * 64)%nat with (word * 64 + 64)%nat by lia. }
  rewrite (H (length words) 0%nat []) by lia. rewrite Nat.mul_0_l. cbn [mbind result_bind app].
  by destruct (filter _ _).
Qed.

Lemma affinity_indices_bits_witness :
  affinity_indices [5; 2 ^ 63] = Value [0; 2; 127].
Proof.
  refine (eq_trans (affinity_indices_bits [5; 2 ^ 63] _) _); [vm_compute; discriminate|].
  vm_compute. reflexivity.
Defined.

(** ** Resource limits *)

(** A recorded value as a bound, and the order of bounds: no bound is above
    every amount. *)
Definition bound_of (v : Z) : resource_limit_bound :=
  if v =? RLIM_INFINITY then Resource_limit_bound 0 true else Resource_limit_bound v false.

(** a limit is reported exactly when its soft value does not exceed its
    hard one, with the no-bound marker above every finite amount, and a finite
    amount is reported as it is recorded. *)
Lemma limit_snapshot_spec (rlim_cur rlim_max : Z) :
  0 <= rlim_cur <= uint64_max -> 0 <= rlim_max <= uint64_max ->
  limit_snapshot rlim_cur rlim_max =
  if rlim_cur <=? rlim_max
  then Value (Resource_limit_snapshot (bound_of rlim_cur) (bound_of rlim_max))
  else fail errc_malformed_data.
Proof.
  intros Hc Hm. unfold limit_snapshot, convert_rlim_amount, validate_limit_pair, bound_of, RLIM_INFINITY.
  destruct (Z.eqb_spec rlim_cur uint64_max), (Z.eqb_spec rlim_max uint64_max); simpl;
    destruct (Z.leb_spec rlim_cur rlim_max); simpl; try done; lia.
Qed.

