(* ===== verification/ProcessList.v ===== *)
(** * The process list

    [include/syscape/detail/process_list/common.hpp] and
    [include/syscape/detail/process_list/linux.hpp]: the process entry of
    [include/syscape/process_list.hpp], the matching of names, the parsers of
    the [/proc/<pid>] files and the walk over [/proc].  The parsers are shown
    to agree with those of the calling process ([Process.v]). *)
From S2P Require Import Prelude Result CppText Utf8 System Os Process.

(** ** process_list.hpp *)

Inductive process_state := unknown | running | sleeping | stopped | zombie.

#[global] Instance process_state_eq_dec : EqDecision process_state.
Proof. solve_decision. Defined.

Record process_entry := Process_entry {
  pe_pid : Z;
  pe_ppid : option Z;
  pe_uid : option Z;
  pe_gid : option Z;
  pe_user_name : option text;
  pe_name : option text;
  pe_executable_path : option text;
  pe_command_line : option (list text);
  pe_working_directory : option text;
  pe_state : process_state;
  pe_user_cpu_time : option Z;
  pe_kernel_cpu_time : option Z;
  pe_start_time : option Z;
  pe_resident_memory_bytes : option Z;
  pe_virtual_memory_bytes : option Z;
  pe_thread_count : option Z;
  pe_priority : option Z
}.

#[global] Instance process_entry_eq_dec : EqDecision process_entry.
Proof. solve_decision. Defined.

(** The fields the status file gives, and those the other files give. *)
Definition with_identity (uid gid : option Z) (name : option text) (e : process_entry)
    : process_entry :=
  Process_entry (pe_pid e) (pe_ppid e) uid gid (pe_user_name e) name (pe_executable_path e)
    (pe_command_line e) (pe_working_directory e) (pe_state e) (pe_user_cpu_time e)
    (pe_kernel_cpu_time e) (pe_start_time e) (pe_resident_memory_bytes e)
    (pe_virtual_memory_bytes e) (pe_thread_count e) (pe_priority e).

Definition with_context (user_name executable_path : option text) (command_line : option (list text))
    (working_directory : option text) (e : process_entry) : process_entry :=
  Process_entry (pe_pid e) (pe_ppid e) (pe_uid e) (pe_gid e) user_name (pe_name e) executable_path
    command_line working_directory (pe_state e) (pe_user_cpu_time e) (pe_kernel_cpu_time e)
    (pe_start_time e) (pe_resident_memory_bytes e) (pe_virtual_memory_bytes e) (pe_thread_count e)
    (pe_priority e).

(** ** common.hpp *)

Definition equals_ignore_case (l r : text) : bool :=
  if negb (length l =? length r)%nat then false else ignore_case_loop l r.

Definition extract_basename (path : text) : text :=
  match find_last_of (lit "/\") path with
  | None => path
  | Some slash_pos => substr_from (S slash_pos) path
  end.

Definition matches_process_name (entry : process_entry) (target : text) (ignore_case : bool) : bool :=
  if empty target then false
  else
    let matched t := same t target || (ignore_case && equals_ignore_case t target) in
    if match pe_name entry with Some n => matched n | None => false end then true
    else
      match pe_executable_path entry with
      | Some path => matched (extract_basename path)
      | None => false
      end.

Definition sort_processes (l : list process_entry) : list process_entry :=
  std_sort (fun a b => pe_pid a <? pe_pid b) l.

(** ** linux.hpp: fields *)

Definition is_stat_separator (c : ascii) : bool :=
  is_char c " " || is_char c ch_tab || is_char c ch_lf || is_char c ch_cr || is_char c ch_ff ||
  is_char c ch_vt.

Definition parse_u64_field (token : text) : result Z :=
  if empty token then fail errc_malformed_data
  else
    let parsed := from_chars_unsigned uint64_max 10 token in
    if out_of_range parsed then fail errc_value_too_large
    else if negb (consumed parsed token) then fail errc_malformed_data
    else Value (fc_value parsed).

Definition parse_i64_field (token : text) : result Z :=
  if empty token then fail errc_malformed_data
  else
    let parsed := from_chars_signed int64_min int64_max 10 token in
    if out_of_range parsed then fail errc_value_too_large
    else if negb (consumed parsed token) then fail errc_malformed_data
    else Value (fc_value parsed).

(** ** The command line *)

Fixpoint cmdline_loop (fuel : nat) (input : text) (start : nat) (args : list text)
    : result (list text) :=
  match fuel with
  | O => Value args
  | S fuel =>
      if (start <? length input)%nat then
        match find ch_nul input start with
        | None =>
            let arg := substr_from start input in
            if negb (is_valid_utf8 arg) then fail errc_invalid_encoding else Value (args ++ [arg])
        | Some stop =>
            let arg := substr start (stop - start) input in
            if negb (is_valid_utf8 arg) then fail errc_invalid_encoding
            else cmdline_loop fuel input (S stop) (args ++ [arg])
        end
      else Value args
  end.

Definition parse_proc_cmdline (input : text) : result (list text) :=
  match last input with
  | None => Value []
  | Some back =>
      if negb (is_char back ch_nul) then fail errc_malformed_data
      else cmdline_loop (S (length input)) input 0 []
  end.

(** ** The status file *)

Definition first_word (rest : text) : text :=
  match find_first_of [" "%char; ch_tab] rest with
  | None => rest
  | Some sp => substr 0 sp rest
  end.

(** The identifier a line gives, or the one recorded before. *)
Definition parse_identifier (line : text) (recorded : option Z) : option Z :=
  match parse_u64_field (first_word (substr_from 5 line)) with
  | Value v => if v <=? uint32_max then Some (wrap 32 v) else recorded
  | Failure _ => recorded
  end.

Definition name_tail (c : ascii) : bool :=
  is_char c ch_cr || is_char c ch_lf || is_char c " " || is_char c ch_tab.

Definition status_line (line : text) (e : process_entry) : step process_entry False :=
  if (5 <=? length line)%nat && same (substr 0 5 line) (lit "Uid:" ++ [ch_tab]) then
    Next (with_identity (parse_identifier line (pe_uid e)) (pe_gid e) (pe_name e) e)
  else if (5 <=? length line)%nat && same (substr 0 5 line) (lit "Gid:" ++ [ch_tab]) then
    Next (with_identity (pe_uid e) (parse_identifier line (pe_gid e)) (pe_name e) e)
  else
    match pe_name e with
    | None =>
        if (6 <=? length line)%nat && same (substr 0 6 line) (lit "Name:" ++ [ch_tab]) then
          let name := drop_back name_tail (substr_from 6 line) in
          if is_valid_utf8 name then Next (with_identity (pe_uid e) (pe_gid e) (Some name) e)
          else Next e
        else Next e
    | Some _ => Next e
    end.

Definition parse_proc_status (content : text) (e : process_entry) : process_entry :=
  match each_field ch_lf content status_line e with
  | Next e => e
  | Return no => match no with end
  end.

(** ** The stat file *)

Definition max_fields : nat := 22.

Definition entry_fields (remainder : text) : list text :=
  match loop_state (each_token (R := False) is_stat_separator
          (fun fields => length fields <? max_fields)%nat remainder
          (fun token fields => Next (fields ++ [token])) []) with
  | Next fields => fields
  | Return no => match no with end
  end.

Definition state_of (field : text) : process_state :=
  match field with
  | [] => unknown
  | c :: _ =>
      if is_char c "R" then running
      else if bool_decide (c ∈ lit "SDIKWP") then sleeping
      else if bool_decide (c ∈ lit "Tt") then stopped
      else if bool_decide (c ∈ lit "ZXx") then zombie
      else unknown
  end.

(** [if (ticks_per_sec > 0) entry.field = ticks_to_nanoseconds(...)]. *)
Definition optional_time (ticks ticks_per_sec : Z) : result (option Z) :=
  if 0 <? ticks_per_sec then Some <$> ticks_to_nanoseconds ticks ticks_per_sec else Value None.

Definition optional_start (ticks ticks_per_sec : Z) (boot : option Z) : result (option Z) :=
  match boot with
  | Some boot =>
      if 0 <? ticks_per_sec then
        age ← ticks_to_nanoseconds ticks ticks_per_sec;
        Some <$> compose_start_time boot age
      else Value None
  | None => Value None
  end.

Definition optional_bytes (pages page_size : Z) : result (option Z) :=
  if 0 <? page_size then Some <$> scale_resident_bytes pages page_size else Value None.

(** The part after the tokenizing loop. *)
Definition entry_of_fields (pid : Z) (name : option text) (ticks_per_sec page_size : Z)
    (boot : option Z) (fields : list text) : result process_entry :=
  let field i := nth i fields [] in
  ppid ← parse_u64_field (field 1%nat);
  reject (uint32_max <? ppid) errc_value_too_large;;
  utime ← parse_u64_field (field 11%nat);
  user_cpu_time ← optional_time utime ticks_per_sec;
  stime ← parse_u64_field (field 12%nat);
  kernel_cpu_time ← optional_time stime ticks_per_sec;
  pri ← parse_i64_field (field 15%nat);
  reject ((pri <? int32_min) || (int32_max <? pri)) errc_value_too_large;;
  threads ← parse_u64_field (field 17%nat);
  reject (uint32_max <? threads) errc_value_too_large;;
  starttime ← parse_u64_field (field 19%nat);
  start_time ← optional_start starttime ticks_per_sec boot;
  vsize ← parse_u64_field (field 20%nat);
  rss ← parse_u64_field (field 21%nat);
  resident ← optional_bytes rss page_size;
  Value (Process_entry pid (Some (wrap 32 ppid)) None None None name None None None
           (state_of (field 0%nat)) user_cpu_time kernel_cpu_time start_time resident (Some vsize)
           (Some (wrap 32 threads)) (Some pri)).

Definition parse_proc_stat_entry (content : text) (pid ticks_per_sec page_size : Z)
    (boot : option Z) : result process_entry :=
  match find "(" content 0, rfind ")" content with
  | Some name_start, Some name_end =>
      if (name_end <? name_start)%nat then fail errc_malformed_data
      else
        let comm := substr (S name_start) (name_end - name_start - 1) content in
        let name := if is_valid_utf8 comm then Some comm else None in
        let fields := entry_fields (substr_from (S name_end) content) in
        if (length fields <? max_fields)%nat then fail errc_malformed_data
        else entry_of_fields pid name ticks_per_sec page_size boot fields
  | _, _ => fail errc_malformed_data
  end.

Definition skippable_process_error (e : error_code) : bool :=
  matches_errc e errc_not_found || matches_std_errc e EACCES ||
  matches_errc e errc_malformed_data || matches_errc e errc_value_too_large.

(** The process number a directory entry names. *)
Definition process_number (name : text) : option Z :=
  match name with
  | [] => None
  | c :: _ =>
      if (code c <? 48) || (57 <? code c) then None
      else
        let parsed := from_chars_unsigned uint32_max 10 name in
        if negb (consumed parsed name) || (fc_value parsed =? 0) then None
        else Some (fc_value parsed)
  end.

(** ** Queries

    A query that reads a link can be interrupted any number of times: it takes
    the number of calls a loop may make, and [None] is a loop that has not
    ended after them. *)

Definition partial (W A : Type) : Type := W -> option (result A * W).

#[global] Instance partial_ret {W} : MRet (partial W) := fun A v w => Some (Value v, w).

#[global] Instance partial_bind {W} : MBind (partial W) := fun A B f m w =>
  match m w with
  | Some (Value v, w) => f v w
  | Some (Failure e, w) => Some (Failure e, w)
  | None => None
  end.

Definition run {W A} (m : query W A) : partial W A := fun w => Some (m w).

Section queries.
Context {W : Type} `{Kernel W}.

Context (readlink : text -> Z -> W -> (Z + text) * W).

Fixpoint read_symlink_loop (link_path : text) (fuel : nat) (size : Z) : partial W (option text) :=
  fun w =>
  match fuel with
  | O => None
  | S fuel =>
      match readlink link_path size w with
      | (inr stored, w) =>
          if Z.of_nat (length stored) <? size
          then Some (Value (if is_valid_utf8 stored then Some stored else None), w)
          else if 1024 * 1024 / 2 <? size then Some (Value None, w)
          else read_symlink_loop link_path fuel (size * 2) w
      | (inl errno, w) =>
          if errno =? EINTR then read_symlink_loop link_path fuel size w
          else Some (Value None, w)
      end
  end.

Definition read_symlink_path (link_path : text) (fuel : nat) : partial W (option text) :=
  read_symlink_loop link_path fuel 256.

(** [getpwuid_r] on a buffer of a size: its error number, or the name of the
    entry if there is one.  The sizes are 1024, 2048, ... 2^20. *)
Context (getpwuid_r : Z -> Z -> W -> (Z + option text) * W).

Fixpoint lookup_loop (uid : Z) (fuel : nat) (size : Z) : partial W (option text) := fun w =>
  match fuel with
  | O => None
  | S fuel =>
      let maximum_size := 1024 * 1024 in
      match getpwuid_r uid size w with
      | (inl outcome, w) =>
          if (outcome =? ERANGE) && (size <? maximum_size) then
            lookup_loop uid fuel (if size <=? maximum_size / 2 then size * 2 else maximum_size) w
          else Some (Value None, w)
      | (inr None, w) => Some (Value None, w)
      | (inr (Some uname), w) =>
          Some (Value (if is_valid_utf8 uname then Some uname else None), w)
      end
  end.

Definition lookup_username_by_uid (uid : Z) : partial W (option text) := lookup_loop uid 11 1024.

Definition proc_path (pid : Z) (file : string) : text :=
  lit "/proc/" ++ to_decimal pid ++ lit file.

Definition read_proc (pid : Z) (file : string) : partial W (result text) :=
  run (attempt (read_text_file (proc_path pid file) default_maximum_size)).

Definition query_single_process (fuel : nat) (pid ticks_per_sec page_size : Z) (boot : option Z)
    : partial W process_entry :=
  stat_content ← read_proc pid "/stat";
  match stat_content with
  | Failure e =>
      run (pure (if matches_std_errc e ENOENT || matches_errc e errc_not_found
                 then fail errc_not_found else Failure e))
  | Value stat_content =>
      entry ← run (pure (parse_proc_stat_entry stat_content pid ticks_per_sec page_size boot));
      status_content ← read_proc pid "/status";
      let entry := match status_content with
                   | Value content => parse_proc_status content entry
                   | Failure _ => entry
                   end in
      user_name ← match pe_uid entry with
                  | Some uid => lookup_username_by_uid uid
                  | None => mret None
                  end;
      cmdline_content ← read_proc pid "/cmdline";
      command_line ←
        match cmdline_content with
        | Value content =>
            match parse_proc_cmdline content with
            | Value args => mret (Some args)
            | Failure e =>
                if negb (matches_errc e errc_invalid_encoding) &&
                   negb (matches_errc e errc_malformed_data)
                then run (pure (Failure e)) else mret None
            end
        | Failure _ => mret None
        end;
      exe ← read_symlink_path (proc_path pid "/exe") fuel;
      cwd ← read_symlink_path (proc_path pid "/cwd") fuel;
      mret (with_context user_name exe command_line cwd entry)
  end.

(** The parameters of the walk: clock rate, page size, boot time. *)
Definition walk_parameters : query W (Z * Z * option Z) := fun w =>
  let '((ticks, _), w) := sysconf SC_CLK_TCK w in
  let '((page_sz, _), w) := sysconf SC_PAGESIZE w in
  let page_size := if 0 <? page_sz then wrap 64 page_sz else 0 in
  match (if 0 <? ticks then ticks_to_nanoseconds 0 ticks else Value 0) with
  | Failure e => (Failure e, w)
  | Value _ =>
      match boot_time w with
      | (Value boot, w) => (Value (ticks, page_size, Some boot), w)
      | (Failure _, w) => (Value (ticks, page_size, None), w)
      end
  end.

Fixpoint process_loop (fuel : nat) (ticks page_size : Z) (boot : option Z) (names : list text)
    (result_list : list process_entry) : partial W (list process_entry) := fun w =>
  match names with
  | [] => Some (Value result_list, w)
  | name :: names =>
      match process_number name with
      | None => process_loop fuel ticks page_size boot names result_list w
      | Some pid =>
          match query_single_process fuel pid ticks page_size boot w with
          | Some (Value entry, w) =>
              process_loop fuel ticks page_size boot names (result_list ++ [entry]) w
          | Some (Failure e, w) =>
              if negb (skippable_process_error e) then Some (Failure e, w)
              else process_loop fuel ticks page_size boot names result_list w
          | None => None
          end
      end
  end.

Definition processes (fuel : nat) : partial W (list process_entry) := fun w =>
  match list_directory (lit "/proc") w with
  | (inl errno, w) => Some (fail_native errno, w)
  | (inr (names, errno), w) =>
      ('(ticks, page_size, boot) ← run walk_parameters;
       result_list ← process_loop fuel ticks page_size boot names [];
       if negb (errno =? 0) then run (pure (fail_native errno))
       else mret (sort_processes result_list)) w
  end.

Definition process_count (fuel : nat) : partial W Z :=
  l ← processes fuel;
  run (pure (if uint32_max <? Z.of_nat (length l) then fail errc_value_too_large
             else Value (wrap 32 (Z.of_nat (length l))))).

Definition find_process (fuel : nat) (pid : Z) : partial W process_entry :=
  if pid =? 0 then run (pure (fail errc_not_found))
  else
    '(ticks, page_size, boot) ← run walk_parameters;
    query_single_process fuel pid ticks page_size boot.

Definition find_processes_by_name (fuel : nat) (name : text) : partial W (list process_entry) :=
  if empty name then mret []
  else
    all ← processes fuel;
    mret (List.filter (fun entry => matches_process_name entry name false) all).

End queries.

(** ** The command line agrees with that of the calling process *)

Definition utf8_argument (a : text) : result unit := reject (negb (is_valid_utf8 a)) errc_invalid_encoding.

Lemma cmdline_loop_arguments rest fuel input start args :
  Forall (fun a => ch_nul ∉ a) rest -> drop start input = nul_terminated rest ->
  (length rest < fuel)%nat ->
  cmdline_loop fuel input start args = (for_each utf8_argument rest;; Value (args ++ rest)).
Proof.
  intros Hrest. revert fuel start args. induction Hrest as [|a rest Ha _ IH]; intros fuel start args Hd Hf.
  - destruct fuel; simpl; [by rewrite app_nil_r|]. apply drop_nil_iff in Hd.
    rewrite (proj2 (Nat.ltb_ge _ _)) by done. by rewrite app_nil_r.
  - destruct fuel as [|fuel]; [simpl in Hf; lia|]. cbn [cmdline_loop].
    assert (drop start input = a ++ ch_nul :: nul_terminated rest) as Hs.
    { rewrite Hd. unfold nul_terminated. csimpl. by rewrite <- app_assoc. }
    rewrite (proj2 (Nat.ltb_lt _ _)).
    2:{ destruct (Nat.lt_ge_cases start (length input)); [done|].
        rewrite drop_ge in Hs by done. by destruct a. }
    unfold find. rewrite Hs. rewrite <- find_0, find_app by done. simpl.
    unfold substr. rewrite Hs. replace (start + length a - start)%nat with (length a) by lia.
    rewrite take_app_length. assert (utf8_argument a = reject (negb (is_valid_utf8 a)) errc_invalid_encoding) as -> by done.
    destruct (is_valid_utf8 a); [|done]. simpl.
    rewrite IH; [by rewrite <- app_assoc| |simpl in Hf; lia].
    replace (S (start + length a)) with (start + (length a + 1))%nat by lia.
    by rewrite <- drop_drop, Hs, <- drop_drop, drop_app_length.
Qed.

(** the process list and the calling process read a command line the same
    way: on every input, errors included, the parser of the process list is
    the other one followed by the check of the encoding. *)
Lemma parse_proc_cmdline_agrees (input : text) :
  parse_proc_cmdline input = validate_utf8_arguments (parse_command_line input).
Proof.
  unfold parse_proc_cmdline, parse_command_line.
  destruct input as [|c body _] using rev_ind; [done|]. rewrite last_snoc, removelast_last.
  destruct (is_char c ch_nul) eqn:Hc; [|done]. apply is_char_true in Hc as ->. cbn [negb].
  destruct (argument_loop_split (S (length body)) body 0 []) as (rest & -> & Hrest & _ & Hd); [lia..|].
  rewrite drop_0 in Hd. rewrite (cmdline_loop_arguments rest); [reflexivity|done|by rewrite drop_0|].
  rewrite Hd. clear. induction rest as [|a rest IH]; simpl; [lia|].
  unfold nul_terminated in *. csimpl. rewrite !length_app. simpl. lia.
Qed.

(** ** The stat file agrees with that of the calling process *)

Lemma entry_of_fields_value pid name ticks page_size boot fields e :
  entry_of_fields pid name ticks page_size boot fields = Value e ->
  pe_pid e = pid /\ pe_name e = name /\ pe_state e = state_of (nth 0 fields []).
Proof. unfold entry_of_fields. intros H. inv_result. done. Qed.

Lemma fields_agree fields pid name ticks page_size boot s e :
  statistics_of_fields fields = Value s ->
  entry_of_fields pid name ticks page_size boot fields = Value e ->
  pe_thread_count e = Some (threads s) /\
  pe_virtual_memory_bytes e = Some (virtual_size_bytes s) /\
  optional_time (user_ticks s) ticks = Value (pe_user_cpu_time e) /\
  optional_time (system_ticks s) ticks = Value (pe_kernel_cpu_time e) /\
  optional_start (start_ticks s) ticks boot = Value (pe_start_time e) /\
  optional_bytes (resident_pages s) page_size = Value (pe_resident_memory_bytes e).
Proof.
  unfold statistics_of_fields, entry_of_fields. change parse_u64_field with parse_stat_field.
  intros Hs He. inv_result.
  repeat match goal with
  | H1 : parse_stat_field ?t = Value _, H2 : parse_stat_field ?t = Value _ |- _ =>
      rewrite H1 in H2; injection H2 as ->
  end. done.
Qed.

(** the process list and the calling process read the stat file the same
    way: where both succeed, threads, sizes, times and start are the same
    conversions of the same fields. *)
Lemma stat_parsers_agree (content : text) (pid ticks page_size : Z) (boot : option Z)
    (s : runtime_statistics) (e : process_entry) :
  parse_stat content = Value s ->
  parse_proc_stat_entry content pid ticks page_size boot = Value e ->
  pe_thread_count e = Some (threads s) /\
  pe_virtual_memory_bytes e = Some (virtual_size_bytes s) /\
  optional_time (user_ticks s) ticks = Value (pe_user_cpu_time e) /\
  optional_time (system_ticks s) ticks = Value (pe_kernel_cpu_time e) /\
  optional_start (start_ticks s) ticks boot = Value (pe_start_time e) /\
  optional_bytes (resident_pages s) page_size = Value (pe_resident_memory_bytes e).
Proof.
  unfold parse_stat, parse_proc_stat_entry. change entry_fields with stat_fields.
  change max_fields with required_fields.
  destruct (find _ _ _) as [b|]; [|done]. destruct (rfind _ _) as [r|]; [|done].
  destruct (_ <? _)%nat; [done|]. cbv zeta. destruct (_ <? _)%nat; [done|]. apply fields_agree.
Qed.

Definition sample_stat : text :=
  lit "42 (a) b) S 1 1 1 0 -1 4194560 10 0 0 0 250 17 0 0 20 0 3 0 9000 1048576 512 1844".


(** ** Matching names *)

Lemma equals_ignore_case_spec l r :
  equals_ignore_case l r = true <-> tolower <$> l = tolower <$> r.
Proof.
  unfold equals_ignore_case. destruct (Nat.eqb_spec (length l) (length r)) as [E|E]; simpl.
  - by apply ignore_case_loop_spec.
  - split; [done|]. intros H. apply (f_equal length) in H. by rewrite !length_fmap in H.
Qed.

(** The part after the last separator. *)
Lemma extract_basename_app directory c base :
  c = "/"%char \/ c = "\"%char -> "/"%char ∉ base -> "\"%char ∉ base ->
  extract_basename (directory ++ c :: base) = base.
Proof.
  intros Hc H1 H2. unfold extract_basename, find_last_of.
  rewrite find_last_app; [apply substr_suffix| |].
  - apply bool_decide_eq_true. destruct Hc as [->| ->]; set_solver.
  - apply Forall_forall. intros d Hd. apply bool_decide_eq_false. intros Hin.
    change (lit "/\") with ["/"%char; "\"%char] in Hin.
    apply elem_of_cons in Hin as [->|Hin%list_elem_of_singleton]; [done|by subst].
Qed.

(** An entry matches a nonempty name exactly when its own name or the last
    component of its executable path is that name, letter case aside if asked. *)
Theorem matches_process_name_spec (entry : process_entry) (target : text) (ignore_case : bool) :
  matches_process_name entry target ignore_case = true <->
  target <> [] /\
  exists t, (pe_name entry = Some t \/
             exists path, pe_executable_path entry = Some path /\ t = extract_basename path) /\
            (t = target \/ ignore_case = true /\ tolower <$> t = tolower <$> target).
Proof.
  unfold matches_process_name.
  destruct (empty target) eqn:He.
  { apply empty_true in He as ->. split; [done|]. by intros [[] _]. }
  apply empty_false in He. cbv zeta.
  assert (forall t, same t target || (ignore_case && equals_ignore_case t target) = true <->
    t = target \/ ignore_case = true /\ tolower <$> t = tolower <$> target) as Hm.
  { intros t. by rewrite orb_true_iff, andb_true_iff, same_true, equals_ignore_case_spec. }
  destruct (pe_name entry) as [n|].
  - destruct (_ || _) eqn:E.
    + split; [|done]. intros _. split; [done|]. exists n. split; [by left|]. by apply Hm.
    + assert (~ (n = target \/ ignore_case = true /\ tolower <$> n = tolower <$> target)) as Hn
        by (intros H%Hm; congruence).
      destruct (pe_executable_path entry) as [path|]; [rewrite Hm|]; naive_solver.
  - destruct (pe_executable_path entry) as [path|]; [rewrite Hm|]; naive_solver.
Qed.

(** ** The walk *)

(** Every value [m] returns satisfies [P]. *)
Definition returns {W A} (m : partial W A) (P : A -> Prop) : Prop :=
  forall w v w', m w = Some (Value v, w') -> P v.

Lemma returns_bind {W A B} (m : partial W A) (f : A -> partial W B) (Q : A -> Prop) P :
  returns m Q -> (forall x, Q x -> returns (f x) P) -> returns (x ← m; f x) P.
Proof.
  intros Hm Hf w v w'. unfold mbind, partial_bind.
  destruct (m w) as [[[x|e] w1]|] eqn:E; [|done..]. apply (Hf x), (Hm _ _ _ E).
Qed.

Lemma returns_skip {W A B} (m : partial W A) (f : A -> partial W B) P :
  (forall x, returns (f x) P) -> returns (x ← m; f x) P.
Proof. intros H. apply (returns_bind m f (fun _ => True)); [done|auto]. Qed.

Lemma returns_ret {W A} (v : A) (P : A -> Prop) : P v -> returns (W := W) (mret v) P.
Proof. by intros HP w v' w' [= <- <-]. Qed.

Lemma returns_pure {W A} (r : result A) (P : A -> Prop) :
  (forall v, r = Value v -> P v) -> returns (W := W) (run (pure r)) P.
Proof. intros HP w v w' [= -> <-]. by apply HP. Qed.

Lemma parse_proc_status_pid content e : pe_pid (parse_proc_status content e) = pe_pid e.
Proof.
  unfold parse_proc_status. rewrite each_field_fields.
  pose proof (fold_steps_inv (fun e' => pe_pid e' = pe_pid e) (fun _ : False => True) status_line
    (fields ch_lf content) e eq_refl) as H.
  destruct (fold_steps _ _ _) as [e'|[]]. apply H. intros line e1 He1.
  unfold status_line. repeat case_match; simplify_eq; done.
Qed.

Lemma parse_proc_stat_entry_pid content pid ticks page_size boot e :
  parse_proc_stat_entry content pid ticks page_size boot = Value e -> pe_pid e = pid.
Proof.
  unfold parse_proc_stat_entry. destruct (find _ _ _); [|done]. destruct (rfind _ _); [|done].
  destruct (_ <? _)%nat; [done|]. cbv zeta. destruct (_ <? _)%nat; [done|].
  by intros (? & _ & _)%entry_of_fields_value.
Qed.

Section walk.
Context {W : Type} `{Kernel W}.
Context (readlink : text -> Z -> W -> (Z + text) * W).
Context (getpwuid_r : Z -> Z -> W -> (Z + option text) * W).

Lemma query_single_process_pid fuel pid ticks page_size boot :
  returns (query_single_process readlink getpwuid_r fuel pid ticks page_size boot)
    (fun e => pe_pid e = pid).
Proof.
  unfold query_single_process. apply returns_skip. intros [stat|e]; cycle 1.
  { apply returns_pure. intros v. by destruct (_ || _). }
  apply (returns_bind _ _ (fun e => pe_pid e = pid)).
  { apply returns_pure. intros e. apply parse_proc_stat_entry_pid. }
  intros entry Hentry. apply returns_skip. intros status. cbv zeta. do 5 (apply returns_skip; intros ?).
  apply returns_ret. simpl. destruct status; [by rewrite parse_proc_status_pid|done].
Qed.

Lemma process_number_bound name pid : process_number name = Some pid -> 0 < pid <= uint32_max.
Proof.
  unfold process_number. destruct name as [|c name]; [done|]. destruct (_ || _); [done|]. cbv zeta.
  destruct (_ || _) eqn:E; [done|]. bool_to_prop. intros [= <-].
  pose proof (fc_value_bound uint32_max 10 (c :: name) ltac:(lia) ltac:(zlia)). lia.
Qed.

Lemma process_loop_pids fuel ticks page_size boot names acc :
  returns (process_loop readlink getpwuid_r fuel ticks page_size boot names acc)
    (fun l => exists found, l = acc ++ found /\
       sublist (pe_pid <$> found) (omap process_number names)).
Proof.
  revert acc. induction names as [|name names IH]; intros acc w v w'.
  { intros [= <- <-]. exists []. by rewrite app_nil_r. }
  cbn [process_loop]. csimpl. destruct (process_number name) as [pid|]; [|apply IH].
  destruct (query_single_process _ _ _ _ _ _ _ w) as [[[entry|e] w1]|] eqn:E; [| |done].
  - intros (found & -> & Hsub)%IH. exists (entry :: found). split; [by rewrite <- app_assoc|].
    csimpl. apply query_single_process_pid in E as ->. by apply sublist_skip.
  - destruct (negb _); [done|]. intros (found & -> & Hsub)%IH. exists found. split; [done|].
    by apply sublist_cons.
Qed.

End walk.

Definition pid_order (a b : process_entry) : Prop := pe_pid a <= pe_pid b.

Lemma sort_processes_sorted l : StronglySorted pid_order (sort_processes l).
Proof.
  assert (forall a b, not_after (fun a b => pe_pid a <? pe_pid b) a b <-> pid_order a b) as Hiff.
  { intros a b. unfold not_after, pid_order. apply Z.ltb_ge. }
  eapply StronglySorted_weaken; [intros a b; apply Hiff|]. apply std_sort_sorted.
  - intros a b c Hab%Hiff Hbc%Hiff. apply Hiff. unfold pid_order in *. lia.
  - intros a b. rewrite !Hiff. unfold pid_order. lia.
Qed.

(** What [processes] returns is in ascending order of process identifiers,
    and its identifiers are among those the directory names, each at most as
    often, all positive: no process is invented, and none is listed more often
    than the directory names it. *)
Theorem processes_listed {W} `{Kernel W} (readlink : text -> Z -> W -> (Z + text) * W)
    (getpwuid_r : Z -> Z -> W -> (Z + option text) * W) (fuel : nat) (w w' w1 : W)
    (names : list text) (errno : Z) (l : list process_entry) :
  list_directory (lit "/proc") w = (inr (names, errno), w1) ->
  processes readlink getpwuid_r fuel w = Some (Value l, w') ->
  errno = 0 /\ StronglySorted pid_order l /\
  submseteq (pe_pid <$> l) (omap process_number names) /\
  Forall (fun e => 0 < pe_pid e <= uint32_max) l.
Proof.
  intros Hd. unfold processes. rewrite Hd. unfold mbind at 1, partial_bind, run at 1.
  destruct (walk_parameters w1) as [[[[ticks page_size] boot]|e] w2]; [|done].
  unfold mbind, partial_bind.
  destruct (process_loop _ _ _ _ _ _ _ _ w2) as [[[found|e] w3]|] eqn:E; [|done..].
  destruct (Z.eqb_spec errno 0) as [->|]; [|done]. simpl. intros [= <- <-].
  apply process_loop_pids in E as (found' & -> & Hsub). simpl.
  assert (pe_pid <$> sort_processes found' ⊆+ omap process_number names) as Hin.
  { unfold sort_processes. rewrite std_sort_permutation. by apply sublist_submseteq. }
  split_and!; [done|apply sort_processes_sorted|done|].
  apply Forall_forall. intros e He.
  assert (pe_pid e ∈ omap process_number names) as Hp.
  { eapply elem_of_submseteq; [|exact Hin]. by apply list_elem_of_fmap_2. }
  apply list_elem_of_omap in Hp as (name & _ & Hn). by apply process_number_bound in Hn.
Qed.

(** A directory of processes, all with the same files. *)
Definition sample_kernel (names : list string) (content : string) : Kernel unit := {|
  open_file path w :=
    (if bool_decide (lit "/proc/stat" = path) then inl ENOENT
     else inr [Read_bytes (lit content)], w);
  list_directory path w := (inr (lit <$> names, 0), w);
  sysconf name w := ((100, 0), w)
|}.

Definition sample_names : list string := ["."; "self"; "10"; "9"; "0"; "7x"; "007"]%string.

Definition sample_kernel_stat : string :=
  "7 (x) S 1 1 1 0 -1 4 1 0 0 0 2 1 0 0 20 0 3 0 9 10 5 1"%string.

Lemma processes_listed_witness :
  exists l, @processes unit (sample_kernel sample_names sample_kernel_stat)
      (fun _ _ w => (inl ENOENT, w)) (fun _ _ w => (inl ENOENT, w)) 1 tt = Some (Value l, tt) /\
    (pe_pid <$> l) = [7; 9; 10] /\ StronglySorted pid_order l.
Proof.
  destruct (@processes unit (sample_kernel sample_names sample_kernel_stat)
      (fun _ _ w => (inl ENOENT, w)) (fun _ _ w => (inl ENOENT, w)) 1 tt) as [[[l|e] []]|] eqn:E;
    [|vm_compute in E; discriminate E..].
  exists l. split; [reflexivity|].
  destruct (@processes_listed unit (sample_kernel sample_names sample_kernel_stat)
    (fun _ _ w => (inl ENOENT, w)) (fun _ _ w => (inl ENOENT, w)) 1 tt tt tt (lit <$> sample_names) 0 l
    eq_refl E) as (_ & Hs & _ & _).
  split; [|exact Hs]. vm_compute in E. injection E as <-. reflexivity.
Defined.
