(* ===== verification/Float.v ===== *)
(** * Double-precision numbers

    [double] as the binary64 format of IEEE 754: the data type and the
    operations of the Standard Library's [SpecFloat] at 53 bits of precision
    and a maximal exponent of 1024, rounding to nearest, ties to even. *)
From S2P Require Import Prelude.
From Stdlib Require Export SpecFloat.

Definition double : Type := spec_float.

Definition precision : Z := 53.

Definition maximal_exponent : Z := 1024.

#[global] Instance spec_float_eq_dec : EqDecision spec_float.
Proof. solve_decision. Defined.

(** [static_cast<double>(n)] of an integer. *)
Definition to_double (n : Z) : double := binary_normalize precision maximal_exponent n 0 false.

(** [a * b], [a / b], [a + b] and [a - b]. *)
Definition double_mul (a b : double) : double := SFmul precision maximal_exponent a b.

Definition double_div (a b : double) : double := SFdiv precision maximal_exponent a b.

Definition double_add (a b : double) : double := SFadd precision maximal_exponent a b.

Definition double_sub (a b : double) : double := SFsub precision maximal_exponent a b.

(** [a < b] *)
Definition double_lt (a b : double) : bool := SFltb a b.

(** ** long double

    The extended format of the x86 System V ABI: 64 bits of precision, a
    maximal exponent of 16384. *)

Definition extended : Type := spec_float.

Definition to_extended (n : Z) : extended := binary_normalize 64 16384 n 0 false.

Definition extended_mul (a b : extended) : extended := SFmul 64 16384 a b.

Definition extended_div (a b : extended) : extended := SFdiv 64 16384 a b.

Definition extended_lt (a b : extended) : bool := SFltb a b.

(** [static_cast] to an integer type, on a value in its range: towards zero. *)
Definition truncate (x : spec_float) : Z :=
  match x with
  | S754_finite negative m e =>
      let magnitude := if 0 <=? e then Zpos m * 2 ^ e else Zpos m / 2 ^ (- e) in
      if negative then - magnitude else magnitude
  | _ => 0
  end.
