(* ===== verification/Software.v ===== *)
(** * Software inventory: records, orders, keys and parsers

    [include/syscape/detail/software/common.hpp] with the checks of
    [include/syscape/software.hpp], and the parsers of
    [include/syscape/detail/software/linux.hpp]: kernel modules, service units,
    the databases of three package managers, desktop entries, update lists and
    the version files of language runtimes.  The queries that read the files
    are in [SoftwareLinux]. *)
From S2P Require Import Prelude Result CppText Order Utf8.

(** ** common.hpp *)

Inductive service_state :=
  | service_unknown | service_running | service_stopped | service_paused | service_starting
  | service_stopping.

Inductive service_startup :=
  | startup_unknown | automatic | manual | disabled | delayed_automatic.

Inductive driver_state := driver_unknown | driver_loaded | driver_running | driver_unloading.

Inductive package_format :=
  | format_unknown | format_dpkg | format_rpm | format_pacman | format_apk | format_desktop_entry
  | format_windows_installer | format_macos_bundle.

Inductive update_classification :=
  | class_unknown | class_security | class_critical | class_bugfix | class_feature | class_definition
  | class_driver | class_rollup.

Inductive update_severity :=
  | severity_unknown | severity_unspecified | severity_low | severity_moderate | severity_important
  | severity_critical.

Inductive runtime_kind :=
  | kind_unknown | kind_dotnet | kind_java | kind_python | kind_nodejs | kind_rust | kind_golang | kind_ruby
  | kind_php.

Definition format_value (f : package_format) : Z :=
  match f with
  | format_unknown => 0 | format_dpkg => 1 | format_rpm => 2 | format_pacman => 3 | format_apk => 4
  | format_desktop_entry => 5 | format_windows_installer => 6 | format_macos_bundle => 7
  end.

Definition kind_value (k : runtime_kind) : Z :=
  match k with
  | kind_unknown => 0 | kind_dotnet => 1 | kind_java => 2 | kind_python => 3 | kind_nodejs => 4
  | kind_rust => 5 | kind_golang => 6 | kind_ruby => 7 | kind_php => 8
  end.

Record service_record := Service_record {
  service_name : text;
  display_name : option text;
  service_description : option text;
  state_of : service_state;
  startup_type : service_startup;
  pid : option Z;
  executable_path : option text
}.

Record driver_record := Driver_record {
  driver_name : text;
  size_bytes : option Z;
  use_count : option Z;
  driver_state_of : driver_state;
  driver_path : option text
}.

Record package_record := Package_record {
  package_name : text;
  package_version : option text;
  publisher : option text;
  install_location : option text;
  package_architecture : option text;
  format : package_format;
  package_description : option text
}.

Record update_record := Update_record {
  update_identifier : text;
  title : text;
  update_version : option text;
  classification : update_classification;
  severity : update_severity;
  requires_reboot : bool;
  update_description : option text
}.

Record runtime_record := Runtime_record {
  kind : runtime_kind;
  runtime_name : text;
  runtime_version : text;
  installation_path : text;
  runtime_architecture : option text
}.

Definition compare_services (lhs rhs : service_record) : bool :=
  text_less (service_name lhs) (service_name rhs).

Definition compare_drivers (lhs rhs : driver_record) : bool :=
  text_less (driver_name lhs) (driver_name rhs).

Definition compare_packages (lhs rhs : package_record) : bool :=
  then_by text_less (package_name lhs) (package_name rhs) (
  then_by (optional_less text_less) (package_version lhs) (package_version rhs) (
  optional_less text_less (package_architecture lhs) (package_architecture rhs))).

Definition compare_updates (lhs rhs : update_record) : bool :=
  then_by text_less (update_identifier lhs) (update_identifier rhs) (
  text_less (title lhs) (title rhs)).

Definition compare_runtimes (lhs rhs : runtime_record) : bool :=
  then_by Z.ltb (kind_value (kind lhs)) (kind_value (kind rhs)) (
  then_by text_less (runtime_name lhs) (runtime_name rhs) (
  then_by text_less (runtime_version lhs) (runtime_version rhs) (
  text_less (installation_path lhs) (installation_path rhs)))).

Definition append_length_prefixed (out val : text) : text :=
  (out ++ to_decimal (Z.of_nat (length val))) ++ ":"%char :: val.

Definition make_package_dedup_key (rec : package_record) : text :=
  let key := append_length_prefixed [] (package_name rec) in
  let key := append_length_prefixed key (default [] (package_version rec)) in
  let key := append_length_prefixed key (default [] (package_architecture rec)) in
  let key := append_length_prefixed key (default [] (install_location rec)) in
  append_length_prefixed key (to_decimal (format_value (format rec))).

Definition make_runtime_dedup_key (rec : runtime_record) : text :=
  let key := append_length_prefixed [] (to_decimal (kind_value (kind rec))) in
  let key := append_length_prefixed key (runtime_name rec) in
  let key := append_length_prefixed key (runtime_version rec) in
  let key := append_length_prefixed key (installation_path rec) in
  append_length_prefixed key (default [] (runtime_architecture rec)).

(** ** software.hpp: the checks of the public boundary *)

Definition valid_if_any (v : option text) : bool :=
  match v with Some v => is_valid_utf8 v | None => true end.

Definition make_public_update (rec : update_record) : result update_record :=
  reject (negb (is_valid_utf8 (update_identifier rec)) || negb (is_valid_utf8 (title rec)) ||
          negb (valid_if_any (update_version rec)) || negb (valid_if_any (update_description rec)))
    errc_invalid_encoding;;
  Value rec.

Definition make_public_runtime (rec : runtime_record) : result runtime_record :=
  reject (negb (is_valid_utf8 (runtime_name rec)) || negb (is_valid_utf8 (runtime_version rec)) ||
          negb (is_valid_utf8 (installation_path rec)) || negb (valid_if_any (runtime_architecture rec)))
    errc_invalid_encoding;;
  Value rec.

(** ** linux.hpp: numbers and lines *)

Definition trim_whitespace_view (sv : text) : text := trim isspace sv.

Fixpoint uint64_loop (sv : text) (val : Z) : option Z :=
  match sv with
  | [] => Some val
  | c :: sv =>
      if (code c <? 48) || (57 <? code c) then None
      else
        let digit := code c - 48 in
        if (uint64_max - digit) / 10 <? val then None
        else uint64_loop sv (wrap 64 (val * 10 + digit))
  end.

Definition parse_uint64 (sv : text) : option Z :=
  let sv := trim_whitespace_view sv in
  if empty sv then None else uint64_loop sv 0.

Definition parse_uint32 (sv : text) : option Z :=
  match parse_uint64 sv with
  | Some val64 => if uint32_max <? val64 then None else Some val64
  | None => None
  end.

Definition front_is (c : ascii) (line : text) : bool :=
  match line with x :: _ => is_char x c | [] => false end.

Definition back_is (c : ascii) (line : text) : bool :=
  match last line with Some x => is_char x c | None => false end.

(** The outcome of a loop whose body never returns. *)
Definition loop_end {S} (o : step S Empty_set) : S :=
  match o with Next s => s | Return r => match r with end end.

(** The loop over the lines of a file, each trimmed. *)
Definition each_line {S R} (content : text) (body : text -> S -> step S R) (state : S) : step S R :=
  each_field ch_lf content (fun line => body (trim_whitespace_view line)) state.

(** A line [key = value], both sides trimmed. *)
Definition key_value (separator : ascii) (line : text) : option (text * text) :=
  match find separator line 0 with
  | None => None
  | Some pos =>
      Some (trim_whitespace_view (substr 0 pos line), trim_whitespace_view (substr_from (S pos) line))
  end.

Definition section_header (line : text) : bool := front_is "[" line && back_is "]" line.

(** What is between the first and the last character. *)
Definition inner (line : text) : text := substr 1 (length line - 2) line.

(** ** linux.hpp: kernel modules *)

Definition driver_state_named (state_str : text) : driver_state :=
  if same state_str (lit "Live") then driver_running
  else if same state_str (lit "Loading") then driver_unknown
  else if same state_str (lit "Unloading") then driver_unloading
  else driver_unknown.

Definition parse_proc_modules_line (line : text) : option driver_record :=
  let line := trim_whitespace_view line in
  if empty line || front_is "#" line then None
  else
    match tokens isspace line with
    | name :: size :: count :: _ :: state_str :: _ :: _ =>
        size_val ← parse_uint64 size;
        count_val ← parse_uint32 count;
        Some (Driver_record name (Some size_val) (Some count_val) (driver_state_named state_str) None)
    | _ => None
    end.

Definition modules_line (line : text) (out : list driver_record)
    : step (list driver_record) (option (list driver_record)) :=
  if empty line || front_is "#" line then Next out
  else
    match parse_proc_modules_line line with
    | Some rec => Next (out ++ [rec])
    | None => Return None
    end.

Definition parse_proc_modules (content : text) : option (list driver_record) :=
  match each_line content modules_line [] with Next out => Some out | Return r => r end.

(** ** linux.hpp: service units *)

Definition new_service (name : text) : service_record :=
  Service_record name None None service_unknown startup_unknown None None.

Record unit_state := Unit_state {
  current_section : text;
  has_install_section : bool;
  unit_record : service_record
}.

Definition with_description (val : text) (r : service_record) : service_record :=
  Service_record (service_name r) (Some val) (Some val) (state_of r) (startup_type r) (pid r)
    (executable_path r).

Definition with_executable (val : text) (r : service_record) : service_record :=
  Service_record (service_name r) (display_name r) (service_description r) (state_of r)
    (startup_type r) (pid r) (Some val).

Definition with_startup (s : service_startup) (r : service_record) : service_record :=
  Service_record (service_name r) (display_name r) (service_description r) (state_of r) s (pid r)
    (executable_path r).

Definition unit_entry (section key val : text) (r : service_record) : service_record :=
  if same section (lit "Unit") then
    if same key (lit "Description") && bool_decide (service_description r = None)
    then with_description val r else r
  else if same section (lit "Service") then
    if same key (lit "ExecStart") && bool_decide (executable_path r = None)
    then with_executable val r else r
  else r.

Definition unit_line (line : text) (s : unit_state) : step unit_state Empty_set :=
  if empty line || front_is "#" line || front_is ";" line then Next s
  else if section_header line then
    Next (Unit_state (inner line) (same (inner line) (lit "Install") || has_install_section s)
            (unit_record s))
  else
    match key_value "=" line with
    | None => Next s
    | Some (key, val) =>
        Next (Unit_state (current_section s) (has_install_section s)
                (unit_entry (current_section s) key val (unit_record s)))
    end.

Definition parse_systemd_service_file (content unit_name : text) : service_record :=
  let s := loop_end (each_line content unit_line (Unit_state [] false (new_service unit_name))) in
  if has_install_section s then with_startup manual (unit_record s) else unit_record s.

(** ** linux.hpp: package databases *)

Definition new_package (f : package_format) : package_record :=
  Package_record [] None None None None f None.

Definition with_package_name (v : text) (r : package_record) : package_record :=
  Package_record v (package_version r) (publisher r) (install_location r) (package_architecture r)
    (format r) (package_description r).

Definition with_version (v : text) (r : package_record) : package_record :=
  Package_record (package_name r) (Some v) (publisher r) (install_location r) (package_architecture r)
    (format r) (package_description r).

Definition with_publisher (v : text) (r : package_record) : package_record :=
  Package_record (package_name r) (package_version r) (Some v) (install_location r)
    (package_architecture r) (format r) (package_description r).

Definition with_architecture (v : text) (r : package_record) : package_record :=
  Package_record (package_name r) (package_version r) (publisher r) (install_location r) (Some v)
    (format r) (package_description r).

Definition with_package_description (v : option text) (r : package_record) : package_record :=
  Package_record (package_name r) (package_version r) (publisher r) (install_location r)
    (package_architecture r) (format r) v.

Definition absent (v : option text) : bool := bool_decide (v = None).

Definition pacman_entry (tag line : text) (out : package_record) : package_record :=
  if same tag (lit "NAME") && empty (package_name out) then with_package_name line out
  else if same tag (lit "VERSION") && absent (package_version out) then with_version line out
  else if same tag (lit "DESC") && absent (package_description out)
  then with_package_description (Some line) out
  else if same tag (lit "ARCH") && absent (package_architecture out) then with_architecture line out
  else if same tag (lit "PACKAGER") && absent (publisher out) then with_publisher line out
  else out.

Definition pacman_line (line : text) (s : text * package_record)
    : step (text * package_record) Empty_set :=
  let (current_tag, out) := s in
  if empty line then Next s
  else if front_is "%" line && back_is "%" line && (3 <=? length line)%nat then Next (inner line, out)
  else Next (current_tag, pacman_entry current_tag line out).

Definition parse_pacman_desc (content : text) : option package_record :=
  let (_, out) := loop_end (each_line content pacman_line ([], new_package format_pacman)) in
  if empty (package_name out) then None else Some out.

(** The record under construction and the finished ones. *)
Record dpkg_state := Dpkg_state {
  current : package_record;
  is_installed : bool;
  finished : list package_record
}.

Definition finish_record (s : dpkg_state) : dpkg_state :=
  Dpkg_state (new_package format_dpkg) false
    (if negb (empty (package_name (current s))) && is_installed s
     then finished s ++ [current s] else finished s).

Definition with_current (r : package_record) (s : dpkg_state) : dpkg_state :=
  Dpkg_state r (is_installed s) (finished s).

Definition dpkg_field (key val : text) (s : dpkg_state) : dpkg_state :=
  if same key (lit "Package") then with_current (with_package_name val (current s)) s
  else if same key (lit "Version") then with_current (with_version val (current s)) s
  else if same key (lit "Architecture") then with_current (with_architecture val (current s)) s
  else if same key (lit "Maintainer") then with_current (with_publisher val (current s)) s
  else if same key (lit "Description")
  then with_current (with_package_description (Some val) (current s)) s
  else if same key (lit "Status")
  then Dpkg_state (current s) (same val (lit "install ok installed")) (finished s)
  else s.

Definition dpkg_line (raw_line : text) (s : dpkg_state) : step dpkg_state Empty_set :=
  let line := trim_whitespace_view raw_line in
  if empty line then Next (finish_record s)
  else if front_is " " raw_line || front_is ch_tab raw_line then Next s
  else
    match key_value ":" line with
    | None => Next s
    | Some (key, val) => Next (dpkg_field key val s)
    end.

Definition parse_dpkg_status (content : text) : list package_record :=
  finished (finish_record (loop_end
    (each_field ch_lf content dpkg_line (Dpkg_state (new_package format_dpkg) false [])))).

Definition apk_finish (s : package_record * list package_record)
    : package_record * list package_record :=
  let (current, out) := s in
  (new_package format_apk, if empty (package_name current) then out else out ++ [current]).

Definition apk_field (tag : ascii) (val : text) (r : package_record) : package_record :=
  if is_char tag "P" then with_package_name val r
  else if is_char tag "V" then with_version val r
  else if is_char tag "T" then with_package_description (Some val) r
  else if is_char tag "A" then with_architecture val r
  else if is_char tag "m" then with_publisher val r
  else r.

Definition apk_line (line : text) (s : package_record * list package_record)
    : step (package_record * list package_record) Empty_set :=
  match line with
  | [] => Next (apk_finish s)
  | tag :: separator :: val =>
      if is_char separator ":" then Next (apk_field tag (trim_whitespace_view val) (fst s), snd s)
      else Next s
  | _ => Next s
  end.

Definition parse_apk_installed (content : text) : list package_record :=
  snd (apk_finish (loop_end (each_line content apk_line (new_package format_apk, [])))).

(** ** linux.hpp: desktop entries *)

Record desktop_state := Desktop_state {
  in_desktop_entry : bool;
  is_application_type : bool;
  generic_name : text;
  desktop_record : package_record
}.

Definition desktop_field (key val : text) (s : desktop_state) : desktop_state :=
  let out := desktop_record s in
  let put out := Desktop_state (in_desktop_entry s) (is_application_type s) (generic_name s) out in
  if same key (lit "Type") then
    if same val (lit "Application")
    then Desktop_state (in_desktop_entry s) true (generic_name s) out else s
  else if same key (lit "Name") && empty (package_name out) then put (with_package_name val out)
  else if same key (lit "Version") && absent (package_version out) then put (with_version val out)
  else if same key (lit "Comment") && absent (package_description out)
  then put (with_package_description (Some val) out)
  else if same key (lit "GenericName") && empty (generic_name s)
  then Desktop_state (in_desktop_entry s) (is_application_type s) val out
  else s.

Definition desktop_line (line : text) (s : desktop_state) : step desktop_state Empty_set :=
  if empty line || front_is "#" line || front_is ";" line then Next s
  else if section_header line then
    Next (Desktop_state (same line (lit "[Desktop Entry]")) (is_application_type s) (generic_name s)
            (desktop_record s))
  else if negb (in_desktop_entry s) then Next s
  else
    match key_value "=" line with
    | None => Next s
    | Some (key, val) => Next (desktop_field key val s)
    end.

Definition parse_desktop_entry (content : text) : option package_record :=
  let s := loop_end (each_line content desktop_line
    (Desktop_state false false [] (new_package format_desktop_entry))) in
  if negb (is_application_type s) then None
  else
    let out := desktop_record s in
    let out := if absent (package_description out) && negb (empty (generic_name s))
               then with_package_description (Some (generic_name s)) out else out in
    if empty (package_name out) then None else Some out.

(** ** linux.hpp: updates *)

Definition needs_reboot (name : text) : bool :=
  starts_with (lit "linux") name || same name (lit "systemd") || same name (lit "glibc") ||
  contains (lit "nvidia") name.

Definition checkupdates_line (line : text) (parsed : list update_record)
    : step (list update_record) (option (list update_record)) :=
  if empty line then Next parsed
  else
    match find_first_of [" "; ch_tab]%char line with
    | None => Return None
    | Some name_end =>
        match find_text (lit " -> ") line name_end with
        | None => Return None
        | Some arrow =>
            let name := substr 0 name_end line in
            let old_version := trim_whitespace_view (substr name_end (arrow - name_end) line) in
            let new_version := trim_whitespace_view (substr_from (arrow + 4) line) in
            if empty name || empty old_version || empty new_version then Return None
            else Next (parsed ++ [Update_record name name (Some new_version) class_unknown
                                    severity_unknown (needs_reboot name) None])
        end
    end.

Definition parse_checkupdates_output (content : text) : option (list update_record) :=
  match each_line content checkupdates_line [] with
  | Next [] => None
  | Next parsed => Some parsed
  | Return r => r
  end.

Definition reboot_line (line : text) (out : list update_record) : step (list update_record) Empty_set :=
  if empty line || front_is "#" line then Next out
  else Next (out ++ [Update_record line line None class_unknown severity_unknown true None]).

(** [None] when there is no package. *)
Definition parse_reboot_required_pkgs (content : text) : option (list update_record) :=
  match loop_end (each_line content reboot_line []) with
  | [] => None
  | out => Some out
  end.

Definition parse_packagekit_package_id_parts (parts : list text) : option update_record :=
  match parts with
  | [name; version; _; _] =>
      if empty name || empty version then None
      else Some (Update_record name name (Some version) class_unknown severity_unknown
                   (needs_reboot name) None)
  | _ => None
  end.

(** The loop that cuts a text at every separator; one unit of fuel per part. *)
Fixpoint parts_loop (fuel : nat) (separator : ascii) (input : text) (start : nat) (parts : list text)
    : list text :=
  match fuel with
  | O => parts
  | S fuel =>
      match find separator input start with
      | None => parts ++ [substr_from start input]
      | Some stop =>
          parts_loop fuel separator input (S stop) (parts ++ [substr start (stop - start) input])
      end
  end.

Definition parse_packagekit_package_id (package_id : text) : option update_record :=
  parse_packagekit_package_id_parts (parts_loop (S (length package_id)) ";" package_id 0 []).

(** The list of prepared updates: [Return] when an item is malformed. *)
Definition prepared_item (item : text) (out : list update_record)
    : step (list update_record) (option (list update_record)) :=
  let item := trim_whitespace_view item in
  if empty item then Next out
  else
    match parse_packagekit_package_id item with
    | Some rec => Next (out ++ [rec])
    | None => Return None
    end.

Record keyfile_state := Keyfile_state {
  in_update_section : bool;
  found_update_section : bool;
  found_prepared_ids_key : bool;
  prepared : list update_record
}.

Definition keyfile_line (line : text) (s : keyfile_state)
    : step keyfile_state (option (list update_record)) :=
  if empty line || front_is "#" line || front_is ";" line then Next s
  else if section_header line then
    let update := same (inner line) (lit "update") in
    Next (Keyfile_state update (update || found_update_section s) (found_prepared_ids_key s) (prepared s))
  else if negb (in_update_section s) then Next s
  else
    match key_value "=" line with
    | None => Next s
    | Some (key, val) =>
        if same key (lit "prepared_ids") then
          match each_field "," val prepared_item (prepared s) with
          | Next out => Next (Keyfile_state (in_update_section s) (found_update_section s) true out)
          | Return r => Return r
          end
        else Next s
    end.

Definition legacy_line (line : text) (out : list update_record)
    : step (list update_record) (option (list update_record)) :=
  if empty line || front_is "#" line then Next out
  else
    match parse_packagekit_package_id line with
    | Some rec => Next (out ++ [rec])
    | None => Return None
    end.

Definition some_items (out : list update_record) : option (list update_record) :=
  match out with [] => None | _ => Some out end.

(** [None] is [false] with [is_malformed] set, the only failing outcome. *)
Definition parse_packagekit_prepared_update (content : text) : option (list update_record) :=
  let content := trim_whitespace_view content in
  if empty content then None
  else if front_is "[" content || contains [ch_lf; "["%char] content then
    match each_line content keyfile_line (Keyfile_state false false false []) with
    | Return r => r
    | Next s =>
        if negb (found_update_section s) || negb (found_prepared_ids_key s) then None
        else some_items (prepared s)
    end
  else
    match each_line content legacy_line [] with
    | Return r => r
    | Next out => some_items out
    end.

(** ** linux.hpp: runtimes *)

Definition ch_quote : ascii := "034"%char.

Definition isdigit (c : ascii) : bool := (48 <=? code c) && (code c <=? 57).

Definition front_digit (v : text) : bool := match v with c :: _ => isdigit c | [] => false end.

(** Up to the first space. *)
Definition first_word (v : text) : text :=
  match find " " v 0 with None => v | Some space_pos => substr 0 space_pos v end.

Definition version_tag : text := lit "version = " ++ [ch_quote].

Definition parse_rust_channel_manifest (content : text) : option text :=
  match find_text (lit "[pkg.rustc]") content 0 with
  | None => None
  | Some rustc_pos =>
      match find_text version_tag content rustc_pos with
      | None => None
      | Some ver_pos =>
          let val_start := (ver_pos + 11)%nat in
          match find ch_quote content val_start with
          | None => None
          | Some val_end =>
              if (val_end <=? val_start)%nat then None
              else
                let clean_ver := first_word (substr val_start (val_end - val_start) content) in
                if front_digit clean_ver then Some clean_ver else None
          end
      end
  end.

(** The version in the name of a toolchain. *)
Definition toolchain_name_version (toolchain_name : text) : option text :=
  let nightly :=
    if starts_with (lit "nightly") toolchain_name && (18 <=? length toolchain_name)%nat &&
       is_char (nth 7 toolchain_name ch_nul) "-" && is_char (nth 12 toolchain_name ch_nul) "-" &&
       is_char (nth 15 toolchain_name ch_nul) "-"
    then Some (substr 0 18 toolchain_name) else None in
  if front_digit toolchain_name then
    match find "-" toolchain_name 0 with
    | Some dash_pos => Some (substr 0 dash_pos toolchain_name)
    | None => nightly
    end
  else nightly.

Definition parse_rust_toolchain_version (toolchain_name manifest : text) : option text :=
  let by_name := toolchain_name_version toolchain_name in
  if empty manifest then by_name
  else
    match parse_rust_channel_manifest manifest with
    | Some version => Some version
    | None =>
        let first_tok := first_word (trim_whitespace_view manifest) in
        if front_digit first_tok then Some first_tok else by_name
    end.

Definition unquote (val : text) : text :=
  if (2 <=? length val)%nat && front_is ch_quote val && back_is ch_quote val then inner val else val.

Record java_release := Java_release {
  java_version : text;
  implementor : text;
  os_arch : text;
  found_version : bool
}.

Definition java_line (line : text) (s : java_release) : step java_release Empty_set :=
  if empty line || front_is "#" line then Next s
  else
    match key_value "=" line with
    | None => Next s
    | Some (key, val) =>
        let val := unquote val in
        if same key (lit "JAVA_VERSION") ||
           (same key (lit "JAVA_RUNTIME_VERSION") && negb (found_version s))
        then Next (Java_release val (implementor s) (os_arch s) true)
        else if same key (lit "IMPLEMENTOR")
        then Next (Java_release (java_version s) val (os_arch s) (found_version s))
        else if same key (lit "OS_ARCH")
        then Next (Java_release (java_version s) (implementor s) val (found_version s))
        else Next s
    end.

Definition parse_java_release_file (content : text) : option java_release :=
  let s := loop_end (each_line content java_line (Java_release [] [] [] false)) in
  if found_version s then Some s else None.

Definition parse_go_version_file (content : text) : option text :=
  let first_line := match find_first_of [ch_cr; ch_lf] content with
                    | None => content
                    | Some line_end => substr 0 line_end content
                    end in
  let trimmed := trim_whitespace_view first_line in
  if empty trimmed then None
  else
    let version := if starts_with (lit "go") trimmed then substr_from 2 trimmed else trimmed in
    if empty version then None else Some version.

Definition node_line (line : text) (s : text * text * text) : step (text * text * text) Empty_set :=
  let '(major, minor, patch) := s in
  let number := trim_whitespace_view (substr_from 26 line) in
  if starts_with (lit "#define NODE_MAJOR_VERSION") line then Next (number, minor, patch)
  else if starts_with (lit "#define NODE_MINOR_VERSION") line then Next (major, number, patch)
  else if starts_with (lit "#define NODE_PATCH_VERSION") line then Next (major, minor, number)
  else Next s.

Definition parse_node_version_header (content : text) : option text :=
  let '(major, minor, patch) := loop_end (each_line content node_line ([], [], [])) in
  if negb (empty major) && negb (empty minor) && negb (empty patch)
  then Some (major ++ "."%char :: minor ++ "."%char :: patch) else None.


(** ** Numbers *)

Lemma digit_of_10 c :
  digit_of 10 c = if (code c <? 48) || (57 <? code c) then None else Some (code c - 48).
Proof.
  unfold digit_of. cbv zeta. repeat split_if; try done; try lia.
Qed.

Lemma uint64_loop_value sv val :
  0 <= val <= uint64_max ->
  uint64_loop sv val =
  if forallb (is_digit_in 10) sv && (foldl (fun v d => v * 10 + d) val (digit_run 10 sv) <=? uint64_max)
  then Some (foldl (fun v d => v * 10 + d) val (digit_run 10 sv)) else None.
Proof.
  revert val. induction sv as [|c sv IH]; intros val Hv; cbn [uint64_loop forallb digit_run].
  - cbn [foldl andb]. rewrite (proj2 (Z.leb_le _ _)) by lia. done.
  - unfold is_digit_in. rewrite digit_of_10. destruct ((code c <? 48) || (57 <? code c)) eqn:E; [done|].
    apply orb_false_iff in E as [E1 E2]. bool_to_prop. cbn [foldl andb]. set (d := code c - 48).
    assert (0 <= d <= 9) by (unfold d; lia).
    destruct (Z.ltb_spec ((uint64_max - d) / 10) val) as [Hlt|Hle].
    + assert (uint64_max < val * 10 + d) as Hbig by (unfold_bounds; div_lia).
      rewrite (proj2 (Z.leb_gt _ _)); [by rewrite andb_false_r|].
      eapply Z.lt_le_trans; [exact Hbig|]. clear -Hv H.
      assert (0 <= val * 10 + d) as Hp by lia. revert Hp. generalize (val * 10 + d). intros v Hv'.
      pose proof (digit_run_bound 10 sv) as Hd. revert v Hv'. induction Hd as [|e ds He _ IH]; intros v Hp; simpl; [lia|].
      specialize (IH (v * 10 + e) ltac:(lia)). lia.
    + assert (val * 10 + d <= uint64_max) as Hfit by (unfold_bounds; div_lia).
      unfold wrap. rewrite Z.mod_small by (unfold_bounds; lia). apply IH. lia.
Qed.

(** The hand-written parser of 64-bit numbers, which compares with the
    bound before each multiplication, accepts exactly the decimal numerals
    between blanks whose value fits, and returns that value: it is
    [std::from_chars] on the trimmed text. *)
Theorem parse_uint64_from_chars (sv : text) :
  parse_uint64 sv =
    let v := trim_whitespace_view sv in
    let parsed := from_chars_unsigned uint64_max 10 v in
    if consumed parsed v then Some (fc_value parsed) else None.
Proof.
  unfold parse_uint64. cbv zeta. set (v := trim_whitespace_view sv).
  assert (parse_uint64 sv = if numeric 10 v && (numeral 10 v <=? uint64_max) then Some (numeral 10 v) else None) as Hp.
  { unfold parse_uint64. fold v. destruct v as [|c v']; [done|].
    cbn [empty]. rewrite uint64_loop_value by zlia. done. }
  unfold parse_uint64 in Hp. fold v in Hp. rewrite Hp.
  destruct (consumed (from_chars_unsigned uint64_max 10 v) v) eqn:E.
  - rewrite (consumed_value _ _ _ E). apply consumed_unsigned in E as [-> Hle].
    by rewrite (proj2 (Z.leb_le _ _)).
  - destruct (numeric 10 v) eqn:En; [|done]. destruct (Z.leb_spec (numeral 10 v) uint64_max); [|done].
    rewrite (proj2 (consumed_unsigned _ _ _)) in E; done.
Qed.

(** ** Keys

    A prefix code: the length in decimal, a colon, and the text. *)

Lemma colon_decimal n m l k :
  0 <= n -> 0 <= m -> to_decimal n ++ ":"%char :: l = to_decimal m ++ ":"%char :: k -> n = m /\ l = k.
Proof.
  intros Hn Hm Heq.
  assert (forall n, 0 <= n -> ":"%char ∉ to_decimal n) as Hc.
  { intros i Hi. eapply not_in_digits; [by apply to_decimal_Forall|]. vm_compute. intuition congruence. }
  assert (length (to_decimal n) = length (to_decimal m)) as Hl.
  { pose proof (find_app ":" _ l (Hc n Hn)) as F1. pose proof (find_app ":" _ k (Hc m Hm)) as F2.
    rewrite Heq in F1. congruence. }
  apply app_inj_1 in Heq as [Hd Ht]; [|done]. split; [|by injection Ht].
  apply (f_equal (numeral 10)) in Hd. by rewrite !numeral_to_decimal in Hd by done.
Qed.

(** A field and what follows it. *)
Definition field (val rest : text) : text := to_decimal (Z.of_nat (length val)) ++ ":"%char :: val ++ rest.

Lemma field_inj a b l k : field a l = field b k -> a = b /\ l = k.
Proof.
  unfold field. intros Heq. apply colon_decimal in Heq as [Hl Ht]; [|lia..].
  apply app_inj_1 in Ht as [-> ->]; [done|lia].
Qed.

Lemma append_fields (fs : list text) out :
  foldl append_length_prefixed out fs = out ++ foldr field [] fs.
Proof.
  revert out. induction fs as [|f fs IH]; intros out; cbn [foldl foldr]; [by rewrite app_nil_r|].
  rewrite IH. unfold append_length_prefixed, field. by rewrite <- !app_assoc.
Qed.

Lemma fields_inj fs gs : length fs = length gs -> foldr field [] fs = foldr field [] gs -> fs = gs.
Proof.
  revert gs. induction fs as [|f fs IH]; intros [|g gs]; try done. intros [= Hl]. cbn [foldr].
  intros [-> H]%field_inj. f_equal. by apply IH.
Qed.

Lemma format_value_inj a b : format_value a = format_value b -> a = b.
Proof. by destruct a, b. Qed.

Lemma runtime_kind_inj a b : kind_value a = kind_value b -> a = b.
Proof. by destruct a, b. Qed.

Lemma to_decimal_inj n m : 0 <= n -> 0 <= m -> to_decimal n = to_decimal m -> n = m.
Proof. intros Hn Hm H. apply (f_equal (numeral 10)) in H. by rewrite !numeral_to_decimal in H by done. Qed.

Lemma package_dedup_key_iff a b :
  make_package_dedup_key a = make_package_dedup_key b <->
  package_name a = package_name b /\
  default [] (package_version a) = default [] (package_version b) /\
  default [] (package_architecture a) = default [] (package_architecture b) /\
  default [] (install_location a) = default [] (install_location b) /\ format a = format b.
Proof.
  assert (forall a, make_package_dedup_key a = foldr field []
    [package_name a; default [] (package_version a); default [] (package_architecture a);
     default [] (install_location a); to_decimal (format_value (format a))]) as Hp
    by (intros x; by apply (append_fields [_; _; _; _; _] [])).
  rewrite !Hp. split.
  - intros H. apply fields_inj in H as [= ? ? ? ? Hf]; [|done]. split_and!; [done..|].
    apply format_value_inj, to_decimal_inj; [by destruct (format a)|by destruct (format b)|done].
  - intros (E1 & E2 & E3 & E4 & E5). by rewrite E1, E2, E3, E4, E5.
Qed.

Lemma runtime_dedup_key_iff r s :
  make_runtime_dedup_key r = make_runtime_dedup_key s <->
  kind r = kind s /\ runtime_name r = runtime_name s /\ runtime_version r = runtime_version s /\
  installation_path r = installation_path s /\
  default [] (runtime_architecture r) = default [] (runtime_architecture s).
Proof.
  assert (forall a, make_runtime_dedup_key a = foldr field []
    [to_decimal (kind_value (kind a)); runtime_name a; runtime_version a; installation_path a;
     default [] (runtime_architecture a)]) as Hr
    by (intros x; by apply (append_fields [_; _; _; _; _] [])).
  rewrite !Hr. split.
  - intros H. apply fields_inj in H as [= Hk ? ? ? ?]; [|done]. split_and!; [|done..].
    apply runtime_kind_inj, to_decimal_inj; [by destruct (kind r)|by destruct (kind s)|done].
  - intros (E1 & E2 & E3 & E4 & E5). by rewrite E1, E2, E3, E4, E5.
Qed.

(** Two packages have the same key exactly when they agree on the format,
    the name, and - an absent one counting as an empty one - the version, the
    architecture and the location, whatever characters these hold; the same
    for the keys of runtimes. *)
Theorem dedup_keys_injective (a b : package_record) (r s : runtime_record) :
  (make_package_dedup_key a = make_package_dedup_key b <->
   package_name a = package_name b /\
   default [] (package_version a) = default [] (package_version b) /\
   default [] (package_architecture a) = default [] (package_architecture b) /\
   default [] (install_location a) = default [] (install_location b) /\ format a = format b) /\
  (make_runtime_dedup_key r = make_runtime_dedup_key s <->
   kind r = kind s /\ runtime_name r = runtime_name s /\ runtime_version r = runtime_version s /\
   installation_path r = installation_path s /\
   default [] (runtime_architecture r) = default [] (runtime_architecture s)).
Proof. split; [apply package_dedup_key_iff|apply runtime_dedup_key_iff]. Qed.

(** ** Written files *)

Definition unlines (lines : list text) : text := concat ((fun l => l ++ [ch_lf]) <$> lines).

Lemma each_field_unlines {S R} (body : text -> S -> step S R) lines s :
  Forall (fun l => ch_lf ∉ l) lines ->
  each_field ch_lf (unlines lines) body s = fold_steps body lines s.
Proof.
  intros Hl. rewrite each_field_fields. unfold unlines.
  rewrite <- (app_nil_r (concat _)), fields_concat by done. cbn [fields]. by rewrite app_nil_r.
Qed.

Lemma each_line_unlines {S R} (body : text -> S -> step S R) lines s :
  Forall (fun l => ch_lf ∉ l) lines ->
  each_line (unlines lines) body s = fold_steps (fun l => body (trim_whitespace_view l)) lines s.
Proof. apply each_field_unlines. Qed.

(** A text without blanks at its ends and on one line. *)
Definition value_ok (v : text) : bool := same (trim_whitespace_view v) v && bool_decide (ch_lf ∉ v).

Lemma value_ok_spec v : value_ok v = true <-> trim_whitespace_view v = v /\ ch_lf ∉ v.
Proof. unfold value_ok. by rewrite andb_true_iff, same_true, bool_decide_eq_true. Qed.

Lemma value_trimmed v : value_ok v = true -> trimmed isspace v.
Proof. rewrite value_ok_spec. intros [<- _]. apply trim_is_trimmed. Qed.

Lemma trim_space v : trim_whitespace_view (" "%char :: v) = trim_whitespace_view v.
Proof. done. Qed.

(** A line [name separator value]; the separator ends the name. *)
Lemma key_value_line (separator : ascii) (name v : text) :
  separator ∉ name -> trimmed isspace name -> name <> [] -> isspace separator = false ->
  trimmed isspace v ->
  key_value separator (trim_whitespace_view (name ++ separator :: " "%char :: v)) = Some (name, v).
Proof.
  intros Hs Hn Hne Hsep Hv. unfold trim_whitespace_view at 1.
  assert (exists tail, trim isspace (name ++ separator :: " "%char :: v) = name ++ separator :: tail /\
          trim_whitespace_view tail = v) as (tail & -> & Ht).
  { assert (forall l, name ++ separator :: l = name ++ [separator] ++ l) as Hassoc by done.
    destruct v as [|c v].
    - exists []. split; [|done]. rewrite Hassoc, app_assoc.
      apply (trim_app isspace [] (name ++ [separator]) [" "%char]); [done| |by repeat constructor].
      destruct Hn as [Hn _]. split.
      + intros d. destruct name; [done|]. apply Hn.
      + intros d. rewrite last_snoc. by intros [= <-].
    - exists (" "%char :: c :: v). split; [|rewrite trim_space; by apply trim_trimmed].
      apply trim_trimmed. destruct Hn as [Hn _]. split.
      + intros d. destruct name; [done|]. apply Hn.
      + intros d. rewrite Hassoc, last_app. cbn [app]. change (last (separator :: " "%char :: c :: v)) with (last (c :: v)). destruct Hv as [_ Hv].
        destruct (last (c :: v)) as [x|] eqn:E; [intros [= <-]; by apply Hv|by apply last_None in E]. }
  unfold key_value. destruct (find_app_parts separator name tail Hs) as (-> & -> & ->).
  unfold trim_whitespace_view at 1. rewrite (trim_trimmed isspace name) by done. by rewrite Ht.
Qed.

Lemma trim_line_ne (name v : text) (c d : ascii) :
  name !! 0%nat = Some c -> isspace c = false -> empty (trim_whitespace_view (name ++ d :: v)) = false.
Proof.
  intros Hc Hs. apply empty_false. intros Ht. apply trim_blank in Ht.
  destruct name as [|x name]; [done|]. injection Hc as ->. apply Forall_cons in Ht as [Ht _]. congruence.
Qed.

(** ** The status database *)

(** A stanza: its package, whether it is installed, and lines that continue
    its description. *)
Record stanza := Stanza {
  stanza_package : package_record;
  stanza_installed : bool;
  continuation_lines : list text
}.

Definition field_line (name : string) (v : text) : text := lit name ++ ":"%char :: " "%char :: v.

Definition optional_line (name : string) (v : option text) : list text :=
  match v with Some v => [field_line name v] | None => [] end.

Definition stanza_lines (s : stanza) : list text :=
  let p := stanza_package s in
  field_line "Package" (package_name p) ::
  field_line "Status" (if stanza_installed s then lit "install ok installed"
                       else lit "deinstall ok config-files") ::
  optional_line "Maintainer" (publisher p) ++ optional_line "Architecture" (package_architecture p) ++
  optional_line "Version" (package_version p) ++
  optional_line "Description" (package_description p) ++ continuation_lines s ++ [[]].

Definition dpkg_text (l : list stanza) : text := unlines (concat (stanza_lines <$> l)).

Definition continuation_ok (l : text) : bool :=
  (front_is " " l || front_is ch_tab l) && negb (empty (trim_whitespace_view l)) && bool_decide (ch_lf ∉ l).

Definition optional_ok (v : option text) : bool := match v with Some v => value_ok v | None => true end.

Definition stanza_ok (s : stanza) : bool :=
  let p := stanza_package s in
  negb (empty (package_name p)) && value_ok (package_name p) && optional_ok (publisher p) &&
  optional_ok (package_architecture p) && optional_ok (package_version p) &&
  optional_ok (package_description p) && absent (install_location p) &&
  (format_value (format p) =? format_value format_dpkg) && forallb continuation_ok (continuation_lines s).

(** The names of the fields. *)
Definition key_ok (name : string) : bool :=
  value_ok (lit name) && bool_decide (":"%char ∉ lit name) &&
  match lit name with c :: _ => negb (isspace c) | [] => false end.

Lemma dpkg_field_line name v s :
  key_ok name = true -> value_ok v = true ->
  dpkg_line (field_line name v) s = Next (dpkg_field (lit name) v s).
Proof.
  unfold key_ok. rewrite !andb_true_iff, bool_decide_eq_true. intros [[Hn Hc] Hf] Hv.
  destruct (lit name) as [|c t] eqn:E; [done|]. apply negb_true_iff in Hf.
  unfold dpkg_line, field_line. cbv zeta. rewrite (trim_line_ne _ _ c) by (by rewrite ?E).
  rewrite E. cbn [app front_is]. 
  assert (is_char c " " || is_char c ch_tab = false) as ->.
  { unfold isspace in Hf. rewrite !orb_false_iff in *. tauto. }
  change (c :: t ++ ?l) with ((c :: t) ++ l).
  rewrite key_value_line; [done|done|by apply value_trimmed|done|done|by apply value_trimmed].
Qed.

Lemma dpkg_optional_line name v s :
  key_ok name = true -> optional_ok v = true ->
  fold_steps dpkg_line (optional_line name v) s =
  Next (match v with Some v => dpkg_field (lit name) v s | None => s end).
Proof.
  intros Hk Hv. destruct v as [v|]; [|done]. cbn [optional_line fold_steps]. by rewrite dpkg_field_line.
Qed.

Lemma dpkg_continuation ls s :
  forallb continuation_ok ls = true -> fold_steps dpkg_line ls s = Next s.
Proof.
  induction ls as [|l ls IH]; [done|]. cbn [forallb fold_steps]. intros [Hl Hls]%andb_true_iff.
  unfold continuation_ok in Hl. rewrite !andb_true_iff, negb_true_iff in Hl. destruct Hl as [[Hf He] _].
  unfold dpkg_line at 1. cbv zeta. rewrite He, Hf. by apply IH.
Qed.

(** What each field sets. *)
Lemma dpkg_fields (set : text -> text -> dpkg_state -> dpkg_state) :
  set = dpkg_field ->
  (forall v s, set (lit "Package") v s = with_current (with_package_name v (current s)) s) /\
  (forall v s, set (lit "Status") v s =
     Dpkg_state (current s) (same v (lit "install ok installed")) (finished s)) /\
  (forall v s, set (lit "Maintainer") v s = with_current (with_publisher v (current s)) s) /\
  (forall v s, set (lit "Architecture") v s = with_current (with_architecture v (current s)) s) /\
  (forall v s, set (lit "Version") v s = with_current (with_version v (current s)) s) /\
  (forall v s, set (lit "Description") v s =
     with_current (with_package_description (Some v) (current s)) s).
Proof. intros ->. by repeat split. Qed.

Lemma dpkg_stanza s fin :
  stanza_ok s = true ->
  fold_steps dpkg_line (stanza_lines s) (Dpkg_state (new_package format_dpkg) false fin) =
  Next (Dpkg_state (new_package format_dpkg) false
          (fin ++ if stanza_installed s then [stanza_package s] else [])).
Proof.
  unfold stanza_ok. cbv zeta. rewrite !andb_true_iff, negb_true_iff.
  intros [[[[[[[[Hne Hn] Hp] Ha] Hv] Hd] Hi] Hf] Hc].
  unfold stanza_lines. cbv zeta. cbn [fold_steps]. rewrite dpkg_field_line by done.
  rewrite dpkg_field_line by (done || by destruct (stanza_installed s)).
  rewrite fold_steps_app, dpkg_optional_line by done.
  rewrite fold_steps_app, dpkg_optional_line by done.
  rewrite fold_steps_app, dpkg_optional_line by done.
  rewrite fold_steps_app, dpkg_optional_line by done.
  rewrite fold_steps_app, dpkg_continuation by done. cbn [fold_steps].
  destruct s as [[name version pub loc arch f desc] installed ls].
  cbn [stanza_package stanza_installed package_name package_version publisher install_location
       package_architecture format package_description] in *.
  apply Z.eqb_eq, (format_value_inj _ format_dpkg) in Hf as ->. apply bool_decide_eq_true in Hi as ->.
  destruct (dpkg_fields dpkg_field) as (Ep & Es & Em & Ea & Ev & Ed); [done|].
  unfold dpkg_line. cbv zeta. rewrite Ep, Es.
  destruct pub, arch, version, desc; rewrite ?Em, ?Ea, ?Ev, ?Ed; destruct installed;
    unfold finish_record, with_current; cbn -[empty]; rewrite ?Hne, ?app_nil_r; done.
Qed.

Lemma field_line_no_lf name v : ch_lf ∉ lit name -> value_ok v = true -> ch_lf ∉ field_line name v.
Proof.
  intros Hn [_ Hv]%value_ok_spec. unfold field_line. rewrite elem_of_app, !elem_of_cons. by intuition.
Qed.

Lemma optional_line_no_lf name v :
  ch_lf ∉ lit name -> optional_ok v = true -> Forall (fun l => ch_lf ∉ l) (optional_line name v).
Proof. intros Hn Hv. destruct v; [|done]. repeat constructor. by apply field_line_no_lf. Qed.

Lemma stanza_lines_no_lf s : stanza_ok s = true -> Forall (fun l => ch_lf ∉ l) (stanza_lines s).
Proof.
  unfold stanza_ok. cbv zeta. rewrite !andb_true_iff, negb_true_iff.
  intros [[[[[[[[_ Hn] Hp] Ha] Hv] Hd] _] _] Hc]. unfold stanza_lines. cbv zeta.
  assert (forall n, bool_decide (ch_lf ∉ lit n) = true -> ch_lf ∉ lit n) as Hb by (intros n; by rewrite bool_decide_eq_true).
  repeat first [apply Forall_cons; split|apply Forall_app; split]; try done;
    try (apply field_line_no_lf || apply optional_line_no_lf; [by apply Hb|done]).
  - apply field_line_no_lf; [by apply Hb|by destruct (stanza_installed s)].
  - apply forallb_true in Hc. eapply Forall_impl; [exact Hc|]. intros l Hl.
    unfold continuation_ok in Hl. rewrite !andb_true_iff, bool_decide_eq_true in Hl. tauto.
  - by apply not_elem_of_nil.
Qed.

Lemma dpkg_text_packages l :
  forallb stanza_ok l = true ->
  parse_dpkg_status (dpkg_text l) = stanza_package <$> filter (fun s => stanza_installed s = true) l.
Proof.
  intros Hok. unfold parse_dpkg_status, dpkg_text. rewrite each_field_unlines.
  - assert (forall fin, fold_steps dpkg_line (concat (stanza_lines <$> l))
                          (Dpkg_state (new_package format_dpkg) false fin) =
      Next (Dpkg_state (new_package format_dpkg) false
              (fin ++ (stanza_package <$> filter (fun s => stanza_installed s = true) l)))) as ->; [|done].
    induction l as [|s l IH]; intros fin; [by rewrite app_nil_r|].
    cbn [forallb] in Hok. apply andb_true_iff in Hok as [Hs Hok].
    change (concat (stanza_lines <$> s :: l)) with (stanza_lines s ++ concat (stanza_lines <$> l)).
    rewrite fold_steps_app, dpkg_stanza, IH by done. rewrite filter_cons, <- app_assoc.
    destruct (stanza_installed s); [by rewrite decide_True|by rewrite decide_False].
  - apply Forall_concat, Forall_fmap. apply forallb_true in Hok. eapply Forall_impl; [exact Hok|].
    intros s. apply stanza_lines_no_lf.
Qed.

(** C17: a written status database parses to the packages whose status is
    installed, in the order of their stanzas, each with exactly its fields,
    whatever lines continue the descriptions. *)
Theorem parse_dpkg_status_text (l : list stanza) :
  forallb stanza_ok l = true ->
  parse_dpkg_status (dpkg_text l) = stanza_package <$> filter (fun s => stanza_installed s = true) l.
Proof.
  apply dpkg_text_packages.
Qed.

Definition two_stanzas : list stanza := [
  Stanza (Package_record (lit "bash") (Some (lit "5.2-1")) (Some (lit "A <a@b>")) None (Some (lit "amd64"))
            format_dpkg (Some (lit "GNU shell"))) true [lit " the shell"; lit " ."];
  Stanza (Package_record (lit "old") None None None None format_dpkg None) false []].

Lemma parse_dpkg_status_text_witness :
  forallb stanza_ok two_stanzas = true /\
  parse_dpkg_status (dpkg_text two_stanzas) =
    stanza_package <$> filter (fun s => stanza_installed s = true) two_stanzas.
Proof. split; [vm_compute; reflexivity|]. apply (parse_dpkg_status_text two_stanzas). vm_compute. reflexivity. Defined.

(** ** Prepared updates *)

(** A package identifier: name, version, architecture and data. *)
Record package_id := Package_id { id_name : text; id_version : text; id_architecture : text; id_data : text }.

Definition id_text (p : package_id) : text :=
  join ";" [id_name p; id_version p; id_architecture p; id_data p].

Lemma parts_loop_split fuel separator input start parts :
  (length input - start < fuel)%nat -> (start <= length input)%nat ->
  parts_loop fuel separator input start parts = parts ++ split_at separator (drop start input).
Proof.
  revert start parts. induction fuel as [|fuel IH]; intros start parts Hf Hs; [lia|].
  cbn [parts_loop]. unfold find. rewrite split_at_find.
  destruct (find_first (is_char separator) (drop start input)) as [i|] eqn:E; cbn [fmap option_fmap option_map].
  - pose proof (find_first_lt _ _ _ E) as Hi. rewrite length_drop in Hi.
    rewrite IH by lia. unfold substr. rewrite drop_drop, <- app_assoc. cbn [app].
    replace (start + i - start)%nat with i by lia. by replace (start + S i)%nat with (S (start + i)) by lia.
  - done.
Qed.

(** Characters that separate nothing in either format. *)
Definition id_char (c : ascii) : bool :=
  negb (isspace c || is_char c ";" || is_char c "," || is_char c "[" || is_char c "#").

Definition id_ok (p : package_id) : bool :=
  negb (empty (id_name p)) && negb (empty (id_version p)) &&
  forallb id_char (id_name p ++ id_version p ++ id_architecture p ++ id_data p).

Definition update_of (p : package_id) : update_record :=
  Update_record (id_name p) (id_name p) (Some (id_version p)) class_unknown severity_unknown
    (needs_reboot (id_name p)) None.

Definition legacy_text (l : list package_id) : text := unlines (id_text <$> l).

Definition keyfile_text (l : list package_id) : text :=
  unlines [lit "[update]"; lit "prepared_ids=" ++ join "," (id_text <$> l)].

Lemma id_ok_spec p :
  id_ok p = true ->
  id_name p <> [] /\ id_version p <> [] /\
  (forall c, id_char c = false ->
     c ∉ id_name p /\ c ∉ id_version p /\ c ∉ id_architecture p /\ c ∉ id_data p).
Proof.
  unfold id_ok. rewrite !andb_true_iff, !negb_true_iff, !empty_false, forallb_true.
  intros [[Hn Hv] Hc]. split_and!; [done..|]. intros c Hf. rewrite Forall_forall in Hc.
  assert (c ∉ id_name p ++ id_version p ++ id_architecture p ++ id_data p) as Hno
    by (intros Hin; specialize (Hc c Hin); congruence).
  rewrite !elem_of_app in Hno. tauto.
Qed.

Lemma parse_id_text p : id_ok p = true -> parse_packagekit_package_id (id_text p) = Some (update_of p).
Proof.
  intros (Hn & Hv & Hc)%id_ok_spec. destruct (Hc ";"%char eq_refl) as (H1 & H2 & H3 & H4).
  unfold parse_packagekit_package_id. rewrite parts_loop_split by lia.
  unfold id_text, join. rewrite drop_0. rewrite !split_at_app, split_at_none by done.
  cbn [app parse_packagekit_package_id_parts].
  apply empty_false in Hn, Hv. by rewrite Hn, Hv.
Qed.

Lemma id_text_char p c : id_ok p = true -> id_char c = false -> c <> ";"%char -> c ∉ id_text p.
Proof.
  intros (_ & _ & Hc)%id_ok_spec Hf Hs. destruct (Hc c Hf) as (H1 & H2 & H3 & H4).
  unfold id_text, join. rewrite !elem_of_app, !elem_of_cons, !elem_of_app, !elem_of_cons, !elem_of_app, !elem_of_cons.
  intuition.
Qed.

Lemma id_text_no_space p : id_ok p = true -> Forall (fun c => isspace c = false) (id_text p).
Proof.
  intros Hp. apply Forall_forall. intros c Hin. destruct (isspace c) eqn:E; [|done]. exfalso. revert Hin.
  apply id_text_char; [done|unfold id_char; by rewrite E|]. intros ->. by vm_compute in E.
Qed.

Lemma id_text_ne p : id_ok p = true -> id_text p <> [].
Proof. intros (Hn & _)%id_ok_spec. unfold id_text, join. by destruct (id_name p). Qed.

Lemma id_text_trimmed p : id_ok p = true -> trimmed isspace (id_text p).
Proof. intros Hp. by apply trimmed_Forall, id_text_no_space. Qed.

Lemma id_text_front p c : id_ok p = true -> id_char c = false -> c <> ";"%char -> front_is c (id_text p) = false.
Proof.
  intros Hp Hc Hs. pose proof (id_text_char p c Hp Hc Hs) as Hno. destruct (id_text p) as [|d t]; [done|].
  cbn [front_is]. apply is_char_false. intros ->. apply Hno. left.
Qed.


Lemma join_ne sep p fs :
  Forall (fun f => f <> [] /\ trimmed p f) fs -> fs <> [] -> join sep fs <> [].
Proof. intros [|f g [Hf _] _] Hne; [done|]. destruct g; [done|]. rewrite join_cons by done. by destruct f. Qed.

Lemma unlines_join fs : fs <> [] -> unlines fs = join ch_lf fs ++ [ch_lf].
Proof.
  induction fs as [|f fs IH]; [done|]. intros _.
  change (unlines (f :: fs)) with ((f ++ [ch_lf]) ++ unlines fs).
  destruct fs as [|g fs]; [by rewrite app_nil_r|].
  rewrite IH, (join_cons _ f) by done. by rewrite <- !app_assoc.
Qed.

Lemma trimmed_join p sep fs :
  Forall (fun f => f <> [] /\ trimmed p f) fs -> trimmed p (join sep fs).
Proof.
  induction 1 as [|f fs [Hne Hf] Hfs IH]; [by split|].
  destruct fs as [|g fs]; [done|]. rewrite join_cons by done. destruct f as [|c f]; [done|].
  destruct Hf as [Hf _], IH as [_ IH]. split.
  - intros d Hd. by apply Hf.
  - intros d. rewrite last_app, last_cons.
    destruct (last (join sep (g :: fs))) as [e|] eqn:E; [intros [= <-]; by apply IH|].
    apply last_None in E. apply Forall_cons in Hfs as [[Hg _] _]. destruct fs; [done|]. by destruct g.
Qed.

Lemma trim_unlines fs :
  fs <> [] -> Forall (fun f => f <> [] /\ trimmed isspace f) fs ->
  trim_whitespace_view (unlines fs) = join ch_lf fs.
Proof.
  intros Hne Hf. rewrite unlines_join by done.
  apply (trim_app isspace [] (join ch_lf fs) [ch_lf]); [done|by apply trimmed_join|by repeat constructor].
Qed.

Lemma contains_char part l c : contains part l = true -> c ∈ part -> c ∈ l.
Proof.
  intros H Hc. induction l as [|d l IH]; cbn [contains] in H; apply orb_true_iff in H as [H|H]; try done.
  - unfold starts_with in H. apply same_true in H. destruct part; [done|]. by rewrite take_nil in H.
  - unfold starts_with in H. apply same_true in H. rewrite <- H in Hc. by eapply elem_of_take in Hc as (i & Hi & _);
      apply list_elem_of_lookup_2 in Hi.
  - right. by apply IH.
Qed.

Lemma prepared_items l out :
  forallb id_ok l = true ->
  fold_steps prepared_item (id_text <$> l) out = Next (out ++ (update_of <$> l)).
Proof.
  revert out. induction l as [|p l IH]; intros out; [by rewrite app_nil_r|]. cbn [forallb].
  intros [Hp Hl]%andb_true_iff. csimpl. unfold prepared_item at 1. cbv zeta.
  unfold trim_whitespace_view. rewrite trim_trimmed by by apply id_text_trimmed.
  rewrite (proj2 (empty_false _)) by by apply id_text_ne. rewrite parse_id_text, IH by done.
  by rewrite <- app_assoc.
Qed.

Lemma legacy_lines l out :
  forallb id_ok l = true ->
  fold_steps (fun line => legacy_line (trim_whitespace_view line)) (id_text <$> l) out =
  Next (out ++ (update_of <$> l)).
Proof.
  revert out. induction l as [|p l IH]; intros out; [by rewrite app_nil_r|]. cbn [forallb].
  intros [Hp Hl]%andb_true_iff. csimpl. unfold legacy_line at 1.
  unfold trim_whitespace_view at 1 2 3. rewrite trim_trimmed by by apply id_text_trimmed.
  rewrite (proj2 (empty_false _)) by by apply id_text_ne.
  rewrite id_text_front, parse_id_text by done. cbn [orb]. rewrite IH by done. by rewrite <- app_assoc.
Qed.

(** The lines of a text that is already trimmed. *)
Lemma each_line_join {S R} (body : text -> S -> step S R) fs s :
  Forall (fun f => ch_lf ∉ f /\ f <> []) fs ->
  each_line (join ch_lf fs) body s = fold_steps (fun l => body (trim_whitespace_view l)) fs s.
Proof.
  intros [H1 H2]%Forall_and. unfold each_line. by rewrite each_field_fields, fields_join.
Qed.

Lemma join_chars c sep fs : c <> sep -> Forall (fun f => c ∉ f) fs -> c ∉ join sep fs.
Proof.
  intros Hc. induction 1 as [|f fs Hf Hfs IH]; [by apply not_elem_of_nil|].
  destruct fs as [|g fs]; [done|]. rewrite join_cons, elem_of_app, elem_of_cons by done. by intuition.
Qed.

Lemma id_texts_ok l :
  forallb id_ok l = true ->
  Forall (fun f => f <> [] /\ trimmed isspace f) (id_text <$> l) /\
  (forall c, id_char c = false -> c <> ";"%char -> Forall (fun f => c ∉ f) (id_text <$> l)).
Proof.
  rewrite forallb_true. intros Hl. split; [|intros c Hc Hs]; apply Forall_fmap; eapply Forall_impl; [exact Hl| |exact Hl|];
    intros p Hp; simpl.
  - split; [by apply id_text_ne|by apply id_text_trimmed].
  - by apply id_text_char.
Qed.

Lemma keyfile_lines l out :
  l <> [] -> forallb id_ok l = true ->
  fold_steps (fun line => keyfile_line (trim_whitespace_view line))
    [lit "[update]"; lit "prepared_ids=" ++ join "," (id_text <$> l)] (Keyfile_state false false false out) =
  Next (Keyfile_state true true true (out ++ (update_of <$> l))).
Proof.
  intros Hne Hl. destruct (id_texts_ok l Hl) as [Hf Hc]. set (ids := join "," (id_text <$> l)).
  assert (trimmed isspace ids) as Ht by by apply trimmed_join.
  assert (trim_whitespace_view (lit "prepared_ids=" ++ ids) = lit "prepared_ids=" ++ ids) as Htrim.
  { apply trim_trimmed. destruct Ht as [_ Ht]. split; [by intros c [= <-]|].
    intros c. rewrite last_app. destruct (last ids) as [e|] eqn:E; [intros [= <-]; by apply Ht|].
    intros [= <-]. done. }
  cbn [fold_steps]. change (keyfile_line (trim_whitespace_view (lit "[update]")) ?s)
    with (Next (R := option (list update_record)) (Keyfile_state true true false out)).
  cbv iota. rewrite Htrim. unfold keyfile_line.
  change (empty (lit "prepared_ids=" ++ ids)) with false.
  change (front_is "#" (lit "prepared_ids=" ++ ids)) with false.
  change (front_is ";" (lit "prepared_ids=" ++ ids)) with false.
  change (section_header (lit "prepared_ids=" ++ ids)) with false. cbn [orb negb in_update_section].
  assert (key_value "=" (lit "prepared_ids=" ++ ids) = Some (lit "prepared_ids", ids)) as ->.
  { unfold key_value. destruct (find_app_parts "=" (lit "prepared_ids") ids) as (F & P & Q).
    { by apply (bool_decide_eq_true (_ ∉ _)); vm_compute. }
    change (lit "prepared_ids=" ++ ids) with (lit "prepared_ids" ++ "="%char :: ids). rewrite F, P, Q.
    unfold trim_whitespace_view. by rewrite (trim_trimmed isspace ids). }
  change (same (lit "prepared_ids") (lit "prepared_ids")) with true. cbv iota.
  rewrite each_field_fields. unfold ids. rewrite fields_join.
  - cbn [prepared]. by rewrite prepared_items.
  - apply Hc; [by vm_compute|done].
  - eapply Forall_impl; [exact Hf|]. by intros f [? _].
Qed.

(** The key file that lists prepared package identifiers and the older
    format with one identifier per line are parsed to the same updates: one
    for each identifier, in order, with its name and version. *)
Theorem prepared_update_formats (l : list package_id) :
  l <> [] -> forallb id_ok l = true ->
  parse_packagekit_prepared_update (keyfile_text l) = Some (update_of <$> l) /\
  parse_packagekit_prepared_update (legacy_text l) = Some (update_of <$> l).
Proof.
  intros Hne Hl. destruct (id_texts_ok l Hl) as [Hf Hc].
  assert (id_text <$> l <> []) as Hne' by by destruct l.
  assert (Forall (fun f => ch_lf ∉ f) (id_text <$> l)) as Hlf by (by apply Hc; [vm_compute|]).
  assert (forall out : list package_id, out <> [] -> some_items (update_of <$> out) = Some (update_of <$> out)) as Hsome
    by (by intros []).
  split; unfold parse_packagekit_prepared_update; cbv zeta.
  - unfold keyfile_text. set (ids := join "," (id_text <$> l)). rewrite trim_unlines.
    + change (empty (join ch_lf [lit "[update]"; lit "prepared_ids=" ++ ids])) with false.
      change (front_is "[" (join ch_lf [lit "[update]"; lit "prepared_ids=" ++ ids])) with true. cbn [orb].
      rewrite each_line_join; [unfold ids; rewrite keyfile_lines by done; by apply Hsome|].
      repeat constructor; try done; [by apply (bool_decide_eq_true (_ ∉ _)); vm_compute|].
      rewrite not_elem_of_app. split; [by apply (bool_decide_eq_true (_ ∉ _)); vm_compute|].
      by apply join_chars.
    + done.
    + assert (trimmed isspace ids) as [_ Ht] by by apply trimmed_join.
      repeat constructor; try done; try by intros c [= <-].
      intros c. rewrite last_app. destruct (last ids) eqn:E; [intros [= <-]; by apply Ht|by intros [= <-]].
  - unfold legacy_text. rewrite trim_unlines by done.
    destruct (empty (join ch_lf (id_text <$> l))) eqn:E.
    { apply empty_true in E. by destruct (join_ne ch_lf _ _ Hf Hne'). }
    assert ("["%char ∉ join ch_lf (id_text <$> l)) as Hb by (apply join_chars; [done|]; by apply Hc; [vm_compute|]).
    assert (front_is "[" (join ch_lf (id_text <$> l)) || contains [ch_lf; "["%char] (join ch_lf (id_text <$> l)) = false) as ->.
    { apply orb_false_iff. split.
      - destruct (join ch_lf (id_text <$> l)) as [|c t]; [done|]. apply is_char_false. intros ->. apply Hb. left.
      - apply not_true_is_false. intros H. apply Hb. eapply contains_char; [exact H|]. set_solver. }
    rewrite each_line_join, legacy_lines by (done || (apply Forall_and; split; [done|];
      eapply Forall_impl; [exact Hf|]; by intros f [? _])). by apply Hsome.
Qed.

Definition two_ids : list package_id :=
  [Package_id (lit "linux") (lit "6.1") (lit "x86_64") (lit "core"); Package_id (lit "vim") (lit "9.0-1") [] []].

Lemma prepared_update_formats_witness :
  parse_packagekit_prepared_update (keyfile_text two_ids) = Some (update_of <$> two_ids) /\
  parse_packagekit_prepared_update (legacy_text two_ids) = Some (update_of <$> two_ids).
Proof. apply (prepared_update_formats two_ids); [discriminate|vm_compute; reflexivity]. Defined.

(** ** The orders *)

Definition package_key (r : package_record) : list Z :=
  Order.encode (package_name r) ++ Order.encode (package_version r) ++ Order.encode (package_architecture r) ++ [].

Definition update_key (r : update_record) : list Z :=
  Order.encode (update_identifier r) ++ Order.encode (title r) ++ [].

Definition runtime_key (r : runtime_record) : list Z :=
  Order.encode (kind_value (kind r)) ++ Order.encode (runtime_name r) ++ Order.encode (runtime_version r) ++
  Order.encode (installation_path r) ++ [].

Lemma compare_packages_key a b : compare_packages a b = lexicographic (package_key a) (package_key b).
Proof.
  unfold compare_packages, package_key. repeat apply then_by_encode.
  apply less_encode, optional_text_irreflexive.
Qed.

Lemma compare_updates_key a b : compare_updates a b = lexicographic (update_key a) (update_key b).
Proof.
  unfold compare_updates, update_key. apply then_by_encode. apply less_encode, lexicographic_irrefl.
Qed.

Lemma compare_runtimes_key a b : compare_runtimes a b = lexicographic (runtime_key a) (runtime_key b).
Proof.
  unfold compare_runtimes, runtime_key. repeat apply then_by_encode. apply less_encode, lexicographic_irrefl.
Qed.
