(* ===== verification/SoftwareLinux.v ===== *)
(** * Software inventory: the Linux queries

    The queries of [include/syscape/detail/software/linux.hpp]: drivers,
    services, packages, updates and runtimes, and the child process that lists
    the updates.  A query walks many directories and files; most failures do
    not end it but are remembered, the last one deciding the outcome.  That
    state is threaded through [action]s. *)
From S2P Require Import Prelude Result CppText Order System Software.

Inductive file_type := regular_file | directory_file | other_file.

Inductive access_mode := F_OK | X_OK.

Inductive spawn_action := dup2_output | close_read_end | close_write_end | open_null_error.

Inductive wait_status := exited (code : Z) | not_exited.

(** The calls the file makes besides reading files and directories: [readlink]
    on a buffer of a size; [stat]; [access], with the [errno] of a failure;
    the variable [HOME]; [sysconf(_SC_GETPW_R_SIZE_MAX)]; [getpwuid_r] on a
    buffer of a size, with the home directory of the record if any; and for
    the child process the [errno] or returned code of each preparing call, what
    the reads on the pipe deliver, and what [waitpid] gives: the [errno]s of
    the calls that fail, then a status. *)
Class SoftwareKernel (W : Type) := {
  readlink : text -> Z -> W -> (Z + text) * W;
  stat : text -> W -> (Z + file_type) * W;
  access : text -> access_mode -> W -> option Z * W;
  home_variable : W -> option text * W;
  password_buffer_size : W -> Z * W;
  getpwuid : Z -> W -> (Z + option text) * W;
  pipe : W -> option Z * W;
  init_actions : W -> Z * W;
  add_action : spawn_action -> W -> Z * W;
  spawn : W -> Z * W;
  pipe_reads : W -> list read_event * W;
  waits : W -> (list Z * wait_status) * W
}.

(** ** Actions

    A query with a state of its own. *)

Definition action (W S A : Type) : Type := S -> query W (A * S).

#[global] Instance action_ret {W S} : MRet (action W S) := fun A v s => mret (v, s).

#[global] Instance action_bind {W S} : MBind (action W S) := fun A B f m s w =>
  match m s w with
  | (Value (v, s), w) => f v s w
  | (Failure e, w) => (Failure e, w)
  end.

Definition lift {W S A} (m : query W A) : action W S A := fun s w =>
  match m w with
  | (Value v, w) => (Value (v, s), w)
  | (Failure e, w) => (Failure e, w)
  end.

Definition call {W S A} (m : W -> A * W) : action W S A := fun s w =>
  match m w with (v, w) => (Value (v, s), w) end.

Definition modify {W S} (f : S -> S) : action W S unit := fun s w => (Value (tt, f s), w).

Definition read_state {W S} : action W S S := fun s w => (Value (s, s), w).

(** What a walk has gathered: the entries, the keys seen, whether a source was
    there, and the last failure. *)
Record survey (A : Type) := Survey {
  entries : list A;
  seen : gset text;
  any_source : bool;
  last_error : option error_code
}.
Arguments Survey {A} entries seen any_source last_error.
Arguments entries {A} s.
Arguments seen {A} s.
Arguments any_source {A} s.
Arguments last_error {A} s.

Definition empty_survey {A} : survey A := Survey [] ∅ false None.

Definition set_error {A} (e : error_code) (s : survey A) : survey A :=
  Survey (entries s) (seen s) (any_source s) (Some e).

Definition set_source {A} (s : survey A) : survey A :=
  Survey (entries s) (seen s) true (last_error s).

Definition push {A} (rec : A) (s : survey A) : survey A :=
  Survey (entries s ++ [rec]) (seen s) (any_source s) (last_error s).

Definition see {A} (key : text) (s : survey A) : survey A :=
  Survey (entries s) ({[key]} ∪ seen s) (any_source s) (last_error s).

(** [if (seen.insert(key).second) { entries.push_back(rec); }] *)
Definition add_unique {A} (key : text) (rec : A) (s : survey A) : survey A :=
  if bool_decide (key ∈ seen s) then s else push rec (see key s).

Definition hidden (name : text) : bool := front_is "." name.

Section software_queries.
Context {W : Type} `{Kernel W} `{SoftwareKernel W}.

Definition note {A} (errno : Z) : action W (survey A) unit := modify (set_error (native_error errno)).

(** Visits every name. *)
Fixpoint visit_all {S} (visit : text -> action W S unit) (names : list text) : action W S unit :=
  match names with
  | [] => mret tt
  | name :: names => visit name;; visit_all visit names
  end.

(** Opens a directory and visits its entries; [false] when it did not open. *)
Definition scan_directory {A} (path : text) (visit : text -> action W (survey A) unit)
    : action W (survey A) bool :=
  listed ← call (list_directory path);
  match listed with
  | inl errno =>
      (if negb (errno =? ENOENT) then note errno else mret tt);; mret false
  | inr (names, errno) =>
      visit_all visit names;;
      (if negb (errno =? 0) then note errno else mret tt);; mret true
  end.

Definition unless_hidden {S} (visit : text -> action W S unit) (name : text) : action W S unit :=
  if hidden name then mret tt else visit name.

(** Reads a file; a failure is remembered unless it is one of [ignored]. *)
Definition read_noting {A} (ignored : list Z) (path : text) (maximum_size : Z)
    : action W (survey A) (option text) :=
  content ← lift (attempt (read_text_file path maximum_size));
  match content with
  | Value content => mret (Some content)
  | Failure e =>
      (if existsb (matches_std_errc e) ignored then mret tt else modify (set_error e));; mret None
  end.

(** Runs an action on its own state and returns that state. *)
Definition run {S A} (m : action W S A) (s : S) : query W (A * S) := m s.

(** ** Drivers *)

Definition loaded_drivers : query W (list driver_record) :=
  content ← attempt (read_text_file (lit "/proc/modules") (2 * 1024 * 1024));
  pure (match content with
        | Failure e => if matches_std_errc e ENOENT then fail errc_not_supported else Failure e
        | Value content =>
            match parse_proc_modules content with
            | None => fail errc_malformed_data
            | Some drivers => Value (std_sort compare_drivers drivers)
            end
        end).

(** The first record a test accepts. *)
Definition first_where {A} (test : A -> bool) (l : list A) : result A :=
  match list_find (fun x => test x = true) l with
  | Some (_, x) => Value x
  | None => fail errc_not_found
  end.

Definition find_driver (name : text) : query W driver_record :=
  if empty name then pure (fail errc_invalid_argument)
  else all ← loaded_drivers; pure (first_where (fun item => same (driver_name item) name) all).

(** ** Services *)

Definition service_dirs : list text :=
  lit <$> ["/etc/systemd/system"; "/run/systemd/system"; "/usr/lib/systemd/system"; "/lib/systemd/system"]%string.

(** The keys the scan sees are the enabled services. *)
Definition wanted_service (target_file : text) : action W (survey service_record) unit :=
  if ends_after (lit ".service") target_file then modify (see target_file) else mret tt.

Definition scan_systemd_wants_dir (base_dir : text) : action W (survey service_record) unit :=
  scan_directory base_dir (unless_hidden (fun name =>
    if negb (ends_after (lit ".wants") name) && negb (ends_after (lit ".requires") name) then mret tt
    else scan_directory (base_dir ++ "/"%char :: name) (unless_hidden wanted_service);; mret tt));;
  mret tt.

Definition masked_service (filename : text) : service_record :=
  Service_record filename None None service_stopped disabled None None.

Definition collect_unit (enabled_services : gset text) (dir_path filename : text)
    : action W (survey service_record) unit :=
  if negb (ends_after (lit ".service") filename) then mret tt
  else
    s ← read_state;
    if bool_decide (filename ∈ seen s) then mret tt
    else
      modify (see filename);;
      let full_path := dir_path ++ "/"%char :: filename in
      link ← call (readlink full_path 255);
      if match link with inr target => same target (lit "/dev/null") | inl _ => false end
      then modify (push (masked_service filename))
      else
        content ← read_noting [ENOENT] full_path (128 * 1024);
        match content with
        | None => mret tt
        | Some content =>
            modify (push (with_startup
              (if bool_decide (filename ∈ enabled_services) then automatic else manual)
              (parse_systemd_service_file content filename)))
        end.

Fixpoint for_each_path {S} (body : text -> action W S unit) (paths : list text) : action W S unit :=
  match paths with
  | [] => mret tt
  | path :: paths => body path;; for_each_path body paths
  end.

Definition collect_unit_directory (enabled_services : gset text) (dir_path : text)
    : action W (survey service_record) unit :=
  opened ← scan_directory dir_path (unless_hidden (collect_unit enabled_services dir_path));
  if (opened : bool) then modify set_source else mret tt.

Definition init_script (name : text) : action W (survey service_record) unit :=
  if same name (lit "README") || same name (lit "skeleton") then mret tt
  else modify (push (Service_record name None None service_unknown startup_unknown None
                       (Some (lit "/etc/init.d/" ++ name)))).

Definition collect_init_scripts : action W (survey service_record) unit :=
  s ← read_state;
  if any_source s then mret tt
  else
    opened ← scan_directory (lit "/etc/init.d") (unless_hidden init_script);
    if (opened : bool) then modify set_source else mret tt.

(** The end of a walk: the last failure, or the sorted entries. *)
Definition concluded {A} (lt : A -> A -> bool) (needs_source : bool) (s : survey A) : result (list A) :=
  match last_error s with
  | Some e => Failure e
  | None =>
      match entries s with
      | [] => if needs_source && negb (any_source s) then fail errc_not_supported
              else Value (std_sort lt [])
      | l => Value (std_sort lt l)
      end
  end.

Definition walk_services : action W (survey service_record) unit :=
  for_each_path scan_systemd_wants_dir service_dirs;;
  wants ← read_state;
  modify (fun s => Survey (entries s) ∅ (any_source s) (last_error s));;
  for_each_path (collect_unit_directory (seen wants)) service_dirs;;
  collect_init_scripts.

Definition services : query W (list service_record) :=
  walked ← run walk_services empty_survey;
  pure (concluded compare_services true (snd walked)).

Definition find_service (name : text) : query W service_record :=
  if empty name then pure (fail errc_invalid_argument)
  else
    all ← services;
    let with_suffix := match find "." name 0 with None => name ++ lit ".service" | Some _ => name end in
    pure (first_where (fun item => same (service_name item) name || same (service_name item) with_suffix) all).

(** ** Packages *)

Definition add_unique_package (rec : package_record) : action W (survey package_record) unit :=
  modify (add_unique (make_package_dedup_key rec) rec).

Fixpoint add_packages (l : list package_record) : action W (survey package_record) unit :=
  match l with
  | [] => mret tt
  | rec :: l => add_unique_package rec;; add_packages l
  end.

Definition add_if_any (rec : option package_record) : action W (survey package_record) unit :=
  match rec with Some rec => add_unique_package rec | None => mret tt end.

Definition pacman_entry_file (name : text) : action W (survey package_record) unit :=
  content ← read_noting [ENOENT; ENOTDIR] (lit "/var/lib/pacman/local/" ++ name ++ lit "/desc") (128 * 1024);
  match content with
  | Some content => add_if_any (parse_pacman_desc content)
  | None => mret tt
  end.

(** A database in one file. *)
Definition database_file (path : string) (maximum_size : Z) (parse : text -> list package_record)
    : action W (survey package_record) unit :=
  content ← read_noting [ENOENT] (lit path) maximum_size;
  match content with
  | Some content => if empty content then mret tt else modify set_source;; add_packages (parse content)
  | None => mret tt
  end.

Fixpoint home_loop (attempts : nat) (buf_size : Z) : query W (option text) :=
  match attempts with
  | O => pure (fail errc_value_too_large)
  | S attempts => fun w =>
      match getpwuid buf_size w with
      | (inr (Some dir), w) => (Value (if empty dir then None else Some dir), w)
      | (inr None, w) => (Value None, w)
      | (inl err, w) =>
          if err =? ERANGE then home_loop attempts (buf_size * 2) w else (fail_native err, w)
      end
  end.

Definition get_user_home_dir : query W (option text) := fun w =>
  match home_variable w with
  | (Some (c :: home), w) => (Value (Some (c :: home)), w)
  | (_, w) =>
      let (sc_size, w) := password_buffer_size w in
      home_loop 5 (if 0 <? sc_size then sc_size else 1024) w
  end.

Definition desktop_file (app_dir_path filename : text) : action W (survey package_record) unit :=
  if negb (ends_after (lit ".desktop") filename) then mret tt
  else
    content ← read_noting [ENOENT] (app_dir_path ++ "/"%char :: filename) (64 * 1024);
    match content with
    | Some content => add_if_any (parse_desktop_entry content)
    | None => mret tt
    end.

Definition desktop_directory (app_dir_path : text) : action W (survey package_record) unit :=
  opened ← scan_directory app_dir_path (unless_hidden (desktop_file app_dir_path));
  if (opened : bool) then modify set_source else mret tt.

Definition under_home (user_home : option text) (suffix : string) : list text :=
  match user_home with Some home => [home ++ lit suffix] | None => [] end.

Definition walk_packages : action W (survey package_record) unit :=
  opened ← scan_directory (lit "/var/lib/pacman/local") (unless_hidden pacman_entry_file);
  (if (opened : bool) then modify set_source else mret tt);;
  database_file "/var/lib/dpkg/status" (32 * 1024 * 1024) parse_dpkg_status;;
  database_file "/lib/apk/db/installed" (16 * 1024 * 1024) parse_apk_installed;;
  user_home ← lift get_user_home_dir;
  for_each_path desktop_directory
    ([lit "/usr/share/applications"; lit "/usr/local/share/applications"] ++
     under_home user_home "/.local/share/applications").

Definition installed_packages : query W (list package_record) :=
  walked ← run walk_packages empty_survey;
  pure (concluded compare_packages true (snd walked)).

Definition find_package (name : text) : query W package_record :=
  if empty name then pure (fail errc_invalid_argument)
  else all ← installed_packages; pure (first_where (fun item => same (package_name item) name) all).

(** ** Updates *)

Definition EFBIG : Z := 27.

Record command_output := Command_output { standard_output : text; exit_code : Z }.

(** The [waitpid] calls; [errnos] are those of the calls that fail. *)
Fixpoint wait_loop (errnos : list Z) (status : wait_status) : result wait_status :=
  match errnos with
  | [] => Value status
  | errno :: errnos => if negb (errno =? EINTR) then fail_native errno else wait_loop errnos status
  end.

Definition maximum_output : Z := 4 * 1024 * 1024.

(** The reads on the pipe; the child is waited for on every path. *)
Fixpoint command_read_loop (events : list read_event) (output : text) : result text :=
  match events with
  | [] => Value output
  | Read_bytes [] :: _ => Value output
  | Read_bytes chunk :: events =>
      if maximum_output <? Z.of_nat (length output) + Z.of_nat (length chunk) then fail_native EFBIG
      else command_read_loop events (output ++ chunk)
  | Read_error errno :: events =>
      if errno =? EINTR then command_read_loop events output else fail_native errno
  end.

Fixpoint prepare_actions (actions : list spawn_action) : query W unit :=
  match actions with
  | [] => mret tt
  | a :: actions => fun w =>
      match add_action a w with
      | (error, w) => if error =? 0 then prepare_actions actions w else (fail_native error, w)
      end
  end.

(** From [posix_spawn] on. *)
Definition run_child : query W command_output := fun w =>
  let (error, w) := spawn w in
  if negb (error =? 0) then (fail_native error, w)
  else
    let (events, w) := pipe_reads w in
    match waits w with
    | ((errnos, status), w) =>
        (output ← command_read_loop events [];
         status ← wait_loop errnos status;
         match status with
         | exited code => Value (Command_output output code)
         | not_exited => fail_native EIO
         end, w)
    end.

Definition run_checkupdates : query W command_output := fun w =>
  match pipe w with
  | (Some errno, w) => (fail_native errno, w)
  | (None, w) =>
      let (error, w) := init_actions w in
      if negb (error =? 0) then (fail_native error, w)
      else (prepare_actions [dup2_output; close_read_end; close_write_end; open_null_error];; run_child) w
  end.

(** [add_update]: updates without an identifier are left out. *)
Definition add_update (rec : update_record) : action W (survey update_record) unit :=
  if empty (update_identifier rec) then mret tt else modify (add_unique (update_identifier rec) rec).

Fixpoint add_updates (l : list update_record) : action W (survey update_record) unit :=
  match l with
  | [] => mret tt
  | rec :: l => add_update rec;; add_updates l
  end.

Definition accessible (path : string) (mode : access_mode) : action W (survey update_record) bool :=
  errno ← call (access (lit path) mode); mret (bool_decide (errno = None)).

Definition pacman_updates : action W (survey update_record) unit :=
  database ← accessible "/var/lib/pacman/local" F_OK;
  tool ← (if (database : bool) then accessible "/usr/bin/checkupdates" X_OK else mret false);
  if negb tool then mret tt
  else
    modify set_source;;
    command ← lift (attempt run_checkupdates);
    match command with
    | Failure e => modify (set_error e)
    | Value command =>
        if exit_code command =? 0 then
          match parse_checkupdates_output (standard_output command) with
          | None => lift (pure (fail errc_malformed_data))
          | Some parsed => add_updates parsed
          end
        else if negb (exit_code command =? 2)
        then modify (set_error (make_error_code errc_temporarily_unavailable))
        else mret tt
    end.

Definition reboot_packages (path : text) : action W (survey update_record) unit :=
  content ← read_noting [ENOENT; ENOTDIR] path (128 * 1024);
  match content with
  | None => mret tt
  | Some content =>
      modify set_source;;
      if empty content then mret tt
      else match parse_reboot_required_pkgs content with
           | Some parsed => add_updates parsed
           | None => mret tt
           end
  end.

Definition offline_updates (path : text) : action W (survey update_record) unit :=
  content ← read_noting [ENOENT; ENOTDIR] path (256 * 1024);
  match content with
  | None => mret tt
  | Some content =>
      modify set_source;;
      match parse_packagekit_prepared_update content with
      | Some parsed => add_updates parsed
      | None => lift (pure (fail errc_malformed_data))
      end
  end.

Definition reboot_update : update_record :=
  Update_record (lit "system-reboot-required") (lit "System reboot required after update") None
    class_unknown severity_unknown true None.

Fixpoint reboot_indicator (paths : list text) : action W (survey update_record) unit :=
  match paths with
  | [] => mret tt
  | path :: paths =>
      errno ← call (access path F_OK);
      match errno with
      | None => modify set_source;; add_update reboot_update
      | Some errno =>
          (if negb (errno =? ENOENT) && negb (errno =? 0) then note errno else mret tt);;
          reboot_indicator paths
      end
  end.

Definition walk_updates : action W (survey update_record) unit :=
  pacman_updates;;
  for_each_path reboot_packages [lit "/run/reboot-required.pkgs"; lit "/var/run/reboot-required.pkgs"];;
  for_each_path offline_updates [lit "/var/lib/PackageKit/prepared-update"];;
  s ← read_state;
  if (length (entries s) =? 0)%nat
  then reboot_indicator [lit "/run/reboot-required"; lit "/var/run/reboot-required"]
  else mret tt.

Definition system_updates : query W (list update_record) :=
  walked ← run walk_updates empty_survey;
  pure (concluded compare_updates true (snd walked)).

(** The public query: every update is checked. *)
Definition checked_updates : query W (list update_record) :=
  records ← system_updates; pure (for_each (fun r => make_public_update r;; Value tt) records;; Value records).

(** ** Runtimes *)

Definition add_runtime (rec : runtime_record) : action W (survey runtime_record) unit :=
  if empty (runtime_version rec) || empty (installation_path rec) then mret tt
  else modify (add_unique (make_runtime_dedup_key rec) rec).

(** A failure of [stat] or [access] that is worth remembering. *)
Definition relevant (errno : Z) : bool := negb (errno =? ENOENT) && negb (errno =? ENOTDIR).

Fixpoint executable_loop (paths : list text) (candidate_error : option Z)
    : action W (survey runtime_record) bool :=
  match paths with
  | [] => (match candidate_error with Some e => note e | None => mret tt end);; mret false
  | path :: paths =>
      info ← call (stat path);
      match info with
      | inl err => executable_loop paths (if relevant err then Some err else candidate_error)
      | inr regular_file =>
          errno ← call (access path X_OK);
          match errno with
          | None => mret true
          | Some err => executable_loop paths (if relevant err then Some err else candidate_error)
          end
      | inr _ => executable_loop paths candidate_error
      end
  end.

Definition has_executable_file (paths : list text) : action W (survey runtime_record) bool :=
  executable_loop paths None.

Definition has_directory (path : text) : action W (survey runtime_record) bool :=
  info ← call (stat path);
  match info with
  | inr directory_file => mret true
  | inr _ => mret false
  | inl err => (if relevant err then note err else mret tt);; mret false
  end.

(** The version directories, with what the walk remembers. *)
Fixpoint version_directories (root : text) (names : list text) (out : list text)
    : action W (survey runtime_record) (list text) :=
  match names with
  | [] => mret out
  | version :: names =>
      if negb (front_digit version) then version_directories root names out
      else
        directory ← has_directory (root ++ "/"%char :: version);
        version_directories root names (if (directory : bool) then out ++ [version] else out)
  end.

Definition list_numeric_version_directories (root : text) : action W (survey runtime_record) (list text) :=
  listed ← call (list_directory root);
  match listed with
  | inl errno => (if negb (errno =? ENOENT) then note errno else mret tt);; mret []
  | inr (names, errno) =>
      out ← version_directories root names [];
      (if negb (errno =? 0) then note errno else mret tt);; mret out
  end.

Definition slash (a b : text) : text := a ++ "/"%char :: b.

Definition java_runtime (jvm_dir_path dir_name : text) : action W (survey runtime_record) unit :=
  let full_path := slash jvm_dir_path dir_name in
  executable ← has_executable_file [full_path ++ lit "/bin/java"];
  if negb executable then mret tt
  else
    content ← read_noting [ENOENT] (full_path ++ lit "/release") (16 * 1024);
    match content with
    | Some content =>
        match (if empty content then None else parse_java_release_file content) with
        | Some release =>
            add_runtime (Runtime_record kind_java
              (if empty (implementor release) then lit "Java (OpenJDK)"
               else lit "Java (" ++ implementor release ++ lit ")")
              (java_version release) full_path
              (if empty (os_arch release) then None else Some (os_arch release)))
        | None => mret tt
        end
    | None => mret tt
    end.

Definition dotnet_version (name : string) (root ver : text) : action W (survey runtime_record) unit :=
  directory ← has_directory (slash root ver);
  if (directory : bool)
  then add_runtime (Runtime_record kind_dotnet (lit name) ver (slash root ver) None) else mret tt.

Definition dotnet_runtimes (dotnet_root : text) : action W (survey runtime_record) unit :=
  executable ← has_executable_file [dotnet_root ++ lit "/dotnet"];
  if negb executable then mret tt
  else
    let shared_path := dotnet_root ++ lit "/shared/Microsoft.NETCore.App" in
    let sdk_path := dotnet_root ++ lit "/sdk" in
    scan_directory shared_path (unless_hidden (dotnet_version ".NET Runtime" shared_path));;
    scan_directory sdk_path (unless_hidden (dotnet_version ".NET SDK" sdk_path));;
    mret tt.

Definition python_runtime (py_dir_path name : text) : action W (survey runtime_record) unit :=
  if starts_with (lit "python3.") name || starts_with (lit "python2.") name then
    let full_path := slash py_dir_path name in
    executable ← has_executable_file
      [lit "/usr/bin/" ++ name; lit "/usr/local/bin/" ++ name; full_path ++ lit "/bin/python";
       full_path ++ lit "/bin/python3"];
    if (executable : bool)
    then add_runtime (Runtime_record kind_python (lit "Python") (substr_from 6 name) full_path None)
    else mret tt
  else mret tt.

Definition nvm_runtime (nvm_path ver : text) : action W (survey runtime_record) unit :=
  let full_path := slash nvm_path ver in
  executable ← has_executable_file [full_path ++ lit "/bin/node"];
  if (executable : bool)
  then add_runtime (Runtime_record kind_nodejs (lit "Node.js")
                      (if front_is "v" ver then drop 1 ver else ver) full_path None)
  else mret tt.

Definition node_header (header_path : text) : action W (survey runtime_record) unit :=
  content ← read_noting [ENOENT] header_path (16 * 1024);
  match content with
  | Some content =>
      match (if empty content then None else parse_node_version_header content) with
      | Some ver => add_runtime (Runtime_record kind_nodejs (lit "Node.js") ver (lit "/usr") None)
      | None => mret tt
      end
  | None => mret tt
  end.

Definition system_node : action W (survey runtime_record) unit :=
  exists_ ← has_executable_file [lit "/usr/bin/node"; lit "/usr/local/bin/node"];
  if (exists_ : bool)
  then for_each_path node_header
         [lit "/usr/include/node/node_version.h"; lit "/usr/local/include/node/node_version.h"]
  else mret tt.

Definition rust_runtime (rustup_path toolchain : text) : action W (survey runtime_record) unit :=
  let full_path := slash rustup_path toolchain in
  executable ← has_executable_file [full_path ++ lit "/bin/rustc"];
  if negb executable then mret tt
  else
    manifest ← read_noting [ENOENT] (full_path ++ lit "/lib/rustlib/multirust-channel-manifest.toml")
      (1024 * 1024);
    version ← (match parse_rust_toolchain_version toolchain (default [] manifest) with
               | Some version => mret (Some version)
               | None =>
                   ver_content ← read_noting [ENOENT] (full_path ++ lit "/version") (4 * 1024);
                   mret (parse_rust_toolchain_version toolchain (default [] ver_content))
               end);
    match version with
    | Some version =>
        if empty version then mret tt
        else add_runtime (Runtime_record kind_rust (lit "Rust (" ++ toolchain ++ lit ")") version full_path None)
    | None => mret tt
    end.

Definition go_runtime (go_root : text) : action W (survey runtime_record) unit :=
  executable ← has_executable_file [go_root ++ lit "/bin/go"];
  if negb executable then mret tt
  else
    content ← read_noting [ENOENT] (go_root ++ lit "/VERSION") (4 * 1024);
    match content with
    | Some content =>
        match (if empty content then None else parse_go_version_file content) with
        | Some ver => add_runtime (Runtime_record kind_golang (lit "Go") ver go_root None)
        | None => mret tt
        end
    | None => mret tt
    end.

(** The version up to its second dot. *)
Definition short_version (ver : text) : text :=
  match find "." ver 0 with
  | None => ver
  | Some first_dot =>
      match find "." ver (S first_dot) with
      | None => ver
      | Some second_dot => substr 0 second_dot ver
      end
  end.

Definition ruby_runtime (alone : bool) (root ver : text) : action W (survey runtime_record) unit :=
  let bins := [lit "/usr/bin/ruby" ++ ver; lit "/usr/bin/ruby" ++ short_version ver;
               lit "/usr/local/bin/ruby" ++ ver; lit "/usr/local/bin/ruby" ++ short_version ver] in
  executable ← has_executable_file
    (if alone then bins ++ [lit "/usr/bin/ruby"; lit "/usr/local/bin/ruby"] else bins);
  if (executable : bool)
  then add_runtime (Runtime_record kind_ruby (lit "Ruby") ver (slash root ver) None) else mret tt.

Fixpoint ruby_runtimes (alone : bool) (versions : list (text * text)) : action W (survey runtime_record) unit :=
  match versions with
  | [] => mret tt
  | (root, ver) :: versions => ruby_runtime alone root ver;; ruby_runtimes alone versions
  end.

Definition walk_ruby : action W (survey runtime_record) unit :=
  first ← list_numeric_version_directories (lit "/usr/lib/ruby");
  second ← list_numeric_version_directories (lit "/usr/local/lib/ruby");
  let versions := (pair (lit "/usr/lib/ruby") <$> first) ++ (pair (lit "/usr/local/lib/ruby") <$> second) in
  ruby_runtimes (length versions =? 1)%nat versions.

Definition php_runtime (alone : bool) (root ver : text) : action W (survey runtime_record) unit :=
  let bins := [lit "/usr/bin/php" ++ ver; lit "/usr/local/bin/php" ++ ver] in
  executable ← has_executable_file
    (if alone then bins ++ [lit "/usr/bin/php"; lit "/usr/local/bin/php"] else bins);
  if (executable : bool)
  then add_runtime (Runtime_record kind_php (lit "PHP") ver (slash root ver) None) else mret tt.

Definition walk_php : action W (survey runtime_record) unit :=
  versions ← list_numeric_version_directories (lit "/etc/php");
  for_each_path (php_runtime (length versions =? 1)%nat (lit "/etc/php")) versions.

(** A directory whose visible entries are candidates. *)
Definition candidates (visit : text -> text -> action W (survey runtime_record) unit) (root : text)
    : action W (survey runtime_record) unit :=
  scan_directory root (unless_hidden (visit root));; mret tt.

Definition home_or_note : action W (survey runtime_record) (option text) :=
  home ← lift (attempt get_user_home_dir);
  match home with
  | Value home => mret home
  | Failure e => modify (set_error e);; mret None
  end.

Definition walk_runtimes : action W (survey runtime_record) unit :=
  for_each_path (candidates java_runtime)
    (lit <$> ["/usr/lib/jvm"; "/usr/lib64/jvm"; "/usr/local/lib/jvm"]%string);;
  home ← home_or_note;
  for_each_path dotnet_runtimes
    ((lit <$> ["/usr/share/dotnet"; "/usr/local/share/dotnet"]%string) ++ under_home home "/.dotnet");;
  for_each_path (candidates python_runtime) (lit <$> ["/usr/lib"; "/usr/local/lib"]%string);;
  for_each_path (candidates nvm_runtime) (under_home home "/.nvm/versions/node");;
  system_node;;
  for_each_path (candidates rust_runtime) (under_home home "/.rustup/toolchains");;
  for_each_path go_runtime (lit <$> ["/usr/lib/go"; "/usr/local/go"]%string);;
  walk_ruby;;
  walk_php.

Definition installed_runtimes : query W (list runtime_record) :=
  walked ← run walk_runtimes empty_survey;
  pure (concluded compare_runtimes false (snd walked)).

(** The public query: every runtime is checked. *)
Definition checked_runtimes : query W (list runtime_record) :=
  records ← installed_runtimes; pure (for_each (fun r => make_public_runtime r;; Value tt) records;; Value records).

End software_queries.

(** ** Invariants of actions *)

(** [m] ends in a state that satisfies [P], from any state, and from one that
    satisfies [P]. *)
Definition reaches {W S A} (m : action W S A) (P : S -> Prop) : Prop :=
  forall s w v s' w', m s w = (Value (v, s'), w') -> P s'.

Definition keeps {W S A} (P : S -> Prop) (m : action W S A) : Prop :=
  forall s w v s' w', P s -> m s w = (Value (v, s'), w') -> P s'.

Create HintDb keeps.

Section invariants.
Context {W S : Type} (P : S -> Prop).

Lemma keeps_ret {A} (v : A) : keeps P (mret v : action W S A).
Proof. intros s w v' s' w' HP [= <- <- <-]. done. Qed.

Lemma keeps_bind {A B} (m : action W S A) (f : A -> action W S B) :
  keeps P m -> (forall v, keeps P (f v)) -> keeps P (m ≫= f).
Proof.
  intros Hm Hf s w v s' w' HP. unfold mbind, action_bind.
  destruct (m s w) as [[[x s1]|e] w1] eqn:E; [|done]. apply (Hf x), (Hm _ _ _ _ _ HP E).
Qed.

Lemma keeps_lift {A} (m : query W A) : keeps P (lift m).
Proof. intros s w v s' w' HP. unfold lift. destruct (m w) as [[x|e] w1]; [|done]. by intros [= <- <- <-]. Qed.

Lemma keeps_call {A} (m : W -> A * W) : keeps P (call m).
Proof. intros s w v s' w' HP. unfold call. destruct (m w) as [x w1]. by intros [= <- <- <-]. Qed.

Lemma keeps_modify (f : S -> S) : (forall s, P s -> P (f s)) -> keeps P (modify (W := W) f).
Proof. intros Hf s w v s' w' HP [= <- <- <-]. by apply Hf. Qed.

Lemma keeps_read : keeps P (read_state (W := W)).
Proof. by intros s w v s' w' HP [= <- <- <-]. Qed.

Lemma keeps_if {A} (b : bool) (m k : action W S A) : keeps P m -> keeps P k -> keeps P (if b then m else k).
Proof. by destruct b. Qed.

Lemma reaches_bind {A B} (m : action W S A) (f : A -> action W S B) :
  reaches m P -> (forall v, keeps P (f v)) -> reaches (m ≫= f) P.
Proof.
  intros Hm Hf s w v s' w'. unfold mbind, action_bind.
  destruct (m s w) as [[[x s1]|e] w1] eqn:E; [|done]. apply (Hf x), (Hm _ _ _ _ _ E).
Qed.

Lemma reaches_after {A B} (m : action W S A) (f : A -> action W S B) :
  (forall v, reaches (f v) P) -> reaches (m ≫= f) P.
Proof.
  intros Hf s w v s' w'. unfold mbind, action_bind.
  destruct (m s w) as [[[x s1]|e] w1] eqn:E; [|done]. apply (Hf x).
Qed.

(** A continuation that knows the state it read. *)
Lemma keeps_read_bind {A} (k : S -> action W S A) :
  (forall s w v s' w', P s -> k s s w = (Value (v, s'), w') -> P s') -> keeps P (read_state ≫= k).
Proof. intros Hk s w v s' w' HP. apply Hk. exact HP. Qed.

End invariants.

#[export] Hint Resolve keeps_ret keeps_lift keeps_call keeps_read keeps_if : keeps.

(** Invariants that no failure affects, and those that only the entries and
    the keys decide. *)
Definition forgiving {A} (P : survey A -> Prop) : Prop := forall e s, P s -> P (set_error e s).

Definition blind {A} (P : survey A -> Prop) : Prop :=
  forgiving P /\ (forall s, P s -> P (set_source s)).

Lemma blind_forgiving {A} (P : survey A -> Prop) : blind P -> forgiving P.
Proof. by intros []. Qed.

#[export] Hint Resolve blind_forgiving : keeps.

Lemma keeps_source {W A} (P : survey A -> Prop) : blind P -> keeps P (modify (W := W) set_source).
Proof. intros HP. apply keeps_modify. intros s. apply HP. Qed.

Section survey_invariants.
Context {W : Type} `{Kernel W} `{SoftwareKernel W} {A : Type} (P : survey A -> Prop) (HP : forgiving P).

Lemma keeps_note errno : keeps P (note (W := W) errno).
Proof. apply keeps_modify. intros s. apply HP. Qed.

Lemma keeps_visit_all visit names : (forall n, keeps P (visit n)) -> keeps P (visit_all (W := W) visit names).
Proof.
  intros Hv. induction names as [|n names IH]; cbn [visit_all]; [apply keeps_ret|].
  apply keeps_bind; [apply Hv|]. by intros.
Qed.

Lemma keeps_for_each body paths : (forall p, keeps P (body p)) -> keeps P (for_each_path (W := W) body paths).
Proof.
  intros Hv. induction paths as [|p paths IH]; cbn [for_each_path]; [apply keeps_ret|].
  apply keeps_bind; [apply Hv|]. by intros.
Qed.

Lemma keeps_scan path visit : (forall n, keeps P (visit n)) -> keeps P (scan_directory (W := W) path visit).
Proof.
  intros Hv. unfold scan_directory. apply keeps_bind; [apply keeps_call|]. intros [errno|[names errno]].
  - apply keeps_bind; [apply keeps_if; [apply keeps_note|apply keeps_ret]|]. intros _. apply keeps_ret.
  - apply keeps_bind; [by apply keeps_visit_all|]. intros _.
    apply keeps_bind; [apply keeps_if; [apply keeps_note|apply keeps_ret]|]. intros _. apply keeps_ret.
Qed.

Lemma keeps_hidden visit name : (forall n, keeps P (visit n)) -> keeps P (unless_hidden (W := W) visit name).
Proof. intros Hv. unfold unless_hidden. apply keeps_if; [apply keeps_ret|apply Hv]. Qed.

Lemma keeps_read_noting ignored path size : keeps P (read_noting (W := W) ignored path size).
Proof.
  unfold read_noting. apply keeps_bind; [apply keeps_lift|]. intros [content|e]; [apply keeps_ret|].
  apply keeps_bind; [|intros _; apply keeps_ret]. apply keeps_if; [apply keeps_ret|].
  apply keeps_modify. intros s. apply HP.
Qed.

End survey_invariants.

#[export] Hint Resolve keeps_note keeps_source keeps_scan keeps_hidden keeps_visit_all keeps_for_each
  keeps_read_noting : keeps.

(** Goes through an action: a bind, a case distinction, or a known step. *)
Ltac keep :=
  repeat first
    [ solve [auto with keeps]
    | apply keeps_bind; [|intros ?]
    | apply keeps_if
    | apply keeps_for_each; intros ?
    | apply keeps_scan; [solve [auto with keeps]|intros ?]
    | apply keeps_hidden; intros ?
    | match goal with |- keeps _ (match ?x with _ => _ end) => destruct x end ].

(** ** Listings without repetition *)

(** No two entries have the same key, the keys seen are those of the entries,
    and every entry is [good]. *)
Definition unique_by {A} (key : A -> text) (good : A -> Prop) (s : survey A) : Prop :=
  NoDup (key <$> entries s) /\ (forall k, k ∈ seen s <-> k ∈ key <$> entries s) /\ Forall good (entries s).

Lemma unique_by_blind {A} (key : A -> text) good : blind (unique_by key good).
Proof. split; [intros ? ? HP|intros ? HP]; exact HP. Qed.

Lemma unique_by_empty {A} (key : A -> text) good : unique_by key good empty_survey.
Proof. split_and!; [constructor| |constructor]. intros k. cbn. set_solver. Qed.

Lemma unique_by_add {A} (key : A -> text) (good : A -> Prop) rec s :
  good rec -> unique_by key good s -> unique_by key good (add_unique (key rec) rec s).
Proof.
  intros Hg (Hn & Hs & Hf). unfold add_unique. case_bool_decide as E; [by split_and!|].
  unfold unique_by. cbn. rewrite fmap_app. cbn. split_and!.
  - apply NoDup_app. split_and!; [done| |apply NoDup_singleton].
    intros k Hk ->%list_elem_of_singleton. by apply E, Hs.
  - intros k. rewrite elem_of_union, elem_of_singleton, elem_of_app, list_elem_of_singleton, Hs. tauto.
  - apply Forall_app. split; [done|]. by repeat constructor.
Qed.

Lemma keys_kept {A} (key : A -> text) (K : list text) rec (s : survey A) :
  (forall k, k ∈ K -> k ∈ seen s) -> forall k, k ∈ K -> k ∈ seen (add_unique (key rec) rec s).
Proof.
  intros HK k Hk. unfold add_unique. case_bool_decide; [by apply HK|]. cbn. apply elem_of_union. right. by apply HK.
Qed.

Lemma key_added {A} (key : A -> text) rec (s : survey A) : key rec ∈ seen (add_unique (key rec) rec s).
Proof. unfold add_unique. case_bool_decide; [done|]. cbn. set_solver. Qed.

(** ** The parsers name what they return *)

Definition named (r : package_record) : Prop := package_name r <> [].

Lemma loop_end_inv {S A} (P : S -> Prop) (body : A -> S -> step S Empty_set) l s :
  P s -> (forall a s s', P s -> body a s = Next s' -> P s') -> P (loop_end (fold_steps body l s)).
Proof.
  intros Hs Hb. revert s Hs. induction l as [|a l IH]; intros s Hs; [done|]. cbn [fold_steps].
  destruct (body a s) as [s'|[]] eqn:E. by apply IH, (Hb a s).
Qed.

Lemma parse_dpkg_named content : Forall named (parse_dpkg_status content).
Proof.
  unfold parse_dpkg_status. set (P := fun s => Forall named (finished s)).
  assert (forall s, P s -> P (finish_record s)) as Hfin.
  { intros s Hs. unfold P, finish_record. cbn. destruct (_ && _) eqn:E; [|done].
    apply andb_true_iff in E as [E%negb_true_iff%empty_false _]. apply Forall_app. split; [done|]. by repeat constructor. }
  apply Hfin. rewrite each_field_fields. apply loop_end_inv; [by constructor|].
  intros line s s' Hs. unfold dpkg_line. cbv zeta. destruct (empty _); [intros [= <-]; by apply Hfin|].
  destruct (_ || _); [by intros [= <-]|]. destruct (key_value _ _) as [[key val]|]; intros [= <-]; [|done].
  unfold P, dpkg_field, with_current. by repeat (destruct (same key _); [exact Hs|]).
Qed.

Lemma parse_apk_named content : Forall named (parse_apk_installed content).
Proof.
  unfold parse_apk_installed, each_line. set (P := fun s : package_record * list package_record => Forall named (snd s)).
  assert (forall s, P s -> P (apk_finish s)) as Hfin.
  { intros [c out] Hs. unfold P, apk_finish. cbn. destruct (empty _) eqn:E; [done|]. apply empty_false in E.
    apply Forall_app. split; [done|]. by repeat constructor. }
  apply Hfin. rewrite each_field_fields. apply loop_end_inv; [by constructor|].
  intros line [c out] s' Hs. unfold apk_line. destruct (trim_whitespace_view line) as [|tag [|sep val]];
    [intros [= <-]; exact (Hfin (c, out) Hs)|by intros [= <-]|]. destruct (is_char sep ":"); by intros [= <-].
Qed.

Lemma parse_pacman_named content r : parse_pacman_desc content = Some r -> named r.
Proof.
  unfold parse_pacman_desc. destruct (loop_end _) as [tag out]. destruct (empty _) eqn:E; [done|].
  intros [= <-]. by apply empty_false.
Qed.

Lemma parse_desktop_named content r : parse_desktop_entry content = Some r -> named r.
Proof.
  unfold parse_desktop_entry. destruct (negb _); [done|]. cbv zeta. destruct (empty _) eqn:E; [done|].
  intros [= <-]. by apply empty_false.
Qed.

(** ** Packages *)

Section packages.
Context {W : Type} `{Kernel W} `{SoftwareKernel W}.

(** What adding a package must preserve. *)
Definition adds {A} (P : survey A -> Prop) (key : A -> text) (good : A -> Prop) : Prop :=
  blind P /\ forall rec s, good rec -> P s -> P (add_unique (key rec) rec s).

Section adding.
Context (P : survey package_record -> Prop) (HP : adds P make_package_dedup_key named).

Lemma keeps_add rec : named rec -> keeps P (add_unique_package (W := W) rec).
Proof. intros Hr. apply keeps_modify. intros s. by apply HP. Qed.

Lemma keeps_add_packages l : Forall named l -> keeps P (add_packages (W := W) l).
Proof.
  induction 1 as [|r l Hr _ IH]; cbn [add_packages]; [apply keeps_ret|].
  apply keeps_bind; [by apply keeps_add|]. by intros.
Qed.

Lemma keeps_add_if_any o : (forall r, o = Some r -> named r) -> keeps P (add_if_any (W := W) o).
Proof. intros Ho. destruct o as [r|]; [|apply keeps_ret]. by apply keeps_add, Ho. Qed.

Lemma keeps_walk_packages : keeps P (walk_packages (W := W)).
Proof.
  destruct HP as [Hb _]. unfold walk_packages. keep;
    first [ apply keeps_add_if_any; intros r; first [apply parse_pacman_named|apply parse_desktop_named]
          | apply keeps_add_packages; first [apply parse_dpkg_named|apply parse_apk_named] ].
Qed.

End adding.

Lemma unique_adds {A} (key : A -> text) good : adds (unique_by key good) key good.
Proof. split; [apply unique_by_blind|]. intros. by apply unique_by_add. Qed.

Lemma concluded_value {A} (lt : A -> A -> bool) b s l :
  concluded lt b s = Value l -> last_error s = None /\ l = std_sort lt (entries s).
Proof.
  unfold concluded. destruct (last_error s); [done|]. destruct (entries s).
  - destruct (_ && _); [done|]. by intros [= <-].
  - by intros [= <-].
Qed.

(** What every listing of a walk without repetition satisfies. *)
Lemma listing_unique {A} (walk : action W (survey A) unit) lt b (key : A -> text) good encoded w l w' :
  keeps (unique_by key good) walk ->
  (forall a b, lt a b = lexicographic (encoded a) (encoded b)) ->
  (walked ← run walk empty_survey; pure (concluded lt b (snd walked))) w = (Value l, w') ->
  StronglySorted (not_after lt) l /\ NoDup (key <$> l) /\ Forall good l.
Proof.
  intros Hk Hlt. unfold run, mbind, query_bind.
  destruct (walk empty_survey w) as [[[[] s]|e] w1] eqn:E; [|done]. intros [= Hc <-].
  apply concluded_value in Hc as [_ ->]. cbn [snd]. apply Hk in E as (Hn & _ & Hf); [|apply unique_by_empty]. split_and!.
  - by apply (std_sort_key_sorted _ encoded).
  - by rewrite std_sort_permutation.
  - by rewrite std_sort_permutation.
Qed.

(** The installed packages are listed in the order of their names, then
    versions and architectures, every one has a name, and no two of them agree
    on format, name, version, architecture and location, whichever databases
    and desktop files they come from. *)
Theorem installed_packages_listed (w : W) (l : list package_record) (w' : W) :
  installed_packages w = (Value l, w') ->
  StronglySorted (not_after compare_packages) l /\ NoDup (make_package_dedup_key <$> l) /\ Forall named l.
Proof.
  apply listing_unique with (encoded := package_key); [|apply compare_packages_key].
  apply keeps_walk_packages, unique_adds.
Qed.

(** The keys of some packages have been seen. *)
Definition knows (K : list package_record) (s : survey package_record) : Prop :=
  forall p, p ∈ K -> make_package_dedup_key p ∈ seen s.

Lemma knows_adds K : adds (knows K) make_package_dedup_key named.
Proof.
  split; [split; [intros ? ? HP|intros ? HP]; exact HP|]. intros rec s _ HK p Hp. unfold add_unique. case_bool_decide; [by apply HK|].
  cbn. apply elem_of_union. right. by apply HK.
Qed.

Lemma add_packages_knows K s w v s' w' :
  Forall named K -> add_packages (W := W) K s w = (Value (v, s'), w') -> knows K s'.
Proof.
  intros HK. revert s w. induction HK as [|p K Hp HK IH]; intros s w; cbn [add_packages]; [intros _ q Hq; set_solver|].
  unfold mbind, action_bind. unfold add_unique_package at 1, modify. intros Ha.
  intros q [Heq|Hq]%elem_of_cons; [subst q|by apply IH in Ha; apply Ha].
  assert (knows [p] s') as Hk; [|by apply Hk; left].
  apply (keeps_add_packages (knows [p]) (knows_adds [p]) K HK) in Ha; [done|].
  intros q Hq%list_elem_of_singleton. subst q. apply key_added.
Qed.

Lemma database_knows path size parse content :
  (forall w, exists w1, read_text_file (lit path) size w = (Value content, w1)) ->
  (forall c, Forall named (parse c)) -> parse [] = [] ->
  reaches (database_file (W := W) path size parse) (knows (parse content)).
Proof.
  intros Hr Hn He s w v s' w'. unfold database_file, read_noting, lift, attempt, mbind, action_bind.
  destruct (Hr w) as [w1 ->]. cbn. destruct content as [|c content].
  - rewrite He. intros _ p Hp. set_solver.
  - cbn [empty]. unfold modify. intros Ha. by eapply add_packages_knows in Ha.
Qed.

(** C16: when the status database of dpkg can be read and the query succeeds,
    every package it records as installed is in the list, under its name,
    version, architecture and format. *)
Theorem installed_packages_complete (db : list stanza) (w : W) (l : list package_record) (w' : W) :
  forallb stanza_ok db = true ->
  (forall w, exists w1, read_text_file (lit "/var/lib/dpkg/status") (32 * 1024 * 1024) w = (Value (dpkg_text db), w1)) ->
  installed_packages w = (Value l, w') ->
  forall s, s ∈ db -> stanza_installed s = true ->
  exists p, p ∈ l /\ package_name p = package_name (stanza_package s) /\
    default [] (package_version p) = default [] (package_version (stanza_package s)) /\
    default [] (package_architecture p) = default [] (package_architecture (stanza_package s)) /\
    format p = format (stanza_package s).
Proof.
  intros Hok Hread Hl s Hs Hi. revert Hl. unfold installed_packages, run, mbind at 1, query_bind at 1.
  destruct (walk_packages empty_survey w) as [[[[] final]|e] w1] eqn:E; [|done]. intros [= Hc <-].
  apply concluded_value in Hc as [_ ->]. cbn [snd].
  pose proof (keeps_walk_packages _ (unique_adds make_package_dedup_key named) _ _ _ _ _ (unique_by_empty _ _) E)
    as (_ & Hseen & _).
  assert (reaches (walk_packages (W := W)) (knows (parse_dpkg_status (dpkg_text db)))) as Hknows.
  { unfold walk_packages. do 2 (apply reaches_after; intros ?).
    apply reaches_bind; [apply database_knows; [done|apply parse_dpkg_named|done]|]. intros ?.
    destruct (knows_adds (parse_dpkg_status (dpkg_text db))) as [Hb _].
    keep; first [ apply keeps_add_if_any; [apply knows_adds|intros r; apply parse_desktop_named]
                | apply keeps_add_packages; [apply knows_adds|apply parse_apk_named] ]. }
  apply Hknows in E. specialize (E (stanza_package s)). rewrite dpkg_text_packages in E by done.
  apply Hseen in E.
  - apply list_elem_of_fmap in E as (p & Hp & Hin). apply package_dedup_key_iff in Hp as (? & ? & ? & _ & ?).
    exists p. rewrite std_sort_permutation. by split_and!.
  - apply list_elem_of_fmap. exists s. by rewrite list_elem_of_filter.
Qed.

End packages.

(** ** Finding one *)

Section finding.
Context {W : Type} `{Kernel W} `{SoftwareKernel W}.

Lemma first_where_value {A} (test : A -> bool) l x :
  first_where test l = Value x -> exists i, l !! i = Some x /\ test x = true /\
    forall j y, (j < i)%nat -> l !! j = Some y -> test y = false.
Proof.
  unfold first_where. destruct (list_find _ l) as [[i y]|] eqn:E; [|done]. intros [= ->].
  apply list_find_Some in E as (Hi & Ht & Hb). exists i. split_and!; [done..|].
  intros j y Hj Hy. apply not_true_is_false. by apply (Hb j y Hy).
Qed.

Lemma first_where_failure {A} (test : A -> bool) l e :
  first_where test l = Failure e -> e = make_error_code errc_not_found /\ forall x, x ∈ l -> test x = false.
Proof.
  unfold first_where. destruct (list_find _ l) as [[i y]|] eqn:E; [done|]. intros [= <-]. split; [done|].
  intros x Hx. apply list_find_None in E. rewrite Forall_forall in E. apply not_true_is_false. by apply E.
Qed.

(** [find_package] on a name: an empty one is an invalid argument; a
    failing listing is reported as it is; otherwise the result is the first of
    the listed packages with that name, so none of them comes before it in the
    order, and [not_found] exactly when no listed package has the name. *)
Theorem find_package_spec (name : text) (w : W) :
  find_package [] w = (fail errc_invalid_argument, w) /\
  (name <> [] ->
   match installed_packages w with
   | (Failure e, w') => find_package name w = (Failure e, w')
   | (Value l, w') =>
       (exists p, find_package name w = (Value p, w') /\ p ∈ l /\ package_name p = name /\
          forall q, q ∈ l -> package_name q = name -> not_after compare_packages p q) \/
       (find_package name w = (fail errc_not_found, w') /\ forall q, q ∈ l -> package_name q <> name)
   end).
Proof.
  split; [done|]. intros Hne. unfold find_package. rewrite (proj2 (empty_false name)) by done.
  unfold mbind, query_bind. destruct (installed_packages w) as [[l|e] w'] eqn:E; [|done]. unfold pure.
  assert (StronglySorted (not_after compare_packages) l) as Hs.
  { eapply listing_unique; [|apply compare_packages_key|exact E]. apply keeps_walk_packages, (unique_adds _ named). }
  destruct (first_where _ l) as [p|err] eqn:F.
  - left. exists p. apply first_where_value in F as (i & Hi & Ht & Hb). apply same_true in Ht.
    split_and!; [done|by eapply list_elem_of_lookup_2|done|]. intros q Hq Hn.
    apply list_elem_of_lookup in Hq as (j & Hj). destruct (decide (j < i)%nat) as [Hlt|Hge].
    { specialize (Hb j q Hlt Hj). cbn in Hb. rewrite Hn, (proj2 (same_true name name)) in Hb; done. }
    destruct (decide (i = j)) as [->|Hij].
    { assert (p = q) as <- by congruence. unfold not_after. rewrite compare_packages_key. apply lexicographic_irrefl. }
    apply StronglySorted_app_1_elem_of with (take (S i) l) (drop (S i) l).
    + by rewrite take_drop.
    + apply list_elem_of_lookup_2 with i. rewrite lookup_take, decide_True by lia. done.
    + apply list_elem_of_lookup_2 with (j - S i)%nat. rewrite lookup_drop. rewrite <- Hj. f_equal. lia.
  - right. apply first_where_failure in F as [-> Hb]. split; [done|]. intros q Hq Hn.
    specialize (Hb q Hq). cbn in Hb. rewrite Hn in Hb. by rewrite (proj2 (same_true name name)) in Hb.
Qed.

End finding.

(** ** Updates *)

Section updates.
Context {W : Type} `{Kernel W} `{SoftwareKernel W}.

Definition identified (r : update_record) : Prop := update_identifier r <> [].

Section adding.
Context (P : survey update_record -> Prop) (HP : adds P update_identifier identified).

Lemma keeps_add_update rec : keeps P (add_update (W := W) rec).
Proof.
  unfold add_update. destruct (empty _) eqn:E; [apply keeps_ret|]. apply empty_false in E.
  apply keeps_modify. intros s. by apply HP.
Qed.

Lemma keeps_add_updates l : keeps P (add_updates (W := W) l).
Proof.
  induction l as [|r l IH]; cbn [add_updates]; [apply keeps_ret|].
  apply keeps_bind; [apply keeps_add_update|]. by intros.
Qed.

Lemma keeps_walk_updates : keeps P (walk_updates (W := W)).
Proof.
  destruct HP as [Hb _]. unfold walk_updates. keep;
    first [ apply keeps_add_updates | apply (keeps_add_update reboot_update)
          | apply keeps_modify; intros s; apply Hb ].
Qed.

End adding.

(** The updates are listed in the order of their identifiers, no identifier
    is empty and none appears twice, whichever sources report it. *)
Theorem system_updates_listed (w : W) (l : list update_record) (w' : W) :
  system_updates w = (Value l, w') ->
  StronglySorted (not_after compare_updates) l /\ NoDup (update_identifier <$> l) /\ Forall identified l.
Proof.
  apply listing_unique with (encoded := update_key); [|apply compare_updates_key].
  apply keeps_walk_updates, unique_adds.
Qed.

Lemma command_read_delivered events output :
  Z.of_nat (length output) <= maximum_output ->
  command_read_loop events output =
  let (content, errno) := delivered events in
  if maximum_output <? Z.of_nat (length (output ++ content)) then fail_native EFBIG
  else match errno with Some e => fail_native e | None => Value (output ++ content) end.
Proof.
  revert output. induction events as [|[[|c chunk]|errno] events IH]; intros output Hout; cbn [command_read_loop delivered].
  - rewrite app_nil_r. split_if; [lia|done].
  - rewrite app_nil_r. split_if; [lia|done].
  - destruct (delivered events) as [content e] eqn:D. rewrite <- Nat2Z.inj_add, <- length_app. split_if.
    + rewrite (proj2 (Z.ltb_lt _ _)); [done|]. rewrite app_assoc, length_app. lia.
    + rewrite IH by done. by rewrite <- app_assoc.
  - split_if; [by apply IH|]. rewrite app_nil_r. split_if; [lia|done].
Qed.

(** What the calls of [waitpid] come to: the status, after calls that were
    interrupted, or the first other failure. *)
Inductive waited (status : wait_status) : list Z -> result wait_status -> Prop :=
| Waited interrupted : Forall (fun errno => errno = EINTR) interrupted -> waited status interrupted (Value status)
| Wait_failed interrupted errno others :
    Forall (fun errno => errno = EINTR) interrupted -> errno <> EINTR ->
    waited status (interrupted ++ errno :: others) (fail_native errno).

Lemma wait_loop_waited errnos status r : wait_loop errnos status = r <-> waited status errnos r.
Proof.
  split.
  - intros <-. induction errnos as [|errno errnos IH]; cbn [wait_loop]; [by apply Waited|].
    destruct (Z.eqb_spec errno EINTR) as [->|Hne]; cbn [negb]; [|by apply (Wait_failed status [])].
    destruct IH as [interrupted Hi|interrupted errno others Hi Hne].
    + apply Waited. by constructor.
    + apply (Wait_failed status (EINTR :: interrupted)); [by constructor|done].
  - intros [interrupted Hi|interrupted errno others Hi Hne]; induction Hi as [|? interrupted -> _ IH]; cbn [wait_loop app].
    + done.
    + exact IH.
    + by rewrite (proj2 (Z.eqb_neq _ _)).
    + exact IH.
Qed.

(** What a child that was spawned comes to: of what its output delivers, the
    [errno] of a read that fails, and the outcome of the waits. *)
Inductive child_outcome : text * option Z -> result wait_status -> result command_output -> Prop :=
| Too_large content errno status :
    4194304 < Z.of_nat (length content) -> child_outcome (content, errno) status (fail_native EFBIG)
| Read_failed content errno status :
    Z.of_nat (length content) <= 4194304 -> child_outcome (content, Some errno) status (fail_native errno)
| Reaping_failed content e :
    Z.of_nat (length content) <= 4194304 -> child_outcome (content, None) (Failure e) (Failure e)
| Child_killed content :
    Z.of_nat (length content) <= 4194304 -> child_outcome (content, None) (Value not_exited) (fail_native EIO)
| Child_exited content code :
    Z.of_nat (length content) <= 4194304 ->
    child_outcome (content, None) (Value (exited code)) (Value (Command_output content code)).

(** The actions are added one after the other, all without an error. *)
Inductive actions_added : list spawn_action -> W -> W -> Prop :=
| No_action w : actions_added [] w w
| One_action a actions w w1 w2 : add_action a w = (0, w1) -> actions_added actions w1 w2 -> actions_added (a :: actions) w w2.

(** The ways to run the program, with the calls that are made: the pipe, the
    actions of the child, the spawn, and for a child that was spawned the reads
    and the waits, whatever the reads come to. *)
Inductive command_run (w : W) : result command_output -> W -> Prop :=
| No_pipe errno w1 : pipe w = (Some errno, w1) -> command_run w (fail_native errno) w1
| No_actions w1 error w2 :
    pipe w = (None, w1) -> init_actions w1 = (error, w2) -> error <> 0 -> command_run w (fail_native error) w2
| Action_refused w1 w2 added a others w3 error w4 :
    pipe w = (None, w1) -> init_actions w1 = (0, w2) ->
    [dup2_output; close_read_end; close_write_end; open_null_error] = added ++ a :: others ->
    actions_added added w2 w3 -> add_action a w3 = (error, w4) -> error <> 0 -> command_run w (fail_native error) w4
| Not_spawned w1 w2 w3 error w4 :
    pipe w = (None, w1) -> init_actions w1 = (0, w2) ->
    actions_added [dup2_output; close_read_end; close_write_end; open_null_error] w2 w3 ->
    spawn w3 = (error, w4) -> error <> 0 -> command_run w (fail_native error) w4
| Child_run w1 w2 w3 w4 events w5 errnos status w6 waits_outcome r :
    pipe w = (None, w1) -> init_actions w1 = (0, w2) ->
    actions_added [dup2_output; close_read_end; close_write_end; open_null_error] w2 w3 ->
    spawn w3 = (0, w4) -> pipe_reads w4 = (events, w5) -> waits w5 = ((errnos, status), w6) ->
    waited status errnos waits_outcome -> child_outcome (delivered events) waits_outcome r -> command_run w r w6.

Lemma child_outcome_read events waits_outcome r :
  (output ← command_read_loop events []; status ← waits_outcome;
   match status with exited code => Value (Command_output output code) | not_exited => fail_native EIO end) = r <->
  child_outcome (delivered events) waits_outcome r.
Proof.
  rewrite command_read_delivered by done. destruct (delivered events) as [content errno]. cbn [app].
  unfold maximum_output. change (4 * 1024 * 1024) with 4194304. destruct (Z.ltb_spec 4194304 (Z.of_nat (length content))); split.
  1: intros <-; by apply Too_large.
  1: intros Ho; inversion Ho; subst; first [done|lia].
  - intros <-. destruct errno as [errno|]; [by apply Read_failed|]. destruct waits_outcome as [[code|]|e]; by constructor.
  - intros Ho. inversion Ho; subst; first [lia|done].
Qed.

Lemma prepare_actions_added actions w r w' :
  prepare_actions actions w = (r, w') <->
  (r = Value tt /\ actions_added actions w w' \/
   exists added a others w1 error, actions = added ++ a :: others /\ actions_added added w w1 /\
     add_action a w1 = (error, w') /\ error <> 0 /\ r = fail_native error).
Proof.
  revert w. induction actions as [|a actions IH]; intros w; cbn [prepare_actions].
  { split; [intros [= <- <-]; left; split; [done|constructor]|].
    intros [[-> Ha]|([|? ?] & ? & ? & ? & ? & ? & _)]; [by inversion Ha|done..]. }
  destruct (add_action a w) as [error w1] eqn:E. destruct (Z.eqb_spec error 0) as [->|Hne].
  - rewrite IH. split.
    + intros [[-> Ha]|(added & b & others & w2 & error & -> & Ha & Hb)]; [left; split; [done|by eapply One_action]|].
      right. exists (a :: added), b, others, w2, error. split; [done|]. split; [by eapply One_action|done].
    + intros [[-> Ha]|([|b added] & c & others & w2 & error & [= -> ->] & Ha & Hb & Hne & ->)].
      * left. split; [done|]. inversion Ha; subst. rewrite E in *. by simplify_eq.
      * inversion Ha; subst. rewrite E in Hb. by injection Hb as <- _.
      * right. exists added, c, others, w2, error. split; [done|]. split; [|done]. inversion Ha; subst. rewrite E in *. by simplify_eq.
  - split.
    + intros [= <- <-]. right. exists [], a, actions, w, error. split; [done|]. split; [constructor|done].
    + intros [[-> Ha]|([|b added] & c & others & w2 & error' & [= -> ->] & Ha & Hb & Hne' & ->)].
      * inversion Ha; subst. rewrite E in *. by simplify_eq.
      * inversion Ha; subst. rewrite E in Hb. by injection Hb as <- <-.
      * inversion Ha; subst. rewrite E in *. by simplify_eq.
Qed.

Lemma command_run_computed w r w' : command_run w r w' -> run_checkupdates w = (r, w').
Proof.
  unfold run_checkupdates, mbind, query_bind. intros [errno w1 Hp|w1 error w2 Hp Hi Hne|w1 w2 added a others w3 error w4 Hp Hi Hl Ha Hb Hne
    |w1 w2 w3 error w4 Hp Hi Ha Hs Hne|w1 w2 w3 w4 events w5 errnos status w6 o r' Hp Hi Ha Hs Hr Hw Ho Hc]; rewrite Hp; [done|rewrite Hi..].
  - by rewrite (proj2 (Z.eqb_neq _ _)).
  - cbn [Z.eqb negb]. by rewrite (proj2 (prepare_actions_added _ _ (fail_native error) w4)) by (right; eauto 10).
  - cbn [Z.eqb negb]. rewrite (proj2 (prepare_actions_added _ _ (Value tt) w3)) by auto. unfold run_child. rewrite Hs.
    by rewrite (proj2 (Z.eqb_neq _ _)).
  - cbn [Z.eqb negb]. rewrite (proj2 (prepare_actions_added _ _ (Value tt) w3)) by auto. unfold run_child. rewrite Hs.
    cbn [Z.eqb negb]. rewrite Hr, Hw. f_equal. apply child_outcome_read. by apply wait_loop_waited in Ho as <-.
Qed.

Lemma run_child_run w w1 w2 w3 r w' :
  pipe w = (None, w1) -> init_actions w1 = (0, w2) ->
  actions_added [dup2_output; close_read_end; close_write_end; open_null_error] w2 w3 ->
  run_child w3 = (r, w') -> command_run w r w'.
Proof.
  intros Hp Hi Ha. unfold run_child. destruct (spawn w3) as [error w4] eqn:Es. destruct (Z.eqb_spec error 0) as [->|Hne]; cbn [negb].
  - destruct (pipe_reads w4) as [events w5] eqn:Er. destruct (waits w5) as [[errnos status] w6] eqn:Ew. intros [= <- <-].
    eapply Child_run; [done..| |by apply child_outcome_read]. by apply wait_loop_waited.
  - intros [= <- <-]. by eapply Not_spawned.
Qed.

(** C18: a run of the program that lists the updates comes to the documented
    error of the call that fails - the pipe, the actions of the child, the
    spawn, a read of its output or a wait for it, interrupted ones apart - and
    without one to its exit code and at most four megabytes of output, whatever
    the pieces it is read in; more output is [EFBIG], and a child that did not
    exit by itself an input/output error.  A child that was spawned is waited
    for in every case. *)
Theorem run_checkupdates_spec (w w' : W) (r : result command_output) :
  run_checkupdates w = (r, w') <-> command_run w r w'.
Proof.
  split; [|apply command_run_computed]. unfold run_checkupdates. destruct (pipe w) as [[errno|] w1] eqn:Ep; [intros [= <- <-]; by apply No_pipe|].
  destruct (init_actions w1) as [error w2] eqn:Ei. destruct (Z.eqb_spec error 0) as [->|Hne]; cbn [negb].
  2: { intros [= <- <-]. by eapply No_actions. }
  unfold mbind, query_bind. destruct (prepare_actions _ w2) as [v w3] eqn:Ea.
  apply prepare_actions_added in Ea as [[-> Ha]|(added & a & others & w4 & error & Hl & Ha & Hb & Hne & ->)].
  - by apply (run_child_run w w1 w2 w3).
  - intros [= <- <-]. by eapply Action_refused.
Qed.

End updates.

(** ** Runtimes *)

Section runtimes.
Context {W : Type} `{Kernel W} `{SoftwareKernel W}.

Definition located (r : runtime_record) : Prop := runtime_version r <> [] /\ installation_path r <> [].

Context (P : survey runtime_record -> Prop) (HP : adds P make_runtime_dedup_key located).

Lemma keeps_add_runtime rec : keeps P (add_runtime (W := W) rec).
Proof.
  unfold add_runtime. destruct (empty _ || empty _) eqn:E; [apply keeps_ret|].
  apply orb_false_iff in E as [E1%empty_false E2%empty_false].
  apply keeps_modify. intros s. by apply HP.
Qed.

Lemma keeps_executable paths : keeps P (has_executable_file (W := W) paths).
Proof.
  destruct HP as [Hb _]. unfold has_executable_file. generalize (@None Z).
  induction paths as [|p paths IH]; intros c; cbn [executable_loop].
  - apply keeps_bind; [destruct c; [auto with keeps|apply keeps_ret]|]. intros _. apply keeps_ret.
  - apply keeps_bind; [apply keeps_call|]. intros [err|[]]; try apply IH.
    apply keeps_bind; [apply keeps_call|]. intros [err|]; [apply IH|apply keeps_ret].
Qed.

Lemma keeps_directory path : keeps P (has_directory (W := W) path).
Proof. destruct HP as [Hb _]. unfold has_directory. keep. Qed.

Lemma keeps_versions root : keeps P (list_numeric_version_directories (W := W) root).
Proof.
  destruct HP as [Hb _]. unfold list_numeric_version_directories. apply keeps_bind; [apply keeps_call|].
  intros [errno|[names errno]]; [keep|]. apply keeps_bind; [|intros; keep].
  generalize (@nil text). induction names as [|v names IH]; intros out; cbn [version_directories]; [apply keeps_ret|].
  apply keeps_if; [apply IH|]. apply keeps_bind; [apply keeps_directory|]. intros b. apply IH.
Qed.

Lemma keeps_ruby alone versions : keeps P (ruby_runtimes (W := W) alone versions).
Proof.
  induction versions as [|[root ver] versions IH]; cbn [ruby_runtimes]; [apply keeps_ret|].
  apply keeps_bind; [|by intros]. unfold ruby_runtime. apply keeps_bind; [apply keeps_executable|].
  intros b. apply keeps_if; [apply keeps_add_runtime|apply keeps_ret].
Qed.

Lemma keeps_home : keeps P (home_or_note (W := W)).
Proof.
  destruct HP as [Hb _]. unfold home_or_note. apply keeps_bind; [apply keeps_lift|]. intros [home|e]; [apply keeps_ret|].
  apply keeps_bind; [apply keeps_modify; intros s; apply Hb|]. intros _. apply keeps_ret.
Qed.

End runtimes.

#[export] Hint Resolve keeps_add_runtime keeps_executable keeps_directory keeps_versions keeps_ruby keeps_home : keeps.
#[export] Hint Opaque add_runtime has_executable_file has_directory list_numeric_version_directories ruby_runtimes home_or_note : keeps.

Section runtimes_listed.
Context {W : Type} `{Kernel W} `{SoftwareKernel W}.

Lemma keeps_walk_runtimes P :
  adds P make_runtime_dedup_key located -> keeps P (walk_runtimes (W := W)).
Proof.
  intros HP. pose proof HP as [Hb _].
  unfold walk_runtimes, candidates, java_runtime, dotnet_runtimes, dotnet_version, python_runtime, nvm_runtime,
    system_node, node_header, rust_runtime, go_runtime, walk_ruby, walk_php, php_runtime. keep.
Qed.

(** The runtimes are listed by kind, name, version and path; each has a
    version and a path, and no two agree on all of these and the
    architecture. *)
Theorem installed_runtimes_listed (w : W) (l : list runtime_record) (w' : W) :
  installed_runtimes w = (Value l, w') ->
  StronglySorted (not_after compare_runtimes) l /\ NoDup (make_runtime_dedup_key <$> l) /\ Forall located l.
Proof.
  apply listing_unique with (encoded := runtime_key); [|apply compare_runtimes_key].
  apply keeps_walk_runtimes, unique_adds.
Qed.

End runtimes_listed.

(** ** Services *)

Section services.
Context {W : Type} `{Kernel W} `{SoftwareKernel W}.

(** A record of a unit file: masked, or started as the scan of the wanted
    services says. *)
Definition unit_ok (enabled_services : gset text) (r : service_record) : Prop :=
  ends_after (lit ".service") (service_name r) = true /\
  (r = masked_service (service_name r) \/
   startup_type r = if bool_decide (service_name r ∈ enabled_services) then automatic else manual).

Definition init_ok (r : service_record) : Prop :=
  executable_path r = Some (lit "/etc/init.d/" ++ service_name r) /\ startup_type r = startup_unknown.

Definition units (enabled_services : gset text) (s : survey service_record) : Prop :=
  NoDup (service_name <$> entries s) /\
  Forall (fun r => service_name r ∈ seen s /\ unit_ok enabled_services r) (entries s).

Lemma units_blind enabled_services : blind (units enabled_services).
Proof. split; [intros ? ? HP|intros ? HP]; exact HP. Qed.

Lemma parse_systemd_name content u : service_name (parse_systemd_service_file content u) = u.
Proof.
  unfold parse_systemd_service_file, each_line. cbv zeta. rewrite each_field_fields.
  assert (forall s : unit_state, service_name (unit_record s) = u ->
            service_name (if has_install_section s then with_startup manual (unit_record s) else unit_record s) = u) as Hf
    by (intros s; by destruct (has_install_section s)).
  apply Hf. apply (loop_end_inv (fun s => service_name (unit_record s) = u)); [done|].
  intros line s s' Hs. unfold unit_line. destruct (_ || _); [by intros [= <-]|].
  destruct (section_header _); [by intros [= <-]|]. destruct (key_value _ _) as [[key val]|]; intros [= <-]; [|done].
  cbn. unfold unit_entry. by repeat case_match.
Qed.

(** A name not listed yet that has been seen, on the way to its record. *)
Definition pending enabled_services (name : text) (s : survey service_record) : Prop :=
  units enabled_services s /\ name ∈ seen s /\ name ∉ service_name <$> entries s.

Lemma pending_blind enabled_services name : blind (pending enabled_services name).
Proof. split; [intros ? ? HP|intros ? HP]; exact HP. Qed.

Lemma pending_push enabled_services r s :
  unit_ok enabled_services r -> pending enabled_services (service_name r) s -> units enabled_services (push r s).
Proof.
  intros Hr ((Hn & Hf) & Hs & Hno). split; cbn.
  - rewrite fmap_app. apply NoDup_app. split_and!; [done| |apply NoDup_singleton].
    intros x Hx ->%list_elem_of_singleton. done.
  - apply Forall_app. split; [done|]. by constructor.
Qed.

Lemma keeps_collect_unit enabled_services dir filename :
  keeps (units enabled_services) (collect_unit (W := W) enabled_services dir filename).
Proof.
  unfold collect_unit. destruct (ends_after _ filename) eqn:Hend; cbn [negb]; [|apply keeps_ret].
  apply keeps_read_bind. intros s0 w v s' w' Hs0. case_bool_decide as Hseen.
  { by intros [= <- <- <-]. }
  unfold mbind at 1, action_bind at 1, modify at 1.
  assert (pending enabled_services filename (see filename s0)) as Hp.
  { destruct Hs0 as [Hn Hf]. split_and!; cbn; [split; [done|]|set_solver|].
    - eapply Forall_impl; [exact Hf|]. cbn. set_solver.
    - intros (r & -> & Hr)%list_elem_of_fmap. rewrite Forall_forall in Hf. apply Hf in Hr as [Hr _]. done. }
  revert Hp. generalize (see filename s0). clear s0 Hs0 Hseen. intros s Hp.
  unfold mbind at 1, action_bind at 1, call at 1. destruct (readlink _ _ w) as [link w1].
  destruct (match link with inr target => _ | inl _ => false end).
  { intros [= <- <- <-]. apply pending_push; [|done]. split; [done|]. by left. }
  unfold mbind at 1, action_bind at 1.
  destruct (read_noting _ _ _ s w1) as [[[content s1]|e] w2] eqn:E; [|done].
  apply (keeps_read_noting (pending enabled_services filename)) in E; [|auto using pending_blind with keeps|done].
  destruct content as [content|]; [|intros [= <- <- <-]; apply E].
  intros [= <- <- <-]. apply pending_push; unfold unit_ok; cbn; rewrite parse_systemd_name; [|done].
  split; [done|]. by right.
Qed.

Lemma scan_unopened {A} path visit (s : survey A) w s' w' :
  scan_directory (W := W) path visit s w = (Value (false, s'), w') ->
  entries s' = entries s /\ any_source s' = any_source s.
Proof.
  unfold scan_directory, mbind, action_bind, call. destruct (list_directory path w) as [[errno|[names errno]] w1].
  - destruct (negb _); by intros [= <- <-].
  - destruct (visit_all visit names s w1) as [[[[] s1]|e] w2]; [|done].
    destruct (negb _); by intros [= <- <-].
Qed.

Definition unopened_empty (s : survey service_record) : Prop := any_source s = false -> entries s = [].

Lemma keeps_unit_directory enabled_services dir :
  keeps (fun s => units enabled_services s /\ unopened_empty s)
    (collect_unit_directory (W := W) enabled_services dir).
Proof.
  intros s w v s' w' [Hu Hs]. unfold collect_unit_directory, mbind, action_bind.
  destruct (scan_directory _ _ s w) as [[[[] s1]|e] w1] eqn:E; [| |done].
  - intros [= <- <- <-]. split; [|done]. apply units_blind.
    apply (keeps_scan (units enabled_services)) in E; [done|auto using units_blind with keeps| |done].
    intros n. apply keeps_hidden. intros m. apply keeps_collect_unit.
  - intros [= <- <- <-]. split.
    + apply (keeps_scan (units enabled_services)) in E; [done|auto using units_blind with keeps| |done].
      intros n. apply keeps_hidden. intros m. apply keeps_collect_unit.
    + apply scan_unopened in E as [He Ha]. unfold unopened_empty. by rewrite He, Ha.
Qed.

Lemma wants_entries paths :
  keeps (fun s => entries s = [] /\ any_source s = false) (for_each_path (W := W) scan_systemd_wants_dir paths).
Proof.
  apply keeps_for_each. intros p. unfold scan_systemd_wants_dir, wanted_service.
  assert (forgiving (fun s : survey service_record => entries s = [] /\ any_source s = false)) as Hf
    by (intros ? ? HP; exact HP).
  keep; by apply keeps_modify.
Qed.

Lemma keeps_units enabled_services paths :
  keeps (fun s => units enabled_services s /\ unopened_empty s)
    (for_each_path (W := W) (collect_unit_directory enabled_services) paths).
Proof. apply keeps_for_each. intros p. apply keeps_unit_directory. Qed.

Lemma init_scripts_ok :
  keeps (fun s => Forall init_ok (entries s)) (scan_directory (W := W) (lit "/etc/init.d") (unless_hidden init_script)).
Proof.
  apply keeps_scan; [intros ? ? HP; exact HP|]. intros n. apply keeps_hidden. intros m. unfold init_script.
  apply keeps_if; [apply keeps_ret|]. apply keeps_modify. intros s Hs. cbn. apply Forall_app. split; [done|].
  by repeat constructor.
Qed.

Lemma collect_init_scripts_value s w v s' w' :
  collect_init_scripts (W := W) s w = (Value (v, s'), w') ->
  (any_source s = true /\ s' = s) \/
  (any_source s = false /\ (Forall init_ok (entries s) -> Forall init_ok (entries s'))).
Proof.
  unfold collect_init_scripts, mbind at 1, action_bind at 1, read_state.
  destruct (any_source s); [intros [= _ <- _]; by left|]. right. split; [done|]. intros Hi. revert H1.
  unfold mbind, action_bind. destruct (scan_directory _ _ s w) as [[[opened s1]|e] w1] eqn:E; [|done].
  apply init_scripts_ok in E; [|done]. by destruct opened; intros [= _ <- _].
Qed.

(** The services are listed by name.  When a directory of unit files could
    be opened they come from unit files: names end in [.service], none appears
    twice, and each is either masked or marked as started automatically
    exactly when the scan of the wanted and required services named it;
    otherwise they are the scripts of [/etc/init.d]. *)
Theorem services_listed (w : W) (l : list service_record) (w' : W) :
  services w = (Value l, w') ->
  StronglySorted (not_after compare_services) l /\
  exists wants w1,
    for_each_path scan_systemd_wants_dir service_dirs empty_survey w = (Value (tt, wants), w1) /\
    ((NoDup (service_name <$> l) /\ Forall (unit_ok (seen wants)) l) \/ Forall init_ok l).
Proof.
  unfold services, run, mbind at 1, query_bind at 1.
  destruct (walk_services empty_survey w) as [[[[] final]|e] w1] eqn:E; [|done]. intros [= Hc <-].
  apply concluded_value in Hc as [_ ->]. cbn [snd]. split.
  { apply (std_sort_key_sorted _ (fun r => code <$> service_name r)). done. }
  revert E. unfold walk_services, mbind, action_bind, read_state, modify.
  destruct (for_each_path scan_systemd_wants_dir service_dirs empty_survey w) as [[[[] wants]|e] w2] eqn:Ew; [|done].
  pose proof Ew as Hw. apply wants_entries in Hw as [He Ha]; [|done]. rewrite He, Ha.
  destruct (for_each_path (collect_unit_directory _) _ _ w2) as [[[[] s1]|e] w3] eqn:Eu; [|done].
  apply keeps_units in Eu as [[Hn Hf] Hu]; [|split; [split; constructor|done]]. intros Ei.
  exists wants, w2. split; [done|]. rewrite !std_sort_permutation.
  apply collect_init_scripts_value in Ei as [[_ ->]|[Hany Hi]].
  - left. split; [done|]. eapply Forall_impl; [exact Hf|]. by intros r [_ ?].
  - right. apply Hi. by rewrite (Hu Hany).
Qed.

End services.

(** ** A concrete machine *)

(** Regular executables at some paths, nothing else to find; the child prints
    one update. *)
Definition machine (executables : list string) : SoftwareKernel unit := {|
  readlink path size w := (inl EINVAL, w);
  stat path w := ((if bool_decide (path ∈ lit <$> executables) then inr regular_file else inl ENOENT), w);
  access path mode w := ((if bool_decide (path ∈ lit <$> executables) then None else Some ENOENT), w);
  home_variable w := (None, w);
  password_buffer_size w := (-1, w);
  getpwuid size w := ((if size <? 2000 then inl ERANGE else inr None), w);
  pipe w := (None, w);
  init_actions w := (0, w);
  add_action a w := (0, w);
  spawn w := (0, w);
  pipe_reads w := ([Read_bytes (lit "vim 1.0 -"); Read_error EINTR; Read_bytes (lit "> 1.1")], w);
  waits w := (([EINTR], exited 0), w)
|}.

Definition debian_files : list (string * string) := [
  ("/var/lib/dpkg/status"%string, String.string_of_list_ascii (dpkg_text two_stanzas))].

Definition debian : Kernel unit := listing_kernel debian_files [].

Definition bash_package : package_record :=
  Package_record (lit "bash") (Some (lit "5.2-1")) (Some (lit "A <a@b>")) None (Some (lit "amd64"))
    format_dpkg (Some (lit "GNU shell")).

Lemma installed_packages_listed_witness :
  @installed_packages unit debian (machine []) tt = (Value [bash_package], tt) /\
  StronglySorted (not_after compare_packages) [bash_package] /\
  NoDup (make_package_dedup_key <$> [bash_package]) /\ Forall named [bash_package].
Proof.
  assert (@installed_packages unit debian (machine []) tt = (Value [bash_package], tt)) as Hl
    by (vm_compute; reflexivity).
  split; [exact Hl|]. exact (@installed_packages_listed unit debian (machine []) tt [bash_package] tt Hl).
Defined.

Lemma installed_packages_complete_witness :
  forallb stanza_ok two_stanzas = true /\
  @installed_packages unit debian (machine []) tt = (Value [bash_package], tt) /\
  exists p, p ∈ [bash_package] /\ package_name p = lit "bash" /\
    default [] (package_version p) = lit "5.2-1" /\ default [] (package_architecture p) = lit "amd64" /\
    format p = format_dpkg.
Proof.
  assert (forallb stanza_ok two_stanzas = true) as Hok by (vm_compute; reflexivity).
  assert (@installed_packages unit debian (machine []) tt = (Value [bash_package], tt)) as Hl
    by (vm_compute; reflexivity).
  split; [exact Hok|]. split; [exact Hl|].
  refine (@installed_packages_complete unit debian (machine []) two_stanzas tt [bash_package] tt Hok _ Hl
            (Stanza bash_package true [lit " the shell"; lit " ."]) _ _).
  - intros []. exists tt. vm_compute. reflexivity.
  - left.
  - reflexivity.
Defined.

Lemma find_package_spec_witness :
  @find_package unit debian (machine []) [] tt = (fail errc_invalid_argument, tt) /\
  (lit "bash" <> [] ->
   match @installed_packages unit debian (machine []) tt with
   | (Failure e, w') => @find_package unit debian (machine []) (lit "bash") tt = (Failure e, w')
   | (Value l, w') =>
       (exists p, @find_package unit debian (machine []) (lit "bash") tt = (Value p, w') /\ p ∈ l /\
          package_name p = lit "bash" /\
          forall q, q ∈ l -> package_name q = lit "bash" -> not_after compare_packages p q) \/
       (@find_package unit debian (machine []) (lit "bash") tt = (fail errc_not_found, w') /\
        forall q, q ∈ l -> package_name q <> lit "bash")
   end).
Proof. exact (@find_package_spec unit debian (machine []) (lit "bash") tt). Defined.

Definition arch_tools : list string := ["/var/lib/pacman/local"; "/usr/bin/checkupdates"]%string.

Lemma run_checkupdates_spec_witness :
  @run_checkupdates unit (machine arch_tools) tt = (Value (Command_output (lit "vim 1.0 -> 1.1") 0), tt) /\
  @command_run unit (machine arch_tools) tt (Value (Command_output (lit "vim 1.0 -> 1.1") 0)) tt.
Proof.
  assert (@run_checkupdates unit (machine arch_tools) tt = (Value (Command_output (lit "vim 1.0 -> 1.1") 0), tt)) as Hr
    by (vm_compute; reflexivity).
  split; [exact Hr|]. exact (proj1 (@run_checkupdates_spec unit (machine arch_tools) tt tt _) Hr).
Defined.

Definition vim_update : update_record :=
  Update_record (lit "vim") (lit "vim") (Some (lit "1.1")) class_unknown severity_unknown false None.

Definition arch : Kernel unit :=
  static_kernel [("/run/reboot-required.pkgs", "vim linux-image")]%string.

Lemma system_updates_listed_witness :
  let l := [vim_update; Update_record (lit "vim linux-image") (lit "vim linux-image") None class_unknown
                          severity_unknown true None] in
  @system_updates unit arch (machine arch_tools) tt = (Value l, tt) /\
  StronglySorted (not_after compare_updates) l /\ NoDup (update_identifier <$> l) /\ Forall identified l.
Proof.
  intros l.
  assert (@system_updates unit arch (machine arch_tools) tt = (Value l, tt)) as Hl by (vm_compute; reflexivity).
  split; [exact Hl|]. exact (@system_updates_listed unit arch (machine arch_tools) tt l tt Hl).
Defined.

Lemma installed_runtimes_listed_witness :
  let k := static_kernel [("/usr/lib/go/VERSION", "go1.22.1")]%string in
  let m := machine ["/usr/lib/go/bin/go"]%string in
  let l := [Runtime_record kind_golang (lit "Go") (lit "1.22.1") (lit "/usr/lib/go") None] in
  @installed_runtimes unit k m tt = (Value l, tt) /\
  StronglySorted (not_after compare_runtimes) l /\ NoDup (make_runtime_dedup_key <$> l) /\ Forall located l.
Proof.
  intros k m l. assert (@installed_runtimes unit k m tt = (Value l, tt)) as Hl by (vm_compute; reflexivity).
  split; [exact Hl|]. exact (@installed_runtimes_listed unit k m tt l tt Hl).
Defined.

Definition unit_files : Kernel unit := listing_kernel
  [("/lib/systemd/system/ssh.service", "[Service]")]%string
  [("/lib/systemd/system", ["."; "ssh.service"; "multi-user.target.wants"]);
   ("/lib/systemd/system/multi-user.target.wants", ["ssh.service"])]%string.

Lemma services_listed_witness :
  let l := [Service_record (lit "ssh.service") None None service_unknown automatic None None] in
  @services unit unit_files (machine []) tt = (Value l, tt) /\
  StronglySorted (not_after compare_services) l /\
  exists wants w1,
    @for_each_path unit _ (@scan_systemd_wants_dir unit unit_files) service_dirs empty_survey tt = (Value (tt, wants), w1) /\
    ((NoDup (service_name <$> l) /\ Forall (unit_ok (seen wants)) l) \/ Forall init_ok l).
Proof.
  intros l. assert (@services unit unit_files (machine []) tt = (Value l, tt)) as Hl by (vm_compute; reflexivity).
  split; [exact Hl|]. exact (@services_listed unit unit_files (machine []) tt l tt Hl).
Defined.
