(* ===== verification/Storage.v ===== *)
(** * Storage: records, checks and formats

    [include/syscape/detail/storage/common.hpp] and the formats
    [include/syscape/detail/storage/linux.hpp] parses: numbers of sysfs, the
    mount table, partition identifiers, the health log of NVMe drives and the
    sense data of SCSI drives.  The queries are in [StorageLinux].  A value with
    a flag that says whether it is there is an [option]. *)
From S2P Require Import Prelude Result CppText Utf8 Buffer System Float.

(** ** storage.hpp *)

Inductive bus_type :=
  | bus_unknown | bus_scsi | bus_sata | bus_sas | bus_ata | bus_atapi | bus_usb | bus_firewire
  | bus_fibre_channel | bus_iscsi | bus_raid | bus_nvme | bus_sd | bus_mmc | bus_virtual_media.

Inductive partition_scheme := scheme_unknown | scheme_mbr | scheme_gpt | scheme_apple | scheme_raw.

Inductive drive_health_status := health_unknown | health_healthy | health_warning | health_critical.

(** ** common.hpp *)

Record health_record := Health_record {
  health_identifier : text;
  health_status : drive_health_status;
  failure_predicted : option bool;
  temperature_celsius : option double;
  percent_used : option Z;
  available_spare_percent : option Z;
  power_on_hours : option Z;
  power_cycles : option Z;
  unsafe_shutdowns : option Z;
  media_errors : option Z;
  data_units_read_bytes : option Z;
  data_units_written_bytes : option Z
}.

Record drive_record := Drive_record {
  identifier : text;
  vendor : option text;
  model : option text;
  firmware_revision : option text;
  bus : bus_type;
  capacity_bytes : option Z;
  logical_sector_size_bytes : option Z;
  physical_sector_size_bytes : option Z;
  rotational : option bool;
  removable : bool
}.

Record partition_record := Partition_record {
  partition_identifier : text;
  disk_identifier : text;
  partition_number : Z;
  start_offset_bytes : option Z;
  size_bytes : option Z;
  scheme : partition_scheme;
  type_identifier : option text;
  partition_name : option text;
  uuid : option text;
  filesystem_type : option text;
  is_read_only : bool;
  is_bootable : bool;
  is_mounted : bool;
  mount_point : text
}.

Definition invalid_if_any (v : option text) : bool :=
  match v with Some v => negb (is_valid_utf8 v) | None => false end.

Definition empty_if_any (v : option text) : bool :=
  match v with Some v => empty v | None => false end.

Definition zero_if_any (v : option Z) : bool :=
  match v with Some v => v =? 0 | None => false end.

Definition validate_drive_record (r : drive_record) : result unit :=
  reject (empty (identifier r) || negb (is_valid_utf8 (identifier r))) errc_invalid_encoding;;
  reject (invalid_if_any (vendor r) || invalid_if_any (model r) || invalid_if_any (firmware_revision r))
    errc_invalid_encoding;;
  reject (zero_if_any (logical_sector_size_bytes r) || zero_if_any (physical_sector_size_bytes r))
    errc_malformed_data.

Definition validate_drive_records (records : result (list drive_record)) : result (list drive_record) :=
  records ← records; for_each validate_drive_record records;; mret records.

Definition validate_partition_record (r : partition_record) : result unit :=
  reject (empty (partition_identifier r) || negb (is_valid_utf8 (partition_identifier r)))
    errc_invalid_encoding;;
  reject (empty (disk_identifier r) || negb (is_valid_utf8 (disk_identifier r))) errc_invalid_encoding;;
  reject (empty_if_any (type_identifier r) || empty_if_any (partition_name r) || empty_if_any (uuid r) ||
          empty_if_any (filesystem_type r) || (is_mounted r && empty (mount_point r)) ||
          (negb (is_mounted r) && negb (empty (mount_point r)))) errc_malformed_data;;
  reject (invalid_if_any (type_identifier r) || invalid_if_any (partition_name r) ||
          invalid_if_any (uuid r) || invalid_if_any (filesystem_type r) ||
          (is_mounted r && negb (is_valid_utf8 (mount_point r)))) errc_invalid_encoding.

Definition validate_partition_records (records : result (list partition_record))
    : result (list partition_record) :=
  records ← records; for_each validate_partition_record records;; mret records.

(** The literals [-273.15] and [1000.0]: a quotient of exact numbers rounds as
    the literal does. *)
Definition absolute_zero : double := double_div (to_double (-27315)) (to_double 100).

Definition plausible_temperature (t : double) : bool :=
  match t with
  | S754_nan | S754_infinity _ => false
  | _ => negb (double_lt t absolute_zero) && negb (double_lt (to_double 1000) t)
  end.

Definition check_health (r : health_record) : result unit :=
  reject (empty (health_identifier r) || negb (is_valid_utf8 (health_identifier r))) errc_invalid_encoding;;
  reject (match available_spare_percent r with Some p => 100 <? p | None => false end) errc_malformed_data;;
  reject (match temperature_celsius r with Some t => negb (plausible_temperature t) | None => false end)
    errc_malformed_data.

Definition validate_health_record (record : result health_record) : result health_record :=
  record ← record; check_health record;; mret record.

Definition validate_health_records (records : result (list health_record)) : result (list health_record) :=
  records ← records; for_each check_health records;; mret records.

Definition is_valid_disk_identifier (identifier : text) : bool :=
  if empty identifier then false
  else if negb (is_valid_utf8 identifier) then false
  else if bool_decide (ch_nul ∈ identifier) then false
  else if bool_decide ("/"%char ∈ identifier) || bool_decide ("\"%char ∈ identifier) then false
  else negb (same identifier (lit ".") || same identifier (lit "..")).

(** ** linux.hpp: attributes *)

Definition storage_blank (c : ascii) : bool :=
  is_char c " " || is_char c ch_tab || is_char c ch_cr || is_char c ch_lf.

Definition trim_attribute (input : text) : text := trim storage_blank input.

(** [parse_number] for an unsigned type with a maximum, and for [int64_t]. *)
Definition parsed_number (parse : text -> from_chars_result) (input : text) : result Z :=
  let v := trim_attribute input in
  if empty v then fail errc_malformed_data
  else
    let parsed := parse v in
    if out_of_range parsed then fail errc_value_too_large
    else if negb (consumed parsed v) then fail errc_malformed_data
    else Value (fc_value parsed).

Definition parse_number (max : Z) (input : text) : result Z :=
  parsed_number (from_chars_unsigned max 10) input.

Definition parse_signed (input : text) : result Z :=
  parsed_number (from_chars_signed int64_min int64_max 10) input.

Definition parse_flag (input : text) : result bool :=
  let v := trim_attribute input in
  if same v (lit "0") then Value false
  else if same v (lit "1") then Value true
  else fail errc_malformed_data.

Definition classify_subsystem (subsystem : text) : bus_type :=
  if same subsystem (lit "scsi") then bus_scsi
  else if same subsystem (lit "nvme") then bus_nvme
  else if same subsystem (lit "mmc") then bus_mmc
  else bus_unknown.

Definition backing_subsystem_unchanged (initial : text) (final : option text) : bool :=
  match final with Some final => same initial final | None => false end.

(** A text attribute that is there and not blank. *)
Definition apply_text (content : option text) : option text :=
  match content with
  | None => None
  | Some content =>
      let trimmed := trim_attribute content in
      if empty trimmed then None else Some trimmed
  end.

Definition size_unit_bytes : Z := 512.

Definition capacity_in_bytes (sectors : Z) : result Z :=
  if uint64_max / size_unit_bytes <? sectors then fail errc_value_too_large
  else Value (wrap 64 (sectors * size_unit_bytes)).

(** ** linux.hpp: partitions *)

Definition is_hex_char (c : ascii) : bool :=
  ((48 <=? code c) && (code c <=? 57)) || ((97 <=? code c) && (code c <=? 102)) ||
  ((65 <=? code c) && (code c <=? 70)).

Definition char_at (t : text) (i : nat) : ascii := nth i t ch_nul.

Definition hyphen_at (i : nat) : bool := ((i =? 8) || (i =? 13) || (i =? 18) || (i =? 23))%nat.

Definition gpt_uuid (t : text) : bool :=
  (length t =? 36)%nat && is_char (char_at t 8) "-" && is_char (char_at t 13) "-" &&
  is_char (char_at t 18) "-" && is_char (char_at t 23) "-" &&
  forallb (fun i => hyphen_at i || is_hex_char (char_at t i)) (seq 0 36).

Definition mbr_uuid (t : text) : bool :=
  bool_decide (find "-" t 0 = Some 8%nat) && (10 <=? length t)%nat && (length t <=? 12)%nat &&
  forallb (fun i => is_hex_char (char_at t i)) (seq 0 8) &&
  forallb (fun i => (48 <=? code (char_at t i)) && (code (char_at t i) <=? 57)) (seq 9 (length t - 9)).

Definition classify_partition_scheme (t : text) : partition_scheme :=
  if gpt_uuid t then scheme_gpt else if mbr_uuid t then scheme_mbr else scheme_unknown.

(** ** linux.hpp: the mount table *)

Definition octal_digit_value (c : ascii) : Z :=
  if (48 <=? code c) && (code c <=? 55) then code c - 48 else -1.

Definition decode_mount_escape (field : text) (backslash : nat) : result ascii :=
  if (length field - backslash <? 4)%nat then fail errc_malformed_data
  else
    let hundreds := octal_digit_value (char_at field (backslash + 1)) in
    let tens := octal_digit_value (char_at field (backslash + 2)) in
    let ones := octal_digit_value (char_at field (backslash + 3)) in
    if (hundreds <? 0) || (tens <? 0) || (ones <? 0) then fail errc_malformed_data
    else
      let decoded := hundreds * 64 + tens * 8 + ones in
      if decoded =? 32 then Value " "%char
      else if decoded =? 9 then Value ch_tab
      else if decoded =? 10 then Value ch_lf
      else if decoded =? 92 then Value "\"%char
      else fail errc_malformed_data.

Fixpoint mount_field_loop (fuel : nat) (field : text) (offset : nat) (output : text) : result text :=
  match fuel with
  | O => Value output
  | S fuel =>
      if (offset <? length field)%nat then
        let c := char_at field offset in
        if negb (is_char c "\") then mount_field_loop fuel field (S offset) (output ++ [c])
        else
          decoded ← decode_mount_escape field offset;
          mount_field_loop fuel field (offset + 4) (output ++ [decoded])
      else Value output
  end.

Definition decode_mount_field (field : text) : result text :=
  mount_field_loop (S (length field)) field 0 [].

Record mount_entry := Mount_entry {
  device_name : text;
  entry_mount_point : text;
  fstype : text
}.

Definition mount_blank (c : ascii) : bool := is_char c " " || is_char c ch_tab.

(** A line: its first three words, and the count of all. *)
Definition mount_line (line : text) (entries : list mount_entry)
    : step (list mount_entry) (result (list mount_entry)) :=
  if empty line then Next entries
  else
    match tokens mount_blank line with
    | raw_source :: raw_target :: raw_fstype :: rest =>
        if (3 + length rest <? 6)%nat then Return (fail errc_malformed_data)
        else if starts_with (lit "/dev/") raw_source && (5 <? length raw_source)%nat then
          device <-? decode_mount_field (substr_from 5 raw_source);
          target <-? decode_mount_field raw_target;
          kind <-? decode_mount_field raw_fstype;
          Next (entries ++ [Mount_entry device target kind])
        else Next entries
    | _ => Return (fail errc_malformed_data)
    end.

Definition parse_mount_table (content : text) : result (list mount_entry) :=
  finish (each_field ch_lf content mount_line []) Value.

(** ** linux.hpp: the NVMe health log *)

(** [for (i = 0; i < n; ++i) low |= p[i] << (i * 8);] *)
Fixpoint le_loop (memory : list Z) (pos i n : nat) (low : Z) : checked Z :=
  match n with
  | O => mret low
  | S n =>
      b ← load_byte memory (pos + i);
      le_loop memory pos (S i) n (Z.lor low (wrap 64 (Z.shiftl b (Z.of_nat i * 8))))
  end.

Definition read_u128_le (memory : list Z) (pos : nat) : checked (Z * Z) :=
  low ← le_loop memory pos 0 8 0;
  high ← le_loop memory (pos + 8) 0 8 0;
  mret (low, high).

Definition nvme_unit_multiplier : Z := 512000.

(** A count of units of 512000 bytes, in bytes. *)
Definition read_units (memory : list Z) (pos : nat) : checked Z :=
  '(low, high) ← read_u128_le memory pos;
  check (reject (negb (high =? 0) || (uint64_max / nvme_unit_multiplier <? low)) errc_value_too_large);;
  mret (wrap 64 (low * nvme_unit_multiplier)).

(** A count that fits 64 bits. *)
Definition read_count (memory : list Z) (pos : nat) : checked Z :=
  '(low, high) ← read_u128_le memory pos;
  check (reject (negb (high =? 0)) errc_value_too_large);;
  mret low.

(** The literals [273.15], [-50.0] and [150.0]. *)
Definition kelvin_offset : double := double_div (to_double 27315) (to_double 100).

Definition usual_temperature (celsius : double) : bool :=
  negb (double_lt celsius (to_double (-50))) && negb (double_lt (to_double 150) celsius) &&
  match celsius with S754_nan => false | _ => true end.

Definition log_temperature (temp_kelvin : Z) (before : option double) : option double :=
  if (0 <? temp_kelvin) && (temp_kelvin <? 1000) then
    let celsius := double_sub (to_double temp_kelvin) kelvin_offset in
    if usual_temperature celsius then Some celsius else before
  else before.

(** The status and whether a failure is predicted. *)
Definition log_status (critical_warning avail_spare avail_spare_thresh percent_used : Z)
    : drive_health_status * bool :=
  if negb (critical_warning =? 0) then
    (if negb (Z.land critical_warning 0x0C =? 0) then health_critical else health_warning, true)
  else if (avail_spare <=? avail_spare_thresh) || (100 <=? percent_used) then
    (health_warning, avail_spare <=? avail_spare_thresh)
  else (health_healthy, false).

Definition parse_nvme_smart_log_buffer (buf : list Z) (size : nat) (record : health_record)
    : checked health_record :=
  check (reject (size <? 512)%nat errc_malformed_data);;
  critical_warning ← load_byte buf 0;
  kelvin_low ← load_byte buf 1;
  kelvin_high ← load_byte buf 2;
  let temp_kelvin := wrap 16 (Z.lor kelvin_low (Z.shiftl kelvin_high 8)) in
  avail_spare ← load_byte buf 3;
  avail_spare_thresh ← load_byte buf 4;
  used ← load_byte buf 5;
  check (reject ((100 <? avail_spare) || (100 <? avail_spare_thresh)) errc_malformed_data);;
  let '(status, predicted) := log_status critical_warning avail_spare avail_spare_thresh used in
  read_bytes ← read_units buf 32;
  written_bytes ← read_units buf 48;
  cycles ← read_count buf 112;
  hours ← read_count buf 128;
  shutdowns ← read_count buf 144;
  errors ← read_count buf 160;
  mret (Health_record (health_identifier record) status (Some predicted)
    (log_temperature temp_kelvin (temperature_celsius record)) (Some used) (Some avail_spare) (Some hours)
    (Some cycles) (Some shutdowns) (Some errors) (Some read_bytes) (Some written_bytes)).

(** ** linux.hpp: ATA and SCSI status *)

Definition with_prediction (status : drive_health_status) (predicted : bool) (r : health_record) : health_record :=
  Health_record (health_identifier r) status (Some predicted) (temperature_celsius r) (percent_used r)
    (available_spare_percent r) (power_on_hours r) (power_cycles r) (unsafe_shutdowns r) (media_errors r)
    (data_units_read_bytes r) (data_units_written_bytes r).

Definition parse_ata_smart_status_values (lba_mid lba_high : Z) (record : health_record)
    : result health_record :=
  if (lba_mid =? 0x4F) && (lba_high =? 0xC2) then Value (with_prediction health_healthy false record)
  else if (lba_mid =? 0xF4) && (lba_high =? 0x2C) then Value (with_prediction health_warning true record)
  else fail errc_malformed_data.

Definition ENOSYS : Z := 38.

(** The outcome of a failing [ioctl]. *)
Definition classify_ioctl_errno (system_errno : Z) : result unit :=
  if (system_errno =? EACCES) || (system_errno =? EPERM) then fail errc_permission_denied
  else if (system_errno =? ENOTTY) || (system_errno =? EOPNOTSUPP) || (system_errno =? ENOSYS)
  then Value tt
  else if system_errno =? EIO then fail errc_io_error
  else fail_native system_errno.

Definition classify_linux_nvme_ioctl_status (rc system_errno : Z) : result unit :=
  if rc <? 0 then classify_ioctl_errno system_errno
  else if 0 <? rc then
    let sct := Z.land (Z.shiftr rc 8) 0x07 in
    let sc := Z.land rc 0xFF in
    if (sct =? 0) && ((sc =? 1) || (sc =? 2)) then Value tt
    else if (sct =? 1) && (sc =? 9) then Value tt
    else fail errc_io_error
  else Value tt.

(** What the kernel stores in the header of a pass-through command. *)
Record sg_status := Sg_status {
  status : Z;
  sb_len_wr : nat;
  host_status : Z;
  driver_status : Z
}.

(** The sense key, [0xFF] when the format is not known. *)
Definition sense_key_of (sense : list Z) (sb_len : nat) : checked Z :=
  first ← load_byte sense 0;
  let resp_code := Z.land first 0x7F in
  if (resp_code =? 0x72) || (resp_code =? 0x73) then
    if (2 <=? sb_len)%nat then b ← load_byte sense 1; mret (Z.land b 0x0F) else mret 0xFF
  else if (resp_code =? 0x70) || (resp_code =? 0x71) then
    if (3 <=? sb_len)%nat then b ← load_byte sense 2; mret (Z.land b 0x0F) else mret 0xFF
  else mret 0xFF.

Definition classify_sense_key (sense_key : Z) : result unit :=
  if (sense_key =? 0x00) || (sense_key =? 0x01) then Value tt
  else if sense_key =? 0x05 then Value tt
  else if (sense_key =? 0x02) || (sense_key =? 0x06) then fail errc_temporarily_unavailable
  else if sense_key =? 0x07 then fail errc_permission_denied
  else fail errc_io_error.

Definition classify_linux_scsi_ioctl_status (rc system_errno : Z) (hdr : sg_status) (sense : list Z)
    (ata_desc_found : bool) : checked unit :=
  if rc <? 0 then check (classify_ioctl_errno system_errno)
  else
    check (reject (negb (host_status hdr =? 0)) errc_io_error);;
    check (reject (negb (driver_status hdr =? 0) && negb (driver_status hdr =? 0x08)) errc_io_error);;
    check (reject ((status hdr =? 0x08) || (status hdr =? 0x28)) errc_temporarily_unavailable);;
    check (reject (status hdr =? 0x18) errc_permission_denied);;
    check (reject (negb (status hdr =? 0x00) && negb (status hdr =? 0x02)) errc_io_error);;
    if ata_desc_found then mret tt
    else if status hdr =? 0x00 then mret tt
    else
      check (reject (sb_len_wr hdr =? 0)%nat errc_io_error);;
      sense_key ← sense_key_of sense (sb_len_wr hdr);
      check (classify_sense_key sense_key).

(** The walk over the descriptors of the sense data, for the registers of the
    ATA return descriptor.  One unit of fuel is one descriptor. *)
Fixpoint descriptor_loop (fuel : nat) (sense : list Z) (sb_len offset : nat) : checked (option (Z * Z)) :=
  match fuel with
  | O => None
  | S fuel =>
      if (offset + 1 <? sb_len)%nat then
        desc_type ← load_byte sense offset;
        desc_len ← load_byte sense (offset + 1);
        if (desc_type =? 0x09) && (12 <=? desc_len) && (offset + 2 + Z.to_nat desc_len <=? sb_len)%nat then
          lba_mid ← load_byte sense (offset + 9);
          lba_high ← load_byte sense (offset + 11);
          mret (Some (lba_mid, lba_high))
        else descriptor_loop fuel sense sb_len (offset + 2 + Z.to_nat desc_len)
      else mret None
  end.

Definition ata_return (rc : Z) (hdr : sg_status) (sense : list Z) : checked (option (Z * Z)) :=
  if (rc =? 0) && (14 <=? sb_len_wr hdr)%nat then
    first ← load_byte sense 0;
    if (first =? 0x72) || (first =? 0x73) then descriptor_loop (S (sb_len_wr hdr)) sense (sb_len_wr hdr) 8
    else mret None
  else mret None.

(** What the pass-through command yields, from its outcome. *)
Definition scsi_smart_outcome (rc system_errno : Z) (hdr : sg_status) (sense : list Z) (record : health_record)
    : checked health_record :=
  found ← ata_return rc hdr sense;
  classify_linux_scsi_ioctl_status rc system_errno hdr sense
    (match found with Some _ => true | None => false end);;
  match found with
  | Some (lba_mid, lba_high) => check (parse_ata_smart_status_values lba_mid lba_high record)
  | None => mret record
  end.

(** ** Little-endian numbers *)

Fixpoint le_bytes (n : nat) (v : Z) : list Z :=
  match n with O => [] | S n => v mod 256 :: le_bytes n (v / 256) end.

Lemma le_bytes_app n m v : 0 <= v -> le_bytes (n + m) v = le_bytes n v ++ le_bytes m (v / 2 ^ (8 * Z.of_nat n)).
Proof.
  revert v. induction n as [|n IH]; intros v Hv; [by rewrite Z.div_1_r|]. cbn [Nat.add le_bytes app].
  rewrite IH by (apply Z.div_pos; lia). do 3 f_equal. rewrite Z.div_div by lia. f_equal.
  rewrite Nat2Z.inj_succ, <- Z.add_1_r, Z.mul_add_distr_l, Z.pow_add_r by lia. change (2 ^ (8 * 1)) with 256. lia.
Qed.

Lemma le_bytes_length n v : length (le_bytes n v) = n.
Proof. revert v. induction n; intros v; simpl; auto. Qed.

Lemma load_byte_holds memory pos b rest :
  holds memory pos (b :: rest) -> load_byte memory pos = mret b.
Proof.
  intros (before & after & -> & <-). unfold load_byte. rewrite lookup_app_r by lia.
  by rewrite Nat.sub_diag.
Qed.

Lemma holds_tail {A} (memory : list A) pos b rest : holds memory pos (b :: rest) -> holds memory (S pos) rest.
Proof.
  intros H. change (b :: rest) with ([b] ++ rest) in H. apply holds_app in H as [_ H].
  by rewrite Nat.add_1_r in H.
Qed.

Lemma le_loop_holds memory pos n i v low :
  holds memory (pos + i) (le_bytes n v) -> (i + n <= 8)%nat -> 0 <= v ->
  0 <= low < 2 ^ (8 * Z.of_nat i) ->
  le_loop memory pos i n low = mret (low + 2 ^ (8 * Z.of_nat i) * (v mod 2 ^ (8 * Z.of_nat n))).
Proof.
  revert i v low. induction n as [|n IH]; intros i v low Hh Hi Hv Hl; cbn [le_loop le_bytes] in *.
  - change (2 ^ (8 * Z.of_nat 0)) with 1. rewrite Z.mod_1_r, Z.mul_0_r, Z.add_0_r. done.
  - rewrite (load_byte_holds _ _ _ _ Hh). checked_step.
    pose proof (Z.mod_pos_bound v 256 ltac:(lia)) as Hb.
    assert (0 < 2 ^ (8 * Z.of_nat i)) as Hpos by (apply Z.pow_pos_nonneg; lia).
    assert (2 ^ (8 * Z.of_nat i) * 256 = 2 ^ (8 * Z.of_nat (S i))) as Hs.
    { rewrite Nat2Z.inj_succ, <- Z.add_1_r, Z.mul_add_distr_l, Z.pow_add_r by lia. done. }
    assert (2 ^ (8 * Z.of_nat (S i)) <= 2 ^ 64) as H64 by (apply Z.pow_le_mono_r; lia).
    rewrite Z.shiftl_mul_pow2 by lia. rewrite (Z.mul_comm (Z.of_nat i) 8).
    unfold wrap. rewrite (Z.mod_small (_ * _)) by nia.
    rewrite Z.lor_comm, (lor_add (8 * Z.of_nat i)) by (lia || apply Z.mod_mul; lia).
    rewrite (IH (S i) (v / 256)); [|by apply holds_tail in Hh; rewrite <- plus_n_Sm|lia|apply Z.div_pos; lia|nia].
    f_equal. rewrite <- Hs.
    assert (2 ^ (8 * Z.of_nat (S n)) = 256 * 2 ^ (8 * Z.of_nat n)) as ->.
    { rewrite Nat2Z.inj_succ, <- Z.add_1_r, Z.mul_add_distr_l, Z.pow_add_r by lia. change (2 ^ (8 * 1)) with 256. lia. }
    rewrite Z.rem_mul_r by lia. ring.
Qed.

Lemma read_u128_holds memory pos v :
  holds memory pos (le_bytes 16 v) -> 0 <= v < 2 ^ 128 ->
  read_u128_le memory pos = mret (v mod 2 ^ 64, v / 2 ^ 64).
Proof.
  intros Hh Hv. rewrite (le_bytes_app 8 8) in Hh by lia. apply holds_app in Hh as [H1 H2].
  rewrite le_bytes_length in H2. change (8 * Z.of_nat 8) with 64 in H2. unfold read_u128_le.
  assert (0 <= v / 2 ^ 64 < 2 ^ 64) as Hq.
  { split; [apply Z.div_pos; lia|]. apply Z.div_lt_upper_bound; [lia|]. change (2 ^ 64 * 2 ^ 64) with (2 ^ 128). lia. }
  rewrite (le_loop_holds memory pos 8 0 v 0) by (rewrite ?Nat.add_0_r; (done || simpl; lia)). checked_step.
  rewrite (le_loop_holds memory (pos + 8) 8 0 (v / 2 ^ 64) 0)
    by (rewrite ?Nat.add_0_r; (done || simpl; lia)). checked_step.
  change (8 * Z.of_nat 0) with 0. change (8 * Z.of_nat 8) with 64. rewrite (Z.mod_small (v / 2 ^ 64)) by lia.
  change (2 ^ 0) with 1. by rewrite !Z.mul_1_l, !Z.add_0_l.
Qed.

Lemma high_zero v : 0 <= v -> (v / 2 ^ 64 =? 0) = (v <=? uint64_max).
Proof.
  intros Hv. destruct (Z.leb_spec v uint64_max).
  - rewrite Z.div_small by (unfold_bounds; lia). done.
  - apply Z.eqb_neq. assert (1 <= v / 2 ^ 64); [|lia]. apply Z.div_le_lower_bound; unfold_bounds; lia.
Qed.

Lemma read_count_holds memory pos v :
  holds memory pos (le_bytes 16 v) -> 0 <= v < 2 ^ 128 ->
  read_count memory pos = if v <=? uint64_max then mret v else check (fail errc_value_too_large).
Proof.
  intros Hh Hv. unfold read_count. rewrite (read_u128_holds _ _ v) by done. checked_step.
  rewrite high_zero by lia. destruct (Z.leb_spec v uint64_max); [|done]. checked_step.
  rewrite Z.mod_small by (unfold_bounds; lia). done.
Qed.

Lemma read_units_holds memory pos v :
  holds memory pos (le_bytes 16 v) -> 0 <= v < 2 ^ 128 ->
  read_units memory pos =
  if v * 512000 <=? uint64_max then mret (v * 512000) else check (fail errc_value_too_large).
Proof.
  intros Hh Hv. unfold read_units. rewrite (read_u128_holds _ _ v) by done. checked_step.
  rewrite high_zero by lia. unfold nvme_unit_multiplier.
  destruct (Z.leb_spec v uint64_max) as [Hle|Hgt]; cbn [negb orb].
  - rewrite (Z.mod_small v) by (unfold_bounds; lia).
    destruct (Z.ltb_spec (uint64_max / 512000) v), (Z.leb_spec (v * 512000) uint64_max); unfold_bounds;
      try (exfalso; revert H H0; div_lia); [done|]. checked_step.
    unfold wrap. by rewrite Z.mod_small by lia.
  - destruct (Z.leb_spec (v * 512000) uint64_max); [unfold_bounds; lia|done].
Qed.

(** ** The log as a drive writes it *)

Record nvme_log := Nvme_log {
  critical_warning : Z;
  kelvin : Z;
  spare : Z;
  spare_threshold : Z;
  used : Z;
  units_read : Z;
  units_written : Z;
  cycles : Z;
  hours : Z;
  shutdowns : Z;
  errors : Z;
  reserved_26 : list Z;
  reserved_64 : list Z;
  reserved_176 : list Z
}.

Definition log_bytes (l : nvme_log) : list Z :=
  [critical_warning l] ++ le_bytes 2 (kelvin l) ++ [spare l; spare_threshold l; used l] ++ reserved_26 l ++
  le_bytes 16 (units_read l) ++ le_bytes 16 (units_written l) ++ reserved_64 l ++
  le_bytes 16 (cycles l) ++ le_bytes 16 (hours l) ++ le_bytes 16 (shutdowns l) ++ le_bytes 16 (errors l) ++
  reserved_176 l.

Definition log_ok (l : nvme_log) : Prop :=
  0 <= kelvin l < 65536 /\
  Forall (fun v => 0 <= v < 2 ^ 128)
    [units_read l; units_written l; cycles l; hours l; shutdowns l; errors l] /\
  length (reserved_26 l) = 26%nat /\ length (reserved_64 l) = 48%nat /\ length (reserved_176 l) = 336%nat.

(** The counters fit: the data in bytes, the others as they are. *)
Definition counters_fit (l : nvme_log) : bool :=
  (units_read l * 512000 <=? uint64_max) && (units_written l * 512000 <=? uint64_max) &&
  (cycles l <=? uint64_max) && (hours l <=? uint64_max) && (shutdowns l <=? uint64_max) &&
  (errors l <=? uint64_max).

Definition recorded_log (l : nvme_log) (r : health_record) : health_record :=
  let (status, predicted) := log_status (critical_warning l) (spare l) (spare_threshold l) (used l) in
  Health_record (health_identifier r) status (Some predicted)
    (log_temperature (kelvin l) (temperature_celsius r)) (Some (used l)) (Some (spare l)) (Some (hours l))
    (Some (cycles l)) (Some (shutdowns l)) (Some (errors l)) (Some (units_read l * 512000))
    (Some (units_written l * 512000)).

(** Where each part of the log is. *)
Ltac log_part :=
  repeat match goal with
  | H : holds _ _ (_ ++ _) |- _ =>
      apply holds_app in H; destruct H as [? H]; cbn [length] in *; rewrite ?le_bytes_length in *
  end.

Lemma log_layout l (memory := log_bytes l) :
  log_ok l ->
  load_byte memory 0 = mret (critical_warning l) /\
  load_byte memory 1 = mret (kelvin l mod 256) /\ load_byte memory 2 = mret (kelvin l / 256) /\
  load_byte memory 3 = mret (spare l) /\ load_byte memory 4 = mret (spare_threshold l) /\
  load_byte memory 5 = mret (used l) /\
  holds memory 32 (le_bytes 16 (units_read l)) /\ holds memory 48 (le_bytes 16 (units_written l)) /\
  holds memory 112 (le_bytes 16 (cycles l)) /\ holds memory 128 (le_bytes 16 (hours l)) /\
  holds memory 144 (le_bytes 16 (shutdowns l)) /\ holds memory 160 (le_bytes 16 (errors l)).
Proof.
  intros (Hk & _ & H26 & H64 & H176). assert (holds memory 0 (log_bytes l)) as Hm by apply holds_whole.
  unfold log_bytes in Hm.
  log_part. rewrite H26, H64 in *. cbn [Nat.add] in *.
  repeat match goal with
  | H : holds ?m ?p (?b :: ?rest) |- _ =>
      pose proof (load_byte_holds _ _ _ _ H); apply holds_tail in H
  | H : holds ?m ?p (le_bytes 2 ?v) |- _ => cbn [le_bytes] in H
  end.
  split_and!; try assumption. rewrite <- (Z.mod_small (kelvin l / 256) 256); [assumption|].
  split; [apply Z.div_pos; lia|apply Z.div_lt_upper_bound; lia].
Qed.

(** The 512 bytes of a health log are read field by field: spare capacities
    beyond a hundred percent are malformed, a counter that does not fit its
    type - the data units after scaling to bytes - is [value_too_large], and
    otherwise every field is recorded with its value, whatever the reserved
    bytes hold. *)
Theorem parse_nvme_smart_log_bytes (l : nvme_log) (r : health_record) :
  log_ok l ->
  parse_nvme_smart_log_buffer (log_bytes l) 512 r =
  if (100 <? spare l) || (100 <? spare_threshold l) then check (fail errc_malformed_data)
  else if counters_fit l then mret (recorded_log l r)
  else check (fail errc_value_too_large).
Proof.
  intros Hok. destruct (log_layout l Hok) as (H0 & H1 & H2 & H3 & H4 & H5 & Hr & Hw & Hc & Hh & Hs & He).
  destruct Hok as (Hk & Hv & _).
  apply Forall_cons in Hv as [? Hv]. apply Forall_cons in Hv as [? Hv]. apply Forall_cons in Hv as [? Hv].
  apply Forall_cons in Hv as [? Hv]. apply Forall_cons in Hv as [? Hv]. apply Forall_cons in Hv as [? _].
  unfold parse_nvme_smart_log_buffer. change (512 <? 512)%nat with false. checked_step.
  rewrite H0. checked_step. rewrite H1. checked_step. rewrite H2. checked_step.
  rewrite H3. checked_step. rewrite H4. checked_step. rewrite H5. checked_step.
  destruct (_ || _); [done|]. checked_step. unfold recorded_log, counters_fit.
  destruct (log_status _ _ _ _) as [status predicted].
  assert (wrap 16 (Z.lor (kelvin l mod 256) (Z.shiftl (kelvin l / 256) 8)) = kelvin l) as ->.
  { rewrite Z.shiftl_mul_pow2, Z.lor_comm, (lor_add 8) by first [lia|by apply Z.mod_mul|by apply Z.mod_pos_bound].
    change (2 ^ 8) with 256. pose proof (Z.div_mod (kelvin l) 256 ltac:(lia)) as Hd.
    replace (kelvin l / 256 * 256 + kelvin l mod 256) with (kelvin l) by lia.
    unfold wrap. by rewrite Z.mod_small by (change (2 ^ 16) with 65536; lia). }
  rewrite (read_units_holds _ _ _ Hr) by done. destruct (_ <=? _); [|done]. checked_step.
  rewrite (read_units_holds _ _ _ Hw) by done. destruct (_ <=? _); [|done]. checked_step.
  rewrite (read_count_holds _ _ _ Hc) by done. destruct (_ <=? _); [|done]. checked_step.
  rewrite (read_count_holds _ _ _ Hh) by done. destruct (_ <=? _); [|done]. checked_step.
  rewrite (read_count_holds _ _ _ Hs) by done. destruct (_ <=? _); [|done]. checked_step.
  rewrite (read_count_holds _ _ _ He) by done. by destruct (_ <=? _).
Qed.

Definition sample_log : nvme_log :=
  Nvme_log 0 310 100 10 3 2000 3000 12 4000 1 0 (replicate 26 0) (replicate 48 7) (replicate 336 0).

Lemma parse_nvme_smart_log_bytes_witness :
  log_ok sample_log /\
  forall r, parse_nvme_smart_log_buffer (log_bytes sample_log) 512 r = mret (recorded_log sample_log r).
Proof.
  assert (log_ok sample_log) as Hok.
  { split; [vm_compute; split; congruence|]. split; [|done]. repeat constructor; vm_compute; congruence. }
  split; [exact Hok|]. intros r. exact (parse_nvme_smart_log_bytes sample_log r Hok).
Defined.

(** ** The mount table as the kernel writes it *)

(** The kernel writes blanks, line feeds and backslashes as octal digits. *)
Definition escape_char (c : ascii) : text :=
  if is_char c " " then lit "\040"
  else if is_char c ch_tab then lit "\011"
  else if is_char c ch_lf then lit "\012"
  else if is_char c "\" then lit "\134"
  else [c].

Definition escape (t : text) : text := concat (escape_char <$> t).

(** A line: a block device or another source, and at least three more words. *)
Record mount_row := Mount_row {
  row_device : option text;
  row_source : text;
  row_target : text;
  row_type : text;
  row_rest : list text
}.

Definition source_text (r : mount_row) : text :=
  match row_device r with Some d => lit "/dev/" ++ escape d | None => row_source r end.

Definition row_text (r : mount_row) : text :=
  source_text r ++ concat (cons " "%char <$> escape (row_target r) :: escape (row_type r) :: row_rest r).

Definition is_word (t : text) : Prop := t <> [] /\ Forall (fun c => mount_blank c = false) t.

Definition row_ok (r : mount_row) : Prop :=
  row_target r <> [] /\ row_type r <> [] /\ (3 <= length (row_rest r))%nat /\
  Forall (fun t => is_word t /\ ch_lf ∉ t) (row_rest r) /\
  match row_device r with
  | Some d => d <> []
  | None => is_word (row_source r) /\ ch_lf ∉ row_source r /\ starts_with (lit "/dev/") (row_source r) = false
  end.

Definition row_entry (r : mount_row) : list mount_entry :=
  match row_device r with Some d => [Mount_entry d (row_target r) (row_type r)] | None => [] end.

Lemma escape_char_cases c :
  (escape_char c = [c] /\ c <> "\"%char /\ mount_blank c = false /\ c <> ch_lf) \/
  (exists d1 d2 d3, escape_char c = ["\"; d1; d2; d3]%char /\
     Forall (fun d => mount_blank d = false /\ d <> ch_lf) [d1; d2; d3] /\
     forall pre post, decode_mount_escape (pre ++ ["\"; d1; d2; d3]%char ++ post) (length pre) = Value c).
Proof.
  assert (forall (d1 d2 d3 v : ascii),
    decode_mount_escape ["\"; d1; d2; d3]%char 0 = Value v ->
    forall pre post, decode_mount_escape (pre ++ ["\"; d1; d2; d3]%char ++ post) (length pre) = Value v) as Hd.
  { intros d1 d2 d3 v Hv pre post. rewrite <- Hv. unfold decode_mount_escape, char_at.
    rewrite !length_app. cbn [length app]. rewrite (proj2 (Nat.ltb_ge _ _)) by lia.
    change (4 - 0 <? 4)%nat with false. cbv iota.
    rewrite !(app_nth2 pre) by lia. replace (length pre + 1 - length pre)%nat with 1%nat by lia.
    replace (length pre + 2 - length pre)%nat with 2%nat by lia.
    by replace (length pre + 3 - length pre)%nat with 3%nat by lia. }
  unfold escape_char.
  destruct (is_char c " ") eqn:E1; [apply is_char_true in E1 as ->|].
  { right. exists "0"%char, "4"%char, "0"%char. split_and!; [done|by repeat constructor|by apply Hd]. }
  destruct (is_char c ch_tab) eqn:E2; [apply is_char_true in E2 as ->|].
  { right. exists "0"%char, "1"%char, "1"%char. split_and!; [done|by repeat constructor|by apply Hd]. }
  destruct (is_char c ch_lf) eqn:E3; [apply is_char_true in E3 as ->|].
  { right. exists "0"%char, "1"%char, "2"%char. split_and!; [done|by repeat constructor|by apply Hd]. }
  destruct (is_char c "\") eqn:E4; [apply is_char_true in E4 as ->|].
  { right. exists "1"%char, "3"%char, "4"%char. split_and!; [done|by repeat constructor|by apply Hd]. }
  left. apply is_char_false in E3, E4. unfold mount_blank. by rewrite E1, E2.
Qed.

Lemma mount_field_loop_escape t fuel pre out :
  (length (escape t) < fuel)%nat ->
  mount_field_loop fuel (pre ++ escape t) (length pre) out = Value (out ++ t).
Proof.
  revert fuel pre out. induction t as [|c t IH]; intros fuel pre out Hf.
  - unfold escape in *. cbn [fmap list_fmap concat] in *. rewrite !app_nil_r. destruct fuel; [lia|]. cbn [mount_field_loop].
    by rewrite Nat.ltb_irrefl.
  - change (escape (c :: t)) with (escape_char c ++ escape t) in *. rewrite length_app in Hf.
    destruct fuel as [|fuel]; [lia|]. cbn [mount_field_loop].
    destruct (escape_char_cases c) as [(E & Hb & _)|(d1 & d2 & d3 & E & _ & Hd)]; rewrite E in *; cbn [length] in Hf.
    + rewrite !length_app. cbn [length]. rewrite (proj2 (Nat.ltb_lt _ _)) by lia. unfold char_at.
      rewrite app_nth2, Nat.sub_diag by lia. cbn [app nth]. rewrite (proj2 (is_char_false c _)) by done. cbn [negb].
      change (c :: escape t) with ([c] ++ escape t). rewrite app_assoc.
      replace (S (length pre)) with (length (pre ++ [c])) by (rewrite length_app; simpl; lia).
      rewrite IH by lia. by rewrite <- app_assoc.
    + rewrite !length_app. cbn [length]. rewrite (proj2 (Nat.ltb_lt _ _)) by lia. unfold char_at.
      rewrite app_nth2, Nat.sub_diag by lia. cbn [app nth].
      change (is_char "\" "\") with true. cbn [negb].
      pose proof (Hd pre (escape t)) as Hd'. cbn [app] in Hd'. rewrite Hd'. unfold mbind, result_bind.
      replace (pre ++ "\"%char :: d1 :: d2 :: d3 :: escape t) with ((pre ++ ["\"; d1; d2; d3]%char) ++ escape t)
        by (by rewrite <- app_assoc).
      replace (length pre + 4)%nat with (length (pre ++ ["\"; d1; d2; d3]%char)) by (rewrite length_app; simpl; lia).
      rewrite IH by lia. by rewrite <- app_assoc.
Qed.

Lemma decode_mount_escaped t : decode_mount_field (escape t) = Value t.
Proof. unfold decode_mount_field. apply (mount_field_loop_escape t _ [] []). lia. Qed.

Lemma escape_chars t : Forall (fun c => mount_blank c = false /\ c <> ch_lf) (escape t).
Proof.
  apply Forall_concat, Forall_fmap, Forall_true. intros c. simpl.
  destruct (escape_char_cases c) as [(-> & _ & ? & ?)|(d1 & d2 & d3 & -> & Hd & _)]; [by repeat constructor|].
  by constructor.
Qed.

Lemma escape_ne t : t <> [] -> escape t <> [].
Proof.
  destruct t as [|c t]; [done|]. intros _. change (escape (c :: t)) with (escape_char c ++ escape t).
  by destruct (escape_char_cases c) as [(-> & _)|(d1 & d2 & d3 & -> & _)].
Qed.

Lemma escape_word t : t <> [] -> is_word (escape t).
Proof. intros Ht. split; [by apply escape_ne|]. eapply Forall_impl; [apply escape_chars|]. by intros c []. Qed.

Lemma escape_no_lf t : ch_lf ∉ escape t.
Proof. intros Hin. pose proof (escape_chars t) as H. rewrite Forall_forall in H. by apply H in Hin as []. Qed.

Lemma escaped_word t : t <> [] -> is_word (escape t) /\ ch_lf ∉ escape t.
Proof. intros Ht. split; [by apply escape_word|by apply escape_no_lf]. Qed.

Definition row_words (r : mount_row) : list text :=
  source_text r :: escape (row_target r) :: escape (row_type r) :: row_rest r.

Lemma row_words_ok r : row_ok r -> Forall (fun t => is_word t /\ ch_lf ∉ t) (row_words r).
Proof.
  intros (Ht & Hy & _ & Hr & Hs). unfold row_words. repeat constructor; try by apply escaped_word.
  - unfold source_text. destruct (row_device r) as [d|]; [|by destruct Hs as [[] _]]. by destruct (escape d).
  - unfold source_text. destruct (row_device r) as [d|]; [|by destruct Hs as [[] _]].
    apply Forall_app. split; [by repeat constructor|]. by apply escaped_word.
  - unfold source_text. destruct (row_device r) as [d|]; [|by destruct Hs as (_ & ? & _)].
    intros [Hin|Hin]%elem_of_app; [repeat (apply elem_of_cons in Hin as [?|Hin]; [done|]); by apply elem_of_nil in Hin|by apply escape_no_lf in Hin].
  - done.
Qed.

Lemma row_text_words r : " "%char :: row_text r = concat (cons " "%char <$> row_words r).
Proof. done. Qed.

Lemma row_text_tokens r : row_ok r -> tokens mount_blank (row_text r) = row_words r.
Proof.
  intros Hr. rewrite <- (tokens_skip mount_blank " ") by done. rewrite row_text_words.
  apply tokens_concat; [done|]. eapply Forall_impl; [by apply row_words_ok|]. by intros t [].
Qed.

Lemma row_text_no_lf r : row_ok r -> ch_lf ∉ row_text r.
Proof.
  intros Hr Hin. apply (not_in_spaced ch_lf (row_words r)); [done| |rewrite <- row_text_words; by right].
  eapply Forall_impl; [by apply row_words_ok|]. by intros t [].
Qed.

Lemma mount_line_row r entries :
  row_ok r -> mount_line (row_text r) entries = Next (entries ++ row_entry r).
Proof.
  intros Hr. unfold mount_line. rewrite row_text_tokens by done.
  assert (empty (row_text r) = false) as ->.
  { destruct (row_text r) eqn:E; [|done]. pose proof (row_text_tokens r Hr) as Ht. by rewrite E in Ht. }
  destruct Hr as (Ht & Hy & Hlen & _ & Hs). unfold row_words.
  rewrite (proj2 (Nat.ltb_ge _ _)) by lia. unfold row_entry, source_text in *. destruct (row_device r) as [d|].
  - rewrite starts_with_app, length_app. pose proof (escape_ne d Hs). destruct (escape d) as [|c l] eqn:E; [done|].
    rewrite <- E. change (length (lit "/dev/")) with 5%nat.
    rewrite (proj2 (Nat.ltb_lt _ _)) by (rewrite E; simpl; lia).
    change (substr_from 5 (lit "/dev/" ++ escape d)) with (escape d).
    by rewrite !decode_mount_escaped.
  - destruct Hs as (_ & _ & ->). by rewrite app_nil_r.
Qed.

(** The mount table is read back: of lines in the kernel's format, with
    blanks, line feeds and backslashes of names written as octal escapes, the
    parser returns the decoded device, mount point and type of those whose
    source is a device node, in order. *)
Theorem parse_mount_table_text rows :
  Forall row_ok rows ->
  parse_mount_table (concat ((fun l => l ++ [ch_lf]) <$> (row_text <$> rows))) = Value (rows ≫= row_entry).
Proof.
  intros Hrows. unfold parse_mount_table. rewrite each_field_fields.
  rewrite <- (app_nil_r (concat _)), fields_concat.
  2: { apply Forall_fmap. eapply Forall_impl; [done|]. intros r. apply row_text_no_lf. }
  change (fields ch_lf []) with (@nil text). rewrite app_nil_r.
  assert (forall es, fold_steps mount_line (row_text <$> rows) es = Next (es ++ (rows ≫= row_entry))) as ->; [|done].
  induction Hrows as [|r rows Hr _ IH]; intros es; [by rewrite app_nil_r|].
  cbn [fmap list_fmap fold_steps]. rewrite mount_line_row by done. rewrite IH. csimpl. by rewrite <- app_assoc.
Qed.

Definition sample_rows : list mount_row :=
  [Mount_row (Some (lit "sda1")) [] (lit "/mnt/my disk") (lit "ext4") [lit "rw"; lit "0"; lit "0"];
   Mount_row None (lit "tmpfs") (lit "/run") (lit "tmpfs") [lit "rw"; lit "0"; lit "0"]].

Lemma parse_mount_table_text_witness :
  Forall row_ok sample_rows /\
  parse_mount_table (concat ((fun l => l ++ [ch_lf]) <$> (row_text <$> sample_rows))) =
  Value [Mount_entry (lit "sda1") (lit "/mnt/my disk") (lit "ext4")].
Proof.
  assert (Forall row_ok sample_rows) as Hok.
  { unfold sample_rows, row_ok, is_word. repeat constructor; vm_compute; try congruence;
      intros Hin; repeat (apply elem_of_cons in Hin as [?|Hin]; [congruence|]); by apply elem_of_nil in Hin. }
  split; [exact Hok|]. exact (parse_mount_table_text sample_rows Hok).
Defined.
