(* ===== verification/StorageLinux.v ===== *)
(** * Storage: the Linux queries

    The queries of [include/syscape/detail/storage/linux.hpp] over the block
    devices of sysfs, with the links and the device commands they use, and the
    public queries of [include/syscape/storage.hpp]. *)
From S2P Require Import Prelude Result CppText Utf8 Buffer System Float Storage.

(** The calls besides reading files and directories: [lstat], with the [errno]
    of a failure; [readlink] on a buffer of a size; [open] of a device node,
    with the [errno] of a failure; the health-log command of NVMe, with its
    return code, [errno] and the 512 bytes of its buffer; and the pass-through
    command of SCSI, with its return code, [errno], the header and the 64 bytes
    of sense data. *)
Class StorageKernel (W : Type) := {
  lstat : text -> W -> option Z * W;
  readlink : text -> Z -> W -> (Z + text) * W;
  open_device : text -> W -> option Z * W;
  nvme_log : text -> W -> (Z * Z * list Z) * W;
  sg_io : text -> W -> (Z * Z * sg_status * list Z) * W
}.

Definition block_root : text := lit "/sys/block/".

(** ** Queries on buffers

    A query of which a step reads a buffer: no result when an access is outside
    it. *)
Definition device_query (W A : Type) : Type := W -> checked A * W.

#[global] Instance device_ret {W} : MRet (device_query W) := fun A v w => (mret v, w).

#[global] Instance device_bind {W} : MBind (device_query W) := fun A B f m w =>
  match m w with
  | (Some (Value v), w) => f v w
  | (Some (Failure e), w) => (Some (Failure e), w)
  | (None, w) => (None, w)
  end.

Definition plain {W A} (m : query W A) : device_query W A := fun w =>
  match m w with (r, w) => (Some r, w) end.

Definition inspect {W A} (c : checked A) : device_query W A := fun w => (c, w).

Section storage_queries.
Context {W : Type} `{Kernel W} `{StorageKernel W}.

(** ** Drives *)

Definition read_optional_attribute (entry attribute : text) : query W (option text) :=
  content ← attempt (read_text_file (block_root ++ entry ++ "/"%char :: attribute) default_maximum_size);
  pure (match content with
        | Value content => Value (Some content)
        | Failure e => if bool_decide (e = native_error ENOENT) then Value None else Failure e
        end).

(** The parsed value of an attribute that exists. *)
Definition attribute {A} (entry : text) (name : string) (parse : text -> result A) : query W (option A) :=
  read ← read_optional_attribute entry (lit name);
  pure (match read with
        | Some content => v ← parse content; mret (Some v)
        | None => Value None
        end).

(** The last component of a path. *)
Definition basename (target : text) : text :=
  match rfind "/" target with None => target | Some base => substr_from (S base) target end.

(** The loop with a growing buffer: six sizes from 256 bytes on. *)
Fixpoint link_loop (attempts : nat) (path : text) (size : Z) : query W (option text) :=
  match attempts with
  | O => pure (fail_native EOVERFLOW)
  | S attempts => fun w =>
      let grow : query W (option text) :=
        if 4096 <? size then pure (fail_native EOVERFLOW) else link_loop attempts path (size * 2) in
      match readlink path size w with
      | (inl errno, w) =>
          if errno =? ENOENT then (Value None, w)
          else if negb (errno =? ERANGE) then (fail_native errno, w)
          else grow w
      | (inr target, w) =>
          if Z.of_nat (length target) <? size then (Value (Some (basename target)), w) else grow w
      end
  end.

(** [None] when the link does not resolve. *)
Definition read_link_basename (path : text) : query W (option text) := link_loop 6 path 256.

Definition capacity_of (content : text) : result Z :=
  sectors ← parse_number uint64_max content; capacity_in_bytes sectors.

(** The attributes of a drive, in the order they are read. *)
Definition drive_attributes (entry subsystem : text) : query W drive_record :=
  capacity ← attribute entry "size" capacity_of;
  logical ← attribute entry "queue/logical_block_size" (parse_number uint32_max);
  physical ← attribute entry "queue/physical_block_size" (parse_number uint32_max);
  rotates ← attribute entry "queue/rotational" parse_flag;
  remove ← attribute entry "removable" parse_flag;
  vendor ← read_optional_attribute entry (lit "device/vendor");
  model ← read_optional_attribute entry (lit "device/model");
  revision ← read_optional_attribute entry (lit "device/rev");
  mret (Drive_record entry (apply_text vendor) (apply_text model) (apply_text revision)
    (classify_subsystem subsystem) capacity logical physical rotates (default false remove)).

(** [None] when the entry is no drive or vanished. *)
Definition collect_drive (entry : text) : query W (option drive_record) := fun w =>
  let device_path := block_root ++ entry ++ lit "/device" in
  match lstat device_path w with
  | (Some errno, w) => (if errno =? ENOENT then Value None else fail_native errno, w)
  | (None, w) =>
      (subsystem ← read_link_basename (device_path ++ lit "/subsystem");
       match subsystem with
       | None => mret None
       | Some subsystem =>
           record ← drive_attributes entry subsystem;
           final ← read_link_basename (device_path ++ lit "/subsystem");
           mret (if backing_subsystem_unchanged subsystem final then Some record else None)
       end) w
  end.

(** The walk over the visible entries; each visit yields some records. *)
Fixpoint visit_devices {A} (visit : text -> query W (list A)) (names : list text) : query W (list A) :=
  match names with
  | [] => mret []
  | name :: names =>
      if starts_with (lit ".") name then visit_devices visit names
      else
        found ← visit name;
        rest ← visit_devices visit names;
        mret (found ++ rest)
  end.

Definition walk_block_devices {A} (visit : text -> query W (list A)) : query W (list A) := fun w =>
  match list_directory block_root w with
  | (inl errno, w) => (if errno =? ENOENT then Value [] else fail_native errno, w)
  | (inr (names, errno), w) =>
      (found ← visit_devices visit names;
       if negb (errno =? 0) then pure (fail_native errno) else mret found) w
  end.

Definition drive_visit (name : text) : query W (list drive_record) :=
  record ← collect_drive name; mret (match record with Some record => [record] | None => [] end).

Definition drives : query W (list drive_record) :=
  records ← walk_block_devices drive_visit;
  mret (std_sort (fun l r => text_less (identifier l) (identifier r)) records).

(** ** Partitions *)

Definition collect_mount_table : query W (list mount_entry) :=
  content ← read_text_file (lit "/proc/self/mounts") default_maximum_size;
  pure (parse_mount_table content).

(** A file of a partition that may be missing. *)
Definition partition_file {A} (path : text) (parse : text -> result A) : query W (option A) :=
  content ← attempt (read_text_file path default_maximum_size);
  pure (match content with
        | Value content => v ← parse content; mret (Some v)
        | Failure e => if bool_decide (e = native_error ENOENT) then Value None else Failure e
        end).

(** The name and the identifier in [uevent], the last of each deciding. *)
Definition uevent_line (line : text) (s : option text * option text)
    : step (option text * option text) (result (option text * option text)) :=
  match find "=" line 0 with
  | None => Next s
  | Some eq =>
      let key := substr 0 eq line in
      let val := trim_attribute (substr_from (S eq) line) in
      if same key (lit "PARTNAME") && negb (empty val) then Next (Some val, snd s)
      else if same key (lit "PARTUUID") && negb (empty val) then Next (fst s, Some val)
      else Next s
  end.

Definition parse_uevent (content : text) : result (option text * option text) :=
  finish (each_field ch_lf content uevent_line (None, None)) Value.

(** The first mount of a device. *)
Fixpoint mount_of (mounts : list mount_entry) (part_entry : text) : option mount_entry :=
  match mounts with
  | [] => None
  | m :: mounts => if same (device_name m) part_entry then Some m else mount_of mounts part_entry
  end.

Definition filesystem_of (m : mount_entry) : option text :=
  if empty (fstype m) then None else Some (fstype m).

(** The number in the file [partition]; [None] when the entry is no partition. *)
Definition partition_number_of (part_path : text) : query W (option Z) :=
  content ← attempt (read_text_file (part_path ++ lit "/partition") default_maximum_size);
  pure (match content with
        | Value content => v ← parse_number uint32_max content; mret (Some v)
        | Failure e =>
            if bool_decide (e = native_error ENOENT) || bool_decide (e = native_error ENOTDIR)
            then Value None else Failure e
        end).

Definition collect_partition (disk_entry part_entry : text) (mounts : list mount_entry)
    : query W (option partition_record) :=
  let part_path := block_root ++ disk_entry ++ "/"%char :: part_entry in
  number ← partition_number_of part_path;
  match number with
  | None => mret None
  | Some partn =>
      start ← partition_file (part_path ++ lit "/start") capacity_of;
      size ← partition_file (part_path ++ lit "/size") capacity_of;
      read_only ← partition_file (part_path ++ lit "/ro") parse_flag;
      names ← partition_file (part_path ++ lit "/uevent") parse_uevent;
      let names := default (None, None) names in
      let mounted := mount_of mounts part_entry in
      mret (Some (Partition_record part_entry disk_entry partn start size
        (classify_partition_scheme (default [] (snd names))) None (fst names) (snd names)
        (m ← mounted; filesystem_of m) (default false read_only) false
        (match mounted with Some _ => true | None => false end)
        (match mounted with Some m => entry_mount_point m | None => [] end)))
  end.

Fixpoint partition_loop (disk_name : text) (mounts : list mount_entry) (names : list text)
    : query W (list partition_record) :=
  match names with
  | [] => mret []
  | name :: names =>
      if starts_with (lit ".") name then partition_loop disk_name mounts names
      else
        part ← collect_partition disk_name name mounts;
        rest ← partition_loop disk_name mounts names;
        mret (match part with Some part => part :: rest | None => rest end)
  end.

(** The partitions in the directory of a disk. *)
Definition disk_directory (mounts : list mount_entry) (disk_name : text) : query W (list partition_record) := fun w =>
  match list_directory (block_root ++ disk_name) w with
  | (inl errno, w) => (if errno =? ENOENT then Value [] else fail_native errno, w)
  | (inr (names, errno), w) =>
      (found ← partition_loop disk_name mounts names;
       if negb (errno =? 0) then pure (fail_native errno) else mret found) w
  end.

Definition disk_visit (mounts : list mount_entry) (disk_name : text) : query W (list partition_record) :=
  drive ← collect_drive disk_name;
  match drive with
  | None => mret []
  | Some _ => disk_directory mounts disk_name
  end.

Definition partitions : query W (list partition_record) :=
  mounts ← collect_mount_table;
  records ← walk_block_devices (disk_visit mounts);
  mret (std_sort (fun l r => text_less (partition_identifier l) (partition_identifier r)) records).

(** ** Health *)

(** The first plausible temperature of the sensors; failures are skipped. *)
Fixpoint hwmon_loop (hwmon_dir_path : text) (names : list text) : W -> option double * W := fun w =>
  match names with
  | [] => (None, w)
  | name :: names =>
      if starts_with (lit ".") name then hwmon_loop hwmon_dir_path names w
      else
        match read_text_file (hwmon_dir_path ++ "/"%char :: name ++ lit "/temp1_input") default_maximum_size w with
        | (Value content, w) =>
            match parse_signed content with
            | Value milli =>
                let c := double_div (to_double milli) (to_double 1000) in
                if usual_temperature c then (Some c, w) else hwmon_loop hwmon_dir_path names w
            | Failure _ => hwmon_loop hwmon_dir_path names w
            end
        | (Failure _, w) => hwmon_loop hwmon_dir_path names w
        end
  end.

Definition with_temperature (t : option double) (r : health_record) : health_record :=
  match t with
  | None => r
  | Some t =>
      Health_record (health_identifier r) (health_status r) (failure_predicted r) (Some t) (percent_used r)
        (available_spare_percent r) (power_on_hours r) (power_cycles r) (unsafe_shutdowns r) (media_errors r)
        (data_units_read_bytes r) (data_units_written_bytes r)
  end.

Definition read_linux_hwmon_temperature (block_name : text) (record : health_record)
    : query W health_record := fun w =>
  let hwmon_dir_path := block_root ++ block_name ++ lit "/device/hwmon" in
  match list_directory hwmon_dir_path w with
  | (inl _, w) => (Value record, w)
  | (inr (names, _), w) =>
      match hwmon_loop hwmon_dir_path names w with (t, w) => (Value (with_temperature t record), w) end
  end.

(** Opens a device node and runs a command on it; without the node the record
    stays as it is. *)
Definition on_device (block_name : text) (command : text -> device_query W health_record)
    (record : health_record) : device_query W health_record := fun w =>
  let dev_path := lit "/dev/" ++ block_name in
  match open_device dev_path w with
  | (Some err, w) =>
      (Some (if (err =? ENOENT) || (err =? ENODEV) || (err =? ENXIO) then Value record
             else if (err =? EACCES) || (err =? EPERM) then fail errc_permission_denied
             else fail_native err), w)
  | (None, w) => command dev_path w
  end.

Definition query_linux_nvme_smart (block_name : text) (record : health_record)
    : device_query W health_record :=
  on_device block_name (fun dev_path w =>
    match nvme_log dev_path w with
    | ((rc, errno, buffer), w) =>
        (check (classify_linux_nvme_ioctl_status rc (if rc <? 0 then errno else 0));;
         if negb (rc =? 0) then mret record
         else parse_nvme_smart_log_buffer buffer 512 record, w)
    end) record.

Definition query_linux_scsi_smart (block_name : text) (record : health_record)
    : device_query W health_record :=
  on_device block_name (fun dev_path w =>
    match sg_io dev_path w with
    | ((rc, errno, hdr, sense), w) =>
        (scsi_smart_outcome rc (if rc <? 0 then errno else 0) hdr sense record, w)
    end) record.

Definition new_health (entry : text) : health_record :=
  Health_record entry health_unknown None None None None None None None None None None.

(** An entry of the block class that is a whole disk. *)
Definition whole_disk (entry : text) : query W unit := fun w =>
  match lstat (block_root ++ entry ++ lit "/device") w with
  | (Some errno, w) => (if errno =? ENOENT then fail errc_not_found else fail_native errno, w)
  | (None, w) =>
      match lstat (block_root ++ entry ++ lit "/partition") w with
      | (None, w) => (fail errc_not_found, w)
      | (Some errno, w) => (if errno =? ENOENT then Value tt else fail_native errno, w)
      end
  end.

Definition collect_drive_health (entry : text) : device_query W health_record :=
  plain (whole_disk entry);;
  subsystem ← plain (read_link_basename (block_root ++ entry ++ lit "/device/subsystem"));
  record ← (match subsystem with
            | Some subsystem =>
                if same subsystem (lit "nvme") then query_linux_nvme_smart entry (new_health entry)
                else if same subsystem (lit "scsi") then query_linux_scsi_smart entry (new_health entry)
                else mret (new_health entry)
            | None => mret (new_health entry)
            end);
  match temperature_celsius record with
  | None => plain (read_linux_hwmon_temperature entry record)
  | Some _ => mret record
  end.

Definition health (disk_identifier : text) : device_query W health_record :=
  if negb (is_valid_disk_identifier disk_identifier) then plain (pure (fail errc_invalid_argument))
  else collect_drive_health disk_identifier.

Fixpoint health_loop (names : list text) : device_query W (list health_record) :=
  match names with
  | [] => mret []
  | name :: names =>
      if starts_with (lit ".") name then health_loop names
      else
        drive ← plain (collect_drive name);
        match drive with
        | None => health_loop names
        | Some _ =>
            h ← collect_drive_health name;
            rest ← health_loop names;
            mret (h :: rest)
        end
  end.

Definition all_drive_health : device_query W (list health_record) := fun w =>
  match list_directory block_root w with
  | (inl errno, w) => (Some (if errno =? ENOENT then Value [] else fail_native errno), w)
  | (inr (names, errno), w) =>
      (found ← health_loop names;
       if negb (errno =? 0) then plain (pure (fail_native errno))
       else mret (std_sort (fun l r => text_less (health_identifier l) (health_identifier r)) found)) w
  end.

(** ** The public queries *)

Definition checked_drives : query W (list drive_record) :=
  records ← attempt drives; pure (validate_drive_records records).

Definition checked_partitions : query W (list partition_record) :=
  records ← attempt partitions; pure (validate_partition_records records).

(** The checks of the argument of the public queries. *)
Definition check_disk_argument (disk : text) : result unit :=
  reject (empty disk) errc_invalid_argument;;
  reject (negb (is_valid_utf8 disk)) errc_invalid_encoding;;
  reject (bool_decide (ch_nul ∈ disk) || bool_decide ("/"%char ∈ disk) || bool_decide ("\"%char ∈ disk) ||
          same disk (lit ".") || same disk (lit "..")) errc_invalid_argument.

Definition disk_partitions (disk : text) : query W (list partition_record) :=
  pure (check_disk_argument disk);;
  all ← checked_partitions;
  mret (filter (fun entry => disk_identifier entry = disk) all).

Definition checked_health (disk : text) : device_query W health_record :=
  plain (pure (check_disk_argument disk));;
  record ← health disk;
  plain (pure (validate_health_record (Value record))).

Definition checked_all_health : device_query W (list health_record) :=
  records ← all_drive_health;
  plain (pure (validate_health_records (Value records))).

End storage_queries.

(** ** What the listings contain *)

(** What holds of the value, if there is one. *)
Definition if_some {A} (P : A -> Prop) (o : option A) : Prop := forall v, o = Some v -> P v.

Definition by_identifier (l r : drive_record) : bool := text_less (identifier l) (identifier r).
Definition by_partition_identifier (l r : partition_record) : bool :=
  text_less (partition_identifier l) (partition_identifier r).

Definition hidden (name : text) : bool := starts_with (lit ".") name.

(** A whole number of sectors of 512 bytes. *)
Definition whole_sectors (bytes : Z) : Prop := 0 <= bytes <= uint64_max /\ bytes mod 512 = 0.

Definition trimmed_text (t : text) : Prop := t <> [] /\ trimmed storage_blank t.

Definition attributes_ok (r : drive_record) : Prop :=
  if_some whole_sectors (capacity_bytes r) /\
  if_some (fun s => 0 <= s <= uint32_max) (logical_sector_size_bytes r) /\
  if_some (fun s => 0 <= s <= uint32_max) (physical_sector_size_bytes r) /\
  if_some trimmed_text (vendor r) /\ if_some trimmed_text (model r) /\
  if_some trimmed_text (firmware_revision r).

(** A drive the public query returns. *)
Definition drive_ok (r : drive_record) : Prop :=
  attributes_ok r /\ is_valid_utf8 (identifier r) = true /\
  if_some (fun t => is_valid_utf8 t = true) (vendor r) /\
  if_some (fun t => is_valid_utf8 t = true) (model r) /\
  if_some (fun t => is_valid_utf8 t = true) (firmware_revision r) /\
  if_some (fun s => s <> 0) (logical_sector_size_bytes r) /\
  if_some (fun s => s <> 0) (physical_sector_size_bytes r).

Lemma apply_text_trimmed content : if_some trimmed_text (apply_text content).
Proof.
  intros v. unfold apply_text. destruct content as [content|]; [|done].
  destruct (empty _) eqn:E; [done|]. intros [= <-]. split; [by destruct (trim_attribute content)|].
  apply trim_is_trimmed.
Qed.

Lemma parse_number_bound max content v :
  0 <= max -> parse_number max content = Value v -> 0 <= v <= max.
Proof.
  intros Hmax. unfold parse_number, parsed_number. repeat split_if; try done. intros [= <-].
  apply fc_value_bound; lia.
Qed.

Lemma capacity_of_sectors content v : capacity_of content = Value v -> whole_sectors v.
Proof.
  unfold capacity_of, capacity_in_bytes, size_unit_bytes. intros (s & Hs & Hv)%bind_value.
  apply parse_number_bound in Hs; [|unfold_bounds; lia].
  destruct (Z.ltb_spec (uint64_max / 512) s) as [|Hle]; [done|]. injection Hv as <-.
  assert (s * 512 <= uint64_max) by (revert Hle; div_lia).
  unfold wrap. rewrite Z.mod_small by (unfold_bounds; lia). split; [lia|]. by apply Z.mod_mul.
Qed.

Section listings.
Context {W : Type} `{Kernel W} `{StorageKernel W}.

Lemma attribute_yields {A} entry name (parse : text -> result A) (P : A -> Prop) :
  (forall content v, parse content = Value v -> P v) ->
  yields (attribute (W := W) entry name parse) (if_some P).
Proof.
  intros HP. apply yields_skip. intros [content|]; apply yields_pure; [|by intros v [= <-]].
  intros o (v & Hv & [= <-])%bind_value. intros v' [= <-]. by apply HP in Hv.
Qed.

Lemma partition_file_yields {A} path (parse : text -> result A) (P : A -> Prop) :
  (forall content v, parse content = Value v -> P v) ->
  yields (partition_file (W := W) path parse) (if_some P).
Proof.
  intros HP. apply yields_skip. intros [content|e]; apply yields_pure.
  - intros o (v & Hv & [= <-])%bind_value. intros v' [= <-]. by apply HP in Hv.
  - case_bool_decide; [by intros v [= <-]|done].
Qed.

Lemma drive_attributes_yields entry subsystem :
  yields (drive_attributes (W := W) entry subsystem) (fun r => identifier r = entry /\ attributes_ok r).
Proof.
  unfold drive_attributes.
  apply yields_bind with (Q := if_some whole_sectors);
    [apply attribute_yields, capacity_of_sectors|intros capacity Hc].
  apply yields_bind with (Q := if_some (fun s => 0 <= s <= uint32_max));
    [apply attribute_yields; intros ??; apply parse_number_bound; unfold_bounds; lia|intros logical Hl].
  apply yields_bind with (Q := if_some (fun s => 0 <= s <= uint32_max));
    [apply attribute_yields; intros ??; apply parse_number_bound; unfold_bounds; lia|intros physical Hp].
  do 5 (apply yields_skip; intros ?). apply yields_ret. split; [done|].
  split_and!; first [done|apply apply_text_trimmed].
Qed.

Lemma collect_drive_yields entry :
  yields (collect_drive (W := W) entry) (if_some (fun r => identifier r = entry /\ attributes_ok r)).
Proof.
  intros w v w'. unfold collect_drive. destruct (lstat _ w) as [[errno|] w1].
  - destruct (errno =? ENOENT); [|done]. by intros [= <- <-].
  - intros Hv. revert Hv. apply yields_skip. intros [subsystem|]; [|by apply yields_ret].
    apply yields_bind with (Q := fun r => identifier r = entry /\ attributes_ok r); [apply drive_attributes_yields|].
    intros r Hr. apply yields_skip. intros final. apply yields_ret. split_if; [|done]. by intros ? [= <-].
Qed.

(** A walk whose visits yield records about their entry lists the visible
    entries in order. *)
Lemma visit_devices_yields {A} (visit : text -> query W (list A)) (P : text -> list A -> Prop) names :
  (forall name, yields (visit name) (P name)) ->
  yields (visit_devices visit names)
    (fun l => exists found, l = concat found.*2 /\ Forall (fun p => P p.1 p.2) found /\
       found.*1 = filter (fun name => hidden name = false) names).
Proof.
  intros HP. induction names as [|name names IH]; [by apply yields_ret; exists []|]. cbn [visit_devices].
  rewrite filter_cons. case_decide as E; unfold hidden in E; [|apply not_false_iff_true in E]; rewrite E; [|exact IH].
  - apply yields_bind with (Q := P name); [apply HP|]. intros l Hl.
    eapply yields_bind; [apply IH|]. intros rest (found & -> & Hf & Hn). apply yields_ret.
    exists ((name, l) :: found). csimpl. split_and!; [done|by constructor|by rewrite Hn].
Qed.

(** The entries of the block class, as its listing ends. *)
Definition block_entries (w : W) (names : list text) : Prop :=
  exists w1, list_directory block_root w = (inr (names, 0), w1).

Lemma walk_yields {A} (visit : text -> query W (list A)) (P : text -> list A -> Prop) w l w' :
  (forall name, yields (visit name) (P name)) ->
  walk_block_devices visit w = (Value l, w') ->
  (l = [] /\ exists w1, list_directory block_root w = (inl ENOENT, w1)) \/
  exists names found, block_entries w names /\ l = concat found.*2 /\ Forall (fun p => P p.1 p.2) found /\
    found.*1 = filter (fun name => hidden name = false) names.
Proof.
  intros HP. unfold walk_block_devices, block_entries. destruct (list_directory block_root w) as [[errno|[names errno]] w1].
  - destruct (Z.eqb_spec errno ENOENT) as [->|]; [|done]. intros [= <- _]. left. eauto.
  - unfold mbind at 1, query_bind at 1. destruct (visit_devices visit names w1) as [[found|e] w2] eqn:E; [|done].
    apply (visit_devices_yields visit P names HP) in E as (fs & -> & Hf & Hn).
    destruct (Z.eqb_spec errno 0) as [->|]; [|done]. intros [= <- _]. right. eauto 10.
Qed.

End listings.

Definition drive_key (r : drive_record) : list Z := code <$> identifier r.
Definition partition_key (r : partition_record) : list Z := code <$> partition_identifier r.

Lemma invalid_if_any_ok o : invalid_if_any o = false <-> if_some (fun t => is_valid_utf8 t = true) o.
Proof.
  destruct o as [t|]; cbn; [|split; by intros].
  split; [intros Hn v [= <-]; by apply negb_false_iff|]. intros Hs. by rewrite (Hs t).
Qed.

Lemma zero_if_any_ok o : zero_if_any o = false -> if_some (fun s => s <> 0) o.
Proof. destruct o as [s|]; cbn; [|by intros _ v]. intros Hn%Z.eqb_neq v [= <-]. done. Qed.

Lemma validate_drive_record_ok r :
  attributes_ok r -> validate_drive_record r = Value () -> drive_ok r.
Proof.
  intros Ha Hv. unfold validate_drive_record in Hv. inv_result.
  repeat match goal with Hb : _ || _ = false |- _ => apply orb_false_iff in Hb as [? ?] end.
  split; [done|]. split_and!; try (by apply negb_false_iff);
    first [by apply invalid_if_any_ok|by apply zero_if_any_ok].
Qed.

Lemma singletons_sublist {A} (key : A -> text) (found : list (text * list A)) :
  Forall (fun p => p.2 = [] \/ exists r, p.2 = [r] /\ key r = p.1) found ->
  (key <$> concat found.*2) `sublist_of` found.*1.
Proof.
  induction 1 as [|[name l] found [E|(r & E & Hk)] _ IH]; cbn in *; [done|subst l|subst l name]; by constructor.
Qed.

Section drive_listing.
Context {W : Type} `{Kernel W} `{StorageKernel W}.

Definition drive_visited (name : text) (l : list drive_record) : Prop :=
  l = [] \/ exists r, l = [r] /\ identifier r = name /\ attributes_ok r.

Lemma drive_visit_yields name : yields (drive_visit (W := W) name) (drive_visited name).
Proof.
  apply yields_bind with (Q := if_some (fun r => identifier r = name /\ attributes_ok r));
    [apply collect_drive_yields|]. intros [r|] Hr; apply yields_ret; [right|by left].
  destruct (Hr r) as [? ?]; [done|]. by exists r.
Qed.

(** The drives are listed in the order of their names, each the name of a
    visible entry of the block class and none twice as often as there; the
    optional texts are trimmed, not empty and valid UTF-8, a capacity is a whole
    number of 512-byte sectors that fits 64 bits, and no sector size is zero. *)
Theorem drives_listed (w : W) (l : list drive_record) (w' : W) :
  checked_drives w = (Value l, w') ->
  StronglySorted (not_after by_identifier) l /\ Forall drive_ok l /\
  (l = [] \/ exists names kept, block_entries w names /\ (identifier <$> l) ≡ₚ kept /\
     kept `sublist_of` filter (fun name => hidden name = false) names).
Proof.
  unfold checked_drives, drives. unfold mbind at 1, query_bind at 1. unfold attempt. unfold mbind at 1, query_bind at 1.
  destruct (walk_block_devices drive_visit w) as [[found|e] w1] eqn:E; [|done]. cbn [mret query_ret pure].
  intros Hl. assert (validate_drive_records (Value (std_sort by_identifier found)) = Value l) as Hv by (by injection Hl).
  clear Hl. apply bind_value in Hv as (sorted & [= <-] & Hv). apply bind_value in Hv as ([] & Hall & [= <-]).
  apply for_each_value in Hall. pose proof (std_sort_permutation by_identifier found) as Hp.
  split; [by apply (std_sort_key_sorted _ drive_key)|].
  apply (walk_yields _ _ _ _ _ drive_visit_yields) in E as [(-> & _)|(names & fs & Hn & -> & Hf & Hk)];
    [by split; [|left]|].
  split.
  - rewrite Forall_forall in Hall |- *. intros r Hr. apply validate_drive_record_ok; [|by apply Hall].
    rewrite Hp in Hr. apply list_elem_of_In, in_concat in Hr as (rs & Hrs%list_elem_of_In & Hr%list_elem_of_In).
    apply list_elem_of_fmap in Hrs as ([name rs'] & -> & Hin). rewrite Forall_forall in Hf. apply Hf in Hin. cbn in Hin.
    destruct Hin as [->|(r' & -> & _ & Ha)]; [by apply elem_of_nil in Hr|]. by apply list_elem_of_singleton in Hr as ->.
  - right. exists names, (identifier <$> concat fs.*2). split_and!; [done|by rewrite Hp|]. rewrite <- Hk.
    apply singletons_sublist. eapply Forall_impl; [exact Hf|]. intros p [->|(r & -> & Hi & _)]; [by left|right; eauto].
Qed.

End drive_listing.

(** ** Links *)

(** A link of any length below the largest buffer is followed: the query
    grows its buffer until the whole target fits and returns its last component,
    and reports an overflow for a target of 8192 bytes or more. *)
Theorem read_link_basename_spec {W} `{StorageKernel W} (path target : text) (w : W) :
  (forall size, readlink path size w = (inr (take (Z.to_nat size) target), w)) ->
  read_link_basename path w =
  (if Z.of_nat (length target) <? 8192 then Value (Some (basename target)) else fail_native EOVERFLOW, w).
Proof.
  intros Hlink. unfold read_link_basename.
  assert (forall attempts size, 0 < size -> size * 2 ^ Z.of_nat attempts = 16384 -> size <= 8192 ->
    link_loop attempts path size w =
    (if Z.of_nat (length target) <? 8192 then Value (Some (basename target)) else fail_native EOVERFLOW, w)) as Hl;
    [|by apply Hl].
  induction attempts as [|attempts IH]; intros size Hpos Hs H8; [cbn in Hs; lia|].
  rewrite Nat2Z.inj_succ, Z.pow_succ_r in Hs by lia. cbn [link_loop]. rewrite Hlink, length_take.
  destruct (Z.ltb_spec (Z.of_nat (Z.to_nat size `min` length target)) size) as [Hlt|Hge].
  - rewrite take_ge by lia. by rewrite (proj2 (Z.ltb_lt _ 8192)) by lia.
  - destruct (Z.ltb_spec 4096 size) as [Hbig|Hsmall]; [|apply IH; lia].
    assert (size = 8192) as ->.
    { destruct attempts as [|attempts]; [cbn in Hs; lia|]. rewrite Nat2Z.inj_succ, Z.pow_succ_r in Hs by lia.
      assert (1 <= 2 ^ Z.of_nat attempts) by (apply (Z.pow_le_mono_r 2 0); lia). nia. }
    by rewrite (proj2 (Z.ltb_ge _ 8192)) by lia.
Qed.

(** ** Health *)

(** What a device and the kernel store in the buffers of the two commands. *)
Class Buffers (W : Type) `{StorageKernel W} := {
  log_buffer path w : length (snd (fst (nvme_log path w))) = 512%nat;
  log_in_bytes path w : Forall is_byte (snd (fst (nvme_log path w)));
  sense_buffer path w : length (snd (fst (sg_io path w))) = 64%nat;
  sense_in_bytes path w : Forall is_byte (snd (fst (sg_io path w)));
  sense_written path w : (sb_len_wr (snd (fst (fst (sg_io path w)))) <= 64)%nat
}.

Lemma sense_descriptors_ensures fuel sense sb_len offset :
  Forall is_byte sense -> (sb_len <= length sense)%nat -> (0 < fuel)%nat -> (sb_len < fuel + offset)%nat ->
  ensures (descriptor_loop fuel sense sb_len offset) (fun _ => True).
Proof.
  intros Hb Hl. revert offset. induction fuel as [|fuel IH]; intros offset H0 Hf; cbn [descriptor_loop].
  - lia.
  - destruct (Nat.ltb_spec (offset + 1) sb_len) as [Hlt|]; [|done].
    eapply ensures_bind; [apply load_byte_ensures; [lia|done]|]. intros desc_type _.
    eapply ensures_bind; [apply load_byte_ensures; [lia|done]|]. intros desc_len Hd.
    destruct (_ && _ && _) eqn:E.
    + apply andb_true_iff in E as [[_ E1]%andb_true_iff E2%Nat.leb_le]. apply Z.leb_le in E1.
      eapply ensures_bind; [apply load_byte_ensures; [lia|done]|]. intros lba_mid _.
      eapply ensures_bind; [apply load_byte_ensures; [lia|done]|]. done.
    + apply IH; lia.
Qed.

Lemma sense_key_of_ensures sense sb_len :
  Forall is_byte sense -> (3 <= length sense)%nat -> ensures (sense_key_of sense sb_len) (fun _ => True).
Proof.
  intros Hb Hl. unfold sense_key_of. eapply ensures_bind; [apply load_byte_ensures; [lia|done]|].
  intros first _. repeat split_if; try done;
    (eapply ensures_bind; [apply load_byte_ensures; [lia|done]|]; done).
Qed.

Lemma classify_scsi_ensures rc errno hdr sense found :
  Forall is_byte sense -> (3 <= length sense)%nat ->
  ensures (classify_linux_scsi_ioctl_status rc errno hdr sense found) (fun _ => True).
Proof.
  intros Hb Hl. unfold classify_linux_scsi_ioctl_status. split_if; [by apply ensures_check|].
  repeat (apply ensures_reject; intros _). repeat split_if; try done.
  apply ensures_reject. intros _. eapply ensures_bind; [by apply sense_key_of_ensures|].
  intros key _. by apply ensures_check.
Qed.

(** A record whose temperature, if any, is a usual one. *)
Definition health_ok (disk : text) (h : health_record) : Prop :=
  health_identifier h = disk /\ if_some (fun t => usual_temperature t = true) (temperature_celsius h) /\
  if_some (fun p => 0 <= p <= 100) (available_spare_percent h) /\
  if_some (fun p => 0 <= p <= 255) (percent_used h).

Lemma health_ok_new disk : health_ok disk (new_health disk).
Proof. by split_and!. Qed.

Lemma scsi_smart_outcome_ensures rc errno hdr sense record disk :
  Forall is_byte sense -> length sense = 64%nat -> (sb_len_wr hdr <= 64)%nat -> health_ok disk record ->
  ensures (scsi_smart_outcome rc errno hdr sense record) (health_ok disk).
Proof.
  intros Hb Hl Hs Hr. unfold scsi_smart_outcome. apply ensures_bind with (Q := fun _ => True).
  - unfold ata_return. split_if; [|done]. eapply ensures_bind; [apply load_byte_ensures; [lia|done]|].
    intros first _. split_if; [|done]. apply sense_descriptors_ensures; [done|lia..].
  - intros found _. eapply ensures_bind; [apply classify_scsi_ensures; [done|lia]|]. intros _ _.
    destruct found as [[mid high]|]; [|done]. apply ensures_check. intros v.
    unfold parse_ata_smart_status_values. repeat split_if; try done; by intros [= <-].
Qed.

Lemma le_loop_ensures memory pos i n low :
  Forall is_byte memory -> (pos + i + n <= length memory)%nat ->
  ensures (le_loop memory pos i n low) (fun _ => True).
Proof.
  intros Hb. revert i low. induction n as [|n IH]; intros i low Hl; cbn [le_loop]; [done|].
  eapply ensures_bind; [apply load_byte_ensures; [lia|done]|]. intros b _. apply IH. lia.
Qed.

Lemma read_u128_ensures memory pos :
  Forall is_byte memory -> (pos + 16 <= length memory)%nat -> ensures (read_u128_le memory pos) (fun _ => True).
Proof.
  intros Hb Hl. unfold read_u128_le. do 2 (eapply ensures_bind; [apply le_loop_ensures; [done|lia]|]; intros ? _).
  done.
Qed.

Lemma read_units_ensures memory pos :
  Forall is_byte memory -> (pos + 16 <= length memory)%nat -> ensures (read_units memory pos) (fun _ => True).
Proof.
  intros Hb Hl. eapply ensures_bind; [by apply read_u128_ensures|]. intros [low high] _. by apply ensures_reject.
Qed.

Lemma read_count_ensures memory pos :
  Forall is_byte memory -> (pos + 16 <= length memory)%nat -> ensures (read_count memory pos) (fun _ => True).
Proof.
  intros Hb Hl. eapply ensures_bind; [by apply read_u128_ensures|]. intros [low high] _. by apply ensures_reject.
Qed.

Lemma parse_nvme_ensures buf record disk :
  Forall is_byte buf -> length buf = 512%nat -> health_ok disk record ->
  ensures (parse_nvme_smart_log_buffer buf 512 record) (health_ok disk).
Proof.
  intros Hb Hl (Hi & Ht & _). unfold parse_nvme_smart_log_buffer. apply ensures_reject. intros _.
  do 6 (eapply ensures_bind; [apply load_byte_ensures; [lia|done]|]; cbv beta; intros ? ?).
  apply ensures_reject. intros Hspare%orb_false_iff. destruct (log_status _ _ _ _) as [health predicted].
  do 2 (eapply ensures_bind; [apply read_units_ensures; [done|lia]|]; intros ? _).
  do 4 (eapply ensures_bind; [apply read_count_ensures; [done|lia]|]; intros ? _).
  unfold is_byte in *. split_and!; cbn; [done| |intros ? [= <-]; lia|intros ? [= <-]; lia].
  unfold log_temperature. split_if; [|done]. split_if; [|done]. by intros ? [= <-].
Qed.

Section health_results.
Context {W : Type} `{Kernel W} `{StorageKernel W}.

(** A query that reads no buffer outside its bounds, with what its values
    satisfy. *)
Definition safe {A} (m : device_query W A) (P : A -> Prop) : Prop := forall w, ensures (fst (m w)) P.

Lemma safe_bind {A B} (m : device_query W A) (f : A -> device_query W B) (Q : A -> Prop) P :
  safe m Q -> (forall v, Q v -> safe (f v) P) -> safe (v ← m; f v) P.
Proof.
  intros Hm Hf w. unfold mbind, device_bind. specialize (Hm w).
  destruct (m w) as [[[v|e]|] w']; cbn in *; [by apply Hf|done|done].
Qed.

Lemma safe_ret {A} (v : A) (P : A -> Prop) : P v -> safe (mret v) P.
Proof. by intros HP w. Qed.

Lemma safe_plain {A} (m : query W A) (P : A -> Prop) : yields m P -> safe (plain m) P.
Proof. intros HP w. unfold plain. destruct (m w) as [[v|e] w'] eqn:E; [|done]. by apply HP in E. Qed.

Lemma hwmon_loop_usual path names w :
  if_some (fun t => usual_temperature t = true) (fst (hwmon_loop (W := W) path names w)).
Proof.
  revert w. induction names as [|name names IH]; intros w; [done|]. cbn [hwmon_loop].
  split_if; [apply IH|]. destruct (read_text_file _ _ w) as [[content|e] w1]; [|apply IH].
  destruct (parse_signed content); [|apply IH]. split_if; [|apply IH]. by intros ? [= <-].
Qed.

Lemma read_hwmon_ok block record disk :
  health_ok disk record -> yields (read_linux_hwmon_temperature (W := W) block record) (health_ok disk).
Proof.
  intros Hr w v w'. unfold read_linux_hwmon_temperature.
  destruct (list_directory _ w) as [[errno|[names errno]] w1]; [by intros [= <- _]|].
  pose proof (hwmon_loop_usual (block_root ++ block ++ lit "/device/hwmon") names w1) as Hu.
  destruct (hwmon_loop _ names w1) as [[t|] w2]; intros [= <- _]; [|done].
  destruct Hr as (Hi & _ & Hs & Hp). by split_and!.
Qed.

Lemma on_device_safe block (command : text -> device_query W health_record) record disk :
  health_ok disk record -> (forall path, safe (command path) (health_ok disk)) ->
  safe (on_device block command record) (health_ok disk).
Proof.
  intros Hr Hc w. unfold on_device. destruct (open_device _ w) as [[err|] w1]; [|apply Hc].
  by repeat split_if.
Qed.

Context `{!Buffers W}.

Lemma query_nvme_safe block record disk :
  health_ok disk record -> safe (query_linux_nvme_smart (W := W) block record) (health_ok disk).
Proof.
  intros Hr. apply on_device_safe; [done|]. intros path w.
  pose proof (log_buffer path w) as Hl. pose proof (log_in_bytes path w) as Hb.
  destruct (nvme_log path w) as [[[rc errno] buffer] w1]. cbn in *.
  apply ensures_check_bind. intros _ _. split_if; [done|]. by apply parse_nvme_ensures.
Qed.

Lemma query_scsi_safe block record disk :
  health_ok disk record -> safe (query_linux_scsi_smart (W := W) block record) (health_ok disk).
Proof.
  intros Hr. apply on_device_safe; [done|]. intros path w.
  pose proof (sense_buffer path w) as Hl. pose proof (sense_in_bytes path w) as Hb.
  pose proof (sense_written path w) as Hs. destruct (sg_io path w) as [[[[rc errno] hdr] sense] w1]. cbn in *.
  by apply scsi_smart_outcome_ensures.
Qed.

Lemma collect_drive_health_safe entry : safe (collect_drive_health (W := W) entry) (health_ok entry).
Proof.
  unfold collect_drive_health. eapply safe_bind; [apply safe_plain, yields_any|]. intros _ _.
  eapply safe_bind; [apply safe_plain, yields_any|]. intros subsystem _.
  apply safe_bind with (Q := health_ok entry).
  - destruct subsystem as [subsystem|]; [|apply safe_ret, health_ok_new].
    split_if; [apply query_nvme_safe, health_ok_new|]. split_if; [apply query_scsi_safe, health_ok_new|].
    apply safe_ret, health_ok_new.
  - intros record Hr. destruct (temperature_celsius record); [by apply safe_ret|]. by apply safe_plain, read_hwmon_ok.
Qed.

Lemma health_loop_safe names :
  safe (health_loop (W := W) names) (Forall (fun h => health_ok (health_identifier h) h)).
Proof.
  induction names as [|name names IH]; cbn [health_loop]; [by apply safe_ret|]. split_if; [done|].
  eapply safe_bind; [apply safe_plain, yields_any|]. intros [drive|] _; [|done].
  eapply safe_bind; [apply collect_drive_health_safe|]. intros h Hh. eapply safe_bind; [apply IH|]. intros rest Hr.
  apply safe_ret. constructor; [|done]. destruct Hh as [Hi Hh]. by split.
Qed.

Definition by_health_identifier (l r : health_record) : bool :=
  text_less (health_identifier l) (health_identifier r).

Definition health_key (h : health_record) : list Z := code <$> health_identifier h.

Lemma all_drive_health_safe :
  safe (all_drive_health (W := W)) (fun l =>
    StronglySorted (not_after by_health_identifier) l /\ Forall (fun h => health_ok (health_identifier h) h) l).
Proof.
  intros w. unfold all_drive_health.
  destruct (list_directory block_root w) as [[errno|[names errno]] w1]; [split_if; [split; constructor|done]|].
  revert w1. apply safe_bind with (Q := Forall (fun h => health_ok (health_identifier h) h)).
  - apply health_loop_safe.
  - intros found Hf. split_if; [by apply safe_plain, yields_pure|]. apply safe_ret. split.
    + by apply (std_sort_key_sorted _ health_key).
    + by rewrite std_sort_permutation.
Qed.

Lemma checked_health_safe disk :
  safe (record ← health (W := W) disk; plain (pure (validate_health_record (Value record))))
    (fun h => health_ok disk h /\ check_health h = Value tt).
Proof.
  apply safe_bind with (Q := health_ok disk).
  - unfold health. split_if; [by apply safe_plain, yields_pure|]. apply collect_drive_health_safe.
  - intros h Hh. apply safe_plain, yields_pure. intros v (h' & [= <-] & Hv)%bind_value.
    by apply bind_value in Hv as ([] & Hc & [= <-]).
Qed.

(** A drive's record in the list of all. *)
Definition listed_health (h : health_record) : Prop :=
  health_ok (health_identifier h) h /\ check_health h = Value tt.

Lemma checked_all_health_safe :
  safe (checked_all_health (W := W))
    (fun l => StronglySorted (not_after by_health_identifier) l /\ Forall listed_health l).
Proof.
  eapply safe_bind; [apply all_drive_health_safe|]. intros l [Hs Hl]. apply safe_plain, yields_pure.
  intros l' (l2 & [= <-] & Hv)%bind_value. apply bind_value in Hv as ([] & Hc & [= <-]).
  apply for_each_value in Hc. split; [done|]. by apply Forall_and.
Qed.

Lemma safe_result {A} (m : device_query W A) (P : A -> Prop) w :
  safe m P -> exists r w', m w = (Some r, w') /\ forall v, r = Value v -> P v.
Proof.
  intros Hs. specialize (Hs w). destruct (m w) as [[r|] w']; [|done]. exists r, w'. split; [done|]. by intros v ->.
Qed.

(** C19: the health of a drive is read within the bounds of the kernel's
    buffers, whatever bytes they hold: the walk over the descriptors of the
    sense data ends and no access is outside.  A name that is no device name is
    refused before any call; a record is that of the drive asked for, with a
    temperature from -50 to 150 degrees, at most a hundred percent of spare
    capacity and what the checks of the public query ask; the list for all
    drives is sorted and of such records. *)
Theorem health_safe (disk : text) (w : W) :
  (exists r w', checked_health disk w = (Some r, w') /\
     (forall e, check_disk_argument disk = Failure e -> r = Failure e /\ w' = w) /\
     forall h, r = Value h -> health_ok disk h /\ check_health h = Value tt) /\
  exists r w', checked_all_health w = (Some r, w') /\
    forall l, r = Value l ->
      StronglySorted (not_after by_health_identifier) l /\ Forall listed_health l.
Proof.
  split; [|by apply safe_result, checked_all_health_safe].
  unfold checked_health. unfold mbind at 1, device_bind at 1. cbn [plain pure].
  destruct (check_disk_argument disk) as [[]|e];
    [|exists (Failure e), w; split; [done|]; split; [by intros ? [= <-]|done]].
  destruct (safe_result _ _ w (checked_health_safe disk)) as (r & w' & -> & Hr). by exists r, w'.
Qed.

End health_results.

(** ** One NVMe drive *)

Definition drive_files : list (string * string) := [
  ("/sys/block/nvme0n1/size", "2000"); ("/sys/block/nvme0n1/queue/logical_block_size", "512");
  ("/sys/block/nvme0n1/queue/rotational", "0"); ("/sys/block/nvme0n1/device/model", "  Disk  ")]%string.

Definition drive_kernel : Kernel unit :=
  listing_kernel drive_files [("/sys/block/", [".hidden"; "nvme0n1"; "loop0"])]%string.

Definition drive_paths : list text :=
  [lit "/sys/block/nvme0n1/device"; lit "/sys/block/nvme0n1/device/subsystem"].

Definition drive_machine (log : list Z) : StorageKernel unit := {|
  lstat path w := (if bool_decide (path ∈ drive_paths) then None else Some ENOENT, w);
  readlink path size w :=
    (if bool_decide (path ∈ drive_paths) then inr (take (Z.to_nat size) (lit "../../class/nvme")) else inl ENOENT, w);
  open_device path w := (None, w);
  nvme_log path w := ((0, 0, log), w);
  sg_io path w := ((0, 0, Sg_status 0 0 0 0, replicate 64 0), w)
|}.

Lemma drive_buffers log :
  length log = 512%nat -> Forall is_byte log -> @Buffers unit (drive_machine log).
Proof. split; [done|done|done| |]; intros ??; [|cbn; lia]. apply (Forall_replicate is_byte 64 0). done. Qed.

Definition sample_drive : drive_record :=
  Drive_record (lit "nvme0n1") None (Some (lit "Disk")) None bus_nvme (Some 1024000) (Some 512) None (Some false) false.

Lemma drives_listed_witness :
  @checked_drives unit drive_kernel (drive_machine []) tt = (Value [sample_drive], tt) /\
  StronglySorted (not_after by_identifier) [sample_drive] /\ Forall drive_ok [sample_drive] /\
  ([sample_drive] = [] \/
   exists names kept, @block_entries unit drive_kernel tt names /\ (identifier <$> [sample_drive]) ≡ₚ kept /\
     kept `sublist_of` filter (fun name => hidden name = false) names).
Proof.
  assert (@checked_drives unit drive_kernel (drive_machine []) tt = (Value [sample_drive], tt)) as Hl
    by (vm_compute; reflexivity).
  split; [exact Hl|]. exact (@drives_listed unit drive_kernel (drive_machine []) tt [sample_drive] tt Hl).
Defined.

Lemma read_link_basename_spec_witness :
  @read_link_basename unit (drive_machine []) (lit "/sys/block/nvme0n1/device/subsystem") tt =
  (Value (Some (lit "nvme")), tt).
Proof.
  assert (forall size, @readlink unit (drive_machine []) (lit "/sys/block/nvme0n1/device/subsystem") size tt =
    (inr (take (Z.to_nat size) (lit "../../class/nvme")), tt)) as Hl.
  { intros size. cbn [readlink drive_machine]. rewrite bool_decide_eq_true_2; [reflexivity|right; left]. }
  exact (@read_link_basename_spec unit (drive_machine []) _ (lit "../../class/nvme") tt Hl).
Defined.

Lemma health_safe_witness :
  @Buffers unit (drive_machine (replicate 512 1)) /\
  (exists r w', @checked_health unit drive_kernel (drive_machine (replicate 512 1)) (lit "nvme0n1") tt = (Some r, w') /\
     (forall e, check_disk_argument (lit "nvme0n1") = Failure e -> r = Failure e /\ w' = tt) /\
     forall h, r = Value h -> health_ok (lit "nvme0n1") h /\ check_health h = Value tt) /\
  exists r w', @checked_all_health unit drive_kernel (drive_machine (replicate 512 1)) tt = (Some r, w') /\
    forall l, r = Value l ->
      StronglySorted (not_after by_health_identifier) l /\ Forall listed_health l.
Proof.
  assert (@Buffers unit (drive_machine (replicate 512 1))) as Hb.
  { apply drive_buffers; [apply length_replicate|]. apply Forall_replicate. split; vm_compute; congruence. }
  split; [exact Hb|].
  exact (@health_safe unit drive_kernel (drive_machine (replicate 512 1)) Hb (lit "nvme0n1") tt).
Defined.
