(* ===== verification/Ipc.v ===== *)
(** * Interprocess communication: records, orders and tables

    [include/syscape/detail/ipc/common.hpp] and the parsers of
    [include/syscape/detail/ipc/linux.hpp]: the three tables of System V objects
    and the table of local sockets.  The queries are in [IpcLinux]. *)
From S2P Require Import Prelude Result CppText Order Utf8.

(** ** common.hpp *)

Inductive ipc_mechanism := mechanism_unknown | mechanism_posix | mechanism_sysv | mechanism_system.

Inductive ipc_socket_type := type_unknown | stream | datagram | sequential_packet.

Inductive ipc_socket_state :=
  | socket_unknown | unconnected | connecting | connected | disconnecting | listening.

Definition mechanism_value (m : ipc_mechanism) : Z :=
  match m with
  | mechanism_unknown => 0
  | mechanism_posix => 1
  | mechanism_sysv => 2
  | mechanism_system => 3
  end.

Definition socket_type_value (t : ipc_socket_type) : Z :=
  match t with type_unknown => 0 | stream => 1 | datagram => 2 | sequential_packet => 3 end.

Definition socket_state_value (s : ipc_socket_state) : Z :=
  match s with
  | socket_unknown => 0
  | unconnected => 1
  | connecting => 2
  | connected => 3
  | disconnecting => 4
  | listening => 5
  end.

Record shared_memory_segment := Shared_memory_segment {
  shm_mechanism : ipc_mechanism;
  shm_key : option Z;
  shm_id : Z;
  shm_name : text;
  size_bytes : Z;
  shm_permissions : Z;
  attached_processes : option Z;
  creator_uid : option Z;
  creator_gid : option Z;
  shm_owner_uid : option Z;
  shm_owner_gid : option Z;
  creator_pid : option Z;
  last_change_pid : option Z;
  last_attach_time : option Z;
  last_detach_time : option Z;
  shm_change_time : option Z
}.

Record message_queue := Message_queue {
  mq_mechanism : ipc_mechanism;
  mq_key : option Z;
  mq_id : Z;
  mq_name : text;
  current_messages : option Z;
  max_messages : option Z;
  current_bytes : option Z;
  max_message_bytes : option Z;
  mq_permissions : Z;
  mq_owner_uid : option Z;
  mq_owner_gid : option Z;
  last_send_pid : option Z;
  last_receive_pid : option Z;
  last_send_time : option Z;
  last_receive_time : option Z;
  mq_change_time : option Z
}.

Record semaphore_set := Semaphore_set {
  sem_mechanism : ipc_mechanism;
  sem_key : option Z;
  sem_id : Z;
  sem_name : text;
  semaphore_count : Z;
  sem_permissions : Z;
  sem_owner_uid : option Z;
  sem_owner_gid : option Z;
  last_operation_time : option Z;
  sem_change_time : option Z
}.

Record local_socket := Local_socket {
  path : text;
  socket_inode : Z;
  socket_type : ipc_socket_type;
  socket_state : ipc_socket_state;
  ref_count : Z;
  process_ids : list Z
}.

Record ipc_limits := Ipc_limits {
  max_shared_memory_segment_bytes : option Z;
  max_total_shared_memory_pages : option Z;
  max_shared_memory_segments_system : option Z;
  limit_message_bytes : option Z;
  default_message_queue_bytes : option Z;
  max_message_queues_system : option Z;
  max_semaphores_system : option Z;
  max_semaphores_per_set : option Z
}.

Definition compare_shared_memory_segments (lhs rhs : shared_memory_segment) : bool :=
  then_by Z.ltb (mechanism_value (shm_mechanism lhs)) (mechanism_value (shm_mechanism rhs)) (
  then_by (optional_less Z.ltb) (shm_key lhs) (shm_key rhs) (
  then_by Z.ltb (shm_id lhs) (shm_id rhs) (
  text_less (shm_name lhs) (shm_name rhs)))).

Definition compare_message_queues (lhs rhs : message_queue) : bool :=
  then_by Z.ltb (mechanism_value (mq_mechanism lhs)) (mechanism_value (mq_mechanism rhs)) (
  then_by (optional_less Z.ltb) (mq_key lhs) (mq_key rhs) (
  then_by Z.ltb (mq_id lhs) (mq_id rhs) (
  text_less (mq_name lhs) (mq_name rhs)))).

Definition compare_semaphore_sets (lhs rhs : semaphore_set) : bool :=
  then_by Z.ltb (mechanism_value (sem_mechanism lhs)) (mechanism_value (sem_mechanism rhs)) (
  then_by (optional_less Z.ltb) (sem_key lhs) (sem_key rhs) (
  then_by Z.ltb (sem_id lhs) (sem_id rhs) (
  text_less (sem_name lhs) (sem_name rhs)))).

Definition compare_local_sockets (lhs rhs : local_socket) : bool :=
  then_by text_less (path lhs) (path rhs) (
  then_by Z.ltb (socket_inode lhs) (socket_inode rhs) (
  then_by Z.ltb (socket_type_value (socket_type lhs)) (socket_type_value (socket_type rhs)) (
  socket_state_value (socket_state lhs) <? socket_state_value (socket_state rhs)))).

(** ** linux.hpp: numbers and words

    A function that returns [bool] and writes its result through a reference
    is an [option]. *)

Definition parse_unsigned (max base : Z) (input : text) : option Z :=
  if empty input then None
  else
    let parsed := from_chars_unsigned max base input in
    if consumed parsed input then Some (fc_value parsed) else None.

Definition parse_signed (input : text) : option Z :=
  if empty input then None
  else
    let parsed := from_chars_signed int64_min int64_max 10 input in
    if consumed parsed input then Some (fc_value parsed) else None.

Definition split_whitespace (line : text) : list text := tokens isspace line.

Fixpoint header_starts_with (words expected : list text) : bool :=
  match expected, words with
  | [], _ => true
  | e :: expected, w :: words => if negb (same w e) then false else header_starts_with words expected
  | _ :: _, [] => false
  end.

(** A process or a time that is zero is not recorded. *)
Definition if_positive (v : Z) : option Z := if 0 <? v then Some v else None.

(** A failure to parse is malformed data. *)
Definition well_formed {A} (o : option A) : result A :=
  match o with Some v => Value v | None => fail errc_malformed_data end.

(** ** linux.hpp: the tables of System V objects *)

(** The loop over the lines after the header; the empty ones are skipped. *)
Fixpoint table_lines {A} (row : text -> result A) (lines : list text) : result (list A) :=
  match lines with
  | [] => Value []
  | line :: lines =>
      if empty line then table_lines row lines
      else r ← row line; rest ← table_lines row lines; mret (r :: rest)
  end.

(** What the parsers share: the lines [std::getline] delivers, of which the
    first is the header. *)
Definition parse_table {A} (expected_header : list text) (row : text -> result A) (content : text)
    : result (list A) :=
  match fields ch_lf content with
  | [] => fail errc_malformed_data
  | header :: lines =>
      if header_starts_with (split_whitespace header) expected_header then table_lines row lines
      else fail errc_malformed_data
  end.

Definition shm_header : list text := lit <$>
  ["key"; "shmid"; "perms"; "size"; "cpid"; "lpid"; "nattch"; "uid"; "gid"; "cuid"; "cgid"; "atime"; "dtime";
   "ctime"]%string.

Definition shm_row (line : text) : result shared_memory_segment :=
  match split_whitespace line with
  | c0 :: c1 :: c2 :: c3 :: c4 :: c5 :: c6 :: c7 :: c8 :: c9 :: c10 :: c11 :: c12 :: c13 :: _ =>
      well_formed (
        k ← parse_signed c0;
        id ← parse_unsigned uint64_max 10 c1;
        permissions ← parse_unsigned uint32_max 8 c2;
        size ← parse_unsigned uint64_max 10 c3;
        cpid ← parse_signed c4;
        lpid ← parse_signed c5;
        nattch ← parse_unsigned uint32_max 10 c6;
        uid ← parse_unsigned uint32_max 10 c7;
        gid ← parse_unsigned uint32_max 10 c8;
        cuid ← parse_unsigned uint32_max 10 c9;
        cgid ← parse_unsigned uint32_max 10 c10;
        atime ← parse_unsigned uint64_max 10 c11;
        dtime ← parse_unsigned uint64_max 10 c12;
        ctime ← parse_unsigned uint64_max 10 c13;
        Some (Shared_memory_segment mechanism_sysv (Some k) id [] size permissions (Some nattch) (Some cuid)
          (Some cgid) (Some uid) (Some gid) (if_positive cpid) (if_positive lpid) (if_positive atime)
          (if_positive dtime) (if_positive ctime)))
  | _ => fail errc_malformed_data
  end.

Definition parse_sysv_shm (content : text) : result (list shared_memory_segment) :=
  if empty content then fail errc_malformed_data else parse_table shm_header shm_row content.

Definition msg_header : list text := lit <$>
  ["key"; "msqid"; "perms"; "cbytes"; "qnum"; "lspid"; "lrpid"; "uid"; "gid"; "cuid"; "cgid"; "stime"; "rtime";
   "ctime"]%string.

Definition msg_row (line : text) : result message_queue :=
  match split_whitespace line with
  | c0 :: c1 :: c2 :: c3 :: c4 :: c5 :: c6 :: c7 :: c8 :: c9 :: c10 :: c11 :: c12 :: c13 :: _ =>
      well_formed (
        k ← parse_signed c0;
        id ← parse_unsigned uint64_max 10 c1;
        permissions ← parse_unsigned uint32_max 8 c2;
        cbytes ← parse_unsigned uint64_max 10 c3;
        qnum ← parse_unsigned uint64_max 10 c4;
        lspid ← parse_signed c5;
        lrpid ← parse_signed c6;
        uid ← parse_unsigned uint32_max 10 c7;
        gid ← parse_unsigned uint32_max 10 c8;
        cuid ← parse_unsigned uint32_max 10 c9;
        cgid ← parse_unsigned uint32_max 10 c10;
        stime ← parse_unsigned uint64_max 10 c11;
        rtime ← parse_unsigned uint64_max 10 c12;
        ctime ← parse_unsigned uint64_max 10 c13;
        Some (Message_queue mechanism_sysv (Some k) id [] (Some qnum) None (Some cbytes) None permissions
          (Some uid) (Some gid) (if_positive lspid) (if_positive lrpid) (if_positive stime)
          (if_positive rtime) (if_positive ctime)))
  | _ => fail errc_malformed_data
  end.

Definition parse_sysv_msg (content : text) : result (list message_queue) :=
  if empty content then fail errc_malformed_data else parse_table msg_header msg_row content.

Definition sem_header : list text := lit <$>
  ["key"; "semid"; "perms"; "nsems"; "uid"; "gid"; "cuid"; "cgid"; "otime"; "ctime"]%string.

Definition sem_row (line : text) : result semaphore_set :=
  match split_whitespace line with
  | c0 :: c1 :: c2 :: c3 :: c4 :: c5 :: c6 :: c7 :: c8 :: c9 :: _ =>
      well_formed (
        k ← parse_signed c0;
        id ← parse_unsigned uint64_max 10 c1;
        permissions ← parse_unsigned uint32_max 8 c2;
        nsems ← parse_unsigned uint32_max 10 c3;
        uid ← parse_unsigned uint32_max 10 c4;
        gid ← parse_unsigned uint32_max 10 c5;
        cuid ← parse_unsigned uint32_max 10 c6;
        cgid ← parse_unsigned uint32_max 10 c7;
        otime ← parse_unsigned uint64_max 10 c8;
        ctime ← parse_unsigned uint64_max 10 c9;
        Some (Semaphore_set mechanism_sysv (Some k) id [] nsems permissions (Some uid) (Some gid)
          (if_positive otime) (if_positive ctime)))
  | _ => fail errc_malformed_data
  end.

Definition parse_sysv_sem (content : text) : result (list semaphore_set) :=
  if empty content then fail errc_malformed_data else parse_table sem_header sem_row content.

(** ** linux.hpp: the table of local sockets *)

Definition inode_pid_map_type : Type := gmap Z (list Z).

(** [stream >> token], [n] times: the words, and what is left of the line. *)
Fixpoint extract_words (n : nat) (line : text) : option (list text * text) :=
  match n with
  | O => Some ([], line)
  | S n =>
      let line := drop_front isspace line in
      let stop := prefix_length (fun c => negb (isspace c)) line in
      if (stop =? 0)%nat then None
      else '(words, rest) ← extract_words n (drop stop line); Some (take stop line :: words, rest)
  end.

Definition unix_header : list text := lit <$>
  ["Num"; "RefCount"; "Protocol"; "Flags"; "Type"; "St"; "Inode"; "Path"]%string.

(** A colon at the end of the first word is left out. *)
Definition without_colon (num_token : text) : text :=
  match last num_token with
  | Some c => if is_char c ":" then removelast num_token else num_token
  | None => num_token
  end.

Definition blank (c : ascii) : bool := is_char c " " || is_char c ch_tab.

Definition socket_type_of (type_val : Z) : ipc_socket_type :=
  if type_val =? 1 then stream
  else if type_val =? 2 then datagram
  else if type_val =? 5 then sequential_packet
  else type_unknown.

Definition socket_state_of (flags state_val : Z) : ipc_socket_state :=
  if negb (Z.land flags 0x00010000 =? 0) || negb (Z.land flags 0x00020000 =? 0) then listening
  else if state_val =? 1 then unconnected
  else if state_val =? 2 then connecting
  else if state_val =? 3 then connected
  else if state_val =? 4 then disconnecting
  else socket_unknown.

Definition unix_row (pid_map : inode_pid_map_type) (line : text) : result local_socket :=
  match extract_words 7 line with
  | Some ([num_token; ref_cnt_token; proto_token; flags_token; type_token; state_token; inode_token], remaining) =>
      well_formed (
        _ ← parse_unsigned uint64_max 16 (without_colon num_token);
        parse_unsigned uint32_max 16 proto_token);;
      let p := drop_front blank remaining in
      reject (negb (is_valid_utf8 p)) errc_invalid_encoding;;
      well_formed (
        inode ← parse_unsigned uint64_max 10 inode_token;
        refs ← parse_unsigned uint32_max 16 ref_cnt_token;
        flags ← parse_unsigned uint32_max 16 flags_token;
        type_val ← parse_unsigned uint32_max 16 type_token;
        state_val ← parse_unsigned uint32_max 16 state_token;
        Some (Local_socket p inode (socket_type_of type_val) (socket_state_of flags state_val) refs
          (default [] (pid_map !! inode))))
  | _ => fail errc_malformed_data
  end.

Definition parse_proc_net_unix (content : text) (pid_map : inode_pid_map_type) : result (list local_socket) :=
  if empty content then fail errc_malformed_data else parse_table unix_header (unix_row pid_map) content.

(** ** What a column denotes *)

(** The columns of a table: an [int64_t] in decimal, or an unsigned number with
    a maximum and a base. *)
Inductive column :=
  | signed_column
  | unsigned_column (max base : Z).

Definition denotes (base : Z) (t : text) (v : Z) : Prop := numeric base t = true /\ numeral base t = v.

Definition column_denotes (c : column) (t : text) (v : Z) : Prop :=
  match c with
  | signed_column =>
      (denotes 10 t v /\ v <= int64_max) \/
      (exists digits, t = "-"%char :: digits /\ denotes 10 digits (- v) /\ int64_min <= v)
  | unsigned_column max base => denotes base t v /\ v <= max
  end.

Lemma parse_unsigned_spec max base t v :
  parse_unsigned max base t = Some v <-> column_denotes (unsigned_column max base) t v.
Proof.
  unfold parse_unsigned, column_denotes, denotes. destruct (empty t) eqn:Ee.
  - apply empty_true in Ee as ->. split; [done|]. by intros [[? _] _].
  - destruct (consumed _ t) eqn:E.
    + pose proof E as [Hn Hv]%consumed_unsigned. rewrite (consumed_value _ _ _ E).
      split; [intros [= <-]; done|by intros [[_ <-] _]].
    + split; [done|]. intros [[Hn <-] Hv]. assert (consumed (from_chars_unsigned max base t) t = true) as Hc; [|congruence].
      by apply consumed_unsigned.
Qed.

Lemma digits_not_minus base t : 0 < base <= 36 -> numeric base t = true -> exists c l, t = c :: l /\ is_char c "-" = false.
Proof.
  intros Hb [Hne Hd]%numeric_split. destruct t as [|c l]; [done|]. exists c, l. split; [done|].
  cbn [forallb] in Hd. apply andb_true_iff in Hd as [Hc _]. apply is_char_false. intros ->.
  unfold is_digit_in, digit_of in Hc. change (code "-") with 45 in Hc. cbn in Hc.
  destruct (Z.ltb_spec base base); [lia|done].
Qed.

Lemma from_chars_signed_minus min max digits v :
  consumed (from_chars_signed min max 10 ("-"%char :: digits)) ("-"%char :: digits) = true /\
  fc_value (from_chars_signed min max 10 ("-"%char :: digits)) = v <->
  denotes 10 digits (- v) /\ min <= v.
Proof.
  unfold from_chars_signed. change (is_char "-" "-") with true. cbv iota. unfold denotes, numeral.
  destruct (digit_run 10 digits) as [|d ds] eqn:E.
  - split; [by intros [? _]|]. intros [[Hn _] _]. apply numeric_split in Hn as [Hne Hd].
    apply digit_run_numeric in Hd. rewrite E in Hd. by destruct digits.
  - destruct (Z.leb_spec min (- digits_value 10 (d :: ds))) as [Hle|Hgt]; unfold consumed; cbn [fc_ec fc_ptr fc_value].
    + rewrite bool_decide_eq_true_2 by done. cbn [andb length]. rewrite Nat.eqb_eq. split.
      * intros [Hl <-]. split; [|done]. split; [|lia]. apply numeric_split.
        split; [by destruct digits|]. apply digit_run_numeric. rewrite E. by injection Hl.
      * intros [[Hn Hv] Hm]. split; [|lia]. apply numeric_split in Hn as [_ Hd].
        apply digit_run_numeric in Hd. rewrite E in Hd. cbn in Hd. lia.
    + split; [by intros [? _]|]. intros [[_ Hv] Hm]. lia.
Qed.

Lemma parse_signed_spec t v : parse_signed t = Some v <-> column_denotes signed_column t v.
Proof.
  unfold parse_signed. destruct t as [|c l]; [cbn; split; [done|]; by intros [[[? _] _]|(? & ? & _)]|].
  cbn [empty]. destruct (is_char c "-") eqn:Ec.
  - apply is_char_true in Ec as ->. transitivity (denotes 10 l (- v) /\ int64_min <= v).
    + rewrite <- (from_chars_signed_minus int64_min int64_max). destruct (consumed _ _).
      * split; [intros [= <-]; done|by intros [_ <-]].
      * split; [done|by intros [? _]].
    + cbn [column_denotes]. split; [intros []; right; eauto|]. intros [[[Hn _] _]|(digits & [= <-] & ? & ?)]; [|done].
      apply digits_not_minus in Hn as (c' & l' & [= <- <-] & Hc); [done|lia].
  - assert (from_chars_signed int64_min int64_max 10 (c :: l) = from_chars_unsigned int64_max 10 (c :: l)) as ->
      by (unfold from_chars_signed; by rewrite Ec).
    pose proof (parse_unsigned_spec int64_max 10 (c :: l) v) as Hu. unfold parse_unsigned in Hu. cbn [empty] in Hu.
    rewrite Hu. cbn [column_denotes]. split; [by left|]. intros [?|(digits & [= -> _] & _)]; [done|].
    by apply is_char_false in Ec.
Qed.

(** ** The tables *)

Definition u64 : column := unsigned_column uint64_max 10.
Definition u32 : column := unsigned_column uint32_max 10.
Definition mode : column := unsigned_column uint32_max 8.

Definition shm_columns : list column :=
  [signed_column; u64; mode; u64; signed_column; signed_column; u32; u32; u32; u32; u32; u64; u64; u64].

Definition shm_of (v : nat -> Z) : shared_memory_segment :=
  Shared_memory_segment mechanism_sysv (Some (v 0%nat)) (v 1%nat) [] (v 3%nat) (v 2%nat) (Some (v 6%nat))
    (Some (v 9%nat)) (Some (v 10%nat)) (Some (v 7%nat)) (Some (v 8%nat)) (if_positive (v 4%nat))
    (if_positive (v 5%nat)) (if_positive (v 11%nat)) (if_positive (v 12%nat)) (if_positive (v 13%nat)).

Definition msg_columns : list column :=
  [signed_column; u64; mode; u64; u64; signed_column; signed_column; u32; u32; u32; u32; u64; u64; u64].

Definition msg_of (v : nat -> Z) : message_queue :=
  Message_queue mechanism_sysv (Some (v 0%nat)) (v 1%nat) [] (Some (v 4%nat)) None (Some (v 3%nat)) None
    (v 2%nat) (Some (v 7%nat)) (Some (v 8%nat)) (if_positive (v 5%nat)) (if_positive (v 6%nat))
    (if_positive (v 11%nat)) (if_positive (v 12%nat)) (if_positive (v 13%nat)).

Definition sem_columns : list column :=
  [signed_column; u64; mode; u32; u32; u32; u32; u32; u64; u64].

Definition sem_of (v : nat -> Z) : semaphore_set :=
  Semaphore_set mechanism_sysv (Some (v 0%nat)) (v 1%nat) [] (v 3%nat) (v 2%nat) (Some (v 4%nat))
    (Some (v 5%nat)) (if_positive (v 8%nat)) (if_positive (v 9%nat)).

(** A line whose first words denote the values of the record. *)
Definition row_denotes {A} (columns : list column) (build : (nat -> Z) -> A) (line : text) (r : A) : Prop :=
  exists words rest values, split_whitespace line = words ++ rest /\
    Forall3 column_denotes columns words values /\ r = build (fun i => nth i values 0).

(** A table: a header that starts with the expected words, then lines that
    denote the records, between which empty lines do not count. *)
Definition table_denotes {A} (header : list text) (row : text -> A -> Prop) (content : text) (l : list A) : Prop :=
  exists first lines, fields ch_lf content = first :: lines /\ header `prefix_of` split_whitespace first /\
    Forall2 row (filter (fun line => line <> []) lines) l.

Lemma well_formed_value {A} (o : option A) v : well_formed o = Value v <-> o = Some v.
Proof. destruct o; cbn; [|done]. split; by intros [= ->]. Qed.

Lemma header_starts_spec words expected : header_starts_with words expected = true <-> expected `prefix_of` words.
Proof.
  revert words. induction expected as [|e expected IH]; intros words; [split; [intros _; apply prefix_nil|by destruct words]|].
  destruct words as [|w words]; cbn.
  - split; [done|]. by intros ?%prefix_nil_not.
  - destruct (same w e) eqn:E; cbn.
    + apply same_true in E as ->. rewrite IH. split; [apply prefix_cons|apply prefix_cons_inv_2].
    + split; [done|]. intros ?%prefix_cons_inv_1. subst w. assert (same e e = true) by by apply same_true. congruence.
Qed.

Lemma table_lines_spec {A} (row : text -> result A) (denoted : text -> A -> Prop) lines l :
  (forall line r, row line = Value r <-> denoted line r) ->
  table_lines row lines = Value l <-> Forall2 denoted (filter (fun line => line <> []) lines) l.
Proof.
  intros Hrow. revert l. induction lines as [|line lines IH]; intros l; cbn [table_lines].
  - split; [by intros [= <-]|by intros ->%Forall2_nil_inv_l].
  - rewrite filter_cons. destruct line as [|c line]; cbn [empty]; [rewrite decide_False by (by intros []); apply IH|].
    rewrite decide_True by done. rewrite bind_value. split.
    + intros (r & Hr & Hl). apply bind_value in Hl as (rest & Hrest & [= <-]). constructor; [by apply Hrow|by apply IH].
    + intros (r & rest & Hr & Hrest & ->)%Forall2_cons_inv_l. exists r. split; [by apply Hrow|].
      apply IH in Hrest as ->. done.
Qed.

Lemma parse_table_spec {A} header (row : text -> result A) (denoted : text -> A -> Prop) content l :
  (forall line r, row line = Value r <-> denoted line r) ->
  (if empty content then fail errc_malformed_data else parse_table header row content) = Value l <->
  table_denotes header denoted content l.
Proof.
  intros Hrow. unfold parse_table, table_denotes. destruct content as [|c content].
  { split; [done|]. by intros (? & ? & ? & _). }
  cbn [empty]. destruct (fields ch_lf (c :: content)) as [|first lines].
  - split; [done|]. by intros (? & ? & ? & _).
  - destruct (header_starts_with _ _) eqn:E.
    + rewrite (table_lines_spec row denoted) by done. apply header_starts_spec in E. split; [eauto 6|].
      by intros (? & ? & [= <- <-] & _ & ?).
    + split; [done|]. intros (? & ? & [= <- <-] & Hp%header_starts_spec & _). congruence.
Qed.

Lemma Forall3_cons_l_inv {A B C} (P : A -> B -> C -> Prop) x l k r :
  Forall3 P (x :: l) k r -> exists y k' z r', k = y :: k' /\ r = z :: r' /\ P x y z /\ Forall3 P l k' r'.
Proof. inversion 1; subst. eauto 10. Qed.

Lemma Forall3_nil_l_inv {A B C} (P : A -> B -> C -> Prop) k r : Forall3 P [] k r -> k = [] /\ r = [].
Proof. by inversion 1. Qed.

(** Splits [Forall3] over a list of columns. *)
Ltac split_columns :=
  repeat match goal with
  | H : Forall3 _ (_ :: _) _ _ |- _ =>
      apply Forall3_cons_l_inv in H; destruct H as (? & ? & ? & ? & -> & -> & ? & H)
  | H : Forall3 _ [] _ _ |- _ => apply Forall3_nil_l_inv in H; destruct H as [-> ->]
  end.

Ltac parsed_columns :=
  repeat match goal with
  | H : column_denotes signed_column ?t ?v |- _ => apply parse_signed_spec in H; rewrite H; clear H
  | H : column_denotes (unsigned_column ?m ?b) ?t ?v |- _ => apply parse_unsigned_spec in H; rewrite H; clear H
  end.

(** The columns a row has parsed, and what they denote. *)
Ltac denoted_columns Hv :=
  apply well_formed_value in Hv;
  repeat (apply bind_Some in Hv; destruct Hv as (? & ? & Hv)); injection Hv as <-;
  repeat match goal with
  | H : parse_unsigned _ _ _ = Some _ |- _ => apply parse_unsigned_spec in H
  | H : parse_signed _ = Some _ |- _ => apply parse_signed_spec in H
  end.

Ltac denoted_row :=
  split; [reflexivity|]; split; [repeat (constructor; [eassumption|]); constructor|reflexivity].

Lemma shm_row_spec line r : shm_row line = Value r <-> row_denotes shm_columns shm_of line r.
Proof.
  unfold shm_row, row_denotes. split.
  - destruct (split_whitespace line) as [|c0 [|c1 [|c2 [|c3 [|c4 [|c5 [|c6 [|c7 [|c8 [|c9 [|c10 [|c11 [|c12 [|c13
      rest]]]]]]]]]]]]]]; try done.
    intros Hv. denoted_columns Hv.
    exists [c0; c1; c2; c3; c4; c5; c6; c7; c8; c9; c10; c11; c12; c13], rest. eexists. denoted_row.
  - intros (words & rest & values & -> & Hf & ->). unfold shm_columns, u64, u32, mode in Hf. split_columns.
    cbn [app]. parsed_columns. done.
Qed.

Lemma msg_row_spec line r : msg_row line = Value r <-> row_denotes msg_columns msg_of line r.
Proof.
  unfold msg_row, row_denotes. split.
  - destruct (split_whitespace line) as [|c0 [|c1 [|c2 [|c3 [|c4 [|c5 [|c6 [|c7 [|c8 [|c9 [|c10 [|c11 [|c12 [|c13
      rest]]]]]]]]]]]]]]; try done.
    intros Hv. denoted_columns Hv.
    exists [c0; c1; c2; c3; c4; c5; c6; c7; c8; c9; c10; c11; c12; c13], rest. eexists. denoted_row.
  - intros (words & rest & values & -> & Hf & ->). unfold msg_columns, u64, u32, mode in Hf. split_columns.
    cbn [app]. parsed_columns. done.
Qed.

Lemma sem_row_spec line r : sem_row line = Value r <-> row_denotes sem_columns sem_of line r.
Proof.
  unfold sem_row, row_denotes. split.
  - destruct (split_whitespace line) as [|c0 [|c1 [|c2 [|c3 [|c4 [|c5 [|c6 [|c7 [|c8 [|c9 rest]]]]]]]]]]; try done.
    intros Hv. denoted_columns Hv. exists [c0; c1; c2; c3; c4; c5; c6; c7; c8; c9], rest. eexists. denoted_row.
  - intros (words & rest & values & -> & Hf & ->). unfold sem_columns, u64, u32, mode in Hf. split_columns.
    cbn [app]. parsed_columns. done.
Qed.

Lemma table_lines_malformed {A} (row : text -> result A) lines :
  (forall line, (exists r, row line = Value r) \/ row line = fail errc_malformed_data) ->
  (exists l, table_lines row lines = Value l) \/ table_lines row lines = fail errc_malformed_data.
Proof.
  intros Hrow. induction lines as [|line lines IH]; cbn [table_lines]; [eauto|]. split_if; [done|].
  destruct (Hrow line) as [[r ->]| ->]; [|by right]. destruct IH as [[l ->]| ->]; [left|by right].
  by eexists.
Qed.

Lemma parse_table_malformed {A} header (row : text -> result A) content :
  (forall line, (exists r, row line = Value r) \/ row line = fail errc_malformed_data) ->
  let outcome := if empty content then fail errc_malformed_data else parse_table header row content in
  (exists l, outcome = Value l) \/ outcome = fail errc_malformed_data.
Proof.
  intros Hrow outcome. subst outcome. destruct (empty content); [by right|]. unfold parse_table.
  destruct (fields ch_lf content); [by right|]. split_if; [by apply table_lines_malformed|by right].
Qed.

Lemma well_formed_cases {A} (o : option A) :
  (exists r, well_formed o = Value r) \/ well_formed o = fail errc_malformed_data.
Proof. destruct o; [left; by eexists|by right]. Qed.

(** Each of the three tables of System V objects parses exactly when its
    first line starts with the documented column names and every other line
    that is not empty starts with numerals - any of them in range for their
    column, the permissions in octal - and then to the objects these denote,
    in order, without the processes and times that are zero; every other
    content is malformed. *)
Theorem sysv_tables_spec (content : text) :
  (forall l, parse_sysv_shm content = Value l <-> table_denotes shm_header (row_denotes shm_columns shm_of) content l) /\
  (forall l, parse_sysv_msg content = Value l <-> table_denotes msg_header (row_denotes msg_columns msg_of) content l) /\
  (forall l, parse_sysv_sem content = Value l <-> table_denotes sem_header (row_denotes sem_columns sem_of) content l) /\
  ((exists l, parse_sysv_shm content = Value l) \/ parse_sysv_shm content = fail errc_malformed_data) /\
  ((exists l, parse_sysv_msg content = Value l) \/ parse_sysv_msg content = fail errc_malformed_data) /\
  ((exists l, parse_sysv_sem content = Value l) \/ parse_sysv_sem content = fail errc_malformed_data).
Proof.
  split_and!.
  - intros l. apply parse_table_spec, shm_row_spec.
  - intros l. apply parse_table_spec, msg_row_spec.
  - intros l. apply parse_table_spec, sem_row_spec.
  - apply parse_table_malformed. intros line. unfold shm_row. repeat (case_match; try by right). apply well_formed_cases.
  - apply parse_table_malformed. intros line. unfold msg_row. repeat (case_match; try by right). apply well_formed_cases.
  - apply parse_table_malformed. intros line. unfold sem_row. repeat (case_match; try by right). apply well_formed_cases.
Qed.

Example shm_sample :
  parse_sysv_shm (lit "key shmid perms size cpid lpid nattch uid gid cuid cgid atime dtime ctime rss" ++ [ch_lf] ++
    lit " -5 32768 1600 4096 77 0 2 1000 1000 0 0 9 0 8 0 0" ++ [ch_lf]) =
  Value [Shared_memory_segment mechanism_sysv (Some (-5)) 32768 [] 4096 896 (Some 2) (Some 0) (Some 0)
    (Some 1000) (Some 1000) (Some 77) None (Some 9) None (Some 8)].
Proof. vm_compute. reflexivity. Qed.

(** ** The sockets *)

(** A line that consists of words with white space before each, and then a rest
    that is empty or starts with white space. *)
Inductive worded : list text -> text -> text -> Prop :=
  | worded_rest rest : worded [] rest rest
  | worded_word pad w ws line rest :
      Forall (fun c => isspace c = true) pad -> w <> [] -> Forall (fun c => isspace c = false) w ->
      match line with c :: _ => isspace c = true | [] => True end ->
      worded ws rest line -> worded (w :: ws) rest (pad ++ w ++ line).

Lemma prefix_length_split (p : ascii -> bool) l :
  Forall (fun c => p c = true) (take (prefix_length p l) l) /\
  match drop (prefix_length p l) l with c :: _ => p c = false | [] => True end.
Proof.
  induction l as [|c l [IH1 IH2]]; cbn [prefix_length]; [done|]. destruct (p c) eqn:E; cbn; [|done].
  split; [by constructor|done].
Qed.

Lemma prefix_length_word (p : ascii -> bool) w l :
  Forall (fun c => p c = true) w -> match l with c :: _ => p c = false | [] => True end ->
  prefix_length p (w ++ l) = length w.
Proof.
  induction 1 as [|c w Hc _ IH]; intros Hl; cbn [app prefix_length length]; [|by rewrite Hc, IH].
  destruct l as [|c l]; cbn; [done|]. by rewrite Hl.
Qed.

Lemma extract_words_spec n line ws rest :
  extract_words n line = Some (ws, rest) <-> length ws = n /\ worded ws rest line.
Proof.
  revert line ws. induction n as [|n IH]; intros line ws; cbn [extract_words].
  - split; [intros [= <- <-]; split; [done|constructor]|]. intros [Hl Hw]. destruct ws; [|done]. by inversion Hw; subst.
  - set (space := drop_front isspace line). set (letter := fun c => negb (isspace c)).
    destruct (prefix_length_split letter space) as [Hw Hr]. split.
    + destruct (Nat.eqb_spec (prefix_length letter space) 0) as [|Hne]; [done|].
      destruct (extract_words n _) as [[ws' rest']|] eqn:E; [|done]. intros [= <- <-].
      apply IH in E as [Hl Hwd]. split; [by cbn; rewrite Hl|].
      destruct (drop_front_split isspace line) as (pad & Hline & Hpad). fold space in Hline.
      pose proof (worded_word pad (take (prefix_length letter space) space) ws' (drop (prefix_length letter space) space)
        rest' Hpad) as Hword. rewrite take_drop, <- Hline in Hword. apply Hword; [| | |done].
      * destruct space; [done|]. by destruct (prefix_length letter (a :: space)).
      * eapply Forall_impl; [exact Hw|]. by intros c Hc%negb_true_iff.
      * destruct (drop _ space); [done|]. by apply negb_false_iff.
    + intros [Hl Hwd]. inversion Hwd as [|pad w ws' line' rest' Hpad Hne Hword Hline Hwd' E1 E2 E3]; subst; [done|].
      assert (space = w ++ line') as ->.
      { subst space. rewrite drop_front_app by done. destruct w as [|c w]; [done|]. apply drop_front_id.
        apply Forall_cons in Hword as [Hc _]. by intros ? [= <-]. }
      assert (prefix_length letter (w ++ line') = length w) as ->.
      { apply prefix_length_word; subst letter.
        - eapply Forall_impl; [exact Hword|]. by intros c ->.
        - destruct line'; [done|]. by rewrite Hline. }
      destruct w as [|c w]; [done|]. change (length (c :: w) =? 0)%nat with false. cbv iota.
      rewrite drop_app_length, take_app_length. injection Hl as Hl. by rewrite (proj2 (IH line' ws') (conj Hl Hwd')).
Qed.

(** The seven numeric columns of a socket, the colon of the first left out. *)
Definition unix_columns : list column :=
  [unsigned_column uint64_max 16; unsigned_column uint32_max 16; unsigned_column uint32_max 16;
   unsigned_column uint32_max 16; unsigned_column uint32_max 16; unsigned_column uint32_max 16;
   unsigned_column uint64_max 10].

Definition first_without_colon (words : list text) : list text :=
  match words with w :: ws => without_colon w :: ws | [] => [] end.

(** The reference count, the type, the flags and state, and the inode of a
    line, with what follows the blanks after them as the path. *)
Definition unix_row_denotes (pid_map : inode_pid_map_type) (line : text) (s : local_socket) : Prop :=
  exists words values rest, worded words rest line /\
    Forall3 column_denotes unix_columns (first_without_colon words) values /\
    let v i := nth i values 0 in
    let p := drop_front blank rest in
    is_valid_utf8 p = true /\
    s = Local_socket p (v 6%nat) (socket_type_of (v 4%nat)) (socket_state_of (v 3%nat) (v 5%nat)) (v 1%nat)
          (default [] (pid_map !! v 6%nat)).

Lemma unix_row_spec pid_map line s : unix_row pid_map line = Value s <-> unix_row_denotes pid_map line s.
Proof.
  unfold unix_row, unix_row_denotes. split.
  - destruct (extract_words 7 line) as [[words rest]|] eqn:E; [|done]. apply extract_words_spec in E as [_ Hw].
    destruct words as [|w0 [|w1 [|w2 [|w3 [|w4 [|w5 [|w6 [|]]]]]]]]; try done.
    intros (proto & Hp & Hv)%bind_value. apply bind_value in Hv as ([] & Hu%reject_value & Hv).
    apply negb_false_iff in Hu. apply well_formed_value in Hp. apply bind_Some in Hp as (num & Hn & Hp).
    denoted_columns Hv. exists [w0; w1; w2; w3; w4; w5; w6]. eexists. exists rest. split; [exact Hw|].
    split; [repeat (constructor; [eassumption|]); constructor|]. split; [exact Hu|reflexivity].
  - intros (words & values & rest & Hw & Hf & Hu & ->).
    destruct words as [|w ws]; [by inversion Hf|]. cbn [first_without_colon] in Hf. unfold unix_columns in Hf.
    apply Forall3_cons_l_inv in Hf as (? & ? & ? & ? & [= <- <-] & -> & ? & Hf). split_columns.
    match type of Hw with worded ?ws _ _ => rewrite (proj2 (extract_words_spec 7 line ws rest)) by done end.
    parsed_columns. cbv beta zeta in Hu. cbn [mbind option_bind well_formed]. unfold mbind, result_bind. by rewrite Hu.
Qed.

(** The table of local sockets parses exactly when its first line starts
    with the documented column names and every other line that is not empty
    consists of seven numerals - hexadecimal but for the inode, the first
    possibly with a colon - and a path in UTF-8, with any white space between
    them; the result has a socket for each of these lines, in order, listening
    exactly when one of the two listening flags is set, with the processes the
    map records for its inode. *)
Theorem parse_proc_net_unix_spec (content : text) (pid_map : inode_pid_map_type) (l : list local_socket) :
  parse_proc_net_unix content pid_map = Value l <->
  table_denotes unix_header (unix_row_denotes pid_map) content l.
Proof. apply parse_table_spec. intros line s. apply unix_row_spec. Qed.

Example unix_sample :
  parse_proc_net_unix (lit "Num       RefCount Protocol Flags    Type St Inode Path" ++ [ch_lf] ++
    lit "ffff8800: 00000002 00000000 00010000 0001 01 17 /run/a b" ++ [ch_lf] ++
    lit "0000000000000000: 00000003 00000000 00000000 0002 03 0001A" ++ [ch_lf]) ∅ = fail errc_malformed_data /\
  parse_proc_net_unix (lit "Num       RefCount Protocol Flags    Type St Inode Path" ++ [ch_lf] ++
    lit "ffff8800: 00000002 00000000 00010000 0001 01 17 /run/a b" ++ [ch_lf] ++
    lit "0000000000000000: 00000003 00000000 00000000 0002 03 18" ++ [ch_lf]) {[17 := [4; 9]]} =
  Value [Local_socket (lit "/run/a b") 17 stream listening 2 [4; 9];
         Local_socket [] 18 datagram connected 3 []].
Proof. vm_compute. done. Qed.

(** ** The orders *)

Definition shm_order (s : shared_memory_segment) : list Z :=
  Order.encode (mechanism_value (shm_mechanism s)) ++ Order.encode (shm_key s) ++ Order.encode (shm_id s) ++
  Order.encode (shm_name s) ++ [].

Definition mq_order (s : message_queue) : list Z :=
  Order.encode (mechanism_value (mq_mechanism s)) ++ Order.encode (mq_key s) ++ Order.encode (mq_id s) ++
  Order.encode (mq_name s) ++ [].

Definition sem_order (s : semaphore_set) : list Z :=
  Order.encode (mechanism_value (sem_mechanism s)) ++ Order.encode (sem_key s) ++ Order.encode (sem_id s) ++
  Order.encode (sem_name s) ++ [].

Definition socket_order (s : local_socket) : list Z :=
  Order.encode (path s) ++ Order.encode (socket_inode s) ++ Order.encode (socket_type_value (socket_type s)) ++
  Order.encode (socket_state_value (socket_state s)) ++ [].

Lemma compare_shm_key a b : compare_shared_memory_segments a b = lexicographic (shm_order a) (shm_order b).
Proof.
  unfold compare_shared_memory_segments, shm_order. repeat apply then_by_encode.
  apply less_encode, lexicographic_irrefl.
Qed.

Lemma compare_mq_key a b : compare_message_queues a b = lexicographic (mq_order a) (mq_order b).
Proof.
  unfold compare_message_queues, mq_order. repeat apply then_by_encode. apply less_encode, lexicographic_irrefl.
Qed.

Lemma compare_sem_key a b : compare_semaphore_sets a b = lexicographic (sem_order a) (sem_order b).
Proof.
  unfold compare_semaphore_sets, sem_order. repeat apply then_by_encode. apply less_encode, lexicographic_irrefl.
Qed.

Lemma compare_sockets_key a b : compare_local_sockets a b = lexicographic (socket_order a) (socket_order b).
Proof.
  unfold compare_local_sockets, socket_order. repeat apply then_by_encode. apply less_encode, Z.ltb_irrefl.
Qed.
