(* ===== verification/IpcLinux.v ===== *)
(** * Interprocess communication: the Linux queries

    The queries of [include/syscape/detail/ipc/linux.hpp]: the System V tables
    of [/proc/sysvipc], the objects in the directories of shared memory and
    message queues, the local sockets with the processes that hold them, and
    the limits of the kernel. *)
From S2P Require Import Prelude Result CppText Order Utf8 System Ipc.

(** What [lstat] stores. *)
Record file_stat := File_stat {
  st_ino : Z;
  st_size : Z;
  st_mode : Z;
  st_uid : Z;
  st_gid : Z
}.

(** The calls besides those of [Kernel]: [lstat], with the [errno] of a
    failure, and [readlink], none when it fails. *)
Class IpcKernel (W : Type) := {
  lstat : text -> W -> (Z + file_stat) * W;
  readlink : text -> W -> option text * W
}.

Definition fail_system {A} (errno : Z) : result A := Failure (Error_code errno system_category).

(** The error of a failing [open] or [opendir]. *)
Definition open_failure {A} (err : Z) : result A :=
  if (err =? ENOENT) || (err =? ENOTDIR) then fail errc_not_supported
  else if (err =? EACCES) || (err =? EPERM) then fail errc_permission_denied
  else if (err =? EMFILE) || (err =? ENFILE) then fail errc_resource_exhausted
  else fail_system err.

Fixpoint read_chunks (events : list read_event) (buffer : text) : result text :=
  match events with
  | [] | Read_bytes [] :: _ => Value buffer
  | Read_bytes chunk :: events => read_chunks events (buffer ++ chunk)
  | Read_error err :: events => if err =? EINTR then read_chunks events buffer else fail_system err
  end.

(** [S_ISREG] and the permission bits of a mode. *)
Definition is_regular (mode : Z) : bool := Z.land mode 0xF000 =? 0x8000.
Definition permissions_of (mode : Z) : Z := Z.land mode 0xFFF.

Definition posix_segment (name : text) (st : file_stat) : shared_memory_segment :=
  Shared_memory_segment mechanism_posix None (st_ino st) name (if 0 <? st_size st then st_size st else 0)
    (permissions_of (st_mode st)) None None None (Some (st_uid st)) (Some (st_gid st)) None None None None None.

Definition posix_queue (name : text) (st : file_stat) : message_queue :=
  Message_queue mechanism_posix None (st_ino st) name None None None None (permissions_of (st_mode st))
    (Some (st_uid st)) (Some (st_gid st)) None None None None None.

Definition posix_semaphore (name : text) (st : file_stat) : semaphore_set :=
  Semaphore_set mechanism_posix None (st_ino st) name 1 (permissions_of (st_mode st)) (Some (st_uid st))
    (Some (st_gid st)) None None.

Definition is_dots (name : text) : bool := same name (lit ".") || same name (lit "..").

(** The name of the object an entry stands for; [None] to skip it. *)
Definition shm_entry (name : text) : option text :=
  if is_dots name || starts_with (lit "sem.") name then None else Some name.

Definition mq_entry (name : text) : option text := if is_dots name then None else Some name.

Definition sem_entry (name : text) : option text :=
  if is_dots name || negb (starts_with (lit "sem.") name) then None else Some (substr_from 4 name).

(** ** The processes that hold a socket *)




Section ipc_queries.
Context {W : Type} `{Kernel W} `{IpcKernel W}.

Definition read_file_content (path : text) : query W text := fun w =>
  match open_file path w with
  | (inl err, w) => (open_failure err, w)
  | (inr events, w) => (read_chunks events [], w)
  end.

(** The walk over a directory of objects. *)
Fixpoint scan_loop {A} (dir_path : text) (entry : text -> option text) (regular_only : bool)
    (object : text -> file_stat -> A) (names : list text) : query W (list A) :=
  match names with
  | [] => mret []
  | name :: names => fun w =>
      let continue := scan_loop dir_path entry regular_only object names in
      match entry name with
      | None => continue w
      | Some object_name =>
          if negb (is_valid_utf8 object_name) then (fail errc_invalid_encoding, w)
          else
            match lstat (dir_path ++ "/"%char :: name) w with
            | (inl err, w) => if err =? ENOENT then continue w else (fail_system err, w)
            | (inr st, w) =>
                if regular_only && negb (is_regular (st_mode st)) then continue w
                else (rest ← continue; mret (object object_name st :: rest)) w
            end
      end
  end.

Definition scan_directory {A} (dir_path : text) (entry : text -> option text) (regular_only : bool)
    (object : text -> file_stat -> A) : query W (list A) := fun w =>
  match list_directory dir_path w with
  | (inl err, w) => (open_failure err, w)
  | (inr (names, errno), w) =>
      (found ← scan_loop dir_path entry regular_only object names;
       if negb (errno =? 0) then pure (fail_system errno) else mret found) w
  end.

Definition scan_posix_shm (dir_path : text) : query W (list shared_memory_segment) :=
  scan_directory dir_path shm_entry true posix_segment.

Definition scan_posix_mqueue (dir_path : text) : query W (list message_queue) :=
  scan_directory dir_path mq_entry false posix_queue.

Definition scan_posix_semaphores (dir_path : text) : query W (list semaphore_set) :=
  scan_directory dir_path sem_entry true posix_semaphore.

(** A source that may be missing. *)
Definition supported {A} (r : result A) : result (option A) :=
  match r with
  | Value v => Value (Some v)
  | Failure e => if bool_decide (e = make_error_code errc_not_supported) then Value None else Failure e
  end.

(** The objects of both sources, sorted. *)
Definition collect_objects {A} (parse : text -> result (list A)) (sysv_file : text)
    (scan : query W (list A)) (less : A -> A -> bool) : query W (list A) :=
  content ← attempt (read_file_content sysv_file);
  sysv_content ← pure (supported content);
  sysv ← pure (match sysv_content with Some c => l ← parse c; mret (Some l) | None => Value None end);
  scanned ← attempt scan;
  posix ← pure (supported scanned);
  pure (match sysv, posix with
        | None, None => fail errc_not_supported
        | _, _ => Value (std_sort less (default [] sysv ++ default [] posix))
        end).

Definition shared_memory_segments_from (sysv_file posix_dir : text) : query W (list shared_memory_segment) :=
  collect_objects parse_sysv_shm sysv_file (scan_posix_shm posix_dir) compare_shared_memory_segments.

Definition message_queues_from (sysv_file posix_dir : text) : query W (list message_queue) :=
  collect_objects parse_sysv_msg sysv_file (scan_posix_mqueue posix_dir) compare_message_queues.

Definition semaphore_sets_from (sysv_file posix_dir : text) : query W (list semaphore_set) :=
  collect_objects parse_sysv_sem sysv_file (scan_posix_semaphores posix_dir) compare_semaphore_sets.

(** A limit: the first word of a file that may be missing. *)
Definition limit (path : text) : query W (option Z) :=
  content ← attempt (read_file_content path);
  pure (found ← supported content;
        match found with
        | None => Value None
        | Some content =>
            match split_whitespace content with
            | [] => fail errc_malformed_data
            | word :: _ => v ← well_formed (parse_unsigned uint64_max 10 word); mret (Some v)
            end
        end).

(** The semaphores per set and in all: the first two words. *)
Definition semaphore_limits (path : text) : query W (option (Z * Z)) :=
  content ← attempt (read_file_content path);
  pure (found ← supported content;
        match found with
        | None => Value None
        | Some content =>
            match split_whitespace content with
            | semmsl :: semmns :: _ =>
                per_set ← well_formed (parse_unsigned uint32_max 10 semmsl);
                all ← well_formed (parse_unsigned uint64_max 10 semmns);
                mret (Some (per_set, all))
            | _ => fail errc_malformed_data
            end
        end).

Definition limits_from (sysctl_dir : text) : query W ipc_limits :=
  shmmax ← limit (sysctl_dir ++ lit "/shmmax");
  shmall ← limit (sysctl_dir ++ lit "/shmall");
  shmmni ← limit (sysctl_dir ++ lit "/shmmni");
  msgmax ← limit (sysctl_dir ++ lit "/msgmax");
  msgmnb ← limit (sysctl_dir ++ lit "/msgmnb");
  msgmni ← limit (sysctl_dir ++ lit "/msgmni");
  sem ← semaphore_limits (sysctl_dir ++ lit "/sem");
  pure (match shmmax, shmall, shmmni, msgmax, msgmnb, msgmni, sem with
        | None, None, None, None, None, None, None => fail errc_not_supported
        | _, _, _, _, _, _, _ =>
            Value (Ipc_limits shmmax shmall shmmni msgmax msgmnb msgmni (snd <$> sem) (fst <$> sem))
        end).




Definition shared_memory_segments : query W (list shared_memory_segment) :=
  shared_memory_segments_from (lit "/proc/sysvipc/shm") (lit "/dev/shm").

Definition message_queues : query W (list message_queue) :=
  message_queues_from (lit "/proc/sysvipc/msg") (lit "/dev/mqueue").

Definition semaphore_sets : query W (list semaphore_set) :=
  semaphore_sets_from (lit "/proc/sysvipc/sem") (lit "/dev/shm").



Definition limits : query W ipc_limits := limits_from (lit "/proc/sys/kernel").

End ipc_queries.

(** ** The owners of a socket *)

Section socket_owners.
Context {W : Type} `{Kernel W} `{IpcKernel W}.

(** Looking at the system does not change it. *)
Variable w : W.
Context (list_quiet : forall path, snd (list_directory path w) = w).
Context (read_quiet : forall path, snd (readlink path w) = w).













End socket_owners.

Section ipc_results.
Context {W : Type} `{Kernel W} `{IpcKernel W}.



(** What an object from either source is. *)
Definition object_ok (mechanism : ipc_mechanism) (key : option Z) (name : text) (permissions : Z) : Prop :=
  match mechanism with
  | mechanism_sysv => is_Some key /\ name = [] /\ 0 <= permissions <= uint32_max
  | mechanism_posix => key = None /\ is_valid_utf8 name = true /\ 0 <= permissions < 4096
  | _ => False
  end.

Lemma permissions_bound mode : 0 <= permissions_of mode < 4096.
Proof.
  unfold permissions_of. change 0xFFF with (Z.ones 12). rewrite Z.land_ones by lia. by apply Z.mod_pos_bound.
Qed.

Lemma scan_loop_yields {A} dir entry regular (object : text -> file_stat -> A) (P : A -> Prop) names :
  (forall name st, is_valid_utf8 name = true -> P (object name st)) ->
  yields (scan_loop (W := W) dir entry regular object names) (Forall P).
Proof.
  intros HP. induction names as [|name names IH]; intros w v w'; cbn [scan_loop]; [by intros [= <- _]|].
  destruct (entry name) as [shown|]; [|apply IH]. destruct (is_valid_utf8 shown) eqn:Eu; [|done]. cbn [negb].
  destruct (lstat _ w) as [[err|st] w1]; [split_if; [apply IH|done]|]. split_if; [apply IH|]. intros Hv. revert Hv.
  eapply yields_bind; [apply IH|]. intros rest Hr. apply yields_ret. constructor; [by apply HP|done].
Qed.

Lemma scan_directory_yields {A} dir entry regular (object : text -> file_stat -> A) (P : A -> Prop) :
  (forall name st, is_valid_utf8 name = true -> P (object name st)) ->
  yields (scan_directory (W := W) dir entry regular object) (Forall P).
Proof.
  intros HP w v w'. unfold scan_directory. destruct (list_directory dir w) as [[err|[names errno]] w1].
  - unfold open_failure. by repeat split_if.
  - intros Hv. revert Hv. eapply yields_bind; [by apply scan_loop_yields|]. intros found Hf. split_if; [by apply yields_pure|].
    by apply yields_ret.
Qed.

Lemma collect_objects_yields {A} parse sysv_file (scan : query W (list A)) less key (P : A -> Prop) :
  (forall a b, less a b = lexicographic (key a) (key b)) ->
  (forall content l, parse content = Value l -> Forall P l) -> yields scan (Forall P) ->
  yields (collect_objects parse sysv_file scan less) (fun l => StronglySorted (not_after less) l /\ Forall P l).
Proof.
  intros Hless Hparse Hscan. unfold collect_objects. apply yields_skip. intros content. apply yields_pure_bind.
  intros found _. apply yields_pure_bind. intros sysv Hsysv.
  apply yields_bind with (Q := fun r => forall v, r = Value v -> Forall P v).
  - intros w r w'. unfold attempt. destruct (scan w) as [r0 w1] eqn:Es. intros [= <- _] v ->. by apply Hscan in Es.
  - intros scanned Hscanned. apply yields_pure_bind. intros posix Hposix.
    assert (Forall P (default [] sysv)) as H1.
    { destruct found as [c|]; [|by injection Hsysv as <-].
      apply bind_value in Hsysv as (l & Hl & [= <-]). by apply Hparse in Hl. }
    assert (Forall P (default [] posix)) as H2.
    { unfold supported in Hposix. destruct scanned as [v|e]; [injection Hposix as <-; by apply Hscanned|].
      case_bool_decide; [by injection Hposix as <-|done]. }
    apply yields_pure. intros l Hl. assert (l = std_sort less (default [] sysv ++ default [] posix)) as ->
      by (by destruct sysv, posix; first [discriminate Hl|injection Hl as <-]).
    split; [by apply (std_sort_key_sorted _ key)|]. rewrite std_sort_permutation. by apply Forall_app.
Qed.

Lemma row_denotes_ok {A} columns (of_values : (nat -> Z) -> A) line r :
  row_denotes columns of_values line r ->
  exists values, length values = length columns /\ r = of_values (fun i => nth i values 0) /\
    forall i max base, columns !! i = Some (unsigned_column max base) -> 0 < base -> 0 <= nth i values 0 <= max.
Proof.
  intros (words & rest & values & _ & Hf & ->). exists values. split_and!; [|done|].
  - by apply Forall3_length_lr in Hf.
  - intros i max base Hi Hb. destruct (Forall3_lookup_l _ _ _ _ _ _ Hf Hi) as (w & v & _ & Hv & [[_ Hn] Hm]).
    rewrite (nth_lookup_Some _ _ _ _ Hv). split; [|done]. subst v. by apply numeral_nonneg.
Qed.

Lemma table_denotes_all {A} header (row : text -> A -> Prop) (P : A -> Prop) content l :
  (forall line r, row line r -> P r) -> table_denotes header row content l -> Forall P l.
Proof.
  intros HP (first & lines & _ & _ & Hl). induction Hl; constructor; [by eapply HP|done].
Qed.

(** The shared memory segments, the message queues and the semaphore sets
    are each listed in the order of mechanism, key, identifier and name, and
    are of one of two kinds: an object of the System V table, which has a key,
    no name and permissions of its column; or an object of the directory, which
    has no key, a name in UTF-8 and the twelve permission bits of its mode. *)
Theorem ipc_objects_listed (w w' : W) :
  (forall l, shared_memory_segments w = (Value l, w') ->
     StronglySorted (not_after compare_shared_memory_segments) l /\
     Forall (fun s => object_ok (shm_mechanism s) (shm_key s) (shm_name s) (shm_permissions s)) l) /\
  (forall l, message_queues w = (Value l, w') ->
     StronglySorted (not_after compare_message_queues) l /\
     Forall (fun s => object_ok (mq_mechanism s) (mq_key s) (mq_name s) (mq_permissions s)) l) /\
  (forall l, semaphore_sets w = (Value l, w') ->
     StronglySorted (not_after compare_semaphore_sets) l /\
     Forall (fun s => object_ok (sem_mechanism s) (sem_key s) (sem_name s) (sem_permissions s)) l).
Proof.
  split_and!; intros l.
  - eapply (collect_objects_yields _ _ _ _ shm_order (fun s => object_ok (shm_mechanism s) (shm_key s) (shm_name s) (shm_permissions s)));
      [apply compare_shm_key| |].
    + intros content k. intros Hk. apply (parse_table_spec _ _ _ _ _ shm_row_spec) in Hk. revert Hk.
      apply table_denotes_all. intros line r (v & _ & -> & Hv)%row_denotes_ok. split_and!; [by eexists|done|..];
      by apply (Hv 2%nat uint32_max 8).
    + apply scan_directory_yields. intros name st Hu. split_and!; [done|done|apply permissions_bound..].
  - eapply (collect_objects_yields _ _ _ _ mq_order (fun s => object_ok (mq_mechanism s) (mq_key s) (mq_name s) (mq_permissions s)));
      [apply compare_mq_key| |].
    + intros content k. intros Hk. apply (parse_table_spec _ _ _ _ _ msg_row_spec) in Hk. revert Hk.
      apply table_denotes_all. intros line r (v & _ & -> & Hv)%row_denotes_ok. split_and!; [by eexists|done|..];
      by apply (Hv 2%nat uint32_max 8).
    + apply scan_directory_yields. intros name st Hu. split_and!; [done|done|apply permissions_bound..].
  - eapply (collect_objects_yields _ _ _ _ sem_order (fun s => object_ok (sem_mechanism s) (sem_key s) (sem_name s) (sem_permissions s)));
      [apply compare_sem_key| |].
    + intros content k. intros Hk. apply (parse_table_spec _ _ _ _ _ sem_row_spec) in Hk. revert Hk.
      apply table_denotes_all. intros line r (v & _ & -> & Hv)%row_denotes_ok. split_and!; [by eexists|done|..];
      by apply (Hv 2%nat uint32_max 8).
    + apply scan_directory_yields. intros name st Hu. split_and!; [done|done|apply permissions_bound..].
Qed.

End ipc_results.

(** ** A small system *)

Definition lines_text (l : list string) : string :=
  String.string_of_list_ascii (concat ((fun line => lit line ++ [ch_lf]) <$> l)).

Definition ipc_files : list (string * string) := [
  ("/proc/net/unix", lines_text ["Num RefCount Protocol Flags Type St Inode Path";
     "0000: 00000002 00000000 00010000 0001 01 17 /run/b"; "0000: 00000003 00000000 00000000 0002 03 18 /run/a"]);
  ("/proc/sysvipc/shm", lines_text ["key shmid perms size cpid lpid nattch uid gid cuid cgid atime dtime ctime";
     "5 1 600 4096 7 0 1 0 0 0 0 0 0 3"]);
  ("/proc/sysvipc/msg", lines_text ["key msqid perms cbytes qnum lspid lrpid uid gid cuid cgid stime rtime ctime"])
  ]%string.

Definition ipc_kernel : Kernel unit :=
  listing_kernel ipc_files [("/proc", ["self"; "9"; "4"]); ("/proc/9/fd", ["."; "0"; "1"]); ("/proc/4/fd", ["3"]);
    ("/dev/shm", [".."; "sem.s"; "pad"])]%string.

Definition ipc_machine : IpcKernel unit := {|
  lstat path w := (inr (File_stat 33 10 0x81A4 1000 100), w);
  readlink path w :=
    (if bool_decide (path = lit "/proc/9/fd/1") || bool_decide (path = lit "/proc/4/fd/3")
     then Some (lit "socket:[17]") else Some (lit "/dev/null"), w)
|}.



Definition sample_segments : list shared_memory_segment :=
  [Shared_memory_segment mechanism_posix None 33 (lit "pad") 10 420 None None None (Some 1000) (Some 100) None None
     None None None;
   Shared_memory_segment mechanism_sysv (Some 5) 1 [] 4096 384 (Some 1) (Some 0) (Some 0) (Some 0) (Some 0) (Some 7)
     None None None (Some 3)].

Lemma ipc_objects_listed_witness :
  @shared_memory_segments unit ipc_kernel ipc_machine tt = (Value sample_segments, tt) /\
  @message_queues unit ipc_kernel ipc_machine tt = (Value [], tt) /\
  StronglySorted (not_after compare_shared_memory_segments) sample_segments /\
  Forall (fun s => object_ok (shm_mechanism s) (shm_key s) (shm_name s) (shm_permissions s)) sample_segments.
Proof.
  assert (@shared_memory_segments unit ipc_kernel ipc_machine tt = (Value sample_segments, tt)) as Hl
    by (vm_compute; reflexivity).
  split; [exact Hl|]. split; [vm_compute; reflexivity|].
  exact (proj1 (@ipc_objects_listed unit ipc_kernel ipc_machine tt tt) sample_segments Hl).
Defined.
