(* ===== verification/Security.v ===== *)
(** * Security: states, parsers and classifications

    [include/syscape/detail/security/common.hpp] with the records of
    [include/syscape/security.hpp], and the reader of process capabilities of
    [include/syscape/detail/security/linux.hpp].  The other queries are in
    [SecurityLinux]. *)
From S2P Require Import Prelude Result CppText Utf8 System Buffer.

(** ** security.hpp *)

Inductive secure_boot_state := boot_unknown | boot_enabled | boot_disabled | boot_audit.
Inductive tpm_version := tpm_unknown | tpm_none | v1_2 | v2_0 | tpm_other.
Inductive lockdown_mode := lockdown_unknown | lockdown_none | integrity | confidentiality.
Inductive aslr_mode := aslr_unknown | aslr_disabled | aslr_partial | aslr_full.

Inductive mitigation_status :=
  | mitigation_unknown | not_affected | mitigated | vulnerable | mitigation_disabled.

Inductive encryption_state := state_unknown | unencrypted | encrypted | mixed.

Inductive encryption_type :=
  | type_unknown | type_none | luks | bitlocker | filevault | fscrypt | dm_crypt | type_other.

#[global] Instance encryption_state_eq_dec : EqDecision encryption_state.
Proof. solve_decision. Defined.

#[global] Instance encryption_type_eq_dec : EqDecision encryption_type.
Proof. solve_decision. Defined.

#[global] Instance secure_boot_state_eq_dec : EqDecision secure_boot_state.
Proof. solve_decision. Defined.

Record cpu_vulnerability_entry := Cpu_vulnerability_entry {
  vulnerability_name : text;
  status : mitigation_status;
  raw_description : text
}.

Record process_capabilities := Process_capabilities {
  effective : list text;
  permitted : list text;
  inheritable : list text;
  bounding : list text;
  ambient : list text
}.

Record privilege_entry := Privilege_entry {
  privilege_name : text;
  enabled : bool;
  enabled_by_default : bool
}.

(** No query records a cipher or a key size. *)
Record volume_encryption_info := Volume_encryption_info {
  path_or_device : text;
  volume_state : encryption_state;
  volume_type : encryption_type;
  cipher : option text;
  key_size_bits : option Z
}.

Record tpm_info := Tpm_info {
  present : bool;
  version : tpm_version;
  version_string : text;
  device_id : option text;
  description : option text
}.

(** ** common.hpp *)

Definition security_blank (c : ascii) : bool :=
  is_char c " " || is_char c ch_tab || is_char c ch_cr || is_char c ch_lf.

Definition trim_whitespace (input : text) : text := trim security_blank input.

(** The payload is a text: the bytes a file holds. *)
Definition parse_efivar_secure_boot_payload (data : text) : result secure_boot_state :=
  let decide (v : ascii) :=
    if code v =? 1 then Value boot_enabled
    else if code v =? 0 then Value boot_disabled
    else fail errc_malformed_data in
  match data with
  | [_; _; _; _; v] => decide v
  | [v] => decide v
  | _ => fail errc_malformed_data
  end.

Definition parse_lockdown_line (input : text) : result lockdown_mode :=
  match find "[" input 0 with
  | None => fail errc_malformed_data
  | Some open_pos =>
      match find "]" input (S open_pos) with
      | None => fail errc_malformed_data
      | Some close_pos =>
          let mode_str := trim_whitespace (substr (S open_pos) (close_pos - open_pos - 1) input) in
          if empty mode_str then fail errc_malformed_data
          else if same mode_str (lit "none") then Value lockdown_none
          else if same mode_str (lit "integrity") then Value integrity
          else if same mode_str (lit "confidentiality") then Value confidentiality
          else Value lockdown_unknown
      end
  end.

(** The first line that starts with the key and an equals sign; empty without
    one. *)
Definition uevent_line (key line : text) (s : unit) : step unit text :=
  if (length key <? length line)%nat && starts_with key line && is_char (nth (length key) line ch_nul) "="
  then Return (trim_whitespace (substr_from (S (length key)) line))
  else Next s.

Definition find_uevent_value (input key : text) : text :=
  match each_field ch_lf input (uevent_line key) tt with Next _ => [] | Return v => v end.

Definition list_separator (c : ascii) : bool := is_char c "," || security_blank c.

(** [find_first_of(", \t\r\n", start)]: the loop over what the separators
    enclose, with the tokens seen before left out.  One unit of fuel is one
    token. *)
Fixpoint lsm_loop (fuel : nat) (input : text) (start : nat) (found : list text) : list text :=
  match fuel with
  | O => found
  | S fuel =>
      if (start <? length input)%nat then
        let sep := find_first list_separator (drop start input) in
        let token_len := match sep with Some n => n | None => (length input - start)%nat end in
        let token := trim_whitespace (substr start token_len input) in
        let found := if empty token then found else if bool_decide (token ∈ found) then found else found ++ [token] in
        match sep with
        | None => found
        | Some n => lsm_loop fuel input (S (start + n)) found
        end
      else found
  end.

Definition parse_lsm_string (input : text) : list text := lsm_loop (S (length input)) input 0 [].

Definition parse_tpm_version_string (input : text) : tpm_version * text :=
  let trimmed := trim_whitespace input in
  if empty trimmed then (tpm_unknown, [])
  else if same trimmed (lit "2") || same trimmed (lit "2.0") then (v2_0, lit "2.0")
  else if same trimmed (lit "1") || same trimmed (lit "1.2") then (v1_2, lit "1.2")
  else (tpm_other, trimmed).

Definition parse_aslr_mode (input : text) : result aslr_mode :=
  let trimmed := trim_whitespace input in
  if empty trimmed then fail errc_malformed_data
  else if same trimmed (lit "0") then Value aslr_disabled
  else if same trimmed (lit "1") then Value aslr_partial
  else if same trimmed (lit "2") then Value aslr_full
  else if forallb (fun c => (48 <=? code c) && (code c <=? 57)) trimmed then Value aslr_unknown
  else fail errc_malformed_data.

(** Both are in the lower case of ASCII when they are compared. *)
Fixpoint starts_with_ci (str prefix : text) : bool :=
  match prefix, str with
  | [], _ => true
  | b :: prefix, a :: str => if negb (tolower a =? tolower b) then false else starts_with_ci str prefix
  | _ :: _, [] => false
  end.

(** Some suffix starts with the text. *)
Fixpoint contains_ci (str sub : text) : bool :=
  starts_with_ci str sub || match str with [] => false | _ :: str => contains_ci str sub end.

Definition parse_vulnerability_status (input : text) : mitigation_status :=
  let trimmed := trim_whitespace input in
  let starts prefix := starts_with_ci trimmed (lit prefix) in
  let contains sub := contains_ci trimmed (lit sub) in
  if empty trimmed then mitigation_unknown
  else if starts "not affected"%string || starts "kvm: not affected"%string then not_affected
  else if starts "mitigation: disabled"%string || starts "disabled"%string then mitigation_disabled
  else if starts "mitigation:"%string || starts "mitigated"%string || starts "kvm: mitigation:"%string ||
          starts "kvm: mitigated"%string then mitigated
  else if starts "vulnerable"%string || starts "kvm: vulnerable"%string then vulnerable
  else if contains "not affected"%string then not_affected
  else if contains "mitigation: disabled"%string || contains "disabled"%string then mitigation_disabled
  else if contains "mitigation:"%string || contains "mitigated"%string then mitigated
  else if contains "vulnerable"%string then vulnerable
  else mitigation_unknown.

Definition hex_value (c : ascii) : option Z :=
  let n := code c in
  if (48 <=? n) && (n <=? 57) then Some (n - 48)
  else if (97 <=? n) && (n <=? 102) then Some (n - 97 + 10)
  else if (65 <=? n) && (n <=? 70) then Some (n - 65 + 10)
  else None.

Fixpoint hex_loop (l : text) (v : Z) : result Z :=
  match l with
  | [] => Value v
  | c :: l =>
      match hex_value c with
      | None => fail errc_malformed_data
      | Some digit =>
          if Z.shiftr uint64_max 4 <? v then fail errc_value_too_large
          else hex_loop l (Z.lor (wrap 64 (Z.shiftl v 4)) digit)
      end
  end.

Definition has_hex_prefix (t : text) : bool :=
  match t with a :: b :: _ => is_char a "0" && (is_char b "x" || is_char b "X") | _ => false end.

Definition parse_hex_u64 (input : text) : result Z :=
  let trimmed := trim_whitespace input in
  if empty trimmed then fail errc_malformed_data
  else
    let start := if has_hex_prefix trimmed then 2%nat else 0%nat in
    if (length trimmed <=? start)%nat then fail errc_malformed_data
    else hex_loop (drop start trimmed) 0.

Definition k_cap_names : list text := lit <$> [
  "cap_chown"; "cap_dac_override"; "cap_dac_read_search"; "cap_fowner"; "cap_fsetid"; "cap_kill"; "cap_setgid";
  "cap_setuid"; "cap_setpcap"; "cap_linux_immutable"; "cap_net_bind_service"; "cap_net_broadcast"; "cap_net_admin";
  "cap_net_raw"; "cap_ipc_lock"; "cap_ipc_owner"; "cap_sys_module"; "cap_sys_rawio"; "cap_sys_chroot";
  "cap_sys_ptrace"; "cap_sys_pacct"; "cap_sys_admin"; "cap_sys_boot"; "cap_sys_nice"; "cap_sys_resource";
  "cap_sys_time"; "cap_sys_tty_config"; "cap_mknod"; "cap_lease"; "cap_audit_write"; "cap_audit_control";
  "cap_setfcap"; "cap_mac_override"; "cap_mac_admin"; "cap_syslog"; "cap_wake_alarm"; "cap_block_suspend";
  "cap_audit_read"; "cap_perfmon"; "cap_bpf"; "cap_checkpoint_restore"]%string.

Definition cap_name (bit : nat) : text :=
  match k_cap_names !! bit with Some name => name | None => lit "cap_" ++ to_decimal (Z.of_nat bit) end.

Definition bit_set (mask : Z) (bit : nat) : bool := negb (Z.land mask (wrap 64 (Z.shiftl 1 (Z.of_nat bit))) =? 0).

Definition decode_linux_capabilities (mask : Z) : list text :=
  cap_name <$> filter (fun bit => bit_set mask bit = true) (seq 0 64).

Definition parse_dm_uuid_encryption (uuid : text) : encryption_state * encryption_type :=
  let trimmed := trim_whitespace uuid in
  if starts_with (lit "CRYPT-LUKS2-") trimmed || starts_with (lit "CRYPT-LUKS1-") trimmed ||
     starts_with (lit "CRYPT-LUKS-") trimmed then (encrypted, luks)
  else if starts_with (lit "CRYPT-PLAIN-") trimmed then (encrypted, dm_crypt)
  else if starts_with (lit "CRYPT-") trimmed then (encrypted, type_other)
  else (state_unknown, type_unknown).

Definition octal_value (c : ascii) : option Z :=
  if (48 <=? code c) && (code c <=? 55) then Some (code c - 48) else None.

(** The character an escape at this position stands for. *)
Definition octal_escape (t : text) : option ascii :=
  match t with
  | b :: d1 :: d2 :: d3 :: _ =>
      if is_char b "\" then
        h ← octal_value d1; m ← octal_value d2; l ← octal_value d3;
        Some (char_of (wrap 8 (Z.lor (Z.lor (Z.shiftl h 6) (Z.shiftl m 3)) l)))
      else None
  | _ => None
  end.

(** [skip] is how many characters of an escape are still to be skipped. *)
Fixpoint decode_mount_loop (skip : nat) (l : text) : text :=
  match l with
  | [] => []
  | c :: l' =>
      match skip with
      | S skip => decode_mount_loop skip l'
      | O =>
          match octal_escape l with
          | Some d => d :: decode_mount_loop 3 l'
          | None => c :: decode_mount_loop 0 l'
          end
      end
  end.

Definition decode_mount_entry (input : text) : text := decode_mount_loop 0 input.

(** ** linux.hpp: the capabilities of a process *)

Record cap_masks := Cap_masks {
  inh_mask : option Z;
  prm_mask : option Z;
  eff_mask : option Z;
  bnd_mask : option Z;
  amb_mask : option Z
}.

Definition no_masks : cap_masks := Cap_masks None None None None None.

(** The mask of a key that starts with [Cap]; other keys are left alone. *)
Definition caps_entry (key val_str : text) (m : cap_masks) : result cap_masks :=
  let parsed (k : Z -> cap_masks) := v ← parse_hex_u64 val_str; mret (k v) in
  if same key (lit "CapInh") then
    parsed (fun v => Cap_masks (Some v) (prm_mask m) (eff_mask m) (bnd_mask m) (amb_mask m))
  else if same key (lit "CapPrm") then
    parsed (fun v => Cap_masks (inh_mask m) (Some v) (eff_mask m) (bnd_mask m) (amb_mask m))
  else if same key (lit "CapEff") then
    parsed (fun v => Cap_masks (inh_mask m) (prm_mask m) (Some v) (bnd_mask m) (amb_mask m))
  else if same key (lit "CapBnd") then
    parsed (fun v => Cap_masks (inh_mask m) (prm_mask m) (eff_mask m) (Some v) (amb_mask m))
  else if same key (lit "CapAmb") then
    parsed (fun v => Cap_masks (inh_mask m) (prm_mask m) (eff_mask m) (bnd_mask m) (Some v))
  else Value m.

Definition caps_line (line_view : text) (m : cap_masks) : result cap_masks :=
  match find ":" line_view 0 with
  | None => Value m
  | Some colon =>
      let key := trim_whitespace (substr 0 colon line_view) in
      if starts_with (lit "Cap") key
      then caps_entry key (trim_whitespace (substr_from (S colon) line_view)) m
      else Value m
  end.

(** The loop over a buffer of bytes just read: the lines that end in it are
    processed, the first after what the line held before; what follows the last
    line feed is kept.  One unit of fuel is one line. *)
Fixpoint chunk_loop (fuel : nat) (buffer : text) (offset : nat) (current_line : text) (m : cap_masks)
    : result (text * cap_masks) :=
  match fuel with
  | O => Value (current_line, m)
  | S fuel =>
      if (offset <? length buffer)%nat then
        match find_first (is_char ch_lf) (drop offset buffer) with
        | Some newline_pos =>
            m ← caps_line (current_line ++ substr offset newline_pos buffer) m;
            chunk_loop fuel buffer (offset + newline_pos + 1) [] m
        | None => Value (current_line ++ drop offset buffer, m)
        end
      else Value (current_line, m)
  end.

(** The loop over what [read] delivers.  At the end of the file a line without
    a line feed is looked at through a view of [current_line] after
    [current_line.clear()], which invalidates the view: no result. *)
Fixpoint read_capabilities (events : list read_event) (current_line : text) (m : cap_masks) : checked cap_masks :=
  match events with
  | [] | Read_bytes [] :: _ => if empty current_line then mret m else None
  | Read_bytes buffer :: events =>
      '(current_line, m) ← check (chunk_loop (S (length buffer)) buffer 0 current_line m);
      read_capabilities events current_line m
  | Read_error errno :: events =>
      if errno =? EINTR then read_capabilities events current_line m else check (fail_native errno)
  end.

Definition names_of (mask : option Z) : list text :=
  match mask with Some mask => decode_linux_capabilities mask | None => [] end.

Definition capabilities_of (m : cap_masks) : result process_capabilities :=
  match inh_mask m, prm_mask m, eff_mask m with
  | None, None, None => fail errc_malformed_data
  | _, _, _ =>
      Value (Process_capabilities (names_of (eff_mask m)) (names_of (prm_mask m)) (names_of (inh_mask m))
        (names_of (bnd_mask m)) (names_of (amb_mask m)))
  end.

(** ** The complete lines of a text, and what follows the last *)

Fixpoint split_lines (t : text) : list text * text :=
  match t with
  | [] => ([], [])
  | c :: t =>
      match split_lines t with
      | (lines, rest) =>
          if is_char ch_lf c then ([] :: lines, rest)
          else match lines with
               | l :: lines => ((c :: l) :: lines, rest)
               | [] => ([], c :: rest)
               end
      end
  end.

Lemma split_lines_none t : ch_lf ∉ t -> split_lines t = ([], t).
Proof.
  induction t as [|c t IH]; intros Hn; [done|]. apply not_elem_of_cons in Hn as [Hc Ht]. cbn [split_lines].
  rewrite IH by done. by rewrite (proj2 (is_char_false _ _)).
Qed.

Lemma split_lines_line l t :
  ch_lf ∉ l -> split_lines (l ++ ch_lf :: t) = (l :: fst (split_lines t), snd (split_lines t)).
Proof.
  induction l as [|c l IH]; intros Hn; cbn [app split_lines].
  - by destruct (split_lines t).
  - apply not_elem_of_cons in Hn as [Hc Hl]. rewrite IH by done. by rewrite (proj2 (is_char_false _ _)).
Qed.

Lemma no_lf_find l : find_first (is_char ch_lf) l = None -> ch_lf ∉ l.
Proof. rewrite find_first_none, Forall_forall. intros Hf Hin. by apply Hf, is_char_false in Hin. Qed.

Lemma chunk_loop_lines fuel buffer offset current m :
  (length buffer < fuel + offset)%nat -> ch_lf ∉ current ->
  chunk_loop fuel buffer offset current m =
  (m' ← fold_result caps_line (fst (split_lines (current ++ drop offset buffer))) m;
   Value (snd (split_lines (current ++ drop offset buffer)), m')).
Proof.
  revert offset current m. induction fuel as [|fuel IH]; intros offset current m Hf Hc; cbn [chunk_loop].
  - by rewrite drop_ge, app_nil_r, split_lines_none by (done || lia).
  - destruct (Nat.ltb_spec offset (length buffer)); [|by rewrite drop_ge, app_nil_r, split_lines_none by (done || lia)].
    destruct (find_first (is_char ch_lf) (drop offset buffer)) as [i|] eqn:E.
    + destruct (find_first_split _ _ _ E) as (c & Hl & <-%is_char_true & Hn).
      set (line := take i (drop offset buffer)) in *.
      assert (ch_lf ∉ current ++ line) as Hline.
      { intros [?|Hin]%elem_of_app; [done|]. rewrite Forall_forall in Hn. by apply Hn, is_char_false in Hin. }
      rewrite Hl, app_assoc, split_lines_line by done. cbn [fst snd fold_result]. unfold substr. fold line.
      destruct (caps_line (current ++ line) m) as [m1|e]; [|done]. cbn [mbind result_bind].
      rewrite IH; [|lia|by intros ?%elem_of_nil].
      cbn [app]. rewrite drop_drop. by replace (offset + i + 1)%nat with (offset + S i)%nat by lia.
    + rewrite split_lines_none; [done|]. apply no_lf_find in E. intros [?|?]%elem_of_app; done.
Qed.

Lemma split_lines_rest t : ch_lf ∉ snd (split_lines t).
Proof.
  induction t as [|c t IH]; cbn [split_lines]; [by intros ?%elem_of_nil|]. destruct (split_lines t) as [lines rest].
  destruct (is_char ch_lf c) eqn:E; [done|]. destruct lines; cbn in *; [|done].
  intros [Heq|?]%elem_of_cons; [|done]. apply is_char_false in E. congruence.
Qed.

Lemma split_lines_app a b :
  split_lines (a ++ b) =
  (fst (split_lines a) ++ fst (split_lines (snd (split_lines a) ++ b)), snd (split_lines (snd (split_lines a) ++ b))).
Proof.
  induction a as [|c a IH]; cbn [app split_lines fst snd]; [by destruct (split_lines b)|]. rewrite IH.
  destruct (split_lines a) as [la ra]. cbn [fst snd]. destruct (is_char ch_lf c) eqn:E; [done|].
  destruct la as [|l la]; [|done]. cbn [app fst snd split_lines]. destruct (split_lines (ra ++ b)) as [lb rb]. cbn [fst snd].
  rewrite E. by destruct lb.
Qed.

Lemma fold_result_app {S A} (f : A -> S -> result S) l k s :
  fold_result f (l ++ k) s = (s' ← fold_result f l s; fold_result f k s').
Proof. revert s. induction l as [|x l IH]; intros s; [done|]. cbn. destruct (f x s); [apply IH|done]. Qed.

Lemma read_capabilities_lines events current m :
  ch_lf ∉ current ->
  read_capabilities events current m =
  (let (content, errno) := delivered events in
   let (lines, rest) := split_lines (current ++ content) in
   m' ← check (fold_result caps_line lines m);
   match errno with
   | Some errno => check (fail_native errno)
   | None => if empty rest then mret m' else None
   end).
Proof.
  revert current m. induction events as [|[chunk|errno] events IH]; intros current m Hc; cbn [read_capabilities delivered].
  - rewrite app_nil_r, split_lines_none by done. done.
  - destruct chunk as [|c chunk]; [rewrite app_nil_r, split_lines_none by done; done|].
    rewrite chunk_loop_lines by (lia || done). rewrite drop_0. set (buffer := c :: chunk).
    pose proof (split_lines_rest (current ++ buffer)) as Hrest.
    destruct (delivered events) as [content errno]. rewrite app_assoc, (split_lines_app (current ++ buffer)).
    destruct (split_lines (current ++ buffer)) as [lines rest]. cbn [fst snd] in *. rewrite fold_result_app.
    destruct (fold_result caps_line lines m) as [m1|e]; [|done]. cbn.
    rewrite IH by done. by destruct (split_lines (rest ++ content)).
  - destruct (errno =? EINTR); [by apply IH|]. rewrite app_nil_r, split_lines_none by done. done.
Qed.

(** C21: whatever pieces the status file is read in and however often a read is
    interrupted, the capabilities are those of its complete lines, read one
    after the other; a read that fails after them is reported; and the outcome
    is undefined exactly when the lines are fine but the file does not end with
    a line feed, because the last line is then looked at in a cleared string. *)
Theorem read_capabilities_spec (events : list read_event) (content : text) (errno : option Z) (lines : list text)
    (rest : text) :
  delivered events = (content, errno) -> split_lines content = (lines, rest) ->
  read_capabilities events [] no_masks =
  match fold_result caps_line lines no_masks, errno with
  | Failure e, _ => check (Failure e)
  | Value _, Some errno => check (fail_native errno)
  | Value m, None => if empty rest then mret m else None
  end.
Proof.
  intros Hd Hs. rewrite read_capabilities_lines by by intros ?%elem_of_nil. rewrite Hd. cbn [app]. rewrite Hs.
  by destruct (fold_result caps_line lines no_masks), errno.
Qed.

Definition status_events : list read_event :=
  [Read_bytes (lit "Name: x" ++ [ch_lf] ++ lit "CapE"); Read_error EINTR; Read_bytes (lit "ff: 5" ++ [ch_lf])].

Lemma read_capabilities_spec_witness :
  read_capabilities status_events [] no_masks = mret (Cap_masks None None (Some 5) None None) /\
  read_capabilities [Read_bytes (lit "CapEff: 5")] [] no_masks = None.
Proof.
  split.
  - exact (read_capabilities_spec status_events _ None [lit "Name: x"; lit "CapEff: 5"] [] eq_refl eq_refl).
  - exact (read_capabilities_spec [Read_bytes (lit "CapEff: 5")] _ None [] (lit "CapEff: 5") eq_refl eq_refl).
Defined.

(** ** Masks *)

Lemma hex_value_digit c : hex_value c = digit_of 16 c.
Proof.
  destruct c as [b0 b1 b2 b3 b4 b5 b6 b7]. by destruct b0, b1, b2, b3, b4, b5, b6, b7.
Qed.

Lemma hex_digit_bound c d : hex_value c = Some d -> 0 <= d < 16.
Proof. rewrite hex_value_digit. intros Hd. by apply digit_of_bound in Hd. Qed.

Lemma hex_step v d :
  0 <= v <= uint64_max / 16 -> 0 <= d < 16 -> Z.lor (wrap 64 (Z.shiftl v 4)) d = v * 16 + d.
Proof.
  intros Hv Hd. rewrite Z.shiftl_mul_pow2 by lia. change (2 ^ 4) with 16.
  assert (v * 16 <= uint64_max) by (revert Hv; div_lia). unfold wrap. rewrite Z.mod_small by (unfold_bounds; lia).
  rewrite (lor_add 4) by first [lia|by apply Z.mod_mul]. lia.
Qed.

Lemma hex_loop_value l v :
  0 <= v <= uint64_max -> forallb (is_digit_in 16) l = true ->
  hex_loop l v = if hex_digits_value l v <=? uint64_max then Value (hex_digits_value l v) else fail errc_value_too_large.
Proof.
  unfold hex_digits_value.
  revert v. induction l as [|c l IH]; intros v Hv; cbn [forallb hex_loop digit_run].
  - intros _. cbn [foldl]. by rewrite (proj2 (Z.leb_le _ _)) by lia.
  - intros [Hc Hl]%andb_true_iff. rewrite hex_value_digit. unfold is_digit_in in Hc.
    destruct (digit_of 16 c) as [d|] eqn:Ed; [|done]. apply digit_of_bound in Ed. cbn [foldl].
    change (Z.shiftr uint64_max 4) with (uint64_max / 16).
    pose proof (hex_digits_value_ge l (v * 16 + d) ltac:(lia)) as Hge. unfold hex_digits_value in Hge.
    destruct (Z.ltb_spec (uint64_max / 16) v) as [Hbig|Hsmall].
    + rewrite (proj2 (Z.leb_gt _ _)); [done|]. assert (uint64_max < v * 16); [revert Hbig; div_lia|lia].
    + rewrite hex_step by lia. apply IH; [|done]. assert (v * 16 + d <= uint64_max); [|lia].
      assert (v <= uint64_max / 16) by lia. unfold_bounds. change (18446744073709551615 / 16) with 1152921504606846975 in *. lia.
Qed.

Lemma hex_loop_malformed l v d :
  hex_loop l v = Value d -> forallb (is_digit_in 16) l = true.
Proof.
  revert v. induction l as [|c l IH]; intros v; cbn [hex_loop forallb]; [done|]. rewrite hex_value_digit.
  unfold is_digit_in at 1. destruct (digit_of 16 c); [|done]. split_if; [done|]. apply IH.
Qed.

(** The digits of a mask, after white space and an optional prefix. *)
Definition hex_digits_of (t : text) : text :=
  let trimmed := trim_whitespace t in if has_hex_prefix trimmed then drop 2 trimmed else trimmed.

(** A mask parses exactly when it consists of hexadecimal digits whose value
    fits 64 bits, with white space around and [0x] before them allowed, and
    then to that value; digits whose value does not fit are [value_too_large]. *)
Theorem parse_hex_u64_spec (t : text) :
  (forall v, parse_hex_u64 t = Value v <->
     numeric 16 (hex_digits_of t) = true /\ v = numeral 16 (hex_digits_of t) /\ v <= uint64_max) /\
  (numeric 16 (hex_digits_of t) = true -> uint64_max < numeral 16 (hex_digits_of t) ->
     parse_hex_u64 t = fail errc_value_too_large).
Proof.
  unfold parse_hex_u64, hex_digits_of. cbv zeta. set (trimmed := trim_whitespace t).
  assert (forall l, l <> [] -> (forall v, hex_loop l 0 = Value v <->
     numeric 16 l = true /\ v = numeral 16 l /\ v <= uint64_max) /\
     (numeric 16 l = true -> uint64_max < numeral 16 l -> hex_loop l 0 = fail errc_value_too_large)) as Hl.
  { intros l Hne. split; [intros v; split|].
    - intros Hv. pose proof (hex_loop_malformed _ _ _ Hv) as Hd. rewrite hex_loop_value in Hv by (done || (unfold_bounds; lia)).
      fold (numeral 16 l) in Hv. change (hex_digits_value l 0) with (numeral 16 l) in Hv.
      destruct (Z.leb_spec (numeral 16 l) uint64_max); [|done]. injection Hv as <-.
      split; [by apply numeric_split|done].
    - intros ([_ Hd]%numeric_split & -> & Hm). rewrite hex_loop_value by (done || (unfold_bounds; lia)).
      change (hex_digits_value l 0) with (numeral 16 l). by rewrite (proj2 (Z.leb_le _ _)).
    - intros [_ Hd]%numeric_split Hm. rewrite hex_loop_value by (done || (unfold_bounds; lia)).
      change (hex_digits_value l 0) with (numeral 16 l). by rewrite (proj2 (Z.leb_gt _ _)). }
  destruct (empty trimmed) eqn:Ee.
  { apply empty_true in Ee. rewrite Ee. cbn. split; [|done]. intros v. split; [done|by intros [? _]]. }
  destruct (has_hex_prefix trimmed) eqn:Ep.
  - destruct (Nat.leb_spec (length trimmed) 2) as [Hle|Hgt].
    + rewrite drop_ge by done. split; [|done]. intros v. split; [done|by intros [? _]].
    + apply Hl. intros Hd%drop_nil_iff. lia.
  - destruct trimmed as [|c l]; [done|]. cbn [length]. change (S (length l) <=? 0)%nat with false. cbv iota.
    rewrite drop_0. by apply Hl.
Qed.

(** ** Names of capabilities *)

Lemma bit_set_testbit mask bit : (bit < 64)%nat -> bit_set mask bit = Z.testbit mask (Z.of_nat bit).
Proof.
  intros Hb. apply land_bit_wrapped. lia.
Qed.

Lemma cap_names_distinct : NoDup (cap_name <$> seq 0 64).
Proof. apply (bool_decide_eq_true_1 _). vm_compute. reflexivity. Qed.

Lemma cap_name_inj i j : (i < 64)%nat -> (j < 64)%nat -> cap_name i = cap_name j -> i = j.
Proof.
  intros Hi Hj He. pose proof cap_names_distinct as Hn. rewrite NoDup_alt in Hn.
  apply (Hn i j (cap_name i)); rewrite list_lookup_fmap, lookup_seq_lt by done; [done|]. by rewrite He.
Qed.

Lemma decode_capabilities_elem mask i :
  (i < 64)%nat -> (cap_name i ∈ decode_linux_capabilities mask <-> Z.testbit mask (Z.of_nat i) = true).
Proof.
  intros Hi. unfold decode_linux_capabilities. rewrite list_elem_of_fmap. split.
  - intros (j & He & [Hb Hj%elem_of_seq]%list_elem_of_filter). rewrite bit_set_testbit in Hb by lia.
    apply cap_name_inj in He as ->; [done|lia|lia].
  - intros Hb. exists i. split; [done|]. apply list_elem_of_filter. rewrite bit_set_testbit, elem_of_seq by done.
    split; [done|lia].
Qed.

Lemma names_distinct mask : NoDup (decode_linux_capabilities mask).
Proof.
  unfold decode_linux_capabilities. pose proof cap_names_distinct as Hn. revert Hn. generalize (seq 0 64).
  induction l as [|i l IH]; [done|]. intros [Hi Hl]%NoDup_cons. rewrite filter_cons. case_decide; [|by apply IH].
  constructor; [|by apply IH]. intros (j & He & [_ Hj]%list_elem_of_filter)%list_elem_of_fmap. apply Hi.
  rewrite He. by apply list_elem_of_fmap_2.
Qed.

(** The capabilities of a mask are the names of its set bits, each once, in
    the order of the bits, and no other mask of 64 bits has the same list. *)
Theorem decode_capabilities_bits (mask : Z) :
  decode_linux_capabilities mask =
    cap_name <$> filter (fun bit => Z.testbit mask (Z.of_nat bit) = true) (seq 0 64) /\
  NoDup (decode_linux_capabilities mask) /\
  forall other, 0 <= mask < 2 ^ 64 -> 0 <= other < 2 ^ 64 ->
    decode_linux_capabilities other = decode_linux_capabilities mask -> other = mask.
Proof.
  split_and!.
  - unfold decode_linux_capabilities. f_equal. assert (Forall (fun bit => (bit < 64)%nat) (seq 0 64)) as Hs.
    { apply Forall_forall. intros bit Hb%elem_of_seq. lia. }
    induction Hs as [|bit l Hb _ IH]; [done|]. rewrite !filter_cons, IH, !bit_set_testbit by done. done.
  - apply names_distinct.
  - intros other Hm Ho He. apply Z.bits_inj_iff'. intros n Hn. destruct (decide (n < 64)) as [Hlt|Hge].
    + pose proof (decode_capabilities_elem other (Z.to_nat n) ltac:(lia)) as H1.
      pose proof (decode_capabilities_elem mask (Z.to_nat n) ltac:(lia)) as H2.
      rewrite He, H2, Z2Nat.id in H1 by lia. destruct (Z.testbit mask n), (Z.testbit other n); naive_solver.
    + rewrite !(testbit_high _ 64) by lia. done.
Qed.
