(* ===== verification/SecurityLinux.v ===== *)
(** * Security: the Linux queries

    The queries of [include/syscape/detail/security/linux.hpp] - firmware
    variables, trusted platform modules, kernel settings, processor
    vulnerabilities, capabilities and the encryption of volumes - and the
    public query of [include/syscape/security.hpp] that checks its argument. *)
From S2P Require Import Prelude Result CppText Utf8 System Buffer Security.

(** [stat], with the [errno] of a failure, and [realpath], none when it fails. *)
Class SecurityKernel (W : Type) := {
  stat_path : text -> W -> option Z * W;
  realpath : text -> W -> option text * W
}.

Definition slash (a b : text) : text := a ++ "/"%char :: b.

(** A failure because the file does not exist. *)
Definition missing (e : error_code) : bool := matches_std_errc e ENOENT.

Definition global_variable_guid : text := lit "8be4df61-93ca-11d2-aa0d-00e098032b8c".

Definition is_dots (name : text) : bool := same name (lit ".") || same name (lit "..").

Definition is_tpm_device_name (name : text) : bool :=
  (3 <? length name)%nat && same (take 3 name) (lit "tpm") &&
  forallb (fun c => (48 <=? code c) && (code c <=? 57)) (drop 3 name).

(** ** The encryption of a block device *)

Definition unknown_encryption : encryption_state * encryption_type := (state_unknown, type_unknown).

(** The counters of the loop over the devices below another. *)
Record tally := Tally {
  total_slaves : nat;
  encrypted_slaves : nat;
  unencrypted_slaves : nat;
  common_type : encryption_type
}.

Definition count_slave (sub_enc : encryption_state * encryption_type) (t : tally) : tally :=
  match fst sub_enc with
  | encrypted =>
      Tally (S (total_slaves t)) (S (encrypted_slaves t)) (unencrypted_slaves t)
        (if bool_decide (common_type t = type_none) then snd sub_enc
         else if bool_decide (common_type t <> snd sub_enc) then type_other else common_type t)
  | unencrypted =>
      Tally (S (total_slaves t)) (encrypted_slaves t) (S (unencrypted_slaves t)) (common_type t)
  | _ => Tally (S (total_slaves t)) (encrypted_slaves t) (unencrypted_slaves t) (common_type t)
  end.

Definition judge (t : tally) : encryption_state * encryption_type :=
  if (0 <? total_slaves t)%nat then
    if (encrypted_slaves t =? total_slaves t)%nat then (encrypted, common_type t)
    else if (unencrypted_slaves t =? total_slaves t)%nat then (unencrypted, type_none)
    else if (0 <? encrypted_slaves t)%nat && (0 <? unencrypted_slaves t)%nat &&
            (encrypted_slaves t + unencrypted_slaves t =? total_slaves t)%nat
    then (mixed, common_type t)
    else unknown_encryption
  else unknown_encryption.

(** ** Mounts *)

(** The device and the rest of a line of the mount table that is no comment. *)
Definition mount_device (line : text) : option (text * text) :=
  match line with
  | [] => None
  | c :: _ =>
      if is_char c "#" then None
      else space1 ← find " " line 0; Some (decode_mount_entry (substr 0 space1 line), substr_from (S space1) line)
  end.

Definition mount_point_of (rest : text) : option text :=
  space2 ← find " " rest 0; Some (decode_mount_entry (substr 0 space2 rest)).

(** The target is the mount point or below it. *)
Definition below (target_path mnt : text) : bool :=
  same target_path mnt ||
  ((length mnt <? length target_path)%nat && same (substr 0 (length mnt) target_path) mnt &&
   (same mnt (lit "/") || is_char (nth (length mnt) target_path ch_nul) "/")).

(** The longest matching mount point so far, and its device. *)
Definition match_line (target_path line : text) (s : nat * text) : step (nat * text) Empty_set :=
  match mount_device line with
  | None => Next s
  | Some (dev, rest) =>
      match mount_point_of rest with
      | None => Next s
      | Some mnt =>
          if below target_path mnt && (fst s <=? length mnt)%nat then Next (length mnt, dev) else Next s
      end
  end.

Definition matched_mount (target_path mounts : text) : text :=
  match each_field ch_lf mounts (match_line target_path) (0%nat, []) with
  | Next s => snd s
  | Return r => match r with end
  end.

(** The device that holds the target. *)
Definition device_of (target_path mounts : text) : text :=
  let matched_device := matched_mount target_path mounts in
  if empty matched_device &&
     (starts_with (lit "/dev/dm-") target_path || starts_with (lit "/dev/mapper/") target_path ||
      starts_with (lit "dm-") target_path || starts_with (lit "/dev/") target_path)
  then target_path else matched_device.

(** The mount point of a mapped device: of the first line of its name. *)
Definition mount_of_line (path name line : text) (s : unit) : step unit text :=
  match mount_device line with
  | Some (dev, rest) =>
      if same dev path || same dev (lit "/dev/" ++ name) then
        match mount_point_of rest with Some mnt => Return mnt | None => Next s end
      else Next s
  | None => Next s
  end.

Definition mounted_path (path name mounts : text) : text :=
  match each_field ch_lf mounts (mount_of_line path name) tt with Next _ => path | Return mnt => mnt end.

(** What the path of a query must be. *)
Definition check_path (path : text) : result unit :=
  reject (empty path) errc_invalid_argument;;
  reject (negb (is_valid_utf8 path)) errc_invalid_encoding;;
  reject (bool_decide (ch_nul ∈ path)) errc_invalid_argument.

(** The privileges of the capabilities, sorted by name. *)
Definition add_permitted (privs : list privilege_entry) (cap : text) : list privilege_entry :=
  if existsb (fun existing => same (privilege_name existing) cap) privs then privs
  else privs ++ [Privilege_entry cap false false].

Definition privileges_of (caps : process_capabilities) : list privilege_entry :=
  let privs := (fun cap => Privilege_entry cap true false) <$> effective caps in
  std_sort (fun a b => text_less (privilege_name a) (privilege_name b))
    (foldl add_permitted privs (permitted caps)).

Section security_queries.
Context {W : Type} `{Kernel W} `{SecurityKernel W}.

(** ** Firmware *)

Definition efi_payload (data : text) : result bool :=
  parsed ← parse_efivar_secure_boot_payload data; mret (bool_decide (parsed = boot_enabled)).

Definition read_efi_boolean_variable (efi_root variable_name : text) : query W bool :=
  let suffix := variable_name ++ "-"%char :: global_variable_guid in
  efivar ← attempt (read_text_file (efi_root ++ lit "/efivars/" ++ suffix) 64);
  match efivar with
  | Value data => pure (efi_payload data)
  | Failure e =>
      if negb (missing e) then pure (Failure e)
      else
        legacy ← attempt (read_text_file (efi_root ++ lit "/vars/" ++ suffix ++ lit "/data") 64);
        pure (match legacy with
              | Value data => efi_payload data
              | Failure e => if missing e then fail errc_not_found else Failure e
              end)
  end.

(** A variable that may be missing. *)
Definition efi_flag (efi_root variable_name : text) : query W bool :=
  flag ← attempt (read_efi_boolean_variable efi_root variable_name);
  pure (match flag with
        | Value v => Value v
        | Failure e => if matches_errc e errc_not_found then Value false else Failure e
        end).

Definition secure_boot_modes (efi_root : text) : query W secure_boot_state :=
  audit ← efi_flag efi_root (lit "AuditMode");
  if (audit : bool) then mret boot_audit
  else
    setup ← efi_flag efi_root (lit "SetupMode");
    mret (if (setup : bool) then boot_audit else boot_disabled).

Definition secure_boot_variables (efi_root : text) : query W secure_boot_state :=
  secure ← attempt (read_efi_boolean_variable efi_root (lit "SecureBoot"));
  match secure with
  | Failure e => pure (if matches_errc e errc_not_found then fail errc_not_supported else Failure e)
  | Value true => mret boot_enabled
  | Value false => secure_boot_modes efi_root
  end.

Definition secure_boot_at (efi_root : text) : query W secure_boot_state := fun w =>
  match stat_path efi_root w with
  | (Some errno, w) => (if errno =? ENOENT then fail errc_not_supported else fail_native errno, w)
  | (None, w) => secure_boot_variables efi_root w
  end.

Definition secure_boot : query W secure_boot_state := secure_boot_at (lit "/sys/firmware/efi").

Definition is_secure_boot_enabled : query W bool :=
  res ← secure_boot; mret (bool_decide (res = boot_enabled)).

(** ** Trusted platform modules *)

Fixpoint tpm_driver_description (paths : list text) : query W (option text) :=
  match paths with
  | [] => mret None
  | path :: paths =>
      uevent ← attempt (read_text_file path 4096);
      match uevent with
      | Failure e => if missing e then tpm_driver_description paths else pure (Failure e)
      | Value content =>
          let driver := find_uevent_value content (lit "DRIVER") in
          if empty driver then tpm_driver_description paths
          else pure (reject (negb (is_valid_utf8 driver)) errc_invalid_encoding;; Value (Some driver))
      end
  end.

Definition tpm_version_of (device_path : text) : query W (tpm_version * text) :=
  ver_res ← attempt (read_text_file (device_path ++ lit "/tpm_version_major") 64);
  pure (match ver_res with
        | Value content =>
            reject (negb (is_valid_utf8 content)) errc_invalid_encoding;;
            Value (parse_tpm_version_string content)
        | Failure e => if missing e then Value (tpm_unknown, []) else Failure e
        end).

Definition tpm_device (class_root name : text) : query W tpm_info :=
  let device_path := slash class_root name in
  parsed ← tpm_version_of device_path;
  description ← tpm_driver_description [device_path ++ lit "/device/uevent"; device_path ++ lit "/uevent"];
  mret (Tpm_info true (fst parsed) (snd parsed) (Some name) description).

Definition no_tpm : tpm_info := Tpm_info false tpm_none [] None None.

(** The first device decides; without one the end of the listing does. *)
Definition tpm_at (class_root : text) : query W tpm_info := fun w =>
  match list_directory class_root w with
  | (inl errno, w) => (if errno =? ENOENT then Value no_tpm else fail_native errno, w)
  | (inr (names, errno), w) =>
      match list_find (fun name => is_tpm_device_name name = true) names with
      | Some (_, name) => tpm_device class_root name w
      | None => (if negb (errno =? 0) then fail_native errno else Value no_tpm, w)
      end
  end.

Definition tpm : query W tpm_info := tpm_at (lit "/sys/class/tpm").

(** ** Settings of the kernel *)

(** A file without which the feature is not supported. *)
Definition required_file (path : text) (maximum_size : Z) : query W text :=
  res ← attempt (read_text_file path maximum_size);
  pure (match res with
        | Value content => Value content
        | Failure e => if missing e then fail errc_not_supported else Failure e
        end).

Definition security_modules_at (path : text) : query W (list text) :=
  content ← required_file path 1024;
  let modules := parse_lsm_string content in
  pure (match modules with
        | [] => fail errc_malformed_data
        | _ => for_each (fun m => reject (negb (is_valid_utf8 m)) errc_invalid_encoding) modules;; Value modules
        end).

Definition security_modules : query W (list text) := security_modules_at (lit "/sys/kernel/security/lsm").

Definition lockdown_at (path : text) : query W lockdown_mode :=
  content ← required_file path 256; pure (parse_lockdown_line content).

Definition lockdown : query W lockdown_mode := lockdown_at (lit "/sys/kernel/security/lockdown").

Definition is_sip_enabled : query W bool := pure (fail errc_not_supported).

Definition aslr_at (path : text) : query W aslr_mode :=
  content ← required_file path 64; pure (parse_aslr_mode content).

Definition aslr : query W aslr_mode := aslr_at (lit "/proc/sys/kernel/randomize_va_space").

(** ** Vulnerabilities *)

Definition vulnerability_of (name content : text) : result cpu_vulnerability_entry :=
  reject (negb (is_valid_utf8 content)) errc_invalid_encoding;;
  let trimmed := trim_whitespace content in
  Value (Cpu_vulnerability_entry name (parse_vulnerability_status trimmed) trimmed).

Fixpoint vulnerability_loop (dir_path : text) (names : list text) : query W (list cpu_vulnerability_entry) :=
  match names with
  | [] => mret []
  | name :: names =>
      if is_dots name then vulnerability_loop dir_path names
      else if negb (is_valid_utf8 name) then pure (fail errc_invalid_encoding)
      else
        content ← attempt (read_text_file (slash dir_path name) 2048);
        match content with
        | Failure e => if missing e then vulnerability_loop dir_path names else pure (Failure e)
        | Value content =>
            item ← pure (vulnerability_of name content);
            rest ← vulnerability_loop dir_path names;
            mret (item :: rest)
        end
  end.

Definition cpu_vulnerabilities_at (dir_path : text) : query W (list cpu_vulnerability_entry) := fun w =>
  match list_directory dir_path w with
  | (inl errno, w) => (if errno =? ENOENT then fail errc_not_supported else fail_native errno, w)
  | (inr (names, errno), w) =>
      (found ← vulnerability_loop dir_path names;
       pure (if negb (errno =? 0) then fail_native errno
             else Value (std_sort (fun a b => text_less (vulnerability_name a) (vulnerability_name b)) found))) w
  end.

Definition cpu_vulnerabilities : query W (list cpu_vulnerability_entry) :=
  cpu_vulnerabilities_at (lit "/sys/devices/system/cpu/vulnerabilities").

(** ** Capabilities *)

Definition capabilities_at (status_path : text) (w : W) : checked process_capabilities * W :=
  match open_file status_path w with
  | (inl err, w) =>
      (check (if err =? ENOENT then fail errc_not_supported
              else if err =? EACCES then fail errc_permission_denied
              else fail_native err), w)
  | (inr events, w) => (m ← read_capabilities events [] no_masks; check (capabilities_of m), w)
  end.

Definition capabilities (w : W) : checked process_capabilities * W := capabilities_at (lit "/proc/self/status") w.

Definition privileges (w : W) : checked (list privilege_entry) * W :=
  match capabilities w with (caps_res, w) => (caps ← caps_res; mret (privileges_of caps), w) end.

(** ** The encryption of volumes *)

Fixpoint slaves_loop (inspect : text -> W -> (encryption_state * encryption_type) * W) (names : list text)
    (t : tally) (w : W) : tally * W :=
  match names with
  | [] => (t, w)
  | name :: names =>
      if is_dots name then slaves_loop inspect names t w
      else let '(sub_enc, w) := inspect name w in slaves_loop inspect names (count_slave sub_enc t) w
  end.

(** What lies below a device that has no encryption of its own. *)
Definition inspect_slaves (inspect : text -> W -> (encryption_state * encryption_type) * W) (dev_dir : text) (w : W)
    : (encryption_state * encryption_type) * W :=
  match list_directory (dev_dir ++ lit "/slaves") w with
  | (inl _, w) => (unknown_encryption, w)
  | (inr (names, errno), w) =>
      let '(t, w) := slaves_loop inspect names (Tally 0 0 0 type_none) w in
      (if negb (errno =? 0) then unknown_encryption else judge t, w)
  end.

(** [levels] is how many more devices deep the inspection may go: nine from
    the first device on. *)
Fixpoint inspect_levels (levels : nat) (sys_block_root block_name : text) (w : W)
    : (encryption_state * encryption_type) * W :=
  match levels with
  | O => (unknown_encryption, w)
  | S levels =>
      if empty block_name then (unknown_encryption, w)
      else
        let dev_dir := slash sys_block_root block_name in
        match read_text_file (dev_dir ++ lit "/dm/uuid") 512 w with
        | (Value uuid, w) =>
            let enc := parse_dm_uuid_encryption uuid in
            if bool_decide (fst enc = encrypted) then (enc, w)
            else inspect_slaves (inspect_levels levels sys_block_root) dev_dir w
        | (Failure e, w) =>
            if negb (missing e) then (unknown_encryption, w)
            else inspect_slaves (inspect_levels levels sys_block_root) dev_dir w
        end
  end.

Definition inspect_block_device_encryption (block_name sys_block_root : text) (w : W)
    : (encryption_state * encryption_type) * W :=
  inspect_levels 9 sys_block_root block_name w.

(** The node of a mapped device: the first whose name is that of the mapping. *)
Fixpoint mapper_node (sys_block_root mapper_name : text) (names : list text) (w : W) : text * W :=
  match names with
  | [] => ([], w)
  | name :: names =>
      if starts_with (lit "dm-") name then
        match read_text_file (slash sys_block_root name ++ lit "/dm/name") 256 w with
        | (Value content, w) =>
            if same (trim_whitespace content) mapper_name then (name, w)
            else mapper_node sys_block_root mapper_name names w
        | (Failure _, w) => mapper_node sys_block_root mapper_name names w
        end
      else mapper_node sys_block_root mapper_name names w
  end.

Definition block_node_of (matched_device sys_block_root : text) (w : W) : text * W :=
  if starts_with (lit "/dev/dm-") matched_device then (substr_from 5 matched_device, w)
  else if starts_with (lit "dm-") matched_device then (matched_device, w)
  else if starts_with (lit "/dev/mapper/") matched_device then
    match list_directory sys_block_root w with
    | (inl _, w) => ([], w)
    | (inr (names, _), w) => mapper_node sys_block_root (substr_from 12 matched_device) names w
    end
  else if starts_with (lit "/dev/") matched_device then (substr_from 5 matched_device, w)
  else ([], w).

Definition volume_info (path : text) (enc : encryption_state * encryption_type) : volume_encryption_info :=
  Volume_encryption_info path (fst enc) (snd enc) None None.

Definition device_encryption (path matched_device sys_block_root : text) : query W volume_encryption_info := fun w =>
  if empty matched_device then (Value (volume_info path unknown_encryption), w)
  else
    let '(block_node, w) := block_node_of matched_device sys_block_root w in
    if empty block_node then (Value (volume_info path unknown_encryption), w)
    else
      let '(enc, w) := inspect_block_device_encryption block_node sys_block_root w in
      (Value (volume_info path enc), w).

Definition existing_volume (path sys_block_root mounts_path : text) : query W volume_encryption_info := fun w =>
  match stat_path path w with
  | (Some errno, w) => (if errno =? ENOENT then fail errc_not_found else fail_native errno, w)
  | (None, w) =>
      let '(resolved, w) := realpath path w in
      let target_path := default path resolved in
      (mounts ← required_file mounts_path 65536;
       device_encryption path (device_of target_path mounts) sys_block_root) w
  end.

Definition volume_encryption_at (path sys_block_root mounts_path : text) : query W volume_encryption_info :=
  pure (check_path path);;
  existing_volume path sys_block_root mounts_path.

Definition volume_encryption (path : text) : query W volume_encryption_info :=
  volume_encryption_at path (lit "/sys/block") (lit "/proc/self/mounts").

(** The public query checks its argument, too. *)
Definition checked_volume_encryption (path : text) : query W volume_encryption_info :=
  pure (check_path path);;
  volume_encryption path.

Definition mapped_volume (sys_block_root name : text) (mounts : result text)
    (enc : encryption_state * encryption_type) : query W volume_encryption_info :=
  name_res ← attempt (read_text_file (slash sys_block_root name ++ lit "/dm/name") 256);
  let dm_name := match name_res with Value content => trim_whitespace content | Failure _ => [] end in
  let path := if empty dm_name then lit "/dev/" ++ name else lit "/dev/mapper/" ++ dm_name in
  mret (volume_info (match mounts with Value mounts => mounted_path path name mounts | Failure _ => path end) enc).

Fixpoint volumes_loop (sys_block_root : text) (mounts : result text) (names : list text)
    : query W (list volume_encryption_info) :=
  match names with
  | [] => mret []
  | name :: names => fun w =>
      if negb (starts_with (lit "dm-") name) then volumes_loop sys_block_root mounts names w
      else
        let '(enc, w) := inspect_block_device_encryption name sys_block_root w in
        if bool_decide (fst enc <> encrypted) then volumes_loop sys_block_root mounts names w
        else
          (info ← mapped_volume sys_block_root name mounts enc;
           rest ← volumes_loop sys_block_root mounts names;
           mret (info :: rest)) w
  end.

Definition encrypted_volumes_at (sys_block_root mounts_path : text) : query W (list volume_encryption_info) := fun w =>
  match list_directory sys_block_root w with
  | (inl errno, w) => (if errno =? ENOENT then fail errc_not_supported else fail_native errno, w)
  | (inr (names, errno), w) =>
      (mounts ← attempt (read_text_file mounts_path 65536);
       found ← volumes_loop sys_block_root mounts names;
       pure (if negb (errno =? 0) then fail_native errno
             else Value (std_sort (fun a b => text_less (path_or_device a) (path_or_device b)) found))) w
  end.

Definition encrypted_volumes : query W (list volume_encryption_info) :=
  encrypted_volumes_at (lit "/sys/block") (lit "/proc/self/mounts").

End security_queries.

(** ** The encryption of devices *)

Lemma encryption_type_known uuid t : parse_dm_uuid_encryption uuid = (encrypted, t) -> t <> type_none.
Proof. unfold parse_dm_uuid_encryption. repeat case_match; congruence. Qed.

(** The type of several layers: what they share, or another. *)
Definition shared_type (ts : list encryption_type) : encryption_type :=
  match ts with
  | [] => type_none
  | t :: ts => if bool_decide (Forall (eq t) ts) then t else type_other
  end.

Lemma shared_type_snoc ts t :
  type_none ∉ ts ->
  shared_type (ts ++ [t]) =
  if bool_decide (shared_type ts = type_none) then t
  else if bool_decide (shared_type ts <> t) then type_other else shared_type ts.
Proof.
  destruct ts as [|u ts]; [done|]. intros [Hu _]%not_elem_of_cons. cbn [shared_type app].
  assert (bool_decide (Forall (eq u) (ts ++ [t])) = bool_decide (Forall (eq u) ts) && bool_decide (u = t)) as ->.
  { rewrite <- bool_decide_and. apply bool_decide_ext. by rewrite Forall_app, Forall_singleton. }
  case (bool_decide_reflect (Forall (eq u) ts)) as [Hf|Hf]; cbn [andb];
    repeat case_bool_decide; congruence.
Qed.

(** What the inspection of a device may find. *)
Inductive finding : encryption_state * encryption_type -> option encryption_type -> Prop :=
| found_encrypted t : t <> type_none -> finding (encrypted, t) (Some t)
| found_nothing : finding unknown_encryption None.

(** The tally of devices with these findings. *)
Definition tally_of (founds : list (option encryption_type)) : tally :=
  let ts := omap id founds in Tally (length founds) (length ts) 0 (shared_type ts).

Lemma count_slave_tally r found founds :
  type_none ∉ omap id founds -> finding r found -> count_slave r (tally_of founds) = tally_of (founds ++ [found]).
Proof.
  intros Hn Hf. unfold tally_of. rewrite omap_app, !length_app. destruct Hf as [t Ht|]; cbn [omap list_omap id].
  - unfold count_slave. cbn [fst snd total_slaves encrypted_slaves unencrypted_slaves common_type].
    rewrite shared_type_snoc by done. f_equal; cbn [length]; rewrite ?length_app; cbn [length]; lia.
  - unfold count_slave, unknown_encryption. cbn [fst snd total_slaves encrypted_slaves unencrypted_slaves common_type].
    rewrite app_nil_r. f_equal; cbn [length]; lia.
Qed.

Lemma fold_tally (rs : list (encryption_state * encryption_type)) founds founds0 :
  type_none ∉ omap id founds0 -> Forall2 finding rs founds ->
  foldl (fun t r => count_slave r t) (tally_of founds0) rs = tally_of (founds0 ++ founds) /\
  type_none ∉ omap id (founds0 ++ founds).
Proof.
  intros Hn Hf. revert founds0 Hn. induction Hf as [|r found rs founds Hr _ IH]; intros founds0 Hn.
  - by rewrite app_nil_r.
  - cbn [foldl]. rewrite (count_slave_tally _ found) by done. 
    replace (founds0 ++ found :: founds) with ((founds0 ++ [found]) ++ founds) by (by rewrite <- (assoc_L (++))). apply IH.
    rewrite omap_app, not_elem_of_app. split; [done|]. destruct Hr; cbn; [|set_solver].
    apply not_elem_of_cons. split; [congruence|set_solver].
Qed.

Lemma all_found {A} (founds : list (option A)) :
  (length (omap id founds) <= length founds)%nat /\
  match mapM id founds with
  | Some ts => omap id founds = ts /\ length ts = length founds
  | None => (length (omap id founds) < length founds)%nat
  end.
Proof.
  induction founds as [|[t|] founds [Hle IH]]; cbn in *; [done| |lia]. destruct (mapM id founds); cbn in *; [|lia].
  destruct IH as [-> IH]. cbn. split; [lia|]. split; [done|lia].
Qed.

Lemma shared_type_known ts : ts <> [] -> type_none ∉ ts -> shared_type ts <> type_none.
Proof. destruct ts as [|t ts]; [done|]. intros _ [Ht _]%not_elem_of_cons. cbn. case_bool_decide; congruence. Qed.

Lemma judge_tally founds :
  judge (tally_of founds) =
  match founds, mapM id founds with
  | _ :: _, Some ts => (encrypted, shared_type ts)
  | _, _ => unknown_encryption
  end.
Proof.
  destruct (all_found founds) as [Hle Hm].
  unfold judge, tally_of. cbn [total_slaves encrypted_slaves unencrypted_slaves common_type].
  destruct founds as [|found founds]; [done|]. change (0 <? length (found :: founds))%nat with true. cbn match.
  destruct (mapM id (found :: founds)) as [ts|].
  - destruct Hm as [-> ->]. by rewrite Nat.eqb_refl.
  - rewrite (proj2 (Nat.eqb_neq _ _)) by lia. by rewrite andb_false_r.
Qed.

Section device_layers.
Context {W : Type} `{Kernel W} (w : W) (root : text).
Context (open_quiet : forall path, snd (open_file path w) = w) (list_quiet : forall path, snd (list_directory path w) = w).

(** The encryption a device has of its own: none when it is not a mapped
    device or not an encrypted one. *)
Definition own_layer (name : text) : option (option encryption_type) :=
  match fst (read_text_file (slash root name ++ lit "/dm/uuid") 512 w) with
  | Value uuid =>
      match parse_dm_uuid_encryption uuid with (encrypted, t) => Some (Some t) | _ => Some None end
  | Failure e => if missing e then Some None else None
  end.

(** The devices it is made from. *)
Definition layers_below (name : text) : list text :=
  match fst (list_directory (slash root name ++ lit "/slaves") w) with
  | inr (names, errno) => if errno =? 0 then filter (fun name => is_dots name = false) names else []
  | inl _ => []
  end.

(** A device is encrypted when it is an encrypted mapped device, or when it is
    made from devices all of which are, at most so many levels below. *)
Inductive encrypted_as : nat -> text -> encryption_type -> Prop :=
| encrypted_itself levels name t :
    name <> [] -> own_layer name = Some (Some t) -> encrypted_as (S levels) name t
| encrypted_below levels name ts :
    name <> [] -> own_layer name = Some None -> ts <> [] ->
    Forall2 (encrypted_as levels) (layers_below name) ts ->
    encrypted_as (S levels) name (shared_type ts).

Lemma read_quiet path maximum_size : snd (read_text_file path maximum_size w) = w.
Proof. unfold read_text_file. pose proof (open_quiet path). by destruct (open_file path w) as [[?|?] w1]. Qed.

Lemma slaves_loop_fold (inspect : text -> W -> (encryption_state * encryption_type) * W) names t :
  (forall name, snd (inspect name w) = w) ->
  slaves_loop inspect names t w =
  (foldl (fun t r => count_slave r t) t ((fun name => fst (inspect name w)) <$> filter (fun name => is_dots name = false) names), w).
Proof.
  intros Hq. revert t. induction names as [|name names IH]; intros t; [done|]. cbn [slaves_loop].
  rewrite filter_cons. destruct (is_dots name) eqn:Ed; [rewrite decide_False by done; apply IH|].
  rewrite decide_True by done. specialize (Hq name). cbn [fmap list_fmap foldl].
  destruct (inspect name w) as [r w1]. cbn in Hq. subst w1. apply IH.
Qed.

(** What the recursion finds agrees with the definition, at every level. *)
Definition inspects (inspect : text -> W -> (encryption_state * encryption_type) * W) (levels : nat) : Prop :=
  forall name, snd (inspect name w) = w /\
    exists found, finding (fst (inspect name w)) found /\ forall t, found = Some t <-> encrypted_as levels name t.

Lemma inspect_slaves_layers inspect levels name :
  inspects inspect levels ->
  snd (inspect_slaves inspect (slash root name) w) = w /\
  exists found, finding (fst (inspect_slaves inspect (slash root name) w)) found /\
    forall t, found = Some t <-> exists ts, ts <> [] /\ Forall2 (encrypted_as levels) (layers_below name) ts /\ t = shared_type ts.
Proof.
  intros Hi. unfold inspect_slaves, layers_below. pose proof (list_quiet (slash root name ++ lit "/slaves")) as Hl.
  destruct (list_directory _ w) as [[errno|[names errno]] w1]; cbn in Hl |- *; subst w1.
  { split; [done|]. exists None. split; [constructor|]. intros t. split; [done|]. intros (ts & Hts & ->%Forall2_nil_inv_l & _). done. }
  rewrite slaves_loop_fold by apply Hi. cbn [fst snd]. split; [done|].
  destruct (errno =? 0); cbn [negb].
  2: { exists None. split; [constructor|]. intros t. split; [done|]. intros (ts & Hts & ->%Forall2_nil_inv_l & _). done. }
  generalize (filter (fun name => is_dots name = false) names) as below. intros below.
  assert (exists founds, Forall2 finding ((fun name => fst (inspect name w)) <$> below) founds /\
    Forall2 (fun name found => forall t, found = Some t <-> encrypted_as levels name t) below founds) as (founds & Hf & He).
  { clear names. induction below as [|b below (founds & Hf & He)]; [by exists []|].
    destruct (Hi b) as [_ (found & Hb & Ht)]. exists (found :: founds). split; by constructor. }
  destruct (fold_tally _ founds [] ltac:(set_solver) Hf) as [Hfold Hn]. cbn [app] in Hfold.
  change (Tally 0 0 0 type_none) with (tally_of []). rewrite Hfold, judge_tally.
  assert (forall ts, mapM id founds = Some ts <-> Forall2 (encrypted_as levels) below ts) as Hm.
  { clear -He. induction He as [|b found below founds Hb _ IH]; intros ts; cbn.
    - split; [by intros [= <-]|]. by intros ->%Forall2_nil_inv_l.
    - destruct found as [t|]; cbn; [|split; [done|]; intros (t & ts' & Ht & _ & ->)%Forall2_cons_inv_l; by apply Hb in Ht].
      destruct (mapM id founds) as [us|]; cbn.
      + split; [intros [= <-]; constructor; [by apply Hb|by apply IH]|].
        intros (t' & ts' & Ht%Hb & Hts%IH & ->)%Forall2_cons_inv_l. by simplify_eq/=.
      + split; [done|]. intros (t' & ts' & Ht%Hb & Hts%IH & ->)%Forall2_cons_inv_l. done. }
  destruct founds as [|found founds].
  { inversion He; subst. exists None. split; [constructor|]. intros t. split; [done|].
    intros (ts & Hts & ->%Forall2_nil_inv_l & _). done. }
  pose proof (all_found (found :: founds)) as [_ Hall].
  destruct (mapM id (found :: founds)) as [ts|].
  - destruct Hall as [Ho Hlen]. cbn [app] in Hn. rewrite Ho in Hn.
    assert (ts <> []) as Hne by (by destruct ts). exists (Some (shared_type ts)).
    split; [constructor; by apply shared_type_known|]. intros t. split.
    + intros [= <-]. exists ts. split; [done|]. split; [by apply Hm|done].
    + intros (us & _ & Hus%Hm & ->). by simplify_eq/=.
  - exists None. split; [constructor|]. intros t. split; [done|]. by intros (us & _ & Hus%Hm & _).
Qed.

Lemma inspect_levels_layers levels : inspects (inspect_levels levels root) levels.
Proof.
  induction levels as [|levels IH]; intros name; cbn [inspect_levels].
  { split; [done|]. exists None. split; [constructor|]. intros t. split; [done|]. inversion 1. }
  destruct (empty name) eqn:Ee.
  { apply empty_true in Ee as ->. split; [done|]. exists None. split; [constructor|]. intros t. split; [done|]. by inversion 1. }
  apply empty_false in Ee. destruct (inspect_slaves_layers _ _ name IH) as [Hq Hs].
  pose proof (read_quiet (slash root name ++ lit "/dm/uuid") 512) as Hr.
  assert (own_layer name = None -> exists found, finding unknown_encryption found /\
    forall t, found = Some t <-> encrypted_as (S levels) name t) as Hunread.
  { intros Ho. exists None. split; [constructor|]. intros t. split; [done|]. inversion 1; congruence. }
  assert (own_layer name = Some None -> exists found,
    finding (fst (inspect_slaves (inspect_levels levels root) (slash root name) w)) found /\
    forall t, found = Some t <-> encrypted_as (S levels) name t) as Hbelow.
  { intros Ho. destruct Hs as (found & Hf & Ht). exists found. split; [done|]. intros t. rewrite Ht. split.
    - intros (ts & Hts & Hl & ->). by apply encrypted_below.
    - inversion 1; subst; [congruence|by eexists]. }
  unfold own_layer in Hunread, Hbelow. destruct (read_text_file _ 512 w) as [[uuid|e] w1] eqn:Er; cbn in Hr, Hunread, Hbelow; subst w1.
  - destruct (parse_dm_uuid_encryption uuid) as [state t] eqn:Ep. cbn [fst]. case_bool_decide as Hs1.
    + subst state. split; [done|]. exists (Some t). split; [constructor; by eapply encryption_type_known|].
      assert (own_layer name = Some (Some t)) as Ho by (unfold own_layer; rewrite Er; cbn [fst]; by rewrite Ep).
      intros u. split; [intros [= <-]; by apply encrypted_itself|]. inversion 1; congruence.
    + split; [done|]. apply Hbelow. by destruct state.
  - destruct (missing e); cbn [negb]; (split; [done|]); auto.
Qed.

End device_layers.

Section device_results.
Context {W : Type} `{Kernel W} `{SecurityKernel W} (w : W).

(** C22: a device is reported encrypted exactly when it is an encrypted mapped
    device or made from devices that all are, up to nine levels deep, and with
    the type its layers share; in every other case, however many of its layers
    are encrypted, its state is unknown: neither unencrypted nor mixed. *)
Theorem device_encryption_layers (block_name sys_block_root : text) :
  (forall path, snd (open_file path w) = w) -> (forall path, snd (list_directory path w) = w) ->
  let found := fst (inspect_block_device_encryption block_name sys_block_root w) in
  (exists t, found = (encrypted, t) /\ forall u, encrypted_as w sys_block_root 9 block_name u <-> u = t) \/
  (found = unknown_encryption /\ forall u, ~ encrypted_as w sys_block_root 9 block_name u).
Proof.
  intros Ho Hl found. destruct (inspect_levels_layers w sys_block_root Ho Hl 9 block_name) as [_ (f & Hf & Ht)].
  fold (inspect_block_device_encryption block_name sys_block_root w) in Hf. fold found in Hf. clearbody found. destruct f as [t|]; [left|right];
    inversion Hf; subst found.
  - exists t. split; [done|]. intros u. rewrite <- Ht. split; [by intros [= ->]|by intros ->].
  - split; [done|]. intros u Hu%Ht. done.
Qed.

(** The path of a mapped device: where it is mounted, or else its node. *)
Definition mapped_path (root name : text) (mounts : result text) : text :=
  let dm_name :=
    match fst (read_text_file (slash root name ++ lit "/dm/name") 256 w) with
    | Value content => trim_whitespace content
    | Failure _ => []
    end in
  let path := if empty dm_name then lit "/dev/" ++ name else lit "/dev/mapper/" ++ dm_name in
  match mounts with Value mounts => mounted_path path name mounts | Failure _ => path end.

(** The volumes of the devices of a listing: one for each encrypted mapped one. *)
Inductive volumes_from (root : text) (mounts : result text) : list text -> list volume_encryption_info -> Prop :=
| volumes_none : volumes_from root mounts [] []
| volumes_skip name names l :
    starts_with (lit "dm-") name = false \/ (forall t, ~ encrypted_as w root 9 name t) ->
    volumes_from root mounts names l -> volumes_from root mounts (name :: names) l
| volumes_take name names l t :
    starts_with (lit "dm-") name = true -> encrypted_as w root 9 name t -> volumes_from root mounts names l ->
    volumes_from root mounts (name :: names)
      (Volume_encryption_info (mapped_path root name mounts) encrypted t None None :: l).

Context (open_quiet : forall path, snd (open_file path w) = w) (list_quiet : forall path, snd (list_directory path w) = w).

Lemma mapped_volume_spec root name mounts enc :
  mapped_volume root name mounts enc w = (Value (volume_info (mapped_path root name mounts) enc), w).
Proof.
  unfold mapped_volume, mapped_path, attempt, mbind, query_bind.
  pose proof (read_quiet w open_quiet (slash root name ++ lit "/dm/name") 256) as Hq.
  destruct (read_text_file _ 256 w) as [r w1]. cbn in Hq |- *. by subst w1.
Qed.

Lemma volumes_loop_spec root mounts names :
  exists l, volumes_loop root mounts names w = (Value l, w) /\ volumes_from root mounts names l.
Proof.
  induction names as [|name names (l & IH & Hl)]; [exists []; split; [done|constructor]|]. cbn [volumes_loop].
  destruct (starts_with (lit "dm-") name) eqn:Es; [|exists l; split; [done|apply volumes_skip; auto]]. cbn [negb].
  destruct (inspect_levels_layers w root open_quiet list_quiet 9 name) as [Hq (found & Hf & Ht)].
  unfold inspect_block_device_encryption. destruct (inspect_levels 9 root name w) as [r w1]. cbn in Hq, Hf. subst w1.
  destruct Hf as [t Hn|]; cbn [fst unknown_encryption].
  - rewrite bool_decide_false by (by intros []).
    exists (Volume_encryption_info (mapped_path root name mounts) encrypted t None None :: l). split.
    + unfold mbind, query_bind. by rewrite mapped_volume_spec, IH.
    + apply volumes_take; [done| |done]. by apply Ht.
  - rewrite bool_decide_true by done. exists l. split; [done|]. apply volumes_skip; [|done]. right. intros t Hu%Ht. done.
Qed.

(** The encrypted volumes are, in the order of their paths, those of the
    mapped devices of the listing that are encrypted; a listing that breaks
    off or devices that cannot be listed are errors, and nothing else is. *)
Theorem encrypted_volumes_complete (sys_block_root mounts_path : text) :
  match list_directory sys_block_root w with
  | (inl errno, _) =>
      encrypted_volumes_at sys_block_root mounts_path w =
      (if errno =? ENOENT then fail errc_not_supported else fail_native errno, w)
  | (inr (names, errno), _) =>
      if errno =? 0 then
        exists l vols, encrypted_volumes_at sys_block_root mounts_path w = (Value l, w) /\
          StronglySorted (not_after (fun a b => text_less (path_or_device a) (path_or_device b))) l /\
          l ≡ₚ vols /\
          volumes_from sys_block_root (fst (read_text_file mounts_path 65536 w)) names vols
      else encrypted_volumes_at sys_block_root mounts_path w = (fail_native errno, w)
  end.
Proof.
  unfold encrypted_volumes_at. pose proof (list_quiet sys_block_root) as Hl.
  destruct (list_directory sys_block_root w) as [[errno|[names errno]] w1]; cbn in Hl; subst w1; [done|].
  destruct (volumes_loop_spec sys_block_root (fst (read_text_file mounts_path 65536 w)) names) as (vols & Hv & Hd).
  pose proof (read_quiet w open_quiet mounts_path 65536) as Hq.
  unfold attempt, mbind, query_bind. destruct (read_text_file mounts_path 65536 w) as [r w1]. cbn in Hq, Hv |- *. subst w1.
  rewrite Hv. destruct (errno =? 0); [|done]. cbn. eexists _, vols. split; [done|]. split; [|split; [|done]].
  - by apply (std_sort_key_sorted _ (fun v => code <$> path_or_device v)).
  - apply std_sort_permutation.
Qed.

End device_results.

(** ** The mount that holds a path *)

(** The device and the mount point of a line. *)
Definition mount_entry (line : text) : option (text * text) :=
  '(dev, rest) ← mount_device line; mnt ← mount_point_of rest; Some (dev, mnt).

Definition longer (target : text) (s : nat * text) (e : text * text) : nat * text :=
  if below target (snd e) && (fst s <=? length (snd e))%nat then (length (snd e), fst e) else s.

Lemma match_line_entries target lines s :
  fold_steps (match_line target) lines s = Next (foldl (longer target) s (omap mount_entry lines)).
Proof.
  revert s. induction lines as [|line lines IH]; intros s; [done|]. cbn [fold_steps omap list_omap].
  unfold match_line at 1, mount_entry at 1. destruct (mount_device line) as [[dev rest]|]; [|apply IH].
  unfold mbind, option_bind. cbn match. destruct (mount_point_of rest) as [mnt|]; [|apply IH].
  cbn [foldl]. unfold longer at 2. cbn [fst snd]. by split_if; apply IH.
Qed.

(** The last of the longest of the mount points at or above a path. *)
Definition longest_of (entries : list (text * text)) (s : nat * text) : Prop :=
  (entries = [] /\ s = (0%nat, [])) \/
  exists before mnt after, entries = before ++ (snd s, mnt) :: after /\ fst s = length mnt /\
    Forall (fun e => (length (snd e) <= length mnt)%nat) before /\
    Forall (fun e => (length (snd e) < length mnt)%nat) after.

Lemma longer_longest target entries :
  longest_of (filter (fun e => below target (snd e) = true) entries) (foldl (longer target) (0%nat, []) entries).
Proof.
  induction entries as [|[dev mnt] entries IH] using rev_ind; [by left|]. rewrite foldl_snoc, filter_app, filter_cons, filter_nil.
  cbn [snd]. revert IH. generalize (foldl (longer target) (0%nat, []) entries) as s. intros s IH. unfold longer. cbn [fst snd].
  destruct (below target mnt); [|by rewrite decide_False, app_nil_r by done]. rewrite decide_True by done. cbn [andb].
  destruct IH as [[-> ->]|(before & best & after & -> & Hs & Hb & Ha)].
  - right. by exists [], mnt, [].
  - right. rewrite Hs. destruct (Nat.leb_spec (length best) (length mnt)) as [Hle|Hlt].
    + eexists _, mnt, []. split; [done|]. split; [done|]. split; [|done]. rewrite Forall_app, Forall_cons.
      split; [|split; [done|]]; (eapply Forall_impl; [done|]); cbn; lia.
    + exists before, best, (after ++ [(dev, mnt)]). split; [by rewrite <- (assoc_L (++))|]. split; [done|].
      split; [done|]. rewrite Forall_app, Forall_singleton. done.
Qed.

(** A path is on the device of the longest mount point that it equals or
    lies below, the last such line of the mount table when several are as
    long, and on none when there is no such line. *)
Theorem matched_mount_longest (target_path mounts : text) :
  let entries :=
    filter (fun e => below target_path (snd e) = true) (omap mount_entry (fields ch_lf mounts)) in
  (entries = [] /\ matched_mount target_path mounts = []) \/
  exists before mnt after, entries = before ++ (matched_mount target_path mounts, mnt) :: after /\
    Forall (fun e => (length (snd e) <= length mnt)%nat) before /\
    Forall (fun e => (length (snd e) < length mnt)%nat) after.
Proof.
  intros entries. unfold matched_mount. rewrite each_field_fields, match_line_entries.
  destruct (longer_longest target_path (omap mount_entry (fields ch_lf mounts))) as [[He ->]|(b & m & a & He & _ & Hba)];
    [by left|right; by exists b, m, a].
Qed.

(** ** Privileges *)

Definition mask_bits (mask : option Z) : list nat :=
  filter (fun bit => Z.testbit (default 0 mask) (Z.of_nat bit) = true) (seq 0 64).

Lemma elem_of_names_of name mask :
  name ∈ names_of mask <->
  exists bit, (bit < 64)%nat /\ name = cap_name bit /\ Z.testbit (default 0 mask) (Z.of_nat bit) = true.
Proof.
  destruct mask as [mask|]; cbn [names_of default from_option].
  - unfold decode_linux_capabilities. rewrite list_elem_of_fmap. split.
    + intros (i & -> & [Hb Hi%elem_of_seq]%list_elem_of_filter). rewrite bit_set_testbit in Hb by lia. exists i. split_and!; [lia|done|done].
    + intros (i & Hi & -> & Hb). exists i. split; [done|]. rewrite list_elem_of_filter, bit_set_testbit, elem_of_seq by done. auto with lia.
  - split; [by intros ?%elem_of_nil|]. intros (i & _ & _ & Hb). by rewrite Z.bits_0 in Hb.
Qed.

Lemma names_of_distinct mask : NoDup (names_of mask).
Proof. destruct mask; [apply names_distinct|constructor]. Qed.

Lemma add_permitted_fold caps privs :
  NoDup (privilege_name <$> privs) ->
  NoDup (privilege_name <$> foldl add_permitted privs caps) /\
  forall e, e ∈ foldl add_permitted privs caps <->
    e ∈ privs \/ (e = Privilege_entry (privilege_name e) false false /\ privilege_name e ∈ caps /\
                  privilege_name e ∉ privilege_name <$> privs).
Proof.
  revert privs. induction caps as [|cap caps IH]; intros privs Hn; cbn [foldl].
  { split; [done|]. intros e. split; [by left|]. intros [?|(_ & ?%elem_of_nil & _)]; done. }
  unfold add_permitted at 2 4. assert (existsb (fun existing => same (privilege_name existing) cap) privs = true <->
    cap ∈ privilege_name <$> privs) as Hex.
  { rewrite existsb_exists, list_elem_of_fmap. setoid_rewrite <- list_elem_of_In. setoid_rewrite same_true. naive_solver. }
  destruct (existsb _ privs).
  - destruct (IH privs Hn) as [H1 H2]. split; [done|]. intros e. rewrite H2. set_solver.
  - assert (cap ∉ privilege_name <$> privs) as Hc by naive_solver.
    assert (NoDup (privilege_name <$> privs ++ [Privilege_entry cap false false])) as Hn'.
    { rewrite fmap_app. apply NoDup_app. split; [done|]. split; [set_solver|]. apply NoDup_singleton. }
    destruct (IH _ Hn') as [H1 H2]. split; [done|]. intros e. rewrite H2, fmap_app, !elem_of_app, list_elem_of_singleton.
    cbn. rewrite list_elem_of_singleton, elem_of_cons. destruct (decide (privilege_name e = cap)) as [<-|]; naive_solver.
Qed.

(** The privileges of a process are the capabilities whose bit is set in its
    effective or its permitted mask, each once and in the order of their
    names; one is enabled when its bit is set in the effective mask. *)
Theorem privileges_of_bits (m : cap_masks) (caps : process_capabilities) :
  capabilities_of m = Value caps ->
  let eff := default 0 (eff_mask m) in
  let prm := default 0 (prm_mask m) in
  StronglySorted (not_after (fun a b => text_less (privilege_name a) (privilege_name b))) (privileges_of caps) /\
  privileges_of caps ≡ₚ
    (fun bit => Privilege_entry (cap_name bit) (Z.testbit eff (Z.of_nat bit)) false) <$>
      filter (fun bit => Z.testbit (Z.lor eff prm) (Z.of_nat bit) = true) (seq 0 64).
Proof.
  intros Hc eff prm. assert (effective caps = names_of (eff_mask m) /\ permitted caps = names_of (prm_mask m)) as [He Hp]
    by (unfold capabilities_of in Hc; destruct (inh_mask m), (prm_mask m), (eff_mask m); by simplify_eq/=).
  unfold privileges_of. rewrite He, Hp. split; [by apply (std_sort_key_sorted _ (fun e => code <$> privilege_name e))|].
  rewrite std_sort_permutation. set (privs := _ <$> names_of (eff_mask m)).
  assert (privilege_name <$> privs = names_of (eff_mask m)) as Hnames by (unfold privs; rewrite <- list_fmap_compose; apply list_fmap_id).
  destruct (add_permitted_fold (names_of (prm_mask m)) privs) as [Hn Hel]; [rewrite Hnames; apply names_of_distinct|].
  apply NoDup_Permutation; [by eapply NoDup_fmap_1| |].
  - apply NoDup_fmap_2_strong; [|apply NoDup_filter, NoDup_seq].
    intros i j [_ Hi%elem_of_seq]%list_elem_of_filter [_ Hj%elem_of_seq]%list_elem_of_filter [= He' _].
    apply cap_name_inj; [lia|lia|done].
  - intros e. rewrite Hel, Hnames, list_elem_of_fmap. unfold privs. rewrite list_elem_of_fmap.
    setoid_rewrite list_elem_of_filter. setoid_rewrite elem_of_seq. setoid_rewrite Z.lor_spec.
    setoid_rewrite orb_true_iff. split.
    + intros [(name & -> & (bit & Hb & -> & Ht)%elem_of_names_of)|(-> & (bit & Hb & Hname & Ht)%elem_of_names_of & Hne)].
      * exists bit. fold eff in Ht. rewrite Ht. split; [done|]. split; [by left|lia].
      * cbn [privilege_name] in Hname, Hne. exists bit. fold prm in Ht. rewrite Hname in Hne |- *.
        destruct (Z.testbit eff (Z.of_nat bit)) eqn:Eb; [|split; [done|]; split; [by right|lia]].
        destruct Hne. apply elem_of_names_of. by exists bit.
    + intros (bit & -> & Hbit & Hlt). cbn [privilege_name]. destruct (Z.testbit eff (Z.of_nat bit)) eqn:Eb.
      * left. exists (cap_name bit). split; [done|]. apply elem_of_names_of. exists bit. split_and!; [lia|done|done].
      * right. split; [done|]. destruct Hbit as [?|Hbit]; [done|]. split; [apply elem_of_names_of; exists bit; split_and!; [lia|done|done]|].
        intros (j & Hj & Hcap & Htj)%elem_of_names_of. apply cap_name_inj in Hcap as ->; [|lia|done]. fold eff in Htj. congruence.
Qed.

(** ** A small system *)

Definition block_kernel : Kernel unit :=
  listing_kernel [("/sys/block/dm-0/dm/uuid", "CRYPT-LUKS2-8f1"); ("/sys/block/dm-0/dm/name", "safe");
      ("/sys/block/dm-1/dm/uuid", "LVM-x"); ("/sys/block/dm-1/dm/name", "root");
      ("/sys/block/dm-2/dm/uuid", "LVM-y"); ("/proc/self/mounts", "/dev/mapper/safe / ext4 rw 0 0")]
    [("/sys/block", ["dm-2"; "dm-1"; "sda"; "dm-0"]); ("/sys/block/dm-1/slaves", ["."; ".."; "dm-0"]);
      ("/sys/block/dm-2/slaves", ["dm-0"; "sda"])]%string.

Lemma device_encryption_layers_witness :
  (exists t, (encrypted, luks) = (encrypted, t) /\
    forall u, @encrypted_as unit block_kernel tt (lit "/sys/block") 9 (lit "dm-1") u <-> u = t) \/
  ((encrypted, luks) = unknown_encryption /\
    forall u, ~ @encrypted_as unit block_kernel tt (lit "/sys/block") 9 (lit "dm-1") u).
Proof.
  assert (fst (@inspect_block_device_encryption unit block_kernel (lit "dm-1") (lit "/sys/block") tt) = (encrypted, luks)) as He
    by (vm_compute; reflexivity).
  pose proof (@device_encryption_layers unit block_kernel tt (lit "dm-1") (lit "/sys/block")
    ltac:(intros path; by destruct (snd _)) ltac:(intros path; by destruct (snd _))) as Hd.
  cbv zeta in Hd. rewrite He in Hd. exact Hd.
Defined.

(** [dm-2] has an unencrypted device below it, too. *)
Lemma encrypted_volumes_complete_witness :
  exists l vols, @encrypted_volumes_at unit block_kernel (lit "/sys/block") (lit "/proc/self/mounts") tt = (Value l, tt) /\
    StronglySorted (not_after (fun a b => text_less (path_or_device a) (path_or_device b))) l /\
    l ≡ₚ vols /\
    @volumes_from unit block_kernel tt (lit "/sys/block") (Value (lit "/dev/mapper/safe / ext4 rw 0 0"))
      (lit <$> ["dm-2"; "dm-1"; "sda"; "dm-0"]%string) vols.
Proof.
  exact (@encrypted_volumes_complete unit block_kernel tt (fun path => eq_refl) (fun path => eq_refl)
    (lit "/sys/block") (lit "/proc/self/mounts")).
Defined.

Lemma privileges_of_bits_witness :
  let m := Cap_masks None (Some 6) (Some 2) None None in
  let l := [Privilege_entry (lit "cap_dac_override") true false; Privilege_entry (lit "cap_dac_read_search") false false] in
  StronglySorted (not_after (fun a b => text_less (privilege_name a) (privilege_name b))) l /\
  l ≡ₚ (fun bit => Privilege_entry (cap_name bit) (Z.testbit 2 (Z.of_nat bit)) false) <$>
      filter (fun bit => Z.testbit (Z.lor 2 6) (Z.of_nat bit) = true) (seq 0 64).
Proof.
  intros m l. assert (exists caps, capabilities_of m = Value caps /\ privileges_of caps = l) as (caps & Hc & Hl).
  { eexists. split; [reflexivity|]. vm_compute. reflexivity. }
  rewrite <- Hl. exact (privileges_of_bits m caps Hc).
Defined.
