(* ===== verification/Numa.v ===== *)
(** * Memory nodes (NUMA)

    [include/syscape/detail/numa/common.hpp] and
    [include/syscape/detail/numa/linux.hpp]: the record of a node with its
    checks, the parsers of the sysfs lists and of a node's meminfo, and the
    queries. *)
From S2P Require Import Prelude Result CppText System CpuInfo.

(** ** common.hpp *)

Record numa_node := Numa_node {
  node_id : Z;
  logical_processors : list Z;
  total_memory_bytes : option Z;
  free_memory_bytes : option Z;
  used_memory_bytes : option Z;
  distances : list Z;
  is_online : bool
}.

(** [amount && total && *amount > *total] *)
Definition exceeds (amount total : option Z) : bool :=
  match amount, total with Some amount, Some total => total <? amount | _, _ => false end.

(** [std::is_sorted] and [std::unique]. *)
Fixpoint is_sorted (l : list Z) : bool :=
  match l with
  | x :: ((y :: _) as l') => (x <=? y) && is_sorted l'
  | _ => true
  end.

Fixpoint unique (l : list Z) : list Z :=
  match l with
  | x :: ((y :: _) as l') => if x =? y then unique l' else x :: unique l'
  | _ => l
  end.

Definition validate_numa_node (node : numa_node) : result numa_node :=
  if exceeds (free_memory_bytes node) (total_memory_bytes node) then fail errc_malformed_data
  else if exceeds (used_memory_bytes node) (total_memory_bytes node) then fail errc_malformed_data
  else
    let processors := logical_processors node in
    let processors := if negb (is_sorted processors) then std_sort Z.ltb processors else processors in
    Value (Numa_node (node_id node) (unique processors) (total_memory_bytes node)
             (free_memory_bytes node) (used_memory_bytes node) (distances node) (is_online node)).

Fixpoint validate_each (nodes : list numa_node) : result (list numa_node) :=
  match nodes with
  | [] => mret []
  | n :: nodes => n ← validate_numa_node n; nodes ← validate_each nodes; mret (n :: nodes)
  end.

Definition validate_numa_nodes (nodes : list numa_node) : result (list numa_node) :=
  nodes ← validate_each nodes;
  mret (std_sort (fun a b => node_id a <? node_id b) nodes).

(** ** linux.hpp: the parsers *)

Definition numa_space (v : ascii) : bool :=
  is_char v " " || is_char v ch_tab || is_char v ch_cr || is_char v ch_lf.

Definition trim_numa_field (v : text) : text := trim numa_space v.

Definition maximum_index : Z := 1048576.

Definition range_list_item (field : text) (values : gset Z) : step (gset Z) (result (list Z)) :=
  let item := trim_numa_field field in
  if empty item then Return (fail errc_malformed_data)
  else
    let dash := find "-" item 0 in
    let first_text := match dash with None => item | Some dash => substr 0 dash item end in
    let last_text :=
      match dash with None => first_text | Some dash => substr_from (S dash) item end in
    if empty first_text || empty last_text ||
       match dash with
       | None => false
       | Some dash => match find "-" item (S dash) with Some _ => true | None => false end
       end
    then Return (fail errc_malformed_data)
    else
      let parsed_first := from_chars_unsigned uint32_max 10 first_text in
      let parsed_last := from_chars_unsigned uint32_max 10 last_text in
      let first := fc_value parsed_first in
      let last := fc_value parsed_last in
      if negb (consumed parsed_first first_text) || negb (consumed parsed_last last_text) ||
         (last <? first) || (maximum_index <? last)
      then Return (fail errc_malformed_data)
      else Next (insert_range first last values).

Definition back (l : text) : option ascii := last l.

Definition parse_range_list (input : text) : result (list Z) :=
  let input := trim_numa_field input in
  if empty input || bool_decide (head input = Some ","%char) || bool_decide (back input = Some ","%char)
  then fail errc_malformed_data
  else
    finish (each_field "," input range_list_item ∅)
      (fun values => if bool_decide (values = ∅) then fail errc_malformed_data
                     else Value (set_to_vector values)).

Definition distance_token (token : text) (distances : list Z) : step (list Z) (result (list Z)) :=
  let parsed := from_chars_unsigned uint32_max 10 token in
  if negb (consumed parsed token) then Return (fail errc_malformed_data)
  else Next (distances ++ [fc_value parsed]).

Definition parse_distance_list (input : text) : result (list Z) :=
  let input := trim_numa_field input in
  if empty input then Value []
  else finish (each_token numa_space (fun _ => true) input distance_token []) (fun s => Value (fst s)).

(** ** linux.hpp: the memory of a node *)

Record node_meminfo := Node_meminfo {
  total_bytes : option Z;
  free_bytes : option Z;
  used_bytes : option Z
}.

(** [text.size() >= suffix.size() && text.substr(text.size() - suffix.size()) == suffix] *)
Definition has_suffix (suffix input : text) : bool :=
  (length suffix <=? length input)%nat &&
  same (substr_from (length input - length suffix) input) suffix.

Definition parse_kb (val_str : text) : result Z :=
  let val_str := trim_numa_field val_str in
  if empty val_str then fail errc_malformed_data
  else
    let val_str :=
      if (2 <? length val_str)%nat &&
         (same (substr_from (length val_str - 2) val_str) (lit "kB") ||
          same (substr_from (length val_str - 2) val_str) (lit "KB"))
      then trim_numa_field (substr 0 (length val_str - 2) val_str) else val_str in
    let parsed := from_chars_unsigned uint64_max 10 val_str in
    if negb (consumed parsed val_str) then fail errc_malformed_data
    else if uint64_max / 1024 <? fc_value parsed then fail errc_malformed_data
    else Value (wrap 64 (fc_value parsed * 1024)).

Definition node_meminfo_line (line : text) (info : node_meminfo)
    : step node_meminfo (result node_meminfo) :=
  match find ":" line 0 with
  | None => Next info
  | Some colon =>
      let key := trim_numa_field (substr 0 colon line) in
      let value_str := trim_numa_field (substr_from (S colon) line) in
      if has_suffix (lit "MemTotal") key then
        res <-? parse_kb value_str; Next (Node_meminfo (Some res) (free_bytes info) (used_bytes info))
      else if has_suffix (lit "MemFree") key then
        res <-? parse_kb value_str; Next (Node_meminfo (total_bytes info) (Some res) (used_bytes info))
      else if has_suffix (lit "MemUsed") key then
        res <-? parse_kb value_str; Next (Node_meminfo (total_bytes info) (free_bytes info) (Some res))
      else Next info
  end.

(** What follows the loop: the used amount, when only the others are known. *)
Definition complete_meminfo (info : node_meminfo) : node_meminfo :=
  match total_bytes info, free_bytes info, used_bytes info with
  | Some total, Some free, None =>
      if free <=? total then Node_meminfo (Some total) (Some free) (Some (wrap 64 (total - free))) else info
  | _, _, _ => info
  end.

Definition parse_node_meminfo (input : text) : result node_meminfo :=
  finish (each_field ch_lf input node_meminfo_line (Node_meminfo None None None))
    (fun info => Value (complete_meminfo info)).

(** ** linux.hpp: the queries

    [access]: the [errno] when the path is not accessible.  [getcpu]: the node
    when the system call succeeds.  [sched_getcpu]: the value and the [errno]. *)

Class NumaKernel (W : Type) := {
  access : text -> W -> option Z * W;
  getcpu : W -> option Z * W;
  sched_getcpu : W -> (Z * Z) * W
}.

Definition sys_node_root : text := lit "/sys/devices/system/node".

(** A file that may be missing. *)
Definition optional_file {W A} `{Kernel W} (path : text) (maximum_size : Z)
    (parse : text -> result A) (missing : A) : query W A :=
  content ← attempt (read_text_file path maximum_size);
  pure (match content with
        | Value content => parse content
        | Failure e => if matches_std_errc e ENOENT then Value missing else Failure e
        end).

Section numa_queries.
Context {W : Type} `{Kernel W} `{NumaKernel W}.

Definition read_online_nodes_at (node_root : text) : query W (list Z) :=
  online_content ← read_text_file (node_root ++ lit "/online") 4096;
  pure (parse_range_list online_content).

Definition read_online_nodes : query W (list Z) := read_online_nodes_at sys_node_root.

Definition accessible (path : text) : query W unit := fun w =>
  match access path w with
  | (None, w) => (Value tt, w)
  | (Some errno, w) => ((if errno =? ENOENT then fail errc_not_found else fail_native errno), w)
  end.

Definition cpulist (content : text) : result (list Z) :=
  let trimmed_cpu := trim_numa_field content in
  if empty trimmed_cpu then Value [] else parse_range_list trimmed_cpu.

Definition read_single_node_at (id : Z) (online : bool) (node_root : text) : query W numa_node :=
  let node_dir := node_root ++ lit "/node" ++ to_decimal id in
  accessible node_dir;;
  cpus ← optional_file (node_dir ++ lit "/cpulist") 65536 cpulist [];
  mem ← optional_file (node_dir ++ lit "/meminfo") 65536 parse_node_meminfo (Node_meminfo None None None);
  dist ← optional_file (node_dir ++ lit "/distance") 16384 parse_distance_list [];
  pure (validate_numa_node
    (Numa_node id cpus (total_bytes mem) (free_bytes mem) (used_bytes mem) dist online)).

Definition read_single_node (id : Z) (online : bool) : query W numa_node :=
  read_single_node_at id online sys_node_root.

Definition node_at (id : Z) (node_root : text) : query W numa_node :=
  online_nodes ← read_online_nodes_at node_root;
  read_single_node_at id (binary_search online_nodes id) node_root.

Definition is_numa_available : query W bool :=
  online_nodes ← read_online_nodes; mret (1 <? length online_nodes)%nat.

Definition node_count : query W Z :=
  online_nodes ← read_online_nodes; mret (wrap 32 (Z.of_nat (length online_nodes))).

Fixpoint nodes_loop (online_nodes : list Z) : query W (list numa_node) :=
  match online_nodes with
  | [] => mret []
  | id :: online_nodes =>
      n ← read_single_node id true;
      rest ← nodes_loop online_nodes;
      mret (n :: rest)
  end.

Definition nodes : query W (list numa_node) :=
  online_nodes ← read_online_nodes;
  result_nodes ← nodes_loop online_nodes;
  pure (validate_numa_nodes result_nodes).

Definition node (id : Z) : query W numa_node := node_at id sys_node_root.

(** The search of [current_thread_node] for the node of a processor. *)
Definition node_of_processor (cpu : Z) (all_nodes : list numa_node) : result Z :=
  match list_find (fun n => binary_search (logical_processors n) cpu) all_nodes with
  | Some (_, n) => Value (node_id n)
  | None => fail errc_temporarily_unavailable
  end.

Definition current_thread_node : query W Z := fun w =>
  match getcpu w with
  | (Some node_val, w) => (Value node_val, w)
  | (None, w) =>
      match sched_getcpu w with
      | ((sched_cpu, errno), w) =>
          if sched_cpu <? 0 then (fail_native errno, w)
          else (all_nodes ← nodes; pure (node_of_processor (wrap 32 sched_cpu) all_nodes)) w
      end
  end.

End numa_queries.

(** ** The two parsers of processor lists *)

(** The list parser of the memory nodes is that of the processors, except
    that it refuses a comma at the end. *)
Theorem parse_range_list_cpu (input : text) :
  parse_range_list input =
  if bool_decide (last (trim_numa_field input) = Some ","%char) then fail errc_malformed_data
  else parse_cpu_list input.
Proof.
  unfold parse_range_list, parse_cpu_list, back. change (trim_cpu_field input) with (trim_numa_field input).
  set (l := trim_numa_field input). change range_list_item with parse_cpu_list_item.
  destruct (empty l) eqn:E; [by destruct (bool_decide (last l = _))|]. apply empty_false in E. cbn [orb].
  rewrite !each_field_fields. pose proof (cpu_list_fold l E) as H.
  destruct (bool_decide (last l = _)); [by rewrite orb_true_r|]. rewrite orb_false_r.
  case_bool_decide as Hh.
  { destruct l as [|c l']; [done|]. by injection Hh as ->. }
  destruct (fold_steps _ _ _) as [s|r]; [|done]. cbn [finish]. destruct H as [Hs _].
  by rewrite bool_decide_eq_false_2.
Qed.

Lemma parse_range_list_bounds input l :
  parse_range_list input = Value l ->
  StronglySorted Z.lt l /\ l <> [] /\ Forall (fun x => 0 <= x <= maximum_index) l.
Proof.
  unfold parse_range_list. destruct (empty _) eqn:E; [done|]. apply empty_false in E. cbn [orb].
  split_if; [done|]. rewrite each_field_fields. pose proof (cpu_list_fold _ E) as Hfold.
  change range_list_item with parse_cpu_list_item.
  destruct (fold_steps _ _ _) as [s|r]; cbn [finish]; [|by subst r]. destruct Hfold as [Hs Hx].
  case_bool_decide; [done|]. intros [= <-]. split; [apply set_to_vector_sorted|].
  rewrite set_to_vector_nil. split; [done|]. apply Forall_forall. intros x. rewrite elem_of_set_to_vector.
  apply Hx.
Qed.

(** ** What the nodes satisfy *)

Definition node_ok (n : numa_node) : Prop :=
  StronglySorted Z.lt (logical_processors n) /\
  (forall total free, total_memory_bytes n = Some total -> free_memory_bytes n = Some free -> free <= total) /\
  (forall total used, total_memory_bytes n = Some total -> used_memory_bytes n = Some used -> used <= total).

Lemma unique_subset x l : x ∈ unique l <-> x ∈ l.
Proof.
  induction l as [|a l IH]; [done|]. destruct l as [|b l]; [done|].
  change (unique (a :: b :: l)) with (if a =? b then unique (b :: l) else a :: unique (b :: l)).
  destruct (Z.eqb_spec a b) as [->|Hab].
  - rewrite IH, (elem_of_cons (b :: l)). split; [by right|]. intros [->|Hx]; [by left|done].
  - by rewrite !(elem_of_cons _ x a), IH.
Qed.

Lemma unique_sorted l : StronglySorted Z.le l -> StronglySorted Z.lt (unique l).
Proof.
  induction l as [|a l IH]; [by constructor|]. intros [Hs Hf]%StronglySorted_inv.
  destruct l as [|b l]; [by repeat constructor|]. specialize (IH Hs).
  change (unique (a :: b :: l)) with (if a =? b then unique (b :: l) else a :: unique (b :: l)).
  destruct (Z.eqb_spec a b) as [|Hab]; [done|]. constructor; [done|].
  apply Forall_forall. intros x Hx. rewrite unique_subset in Hx.
  apply StronglySorted_inv in Hs as [_ Hb]. apply Forall_cons in Hf as [Hle _].
  apply elem_of_cons in Hx as [->|Hx]; [lia|]. eapply Forall_forall in Hb; [|exact Hx]. lia.
Qed.

Lemma is_sorted_spec l : is_sorted l = true -> StronglySorted Z.le l.
Proof.
  induction l as [|a l IH]; [by constructor|]. destruct l as [|b l]; [by repeat constructor|].
  change (is_sorted (a :: b :: l)) with ((a <=? b) && is_sorted (b :: l)).
  intros [Hab Hl]%andb_true_iff. specialize (IH Hl). constructor; [done|].
  apply StronglySorted_inv in IH as [_ Hb]. constructor; [lia|].
  eapply Forall_impl; [exact Hb|]. simpl. lia.
Qed.

Lemma not_after_ltb : (forall a b, not_after Z.ltb a b <-> a <= b).
Proof. intros a b. unfold not_after. rewrite Z.ltb_ge. lia. Qed.

Lemma std_sort_Z l : StronglySorted Z.le (std_sort Z.ltb l).
Proof.
  eapply StronglySorted_weaken; [|apply std_sort_sorted].
  - intros a b. apply not_after_ltb.
  - intros a b c. rewrite !not_after_ltb. lia.
  - intros a b. rewrite !not_after_ltb. lia.
Qed.

Lemma exceeds_false amount total :
  exceeds amount total = false <->
  forall t a, total = Some t -> amount = Some a -> a <= t.
Proof.
  unfold exceeds. destruct amount as [a|], total as [t|]; try (split; intros; congruence).
  rewrite Z.ltb_ge. split; [intros H t' a' [= <-] [= <-]; done|auto].
Qed.

Lemma validate_numa_node_value n n' :
  validate_numa_node n = Value n' ->
  node_ok n' /\ node_id n' = node_id n /\ is_online n' = is_online n /\
  (forall x, x ∈ logical_processors n' <-> x ∈ logical_processors n).
Proof.
  unfold validate_numa_node. destruct (exceeds (free_memory_bytes n) _) eqn:Hf; [done|].
  destruct (exceeds (used_memory_bytes n) _) eqn:Hu; [done|]. rewrite exceeds_false in Hf, Hu.
  intros [= <-]. unfold node_ok. cbn.
  assert (forall l, StronglySorted Z.lt (unique (if negb (is_sorted l) then std_sort Z.ltb l else l))) as Hs.
  { intros l. apply unique_sorted. destruct (is_sorted l) eqn:E; [by apply is_sorted_spec|apply std_sort_Z]. }
  split_and!; [apply Hs|exact Hf|exact Hu|done|done|].
  intros x. rewrite unique_subset. destruct (is_sorted _); [done|]. cbn [negb].
  by rewrite std_sort_permutation.
Qed.

Lemma validate_each_value l l' :
  validate_each l = Value l' -> Forall2 (fun n n' => validate_numa_node n = Value n') l l'.
Proof.
  revert l'. induction l as [|n l IH]; intros l'; cbn [validate_each]; [by intros [= <-]|].
  destruct (validate_numa_node n) as [m|e] eqn:E; [|done].
  destruct (validate_each l) as [k|e]; [|done]. intros [= <-]. constructor; [done|]. by apply IH.
Qed.

Lemma validate_nodes_value l l' :
  validate_numa_nodes l = Value l' -> StronglySorted Z.lt (node_id <$> l) ->
  node_id <$> l' = node_id <$> l /\ Forall node_ok l' /\
  (Forall (fun n => is_online n = true) l -> Forall (fun n => is_online n = true) l').
Proof.
  unfold validate_numa_nodes. destruct (validate_each l) as [k|e] eqn:E; [|done]. intros [= <-] Hs.
  apply validate_each_value in E. set (lt := fun a b => node_id a <? node_id b).
  assert (node_id <$> k = node_id <$> l) as Hid.
  { clear Hs. induction E as [|n n' l k Hn _ IH]; [done|]. csimpl. rewrite IH. f_equal.
    by apply validate_numa_node_value in Hn as (_ & -> & _). }
  assert (StronglySorted Z.le (node_id <$> std_sort lt k)) as Hsort.
  { assert (StronglySorted (not_after lt) (std_sort lt k)) as H.
    { apply std_sort_sorted; intros a b; unfold not_after, lt; rewrite ?Z.ltb_ge; [intros c; rewrite !Z.ltb_ge|]; lia. }
    clear -H. induction H as [|n m _ IH Hm]; csimpl; constructor; [done|]. apply Forall_fmap.
    eapply Forall_impl; [exact Hm|]. intros x. unfold not_after, lt. simpl. rewrite Z.ltb_ge. lia. }
  split_and!.
  - rewrite <- Hid. apply (StronglySorted_unique Z.le); [done| |by rewrite std_sort_permutation].
    rewrite Hid. eapply StronglySorted_weaken; [|exact Hs]. intros ???; lia.
  - rewrite std_sort_permutation. clear -E. induction E as [|n n' l k Hn _ IH]; constructor; [|done].
    by apply validate_numa_node_value in Hn as (? & _).
  - intros Ho. rewrite std_sort_permutation. clear -E Ho. induction E as [|n n' l k Hn _ IH]; [done|].
    apply Forall_cons in Ho as [Hon Ho]. constructor; [|by apply IH].
    by apply validate_numa_node_value in Hn as (_ & _ & -> & _).
Qed.

Section numa_results.
Context {W : Type} `{Kernel W} `{NumaKernel W}.

Lemma read_single_node_yields id online root :
  yields (read_single_node_at id online root)
    (fun n => node_ok n /\ node_id n = id /\ is_online n = online /\
              Forall (fun x => 0 <= x <= maximum_index) (logical_processors n)).
Proof.
  unfold read_single_node_at. apply yields_skip. intros _.
  apply (yields_bind _ _ (Forall (fun x => 0 <= x <= maximum_index))).
  { unfold optional_file. apply yields_skip. intros content. apply yields_pure. intros l.
    destruct content as [c|e]; [|split_if; [by intros [= <-]|done]].
    unfold cpulist. split_if; [by intros [= <-]|]. intros Hl. by apply parse_range_list_bounds in Hl as (_ & _ & ?). }
  intros cpus Hcpus. apply yields_skip. intros mem. apply yields_skip. intros dist.
  apply yields_pure. intros n Hn. apply validate_numa_node_value in Hn as (Hok & Hid & Hon & Hx).
  split_and!; [done..|]. apply Forall_forall. intros x Hm. rewrite Hx in Hm. eapply Forall_forall in Hcpus; [|exact Hm]. done.
Qed.

Lemma nodes_loop_yields ids :
  yields (nodes_loop ids)
    (fun l => node_id <$> l = ids /\ Forall (fun n => is_online n = true) l).
Proof.
  induction ids as [|id ids IH]; cbn [nodes_loop]; [by apply yields_ret|].
  eapply yields_bind; [apply read_single_node_yields|]. intros n (_ & Hid & Hon & _).
  eapply yields_bind; [apply IH|]. intros l [Hl Ho]. apply yields_ret. csimpl. rewrite Hid, Hl. auto.
Qed.

(** The list of memory nodes holds exactly the nodes the online file
    names, in ascending order and each once, all marked online; each node's
    processors are strictly ascending, and neither its free nor its used
    memory exceeds its total. *)
Theorem nodes_listed (w : W) (l : list numa_node) (w' : W) :
  nodes w = (Value l, w') ->
  exists content, fst (read_text_file (sys_node_root ++ lit "/online") 4096 w) = Value content /\
    parse_range_list content = Value (node_id <$> l) /\
    StronglySorted Z.lt (node_id <$> l) /\
    Forall node_ok l /\ Forall (fun n => is_online n = true) l.
Proof.
  unfold nodes, read_online_nodes, read_online_nodes_at. unfold mbind, query_bind.
  destruct (read_text_file _ _ w) as [[content|e] w1]; [|done]. cbn [pure].
  destruct (parse_range_list content) as [ids|e] eqn:Hp; [|done].
  destruct (nodes_loop ids w1) as [[raw|e] w2] eqn:Hloop; [|done]. cbn [pure]. intros Hv.
  injection Hv as Hv <-. apply nodes_loop_yields in Hloop as [Hids Hon].
  apply parse_range_list_bounds in Hp as Hs. destruct Hs as (Hs & _ & _).
  apply validate_nodes_value in Hv as (Hid & Hok & Hall); [|by rewrite Hids].
  exists content. rewrite Hid, Hids. split_and!; [done|done|done|done|by apply Hall].
Qed.

End numa_results.

(** Two nodes, the second without processors and without a distance file. *)
Definition two_node_files : list (string * string) := [
  ("/sys/devices/system/node/online", "0-1"); ("/sys/devices/system/node/node0/cpulist", "0-1,4");
  ("/sys/devices/system/node/node0/meminfo", "Node 0 MemTotal: 100 kB");
  ("/sys/devices/system/node/node0/distance", "10 20"); ("/sys/devices/system/node/node1/cpulist", "");
  ("/sys/devices/system/node/node1/meminfo", "Node 1 MemFree: 3 kB")]%string.

Definition all_accessible : NumaKernel unit := {|
  access path w := (None, w); getcpu w := (None, w); sched_getcpu w := ((4, 0), w)
|}.

Lemma nodes_listed_witness :
  let l := [Numa_node 0 [0; 1; 4] (Some 102400) None None [10; 20] true;
            Numa_node 1 [] None (Some 3072) None [] true] in
  @nodes unit (static_kernel two_node_files) all_accessible tt = (Value l, tt) /\
  @current_thread_node unit (static_kernel two_node_files) all_accessible tt = (Value 0, tt) /\
  exists content, fst (@read_text_file unit (static_kernel two_node_files)
                         (sys_node_root ++ lit "/online") 4096 tt) = Value content /\
    parse_range_list content = Value (node_id <$> l) /\
    StronglySorted Z.lt (node_id <$> l) /\
    Forall node_ok l /\ Forall (fun n => is_online n = true) l.
Proof.
  intros l.
  assert (@nodes unit (static_kernel two_node_files) all_accessible tt = (Value l, tt)) as Hl
    by (vm_compute; reflexivity).
  split; [exact Hl|]. split; [vm_compute; reflexivity|].
  exact (@nodes_listed unit (static_kernel two_node_files) all_accessible tt l tt Hl).
Defined.
