(* ===== verification/Display.v ===== *)
(** * Displays: modes, connectors and the EDID block

    The records of [include/syscape/display.hpp],
    [include/syscape/detail/display/common.hpp] and
    [include/syscape/detail/display/linux.hpp].  The EDID block is the text of
    its bytes and a pointer an index into it ([Buffer]). *)
From S2P Require Import Prelude Result CppText Utf8 System Buffer Float.

(** ** display.hpp *)

Inductive display_orientation :=
  | orientation_unknown | landscape | portrait | landscape_flipped | portrait_flipped.

Inductive connection_state := connection_unknown | connected | disconnected.

Record display_rect := Display_rect {
  rect_x : Z;
  rect_y : Z;
  rect_width : Z;
  rect_height : Z
}.

Record display_mode := Display_mode {
  mode_width : Z;
  mode_height : Z;
  mode_refresh : option double
}.

Record display_info := Display_info {
  di_id : text;
  di_name : option text;
  di_manufacturer : option text;
  connector_type : option text;
  is_primary : bool;
  is_internal : bool;
  connection : connection_state;
  bounds : option display_rect;
  work_area : option display_rect;
  current_width : option Z;
  current_height : option Z;
  refresh_rate_hz : option double;
  bits_per_pixel : option Z;
  scale_factor : option double;
  orientation : option display_orientation;
  di_physical_width : option Z;
  di_physical_height : option Z;
  supported_modes : list display_mode
}.

(** ** common.hpp: modes *)

Definition maximum_edid_size : nat := 128 * 256.

Definition display_blank (c : ascii) : bool :=
  is_char c ch_nul || is_char c " " || is_char c ch_tab || is_char c ch_cr || is_char c ch_lf.

Definition trim_whitespace (input : text) : text := drop_front display_blank (drop_back display_blank input).

(** [from_chars] over the whole of a part, which must not be zero. *)
Definition mode_extent (part : text) : result Z :=
  let res := from_chars_unsigned uint32_max 10 part in
  if negb (consumed res part) || (fc_value res =? 0) then fail errc_malformed_data
  else Value (fc_value res).

Definition parse_mode_resolution (input : text) : result (Z * Z) :=
  let trimmed := trim_whitespace input in
  match find_first_of (lit "xX") trimmed with
  | None => fail errc_malformed_data
  | Some x_pos =>
      if (x_pos =? 0)%nat || (x_pos =? length trimmed - 1)%nat then fail errc_malformed_data
      else
        width ← mode_extent (substr 0 x_pos trimmed);
        height ← mode_extent (substr_from (S x_pos) trimmed);
        mret (width, height)
  end.

(** ** common.hpp: the EDID block *)

Record edid_facts := Edid_facts {
  manufacturer : option text;
  product_code : option Z;
  monitor_name : option text;
  physical_width_mm : option Z;
  physical_height_mm : option Z;
  preferred_width : option Z;
  preferred_height : option Z;
  preferred_refresh_rate_hz : option double
}.

Definition edid_header : text := char_of <$> [0x00; 0xFF; 0xFF; 0xFF; 0xFF; 0xFF; 0xFF; 0x00].

Definition checksum_add (checksum : Z) (c : ascii) : Z := wrap 8 (checksum + code c).

Fixpoint checksum_loop (blocks : list nat) (data : text) : checked unit :=
  match blocks with
  | [] => mret tt
  | block :: blocks =>
      bytes ← slice data (block * 128) 128;
      if negb (foldl checksum_add 0 bytes =? 0) then check (fail errc_malformed_data)
      else checksum_loop blocks data
  end.

(** The letters packed in the manufacturer code. *)
Definition packed_letter (mfg_raw shift : Z) : Z := Z.land (Z.shiftr mfg_raw shift) 0x1F + 65 - 1.

Definition manufacturer_of (high low : Z) : option text :=
  let mfg_raw := Z.lor (Z.shiftl high 8) low in
  let letters := [packed_letter mfg_raw 10; packed_letter mfg_raw 5; packed_letter mfg_raw 0] in
  if forallb (fun c => (65 <=? c) && (c <=? 90)) letters then Some (char_of <$> letters) else None.

Definition product_of (low high : Z) : option Z :=
  let prod_code := Z.lor low (Z.shiftl high 8) in
  if negb (prod_code =? 0) then Some prod_code else None.

Definition size_of (h_cm v_cm : Z) : option (Z * Z) :=
  if (0 <? h_cm) && (0 <? v_cm) then Some (h_cm * 10, v_cm * 10) else None.

Definition with_monitor_name (name : text) (f : edid_facts) : edid_facts :=
  Edid_facts (manufacturer f) (product_code f) (Some name) (physical_width_mm f) (physical_height_mm f)
    (preferred_width f) (preferred_height f) (preferred_refresh_rate_hz f).

Definition with_preferred (width height : Z) (rate : double) (f : edid_facts) : edid_facts :=
  Edid_facts (manufacturer f) (product_code f) (monitor_name f) (physical_width_mm f)
    (physical_height_mm f) (Some width) (Some height) (Some rate).

(** [pix_clock_hz / (h_total * v_total)] *)
Definition refresh_rate (pix_clock_10khz h_total v_total : Z) : double :=
  double_div (double_mul (to_double pix_clock_10khz) (to_double 10000))
    (double_mul (to_double h_total) (to_double v_total)).

(** A detailed timing: what it adds to the facts. *)
Definition timing_facts (blk : nat -> Z) (facts : edid_facts) : edid_facts :=
  let pix_clock_10khz := Z.lor (blk 0%nat) (Z.shiftl (blk 1%nat) 8) in
  if (0 <? pix_clock_10khz) && negb (bool_decide (is_Some (preferred_width facts))) then
    let h_active := Z.lor (blk 2%nat) (Z.shiftl (Z.land (blk 4%nat) 0xF0) 4) in
    let h_blanking := Z.lor (blk 3%nat) (Z.shiftl (Z.land (blk 4%nat) 0x0F) 8) in
    let v_active := Z.lor (blk 5%nat) (Z.shiftl (Z.land (blk 7%nat) 0xF0) 4) in
    let v_blanking := Z.lor (blk 6%nat) (Z.shiftl (Z.land (blk 7%nat) 0x0F) 8) in
    let h_total := h_active + h_blanking in
    let v_total := v_active + v_blanking in
    if (0 <? h_active) && (0 <? v_active) && (0 <? h_total) && (0 <? v_total)
    then with_preferred h_active v_active (refresh_rate pix_clock_10khz h_total v_total) facts
    else facts
  else facts.

(** One descriptor of eighteen bytes, read from the address [off]. *)
Definition descriptor (data : text) (off : nat) (facts : edid_facts) : checked edid_facts :=
  bytes ← slice data off 18;
  let blk i := code (nth i bytes ch_nul) in
  if (blk 0%nat =? 0) && (blk 1%nat =? 0) && (blk 2%nat =? 0) then
    if blk 3%nat =? 0xFC then
      let name := trim_whitespace (substr 5 13 bytes) in
      if negb (empty name) then
        if negb (is_valid_utf8 name) then check (fail errc_invalid_encoding)
        else mret (with_monitor_name name facts)
      else mret facts
    else mret facts
  else mret (timing_facts blk facts).

Fixpoint descriptor_loop (offsets : list nat) (data : text) (facts : edid_facts) : checked edid_facts :=
  match offsets with
  | [] => mret facts
  | off :: offsets => facts ← descriptor data off facts; descriptor_loop offsets data facts
  end.

(** The facts of a base block whose header and checksums are right. *)
Definition parse_base_block (data : text) : checked edid_facts :=
  identity ← slice data 8 4;
  h_cm ← byte_at data 21;
  v_cm ← byte_at data 22;
  let id i := code (nth i identity ch_nul) in
  let extent := size_of (code h_cm) (code v_cm) in
  descriptor_loop [54; 72; 90; 108]%nat data
    (Edid_facts (manufacturer_of (id 0%nat) (id 1%nat)) (product_of (id 2%nat) (id 3%nat)) None
       (fst <$> extent) (snd <$> extent) None None None).

Definition parse_edid_block (data : text) (size : nat) : checked edid_facts :=
  if (size <? 128)%nat || (maximum_edid_size <? size)%nat || negb (size mod 128 =? 0)%nat
  then check (fail errc_malformed_data)
  else
    header ← slice data 0 8;
    if negb (same header edid_header) then check (fail errc_malformed_data)
    else
      extensions ← byte_at data 126;
      let block_count := (Z.to_nat (code extensions) + 1)%nat in
      if negb (size =? block_count * 128)%nat then check (fail errc_malformed_data)
      else
        checksum_loop (seq 0 block_count) data;;
        parse_base_block data.

(** ** common.hpp: connectors *)

Definition decimal_text (l : text) : bool := forallb (fun c => (48 <=? code c) && (code c <=? 57)) l.

Definition internal_types : list text :=
  lit <$> ["eDP"; "LVDS"; "DSI"; "edp"; "lvds"; "dsi"]%string.

(** The connector type, and whether it is an internal panel. *)
Definition classify_connector_name (connector_name : text) : text * bool :=
  let name :=
    if same (substr 0 4 connector_name) (lit "card") then
      match find "-" connector_name 0 with
      | Some dash =>
          if (S dash <? length connector_name)%nat then substr_from (S dash) connector_name
          else connector_name
      | None => connector_name
      end
    else connector_name in
  let type_part :=
    match rfind "-" name with
    | Some last_dash =>
        if (0 <? last_dash)%nat && decimal_text (substr_from (S last_dash) name)
        then substr 0 last_dash name else name
    | None => name
    end in
  (type_part, bool_decide (type_part ∈ internal_types)).

(** ** linux.hpp *)

Definition drm_class_root : text := lit "/sys/class/drm/".

Definition is_connector_name (name : text) : bool :=
  if (length name <=? 6)%nat || negb (same (substr 0 4 name) (lit "card")) then false
  else
    match find "-" name 0 with
    | None => false
    | Some dash => if (dash <=? 4)%nat then false else decimal_text (substr 4 (dash - 4) name)
    end.

Definition connection_of (status_text : text) : connection_state :=
  let trimmed := trim_whitespace status_text in
  if same trimmed (lit "connected") then connected
  else if same trimmed (lit "disconnected") then disconnected
  else connection_unknown.

(** A line of the mode list. *)
Definition mode_line (line : text) (modes : list display_mode)
    : step (list display_mode) (result (list display_mode)) :=
  let line := trim_whitespace line in
  if empty line then Next modes
  else
    match parse_mode_resolution line with
    | Failure _ => Next modes
    | Value (width, height) =>
        if existsb (fun mode => (mode_width mode =? width) && (mode_height mode =? height)) modes
        then Next modes
        else Next (modes ++ [Display_mode width height None])
    end.

Definition parse_modes (modes_text : text) : result (list display_mode) :=
  finish (each_field ch_lf modes_text mode_line []) Value.

(** The preferred mode gets the refresh rate of the EDID block. *)
Fixpoint rate_mode (width height : Z) (rate : double) (modes : list display_mode) : list display_mode :=
  match modes with
  | [] => []
  | mode :: modes =>
      if (mode_width mode =? width) && (mode_height mode =? height)
      then Display_mode width height (Some rate) :: modes
      else mode :: rate_mode width height rate modes
  end.

Definition rated_modes (facts : edid_facts) (modes : list display_mode) : list display_mode :=
  match preferred_refresh_rate_hz facts, preferred_width facts, preferred_height facts with
  | Some rate, Some width, Some height => rate_mode width height rate modes
  | _, _, _ => modes
  end.

(** ** Safety of the block parser *)

Lemma checksum_loop_ensures blocks data :
  Forall (fun b => (b * 128 + 128 <= length data)%nat) blocks ->
  ensures (checksum_loop blocks data) (fun _ => True).
Proof.
  induction 1 as [|b blocks Hb _ IH]; cbn [checksum_loop]; [done|].
  eapply ensures_bind; [by apply ensures_slice|]. intros bytes _. split_if; [apply ensures_fail|done].
Qed.

Lemma descriptor_ensures data off facts :
  (off + 18 <= length data)%nat -> ensures (descriptor data off facts) (fun _ => True).
Proof.
  intros H. unfold descriptor. eapply ensures_bind; [by apply ensures_slice|]. intros bytes _.
  by repeat split_if.
Qed.

Lemma descriptor_loop_ensures offsets data facts :
  Forall (fun off => (off + 18 <= length data)%nat) offsets ->
  ensures (descriptor_loop offsets data facts) (fun _ => True).
Proof.
  intros H. revert facts. induction H as [|off offsets Ho _ IH]; intros facts; cbn [descriptor_loop]; [done|].
  eapply ensures_bind; [by apply descriptor_ensures|]. intros f _. apply IH.
Qed.

Lemma parse_edid_ensures data : ensures (parse_edid_block data (length data)) (fun _ => True).
Proof.
  unfold parse_edid_block. destruct (_ || _) eqn:Hsize; [apply ensures_fail|].
  rewrite !orb_false_iff, Nat.ltb_ge in Hsize. destruct Hsize as [[Hs _] _].
  eapply ensures_bind; [apply ensures_slice; lia|]. intros header _. split_if; [apply ensures_fail|].
  eapply ensures_bind; [apply ensures_byte_at; lia|]. intros ext _.
  destruct (Nat.eqb_spec (length data) ((Z.to_nat (code ext) + 1) * 128)) as [Hl|]; [|apply ensures_fail].
  cbn [negb]. eapply ensures_bind.
  { apply checksum_loop_ensures, Forall_forall. intros b Hb%elem_of_seq. lia. }
  intros _ _. unfold parse_base_block. eapply ensures_bind; [apply ensures_slice; lia|]. intros identity _.
  eapply ensures_bind; [apply ensures_byte_at; lia|]. intros h_cm _.
  eapply ensures_bind; [apply ensures_byte_at; lia|]. intros v_cm _.
  apply descriptor_loop_ensures. repeat constructor; lia.
Qed.

Lemma parse_edid_is_some data : is_Some (parse_edid_block data (length data)).
Proof. eapply ensures_is_some, parse_edid_ensures. Qed.

(** ** linux.hpp: the queries *)

Definition decode_edid (data : text) : result edid_facts := is_Some_proj (parse_edid_is_some data).

Definition merge_edid (facts : edid_facts) (info : display_info) : display_info :=
  let or_else {A} (v d : option A) := match v with Some _ => v | None => d end in
  Display_info (di_id info) (or_else (monitor_name facts) (di_name info))
    (or_else (manufacturer facts) (di_manufacturer info)) (connector_type info) (is_primary info)
    (is_internal info) (connection info) (bounds info) (work_area info) (current_width info)
    (current_height info) (refresh_rate_hz info) (bits_per_pixel info) (scale_factor info)
    (orientation info) (or_else (physical_width_mm facts) (di_physical_width info))
    (or_else (physical_height_mm facts) (di_physical_height info))
    (rated_modes facts (supported_modes info)).

(** The record before the EDID block is read. *)
Definition connector_info (conn_id : text) (state : connection_state) (modes : list display_mode)
    : display_info :=
  let '(type_part, internal) := classify_connector_name conn_id in
  Display_info conn_id None None (Some type_part) false internal state None None None None None None
    None None None None modes.

Section display_queries.
Context {W : Type} `{Kernel W}.

Definition inspect_connector (conn_id conn_path : text) : query W display_info :=
  pure (reject (negb (is_valid_utf8 conn_id)) errc_invalid_encoding);;
  status_text ← content_if_any (conn_path ++ lit "/status") 64;
  let state := match status_text with Some t => connection_of t | None => connection_unknown end in
  modes_text ← content_if_any (conn_path ++ lit "/modes") 4096;
  modes ← pure (match modes_text with Some t => parse_modes t | None => Value [] end);
  let info := connector_info conn_id state modes in
  edid_data ← content_if_any (conn_path ++ lit "/edid") (Z.of_nat maximum_edid_size);
  pure (match edid_data with
        | Some data =>
            if empty data then Value info
            else facts ← decode_edid data; mret (merge_edid facts info)
        | None => Value info
        end).

Fixpoint connector_loop (names : list text) (found : list display_info) : query W (list display_info) :=
  match names with
  | [] => mret found
  | entry_name :: names =>
      if same entry_name (lit ".") || same entry_name (lit "..") || negb (is_connector_name entry_name)
      then connector_loop names found
      else
        inspected ← attempt (inspect_connector entry_name (drm_class_root ++ entry_name));
        match inspected with
        | Value info => connector_loop names (found ++ [info])
        | Failure e =>
            if matches_std_errc e ENOENT then connector_loop names found else pure (Failure e)
        end
  end.

(** The names [readdir] gives are listed before the connectors are inspected. *)
Definition collect_displays : query W (list display_info) := fun w =>
  match list_directory drm_class_root w with
  | (inl errno, w) => ((if errno =? ENOENT then fail errc_not_supported else fail_native errno), w)
  | (inr (names, errno), w) =>
      (found ← connector_loop names [];
       if negb (errno =? 0) then pure (fail_native errno)
       else mret (std_sort (fun a b => text_less (di_id a) (di_id b)) found)) w
  end.

Definition displays : query W (list display_info) := collect_displays.

Definition display_count : query W Z := res ← collect_displays; mret (Z.of_nat (length res)).

Definition primary_of (l : list display_info) : result display_info :=
  match l with
  | [] => fail errc_not_found
  | _ => match list_find is_primary l with Some (_, d) => Value d | None => fail errc_not_found end
  end.

Definition primary_display : query W display_info := res ← collect_displays; pure (primary_of res).

End display_queries.

(** ** The block a monitor stores

    A specification: the layout of the base block with its four descriptors,
    and the checksum that ends every block. *)

Inductive block_descriptor :=
  | Monitor_name (reserved : Z) (name : list Z)
  | Other_descriptor (tag : Z) (payload : list Z)
  | Timing (clock h_active h_blanking v_active v_blanking : Z) (rest : list Z)
  | Unclocked (first : Z) (rest : list Z).

Definition encode_descriptor (d : block_descriptor) : list Z :=
  match d with
  | Monitor_name reserved name => [0; 0; 0; 0xFC; reserved] ++ name
  | Other_descriptor tag payload => [0; 0; 0; tag] ++ payload
  | Timing clock ha hb va vb rest =>
      [clock mod 256; clock / 256; ha mod 256; hb mod 256; ha / 256 * 16 + hb / 256;
       va mod 256; vb mod 256; va / 256 * 16 + vb / 256] ++ rest
  | Unclocked first rest => [0; 0; first] ++ rest
  end.

Definition bytes_of (n : nat) (l : list Z) : Prop := length l = n /\ Forall is_byte l.

Definition descriptor_ok (d : block_descriptor) : Prop :=
  match d with
  | Monitor_name reserved name => is_byte reserved /\ bytes_of 13 name
  | Other_descriptor tag payload => is_byte tag /\ tag <> 0xFC /\ bytes_of 14 payload
  | Timing clock ha hb va vb rest =>
      0 < clock < 65536 /\ 0 <= ha < 4096 /\ 0 <= hb < 4096 /\ 0 <= va < 4096 /\ 0 <= vb < 4096 /\
      bytes_of 10 rest
  | Unclocked first rest => is_byte first /\ first <> 0 /\ bytes_of 15 rest
  end.

(** What a descriptor says: the first timing with a visible area is the
    preferred one, the last name that is not blank is the name. *)
Definition descriptor_effect (d : block_descriptor) (facts : edid_facts) : result edid_facts :=
  match d with
  | Monitor_name _ name =>
      let name := trim_whitespace (char_of <$> name) in
      if empty name then Value facts
      else if is_valid_utf8 name then Value (with_monitor_name name facts)
      else fail errc_invalid_encoding
  | Timing clock ha hb va vb _ =>
      match preferred_width facts with
      | None =>
          if (0 <? ha) && (0 <? va)
          then Value (with_preferred ha va (refresh_rate clock (ha + hb) (va + vb)) facts)
          else Value facts
      | Some _ => Value facts
      end
  | Other_descriptor _ _ | Unclocked _ _ => Value facts
  end.

Record edid := Edid {
  maker : Z * Z * Z * Z;
  product : Z;
  serial : list Z;
  width_cm : Z;
  height_cm : Z;
  timings : list Z;
  descriptors : list block_descriptor;
  edid_extensions : list (list Z)
}.

Definition sum_bytes (l : list Z) : Z := foldr Z.add 0 l.

Definition with_checksum (l : list Z) : list Z := l ++ [(- sum_bytes l) mod 256].

Definition maker_bytes (m : Z * Z * Z * Z) : list Z :=
  let '(spare, a, b, c) := m in
  let raw := spare * 32768 + a * 1024 + b * 32 + c in [raw / 256; raw mod 256].

Definition base_bytes (e : edid) : list Z :=
  [0x00; 0xFF; 0xFF; 0xFF; 0xFF; 0xFF; 0xFF; 0x00] ++
  (maker_bytes (maker e) ++ [product e mod 256; product e / 256]) ++ serial e ++
  [width_cm e; height_cm e] ++ timings e ++ concat (encode_descriptor <$> descriptors e) ++
  [Z.of_nat (length (edid_extensions e))].

Definition encode_edid (e : edid) : text :=
  char_of <$> concat (with_checksum <$> (base_bytes e :: edid_extensions e)).

Definition five_bits (n : Z) : Prop := 0 <= n < 32.

Definition edid_ok (e : edid) : Prop :=
  (let '(spare, a, b, c) := maker e in 0 <= spare < 2 /\ five_bits a /\ five_bits b /\ five_bits c) /\
  0 <= product e < 65536 /\ bytes_of 9 (serial e) /\ is_byte (width_cm e) /\ is_byte (height_cm e) /\
  bytes_of 31 (timings e) /\ length (descriptors e) = 4%nat /\ Forall descriptor_ok (descriptors e) /\
  (length (edid_extensions e) <= 255)%nat /\ Forall (bytes_of 127) (edid_extensions e).

Definition maker_text (m : Z * Z * Z * Z) : option text :=
  let '(_, a, b, c) := m in
  if forallb (fun n => (1 <=? n) && (n <=? 26)) [a; b; c]
  then Some (char_of <$> [64 + a; 64 + b; 64 + c]) else None.

Definition base_facts (e : edid) : edid_facts :=
  let sized := (0 <? width_cm e) && (0 <? height_cm e) in
  Edid_facts (maker_text (maker e)) (if product e =? 0 then None else Some (product e)) None
    (if sized then Some (width_cm e * 10) else None) (if sized then Some (height_cm e * 10) else None)
    None None None.

(** ** Reading it back *)

Lemma code_char_bytes l : Forall is_byte l -> code <$> (char_of <$> l) = l.
Proof.
  induction 1 as [|b l Hb _ IH]; csimpl; [done|]. rewrite IH. f_equal. apply code_char_of. exact Hb.
Qed.

Lemma nth_byte i l :
  Forall is_byte l -> (i < length l)%nat -> code (nth i (char_of <$> l) ch_nul) = nth i l 0.
Proof.
  intros Hl Hi. rewrite <- (code_char_bytes l Hl) at 2. revert i Hi. clear Hl.
  induction l as [|b l IH]; intros [|i] Hi; simpl in *; [lia|lia|done|]. apply IH. lia.
Qed.

Lemma encode_descriptor_bytes d : descriptor_ok d -> bytes_of 18 (encode_descriptor d).
Proof.
  unfold bytes_of, is_byte. destruct d; cbn [descriptor_ok encode_descriptor]; unfold bytes_of, is_byte.
  - intros (? & Hl & ?). rewrite length_app, Hl. split; [done|]. repeat (constructor; [lia|]). done.
  - intros (? & ? & Hl & ?). rewrite length_app, Hl. split; [done|]. repeat (constructor; [lia|]). done.
  - intros (? & ? & ? & ? & ? & Hl & ?). rewrite length_app, Hl. split; [done|].
    repeat (constructor; [|]); try done; Z.to_euclidean_division_equations; lia.
  - intros (? & ? & Hl & ?). rewrite length_app, Hl. split; [done|]. repeat (constructor; [lia|]). done.
Qed.

Lemma lor_shift8 a b : 0 <= a < 256 -> 0 <= b -> Z.lor a (Z.shiftl b 8) = b * 256 + a.
Proof.
  intros Ha Hb. rewrite Z.lor_comm, Z.shiftl_mul_pow2 by lia. rewrite (lor_add 8); [done|lia| |done].
  apply Z.mod_mul. lia.
Qed.

(** The two nibbles of a timing's shared byte. *)
Lemma high_nibble a b :
  0 <= a < 16 -> 0 <= b < 16 -> Z.shiftl (Z.land (a * 16 + b) 0xF0) 4 = Z.shiftl a 8.
Proof.
  intros Ha Hb.
  assert (forallb (fun a => forallb (fun b => Z.shiftl (Z.land (a * 16 + b) 0xF0) 4 =? Z.shiftl a 8)
                              (seqZ 0 16)) (seqZ 0 16) = true) as H by (vm_compute; reflexivity).
  rewrite forallb_forall in H. specialize (H a ltac:(apply list_elem_of_In, elem_of_seqZ; lia)).
  rewrite forallb_forall in H. specialize (H b ltac:(apply list_elem_of_In, elem_of_seqZ; lia)). lia.
Qed.

Lemma low_nibble a b : 0 <= b < 16 -> Z.land (a * 16 + b) 0x0F = b.
Proof.
  intros Hb. change 0x0F with (Z.ones 4). rewrite Z.land_ones by lia. change (2 ^ 4) with 16.
  rewrite Z.add_comm, Z.mod_add by lia. by apply Z.mod_small.
Qed.

Lemma timing_extent low high byte :
  0 <= low < 256 -> 0 <= high < 16 -> byte = Z.shiftl high 8 -> Z.lor low byte = high * 256 + low.
Proof. intros Hl Hh ->. apply lor_shift8; lia. Qed.

Lemma timing_facts_encoded clock ha hb va vb rest facts :
  descriptor_ok (Timing clock ha hb va vb rest) ->
  Value (timing_facts (fun i => nth i (encode_descriptor (Timing clock ha hb va vb rest)) 0) facts) =
  descriptor_effect (Timing clock ha hb va vb rest) facts.
Proof.
  cbn [descriptor_ok]. intros (Hc & Hha & Hhb & Hva & Hvb & _).
  unfold timing_facts, encode_descriptor. cbn [nth app].
  assert (forall n, 0 <= n < 4096 -> 0 <= n mod 256 < 256 /\ 0 <= n / 256 < 16 /\ n / 256 * 256 + n mod 256 = n)
    as Hsplit by (intros n Hn; Z.to_euclidean_division_equations; lia).
  destruct (Hsplit ha Hha) as (Ha1 & Ha2 & Ea), (Hsplit hb Hhb) as (Hb1 & Hb2 & Eb),
    (Hsplit va Hva) as (Hv1 & Hv2 & Ev), (Hsplit vb Hvb) as (Hw1 & Hw2 & Ew).
  rewrite (lor_shift8 (clock mod 256)) by (Z.to_euclidean_division_equations; lia).
  replace (clock / 256 * 256 + clock mod 256) with clock by (Z.to_euclidean_division_equations; lia).
  rewrite !low_nibble, !high_nibble by lia.
  rewrite !lor_shift8, Ea, Eb, Ev, Ew by lia.
  rewrite (proj2 (Z.ltb_lt 0 clock)) by lia. cbn [andb descriptor_effect].
  destruct (preferred_width facts) as [w|]; [done|]. rewrite bool_decide_eq_false_2 by (by intros [? [=]]).
  cbn [negb]. destruct (Z.ltb_spec 0 ha); [|done]. destruct (Z.ltb_spec 0 va); [|done].
  by rewrite !(proj2 (Z.ltb_lt _ _)) by lia.
Qed.

Lemma timing_facts_ext f g facts :
  (forall i, (i < 18)%nat -> f i = g i) -> timing_facts f facts = timing_facts g facts.
Proof. intros H. unfold timing_facts. by rewrite !H by lia. Qed.

Lemma unclocked_facts f facts : f 0%nat = 0 -> f 1%nat = 0 -> timing_facts f facts = facts.
Proof. intros H0 H1. unfold timing_facts. by rewrite H0, H1. Qed.

Lemma descriptor_encoded data off d facts :
  descriptor_ok d -> holds data off (char_of <$> encode_descriptor d) ->
  descriptor data off facts = check (descriptor_effect d facts).
Proof.
  intros Hd Hh. destruct (encode_descriptor_bytes d Hd) as [Hl Hb]. unfold descriptor.
  assert (length (char_of <$> encode_descriptor d) = 18%nat) as Hlen by (by rewrite length_fmap).
  rewrite (slice_holds _ _ _ 18 Hh Hlen). change (@mbind checked _) with checked_bind.
  cbn [checked_bind mret checked_ret].
  rewrite !nth_byte by (done || lia).
  assert (forall i, (i < 18)%nat -> code (nth i (char_of <$> encode_descriptor d) ch_nul) = nth i (encode_descriptor d) 0)
    as Hn by (intros i Hi; apply nth_byte; [done|lia]).
  destruct d as [reserved name|tag payload|clock ha hb va vb rest|first rest].
  - unfold encode_descriptor. cbn [nth app Z.eqb andb Pos.eqb].
    destruct Hd as (_ & Hname & _).
    assert (substr 5 13 (char_of <$> [0; 0; 0; 252; reserved] ++ name) = char_of <$> name) as E.
    { rewrite fmap_app. unfold substr. rewrite (drop_app_length' _ _ 5) by done.
      rewrite take_ge; [done|]. rewrite length_fmap. lia. }
    cbn [app] in E. rewrite E. unfold descriptor_effect. destruct (empty _); [done|].
    by destruct (is_valid_utf8 _).
  - cbn [encode_descriptor nth app Z.eqb andb]. destruct Hd as (_ & Ht & _).
    by rewrite (proj2 (Z.eqb_neq tag 0xFC)).
  - rewrite (timing_facts_ext _ _ facts Hn). rewrite <- timing_facts_encoded by done.
    destruct Hd as (Hc & _). cbn [encode_descriptor nth app].
    destruct (Z.eqb_spec (clock mod 256) 0) as [E|]; [|done].
    rewrite (proj2 (Z.eqb_neq (clock / 256) 0)) by (Z.to_euclidean_division_equations; lia). done.
  - cbn [encode_descriptor nth app Z.eqb andb]. destruct Hd as (_ & Hf & _).
    rewrite (proj2 (Z.eqb_neq first 0)) by done. by rewrite unclocked_facts.
Qed.

(** ** Checksums and blocks *)

Lemma checksum_sum l s :
  Forall is_byte l -> 0 <= s < 256 ->
  foldl checksum_add s (char_of <$> l) = (s + sum_bytes l) mod 256.
Proof.
  intros Hl. revert s. induction Hl as [|b l Hb _ IH]; intros s Hs; csimpl.
  { rewrite Z.add_0_r. symmetry. by apply Z.mod_small. }
  unfold checksum_add at 2. rewrite code_char_of by done. unfold wrap. change (2 ^ 8) with 256.
  rewrite IH by (apply Z.mod_pos_bound; lia). unfold sum_bytes. cbn [foldr].
  rewrite Z.add_mod_idemp_l by lia. f_equal. lia.
Qed.

Lemma sum_bytes_app l k : sum_bytes (l ++ k) = sum_bytes l + sum_bytes k.
Proof. unfold sum_bytes. induction l as [|b l IH]; cbn [app foldr]; lia. Qed.

Lemma checksum_byte l : is_byte ((- sum_bytes l) mod 256).
Proof. unfold is_byte. apply Z.mod_pos_bound. lia. Qed.

Lemma checksum_zero l :
  Forall is_byte l -> foldl checksum_add 0 (char_of <$> with_checksum l) = 0.
Proof.
  intros Hl. unfold with_checksum. rewrite checksum_sum; [|apply Forall_app; split; [done|]|lia].
  - rewrite sum_bytes_app. unfold sum_bytes at 2. cbn [foldr]. rewrite Z.add_0_r, Z.add_0_l.
    rewrite Z.add_mod_idemp_r by lia. rewrite Z.add_opp_diag_r. done.
  - constructor; [apply checksum_byte|constructor].
Qed.

Lemma checksum_loop_blocks blocks data first :
  Forall (bytes_of 127) blocks ->
  holds data (first * 128) (char_of <$> concat (with_checksum <$> blocks)) ->
  checksum_loop (seq first (length blocks)) data = mret tt.
Proof.
  intros Hb. revert first. induction Hb as [|b blocks [Hl Hb] _ IH]; intros first Hh; [done|].
  cbn [length seq checksum_loop]. rewrite fmap_cons, concat_cons, fmap_app, holds_app in Hh.
  destruct Hh as [Hh Hr].
  assert (length (char_of <$> with_checksum b) = 128%nat) as Hlen
    by (rewrite length_fmap; unfold with_checksum; rewrite length_app, Hl; done).
  rewrite (slice_holds _ _ _ 128 Hh Hlen). change (@mbind checked _) with checked_bind.
  cbn [checked_bind mret checked_ret]. rewrite checksum_zero by done. cbn [Z.eqb negb].
  apply IH. replace (S first * 128)%nat with (first * 128 + 128)%nat by lia. by rewrite <- Hlen at 2.
Qed.

Lemma descriptor_loop_encoded data off ds facts :
  Forall descriptor_ok ds ->
  holds data off (char_of <$> concat (encode_descriptor <$> ds)) ->
  descriptor_loop ((fun i => off + 18 * i)%nat <$> seq 0 (length ds)) data facts =
  check (fold_result descriptor_effect ds facts).
Proof.
  intros Hd. revert off facts. induction Hd as [|d ds Hok _ IH]; intros off facts Hh; [done|].
  cbn [length seq]. rewrite !fmap_cons, concat_cons, fmap_app, holds_app in *. destruct Hh as [Hh Hr].
  cbn [descriptor_loop]. replace (off + 18 * 0)%nat with off by lia.
  rewrite (descriptor_encoded _ _ d) by done. cbn [fold_result].
  destruct (descriptor_effect d facts) as [facts'|e]; [|done].
  change (@mbind checked _) with checked_bind. cbn [checked_bind check].
  rewrite length_fmap in Hr. destruct (encode_descriptor_bytes d Hok) as [Hl _]. rewrite Hl in Hr.
  cbn [mbind]. etransitivity; [|apply (IH (off + 18)%nat facts' Hr)]. f_equal.
  rewrite <- fmap_S_seq, <- list_fmap_compose. apply list_fmap_ext. intros i x _. cbn. lia.
Qed.

(** ** The whole block *)

Definition edid_result (e : edid) : result edid_facts :=
  fold_result descriptor_effect (descriptors e) (base_facts e).

Lemma base_bytes_ok e : edid_ok e -> bytes_of 127 (base_bytes e).
Proof.
  unfold edid_ok, base_bytes, maker_bytes. destruct (maker e) as [[[spare a] b] c].
  intros ((Hs & Ha & Hb & Hc) & Hp & [Hsl Hsb] & Hw & Hh & [Htl Htb] & Hdl & Hd & He & _).
  unfold five_bits in *. destruct (descriptors e) as [|d1 [|d2 [|d3 [|d4 [|]]]]]; try discriminate Hdl.
  rewrite !Forall_cons in Hd. destruct Hd as (H1 & H2 & H3 & H4 & _).
  apply encode_descriptor_bytes in H1 as [L1 B1], H2 as [L2 B2], H3 as [L3 B3], H4 as [L4 B4].
  csimpl. rewrite app_nil_r. split.
  - rewrite !length_cons, !length_app, Hsl. cbn [length app]. rewrite !length_app, Htl, L1, L2, L3, L4. done.
  - unfold is_byte. repeat (constructor; [Z.to_euclidean_division_equations; lia|]).
    rewrite !Forall_app. split_and!; try done.
    repeat (constructor; [done|]). rewrite !Forall_app. split_and!; try done.
    repeat constructor; lia.
Qed.

Lemma encoded_length e :
  edid_ok e -> length (encode_edid e) = ((length (edid_extensions e) + 1) * 128)%nat.
Proof.
  intros Hok. destruct (base_bytes_ok e Hok) as [Hl _]. destruct Hok as (_ & _ & _ & _ & _ & _ & _ & _ & _ & He).
  unfold encode_edid. rewrite length_fmap, fmap_cons, concat_cons, length_app.
  assert (length (concat (with_checksum <$> edid_extensions e)) = (length (edid_extensions e) * 128)%nat) as ->.
  { induction He as [|x l [Hx _] _ IH]; [done|]. rewrite fmap_cons, concat_cons, length_app, IH.
    unfold with_checksum. rewrite length_app, Hx. cbn [length]. lia. }
  unfold with_checksum. rewrite length_app, Hl. cbn [length]. lia.
Qed.

Lemma packed_letter_code spare a b c :
  0 <= spare < 2 -> five_bits a -> five_bits b -> five_bits c ->
  let raw := spare * 32768 + a * 1024 + b * 32 + c in
  Z.lor (Z.shiftl (raw / 256) 8) (raw mod 256) = raw /\
  packed_letter raw 10 = 64 + a /\ packed_letter raw 5 = 64 + b /\ packed_letter raw 0 = 64 + c.
Proof.
  intros Hs Ha Hb Hc raw. unfold five_bits in *. split_and!.
  - rewrite Z.lor_comm, lor_shift8 by (unfold raw; Z.to_euclidean_division_equations; lia).
    pose proof (Z.div_mod raw 256). lia.
  - unfold packed_letter. change 0x1F with (Z.ones 5). rewrite Z.land_ones, Z.shiftr_div_pow2 by lia.
    unfold raw. change (2 ^ 10) with 1024. change (2 ^ 5) with 32. Z.to_euclidean_division_equations; lia.
  - unfold packed_letter. change 0x1F with (Z.ones 5). rewrite Z.land_ones, Z.shiftr_div_pow2 by lia.
    unfold raw. change (2 ^ 5) with 32. Z.to_euclidean_division_equations; lia.
  - unfold packed_letter. change 0x1F with (Z.ones 5). rewrite Z.land_ones, Z.shiftr_0_r by lia.
    unfold raw. change (2 ^ 5) with 32. Z.to_euclidean_division_equations; lia.
Qed.

Lemma manufacturer_encoded e :
  edid_ok e ->
  manufacturer_of (nth 0 (maker_bytes (maker e)) 0) (nth 1 (maker_bytes (maker e)) 0) = maker_text (maker e).
Proof.
  unfold edid_ok, maker_bytes, maker_text, manufacturer_of. destruct (maker e) as [[[spare a] b] c].
  intros ((Hs & Ha & Hb & Hc) & _). cbn [nth].
  destruct (packed_letter_code spare a b c Hs Ha Hb Hc) as (-> & -> & -> & ->). cbn [forallb].
  assert (forall n, (65 <=? 64 + n) && (64 + n <=? 90) = (1 <=? n) && (n <=? 26)) as E.
  { intros n. destruct (Z.leb_spec 1 n), (Z.leb_spec n 26), (Z.leb_spec 65 (64 + n)),
      (Z.leb_spec (64 + n) 90); lia. }
  by rewrite !E.
Qed.

Lemma product_encoded p :
  0 <= p < 65536 -> product_of (p mod 256) (p / 256) = if p =? 0 then None else Some p.
Proof.
  intros Hp. unfold product_of. rewrite lor_shift8 by (Z.to_euclidean_division_equations; lia).
  replace (p / 256 * 256 + p mod 256) with p by (Z.to_euclidean_division_equations; lia).
  by destruct (p =? 0).
Qed.

Lemma size_encoded w h :
  (fst <$> size_of w h = if (0 <? w) && (0 <? h) then Some (w * 10) else None) /\
  (snd <$> size_of w h = if (0 <? w) && (0 <? h) then Some (h * 10) else None).
Proof. unfold size_of. by destruct (_ && _). Qed.

Lemma holds_fmap_part {A B} (f : A -> B) pre part post n :
  length pre = n -> holds (f <$> pre ++ part ++ post) n (f <$> part).
Proof. intros <-. exists (f <$> pre), (f <$> post). by rewrite !fmap_app, length_fmap. Qed.

(** The parts of the base block are where the parser looks for them. *)
Lemma base_parts e :
  edid_ok e ->
  let data := encode_edid e in
  holds data 0 edid_header /\
  holds data 8 (char_of <$> maker_bytes (maker e) ++ [product e mod 256; product e / 256]) /\
  holds data 21 (char_of <$> [width_cm e; height_cm e]) /\
  holds data 54 (char_of <$> concat (encode_descriptor <$> descriptors e)) /\
  holds data 126 (char_of <$> [Z.of_nat (length (edid_extensions e))]).
Proof.
  intros Hok data. destruct (base_bytes_ok e Hok) as [Hl _].
  destruct Hok as (_ & _ & [Hs _] & _ & _ & [Ht _] & Hd4 & Hd & _).
  assert (length (maker_bytes (maker e)) = 2%nat) as Hm
    by (unfold maker_bytes; by destruct (maker e) as [[[spare a] b] c]).
  set (rest := [(- sum_bytes (base_bytes e)) mod 256] ++ concat (with_checksum <$> edid_extensions e)).
  assert (data = char_of <$> base_bytes e ++ rest) as ->.
  { unfold data, encode_edid. rewrite fmap_cons, concat_cons. unfold with_checksum at 1.
    by rewrite <- app_assoc. }
  unfold base_bytes in *. set (header := [0; 255; 255; 255; 255; 255; 255; 0]) in *.
  set (id := maker_bytes (maker e) ++ _) in *. set (ds := concat _) in *.
  assert (length id = 4%nat) as Hid by (unfold id; by rewrite length_app, Hm).
  assert (length header = 8%nat) as Hh by done.
  set (ext := [Z.of_nat (length (edid_extensions e))]) in *.
  rewrite !length_app, Hid, Hs, Ht, Hh in Hl. change (length ext) with 1%nat in Hl.
  cbn [length] in Hl. rewrite <- !app_assoc. split_and!.
  - apply (holds_fmap_part char_of [] header). done.
  - apply (holds_fmap_part char_of header id). done.
  - rewrite (app_assoc header), (app_assoc (header ++ id)). apply holds_fmap_part.
    rewrite !length_app. lia.
  - rewrite (app_assoc header), (app_assoc (header ++ id)), (app_assoc ((header ++ id) ++ serial e)).
    rewrite (app_assoc (((header ++ id) ++ serial e) ++ [_; _])). apply holds_fmap_part.
    rewrite !length_app. cbn [length]. lia.
  - rewrite (app_assoc header), (app_assoc (header ++ id)), (app_assoc ((header ++ id) ++ serial e)).
    rewrite (app_assoc (((header ++ id) ++ serial e) ++ [_; _])), (app_assoc _ ds). apply holds_fmap_part.
    rewrite !length_app. cbn [length]. lia.
Qed.

Lemma parse_base_encoded e :
  edid_ok e -> parse_base_block (encode_edid e) = check (edid_result e).
Proof.
  intros Hok. pose proof (manufacturer_encoded e Hok) as Hmfg.
  destruct (base_parts e Hok) as (_ & Hid & Hsize & Hds & _).
  destruct Hok as (Hm & Hp & _ & Hw & Hh & _ & Hd4 & Hd & _). unfold parse_base_block.
  assert (length (maker_bytes (maker e)) = 2%nat /\ Forall is_byte (maker_bytes (maker e))) as [Hml Hmb].
  { unfold maker_bytes, is_byte. destruct (maker e) as [[[spare a] b] c]. unfold five_bits in Hm.
    split; [done|]. repeat constructor; Z.to_euclidean_division_equations; lia. }
  rewrite (slice_holds _ _ _ 4 Hid) by (by rewrite length_fmap, length_app, Hml). checked_step.
  pose proof (byte_at_holds _ 21 _ 0 _ Hsize eq_refl) as E1. pose proof (byte_at_holds _ 21 _ 1 _ Hsize eq_refl) as E2.
  cbn [Nat.add] in E1, E2. rewrite E1. checked_step. rewrite E2. checked_step. rewrite !code_char_of by done.
  rewrite (proj1 (size_encoded _ _)), (proj2 (size_encoded _ _)).
  assert (Forall is_byte (maker_bytes (maker e) ++ [product e mod 256; product e / 256])) as Hidb.
  { apply Forall_app. split; [done|]. unfold is_byte. repeat constructor; Z.to_euclidean_division_equations; lia. }
  rewrite !nth_byte by (done || (rewrite length_app, Hml; cbn [length]; lia)).
  rewrite (app_nth1 _ _ 0 (n := 0%nat)), (app_nth1 _ _ 0 (n := 1%nat)) by lia.
  rewrite Hmfg, (app_nth2 _ _ 0 (n := 2%nat)), (app_nth2 _ _ 0 (n := 3%nat)), Hml by lia. cbn [nth Nat.sub].
  rewrite product_encoded by done. unfold edid_result.
  rewrite <- (descriptor_loop_encoded _ 54 _ _ Hd Hds), Hd4. reflexivity.
Qed.

(** C23: a stored block reads back as the facts it encodes: the packed letters,
    the little-endian product code, the size, the last name and the first
    visible timing with its refresh rate, whatever the extension blocks; a name
    that is not UTF-8 is [invalid_encoding]. *)
Theorem parse_edid_block_text (e : edid) :
  edid_ok e ->
  parse_edid_block (encode_edid e) (length (encode_edid e)) = check (edid_result e).
Proof.
  intros Hok. pose proof (encoded_length e Hok) as Hlen. pose proof (base_bytes_ok e Hok) as Hbase.
  destruct (base_parts e Hok) as (Hhead & _ & _ & _ & Hext). pose proof (parse_base_encoded e Hok) as Hfacts.
  destruct Hok as (_ & _ & _ & _ & _ & _ & _ & _ & Hn & He). unfold parse_edid_block.
  assert (maximum_edid_size = (256 * 128)%nat) as Emax by reflexivity.
  rewrite (proj2 (Nat.ltb_ge _ 128)), (proj2 (Nat.ltb_ge maximum_edid_size _)) by lia.
  rewrite Hlen at 1. rewrite Nat.Div0.mod_mul. cbn [orb negb Nat.eqb].
  rewrite (slice_holds _ _ _ 8 Hhead eq_refl). checked_step. rewrite (proj2 (same_true _ _) eq_refl).
  pose proof (byte_at_holds _ 126 _ 0 _ Hext eq_refl) as Eb. cbn [Nat.add negb] in *. rewrite Eb.
  checked_step. rewrite code_char_of, Nat2Z.id by (unfold is_byte; lia).
  rewrite Hlen at 1. rewrite Nat.eqb_refl. cbn [negb].
  rewrite Nat.add_1_r. change (S (length (edid_extensions e))) with (length (base_bytes e :: edid_extensions e)).
  rewrite checksum_loop_blocks by (first [by constructor|exact (holds_whole _)]). checked_step. exact Hfacts.
Qed.

(** A monitor with one extension block. *)
Definition some_monitor : edid :=
  Edid (0, 4, 5, 12) 0x4012 (repeat 1 9) 60 34 (repeat 0 31)
    [Timing 14850 1920 280 1080 45 (repeat 0 10);
     Monitor_name 0 [85; 50; 55; 10; 32; 32; 32; 32; 32; 32; 32; 32; 32];
     Other_descriptor 0xFD (repeat 0 14); Unclocked 3 (repeat 0 15)]
    [repeat 2 127].

Lemma parse_edid_block_text_witness :
  parse_edid_block (encode_edid some_monitor) (length (encode_edid some_monitor)) =
  check (Value (Edid_facts (Some (lit "DEL")) (Some 0x4012) (Some (lit "U27")) (Some 600) (Some 340)
    (Some 1920) (Some 1080) (Some (to_double 60)))).
Proof.
  rewrite parse_edid_block_text; [vm_compute; reflexivity|].
  unfold edid_ok, bytes_of, is_byte, five_bits, some_monitor. cbn -[repeat].
  split_and!; try lia; try reflexivity; repeat constructor; unfold is_byte; lia.
Defined.

(** ** Connectors *)

(** The name the kernel gives a connector, of any kind and card, is
    recognised and classified by its kind alone. *)
Theorem connector_name_text (card index : Z) (kind : text) :
  0 <= card -> 0 <= index -> kind <> [] ->
  let name := lit "card" ++ to_decimal card ++ "-"%char :: kind ++ "-"%char :: to_decimal index in
  is_connector_name name = true /\
  classify_connector_name name = (kind, bool_decide (kind ∈ internal_types)).
Proof.
  intros Hc Hi Hk name.
  assert (forall n, 0 <= n -> Forall (fun c => 48 <= code c <= 57) (to_decimal n)) as Hd
    by (intros n Hn; by apply to_decimal_Forall).
  assert (forall n, 0 <= n -> "-"%char ∉ to_decimal n) as Hdash.
  { intros n Hn. apply not_in_digits; [by apply Hd|]. vm_compute. intuition congruence. }
  assert (forall l, Forall (fun c => 48 <= code c <= 57) l -> decimal_text l = true) as Hdec.
  { intros l Hl. apply forallb_forall. intros c Hin%list_elem_of_In. eapply Forall_forall in Hl; [|exact Hin].
    simpl in Hl. lia. }
  assert (0 < length (to_decimal card))%nat as Hne
    by (pose proof (to_decimal_ne card Hc); destruct (to_decimal card); [done|simpl; lia]).
  assert (name = (lit "card" ++ to_decimal card) ++ "-"%char :: kind ++ "-"%char :: to_decimal index) as En
    by (unfold name; by rewrite <- app_assoc).
  assert ("-"%char ∉ lit "card" ++ to_decimal card) as Hfirst.
  { rewrite elem_of_app. intros [H|H]; [|by apply (Hdash card)]. revert H. vm_compute. intros H.
    repeat (apply elem_of_cons in H as [H|H]; [discriminate H|]). by apply elem_of_nil in H. }
  destruct (find_app_parts "-" (lit "card" ++ to_decimal card) (kind ++ "-"%char :: to_decimal index) Hfirst)
    as (Ef & Epre & Epost). rewrite <- En in Ef, Epre, Epost.
  assert (same (substr 0 4 name) (lit "card") = true) as Hcard by (by apply same_true).
  assert (9 <= length name)%nat as Hlen.
  { rewrite En. rewrite !length_app, length_cons, length_app, length_cons.
    pose proof (to_decimal_ne index Hi). destruct kind, (to_decimal index); [done..|]. simpl. lia. }
  split.
  - unfold is_connector_name. rewrite (proj2 (Nat.leb_gt _ _)), Hcard, Ef by lia. cbn [orb negb].
    rewrite length_app. change (length (lit "card")) with 4%nat.
    rewrite (proj2 (Nat.leb_gt _ _)) by lia. apply Hdec.
    assert (substr 4 (4 + length (to_decimal card) - 4) name = to_decimal card) as ->; [|by apply Hd].
    unfold name, substr. rewrite drop_app_length' by done. rewrite take_app_length' by lia. done.
  - unfold classify_connector_name. rewrite Hcard, Ef.
    rewrite (proj2 (Nat.ltb_lt _ _)), Epost by (rewrite En, !length_app, length_cons, length_app; destruct kind; [done|simpl; lia]).
    destruct (rfind_app_parts "-" kind (to_decimal index) (Hdash index Hi)) as (-> & Ek & Ei).
    rewrite Ek, Ei, (Hdec _ (Hd index Hi)). destruct kind; [done|]. reflexivity.
Qed.

Lemma connector_name_text_witness :
  let name := lit "card" ++ to_decimal 1 ++ "-"%char :: lit "HDMI-A" ++ "-"%char :: to_decimal 2 in
  name = lit "card1-HDMI-A-2" /\ is_connector_name name = true /\
  classify_connector_name name = (lit "HDMI-A", bool_decide (lit "HDMI-A" ∈ internal_types)).
Proof.
  intros name. split; [vm_compute; reflexivity|].
  apply (connector_name_text 1 2 (lit "HDMI-A")); [lia|lia|discriminate].
Defined.

(** ** The list of displays *)

Definition mode_extents (m : display_mode) : Z * Z := (mode_width m, mode_height m).

Definition modes_ok (modes : list display_mode) : Prop :=
  NoDup (mode_extents <$> modes) /\
  Forall (fun m => 0 < mode_width m <= uint32_max /\ 0 < mode_height m <= uint32_max) modes.

Definition display_ok (d : display_info) : Prop :=
  is_connector_name (di_id d) = true /\ is_valid_utf8 (di_id d) = true /\
  (connector_type d, is_internal d) =
    (Some (fst (classify_connector_name (di_id d))), snd (classify_connector_name (di_id d))) /\
  is_primary d = false /\ modes_ok (supported_modes d).

Lemma mode_extent_bound part v : mode_extent part = Value v -> 0 < v <= uint32_max.
Proof.
  unfold mode_extent. destruct (_ || _) eqn:E; [done|]. intros [= <-].
  apply orb_false_iff in E as [_ E%Z.eqb_neq].
  pose proof (fc_value_bound uint32_max 10 part ltac:(lia) ltac:(zlia)). lia.
Qed.

Lemma mode_line_ok line modes :
  modes_ok modes ->
  match mode_line line modes with Next modes' => modes_ok modes' | Return r => False end.
Proof.
  intros [Hd Hb]. unfold mode_line. destruct (empty _); [done|].
  destruct (parse_mode_resolution _) as [[w h]|e] eqn:E; [|done].
  destruct (existsb _ modes) eqn:Hx; [done|]. unfold parse_mode_resolution in E.
  destruct (find_first_of _ _) as [i|]; [|done]. destruct (_ || _); [done|].
  destruct (mode_extent (substr 0 i _)) as [w'|] eqn:Ew; [|done].
  destruct (mode_extent (substr_from _ _)) as [h'|] eqn:Eh; [|done]. injection E as <- <-.
  apply mode_extent_bound in Ew, Eh. split.
  - rewrite fmap_app. apply NoDup_app. split_and!; [done| |apply NoDup_singleton].
    intros [w h] Hin Hs%list_elem_of_singleton. injection Hs as -> ->.
    apply list_elem_of_fmap in Hin as (m & Em & Hm). injection Em as Em1 Em2.
    apply not_true_iff_false in Hx. apply Hx, existsb_exists. exists m. split; [by apply list_elem_of_In|].
    lia.
  - apply Forall_app. split; [done|]. repeat constructor; simpl; lia.
Qed.

Lemma parse_modes_ok input modes : parse_modes input = Value modes -> modes_ok modes.
Proof.
  unfold parse_modes. rewrite each_field_fields.
  pose proof (fold_steps_inv modes_ok (fun _ => False) mode_line (fields ch_lf input) []) as H.
  destruct (fold_steps _ _ _) as [s|r]; cbn [finish].
  - intros [= <-]. apply H; [split; [constructor|done]|]. intros. by apply mode_line_ok.
  - destruct H; [split; [constructor|done]|]. intros. by apply mode_line_ok.
Qed.

Lemma rate_mode_extents w h rate modes : mode_extents <$> rate_mode w h rate modes = mode_extents <$> modes.
Proof.
  induction modes as [|m modes IH]; [done|]. cbn [rate_mode]. destruct (_ && _) eqn:E.
  - rewrite !fmap_cons. f_equal. unfold mode_extents. cbn. apply andb_true_iff in E as [E1 E2].
    apply Z.eqb_eq in E1, E2. by subst.
  - rewrite !fmap_cons. by f_equal.
Qed.

(** The modes are determined by their extents as far as [modes_ok] goes. *)
Lemma modes_ok_extents modes modes' :
  mode_extents <$> modes' = mode_extents <$> modes -> modes_ok modes -> modes_ok modes'.
Proof.
  intros E [Hd Hb]. unfold modes_ok. rewrite E. split; [done|].
  assert (forall l, Forall (fun m => 0 < mode_width m <= uint32_max /\ 0 < mode_height m <= uint32_max) l <->
                    Forall (fun x => 0 < x.1 <= uint32_max /\ 0 < x.2 <= uint32_max) (mode_extents <$> l)) as Hf
    by (intros l; by rewrite Forall_fmap).
  by rewrite Hf, E, <- Hf.
Qed.

Lemma merge_edid_ok facts info : display_ok info -> display_ok (merge_edid facts info).
Proof.
  intros (H1 & H2 & H3 & H4 & H5). unfold display_ok. cbn. split_and!; [done..|].
  eapply modes_ok_extents; [|exact H5]. unfold rated_modes. repeat case_match; try done.
  apply rate_mode_extents.
Qed.

Section display_results.
Context {W : Type} `{Kernel W}.

Lemma inspect_connector_yields conn_id path :
  is_connector_name conn_id = true -> yields (inspect_connector conn_id path) display_ok.
Proof.
  intros Hname. unfold inspect_connector. apply yields_pure_bind. intros ? Hv.
  assert (is_valid_utf8 conn_id = true) as Hvalid by (by destruct (is_valid_utf8 conn_id)).
  apply yields_skip. intros status. apply yields_skip. intros modes_text.
  apply yields_pure_bind. intros modes Hmodes.
  assert (modes_ok modes) as Hok.
  { destruct modes_text; [by eapply parse_modes_ok|]. injection Hmodes as <-. split; [constructor|done]. }
  set (state := match status with Some t => _ | None => _ end).
  assert (display_ok (connector_info conn_id state modes)) as Hinfo.
  { unfold connector_info. destruct (classify_connector_name conn_id) as [kind internal] eqn:E.
    unfold display_ok. cbn [di_id connector_type is_internal is_primary supported_modes]. by rewrite E. }
  apply yields_skip. intros edid_data. apply yields_pure. intros d Hd.
  destruct edid_data as [data|]; [|by injection Hd as <-].
  destruct (empty data); [by injection Hd as <-|].
  destruct (decode_edid data) as [facts|e]; [|done]. injection Hd as <-. by apply merge_edid_ok.
Qed.

Lemma connector_loop_yields names found :
  Forall display_ok found -> yields (connector_loop names found) (Forall display_ok).
Proof.
  revert found. induction names as [|n names IH]; intros found Hf; cbn [connector_loop]; [by apply yields_ret|].
  destruct (_ || _ || _) eqn:E; [by apply IH|]. apply orb_false_iff in E as [_ E%negb_false_iff].
  apply (yields_bind _ _ (fun r => match r with Value d => display_ok d | Failure _ => True end)).
  - intros w v w'. unfold attempt. destruct (inspect_connector _ _ w) as [[d|e] w1] eqn:Ei; intros [= <- <-]; [|done].
    by eapply inspect_connector_yields.
  - intros [d|e] Hd; [apply IH; apply Forall_app; auto|]. destruct (matches_std_errc e ENOENT); [by apply IH|].
    by apply yields_pure.
Qed.

(** The list of displays is ordered by identifier; every identifier is a
    connector's and valid UTF-8 and decides the kind; no mode is listed twice
    or has a zero extent; and no display is marked as the primary one, so that
    asking for the primary display on this system never succeeds. *)
Theorem displays_listed (w : W) (l : list display_info) (w' : W) :
  displays w = (Value l, w') ->
  StronglySorted (not_after (fun a b => text_less (di_id a) (di_id b))) l /\
  Forall display_ok l /\ primary_display w = (fail errc_not_found, w').
Proof.
  unfold displays, primary_display. intros E. unfold mbind, query_bind. rewrite E. cbn [pure].
  unfold collect_displays in E. destruct (list_directory drm_class_root w) as [[errno|[names errno]] w1];
    [by destruct (errno =? ENOENT)|].
  unfold mbind, query_bind in E. destruct (connector_loop names [] w1) as [[found|e] w2] eqn:Ef; [|done].
  destruct (negb (errno =? 0)); [done|]. injection E as <- <-.
  eapply connector_loop_yields in Ef; [|constructor]. split_and!.
  - apply (std_sort_key_sorted _ (fun d => code <$> di_id d)). done.
  - by rewrite std_sort_permutation.
  - f_equal. unfold primary_of.
    assert (Forall display_ok (std_sort (fun a b => text_less (di_id a) (di_id b)) found)) as Hall
      by (by rewrite std_sort_permutation).
    destruct (std_sort _ found) as [|d l]; [done|].
    destruct (list_find is_primary (d :: l)) as [[i x]|] eqn:Ex; [|done].
    apply list_find_Some in Ex as (Hx & Hp & _). eapply Forall_lookup_1 in Hall; [|exact Hx].
    destruct Hall as (_ & _ & _ & Hnp & _). by rewrite Hnp in Hp.
Qed.

End display_results.

Lemma displays_listed_witness :
  let K := listing_kernel [("/sys/class/drm/card0-eDP-1/status", "connected");
                           ("/sys/class/drm/card0-eDP-1/modes", "1920x1200")]%string
             [("/sys/class/drm/", ["card0"; "card1-DP-1"; "card0-eDP-1"; "version"])]%string in
  let l := [connector_info (lit "card0-eDP-1") connected [Display_mode 1920 1200 None];
            connector_info (lit "card1-DP-1") connection_unknown []] in
  @displays unit K tt = (Value l, tt) /\
  StronglySorted (not_after (fun a b => text_less (di_id a) (di_id b))) l /\
  Forall display_ok l /\ @primary_display unit K tt = (fail errc_not_found, tt).
Proof.
  intros K l. assert (@displays unit K tt = (Value l, tt)) as Hl by (vm_compute; reflexivity).
  split; [exact Hl|]. exact (@displays_listed unit K tt l tt Hl).
Defined.
