(* ===== verification/Virtualization.v ===== *)
(** * Virtualization, containers and control groups

    [include/syscape/detail/virtualization/common.hpp] with the enumerations of
    [include/syscape/virtualization.hpp]: the classification of signatures and
    names, namespace links, control-group limits with the exact comparison of
    quotas, escaped mount points, and the parser of [/proc/self/cgroup]. *)
From S2P Require Import Prelude Result CppText Utf8.

(** ** virtualization.hpp *)

Inductive hypervisor_vendor :=
  | hv_unknown | hv_none | hv_kvm | hv_qemu | hv_vmware | hv_virtualbox | hv_hyper_v | hv_xen
  | hv_bhyve | hv_parallels | hv_apple_hypervisor | hv_acrn | hv_qnx_hypervisor | hv_other.

Inductive container_runtime :=
  | ct_unknown | ct_none | ct_docker | ct_podman | ct_lxc | ct_lxd | ct_containerd | ct_kubernetes
  | ct_systemd_nspawn | ct_openvz | ct_wsl | ct_appbox | ct_other.

Inductive cgroup_version := cgroup_none | cgroup_v1 | cgroup_v2 | cgroup_hybrid.

#[global] Instance cgroup_version_eq_dec : EqDecision cgroup_version.
Proof. solve_decision. Defined.

Inductive namespace_type :=
  | ns_unknown | ns_cgroup | ns_ipc | ns_mount | ns_net | ns_pid | ns_pid_for_children | ns_time
  | ns_time_for_children | ns_user | ns_uts.

(** ** Text *)

Definition ascii_lower (v : Z) : Z := if (65 <=? v) && (v <=? 90) then v + 32 else v.

Definition validate_identity_text (v : result text) : result text :=
  t ← v;
  reject (empty t) errc_malformed_data;;
  reject (negb (is_valid_utf8 t)) errc_invalid_encoding;;
  Value t.

(** The inner loop: [needle] at the start of what is left of the text. *)
Fixpoint needle_at (rest needle : text) : bool :=
  match needle, rest with
  | [], _ => true
  | n :: needle, c :: rest =>
      if negb (ascii_lower (code c) =? ascii_lower (code n)) then false else needle_at rest needle
  | _ :: _, [] => false
  end.

Definition case_insensitive_contains (input needle : text) : bool :=
  if empty needle then true
  else if (length input <? length needle)%nat then false
  else existsb (fun i => needle_at (drop i input) needle) (seq 0 (S (length input - length needle))).

Definition case_insensitive_equal (a b : text) : bool :=
  if negb (length a =? length b)%nat then false else needle_at a b.

Definition signature_blank (c : ascii) : bool :=
  is_char c ch_nul || is_char c " " || is_char c ch_tab || is_char c ch_cr || is_char c ch_lf.

Definition trim_signature (input : text) : text :=
  drop_front signature_blank (drop_back signature_blank input).

Definition register_bytes (v : Z) : text :=
  [char_of (Z.land v 0xFF); char_of (Z.land (Z.shiftr v 8) 0xFF);
   char_of (Z.land (Z.shiftr v 16) 0xFF); char_of (Z.land (Z.shiftr v 24) 0xFF)].

Definition decode_cpuid_signature (ebx ecx edx : Z) : text :=
  trim_signature (register_bytes ebx ++ register_bytes ecx ++ register_bytes edx).

(** ** Classification *)

Definition classify_cpuid_signature (sig : text) : hypervisor_vendor :=
  let trimmed := trim_signature sig in
  let named s := same trimmed (lit s) in
  if named "KVMKVMKVM"%string then hv_kvm
  else if named "TCGTCGTCGTCG"%string then hv_qemu
  else if named "VMwareVMware"%string then hv_vmware
  else if named "Microsoft Hv"%string then hv_hyper_v
  else if named "XenVMMXenVMM"%string then hv_xen
  else if named "bhyve bhyve"%string then hv_bhyve
  else if named "prl hyperv"%string then hv_parallels
  else if named "VBoxVBoxVBox"%string then hv_virtualbox
  else if named "ACRNACRNACRN"%string then hv_acrn
  else if named "QNXQVMBSYS"%string then hv_qnx_hypervisor
  else if named "Apple VMM"%string then hv_apple_hypervisor
  else if negb (empty trimmed) then hv_other
  else hv_unknown.

Definition classify_dmi_strings (vendor product bios_vendor : text) : hypervisor_vendor :=
  let has t s := case_insensitive_contains t (lit s) in
  if has vendor "QEMU"%string || has product "QEMU"%string || has bios_vendor "QEMU"%string ||
     has product "Bochs"%string || has bios_vendor "Bochs"%string then hv_qemu
  else if has vendor "VirtualBox"%string || has product "VirtualBox"%string ||
          has bios_vendor "VirtualBox"%string || has vendor "innotek"%string then hv_virtualbox
  else if has vendor "VMware"%string || has product "VMware"%string ||
          has bios_vendor "VMware"%string then hv_vmware
  else if has vendor "KVM"%string || has product "KVM"%string || has bios_vendor "KVM"%string
  then hv_kvm
  else if has vendor "Xen"%string || has product "Xen"%string || has bios_vendor "Xen"%string
  then hv_xen
  else if has vendor "Microsoft"%string && has product "Virtual Machine"%string then hv_hyper_v
  else if has vendor "Parallels"%string || has product "Parallels"%string then hv_parallels
  else if has vendor "bhyve"%string || has product "bhyve"%string then hv_bhyve
  else if has vendor "Apple"%string &&
          (has product "Virtual"%string || has product "Apple Virtualization"%string)
  then hv_apple_hypervisor
  else if has vendor "Amazon EC2"%string || has vendor "Google"%string ||
          has product "Google Compute Engine"%string then hv_kvm
  else hv_unknown.

Definition classify_container_name (name : text) : container_runtime :=
  let trimmed := trim_signature name in
  let named s := case_insensitive_equal trimmed (lit s) in
  if named "docker"%string then ct_docker
  else if named "podman"%string then ct_podman
  else if named "lxc"%string || named "lxc-libvirt"%string then ct_lxc
  else if named "lxd"%string then ct_lxd
  else if named "containerd"%string then ct_containerd
  else if named "kubernetes"%string || named "k8s"%string || named "kubepods"%string then ct_kubernetes
  else if named "systemd-nspawn"%string || named "nspawn"%string then ct_systemd_nspawn
  else if named "openvz"%string || named "vz"%string then ct_openvz
  else if named "wsl"%string then ct_wsl
  else if named "appbox"%string then ct_appbox
  else if negb (empty trimmed) then ct_other
  else ct_unknown.

Definition classify_cgroup_line (line : text) : container_runtime :=
  let has s := case_insensitive_contains line (lit s) in
  if has "/docker/"%string || has "/docker-"%string || has "docker.service"%string then ct_docker
  else if has "/libpod-"%string || has "/podman/"%string then ct_podman
  else if has "/kubepods/"%string || has "/kubepods.slice/"%string then ct_kubernetes
  else if has "/lxc/"%string || has "/lxc.payload."%string then ct_lxc
  else if has "/lxd/"%string then ct_lxd
  else if has "/containerd/"%string || has "containerd.service"%string then ct_containerd
  else ct_none.

Definition classify_namespace_name (name : text) : namespace_type :=
  let named s := same name (lit s) in
  if named "cgroup"%string then ns_cgroup
  else if named "ipc"%string then ns_ipc
  else if named "mnt"%string then ns_mount
  else if named "net"%string then ns_net
  else if named "pid"%string then ns_pid
  else if named "pid_for_children"%string then ns_pid_for_children
  else if named "time"%string then ns_time
  else if named "time_for_children"%string then ns_time_for_children
  else if named "user"%string then ns_user
  else if named "uts"%string then ns_uts
  else ns_unknown.

(** ** Numbers *)

(** The digit loop that four functions of the file repeat; [None] where they
    return a failure: a character that is no digit, or a value above 64 bits. *)
Fixpoint digits_loop (l : text) (v : Z) : option Z :=
  match l with
  | [] => Some v
  | c :: l =>
      if (code c <? 48) || (57 <? code c) then None
      else
        let digit := code c - 48 in
        if (uint64_max - digit) / 10 <? v then None else digits_loop l (wrap 64 (v * 10 + digit))
  end.

(** [text.find(a b)] of two characters. *)
Fixpoint find_pair (a b : ascii) (l : text) : option nat :=
  match l with
  | c :: l' =>
      match l' with
      | d :: _ => if is_char c a && is_char d b then Some 0%nat else S <$> find_pair a b l'
      | [] => None
      end
  | [] => None
  end.

Definition parse_namespace_link (link : text) : option (text * Z) :=
  match find_pair ":" "[" link with
  | None => None
  | Some open_pos =>
      if (open_pos =? 0)%nat then None
      else
        let num_start := (open_pos + 2)%nat in
        match find "]" link num_start with
        | None => None
        | Some close_pos =>
            if (close_pos =? num_start)%nat || negb (close_pos + 1 =? length link)%nat then None
            else
              inode ← digits_loop (substr num_start (close_pos - num_start) link) 0;
              Some (substr 0 open_pos link, inode)
        end
  end.

Definition front_is (c : ascii) (l : text) : bool :=
  match l with d :: _ => is_char d c | [] => false end.

Definition malformed {A} (v : option A) : result A :=
  match v with Some v => Value v | None => fail errc_malformed_data end.

Definition parse_cgroup_limit_value (input : text) : result (option Z) :=
  let trimmed := trim_signature input in
  if empty trimmed then fail errc_malformed_data
  else if same trimmed (lit "max") then Value None
  else if same trimmed (lit "-1") then Value None
  else if front_is "-" trimmed then fail errc_malformed_data
  else
    v ← malformed (digits_loop trimmed 0);
    Value (if 0x7FFFFFFFFFFFF000 <=? v then None else Some v).

Definition parse_cgroup1_cpu_quota_value (input : text) : result (option Z) :=
  let trimmed := trim_signature input in
  if same trimmed (lit "-1") then Value None
  else if empty trimmed || front_is "-" trimmed then fail errc_malformed_data
  else
    v ← malformed (digits_loop trimmed 0);
    if (v =? 0) || (int64_max <? v) then fail errc_malformed_data else Value (Some v).

(** ** Comparison of quotas

    [None] is a loop that has not ended after [fuel] iterations. *)
Fixpoint ratio_loop (fuel : nat) (lhs_numerator lhs_denominator rhs_numerator rhs_denominator : Z)
    (inverted : bool) : option bool :=
  match fuel with
  | O => None
  | S fuel =>
      let lhs_quotient := lhs_numerator / lhs_denominator in
      let rhs_quotient := rhs_numerator / rhs_denominator in
      if negb (lhs_quotient =? rhs_quotient) then
        Some (if inverted then rhs_quotient <? lhs_quotient else lhs_quotient <? rhs_quotient)
      else
        let lhs_remainder := lhs_numerator mod lhs_denominator in
        let rhs_remainder := rhs_numerator mod rhs_denominator in
        if (lhs_remainder =? 0) || (rhs_remainder =? 0) then
          if (lhs_remainder =? 0) && (rhs_remainder =? 0) then Some false
          else
            let less_before_inversion := lhs_remainder =? 0 in
            Some (if inverted then negb less_before_inversion else less_before_inversion)
        else ratio_loop fuel lhs_denominator lhs_remainder rhs_denominator rhs_remainder
               (negb inverted)
  end.

Definition positive_ratio_less (lhs_numerator lhs_denominator rhs_numerator rhs_denominator : Z)
    : option bool :=
  ratio_loop 130 lhs_numerator lhs_denominator rhs_numerator rhs_denominator false.

(** ** Escaped paths *)

Definition octal (c : ascii) : bool := (48 <=? code c) && (code c <=? 55).

(** The loop on what is left of the text from [i]. *)
Fixpoint unescape_mountinfo_path (l : text) : text :=
  match l with
  | [] => []
  | c :: rest =>
      match rest with
      | c1 :: c2 :: c3 :: rest' =>
          if is_char c "\" && octal c1 && octal c2 && octal c3 then
            char_of (Z.lor (Z.lor (Z.shiftl (code c1 - 48) 6) (Z.shiftl (code c2 - 48) 3))
                       (code c3 - 48)) :: unescape_mountinfo_path rest'
          else c :: unescape_mountinfo_path rest
      | _ => c :: unescape_mountinfo_path rest
      end
  end.

(** ** Lists of words *)

Definition cgroup_blank (c : ascii) : bool :=
  is_char c " " || is_char c ch_tab || is_char c ch_cr || is_char c ch_lf.

(** The tokenizing loop of the two splitting functions. *)
Definition collect_tokens (separator : ascii -> bool) (input : text) : list text :=
  match loop_state (each_token (R := False) separator (fun _ => true) input
          (fun token found => Next (found ++ [token])) []) with
  | Next found => found
  | Return no => match no with end
  end.

Definition split_whitespace (input : text) : list text := collect_tokens cgroup_blank input.

Definition split_cgroup_controllers (input : text) : list text :=
  collect_tokens (fun c => cgroup_blank c || is_char c ",") input.

Definition is_full_identity_uid_map (input : text) : bool :=
  let fields := split_whitespace input in
  (length fields =? 3)%nat && same (nth 0 fields []) (lit "0") && same (nth 1 fields []) (lit "0") &&
  same (nth 2 fields []) (lit "4294967295").

Definition comma_token (token : text) (found : list text) : step (list text) False :=
  let trimmed := trim_signature token in
  Next (if negb (empty trimmed) then found ++ [trimmed] else found).

Definition split_commas (input : text) : list text :=
  match each_field "," input comma_token [] with
  | Next found => found
  | Return no => match no with end
  end.

(** The quota and the period. *)
Definition parse_cgroup_cpu_max (input : text) : result (option Z * Z) :=
  let tokens := split_whitespace input in
  reject (negb (length tokens =? 2)%nat) errc_malformed_data;;
  let quota_tok := nth 0 tokens [] in
  let period_tok := nth 1 tokens [] in
  quota_us ←
    (if same quota_tok (lit "max") then Value None
     else
       q ← parse_cgroup_limit_value quota_tok;
       match q with
       | None => fail errc_malformed_data
       | Some q => if q =? 0 then fail errc_malformed_data else Value (Some q)
       end);
  reject (empty period_tok || same period_tok (lit "max") || front_is "-" period_tok)
    errc_malformed_data;;
  period ← malformed (digits_loop period_tok 0);
  reject (period =? 0) errc_malformed_data;;
  Value (quota_us, period).

(** ** Directories of a control group *)

Definition path_prefix (root path : text) : bool :=
  (length root <? length path)%nat && same (take (length root) path) root &&
  front_is "/" (drop (length root) path).

(** [while (rel_path.size() > 1U && rel_path.back() == '/') rel_path.pop_back();] *)
Fixpoint drop_slashes (fuel : nat) (path : text) : text :=
  match fuel with
  | O => path
  | S fuel =>
      if (1 <? length path)%nat && match last path with Some c => is_char c "/" | None => false end
      then drop_slashes fuel (removelast path) else path
  end.

Definition relative_path (mount_root proc_cgroup_path : text) : text :=
  let rel_path :=
    if same mount_root (lit "/") || empty mount_root then proc_cgroup_path
    else if same proc_cgroup_path mount_root then []
    else if path_prefix mount_root proc_cgroup_path
    then substr_from (length mount_root) proc_cgroup_path
    else [] in
  let rel_path := drop_slashes (length rel_path) rel_path in
  if same rel_path (lit "/") then [] else rel_path.

Definition join_path (mount_point current : text) : text :=
  (match last mount_point with
   | Some c => if is_char c "/" then mount_point else mount_point ++ lit "/"
   | None => lit "/"
   end) ++
  (if front_is "/" current then substr_from 1 current else current).

Fixpoint ancestor_loop (fuel : nat) (mount_point current : text) (ancestors : list text)
    : list text :=
  match fuel with
  | O => ancestors
  | S fuel =>
      if negb (empty current) then
        let ancestors := ancestors ++ [join_path mount_point current] in
        match rfind "/" current with
        | None => ancestors
        | Some last_slash =>
            if (last_slash =? 0)%nat then ancestors
            else ancestor_loop fuel mount_point (substr 0 last_slash current) ancestors
        end
      else ancestors
  end.

Definition get_cgroup_ancestor_dirs (mount_point mount_root proc_cgroup_path : text) : list text :=
  let current := relative_path mount_root proc_cgroup_path in
  ancestor_loop (S (length current)) mount_point current [] ++ [mount_point].

Definition is_mount_root_prefix (mount_root proc_cgroup_path : text) : bool :=
  if empty mount_root || same mount_root (lit "/") then true
  else if same mount_root proc_cgroup_path then true
  else path_prefix mount_root proc_cgroup_path.

(** ** /proc/self/cgroup *)

Record cgroup_v1_hierarchy := Cgroup_v1_hierarchy { controllers : list text; path : text }.

Record parsed_cgroup_info := Parsed_cgroup_info {
  version : cgroup_version;
  v2_path : text;
  v1_hierarchies : list cgroup_v1_hierarchy
}.

(** The loop's [has_v2], [has_v1], first path of version 2 and hierarchies of
    version 1. *)
Record cgroup_state := Cgroup_state {
  has_v2 : bool;
  has_v1 : bool;
  cs_v2_path : text;
  cs_v1 : list cgroup_v1_hierarchy
}.

Definition line_end (c : ascii) : bool := is_char c ch_cr || is_char c ch_lf.

(** The three parts of a line. *)
Definition split_cgroup_line (line : text) : result (Z * text * text) :=
  match find ":" line 0 with
  | None => fail errc_malformed_data
  | Some first_colon =>
      let id_str := substr 0 first_colon line in
      reject (empty id_str) errc_malformed_data;;
      hier_id ← malformed (digits_loop id_str 0);
      match find ":" line (S first_colon) with
      | None => fail errc_malformed_data
      | Some second_colon =>
          let ctrl_names := substr (S first_colon) (second_colon - first_colon - 1) line in
          let ctrl_path := substr_from (S second_colon) line in
          reject (negb (front_is "/" ctrl_path)) errc_malformed_data;;
          Value (hier_id, ctrl_names, ctrl_path)
      end
  end.

Definition cgroup_entry (hier_id : Z) (ctrl_names ctrl_path : text) (s : cgroup_state)
    : result cgroup_state :=
  if hier_id =? 0 then
    reject (negb (empty ctrl_names)) errc_malformed_data;;
    Value (Cgroup_state true (has_v1 s)
             (if empty (cs_v2_path s) then ctrl_path else cs_v2_path s) (cs_v1 s))
  else
    reject (empty ctrl_names) errc_malformed_data;;
    let found := split_commas ctrl_names in
    reject (bool_decide (found = [])) errc_malformed_data;;
    Value (Cgroup_state (has_v2 s) true (cs_v2_path s)
             (cs_v1 s ++ [Cgroup_v1_hierarchy found ctrl_path])).

Definition cgroup_line (line : text) (s : cgroup_state)
    : step cgroup_state (result parsed_cgroup_info) :=
  let line := drop_back line_end line in
  if empty line then Next s
  else
    parts <-? split_cgroup_line line;
    let '(hier_id, ctrl_names, ctrl_path) := parts in
    s <-? cgroup_entry hier_id ctrl_names ctrl_path s;
    Next s.

Definition cgroup_result (s : cgroup_state) : parsed_cgroup_info :=
  Parsed_cgroup_info
    (if has_v2 s && has_v1 s then cgroup_hybrid
     else if has_v2 s then cgroup_v2
     else if has_v1 s then cgroup_v1
     else cgroup_none) (cs_v2_path s) (cs_v1 s).

Definition parse_cgroup_proc_file_detailed (content : text) : result parsed_cgroup_info :=
  finish (each_field ch_lf content cgroup_line (Cgroup_state false false [] []))
    (fun s => Value (cgroup_result s)).

Definition parse_cgroup_proc_file (content : text) : cgroup_version * text :=
  match parse_cgroup_proc_file_detailed content with
  | Failure _ => (cgroup_none, [])
  | Value detailed =>
      (version detailed,
       if negb (empty (v2_path detailed)) then v2_path detailed
       else match v1_hierarchies detailed with h :: _ => path h | [] => [] end)
  end.

(** ** Quotas are compared exactly *)

Lemma ratio_step ln ld rn rd q lr rr :
  0 < ld -> 0 < rd -> ln = ld * q + lr -> rn = rd * q + rr ->
  (ln * rd <? rn * ld) = (lr * rd <? rr * ld).
Proof.
  intros Hld Hrd -> ->. apply Bool.eq_iff_eq_true. rewrite !Z.ltb_lt. nia.
Qed.

Lemma quotient_lt ln ld rn rd :
  0 < ld -> 0 < rd -> ln / ld < rn / rd -> ln * rd < rn * ld.
Proof.
  intros Hld Hrd Hlt. pose proof (Z.div_mod ln ld ltac:(lia)). pose proof (Z.div_mod rn rd ltac:(lia)).
  pose proof (Z.mod_pos_bound ln ld ltac:(lia)). pose proof (Z.mod_pos_bound rn rd ltac:(lia)).
  set (p := ln / ld) in *. set (q := rn / rd) in *.
  apply Z.lt_le_trans with (ld * (p + 1) * rd).
  - apply Z.mul_lt_mono_pos_r; lia.
  - transitivity (rd * q * ld); [|apply Z.mul_le_mono_nonneg_r; lia].
    replace (ld * (p + 1) * rd) with (rd * ld * (p + 1)) by ring.
    replace (rd * q * ld) with (rd * ld * q) by ring. apply Z.mul_le_mono_nonneg_l; nia.
Qed.

Lemma ratio_quotients ln ld rn rd :
  0 < ld -> 0 < rd -> ln / ld <> rn / rd ->
  (ln * rd <? rn * ld) = (ln / ld <? rn / rd).
Proof.
  intros Hld Hrd Hne. pose proof (quotient_lt ln ld rn rd Hld Hrd).
  pose proof (quotient_lt rn rd ln ld Hrd Hld).
  destruct (Z.ltb_spec (ln / ld) (rn / rd)); [apply Z.ltb_lt|apply Z.ltb_ge]; lia.
Qed.

Lemma halved ln ld q lr bound :
  0 < ld -> 0 <= q -> 0 < lr < ld -> ln = ld * q + lr ->
  (ld <= ln -> ln * ld < bound * 2 ^ 1) -> (ln < ld -> ln * ld < bound) -> ld * lr < bound.
Proof.
  intros Hld Hq Hlr Hln Hbig Hsmall. change (2 ^ 1) with 2 in Hbig.
  destruct (Z.eq_dec q 0) as [->|Hq0].
  - specialize (Hsmall ltac:(lia)). subst ln. lia.
  - assert (ld <= ld * q) by nia. assert (2 * lr < ln) by lia.
    assert (2 * lr * ld < ln * ld) by (apply Z.mul_lt_mono_pos_r; lia).
    specialize (Hbig ltac:(lia)). lia.
Qed.

(** The size of the left-hand pair, which every step at least halves. *)
Lemma ratio_loop_exact fuel ln ld rn rd inverted :
  0 < ln -> 0 < ld -> 0 < rn -> 0 < rd ->
  (ld <= ln -> ln * ld < 2 ^ Z.of_nat fuel) ->
  (ln < ld -> ln * ld < 2 ^ (Z.of_nat fuel - 1)) ->
  (0 < fuel)%nat ->
  ratio_loop fuel ln ld rn rd inverted =
  Some (if inverted then rn * ld <? ln * rd else ln * rd <? rn * ld).
Proof.
  revert ln ld rn rd inverted. induction fuel as [|fuel IH];
    intros ln ld rn rd inverted Hln Hld Hrn Hrd Hbig Hsmall Hfuel; [lia|].
  cbn [ratio_loop]. cbv zeta.
  pose proof (Z.div_mod ln ld ltac:(lia)) as Hl. pose proof (Z.div_mod rn rd ltac:(lia)) as Hr.
  pose proof (Z.mod_pos_bound ln ld ltac:(lia)) as Hlm.
  pose proof (Z.mod_pos_bound rn rd ltac:(lia)) as Hrm.
  pose proof (Z.div_pos ln ld ltac:(lia) ltac:(lia)) as Hq.
  destruct (Z.eqb_spec (ln / ld) (rn / rd)) as [Eq|Ne]; cbn [negb].
  - rewrite <- Eq in Hr.
    rewrite (ratio_step ln ld rn rd (ln / ld) (ln mod ld) (rn mod rd)) by done.
    rewrite (ratio_step rn rd ln ld (ln / ld) (rn mod rd) (ln mod ld)) by done.
    set (lr := ln mod ld) in *. set (rr := rn mod rd) in *. set (q := ln / ld) in *.
    destruct (Z.eqb_spec lr 0) as [El|El], (Z.eqb_spec rr 0) as [Er|Er]; cbn [orb andb negb].
    + rewrite El, Er. rewrite !Z.mul_0_l, Z.ltb_irrefl. by destruct inverted.
    + rewrite El, Z.mul_0_l. destruct inverted; f_equal; symmetry;
        [apply Z.ltb_ge|apply Z.ltb_lt]; nia.
    + rewrite Er, Z.mul_0_l. destruct inverted; f_equal; symmetry;
        [apply Z.ltb_lt|apply Z.ltb_ge]; nia.
    + assert (0 < lr) by lia. assert (0 < rr) by lia.
      replace (Z.of_nat (S fuel)) with (Z.of_nat fuel + 1) in * by lia.
      rewrite Z.pow_add_r in Hbig by lia. rewrite Z.add_simpl_r in Hsmall.
      assert (0 < fuel)%nat as Hfuel'.
      { destruct fuel; [|lia]. change (2 ^ Z.of_nat 0 * 2 ^ 1) with 2 in Hbig.
        change (2 ^ Z.of_nat 0) with 1 in Hsmall. exfalso. nia. }
      rewrite IH; [|lia..|nia| | |done].
      * destruct inverted; cbn [negb]; do 2 f_equal; ring.
      * intros _. apply halved with (ln := ln) (q := q); (done || lia).
      * lia.
  - destruct inverted; f_equal; symmetry; by apply ratio_quotients.
Qed.

(** [positive_ratio_less] compares two fractions of 64-bit numbers exactly,
    although the cross products do not fit 64 bits, and its loop ends. *)
Lemma positive_ratio_less_exact (ln ld rn rd : Z) :
  0 < ln <= uint64_max -> 0 < ld <= uint64_max -> 0 < rn <= uint64_max -> 0 < rd <= uint64_max ->
  positive_ratio_less ln ld rn rd = Some (ln * rd <? rn * ld).
Proof.
  intros. unfold positive_ratio_less.
  assert (ln * ld < 2 ^ 129) as Hb.
  { apply Z.le_lt_trans with (uint64_max * uint64_max); [apply Z.mul_le_mono_nonneg; lia|done]. }
  apply ratio_loop_exact; try lia.
Qed.


(** ** Escaped paths *)

Definition octal_char (d : Z) : ascii := char_of (48 + d).

(** A text with the characters of a class written as three octal digits, as
    the kernel writes the paths of the file. *)
Definition escape_char (c : ascii) : text :=
  ["\"%char; octal_char (code c / 64); octal_char (code c / 8 mod 8); octal_char (code c mod 8)].

Definition escape_path (special : ascii -> bool) (t : text) : text :=
  concat ((fun c => if special c then escape_char c else [c]) <$> t).

Lemma octal_char_code d : 0 <= d < 8 -> code (octal_char d) = 48 + d.
Proof. intros Hd. unfold octal_char. apply code_char_of. lia. Qed.

Lemma unescape_escaped c rest :
  unescape_mountinfo_path (escape_char c ++ rest) = c :: unescape_mountinfo_path rest.
Proof.
  pose proof (code_bound c) as Hc. cbn [escape_char app unescape_mountinfo_path].
  assert (0 <= code c / 64 < 8) as H1 by div_lia.
  assert (0 <= code c / 8 mod 8 < 8) as H2 by (apply Z.mod_pos_bound; lia).
  assert (0 <= code c mod 8 < 8) as H3 by (apply Z.mod_pos_bound; lia).
  unfold octal. rewrite !octal_char_code by done.
  rewrite !(proj2 (Z.leb_le _ _)) by lia. cbn [andb].
  rewrite (proj2 (is_char_true "\" "\") eq_refl). cbn [andb]. f_equal.
  rewrite !Z.shiftl_mul_pow2 by lia. rewrite !Z.add_simpl_l.
  rewrite (lor_add 6 (code c / 64 * 2 ^ 6)); [|lia|by apply Z.mod_mul|change (2 ^ 6) with 64; lia].
  rewrite (lor_add 3 (_ + _)); [|lia| |change (2 ^ 3) with 8; lia].
  - rewrite <- (char_of_code c) at 4. f_equal. div_lia.
  - change (2 ^ 6) with (8 * 2 ^ 3). rewrite Z.mul_assoc, <- Z.mul_add_distr_r. by apply Z.mod_mul.
Qed.

(** Unescaping a mount point gives back the path, whatever characters were
    escaped, as long as the backslash is among them. *)
Theorem unescape_mountinfo_escape (special : ascii -> bool) (t : text) :
  special "\"%char = true -> unescape_mountinfo_path (escape_path special t) = t.
Proof.
  intros Hs. unfold escape_path. induction t as [|c t IH]; [done|]. csimpl.
  destruct (special c) eqn:Hc; [by rewrite unescape_escaped, IH|].
  cbn [app]. set (rest := concat _) in *.
  assert (is_char c "\" = false) as Hb by (apply is_char_false; intros ->; congruence).
  destruct rest as [|c1 [|c2 [|c3 rest']]] eqn:Er; cbn [unescape_mountinfo_path];
    rewrite ?Hb; cbn [andb]; f_equal; exact IH.
Qed.

Lemma unescape_mountinfo_escape_witness :
  escape_path (fun c => is_char c " " || is_char c "\") (lit "/mnt/a b\c") = lit "/mnt/a\040b\134c" /\
  unescape_mountinfo_path (lit "/mnt/a\040b\134c") = lit "/mnt/a b\c".
Proof.
  split; [reflexivity|].
  exact (unescape_mountinfo_escape (fun c => is_char c " " || is_char c "\") (lit "/mnt/a b\c") eq_refl).
Defined.

(** ** The loops over directories end: more fuel changes nothing *)

(** What is left of a text without the blanks and zeros around it. *)
Definition around (c : ascii) : Prop := c ∈ [ch_nul; " "%char; ch_tab; ch_cr; ch_lf].

Definition bare (content inner : text) : Prop := exists front back,
  content = front ++ inner ++ back /\ Forall around (front ++ back) /\
  forall c, head inner = Some c \/ last inner = Some c -> ~ around c.

Lemma signature_blank_around c : signature_blank c = true <-> around c.
Proof.
  unfold signature_blank, around. rewrite !orb_true_iff, !is_char_true, !elem_of_cons, elem_of_nil. tauto.
Qed.

Lemma trim_signature_bare content inner : trim_signature content = inner <-> bare content inner.
Proof.
  assert (forall l, Forall around l <-> Forall (fun c => signature_blank c = true) l) as Hall
    by (intros l; apply Forall_iff; intros c; symmetry; apply signature_blank_around).
  assert (forall c, signature_blank c = false <-> ~ around c) as Hn
    by (intros c; by rewrite <- signature_blank_around, not_true_iff_false).
  unfold trim_signature. split.
  - intros <-. destruct (drop_back_split signature_blank content) as (back & Hb & Fb).
    destruct (drop_front_split signature_blank (drop_back signature_blank content)) as (front & Hf & Ff).
    set (inner := drop_front _ _) in *. exists front, back. split; [rewrite Hb, Hf at 1; by rewrite <- app_assoc|].
    split; [apply Hall; by apply Forall_app|]. intros c [Hc|Hc]; apply Hn.
    + apply (drop_front_head _ (drop_back signature_blank content)). fold inner. by destruct inner.
    + apply (drop_back_last _ content). rewrite Hf, last_app. by rewrite Hc.
  - intros (front & back & -> & [Ff Fb]%Hall%Forall_app & Hends). rewrite app_assoc, drop_back_app by done.
    destruct (decide (inner = [])) as [->|Hne]; [by rewrite app_nil_r, drop_back_all by done|].
    rewrite drop_back_id.
    + rewrite drop_front_app by done. apply drop_front_id. intros c Hc. apply Hn, Hends. left. by destruct inner.
    + intros c Hc. apply Hn, Hends. right. rewrite last_app in Hc. destruct (last inner) eqn:El; [done|]. by apply last_None in El.
Qed.

(** The number that decimal digits make. *)
Definition decimal_value (l : text) : Z := foldl (fun n c => n * 10 + (code c - 48)) 0 l.

Definition decimal_digit (c : ascii) : Prop := 48 <= code c <= 57.

Lemma digits_loop_fold l v r :
  0 <= v <= uint64_max ->
  digits_loop l v = Some r <->
  Forall decimal_digit l /\ foldl (fun n c => n * 10 + (code c - 48)) v l = r /\ r <= uint64_max.
Proof.
  assert (forall l n, Forall decimal_digit l -> 0 <= n -> n <= foldl (fun n c => n * 10 + (code c - 48)) n l) as Hge.
  { intros l'. induction l' as [|c l' IH]; intros n; [done|]. intros [Hc Hl]%Forall_cons Hn. unfold decimal_digit in Hc.
    cbn [foldl]. specialize (IH (n * 10 + (code c - 48)) Hl ltac:(lia)). lia. }
  revert v. induction l as [|c l IH]; intros v Hv; cbn [digits_loop foldl].
  { split; [intros [= <-]; split; [constructor|split; [done|lia]]|]. by intros (_ & -> & _). }
  rewrite Forall_cons. unfold decimal_digit at 1.
  destruct (Z.ltb_spec (code c) 48), (Z.ltb_spec 57 (code c)); cbn [orb]; try (split; [done|intros ([? _] & _); lia]).
  destruct (Z.ltb_spec ((uint64_max - (code c - 48)) / 10) v) as [Hlt|Hle].
  - split; [done|]. intros ([_ Hl] & <- & Hr).
    assert (v * 10 + (code c - 48) <= uint64_max) as Hb by (specialize (Hge l (v * 10 + (code c - 48)) Hl ltac:(lia)); lia).
    assert (v <= (uint64_max - (code c - 48)) / 10) by (apply Z.div_le_lower_bound; lia). lia.
  - assert (0 <= v * 10 + (code c - 48) <= uint64_max) as Hb.
    { unfold uint64_max in *. pose proof (Z.mul_div_le (18446744073709551615 - (code c - 48)) 10 ltac:(lia)). lia. }
    unfold wrap. rewrite Z.mod_small by (change (2 ^ 64) with (uint64_max + 1); lia). rewrite IH by done.
    split; [intros (? & ? & ?)|intros ([_ ?] & ? & ?)]; split_and!; try done; lia.
Qed.

(** What the text of a limit says: [max], [-1] and values from the largest the
    kernel writes on are no limit. *)
Definition limit_text (content : text) (limit : option Z) : Prop := exists inner, bare content inner /\
  ((inner = lit "max" \/ inner = lit "-1") /\ limit = None \/
   inner <> [] /\ Forall decimal_digit inner /\ decimal_value inner < 2 ^ 64 /\
   limit = if decide (decimal_value inner < 9223372036854771712) then Some (decimal_value inner) else None).

Lemma limit_text_parsed content limit : parse_cgroup_limit_value content = Value limit <-> limit_text content limit.
Proof.
  unfold limit_text. setoid_rewrite <- trim_signature_bare. unfold parse_cgroup_limit_value. cbv zeta.
  set (inner := trim_signature content).
  transitivity (((inner = lit "max" \/ inner = lit "-1") /\ limit = None \/
   inner <> [] /\ Forall decimal_digit inner /\ decimal_value inner < 2 ^ 64 /\
   limit = if decide (decimal_value inner < 9223372036854771712) then Some (decimal_value inner) else None));
    [|split; [intros Hl; by exists inner|by intros (? & <- & ?)]].
  destruct (empty inner) eqn:Ee; [apply empty_true in Ee as ->; split; [done|naive_solver]|]. apply empty_false in Ee.
  destruct (same inner (lit "max")) eqn:Em.
  { apply same_true in Em as ->. split; [intros [= <-]; auto|]. intros [[_ ->]|(_ & Hd & _)]; [done|].
    apply Forall_cons in Hd as [Hd _]. vm_compute in Hd. by destruct Hd. }
  destruct (same inner (lit "-1")) eqn:E1.
  { apply same_true in E1 as ->. split; [intros [= <-]; auto|]. intros [[_ ->]|(_ & Hd & _)]; [done|].
    apply Forall_cons in Hd as [Hd _]. vm_compute in Hd. by destruct Hd. }
  apply same_false in Em, E1. destruct (front_is "-" inner) eqn:Ef.
  { split; [done|]. intros [[[|] _]|(_ & Hd & _)]; [done..|]. destruct inner as [|c rest]; [done|].
    apply is_char_true in Ef as ->. apply Forall_cons in Hd as [Hd _]. vm_compute in Hd. by destruct Hd. }
  pose proof (fun r => digits_loop_fold inner 0 r ltac:(done)) as Hd. fold (decimal_value inner) in Hd. split.
  - intros (v & Hv & [= <-])%bind_value. right. split; [done|]. destruct (digits_loop inner 0) as [d|]; [|done].
    injection Hv as ->. destruct (proj1 (Hd v) eq_refl) as (Hf & -> & Hr). split; [done|]. split; [unfold uint64_max in Hr; lia|].
    change 0x7FFFFFFFFFFFF000 with 9223372036854771712. destruct (Z.leb_spec 9223372036854771712 v); [by rewrite decide_False by lia|by rewrite decide_True].
  - intros [[[|] _]|(_ & Hf & Hr & ->)]; [done..|].
    rewrite (proj2 (Hd (decimal_value inner))) by (split; [done|split; [done|unfold uint64_max; lia]]). cbn [malformed mbind result_bind].
    change 0x7FFFFFFFFFFFF000 with 9223372036854771712. destruct (Z.leb_spec 9223372036854771712 (decimal_value inner)); [by rewrite decide_False by lia|by rewrite decide_True].
Qed.

Lemma find_last_lt p l i : find_last p l = Some i -> (i < length l)%nat.
Proof.
  revert i. induction l as [|c l IH]; intros i; simpl; [done|].
  destruct (find_last p l) as [j|]; [intros [= <-]; specialize (IH j eq_refl); lia|].
  destruct (p c); [intros [= <-]; lia|done].
Qed.

Lemma ancestor_loop_fuel fuel fuel' mount_point current ancestors :
  (length current < fuel)%nat -> (length current < fuel')%nat ->
  ancestor_loop fuel mount_point current ancestors =
  ancestor_loop fuel' mount_point current ancestors.
Proof.
  revert fuel' current ancestors. induction fuel as [|fuel IH]; intros [|fuel'] current ancestors H H';
    [lia..|]. cbn [ancestor_loop]. destruct (negb _); [|done]. unfold rfind.
  destruct (find_last _ _) as [i|] eqn:E; [|done]. apply find_last_lt in E. destruct (i =? 0)%nat; [done|].
  apply IH; unfold substr; rewrite drop_0, length_take; lia.
Qed.

Lemma drop_slashes_done fuel path :
  (length path <= fuel)%nat ->
  (length (drop_slashes fuel path) <= 1)%nat \/ last (drop_slashes fuel path) <> Some "/"%char.
Proof.
  revert path. induction fuel as [|fuel IH]; intros path Hf; simpl; [left; lia|].
  destruct path as [|c path _] using rev_ind; [left; simpl; lia|].
  rewrite last_snoc. destruct (_ && _) eqn:E.
  - rewrite removelast_last. apply IH. rewrite length_app in Hf. simpl in Hf. lia.
  - apply andb_false_iff in E as [E%Nat.ltb_ge|E%is_char_false]; [by left|right].
    rewrite last_snoc. by intros [= ->].
Qed.
