(* ===== verification/Cgroups.v ===== *)
(** * Control groups on Linux

    The part of [include/syscape/detail/virtualization/linux.hpp] on control
    groups: the limits that are in effect for a group because of its ancestors,
    the mounts of the hierarchies, and the group of the process with its
    controllers and limits, for both versions of the hierarchy. *)
From S2P Require Import Prelude Result CppText Utf8 System Virtualization.

(** ** virtualization.hpp *)

Record cgroup_limits := Cgroup_limits {
  memory_max_bytes : option Z;
  memory_high_bytes : option Z;
  memory_swap_max_bytes : option Z;
  cpu_quota_us : option Z;
  cpu_period_us : option Z;
  pids_max : option Z
}.

Record cgroup_info := Cgroup_info {
  ci_version : cgroup_version;
  ci_path : text;
  ci_limits : cgroup_limits;
  ci_controllers : list text
}.

Definition no_limits : cgroup_limits := Cgroup_limits None None None None None None.

Definition no_cgroup : cgroup_info := Cgroup_info cgroup_none [] no_limits [].

(** ** The system *)

(** What [stat] reports: whether [S_ISDIR], the inode and the device. *)
Record file_status := File_status { is_directory : bool; st_ino : Z; st_dev : Z }.

(** [access] with [F_OK], [stat] with the [errno] of a failure, the [f_type] of
    [statfs] (none when it fails), and whether [getenv] finds a variable. *)
Class VirtualizationKernel (W : Type) := {
  file_accessible : text -> W -> bool * W;
  stat_file : text -> W -> (Z + file_status) * W;
  statfs_type : text -> W -> option Z * W;
  environment_has : text -> W -> bool * W
}.

Definition slash_end (t : text) : bool := match last t with Some c => is_char c "/" | None => false end.

(** [full_path]: a slash between the directory and the name. *)
Definition file_in (dir filename : text) : text :=
  (if empty dir || negb (slash_end dir) then dir ++ lit "/" else dir) ++ filename.

(** The loop of [get_ancestor_paths]; one unit of fuel is one path. *)
Fixpoint path_loop (fuel : nat) (current : text) : list text :=
  match fuel with
  | O => []
  | S fuel =>
      if negb (empty current) && negb (same current (lit "/")) then
        current ::
        match rfind "/" current with
        | None => []
        | Some last_slash => if (last_slash =? 0)%nat then [] else path_loop fuel (substr 0 last_slash current)
        end
      else []
  end.

Definition get_ancestor_paths (path : text) : list text :=
  if empty path || same path (lit "/") then [lit "/"]
  else
    let current := drop_slashes (length path) path in
    path_loop (S (length current)) current ++ [lit "/"].

(** ** Limits: the levels *)

Definition lower_limit (parsed min_limit : option Z) : option Z :=
  match parsed, min_limit with
  | Some p, Some m => Some (Z.min m p)
  | Some p, None => Some p
  | None, _ => min_limit
  end.

(** The comparison of two quotas with positive periods, which always ends. *)
Definition ratio_less (q p cur_q cur_p : Z) : bool :=
  bool_decide (positive_ratio_less q p cur_q cur_p = Some true).

(** The quota and the period in effect so far, with those of the next level. *)
Definition tighten_cpu (level : option Z * Z) (effective : option Z * option Z) : option Z * option Z :=
  let '(level_quota, level_period) := level in
  let '(effective_quota_us, effective_period_us) := effective in
  let effective_period_us :=
    match effective_period_us with Some p => Some p | None => Some level_period end in
  match level_quota with
  | None => (effective_quota_us, effective_period_us)
  | Some q =>
      match effective_quota_us with
      | None => (Some q, Some level_period)
      | Some cur_q =>
          if ratio_less q level_period cur_q (default 100000 effective_period_us)
          then (Some q, Some level_period) else (effective_quota_us, effective_period_us)
      end
  end.

(** The state of the loop of version 1: the best quota and period, and the
    first period. *)
Record cgroup1_cpu := Cgroup1_cpu { best : option (Z * Z); first_period : option Z }.

Definition tighten_cpu1 (level : option Z * Z) (s : cgroup1_cpu) : cgroup1_cpu :=
  let '(q_parsed, p_val) := level in
  Cgroup1_cpu
    (match q_parsed, best s with
     | Some q, None => Some (q, p_val)
     | Some q, Some (best_quota, best_period) =>
         if ratio_less q p_val best_quota best_period then Some (q, p_val) else best s
     | None, b => b
     end)
    (match first_period s with Some p => Some p | None => Some p_val end).

Definition cgroup1_effective (s : cgroup1_cpu) : option Z * option Z :=
  match best s with
  | Some (best_quota, best_period) => (Some best_quota, Some best_period)
  | None => (None, first_period s)
  end.

Definition parse_period (content : text) : result Z :=
  let p_str := trim_signature content in
  reject (empty p_str) errc_malformed_data;;
  p_val ← malformed (digits_loop p_str 0);
  reject (p_val =? 0) errc_malformed_data;;
  Value p_val.

(** ** Mounts *)

Record cgroup_mount_info := Cgroup_mount_info {
  mount_root : text;
  mount_point : text;
  fstype : text;
  options : list text
}.

Definition is_cgroup_fs (fs : text) : bool := same fs (lit "cgroup") || same fs (lit "cgroup2").

(** A line of [/proc/mounts]. *)
Definition mounts_line (line : text) (mounts : list cgroup_mount_info) : step (list cgroup_mount_info) Empty_set :=
  let tokens := split_whitespace line in
  if (4 <=? length tokens)%nat && is_cgroup_fs (nth 2 tokens []) then
    Next (mounts ++ [Cgroup_mount_info (lit "/") (unescape_mountinfo_path (nth 1 tokens [])) (nth 2 tokens [])
            (split_commas (nth 3 tokens []))])
  else Next mounts.

(** The index of the first separator, zero without one. *)
Definition separator_index (tokens : list text) : nat :=
  match list_find (fun token => token = lit "-") tokens with Some (i, _) => i | None => 0%nat end.

(** A line of [/proc/self/mountinfo]. *)
Definition mountinfo_line (line : text) (mounts : list cgroup_mount_info) : step (list cgroup_mount_info) Empty_set :=
  let tokens := split_whitespace line in
  let sep_idx := separator_index tokens in
  if (6 <=? sep_idx)%nat && (sep_idx + 4 <=? length tokens)%nat then
    let fs := nth (sep_idx + 1) tokens [] in
    if is_cgroup_fs fs then
      Next (mounts ++ [Cgroup_mount_info (unescape_mountinfo_path (nth 3 tokens []))
              (unescape_mountinfo_path (nth 4 tokens [])) fs (split_commas (nth (sep_idx + 3) tokens []))])
    else Next mounts
  else Next mounts.

Definition mount_lines (line_of : text -> list cgroup_mount_info -> step (list cgroup_mount_info) Empty_set) (content : text)
    : list cgroup_mount_info :=
  match each_field ch_lf content line_of [] with
  | Next mounts => mounts
  | Return no => match no with end
  end.

(** The longest root so far among the mounts that are of the kind and cover
    the path. *)
Definition most_specific (kind : cgroup_mount_info -> bool) (proc_cgroup_path : text)
    (found : option cgroup_mount_info) (m : cgroup_mount_info) : option cgroup_mount_info :=
  if kind m && is_mount_root_prefix (mount_root m) proc_cgroup_path then
    match found with
    | None => Some m
    | Some f => if (length (mount_root f) <? length (mount_root m))%nat then Some m else found
    end
  else found.

Definition is_cgroup2 (m : cgroup_mount_info) : bool := same (fstype m) (lit "cgroup2").

Definition has_controller (controller_name : text) (m : cgroup_mount_info) : bool :=
  same (fstype m) (lit "cgroup") && existsb (fun opt => same opt controller_name) (options m).

Definition cgroup2_magic : Z := 0x63677270.
Definition cgroup1_magic : Z := 0x27e0eb.

(** ** The group of the process *)

(** The path of the first hierarchy with the controller. *)
Definition get_v1_controller_info (hierarchies : list cgroup_v1_hierarchy) (name : text) : option text :=
  match list_find (fun hier => existsb (fun ctrl => same ctrl name) (controllers hier) = true) hierarchies with
  | Some (_, hier) => Some (path hier)
  | None => None
  end.

Definition add_controller (found : list text) (ctrl : text) : list text :=
  if empty ctrl || starts_with (lit "name=") ctrl then found
  else if bool_decide (ctrl ∈ found) then found else found ++ [ctrl].

Definition v1_controllers (hierarchies : list cgroup_v1_hierarchy) (found : list text) : list text :=
  std_sort text_less (foldl (fun found hier => foldl add_controller found (controllers hier)) found hierarchies).

Definition v1_path (hierarchies : list cgroup_v1_hierarchy) (current : text) : text :=
  if empty current || same current (lit "/") then
    match hierarchies with hier :: _ => path hier | [] => lit "/" end
  else current.

Definition with_memory (max : option Z) (l : cgroup_limits) : cgroup_limits :=
  Cgroup_limits max (memory_high_bytes l) (memory_swap_max_bytes l) (cpu_quota_us l) (cpu_period_us l) (pids_max l).

Definition with_all_memory (max high swap : option Z) (l : cgroup_limits) : cgroup_limits :=
  Cgroup_limits max high swap (cpu_quota_us l) (cpu_period_us l) (pids_max l).

Definition with_cpu (cpu : option Z * option Z) (l : cgroup_limits) : cgroup_limits :=
  Cgroup_limits (memory_max_bytes l) (memory_high_bytes l) (memory_swap_max_bytes l) (fst cpu) (snd cpu) (pids_max l).

Definition with_pids (max : option Z) (l : cgroup_limits) : cgroup_limits :=
  Cgroup_limits (memory_max_bytes l) (memory_high_bytes l) (memory_swap_max_bytes l) (cpu_quota_us l) (cpu_period_us l) max.

Section cgroup_queries.
Context {W : Type} `{Kernel W} `{VirtualizationKernel W}.

(** The content of a file of a level; none when it does not exist. *)
Definition level_file (full_path : text) : query W (option text) := fun w =>
  match stat_file full_path w with
  | (inl errno, w) => (if errno =? ENOENT then Value None else fail_native errno, w)
  | (inr _, w) => (content ← read_text_file full_path 256; mret (Some content)) w
  end.

Definition level_value {A} (full_path : text) (parse : text -> result A) : query W (option A) :=
  content ← level_file full_path;
  match content with
  | None => mret None
  | Some content => v ← pure (parse content); mret (Some v)
  end.

(** The levels of the ancestors from the group on: whether any file was found,
    and the values folded in that order. *)
Fixpoint levels_loop {A S} (level : text -> query W (option A)) (fold : A -> S -> S) (dirs : list text)
    (found_any_file : bool) (s : S) : query W (bool * S) :=
  match dirs with
  | [] => mret (found_any_file, s)
  | dir :: dirs =>
      v ← level dir;
      match v with
      | None => levels_loop level fold dirs found_any_file s
      | Some v => levels_loop level fold dirs true (fold v s)
      end
  end.

Definition limit_level (filename dir : text) : query W (option (option Z)) :=
  level_value (file_in dir filename) parse_cgroup_limit_value.

Definition optional_file (filename : text) : bool :=
  same filename (lit "memory.swap.max") || same filename (lit "memory.high").

Definition read_effective_cgroup_limit (ancestor_dirs : list text) (filename : text) : query W (option Z) :=
  found ← levels_loop (limit_level filename) lower_limit ancestor_dirs false None;
  pure (if negb (fst found) then if optional_file filename then Value None else fail errc_not_found
        else Value (snd found)).

Definition cpu_level (dir : text) : query W (option (option Z * Z)) :=
  level_value (file_in dir (lit "cpu.max")) parse_cgroup_cpu_max.

Definition read_effective_cpu_max (ancestor_dirs : list text) : query W (option Z * option Z) :=
  found ← levels_loop cpu_level tighten_cpu ancestor_dirs false (None, None);
  pure (reject (negb (fst found)) errc_not_found;; Value (snd found)).

(** The period must exist where the quota does. *)
Definition cfs_period (period_path : text) : query W Z := fun w =>
  match stat_file period_path w with
  | (inl errno, w) => (fail_native errno, w)
  | (inr _, w) => (content ← read_text_file period_path 256; pure (parse_period content)) w
  end.

Definition cpu1_level (dir : text) : query W (option (option Z * Z)) :=
  q_parsed ← level_value (file_in dir (lit "cpu.cfs_quota_us")) parse_cgroup1_cpu_quota_value;
  match q_parsed with
  | None => mret None
  | Some q => p_val ← cfs_period (file_in dir (lit "cpu.cfs_period_us")); mret (Some (q, p_val))
  end.

Definition read_effective_cgroup1_cpu (ancestor_dirs : list text) : query W (option Z * option Z) :=
  found ← levels_loop cpu1_level tighten_cpu1 ancestor_dirs false (Cgroup1_cpu None None);
  pure (reject (negb (fst found)) errc_not_found;; Value (cgroup1_effective (snd found))).

(** ** Mounts *)

Definition read_cgroup_mounts : query W (list cgroup_mount_info) :=
  content ← attempt (read_text_file (lit "/proc/self/mountinfo") (2 * 1024 * 1024));
  match content with
  | Value content => mret (mount_lines mountinfo_line content)
  | Failure e =>
      if negb (matches_std_errc e ENOENT) then pure (Failure e)
      else content ← read_text_file (lit "/proc/mounts") (2 * 1024 * 1024); mret (mount_lines mounts_line content)
  end.

(** The mount point and root, none when there is no mount; without any mount
    the usual place is looked at. *)
Definition find_cgroup2_mount (mounts : list cgroup_mount_info) (proc_cgroup_path : text) (w : W)
    : option (text * text) * W :=
  match foldl (most_specific is_cgroup2 proc_cgroup_path) None mounts with
  | Some m => (Some (mount_point m, mount_root m), w)
  | None =>
      match mounts with
      | [] =>
          match statfs_type (lit "/sys/fs/cgroup") w with
          | (Some f_type, w) =>
              (if wrap 64 f_type =? cgroup2_magic then Some (lit "/sys/fs/cgroup", lit "/") else None, w)
          | (None, w) => (None, w)
          end
      | _ => (None, w)
      end
  end.

Definition find_cgroup1_controller_mount (mounts : list cgroup_mount_info) (controller_name proc_cgroup_path : text) (w : W)
    : option (text * text) * W :=
  match foldl (most_specific (has_controller controller_name) proc_cgroup_path) None mounts with
  | Some m => (Some (mount_point m, mount_root m), w)
  | None =>
      match mounts with
      | [] =>
          let candidate := lit "/sys/fs/cgroup/" ++ controller_name in
          match stat_file candidate w with
          | (inr st, w) => (if is_directory st then Some (candidate, lit "/") else None, w)
          | (inl _, w) => (None, w)
          end
      | _ => (None, w)
      end
  end.

Definition read_cgroup2_controllers (target_dir : text) : query W (list text) := fun w =>
  let ctrl_file := target_dir ++ lit "/cgroup.controllers" in
  match stat_file ctrl_file w with
  | (inl errno, w) => (if errno =? ENOENT then fail errc_not_found else fail_native errno, w)
  | (inr _, w) =>
      (ctrl_content ← read_text_file ctrl_file 1024; mret (std_sort text_less (split_whitespace ctrl_content))) w
  end.

(** ** Version *)

Definition parsed_cgroup_file : query W parsed_cgroup_info :=
  cgroup_content ← read_text_file (lit "/proc/self/cgroup") (16 * 1024);
  pure (parse_cgroup_proc_file_detailed cgroup_content).

Definition version_of_mount : query W cgroup_version := fun w =>
  match statfs_type (lit "/sys/fs/cgroup") w with
  | (Some f_type, w) =>
      (Value (if wrap 64 f_type =? cgroup2_magic then cgroup_v2
              else if wrap 64 f_type =? cgroup1_magic then cgroup_v1
              else cgroup_none), w)
  | (None, w) => (Value cgroup_none, w)
  end.

Definition detect_cgroup_version : query W cgroup_version :=
  parsed_info ← parsed_cgroup_file;
  if bool_decide (version parsed_info <> cgroup_none) then mret (version parsed_info)
  else version_of_mount.

(** ** Limits and controllers of the process *)

(** A query that a condition guards. *)
Definition query_if {A} (condition : bool) (q : A -> query W A) (a : A) : query W A :=
  if condition then q a else mret a.

Definition v2_memory (ancestor_dirs : list text) (l : cgroup_limits) : query W cgroup_limits :=
  max ← read_effective_cgroup_limit ancestor_dirs (lit "memory.max");
  high ← read_effective_cgroup_limit ancestor_dirs (lit "memory.high");
  swap ← read_effective_cgroup_limit ancestor_dirs (lit "memory.swap.max");
  mret (with_all_memory max high swap l).

Definition v2_cpu (ancestor_dirs : list text) (l : cgroup_limits) : query W cgroup_limits :=
  cpu ← read_effective_cpu_max ancestor_dirs; mret (with_cpu cpu l).

Definition pids_limit (ancestor_dirs : list text) (l : cgroup_limits) : query W cgroup_limits :=
  max ← read_effective_cgroup_limit ancestor_dirs (lit "pids.max"); mret (with_pids max l).

Definition v2_limits (ancestor_dirs ctrls : list text) : query W cgroup_limits :=
  let has_v2_controller name := bool_decide (lit name ∈ ctrls) in
  l ← query_if (has_v2_controller "memory"%string) (v2_memory ancestor_dirs) no_limits;
  l ← query_if (has_v2_controller "cpu"%string) (v2_cpu ancestor_dirs) l;
  query_if (has_v2_controller "pids"%string) (pids_limit ancestor_dirs) l.

(** A query for a mount, and what it must find. *)
Definition mount_or_fail (find_mount : W -> option (text * text) * W) : query W (text * text) := fun w =>
  match find_mount w with
  | (Some m, w) => (Value m, w)
  | (None, w) => (fail errc_not_found, w)
  end.

Definition detect_v2 (mounts : list cgroup_mount_info) (info : parsed_cgroup_info) (record : cgroup_info)
    : query W cgroup_info :=
  let rel := if negb (empty (v2_path info)) then v2_path info else lit "/" in
  m ← mount_or_fail (find_cgroup2_mount mounts rel);
  let ancestor_dirs := get_cgroup_ancestor_dirs (fst m) (snd m) rel in
  match ancestor_dirs with
  | [] => mret (Cgroup_info (ci_version record) rel (ci_limits record) (ci_controllers record))
  | front :: _ =>
      ctrls ← read_cgroup2_controllers front;
      l ← v2_limits ancestor_dirs ctrls;
      mret (Cgroup_info (ci_version record) rel l ctrls)
  end.

Definition v1_memory (mounts : list cgroup_mount_info) (hierarchies : list cgroup_v1_hierarchy) (l : cgroup_limits)
    : query W cgroup_limits :=
  match get_v1_controller_info hierarchies (lit "memory") with
  | None => mret l
  | Some mem_rel =>
      m ← mount_or_fail (find_cgroup1_controller_mount mounts (lit "memory") mem_rel);
      max ← read_effective_cgroup_limit (get_cgroup_ancestor_dirs (fst m) (snd m) mem_rel) (lit "memory.limit_in_bytes");
      mret (with_memory max l)
  end.

Definition find_cpu_mount (mounts : list cgroup_mount_info) (cpu_rel : text) (w : W) : option (text * text) * W :=
  match find_cgroup1_controller_mount mounts (lit "cpu") cpu_rel w with
  | (Some m, w) => (Some m, w)
  | (None, w) => find_cgroup1_controller_mount mounts (lit "cpu,cpuacct") cpu_rel w
  end.

Definition v1_cpu (mounts : list cgroup_mount_info) (hierarchies : list cgroup_v1_hierarchy) (l : cgroup_limits)
    : query W cgroup_limits :=
  match (match get_v1_controller_info hierarchies (lit "cpu") with
         | Some rel => Some rel
         | None => get_v1_controller_info hierarchies (lit "cpuacct")
         end) with
  | None => mret l
  | Some cpu_rel =>
      m ← mount_or_fail (find_cpu_mount mounts cpu_rel);
      cpu ← read_effective_cgroup1_cpu (get_cgroup_ancestor_dirs (fst m) (snd m) cpu_rel);
      mret (with_cpu cpu l)
  end.

Definition v1_pids (mounts : list cgroup_mount_info) (hierarchies : list cgroup_v1_hierarchy) (l : cgroup_limits)
    : query W cgroup_limits :=
  match get_v1_controller_info hierarchies (lit "pids") with
  | None => mret l
  | Some pids_rel =>
      m ← mount_or_fail (find_cgroup1_controller_mount mounts (lit "pids") pids_rel);
      pids_limit (get_cgroup_ancestor_dirs (fst m) (snd m) pids_rel) l
  end.

(** What version 2 has not set yet. *)
Definition v1_limits (mounts : list cgroup_mount_info) (hierarchies : list cgroup_v1_hierarchy) (l : cgroup_limits)
    : query W cgroup_limits :=
  l ← query_if (bool_decide (memory_max_bytes l = None)) (v1_memory mounts hierarchies) l;
  l ← query_if (bool_decide (cpu_quota_us l = None)) (v1_cpu mounts hierarchies) l;
  query_if (bool_decide (pids_max l = None)) (v1_pids mounts hierarchies) l.

Definition detect_v1 (mounts : list cgroup_mount_info) (info : parsed_cgroup_info) (record : cgroup_info)
    : query W cgroup_info :=
  l ← v1_limits mounts (v1_hierarchies info) (ci_limits record);
  mret (Cgroup_info (ci_version record) (v1_path (v1_hierarchies info) (ci_path record)) l
          (v1_controllers (v1_hierarchies info) (ci_controllers record))).

Definition is_version (vs : list cgroup_version) (info : parsed_cgroup_info) : bool := bool_decide (version info ∈ vs).

Definition detect_hierarchies (info : parsed_cgroup_info) : query W cgroup_info :=
  mounts ← read_cgroup_mounts;
  record ← query_if (is_version [cgroup_v2; cgroup_hybrid] info) (detect_v2 mounts info)
             (Cgroup_info (version info) [] no_limits []);
  query_if (is_version [cgroup_v1; cgroup_hybrid] info) (detect_v1 mounts info) record.

Definition detect_current_cgroup : query W cgroup_info :=
  parsed_info ← parsed_cgroup_file;
  if bool_decide (version parsed_info = cgroup_none) then mret no_cgroup
  else detect_hierarchies parsed_info.

Definition cgroup_hierarchy_version : query W cgroup_version := detect_cgroup_version.

Definition current_cgroup : query W cgroup_info := detect_current_cgroup.

(** The public query checks the texts. *)
Definition checked_current_cgroup : query W cgroup_info :=
  res ← current_cgroup;
  pure (reject (negb (is_valid_utf8 (ci_path res))) errc_invalid_encoding;;
        for_each (fun ctrl => reject (negb (is_valid_utf8 ctrl)) errc_invalid_encoding) (ci_controllers res);;
        Value res).

End cgroup_queries.

(** ** Numbers are positive and fit 64 bits *)

Lemma digits_loop_bound l v r : 0 <= v <= uint64_max -> digits_loop l v = Some r -> 0 <= r <= uint64_max.
Proof.
  revert v. induction l as [|c l IH]; intros v Hv; cbn [digits_loop]; [by intros [= <-]|].
  destruct (Z.ltb_spec (code c) 48), (Z.ltb_spec 57 (code c)); cbn [orb]; try done.
  destruct (Z.ltb_spec ((uint64_max - (code c - 48)) / 10) v) as [|Hle]; [done|]. apply IH.
  assert (0 <= v * 10 + (code c - 48) <= uint64_max) as Hb.
  { unfold uint64_max in *. pose proof (Z.mul_div_le (18446744073709551615 - (code c - 48)) 10 ltac:(lia)). lia. }
  unfold wrap. rewrite Z.mod_small; [done|]. change (2 ^ 64) with (uint64_max + 1). lia.
Qed.

Definition cpu_level_ok (level : option Z * Z) : Prop :=
  0 < snd level <= uint64_max /\ forall q, fst level = Some q -> 0 < q <= uint64_max.

Lemma limit_value_bound t m : parse_cgroup_limit_value t = Value (Some m) -> 0 <= m < 0x7FFFFFFFFFFFF000.
Proof.
  unfold parse_cgroup_limit_value. repeat split_if; try done. intros (v & Hv & Hm)%bind_value.
  destruct (digits_loop _ _) as [d|] eqn:Ed; [|done]. injection Hv as ->. revert Hm. split_if; [done|].
  intros [= <-]. apply digits_loop_bound in Ed; [|zlia]. bool_to_prop. lia.
Qed.

Lemma cpu_max_ok t level : parse_cgroup_cpu_max t = Value level -> cpu_level_ok level.
Proof.
  unfold parse_cgroup_cpu_max. intros ([] & _ & H)%bind_value. apply bind_value in H as (quota & Hq & H).
  apply bind_value in H as ([] & _ & H). apply bind_value in H as (p & Hp & H). apply bind_value in H as ([] & H0 & [= <-]).
  destruct (digits_loop _ _) as [d|] eqn:Ed; [|done]. injection Hp as ->. apply digits_loop_bound in Ed; [|zlia].
  apply reject_value in H0. bool_to_prop. split; cbn [fst snd]; [lia|]. intros q ->. revert Hq. split_if; [done|].
  intros ([m|] & Hm & Hq)%bind_value; [|done]. apply limit_value_bound in Hm. revert Hq. split_if; [done|]. intros [= <-].
  bool_to_prop. zlia.
Qed.

Lemma cfs_quota_ok t q : parse_cgroup1_cpu_quota_value t = Value (Some q) -> 0 < q <= uint64_max.
Proof.
  unfold parse_cgroup1_cpu_quota_value. repeat split_if; try done. intros (v & Hv & Hm)%bind_value.
  destruct (digits_loop _ _) as [d|] eqn:Ed; [|done]. injection Hv as ->. revert Hm. split_if; [done|].
  intros [= <-]. apply digits_loop_bound in Ed; [|zlia]. bool_to_prop. zlia.
Qed.

Lemma period_ok t p : parse_period t = Value p -> 0 < p <= uint64_max.
Proof.
  unfold parse_period. intros ([] & _ & H)%bind_value. apply bind_value in H as (v & Hv & H).
  apply bind_value in H as ([] & H0 & [= <-]). destruct (digits_loop _ _) as [d|] eqn:Ed; [|done]. injection Hv as ->.
  apply digits_loop_bound in Ed; [|zlia]. apply reject_value in H0. bool_to_prop. lia.
Qed.

(** ** The limits in effect *)

(** The least limit of the levels that have one; none of the files may be
    missing on every level unless it is optional. *)
Definition limit_in_effect (optional : Prop) (levels : list (option (option Z))) (r : option Z) : Prop :=
  (Exists is_Some levels \/ optional) /\
  match r with
  | Some m => Some (Some m) ∈ levels /\ forall x, Some (Some x) ∈ levels -> m <= x
  | None => forall x, Some (Some x) ∉ levels
  end.

Lemma limit_in_effect_unique optional levels r r' :
  limit_in_effect optional levels r -> limit_in_effect optional levels r' -> r = r'.
Proof.
  intros [_ H] [_ H']. destruct r as [m|], r' as [m'|]; [|by destruct (H' m); destruct H|by destruct (H m'); destruct H'|done].
  destruct H as [Hm H], H' as [Hm' H']. f_equal. specialize (H _ Hm'). specialize (H' _ Hm). lia.
Qed.

Lemma lower_limit_fold vs :
  match foldl (fun s v => lower_limit v s) None vs with
  | Some m => Some m ∈ vs /\ forall x, Some x ∈ vs -> m <= x
  | None => forall x, Some x ∉ vs
  end.
Proof.
  induction vs as [|v vs IH] using rev_ind; [intros x; apply not_elem_of_nil|]. rewrite foldl_snoc.
  destruct (foldl _ None vs) as [m|]; destruct v as [p|]; cbn [lower_limit].
  - destruct IH as [Hm IH]. split.
    + destruct (Z.min_spec m p) as [[_ ->]|[_ ->]]; set_solver.
    + intros x [Hx%IH|[= <-]%list_elem_of_singleton]%elem_of_app; lia.
  - destruct IH as [Hm IH]. split; [set_solver|]. intros x [Hx|?%list_elem_of_singleton]%elem_of_app; [by apply IH|done].
  - split; [set_solver|]. intros x [Hx%IH|[= <-]%list_elem_of_singleton]%elem_of_app; [done|lia].
  - intros x [Hx%IH|?%list_elem_of_singleton]%elem_of_app; done.
Qed.

(** The first of the levels with the least ratio of quota to period; without a
    quota, the period of the first level. *)
Definition cpu_in_effect (levels : list (option Z * Z)) (r : option Z * option Z) : Prop :=
  match r with
  | (Some q, Some p) =>
      exists before after, levels = before ++ (Some q, p) :: after /\
        (forall q' p', (Some q', p') ∈ before -> q * p' < q' * p) /\
        (forall q' p', (Some q', p') ∈ after -> q * p' <= q' * p)
  | (Some _, None) => False
  | (None, period) => (forall q p, (Some q, p) ∉ levels) /\ period = snd <$> head levels
  end.

Lemma ratio_less_exact q p q' p' :
  0 < q <= uint64_max -> 0 < p <= uint64_max -> 0 < q' <= uint64_max -> 0 < p' <= uint64_max ->
  ratio_less q p q' p' = (q * p' <? q' * p).
Proof. intros. unfold ratio_less. rewrite positive_ratio_less_exact by done. by destruct (_ <? _). Qed.

Lemma tighten_cpu_fold levels :
  Forall cpu_level_ok levels -> cpu_in_effect levels (foldl (fun s v => tighten_cpu v s) (None, None) levels).
Proof.
  induction levels as [|[v p] levels IH] using rev_ind; intros Hok; [split; [intros q p; apply not_elem_of_nil|done]|].
  rewrite foldl_snoc. apply Forall_app in Hok as [Hok [[Hp Hv] _]%Forall_cons]. specialize (IH Hok).
  destruct (foldl _ (None, None) levels) as [[cur|] [per|]]; cbn [cpu_in_effect] in IH; [|done| |].
  - destruct IH as (before & after & -> & Hb & Ha). apply Forall_app in Hok as [Hob [[Hper Hcur] Hoa]%Forall_cons].
    cbn [tighten_cpu default from_option fst snd] in *. specialize (Hcur _ eq_refl).
    destruct v as [q|]; [specialize (Hv _ eq_refl)|].
    + change (id per) with per. rewrite ratio_less_exact by done. destruct (Z.ltb_spec (q * per) (cur * p)) as [Hlt|Hge]; cbn [cpu_in_effect].
      * exists (before ++ (Some cur, per) :: after), []. split; [done|]. split; [|intros ? ? ?%elem_of_nil; done].
        assert (forall q' p', 0 < p' -> cur * p' <= q' * per -> q * p' < q' * p) as Hless by (clear -Hlt Hper Hp; nia).
        rewrite Forall_forall in Hob, Hoa.
        intros q' p' [Hin|[[= -> ->]|Hin]%elem_of_cons]%elem_of_app; [|done|]; apply Hless.
        -- by destruct (Hob _ Hin) as [[? _] _].
        -- specialize (Hb _ _ Hin). lia.
        -- by destruct (Hoa _ Hin) as [[? _] _].
        -- by apply Ha.
      * exists before, (after ++ [(Some q, p)]). split; [by rewrite <- (assoc_L (++))|]. split; [done|].
        intros q' p' [Hin|[= -> ->]%list_elem_of_singleton]%elem_of_app; [by apply Ha|lia].
    + exists before, (after ++ [(None, p)]). split; [by rewrite <- (assoc_L (++))|]. split; [done|].
      intros q' p' [Hin|?%list_elem_of_singleton]%elem_of_app; [by apply Ha|done].
  - destruct IH as [Hn Hh]. cbn [tighten_cpu]. destruct v as [q|]; cbn [cpu_in_effect].
    + exists levels, []. split; [done|]. split; [|intros ? ? ?%elem_of_nil; done]. intros q' p' Hin. by apply Hn in Hin.
    + split; [intros q' p' [Hin%Hn|?%list_elem_of_singleton]%elem_of_app; done|]. by destruct levels.
  - destruct IH as [Hn Hh]. destruct levels; [|done]. cbn [tighten_cpu]. destruct v as [q|]; cbn [cpu_in_effect].
    + exists [], []. split; [done|]. split; intros ? ? ?%elem_of_nil; done.
    + split; [intros q' p' ?%list_elem_of_singleton; done|done].
Qed.

(** The loop of version 1 keeps the same quota and period as that of version 2. *)
Lemma tighten_cpu1_agrees level s :
  cgroup1_effective (tighten_cpu1 level s) = tighten_cpu level (cgroup1_effective s).
Proof.
  destruct level as [[q|] p], s as [[[bq bp]|] first]; cbn; [|done|done|by destruct first].
  change (id bp) with bp. by destruct (ratio_less q p bq bp).
Qed.

Lemma tighten_cpu1_fold levels s :
  cgroup1_effective (foldl (fun s v => tighten_cpu1 v s) s levels) =
  foldl (fun s v => tighten_cpu v s) (cgroup1_effective s) levels.
Proof.
  revert s. induction levels as [|level levels IH]; intros s; [done|]. cbn [foldl]. by rewrite IH, tighten_cpu1_agrees.
Qed.

Section still_levels.
Context {W : Type} `{Kernel W} `{VirtualizationKernel W} (w : W).
Context (open_quiet : forall path, snd (open_file path w) = w) (stat_quiet : forall path, snd (stat_file path w) = w).

(** The levels that a query reads from the directories. *)
Definition levels_of {A} (level : text -> query W (option A)) (dirs : list text) (levels : list (option A)) : Prop :=
  Forall2 (fun dir v => fst (level dir w) = Value v) dirs levels.

Lemma quiet_level {A} path (parse : text -> result A) : quiet w (level_value path parse).
Proof.
  unfold level_value. apply quiet_bind.
  - unfold quiet, level_file. pose proof (stat_quiet path) as Hs. destruct (stat_file path w) as [[?|?] w1]; cbn in Hs |- *; [done|].
    subst w1. apply quiet_bind; [apply (quiet_read w open_quiet)|done].
  - intros [content|] _; [|done]. apply quiet_bind; done.
Qed.

Lemma quiet_cpu1 dir : quiet w (cpu1_level dir).
Proof.
  unfold cpu1_level. apply quiet_bind; [apply quiet_level|]. intros [q|] _; [|done]. apply quiet_bind; [|done].
  unfold quiet, cfs_period. set (path := file_in _ _). pose proof (stat_quiet path) as Hs.
  destruct (stat_file path w) as [[?|?] w1]; cbn in Hs |- *; [done|]. subst w1. apply quiet_bind; [apply (quiet_read w open_quiet)|done].
Qed.

Lemma levels_loop_spec {A S} (level : text -> query W (option A)) (fold : A -> S -> S) dirs found s r :
  (forall dir, quiet w (level dir)) ->
  fst (levels_loop level fold dirs found s w) = Value r <->
  exists levels, levels_of level dirs levels /\
    r = (found || existsb (fun v => match v with Some _ => true | None => false end) levels,
         foldl (fun s v => fold v s) s (omap id levels)).
Proof.
  intros Hq. revert found s. induction dirs as [|dir dirs IH]; intros found s; cbn [levels_loop].
  - split; [intros [= <-]; exists []; split; [constructor|by rewrite orb_false_r]|].
    intros (levels & Hl & ->). inversion Hl; subst. by rewrite orb_false_r.
  - unfold mbind, query_bind. specialize (Hq dir) as Hd. unfold quiet in Hd. destruct (level dir w) as [[v|e] w1] eqn:El; cbn in Hd; subst w1.
    2: { split; [done|]. intros (levels & (v & levels' & Hv & _ & _)%Forall2_cons_inv_l & _). by rewrite El in Hv. }
    destruct v as [v|]; rewrite IH; split.
    + intros (levels & Hl & ->). exists (Some v :: levels). split; [constructor; [by rewrite El|done]|]. cbn. by rewrite orb_true_r.
    + intros (levels & (v' & levels' & Hv & Hl & ->)%Forall2_cons_inv_l & ->). rewrite El in Hv. injection Hv as <-.
      exists levels'. split; [done|]. cbn. by rewrite orb_true_r.
    + intros (levels & Hl & ->). exists (None :: levels). split; [constructor; [by rewrite El|done]|]. done.
    + intros (levels & (v' & levels' & Hv & Hl & ->)%Forall2_cons_inv_l & ->). rewrite El in Hv. injection Hv as <-.
      exists levels'. done.
Qed.

Lemma existsb_some {A} (levels : list (option A)) :
  existsb (fun v => match v with Some _ => true | None => false end) levels = true <-> Exists is_Some levels.
Proof.
  rewrite existsb_exists, Exists_exists. split; intros (v & Hin & Hv); exists v.
  - split; [by apply list_elem_of_In|]. by destruct v.
  - split; [by apply list_elem_of_In|]. by destruct Hv as [? ->].
Qed.

Lemma elem_of_levels {A} (levels : list (option A)) x : Some x ∈ levels <-> x ∈ omap id levels.
Proof. rewrite list_elem_of_omap. naive_solver. Qed.

(** The path of a file in a directory. *)
Definition entry_path (dir name : text) : text :=
  if bool_decide (last dir = Some "/"%char) then dir ++ name else dir ++ "/"%char :: name.

(** What the file of a level says: nothing when [stat] reports that it does not
    exist, and otherwise the limit its text of at most 256 bytes gives. *)
Inductive limit_file (path : text) : option (option Z) -> Prop :=
| Limit_missing : fst (stat_file path w) = inl ENOENT -> limit_file path None
| Limit_present status content limit :
    fst (stat_file path w) = inr status -> file_delivers w path content -> Z.of_nat (length content) <= 256 ->
    limit_text content limit -> limit_file path (Some limit).

Lemma file_in_entry dir name : file_in dir name = entry_path dir name.
Proof.
  unfold file_in, entry_path, slash_end. destruct (last dir) as [c|] eqn:El.
  - destruct dir as [|d dir]; [done|]. cbn [empty orb]. destruct (is_char c "/") eqn:Ec; cbn [negb].
    + apply is_char_true in Ec as ->. by rewrite bool_decide_eq_true_2.
    + apply is_char_false in Ec. rewrite bool_decide_eq_false_2 by congruence. by rewrite <- app_assoc.
  - apply last_None in El as ->. done.
Qed.

Lemma limit_level_file filename dir v :
  fst (limit_level filename dir w) = Value v <-> limit_file (entry_path dir filename) v.
Proof.
  unfold limit_level. rewrite file_in_entry. set (path := entry_path dir filename).
  unfold level_value, level_file, mbind, query_bind. pose proof (stat_quiet path) as Hs.
  destruct (stat_file path w) as [[errno|status] w1] eqn:Es; cbn in Hs; subst w1.
  - destruct (Z.eqb_spec errno ENOENT) as [->|Hne].
    + split; [intros [= <-]; apply Limit_missing; by rewrite Es|]. intros [_|st content limit Hst]; [done|by rewrite Es in Hst].
    + split; [done|]. intros [Hm|st content limit Hst]; [rewrite Es in Hm; by injection Hm|by rewrite Es in Hst].
  - pose proof (fun c => read_text_file_value path 256 w c ltac:(done)) as Hr.
    destruct (read_text_file path 256 w) as [[content|e] w1]; cbn [fst] in Hr.
    + destruct (proj1 (Hr content) eq_refl) as [Hd Hl]. unfold pure, mret, query_ret. split.
      * destruct (parse_cgroup_limit_value content) as [limit|e] eqn:Ep; [|done]. intros [= <-].
        eapply Limit_present; [by rewrite Es|done|done|by apply limit_text_parsed].
      * intros [Hm|st content' limit Hst Hd' Hl' Hp]; [by rewrite Es in Hm|].
        assert (Value content = Value content') as [= <-] by (by apply Hr). apply limit_text_parsed in Hp. by rewrite Hp.
    + split; [done|]. intros [Hm|st content' limit Hst Hd' Hl' Hp]; [by rewrite Es in Hm|].
      exfalso. by assert (@Failure text e = Value content') by (by apply Hr).
Qed.

Lemma levels_of_files filename dirs levels :
  levels_of (limit_level filename) dirs levels <-> Forall2 (fun dir v => limit_file (entry_path dir filename) v) dirs levels.
Proof. split; intros Hl; (eapply Forall2_impl; [exact Hl|]); intros dir v; apply limit_level_file. Qed.

Lemma optional_file_names filename :
  optional_file filename = true <-> filename = lit "memory.swap.max" \/ filename = lit "memory.high".
Proof. unfold optional_file. by rewrite orb_true_iff, !same_true. Qed.

(** C24: the limit of a group is the least of the limits in the files of that
    name of the group and its ancestors, none when no file has one.  The query
    fails exactly when [stat] of a file fails, other than because the file does
    not exist, or a file cannot be read or is not a limit, or when no directory
    has the file; only [memory.swap.max] and [memory.high] may be missing
    everywhere, and are no limit then. *)
Theorem effective_limit_least (ancestor_dirs : list text) (filename : text) (r : option Z) :
  fst (read_effective_cgroup_limit ancestor_dirs filename w) = Value r <->
  exists levels, Forall2 (fun dir level => limit_file (entry_path dir filename) level) ancestor_dirs levels /\
    limit_in_effect (filename = lit "memory.swap.max" \/ filename = lit "memory.high") levels r.
Proof.
  setoid_rewrite <- levels_of_files.
  assert (forall levels, levels_of (limit_level filename) ancestor_dirs levels ->
    fst (read_effective_cgroup_limit ancestor_dirs filename w) =
    if existsb (fun v => match v with Some _ => true | None => false end) levels || optional_file filename
    then Value (foldl (fun s v => lower_limit v s) None (omap id levels)) else fail errc_not_found) as Hrun.
  { intros levels Hl. unfold read_effective_cgroup_limit, mbind, query_bind.
    pose proof (proj2 (levels_loop_spec (limit_level filename) lower_limit ancestor_dirs false None _ (fun dir => quiet_level _ _))
      (ex_intro _ levels (conj Hl eq_refl))) as Hloop.
    destruct (levels_loop _ _ _ _ _ w) as [v w1]. cbn in Hloop. subst v. cbn. destruct (existsb _ levels) eqn:Ee; [done|].
    cbn. destruct (optional_file filename); [|done]. f_equal. clear -Ee. induction levels as [|[v|] levels IH]; [done|done|]. by apply IH. }
  assert (forall levels, limit_in_effect True levels (foldl (fun s v => lower_limit v s) None (omap id levels))) as Hleast.
  { intros levels. split; [by right|]. pose proof (lower_limit_fold (omap id levels)) as Hf.
    destruct (foldl _ None (omap id levels)) as [m|]; setoid_rewrite elem_of_levels; done. }
  split.
  - intros Hr. assert (exists levels, levels_of (limit_level filename) ancestor_dirs levels) as (levels & Hl).
    { unfold read_effective_cgroup_limit, mbind, query_bind in Hr.
      destruct (levels_loop _ _ _ _ _ w) as [[v|e] w1] eqn:El; [|done]. apply (f_equal fst) in El. cbn [fst] in El.
      apply levels_loop_spec in El as (levels & Hl & _); [by exists levels|intros dir; apply quiet_level]. }
    exists levels. split; [done|]. rewrite (Hrun _ Hl) in Hr. destruct (_ || _) eqn:Ec; [|done]. injection Hr as <-.
    split; [|apply Hleast]. by rewrite orb_true_iff, existsb_some, optional_file_names in Ec.
  - intros (levels & Hl & Hr). rewrite (Hrun _ Hl). destruct Hr as [Hc Hr]. rewrite <- existsb_some, <- optional_file_names in Hc.
    rewrite (proj2 (orb_true_iff _ _) Hc). f_equal.
    apply (limit_in_effect_unique True levels); [apply Hleast|]. split; [by right|done].
Qed.

Lemma cpu_levels_ok level dirs levels :
  (forall dir v, fst (level dir w) = Value (Some v) -> cpu_level_ok v) ->
  levels_of level dirs levels -> Forall cpu_level_ok (omap id levels).
Proof.
  intros Hok Hl. induction Hl as [|dir [v|] dirs levels Hv _ IH]; cbn; [constructor| |done].
  constructor; [|done]. by apply (Hok dir).
Qed.

Lemma level_value_ok {A} path (parse : text -> result A) (P : A -> Prop) v :
  (forall content, parse content = Value v -> P v) -> fst (level_value path parse w) = Value (Some v) -> P v.
Proof.
  intros HP. unfold level_value, mbind, query_bind. destruct (level_file path w) as [[[content|]|e] w1]; [|done|done].
  unfold pure. destruct (parse content) as [v0|e] eqn:Ep; [|done]. intros [= ->]. by apply (HP content).
Qed.

Lemma cpu_level_values dir v : fst (cpu_level dir w) = Value (Some v) -> cpu_level_ok v.
Proof. apply level_value_ok. intros content. apply cpu_max_ok. Qed.

Lemma cpu1_level_values dir v : fst (cpu1_level dir w) = Value (Some v) -> cpu_level_ok v.
Proof.
  unfold cpu1_level, mbind, query_bind. destruct (level_value _ _ w) as [[[q|]|e] w1] eqn:Eq; [|done|done].
  unfold cfs_period. destruct (stat_file _ w1) as [[errno|st] w2]; [done|]. unfold mbind, query_bind.
  destruct (read_text_file _ 256 w2) as [[content|e] w3]; [|done]. unfold pure.
  destruct (parse_period content) as [p|e] eqn:Ep; [|done]. intros [= <-]. split; [by apply period_ok in Ep|].
  refine (level_value_ok _ parse_cgroup1_cpu_quota_value (fun q => forall q', q = Some q' -> 0 < q' <= uint64_max) q _
    (f_equal fst Eq)). intros content' Hc q' ->. by apply cfs_quota_ok in Hc.
Qed.

(** The processor limit of a group is, for both versions of the hierarchy,
    the quota and period with the least ratio among the group and its
    ancestors - the nearest when several ratios are equal - and without any
    quota the period of the nearest level that has one; the query fails
    exactly when a level cannot be read or parsed or no level has the file. *)
Theorem effective_cpu_tightest (ancestor_dirs : list text) :
  (forall r, fst (read_effective_cpu_max ancestor_dirs w) = Value r ->
     exists levels, levels_of cpu_level ancestor_dirs levels /\ Exists is_Some levels /\ cpu_in_effect (omap id levels) r) /\
  (forall r, fst (read_effective_cgroup1_cpu ancestor_dirs w) = Value r ->
     exists levels, levels_of cpu1_level ancestor_dirs levels /\ Exists is_Some levels /\ cpu_in_effect (omap id levels) r) /\
  (forall levels, levels_of cpu_level ancestor_dirs levels -> Exists is_Some levels ->
     exists r, fst (read_effective_cpu_max ancestor_dirs w) = Value r) /\
  (forall levels, levels_of cpu1_level ancestor_dirs levels -> Exists is_Some levels ->
     exists r, fst (read_effective_cgroup1_cpu ancestor_dirs w) = Value r).
Proof.
  unfold read_effective_cpu_max, read_effective_cgroup1_cpu. unfold mbind, query_bind. split_and!.
  - intros r Hr. destruct (levels_loop _ _ _ _ _ w) as [[v|e] w1] eqn:El; [|done]. apply (f_equal fst) in El. cbn [fst] in El.
    apply levels_loop_spec in El as (levels & Hl & ->); [|intros dir; apply quiet_level]. exists levels. split; [done|].
    cbn in Hr. destruct (existsb _ levels) eqn:Ee; [|done]. injection Hr as <-. split; [by apply existsb_some|].
    apply tighten_cpu_fold, (cpu_levels_ok cpu_level ancestor_dirs); [apply cpu_level_values|done].
  - intros r Hr. destruct (levels_loop _ _ _ _ _ w) as [[v|e] w1] eqn:El; [|done]. apply (f_equal fst) in El. cbn [fst] in El.
    apply levels_loop_spec in El as (levels & Hl & ->); [|apply quiet_cpu1]. exists levels. split; [done|].
    cbn in Hr. destruct (existsb _ levels) eqn:Ee; [|done]. injection Hr as <-. split; [by apply existsb_some|].
    rewrite tighten_cpu1_fold. apply tighten_cpu_fold, (cpu_levels_ok cpu1_level ancestor_dirs); [apply cpu1_level_values|done].
  - intros levels Hl He%existsb_some.
    pose proof (proj2 (levels_loop_spec cpu_level tighten_cpu ancestor_dirs false (None, None) _ (fun dir => quiet_level _ _))
      (ex_intro _ levels (conj Hl eq_refl))) as Hloop.
    destruct (levels_loop _ _ _ _ _ w) as [v w1]. cbn in Hloop. subst v. cbn. rewrite He. by eexists.
  - intros levels Hl He%existsb_some.
    pose proof (proj2 (levels_loop_spec cpu1_level tighten_cpu1 ancestor_dirs false (Cgroup1_cpu None None) _ quiet_cpu1)
      (ex_intro _ levels (conj Hl eq_refl))) as Hloop.
    destruct (levels_loop _ _ _ _ _ w) as [v w1]. cbn in Hloop. subst v. cbn. rewrite He. by eexists.
Qed.

End still_levels.

(** ** Mounts *)

(** Of the mounts of the kind whose root covers the path the first with
    the longest root is chosen, and none only when there is no such mount. *)
Theorem mount_most_specific (kind : cgroup_mount_info -> bool) (proc_cgroup_path : text) (mounts : list cgroup_mount_info) :
  let covering := filter (fun m => kind m && is_mount_root_prefix (mount_root m) proc_cgroup_path = true) mounts in
  match foldl (most_specific kind proc_cgroup_path) None mounts with
  | None => covering = []
  | Some m =>
      exists before after, covering = before ++ m :: after /\
        Forall (fun m' => (length (mount_root m') < length (mount_root m))%nat) before /\
        Forall (fun m' => (length (mount_root m') <= length (mount_root m))%nat) after
  end.
Proof.
  intros covering. unfold covering. induction mounts as [|m mounts IH] using rev_ind; [done|].
  rewrite foldl_snoc, filter_app, filter_cons, filter_nil. unfold most_specific at 1.
  destruct (kind m && is_mount_root_prefix (mount_root m) proc_cgroup_path); [|by rewrite decide_False, app_nil_r by done].
  rewrite decide_True by done. destruct (foldl _ None mounts) as [f|].
  - destruct IH as (before & after & -> & Hb & Ha). destruct (Nat.ltb_spec (length (mount_root f)) (length (mount_root m))) as [Hlt|Hge].
    + exists (before ++ f :: after), []. split; [done|]. split; [|done]. rewrite Forall_app, Forall_cons.
      split; [|split; [done|]]; (eapply Forall_impl; [done|]); cbn; lia.
    + exists before, (after ++ [m]). split; [by rewrite <- (assoc_L (++))|]. split; [done|]. by rewrite Forall_app, Forall_singleton.
  - rewrite IH. by exists [], [].
Qed.

(** ** The group of the process *)

Definition limit_ok (limit : option Z) : Prop := forall m, limit = Some m -> 0 <= m < 0x7FFFFFFFFFFFF000.

Definition cpu_ok (cpu : option Z * option Z) : Prop :=
  (forall p, snd cpu = Some p -> 0 < p <= uint64_max) /\
  (forall q, fst cpu = Some q -> 0 < q <= uint64_max /\ is_Some (snd cpu)).

Definition limits_ok (l : cgroup_limits) : Prop :=
  limit_ok (memory_max_bytes l) /\ limit_ok (memory_high_bytes l) /\ limit_ok (memory_swap_max_bytes l) /\
  limit_ok (pids_max l) /\ cpu_ok (cpu_quota_us l, cpu_period_us l).

Definition absolute (path : text) : Prop := front_is "/" path = true.

Definition group_ok (r : cgroup_info) : Prop :=
  absolute (ci_path r) /\ StronglySorted (not_after text_less) (ci_controllers r) /\ limits_ok (ci_limits r).

Definition paths_ok (s : cgroup_state) : Prop :=
  (cs_v2_path s = [] \/ absolute (cs_v2_path s)) /\ Forall (fun hier => absolute (path hier)) (cs_v1 s).

Lemma split_line_path line id names path : split_cgroup_line line = Value (id, names, path) -> absolute path.
Proof.
  unfold split_cgroup_line. destruct (find ":" line 0) as [i|]; [|done]. intros ([] & _ & H)%bind_value.
  apply bind_value in H as (d & _ & H). destruct (find ":" line (S i)) as [j|]; [|done].
  apply bind_value in H as ([] & Hp%reject_value & [= _ _ <-]). by apply negb_false_iff in Hp.
Qed.

Lemma cgroup_line_paths line s :
  paths_ok s ->
  match cgroup_line line s with
  | Next s' => paths_ok s'
  | Return r => forall info : parsed_cgroup_info, r <> Value info
  end.
Proof.
  intros [H2 H1]. unfold cgroup_line. split_if; [done|]. unfold try_step.
  destruct (split_cgroup_line _) as [[[id names] p]|e] eqn:Es; [|done]. apply split_line_path in Es.
  destruct (cgroup_entry id names p s) as [s'|e] eqn:Ee; [|done]. revert Ee. unfold cgroup_entry. split_if.
  - intros ([] & _ & [= <-])%bind_value. split; [|done]. cbn. split_if; [by right|done].
  - intros ([] & _ & Ee)%bind_value. apply bind_value in Ee as ([] & _ & [= <-]). split; [done|]. cbn.
    by rewrite Forall_app, Forall_singleton.
Qed.

Lemma cgroup_paths content info :
  parse_cgroup_proc_file_detailed content = Value info ->
  (v2_path info = [] \/ absolute (v2_path info)) /\ Forall (fun hier => absolute (path hier)) (v1_hierarchies info).
Proof.
  unfold parse_cgroup_proc_file_detailed. rewrite each_field_fields.
  pose proof (fold_steps_inv paths_ok (fun r => forall info : parsed_cgroup_info, r <> Value info) cgroup_line
    (fields ch_lf content) (Cgroup_state false false [] []) ltac:(split; [by left|constructor])
    (fun line s => cgroup_line_paths line s)) as Hf.
  destruct (fold_steps _ _ _) as [s|r]; cbn [finish]; [|intros ->; by destruct (Hf info)]. by intros [= <-].
Qed.

Lemma sorted_texts l : StronglySorted (not_after text_less) (std_sort text_less l).
Proof. by apply (std_sort_key_sorted _ (fun t => code <$> t)). Qed.

Section group_results.
Context {W : Type} `{Kernel W} `{VirtualizationKernel W}.

Lemma level_value_yields {A} path (parse : text -> result A) (P : A -> Prop) :
  (forall content v, parse content = Value v -> P v) ->
  yields (level_value (W := W) path parse) (fun o => forall v, o = Some v -> P v).
Proof.
  intros HP w o w' Ho v ->. apply (level_value_ok w path parse P v); [intros content; apply HP|by rewrite Ho].
Qed.

Lemma levels_loop_yields {A S} (level : text -> query W (option A)) (fold : A -> S -> S) (P : A -> Prop) (Q : S -> Prop) dirs found s :
  (forall dir, yields (level dir) (fun o => forall v, o = Some v -> P v)) -> (forall v s, P v -> Q s -> Q (fold v s)) ->
  Q s -> yields (levels_loop level fold dirs found s) (fun r => Q (snd r)).
Proof.
  intros Hl Hf. revert found s. induction dirs as [|dir dirs IH]; intros found s Hs; cbn [levels_loop]; [by apply yields_ret|].
  eapply yields_bind; [apply Hl|]. intros [v|] Hv; [|by apply IH]. apply IH, Hf; [by apply Hv|done].
Qed.

Lemma effective_limit_yields dirs filename : yields (W := W) (read_effective_cgroup_limit dirs filename) limit_ok.
Proof.
  unfold read_effective_cgroup_limit. eapply yields_bind; [apply (levels_loop_yields _ _ limit_ok limit_ok)|].
  - intros dir. apply level_value_yields. intros content v Hv m ->. by apply limit_value_bound in Hv.
  - intros v s Hv Hs m. unfold lower_limit. destruct v as [p|], s as [x|]; try apply Hs; [|by apply Hv].
    intros [= <-]. specialize (Hv _ eq_refl). specialize (Hs _ eq_refl). lia.
  - done.
  - intros [found limit] Hl. apply yields_pure. intros v. split_if; [split_if; [by intros [= <-]|done]|]. by intros [= <-].
Qed.

Lemma tighten_cpu_ok v s : cpu_level_ok v -> cpu_ok s -> cpu_ok (tighten_cpu v s).
Proof.
  destruct v as [[q|] p], s as [[cur|] [per|]]; intros [Hp Hv] [Hper Hcur]; cbn in *;
    try split_if; split; cbn; naive_solver.
Qed.

Lemma cpu_max_yields dirs : yields (W := W) (read_effective_cpu_max dirs) cpu_ok.
Proof.
  unfold read_effective_cpu_max. eapply yields_bind; [apply (levels_loop_yields _ _ cpu_level_ok cpu_ok)|].
  - intros dir. apply level_value_yields. intros content v. apply cpu_max_ok.
  - apply tighten_cpu_ok.
  - by split.
  - intros [found cpu] Hc. apply yields_pure. intros v. intros ([] & _ & [= <-])%bind_value. done.
Qed.

Lemma cgroup1_cpu_yields dirs : yields (W := W) (read_effective_cgroup1_cpu dirs) cpu_ok.
Proof.
  unfold read_effective_cgroup1_cpu. eapply yields_bind; [apply (levels_loop_yields _ _ cpu_level_ok (fun s => cpu_ok (cgroup1_effective s)))|].
  - intros dir w o w' Ho v ->. apply (cpu1_level_values w dir). by rewrite Ho.
  - intros v s Hv Hs. rewrite tighten_cpu1_agrees. by apply tighten_cpu_ok.
  - by split.
  - intros [found cpu] Hc. apply yields_pure. intros v. intros ([] & _ & [= <-])%bind_value. done.
Qed.

Lemma query_if_yields {A} c (q : A -> query W A) a (P : A -> Prop) :
  P a -> (P a -> yields (q a) P) -> yields (query_if c q a) P.
Proof. intros Ha Hq. unfold query_if. destruct c; [by apply Hq|by apply yields_ret]. Qed.

Lemma v2_limits_yields dirs ctrls : yields (W := W) (v2_limits dirs ctrls) limits_ok.
Proof.
  unfold v2_limits. eapply yields_bind; [apply (query_if_yields _ _ _ limits_ok); [by repeat split|]|].
  { intros _. unfold v2_memory. repeat (eapply yields_bind; [apply effective_limit_yields|]; intros ? ?).
    apply yields_ret. unfold limits_ok. cbn. by split_and!. }
  intros l Hl. eapply yields_bind; [apply (query_if_yields _ _ _ limits_ok); [done|]|].
  { intros (? & ? & ? & ? & ?). unfold v2_cpu. eapply yields_bind; [apply cpu_max_yields|]. intros [q p] Hc. apply yields_ret.
    by (unfold limits_ok; split_and!). }
  intros l' Hl'. apply query_if_yields; [done|]. intros (? & ? & ? & ? & ?). unfold pids_limit.
  eapply yields_bind; [apply effective_limit_yields|]. intros m Hm. apply yields_ret. by (unfold limits_ok; split_and!).
Qed.

Lemma v1_limits_yields mounts hierarchies l :
  limits_ok l -> yields (W := W) (v1_limits mounts hierarchies l) limits_ok.
Proof.
  intros Hl. unfold v1_limits. eapply yields_bind; [apply (query_if_yields _ _ _ limits_ok); [done|]|].
  { intros (? & ? & ? & ? & ?). unfold v1_memory. destruct (get_v1_controller_info _ _); [|by apply yields_ret].
    apply yields_skip. intros m. eapply yields_bind; [apply effective_limit_yields|]. intros x Hx. apply yields_ret. by (unfold limits_ok; split_and!). }
  intros l1 Hl1. eapply yields_bind; [apply (query_if_yields _ _ _ limits_ok); [done|]|].
  { intros (? & ? & ? & ? & ?). unfold v1_cpu. destruct (match get_v1_controller_info _ _ with Some _ => _ | None => _ end); [|by apply yields_ret].
    apply yields_skip. intros m. eapply yields_bind; [apply cgroup1_cpu_yields|]. intros [q p] Hx. apply yields_ret. by (unfold limits_ok; split_and!). }
  intros l2 Hl2. apply query_if_yields; [done|]. intros (? & ? & ? & ? & ?). unfold v1_pids.
  destruct (get_v1_controller_info _ _); [|by apply yields_ret]. apply yields_skip. intros m. unfold pids_limit.
  eapply yields_bind; [apply effective_limit_yields|]. intros x Hx. apply yields_ret. by (unfold limits_ok; split_and!).
Qed.

Lemma detect_v2_yields mounts info record :
  (v2_path info = [] \/ absolute (v2_path info)) ->
  yields (W := W) (detect_v2 mounts info record) group_ok.
Proof.
  intros Hp. unfold detect_v2. assert (absolute (if negb (empty (v2_path info)) then v2_path info else lit "/")) as Hrel.
  { destruct Hp as [->|Hp]; [done|]. by destruct (v2_path info). }
  apply yields_skip. intros m. destruct (get_cgroup_ancestor_dirs _ _ _) as [|front rest] eqn:Ed.
  { unfold get_cgroup_ancestor_dirs in Ed. by destruct (ancestor_loop _ _ _ _). }
  eapply yields_bind with (Q := StronglySorted (not_after text_less)).
  - intros w ctrls w'. unfold read_cgroup2_controllers. destruct (stat_file _ w) as [[errno|st] w1]; [by split_if|].
    unfold mbind, query_bind. destruct (read_text_file _ _ w1) as [[content|e] w2]; [|done]. intros [= <- _]. apply sorted_texts.
  - intros ctrls Hc. eapply yields_bind; [apply v2_limits_yields|]. intros l Hl. apply yields_ret. done.
Qed.

Lemma v1_path_absolute hierarchies current :
  Forall (fun hier => absolute (path hier)) hierarchies -> current = [] \/ absolute current ->
  absolute (v1_path hierarchies current).
Proof.
  intros Hh Hc. unfold v1_path. destruct (empty current || same current (lit "/")) eqn:E.
  - by destruct Hh.
  - destruct Hc as [->|Hc]; [done|exact Hc].
Qed.

Lemma detect_hierarchies_yields info :
  version info <> cgroup_none -> (v2_path info = [] \/ absolute (v2_path info)) ->
  Forall (fun hier => absolute (path hier)) (v1_hierarchies info) ->
  yields (W := W) (detect_hierarchies info) group_ok.
Proof.
  intros Hv H2 H1. unfold detect_hierarchies. apply yields_skip. intros mounts.
  assert (is_version [cgroup_v2; cgroup_hybrid] info = false -> is_version [cgroup_v1; cgroup_hybrid] info = true) as Hsome
    by (unfold is_version; destruct (version info); done).
  eapply yields_bind with (Q := fun record => (ci_path record = [] \/ absolute (ci_path record)) /\ limits_ok (ci_limits record) /\
    (is_version [cgroup_v2; cgroup_hybrid] info = true -> group_ok record)).
  - unfold query_if. destruct (is_version [cgroup_v2; cgroup_hybrid] info).
    + eapply yields_weaken; [by apply detect_v2_yields|]. intros r Hr. pose proof Hr as (? & ? & ?). auto.
    + apply yields_ret. split; [by left|]. split; [by repeat split|done].
  - intros record (Hp & Hl & Hg). unfold query_if. destruct (is_version [cgroup_v1; cgroup_hybrid] info) eqn:E1.
    + unfold detect_v1. eapply yields_bind; [by apply v1_limits_yields|]. intros l Hl'. apply yields_ret.
      split; [by apply v1_path_absolute|]. split; [apply sorted_texts|done].
    + apply yields_ret, Hg. destruct (is_version [cgroup_v2; cgroup_hybrid] info); [done|]. by specialize (Hsome eq_refl).
Qed.

(** The group of the process has an absolute path and controllers in
    order, in UTF-8, and its limits are below the value the kernel writes for
    none; a processor quota is positive and comes with a positive period.
    Without a hierarchy every field is empty. *)
Theorem current_cgroup_well_formed (w w' : W) (r : cgroup_info) :
  checked_current_cgroup w = (Value r, w') ->
  Forall (fun t => is_valid_utf8 t = true) (ci_path r :: ci_controllers r) /\ (r = no_cgroup \/ group_ok r).
Proof.
  revert w r w'.
  change (yields (W := W) checked_current_cgroup (fun r =>
    Forall (fun t => is_valid_utf8 t = true) (ci_path r :: ci_controllers r) /\ (r = no_cgroup \/ group_ok r))).
  apply (yields_bind current_cgroup _ (fun r => r = no_cgroup \/ group_ok r)).
  - unfold current_cgroup, detect_current_cgroup. eapply yields_bind with (Q := fun info =>
      (v2_path info = [] \/ absolute (v2_path info)) /\ Forall (fun hier => absolute (path hier)) (v1_hierarchies info)).
    + apply yields_skip. intros content. apply yields_pure. apply cgroup_paths.
    + intros info [H2 H1]. case_bool_decide; [apply yields_ret; by left|].
      eapply yields_weaken; [by apply detect_hierarchies_yields|]. by right.
  - intros r0 Hr. apply yields_pure. intros v Hv. apply bind_value in Hv as ([] & Hp%reject_value & Hv).
    apply bind_value in Hv as ([] & Hc & [= <-]). split; [|done]. apply negb_false_iff in Hp. constructor; [done|].
    apply for_each_value in Hc. eapply Forall_impl; [exact Hc|]. cbn. intros c Hu%reject_value. by apply negb_false_iff in Hu.
Qed.

End group_results.

(** ** A small system *)

Definition group_files : list (string * string) := [
  ("/proc/self/cgroup", "0::/a/b");
  ("/proc/self/mountinfo", "1 2 0:1 / /cg rw - cgroup2 cgroup2 rw,nsdelegate");
  ("/cg/a/b/cgroup.controllers", "pids memory cpu");
  ("/cg/a/b/memory.max", "max"); ("/cg/a/memory.max", "4096"); ("/cg/a/b/memory.high", "2048");
  ("/cg/a/b/cpu.max", "50000 100000"); ("/cg/a/cpu.max", "30000 50000"); ("/cg/cpu.max", "max 100000");
  ("/cg/a/b/pids.max", "100"); ("/cg/a/pids.max", "64");
  ("/v1/x/cpu.cfs_quota_us", "20000"); ("/v1/x/cpu.cfs_period_us", "100000");
  ("/v1/cpu.cfs_quota_us", "-1"); ("/v1/cpu.cfs_period_us", "100000")]%string.

Definition group_kernel : Kernel unit := static_kernel group_files.

Definition group_machine : VirtualizationKernel unit := {|
  file_accessible path w := (false, w);
  stat_file path w :=
    (match static_file group_files path with inl errno => inl errno | inr _ => inr (File_status false 1 1) end, w);
  statfs_type path w := (None, w);
  environment_has name w := (false, w)
|}.

Definition sample_group : cgroup_info :=
  Cgroup_info cgroup_v2 (lit "/a/b")
    (Cgroup_limits (Some 4096) (Some 2048) None (Some 50000) (Some 100000) (Some 64))
    [lit "cpu"; lit "memory"; lit "pids"].

Lemma current_cgroup_well_formed_witness :
  Forall (fun t => is_valid_utf8 t = true) (ci_path sample_group :: ci_controllers sample_group) /\
  (sample_group = no_cgroup \/ group_ok sample_group).
Proof.
  apply (@current_cgroup_well_formed unit group_kernel group_machine tt tt). vm_compute. reflexivity.
Defined.

Lemma effective_limit_least_witness :
  fst (@read_effective_cgroup_limit unit group_kernel group_machine (lit <$> ["/cg/a/b"; "/cg/a"; "/cg"]%string)
    (lit "memory.max") tt) = Value (Some 4096) <->
  exists levels, Forall2 (fun dir level => @limit_file unit group_kernel group_machine tt (entry_path dir (lit "memory.max")) level)
      (lit <$> ["/cg/a/b"; "/cg/a"; "/cg"]%string) levels /\
    limit_in_effect (lit "memory.max" = lit "memory.swap.max" \/ lit "memory.max" = lit "memory.high") levels (Some 4096).
Proof.
  exact (@effective_limit_least unit group_kernel group_machine tt (fun path => eq_refl) (fun path => eq_refl)
    (lit <$> ["/cg/a/b"; "/cg/a"; "/cg"]%string) (lit "memory.max") (Some 4096)).
Defined.

Lemma effective_cpu_tightest_witness :
  (exists levels, @levels_of unit tt _ (@cpu_level unit group_kernel group_machine)
      (lit <$> ["/cg/a/b"; "/cg/a"; "/cg"]%string) levels /\ Exists is_Some levels /\
    cpu_in_effect (omap id levels) (Some 50000, Some 100000)) /\
  exists levels, @levels_of unit tt _ (@cpu1_level unit group_kernel group_machine) (lit <$> ["/v1/x"; "/v1"]%string) levels /\
    Exists is_Some levels /\ cpu_in_effect (omap id levels) (Some 20000, Some 100000).
Proof.
  split.
  - apply (proj1 (@effective_cpu_tightest unit group_kernel group_machine tt (fun path => eq_refl) (fun path => eq_refl) _)).
    vm_compute. reflexivity.
  - apply (proj1 (proj2 (@effective_cpu_tightest unit group_kernel group_machine tt (fun path => eq_refl) (fun path => eq_refl) _))).
    vm_compute. reflexivity.
Defined.
