(* ===== verification/VirtualizationLinux.v ===== *)
(** * Virtualization: the Linux queries

    The rest of [include/syscape/detail/virtualization/linux.hpp] - the
    hypervisor, containers, the subsystem of Windows, sandboxes and namespaces -
    and the public queries of [include/syscape/virtualization.hpp], which check
    the texts; control groups are in [Cgroups]. *)
From S2P Require Import Prelude Result CppText Utf8 System Virtualization Cgroups.

#[global] Instance hypervisor_vendor_eq_dec : EqDecision hypervisor_vendor.
Proof. solve_decision. Defined.

#[global] Instance container_runtime_eq_dec : EqDecision container_runtime.
Proof. solve_decision. Defined.

#[global] Instance namespace_type_eq_dec : EqDecision namespace_type.
Proof. solve_decision. Defined.

Inductive sandbox_type :=
  | sb_unknown | sb_none | sb_flatpak | sb_snap | sb_apple_sandbox | sb_windows_app_container | sb_other.

Record hypervisor_info := Hypervisor_info {
  hypervisor_present : bool;
  vendor : hypervisor_vendor;
  hv_name : text
}.

Record container_info := Container_info {
  container_present : bool;
  runtime : container_runtime;
  ct_name : text
}.

Record wsl_info := Wsl_info { wsl : bool; wsl_major : Z }.

Record sandbox_info := Sandbox_info { sandboxed : bool; sandbox_kind : sandbox_type }.

Record namespace_info := Namespace_info {
  ns_type : namespace_type;
  ns_name : text;
  ns_inode : Z;
  ns_device : Z;
  ns_isolated : option bool
}.

Definition no_hypervisor : hypervisor_info := Hypervisor_info false hv_none [].

Definition no_container : container_info := Container_info false ct_none [].

(** The registers [eax], [ebx], [ecx] and [edx] of a leaf, none when
    [__get_cpuid] reports failure.  It never succeeds where the code is
    compiled for another architecture, on which the probe finds nothing. *)
Class ProcessorLeaves (W : Type) := {
  get_cpuid : Z -> W -> option (Z * Z * Z * Z) * W
}.

Definition classify_sysfs_hypervisor_type (type_name : text) : hypervisor_vendor :=
  if empty type_name then hv_unknown
  else if case_insensitive_equal type_name (lit "xen") then hv_xen
  else hv_other.

(** A signature that decides the vendor. *)
Definition recognized_vendor (info : hypervisor_info) : bool :=
  hypervisor_present info && bool_decide (vendor info <> hv_unknown) && bool_decide (vendor info <> hv_none) &&
  bool_decide (vendor info <> hv_other).

Definition name_or (current name : text) : text := if empty current then name else current.

Definition runtime_name (classified : container_runtime) : text :=
  match classified with
  | ct_docker => lit "docker"
  | ct_podman => lit "podman"
  | ct_kubernetes => lit "kubernetes"
  | ct_lxc => lit "lxc"
  | ct_lxd => lit "lxd"
  | ct_containerd => lit "containerd"
  | _ => lit "container"
  end.

(** The first line of a file of control groups that names a runtime. *)
Definition runtime_line (line : text) (s : unit) : step unit container_info :=
  let classified := classify_cgroup_line line in
  if bool_decide (classified <> ct_none) then Return (Container_info true classified (runtime_name classified)) else Next s.

Definition mentions (content : text) (words : list string) : bool :=
  existsb (fun word => case_insensitive_contains content (lit word)) words.

Definition mentions_if_any (content : result text) (words : list string) : bool :=
  match content with Value content => mentions content words | Failure _ => false end.

Definition wsl2_words : list string := ["wsl2"; "microsoft-standard-wsl2"]%string.

(** More than one identifier on the line [NSpid:]. *)
Definition nested_pid_of (content : text) : option bool :=
  match find_text (lit "NSpid:") content 0 with
  | None => None
  | Some nspid_pos =>
      let line :=
        match find ch_lf content nspid_pos with
        | None => substr_from nspid_pos content
        | Some end_line => substr nspid_pos (end_line - nspid_pos) content
        end in
      Some (2 <? length (split_whitespace line))%nat
  end.

Definition nested_user_of (uid_map : text) : option bool :=
  let trimmed := trim_signature uid_map in
  if negb (empty trimmed) && negb (is_full_identity_uid_map trimmed) then Some true else None.

(** What the kind of a namespace says by itself. *)
Definition isolated_by_kind (kind : namespace_type) (nested_pid_ns nested_user_ns : option bool) : option bool :=
  match kind with
  | ns_pid | ns_pid_for_children => if bool_decide (nested_pid_ns = Some true) then Some true else None
  | ns_user => nested_user_ns
  | _ => None
  end.

(** The comparison with the namespace of process 1. *)
Definition isolated_by_init (st st_init : file_status) (nested_pid_ns : option bool) : option bool :=
  if negb (st_ino st =? st_ino st_init) then Some true
  else if bool_decide (nested_pid_ns = Some false) then Some false
  else None.

Definition hidden (name : text) : bool := match name with c :: _ => is_char c "." | [] => false end.

Definition judge_isolation (ns_list : list namespace_info) : result bool :=
  if existsb (fun ns => bool_decide (ns_isolated ns = Some true)) ns_list then Value true
  else if negb (existsb (fun ns => bool_decide (ns_isolated ns = None)) ns_list) then Value false
  else fail errc_permission_denied.

Section virtualization_queries.
Context {W : Type} `{Kernel W} `{VirtualizationKernel W} `{ProcessorLeaves W}.

(** ** Hypervisor *)

Definition probe_cpuid_hypervisor (w : W) : hypervisor_info * W :=
  match get_cpuid 1 w with
  | (None, w) => (no_hypervisor, w)
  | (Some (_, _, ecx, _), w) =>
      if negb (Z.land ecx (Z.shiftl 1 31) =? 0) then
        match get_cpuid 0x40000000 w with
        | (Some (_, ebx, ecx, edx), w) =>
            let name := decode_cpuid_signature ebx ecx edx in
            (Hypervisor_info true (classify_cpuid_signature name) name, w)
        | (None, w) => (Hypervisor_info true hv_unknown [], w)
        end
      else (no_hypervisor, w)
  end.

Definition read_dmi_attribute (name : text) : query W text :=
  content ← attempt (read_text_file (lit "/sys/class/dmi/id/" ++ name) 1024);
  mret (match content with Value value => trim_line_end value | Failure _ => [] end).

Definition device_tree_hypervisor (info : hypervisor_info) : query W hypervisor_info := fun w =>
  let '(found, w) := file_accessible (lit "/proc/device-tree/hypervisor") w in
  (Value (if (found : bool)
          then Hypervisor_info true (if bool_decide (vendor info = hv_none) then hv_unknown else vendor info)
                 (name_or (hv_name info) (lit "DeviceTree Hypervisor"))
          else info), w).

Definition dmi_hypervisor (info : hypervisor_info) : query W hypervisor_info :=
  sys_vendor ← read_dmi_attribute (lit "sys_vendor");
  product_name ← read_dmi_attribute (lit "product_name");
  bios_vendor ← read_dmi_attribute (lit "bios_vendor");
  let dmi_vendor := classify_dmi_strings sys_vendor product_name bios_vendor in
  if bool_decide (dmi_vendor <> hv_unknown) then
    mret (Hypervisor_info true dmi_vendor
            (name_or (hv_name info) (if negb (empty product_name) then product_name else sys_vendor)))
  else device_tree_hypervisor info.

Definition sysfs_hypervisor (info : hypervisor_info) : query W hypervisor_info :=
  hypervisor_type_file ← attempt (read_text_file (lit "/sys/hypervisor/type") 256);
  let type_name := match hypervisor_type_file with Value t => trim_line_end t | Failure _ => [] end in
  if negb (empty type_name) then
    mret (Hypervisor_info true (classify_sysfs_hypervisor_type type_name) (name_or (hv_name info) type_name))
  else dmi_hypervisor info.

Definition detect_hypervisor : query W hypervisor_info := fun w =>
  let '(info, w) := probe_cpuid_hypervisor w in
  if recognized_vendor info then (Value info, w) else sysfs_hypervisor info w.

(** ** Windows subsystem *)

Fixpoint any_accessible (paths : list text) (w : W) : bool * W :=
  match paths with
  | [] => (false, w)
  | path :: paths =>
      match file_accessible path w with
      | (true, w) => (true, w)
      | (false, w) => any_accessible paths w
      end
  end.

Definition wsl_of_device : query W wsl_info := fun w =>
  let '(dxg, w) := file_accessible (lit "/dev/dxg") w in (Value (Wsl_info true (if (dxg : bool) then 2 else 1)), w).

Definition wsl_of_kernel : query W wsl_info :=
  osrelease_content ← attempt (read_text_file (lit "/proc/sys/kernel/osrelease") 1024);
  if mentions_if_any osrelease_content wsl2_words then mret (Wsl_info true 2) else wsl_of_device.

Definition wsl_of_hints (interop : bool) : query W wsl_info :=
  version_content ← attempt (read_text_file (lit "/proc/version") 4096);
  if negb (interop || mentions_if_any version_content ["microsoft"; "wsl"]%string) then mret (Wsl_info false 0)
  else if mentions_if_any version_content wsl2_words then mret (Wsl_info true 2)
  else wsl_of_kernel.

Definition detect_wsl : query W wsl_info := fun w =>
  let '(interop, w) := any_accessible [lit "/proc/sys/fs/binfmt_misc/WSLInterop"; lit "/run/WSL"] w in
  wsl_of_hints interop w.

(** ** Containers *)

(** A step of the detection: what it finds, if anything. *)
Definition check_cgroup_file (path : text) : query W (option container_info) :=
  cgroup_content ← attempt (read_text_file path (16 * 1024));
  mret (match cgroup_content with
        | Failure _ => None
        | Value content =>
            match each_field ch_lf content runtime_line tt with Next _ => None | Return info => Some info end
        end).

Definition systemd_container : query W (option container_info) :=
  content ← attempt (read_text_file (lit "/run/systemd/container") 256);
  mret (match content with
        | Failure _ => None
        | Value content =>
            let name := trim_line_end content in
            if empty name then None else Some (Container_info true (classify_container_name name) name)
        end).

Definition marker_file (path : text) (found : container_info) : query W (option container_info) := fun w =>
  let '(ok, w) := file_accessible path w in (Value (if (ok : bool) then Some found else None), w).

Definition openvz_container : query W (option container_info) := fun w =>
  match file_accessible (lit "/proc/vz") w with
  | (false, w) => (Value None, w)
  | (true, w) =>
      let '(bc, w) := file_accessible (lit "/proc/bc") w in
      (Value (if (bc : bool) then None else Some (Container_info true ct_openvz (lit "openvz"))), w)
  end.

Definition wsl_container : query W (option container_info) :=
  found ← detect_wsl; mret (if wsl found then Some (Container_info true ct_wsl (lit "wsl")) else None).

(** The first step that finds something. *)
Fixpoint first_of (steps : list (query W (option container_info))) : query W container_info :=
  match steps with
  | [] => mret no_container
  | step :: steps => found ← step; match found with Some info => mret info | None => first_of steps end
  end.

Definition detect_container : query W container_info :=
  first_of [systemd_container;
            marker_file (lit "/.dockerenv") (Container_info true ct_docker (lit "docker"));
            marker_file (lit "/.containerenv") (Container_info true ct_podman (lit "podman"));
            openvz_container;
            check_cgroup_file (lit "/proc/1/cgroup");
            check_cgroup_file (lit "/proc/self/cgroup");
            wsl_container].

(** ** Sandboxes *)

Fixpoint any_environment (names : list text) (w : W) : bool * W :=
  match names with
  | [] => (false, w)
  | name :: names =>
      match environment_has name w with
      | (true, w) => (true, w)
      | (false, w) => any_environment names w
      end
  end.

Definition detect_sandbox : query W sandbox_info := fun w =>
  match file_accessible (lit "/.flatpak-info") w with
  | (true, w) => (Value (Sandbox_info true sb_flatpak), w)
  | (false, w) =>
      let '(snap, w) := any_environment [lit "SNAP"; lit "SNAP_NAME"; lit "SNAP_INSTANCE_NAME"] w in
      (Value (if (snap : bool) then Sandbox_info true sb_snap else Sandbox_info false sb_none), w)
  end.

(** ** Namespaces *)

Definition nested_pid : query W (option bool) :=
  content ← content_if_any (lit "/proc/self/status") 4096;
  mret (match content with Some content => nested_pid_of content | None => None end).

Definition nested_user : query W (option bool) :=
  uid_map ← content_if_any (lit "/proc/self/uid_map") 512;
  mret (match uid_map with Some uid_map => nested_user_of uid_map | None => None end).

Definition isolation_from_init (name : text) (st : file_status) (nested_pid_ns : option bool) : query W (option bool) := fun w =>
  match stat_file (lit "/proc/1/ns/" ++ name) w with
  | (inr st_init, w) => (Value (isolated_by_init st st_init nested_pid_ns), w)
  | (inl err, w) =>
      (if (err =? ENOENT) || (err =? EACCES) || (err =? EPERM) then Value None else fail_native err, w)
  end.

Definition isolation (name : text) (st : file_status) (nested_pid_ns nested_user_ns : option bool) : query W (option bool) :=
  match isolated_by_kind (classify_namespace_name name) nested_pid_ns nested_user_ns with
  | Some known => mret (Some known)
  | None => isolation_from_init name st nested_pid_ns
  end.

Fixpoint namespace_loop (nested_pid_ns nested_user_ns : option bool) (names : list text) : query W (list namespace_info) :=
  match names with
  | [] => mret []
  | name :: names => fun w =>
      if hidden name then namespace_loop nested_pid_ns nested_user_ns names w
      else
        match stat_file (lit "/proc/self/ns/" ++ name) w with
        | (inl errno, w) =>
            if errno =? ENOENT then namespace_loop nested_pid_ns nested_user_ns names w else (fail_native errno, w)
        | (inr st, w) =>
            (isolated ← isolation name st nested_pid_ns nested_user_ns;
             rest ← namespace_loop nested_pid_ns nested_user_ns names;
             mret (Namespace_info (classify_namespace_name name) name (st_ino st) (st_dev st) isolated :: rest)) w
        end
  end.

Definition detect_namespaces : query W (list namespace_info) := fun w =>
  match list_directory (lit "/proc/self/ns") w with
  | (inl errno, w) => (fail_native errno, w)
  | (inr (names, errno), w) =>
      (nested_pid_ns ← nested_pid;
       nested_user_ns ← nested_user;
       found ← namespace_loop nested_pid_ns nested_user_ns names;
       pure (if negb (errno =? 0) then fail_native errno
             else Value (std_sort (fun a b => text_less (ns_name a) (ns_name b)) found))) w
  end.

Definition detect_is_namespace_isolated : query W bool :=
  ns_list ← detect_namespaces; pure (judge_isolation ns_list).

(** ** The queries of the backend *)

Definition is_hypervisor_present : query W bool := info ← detect_hypervisor; mret (hypervisor_present info).

Definition hypervisor : query W hypervisor_vendor := info ← detect_hypervisor; mret (vendor info).

Definition hypervisor_name : query W text :=
  info ← detect_hypervisor;
  pure (if negb (hypervisor_present info) || empty (hv_name info) then fail errc_not_found else Value (hv_name info)).

Definition is_container : query W bool := info ← detect_container; mret (container_present info).

Definition container : query W container_runtime := info ← detect_container; mret (runtime info).

Definition container_name : query W text :=
  info ← detect_container;
  pure (if negb (container_present info) || empty (ct_name info) then fail errc_not_found else Value (ct_name info)).

Definition is_wsl : query W bool := info ← detect_wsl; mret (wsl info).

Definition wsl_version : query W Z :=
  info ← detect_wsl; pure (if negb (wsl info) then fail errc_not_found else Value (wsl_major info)).

Definition is_wine : query W bool := mret false.

Definition wine_version : query W text := pure (fail errc_not_found).

Definition wine_build_id : query W text := pure (fail errc_not_found).

Definition is_sandboxed : query W bool := info ← detect_sandbox; mret (sandboxed info).

Definition sandbox : query W sandbox_type := info ← detect_sandbox; mret (sandbox_kind info).

Definition namespaces : query W (list namespace_info) := detect_namespaces.

Definition is_namespace_isolated : query W bool := detect_is_namespace_isolated.

(** ** The public queries that check a text *)

Definition checked_text (q : query W text) : query W text :=
  r ← attempt q; pure (validate_identity_text r).

Definition checked_hypervisor_name : query W text := checked_text hypervisor_name.

Definition checked_container_name : query W text := checked_text container_name.

Definition checked_namespaces : query W (list namespace_info) :=
  res ← namespaces;
  pure (for_each (fun ns => reject (negb (is_valid_utf8 (ns_name ns))) errc_invalid_encoding) res;; Value res).

End virtualization_queries.

(** ** What a query always answers *)

(** The query cannot fail, and every answer satisfies [P]. *)
Definition answers {W A} (m : query W A) (P : A -> Prop) : Prop :=
  forall w, exists v w', m w = (Value v, w') /\ P v.

Lemma answers_ret {W A} (v : A) (P : A -> Prop) : P v -> answers (W := W) (mret v) P.
Proof. intros HP w. by exists v, w. Qed.

Lemma answers_bind {W A B} (m : query W A) (f : A -> query W B) (Q : A -> Prop) P :
  answers m Q -> (forall v, Q v -> answers (f v) P) -> answers (v ← m; f v) P.
Proof.
  intros Hm Hf w. unfold mbind, query_bind. destruct (Hm w) as (v & w1 & -> & Hv). apply (Hf v Hv).
Qed.

Lemma answers_attempt {W A} (m : query W A) : answers (attempt m) (fun _ => True).
Proof. intros w. unfold attempt. destruct (m w) as [r w1]. by exists r, w1. Qed.

Definition hypervisor_consistent (i : hypervisor_info) : Prop :=
  (hypervisor_present i = true <-> vendor i <> hv_none) /\ (hypervisor_present i = false -> hv_name i = []).

Definition container_consistent (i : container_info) : Prop :=
  (container_present i = true <-> runtime i <> ct_none) /\ (container_present i = true <-> ct_name i <> []).

Definition wsl_consistent (i : wsl_info) : Prop := 
  if wsl i then wsl_major i = 1 \/ wsl_major i = 2 else wsl_major i = 0.

Definition sandbox_consistent (i : sandbox_info) : Prop := sandboxed i = true <-> sandbox_kind i <> sb_none.

Lemma present_consistent v n : v <> hv_none -> hypervisor_consistent (Hypervisor_info true v n).
Proof. by split. Qed.

Lemma container_found r n : r <> ct_none -> n <> [] -> container_consistent (Container_info true r n).
Proof. intros. by repeat split. Qed.

Lemma cpuid_vendor sig : classify_cpuid_signature sig <> hv_none.
Proof. unfold classify_cpuid_signature. by repeat case_match. Qed.

Lemma dmi_vendor a b c : classify_dmi_strings a b c <> hv_none.
Proof. unfold classify_dmi_strings. by repeat case_match. Qed.

Lemma sysfs_vendor t : classify_sysfs_hypervisor_type t <> hv_none.
Proof. unfold classify_sysfs_hypervisor_type. by repeat case_match. Qed.

Lemma named_runtime t : classify_container_name t <> ct_none.
Proof. unfold classify_container_name. by repeat case_match. Qed.

Section detection.
Context {W : Type} `{Kernel W} `{VirtualizationKernel W} `{ProcessorLeaves W}.

Lemma device_tree_answers info :
  hypervisor_consistent info -> answers (W := W) (device_tree_hypervisor info) hypervisor_consistent.
Proof.
  intros Hi w. unfold device_tree_hypervisor. destruct (file_accessible _ w) as [[|] w1]; [|by exists info, w1].
  eexists _, w1. split; [done|]. apply present_consistent. by case_bool_decide.
Qed.

Lemma dmi_answers info : hypervisor_consistent info -> answers (W := W) (dmi_hypervisor info) hypervisor_consistent.
Proof.
  intros Hi. unfold dmi_hypervisor, read_dmi_attribute.
  repeat (eapply answers_bind with (Q := fun _ => True);
    [eapply answers_bind; [apply answers_attempt|]; intros ? _; by apply answers_ret|]; intros ? _).
  cbv zeta. case_bool_decide; [apply answers_ret, present_consistent, dmi_vendor|by apply device_tree_answers].
Qed.

Lemma hypervisor_answers : answers (W := W) detect_hypervisor hypervisor_consistent.
Proof.
  intros w. unfold detect_hypervisor. destruct (probe_cpuid_hypervisor w) as [info w1] eqn:Ep.
  assert (hypervisor_consistent info) as Hi.
  { unfold probe_cpuid_hypervisor in Ep. destruct (get_cpuid 1 w) as [[[[[a b] c] d]|] w2]; [|by simplify_eq/=].
    destruct (negb _); [|by simplify_eq/=]. destruct (get_cpuid _ w2) as [[[[[a' b'] c'] d']|] w3]; simplify_eq/=;
    apply present_consistent; [apply cpuid_vendor|done]. }
  destruct (recognized_vendor info); [by exists info, w1|]. unfold sysfs_hypervisor.
  revert w1 Ep. intros w1 _. revert w1. eapply answers_bind; [apply answers_attempt|]. intros content _. cbv zeta.
  split_if; [|by apply dmi_answers]. apply answers_ret, present_consistent, sysfs_vendor.
Qed.

Lemma wsl_answers : answers (W := W) detect_wsl wsl_consistent.
Proof.
  intros w. unfold detect_wsl. destruct (any_accessible _ w) as [interop w1]. revert w1. unfold wsl_of_hints.
  eapply answers_bind; [apply answers_attempt|]. intros version _. split_if; [by apply answers_ret|].
  split_if; [apply answers_ret; by right|]. unfold wsl_of_kernel.
  eapply answers_bind; [apply answers_attempt|]. intros osrelease _.
  split_if; [apply answers_ret; by right|]. intros w2. unfold wsl_of_device.
  destruct (file_accessible _ w2) as [dxg w3]. eexists _, w3. split; [done|]. destruct dxg; [by right|by left].
Qed.

Definition found_consistent (found : option container_info) : Prop :=
  forall info, found = Some info -> container_consistent info /\ container_present info = true.

Lemma first_of_answers steps :
  Forall (fun step => answers (W := W) step found_consistent) steps -> answers (first_of steps) container_consistent.
Proof.
  induction 1 as [|step steps Hs _ IH]; cbn [first_of]; [by apply answers_ret|].
  eapply answers_bind; [exact Hs|]. intros [info|] Hi; [|done]. apply answers_ret. by apply Hi.
Qed.

Lemma marker_answers path info :
  container_consistent info -> container_present info = true -> answers (W := W) (marker_file path info) found_consistent.
Proof.
  intros Hc Hp w. unfold marker_file. destruct (file_accessible path w) as [ok w1]. eexists _, w1. split; [done|].
  destruct ok; [by intros ? [= <-]|done].
Qed.

Lemma runtime_line_found content :
  match each_field ch_lf content runtime_line tt with
  | Next _ => True
  | Return info => container_consistent info /\ container_present info = true
  end.
Proof.
  rewrite each_field_fields. apply (fold_steps_inv (fun _ => True)); [done|]. intros line s _. unfold runtime_line.
  case_bool_decide as Hc; [|done]. split; [|done]. apply container_found; [done|]. by destruct (classify_cgroup_line line).
Qed.

Lemma cgroup_file_answers path : answers (W := W) (check_cgroup_file path) found_consistent.
Proof.
  unfold check_cgroup_file. eapply answers_bind; [apply answers_attempt|]. intros [content|e] _; apply answers_ret; [|done].
  pose proof (runtime_line_found content) as Hl. destruct (each_field _ _ _ _) as [[]|info]; [done|]. by intros ? [= <-].
Qed.

Lemma container_answers : answers (W := W) detect_container container_consistent.
Proof.
  unfold detect_container. apply first_of_answers. repeat constructor.
  - unfold systemd_container. eapply answers_bind; [apply answers_attempt|]. intros [content|e] _; apply answers_ret; [|done].
    intros info. destruct (empty (trim_line_end content)) eqn:Ee; [done|]. intros [= <-]. split; [|done].
    apply container_found; [apply named_runtime|by apply empty_false].
  - by apply marker_answers.
  - by apply marker_answers.
  - intros w. unfold openvz_container. destruct (file_accessible _ w) as [[|] w1]; [|by exists None, w1].
    destruct (file_accessible _ w1) as [bc w2]. eexists _, w2. split; [done|]. destruct bc; [done|]. by intros ? [= <-].
  - apply cgroup_file_answers.
  - apply cgroup_file_answers.
  - unfold wsl_container. eapply answers_bind; [apply wsl_answers|]. intros [found major] _. apply answers_ret.
    destruct found; [|done]. by intros ? [= <-].
Qed.

(** The detections never fail, and each answers consistently: a hypervisor
    or a container is present exactly when it is classified as something other
    than none - a container exactly when it has a name, an absent hypervisor
    has none -, the version of the Windows subsystem is 1 or 2 exactly when
    the process runs in it and 0 otherwise, and a process is sandboxed exactly
    when its sandbox is not none. *)
Theorem detections_consistent :
  answers (W := W) detect_hypervisor hypervisor_consistent /\ answers (W := W) detect_container container_consistent /\
  answers (W := W) detect_wsl wsl_consistent /\ answers (W := W) detect_sandbox sandbox_consistent.
Proof.
  split; [apply hypervisor_answers|]. split; [apply container_answers|]. split; [apply wsl_answers|].
  intros w. unfold detect_sandbox. destruct (file_accessible _ w) as [[|] w1]; [by eexists _, w1|].
  destruct (any_environment _ w1) as [snap w2]. eexists _, w2. split; [done|]. by destruct snap.
Qed.

End detection.

(** ** Namespaces *)

(** What separates the words of the files below. *)
Definition word_blank (c : ascii) : bool := bool_decide (c ∈ [" "%char; ch_tab; ch_cr; ch_lf]).

(** The line of the status of a process that lists its identifiers, from the
    outermost process namespace to its own: the first one, up to its line feed
    or the end of the text. *)
Definition identifier_line (status line : text) : Prop := exists before ids after,
  status = before ++ line ++ after /\ line = lit "NSpid:" ++ ids /\ (ch_lf ∉ ids) /\
  (after = [] \/ head after = Some ch_lf) /\
  forall j, (j < length before)%nat -> take 6 (drop j status) <> lit "NSpid:".

(** A map of users that is not the whole identity: without the blanks around
    it, it is not empty and not the words of the identity. *)
Definition users_mapped (map : text) : Prop := exists inner,
  bare map inner /\ inner <> [] /\ tokens word_blank inner <> [lit "0"; lit "0"; lit "4294967295"].

Lemma word_blank_cgroup c : word_blank c = cgroup_blank c.
Proof.
  unfold word_blank, cgroup_blank. apply eq_true_iff_eq. rewrite bool_decide_eq_true, !orb_true_iff, !is_char_true.
  rewrite !elem_of_cons, elem_of_nil. tauto.
Qed.

Lemma tokens_same p q l : (forall c, p c = q c) -> tokens p l = tokens q l.
Proof.
  intros Hpq. induction l as [|c l IH]; [done|]. cbn [tokens]. rewrite Hpq. destruct (q c); [done|].
  destruct l as [|d l]; [done|]. rewrite Hpq. by rewrite IH.
Qed.

Lemma split_whitespace_words v : split_whitespace v = tokens word_blank v.
Proof.
  unfold split_whitespace, collect_tokens. rewrite each_token_tokens, (tokens_same word_blank cgroup_blank) by apply word_blank_cgroup.
  assert (forall ts (found : list text), fold_while (R := False) (fun _ => true) (fun token found => Next (found ++ [token])) ts found = Next (found ++ ts)) as Hf.
  { induction ts as [|t ts IH]; intros found; cbn [fold_while]; [by rewrite app_nil_r|]. rewrite IH. by rewrite <- app_assoc. }
  by rewrite Hf.
Qed.

Lemma nested_pid_line status nested :
  nested_pid_of status = Some nested ->
  exists line, identifier_line status line /\ nested = (2 <? length (tokens word_blank line))%nat.
Proof.
  unfold nested_pid_of, find_text. rewrite drop_0. destruct (find_part _ status) as [i|] eqn:Ei; [|done]. cbn [fmap option_fmap option_map Nat.add].
  apply find_part_split in Ei as (Hs & Hi & Hfirst). change (length (lit "NSpid:")) with 6%nat in *.
  set (rest := drop (i + 6) status) in *. set (line := match find ch_lf status i with None => _ | Some _ => _ end).
  intros [= <-]. exists line. split; [|by rewrite split_whitespace_words].
  assert (drop i status = lit "NSpid:" ++ rest) as Hd.
  { rewrite Hs at 1. rewrite drop_app_ge by (rewrite length_take; lia). rewrite length_take, Nat.min_l, Nat.sub_diag by lia. done. }
  assert (exists ids after, line = lit "NSpid:" ++ ids /\ rest = ids ++ after /\ (ch_lf ∉ ids) /\ (after = [] \/ head after = Some ch_lf))
    as (ids & after & Hline & Hrest & Hlf & Hafter).
  { assert (find_first (is_char ch_lf) (lit "NSpid:" ++ rest) = (fun k => 6 + k)%nat <$> find_first (is_char ch_lf) rest) as Hf
      by (cbn; by destruct (find_first (is_char ch_lf) rest)).
    unfold line, find, substr, substr_from. rewrite Hd, Hf. destruct (find_first (is_char ch_lf) rest) as [k|] eqn:Ek.
    - apply find_first_split in Ek as (c & Hk & Hc%is_char_true & Hnone). subst c. exists (take k rest), (ch_lf :: drop (S k) rest).
      cbn [fmap option_fmap option_map]. replace (i + (6 + k) - i)%nat with (length (lit "NSpid:") + k)%nat by (cbn; lia).
      rewrite take_app_add. split; [done|]. split; [done|]. split; [|by right].
      intros Hin. rewrite Forall_forall in Hnone. apply Hnone in Hin. by apply is_char_false in Hin.
    - exists rest, []. rewrite app_nil_r. split; [done|]. split; [done|]. split; [|by left].
      intros Hin. apply find_first_none in Ek. rewrite Forall_forall in Ek. apply Ek in Hin. by apply is_char_false in Hin. }
  exists (take i status), ids, after. rewrite length_take, Nat.min_l by lia. rewrite Hline, <- app_assoc, <- Hrest. by split_and!.
Qed.

Lemma full_identity_words v :
  is_full_identity_uid_map v = true <-> tokens word_blank v = [lit "0"; lit "0"; lit "4294967295"].
Proof.
  unfold is_full_identity_uid_map. rewrite split_whitespace_words. cbv zeta.
  destruct (tokens word_blank v) as [|a [|b [|c [|d ts]]]]; try (by split; [|intros [=]]).
  cbn [length nth Nat.eqb andb]. rewrite !andb_true_iff, !same_true. split; [by intros [[-> ->] ->]|by intros [= -> -> ->]].
Qed.

Lemma nested_user_mapped map : nested_user_of map = Some true <-> users_mapped map.
Proof.
  unfold nested_user_of, users_mapped. cbv zeta. setoid_rewrite <- trim_signature_bare.
  set (inner := trim_signature map). split.
  - destruct (empty inner) eqn:Ee; [done|]. apply empty_false in Ee.
    destruct (is_full_identity_uid_map inner) eqn:Ef; [done|]. intros _. exists inner. split; [done|]. split; [done|].
    intros Ht%full_identity_words. by rewrite Ht in Ef.
  - intros (? & <- & Hne & Ht). apply empty_false in Hne. rewrite Hne.
    destruct (is_full_identity_uid_map inner) eqn:Ef; [|done]. by apply full_identity_words in Ef.
Qed.

Lemma classified_namespace name :
  (classify_namespace_name name = ns_pid -> name = lit "pid") /\
  (classify_namespace_name name = ns_pid_for_children -> name = lit "pid_for_children") /\
  (classify_namespace_name name = ns_user <-> name = lit "user").
Proof.
  split_and!; [..|split; [|by intros ->]]; unfold classify_namespace_name;
    repeat match goal with |- context [same name ?n] => destruct (same name n) eqn:?; [try done; by intros; apply same_true|] end; done.
Qed.

Section still_namespaces.
Context {W : Type} `{Kernel W} `{VirtualizationKernel W} (w : W).
Context (open_quiet : forall path, snd (open_file path w) = w) (stat_quiet : forall path, snd (stat_file path w) = w)
  (list_quiet : forall path, snd (list_directory path w) = w).

Lemma quiet_any path maximum_size : quiet w (content_if_any path maximum_size).
Proof. apply quiet_if_any, open_quiet. Qed.

Lemma quiet_nested_pid : quiet w nested_pid.
Proof. unfold nested_pid. apply quiet_bind; [apply quiet_any|done]. Qed.

Lemma quiet_nested_user : quiet w nested_user.
Proof. unfold nested_user. apply quiet_bind; [apply quiet_any|done]. Qed.

Lemma quiet_isolation name st np nu : quiet w (isolation name st np nu).
Proof.
  unfold isolation. destruct (isolated_by_kind _ _ _); [done|]. unfold quiet, isolation_from_init.
  pose proof (stat_quiet (lit "/proc/1/ns/" ++ name)) as Hs. by destruct (stat_file _ w) as [[?|?] w1].
Qed.

(** A namespace of the process. *)
Definition member (names : list text) (name : text) (st : file_status) : Prop :=
  name ∈ names /\ hidden name = false /\ fst (stat_file (lit "/proc/self/ns/" ++ name) w) = inr st.

Lemma namespace_loop_members np nu names l :
  fst (namespace_loop np nu names w) = Value l ->
  forall r, r ∈ l <-> exists name st isolated, member names name st /\ fst (isolation name st np nu w) = Value isolated /\
    r = Namespace_info (classify_namespace_name name) name (st_ino st) (st_dev st) isolated.
Proof.
  revert l. induction names as [|name names IH]; intros l; cbn [namespace_loop].
  { intros [= <-] r. split; [by intros ?%elem_of_nil|]. by intros (? & ? & ? & (?%elem_of_nil & _) & _). }
  assert (forall name' st', member (name :: names) name' st' -> name' = name \/ member names name' st') as Hm.
  { intros name' st' ([->|Hin]%elem_of_cons & Hr); [by left|by right]. }
  assert (forall name' st', member names name' st' -> member (name :: names) name' st') as Hm'.
  { intros name' st' (Hin & Hr). split; [by right|done]. }
  destruct (hidden name) eqn:Eh.
  { intros Hl r. rewrite (IH _ Hl). split; intros (name' & st' & i & Hn & Hi & ->); exists name', st', i; (split; [|done]); [by apply Hm'|].
    destruct (Hm _ _ Hn) as [->|]; [|done]. destruct Hn as (_ & Hh & _). congruence. }
  pose proof (stat_quiet (lit "/proc/self/ns/" ++ name)) as Hs. destruct (stat_file _ w) as [[errno|st] w1] eqn:Est; cbn in Hs; subst w1.
  { split_if; [|done]. intros Hl r. rewrite (IH _ Hl).
    split; intros (name' & st' & i & Hn & Hi & ->); exists name', st', i; (split; [|done]); [by apply Hm'|].
    destruct (Hm _ _ Hn) as [->|]; [|done]. destruct Hn as (_ & _ & Hst). rewrite Est in Hst. done. }
  unfold mbind, query_bind. pose proof (quiet_isolation name st np nu) as Hq. unfold quiet in Hq.
  destruct (isolation name st np nu w) as [[isolated|e] w1] eqn:Ei; cbn in Hq; subst w1; [|done].
  destruct (namespace_loop np nu names w) as [[rest|e] w1]; [|done]. intros [= <-] r. rewrite elem_of_cons, (IH rest eq_refl). split.
  - intros [->|(name' & st' & i & Hn & Hi & ->)]; [|exists name', st', i; split; [by apply Hm'|done]].
    exists name, st, isolated. split; [|by rewrite Ei]. split; [by left|]. by rewrite Est.
  - intros (name' & st' & i & Hn & Hi & ->). destruct (decide (name' = name)) as [->|Hne].
    + left. destruct Hn as (_ & _ & Hst). rewrite Est in Hst. injection Hst as <-. rewrite Ei in Hi. by injection Hi as <-.
    + right. exists name', st', i. split; [|done]. by destruct (Hm _ _ Hn).
Qed.

Lemma namespace_loop_judged np nu names l :
  fst (namespace_loop np nu names w) = Value l ->
  forall name st, member names name st -> exists isolated, fst (isolation name st np nu w) = Value isolated.
Proof.
  revert l. induction names as [|name names IH]; intros l Hl name' st' (Hin & Hh & Hst); [by apply elem_of_nil in Hin|].
  cbn [namespace_loop] in Hl. destruct (hidden name) eqn:Eh.
  { apply elem_of_cons in Hin as [->|Hin]; [congruence|]. by eapply IH. }
  pose proof (stat_quiet (lit "/proc/self/ns/" ++ name)) as Hs. destruct (stat_file _ w) as [[errno|st] w1] eqn:Est; cbn in Hs; subst w1.
  { apply elem_of_cons in Hin as [->|Hin]; [by rewrite Est in Hst|]. destruct (errno =? ENOENT); [by eapply IH|done]. }
  unfold mbind, query_bind in Hl. pose proof (quiet_isolation name st np nu) as Hq. unfold quiet in Hq.
  destruct (isolation name st np nu w) as [[isolated|e] w1] eqn:Ei; cbn in Hq; subst w1; [|done].
  destruct (namespace_loop np nu names w) as [[rest|e] w1]; [|done]. apply elem_of_cons in Hin as [->|Hin]; [|by eapply IH].
  rewrite Est in Hst. injection Hst as <-. exists isolated. by rewrite Ei.
Qed.

(** How many identifiers the status of the process lists. *)
Definition identifiers_listed (number : nat -> Prop) : Prop := exists status line,
  file_delivers w (lit "/proc/self/status") status /\ identifier_line status line /\
  number (length (tokens word_blank line) - 1)%nat.

Definition users_of_process_mapped : Prop := exists map, file_delivers w (lit "/proc/self/uid_map") map /\ users_mapped map.

(** Why a namespace is isolated: it is another than that of process 1, or the
    process has an identifier in more than one process namespace, or its users
    are mapped. *)
Definition isolation_evidence (name : text) (st : file_status) : Prop :=
  (exists st_init, fst (stat_file (lit "/proc/1/ns/" ++ name) w) = inr st_init /\ st_ino st <> st_ino st_init) \/
  ((name = lit "pid" \/ name = lit "pid_for_children") /\ identifiers_listed (fun n => (2 <= n)%nat)) \/
  (name = lit "user" /\ users_of_process_mapped).

Lemma content_delivered path maximum_size content :
  0 <= maximum_size -> fst (content_if_any path maximum_size w) = Value content ->
  forall c, content = Some c <-> file_delivers w path c.
Proof.
  intros Hm. unfold content_if_any, mbind, query_bind, attempt, pure.
  destruct (read_text_file path maximum_size w) as [[v|e] w1] eqn:E; cbn [fst].
  - intros [= <-] c. apply read_text_file_delivers in E as [He _]; [|done]. split; [by intros [= <-]|].
    destruct He as (events & w2 & Ho & Hd). intros (events' & w3 & Ho' & Hd'). rewrite Ho in Ho'. injection Ho' as <- <-. congruence.
  - destruct (matches_std_errc e ENOENT) eqn:Em; [|done]. intros [= <-] c. split; [done|]. intros (events & w2 & Ho & Hd).
    unfold read_text_file in E. rewrite Ho, read_loop_delivered, Hd in E by done. unfold read_outcome in E.
    destruct (_ <? _); [|done]. injection E as <- _. done.
Qed.

Lemma nested_pid_identifiers nested :
  fst (nested_pid w) = Value (Some nested) -> identifiers_listed (fun n => if nested then (2 <= n)%nat else (n <= 1)%nat).
Proof.
  unfold nested_pid, mbind, query_bind. destruct (content_if_any _ _ w) as [[content|e] w1] eqn:E; [|done]. intros [= Hn].
  apply (f_equal fst) in E. pose proof (content_delivered _ 4096 _ ltac:(done) E) as Hc. destruct content as [status|]; [|done].
  apply nested_pid_line in Hn as (line & Hl & ->). exists status, line. split; [by apply Hc|]. split; [done|].
  destruct (Nat.ltb_spec 2 (length (tokens word_blank line))); lia.
Qed.

Lemma nested_user_process nu :
  fst (nested_user w) = Value nu -> nu <> Some false /\ (nu = Some true <-> users_of_process_mapped).
Proof.
  unfold nested_user, mbind, query_bind. destruct (content_if_any _ _ w) as [[content|e] w1] eqn:E; [|done]. intros [= <-].
  apply (f_equal fst) in E. pose proof (content_delivered _ 512 _ ltac:(done) E) as Hc. split.
  - destruct content as [map|]; [|done]. unfold nested_user_of. cbv zeta. by split_if.
  - unfold users_of_process_mapped. split.
    + destruct content as [map|]; [|done]. intros Hm%nested_user_mapped. exists map. split; [by apply Hc|done].
    + intros (map & ->%Hc & Hm). by apply nested_user_mapped.
Qed.

(** A namespace that is that of process 1. *)
Definition shared_namespace (name : text) (st : file_status) : Prop :=
  (exists st_init, fst (stat_file (lit "/proc/1/ns/" ++ name) w) = inr st_init /\ st_ino st = st_ino st_init) /\
  identifiers_listed (fun n => (n <= 1)%nat) /\ (name = lit "user" -> ~ users_of_process_mapped).

Lemma isolation_judged name st np nu isolated :
  fst (nested_pid w) = Value np -> fst (nested_user w) = Value nu -> fst (isolation name st np nu w) = Value isolated ->
  (isolated = Some true -> isolation_evidence name st) /\ (isolated = Some false -> shared_namespace name st).
Proof.
  intros Hp Hu. destruct (nested_user_process nu Hu) as [Hnf Hmap]. destruct (classified_namespace name) as (Cp & Cc & Cu).
  unfold isolation. destruct (isolated_by_kind _ np nu) as [known|] eqn:Ek.
  - intros [= <-]. unfold isolated_by_kind in Ek. split.
    + intros [= ->]. right. destruct (classify_namespace_name name) eqn:Ec; try done.
      * left. case_bool_decide as Hn; [|done]. subst np. split; [left; by apply Cp|by apply nested_pid_identifiers in Hp].
      * left. case_bool_decide as Hn; [|done]. subst np. split; [right; by apply Cc|by apply nested_pid_identifiers in Hp].
      * right. subst nu. split; [by apply Cu|by apply Hmap].
    + intros [= ->]. by destruct (classify_namespace_name name); try done; case_bool_decide.
  - unfold isolation_from_init. destruct (stat_file _ w) as [[err|st_init] w1] eqn:Es; cbn [fst]; [split_if; by intros [= <-]|].
    intros [= <-]. unfold isolated_by_init. destruct (Z.eqb_spec (st_ino st) (st_ino st_init)) as [He|Hne]; cbn [negb].
    + case_bool_decide as Hn; [|done]. split; [done|]. intros _. split; [exists st_init; by rewrite Es|]. subst np.
      split; [by apply nested_pid_identifiers in Hp|]. intros Hname Hm%Hmap. apply Cu in Hname. by rewrite Hname in Ek; subst nu.
    + split; [|done]. intros _. left. exists st_init. by rewrite Es.
Qed.

(** C25: the verdict on the namespaces is sound: the process is reported as
    isolated only when one of its namespaces is another than that of process 1,
    or its status lists more than one identifier for it, or the map of its
    users is not the whole identity; and as not isolated only when every one of
    its namespaces is that of process 1, its status lists no second identifier
    and, if it has a user namespace, no such map. *)
Theorem namespace_isolation_sound (b : bool) :
  fst (is_namespace_isolated w) = Value b ->
  exists names, fst (list_directory (lit "/proc/self/ns") w) = inr (names, 0) /\
    if b then exists name st, member names name st /\ isolation_evidence name st
    else forall name st, member names name st -> shared_namespace name st.
Proof.
  unfold is_namespace_isolated, detect_is_namespace_isolated, detect_namespaces. unfold mbind, query_bind.
  pose proof (list_quiet (lit "/proc/self/ns")) as Hl. destruct (list_directory _ w) as [[errno|[names errno]] w1]; cbn in Hl; subst w1; [done|].
  pose proof quiet_nested_pid as Hqp. pose proof quiet_nested_user as Hqu. unfold quiet in Hqp, Hqu.
  destruct (nested_pid w) as [[np|e] w1] eqn:Ep; cbn in Hqp; subst w1; [|done].
  destruct (nested_user w) as [[nu|e] w1] eqn:Eu; cbn in Hqu; subst w1; [|done].
  destruct (namespace_loop np nu names w) as [[found|e] w1] eqn:El; [|done]. unfold pure.
  destruct (Z.eqb_spec errno 0) as [->|]; cbn [negb fst]; [|done]. intros Hb. exists names. split; [done|].
  pose proof (namespace_loop_members np nu names found ltac:(by rewrite El)) as Hmem.
  pose proof (namespace_loop_judged np nu names found ltac:(by rewrite El)) as Hall.
  assert (forall name st i, member names name st -> fst (isolation name st np nu w) = Value i ->
    (i = Some true -> isolation_evidence name st) /\ (i = Some false -> shared_namespace name st)) as Hj.
  { intros name st i _. apply isolation_judged; [by rewrite Ep|by rewrite Eu]. }
  clear El. unfold judge_isolation in Hb. set (l := std_sort _ found) in *.
  assert (forall r, r ∈ l <-> r ∈ found) as Hperm by (intros r; unfold l; by rewrite std_sort_permutation).
  destruct (existsb (fun ns => bool_decide (ns_isolated ns = Some true)) l) eqn:E1.
  - injection Hb as <-. apply existsb_exists in E1 as (ns & Hin%list_elem_of_In%Hperm & Hns). bool_to_prop.
    apply Hmem in Hin as (name & st & i & Hn & Hi & ->). exists name, st. split; [done|]. by apply (Hj name st i).
  - destruct (existsb (fun ns => bool_decide (ns_isolated ns = None)) l) eqn:E2; [done|]. injection Hb as <-.
    intros name st Hn. destruct (Hall name st Hn) as (i & Ei).
    assert (Namespace_info (classify_namespace_name name) name (st_ino st) (st_dev st) i ∈ l) as Hin
      by (apply Hperm, Hmem; by exists name, st, i).
    destruct (Hj name st i Hn Ei) as [_ Hf]. apply Hf.
    apply list_elem_of_In in Hin. destruct i as [[|]|]; [|done|].
    + exfalso. apply eq_true_false_abs with (2 := E1). apply existsb_exists. eexists. by split; [exact Hin|].
    + exfalso. apply eq_true_false_abs with (2 := E2). apply existsb_exists. eexists. by split; [exact Hin|].
Qed.

End still_namespaces.

(** ** A small system *)

Definition namespace_kernel : Kernel unit :=
  listing_kernel [("/proc/self/status", "NSpid: 7"); ("/proc/self/uid_map", "  0 0 4294967295")]%string
    [("/proc/self/ns", ["."; "net"; "uts"; "user"])]%string.

Definition namespace_machine (self_net init_net : Z) : VirtualizationKernel unit := {|
  file_accessible path w := (false, w);
  stat_file path w :=
    (if bool_decide (path = lit "/proc/self/ns/net") then inr (File_status false self_net 4)
     else if bool_decide (path = lit "/proc/1/ns/net") then inr (File_status false init_net 4)
     else if bool_decide (path = lit "/proc/self/ns/uts") || bool_decide (path = lit "/proc/1/ns/uts") ||
             bool_decide (path = lit "/proc/self/ns/user") || bool_decide (path = lit "/proc/1/ns/user")
     then inr (File_status false 8 4) else inl ENOENT, w);
  statfs_type path w := (None, w);
  environment_has name w := (false, w)
|}.

Lemma namespace_isolation_sound_witness :
  (exists names, fst (@list_directory unit namespace_kernel (lit "/proc/self/ns") tt) = inr (names, 0) /\
    exists name st, @member unit (namespace_machine 5 6) tt names name st /\
      @isolation_evidence unit namespace_kernel (namespace_machine 5 6) tt name st) /\
  exists names, fst (@list_directory unit namespace_kernel (lit "/proc/self/ns") tt) = inr (names, 0) /\
    forall name st, @member unit (namespace_machine 5 5) tt names name st ->
      @shared_namespace unit namespace_kernel (namespace_machine 5 5) tt name st.
Proof.
  split.
  - apply (@namespace_isolation_sound unit namespace_kernel (namespace_machine 5 6) tt (fun path => eq_refl)
      (fun path => eq_refl) (fun path => eq_refl) true). vm_compute. reflexivity.
  - apply (@namespace_isolation_sound unit namespace_kernel (namespace_machine 5 5) tt (fun path => eq_refl)
      (fun path => eq_refl) (fun path => eq_refl) false). vm_compute. reflexivity.
Defined.
