(* ===== verification/Filesystem.v ===== *)
(** * Filesystems: mounts, capacities, limits and identifiers

    [include/syscape/detail/filesystem/common.hpp],
    [include/syscape/detail/filesystem/posix.hpp],
    [include/syscape/detail/filesystem/linux.hpp] and the queries of
    [include/syscape/filesystem.hpp].  [statvfs], [statfs] and [pathconf] are
    the class [FilesystemKernel].  The two calls the code repeats while they
    are interrupted run on fuel, and end with [None] when it is spent. *)
From S2P Require Import Prelude Result CppText Utf8 System Storage.

(** ** common.hpp *)

Record mount_record := Mount_record {
  record_source : text;
  record_mount_point : text;
  record_file_system_type : text
}.

Record space_snapshot := Space_snapshot {
  snapshot_capacity_bytes : Z;
  snapshot_free_bytes : Z;
  snapshot_available_bytes : Z;
  snapshot_block_size_bytes : Z;
  snapshot_read_only : bool
}.

Record path_length_snapshot := Path_length_snapshot {
  snapshot_length : Z;
  snapshot_indeterminate : bool
}.

Definition lower_digits : text := lit "0123456789abcdef".

Definition render_hex32 (v : Z) : text :=
  (fun index : nat => nth (Z.to_nat (Z.land (Z.shiftr v (28 - 4 * Z.of_nat index)) 0xF)) lower_digits ch_nul) <$> seq 0 8.

Definition render_hex_word_pair (first second : Z) : text := render_hex32 first ++ render_hex32 second.

Definition validate_mount_record (entry : mount_record) : result unit :=
  _ ← reject (empty (record_mount_point entry) || empty (record_file_system_type entry)) errc_malformed_data;
  reject (negb (is_valid_utf8 (record_source entry)) || negb (is_valid_utf8 (record_mount_point entry)) ||
          negb (is_valid_utf8 (record_file_system_type entry))) errc_invalid_encoding.

Definition validate_mount_records (records : result (list mount_record)) : result (list mount_record) :=
  records ← records;
  _ ← for_each validate_mount_record records;
  Value records.

Definition validate_path_input (path : text) : result unit :=
  _ ← reject (empty path || bool_decide (find ch_nul path 0 <> None)) errc_invalid_argument;
  reject (negb (is_valid_utf8 path)) errc_invalid_encoding.

Definition validate_space_snapshot (v : result space_snapshot) : result space_snapshot :=
  s ← v;
  _ ← reject (snapshot_block_size_bytes s =? 0) errc_malformed_data;
  _ ← reject ((snapshot_capacity_bytes s <? snapshot_free_bytes s) ||
              (snapshot_capacity_bytes s <? snapshot_available_bytes s)) errc_malformed_data;
  Value s.

Definition validate_path_length (v : result path_length_snapshot) : result path_length_snapshot :=
  s ← v;
  if snapshot_indeterminate s then Value (Path_length_snapshot 0 true)
  else if snapshot_length s =? 0 then fail errc_malformed_data else Value s.

Definition validate_volume_id (v : result text) : result text :=
  id ← v;
  if empty id then fail errc_malformed_data else Value id.

(** ** posix.hpp *)

Definition scaled_block_count (blocks block_size : Z) : result Z :=
  if negb (block_size =? 0) && (uint64_max / block_size <? blocks) then fail errc_value_too_large
  else Value (wrap 64 (blocks * block_size)).

(** [struct statvfs]: its counters are unsigned integers of 64 bits. *)
Record statvfs_record := Statvfs_record {
  f_bsize : Z;
  f_frsize : Z;
  f_blocks : Z;
  f_bfree : Z;
  f_bavail : Z;
  f_flag : Z
}.

Definition ST_RDONLY : Z := 1.

Definition compute_space_snapshot (status : statvfs_record) : result space_snapshot :=
  let block_size_bytes := if negb (f_frsize status =? 0) then f_frsize status else f_bsize status in
  if block_size_bytes =? 0 then fail errc_malformed_data
  else
    capacity ← scaled_block_count (f_blocks status) block_size_bytes;
    free_bytes ← scaled_block_count (f_bfree status) block_size_bytes;
    available ← scaled_block_count (f_bavail status) block_size_bytes;
    Value (Space_snapshot capacity free_bytes available block_size_bytes
             (negb (Z.land (f_flag status) ST_RDONLY =? 0))).

Definition convert_pathconf_outcome (v saved_errno : Z) : result path_length_snapshot :=
  if v =? -1 then
    if saved_errno =? 0 then Value (Path_length_snapshot 0 true) else fail_native saved_errno
  else if v <=? 0 then fail errc_malformed_data
  else Value (Path_length_snapshot (wrap 64 v) false).

Inductive pathconf_name := PC_NAME_MAX | PC_PATH_MAX.

(** The calls: [errno] or what is filled in; [statfs] fills in the two words
    of [f_fsid]; [pathconf] returns a value and leaves an [errno], zero when
    it stores none. *)
Class FilesystemKernel (W : Type) := {
  statvfs : text -> W -> (Z + statvfs_record) * W;
  statfs : text -> W -> (Z + Z * Z) * W;
  pathconf : text -> pathconf_name -> W -> (Z * Z) * W
}.

(** ** linux.hpp: the mount table

    The escapes are those of the mount table of the storage backend. *)

Definition is_mount_separator (c : ascii) : bool := mount_blank c.

Definition octal_digit_value (c : ascii) : Z := Storage.octal_digit_value c.

Definition decode_mount_escape (field : text) (backslash : nat) : result ascii :=
  Storage.decode_mount_escape field backslash.

Definition decode_mount_field (field : text) : result text := Storage.decode_mount_field field.

(** [split_mount_line]: the loop over the words of a line, none of them empty. *)
Definition split_mount_line (line : text) : list text :=
  match each_token is_mount_separator (fun _ => true) line
          (fun field fields => Next (R := list text) (fields ++ [field])) [] with
  | Next (fields, _) => fields
  | Return fields => fields
  end.

Definition mount_row_of (line : text) (records : list mount_record)
    : step (list mount_record) (result (list mount_record)) :=
  match split_mount_line line with
  | [] => Next records
  | raw_source :: raw_target :: raw_type :: rest =>
      if (3 + length rest <? 6)%nat then Return (fail errc_malformed_data)
      else
        source <-? decode_mount_field raw_source;
        target <-? decode_mount_field raw_target;
        type <-? decode_mount_field raw_type;
        Next (records ++ [Mount_record source target type])
  | _ => Return (fail errc_malformed_data)
  end.

Definition parse_mounts (input : text) : result (list mount_record) :=
  finish (each_field ch_lf input mount_row_of []) Value.

(** ** The queries *)

Record mount_entry := Mount_entry {
  source : text;
  mount_point : text;
  file_system_type : text
}.

Record space_info := Space_info {
  capacity_bytes : Z;
  free_bytes : Z;
  available_bytes : Z;
  block_size_bytes : Z;
  read_only : bool
}.

Record path_length_limit := Path_length_limit { limit_length : Z; indeterminate : bool }.

Section filesystem.
Context {W : Type} `{Kernel W} `{FilesystemKernel W}.

(** [for (;;) { if (call() == 0) return ...; if (errno != EINTR) return fail; }] *)
Fixpoint retry {A} (call : W -> (Z + A) * W) (fuel : nat) (w : W) : option (result A * W) :=
  match fuel with
  | O => None
  | S fuel =>
      match call w with
      | (inr filled, w) => Some (Value filled, w)
      | (inl errno, w) => if negb (errno =? EINTR) then Some (fail_native errno, w) else retry call fuel w
      end
  end.

(** A pure step after a call that may not have returned. *)
Definition after {A B} (o : option (result A * W)) (f : result A -> result B) : option (result B * W) :=
  match o with Some (v, w) => Some (f v, w) | None => None end.

Definition statvfs_space (path : text) (fuel : nat) (w : W) : option (result space_snapshot * W) :=
  after (retry (statvfs path) fuel w) (fun status => status ← status; compute_space_snapshot status).

Definition pathconf_limit (path : text) (resource : pathconf_name) : query W path_length_snapshot := fun w =>
  let '((v, errno), w) := pathconf path resource w in
  (convert_pathconf_outcome v (if v =? -1 then errno else 0), w).

Definition statfs_volume_id (path : text) (fuel : nat) (w : W) : option (result text * W) :=
  after (retry (statfs path) fuel w)
    (fun words => words ← words; Value (render_hex_word_pair (wrap 32 (fst words)) (wrap 32 (snd words)))).

Definition mounts_backend : query W (list mount_record) :=
  content ← read_text_file (lit "/proc/self/mounts") default_maximum_size;
  pure (parse_mounts content).

Definition entry_of (r : mount_record) : mount_entry :=
  Mount_entry (record_source r) (record_mount_point r) (record_file_system_type r).

Definition mounts : query W (list mount_entry) :=
  records ← attempt mounts_backend;
  pure (records ← validate_mount_records records; Value (entry_of <$> (records : list mount_record))).

Definition info_of (s : space_snapshot) : space_info :=
  Space_info (snapshot_capacity_bytes s) (snapshot_free_bytes s) (snapshot_available_bytes s)
    (snapshot_block_size_bytes s) (snapshot_read_only s).

Definition space (path : text) (fuel : nat) (w : W) : option (result space_info * W) :=
  match validate_path_input path with
  | Failure e => Some (Failure e, w)
  | Value _ =>
      after (statvfs_space path fuel w) (fun v => s ← validate_space_snapshot v; Value (info_of s))
  end.

Definition path_length (resource : pathconf_name) (path : text) : query W path_length_limit :=
  _ ← pure (validate_path_input path);
  bound ← attempt (pathconf_limit path resource);
  pure (b ← validate_path_length bound; Value (Path_length_limit (snapshot_length b) (snapshot_indeterminate b))).

Definition max_component_length : text -> query W path_length_limit := path_length PC_NAME_MAX.

Definition max_path_length : text -> query W path_length_limit := path_length PC_PATH_MAX.

Definition volume_id (path : text) (fuel : nat) (w : W) : option (result text * W) :=
  match validate_path_input path with
  | Failure e => Some (Failure e, w)
  | Value _ => after (statfs_volume_id path fuel w) validate_volume_id
  end.

End filesystem.

(** ** Interrupted calls

    [settles call n w o w']: after [n] interruptions the call gives [o]. *)
Inductive settles {W A} (call : W -> (Z + A) * W) : nat -> W -> Z + A -> W -> Prop :=
  | settles_now w o w' : call w = (o, w') -> o <> inl EINTR -> settles call O w o w'
  | settles_later n w w1 o w' : call w = (inl EINTR, w1) -> settles call n w1 o w' -> settles call (S n) w o w'.

Definition outcome {A} (o : Z + A) : result A :=
  match o with inl errno => fail_native errno | inr filled => Value filled end.

(** A call that settles has its outcome within one call more than its interruptions. *)
Lemma retry_settles {W A} (call : W -> (Z + A) * W) n w o w' fuel :
  settles call n w o w' -> (n < fuel)%nat -> retry call fuel w = Some (outcome o, w').
Proof.
  intros Hs. revert fuel. induction Hs as [w o w' Hc Hne|n w w1 o w' Hc _ IH]; intros [|fuel] Hf; try lia; cbn [retry]; rewrite Hc.
  - destruct o as [errno|filled]; [|done]. destruct (Z.eqb_spec errno EINTR) as [->|]; [done|done].
  - change (negb (EINTR =? EINTR)) with false. apply IH. lia.
Qed.

(** ** Hexadecimal words *)

Definition lower_digit (d : Z) : ascii := nth (Z.to_nat d) lower_digits ch_nul.

Definition lower_hex_char (c : ascii) : Prop := 48 <= code c <= 57 \/ 97 <= code c <= 102.

Lemma lower_digit_spec d : 0 <= d < 16 -> digit_of 16 (lower_digit d) = Some d /\ lower_hex_char (lower_digit d).
Proof.
  intros Hd. assert (d ∈ seqZ 0 16) as Hin by (apply elem_of_seqZ; lia).
  assert (Forall (fun d => digit_of 16 (lower_digit d) = Some d /\
    ((48 <=? code (lower_digit d)) && (code (lower_digit d) <=? 57) ||
     (97 <=? code (lower_digit d)) && (code (lower_digit d) <=? 102) = true)) (seqZ 0 16)) as H
    by (vm_compute; repeat constructor).
  rewrite Forall_forall in H. apply H in Hin as [? Hc]. split; [done|]. unfold lower_hex_char. bool_to_prop. lia.
Qed.

Definition nibble (v : Z) (index : nat) : Z := Z.shiftr v (28 - 4 * Z.of_nat index) mod 16.

Lemma render_hex32_nibbles v : render_hex32 v = lower_digit ∘ nibble v <$> seq 0 8.
Proof.
  unfold render_hex32. apply list_fmap_ext. intros _ i _. unfold lower_digit, nibble, compose.
  by rewrite (land_mask 4) by done.
Qed.

Lemma digit_run_lower (ds : list Z) rest :
  Forall (fun d => 0 <= d < 16) ds -> digit_run 16 ((lower_digit <$> ds) ++ rest) = ds ++ digit_run 16 rest.
Proof.
  induction 1 as [|d ds Hd _ IH]; [done|]. csimpl. destruct (lower_digit_spec d Hd) as [-> _]. by rewrite IH.
Qed.

Lemma nibbles_value v : 0 <= v < 2 ^ 32 -> digits_value 16 (nibble v <$> seq 0 8) = v.
Proof.
  intros Hv. unfold nibble. cbn [seq fmap list_fmap]. unfold digits_value. cbn [foldl].
  rewrite !Z.shiftr_div_pow2 by lia.
  change (28 - 4 * Z.of_nat 0) with 28. change (28 - 4 * Z.of_nat 1) with 24. change (28 - 4 * Z.of_nat 2) with 20.
  change (28 - 4 * Z.of_nat 3) with 16. change (28 - 4 * Z.of_nat 4) with 12. change (28 - 4 * Z.of_nat 5) with 8.
  change (28 - 4 * Z.of_nat 6) with 4. change (28 - 4 * Z.of_nat 7) with 0.
  assert (forall k j, 0 <= k -> j = k + 4 -> v / 2 ^ k = 16 * (v / 2 ^ j) + (v / 2 ^ k) mod 16) as Hq.
  { intros k j Hk ->. rewrite Z.pow_add_r, <- Z.div_div by lia. by apply Z.div_mod. }
  pose proof (Hq 0 4 ltac:(done) eq_refl). pose proof (Hq 4 8 ltac:(done) eq_refl). pose proof (Hq 8 12 ltac:(done) eq_refl).
  pose proof (Hq 12 16 ltac:(done) eq_refl). pose proof (Hq 16 20 ltac:(done) eq_refl).
  pose proof (Hq 20 24 ltac:(done) eq_refl). pose proof (Hq 24 28 ltac:(done) eq_refl).
  assert (0 <= v / 2 ^ 28 < 16) by (split; [apply Z.div_pos; lia|apply Z.div_lt_upper_bound; lia]).
  rewrite (Z.mod_small (v / 2 ^ 28)) by done. rewrite Z.pow_0_r, Z.div_1_r in *. lia.
Qed.

Lemma render_hex32_text v rest :
  0 <= v < 2 ^ 32 ->
  length (render_hex32 v) = 8%nat /\ Forall lower_hex_char (render_hex32 v) /\
  digit_run 16 (render_hex32 v ++ rest) = (nibble v <$> seq 0 8) ++ digit_run 16 rest.
Proof.
  intros Hv. rewrite render_hex32_nibbles. split; [done|].
  assert (Forall (fun d => 0 <= d < 16) (nibble v <$> seq 0 8)) as Hn.
  { apply Forall_fmap, Forall_true. intros i. by apply Z.mod_pos_bound. }
  rewrite list_fmap_compose. split; [|by apply digit_run_lower].
  apply Forall_fmap. eapply Forall_impl; [exact Hn|]. intros d Hd. by apply lower_digit_spec.
Qed.

Lemma render_hex_word_pair_text a b :
  0 <= a < 2 ^ 32 -> 0 <= b < 2 ^ 32 ->
  length (render_hex_word_pair a b) = 16%nat /\ Forall lower_hex_char (render_hex_word_pair a b) /\
  numeral 16 (render_hex_word_pair a b) = a * 2 ^ 32 + b.
Proof.
  intros Ha Hb. unfold render_hex_word_pair, numeral.
  destruct (render_hex32_text a (render_hex32 b) Ha) as (Hl & Hc & ->).
  destruct (render_hex32_text b [] Hb) as (Hl' & Hc' & Hd). rewrite app_nil_r in Hd.
  split; [by rewrite length_app, Hl, Hl'|]. split; [by apply Forall_app|].
  cbn [digit_run] in Hd. rewrite app_nil_r in Hd. rewrite Hd, digits_value_app, !nibbles_value by done. done.
Qed.

(** ** Paths *)

Definition path_ok (path : text) : Prop := path <> [] /\ (ch_nul ∉ path) /\ is_valid_utf8 path = true.

Lemma validate_path_input_ok path : validate_path_input path = Value () <-> path_ok path.
Proof.
  unfold validate_path_input, path_ok. split.
  - intros ([] & Hr%reject_value & Hu%reject_value)%bind_value. apply negb_false_iff in Hu.
    apply orb_false_iff in Hr as [He%empty_false Hn%bool_decide_eq_false]. split; [done|]. split; [|done].
    intros Hin. apply Hn. apply list_elem_of_split in Hin as (l1 & l2 & ->).
    rewrite find_0. intros Hf%find_first_none. rewrite Forall_forall in Hf.
    specialize (Hf ch_nul ltac:(apply elem_of_app; right; by left)). by rewrite (proj2 (is_char_true _ _)) in Hf.
  - intros (He & Hn & Hu). apply empty_false in He. rewrite He, Hu. cbn [orb negb]. rewrite (find_none _ _ Hn).
    by rewrite bool_decide_false by (intros Hc; by apply Hc).
Qed.

(** ** Capacities *)

Definition status_ok (s : statvfs_record) : Prop :=
  Forall (fun v => 0 <= v <= uint64_max) [f_bsize s; f_frsize s; f_blocks s; f_bfree s; f_bavail s].

(** The capacities in unbounded integers. *)
Definition space_of (s : statvfs_record) : result space_info :=
  let b := if f_frsize s =? 0 then f_bsize s else f_frsize s in
  if b =? 0 then fail errc_malformed_data
  else if uint64_max <? Z.max (f_blocks s) (Z.max (f_bfree s) (f_bavail s)) * b then fail errc_value_too_large
  else if f_blocks s <? Z.max (f_bfree s) (f_bavail s) then fail errc_malformed_data
  else Value (Space_info (f_blocks s * b) (f_bfree s * b) (f_bavail s * b) b (Z.testbit (f_flag s) 0)).

Lemma scaled_block_count_exact blocks b :
  0 <= blocks -> 0 < b ->
  scaled_block_count blocks b = if uint64_max <? blocks * b then fail errc_value_too_large else Value (blocks * b).
Proof.
  intros Hn Hb. unfold scaled_block_count. rewrite (proj2 (Z.eqb_neq b 0)) by lia. cbn [negb andb].
  assert ((uint64_max / b <? blocks) = (uint64_max <? blocks * b)) as ->.
  { apply eq_iff_eq_true. rewrite !Z.ltb_lt. split; intros Hlt.
    - apply Z.nle_gt. intros Hle. apply (Z.div_le_mono _ _ b) in Hle; [|done]. rewrite Z.div_mul in Hle; lia.
    - apply Z.div_lt_upper_bound; lia. }
  destruct (Z.ltb_spec uint64_max (blocks * b)); [done|]. unfold wrap. by rewrite Z.mod_small by (unfold uint64_max in *; nia).
Qed.

Lemma read_only_bit flag : negb (Z.land flag ST_RDONLY =? 0) = Z.testbit flag 0.
Proof.
  unfold ST_RDONLY. change 1 with (Z.ones 1). rewrite Z.land_ones by done. change (2 ^ 1) with 2.
  rewrite Z.bit0_odd, Zmod_odd. by destruct (Z.odd flag).
Qed.

Lemma computed_space s :
  status_ok s ->
  (v ← validate_space_snapshot (compute_space_snapshot s); Value (info_of v)) = space_of s.
Proof.
  intros Hs. repeat (apply Forall_cons in Hs as [? Hs]). unfold compute_space_snapshot, space_of. rewrite if_negb, read_only_bit.
  assert (0 <= (if f_frsize s =? 0 then f_bsize s else f_frsize s)) as Hk by (by destruct (f_frsize s =? 0); lia).
  revert Hk. generalize (if f_frsize s =? 0 then f_bsize s else f_frsize s). intros b Hb.
  destruct (Z.eqb_spec b 0) as [|Hne]; [done|]. rewrite !scaled_block_count_exact by lia.
  rewrite <- !Z.mul_max_distr_nonneg_r by lia.
  destruct (Z.ltb_spec uint64_max (f_blocks s * b)) as [Hs1|Hs1]; [by rewrite (proj2 (Z.ltb_lt uint64_max (Z.max _ _))) by lia|].
  destruct (Z.ltb_spec uint64_max (f_bfree s * b)) as [Hs2|Hs2]; [by rewrite (proj2 (Z.ltb_lt uint64_max (Z.max _ _))) by lia|].
  destruct (Z.ltb_spec uint64_max (f_bavail s * b)) as [Hs3|Hs3]; [by rewrite (proj2 (Z.ltb_lt uint64_max (Z.max _ _))) by lia|].
  rewrite (proj2 (Z.ltb_ge uint64_max (Z.max _ _))) by lia. unfold validate_space_snapshot, mbind, result_bind.
  cbn [snapshot_block_size_bytes snapshot_capacity_bytes snapshot_free_bytes snapshot_available_bytes].
  rewrite (proj2 (Z.eqb_neq b 0)) by done. unfold reject.
  assert ((f_blocks s * b <? f_bfree s * b) || (f_blocks s * b <? f_bavail s * b) =
    (f_blocks s <? Z.max (f_bfree s) (f_bavail s))) as ->; [|by destruct (f_blocks s <? _)].
  apply eq_iff_eq_true. rewrite orb_true_iff, !Z.ltb_lt. rewrite <- !Z.mul_lt_mono_pos_r by lia. lia.
Qed.

(** C26: the capacities of a volume are exact: once [statvfs] has been
    interrupted often enough, one more call gives its error or the counts of
    blocks in bytes, computed without wrap-around - [value_too_large] exactly
    when one of them needs more than 64 bits, and [malformed_data] for a volume
    without a block size or with more free than existing blocks.  A path that
    is empty, holds a NUL or is not UTF-8 never reaches the system. *)
Theorem space_exact {W} `{FilesystemKernel W} (path : text) (w : W) (fuel : nat) :
  (path_ok path -> forall n o w', settles (statvfs path) n w o w' -> (n < fuel)%nat ->
     (forall s, o = inr s -> status_ok s) ->
     space path fuel w = Some (s ← outcome o; space_of s, w')) /\
  (~ path_ok path -> exists e, space path fuel w = Some (fail e, w) /\ (e = errc_invalid_argument \/ e = errc_invalid_encoding)).
Proof.
  unfold space. split.
  - intros Hp%validate_path_input_ok n o w' Hs Hf Hok. rewrite Hp. unfold statvfs_space.
    rewrite (retry_settles _ _ _ _ _ _ Hs Hf). cbn [after]. destruct o as [errno|s]; [done|]. cbn [outcome].
    f_equal. f_equal. by apply computed_space, Hok.
  - rewrite <- validate_path_input_ok. unfold validate_path_input, reject, mbind, result_bind.
    destruct (_ || _); [by eexists; split; [|left]|]. destruct (negb _); [by eexists; split; [|right]|done].
Qed.

(** The identifier of a volume tells its recorded words: sixteen lower-case
    hexadecimal digits that are the two words of [statfs], so that two volumes
    have the same identifier only with the same words. *)
Theorem volume_id_words {W} `{FilesystemKernel W} (path : text) (w w' : W) (n fuel : nat) (words : Z * Z) :
  path_ok path -> settles (statfs path) n w (inr words) w' -> (n < fuel)%nat ->
  exists id, volume_id path fuel w = Some (Value id, w') /\ length id = 16%nat /\ Forall lower_hex_char id /\
    numeral 16 id = (fst words) mod 2 ^ 32 * 2 ^ 32 + (snd words) mod 2 ^ 32.
Proof.
  intros Hp%validate_path_input_ok Hs Hf. unfold volume_id, statfs_volume_id. rewrite Hp, (retry_settles _ _ _ _ _ _ Hs Hf).
  pose proof (render_hex_word_pair_text (wrap 32 (fst words)) (wrap 32 (snd words))
    ltac:(by apply Z.mod_pos_bound) ltac:(by apply Z.mod_pos_bound)) as (Hl & Hc & Hn).
  exists (render_hex_word_pair (wrap 32 (fst words)) (wrap 32 (snd words))). split; [|done].
  cbn [after outcome mbind result_bind validate_volume_id].
  by destruct (render_hex_word_pair _ _).
Qed.

(** A limit: its value, none when the system stores no error, or the error. *)
Lemma path_length_outcome {W} `{FilesystemKernel W} resource path (w : W) v errno w' :
  path_ok path -> pathconf path resource w = ((v, errno), w') -> int64_min <= v <= int64_max ->
  path_length resource path w =
  (if 0 <? v then Value (Path_length_limit v false)
   else if v =? -1 then if errno =? 0 then Value (Path_length_limit 0 true) else fail_native errno
   else fail errc_malformed_data, w').
Proof.
  intros Hp%validate_path_input_ok Hc Hv. unfold path_length, mbind, query_bind, pure, attempt, pathconf_limit. rewrite Hp, Hc.
  unfold convert_pathconf_outcome, validate_path_length. f_equal.
  destruct (Z.ltb_spec 0 v) as [Hpos|Hneg].
  - rewrite (proj2 (Z.eqb_neq v (-1))), (proj2 (Z.leb_gt v 0)) by lia. cbn.
    unfold wrap. rewrite Z.mod_small by (unfold int64_max in *; lia). by rewrite (proj2 (Z.eqb_neq v 0)) by lia.
  - destruct (Z.eqb_spec v (-1)) as [->|]; [by destruct (errno =? 0)|]. by rewrite (proj2 (Z.leb_le v 0)) by lia.
Qed.

(** ** The mount table *)

(** A line of the kernel: three escaped names and at least three more words. *)
Record table_row := Table_row { row_record : mount_record; row_more : list text }.

Definition table_row_ok (r : table_row) : Prop :=
  Forall (fun t => t <> []) [record_source (row_record r); record_mount_point (row_record r); record_file_system_type (row_record r)] /\
  (3 <= length (row_more r))%nat /\ Forall (fun t => is_word t /\ ch_lf ∉ t) (row_more r).

Definition table_words (r : table_row) : list text :=
  escape (record_source (row_record r)) :: escape (record_mount_point (row_record r)) ::
  escape (record_file_system_type (row_record r)) :: row_more r.

Definition table_line (r : table_row) : text := join " " (table_words r).

Lemma table_words_ok r : table_row_ok r -> Forall (fun t => is_word t /\ ch_lf ∉ t) (table_words r).
Proof.
  intros (Hn & _ & Hm). repeat (apply Forall_cons in Hn as [? Hn]). unfold table_words.
  repeat (apply Forall_cons; split; [by apply escaped_word|]). done.
Qed.

Lemma split_mount_line_tokens line : split_mount_line line = tokens mount_blank line.
Proof.
  unfold split_mount_line. pose proof (each_token_tokens is_mount_separator (fun _ => true) line
    (fun field fields => Next (R := list text) (fields ++ [field])) []) as Ht.
  rewrite fold_while_true in Ht.
  assert (forall ts acc : list text, fold_steps (fun field fields => Next (R := list text) (fields ++ [field])) ts acc = Next (acc ++ ts)) as Hf.
  { induction ts as [|t ts IH]; intros acc; cbn [fold_steps]; [by rewrite app_nil_r|]. by rewrite IH, <- app_assoc. }
  rewrite Hf in Ht. unfold loop_state in Ht.
  destruct (each_token _ _ _ _ _) as [[fs pos]|fs]; [by injection Ht as ->|done].
Qed.

Lemma table_line_concat r : " "%char :: table_line r = concat (cons " "%char <$> table_words r).
Proof. unfold table_line, table_words. by rewrite join_concat. Qed.

Lemma table_line_words r : table_row_ok r -> split_mount_line (table_line r) = table_words r.
Proof.
  intros Hr. rewrite split_mount_line_tokens, <- (tokens_skip mount_blank " "), table_line_concat by done.
  apply (tokens_concat mount_blank " "); [done|]. eapply Forall_impl; [by apply table_words_ok|]. by intros t [].
Qed.

Lemma table_line_no_lf r : table_row_ok r -> ch_lf ∉ table_line r.
Proof.
  intros Hr Hin. apply (not_in_spaced ch_lf (table_words r)); [done| |rewrite <- table_line_concat; by right].
  eapply Forall_impl; [by apply table_words_ok|]. by intros t [].
Qed.

Lemma mount_row_of_row r records :
  table_row_ok r -> mount_row_of (table_line r) records = Next (records ++ [row_record r]).
Proof.
  intros Hr. unfold mount_row_of. rewrite table_line_words by done. destruct Hr as (_ & Hlen & _). unfold table_words.
  rewrite (proj2 (Nat.ltb_ge _ _)) by lia. unfold decode_mount_field. rewrite !decode_mount_escaped. cbn [try_step].
  by destruct (row_record r).
Qed.

Definition table_text (rows : list table_row) : text := concat ((fun r => table_line r ++ [ch_lf]) <$> rows).

Lemma parse_mounts_rows rows :
  Forall table_row_ok rows -> parse_mounts (table_text rows) = Value (row_record <$> rows).
Proof.
  intros Hrows. unfold parse_mounts, table_text. rewrite each_field_fields.
  rewrite (list_fmap_compose table_line (fun l => l ++ [ch_lf])), <- (app_nil_r (concat _)), fields_concat.
  2: { apply Forall_fmap. eapply Forall_impl; [done|]. intros r. apply table_line_no_lf. }
  change (fields ch_lf []) with (@nil text). rewrite app_nil_r.
  assert (forall rs, fold_steps mount_row_of (table_line <$> rows) rs = Next (rs ++ (row_record <$> rows))) as ->; [|done].
  induction Hrows as [|r rows Hr _ IH]; intros rs; [by rewrite app_nil_r|].
  cbn [fmap list_fmap fold_steps]. rewrite mount_row_of_row by done. rewrite IH. by rewrite <- app_assoc.
Qed.

Definition record_utf8 (r : mount_record) : Prop :=
  Forall (fun t => is_valid_utf8 t = true) [record_source r; record_mount_point r; record_file_system_type r].

Lemma validate_mount_record_failure r e :
  record_mount_point r <> [] -> record_file_system_type r <> [] ->
  validate_mount_record r = Failure e -> e = make_error_code errc_invalid_encoding /\ ~ record_utf8 r.
Proof.
  intros Hp%empty_false Ht%empty_false. unfold validate_mount_record. rewrite Hp, Ht. cbn [orb reject mbind result_bind].
  intros Hf. split; [by destruct (_ || _); [injection Hf as <-|]|]. intros Hu.
  repeat (apply Forall_cons in Hu as [Hv Hu]; rewrite Hv in Hf; clear Hv). done.
Qed.

(** C27: the mount table is read back: of a table in the kernel's format, with
    the blanks, line feeds and backslashes of names as octal escapes, every
    mount is reported with its decoded source, mount point and type, in order,
    and the query fails, with [invalid_encoding], exactly when one of the names
    is not UTF-8. *)
Theorem mounts_text {W} `{Kernel W} (rows : list table_row) (w w' : W) :
  Forall table_row_ok rows ->
  read_text_file (lit "/proc/self/mounts") default_maximum_size w = (Value (table_text rows), w') ->
  (Forall (fun r => record_utf8 (row_record r)) rows ->
     mounts w = (Value (entry_of ∘ row_record <$> rows), w')) /\
  (~ Forall (fun r => record_utf8 (row_record r)) rows -> mounts w = (fail errc_invalid_encoding, w')).
Proof.
  intros Hrows Hread. unfold mounts, mounts_backend, attempt, mbind, query_bind, pure. rewrite Hread, parse_mounts_rows by done.
  unfold validate_mount_records, mbind, result_bind. rewrite list_fmap_compose. clear Hread.
  destruct (for_each validate_mount_record (row_record <$> rows)) as [[]|e] eqn:Ef.
  - split; [done|]. intros Hn. exfalso. apply Hn. apply for_each_value in Ef. rewrite Forall_fmap in Ef.
    eapply Forall_impl; [exact Ef|]. cbn. unfold validate_mount_record. intros r ([] & _ & Hu%reject_value)%bind_value.
    apply orb_false_iff in Hu as [[Ha%negb_false_iff Hb%negb_false_iff]%orb_false_iff Hc%negb_false_iff].
    by repeat constructor.
  - apply for_each_failure in Ef as (r & (row & -> & Hrow)%list_elem_of_fmap & Hf).
    rewrite Forall_forall in Hrows. destruct (Hrows row Hrow) as [Hn _]. repeat (apply Forall_cons in Hn as [? Hn]).
    apply validate_mount_record_failure in Hf as [-> Hu]; [|done..]. split; [|done].
    intros Hall. rewrite Forall_forall in Hall. by apply Hall in Hrow.
Qed.

Definition small_rows : list table_row :=
  [Table_row (Mount_record (lit "/dev/sda1") (lit "/mnt/my disk") (lit "ext4")) [lit "rw"; lit "0"; lit "0"];
   Table_row (Mount_record (lit "tmpfs") (lit "/run") (lit "tmpfs")) [lit "rw"; lit "0"; lit "0"; lit "x"]].

Definition small_table : Kernel unit :=
  static_kernel [("/proc/self/mounts", String.string_of_list_ascii (table_text small_rows))]%string.

Lemma mounts_text_witness :
  @mounts unit small_table tt =
  (Value [Mount_entry (lit "/dev/sda1") (lit "/mnt/my disk") (lit "ext4"); Mount_entry (lit "tmpfs") (lit "/run") (lit "tmpfs")], tt).
Proof.
  refine (proj1 (@mounts_text unit small_table small_rows tt tt _ _) _).
  - unfold small_rows, table_row_ok, is_word. repeat constructor; vm_compute; try congruence;
      intros Hin; repeat (apply elem_of_cons in Hin as [?|Hin]; [congruence|]); by apply elem_of_nil in Hin.
  - vm_compute. reflexivity.
  - repeat constructor.
Defined.

(** A volume of 100 blocks whose call is interrupted twice. *)
Definition interrupted_volume : FilesystemKernel nat := {|
  statvfs path w :=
    match w with
    | O => (inr (Statvfs_record 512 4096 100 40 30 1), O)
    | S w => (inl EINTR, w)
    end;
  statfs path w := match w with O => (inr (-1, 10), O) | S w => (inl EINTR, w) end;
  pathconf path resource w := ((255, 0), w)
|}.

Lemma space_exact_witness :
  @space nat interrupted_volume (lit "/") 3 2%nat = Some (Value (Space_info 409600 163840 122880 4096 true), O).
Proof.
  refine (proj1 (@space_exact nat interrupted_volume (lit "/") 2%nat 3) _ 2%nat
    (inr (Statvfs_record 512 4096 100 40 30 1)) O _ _ _).
  - split_and!; [done| |done]. intros [?|Hin]%elem_of_cons; [done|by apply elem_of_nil in Hin].
  - eapply settles_later; [reflexivity|]. eapply settles_later; [reflexivity|]. by apply settles_now.
  - lia.
  - intros s [= <-]. by repeat constructor.
Defined.

Lemma volume_id_words_witness :
  exists id, @volume_id nat interrupted_volume (lit "/") 3 2%nat = Some (Value id, O) /\ length id = 16%nat /\
    Forall lower_hex_char id /\ numeral 16 id = 0xFFFFFFFF0000000A.
Proof.
  refine (@volume_id_words nat interrupted_volume (lit "/") 2%nat O 2 3 (-1, 10) _ _ _).
  - split_and!; [done| |done]. intros [?|Hin]%elem_of_cons; [done|by apply elem_of_nil in Hin].
  - eapply settles_later; [reflexivity|]. eapply settles_later; [reflexivity|]. by apply settles_now.
  - lia.
Defined.
