(* ===== verification/Resource.v ===== *)
(** * Resource usage: loads, processes, threads and open files

    [include/syscape/detail/resource/common.hpp],
    [include/syscape/detail/resource/linux.hpp] and the queries of
    [include/syscape/resource.hpp]: the parsers of [/proc/loadavg],
    [/proc/sys/fs/file-nr] and [/proc/<pid>/stat], and the walk over [/proc]. *)
From S2P Require Import Prelude Result CppText System Float Process.

(** ** common.hpp *)

Record load_samples := Load_samples {
  one_minute : double;
  five_minute : double;
  fifteen_minute : double
}.

Record entity_counts := Entity_counts {
  runnable : Z;
  schedulable : Z
}.

(** [std::isfinite(field)] *)
Definition isfinite (x : double) : bool :=
  match x with S754_zero _ | S754_finite _ _ _ => true | _ => false end.

Definition validate_load_samples (v : result load_samples) : result load_samples :=
  s ← v;
  _ ← for_each (fun field => reject (negb (isfinite field) || double_lt field (to_double 0)) errc_malformed_data)
        [one_minute s; five_minute s; fifteen_minute s];
  Value s.

Definition validate_entity_counts (v : result entity_counts) : result entity_counts :=
  s ← v;
  _ ← reject (schedulable s <? runnable s) errc_malformed_data;
  Value s.

Definition validate_positive_count (v : result Z) : result Z :=
  n ← v;
  _ ← reject (n =? 0) errc_malformed_data;
  Value n.

(** ** linux.hpp: the parsers *)

Record token_scanner := Token_scanner {
  input_ : text;
  position_ : nat
}.

Definition separator (c : ascii) : bool := is_char c " " || is_char c ch_tab.

(** [scanner.next()]: the token, and the scanner behind it. *)
Definition next (s : token_scanner) : text * token_scanner :=
  let start := scan separator (input_ s) (position_ s) in
  let stop := scan (fun c => negb (separator c)) (input_ s) start in
  (substr start (stop - start) (input_ s), Token_scanner (input_ s) stop).

Definition strip_line_break (input : text) : text :=
  drop_back (fun c => is_char c ch_lf || is_char c ch_cr || is_char c " " || is_char c ch_tab) input.

Definition parse_unsigned (token : text) : result Z :=
  if empty token then fail errc_malformed_data
  else
    let parsed := from_chars_unsigned uint64_max 10 token in
    if out_of_range parsed then fail errc_value_too_large
    else if negb (consumed parsed token) then fail errc_malformed_data
    else Value (fc_value parsed).

(** [double divisor = 1.0; for (...) divisor *= 10.0;] *)
Fixpoint divisor_loop (n : nat) (divisor : double) : double :=
  match n with
  | O => divisor
  | S n => divisor_loop n (double_mul divisor (to_double 10))
  end.

Definition parse_load_sample (token : text) : result double :=
  match find "." token 0 with
  | None => fail errc_malformed_data
  | Some sep =>
      if (sep =? 0)%nat || (length token <=? sep + 1)%nat || bool_decide (find "." token (sep + 1) <> None)
      then fail errc_malformed_data
      else
        let whole_text := substr 0 sep token in
        let fraction_text := substr_from (sep + 1) token in
        if (9 <? length whole_text)%nat || (9 <? length fraction_text)%nat then fail errc_malformed_data
        else
          whole ← parse_unsigned whole_text;
          fraction ← parse_unsigned fraction_text;
          Value (double_add (to_double whole)
                   (double_div (to_double fraction) (divisor_loop (length fraction_text) (to_double 1))))
  end.

Record load_status := Load_status {
  loads : load_samples;
  entities : entity_counts
}.

(** The field [running/total]. *)
Definition parse_entities (field : text) : result entity_counts :=
  match find "/" field 0 with
  | None => fail errc_malformed_data
  | Some divider =>
      if (divider =? 0)%nat || (length field <=? divider + 1)%nat then fail errc_malformed_data
      else
        runnable ← parse_unsigned (substr 0 divider field);
        schedulable ← parse_unsigned (substr_from (divider + 1) field);
        Value (Entity_counts runnable schedulable)
  end.

Definition parse_loadavg (input : text) : result load_status :=
  let scanner := Token_scanner (strip_line_break input) 0 in
  let '(t1, scanner) := next scanner in
  one ← parse_load_sample t1;
  let '(t2, scanner) := next scanner in
  five ← parse_load_sample t2;
  let '(t3, scanner) := next scanner in
  fifteen ← parse_load_sample t3;
  let '(t4, scanner) := next scanner in
  counts ← parse_entities t4;
  let '(t5, scanner) := next scanner in
  _ ← parse_unsigned t5;
  _ ← reject (negb (empty (fst (next scanner)))) errc_malformed_data;
  Value (Load_status (Load_samples one five fifteen) counts).

Record file_table_status := File_table_status {
  allocated : Z;
  maximum : Z
}.

Definition parse_file_nr (input : text) : result file_table_status :=
  let scanner := Token_scanner (strip_line_break input) 0 in
  let '(t1, scanner) := next scanner in
  allocated ← parse_unsigned t1;
  let '(t2, scanner) := next scanner in
  _ ← parse_unsigned t2;
  let '(t3, scanner) := next scanner in
  maximum ← parse_unsigned t3;
  _ ← reject (negb (empty (fst (next scanner)))) errc_malformed_data;
  Value (File_table_status allocated maximum).

(** [for (index = 0; index < n; ++index) if (scanner.next().empty()) return fail;] *)
Fixpoint skip_fields (n : nat) (scanner : token_scanner) : result token_scanner :=
  match n with
  | O => Value scanner
  | S n =>
      let '(t, scanner) := next scanner in
      if empty t then fail errc_malformed_data else skip_fields n scanner
  end.

Definition thread_field_index : nat := 17.

Definition parse_thread_count (input : text) : result Z :=
  let input := strip_line_break input in
  match find "(" input 0, rfind ")" input with
  | Some name_begin, Some name_end =>
      if (name_end <? name_begin)%nat then fail errc_malformed_data
      else
        scanner ← skip_fields thread_field_index (Token_scanner (substr_from (name_end + 1) input) 0);
        threads ← parse_unsigned (fst (next scanner));
        _ ← reject (threads =? 0) errc_malformed_data;
        Value threads
  | _, _ => fail errc_malformed_data
  end.

Definition numeric_entry (name : text) : bool :=
  match name with
  | [] => false
  | _ => forallb (fun c => (48 <=? code c) && (code c <=? 57)) name
  end.

(** ** linux.hpp: the queries *)

Section resource.
Context {W : Type} `{Kernel W}.

(** The loop of [walk_processes] over the names [readdir] delivers.  The
    visitor has a state of its own, the variables it captures. *)
Fixpoint walk_loop {S} (visit : text -> S -> query W S) (names : list text) (visited : Z) (s : S) : query W (Z * S) :=
  match names with
  | [] => mret (visited, s)
  | name :: names =>
      if negb (numeric_entry name) then walk_loop visit names visited s
      else if visited =? uint64_max then pure (fail errc_value_too_large)
      else
        s ← visit name s;
        walk_loop visit names (visited + 1) s
  end.

Definition walk_processes {S} (visit : text -> S -> query W S) (s : S) : query W (Z * S) := fun w =>
  match list_directory (lit "/proc") w with
  | (inl errno, w) => (fail_native errno, w)
  | (inr (names, errno), w) =>
      (v ← walk_loop visit names 0 s; if negb (errno =? 0) then pure (fail_native errno) else mret v) w
  end.

Definition read_loadavg : query W load_status :=
  content ← read_text_file (lit "/proc/loadavg") default_maximum_size;
  pure (parse_loadavg content).

Definition load_average_backend : query W load_samples :=
  status ← read_loadavg;
  mret (loads status).

Definition scheduler_entities_backend : query W entity_counts :=
  status ← read_loadavg;
  mret (entities status).

Definition process_count_backend : query W Z :=
  '(visited, _) ← walk_processes (fun _ s => mret s) ();
  mret visited.

(** What [thread_count] captures. *)
Record thread_total := Thread_total {
  total_threads : Z;
  overflowed : bool
}.

Definition add_threads (t : thread_total) (threads : Z) : thread_total :=
  if wrap 64 (uint64_max - threads) <? total_threads t then Thread_total (total_threads t) true
  else Thread_total (wrap 64 (total_threads t + threads)) (overflowed t).

Definition stat_path (name : text) : text := lit "/proc/" ++ name ++ lit "/stat".

(** What the visitor does with the outcome of reading [/proc/<pid>/stat]. *)
Definition add_process (content : result text) (t : thread_total) : result thread_total :=
  match content with
  | Failure e => if bool_decide (e = native_error ENOENT) then Value t else Failure e
  | Value content =>
      if empty content then Value t
      else threads ← parse_thread_count content; Value (add_threads t threads)
  end.

Definition visit_threads (name : text) (t : thread_total) : query W thread_total :=
  content ← attempt (read_text_file (stat_path name) default_maximum_size);
  pure (add_process content t).

Definition thread_count_backend : query W Z :=
  '(_, t) ← walk_processes visit_threads (Thread_total 0 false);
  pure (if overflowed t then fail errc_value_too_large else Value (total_threads t)).

Definition read_file_table_status : query W file_table_status :=
  content ← read_text_file (lit "/proc/sys/fs/file-nr") default_maximum_size;
  pure (parse_file_nr content).

Definition open_file_count : query W Z :=
  status ← read_file_table_status;
  mret (allocated status).

Definition open_handle_count : query W Z := pure (fail errc_not_supported).

Definition file_descriptor_limit_backend : query W Z :=
  status ← read_file_table_status;
  mret (maximum status).

(** ** resource.hpp *)

Record load_snapshot := Load_snapshot {
  load_one_minute : double;
  load_five_minute : double;
  load_fifteen_minute : double
}.

Record scheduling_snapshot := Scheduling_snapshot {
  runnable_entities : Z;
  total_entities : Z
}.

Definition load_average : query W load_snapshot :=
  samples ← attempt load_average_backend;
  pure (s ← validate_load_samples samples; Value (Load_snapshot (one_minute s) (five_minute s) (fifteen_minute s))).

Definition scheduler_entities : query W scheduling_snapshot :=
  counts ← attempt scheduler_entities_backend;
  pure (s ← validate_entity_counts counts; Value (Scheduling_snapshot (runnable s) (schedulable s))).

Definition process_count : query W Z :=
  n ← attempt process_count_backend;
  pure (validate_positive_count n).

Definition thread_count : query W Z :=
  n ← attempt thread_count_backend;
  pure (validate_positive_count n).

Definition file_descriptor_limit : query W Z :=
  n ← attempt file_descriptor_limit_backend;
  pure (validate_positive_count n).

End resource.

(** ** The scanner yields the words of its input *)

Definition remaining (s : token_scanner) : list text := tokens separator (drop (position_ s) (input_ s)).

Definition in_bounds (s : token_scanner) : Prop := (position_ s <= length (input_ s))%nat.

Lemma next_remaining s :
  in_bounds s ->
  fst (next s) = hd [] (remaining s) /\ remaining (snd (next s)) = tl (remaining s) /\ in_bounds (snd (next s)) /\
  (remaining s <> [] -> fst (next s) <> []).
Proof.
  intros Hs. destruct (scan_tokens separator (input_ s) (position_ s) Hs) as (Hle & Ht & Hnil).
  unfold next, remaining, in_bounds in *. cbn [fst snd input_ position_]. rewrite <- Ht in *. clear Ht.
  set (start := scan separator (input_ s) (position_ s)) in *.
  destruct (drop start (input_ s)) as [|c l] eqn:D.
  - apply drop_nil_iff in D. assert (start = length (input_ s)) as Hst by lia. unfold scan at 1 2 3, substr.
    rewrite (drop_ge (input_ s) start) by lia. cbn [prefix_length]. rewrite Nat.add_0_r, Nat.sub_diag. cbn [take tokens hd tl].
    rewrite drop_ge by lia. split_and!; [done|done|lia|done].
  - assert (separator c = false) as Hc.
    { apply (drop_prefix_head separator (drop (position_ s) (input_ s)) c l). rewrite drop_drop. apply D. }
    rewrite (tokens_cons separator c l Hc). set (k := prefix_length (fun c => negb (separator c)) (c :: l)) in *.
    assert (scan (fun c => negb (separator c)) (input_ s) start = start + k)%nat as -> by (unfold scan; by rewrite D).
    assert (0 < k)%nat by (subst k; simpl; rewrite Hc; simpl; lia).
    assert (k <= length (c :: l))%nat as Hk by apply prefix_length_le.
    assert (length (c :: l) = length (input_ s) - start)%nat as Hl by (by rewrite <- D, length_drop).
    unfold substr. rewrite D. replace (start + k - start)%nat with k by lia. cbn [hd tl]. rewrite <- drop_drop, D.
    split_and!; [done|done|lia|]. intros _. destruct k; [lia|done].
Qed.

Lemma scanner_start input : in_bounds (Token_scanner input 0) /\ remaining (Token_scanner input 0) = tokens separator input.
Proof. split; [unfold in_bounds; simpl; lia|]. unfold remaining. cbn [position_ input_]. by rewrite drop_0. Qed.

(** Takes one step of a scanner whose remaining words are known. *)
Ltac scanner_step s Hs :=
  let Hf := fresh "Hf" in let Hr := fresh "Hr" in let Hb := fresh "Hb" in let t := fresh "t" in let s' := fresh "s" in
  pose proof (next_remaining s Hs) as (Hf & Hr & Hb & _);
  destruct (next s) as [t s']; cbn [fst snd] in Hf, Hr, Hb.

Lemma parse_unsigned_value token n :
  parse_unsigned token = Value n <-> numeric 10 token = true /\ numeral 10 token = n /\ n <= uint64_max.
Proof.
  unfold parse_unsigned. destruct (empty token) eqn:E.
  { apply empty_true in E as ->. split; [done|by intros (? & _)]. }
  destruct (consumed (from_chars_unsigned uint64_max 10 token) token) eqn:C.
  - rewrite (consumed_value _ _ _ C). apply consumed_unsigned in C as [Hn Hv]. rewrite out_of_range_numeric by done.
    rewrite (proj2 (Z.leb_le _ _)) by done. cbn. split; [intros [= <-]|intros (_ & <- & _)]; done.
  - split; [by destruct (out_of_range _)|]. intros (Hn & <- & Hb). exfalso.
    rewrite (proj2 (consumed_unsigned uint64_max 10 token)) in C by done. done.
Qed.

(** ** /proc/loadavg *)

(** A sample: digits, a point, digits, at most nine on either side. *)
Definition sample_denotes (t : text) (d : double) : Prop :=
  exists whole fraction, t = whole ++ "."%char :: fraction /\ numeric 10 whole = true /\ numeric 10 fraction = true /\
    (length whole <= 9)%nat /\ (length fraction <= 9)%nat /\
    d = double_add (to_double (numeral 10 whole))
          (double_div (to_double (numeral 10 fraction)) (to_double (10 ^ Z.of_nat (length fraction)))).

Definition entities_denote (t : text) (c : entity_counts) : Prop :=
  exists r s, t = r ++ "/"%char :: s /\ numeric 10 r = true /\ numeric 10 s = true /\
    numeral 10 r <= uint64_max /\ numeral 10 s <= uint64_max /\ c = Entity_counts (numeral 10 r) (numeral 10 s).

(** The powers of ten up to the ninth are exact. *)
Lemma divisor_exact n : (n <= 9)%nat -> divisor_loop n (to_double 1) = to_double (10 ^ Z.of_nat n).
Proof. intros Hn. do 10 (destruct n as [|n]; [vm_compute; reflexivity|]). lia. Qed.

Lemma numeric_length_pos t : numeric 10 t = true -> (0 < length t)%nat.
Proof. intros [Hne _]%numeric_split. destruct t; [done|simpl; lia]. Qed.

Lemma numeral_nine t : numeric 10 t = true -> (length t <= 9)%nat -> numeral 10 t <= uint64_max.
Proof.
  intros [_ Hd]%numeric_split Hl. apply digit_run_numeric in Hd. pose proof (numeral_lt 10 t ltac:(lia)) as Hlt. rewrite Hd in Hlt.
  assert (10 ^ Z.of_nat (length t) <= 10 ^ 9) by (apply Z.pow_le_mono_r; lia). unfold uint64_max. lia.
Qed.

Lemma parse_load_sample_value t d : parse_load_sample t = Value d <-> sample_denotes t d.
Proof.
  unfold parse_load_sample, sample_denotes. split.
  - destruct (find "." t 0) as [i|] eqn:E; [|done]. apply find_split in E as (Ht & Hn & Hl). rewrite Nat.add_1_r.
    destruct (_ || _ || _); [done|]. set (whole := substr 0 i t) in *. set (fraction := substr_from (S i) t) in *.
    destruct (Nat.ltb_spec 9 (length whole)); [done|]. destruct (Nat.ltb_spec 9 (length fraction)); [done|]. cbn [orb].
    intros (w & (Hw & <- & _)%parse_unsigned_value & (f & (Hf & <- & _)%parse_unsigned_value & [= <-])%bind_value)%bind_value.
    exists whole, fraction. rewrite divisor_exact by done. done.
  - intros (w & f & -> & Hw & Hf & Hlw & Hlf & ->).
    assert (("."%char ∉ w) /\ ("."%char ∉ f)) as [Hnw Hnf] by (split; apply numeric_no_char; done || by vm_compute; intros []).
    destruct (find_app_parts "." w f Hnw) as (-> & Hs & Hd). rewrite Nat.add_1_r, Hs, Hd, length_app. cbn [length].
    pose proof (numeric_length_pos w Hw). pose proof (numeric_length_pos f Hf).
    rewrite (proj2 (Nat.eqb_neq _ 0)), (proj2 (Nat.leb_gt _ _)) by lia. cbn [orb].
    rewrite (find_after "." w f "." Hnf), bool_decide_false by (intros Hc; by apply Hc).
    rewrite !(proj2 (Nat.ltb_ge 9 _)) by done. cbn [orb].
    rewrite (proj2 (parse_unsigned_value w _) (conj Hw (conj eq_refl (numeral_nine w Hw Hlw)))).
    rewrite (proj2 (parse_unsigned_value f _) (conj Hf (conj eq_refl (numeral_nine f Hf Hlf)))). cbn [mbind result_bind].
    by rewrite divisor_exact by done.
Qed.

Lemma parse_entities_value t c : parse_entities t = Value c <-> entities_denote t c.
Proof.
  unfold parse_entities, entities_denote. split.
  - destruct (find "/" t 0) as [i|] eqn:E; [|done]. apply find_split in E as (Ht & Hn & Hl). rewrite Nat.add_1_r.
    destruct (_ || _); [done|].
    intros (r & (Hr & <- & Hbr)%parse_unsigned_value & (s & (Hs & <- & Hbs)%parse_unsigned_value & [= <-])%bind_value)%bind_value.
    by exists (substr 0 i t), (substr_from (S i) t).
  - intros (r & s & -> & Hr & Hs & Hbr & Hbs & ->).
    assert ("/"%char ∉ r) as Hnr by (apply numeric_no_char; [done|by vm_compute; intros []]).
    destruct (find_app_parts "/" r s Hnr) as (-> & Hp & Hd). rewrite Nat.add_1_r, Hp, Hd, length_app. cbn [length].
    pose proof (numeric_length_pos r Hr). pose proof (numeric_length_pos s Hs).
    rewrite (proj2 (Nat.eqb_neq _ 0)), (proj2 (Nat.leb_gt _ _)) by lia. cbn [orb].
    rewrite (proj2 (parse_unsigned_value r _) (conj Hr (conj eq_refl Hbr))).
    by rewrite (proj2 (parse_unsigned_value s _) (conj Hs (conj eq_refl Hbs))).
Qed.

Definition loadavg_denotes (input : text) (st : load_status) : Prop :=
  exists t1 t2 t3 t4 t5, tokens separator (strip_line_break input) = [t1; t2; t3; t4; t5] /\
    sample_denotes t1 (one_minute (loads st)) /\ sample_denotes t2 (five_minute (loads st)) /\
    sample_denotes t3 (fifteen_minute (loads st)) /\ entities_denote t4 (entities st) /\
    numeric 10 t5 = true /\ numeral 10 t5 <= uint64_max.

(** The parsers on the words of their input. *)
Definition loadavg_of_words (ts : list text) : result load_status :=
  let t i := nth i ts [] in
  one ← parse_load_sample (t 0%nat);
  five ← parse_load_sample (t 1%nat);
  fifteen ← parse_load_sample (t 2%nat);
  counts ← parse_entities (t 3%nat);
  _ ← parse_unsigned (t 4%nat);
  _ ← reject (negb (empty (t 5%nat))) errc_malformed_data;
  Value (Load_status (Load_samples one five fifteen) counts).

Definition file_nr_of_words (ts : list text) : result file_table_status :=
  let t i := nth i ts [] in
  allocated ← parse_unsigned (t 0%nat);
  _ ← parse_unsigned (t 1%nat);
  maximum ← parse_unsigned (t 2%nat);
  _ ← reject (negb (empty (t 3%nat))) errc_malformed_data;
  Value (File_table_status allocated maximum).

Lemma nth_tl {A} (l : list A) i d : nth i (tl l) d = nth (S i) l d.
Proof. destruct l; [by destruct i|done]. Qed.

Lemma hd_nth {A} (l : list A) d : hd d l = nth 0 l d.
Proof. by destruct l. Qed.

Lemma parse_loadavg_words input : parse_loadavg input = loadavg_of_words (tokens separator (strip_line_break input)).
Proof.
  unfold parse_loadavg, loadavg_of_words. destruct (scanner_start (strip_line_break input)) as [Hs <-].
  revert Hs. generalize (Token_scanner (strip_line_break input) 0). intros s0 Hs.
  scanner_step s0 Hs. scanner_step s Hb. scanner_step s1 Hb0. scanner_step s2 Hb1. scanner_step s3 Hb2.
  pose proof (next_remaining s4 Hb3) as (Hl & _).
  rewrite Hr3, Hr2, Hr1, Hr0, Hr in Hl. rewrite Hr2, Hr1, Hr0, Hr in Hf3. rewrite Hr1, Hr0, Hr in Hf2. rewrite Hr0, Hr in Hf1.
  rewrite Hr in Hf0. rewrite Hl. rewrite ?hd_nth, ?nth_tl in *. by subst.
Qed.

Lemma parse_file_nr_words input : parse_file_nr input = file_nr_of_words (tokens separator (strip_line_break input)).
Proof.
  unfold parse_file_nr, file_nr_of_words. destruct (scanner_start (strip_line_break input)) as [Hs <-].
  revert Hs. generalize (Token_scanner (strip_line_break input) 0). intros s0 Hs.
  scanner_step s0 Hs. scanner_step s Hb. scanner_step s1 Hb0. pose proof (next_remaining s2 Hb1) as (Hl & _).
  rewrite Hr1, Hr0, Hr in Hl. rewrite Hr0, Hr in Hf1. rewrite Hr in Hf0. rewrite Hl.
  rewrite ?hd_nth, ?nth_tl in *. by subst.
Qed.

Lemma sample_denotes_nil d : ~ sample_denotes [] d.
Proof. intros (w & f & Ht & _). by destruct w. Qed.

Lemma entities_denote_nil c : ~ entities_denote [] c.
Proof. intros (r & s & Ht & _). by destruct r. Qed.

Lemma words_ne sep input t : t ∈ tokens sep input -> t <> [].
Proof.
  assert (forall n l, (length l <= n)%nat -> Forall (fun t => t <> []) (tokens sep l)) as Hw.
  { induction n as [|n IH]; intros l Hl; [destruct l; [constructor|simpl in Hl; lia]|].
    destruct l as [|c l]; [constructor|]. destruct (sep c) eqn:E.
    - rewrite tokens_skip by done. apply IH. simpl in Hl. lia.
    - rewrite tokens_cons by done. constructor; [simpl; by rewrite E|]. apply IH.
      rewrite length_drop. simpl in *. rewrite E. simpl. lia. }
  intros Hin. specialize (Hw _ input (le_n _)). rewrite Forall_forall in Hw. by apply Hw.
Qed.

(** [parse_loadavg] accepts exactly the documented format: five words, of
    which three are samples of at most nine digits on either side of a point,
    whose values are the quotients in binary64 of the fractions added to the
    whole parts, one is a pair of counts and one a process identifier, with
    nothing but blanks and a line break behind them. *)
Theorem parse_loadavg_value (input : text) (st : load_status) : parse_loadavg input = Value st <-> loadavg_denotes input st.
Proof.
  rewrite parse_loadavg_words. unfold loadavg_of_words, loadavg_denotes. cbv zeta. split.
  - intros Hv. inv_result. cbn [loads entities one_minute five_minute fifteen_minute].
    repeat match goal with Hp : parse_load_sample _ = _ |- _ => apply parse_load_sample_value in Hp end.
    match goal with Hp : parse_entities _ = _ |- _ => apply parse_entities_value in Hp end.
    match goal with Hp : parse_unsigned _ = _ |- _ => apply parse_unsigned_value in Hp as (Hn & <- & Hb) end.
    match goal with Hp : negb _ = false |- _ => apply negb_false_iff, empty_true in Hp as He end.
    pose proof (words_ne separator (strip_line_break input)) as Hne. set (ts := tokens _ _) in *.
    destruct ts as [|t1 [|t2 [|t3 [|t4 [|t5 [|t6 ts]]]]]]; try done;
      try solve [exfalso; cbn [nth] in *; by eapply sample_denotes_nil || eapply entities_denote_nil].
    + by exists t1, t2, t3, t4, t5.
    + exfalso. apply (Hne t6); [|done]. set_solver.
  - intros (t1 & t2 & t3 & t4 & t5 & -> & H1%parse_load_sample_value & H2%parse_load_sample_value & H3%parse_load_sample_value
      & H4%parse_entities_value & Hn & Hb). cbn [nth]. rewrite H1, H2, H3, H4.
    rewrite (proj2 (parse_unsigned_value t5 _) (conj Hn (conj eq_refl Hb))). cbn. by destruct st as [[] ?].
Qed.

Definition file_nr_denotes (input : text) (st : file_table_status) : Prop :=
  exists t1 t2 t3, tokens separator (strip_line_break input) = [t1; t2; t3] /\
    Forall (fun t => numeric 10 t = true /\ numeral 10 t <= uint64_max) [t1; t2; t3] /\
    st = File_table_status (numeral 10 t1) (numeral 10 t3).

Lemma parse_file_nr_value input st : parse_file_nr input = Value st <-> file_nr_denotes input st.
Proof.
  rewrite parse_file_nr_words. unfold file_nr_of_words, file_nr_denotes. cbv zeta. split.
  - intros Hv. inv_result.
    repeat match goal with Hp : parse_unsigned _ = _ |- _ => apply parse_unsigned_value in Hp as (? & <- & ?) end.
    match goal with Hp : negb _ = false |- _ => apply negb_false_iff, empty_true in Hp as He end.
    pose proof (words_ne separator (strip_line_break input)) as Hne. set (ts := tokens _ _) in *.
    destruct ts as [|t1 [|t2 [|t3 [|t4 ts]]]]; try done.
    + exists t1, t2, t3. split; [done|]. by repeat constructor.
    + exfalso. apply (Hne t4); [|done]. set_solver.
  - intros (t1 & t2 & t3 & -> & Hall & ->). repeat (apply Forall_cons in Hall as [[? ?] Hall]). cbn [nth].
    rewrite (proj2 (parse_unsigned_value t1 _)) by done. rewrite (proj2 (parse_unsigned_value t2 _)) by done.
    by rewrite (proj2 (parse_unsigned_value t3 _)) by done.
Qed.

(** ** The thread count of a process *)

Lemma skip_fields_remaining n s s' :
  in_bounds s -> skip_fields n s = Value s' -> (n <= length (remaining s))%nat /\ remaining s' = drop n (remaining s) /\ in_bounds s'.
Proof.
  revert s. induction n as [|n IH]; intros s Hs; cbn [skip_fields].
  { intros [= <-]. split; [lia|]. by rewrite drop_0. }
  scanner_step s Hs. destruct (empty t) eqn:Et; [done|]. intros Hk. destruct (IH _ Hb Hk) as (Hn & Hd & Hb').
  rewrite Hr in Hn, Hd. destruct (remaining s) as [|u us]; [by subst t|]. cbn [tl length drop] in *. split; [lia|done].
Qed.

Lemma skip_fields_enough n s :
  in_bounds s -> (n <= length (remaining s))%nat -> exists s', skip_fields n s = Value s'.
Proof.
  revert s. induction n as [|n IH]; intros s Hs Hn; cbn [skip_fields]; [by eexists|].
  pose proof (next_remaining s Hs) as (Hf & Hr & Hb & Hne). destruct (next s) as [t s1]. cbn [fst snd] in *.
  destruct (remaining s) as [|u us]; [simpl in Hn; lia|]. rewrite (proj2 (empty_false t)) by (by apply Hne).
  apply IH; [done|]. rewrite Hr. cbn [tl length] in *. lia.
Qed.

Lemma parse_thread_count_value input n :
  parse_thread_count input = Value n -> 0 < n <= uint64_max.
Proof.
  unfold parse_thread_count. destruct (find _ _ _); [|done]. destruct (rfind _ _); [|done]. destruct (_ <? _)%nat; [done|].
  intros (s & _ & (t & (Hn & <- & Hb)%parse_unsigned_value & ([] & Hz%reject_value & [= <-])%bind_value)%bind_value)%bind_value.
  pose proof (numeral_nonneg 10 (fst (next s)) ltac:(lia)) as H0. apply Z.eqb_neq in Hz.
  change (0 < numeral 10 (fst (next s)) <= uint64_max). lia.
Qed.

Lemma strip_stat_text pid comm fields :
  Forall stat_token fields -> fields <> [] -> strip_line_break (stat_text pid comm fields) = stat_text pid comm fields.
Proof.
  intros Hf Hne. unfold strip_line_break. apply drop_back_id. intros c Hc.
  destruct fields as [|t fields _] using rev_ind; [done|]. apply Forall_app in Hf as [_ [[Hn Ht] _]%Forall_cons].
  destruct t as [|d t _] using rev_ind; [done|]. apply Forall_app in Ht as [_ [[Hd _] _]%Forall_cons].
  unfold stat_text in Hc. rewrite fmap_app, concat_app in Hc. csimpl in Hc.
  rewrite app_nil_r, !app_comm_cons, !app_assoc, last_snoc in Hc. injection Hc as <-.
  unfold stat_separator in Hd. repeat (apply orb_false_iff in Hd as [Hd ?]). 
  by repeat match goal with He : is_char _ _ = false |- _ => rewrite He; clear He end.
Qed.

(** The field is the one the statistics of the process come from. *)
Lemma thread_counts_agree (pid comm : text) (fields : list text) (s : runtime_statistics) :
  Forall stat_token fields -> (required_fields <= length fields)%nat ->
  parse_stat (stat_text pid comm fields) = Value s ->
  parse_thread_count (stat_text pid comm fields) = Value (threads s).
Proof.
  intros Hf Hlen. rewrite parse_stat_fields by done. intros Hs. unfold statistics_of_fields in Hs. cbv zeta in Hs. inv_result.
  cbn [threads]. change (parse_stat_field) with parse_unsigned in *.
  unfold required_fields in *. destruct (lookup_lt_is_Some_2 fields 17%nat ltac:(lia)) as [t Ht].
  rewrite (nth_lookup_Some (take 22 fields) 17 [] t) in * by (by rewrite lookup_take_lt by lia).
  unfold parse_thread_count. rewrite strip_stat_text by (done || by intros ->).
  destruct (stat_text_parts pid comm fields Hf) as (i & j & -> & -> & Hij & Hsub).
  rewrite Nat.add_1_r, Hsub, (proj2 (Nat.ltb_ge _ _)) by done.
  destruct (scanner_start (concat (cons " "%char <$> fields))) as [Hb Hrem]. rewrite tokens_concat in Hrem; [|done|].
  2: { eapply Forall_impl; [exact Hf|]. intros t' [Hne Hc]. split; [done|]. eapply Forall_impl; [exact Hc|]. intros c [Hsep _].
       unfold stat_separator in Hsep. repeat (apply orb_false_iff in Hsep as [Hsep ?]). unfold separator.
       by repeat match goal with He : is_char _ _ = false |- _ => rewrite He; clear He end. }
  destruct (skip_fields_enough thread_field_index _ Hb) as [s' Hs']; [rewrite Hrem; unfold thread_field_index; lia|].
  destruct (skip_fields_remaining _ _ _ Hb Hs') as (_ & Hdrop & Hb'). rewrite Hrem in Hdrop.
  destruct (next_remaining s' Hb') as (Hfst & _). rewrite Hdrop in Hfst.
  unfold thread_field_index in *. rewrite (drop_S _ _ _ Ht) in Hfst. cbn [hd] in Hfst.
  rewrite Hs'. cbn [mbind result_bind]. rewrite Hfst.
  match goal with Hv : parse_unsigned t = _, Hz : (_ =? 0) = false, Hm : (uint32_max <? _) = false |- _ =>
    rewrite Hv; cbn [mbind result_bind]; rewrite Hz; apply parse_unsigned_value in Hv as (_ & <- & _); apply Z.ltb_ge in Hm end.
  pose proof (numeral_nonneg 10 t ltac:(lia)). unfold wrap. rewrite Z.mod_small by (unfold uint32_max in *; lia). done.
Qed.

(** ** Adding the threads *)

Definition sum (ts : list Z) : Z := foldr Z.add 0 ts.

Definition total_ok (t : thread_total) : Prop := 0 <= total_threads t <= uint64_max.

Lemma add_threads_spec t n :
  total_ok t -> 0 <= n <= uint64_max ->
  add_threads t n =
  if uint64_max <? total_threads t + n then Thread_total (total_threads t) true
  else Thread_total (total_threads t + n) (overflowed t).
Proof.
  unfold total_ok, add_threads, wrap. intros Ht Hn. rewrite (Z.mod_small (uint64_max - n)) by (unfold uint64_max in *; lia).
  destruct (Z.ltb_spec uint64_max (total_threads t + n)).
  - by rewrite (proj2 (Z.ltb_lt _ _)) by lia.
  - rewrite (proj2 (Z.ltb_ge _ _)), Z.mod_small by (unfold uint64_max in *; lia). done.
Qed.

Lemma add_threads_ok t n : total_ok t -> 0 <= n <= uint64_max -> total_ok (add_threads t n).
Proof.
  intros Ht Hn. rewrite add_threads_spec by done. unfold total_ok in *.
  destruct (Z.ltb_spec uint64_max (total_threads t + n)); cbn [total_threads]; lia.
Qed.

Lemma sum_nonneg ts : Forall (fun n => 0 <= n <= uint64_max) ts -> 0 <= sum ts.
Proof. induction 1 as [|n ts Hn _ IH]; [done|]. cbn [sum foldr] in *. unfold sum in IH. lia. Qed.

(** The flag is raised exactly when the sum does not fit, and stays raised. *)
Lemma add_threads_fold ts t :
  Forall (fun n => 0 <= n <= uint64_max) ts -> total_ok t ->
  let t' := foldl add_threads t ts in
  total_ok t' /\ overflowed t' = overflowed t || (uint64_max <? total_threads t + sum ts) /\
  (overflowed t' = false -> total_threads t' = total_threads t + sum ts).
Proof.
  intros Hts. revert t. induction Hts as [|n ts Hn Hts IH]; intros t Ht; cbn [foldl].
  { cbn [sum foldr]. rewrite Z.add_0_r. split; [done|]. split; [|done].
    rewrite (proj2 (Z.ltb_ge _ _)) by apply Ht. by rewrite orb_false_r. }
  destruct (IH _ (add_threads_ok t n Ht Hn)) as (Hok & Ho & Hv). split; [done|].
  pose proof (sum_nonneg ts Hts) as Hpos. change (sum (n :: ts)) with (n + sum ts).
  rewrite Ho in Hv |- *. rewrite add_threads_spec in * by done.
  destruct (Z.ltb_spec uint64_max (total_threads t + n)) as [Hlt|Hge]; cbn [total_threads overflowed] in *.
  - rewrite (proj2 (Z.ltb_lt uint64_max (total_threads t + (n + sum ts)))) by lia. rewrite orb_true_r. done.
  - rewrite <- Z.add_assoc in *. split; [done|]. intros Hf. by apply Hv.
Qed.

(** ** The walk over a system that stands still *)

(** The outcome of each name in turn, up to the first failure. *)
Fixpoint gather {A} (f : text -> result A) (names : list text) : result (list A) :=
  match names with
  | [] => Value []
  | name :: names => v ← f name; vs ← gather f names; Value (v :: vs)
  end.

Section still.
Context {W : Type} `{Kernel W} (w : W).
Context (open_quiet : forall path, snd (open_file path w) = w) (list_quiet : forall path, snd (list_directory path w) = w).

(** The threads of a process; none when it is gone, or leaves an empty file. *)
Definition process_threads (name : text) : result Z :=
  match fst (read_text_file (stat_path name) default_maximum_size w) with
  | Failure e => if bool_decide (e = native_error ENOENT) then Value 0 else Failure e
  | Value content => if empty content then Value 0 else parse_thread_count content
  end.

Lemma process_threads_bound name n : process_threads name = Value n -> 0 <= n <= uint64_max.
Proof.
  unfold process_threads. destruct (fst _) as [content|e]; case_match; try done.
  - by intros [= <-].
  - intros ?%parse_thread_count_value. lia.
  - by intros [= <-].
Qed.

Lemma visit_threads_spec name t :
  total_ok t -> visit_threads name t w = (n ← process_threads name; Value (add_threads t n), w).
Proof.
  intros Ht. assert (add_threads t 0 = t) as H0.
  { rewrite add_threads_spec by done. rewrite Z.add_0_r, (proj2 (Z.ltb_ge _ _)) by apply Ht. by destruct t. }
  unfold visit_threads, process_threads, attempt, mbind, query_bind, pure.
  assert (snd (read_text_file (stat_path name) default_maximum_size w) = w) as Hq.
  { unfold read_text_file. pose proof (open_quiet (stat_path name)). by destruct (open_file _ w) as [[?|?] ?]. }
  destruct (read_text_file _ _ w) as [[content|e] w1]; cbn [fst snd] in *; subst w1; cbn [add_process].
  - destruct (empty content); [|done]. cbn. by rewrite H0.
  - case_bool_decide; [|done]. cbn. by rewrite H0.
Qed.

Lemma walk_threads names visited t :
  0 <= visited -> visited + Z.of_nat (length names) <= uint64_max -> total_ok t ->
  walk_loop visit_threads names visited t w =
  (ns ← gather process_threads (List.filter numeric_entry names);
   Value (visited + Z.of_nat (length ns), foldl add_threads t ns), w).
Proof.
  revert visited t. induction names as [|name names IH]; intros visited t Hv Hl Ht; cbn [walk_loop List.filter].
  { cbn. by rewrite Z.add_0_r. }
  cbn [length] in Hl. destruct (numeric_entry name); cbn [negb]; [|by rewrite IH by (done || lia)].
  rewrite (proj2 (Z.eqb_neq visited uint64_max)) by lia. unfold mbind at 1, query_bind. rewrite visit_threads_spec by done.
  cbn [gather]. destruct (process_threads name) as [n|e] eqn:En; [|done]. cbn [mbind result_bind].
  apply process_threads_bound in En. rewrite IH; [|lia|lia|by apply add_threads_ok].
  destruct (gather process_threads _) as [ns|e]; [|done]. cbn [mbind result_bind foldl length].
  do 2 f_equal. f_equal. lia.
Qed.

Lemma gather_bound names ns : gather process_threads names = Value ns -> Forall (fun n => 0 <= n <= uint64_max) ns.
Proof.
  revert ns. induction names as [|name names IH]; intros ns; cbn [gather]; [by intros [= <-]|].
  intros (n & Hn%process_threads_bound & (ns' & Hns & [= <-])%bind_value)%bind_value. constructor; [done|by apply IH].
Qed.

Lemma walk_count names visited :
  0 <= visited -> visited + Z.of_nat (length names) <= uint64_max ->
  walk_loop (fun _ s => mret s) names visited () w =
  (Value (visited + Z.of_nat (length (List.filter numeric_entry names)), ()), w).
Proof.
  revert visited. induction names as [|name names IH]; intros visited Hv Hl; cbn [walk_loop List.filter].
  { cbn. by rewrite Z.add_0_r. }
  cbn [length] in Hl. destruct (numeric_entry name); cbn [negb]; [|by rewrite IH by lia].
  rewrite (proj2 (Z.eqb_neq visited uint64_max)) by lia. unfold mbind, query_bind. cbn. rewrite IH by lia.
  do 3 f_equal. lia.
Qed.

(** C28: the processes and the threads of the system are counted exactly: on a
    system that stands still the number of processes is that of the numeric
    names in [/proc], and the number of threads the sum of the thread counts of
    those that still exist - [value_too_large] exactly when that sum needs more
    than 64 bits, the error of the first process whose file cannot be read or
    parsed otherwise, and [malformed_data] when there is nothing to count. *)
Theorem process_and_thread_counts (names : list text) (errno : Z) :
  fst (list_directory (lit "/proc") w) = inr (names, errno) -> Z.of_nat (length names) <= uint64_max ->
  let numeric := List.filter numeric_entry names in
  let checked (n : Z) : result Z :=
    if negb (errno =? 0) then fail_native errno
    else if uint64_max <? n then fail errc_value_too_large
    else if n =? 0 then fail errc_malformed_data else Value n in
  fst (process_count w) = checked (Z.of_nat (length numeric)) /\
  fst (thread_count w) = (ns ← gather process_threads numeric; checked (sum ns)).
Proof.
  intros Hl Hlen. cbv zeta. pose proof (list_quiet (lit "/proc")) as Hq.
  unfold process_count, thread_count, process_count_backend, thread_count_backend, walk_processes.
  unfold mbind, query_bind, attempt. destruct (list_directory _ w) as [o w1]. cbn [fst snd] in Hl, Hq. subst o w1.
  rewrite walk_count, walk_threads by (by done || lia || split; done).
  assert (Z.of_nat (length (List.filter numeric_entry names)) <= uint64_max) as Hle.
  { pose proof (filter_length_le numeric_entry names). lia. }
  split.
  - unfold pure. destruct (errno =? 0); [|done]. cbn [negb]. rewrite (proj2 (Z.ltb_ge uint64_max _)) by done.
    cbn. rewrite Z.add_0_l. by destruct (_ =? 0).
  - destruct (gather process_threads _) as [ns|e] eqn:Eg; [|done]. cbn [mbind result_bind].
    assert (Forall (fun n => 0 <= n <= uint64_max) ns) as Hns by (by eapply gather_bound).
    destruct (add_threads_fold ns (Thread_total 0 false) Hns ltac:(done)) as (_ & Ho & Hv). cbn [overflowed total_threads orb] in Ho, Hv.
    rewrite Z.add_0_l in Ho, Hv. rewrite Ho in Hv.
    unfold pure, mret, query_ret. destruct (errno =? 0); [|done]. cbn [negb fst]. rewrite Ho. destruct (uint64_max <? sum ns); [done|].
    rewrite Hv by done. cbn. by destruct (sum ns =? 0).
Qed.

End still.

Definition resource_files : list (string * string) := [
  ("/proc/1/stat", "1 (init) S 0 1 1 0 -1 4194560 10 0 0 0 250 17 0 0 20 0 3 0 9000 1048576 512 1");
  ("/proc/7/stat", "7 (a) 1 (b) S 0 1 1 0 -1 4194560 10 0 0 0 250 17 0 0 20 0 40 0 9000 1048576 512 1");
  ("/proc/9/stat", ""); ("/proc/loadavg", "0.52 1.00 12.345 2/350 4021")]%string.

Definition resource_kernel : Kernel unit :=
  listing_kernel resource_files [("/proc", ["."; "1"; "7"; "8"; "9"; "self"])]%string.

Lemma process_and_thread_counts_witness :
  fst (@process_count unit resource_kernel tt) = Value 4 /\ fst (@thread_count unit resource_kernel tt) = Value 43.
Proof.
  refine (@process_and_thread_counts unit resource_kernel tt _ _ (lit <$> ["."; "1"; "7"; "8"; "9"; "self"]%string) 0 _ _).
  - intros path. reflexivity.
  - intros path. reflexivity.
  - vm_compute. reflexivity.
  - vm_compute. discriminate.
Defined.
