(* ===== verification/Sensor.v ===== *)
(** * Sensors: temperatures, fans and thermal zones

    The records of [include/syscape/sensor.hpp], the classification and the
    checks of [include/syscape/detail/sensor/common.hpp] and the Linux backend
    [include/syscape/detail/sensor/linux.hpp].  [stat] is the class
    [SensorKernel]. *)
From S2P Require Import Prelude Result CppText Utf8 System Float.

(** ** sensor.hpp *)

Inductive temperature_sensor_type :=
  | sensor_unknown | sensor_cpu | sensor_gpu | sensor_storage | sensor_motherboard | sensor_ambient
  | sensor_power_supply | sensor_other.

Inductive thermal_zone_type :=
  | zone_unknown | zone_cpu | zone_gpu | zone_acpi | zone_soc | zone_battery | zone_ambient | zone_other.

Record temperature_sensor := Temperature_sensor {
  temperature_label : text;
  temperature_type : temperature_sensor_type;
  temperature_current_celsius : double;
  max_celsius : option double;
  temperature_critical_celsius : option double;
  temperature_chip_name : option text;
  temperature_device_id : option text
}.

Record fan_sensor := Fan_sensor {
  fan_label : text;
  current_rpm : Z;
  min_rpm : option Z;
  max_rpm : option Z;
  target_rpm : option Z;
  fan_chip_name : option text;
  fan_device_id : option text
}.

Record thermal_zone := Thermal_zone {
  type_name : text;
  zone_type : thermal_zone_type;
  zone_current_celsius : double;
  passive_celsius : option double;
  zone_critical_celsius : option double;
  zone_id : option text;
  enabled : bool
}.

(** ** common.hpp *)

Definition millicelsius_to_celsius (millicelsius : Z) : double := double_div (to_double millicelsius) (to_double 1000).

Definition tenths_kelvin_to_celsius (tenths_kelvin : Z) : double :=
  double_sub (double_div (to_double tenths_kelvin) (to_double 10)) (double_div (to_double 27315) (to_double 100)).

(** The comparison of [needle] with what starts at the place [i]. *)
Fixpoint matches_at (input needle : text) : bool :=
  match needle, input with
  | [], _ => true
  | b :: needle, a :: input => (tolower a =? tolower b) && matches_at input needle
  | _ :: _, [] => false
  end.

Definition contains_ignore_case (input needle : text) : bool :=
  if empty needle then true
  else if (length input <? length needle)%nat then false
  else existsb (fun i => matches_at (drop i input) needle) (seq 0 (S (length input - length needle))).

(** One of several hints. *)
Definition hinted (input : text) (hints : list string) : bool :=
  existsb (fun hint => contains_ignore_case input (lit hint)) hints.

Definition classify_temperature_sensor (chip label : text) : temperature_sensor_type :=
  if hinted chip ["coretemp"; "k10temp"; "zenpower"; "via_cputemp"]%string ||
     hinted label ["cpu"; "core"; "tctl"; "tdie"; "pkg_temp"; "package id"]%string then sensor_cpu
  else if hinted chip ["amdgpu"; "nouveau"; "nvidia"; "radeon"; "i915"; "xe"]%string ||
     hinted label ["gpu"; "vram"; "edge"; "junction"]%string then sensor_gpu
  else if hinted chip ["nvme"; "drivetemp"]%string || hinted label ["drive"; "ssd"; "hdd"; "disk"]%string ||
     (hinted chip ["nvme"; "drivetemp"]%string && hinted label ["composite"; "sensor 1"; "sensor 2"]%string)
  then sensor_storage
  else if hinted chip ["bat"; "battery"; "adp"; "ucsi"; "charger"]%string || hinted label ["bat"; "power"]%string
  then sensor_power_supply
  else if hinted chip ["nct6"; "it87"; "w836"; "f718"]%string ||
     hinted label ["motherboard"; "mobo"; "system"; "chipset"; "pch"; "vrm"]%string then sensor_motherboard
  else if hinted chip ["ambient"]%string || hinted label ["ambient"; "intake"; "exhaust"; "air"]%string
  then sensor_ambient
  else sensor_other.

Definition classify_thermal_zone (type_name : text) : thermal_zone_type :=
  if hinted type_name ["pkg_temp"; "cpu"; "core"]%string then zone_cpu
  else if hinted type_name ["gpu"]%string then zone_gpu
  else if hinted type_name ["acpitz"]%string then zone_acpi
  else if hinted type_name ["soc"]%string then zone_soc
  else if hinted type_name ["bat"; "bms"; "pmic"; "charger"]%string then zone_battery
  else if hinted type_name ["skin"; "surface"; "ambient"; "chassis"]%string then zone_ambient
  else zone_other.

Definition optional_utf8 (v : option text) : bool := match v with Some t => is_valid_utf8 t | None => true end.

Definition validate_temperature_sensor (s : temperature_sensor) : result unit :=
  _ ← reject (negb (is_valid_utf8 (temperature_label s))) errc_invalid_encoding;
  _ ← reject (negb (optional_utf8 (temperature_chip_name s))) errc_invalid_encoding;
  reject (negb (optional_utf8 (temperature_device_id s))) errc_invalid_encoding.

Definition validate_fan_sensor (s : fan_sensor) : result unit :=
  _ ← reject (negb (is_valid_utf8 (fan_label s))) errc_invalid_encoding;
  _ ← reject (negb (optional_utf8 (fan_chip_name s))) errc_invalid_encoding;
  reject (negb (optional_utf8 (fan_device_id s))) errc_invalid_encoding.

Definition validate_thermal_zone (z : thermal_zone) : result unit :=
  _ ← reject (negb (is_valid_utf8 (type_name z))) errc_invalid_encoding;
  reject (negb (optional_utf8 (zone_id z))) errc_invalid_encoding.

(** ** linux.hpp: attributes *)

Definition blank (c : ascii) : bool := is_char c " " || is_char c ch_tab || is_char c ch_cr || is_char c ch_lf.

Definition trim_attribute (v : text) : text := trim blank v.

(** The common tail of the two parsers, on the outcome of [from_chars]. *)
Definition whole_value (v : text) (parsed : from_chars_result) : result Z :=
  if out_of_range parsed then fail errc_value_too_large
  else if negb (consumed parsed v) then fail errc_malformed_data
  else Value (fc_value parsed).

Definition parse_millicelsius (input : text) : result Z :=
  let v := trim_attribute input in
  if empty v then fail errc_malformed_data else whole_value v (from_chars_signed int64_min int64_max 10 v).

Definition parse_rpm (input : text) : result Z :=
  let v := trim_attribute input in
  if empty v then fail errc_malformed_data else whole_value v (from_chars_unsigned uint32_max 10 v).

Definition is_missing_attribute (e : error_code) : bool := bool_decide (e = native_error ENOENT).

(** [<prefix><digits>_input]: the digits.  At least one character stands
    between the prefix and the suffix. *)
Definition attribute_number (prefix name : text) : option text :=
  if starts_with prefix name && (length prefix + 6 <? length name)%nat &&
     same (drop (length name - 6) name) (lit "_input") then
    let num_part := substr (length prefix) (length name - (length prefix + 6)) name in
    if empty num_part then None
    else if forallb (fun c => (48 <=? code c) && (code c <=? 57)) num_part then Some num_part else None
  else None.

Definition in_directory (dir name : text) : text := dir ++ "/"%char :: name.

Class SensorKernel (W : Type) := {
  stat_errno : text -> W -> option Z * W
}.

Section sensors.
Context {W : Type} `{Kernel W} `{SensorKernel W}.

Definition read_optional_attribute_string (path : text) (maximum_size : Z) : query W (option text) :=
  content ← attempt (read_text_file path maximum_size);
  pure (match content with
        | Value content => Value (Some (trim_attribute content))
        | Failure e => if is_missing_attribute e then Value None else Failure e
        end).

(** The name of a chip, empty when neither file has one. *)
Definition read_chip_name (hwmon_dir : text) : query W text :=
  name ← read_optional_attribute_string (hwmon_dir ++ lit "/name") 1024;
  match name with
  | Some ((_ :: _) as name) => mret name
  | _ =>
      dev_name ← read_optional_attribute_string (hwmon_dir ++ lit "/device/name") 1024;
      mret (default [] dev_name)
  end.

(** An optional value beside an input. *)
Definition read_beside (parse : text -> result Z) (dir_path stem : text) (suffix : string) : query W (option Z) :=
  content ← read_optional_attribute_string (in_directory dir_path (stem ++ lit suffix)) 128;
  match content with
  | None => mret None
  | Some content => v ← pure (parse content); mret (Some v)
  end.

(** The label of an input: its file, or the chip and the name of the input. *)
Definition read_label (dir_path stem chip_name : text) : query W text :=
  label ← read_optional_attribute_string (in_directory dir_path (stem ++ lit "_label")) 1024;
  match label with
  | Some ((_ :: _) as label) => mret label
  | _ => mret (if negb (empty chip_name) then chip_name ++ " "%char :: stem else stem)
  end.

Definition named (chip_name : text) : option text := if negb (empty chip_name) then Some chip_name else None.

(** The value of an input; [None] when its file is gone. *)
Definition read_input (parse : text -> result Z) (path : text) : query W (option Z) :=
  raw ← attempt (read_text_file path 128);
  match raw with
  | Failure e => if is_missing_attribute e then mret None else pure (Failure e)
  | Value raw => v ← pure (parse raw); mret (Some v)
  end.

(** What the loop of [enumerate_hwmon_temperatures_in_dir] does with an input:
    [None] skips it. *)
Definition read_temperature (dir_path entry_name chip_name num_part : text) : query W (option temperature_sensor) :=
  let stem := lit "temp" ++ num_part in
  raw ← read_input parse_millicelsius (in_directory dir_path (stem ++ lit "_input"));
  match raw with
  | None => mret None
  | Some parsed_milli =>
      label ← read_label dir_path stem chip_name;
      parsed_max ← read_beside parse_millicelsius dir_path stem "_max";
      parsed_crit ← read_beside parse_millicelsius dir_path stem "_crit";
      let s := Temperature_sensor label (classify_temperature_sensor (default [] (named chip_name)) label)
                 (millicelsius_to_celsius parsed_milli) (millicelsius_to_celsius <$> parsed_max)
                 (millicelsius_to_celsius <$> parsed_crit) (named chip_name) (Some entry_name) in
      _ ← pure (validate_temperature_sensor s);
      mret (Some s)
  end.

Definition read_fan (dir_path entry_name chip_name num_part : text) : query W (option fan_sensor) :=
  let stem := lit "fan" ++ num_part in
  raw ← read_input parse_rpm (in_directory dir_path (stem ++ lit "_input"));
  match raw with
  | None => mret None
  | Some parsed_rpm =>
      label ← read_label dir_path stem chip_name;
      parsed_min ← read_beside parse_rpm dir_path stem "_min";
      parsed_max ← read_beside parse_rpm dir_path stem "_max";
      parsed_target ← read_beside parse_rpm dir_path stem "_target";
      let s := Fan_sensor label parsed_rpm parsed_min parsed_max parsed_target (named chip_name) (Some entry_name) in
      _ ← pure (validate_fan_sensor s);
      mret (Some s)
  end.

(** The loop over the names of a directory, with the attributes seen and the
    sensors found, for one kind of input. *)
Fixpoint input_loop {A} (prefix : text) (read : text -> query W (option A)) (names seen_attributes : list text) (results : list A)
    : query W (list text * list A) :=
  match names with
  | [] => mret (seen_attributes, results)
  | name :: names =>
      match attribute_number prefix name with
      | None => input_loop prefix read names seen_attributes results
      | Some attribute_id =>
          if bool_decide (attribute_id ∈ seen_attributes) then input_loop prefix read names seen_attributes results
          else
            s ← read attribute_id;
            match s with
            | None => input_loop prefix read names seen_attributes results
            | Some s => input_loop prefix read names (seen_attributes ++ [attribute_id]) (results ++ [s])
            end
      end
  end.

Definition enumerate_inputs {A} (prefix : text) (read : text -> query W (option A)) (dir_path : text)
    (found : list text * list A) : query W (list text * list A) := fun w =>
  match list_directory dir_path w with
  | (inl errno, w) => (if bool_decide (errno = ENOENT \/ errno = ENOTDIR) then Value found else fail_native errno, w)
  | (inr (names, errno), w) =>
      (found ← input_loop prefix read names (fst found) (snd found);
       if negb (errno =? 0) then pure (fail_native errno) else mret found) w
  end.

Definition enumerate_hwmon_temperatures_in_dir (dir_path entry_name chip_name : text) :=
  enumerate_inputs (lit "temp") (read_temperature dir_path entry_name chip_name) dir_path.

Definition enumerate_hwmon_fans_in_dir (dir_path entry_name chip_name : text) :=
  enumerate_inputs (lit "fan") (read_fan dir_path entry_name chip_name) dir_path.

(** One chip: the class device, then the physical device. *)
Definition chip_inputs {A}
    (enumerate : text -> text -> text -> list text * list A -> query W (list text * list A))
    (hwmon_root entry_name : text) (results : list A) : query W (list A) :=
  let hwmon_dir := in_directory hwmon_root entry_name in
  chip_name ← attempt (read_chip_name hwmon_dir);
  match chip_name with
  | Failure e => if is_missing_attribute e then mret results else pure (Failure e)
  | Value chip_name =>
      direct ← enumerate hwmon_dir entry_name chip_name ([], results);
      found ← enumerate (hwmon_dir ++ lit "/device") entry_name chip_name direct;
      mret (snd found)
  end.

Definition hidden (name : text) : bool := match name with c :: _ => is_char c "." | [] => false end.

(** The loop over the entries of a class directory. *)
Fixpoint entry_loop {A} (visit : text -> list A -> query W (list A)) (names : list text) (results : list A) : query W (list A) :=
  match names with
  | [] => mret results
  | name :: names =>
      if hidden name then entry_loop visit names results
      else results ← visit name results; entry_loop visit names results
  end.

(** The frame of the three queries: the root must exist and open. *)
Definition class_entries {A} (root : text) (visit : text -> list A -> query W (list A)) : query W (list A) := fun w =>
  match stat_errno root w with
  | (Some errno, w) => (if errno =? ENOENT then fail errc_not_supported else fail_native errno, w)
  | (None, w) =>
      match list_directory root w with
      | (inl errno, w) => (fail_native errno, w)
      | (inr (names, errno), w) =>
          (results ← entry_loop visit names [];
           if negb (errno =? 0) then pure (fail_native errno) else mret results) w
      end
  end.

Definition temperatures_at (hwmon_root : text) : query W (list temperature_sensor) :=
  class_entries hwmon_root (chip_inputs enumerate_hwmon_temperatures_in_dir hwmon_root).

Definition fans_at (hwmon_root : text) : query W (list fan_sensor) :=
  class_entries hwmon_root (chip_inputs enumerate_hwmon_fans_in_dir hwmon_root).

(** *** Thermal zones *)

Definition parse_zone_mode (mode : option text) : result bool :=
  match mode with
  | None => Value true
  | Some mode =>
      if same mode (lit "enabled") then Value true
      else if same mode (lit "disabled") then Value false else fail errc_malformed_data
  end.

(** A trip point: the first passive one, and the first critical or hot one. *)
Definition add_trip (kind : text) (celsius : double) (limits : option double * option double) : option double * option double :=
  let '(passive, critical) := limits in
  if same kind (lit "passive") && bool_decide (passive = None) then (Some celsius, critical)
  else if (same kind (lit "critical") || same kind (lit "hot")) && bool_decide (critical = None) then (passive, Some celsius)
  else limits.

Definition trip_file (zone_dir : text) (i : nat) (suffix : string) : text :=
  zone_dir ++ lit "/trip_point_" ++ to_decimal (Z.of_nat i) ++ lit suffix.

(** The loop over the numbers of trip points. *)
Fixpoint trip_loop (zone_dir : text) (numbers : list nat) (limits : option double * option double)
    : query W (option double * option double) :=
  match numbers with
  | [] => mret limits
  | i :: numbers =>
      trip_type ← read_optional_attribute_string (trip_file zone_dir i "_type") 1024;
      match trip_type with
      | None => mret limits
      | Some [] => pure (fail errc_malformed_data)
      | Some kind =>
          trip_temp_raw ← read_optional_attribute_string (trip_file zone_dir i "_temp") 128;
          match trip_temp_raw with
          | None => trip_loop zone_dir numbers limits
          | Some raw =>
              parsed_trip ← pure (parse_millicelsius raw);
              trip_loop zone_dir numbers (add_trip kind (millicelsius_to_celsius parsed_trip) limits)
          end
      end
  end.

(** A zone; [None] when its temperature or its type is gone. *)
Definition read_zone (thermal_root entry_name : text) : query W (option thermal_zone) :=
  let zone_dir := in_directory thermal_root entry_name in
  raw ← read_input parse_millicelsius (zone_dir ++ lit "/temp");
  match raw with
  | None => mret None
  | Some parsed_temp =>
      type_read ← read_optional_attribute_string (zone_dir ++ lit "/type") 1024;
      match type_read with
      | None => mret None
      | Some [] => pure (fail errc_malformed_data)
      | Some name =>
          mode_read ← read_optional_attribute_string (zone_dir ++ lit "/mode") 1024;
          is_enabled ← pure (parse_zone_mode mode_read);
          '(passive, critical) ← trip_loop zone_dir (seq 0 32) (None, None);
          let z := Thermal_zone name (classify_thermal_zone name) (millicelsius_to_celsius parsed_temp) passive critical
                     (Some entry_name) is_enabled in
          _ ← pure (validate_thermal_zone z);
          mret (Some z)
      end
  end.

Definition visit_zone (thermal_root name : text) (results : list thermal_zone) : query W (list thermal_zone) :=
  if negb (starts_with (lit "thermal_zone") name) then mret results
  else
    z ← read_zone thermal_root name;
    mret (match z with Some z => results ++ [z] | None => results end).

Definition thermal_zones_at (thermal_root : text) : query W (list thermal_zone) :=
  class_entries thermal_root (visit_zone thermal_root).

Definition default_hwmon_root : text := lit "/sys/class/hwmon".

Definition default_thermal_root : text := lit "/sys/class/thermal".

Definition temperatures : query W (list temperature_sensor) := temperatures_at default_hwmon_root.

Definition fans : query W (list fan_sensor) := fans_at default_hwmon_root.

Definition thermal_zones : query W (list thermal_zone) := thermal_zones_at default_thermal_root.

End sensors.

(** ** Reading leaves a system that stands still as it is *)

Section still.
Context {W : Type} `{Kernel W} `{SensorKernel W} (w : W).
Context (open_quiet : forall path, snd (open_file path w) = w)
  (list_quiet : forall path, snd (list_directory path w) = w) (stat_quiet : forall path, snd (stat_errno path w) = w).

Ltac quiet_step := first [assumption | apply quiet_ret | apply quiet_pure | apply quiet_attempt |
  apply (quiet_read w open_quiet) | apply quiet_bind; [|intros]].

Ltac quiet_steps := repeat first [quiet_step | case_match; try quiet_step].

Lemma quiet_optional path maximum_size : quiet w (read_optional_attribute_string path maximum_size).
Proof. unfold read_optional_attribute_string. quiet_steps. Qed.

Lemma quiet_chip_name dir : quiet w (read_chip_name dir).
Proof. unfold read_chip_name. repeat first [apply quiet_optional | quiet_step | case_match]. Qed.

Lemma quiet_input parse path : quiet w (read_input parse path).
Proof. unfold read_input. repeat first [quiet_step | case_match]. Qed.

Lemma quiet_beside parse dir stem suffix : quiet w (read_beside parse dir stem suffix).
Proof. unfold read_beside. repeat first [apply quiet_optional | quiet_step | case_match]. Qed.

Lemma quiet_label dir stem chip : quiet w (read_label dir stem chip).
Proof. unfold read_label. repeat first [apply quiet_optional | quiet_step | case_match]. Qed.

Lemma quiet_temperature dir entry chip n : quiet w (read_temperature dir entry chip n).
Proof. unfold read_temperature. cbv zeta. repeat first [apply quiet_input | apply quiet_label | apply quiet_beside | quiet_step | case_match]. Qed.

Lemma quiet_fan dir entry chip n : quiet w (read_fan dir entry chip n).
Proof. unfold read_fan. cbv zeta. repeat first [apply quiet_input | apply quiet_label | apply quiet_beside | quiet_step | case_match]. Qed.

(** The attributes listed in a directory. *)
Definition listed (prefix dir : text) : list text :=
  match fst (list_directory dir w) with inl _ => [] | inr (names, _) => omap (attribute_number prefix) names end.

(** What the loop over one directory adds: readings of attributes that were
    not seen before, each once, and every one of them that can be read. *)
Definition readings {A} (read : text -> query W (option A)) (numbers seen new : list text) (found : list A) : Prop :=
  NoDup (seen ++ new) /\ Forall2 (fun n s => fst (read n w) = Value (Some s)) new found /\
  (forall n, n ∈ new -> n ∈ numbers) /\
  (forall n, n ∈ numbers -> n ∈ seen ++ new \/ fst (read n w) = Value None).

Lemma input_loop_readings {A} prefix (read : text -> query W (option A)) names seen results r w' :
  (forall n, quiet w (read n)) -> NoDup seen -> input_loop prefix read names seen results w = (r, w') ->
  w' = w /\ forall seen' results', r = Value (seen', results') ->
  exists new found, seen' = seen ++ new /\ results' = results ++ found /\
    readings read (omap (attribute_number prefix) names) seen new found.
Proof.
  intros Hq. revert seen results. induction names as [|name names IH]; intros seen results Hs; cbn [input_loop omap list_omap].
  { intros [= <- <-]. split; [done|]. intros ? ? [= <- <-]. exists [], []. rewrite !app_nil_r. split; [done|]. split; [done|].
    unfold readings. rewrite app_nil_r. split; [done|]. split; [constructor|]. split; intros n []%elem_of_nil. }
  destruct (attribute_number prefix name) as [n|] eqn:En; [|by apply IH].
  case_bool_decide as Hin.
  { intros Hl. destruct (IH _ _ Hs Hl) as [-> Hr]. split; [done|]. intros seen' results' Hv.
    destruct (Hr _ _ Hv) as (new & found & -> & -> & Hnd & Hf & Hsub & Hall). exists new, found. split; [done|]. split; [done|].
    split; [done|]. split; [done|]. split; [intros m Hm; right; by apply Hsub|].
    intros m [->|Hm]%elem_of_cons; [left; apply elem_of_app; by left|by apply Hall]. }
  unfold mbind, query_bind. pose proof (Hq n) as Hqn. unfold quiet in Hqn. destruct (read n w) as [[[s|]|e] w1] eqn:Er; cbn in Hqn; subst w1.
  - intros Hl. assert (NoDup (seen ++ [n])) as Hs'.
    { apply NoDup_app. split; [done|]. split; [|apply NoDup_singleton]. intros m Hm ->%list_elem_of_singleton. done. }
    destruct (IH _ _ Hs' Hl) as [-> Hr]. split; [done|]. intros seen' results' Hv.
    destruct (Hr _ _ Hv) as (new & found & -> & -> & Hnd & Hf & Hsub & Hall). exists (n :: new), (s :: found).
    rewrite <- !app_assoc in *. split; [done|]. split; [done|]. split; [done|]. split; [constructor; [by rewrite Er|done]|].
    split; [intros m [->|Hm]%elem_of_cons; [by left|right; by apply Hsub]|].
    intros m [->|Hm]%elem_of_cons; [left; apply elem_of_app; right; by left|by apply Hall].
  - intros Hl. destruct (IH _ _ Hs Hl) as [-> Hr]. split; [done|]. intros seen' results' Hv.
    destruct (Hr _ _ Hv) as (new & found & -> & -> & Hnd & Hf & Hsub & Hall). exists new, found. split; [done|]. split; [done|].
    split; [done|]. split; [done|]. split; [intros m Hm; right; by apply Hsub|].
    intros m [->|Hm]%elem_of_cons; [right; by rewrite Er|by apply Hall].
  - intros [= <- <-]. by split.
Qed.

Lemma enumerate_inputs_readings {A} prefix (read : text -> query W (option A)) dir seen results r w' :
  (forall n, quiet w (read n)) -> NoDup seen -> enumerate_inputs prefix read dir (seen, results) w = (r, w') ->
  w' = w /\ forall seen' results', r = Value (seen', results') ->
  exists new found, seen' = seen ++ new /\ results' = results ++ found /\ readings read (listed prefix dir) seen new found.
Proof.
  intros Hq Hs. unfold enumerate_inputs, listed. pose proof (list_quiet dir) as Hl.
  destruct (list_directory dir w) as [[errno|[names errno]] w1]; cbn [fst snd] in Hl |- *; subst w1.
  - intros [= <- <-]. split; [done|]. intros seen' results'. case_bool_decide; [|done]. intros [= <- <-].
    exists [], []. rewrite !app_nil_r. split; [done|]. split; [done|]. unfold readings. rewrite app_nil_r.
    split; [done|]. split; [constructor|]. split; intros n []%elem_of_nil.
  - unfold mbind, query_bind. destruct (input_loop prefix read names seen results w) as [v w1] eqn:El.
    destruct (input_loop_readings _ _ _ _ _ _ _ Hq Hs El) as [-> Hr].
    destruct v as [[seen1 results1]|e]; [|intros [= <- <-]; by split]. destruct (negb (errno =? 0)); intros [= <- <-]; (split; [done|]).
    + done.
    + intros ? ? [= <- <-]. by apply Hr.
Qed.

(** The sensors of a chip: those of the class device, then those of the
    physical device whose attributes were not among them. *)
Definition chip_readings {A} (prefix : text) (read : text -> text -> text -> text -> query W (option A)) (root entry : text)
    (found : list A) : Prop :=
  exists chip direct device found1 found2,
    fst (read_chip_name (in_directory root entry) w) = Value chip /\ found = found1 ++ found2 /\
    readings (read (in_directory root entry) entry chip) (listed prefix (in_directory root entry)) [] direct found1 /\
    readings (read (in_directory root entry ++ lit "/device") entry chip)
      (listed prefix (in_directory root entry ++ lit "/device")) direct device found2.

Lemma chip_name_not_missing dir e : fst (read_chip_name dir w) = Failure e -> is_missing_attribute e = false.
Proof.
  assert (forall path size e, fst (read_optional_attribute_string path size w) = Failure e -> is_missing_attribute e = false) as Ho.
  { intros path size e'. unfold read_optional_attribute_string, mbind, query_bind, attempt, pure.
    destruct (read_text_file path size w) as [[v|e1] w1]; cbn; [done|]. destruct (is_missing_attribute e1) eqn:E; [done|].
    by intros [= <-]. }
  unfold read_chip_name, mbind, query_bind. pose proof (quiet_optional (dir ++ lit "/name") 1024) as Hq. unfold quiet in Hq.
  destruct (read_optional_attribute_string (dir ++ lit "/name") 1024 w) as [v w1] eqn:E1. cbn in Hq. subst w1.
  destruct v as [v|e1]; [|intros [= <-]; eapply Ho; by rewrite E1].
  assert (fst ((match read_optional_attribute_string (dir ++ lit "/device/name") 1024 w with
    | (Value v, w) => (Value (default [] v), w) | (Failure e, w) => (Failure e, w) end)) = Failure e -> is_missing_attribute e = false) as Hd.
  { destruct (read_optional_attribute_string (dir ++ lit "/device/name") 1024 w) as [[v2|e2] w2] eqn:E2; [done|].
    intros [= <-]. eapply Ho. by rewrite E2. }
  destruct v as [[|c t]|]; [exact Hd|done|exact Hd].
Qed.

Lemma chip_inputs_readings {A} prefix (read : text -> text -> text -> text -> query W (option A)) root entry results r w' :
  (forall dir entry chip n, quiet w (read dir entry chip n)) ->
  chip_inputs (fun dir entry chip => enumerate_inputs prefix (read dir entry chip) dir) root entry results w = (r, w') ->
  w' = w /\ forall results', r = Value results' -> exists found, results' = results ++ found /\ chip_readings prefix read root entry found.
Proof.
  intros Hq. unfold chip_inputs, mbind, query_bind, attempt. set (dir := in_directory root entry).
  pose proof (quiet_chip_name dir) as Hc. unfold quiet in Hc.
  destruct (read_chip_name dir w) as [[chip|e] w1] eqn:Ec; cbn in Hc; subst w1.
  - destruct (enumerate_inputs prefix (read dir entry chip) dir ([], results) w) as [v w1] eqn:E1.
    destruct (enumerate_inputs_readings _ _ _ _ _ _ _ (Hq dir entry chip) (NoDup_nil_2) E1) as [-> Hr1].
    destruct v as [[seen1 results1]|e]; [|intros [= <- <-]; by split].
    destruct (Hr1 _ _ eq_refl) as (direct & found1 & -> & -> & H1). cbn [app] in *.
    destruct (enumerate_inputs prefix (read (dir ++ lit "/device") entry chip) (dir ++ lit "/device") (direct, results ++ found1) w)
      as [v w1] eqn:E2.
    destruct (enumerate_inputs_readings _ _ _ _ _ _ _ (Hq (dir ++ lit "/device") entry chip) (proj1 H1) E2) as [-> Hr2].
    destruct v as [[seen2 results2]|e]; [|intros [= <- <-]; by split].
    destruct (Hr2 _ _ eq_refl) as (device & found2 & -> & -> & H2).
    intros [= <- <-]. split; [done|]. intros ? [= <-]. exists (found1 ++ found2). rewrite app_assoc. split; [done|].
    exists chip, direct, device, found1, found2. split; [change (in_directory root entry) with dir; by rewrite Ec|done].
  - rewrite (chip_name_not_missing dir e) by (by rewrite Ec). intros [= <- <-]. by split.
Qed.

(** The frame: one visit per visible entry, in the order of the directory. *)
Lemma entry_loop_visits {A} (visit : text -> list A -> query W (list A)) (P : text -> list A -> Prop) names results r w' :
  (forall name results r w', visit name results w = (r, w') ->
     w' = w /\ forall results', r = Value results' -> exists found, results' = results ++ found /\ P name found) ->
  entry_loop visit names results w = (r, w') ->
  w' = w /\ forall results', r = Value results' ->
  exists founds, Forall2 P (List.filter (fun name => negb (hidden name)) names) founds /\ results' = results ++ concat founds.
Proof.
  intros Hv. revert results. induction names as [|name names IH]; intros results; cbn [entry_loop List.filter].
  { intros [= <- <-]. split; [done|]. intros ? [= <-]. exists []. by rewrite app_nil_r. }
  destruct (hidden name); cbn [negb]; [by apply IH|]. unfold mbind, query_bind.
  destruct (visit name results w) as [v w1] eqn:Ev. destruct (Hv _ _ _ _ Ev) as [-> Hr].
  destruct v as [results1|e]; [|intros [= <- <-]; by split]. destruct (Hr _ eq_refl) as (found & -> & Hp).
  intros Hl. destruct (IH _ Hl) as [-> Hr']. split; [done|]. intros results' Hres.
  destruct (Hr' _ Hres) as (founds & Hf & ->). exists (found :: founds). split; [by constructor|]. by rewrite <- app_assoc.
Qed.

Lemma class_entries_visits {A} root (visit : text -> list A -> query W (list A)) (P : text -> list A -> Prop) results' :
  (forall name results r w', visit name results w = (r, w') ->
     w' = w /\ forall results', r = Value results' -> exists found, results' = results ++ found /\ P name found) ->
  fst (class_entries root visit w) = Value results' ->
  exists names founds, fst (list_directory root w) = inr (names, 0) /\
    Forall2 P (List.filter (fun name => negb (hidden name)) names) founds /\ results' = concat founds.
Proof.
  intros Hv. unfold class_entries. pose proof (stat_quiet root) as Hs.
  destruct (stat_errno root w) as [[errno|] w1]; cbn in Hs; subst w1; [by destruct (errno =? ENOENT)|].
  pose proof (list_quiet root) as Hl. destruct (list_directory root w) as [[errno|[names errno]] w1]; cbn in Hl |- *; subst w1; [done|].
  unfold mbind, query_bind. destruct (entry_loop visit names [] w) as [v w1] eqn:El.
  destruct (entry_loop_visits visit P _ _ _ _ Hv El) as [-> Hr]. destruct v as [l|e]; [|done].
  destruct (Z.eqb_spec errno 0) as [->|]; [|done]. intros [= <-]. destruct (Hr _ eq_refl) as (founds & Hf & ->). by exists names, founds.
Qed.

(** ** What a reading is *)

Definition labelled (label : text) (chip device : option text) : Prop :=
  is_valid_utf8 label = true /\ label <> [] /\ optional_utf8 chip = true /\ optional_utf8 device = true /\ chip <> Some [].

Definition temperature_ok (s : temperature_sensor) : Prop :=
  labelled (temperature_label s) (temperature_chip_name s) (temperature_device_id s) /\
  temperature_type s = classify_temperature_sensor (default [] (temperature_chip_name s)) (temperature_label s).

Definition fan_ok (s : fan_sensor) : Prop :=
  labelled (fan_label s) (fan_chip_name s) (fan_device_id s) /\ 0 <= current_rpm s <= uint32_max /\
  forall v, v ∈ omap id [min_rpm s; max_rpm s; target_rpm s] -> 0 <= v <= uint32_max.

Lemma whole_value_bound v lo hi parsed n :
  lo <= fc_value parsed <= hi -> whole_value v parsed = Value n -> lo <= n <= hi.
Proof. unfold whole_value. intros Hb. destruct (out_of_range parsed); [done|]. destruct (negb _); [done|]. by intros [= <-]. Qed.

Lemma parse_rpm_bound input v : parse_rpm input = Value v -> 0 <= v <= uint32_max.
Proof.
  unfold parse_rpm. destruct (empty _); [done|]. apply whole_value_bound. apply fc_value_bound; unfold uint32_max; lia.
Qed.

Lemma yields_label dir stem chip : stem <> [] -> yields (W := W) (read_label dir stem chip) (fun label => label <> []).
Proof.
  intros Hs. unfold read_label. apply yields_skip. intros [[|c label]|].
  - destruct (negb _); apply yields_ret; [by destruct chip|done].
  - by apply yields_ret.
  - destruct (negb _); apply yields_ret; [by destruct chip|done].
Qed.

Lemma yields_input (parse : text -> result Z) path (P : Z -> Prop) :
  (forall input v, parse input = Value v -> P v) -> yields (W := W) (read_input parse path) (fun o => forall v, o = Some v -> P v).
Proof.
  intros HP. unfold read_input. apply yields_skip. intros [raw|e].
  - apply yields_pure_bind. intros v Hv. apply yields_ret. intros ? [= <-]. by eapply HP.
  - destruct (is_missing_attribute e); [by apply yields_ret|by apply yields_pure].
Qed.

Lemma yields_beside (parse : text -> result Z) dir stem suffix (P : Z -> Prop) :
  (forall input v, parse input = Value v -> P v) ->
  yields (W := W) (read_beside parse dir stem suffix) (fun o => forall v, o = Some v -> P v).
Proof.
  intros HP. unfold read_beside. apply yields_skip. intros [raw|]; [|by apply yields_ret].
  apply yields_pure_bind. intros v Hv. apply yields_ret. intros ? [= <-]. by eapply HP.
Qed.

Lemma named_not_empty chip : named chip <> Some [].
Proof. unfold named. by destruct chip. Qed.

Lemma yields_temperature dir entry chip n :
  yields (W := W) (read_temperature dir entry chip n) (fun o => forall s, o = Some s -> temperature_ok s).
Proof.
  unfold read_temperature. cbv zeta. apply yields_skip. intros [milli|]; [|by apply yields_ret].
  eapply yields_bind; [by apply yields_label|]. intros label Hl. cbv beta in Hl.
  do 2 (apply yields_skip; intros ?). apply yields_pure_bind. intros [] Hv. apply yields_ret. intros ? [= <-].
  unfold validate_temperature_sensor in Hv. cbn in Hv. inv_result. rewrite negb_false_iff in *.
  split; [|done]. split_and!; try done. apply named_not_empty.
Qed.

Lemma yields_fan dir entry chip n :
  yields (W := W) (read_fan dir entry chip n) (fun o => forall s, o = Some s -> fan_ok s).
Proof.
  unfold read_fan. cbv zeta. eapply yields_bind; [apply (yields_input _ _ _ parse_rpm_bound)|]. intros [rpm|] Hrpm; [|by apply yields_ret].
  eapply yields_bind; [by apply yields_label|]. intros label Hl. cbv beta in Hl.
  eapply yields_bind; [apply (yields_beside _ _ _ _ _ parse_rpm_bound)|]. intros lo Hlo. cbv beta in Hlo.
  eapply yields_bind; [apply (yields_beside _ _ _ _ _ parse_rpm_bound)|]. intros hi Hhi. cbv beta in Hhi.
  eapply yields_bind; [apply (yields_beside _ _ _ _ _ parse_rpm_bound)|]. intros target Ht. cbv beta in Ht.
  apply yields_pure_bind. intros [] Hv. apply yields_ret. intros ? [= <-].
  unfold validate_fan_sensor in Hv. cbn in Hv. inv_result. rewrite negb_false_iff in *.
  split; [split_and!; try done; apply named_not_empty|]. split; [by apply Hrpm|]. cbn [min_rpm max_rpm target_rpm].
  intros v Hin. apply list_elem_of_omap in Hin as (o & Ho & Hov). unfold id in Hov. subst o.
  repeat (apply elem_of_cons in Ho as [<-|Ho]; [by auto|]). by apply elem_of_nil in Ho.
Qed.

Lemma chip_readings_ok {A} prefix (read : text -> text -> text -> text -> query W (option A)) (P : A -> Prop) root entry found :
  (forall dir entry chip n, yields (read dir entry chip n) (fun o => forall s, o = Some s -> P s)) ->
  chip_readings prefix read root entry found -> Forall P found.
Proof.
  intros Hy (chip & direct & device & found1 & found2 & _ & -> & (_ & H1 & _) & (_ & H2 & _)).
  assert (forall dir ns l, Forall2 (fun n s => fst (read dir entry chip n w) = Value (Some s)) ns l -> Forall P l) as Hl.
  { intros dir ns l. induction 1 as [|n s ns l Hr _ IH]; constructor; [|done].
    destruct (read dir entry chip n w) as [v w1] eqn:E. cbn in Hr. subst v. by apply (Hy _ _ _ _ _ _ _ E). }
  apply Forall_app. split; by eapply Hl.
Qed.

Lemma chip_founds_ok {A} prefix (read : text -> text -> text -> text -> query W (option A)) (P : A -> Prop) root names founds :
  (forall dir entry chip n, yields (read dir entry chip n) (fun o => forall s, o = Some s -> P s)) ->
  Forall2 (chip_readings prefix read root) names founds -> Forall P (concat founds).
Proof.
  intros Hy. induction 1 as [|name found names founds Hc _ IH]; [constructor|]. cbn [concat].
  apply Forall_app. split; [by eapply chip_readings_ok|done].
Qed.

(** C29: the sensors of a chip are each reported once: on a system that stands
    still the temperatures, and likewise the fans, are, chip by chip in the
    order of the directory, the readings of the distinct attribute numbers of
    the class device and then of those of the physical device that the class
    device did not have; an attribute is left out only when its input is gone.
    Every sensor has a label, all texts are UTF-8, the type is that of the chip
    and label, and the speeds fit 32 bits. *)
Theorem sensors_once (root : text) :
  (forall l, fst (temperatures_at root w) = Value l ->
     exists names founds, fst (list_directory root w) = inr (names, 0) /\ l = concat founds /\ Forall temperature_ok l /\
       Forall2 (chip_readings (lit "temp") read_temperature root) (List.filter (fun name => negb (hidden name)) names) founds) /\
  (forall l, fst (fans_at root w) = Value l ->
     exists names founds, fst (list_directory root w) = inr (names, 0) /\ l = concat founds /\ Forall fan_ok l /\
       Forall2 (chip_readings (lit "fan") read_fan root) (List.filter (fun name => negb (hidden name)) names) founds).
Proof.
  split; intros l Hl.
  - eapply (class_entries_visits root _ (chip_readings (lit "temp") read_temperature root)) in Hl as (names & founds & Hn & Hf & ->).
    + exists names, founds. split; [done|]. split; [done|]. split; [|done].
      eapply chip_founds_ok; [|exact Hf]. intros. apply yields_temperature.
    + intros name results r w'. apply chip_inputs_readings, quiet_temperature.
  - eapply (class_entries_visits root _ (chip_readings (lit "fan") read_fan root)) in Hl as (names & founds & Hn & Hf & ->).
    + exists names, founds. split; [done|]. split; [done|]. split; [|done].
      eapply chip_founds_ok; [|exact Hf]. intros. apply yields_fan.
    + intros name results r w'. apply chip_inputs_readings, quiet_fan.
Qed.

(** ** Thermal zones *)

Definition attribute (path : text) (maximum_size : Z) : result (option text) :=
  fst (read_optional_attribute_string path maximum_size w).

(** A trip point: its kind and its temperature, if it has one. *)
Definition trip_at (zone_dir : text) (i : nat) (trip : option (text * double)) : Prop :=
  exists kind, kind <> [] /\ attribute (trip_file zone_dir i "_type") 1024 = Value (Some kind) /\
  match trip with
  | None => attribute (trip_file zone_dir i "_temp") 128 = Value None
  | Some (k, celsius) => k = kind /\ exists raw v, attribute (trip_file zone_dir i "_temp") 128 = Value (Some raw) /\
      parse_millicelsius raw = Value v /\ celsius = millicelsius_to_celsius v
  end.

(** The points up to the first number without a type. *)
Definition trips_of (zone_dir : text) (numbers : list nat) (trips : list (option (text * double))) : Prop :=
  exists rest, numbers = take (length trips) numbers ++ rest /\ Forall2 (trip_at zone_dir) (take (length trips) numbers) trips /\
    match rest with [] => True | i :: _ => attribute (trip_file zone_dir i "_type") 1024 = Value None end.

Lemma trip_loop_trips zone_dir numbers limits r w' :
  trip_loop zone_dir numbers limits w = (r, w') ->
  w' = w /\ forall limits', r = Value limits' -> exists trips, trips_of zone_dir numbers trips /\
    limits' = foldl (fun l t => add_trip (fst t) (snd t) l) limits (omap id trips).
Proof.
  revert limits. induction numbers as [|i numbers IH]; intros limits; cbn [trip_loop].
  { intros [= <- <-]. split; [done|]. intros ? [= <-]. exists []. split; [by exists []|done]. }
  unfold mbind, query_bind. pose proof (quiet_optional (trip_file zone_dir i "_type") 1024) as Hq. unfold quiet in Hq.
  destruct (read_optional_attribute_string (trip_file zone_dir i "_type") 1024 w) as [v w1] eqn:E1. cbn in Hq. subst w1.
  destruct v as [[[|c kind]|]|e]; [intros [= <- <-]; by split| |intros [= <- <-]|intros [= <- <-]; by split].
  2: { split; [done|]. intros ? [= <-]. exists []. split; [|done]. exists (i :: numbers). unfold attribute. by rewrite E1. }
  pose proof (quiet_optional (trip_file zone_dir i "_temp") 128) as Hq. unfold quiet in Hq.
  destruct (read_optional_attribute_string (trip_file zone_dir i "_temp") 128 w) as [v w1] eqn:E2. cbn in Hq. subst w1.
  assert (forall trip trips, trip_at zone_dir i trip -> trips_of zone_dir numbers trips -> trips_of zone_dir (i :: numbers) (trip :: trips)) as Hcons.
  { intros trip trips Ht (rest & Hn & Hf & Hr). exists rest. cbn [length take app]. split; [by f_equal|]. split; [by constructor|done]. }
  destruct v as [[raw|]|e]; [| |intros [= <- <-]; by split].
  - unfold pure. destruct (parse_millicelsius raw) as [v|e] eqn:Ep; [|intros [= <- <-]; by split].
    intros Hl. destruct (IH _ Hl) as [-> Hr]. split; [done|]. intros limits' Hv. destruct (Hr _ Hv) as (trips & Ht & ->).
    exists (Some (c :: kind, millicelsius_to_celsius v) :: trips). split; [|done]. apply Hcons; [|done].
    exists (c :: kind). unfold attribute. rewrite E1, E2. split; [done|]. split; [done|]. split; [done|]. by exists raw, v.
  - intros Hl. destruct (IH _ Hl) as [-> Hr]. split; [done|]. intros limits' Hv. destruct (Hr _ Hv) as (trips & Ht & ->).
    exists (None :: trips). split; [|done]. apply Hcons; [|done]. exists (c :: kind). unfold attribute. by rewrite E1, E2.
Qed.

(** The first temperature of one of some kinds. *)
Definition first_of (kinds : list string) (trips : list (text * double)) : option double :=
  snd <$> head (List.filter (fun t => existsb (fun k => same (fst t) (lit k)) kinds) trips).

Lemma add_trip_fold trips passive critical :
  foldl (fun l t => add_trip (fst t) (snd t) l) (passive, critical) trips =
  (match passive with Some p => Some p | None => first_of ["passive"%string] trips end,
   match critical with Some c => Some c | None => first_of ["critical"%string; "hot"%string] trips end).
Proof.
  revert passive critical. induction trips as [|[kind celsius] trips IH]; intros passive critical; cbn [foldl fst snd].
  { by destruct passive, critical. }
  unfold first_of. cbn [List.filter existsb fst]. unfold add_trip.
  assert (same kind (lit "passive") = true -> same kind (lit "critical") = false /\ same kind (lit "hot") = false) as Hd.
  { intros ->%same_true. done. }
  destruct (same kind (lit "passive")).
  - destruct (Hd eq_refl) as [-> ->]. cbn [orb andb]. destruct passive; cbn; rewrite IH; done.
  - cbn [orb andb]. rewrite orb_false_r. destruct (same kind (lit "critical") || same kind (lit "hot")); cbn [andb].
    + destruct critical; cbn; rewrite IH; done.
    + by rewrite IH.
Qed.

(** A zone as the files of its directory tell it. *)
Definition zone_denotes (zone_dir entry : text) (z : thermal_zone) : Prop :=
  type_name z <> [] /\ attribute (zone_dir ++ lit "/type") 1024 = Value (Some (type_name z)) /\
  zone_type z = classify_thermal_zone (type_name z) /\ zone_id z = Some entry /\
  is_valid_utf8 (type_name z) = true /\ is_valid_utf8 entry = true /\
  (exists mode, attribute (zone_dir ++ lit "/mode") 1024 = Value mode /\ parse_zone_mode mode = Value (enabled z)) /\
  exists trips, trips_of zone_dir (seq 0 32) trips /\ passive_celsius z = first_of ["passive"%string] (omap id trips) /\
    zone_critical_celsius z = first_of ["critical"%string; "hot"%string] (omap id trips).

Lemma read_zone_denotes root entry r w' :
  read_zone root entry w = (r, w') ->
  w' = w /\ forall z, r = Value (Some z) -> zone_denotes (in_directory root entry) entry z.
Proof.
  unfold read_zone. set (zone_dir := in_directory root entry). unfold mbind, query_bind.
  pose proof (quiet_input parse_millicelsius (zone_dir ++ lit "/temp")) as Hq. unfold quiet in Hq.
  destruct (read_input _ _ w) as [[[milli|]|e] w1]; cbn in Hq; subst w1; [|intros [= <- <-]; by split..].
  pose proof (quiet_optional (zone_dir ++ lit "/type") 1024) as Hq. unfold quiet in Hq.
  destruct (read_optional_attribute_string (zone_dir ++ lit "/type") 1024 w) as [[[[|c name]|]|e] w1] eqn:Et; cbn in Hq; subst w1;
    [intros [= <- <-]; by split| |intros [= <- <-]; by split..].
  pose proof (quiet_optional (zone_dir ++ lit "/mode") 1024) as Hq. unfold quiet in Hq.
  destruct (read_optional_attribute_string (zone_dir ++ lit "/mode") 1024 w) as [[mode|e] w1] eqn:Em; cbn in Hq; subst w1;
    [|intros [= <- <-]; by split].
  unfold pure. destruct (parse_zone_mode mode) as [b|e] eqn:Ep; [|intros [= <- <-]; by split].
  destruct (trip_loop zone_dir (seq 0 32) (None, None) w) as [v w1] eqn:El. destruct (trip_loop_trips _ _ _ _ _ El) as [-> Hr].
  destruct v as [[passive critical]|e]; [|intros [= <- <-]; by split]. destruct (Hr _ eq_refl) as (trips & Ht & Hf).
  rewrite add_trip_fold in Hf. injection Hf as -> ->.
  set (z := Thermal_zone _ _ _ _ _ _ _). destruct (validate_thermal_zone z) as [[]|e] eqn:Ev; intros [= <- <-]; (split; [done|]); [|done].
  intros ? [= <-]. unfold validate_thermal_zone in Ev. inv_result. rewrite negb_false_iff in *.
  unfold zone_denotes, attribute. rewrite Et. split_and!; try done; [by exists mode; rewrite Em|]. by exists trips.
Qed.

(** The thermal zones are those of the directory: on a system that stands
    still each visible entry with the prefix of a zone gives one zone, in order,
    unless its temperature or its type is gone; the zone tells its type, its
    mode - enabled without one - and, of the trip points before the first
    number without a type, the first passive and the first critical or hot
    temperature. *)
Theorem thermal_zones_denote (root : text) (l : list thermal_zone) :
  fst (thermal_zones_at root w) = Value l ->
  exists names, fst (list_directory root w) = inr (names, 0) /\
  exists founds, Forall2 (fun name found =>
      if starts_with (lit "thermal_zone") name then
        exists o, fst (read_zone root name w) = Value o /\ found = option_list o /\
          forall z, o = Some z -> zone_denotes (in_directory root name) name z
      else found = []) (List.filter (fun name => negb (hidden name)) names) founds /\
    l = concat founds.
Proof.
  intros Hl. eapply class_entries_visits in Hl as (names & founds & Hn & Hf & ->); [by exists names; split; [|exists founds]|].
  intros name results r w'. unfold visit_zone. destruct (starts_with _ name) eqn:Es; cbn [negb].
  - unfold mbind, query_bind. destruct (read_zone root name w) as [v w1] eqn:Ez. destruct (read_zone_denotes _ _ _ _ Ez) as [-> Hz].
    destruct v as [o|e]; intros [= <- <-]; (split; [done|]); [|done]. intros ? [= <-]. exists (option_list o).
    split; [by destruct o; [|rewrite app_nil_r]|]. exists o. split; [done|]. split; [done|]. intros z ->. by apply Hz.
  - intros [= <- <-]. split; [done|]. intros ? [= <-]. exists []. by rewrite app_nil_r.
Qed.

End still.

(** ** A small system *)

Definition sensor_files : list (string * string) := [
  ("/h/hwmon0/name", "k10temp"); ("/h/hwmon0/temp1_input", "45500"); ("/h/hwmon0/temp1_label", "Tctl");
  ("/h/hwmon0/temp2_input", "-5000"); ("/h/hwmon0/temp2_crit", "95000");
  ("/h/hwmon0/device/temp1_input", "1"); ("/h/hwmon0/device/temp3_input", "31000"); ("/h/hwmon0/fan1_input", "1200");
  ("/t/thermal_zone0/temp", "40000"); ("/t/thermal_zone0/type", "acpitz"); ("/t/thermal_zone0/mode", "disabled");
  ("/t/thermal_zone0/trip_point_0_type", "hot"); ("/t/thermal_zone0/trip_point_0_temp", "90000");
  ("/t/thermal_zone0/trip_point_1_type", "critical"); ("/t/thermal_zone0/trip_point_1_temp", "100000");
  ("/t/thermal_zone0/trip_point_2_type", "passive"); ("/t/thermal_zone0/trip_point_2_temp", "80000")]%string.

Definition sensor_kernel : Kernel unit := listing_kernel sensor_files [
  ("/h", [".."; "hwmon0"]);
  ("/h/hwmon0", ["temp1_input"; "temp2_input"; "fan1_input"; "temp1_label"; "temp9_input"]);
  ("/h/hwmon0/device", ["temp1_input"; "temp3_input"]); ("/t", ["cooling_device0"; "thermal_zone0"])]%string.

Definition sensor_machine : SensorKernel unit := {| stat_errno path w := (None, w) |}.

Definition celsius (milli : Z) : double := millicelsius_to_celsius milli.

Definition sample_temperatures : list temperature_sensor :=
  let sensor label milli crit := Temperature_sensor (lit label) sensor_cpu (celsius milli) None crit (Some (lit "k10temp")) (Some (lit "hwmon0")) in
  [sensor "Tctl"%string 45500 None; sensor "k10temp temp2"%string (-5000) (Some (celsius 95000)); sensor "k10temp temp3"%string 31000 None].

Lemma sensors_once_witness :
  fst (@temperatures_at unit sensor_kernel sensor_machine (lit "/h") tt) = Value sample_temperatures /\
  exists names founds, fst (@list_directory unit sensor_kernel (lit "/h") tt) = inr (names, 0) /\
    sample_temperatures = concat founds /\ Forall temperature_ok sample_temperatures /\
    Forall2 (@chip_readings unit sensor_kernel tt _ (lit "temp") (@read_temperature unit sensor_kernel) (lit "/h"))
      (List.filter (fun name => negb (hidden name)) names) founds.
Proof.
  assert (fst (@temperatures_at unit sensor_kernel sensor_machine (lit "/h") tt) = Value sample_temperatures) as Hl
    by (vm_compute; reflexivity).
  split; [exact Hl|].
  refine (proj1 (@sensors_once unit sensor_kernel sensor_machine tt _ _ _ (lit "/h")) _ Hl); intros path; reflexivity.
Defined.

Definition sample_zone : thermal_zone :=
  Thermal_zone (lit "acpitz") zone_acpi (celsius 40000) (Some (celsius 80000)) (Some (celsius 90000)) (Some (lit "thermal_zone0")) false.

Lemma thermal_zones_denote_witness :
  fst (@thermal_zones_at unit sensor_kernel sensor_machine (lit "/t") tt) = Value [sample_zone] /\
  exists names, fst (@list_directory unit sensor_kernel (lit "/t") tt) = inr (names, 0).
Proof.
  assert (fst (@thermal_zones_at unit sensor_kernel sensor_machine (lit "/t") tt) = Value [sample_zone]) as Hl by (vm_compute; reflexivity).
  split; [exact Hl|].
  destruct (@thermal_zones_denote unit sensor_kernel sensor_machine tt (fun _ => eq_refl) (fun _ => eq_refl) (fun _ => eq_refl)
    (lit "/t") [sample_zone] Hl) as (names & Hn & _).
  by exists names.
Defined.
