(* ===== verification/NaturalOrder.v ===== *)
(** * Natural order of names

    [natural_less] of [include/syscape/detail/printer/common.hpp], which
    [wifi/common.hpp] and [bluetooth/common.hpp] repeat word for word, and its
    variant in [include/syscape/detail/camera/common.hpp]: the comparison by
    which lists of devices are sorted. *)
From S2P Require Import Prelude Result CppText.

(** ** The comparison

    [char] values are compared, so the order of bytes above 127 depends on the
    signedness of [char]. *)

Section natural.
Context (char_is_signed : bool).

Definition char_value (c : ascii) : Z :=
  if char_is_signed && (128 <=? code c) then code c - 256 else code c.

Definition decimal (c : ascii) : bool :=
  (char_value "0" <=? char_value c) && (char_value c <=? char_value "9").

(** A run of digits: its leading zeros, its other digits, what follows it. *)
Record digit_run_parts := Digit_run_parts {
  leading_zeros : nat;
  significant : text;
  after_run : text
}.

Definition scan_run (l : text) : digit_run_parts :=
  let zeros := prefix_length (fun c => is_char c "0") l in
  let rest := drop zeros l in
  let digits := prefix_length decimal rest in
  Digit_run_parts zeros (take digits rest) (drop digits rest).

(** The loop on what is left of the two texts.  One unit of fuel is one
    iteration. *)
Fixpoint natural_loop (fuel : nat) (l r : text) : bool :=
  match fuel with
  | O => false
  | S fuel =>
      match l, r with
      | a :: l', b :: r' =>
          if negb (decimal a) || negb (decimal b) then
            if negb (is_char a b) then char_value a <? char_value b else natural_loop fuel l' r'
          else
            let lrun := scan_run l in
            let rrun := scan_run r in
            if negb (length (significant lrun) =? length (significant rrun))%nat
            then (length (significant lrun) <? length (significant rrun))%nat
            else if negb (same (significant lrun) (significant rrun))
            then text_less (significant lrun) (significant rrun)
            else if negb (leading_zeros lrun =? leading_zeros rrun)%nat
            then (leading_zeros lrun <? leading_zeros rrun)%nat
            else natural_loop fuel (after_run lrun) (after_run rrun)
      | _, _ => empty l && negb (empty r)
      end
  end.

Definition natural_less (l r : text) : bool := natural_loop (S (length l)) l r.

(** The variant compares the sizes of the runs, and at the end those of the
    texts [left] and [right]. *)
Fixpoint camera_loop (fuel : nat) (left_size right_size : nat) (l r : text) : bool :=
  match fuel with
  | O => false
  | S fuel =>
      match l, r with
      | a :: l', b :: r' =>
          if negb (decimal a) || negb (decimal b) then
            if negb (is_char a b) then char_value a <? char_value b
            else camera_loop fuel left_size right_size l' r'
          else
            let lrun := scan_run l in
            let rrun := scan_run r in
            if negb (length (significant lrun) =? length (significant rrun))%nat
            then (length (significant lrun) <? length (significant rrun))%nat
            else if negb (same (significant lrun) (significant rrun))
            then text_less (significant lrun) (significant rrun)
            else
              let left_run_size := (leading_zeros lrun + length (significant lrun))%nat in
              let right_run_size := (leading_zeros rrun + length (significant rrun))%nat in
              if negb (left_run_size =? right_run_size)%nat
              then (left_run_size <? right_run_size)%nat
              else camera_loop fuel left_size right_size (after_run lrun) (after_run rrun)
      | _, _ => (left_size <? right_size)%nat
      end
  end.

Definition camera_natural_less (l r : text) : bool :=
  camera_loop (S (length l)) (length l) (length r) l r.

(** ** The key by which the texts are compared *)

Fixpoint natural_key (fuel : nat) (l : text) : list Z :=
  match fuel with
  | O => []
  | S fuel =>
      match l with
      | [] => []
      | c :: l' =>
          if decimal c then
            let run := scan_run l in
            48 :: Z.of_nat (length (significant run)) :: (code <$> significant run) ++
            Z.of_nat (leading_zeros run) :: natural_key fuel (after_run run)
          else char_value c :: natural_key fuel l'
      end
  end.

Definition key (l : text) : list Z := natural_key (S (length l)) l.

Lemma char_value_cases c :
  char_value c = code c /\ (char_is_signed = false \/ code c < 128) \/
  char_value c = code c - 256 /\ 128 <= code c.
Proof.
  unfold char_value. destruct char_is_signed; simpl; [|auto].
  destruct (Z.leb_spec 128 (code c)); [by right|left; split; [done|right; lia]].
Qed.

Lemma decimal_code c : decimal c = true <-> 48 <= code c <= 57.
Proof.
  unfold decimal. assert (char_value "0" = 48) as -> by (by unfold char_value; destruct char_is_signed).
  assert (char_value "9" = 57) as -> by (by unfold char_value; destruct char_is_signed).
  pose proof (code_bound c). rewrite andb_true_iff, !Z.leb_le.
  destruct (char_value_cases c) as [[-> ?]|[-> ?]]; lia.
Qed.

Lemma char_value_inj c d : char_value c = char_value d -> c = d.
Proof.
  intros H. apply code_inj. pose proof (code_bound c). pose proof (code_bound d).
  unfold char_value in H. destruct char_is_signed; simpl in H; [|done].
  destruct (Z.leb_spec 128 (code c)), (Z.leb_spec 128 (code d)); lia.
Qed.

Lemma decimal_value c : decimal c = true -> 48 <= char_value c <= 57.
Proof. rewrite decimal_code. pose proof (code_bound c). destruct (char_value_cases c) as [[-> ?]|[-> ?]]; lia. Qed.

Lemma not_decimal_value c : decimal c = false -> char_value c < 48 \/ 57 < char_value c.
Proof.
  intros Hc. pose proof (code_bound c).
  assert (~ 48 <= code c <= 57) by (rewrite <- decimal_code; by rewrite Hc).
  destruct (char_value_cases c) as [[-> ?]|[-> ?]]; lia.
Qed.

(** A run is consumed, and it is not empty. *)
Lemma scan_run_split l :
  l = replicate (leading_zeros (scan_run l)) "0"%char ++ significant (scan_run l) ++ after_run (scan_run l).
Proof.
  unfold scan_run. simpl. rewrite take_drop.
  enough (take (prefix_length (fun c => is_char c "0") l) l =
          replicate (prefix_length (fun c => is_char c "0") l) "0"%char) as <- by (by rewrite take_drop).
  induction l as [|c l IH]; [done|]. simpl. destruct (is_char c "0") eqn:Hc; [|done].
  apply is_char_true in Hc as ->. simpl. by rewrite IH.
Qed.

Lemma scan_run_shorter c l : decimal c = true -> (length (after_run (scan_run (c :: l))) <= length l)%nat.
Proof.
  intros Hc. unfold scan_run. simpl. destruct (is_char c "0") eqn:E; simpl.
  - rewrite !length_drop. lia.
  - rewrite Hc. simpl. rewrite length_drop. lia.
Qed.

Lemma natural_key_fuel fuel fuel' l :
  (length l < fuel)%nat -> (length l < fuel')%nat -> natural_key fuel l = natural_key fuel' l.
Proof.
  revert fuel' l. induction fuel as [|fuel IH]; intros [|fuel'] l H H'; [lia..|].
  cbn [natural_key]. destruct l as [|c l]; [done|]. simpl in H, H'.
  destruct (decimal c) eqn:Hc.
  - pose proof (scan_run_shorter c l Hc). by rewrite (IH fuel') by lia.
  - by rewrite (IH fuel') by lia.
Qed.

Lemma key_cons c l :
  key (c :: l) =
  if decimal c then
    let run := scan_run (c :: l) in
    48 :: Z.of_nat (length (significant run)) :: (code <$> significant run) ++
    Z.of_nat (leading_zeros run) :: key (after_run run)
  else char_value c :: key l.
Proof.
  unfold key. remember (S (length l)) as n eqn:Hn. cbn [length]. rewrite <- Hn. cbn [natural_key].
  destruct (decimal c) eqn:Hc; cbv zeta.
  - pose proof (scan_run_shorter c l Hc).
    by rewrite (natural_key_fuel n (S (length (after_run (scan_run (c :: l))))))
      by lia.
  - by subst n.
Qed.

Lemma lexicographic_cons x l k : lexicographic (x :: l) (x :: k) = lexicographic l k.
Proof. simpl. by rewrite Z.ltb_irrefl. Qed.

Lemma lexicographic_neq x y l k : x <> y -> lexicographic (x :: l) (y :: k) = (x <? y).
Proof.
  intros H. simpl. destruct (Z.ltb_spec x y); [done|]. by rewrite (proj2 (Z.ltb_lt y x)) by lia.
Qed.

Lemma natural_loop_key fuel l r :
  (length l < fuel)%nat -> natural_loop fuel l r = lexicographic (key l) (key r).
Proof.
  revert l r. induction fuel as [|fuel IH]; intros l r Hf; [lia|].
  destruct l as [|a l], r as [|b r]; cbn [natural_loop].
  - done.
  - rewrite key_cons. by destruct (decimal b).
  - by rewrite key_cons; destruct (decimal a).
  - rewrite !key_cons. simpl in Hf.
    destruct (decimal a) eqn:Ha, (decimal b) eqn:Hb; cbn [negb orb]; cbv zeta.
    + pose proof (scan_run_shorter a l Ha) as Hs. rewrite lexicographic_cons.
      set (lrun := scan_run (a :: l)) in *. set (rrun := scan_run (b :: r)) in *.
      destruct (Nat.eqb_spec (length (significant lrun)) (length (significant rrun))) as [E|E]; cbn [negb].
      * rewrite E, lexicographic_cons, lexicographic_app by (by rewrite !length_fmap).
        unfold same, text_less. destruct (decide (significant lrun = significant rrun)) as [Es|Es].
        -- rewrite Es. rewrite (bool_decide_eq_true_2 (significant rrun = _)) by done. cbn [negb].
           rewrite (bool_decide_eq_true_2 (code <$> significant rrun = _)) by done.
           destruct (Nat.eqb_spec (leading_zeros lrun) (leading_zeros rrun)) as [Ez|Ez]; cbn [negb].
           ++ rewrite Ez, lexicographic_cons. apply IH. lia.
           ++ rewrite lexicographic_neq by lia. apply Bool.eq_iff_eq_true.
              rewrite Nat.ltb_lt, Z.ltb_lt. lia.
        -- rewrite (bool_decide_eq_false_2 (significant lrun = _)) by done. cbn [negb].
           rewrite (bool_decide_eq_false_2 (code <$> significant lrun = _)); [done|].
           by intros ?%(inj _).
      * rewrite lexicographic_neq by lia. apply Bool.eq_iff_eq_true.
        rewrite Nat.ltb_lt, Z.ltb_lt. lia.
    + apply decimal_value in Ha as Ha'. apply not_decimal_value in Hb as Hb'.
      rewrite lexicographic_neq by lia.
      rewrite (proj2 (is_char_false a b)) by congruence. cbn [negb].
      apply Bool.eq_iff_eq_true. rewrite !Z.ltb_lt. lia.
    + apply decimal_value in Hb as Hb'. apply not_decimal_value in Ha as Ha'.
      rewrite lexicographic_neq by lia.
      rewrite (proj2 (is_char_false a b)) by congruence. cbn [negb].
      apply Bool.eq_iff_eq_true. rewrite !Z.ltb_lt. lia.
    + destruct (decide (a = b)) as [->|Hne].
      * rewrite (proj2 (is_char_true b b)) by done. cbn [negb]. rewrite lexicographic_cons. apply IH. lia.
      * rewrite (proj2 (is_char_false a b)) by done. cbn [negb].
        by rewrite lexicographic_neq by (by intros ?%char_value_inj).
Qed.

Lemma natural_less_key l r : natural_less l r = lexicographic (key l) (key r).
Proof. apply natural_loop_key. lia. Qed.

Lemma key_inj l r : key l = key r -> l = r.
Proof.
  revert r. induction l as [l IH] using list_length_ind. intros r.
  destruct l as [|a l], r as [|b r]; [done|rewrite key_cons; by destruct (decimal b)|
    rewrite key_cons; by destruct (decimal a)|].
  rewrite !key_cons. destruct (decimal a) eqn:Ha, (decimal b) eqn:Hb; cbv zeta.
  - pose proof (scan_run_shorter a l Ha) as Hs.
    pose proof (scan_run_split (a :: l)) as Hl. pose proof (scan_run_split (b :: r)) as Hr.
    set (lrun := scan_run (a :: l)) in *. set (rrun := scan_run (b :: r)) in *.
    clearbody lrun rrun. intros [= Hlen Happ]. apply app_inj_1 in Happ as [Hc Hrest]; [|rewrite !length_fmap; lia].
    injection Hrest as Hz Hk. apply (inj (fmap code)) in Hc. apply Nat2Z.inj in Hz.
    apply IH in Hk; [|simpl; lia]. by rewrite Hl, Hr, Hc, Hz, Hk.
  - intros [= H _]. apply not_decimal_value in Hb. lia.
  - intros [= H _]. apply not_decimal_value in Ha. lia.
  - intros [= H1 H2]. apply char_value_inj in H1 as ->. f_equal. apply IH; [simpl; lia|done].
Qed.

(** ** The variant *)

Lemma camera_loop_natural fuel left_size right_size n l r :
  (length l < fuel)%nat -> left_size = (n + length l)%nat -> right_size = (n + length r)%nat ->
  camera_loop fuel left_size right_size l r = natural_loop fuel l r.
Proof.
  revert n l r. induction fuel as [|fuel IH]; intros n l r Hf Hl Hr; [lia|].
  destruct l as [|a l], r as [|b r]; cbn [camera_loop natural_loop].
  - apply Nat.ltb_ge. simpl in *. lia.
  - simpl in *. apply Nat.ltb_lt. lia.
  - simpl in *. apply Nat.ltb_ge. lia.
  - simpl in Hf. destruct (decimal a) eqn:Ha, (decimal b) eqn:Hb; cbn [negb orb]; cbv zeta.
    + pose proof (scan_run_shorter a l Ha) as Hs.
      pose proof (f_equal length (scan_run_split (a :: l))) as Hsl.
      pose proof (f_equal length (scan_run_split (b :: r))) as Hsr.
      rewrite !length_app, length_replicate in Hsl, Hsr.
      set (lrun := scan_run (a :: l)) in *. set (rrun := scan_run (b :: r)) in *.
      destruct (Nat.eqb_spec (length (significant lrun)) (length (significant rrun))) as [E|E];
        cbn [negb]; [|done].
      destruct (negb (same _ _)); [done|]. rewrite E.
      destruct (Nat.eqb_spec (leading_zeros lrun) (leading_zeros rrun)) as [Ez|Ez]; cbn [negb].
      * rewrite Ez, Nat.eqb_refl. cbn [negb].
        apply (IH (n + (leading_zeros rrun + length (significant rrun)))%nat); lia.
      * rewrite (proj2 (Nat.eqb_neq _ _)) by lia. cbn [negb]. apply Bool.eq_iff_eq_true.
        rewrite !Nat.ltb_lt. lia.
    + destruct (is_char a b); [|done]. apply (IH (S n)); simpl in *; lia.
    + destruct (is_char a b); [|done]. apply (IH (S n)); simpl in *; lia.
    + destruct (is_char a b); [|done]. apply (IH (S n)); simpl in *; lia.
Qed.

(** ** What the order means for names with numbers *)

Lemma prefix_length_stop p q c x :
  p c = false -> prefix_length p (q ++ c :: x) = prefix_length p q.
Proof.
  intros Hc. induction q as [|d q IH]; simpl; [by rewrite Hc|]. by rewrite IH.
Qed.

Lemma drop_app_stop {A} (q : list A) i x : (i <= length q)%nat -> drop i (q ++ x) = drop i q ++ x.
Proof. intros H. rewrite drop_app. by replace (i - length q)%nat with 0%nat by lia. Qed.

(** A run inside [q ++ c :: x] does not depend on [x]. *)
Lemma scan_run_stop q c x :
  decimal c = false ->
  scan_run (q ++ c :: x) =
  Digit_run_parts (leading_zeros (scan_run q)) (significant (scan_run q))
    (after_run (scan_run q) ++ c :: x).
Proof.
  intros Hc. unfold scan_run. simpl.
  assert (is_char c "0" = false) as H0.
  { apply is_char_false. intros ->. by rewrite (proj2 (decimal_code "0")) in Hc by done. }
  rewrite prefix_length_stop by done. pose proof (prefix_length_le (fun c => is_char c "0") q) as Hz.
  rewrite drop_app_stop by done. rewrite prefix_length_stop by done.
  pose proof (prefix_length_le decimal (drop (prefix_length (fun c => is_char c "0") q) q)).
  by rewrite take_app_le, drop_app_stop by done.
Qed.

Lemma key_stop q c :
  decimal c = false -> exists k, forall x : text, key (q ++ c :: x) = k ++ key x.
Proof.
  intros Hc. induction q as [q IH] using list_length_ind. destruct q as [|a q].
  - exists [char_value c]. intros y. cbn [app]. by rewrite key_cons, Hc.
  - destruct (decimal a) eqn:Ha.
    + pose proof (scan_run_shorter a q Ha) as Hs.
      destruct (IH (after_run (scan_run (a :: q)))) as (k & Hk); [cbn [length]; lia|].
      eexists (48 :: Z.of_nat (length (significant (scan_run (a :: q)))) ::
        (code <$> significant (scan_run (a :: q))) ++
        Z.of_nat (leading_zeros (scan_run (a :: q))) :: k).
      intros y. pose proof (scan_run_stop (a :: q) c y Hc) as Hrun. cbn [app] in Hrun |- *.
      rewrite key_cons, Ha, Hrun. cbv zeta. cbn [leading_zeros significant after_run].
      rewrite Hk. cbn [app]. by rewrite <- app_assoc.
    + destruct (IH q) as (k & Hk); [simpl; lia|]. exists (char_value a :: k). intros y. cbn [app].
      by rewrite key_cons, Ha, Hk.
Qed.

Lemma lexicographic_same_prefix k l r : lexicographic (k ++ l) (k ++ r) = lexicographic l r.
Proof. rewrite lexicographic_app by done. by rewrite bool_decide_eq_true_2. Qed.

(** A text that does not start with a digit. *)
Definition no_digit_first (l : text) : Prop := forall c, l !! 0%nat = Some c -> decimal c = false.

Lemma decimal_run l s :
  Forall (fun c => 48 <= code c <= 57) l -> no_digit_first s -> prefix_length decimal (l ++ s) = length l.
Proof.
  intros Hl Hs. induction Hl as [|c l Hc _ IH]; simpl.
  - destruct s as [|c s]; [done|]. simpl. by rewrite (Hs c).
  - rewrite (proj2 (decimal_code c) Hc). by rewrite IH.
Qed.

Lemma to_decimal_no_zero n c l : 0 < n -> to_decimal n = c :: l -> c <> "0"%char.
Proof.
  intros Hn Hl ->. pose proof (numeral_to_decimal n ltac:(lia)) as Hv.
  pose proof (numeric_to_decimal n ltac:(lia)) as Hd. rewrite Hl in Hv, Hd.
  destruct l as [|d l]; [vm_compute in Hv; lia|].
  assert (numeral 10 ("0"%char :: d :: l) = numeral 10 (d :: l)) as E.
  { unfold numeral, digits_value. cbn [digit_run]. change (digit_of 10 "0") with (Some 0). done. }
  assert (n < 10 ^ Z.of_nat (length (d :: l))) as Hb.
  { rewrite <- Hv, E. apply numeral_length; [lia|]. apply numeric_split in Hd as [_ Hd].
    apply numeric_split. split; [done|]. simpl in Hd. simpl. exact Hd. }
  pose proof (to_decimal_length n (length (d :: l)) ltac:(lia) ltac:(simpl; lia)) as Hlen.
  rewrite Hl in Hlen. simpl in Hlen. lia.
Qed.

Lemma scan_run_decimal n s :
  0 <= n -> no_digit_first s ->
  scan_run (to_decimal n ++ s) =
  if n =? 0 then Digit_run_parts 1 [] s else Digit_run_parts 0 (to_decimal n) s.
Proof.
  intros Hn Hs. destruct (Z.eqb_spec n 0) as [->|Hne].
  - unfold scan_run. change (to_decimal 0) with ["0"%char]. cbn [app prefix_length].
    rewrite (proj2 (is_char_true "0" "0") eq_refl).
    assert (prefix_length (fun c => is_char c "0") s = 0%nat) as ->.
    { destruct s as [|c s]; [done|]. simpl. destruct (is_char c "0") eqn:E; [|done].
      apply is_char_true in E as ->. specialize (Hs "0"%char eq_refl).
      by rewrite (proj2 (decimal_code "0")) in Hs by done. }
    cbn [drop]. rewrite !drop_0. pose proof (decimal_run [] s ltac:(done) Hs) as Hr. cbn [app] in Hr. by rewrite Hr.
  - unfold scan_run. pose proof (to_decimal_Forall n Hn) as Hd.
    destruct (to_decimal n) as [|c l] eqn:E; [by apply to_decimal_ne in E|].
    cbn [app prefix_length].
    rewrite (proj2 (is_char_false c "0")) by (eapply to_decimal_no_zero; [|done]; lia).
    rewrite drop_0, (app_comm_cons l s c), decimal_run by done.
    by rewrite take_app_length, drop_app_length.
Qed.

Lemma digits_order ds es :
  length ds = length es -> Forall (fun d => 0 <= d < 10) ds -> Forall (fun d => 0 <= d < 10) es ->
  lexicographic (Z.add 48 <$> ds) (Z.add 48 <$> es) = (digits_value 10 ds <? digits_value 10 es).
Proof.
  revert es. induction ds as [|d ds IH]; intros [|e es] Hlen Hds Hes; try done.
  simpl in Hlen. apply Forall_cons in Hds as [Hd Hds]. apply Forall_cons in Hes as [He Hes].
  pose proof (digits_value_bound 10 ds ltac:(lia) Hds) as Hbd.
  pose proof (digits_value_bound 10 es ltac:(lia) Hes) as Hbe.
  assert (forall x xs, digits_value 10 (x :: xs) =
    x * 10 ^ Z.of_nat (length xs) + digits_value 10 xs) as Hcons.
  { intros x xs. unfold digits_value at 1. cbn [foldl]. rewrite digits_value_acc. lia. }
  rewrite !Hcons. assert (length es = length ds) as E by lia. rewrite E in Hbe |- *. clear Hcons E.
  set (p := 10 ^ Z.of_nat (length ds)) in *. csimpl.
  destruct (Z.ltb_spec (48 + d) (48 + e)); [symmetry; apply Z.ltb_lt; nia|].
  destruct (Z.ltb_spec (48 + e) (48 + d)); [symmetry; apply Z.ltb_ge; nia|].
  assert (d = e) as -> by lia. rewrite IH by (done || lia). apply Bool.eq_iff_eq_true.
  rewrite !Z.ltb_lt. lia.
Qed.

Lemma to_decimal_codes n :
  0 <= n -> exists ds, code <$> to_decimal n = Z.add 48 <$> ds /\ length ds = length (to_decimal n) /\
    Forall (fun d => 0 <= d < 10) ds /\ digits_value 10 ds = n.
Proof.
  intros Hn. exists (digit_run 10 (to_decimal n)). rewrite to_decimal_digits by done.
  set (ds := decimal_digits _ n []).
  assert (Forall (fun d => 0 <= d < 10) ds) as Hds by (by apply decimal_digits_bound).
  split_and!; [|unfold to_decimal; by rewrite length_fmap|done|].
  - unfold to_decimal. fold ds. rewrite <- list_fmap_compose. apply list_fmap_ext.
    intros i d Hi. rewrite Forall_lookup in Hds. specialize (Hds i d Hi). simpl. unfold digit_char.
    rewrite code_char_of; lia.
  - transitivity (numeral 10 (to_decimal n)); [|by apply numeral_to_decimal].
    unfold numeral. by rewrite to_decimal_digits.
Qed.

Lemma to_decimal_longer m n :
  0 <= m -> 0 <= n -> (length (to_decimal m) < length (to_decimal n))%nat -> m < n.
Proof.
  intros Hm Hn Hlen. apply Z.nle_gt. intros Hle.
  pose proof (numeral_length 10 (to_decimal m) ltac:(lia) (numeric_to_decimal m Hm)) as Hb.
  rewrite numeral_to_decimal in Hb by done.
  assert (0 < length (to_decimal m))%nat.
  { pose proof (to_decimal_ne m Hm). destruct (to_decimal m); [done|simpl; lia]. }
  pose proof (to_decimal_length n (length (to_decimal m)) ltac:(lia) ltac:(lia)). lia.
Qed.

Lemma key_number n s :
  0 <= n -> no_digit_first s ->
  key (to_decimal n ++ s) =
  if n =? 0 then 48 :: 0 :: 1 :: key s
  else 48 :: Z.of_nat (length (to_decimal n)) :: (code <$> to_decimal n) ++ 0 :: key s.
Proof.
  intros Hn Hs. pose proof (scan_run_decimal n s Hn Hs) as Hr.
  destruct (to_decimal n) as [|c l] eqn:E; [by apply to_decimal_ne in E|].
  pose proof (to_decimal_Forall n Hn) as Hd. rewrite E in Hd. apply Forall_cons in Hd as [Hc _].
  cbn [app] in Hr |- *. rewrite key_cons, (proj2 (decimal_code c) Hc), Hr. by destruct (n =? 0).
Qed.

Lemma natural_numbers m n s t :
  0 <= m -> 0 <= n -> m <> n -> no_digit_first s -> no_digit_first t ->
  lexicographic (key (to_decimal m ++ s)) (key (to_decimal n ++ t)) = (m <? n).
Proof.
  intros Hm Hn Hne Hs Ht. rewrite !key_number by done.
  pose proof (to_decimal_ne m Hm) as Hm'. pose proof (to_decimal_ne n Hn) as Hn'.
  destruct (Z.eqb_spec m 0) as [->|Hm0], (Z.eqb_spec n 0) as [->|Hn0]; [done|..];
    rewrite lexicographic_cons.
  - rewrite lexicographic_neq by (destruct (to_decimal n); [done|simpl; lia]).
    rewrite (proj2 (Z.ltb_lt 0 n)) by lia. apply Z.ltb_lt. destruct (to_decimal n); [done|simpl; lia].
  - rewrite lexicographic_neq by (destruct (to_decimal m); [done|simpl; lia]).
    rewrite (proj2 (Z.ltb_ge m 0)) by lia. apply Z.ltb_ge. lia.
  - destruct (Nat.lt_trichotomy (length (to_decimal m)) (length (to_decimal n))) as [H|[H|H]].
    + rewrite lexicographic_neq by lia. apply to_decimal_longer in H as H'; [|done..].
      rewrite (proj2 (Z.ltb_lt m n)) by done. apply Z.ltb_lt. lia.
    + rewrite H, lexicographic_cons, lexicographic_app by (by rewrite !length_fmap).
      destruct (to_decimal_codes m Hm) as (ds & -> & Hdl & Hdb & Hdv).
      destruct (to_decimal_codes n Hn) as (es & -> & Hel & Heb & Hev).
      rewrite bool_decide_eq_false_2.
      * rewrite digits_order, Hdv, Hev by (done || lia). done.
      * assert (Inj (=) (=) (Z.add 48)) by (intros x y; lia). intros E%(inj _). congruence.
    + rewrite lexicographic_neq by lia. apply to_decimal_longer in H as H'; [|done..].
      rewrite (proj2 (Z.ltb_ge m n)) by lia. apply Z.ltb_ge. lia.
Qed.

Lemma camera_natural_less_key l r : camera_natural_less l r = lexicographic (key l) (key r).
Proof. rewrite <- natural_less_key. unfold camera_natural_less. apply (camera_loop_natural _ _ _ 0); lia. Qed.

End natural.

(** [natural_less] is a strict total order, as sorting needs: irreflexive,
    transitive, and of two different texts one is before the other, whatever
    the signedness of [char]; and the variant of the camera backend is the
    same order. *)
Theorem natural_less_order (char_is_signed : bool) :
  (forall a, natural_less char_is_signed a a = false) /\
  (forall a b c, natural_less char_is_signed a b = true ->
     natural_less char_is_signed b c = true -> natural_less char_is_signed a c = true) /\
  (forall a b, a <> b -> natural_less char_is_signed a b = negb (natural_less char_is_signed b a)) /\
  (forall a b, camera_natural_less char_is_signed a b = natural_less char_is_signed a b).
Proof.
  split_and!.
  - intros a. rewrite natural_less_key. apply lexicographic_irrefl.
  - intros a b c. rewrite !natural_less_key. apply lexicographic_lt_trans.
  - intros a b Hne. rewrite !natural_less_key.
    destruct (lexicographic (key _ a) (key _ b)) eqn:E1.
    + by rewrite (lexicographic_asym _ _ E1).
    + destruct (lexicographic (key _ b) (key _ a)) eqn:E2; [done|]. exfalso.
      by apply Hne, (key_inj char_is_signed), lexicographic_antisym.
  - intros a b. by rewrite camera_natural_less_key, natural_less_key.
Qed.

(** numbers inside names sort by value: after a common beginning that does
    not end in a digit, two different numbers decide, whatever follows them. *)
Lemma natural_less_numbers (char_is_signed : bool) (q s t : text) (c : ascii) (m n : Z) :
  decimal char_is_signed c = false -> 0 <= m -> 0 <= n -> m <> n ->
  no_digit_first char_is_signed s -> no_digit_first char_is_signed t ->
  natural_less char_is_signed (q ++ c :: to_decimal m ++ s) (q ++ c :: to_decimal n ++ t) = (m <? n).
Proof.
  intros Hc Hm Hn Hne Hs Ht. rewrite natural_less_key.
  destruct (key_stop char_is_signed q c Hc) as (k & Hk). rewrite !Hk, lexicographic_same_prefix.
  by apply natural_numbers.
Qed.

