(* ===== verification/Printer.v ===== *)
(** * Printers: text, identities, classification and the CUPS configuration

    [include/syscape/printer.hpp] (its records) and
    [include/syscape/detail/printer/common.hpp], except [natural_less]
    ([NaturalOrder]), the HTTP response ([PrinterHttp]) and the printing
    protocol ([PrinterIpp]). *)
From S2P Require Import Prelude Result CppText Utf8.

(** ** printer.hpp *)

Inductive printer_state := state_unknown | state_idle | state_processing | state_stopped.

Inductive printer_type := type_unknown | type_local | type_network | type_virtual_printer.

#[global] Instance printer_state_eq_dec : EqDecision printer_state.
Proof. solve_decision. Defined.

#[global] Instance printer_type_eq_dec : EqDecision printer_type.
Proof. solve_decision. Defined.

Record printer_capabilities := Printer_capabilities {
  cap_color : option bool;
  cap_duplex : option bool;
  cap_copies : option bool;
  cap_collate : option bool;
  supported_media : list text;
  supported_resolutions : list text;
  max_copies : option Z
}.

Record printer_info := Printer_info {
  pi_id : text;
  pi_name : text;
  driver_name : text;
  location : text;
  description : text;
  uri : text;
  pi_type : printer_type;
  pi_state : printer_state;
  is_default : option bool;
  is_shared : option bool;
  is_accepting_jobs : option bool;
  queued_job_count : option Z;
  capabilities : printer_capabilities
}.

#[global] Instance printer_capabilities_eq_dec : EqDecision printer_capabilities.
Proof. solve_decision. Defined.

#[global] Instance printer_info_eq_dec : EqDecision printer_info.
Proof. solve_decision. Defined.

Definition no_capabilities : printer_capabilities :=
  Printer_capabilities None None None None [] [] None.

(** [printer_info{}] *)
Definition empty_printer : printer_info :=
  Printer_info [] [] [] [] [] [] type_unknown state_unknown None None None None no_capabilities.

(** ** Assignments to members *)

Definition with_names (id name : text) (p : printer_info) : printer_info :=
  Printer_info id name (driver_name p) (location p) (description p) (uri p) (pi_type p) (pi_state p)
    (is_default p) (is_shared p) (is_accepting_jobs p) (queued_job_count p) (capabilities p).

Definition with_driver (v : text) (p : printer_info) : printer_info :=
  Printer_info (pi_id p) (pi_name p) v (location p) (description p) (uri p) (pi_type p) (pi_state p)
    (is_default p) (is_shared p) (is_accepting_jobs p) (queued_job_count p) (capabilities p).

Definition with_location (v : text) (p : printer_info) : printer_info :=
  Printer_info (pi_id p) (pi_name p) (driver_name p) v (description p) (uri p) (pi_type p) (pi_state p)
    (is_default p) (is_shared p) (is_accepting_jobs p) (queued_job_count p) (capabilities p).

Definition with_description (v : text) (p : printer_info) : printer_info :=
  Printer_info (pi_id p) (pi_name p) (driver_name p) (location p) v (uri p) (pi_type p) (pi_state p)
    (is_default p) (is_shared p) (is_accepting_jobs p) (queued_job_count p) (capabilities p).

Definition with_uri (v : text) (p : printer_info) : printer_info :=
  Printer_info (pi_id p) (pi_name p) (driver_name p) (location p) (description p) v (pi_type p)
    (pi_state p) (is_default p) (is_shared p) (is_accepting_jobs p) (queued_job_count p)
    (capabilities p).

Definition with_type (v : printer_type) (p : printer_info) : printer_info :=
  Printer_info (pi_id p) (pi_name p) (driver_name p) (location p) (description p) (uri p) v
    (pi_state p) (is_default p) (is_shared p) (is_accepting_jobs p) (queued_job_count p)
    (capabilities p).

Definition with_state (v : printer_state) (p : printer_info) : printer_info :=
  Printer_info (pi_id p) (pi_name p) (driver_name p) (location p) (description p) (uri p) (pi_type p)
    v (is_default p) (is_shared p) (is_accepting_jobs p) (queued_job_count p) (capabilities p).

Definition with_default (v : option bool) (p : printer_info) : printer_info :=
  Printer_info (pi_id p) (pi_name p) (driver_name p) (location p) (description p) (uri p) (pi_type p)
    (pi_state p) v (is_shared p) (is_accepting_jobs p) (queued_job_count p) (capabilities p).

Definition with_shared (v : option bool) (p : printer_info) : printer_info :=
  Printer_info (pi_id p) (pi_name p) (driver_name p) (location p) (description p) (uri p) (pi_type p)
    (pi_state p) (is_default p) v (is_accepting_jobs p) (queued_job_count p) (capabilities p).

Definition with_accepting (v : option bool) (p : printer_info) : printer_info :=
  Printer_info (pi_id p) (pi_name p) (driver_name p) (location p) (description p) (uri p) (pi_type p)
    (pi_state p) (is_default p) (is_shared p) v (queued_job_count p) (capabilities p).

Definition with_jobs (v : option Z) (p : printer_info) : printer_info :=
  Printer_info (pi_id p) (pi_name p) (driver_name p) (location p) (description p) (uri p) (pi_type p)
    (pi_state p) (is_default p) (is_shared p) (is_accepting_jobs p) v (capabilities p).

Definition with_capabilities (f : printer_capabilities -> printer_capabilities) (p : printer_info)
    : printer_info :=
  Printer_info (pi_id p) (pi_name p) (driver_name p) (location p) (description p) (uri p) (pi_type p)
    (pi_state p) (is_default p) (is_shared p) (is_accepting_jobs p) (queued_job_count p)
    (f (capabilities p)).

(** ** common.hpp: text *)

Definition blank (c : ascii) : bool := code c <=? 32.

Definition trim_whitespace (input : text) : text := trim blank input.

Definition equals_ignore_case (l r : text) : bool :=
  if negb (length l =? length r)%nat then false else ignore_case_loop l r.

Definition starts_with_ignore_case (input prefix : text) : bool :=
  if (length input <? length prefix)%nat then false
  else equals_ignore_case (substr 0 (length prefix) input) prefix.

Definition contains_ignore_case (input part : text) : bool :=
  if empty part then true
  else if (length input <? length part)%nat then false
  else existsb (fun i => equals_ignore_case (substr i (length part) input) part)
         (seq 0 (S (length input - length part))).

(** ** Identities *)

Definition hex_value (c : ascii) : Z :=
  if (48 <=? code c) && (code c <=? 57) then code c - 48
  else if (97 <=? code c) && (code c <=? 102) then code c - 97 + 10
  else if (65 <=? code c) && (code c <=? 70) then code c - 65 + 10
  else -1.

(** What one byte adds to the normalized text. *)
Definition identity_byte (byte : Z) : text :=
  if (97 <=? byte) && (byte <=? 122) || (48 <=? byte) && (byte <=? 57) || (0x80 <=? byte)
  then [char_of byte]
  else if (65 <=? byte) && (byte <=? 90) then [char_of (byte - 65 + 97)]
  else [].

Fixpoint identity_loop (input : text) : text :=
  match input with
  | [] => []
  | c :: rest =>
      match is_char c "%", rest with
      | true, h :: l :: rest' =>
          let high := hex_value h in
          let low := hex_value l in
          if (0 <=? high) && (0 <=? low)
          then identity_byte (Z.lor (Z.shiftl high 4) low) ++ identity_loop rest'
          else identity_byte (code c) ++ identity_loop rest
      | _, _ => identity_byte (code c) ++ identity_loop rest
      end
  end.

Definition normalized_printer_identity (input : text) : text :=
  let input := if starts_with_ignore_case input (lit "usb://") then substr_from 6 input else input in
  let input := match find "?" input 0 with Some query => substr 0 query input | None => input end in
  identity_loop input.

(** ** Numbers and encodings *)

(** [parse_int<IntType>] at an unsigned type with maximum [max]. *)
Definition parse_int (max base : Z) (input : text) : option Z :=
  let input := trim_whitespace input in
  let input :=
    if base =? 16 then
      match input with
      | "0"%char :: x :: rest => if is_char x "x" || is_char x "X" then rest else input
      | _ => input
      end
    else input in
  if empty input then None
  else
    let parsed := from_chars_unsigned max base input in
    if consumed parsed input then Some (fc_value parsed) else None.

Definition validate_utf8 (input : text) : result text :=
  if negb (is_valid_utf8 input) then fail errc_invalid_encoding else Value input.

(** ** Classification *)

Definition classify_printer_type (uri name driver : text) : printer_type :=
  let scheme prefix := starts_with_ignore_case uri (lit prefix) in
  let named part := contains_ignore_case name (lit part) in
  let driven part := contains_ignore_case driver (lit part) in
  if scheme "cups-pdf:"%string || scheme "cups-pdf://"%string || scheme "pdf:"%string ||
     scheme "file:"%string || scheme "PORTPROMPT:"%string || scheme "nul:"%string ||
     named "PDF"%string || named "XPS"%string || named "Fax"%string ||
     named "Document Writer"%string || driven "PDF"%string || driven "XPS"%string ||
     driven "Fax"%string
  then type_virtual_printer
  else if scheme "ipp://"%string || scheme "ipps://"%string || scheme "socket://"%string ||
     scheme "lpd://"%string || scheme "smb://"%string || scheme "dnssd://"%string ||
     scheme "mdns://"%string || scheme "http://"%string || scheme "https://"%string ||
     scheme "wsd://"%string || scheme "IP_"%string || scheme "WSD-"%string
  then type_network
  else if scheme "usb://"%string || scheme "parallel://"%string || scheme "/dev/usb/lp"%string ||
     scheme "/dev/lp"%string || scheme "USB"%string || scheme "LPT"%string || scheme "COM"%string
  then type_local
  else type_unknown.

Definition map_ipp_printer_state (state : Z) : printer_state :=
  match state with
  | 3 => state_idle
  | 4 => state_processing
  | 5 => state_stopped
  | _ => state_unknown
  end.

(** ** The default printer *)

Definition set_default_by_name (printers : list printer_info) (name : text) : list printer_info :=
  (fun item => with_default (Some (same (pi_id item) name || same (pi_name item) name)) item)
    <$> printers.

Definition marked_default (item : printer_info) : bool := default false (is_default item).

Definition marked_default_printer (printers : list printer_info) : result printer_info :=
  match list_find marked_default printers with
  | Some (_, item) => Value item
  | None => fail errc_not_found
  end.

Definition resolve_snapshot_default (printers : list printer_info) (default_known : bool)
    (default_error : option error_code) : result printer_info :=
  match printers with
  | [] => fail errc_not_found
  | _ =>
      match marked_default_printer printers with
      | Value selected => Value selected
      | Failure _ =>
          match default_error with
          | Some error => Failure error
          | None => if negb default_known then fail errc_not_supported else fail errc_not_found
          end
      end
  end.

(** ** The configuration file *)

Record conf_state := Conf_state {
  printers : list printer_info;
  current : printer_info;
  in_printer : bool;
  current_is_default : bool;
  saw_default : bool
}.

Definition yes_no (val : text) : option bool :=
  if equals_ignore_case val (lit "Yes") || equals_ignore_case val (lit "True") || same val (lit "1")
  then Some true
  else if equals_ignore_case val (lit "No") || equals_ignore_case val (lit "False") ||
          same val (lit "0")
  then Some false
  else None.

(** A [Key Value] line inside a printer. *)
Definition conf_entry (key val : text) (current : printer_info) : result printer_info :=
  let is_key k := equals_ignore_case key (lit k) in
  if is_key "Info"%string then text ← validate_utf8 val; mret (with_description text current)
  else if is_key "Location"%string then text ← validate_utf8 val; mret (with_location text current)
  else if is_key "MakeModel"%string then text ← validate_utf8 val; mret (with_driver text current)
  else if is_key "DeviceURI"%string then text ← validate_utf8 val; mret (with_uri text current)
  else if is_key "State"%string then
    if equals_ignore_case val (lit "Idle") then mret (with_state state_idle current)
    else if equals_ignore_case val (lit "Processing") then mret (with_state state_processing current)
    else if equals_ignore_case val (lit "Stopped") then mret (with_state state_stopped current)
    else fail errc_malformed_data
  else if is_key "Accepting"%string then
    match yes_no val with
    | Some v => mret (with_accepting (Some v) current)
    | None => fail errc_malformed_data
    end
  else if is_key "Shared"%string then
    match yes_no val with
    | Some v => mret (with_shared (Some v) current)
    | None => fail errc_malformed_data
    end
  else mret current.

Definition conf_line (line : text) (s : conf_state) : step conf_state (result (list printer_info)) :=
  let line := trim_whitespace line in
  if empty line || starts_with (lit "#") line then Next s
  else if starts_with_ignore_case line (lit "<Printer ") ||
          starts_with_ignore_case line (lit "<DefaultPrinter ") then
    if in_printer s then Return (fail errc_malformed_data)
    else
      let is_def := starts_with_ignore_case line (lit "<DefaultPrinter ") in
      let tag_len := if is_def then 16%nat else 9%nat in
      match find ">" line tag_len with
      | None => Return (fail errc_malformed_data)
      | Some close_bracket =>
          if negb (empty (trim_whitespace (substr_from (S close_bracket) line)))
          then Return (fail errc_malformed_data)
          else
            name <-? validate_utf8 (trim_whitespace (substr tag_len (close_bracket - tag_len) line));
            if empty name || (is_def && saw_default s) then Return (fail errc_malformed_data)
            else
              Next (Conf_state (printers s)
                      (with_default (Some is_def) (with_names name name empty_printer)) true is_def
                      (saw_default s || is_def))
      end
  else if starts_with_ignore_case line (lit "</Printer>") ||
          starts_with_ignore_case line (lit "</DefaultPrinter>") then
    let closes_default := starts_with_ignore_case line (lit "</DefaultPrinter>") in
    if negb (in_printer s) || negb (Bool.eqb closes_default (current_is_default s)) ||
       negb (empty (trim_whitespace (substr_from (if closes_default then 17 else 10)%nat line)))
    then Return (fail errc_malformed_data)
    else
      let current := with_type (classify_printer_type (uri (current s)) (pi_name (current s))
                                  (driver_name (current s))) (current s) in
      Next (Conf_state (printers s ++ [current]) current false (current_is_default s) (saw_default s))
  else if negb (in_printer s) then Next s
  else
    match find " " line 0 with
    | None => Next s
    | Some space_pos =>
        let key := trim_whitespace (substr 0 space_pos line) in
        let val := trim_whitespace (substr_from (S space_pos) line) in
        current <-? conf_entry key val (current s);
        Next (Conf_state (printers s) current true (current_is_default s) (saw_default s))
    end.

Definition parse_cups_printers_conf (content : text) : result (list printer_info) :=
  finish (each_field ch_lf content conf_line (Conf_state [] empty_printer false false false))
    (fun s => if in_printer s then fail errc_malformed_data else Value (printers s)).

(** ** The file a configuration is written as

    A specification: the lines of a printer in any order and number, the last
    of a kind deciding, with keys the library does not read and comments. *)

Inductive conf_item :=
  | Item_info (v : text)
  | Item_location (v : text)
  | Item_make_model (v : text)
  | Item_device_uri (v : text)
  | Item_idle
  | Item_processing
  | Item_stopped
  | Item_accepting (v : bool)
  | Item_shared (v : bool)
  | Item_other (key v : text)
  | Item_comment (v : text).

Definition key_line (key v : text) : text := key ++ " "%char :: v.

Definition yes_no_text (v : bool) : text := if v then lit "Yes" else lit "No".

Definition item_entry (i : conf_item) : option (text * text) :=
  match i with
  | Item_info v => Some (lit "Info", v)
  | Item_location v => Some (lit "Location", v)
  | Item_make_model v => Some (lit "MakeModel", v)
  | Item_device_uri v => Some (lit "DeviceURI", v)
  | Item_idle => Some (lit "State", lit "Idle")
  | Item_processing => Some (lit "State", lit "Processing")
  | Item_stopped => Some (lit "State", lit "Stopped")
  | Item_accepting v => Some (lit "Accepting", yes_no_text v)
  | Item_shared v => Some (lit "Shared", yes_no_text v)
  | Item_other key v => Some (key, v)
  | Item_comment _ => None
  end.

Definition item_line (i : conf_item) : text :=
  match item_entry i, i with
  | Some (key, v), _ => key_line key v
  | None, Item_comment v => "#"%char :: v
  | None, _ => []
  end.

Definition item_effect (p : printer_info) (i : conf_item) : printer_info :=
  match i with
  | Item_info v => with_description v p
  | Item_location v => with_location v p
  | Item_make_model v => with_driver v p
  | Item_device_uri v => with_uri v p
  | Item_idle => with_state state_idle p
  | Item_processing => with_state state_processing p
  | Item_stopped => with_state state_stopped p
  | Item_accepting v => with_accepting (Some v) p
  | Item_shared v => with_shared (Some v) p
  | Item_other _ _ | Item_comment _ => p
  end.

Record conf_block := Conf_block {
  block_comments : list text;
  block_default : bool;
  block_name : text;
  block_items : list conf_item
}.

Definition open_tag (is_def : bool) : text :=
  if is_def then lit "<DefaultPrinter " else lit "<Printer ".

Definition block_lines (b : conf_block) : list text :=
  (cons "#"%char <$> block_comments b) ++
  [open_tag (block_default b) ++ block_name b ++ lit ">"] ++
  (item_line <$> block_items b) ++
  [if block_default b then lit "</DefaultPrinter>" else lit "</Printer>"].

Definition render_conf (blocks : list conf_block) : text :=
  concat ((fun l => l ++ [ch_lf]) <$> (blocks ≫= block_lines)).

Definition block_printer (b : conf_block) : printer_info :=
  let p := fold_left item_effect (block_items b)
             (with_default (Some (block_default b))
                (with_names (block_name b) (block_name b) empty_printer)) in
  with_type (classify_printer_type (uri p) (pi_name p) (driver_name p)) p.

(** A value the file can carry: nonempty UTF-8 without surrounding blanks and
    line ends. *)
Definition conf_text (v : text) : bool :=
  is_valid_utf8 v && negb (empty v) && same (trim_whitespace v) v && bool_decide (ch_lf ∉ v).

Definition read_keys : list text :=
  lit <$> ["Info"; "Location"; "MakeModel"; "DeviceURI"; "State"; "Accepting"; "Shared"]%string.

Definition other_key (key : text) : bool :=
  negb (empty key) && forallb (fun c => negb (blank c)) key &&
  negb (starts_with (lit "#") key) && negb (starts_with (lit "<") key) &&
  forallb (fun k => negb (equals_ignore_case key k)) read_keys.

Definition item_ok (i : conf_item) : bool :=
  match i with
  | Item_info v | Item_location v | Item_make_model v | Item_device_uri v => conf_text v
  | Item_other key v => other_key key && conf_text v
  | Item_comment v => bool_decide (ch_lf ∉ v)
  | _ => true
  end.

Definition block_ok (b : conf_block) : bool :=
  forallb (fun v => bool_decide (ch_lf ∉ v)) (block_comments b) &&
  conf_text (block_name b) && bool_decide (">"%char ∉ block_name b) && forallb item_ok (block_items b).

(** ** Lemmas on the comparisons *)

Lemma equals_ignore_case_folded l r :
  equals_ignore_case l r = true <-> tolower <$> l = tolower <$> r.
Proof.
  unfold equals_ignore_case. destruct (Nat.eqb_spec (length l) (length r)) as [E|E]; simpl.
  - by apply ignore_case_loop_spec.
  - split; [done|]. intros H. apply (f_equal length) in H. by rewrite !length_fmap in H.
Qed.

Lemma starts_with_ignore_case_app p l : starts_with_ignore_case (p ++ l) p = true.
Proof.
  unfold starts_with_ignore_case. rewrite (proj2 (Nat.ltb_ge _ _)) by (rewrite length_app; lia).
  rewrite substr_prefix. by apply equals_ignore_case_folded.
Qed.

Lemma starts_with_ignore_case_head c l d p :
  tolower c <> tolower d -> starts_with_ignore_case (c :: l) (d :: p) = false.
Proof.
  intros H. unfold starts_with_ignore_case. destruct (_ <? _)%nat; [done|].
  apply not_true_iff_false. rewrite equals_ignore_case_folded. unfold substr. cbn. congruence.
Qed.

Lemma starts_with_ignore_case_spec l p :
  starts_with_ignore_case l p = true <-> exists q r, l = q ++ r /\ tolower <$> q = tolower <$> p.
Proof.
  unfold starts_with_ignore_case, substr. rewrite drop_0. split.
  - destruct (Nat.ltb_spec (length l) (length p)); [done|]. rewrite equals_ignore_case_folded.
    intros E. exists (take (length p) l), (drop (length p) l). by rewrite take_drop.
  - intros (q & r & -> & E). pose proof (f_equal length E) as Hl. rewrite !length_fmap in Hl.
    rewrite (proj2 (Nat.ltb_ge _ _)) by (rewrite length_app; lia).
    by rewrite <- Hl, take_app_length, equals_ignore_case_folded.
Qed.

(** ** Numbers *)

Lemma parse_int_range max base input v :
  0 < base -> parse_int max base input = Some v -> 0 <= v <= max.
Proof.
  intros Hb. unfold parse_int. cbv zeta. set (l := if base =? 16 then _ else _).
  destruct (empty l); [done|]. destruct (consumed _ l) eqn:E; [|done]. intros [= <-].
  rewrite consumed_value by done. apply consumed_unsigned in E as [_ H].
  pose proof (numeral_nonneg base l Hb). lia.
Qed.

Lemma digit_not_blank base c : is_digit_in base c = true -> blank c = false.
Proof.
  unfold is_digit_in, digit_of, blank. pose proof (code_bound c). cbv zeta.
  repeat split_if; intros; try discriminate; lia.
Qed.

Lemma numeric_not_blank base l : numeric base l = true -> Forall (fun c => blank c = false) l.
Proof.
  intros [_ H]%numeric_split. apply Forall_forall. intros c Hc.
  apply (digit_not_blank base). rewrite forallb_forall in H. by apply H, list_elem_of_In.
Qed.

Lemma digit_not_x c : is_digit_in 16 c = true -> is_char c "x" || is_char c "X" = false.
Proof.
  intros H. apply orb_false_iff. split; apply is_char_false; intros ->; vm_compute in H; discriminate.
Qed.

(** A numeral is parsed to its value, or rejected when it does not fit. *)
Lemma parse_int_numeric max base l :
  numeric base l = true ->
  parse_int max base l = if numeral base l <=? max then Some (numeral base l) else None.
Proof.
  intros Hn. unfold parse_int, trim_whitespace.
  rewrite trim_trimmed by by apply trimmed_Forall, (numeric_not_blank base).
  cbv zeta. replace (if base =? 16 then _ else l) with l.
  - pose proof Hn as [Hne _]%numeric_split. rewrite (proj2 (empty_false l) Hne), from_chars_numeric by done.
    destruct (Z.leb_spec (numeral base l) max).
    + unfold consumed. cbn [fc_ec fc_ptr fc_value]. by rewrite Nat.eqb_refl, bool_decide_eq_true_2.
    + done.
  - destruct (Z.eqb_spec base 16) as [->|]; [|done].
    pose proof Hn as [_ Hd]%numeric_split. destruct l as [|c [|x l]]; [done| |].
    + by destruct c as [[] [] [] [] [] [] [] []].
    + cbn [forallb] in Hd. rewrite !andb_true_iff in Hd. destruct Hd as (_ & Hx & _).
      rewrite (digit_not_x x Hx). by destruct c as [[] [] [] [] [] [] [] []].
Qed.

(** ** The lines of a configuration *)

Lemma conf_text_spec v :
  conf_text v = true <->
  is_valid_utf8 v = true /\ v <> [] /\ trimmed blank v /\ ch_lf ∉ v.
Proof.
  unfold conf_text. rewrite !andb_true_iff, negb_true_iff, empty_false, same_true, bool_decide_eq_true.
  unfold trim_whitespace. split.
  - intros [[[? ?] E] ?]. split_and!; try done. rewrite <- E. apply trim_is_trimmed.
  - intros (? & ? & ? & ?). split_and!; try done. by apply trim_trimmed.
Qed.

Lemma trimmed_enclosed (p : ascii -> bool) a m b :
  a <> [] -> b <> [] -> trimmed p a -> trimmed p b -> trimmed p (a ++ m ++ b).
Proof.
  intros Ha Hb [Ha1 _] [_ Hb2]. split.
  - intros c Hc. apply Ha1. destruct a; [done|]. exact Hc.
  - intros c Hc. apply Hb2. rewrite app_assoc, last_app in Hc. by destruct (last b) eqn:E; [|apply last_None in E].
Qed.

Lemma nonblank_trimmed (key : text) :
  forallb (fun c => negb (blank c)) key = true -> trimmed blank key /\ " "%char ∉ key /\ ch_lf ∉ key.
Proof.
  intros H. assert (Forall (fun c => blank c = false) key) as Hf.
  { apply Forall_forall. intros c Hc. rewrite forallb_forall in H.
    by apply negb_true_iff, H, list_elem_of_In. }
  split; [by apply trimmed_Forall|]. rewrite Forall_forall in Hf. split; intros Hin; by apply Hf in Hin.
Qed.

(** What a line of a key and a value does inside a printer. *)
Lemma conf_key_line key v s :
  key <> [] -> forallb (fun c => negb (blank c)) key = true ->
  starts_with (lit "#") key = false -> starts_with (lit "<") key = false ->
  conf_text v = true -> in_printer s = true ->
  conf_line (key_line key v) s =
  (current <-? conf_entry key v (current s);
   Next (Conf_state (printers s) current true (current_is_default s) (saw_default s))).
Proof.
  intros Hne Hkey Hhash Htag (_ & Hv & Htrim & _)%conf_text_spec Hin.
  destruct (nonblank_trimmed key Hkey) as (Hktrim & Hspace & _).
  assert (trim_whitespace (key_line key v) = key_line key v) as E.
  { apply trim_trimmed. change (key_line key v) with (key ++ [" "%char] ++ v).
    by apply trimmed_enclosed. }
  unfold conf_line. rewrite E. cbv zeta. destruct key as [|c key]; [done|].
  assert (tolower c <> tolower "<") as Hlt.
  { unfold starts_with in Htag. cbn in Htag. unfold tolower. pose proof (code_bound c).
    intros Hc. assert (code c = code "<") as Hc'%(inj code).
    { change (code "<") with 60 in *. cbn [andb Z.leb] in Hc. destruct (_ && _) eqn:B; bool_to_prop; cbn in Hc; lia. }
    subst c. by rewrite (proj2 (same_true _ _)) in Htag. }
  replace (empty (key_line (c :: key) v) || starts_with (lit "#") (key_line (c :: key) v)) with false
    by (unfold starts_with in *; cbn in *; done).
  assert (forall p, starts_with_ignore_case (key_line (c :: key) v) ("<"%char :: p) = false) as Hst
    by (intros p; by apply starts_with_ignore_case_head).
  change (lit "<Printer ") with ("<"%char :: lit "Printer ").
  change (lit "<DefaultPrinter ") with ("<"%char :: lit "DefaultPrinter ").
  change (lit "</Printer>") with ("<"%char :: lit "/Printer>").
  change (lit "</DefaultPrinter>") with ("<"%char :: lit "/DefaultPrinter>"). rewrite !Hst.
  cbn [orb]. rewrite Hin. cbn [negb].
  destruct (find_app_parts " "%char (c :: key) v Hspace) as (Hf & Hs & Hr).
  unfold key_line. rewrite Hf, Hs, Hr. unfold trim_whitespace.
  by rewrite !trim_trimmed by done.
Qed.

(** Evaluates the comparisons of known texts. *)
Ltac decide_texts :=
  repeat match goal with
  | |- context [equals_ignore_case (lit ?a) (lit ?b)] =>
      let r := eval vm_compute in (equals_ignore_case (lit a) (lit b)) in
      change (equals_ignore_case (lit a) (lit b)) with r
  | |- context [same (lit ?a) (lit ?b)] =>
      let r := eval vm_compute in (same (lit a) (lit b)) in
      change (same (lit a) (lit b)) with r
  end.

Lemma conf_entry_item i p key v :
  item_ok i = true -> item_entry i = Some (key, v) -> conf_entry key v p = Value (item_effect p i).
Proof.
  intros Hok E. destruct i; cbn [item_ok item_entry] in *; try discriminate E;
    injection E as <- <-; unfold conf_entry.
  1-4: apply conf_text_spec in Hok as (Hu & _); decide_texts; unfold validate_utf8; by rewrite Hu.
  1-3: by decide_texts.
  1-2: by destruct v0; unfold yes_no_text, yes_no; decide_texts.
  apply andb_true_iff in Hok as [Hk _]. unfold other_key in Hk. rewrite !andb_true_iff in Hk.
  destruct Hk as [_ Hk]. unfold read_keys in Hk. cbn [forallb fmap list_fmap] in Hk.
  rewrite !andb_true_iff, !negb_true_iff in Hk.
  destruct Hk as (H1 & H2 & H3 & H4 & H5 & H6 & H7 & _). by rewrite H1, H2, H3, H4, H5, H6, H7.
Qed.

(** The keys the library reads, and those it does not, are words. *)
Lemma item_key_word i key v :
  item_ok i = true -> item_entry i = Some (key, v) ->
  key <> [] /\ forallb (fun c => negb (blank c)) key = true /\
  starts_with (lit "#") key = false /\ starts_with (lit "<") key = false /\ conf_text v = true.
Proof.
  intros Hok E. destruct i; cbn [item_ok item_entry] in *; try discriminate E; injection E as <- <-;
    try (split_and!; done).
  1-2: by destruct v0; split_and!.
  rewrite andb_true_iff in Hok. destruct Hok as [Hk Hv]. unfold other_key in Hk.
  rewrite !andb_true_iff, !negb_true_iff, empty_false in Hk.
  destruct Hk as [[[[? ?] ?] ?] _]. by split_and!.
Qed.

Lemma comment_line v s : conf_line ("#"%char :: v) s = Next s.
Proof.
  unfold conf_line, trim_whitespace, trim. change (drop_front blank ("#"%char :: v)) with ("#"%char :: v).
  destruct (drop_back_split blank ("#"%char :: v)) as (l2 & E & Hf).
  destruct (drop_back blank ("#"%char :: v)) as [|c l] eqn:D; [done|].
  cbn in E. injection E as <- _. by rewrite orb_true_r.
Qed.

Lemma item_line_step i s :
  item_ok i = true -> in_printer s = true ->
  conf_line (item_line i) s =
  Next (Conf_state (printers s) (item_effect (current s) i) true (current_is_default s) (saw_default s)).
Proof.
  intros Hok Hin. unfold item_line. destruct (item_entry i) as [[key v]|] eqn:E.
  - destruct (item_key_word _ _ _ Hok E) as (? & ? & ? & ? & ?).
    rewrite conf_key_line by done. by rewrite (conf_entry_item i _ _ _ Hok E).
  - destruct i; try done. rewrite comment_line. destruct s. cbn in *. by rewrite Hin.
Qed.

Lemma items_fold items s :
  forallb item_ok items = true -> in_printer s = true ->
  fold_steps conf_line (item_line <$> items) s =
  Next (Conf_state (printers s) (fold_left item_effect items (current s)) true
          (current_is_default s) (saw_default s)).
Proof.
  revert s. induction items as [|i items IH]; intros s Hok Hin; cbn [fmap list_fmap fold_steps].
  - destruct s. cbn in *. by rewrite Hin.
  - cbn [forallb] in Hok. apply andb_true_iff in Hok as [Hi Hok].
    rewrite item_line_step by done. by rewrite IH.
Qed.

Lemma open_tag_tests is_def l :
  starts_with_ignore_case (open_tag is_def ++ l) (lit "<DefaultPrinter ") = is_def /\
  starts_with_ignore_case (open_tag is_def ++ l) (lit "<Printer ") || is_def = true /\
  (if is_def then 16 else 9)%nat = length (open_tag is_def).
Proof.
  unfold open_tag. destruct is_def; (split; [|split; [|done]]).
  - apply starts_with_ignore_case_app.
  - apply orb_true_r.
  - unfold starts_with_ignore_case. destruct (_ <? _)%nat; [done|].
    apply not_true_iff_false. rewrite equals_ignore_case_folded. cbn. intros [=].
  - by rewrite starts_with_ignore_case_app.
Qed.

(** The line that opens a printer. *)
Lemma open_line b s :
  conf_text (block_name b) = true -> bool_decide (">"%char ∉ block_name b) = true ->
  in_printer s = false -> block_default b && saw_default s = false ->
  conf_line (open_tag (block_default b) ++ block_name b ++ lit ">") s =
  Next (Conf_state (printers s)
          (with_default (Some (block_default b)) (with_names (block_name b) (block_name b) empty_printer))
          true (block_default b) (saw_default s || block_default b)).
Proof.
  intros (Hu & Hne & Htrim & _)%conf_text_spec Hgt%bool_decide_eq_true Hin Hdef.
  destruct (open_tag_tests (block_default b) (block_name b ++ lit ">")) as (Ed & Eo & El).
  assert (trim_whitespace (open_tag (block_default b) ++ block_name b ++ lit ">") =
          open_tag (block_default b) ++ block_name b ++ lit ">") as E.
  { apply trim_trimmed. split.
    - intros c Hc. by destruct (block_default b); injection Hc as <-.
    - intros c Hc. rewrite app_assoc, last_app in Hc. by injection Hc as <-. }
  unfold conf_line. rewrite E. cbv zeta.
  replace (empty _ || starts_with (lit "#") _) with false by by destruct (block_default b).
  rewrite Ed, Eo, Hin, El. set (tag := open_tag (block_default b)).
  assert (find ">" (tag ++ block_name b ++ lit ">") (length tag) =
          Some (length tag + length (block_name b))%nat) as ->.
  { unfold find. rewrite drop_app_length. change (lit ">") with [">"%char].
    rewrite find_first_app; [done| |by apply is_char_true].
    apply Forall_forall. intros c Hc. apply is_char_false. by intros <-. }
  replace (substr_from (S (length tag + length (block_name b))) (tag ++ block_name b ++ lit ">"))
    with ([] : text).
  2: { symmetry. unfold substr_from. apply drop_ge. rewrite !length_app. simpl. lia. }
  cbn [negb empty]. change (trim_whitespace []) with ([] : text). cbn [negb empty].
  rewrite Nat.add_comm, Nat.add_sub. unfold substr. rewrite drop_app_length, take_app_length.
  unfold trim_whitespace. rewrite trim_trimmed by done. unfold validate_utf8. rewrite Hu. cbn [negb try_step].
  rewrite (proj2 (empty_false _) Hne), Hdef. done.
Qed.

(** The line that closes one. *)
Lemma close_line b s :
  in_printer s = true -> current_is_default s = block_default b ->
  conf_line (if block_default b then lit "</DefaultPrinter>" else lit "</Printer>") s =
  let p := with_type (classify_printer_type (uri (current s)) (pi_name (current s))
                        (driver_name (current s))) (current s) in
  Next (Conf_state (printers s ++ [p]) p false (block_default b) (saw_default s)).
Proof.
  intros Hin Hd. unfold conf_line. rewrite Hin, Hd. destruct (block_default b).
  - change (trim_whitespace (lit "</DefaultPrinter>")) with (lit "</DefaultPrinter>"). reflexivity.
  - change (trim_whitespace (lit "</Printer>")) with (lit "</Printer>"). reflexivity.
Qed.

Lemma block_fold b s :
  block_ok b = true -> in_printer s = false -> block_default b && saw_default s = false ->
  fold_steps conf_line (block_lines b) s =
  Next (Conf_state (printers s ++ [block_printer b]) (block_printer b) false (block_default b)
          (saw_default s || block_default b)).
Proof.
  unfold block_ok. rewrite !andb_true_iff. intros [[[_ Hn] Hgt] Hi] Hin Hd. unfold block_lines.
  rewrite fold_steps_app, fold_steps_skip.
  2: { intros l Hl. apply list_elem_of_fmap in Hl as (v & -> & _). apply comment_line. }
  cbn [app fold_steps]. rewrite open_line by done. rewrite fold_steps_app, items_fold by done.
  cbn [fold_steps]. by rewrite close_line.
Qed.

Lemma blocks_fold blocks s :
  forallb block_ok blocks = true -> in_printer s = false ->
  (length (filter (fun b => block_default b) blocks) + (if saw_default s then 1 else 0) <= 1)%nat ->
  match fold_steps conf_line (blocks ≫= block_lines) s with
  | Next s' => in_printer s' = false /\ printers s' = printers s ++ (block_printer <$> blocks)
  | Return _ => False
  end.
Proof.
  revert s. induction blocks as [|b blocks IH]; intros s Hok Hin Hd; cbn [mbind list_bind fmap list_fmap].
  - split; [done|]. by rewrite app_nil_r.
  - cbn [forallb] in Hok. apply andb_true_iff in Hok as [Hb Hok]. rewrite filter_cons in Hd.
    assert (block_default b && saw_default s = false) as Hbd.
    { destruct (block_default b), (saw_default s); try done. simpl in Hd. lia. }
    rewrite fold_steps_app, block_fold by done.
    specialize (IH (Conf_state (printers s ++ [block_printer b]) (block_printer b) false
                      (block_default b) (saw_default s || block_default b)) Hok eq_refl).
    destruct (fold_steps _ _ _) as [s'|r].
    + destruct IH as [IHi ->]; [|split; [done|cbn [printers]; by rewrite <- app_assoc]].
      cbn [saw_default]. destruct (block_default b), (saw_default s); simpl in *; lia.
    + apply IH. cbn [saw_default]. destruct (block_default b), (saw_default s); simpl in *; lia.
Qed.

(** No line of a block holds a line end. *)
Lemma block_lines_no_lf b : block_ok b = true -> Forall (fun l => ch_lf ∉ l) (block_lines b).
Proof.
  unfold block_ok. rewrite !andb_true_iff. intros [[[Hc Hn] _] Hi]. unfold block_lines.
  rewrite !Forall_app. split_and!.
  - apply Forall_fmap, Forall_forall. intros v Hv. rewrite forallb_forall in Hc.
    apply list_elem_of_In, Hc, bool_decide_eq_true in Hv. cbn. rewrite not_elem_of_cons. by split.
  - apply conf_text_spec in Hn as (_ & _ & _ & Hn). constructor; [|constructor].
    rewrite !not_elem_of_app. split_and!; [by destruct (block_default b); by_compute|done|by_compute].
  - apply Forall_fmap, Forall_forall. intros i Hin. rewrite forallb_forall in Hi.
    apply list_elem_of_In, Hi in Hin. cbn. unfold item_line.
    destruct (item_entry i) as [[key v]|] eqn:E.
    + destruct (item_key_word _ _ _ Hin E) as (_ & Hk & _ & _ & (_ & _ & _ & Hv)%conf_text_spec).
      apply nonblank_trimmed in Hk as (_ & _ & Hk). unfold key_line.
      rewrite not_elem_of_app, not_elem_of_cons. by split_and!.
    + destruct i; try done. apply bool_decide_eq_true in Hin. rewrite not_elem_of_cons. by split.
  - constructor; [|constructor]. by destruct (block_default b); by_compute.
Qed.

(** A written printer configuration is read back: every printer with what
    its lines say, the last line of a kind deciding, comments and keys of other
    kinds without effect, and its type classified from what was read. *)
Theorem parse_cups_printers_conf_text (blocks : list conf_block) :
  forallb block_ok blocks = true ->
  (length (filter (fun b => block_default b) blocks) <= 1)%nat ->
  parse_cups_printers_conf (render_conf blocks) = Value (block_printer <$> blocks).
Proof.
  intros Hok Hd. unfold parse_cups_printers_conf, render_conf. rewrite each_field_fields.
  rewrite <- (app_nil_r (concat _)), fields_concat, app_nil_r.
  - pose proof (blocks_fold blocks (Conf_state [] empty_printer false false false) Hok eq_refl) as H.
    cbn [saw_default] in H. specialize (H ltac:(lia)).
    destruct (fold_steps _ _ _) as [s|r]; [|done]. destruct H as [H1 H2]. cbn. by rewrite H1, H2.
  - apply Forall_bind, Forall_forall. intros b Hb. apply block_lines_no_lf.
    rewrite forallb_forall in Hok. by apply Hok, list_elem_of_In.
Qed.

Lemma parse_cups_printers_conf_text_witness :
  let office := Conf_block [lit " Printer configuration file"] true (lit "Office")
    [Item_other (lit "UUID") (lit "urn:uuid:0"); Item_info (lit "Second floor");
     Item_make_model (lit "Laser 9"); Item_device_uri (lit "ipp://print.local"); Item_idle;
     Item_accepting true; Item_shared false] in
  parse_cups_printers_conf (render_conf [office]) = Value
    [Printer_info (lit "Office") (lit "Office") (lit "Laser 9") [] (lit "Second floor")
       (lit "ipp://print.local") type_network state_idle (Some true) (Some false) (Some true) None
       no_capabilities].
Proof.
  intros office. etransitivity; [apply (parse_cups_printers_conf_text [office])|].
  - vm_compute. reflexivity.
  - vm_compute. apply le_n.
  - vm_compute. reflexivity.
Defined.
