(* ===== verification/PrinterHttp.v ===== *)
(** * The HTTP response that carries a printing-protocol answer

    [parse_http_ipp_response] of [include/syscape/detail/printer/common.hpp]:
    interim responses, headers, and a body with a length or in chunks.  The
    response is the text of its bytes and an iterator an index into it; reading
    outside it and running out of fuel have no result ([Buffer]). *)
From S2P Require Import Prelude Result CppText Buffer Printer.

(** ** Reading the response *)

Fixpoint crlf_in (l : text) : option nat :=
  match l with
  | a :: ((b :: _) as l') => if is_char a ch_cr && is_char b ch_lf then Some 0%nat else S <$> crlf_in l'
  | _ => None
  end.

Definition find_crlf (response : text) (start : nat) : option nat :=
  (fun i => start + i)%nat <$> crlf_in (drop start response).

Definition size_max : Z := uint64_max.

(** ** Status line and headers *)

Definition status_code (status_line : text) : result Z :=
  if negb (starts_with_ignore_case status_line (lit "HTTP/")) || (length status_line <? 12)%nat
  then fail errc_malformed_data
  else
    match find " " status_line 0 with
    | None => fail errc_malformed_data
    | Some first_space =>
        if (length status_line <? first_space + 4)%nat ||
           match status_line !! (first_space + 4)%nat with
           | Some c => negb (is_char c " ")
           | None => false
           end
        then fail errc_malformed_data
        else
          match parse_int uint32_max 10 (substr (first_space + 1) 3 status_line) with
          | None => fail errc_malformed_data
          | Some status =>
              if (status <? 100) || (599 <? status) then fail errc_malformed_data else Value status
          end
    end.

Record framing := Framing {
  chunked : bool;
  content_length : option Z
}.

Definition header_line (line : text) (f : framing) : result framing :=
  match find ":" line 0 with
  | None => fail errc_malformed_data
  | Some colon =>
      let name := trim_whitespace (substr 0 colon line) in
      let value := trim_whitespace (substr_from (S colon) line) in
      if empty name then fail errc_malformed_data
      else if equals_ignore_case name (lit "Content-Length") then
        match parse_int size_max 10 value with
        | None => fail errc_malformed_data
        | Some parsed =>
            if match content_length f with Some n => negb (n =? parsed) | None => false end
            then fail errc_malformed_data
            else Value (Framing (chunked f) (Some parsed))
        end
      else if equals_ignore_case name (lit "Transfer-Encoding") then
        if negb (equals_ignore_case value (lit "chunked")) then fail errc_not_supported
        else Value (Framing true (content_length f))
      else Value f
  end.

(** The loop over header lines: the framing, and where the body starts. *)
Fixpoint header_loop (fuel : nat) (response : text) (line_begin : nat) (f : framing)
    : checked (framing * nat) :=
  match fuel with
  | O => None
  | S fuel =>
      match find_crlf response line_begin with
      | None => check (fail errc_malformed_data)
      | Some line_end =>
          if (line_end =? line_begin)%nat then mret (f, line_begin + 2)%nat
          else
            f ← check (header_line (substr line_begin (line_end - line_begin) response) f);
            header_loop fuel response (line_end + 2) f
      end
  end.

(** ** Chunks *)

(** The loop over the trailers, to the end of the message. *)
Fixpoint trailer_loop (fuel : nat) (response : text) (chunk_begin : nat) : checked nat :=
  match fuel with
  | O => None
  | S fuel =>
      match find_crlf response chunk_begin with
      | None => check (fail errc_malformed_data)
      | Some trailer_end =>
          if (trailer_end =? chunk_begin)%nat then mret (chunk_begin + 2)%nat
          else
            match find ":" (substr chunk_begin (trailer_end - chunk_begin) response) 0 with
            | None => check (fail errc_malformed_data)
            | Some _ => trailer_loop fuel response (trailer_end + 2)
            end
      end
  end.

Definition parse_chunk_size (line : text) : option Z :=
  let size_text := trim_whitespace line in
  let size_text :=
    match find ";" size_text 0 with
    | Some extension => trim_whitespace (substr 0 extension size_text)
    | None => size_text
    end in
  parse_int size_max 16 size_text.

Fixpoint chunk_loop (fuel : nat) (response : text) (chunk_begin : nat) (decoded : text)
    : checked text :=
  match fuel with
  | O => None
  | S fuel =>
      match find_crlf response chunk_begin with
      | None => check (fail errc_malformed_data)
      | Some chunk_line_end =>
          match parse_chunk_size (substr chunk_begin (chunk_line_end - chunk_begin) response) with
          | None => check (fail errc_malformed_data)
          | Some chunk_size =>
              let chunk_begin := (chunk_line_end + 2)%nat in
              if chunk_size =? 0 then
                chunk_begin ← trailer_loop (S (length response)) response chunk_begin;
                if negb (chunk_begin =? length response)%nat then check (fail errc_malformed_data)
                else mret decoded
              else
                let available := Z.of_nat (length response - chunk_begin) in
                if (available <? chunk_size) || (available - chunk_size <? 2)
                then check (fail errc_malformed_data)
                else
                  chunk ← slice response chunk_begin (Z.to_nat chunk_size);
                  let chunk_begin := (chunk_begin + Z.to_nat chunk_size)%nat in
                  first ← byte_at response chunk_begin;
                  second ← (if negb (is_char first ch_cr) then mret ch_lf
                            else byte_at response (chunk_begin + 1));
                  if negb (is_char first ch_cr) || negb (is_char second ch_lf)
                  then check (fail errc_malformed_data)
                  else chunk_loop fuel response (chunk_begin + 2) (decoded ++ chunk)
          end
      end
  end.

(** ** Messages *)

(** What a final status other than success becomes. *)
Definition final_status (status : Z) : result unit :=
  if (status =? 401) || (status =? 403) then fail errc_permission_denied
  else if status =? 404 then fail errc_not_found
  else if status =? 501 then fail errc_not_supported
  else if (status =? 408) || (status =? 429) || (status =? 503) then fail errc_temporarily_unavailable
  else if (status <? 200) || (300 <=? status) then fail errc_io_error
  else Value tt.

Definition message_body (response : text) (f : framing) (line_begin : nat) : checked text :=
  if negb (chunked f) then
    let available := (length response - line_begin)%nat in
    if match content_length f with Some n => negb (Z.of_nat available =? n) | None => false end
    then check (fail errc_malformed_data)
    else slice response line_begin available
  else
    match content_length f with
    | Some _ => check (fail errc_malformed_data)
    | None => chunk_loop (S (length response)) response line_begin []
    end.

(** The loop over interim responses, and the final one. *)
Fixpoint message_loop (fuel : nat) (response : text) (message_begin : nat) : checked text :=
  match fuel with
  | O => None
  | S fuel =>
      match find_crlf response message_begin with
      | None => check (fail errc_malformed_data)
      | Some status_end =>
          status ← check (status_code (substr message_begin (status_end - message_begin) response));
          headers ← header_loop (S (length response)) response (status_end + 2) (Framing false None);
          let f := headers.1 in
          let line_begin := headers.2 in
          if (100 <=? status) && (status <? 200) then
            if chunked f || match content_length f with Some n => negb (n =? 0) | None => false end
            then check (fail errc_malformed_data)
            else if (length response <=? line_begin)%nat then check (fail errc_malformed_data)
            else message_loop fuel response line_begin
          else
            check (final_status status);;
            message_body response f line_begin
      end
  end.

Definition parse_http_ipp_response (response : text) : checked text :=
  message_loop (S (length response)) response 0.

(** ** Safety and termination *)

Lemma crlf_in_cons a b l :
  crlf_in (a :: b :: l) =
  if is_char a ch_cr && is_char b ch_lf then Some 0%nat else S <$> crlf_in (b :: l).
Proof. done. Qed.

Lemma crlf_in_bound l i : crlf_in l = Some i -> (i + 2 <= length l)%nat.
Proof.
  revert i. induction l as [|a [|b l] IH]; intros i; [done..|].
  rewrite crlf_in_cons. destruct (_ && _); [intros [= <-]; simpl; lia|].
  destruct (crlf_in (b :: l)) as [k|] eqn:E; [|done]. intros [= <-]. specialize (IH _ eq_refl).
  simpl in *. lia.
Qed.

Lemma find_crlf_bound response start i :
  find_crlf response start = Some i -> (start <= i /\ i + 2 <= length response)%nat.
Proof.
  unfold find_crlf. destruct (crlf_in _) as [k|] eqn:E; [|done]. intros [= <-].
  apply crlf_in_bound in E. rewrite length_drop in E. lia.
Qed.

(** Past the end there is no line. *)
Lemma find_crlf_past response start : (length response < start + 2)%nat -> find_crlf response start = None.
Proof.
  intros H. destruct (find_crlf response start) as [i|] eqn:E; [|done]. apply find_crlf_bound in E. lia.
Qed.

Lemma header_loop_ensures fuel response line_begin f :
  (length response < fuel + line_begin)%nat -> (0 < fuel)%nat ->
  ensures (header_loop fuel response line_begin f)
    (fun r => (line_begin + 2 <= r.2 <= length response)%nat).
Proof.
  revert line_begin f. induction fuel as [|fuel IH]; intros line_begin f Hf Hp; [lia|].
  cbn [header_loop]. destruct (find_crlf response line_begin) as [line_end|] eqn:E; [|apply ensures_fail].
  apply find_crlf_bound in E. destruct (Nat.eqb_spec line_end line_begin) as [->|Hne]; [simpl; lia|].
  apply ensures_check_bind. intros f' _.
  assert (ensures (header_loop fuel response (line_end + 2) f')
    (fun r => (line_end + 2 + 2 <= r.2 <= length response)%nat)) as H by (apply IH; lia).
  unfold ensures in *. destruct (header_loop _ _ _ _) as [[v|e]|]; [lia|done..].
Qed.

Lemma trailer_loop_ensures fuel response chunk_begin :
  (length response < fuel + chunk_begin)%nat -> (0 < fuel)%nat ->
  ensures (trailer_loop fuel response chunk_begin) (fun p => (p <= length response)%nat).
Proof.
  revert chunk_begin. induction fuel as [|fuel IH]; intros chunk_begin Hf Hp; [lia|].
  cbn [trailer_loop].
  destruct (find_crlf response chunk_begin) as [trailer_end|] eqn:E; [|apply ensures_fail].
  apply find_crlf_bound in E. destruct (Nat.eqb_spec trailer_end chunk_begin) as [->|Hne]; [simpl; lia|].
  destruct (find _ _ _); [|apply ensures_fail]. apply IH; lia.
Qed.

Lemma take_sublist {A} n m (l : list A) : (n <= m)%nat -> sublist (take n l) (take m l).
Proof. intros H. replace n with (Nat.min n m) by lia. rewrite <- take_take. apply sublist_take. Qed.

Lemma chunk_loop_ensures fuel response chunk_begin decoded :
  (length response < fuel + chunk_begin)%nat -> (0 < fuel)%nat ->
  sublist decoded (take chunk_begin response) ->
  ensures (chunk_loop fuel response chunk_begin decoded) (fun body => sublist body response).
Proof.
  revert chunk_begin decoded. induction fuel as [|fuel IH]; intros chunk_begin decoded Hf Hp Hs; [lia|].
  cbn [chunk_loop].
  destruct (find_crlf response chunk_begin) as [line_end|] eqn:E; [|apply ensures_fail].
  apply find_crlf_bound in E.
  destruct (parse_chunk_size _) as [chunk_size|] eqn:Hsize; [|apply ensures_fail].
  apply parse_int_range in Hsize; [|done].
  cbv zeta. destruct (Z.eqb_spec chunk_size 0) as [->|Hne].
  - eapply ensures_bind; [apply trailer_loop_ensures; lia|]. intros p _.
    destruct (negb _); [apply ensures_fail|]. cbn. etrans; [exact Hs|]. apply sublist_take.
  - destruct (_ || _) eqn:B; [apply ensures_fail|].
    apply orb_false_iff in B as [B1%Z.ltb_ge B2%Z.ltb_ge].
    eapply ensures_bind; [apply ensures_slice; lia|]. intros chunk ->.
    eapply ensures_bind; [apply ensures_byte_at; lia|]. intros first _.
    apply (ensures_bind _ _ (fun _ => True)).
    { destruct (negb (is_char first ch_cr)); [done|]. apply ensures_byte_at. lia. }
    intros second _. destruct (_ || _); [apply ensures_fail|].
    apply IH; [lia|lia|]. etrans; [|apply (take_sublist (line_end + 2 + Z.to_nat chunk_size)); lia].
    rewrite <- take_take_drop. apply sublist_app; [|done].
    etrans; [exact Hs|]. apply take_sublist. lia.
Qed.

Lemma message_loop_ensures fuel response message_begin :
  (length response < fuel + message_begin)%nat -> (0 < fuel)%nat ->
  ensures (message_loop fuel response message_begin) (fun body => sublist body response).
Proof.
  revert message_begin. induction fuel as [|fuel IH]; intros message_begin Hf Hp; [lia|].
  cbn [message_loop].
  destruct (find_crlf response message_begin) as [status_end|] eqn:E; [|apply ensures_fail].
  apply find_crlf_bound in E.
  apply ensures_check_bind. intros status _.
  eapply ensures_bind; [apply header_loop_ensures; lia|]. intros [f line_begin] Hb. cbn [fst snd] in *.
  cbv zeta. destruct (_ && _).
  - destruct (_ || _); [apply ensures_fail|]. destruct (_ <=? _)%nat; [apply ensures_fail|].
    apply IH; lia.
  - apply ensures_check_bind. intros _ _.
    unfold message_body. destruct (negb (chunked f)).
    + destruct (match content_length f with Some _ => _ | None => _ end); [apply ensures_fail|].
      unfold slice. rewrite (proj2 (Nat.leb_le _ _)) by lia. cbn. unfold substr.
      etrans; [apply sublist_take|apply sublist_drop].
    + destruct (content_length f); [apply ensures_fail|].
      apply chunk_loop_ensures; [lia|lia|]. apply sublist_nil_l.
Qed.

(** ** Responses as a server writes them

    A specification: interim responses, a final status, headers around the one
    that frames the body, and the body. *)

Definition crlf : text := [ch_cr; ch_lf].

Definition with_crlf (l : text) : text := l ++ crlf.

Definition one_line (l : text) : bool := bool_decide (ch_cr ∉ l).

Definition status_text (status : Z) (reason : option text) : text :=
  lit "HTTP/1.1 " ++ to_decimal status ++
  match reason with Some reason => " "%char :: reason | None => [] end.

Definition header_text (header : text * text) : text := header.1 ++ ":"%char :: header.2.

(** A header that does not frame the body. *)
Definition header_ok (header : text * text) : bool :=
  one_line header.1 && one_line header.2 && bool_decide (":"%char ∉ header.1) &&
  negb (empty (trim_whitespace header.1)) &&
  negb (equals_ignore_case (trim_whitespace header.1) (lit "Content-Length")) &&
  negb (equals_ignore_case (trim_whitespace header.1) (lit "Transfer-Encoding")).

Record http_interim := Http_interim {
  interim_status : Z;
  interim_reason : option text;
  interim_headers : list (text * text)
}.

Definition reason_ok (reason : option text) : bool :=
  match reason with Some reason => one_line reason | None => true end.

Definition interim_ok (m : http_interim) : bool :=
  (100 <=? interim_status m) && (interim_status m <? 200) && reason_ok (interim_reason m) &&
  forallb header_ok (interim_headers m).

Definition encode_interim (m : http_interim) : text :=
  with_crlf (status_text (interim_status m) (interim_reason m)) ++
  concat ((fun h => with_crlf (header_text h)) <$> interim_headers m) ++ crlf.

(** A chunk: the number of hexadecimal digits of its size, and an extension. *)
Record http_chunk := Http_chunk {
  chunk_digits : nat;
  chunk_extension : option text;
  chunk_data : text
}.

Definition extension_text (extension : option text) : text :=
  match extension with Some extension => ";"%char :: extension | None => [] end.

Definition encode_chunk (c : http_chunk) : text :=
  with_crlf (hex_text (chunk_digits c) (Z.of_nat (length (chunk_data c))) ++
             extension_text (chunk_extension c)) ++
  with_crlf (chunk_data c).

Definition chunk_ok (c : http_chunk) : bool :=
  negb (empty (chunk_data c)) && (chunk_digits c <=? 16)%nat &&
  (Z.of_nat (length (chunk_data c)) <? 16 ^ Z.of_nat (chunk_digits c)) && reason_ok (chunk_extension c).

Inductive http_body :=
  | Body_to_end (data : text)
  | Body_of_length (data : text)
  | Body_chunked (chunks : list http_chunk) (extension : option text) (trailers : list (text * text)).

Definition body_headers (b : http_body) : list text :=
  match b with
  | Body_to_end _ => []
  | Body_of_length data => [lit "Content-Length: " ++ to_decimal (Z.of_nat (length data))]
  | Body_chunked _ _ _ => [lit "Transfer-Encoding: chunked"]
  end.

Definition encode_body (b : http_body) : text :=
  match b with
  | Body_to_end data | Body_of_length data => data
  | Body_chunked chunks extension trailers =>
      concat (encode_chunk <$> chunks) ++ with_crlf (lit "0" ++ extension_text extension) ++
      concat ((fun h => with_crlf (header_text h)) <$> trailers) ++ crlf
  end.

Definition body_data (b : http_body) : text :=
  match b with
  | Body_to_end data | Body_of_length data => data
  | Body_chunked chunks _ _ => concat (chunk_data <$> chunks)
  end.

Definition body_ok (b : http_body) : bool :=
  match b with
  | Body_to_end _ => true
  | Body_of_length data => Z.of_nat (length data) <=? size_max
  | Body_chunked chunks extension trailers =>
      forallb chunk_ok chunks && reason_ok extension &&
      forallb (fun h => one_line h.1 && one_line h.2 && bool_decide (":"%char ∉ h.1)) trailers
  end.

Record http_final := Http_final {
  status : Z;
  reason : option text;
  headers_before : list (text * text);
  headers_after : list (text * text);
  body : http_body
}.

Definition final_ok (m : http_final) : bool :=
  (200 <=? status m) && (status m <=? 599) && reason_ok (reason m) &&
  forallb header_ok (headers_before m) && forallb header_ok (headers_after m) && body_ok (body m).

Definition encode_final (m : http_final) : text :=
  with_crlf (status_text (status m) (reason m)) ++
  concat (with_crlf <$> (header_text <$> headers_before m) ++ body_headers (body m) ++
                        (header_text <$> headers_after m)) ++ crlf ++
  encode_body (body m).

(** ** Lines in the response *)

Lemma crlf_in_line l rest : ch_cr ∉ l -> crlf_in (l ++ crlf ++ rest) = Some (length l).
Proof.
  induction l as [|a l IH]; intros H; [done|]. rewrite not_elem_of_cons in H. destruct H as [Ha H].
  destruct l as [|b l].
  - cbn. by rewrite (proj2 (is_char_false a ch_cr)) by done.
  - change ((a :: b :: l) ++ crlf ++ rest) with (a :: b :: l ++ crlf ++ rest).
    rewrite crlf_in_cons, (proj2 (is_char_false a ch_cr)) by done. cbn [andb].
    change (b :: l ++ crlf ++ rest) with ((b :: l) ++ crlf ++ rest). by rewrite IH.
Qed.

Lemma find_crlf_line before l rest :
  ch_cr ∉ l ->
  find_crlf (before ++ with_crlf l ++ rest) (length before) = Some (length before + length l)%nat.
Proof.
  intros H. unfold find_crlf, with_crlf. rewrite drop_app_length, <- app_assoc.
  by rewrite crlf_in_line.
Qed.

Lemma substr_line before l rest :
  substr (length before) (length before + length l - length before) (before ++ with_crlf l ++ rest) = l.
Proof.
  unfold substr, with_crlf. rewrite drop_app_length, <- app_assoc.
  replace (length before + length l - length before)%nat with (length l) by lia.
  apply take_app_length.
Qed.

(** The header loop performs the effect of each line in turn. *)
Fixpoint header_lines (lines : list text) (f : framing) : result framing :=
  match lines with
  | [] => Value f
  | l :: lines => f ← header_line l f; header_lines lines f
  end.

Lemma header_loop_lines lines before rest fuel f f' :
  Forall (fun l => (ch_cr ∉ l) /\ l <> []) lines ->
  header_lines lines f = Value f' -> (length lines < fuel)%nat ->
  header_loop fuel (before ++ concat (with_crlf <$> lines) ++ crlf ++ rest) (length before) f =
  mret (f', length (before ++ concat (with_crlf <$> lines) ++ crlf)).
Proof.
  intros Hok. revert before fuel f. induction Hok as [|l lines [Hl Hne] _ IH];
    intros before fuel f Hf Hfuel; (destruct fuel as [|fuel]; [simpl in *; lia|]); cbn [header_loop].
  - cbn [fmap list_fmap concat app]. change (crlf ++ rest) with (with_crlf [] ++ rest).
    rewrite find_crlf_line by by apply not_elem_of_nil.
    rewrite Nat.add_0_r, Nat.eqb_refl. cbn in Hf. injection Hf as <-.
    rewrite length_app. done.
  - cbn [fmap list_fmap concat]. rewrite <- app_assoc.
    rewrite find_crlf_line by done.
    destruct (Nat.eqb_spec (length before + length l) (length before)).
    { destruct l; [done|]. simpl in *. lia. }
    rewrite substr_line. cbn [header_lines] in Hf.
    destruct (header_line l f) as [f1|e]; [|done]. cbn [mbind result_bind checked_bind check] in Hf |- *.
    replace (length before + length l + 2)%nat with (length (before ++ with_crlf l))
      by (unfold with_crlf; rewrite !length_app; simpl; lia).
    rewrite (app_assoc before (with_crlf l)). rewrite IH by (done || simpl in *; lia).
    by rewrite <- !app_assoc.
Qed.

(** ** What each line says *)

Lemma header_line_other h f : header_ok h = true -> header_line (header_text h) f = Value f.
Proof.
  unfold header_ok. rewrite !andb_true_iff, !negb_true_iff. intros [[[[_ Hc] Hn] H1] H2].
  apply bool_decide_eq_true in Hc. destruct (find_app_parts ":"%char h.1 h.2 Hc) as (Hf & Hs & _).
  unfold header_line, header_text. by rewrite Hf, Hs, Hn, H1, H2.
Qed.

Lemma header_text_line h : header_ok h = true -> (ch_cr ∉ header_text h) /\ header_text h <> [].
Proof.
  unfold header_ok, one_line. rewrite !andb_true_iff, !bool_decide_eq_true. intros [[[[[H1 H2] _] _] _] _].
  unfold header_text. split; [|by destruct h.1].
  by rewrite not_elem_of_app, not_elem_of_cons.
Qed.

Lemma header_lines_app a b f :
  header_lines (a ++ b) f = (f ← header_lines a f; header_lines b f).
Proof.
  revert f. induction a as [|l a IH]; intros f; [done|]. cbn [app header_lines].
  destruct (header_line l f); [|done]. cbn. apply IH.
Qed.

Lemma header_lines_other hs f :
  forallb header_ok hs = true -> header_lines (header_text <$> hs) f = Value f.
Proof.
  induction hs as [|h hs IH]; [done|]. cbn [forallb]. intros [Hh H]%andb_true_iff.
  cbn [fmap list_fmap header_lines]. rewrite header_line_other by done. by apply IH.
Qed.

Lemma numeric_no_cr base l : numeric base l = true -> ch_cr ∉ l.
Proof.
  intros H%numeric_not_blank Hin. rewrite Forall_forall in H. by apply H in Hin.
Qed.

Lemma content_length_line n f :
  0 <= n <= size_max -> content_length f = None ->
  header_line (lit "Content-Length: " ++ to_decimal n) f = Value (Framing (chunked f) (Some n)).
Proof.
  intros Hn Hf. pose proof (proj1 Hn) as Hn0. unfold header_line.
  change (lit "Content-Length: " ++ to_decimal n) with
    (lit "Content-Length" ++ ":"%char :: (" "%char :: to_decimal n)).
  destruct (find_app_parts ":"%char (lit "Content-Length") (" "%char :: to_decimal n)) as (Hfi & Hs & Hr);
    [by_compute|].
  rewrite Hfi, Hs, Hr. cbv zeta.
  change (trim_whitespace (lit "Content-Length")) with (lit "Content-Length").
  change (empty (lit "Content-Length")) with false.
  change (equals_ignore_case (lit "Content-Length") (lit "Content-Length")) with true. cbv iota.
  assert (trim_whitespace (" "%char :: to_decimal n) = to_decimal n) as ->.
  { change (" "%char :: to_decimal n) with ([" "%char] ++ to_decimal n).
    rewrite <- (app_nil_r (to_decimal n)) at 1. unfold trim_whitespace. apply trim_app.
    - by constructor.
    - by apply trimmed_Forall, (numeric_not_blank 10), numeric_to_decimal.
    - constructor. }
  rewrite parse_int_numeric, numeral_to_decimal by (try apply numeric_to_decimal; lia).
  by rewrite (proj2 (Z.leb_le _ _)), Hf by lia.
Qed.

Lemma status_text_line s r : 0 <= s -> reason_ok r = true -> ch_cr ∉ status_text s r.
Proof.
  intros Hs Hr. unfold status_text. rewrite !not_elem_of_app. split_and!; [by_compute| |].
  - by apply (numeric_no_cr 10), numeric_to_decimal.
  - destruct r as [r|]; [|by apply not_elem_of_nil]. apply bool_decide_eq_true in Hr.
    by rewrite not_elem_of_cons.
Qed.

(** Three digits. *)
Lemma to_decimal_three s : 100 <= s <= 599 -> length (to_decimal s) = 3%nat.
Proof.
  intros Hs.
  assert (forallb (fun s => (length (to_decimal s) =? 3)%nat) (seqZ 100 500) = true) as H
    by (vm_compute; reflexivity).
  rewrite forallb_forall in H. apply Nat.eqb_eq, H, list_elem_of_In, elem_of_seqZ. lia.
Qed.

Lemma status_code_text s r :
  100 <= s <= 599 -> status_code (status_text s r) = Value s.
Proof.
  intros Hs. pose proof (to_decimal_three s Hs) as Hl. unfold status_code, status_text.
  set (tail := match r with Some reason => " "%char :: reason | None => [] end).
  change (lit "HTTP/1.1 ") with (lit "HTTP/" ++ lit "1.1 "). rewrite <- app_assoc.
  rewrite starts_with_ignore_case_app, app_assoc.
  change (lit "HTTP/" ++ lit "1.1 ") with (lit "HTTP/1.1" ++ [" "%char]).
  assert (length ((lit "HTTP/1.1" ++ [" "%char]) ++ to_decimal s ++ tail) = 12 + length tail)%nat as Hlen
    by (rewrite !length_app, Hl; simpl; lia).
  rewrite Hlen. rewrite (proj2 (Nat.ltb_ge _ 12)) by lia. cbn [negb orb].
  rewrite <- app_assoc. cbn [app] in *.
  rewrite (find_app " "%char (lit "HTTP/1.1")) by by_compute.
  change (length (lit "HTTP/1.1")) with 8%nat. rewrite (proj2 (Nat.ltb_ge _ (8 + 4))) by lia. cbn [orb].
  replace ((lit "HTTP/1.1" ++ " "%char :: to_decimal s ++ tail) !! (8 + 4)%nat) with (tail !! 0%nat).
  2: { change (lit "HTTP/1.1" ++ " "%char :: to_decimal s ++ tail)
         with ((lit "HTTP/1.1" ++ [" "%char]) ++ to_decimal s ++ tail).
       rewrite app_assoc, lookup_app_r by (rewrite length_app, Hl; simpl; lia).
       rewrite length_app, Hl. done. }
  replace (match tail !! 0%nat with Some c => negb (is_char c " ") | None => false end) with false
    by (unfold tail; by destruct r).
  assert (substr (8 + 1) 3 (lit "HTTP/1.1" ++ " "%char :: to_decimal s ++ tail) = to_decimal s) as ->.
  { change (lit "HTTP/1.1" ++ " "%char :: to_decimal s ++ tail)
      with ((lit "HTTP/1.1" ++ [" "%char]) ++ to_decimal s ++ tail).
    unfold substr. change (8 + 1)%nat with (length (lit "HTTP/1.1" ++ [" "%char])).
    rewrite drop_app_length. rewrite <- Hl. apply take_app_length. }
  rewrite parse_int_numeric, numeral_to_decimal by (try apply numeric_to_decimal; lia).
  rewrite (proj2 (Z.leb_le _ _)) by zlia. cbv zeta.
  by rewrite (proj2 (Z.ltb_ge _ _)), (proj2 (Z.ltb_ge _ _)) by lia.
Qed.

(** Trimming a text whose beginning is not blank. *)
Lemma trim_inside (p : ascii -> bool) h c e :
  Forall (fun c => p c = false) h -> p c = false ->
  trim p (h ++ c :: e) = h ++ c :: drop_back p e.
Proof.
  intros Hh Hc. unfold trim. rewrite drop_front_id.
  - destruct (drop_back_split p e) as (e2 & Ee & He2). rewrite Ee at 1.
    change (h ++ c :: drop_back p e ++ e2) with (h ++ (c :: drop_back p e) ++ e2).
    rewrite app_assoc, drop_back_app by done. apply drop_back_id.
    intros d Hd. rewrite last_app in Hd. destruct (last (c :: drop_back p e)) as [d'|] eqn:E.
    + injection Hd as ->. destruct (drop_back p e) as [|x l] eqn:D; cbn in E.
      * by injection E as <-.
      * apply (drop_back_last p e). by rewrite D.
    + by apply last_None in E.
  - intros d Hd. destruct h as [|x h]; injection Hd as <-; [done|]. by inversion Hh.
Qed.

Lemma parse_chunk_size_text digits n extension :
  0 <= n < 16 ^ Z.of_nat digits -> (0 < digits <= 16)%nat ->
  parse_chunk_size (hex_text digits n ++ extension_text extension) = Some n.
Proof.
  intros Hn Hd. destruct (hex_text_numeric digits n Hn ltac:(lia)) as [Hnum Hval].
  pose proof (numeric_not_blank _ _ Hnum) as Hb.
  assert (n <= size_max) as Hmax.
  { assert (16 ^ Z.of_nat digits <= 16 ^ 16) by (apply Z.pow_le_mono_r; lia).
    change (16 ^ 16) with 18446744073709551616 in *. unfold size_max. zlia. }
  assert (parse_int size_max 16 (hex_text digits n) = Some n) as Hp
    by (rewrite parse_int_numeric, Hval by done; by rewrite (proj2 (Z.leb_le _ _))).
  unfold parse_chunk_size, trim_whitespace.
  assert (";"%char ∉ hex_text digits n) as Hsemi.
  { apply hex_chars_no; [apply hex_text_chars; lia|]. unfold hex_char.
    change (code ";") with 59. lia. }
  destruct extension as [e|]; cbn [extension_text].
  - rewrite trim_inside by done.
    destruct (find_app_parts ";"%char (hex_text digits n) (drop_back blank e) Hsemi) as (-> & -> & _).
    by rewrite trim_trimmed by by apply trimmed_Forall.
  - rewrite app_nil_r, trim_trimmed by by apply trimmed_Forall. by rewrite find_none.
Qed.

(** ** The body *)

Lemma trailer_loop_lines trailers before fuel :
  forallb (fun h => one_line h.1 && one_line h.2 && bool_decide (":"%char ∉ h.1)) trailers = true ->
  (length trailers < fuel)%nat ->
  let response := before ++ concat ((fun h => with_crlf (header_text h)) <$> trailers) ++ crlf in
  trailer_loop fuel response (length before) = mret (length response).
Proof.
  revert before fuel. induction trailers as [|h trailers IH];
    intros before fuel Hok Hf; (destruct fuel as [|fuel]; [simpl in *; lia|]); cbn [trailer_loop].
  - cbn [fmap list_fmap concat app].
    replace (before ++ crlf) with (before ++ with_crlf [] ++ []) by by rewrite app_nil_r.
    rewrite find_crlf_line by by apply not_elem_of_nil.
    rewrite Nat.add_0_r, Nat.eqb_refl, app_nil_r, length_app. done.
  - cbn [forallb] in Hok. unfold one_line in Hok at 1 2.
    rewrite !andb_true_iff, !bool_decide_eq_true in Hok.
    destruct Hok as [[[H1 H2] Hc] Hok]. cbn [fmap list_fmap concat]. rewrite <- app_assoc.
    rewrite find_crlf_line
      by (unfold header_text; rewrite not_elem_of_app, not_elem_of_cons; by split_and!).
    destruct (Nat.eqb_spec (length before + length (header_text h)) (length before)).
    { unfold header_text in *. rewrite length_app in *. simpl in *. lia. }
    rewrite substr_line. unfold header_text at 1. rewrite find_app by done.
    replace (length before + length (header_text h) + 2)%nat
      with (length (before ++ with_crlf (header_text h)))
      by (unfold with_crlf; rewrite !length_app; simpl; lia).
    rewrite (app_assoc before (with_crlf _)). rewrite IH by (done || simpl in *; lia).
    by rewrite <- !app_assoc.
Qed.

Lemma size_line_no_cr digits n extension :
  0 <= n -> reason_ok extension = true -> ch_cr ∉ hex_text digits n ++ extension_text extension.
Proof.
  intros Hn He. rewrite not_elem_of_app. split.
  - apply hex_chars_no; [by apply hex_text_chars|]. unfold hex_char. change (code ch_cr) with 13. lia.
  - destruct extension as [e|]; [|by apply not_elem_of_nil]. apply bool_decide_eq_true in He.
    cbn. by rewrite not_elem_of_cons.
Qed.

(** The two characters after a chunk. *)
Lemma crlf_lookup before data rest :
  (before ++ data ++ crlf ++ rest) !! (length before + length data)%nat = Some ch_cr /\
  (before ++ data ++ crlf ++ rest) !! (length before + length data + 1)%nat = Some ch_lf.
Proof.
  rewrite app_assoc, <- length_app. split; rewrite lookup_app_r by lia; [by rewrite Nat.sub_diag|].
  by replace (length (before ++ data) + 1 - length (before ++ data))%nat with 1%nat by lia.
Qed.

(** One chunk. *)
Lemma chunk_loop_chunk c before rest fuel decoded :
  chunk_ok c = true ->
  chunk_loop (S fuel) (before ++ encode_chunk c ++ rest) (length before) decoded =
  chunk_loop fuel (before ++ encode_chunk c ++ rest) (length (before ++ encode_chunk c))
    (decoded ++ chunk_data c).
Proof.
  unfold chunk_ok. rewrite !andb_true_iff, negb_true_iff, empty_false. intros [[[Hne Hd%Nat.leb_le] Hl%Z.ltb_lt] He].
  set (size_line := hex_text (chunk_digits c) (Z.of_nat (length (chunk_data c))) ++
                    extension_text (chunk_extension c)).
  assert (0 < Z.of_nat (length (chunk_data c))) as Hpos by (destruct (chunk_data c); [done|simpl; lia]).
  assert (0 < chunk_digits c)%nat as Hdp by (destruct (chunk_digits c); [simpl in Hl; lia|lia]).
  assert (encode_chunk c = with_crlf size_line ++ with_crlf (chunk_data c)) as E by done.
  rewrite E, <- app_assoc. cbn [chunk_loop].
  rewrite find_crlf_line by (apply size_line_no_cr; [lia|done]).
  rewrite substr_line. unfold size_line at 1. rewrite parse_chunk_size_text by (lia || done).
  cbv zeta. rewrite (proj2 (Z.eqb_neq _ 0)) by lia.
  replace (length before + length size_line + 2)%nat with (length (before ++ with_crlf size_line))
    by (unfold with_crlf; rewrite !length_app; simpl; lia).
  rewrite (app_assoc before (with_crlf size_line)).
  set (before' := before ++ with_crlf size_line). unfold with_crlf at 1 2 3 4 5 6.
  rewrite <- app_assoc. set (response := before' ++ chunk_data c ++ crlf ++ rest).
  assert (length response = length before' + length (chunk_data c) + (2 + length rest))%nat as Hlen
    by (unfold response; rewrite !length_app; simpl; lia).
  rewrite (proj2 (Z.ltb_ge _ _)), (proj2 (Z.ltb_ge _ _)) by lia. cbn [orb].
  rewrite Nat2Z.id. unfold slice. rewrite (proj2 (Nat.leb_le _ _)) by lia.
  assert (substr (length before') (length (chunk_data c)) response = chunk_data c) as ->
    by (unfold substr, response; by rewrite drop_app_length, take_app_length).
  cbn [mbind checked_bind]. unfold byte_at.
  destruct (crlf_lookup before' (chunk_data c) rest) as [Hcr Hlf].
  fold response in Hcr, Hlf. rewrite Hcr.
  cbn [mbind checked_bind]. change (is_char ch_cr ch_cr) with true. cbn [negb]. rewrite Hlf.
  cbn [mbind checked_bind]. change (is_char ch_lf ch_lf) with true. cbn [negb orb].
  replace (length before' + length (chunk_data c) + 2)%nat
    with (length (before' ++ chunk_data c ++ crlf)) by (rewrite !length_app; simpl; lia).
  unfold response, before', with_crlf. by rewrite <- !app_assoc.
Qed.

Lemma concat_length {A} (f : A -> text) l :
  (forall x, x ∈ l -> (0 < length (f x))%nat) -> (length l <= length (concat (f <$> l)))%nat.
Proof.
  induction l as [|x l IH]; intros H; [done|]. cbn [fmap list_fmap concat length]. rewrite length_app.
  specialize (H x ltac:(left)) as Hx. specialize (IH ltac:(intros; apply H; by right)). lia.
Qed.

Lemma with_crlf_length l : (0 < length (with_crlf l))%nat.
Proof. unfold with_crlf. rewrite length_app. simpl. lia. Qed.

Lemma chunk_loop_chunks chunks extension trailers before fuel decoded :
  body_ok (Body_chunked chunks extension trailers) = true -> (length chunks < fuel)%nat ->
  chunk_loop fuel (before ++ encode_body (Body_chunked chunks extension trailers)) (length before) decoded =
  mret (decoded ++ concat (chunk_data <$> chunks)).
Proof.
  cbn [body_ok encode_body]. rewrite !andb_true_iff. intros [[Hc He] Ht].
  set (tail := with_crlf (lit "0" ++ extension_text extension) ++ _).
  revert before fuel decoded Hc. induction chunks as [|c chunks IH];
    intros before fuel decoded Hc Hf; (destruct fuel as [|fuel]; [simpl in *; lia|]).
  - cbn [fmap list_fmap concat app chunk_loop]. unfold tail.
    change (lit "0") with (hex_text 1 0).
    rewrite find_crlf_line by (apply size_line_no_cr; [lia|done]).
    rewrite substr_line, parse_chunk_size_text by (simpl; lia). cbv zeta. cbn [Z.eqb].
    replace (length before + length (hex_text 1 0 ++ extension_text extension) + 2)%nat
      with (length (before ++ with_crlf (hex_text 1 0 ++ extension_text extension)))
      by (unfold with_crlf; rewrite !length_app; simpl; lia).
    rewrite (app_assoc before (with_crlf _)), trailer_loop_lines; [|done|].
    + cbn [mbind checked_bind mret checked_ret]. by rewrite Nat.eqb_refl, app_nil_r.
    + rewrite !length_app. pose proof (concat_length (fun h => with_crlf (header_text h)) trailers
        (fun x _ => with_crlf_length _)). lia.
  - cbn [forallb] in Hc. apply andb_true_iff in Hc as [Hc1 Hc]. cbn [fmap list_fmap concat].
    rewrite <- (app_assoc (encode_chunk c)), chunk_loop_chunk by done.
    rewrite (app_assoc before), IH by (done || simpl in *; lia). by rewrite <- app_assoc.
Qed.

Lemma message_body_encoded b before f :
  body_ok b = true ->
  header_lines (body_headers b) (Framing false None) = Value f ->
  message_body (before ++ encode_body b) f (length before) = mret (body_data b).
Proof.
  intros Hok Hf. unfold message_body. destruct b as [data|data|chunks extension trailers].
  - cbn in Hf. injection Hf as <-. cbn [chunked negb content_length encode_body].
    unfold slice, substr. rewrite (proj2 (Nat.leb_le _ _)) by (rewrite !length_app; lia).
    rewrite drop_app_length, take_ge by (rewrite !length_app; lia). done.
  - cbn [body_headers header_lines] in Hf. cbn [body_ok] in Hok. apply Z.leb_le in Hok.
    rewrite content_length_line in Hf by (done || lia). injection Hf as <-.
    cbn [chunked negb content_length encode_body]. unfold slice, substr.
    rewrite length_app, Nat.add_comm, Nat.add_sub, Z.eqb_refl. cbn [negb].
    rewrite (proj2 (Nat.leb_le _ _)) by lia. by rewrite drop_app_length, take_ge.
  - cbn in Hf. injection Hf as <-. cbn [chunked negb content_length].
    rewrite (chunk_loop_chunks _ _ _ before _ []); [done|done|].
    cbn [encode_body]. rewrite !length_app.
    pose proof (concat_length encode_chunk chunks) as Hl.
    assert (length chunks <= length (concat (encode_chunk <$> chunks)))%nat; [|lia].
    apply Hl. intros c _. unfold encode_chunk. rewrite length_app.
    pose proof (with_crlf_length (chunk_data c)). lia.
Qed.

(** ** Messages *)

Lemma interim_status_class s : (100 <=? s) && (s <? 200) = true <-> 100 <= s < 200.
Proof. lia. Qed.

(** The headers of a message, read after its status line. *)
Lemma headers_read before s r lines rest f :
  reason_ok r = true -> 0 <= s -> Forall (fun l => (ch_cr ∉ l) /\ l <> []) lines ->
  header_lines lines (Framing false None) = Value f ->
  let response := before ++ with_crlf (status_text s r) ++ concat (with_crlf <$> lines) ++ crlf ++ rest in
  find_crlf response (length before) = Some (length before + length (status_text s r))%nat /\
  header_loop (S (length response)) response (length before + length (status_text s r) + 2)
    (Framing false None) =
  mret (f, length (before ++ with_crlf (status_text s r) ++ concat (with_crlf <$> lines) ++ crlf)).
Proof.
  intros Hr Hs Hl Hf response. split; [by apply find_crlf_line, status_text_line|].
  unfold response.
  replace (length before + length (status_text s r) + 2)%nat
    with (length (before ++ with_crlf (status_text s r)))
    by (unfold with_crlf; rewrite !length_app; simpl; lia).
  rewrite (app_assoc before (with_crlf _)), (header_loop_lines _ _ _ _ _ f);
    [by rewrite <- !app_assoc|done|done|].
  rewrite !length_app. pose proof (concat_length with_crlf lines (fun x _ => with_crlf_length x)). lia.
Qed.

Lemma interim_message m before rest fuel :
  interim_ok m = true -> rest <> [] ->
  message_loop (S fuel) (before ++ encode_interim m ++ rest) (length before) =
  message_loop fuel (before ++ encode_interim m ++ rest) (length (before ++ encode_interim m)).
Proof.
  unfold interim_ok. rewrite <- andb_assoc, !andb_true_iff. intros [[Hs1%Z.leb_le Hs2%Z.ltb_lt] [Hr Hh]] Hne.
  assert (encode_interim m = with_crlf (status_text (interim_status m) (interim_reason m)) ++
    concat (with_crlf <$> (header_text <$> interim_headers m)) ++ crlf) as E
    by (unfold encode_interim; by rewrite <- list_fmap_compose).
  rewrite E, <- !app_assoc.
  destruct (headers_read before (interim_status m) (interim_reason m) (header_text <$> interim_headers m)
    rest (Framing false None)) as [Hfind Hloop]; [done|lia| |by apply header_lines_other|].
  { apply Forall_fmap, Forall_forall. intros h Hin. apply header_text_line.
    rewrite forallb_forall in Hh. by apply Hh, list_elem_of_In. }
  cbn [message_loop]. rewrite Hfind, substr_line, status_code_text by lia.
  cbn [mbind checked_bind check]. rewrite Hloop. cbn [mbind checked_bind mret checked_ret fst snd].
  cbv zeta. rewrite (proj2 (interim_status_class _)) by lia. cbn [chunked content_length orb].
  rewrite (proj2 (Nat.leb_gt _ _)); [done|].
  rewrite !length_app. destruct rest; [done|]. simpl. lia.
Qed.

(** The headers around the framing one leave it in force. *)
Lemma final_headers m :
  forallb header_ok (headers_before m) = true -> forallb header_ok (headers_after m) = true ->
  body_ok (body m) = true ->
  exists f, header_lines (body_headers (body m)) (Framing false None) = Value f /\
    header_lines ((header_text <$> headers_before m) ++ body_headers (body m) ++
                  (header_text <$> headers_after m)) (Framing false None) = Value f.
Proof.
  intros Hb Ha Hok. rewrite header_lines_app, header_lines_other by done. cbn [mbind result_bind].
  rewrite header_lines_app.
  assert (exists f, header_lines (body_headers (body m)) (Framing false None) = Value f) as [f Hf].
  { destruct (body m) as [data|data|chunks extension trailers]; cbn [body_headers header_lines].
    - by eexists.
    - cbn [body_ok] in Hok. rewrite content_length_line by (done || lia). by eexists.
    - by eexists. }
  exists f. rewrite Hf. split; [done|]. cbn [mbind result_bind]. by apply header_lines_other.
Qed.

Lemma final_lines m :
  final_ok m = true ->
  Forall (fun l => (ch_cr ∉ l) /\ l <> []) ((header_text <$> headers_before m) ++ body_headers (body m) ++
                                            (header_text <$> headers_after m)).
Proof.
  unfold final_ok. rewrite !andb_true_iff. intros [[[[[_ _] _] Hb] Ha] _].
  assert (forall hs, forallb header_ok hs = true ->
    Forall (fun l => (ch_cr ∉ l) /\ l <> []) (header_text <$> hs)) as H.
  { intros hs Hh. apply Forall_fmap, Forall_forall. intros h Hin. apply header_text_line.
    rewrite forallb_forall in Hh. by apply Hh, list_elem_of_In. }
  rewrite !Forall_app. split_and!; [by apply H| |by apply H].
  destruct (body m) as [data|data|chunks extension trailers]; cbn [body_headers];
    constructor; try constructor; try done.
  - rewrite not_elem_of_app. split; [by_compute|]. apply (numeric_no_cr 10), numeric_to_decimal. lia.
  - by_compute.
Qed.

Lemma final_message m before fuel :
  final_ok m = true ->
  message_loop (S fuel) (before ++ encode_final m) (length before) =
  Some (final_status (status m);; Value (body_data (body m))).
Proof.
  intros Hok. pose proof (final_lines m Hok) as Hlines. unfold final_ok in Hok.
  rewrite !andb_true_iff in Hok. destruct Hok as [[[[[Hs1%Z.leb_le Hs2%Z.leb_le] Hr] Hb] Ha] Hbody].
  destruct (final_headers m Hb Ha Hbody) as (f & Hf & Hall).
  set (lines := _ ++ body_headers (body m) ++ _) in *.
  destruct (headers_read before (status m) (reason m) lines (encode_body (body m)) f)
    as [Hfind Hloop]; [done|lia|done|done|].
  assert (encode_final m = with_crlf (status_text (status m) (reason m)) ++
    concat (with_crlf <$> lines) ++ crlf ++ encode_body (body m)) as E by done.
  rewrite E. cbn [message_loop]. rewrite Hfind, substr_line, status_code_text by lia.
  cbn [mbind checked_bind check]. rewrite Hloop. cbn [mbind checked_bind mret checked_ret fst snd].
  cbv zeta. replace ((100 <=? status m) && (status m <? 200)) with false by lia.
  destruct (final_status (status m)) as [[]|e]; [|done]. cbn [mbind checked_bind result_bind].
  rewrite !(app_assoc _ crlf (encode_body _)), !(app_assoc _ _ (encode_body _)).
  rewrite <- !app_assoc. rewrite !app_assoc, <- (app_assoc _ _ crlf).
  match goal with |- message_body (?x ++ _) _ (length ?y) = _ => replace y with x by by rewrite <- !app_assoc end.
  by apply message_body_encoded.
Qed.

Lemma encode_interim_length m : (0 < length (encode_interim m))%nat.
Proof. unfold encode_interim. rewrite length_app. pose proof (with_crlf_length (status_text (interim_status m) (interim_reason m))). lia. Qed.

Lemma http_round_trip (interims : list http_interim) (m : http_final) :
  forallb interim_ok interims = true -> final_ok m = true ->
  parse_http_ipp_response (concat (encode_interim <$> interims) ++ encode_final m) =
  Some (final_status (status m);; Value (body_data (body m))).
Proof.
  intros Hi Hm. unfold parse_http_ipp_response.
  enough (forall before fuel, (length interims < fuel)%nat ->
    message_loop fuel (before ++ concat (encode_interim <$> interims) ++ encode_final m) (length before) =
    Some (final_status (status m);; Value (body_data (body m)))) as H.
  { apply (H []). rewrite length_app.
    pose proof (concat_length encode_interim interims (fun x _ => encode_interim_length x)). lia. }
  induction interims as [|i interims IH]; intros before fuel Hf; (destruct fuel as [|fuel]; [lia|]).
  - by apply final_message.
  - cbn [forallb] in Hi. apply andb_true_iff in Hi as [Hi1 Hi]. cbn [fmap list_fmap concat].
    rewrite <- app_assoc, interim_message, app_assoc by
      (done || (intros E; apply (f_equal length) in E; unfold encode_final in E; rewrite !length_app in E;
                pose proof (with_crlf_length (status_text (status m) (reason m))); simpl in E; lia)).
    apply IH; [done|simpl in *; lia].
Qed.

(** The meaning of a final status, by the classes and codes of the protocol:
    success is 200 to 299, some errors have a name, every other status is a
    failed transfer. *)
Definition status_meaning (status : Z) : option errc :=
  if bool_decide (200 <= status <= 299) then None
  else if bool_decide (status ∈ [401; 403]) then Some errc_permission_denied
  else if bool_decide (status = 404) then Some errc_not_found
  else if bool_decide (status ∈ [408; 429; 503]) then Some errc_temporarily_unavailable
  else if bool_decide (status = 501) then Some errc_not_supported
  else Some errc_io_error.

Lemma final_status_meaning s :
  final_status s = match status_meaning s with None => Value tt | Some e => fail e end.
Proof.
  unfold final_status, status_meaning.
  repeat match goal with |- context [s =? ?n] => destruct (Z.eqb_spec s n) as [->|]; [done|] end. cbn [orb].
  rewrite (bool_decide_eq_false_2 (s ∈ [401; 403])), (bool_decide_eq_false_2 (s ∈ [408; 429; 503])) by (rewrite !elem_of_cons, elem_of_nil; lia).
  rewrite (bool_decide_eq_false_2 (s = 404)), (bool_decide_eq_false_2 (s = 501)) by done.
  destruct (Z.ltb_spec s 200), (Z.leb_spec 300 s); case_bool_decide; done || lia.
Qed.

(** C12: a well-formed response is decoded: after any number of interim
    responses, a final status of success yields the payload, whether the body
    runs to the end, has a declared length or comes in chunks with extensions
    and trailers, whatever headers surround it; any other final status yields
    its error: 401 and 403 permission_denied, 404 not_found, 408, 429 and 503
    temporarily_unavailable, 501 not_supported, the others io_error. *)
Theorem parse_http_ipp_response_text (interims : list http_interim) (m : http_final) :
  forallb interim_ok interims = true -> final_ok m = true ->
  parse_http_ipp_response (concat (encode_interim <$> interims) ++ encode_final m) =
  Some (match status_meaning (status m) with
        | None => Value (body_data (body m))
        | Some e => fail e
        end).
Proof.
  intros Hi Hm. rewrite http_round_trip, final_status_meaning by done. by destruct (status_meaning (status m)).
Qed.

Lemma parse_http_ipp_response_text_witness :
  let continue := Http_interim 100 (Some (lit "Continue")) [] in
  let ok := Http_final 200 (Some (lit "OK")) [(lit "Server", lit " CUPS/2.4")] []
    (Body_chunked [Http_chunk 1 None (lit "abc"); Http_chunk 2 (Some (lit "x=1")) (lit "de")] None
       [(lit "Expires", lit " 0")]) in
  let missing := Http_final 404 None [] [] (Body_of_length (lit "no")) in
  parse_http_ipp_response (concat (encode_interim <$> [continue]) ++ encode_final ok) =
    Some (Value (lit "abcde")) /\
  parse_http_ipp_response (concat (encode_interim <$> []) ++ encode_final missing) =
    Some (fail errc_not_found).
Proof.
  intros continue ok missing. split.
  - etransitivity; [apply (parse_http_ipp_response_text [continue] ok)|]; vm_compute; reflexivity.
  - etransitivity; [apply (parse_http_ipp_response_text [] missing)|]; vm_compute; reflexivity.
Defined.

Lemma parse_http_ensures (response : text) :
  ensures (parse_http_ipp_response response) (fun payload => sublist payload response).
Proof. apply message_loop_ensures; lia. Qed.

Lemma parse_http_is_some (response : text) : is_Some (parse_http_ipp_response response).
Proof.
  pose proof (parse_http_ensures response) as H. unfold ensures in H.
  destruct (parse_http_ipp_response _); [by eexists|done].
Qed.

(** Whatever bytes the server sends, the decoder reads inside the response
    only and all its loops end, so it has a result; and a payload it returns
    is made of characters of the response in their order. *)
Theorem parse_http_ipp_response_safe (response : text) :
  exists r, parse_http_ipp_response response = Some r /\
    forall payload, r = Value payload -> sublist payload response.
Proof.
  pose proof (parse_http_ensures response) as H. unfold ensures in H.
  destruct (parse_http_ipp_response _) as [r|]; [|done].
  exists r. split; [done|]. by intros payload ->.
Qed.
