(* ===== verification/PrinterIpp.v ===== *)
(** * The printing protocol: requests and the response

    The namespace [ipp] of [include/syscape/detail/printer/common.hpp]: the
    requests the library builds, and the parser of the attributes a server
    answers with.  A byte buffer is the text of its bytes, a pointer an index
    into it; reading outside the buffer has no result ([Buffer]). *)
From S2P Require Import Prelude Result CppText Utf8 Buffer Printer.

(** ** Constants *)

Definition OP_CUPS_GET_DEFAULT : Z := 0x4001.
Definition OP_CUPS_GET_PRINTERS : Z := 0x4002.

Definition TAG_OPERATION_ATTRIBUTES : Z := 0x01.
Definition TAG_JOB_ATTRIBUTES : Z := 0x02.
Definition TAG_END_OF_ATTRIBUTES : Z := 0x03.
Definition TAG_PRINTER_ATTRIBUTES : Z := 0x04.
Definition TAG_UNSUPPORTED_ATTRIBUTES : Z := 0x05.
Definition TAG_KEYWORD : Z := 0x44.
Definition TAG_CHARSET : Z := 0x47.
Definition TAG_NATURALLANGUAGE : Z := 0x48.

Definition CUPS_PRINTER_REMOTE : Z := 0x0002.
Definition CUPS_PRINTER_COLOR : Z := 0x0004.
Definition CUPS_PRINTER_DUPLEX : Z := 0x0008.
Definition CUPS_PRINTER_COPIES : Z := 0x0020.
Definition CUPS_PRINTER_COLLATE : Z := 0x0040.
Definition CUPS_PRINTER_FAX : Z := 0x0080.
Definition CUPS_PRINTER_PDF : Z := 0x20000.

(** ** Requests *)

Definition append_uint16 (buf : text) (val : Z) : text :=
  buf ++ [char_of (Z.land (Z.shiftr val 8) 0xFF); char_of (Z.land val 0xFF)].

Definition append_uint32 (buf : text) (val : Z) : text :=
  buf ++ [char_of (Z.land (Z.shiftr val 24) 0xFF); char_of (Z.land (Z.shiftr val 16) 0xFF);
          char_of (Z.land (Z.shiftr val 8) 0xFF); char_of (Z.land val 0xFF)].

Definition append_string_attr (buf : text) (tag : Z) (name val : text) : text :=
  let buf := buf ++ [char_of tag] in
  let buf := append_uint16 buf (wrap 16 (Z.of_nat (length name))) in
  let buf := buf ++ name in
  let buf := append_uint16 buf (wrap 16 (Z.of_nat (length val))) in
  buf ++ val.

Definition requested_attributes : list text :=
  lit <$> ["printer-name"; "printer-info"; "printer-location"; "printer-make-and-model"; "device-uri";
           "printer-state"; "printer-is-accepting-jobs"; "printer-is-shared"; "queued-job-count";
           "color-supported"; "printer-type"; "media-supported"; "printer-resolution-supported";
           "copies-supported"; "sides-supported"]%string.

Definition append_requested_attributes (req : text) : text :=
  (foldl (fun '(req, first) attribute =>
     (append_string_attr req TAG_KEYWORD (if first : bool then lit "requested-attributes" else [])
        attribute, false))
     (req, true) requested_attributes).1.

(** The two requests differ in the operation. *)
Definition build_request (operation request_id : Z) : text :=
  let req := [char_of 0x02; char_of 0x00] in
  let req := append_uint16 req operation in
  let req := append_uint32 req request_id in
  let req := req ++ [char_of TAG_OPERATION_ATTRIBUTES] in
  let req := append_string_attr req TAG_CHARSET (lit "attributes-charset") (lit "utf-8") in
  let req := append_string_attr req TAG_NATURALLANGUAGE (lit "attributes-natural-language")
               (lit "en") in
  let req := append_requested_attributes req in
  req ++ [char_of TAG_END_OF_ATTRIBUTES].

Definition build_get_printers_request (request_id : Z) : text :=
  build_request OP_CUPS_GET_PRINTERS request_id.

Definition build_get_default_request (request_id : Z) : text :=
  build_request OP_CUPS_GET_DEFAULT request_id.

(** ** Reading integers

    [data + base] is the pointer of the call, [size] what it may read. *)

Definition read_uint16 (data : text) (base size offset : nat) : checked (option Z) :=
  if (size <? offset + 2)%nat then mret None
  else
    a ← byte_at data (base + offset);
    b ← byte_at data (base + offset + 1);
    mret (Some (Z.lor (Z.shiftl (code a) 8) (code b))).

Definition read_uint32 (data : text) (base size offset : nat) : checked (option Z) :=
  if (size <? offset + 4)%nat then mret None
  else
    a ← byte_at data (base + offset);
    b ← byte_at data (base + offset + 1);
    c ← byte_at data (base + offset + 2);
    d ← byte_at data (base + offset + 3);
    mret (Some (Z.lor (Z.lor (Z.lor (Z.shiftl (code a) 24) (Z.shiftl (code b) 16))
                         (Z.shiftl (code c) 8)) (code d))).

(** ** Attributes of a printer *)

Definition with_color (v : bool) (c : printer_capabilities) : printer_capabilities :=
  Printer_capabilities (Some v) (cap_duplex c) (cap_copies c) (cap_collate c) (supported_media c)
    (supported_resolutions c) (max_copies c).

Definition with_duplex (v : bool) (c : printer_capabilities) : printer_capabilities :=
  Printer_capabilities (cap_color c) (Some v) (cap_copies c) (cap_collate c) (supported_media c)
    (supported_resolutions c) (max_copies c).

Definition with_copies (v : bool) (c : printer_capabilities) : printer_capabilities :=
  Printer_capabilities (cap_color c) (cap_duplex c) (Some v) (cap_collate c) (supported_media c)
    (supported_resolutions c) (max_copies c).

Definition with_collate (v : bool) (c : printer_capabilities) : printer_capabilities :=
  Printer_capabilities (cap_color c) (cap_duplex c) (cap_copies c) (Some v) (supported_media c)
    (supported_resolutions c) (max_copies c).

Definition add_media (v : text) (c : printer_capabilities) : printer_capabilities :=
  Printer_capabilities (cap_color c) (cap_duplex c) (cap_copies c) (cap_collate c)
    (supported_media c ++ [v]) (supported_resolutions c) (max_copies c).

Definition add_resolution (v : text) (c : printer_capabilities) : printer_capabilities :=
  Printer_capabilities (cap_color c) (cap_duplex c) (cap_copies c) (cap_collate c) (supported_media c)
    (supported_resolutions c ++ [v]) (max_copies c).

Definition with_max_copies (v : Z) (c : printer_capabilities) : printer_capabilities :=
  Printer_capabilities (cap_color c) (cap_duplex c) (Some true) (cap_collate c) (supported_media c)
    (supported_resolutions c) (Some v).

Definition flag_set (flags flag : Z) : bool := negb (Z.land flags flag =? 0).

(** The flags of [printer-type]. *)
Definition apply_type_flags (type_flags : Z) (p : printer_info) : printer_info :=
  let set flag f (p : printer_info) := if flag_set type_flags flag then with_capabilities f p else p in
  let p := set CUPS_PRINTER_COLOR (with_color true) p in
  let p := set CUPS_PRINTER_DUPLEX (with_duplex true) p in
  let p := set CUPS_PRINTER_COPIES (with_copies true) p in
  let p := set CUPS_PRINTER_COLLATE (with_collate true) p in
  if flag_set type_flags CUPS_PRINTER_FAX || flag_set type_flags CUPS_PRINTER_PDF
  then with_type type_virtual_printer p
  else if flag_set type_flags CUPS_PRINTER_REMOTE then with_type type_network p
  else p.

Definition resolution_text (xres yres units : Z) : text :=
  to_decimal xres ++ lit "x" ++ to_decimal yres ++ (if units =? 4 then lit " dpcm" else lit " dpi").

Section values.
Variable data : text.
Variable val_data val_len : nat.

(** A value that is text. *)
Definition text_value (store : text -> printer_info) : checked printer_info :=
  v ← slice data val_data val_len;
  v ← check (validate_utf8 v);
  mret (store v).

(** A value that is one byte, zero or one. *)
Definition boolean_value (store : bool -> printer_info) : checked printer_info :=
  if negb (val_len =? 1)%nat then check (fail errc_malformed_data)
  else
    b ← byte_at data val_data;
    if 1 <? code b then check (fail errc_malformed_data) else mret (store (negb (code b =? 0))).

(** A value of four bytes up to [limit]. *)
Definition integer_value (limit : Z) (store : Z -> printer_info) : checked printer_info :=
  if negb (val_len =? 4)%nat then check (fail errc_malformed_data)
  else
    ival ← read_uint32 data val_data val_len 0;
    match ival with
    | None => check (fail errc_malformed_data)
    | Some ival => if limit <? ival then check (fail errc_malformed_data) else mret (store ival)
    end.

Definition resolution_value (current : printer_info) : checked printer_info :=
  if negb (val_len =? 9)%nat then check (fail errc_malformed_data)
  else
    xres ← read_uint32 data val_data val_len 0;
    yres ← read_uint32 data val_data val_len 4;
    units ← byte_at data (val_data + 8);
    match xres, yres with
    | Some xres, Some yres =>
        if negb (xres =? 0) && negb (yres =? 0) && (xres <=? 0x7FFFFFFF) && (yres <=? 0x7FFFFFFF) &&
           ((code units =? 3) || (code units =? 4))
        then mret (with_capabilities (add_resolution (resolution_text xres yres (code units))) current)
        else check (fail errc_malformed_data)
    | _, _ => check (fail errc_malformed_data)
    end.

Definition copies_value (current : printer_info) : checked printer_info :=
  if (val_len =? 4)%nat then
    max_c ← read_uint32 data val_data val_len 0;
    match max_c with
    | Some max_c =>
        if negb (max_c =? 0) && (max_c <=? 0x7FFFFFFF)
        then mret (with_capabilities (with_max_copies max_c) current)
        else check (fail errc_malformed_data)
    | None => check (fail errc_malformed_data)
    end
  else if (val_len =? 8)%nat then
    min_c ← read_uint32 data val_data val_len 0;
    max_c ← read_uint32 data val_data val_len 4;
    match min_c, max_c with
    | Some min_c, Some max_c =>
        if negb (min_c =? 0) && (min_c <=? max_c) && (max_c <=? 0x7FFFFFFF)
        then mret (with_capabilities (with_max_copies max_c) current)
        else check (fail errc_malformed_data)
    | _, _ => check (fail errc_malformed_data)
    end
  else check (fail errc_malformed_data).

(** The chain of tests on the name of the attribute. *)
Definition decode_attribute (name : text) (current : printer_info) : checked printer_info :=
  let named n := same name (lit n) in
  if named "printer-name"%string then
    text_value (fun v => if empty v then current else with_names v v current)
  else if named "printer-info"%string then text_value (fun v => with_description v current)
  else if named "printer-location"%string then text_value (fun v => with_location v current)
  else if named "printer-make-and-model"%string then text_value (fun v => with_driver v current)
  else if named "device-uri"%string then text_value (fun v => with_uri v current)
  else if named "printer-state"%string then
    integer_value 0x7FFFFFFF (fun v => with_state (map_ipp_printer_state v) current)
  else if named "printer-is-accepting-jobs"%string then
    boolean_value (fun v => with_accepting (Some v) current)
  else if named "printer-is-shared"%string then boolean_value (fun v => with_shared (Some v) current)
  else if named "queued-job-count"%string then
    integer_value 0x7FFFFFFF (fun v => with_jobs (Some v) current)
  else if named "color-supported"%string then
    boolean_value (fun v => with_capabilities (with_color v) current)
  else if named "printer-type"%string then
    integer_value uint32_max (fun v => apply_type_flags v current)
  else if named "media-supported"%string then
    text_value (fun v => if empty v then current else with_capabilities (add_media v) current)
  else if named "printer-resolution-supported"%string then resolution_value current
  else if named "copies-supported"%string then copies_value current
  else if named "sides-supported"%string then
    text_value (fun v => if contains (lit "two-sided") v then with_capabilities (with_duplex true) current
                         else current)
  else mret current.

End values.

(** ** The response *)

Record ipp_state := Ipp_state {
  result_printers : list printer_info;
  current_printer : printer_info;
  in_printer_group : bool;
  current_group_has_attributes : bool;
  current_attr_name : text
}.

(** The lambda [finish_current_printer]; [None] is its [false]. *)
Definition finish_current_printer (s : ipp_state) : option ipp_state :=
  let p := current_printer s in
  if current_group_has_attributes s && empty (pi_id p) && empty (pi_name p) then None
  else
    let result_printers :=
      if negb (empty (pi_id p)) || negb (empty (pi_name p)) then
        let p := if empty (pi_id p) then with_names (pi_name p) (pi_name p) p else p in
        let p := if empty (pi_name p) then with_names (pi_id p) (pi_id p) p else p in
        let p := if bool_decide (pi_type p = type_unknown)
                 then with_type (classify_printer_type (uri p) (pi_name p) (driver_name p)) p else p in
        result_printers s ++ [p]
      else result_printers s in
    Some (Ipp_state result_printers empty_printer (in_printer_group s) false (current_attr_name s)).

Definition with_group (v : bool) (s : ipp_state) : ipp_state :=
  Ipp_state (result_printers s) (current_printer s) v (current_group_has_attributes s) [].

(** A delimiter tag. *)
Definition delimiter (tag : Z) (s : ipp_state) : result ipp_state :=
  if tag =? TAG_PRINTER_ATTRIBUTES then
    if in_printer_group s then
      match finish_current_printer s with
      | None => fail errc_malformed_data
      | Some s => Value (with_group true s)
      end
    else Value (with_group true s)
  else if (tag =? TAG_OPERATION_ATTRIBUTES) || (tag =? TAG_JOB_ATTRIBUTES) ||
          (tag =? TAG_UNSUPPORTED_ATTRIBUTES) then
    if in_printer_group s then
      match finish_current_printer s with
      | None => fail errc_malformed_data
      | Some s => Value (with_group false s)
      end
    else Value (with_group false s)
  else fail errc_malformed_data.

(** An attribute, after its tag: its name, its value, and the position behind
    them. *)
Definition value_attribute (data : text) (size pos : nat) (s : ipp_state)
    : checked (ipp_state * nat) :=
  name_len ← read_uint16 data 0 size pos;
  match name_len with
  | None => check (fail errc_malformed_data)
  | Some name_len =>
      let pos := (pos + 2)%nat in
      let name_len := Z.to_nat name_len in
      if (size <? pos + name_len)%nat then check (fail errc_malformed_data)
      else
        named ← (if (0 <? name_len)%nat then
                   name ← slice data pos name_len; mret (name, (pos + name_len)%nat)
                 else if empty (current_attr_name s) then check (fail errc_malformed_data)
                 else mret (current_attr_name s, pos));
        let name := named.1 in
        let pos := named.2 in
        val_len ← read_uint16 data 0 size pos;
        match val_len with
        | None => check (fail errc_malformed_data)
        | Some val_len =>
            let pos := (pos + 2)%nat in
            let val_len := Z.to_nat val_len in
            if (size <? pos + val_len)%nat then check (fail errc_malformed_data)
            else if negb (in_printer_group s) then
              mret (Ipp_state (result_printers s) (current_printer s) (in_printer_group s)
                      (current_group_has_attributes s) name, (pos + val_len)%nat)
            else
              current ← decode_attribute data pos val_len name (current_printer s);
              mret (Ipp_state (result_printers s) current (in_printer_group s) true name,
                    (pos + val_len)%nat)
        end
  end.

(** The loop over tags: the state, the position, and whether the end tag was
    seen. *)
Fixpoint attribute_loop (fuel : nat) (data : text) (size pos : nat) (s : ipp_state)
    : checked (ipp_state * nat * bool) :=
  match fuel with
  | O => None
  | S fuel =>
      if (pos <? size)%nat then
        c ← byte_at data pos;
        let tag := code c in
        let pos := (pos + 1)%nat in
        if tag =? TAG_END_OF_ATTRIBUTES then mret (s, pos, true)
        else if tag <=? 0x0F then
          s ← check (delimiter tag s);
          attribute_loop fuel data size pos s
        else
          next ← value_attribute data size pos s;
          attribute_loop fuel data size next.2 next.1
      else mret (s, pos, false)
  end.

(** The errors of a status above 0x00FF. *)
Definition ipp_status (status_code : Z) : result unit :=
  if 0x00FF <? status_code then
    if (status_code =? 0x0401) || (status_code =? 0x0402) || (status_code =? 0x0403)
    then fail errc_permission_denied
    else if status_code =? 0x0406 then fail errc_not_found
    else if (status_code =? 0x0405) || (status_code =? 0x0502) || (status_code =? 0x0507)
    then fail errc_temporarily_unavailable
    else fail errc_io_error
  else Value tt.

Definition parse_ipp_printers_response (data : text) (size : nat) : checked (list printer_info) :=
  if (size <? 8)%nat then check (fail errc_malformed_data)
  else
    major ← byte_at data 0;
    minor ← byte_at data 1;
    if (negb (code major =? 1) && negb (code major =? 2)) || (2 <? code minor)
    then check (fail errc_malformed_data)
    else
      request_id ← read_uint32 data 0 size 4;
      if match request_id with None => true | Some id => (id =? 0) || (0x7FFFFFFF <? id) end
      then check (fail errc_malformed_data)
      else
        status_opt ← read_uint16 data 0 size 2;
        match status_opt with
        | None => check (fail errc_malformed_data)
        | Some status_code =>
            check (ipp_status status_code);;
            outcome ← attribute_loop (S size) data size 8
                        (Ipp_state [] empty_printer false false []);
            let s := outcome.1.1 in
            if negb outcome.2 || negb (outcome.1.2 =? size)%nat
            then check (fail errc_malformed_data)
            else if in_printer_group s then
              match finish_current_printer s with
              | None => check (fail errc_malformed_data)
              | Some s => mret (result_printers s)
              end
            else mret (result_printers s)
        end.

(** ** Safety *)

(** What every printer under construction satisfies. *)
Definition printer_texts (p : printer_info) : list text :=
  [pi_id p; pi_name p; driver_name p; location p; description p; uri p] ++
  supported_media (capabilities p).

Definition printer_ok (p : printer_info) : Prop :=
  Forall (fun t => is_valid_utf8 t = true) (printer_texts p) /\
  (forall n, queued_job_count p = Some n -> 0 <= n <= int32_max) /\
  (forall n, max_copies (capabilities p) = Some n -> 0 < n <= int32_max).

(** What a returned one satisfies besides. *)
Definition printer_named (p : printer_info) : Prop :=
  printer_ok p /\ pi_id p <> [] /\ pi_name p <> [].

Lemma lor_bytes_bound n a b :
  0 <= n -> 0 <= a < 2 ^ n -> 0 <= b < 256 -> 0 <= Z.lor (Z.shiftl a 8) b < 2 ^ (n + 8).
Proof.
  intros Hn Ha Hb. rewrite Z.shiftl_mul_pow2 by lia.
  rewrite (lor_add 8) by (try apply Z.mod_mul; lia). rewrite Z.pow_add_r by lia.
  change (2 ^ 8) with 256. nia.
Qed.

Lemma shift_lor a b n k :
  0 <= n -> 0 <= k -> Z.lor (Z.shiftl a (n + k)) (Z.shiftl b k) = Z.shiftl (Z.lor (Z.shiftl a n) b) k.
Proof. intros Hn Hk. by rewrite Z.shiftl_lor, Z.shiftl_shiftl. Qed.

(** The four bytes of [read_uint32], two at a time. *)
Lemma uint32_nested a b c d :
  Z.lor (Z.lor (Z.lor (Z.shiftl a 24) (Z.shiftl b 16)) (Z.shiftl c 8)) d =
  Z.lor (Z.shiftl (Z.lor (Z.shiftl (Z.lor (Z.shiftl a 8) b) 8) c) 8) d.
Proof.
  rewrite !Z.shiftl_lor, !Z.shiftl_shiftl by lia. reflexivity.
Qed.

Lemma read_uint16_ensures data base size offset :
  (base + size <= length data)%nat ->
  ensures (read_uint16 data base size offset)
    (fun r => forall v, r = Some v -> 0 <= v < 2 ^ 16 /\ (offset + 2 <= size)%nat).
Proof.
  intros H. unfold read_uint16. destruct (Nat.ltb_spec size (offset + 2)); [done|].
  eapply ensures_bind; [apply ensures_byte_at; lia|]. intros a _.
  eapply ensures_bind; [apply ensures_byte_at; lia|]. intros b _. intros v [= <-]. split; [|lia].
  apply (lor_bytes_bound 8); [lia|apply code_bound..].
Qed.

Lemma read_uint32_ensures data base size offset :
  (base + size <= length data)%nat ->
  ensures (read_uint32 data base size offset)
    (fun r => forall v, r = Some v -> 0 <= v < 2 ^ 32).
Proof.
  intros H. unfold read_uint32. destruct (Nat.ltb_spec size (offset + 4)); [done|].
  do 4 (eapply ensures_bind; [apply ensures_byte_at; lia|]; intros ? _).
  intros r [= <-]. rewrite uint32_nested.
  apply (lor_bytes_bound 24), code_bound; [lia|].
  apply (lor_bytes_bound 16), code_bound; [lia|].
  apply (lor_bytes_bound 8); [lia|apply code_bound..].
Qed.

Section safety.
Variable data : text.

Lemma text_value_ensures val_data val_len store :
  (val_data + val_len <= length data)%nat ->
  (forall v, is_valid_utf8 v = true -> printer_ok (store v)) ->
  ensures (text_value data val_data val_len store) printer_ok.
Proof.
  intros H Hs. unfold text_value. eapply ensures_bind; [by apply ensures_slice|]. intros v _.
  apply ensures_check_bind. intros v' Hv. unfold validate_utf8 in Hv.
  destruct (is_valid_utf8 v) eqn:E; [|done]. injection Hv as <-. by apply Hs.
Qed.

Lemma boolean_value_ensures val_data val_len store :
  (val_data + val_len <= length data)%nat -> (forall v, printer_ok (store v)) ->
  ensures (boolean_value data val_data val_len store) printer_ok.
Proof.
  intros H Hs. unfold boolean_value. destruct (Nat.eqb_spec val_len 1); [|apply ensures_fail]. cbn [negb].
  eapply ensures_bind; [apply ensures_byte_at; lia|]. intros b _.
  destruct (_ <? _); [apply ensures_fail|]. apply Hs.
Qed.

Lemma integer_value_ensures val_data val_len limit store :
  (val_data + val_len <= length data)%nat -> (forall v, 0 <= v <= limit -> printer_ok (store v)) ->
  ensures (integer_value data val_data val_len limit store) printer_ok.
Proof.
  intros H Hs. unfold integer_value. destruct (negb _); [apply ensures_fail|].
  eapply ensures_bind; [by apply read_uint32_ensures|]. intros [v|] Hv; [|apply ensures_fail].
  destruct (Z.ltb_spec limit v); [apply ensures_fail|]. apply Hs. specialize (Hv v eq_refl). lia.
Qed.

(** Members that carry no obligation, and those that do. *)
Ltac printer_field :=
  match goal with
  | H : printer_ok ?p |- printer_ok _ =>
      let Ht := fresh "Ht" in
      destruct H as (Ht & ? & ?); unfold printer_ok, printer_texts in *; cbn in *;
      decompose_Forall_hyps; (split; [decompose_Forall; done|split; try done])
  end.

Lemma apply_type_flags_ok flags p : printer_ok p -> printer_ok (apply_type_flags flags p).
Proof.
  intros H. unfold apply_type_flags. cbv zeta.
  repeat case_match; printer_field.
Qed.

Lemma resolution_value_ensures val_data val_len p :
  (val_data + val_len <= length data)%nat -> printer_ok p ->
  ensures (resolution_value data val_data val_len p) printer_ok.
Proof.
  intros H Hp. unfold resolution_value. destruct (Nat.eqb_spec val_len 9); [|apply ensures_fail].
  cbn [negb]. eapply ensures_bind; [by apply read_uint32_ensures|]. intros x _.
  eapply ensures_bind; [by apply read_uint32_ensures|]. intros y _.
  eapply ensures_bind; [apply ensures_byte_at; lia|]. intros u _.
  destruct x; [|apply ensures_fail]. destruct y; [|apply ensures_fail].
  destruct (_ && _); [|apply ensures_fail]. cbn. by printer_field.
Qed.

Lemma max_copies_ok n p :
  0 < n <= int32_max -> printer_ok p -> printer_ok (with_capabilities (with_max_copies n) p).
Proof. intros Hn H. printer_field. by intros m [= <-]. Qed.

Lemma copies_value_ensures val_data val_len p :
  (val_data + val_len <= length data)%nat -> printer_ok p ->
  ensures (copies_value data val_data val_len p) printer_ok.
Proof.
  intros H Hp. unfold copies_value. destruct (val_len =? 4)%nat; [|destruct (val_len =? 8)%nat; [|done]].
  - eapply ensures_bind; [by apply read_uint32_ensures|]. intros [v|] Hv; [|apply ensures_fail].
    specialize (Hv v eq_refl). destruct (_ && _) eqn:E; [|apply ensures_fail]. bool_to_prop.
    apply max_copies_ok; [zlia|done].
  - eapply ensures_bind; [by apply read_uint32_ensures|]. intros [lo|] Hlo;
      (eapply ensures_bind; [by apply read_uint32_ensures|]; intros [v|] Hv; try apply ensures_fail).
    specialize (Hv v eq_refl). specialize (Hlo lo eq_refl).
    destruct (_ && _) eqn:E; [|apply ensures_fail]. bool_to_prop. apply max_copies_ok; [zlia|done].
Qed.

Lemma decode_attribute_ensures val_data val_len name p :
  (val_data + val_len <= length data)%nat -> printer_ok p ->
  ensures (decode_attribute data val_data val_len name p) printer_ok.
Proof.
  intros H Hp. unfold decode_attribute. cbv zeta.
  repeat match goal with |- ensures (if ?b then _ else _) _ => destruct b end; try exact Hp;
    first [apply text_value_ensures; [done|]; intros v Hv; repeat case_match; try exact Hp; by printer_field
          |apply boolean_value_ensures; [done|]; intros v; by printer_field
          |by apply resolution_value_ensures
          |by apply copies_value_ensures
          |apply integer_value_ensures; [done|]; intros v Hv].
  - by printer_field.
  - printer_field. intros n [= <-]. zlia.
  - by apply apply_type_flags_ok.
Qed.

End safety.

Definition ipp_state_ok (s : ipp_state) : Prop :=
  Forall printer_named (result_printers s) /\ printer_ok (current_printer s).

Lemma empty_printer_ok : printer_ok empty_printer.
Proof. split; [by repeat constructor|done]. Qed.

Lemma printer_names_ok id name p :
  printer_ok p -> is_valid_utf8 id = true -> is_valid_utf8 name = true ->
  printer_ok (with_names id name p).
Proof.
  intros (Ht & H1 & H2) Hi Hn. unfold printer_ok, printer_texts in *. cbn in *.
  decompose_Forall_hyps. split; [decompose_Forall; done|done].
Qed.

Lemma printer_type_ok t p : printer_named p -> printer_named (with_type t p).
Proof. done. Qed.

(** Completing the names of a printer that has one of them. *)
Lemma completed_names p :
  printer_ok p -> empty (pi_id p) && empty (pi_name p) = false ->
  let p := if empty (pi_id p) then with_names (pi_name p) (pi_name p) p else p in
  printer_named (if empty (pi_name p) then with_names (pi_id p) (pi_id p) p else p).
Proof.
  intros H Hne. pose proof H as (Ht & _). unfold printer_texts in Ht. cbn in Ht.
  destruct (pi_id p) as [|c i] eqn:Ei, (pi_name p) as [|d n] eqn:En; cbn in Hne |- *;
    rewrite ?Ei, ?En; try done; cbn; decompose_Forall_hyps;
    (split; [|rewrite ?Ei, ?En; done]); try done; by apply printer_names_ok.
Qed.

Lemma finish_ok s s' : ipp_state_ok s -> finish_current_printer s = Some s' -> ipp_state_ok s'.
Proof.
  intros [Hr Hc]. unfold finish_current_printer. destruct (_ && empty (pi_name _)); [done|].
  intros [= <-]. split; [|exact empty_printer_ok]. cbn [result_printers].
  destruct (negb (empty (pi_id (current_printer s))) || negb (empty (pi_name (current_printer s)))) eqn:E;
    [|done].
  apply Forall_app. split; [done|]. constructor; [|constructor].
  rewrite <- negb_andb in E. apply negb_true_iff in E.
  pose proof (completed_names _ Hc E) as Hn. cbv zeta in *.
  destruct (bool_decide _); [by apply printer_type_ok|done].
Qed.

Lemma with_group_ok v s : ipp_state_ok s -> ipp_state_ok (with_group v s).
Proof. done. Qed.

Lemma delimiter_ok tag s s' : ipp_state_ok s -> delimiter tag s = Value s' -> ipp_state_ok s'.
Proof.
  intros Hs. unfold delimiter.
  destruct (tag =? _); [|destruct (_ || _); [|done]]; destruct (in_printer_group s);
    try (intros [= <-]; by apply with_group_ok);
    (destruct (finish_current_printer s) as [s1|] eqn:E; [|done]); intros [= <-];
    apply with_group_ok; by eapply finish_ok.
Qed.

Lemma value_attribute_ensures data pos s :
  (pos <= length data)%nat -> ipp_state_ok s ->
  ensures (value_attribute data (length data) pos s)
    (fun r => ipp_state_ok r.1 /\ (pos < r.2 <= length data)%nat).
Proof.
  intros Hp Hs. unfold value_attribute.
  eapply ensures_bind; [by apply read_uint16_ensures|]. intros [name_len|] Hn; [|apply ensures_fail].
  specialize (Hn _ eq_refl) as [Hn Hpos]. cbv zeta. set (nl := Z.to_nat name_len).
  destruct (Nat.ltb_spec (length data) (pos + 2 + nl)); [apply ensures_fail|].
  apply (ensures_bind _ _ (fun r => (pos + 2 <= r.2 <= length data)%nat)).
  { destruct (0 <? nl)%nat.
    - eapply ensures_bind; [by apply ensures_slice|]. intros name _. simpl. lia.
    - destruct (empty _); [apply ensures_fail|]. simpl. lia. }
  intros [name pos'] Hpos'. cbn [fst snd] in *.
  eapply ensures_bind; [by apply read_uint16_ensures|]. intros [val_len|] Hv; [|apply ensures_fail].
  specialize (Hv _ eq_refl) as [_ Hpos2]. set (vl := Z.to_nat val_len).
  destruct (Nat.ltb_spec (length data) (pos' + 2 + vl)); [apply ensures_fail|].
  destruct (negb (in_printer_group s)); [simpl; split; [done|lia]|].
  eapply ensures_bind; [apply decode_attribute_ensures; [done|apply Hs]|].
  intros p Hok. simpl. split; [|lia]. by split; [apply Hs|].
Qed.

Lemma attribute_loop_ensures fuel data pos s :
  (length data < fuel + pos)%nat -> (pos <= length data)%nat -> ipp_state_ok s ->
  ensures (attribute_loop fuel data (length data) pos s) (fun r => ipp_state_ok r.1.1).
Proof.
  revert pos s. induction fuel as [|fuel IH]; intros pos s Hf Hp Hs; [lia|]. cbn [attribute_loop].
  destruct (Nat.ltb_spec pos (length data)); [|done].
  eapply ensures_bind; [by apply ensures_byte_at|]. intros c _. cbv zeta.
  destruct (_ =? _); [done|]. destruct (_ <=? _).
  - apply ensures_check_bind. intros s' Hs'. apply IH; [lia|lia|]. by eapply delimiter_ok.
  - eapply ensures_bind; [apply value_attribute_ensures; [lia|done]|]. intros [s' pos'] [Hs' Hpos'].
    cbn [fst snd] in *. apply IH; [lia|lia|done].
Qed.

Lemma parse_ipp_ensures (data : text) :
  ensures (parse_ipp_printers_response data (length data)) (Forall printer_named).
Proof.
  unfold parse_ipp_printers_response. destruct (Nat.ltb_spec (length data) 8); [apply ensures_fail|].
  do 2 (eapply ensures_bind; [apply ensures_byte_at; lia|]; intros ? _).
  destruct (_ || _); [apply ensures_fail|].
  eapply ensures_bind; [by apply read_uint32_ensures|]. intros id _.
  destruct (match id with Some _ => _ | None => _ end); [apply ensures_fail|].
  eapply ensures_bind; [by apply read_uint16_ensures|]. intros [status|] _; [|apply ensures_fail].
  apply ensures_check_bind. intros _ _.
  eapply ensures_bind; [apply attribute_loop_ensures; [lia|lia|]|].
  { split; [constructor|apply empty_printer_ok]. }
  intros [[s pos] saw] Hs. cbn [fst snd] in *. cbv zeta. destruct (_ || _); [apply ensures_fail|].
  destruct (in_printer_group s); [|apply Hs].
  destruct (finish_current_printer s) as [s'|] eqn:E; [|apply ensures_fail].
  exact (proj1 (finish_ok _ _ Hs E)).
Qed.

Lemma parse_ipp_is_some (data : text) : is_Some (parse_ipp_printers_response data (length data)).
Proof.
  pose proof (parse_ipp_ensures data) as H. unfold ensures in H.
  destruct (parse_ipp_printers_response _ _); [by eexists|done].
Qed.

(** C14: whatever bytes a print server answers, the parser reads inside the
    answer only and all its loops end, so it has a result; and every printer
    it returns has a queue name and a display name, texts that are valid
    UTF-8, and counts within the protocol's integers. *)
Theorem parse_ipp_printers_response_safe (data : text) :
  exists r, parse_ipp_printers_response data (length data) = Some r /\
    forall printers, r = Value printers -> Forall printer_named printers.
Proof.
  pose proof (parse_ipp_ensures data) as H. unfold ensures in H.
  destruct (parse_ipp_printers_response _ _) as [r|]; [|done].
  exists r. split; [done|]. by intros printers ->.
Qed.
