(* ===== verification/PrinterIppFormat.v ===== *)
(** * What a print server answers

    The format the parser of [PrinterIpp] reads, written as an encoder on top
    of the library's own [append_string_attr]: the groups of a response, the
    attributes of a printer in any order and number, values of a set, and
    attributes the library does not read.  The theorem at the end is the
    functional correctness of the parser on that format; the encoder is a
    specification and models no code of the library. *)
From S2P Require Import Prelude Result CppText Utf8 Buffer Printer PrinterIpp.

(** ** Attributes *)

Definition append_raw (buf : text) (attribute : Z * text * text) : text :=
  append_string_attr buf attribute.1.1 attribute.1.2 attribute.2.

Definition encode_raw (attributes : list (Z * text * text)) : text := foldl append_raw [] attributes.

(** An attribute of a printer.  A set has one value or more. *)
Inductive ipp_attribute :=
  | Ipp_name (v : text)
  | Ipp_info (v : text)
  | Ipp_location (v : text)
  | Ipp_make_and_model (v : text)
  | Ipp_uri (v : text)
  | Ipp_state_of (v : Z)
  | Ipp_accepting (v : bool)
  | Ipp_shared (v : bool)
  | Ipp_jobs (v : Z)
  | Ipp_color (v : bool)
  | Ipp_type (flags : Z)
  | Ipp_media (first : text) (more : list text)
  | Ipp_resolutions (first : Z * Z * Z) (more : list (Z * Z * Z))
  | Ipp_copies (v : Z)
  | Ipp_copies_range (lower upper : Z)
  | Ipp_sides (first : text) (more : list text)
  | Ipp_other (tag : Z) (name value : text).

Definition ipp_tag (a : ipp_attribute) : Z :=
  match a with
  | Ipp_name _ => 0x42
  | Ipp_info _ | Ipp_location _ | Ipp_make_and_model _ => 0x41
  | Ipp_uri _ => 0x45
  | Ipp_state_of _ | Ipp_type _ => 0x23
  | Ipp_accepting _ | Ipp_shared _ | Ipp_color _ => 0x22
  | Ipp_jobs _ | Ipp_copies _ => 0x21
  | Ipp_media _ _ | Ipp_sides _ _ => 0x44
  | Ipp_resolutions _ _ => 0x32
  | Ipp_copies_range _ _ => 0x33
  | Ipp_other tag _ _ => tag
  end.

Definition ipp_name (a : ipp_attribute) : text :=
  match a with
  | Ipp_name _ => lit "printer-name"
  | Ipp_info _ => lit "printer-info"
  | Ipp_location _ => lit "printer-location"
  | Ipp_make_and_model _ => lit "printer-make-and-model"
  | Ipp_uri _ => lit "device-uri"
  | Ipp_state_of _ => lit "printer-state"
  | Ipp_accepting _ => lit "printer-is-accepting-jobs"
  | Ipp_shared _ => lit "printer-is-shared"
  | Ipp_jobs _ => lit "queued-job-count"
  | Ipp_color _ => lit "color-supported"
  | Ipp_type _ => lit "printer-type"
  | Ipp_media _ _ => lit "media-supported"
  | Ipp_resolutions _ _ => lit "printer-resolution-supported"
  | Ipp_copies _ | Ipp_copies_range _ _ => lit "copies-supported"
  | Ipp_sides _ _ => lit "sides-supported"
  | Ipp_other _ name _ => name
  end.

Definition boolean_bytes (v : bool) : text := [char_of (if v then 1 else 0)].

Definition resolution_bytes (r : Z * Z * Z) : text :=
  append_uint32 (append_uint32 [] r.1.1) r.1.2 ++ [char_of r.2].

Definition ipp_values (a : ipp_attribute) : list text :=
  match a with
  | Ipp_name v | Ipp_info v | Ipp_location v | Ipp_make_and_model v | Ipp_uri v => [v]
  | Ipp_state_of v | Ipp_jobs v | Ipp_type v | Ipp_copies v => [append_uint32 [] v]
  | Ipp_accepting v | Ipp_shared v | Ipp_color v => [boolean_bytes v]
  | Ipp_media first more | Ipp_sides first more => first :: more
  | Ipp_resolutions first more => resolution_bytes <$> first :: more
  | Ipp_copies_range lower upper => [append_uint32 (append_uint32 [] lower) upper]
  | Ipp_other _ _ value => [value]
  end.

(** The values after the first repeat the tag, without the name. *)
Definition raw_attributes (a : ipp_attribute) : list (Z * text * text) :=
  match ipp_values a with
  | [] => []
  | v :: vs => (ipp_tag a, ipp_name a, v) :: ((fun v => (ipp_tag a, [], v)) <$> vs)
  end.

(** ** What an attribute says of the printer *)

Definition state_of_number (v : Z) : printer_state :=
  if v =? 3 then state_idle else if v =? 4 then state_processing
  else if v =? 5 then state_stopped else state_unknown.

(** The bits of [printer-type]: color 2, duplex 3, copies 5, collate 6, fax 7,
    a destination of software 17, remote 1. *)
Definition printer_of_type (flags : Z) (p : printer_info) : printer_info :=
  let set (bit : Z) (f : bool -> printer_capabilities -> printer_capabilities) (p : printer_info) :=
    if Z.testbit flags bit then with_capabilities (f true) p else p in
  let p := set 6 with_collate (set 5 with_copies (set 3 with_duplex (set 2 with_color p))) in
  if Z.testbit flags 7 || Z.testbit flags 17 then with_type type_virtual_printer p
  else if Z.testbit flags 1 then with_type type_network p else p.

Definition resolution_name (r : Z * Z * Z) : text :=
  to_decimal r.1.1 ++ lit "x" ++ to_decimal r.1.2 ++ (if r.2 =? 3 then lit " dpi" else lit " dpcm").

Definition add_sides (p : printer_info) (v : text) : printer_info :=
  if contains (lit "two-sided") v then with_capabilities (with_duplex true) p else p.

Definition ipp_effect (p : printer_info) (a : ipp_attribute) : printer_info :=
  match a with
  | Ipp_name v => with_names v v p
  | Ipp_info v => with_description v p
  | Ipp_location v => with_location v p
  | Ipp_make_and_model v => with_driver v p
  | Ipp_uri v => with_uri v p
  | Ipp_state_of v => with_state (state_of_number v) p
  | Ipp_accepting v => with_accepting (Some v) p
  | Ipp_shared v => with_shared (Some v) p
  | Ipp_jobs v => with_jobs (Some v) p
  | Ipp_color v => with_capabilities (with_color v) p
  | Ipp_type flags => printer_of_type flags p
  | Ipp_media first more => foldl (fun p v => with_capabilities (add_media v) p) p (first :: more)
  | Ipp_resolutions first more =>
      foldl (fun p r => with_capabilities (add_resolution (resolution_name r)) p) p (first :: more)
  | Ipp_copies v => with_capabilities (with_max_copies v) p
  | Ipp_copies_range _ upper => with_capabilities (with_max_copies upper) p
  | Ipp_sides first more => foldl add_sides p (first :: more)
  | Ipp_other _ _ _ => p
  end.

(** ** The response *)

Definition encode_attributes (attributes : list ipp_attribute) : text :=
  encode_raw (attributes ≫= raw_attributes).

Record ipp_response := Ipp_response {
  response_minor : Z;
  response_status : Z;
  response_id : Z;
  operation_attributes : list ipp_attribute;
  printer_groups : list (list ipp_attribute)
}.

Definition encode_response (r : ipp_response) : text :=
  append_uint32 (append_uint16 [char_of 2; char_of (response_minor r)] (response_status r))
    (response_id r) ++
  [char_of TAG_OPERATION_ATTRIBUTES] ++ encode_attributes (operation_attributes r) ++
  concat ((fun g => char_of TAG_PRINTER_ATTRIBUTES :: encode_attributes g) <$> printer_groups r) ++
  [char_of TAG_END_OF_ATTRIBUTES].

(** The type is derived from what was read unless the flags said it. *)
Definition classified (p : printer_info) : printer_info :=
  if bool_decide (pi_type p = type_unknown)
  then with_type (classify_printer_type (uri p) (pi_name p) (driver_name p)) p else p.

Definition printer_of_group (attributes : list ipp_attribute) : printer_info :=
  classified (foldl ipp_effect empty_printer attributes).

(** ** Well-formed responses *)

Definition short (v : text) : bool := Z.of_nat (length v) <? 2 ^ 16.

Definition utf8_value (v : text) : bool := is_valid_utf8 v && short v.

Definition known_names : list text := requested_attributes.

Definition attribute_ok (a : ipp_attribute) : bool :=
  match a with
  | Ipp_name v => utf8_value v && negb (empty v)
  | Ipp_info v | Ipp_location v | Ipp_make_and_model v | Ipp_uri v => utf8_value v
  | Ipp_state_of v | Ipp_jobs v => (0 <=? v) && (v <=? int32_max)
  | Ipp_accepting _ | Ipp_shared _ | Ipp_color _ => true
  | Ipp_type flags => (0 <=? flags) && (flags <=? uint32_max)
  | Ipp_media first more => forallb (fun v => utf8_value v && negb (empty v)) (first :: more)
  | Ipp_sides first more => forallb utf8_value (first :: more)
  | Ipp_resolutions first more =>
      forallb (fun r => (0 <? r.1.1) && (r.1.1 <=? int32_max) && (0 <? r.1.2) && (r.1.2 <=? int32_max) &&
                        ((r.2 =? 3) || (r.2 =? 4))) (first :: more)
  | Ipp_copies v => (0 <? v) && (v <=? int32_max)
  | Ipp_copies_range lower upper => (0 <? lower) && (lower <=? upper) && (upper <=? int32_max)
  | Ipp_other tag name value =>
      (0x10 <=? tag) && (tag <? 256) && negb (empty name) && short name && short value &&
      forallb (fun k => negb (same name k)) known_names
  end.

Definition named_group (g : list ipp_attribute) : bool :=
  existsb (fun a => match a with Ipp_name _ => true | _ => false end) g.

Definition response_ok (r : ipp_response) : bool :=
  (0 <=? response_minor r) && (response_minor r <=? 2) && (0 <=? response_status r) &&
  (response_status r <=? 0x00FF) && (0 <? response_id r) && (response_id r <=? int32_max) &&
  forallb attribute_ok (operation_attributes r) &&
  forallb (fun g => forallb attribute_ok g && named_group g) (printer_groups r).

(** ** Integers *)

Lemma low_byte v : code (char_of (Z.land v 0xFF)) = Z.land v 0xFF.
Proof. apply code_char_of. bits_to_arith. apply Z.mod_pos_bound. lia. Qed.

Lemma join_bytes v : 0 <= v -> Z.lor (Z.shiftl (Z.shiftr v 8) 8) (Z.land v 0xFF) = v.
Proof.
  intros Hv. bits_to_arith. change (2 ^ 8) with 256. rewrite (lor_add 8).
  - pose proof (Z.div_mod v 256). lia.
  - lia.
  - apply Z.mod_mul. lia.
  - apply Z.mod_pos_bound. lia.
Qed.

Lemma top_byte v n k :
  0 <= n -> k = n + 8 -> 0 <= v < 2 ^ k -> Z.land (Z.shiftr v n) 0xFF = Z.shiftr v n.
Proof.
  intros Hn -> Hv. bits_to_arith. apply Z.mod_small. rewrite Z.pow_add_r in Hv by lia.
  change (2 ^ 8) with 256 in *. split; [apply Z.div_pos; lia|]. apply Z.div_lt_upper_bound; lia.
Qed.

Section reading.
Variable data : text.

Lemma read_uint16_holds base size offset v :
  holds data (base + offset) (append_uint16 [] v) -> 0 <= v < 2 ^ 16 -> (offset + 2 <= size)%nat ->
  read_uint16 data base size offset = mret (Some v).
Proof.
  intros H Hv Hs. unfold read_uint16. rewrite (proj2 (Nat.ltb_ge _ _)) by lia.
  rewrite <- (Nat.add_0_r (base + offset)) at 1.
  rewrite (byte_at_holds _ _ _ 0 _ H eq_refl). cbn [mbind checked_bind mret checked_ret].
  rewrite (byte_at_holds _ _ _ 1 _ H eq_refl). cbn [mbind checked_bind mret checked_ret].
  rewrite !low_byte, (top_byte v 8 16), join_bytes by lia. done.
Qed.

Lemma read_uint32_holds base size offset v :
  holds data (base + offset) (append_uint32 [] v) -> 0 <= v < 2 ^ 32 -> (offset + 4 <= size)%nat ->
  read_uint32 data base size offset = mret (Some v).
Proof.
  intros H Hv Hs. unfold read_uint32. rewrite (proj2 (Nat.ltb_ge _ _)) by lia.
  rewrite <- (Nat.add_0_r (base + offset)) at 1.
  rewrite (byte_at_holds _ _ _ 0 _ H eq_refl). cbn [mbind checked_bind mret checked_ret].
  rewrite (byte_at_holds _ _ _ 1 _ H eq_refl). cbn [mbind checked_bind mret checked_ret].
  rewrite (byte_at_holds _ _ _ 2 _ H eq_refl). cbn [mbind checked_bind mret checked_ret].
  rewrite (byte_at_holds _ _ _ 3 _ H eq_refl). cbn [mbind checked_bind mret checked_ret].
  rewrite !low_byte, (top_byte v 24 32), uint32_nested by lia.
  assert (forall n, 0 <= n -> 0 <= Z.shiftr v n) as Hpos by (intros; apply Z.shiftr_nonneg; lia).
  assert (forall n, 0 <= n -> Z.shiftr v (n + 8) = Z.shiftr (Z.shiftr v n) 8) as Hsh
    by (intros; by rewrite Z.shiftr_shiftr by lia).
  change 24 with (16 + 8). rewrite Hsh, join_bytes by auto with lia.
  change 16 with (8 + 8). rewrite Hsh, join_bytes by auto with lia. by rewrite join_bytes by lia.
Qed.

(** ** Values *)

Lemma text_value_holds pos v store :
  holds data pos v -> is_valid_utf8 v = true -> text_value data pos (length v) store = mret (store v).
Proof.
  intros H Hu. unfold text_value. rewrite (slice_holds _ _ _ _ H eq_refl).
  cbn [mbind checked_bind mret checked_ret]. unfold validate_utf8. by rewrite Hu.
Qed.

Lemma boolean_value_holds pos v store :
  holds data pos (boolean_bytes v) ->
  boolean_value data pos (length (boolean_bytes v)) store = mret (store v).
Proof.
  intros H. unfold boolean_value. cbn [length boolean_bytes Nat.eqb negb].
  rewrite <- (Nat.add_0_r pos). rewrite (byte_at_holds _ _ _ 0 _ H eq_refl). by destruct v.
Qed.

Lemma integer_value_holds pos v limit store :
  holds data pos (append_uint32 [] v) -> 0 <= v <= limit -> limit < 2 ^ 32 ->
  integer_value data pos (length (append_uint32 [] v)) limit store = mret (store v).
Proof.
  intros H Hv Hl. unfold integer_value. cbn [length append_uint32 app Nat.eqb negb].
  rewrite (read_uint32_holds pos 4 0 v) by (rewrite ?Nat.add_0_r; done || lia).
  cbn [mbind checked_bind mret checked_ret]. by rewrite (proj2 (Z.ltb_ge _ _)) by lia.
Qed.

Lemma append_uint32_app buf v : append_uint32 buf v = buf ++ append_uint32 [] v.
Proof. done. Qed.

Lemma append_uint16_app buf v : append_uint16 buf v = buf ++ append_uint16 [] v.
Proof. done. Qed.

Lemma resolution_value_holds pos r p :
  holds data pos (resolution_bytes r) -> 0 < r.1.1 <= int32_max -> 0 < r.1.2 <= int32_max ->
  r.2 = 3 \/ r.2 = 4 ->
  resolution_value data pos (length (resolution_bytes r)) p =
  mret (with_capabilities (add_resolution (resolution_name r)) p).
Proof.
  intros H H1 H2 Hu. unfold resolution_value.
  change (length (resolution_bytes r)) with 9%nat. cbn [Nat.eqb negb].
  pose proof H as H'. unfold resolution_bytes in H'. rewrite append_uint32_app, <- app_assoc in H'.
  apply holds_app in H' as [Hx H']. apply holds_app in H' as [Hy _]. change (length _) with 4%nat in Hy.
  rewrite (read_uint32_holds pos 9 0 r.1.1) by (rewrite ?Nat.add_0_r; done || zlia).
  cbn [mbind checked_bind mret checked_ret].
  rewrite (read_uint32_holds pos 9 4 r.1.2) by (done || zlia). cbn [mbind checked_bind mret checked_ret].
  rewrite (byte_at_holds _ _ _ 8 _ H eq_refl). cbn [mbind checked_bind mret checked_ret].
  rewrite code_char_of by lia.
  rewrite (proj2 (Z.eqb_neq _ 0)), (proj2 (Z.eqb_neq r.1.2 0)) by lia.
  rewrite (proj2 (Z.leb_le r.1.1 _)), (proj2 (Z.leb_le r.1.2 _)) by zlia. cbn [negb andb].
  unfold resolution_text, resolution_name. by destruct Hu as [-> | ->].
Qed.

Lemma copies_value_holds pos v p :
  holds data pos (append_uint32 [] v) -> 0 < v <= int32_max ->
  copies_value data pos (length (append_uint32 [] v)) p = mret (with_capabilities (with_max_copies v) p).
Proof.
  intros H Hv. unfold copies_value. change (length _) with 4%nat. cbn [Nat.eqb].
  rewrite (read_uint32_holds pos 4 0 v) by (rewrite ?Nat.add_0_r; done || zlia).
  cbn [mbind checked_bind mret checked_ret].
  by rewrite (proj2 (Z.eqb_neq _ 0)), (proj2 (Z.leb_le v _)) by zlia.
Qed.

Lemma copies_range_holds pos lower upper p :
  holds data pos (append_uint32 (append_uint32 [] lower) upper) -> 0 < lower <= upper ->
  upper <= int32_max ->
  copies_value data pos (length (append_uint32 (append_uint32 [] lower) upper)) p =
  mret (with_capabilities (with_max_copies upper) p).
Proof.
  intros H Hl Hu. unfold copies_value. change (length _) with 8%nat. cbn [Nat.eqb].
  rewrite append_uint32_app in H. apply holds_app in H as [Hx Hy]. change (length _) with 4%nat in Hy.
  rewrite (read_uint32_holds pos 8 0 lower) by (rewrite ?Nat.add_0_r; done || zlia).
  cbn [mbind checked_bind mret checked_ret].
  rewrite (read_uint32_holds pos 8 4 upper) by (done || zlia). cbn [mbind checked_bind mret checked_ret].
  by rewrite (proj2 (Z.eqb_neq _ 0)), (proj2 (Z.leb_le lower _)), (proj2 (Z.leb_le upper _)) by zlia.
Qed.

End reading.

(** ** The flags of a printer *)

Lemma flag_set_testbit flags k : 0 <= k -> 0 <= flags -> flag_set flags (2 ^ k) = Z.testbit flags k.
Proof.
  intros Hk Hf. unfold flag_set. destruct (Z.testbit flags k) eqn:E.
  - apply negb_true_iff, Z.eqb_neq. intros H. apply (f_equal (fun z => Z.testbit z k)) in H.
    by rewrite Z.land_spec, E, Z.pow2_bits_true, Z.bits_0 in H by lia.
  - apply negb_false_iff, Z.eqb_eq, Z.bits_inj'. intros i Hi. rewrite Z.land_spec, Z.bits_0.
    destruct (Z.eq_dec i k) as [->|Hne]; [by rewrite E|].
    rewrite Z.pow2_bits_false by lia. apply andb_false_r.
Qed.

Lemma apply_type_flags_spec flags p :
  0 <= flags -> apply_type_flags flags p = printer_of_type flags p.
Proof.
  intros Hf. unfold apply_type_flags, printer_of_type. cbv zeta.
  change CUPS_PRINTER_COLOR with (2 ^ 2). change CUPS_PRINTER_DUPLEX with (2 ^ 3).
  change CUPS_PRINTER_COPIES with (2 ^ 5). change CUPS_PRINTER_COLLATE with (2 ^ 6).
  change CUPS_PRINTER_FAX with (2 ^ 7). change CUPS_PRINTER_PDF with (2 ^ 17).
  change CUPS_PRINTER_REMOTE with (2 ^ 1). by rewrite !flag_set_testbit by lia.
Qed.

(** ** Attributes *)

(** What each value of an attribute does. *)
Definition value_effects (a : ipp_attribute) : list (printer_info -> printer_info) :=
  match a with
  | Ipp_media first more => (fun v => with_capabilities (add_media v)) <$> first :: more
  | Ipp_resolutions first more =>
      (fun r => with_capabilities (add_resolution (resolution_name r))) <$> first :: more
  | Ipp_sides first more => (fun v p => add_sides p v) <$> first :: more
  | _ => [fun p => ipp_effect p a]
  end.

Definition apply_all (fs : list (printer_info -> printer_info)) (p : printer_info) : printer_info :=
  foldl (fun p f => f p) p fs.

Lemma apply_all_fmap {A} (f : A -> printer_info -> printer_info) l p :
  apply_all (f <$> l) p = foldl (fun p v => f v p) p l.
Proof. revert p. induction l as [|v l IH]; intros p; [done|]. apply IH. Qed.

Lemma value_effects_spec a p : apply_all (value_effects a) p = ipp_effect p a.
Proof. destruct a; try done; cbn [value_effects]; by rewrite apply_all_fmap. Qed.

(** A value is decoded to its effect wherever it is in the answer. *)
Definition decodes (name : text) (v : text) (f : printer_info -> printer_info) : Prop :=
  short v = true /\
  forall data pos p, holds data pos v -> decode_attribute data pos (length v) name p = mret (f p).

(** Evaluates the tests on a known name. *)
Ltac decide_names :=
  repeat match goal with
  | |- context [same (lit ?a) (lit ?b)] =>
      let r := eval vm_compute in (same (lit a) (lit b)) in
      change (same (lit a) (lit b)) with r
  end; cbv iota.

Lemma decodes_text name v store f :
  utf8_value v = true ->
  (forall data pos p, decode_attribute data pos (length v) name p =
                      text_value data pos (length v) (fun v => store v p)) ->
  (forall p, store v p = f p) -> decodes name v f.
Proof.
  intros [Hu Hs]%andb_true_iff Hd Hf. split; [done|]. intros data pos p H.
  by rewrite Hd, text_value_holds, Hf.
Qed.

Lemma decodes_integer name v limit store f :
  0 <= v <= limit -> limit < 2 ^ 32 ->
  (forall data pos p, decode_attribute data pos 4 name p =
                      integer_value data pos 4 limit (fun v => store v p)) ->
  (forall p, store v p = f p) -> decodes name (append_uint32 [] v) f.
Proof.
  intros Hv Hl Hd Hf. split; [done|]. intros data pos p H.
  change (length _) with 4%nat. rewrite Hd.
  change 4%nat with (length (append_uint32 [] v)). by rewrite integer_value_holds, Hf by done.
Qed.

Lemma decodes_boolean name v store f :
  (forall data pos p, decode_attribute data pos 1 name p =
                      boolean_value data pos 1 (fun v => store v p)) ->
  (forall p, store v p = f p) -> decodes name (boolean_bytes v) f.
Proof.
  intros Hd Hf. split; [done|]. intros data pos p H. change (length _) with 1%nat. rewrite Hd.
  change 1%nat with (length (boolean_bytes v)). by rewrite boolean_value_holds, Hf.
Qed.

Lemma decodes_set {A} (test : A -> bool) (g : A -> text) h name l :
  forallb test l = true -> (forall x, test x = true -> decodes name (g x) (h x)) ->
  Forall2 (decodes name) (g <$> l) (h <$> l).
Proof.
  intros Hl Hx. induction l as [|x l IH]; [constructor|]. cbn [forallb] in Hl.
  apply andb_true_iff in Hl as [H1 H2]. constructor; [by apply Hx|by apply IH].
Qed.

Lemma decodes_other name v :
  short v = true -> forallb (fun k => negb (same name k)) known_names = true ->
  decodes name v (fun p => p).
Proof.
  intros Hs H. split; [done|]. intros data pos p _. unfold decode_attribute, known_names in *.
  unfold requested_attributes in H. cbn [forallb fmap list_fmap] in H. rewrite !andb_true_iff, !negb_true_iff in H.
  destruct H as (H1 & H2 & H3 & H4 & H5 & H6 & H7 & H8 & H9 & H10 & H11 & H12 & H13 & H14 & H15 & _).
  by rewrite H1, H2, H3, H4, H5, H6, H7, H8, H9, H10, H11, H12, H13, H14, H15.
Qed.

Lemma decodes_resolution r :
  (0 <? r.1.1) && (r.1.1 <=? int32_max) && (0 <? r.1.2) && (r.1.2 <=? int32_max) &&
    ((r.2 =? 3) || (r.2 =? 4)) = true ->
  decodes (lit "printer-resolution-supported") (resolution_bytes r)
    (with_capabilities (add_resolution (resolution_name r))).
Proof.
  intros Hr. rewrite !andb_true_iff, orb_true_iff in Hr. split; [done|]. intros data pos p H.
  unfold decode_attribute. decide_names. rewrite resolution_value_holds; [done|done|lia..].
Qed.

(** A single value, whose effect is that of its attribute. *)
Ltac single_value := constructor; [|constructor].

Lemma decodes_values a :
  attribute_ok a = true -> Forall2 (decodes (ipp_name a)) (ipp_values a) (value_effects a).
Proof.
  intros Hok. destruct a; cbn [ipp_name ipp_values value_effects attribute_ok ipp_effect] in *.
  - single_value. apply andb_true_iff in Hok as [Hu Hne%negb_true_iff].
    eapply decodes_text; [done|reflexivity|]. intros p. cbv beta. by rewrite Hne.
  - single_value. by eapply decodes_text; [done|reflexivity|].
  - single_value. by eapply decodes_text; [done|reflexivity|].
  - single_value. by eapply decodes_text; [done|reflexivity|].
  - single_value. by eapply decodes_text; [done|reflexivity|].
  - single_value. eapply (decodes_integer _ _ 0x7FFFFFFF); [zlia|done|reflexivity|]. intros p. cbv beta. f_equal.
    unfold map_ipp_printer_state, state_of_number. by destruct v as [|[[[]|[]|]|[[]|[]|]|]|].
  - single_value. by eapply decodes_boolean; [reflexivity|].
  - single_value. by eapply decodes_boolean; [reflexivity|].
  - single_value. by eapply (decodes_integer _ _ 0x7FFFFFFF); [zlia|done|reflexivity|].
  - single_value. by eapply decodes_boolean; [reflexivity|].
  - single_value. eapply (decodes_integer _ _ uint32_max); [zlia|done|reflexivity|]. intros p. cbv beta.
    apply apply_type_flags_spec. lia.
  - rewrite <- (list_fmap_id (first :: more)) at 1. apply (decodes_set _ _ _ _ _ Hok).
    intros v [Hu Hne%negb_true_iff]%andb_true_iff. unfold id.
    eapply decodes_text; [done|reflexivity|]. intros p. cbv beta. by rewrite Hne.
  - apply (decodes_set _ _ _ _ _ Hok). apply decodes_resolution.
  - single_value. split; [done|]. intros data pos p H. unfold decode_attribute. decide_names.
    apply copies_value_holds; [done|lia].
  - single_value. rewrite !andb_true_iff in Hok. split; [done|]. intros data pos p H.
    unfold decode_attribute. decide_names. apply copies_range_holds; [done|lia|lia].
  - rewrite <- (list_fmap_id (first :: more)) at 1. apply (decodes_set _ _ _ _ _ Hok).
    intros v Hu. unfold id. by eapply decodes_text; [done|reflexivity|].
  - single_value. rewrite !andb_true_iff in Hok. destruct Hok as [[_ Hs] Hk]. by apply decodes_other.
Qed.

(** ** The loop over attributes *)

Definition raw_ok (a : Z * text * text) : bool :=
  (0x10 <=? a.1.1) && (a.1.1 <? 256) && short a.1.2 && short a.2.

Lemma append_string_attr_parts buf tag name v :
  short name = true -> short v = true ->
  append_string_attr buf tag name v =
  buf ++ [char_of tag] ++ append_uint16 [] (Z.of_nat (length name)) ++ name ++
  append_uint16 [] (Z.of_nat (length v)) ++ v.
Proof.
  unfold short. intros Hn%Z.ltb_lt Hv%Z.ltb_lt. unfold append_string_attr, wrap. cbv zeta.
  rewrite !Z.mod_small by lia. unfold append_uint16. by rewrite <- !app_assoc.
Qed.

Lemma append_raw_app buf a : append_raw buf a = buf ++ append_raw [] a.
Proof. unfold append_raw, append_string_attr, append_uint16. cbv zeta. by rewrite <- !app_assoc. Qed.

Lemma encode_raw_cons a l : encode_raw (a :: l) = append_raw [] a ++ encode_raw l.
Proof.
  unfold encode_raw. cbn [foldl]. generalize (append_raw [] a) as buf.
  induction l as [|x l IH] using rev_ind; intros buf; [by rewrite app_nil_r|].
  rewrite !foldl_app. cbn [foldl]. by rewrite IH, (append_raw_app (_ ++ _)), (append_raw_app (foldl _ [] l)), app_assoc.
Qed.

Lemma encode_raw_app l k : encode_raw (l ++ k) = encode_raw l ++ encode_raw k.
Proof.
  induction l as [|a l IH]; [done|]. rewrite <- app_comm_cons, !encode_raw_cons, IH. by rewrite app_assoc.
Qed.

Section loop.
Variable data : text.

Definition effective_name (name : text) (s : ipp_state) : text :=
  if empty name then current_attr_name s else name.

Lemma short_spec v : short v = true <-> Z.of_nat (length v) < 2 ^ 16.
Proof. unfold short. lia. Qed.

(** One attribute, after its tag. *)
Lemma value_attribute_holds pos name v s :
  holds data pos (append_uint16 [] (Z.of_nat (length name)) ++ name ++
                  append_uint16 [] (Z.of_nat (length v)) ++ v) ->
  short name = true -> short v = true -> effective_name name s <> [] ->
  let n := effective_name name s in
  let behind := (pos + (4 + length name + length v))%nat in
  value_attribute data (length data) pos s =
  if in_printer_group s then
    current ← decode_attribute data (pos + (4 + length name)) (length v) n (current_printer s);
    mret (Ipp_state (result_printers s) current true true n, behind)
  else
    mret (Ipp_state (result_printers s) (current_printer s) false (current_group_has_attributes s) n,
          behind).
Proof.
  intros H Hn%short_spec Hv%short_spec Hne n behind. pose proof (holds_bound _ _ _ H) as Hb.
  rewrite !length_app in Hb. change (length (append_uint16 [] _)) with 2%nat in Hb.
  apply holds_app in H as [H1 H]. apply holds_app in H as [H2 H]. apply holds_app in H as [H3 H4].
  change (length (append_uint16 [] _)) with 2%nat in H2, H3, H4.
  unfold value_attribute. rewrite (read_uint16_holds _ 0 _ _ (Z.of_nat (length name))) by (done || lia).
  cbn [mbind checked_bind mret checked_ret]. cbv zeta. rewrite Nat2Z.id.
  rewrite (proj2 (Nat.ltb_ge _ _)) by lia.
  match goal with |- context [if (0 <? length name)%nat then ?a else ?b] =>
    assert ((if (0 <? length name)%nat then a else b) = Some (Value (n, (pos + 2 + length name)%nat))) as ->
  end.
  { unfold n, effective_name in *. destruct name as [|c name].
    - cbn [length Nat.ltb Nat.leb empty] in *. rewrite (proj2 (empty_false _) Hne). by rewrite Nat.add_0_r.
    - by rewrite (slice_holds _ _ _ _ H2 eq_refl). }
  cbn [mbind checked_bind mret checked_ret fst snd].
  rewrite (read_uint16_holds _ 0 _ _ (Z.of_nat (length v))) by (done || lia).
  cbn [mbind checked_bind mret checked_ret]. rewrite Nat2Z.id. rewrite (proj2 (Nat.ltb_ge _ _)) by lia.
  replace (pos + 2 + length name + 2)%nat with (pos + (4 + length name))%nat by lia.
  replace (pos + (4 + length name) + length v)%nat with behind by (unfold behind; lia).
  by destruct (in_printer_group s).
Qed.

(** One iteration of the loop on an attribute. *)
Lemma attribute_loop_raw fuel pos a s :
  raw_ok a = true -> holds data pos (append_raw [] a) -> effective_name a.1.2 s <> [] ->
  attribute_loop (S fuel) data (length data) pos s =
  let n := effective_name a.1.2 s in
  let behind := (pos + length (append_raw [] a))%nat in
  if in_printer_group s then
    current ← decode_attribute data (pos + (5 + length a.1.2)) (length a.2) n (current_printer s);
    attribute_loop fuel data (length data) behind (Ipp_state (result_printers s) current true true n)
  else
    attribute_loop fuel data (length data) behind
      (Ipp_state (result_printers s) (current_printer s) false (current_group_has_attributes s) n).
Proof.
  destruct a as [[tag name] v]. cbn [fst snd]. unfold raw_ok. cbn [fst snd]. rewrite !andb_true_iff.
  intros [[[Ht1%Z.leb_le Ht2%Z.ltb_lt] Hn] Hv] H Hne. unfold append_raw in *. cbn [fst snd] in *.
  rewrite append_string_attr_parts in H |- * by done. cbn [app] in H. cbv zeta.
  change (char_of tag :: ?l) with ([char_of tag] ++ l) in H. pose proof (holds_bound _ _ _ H) as Hb.
  apply holds_app in H as [Htag H]. change (length [char_of tag]) with 1%nat in H.
  cbn [attribute_loop]. rewrite length_app in Hb. cbn [length] in Hb.
  rewrite (proj2 (Nat.ltb_lt _ _)) by lia.
  rewrite <- (Nat.add_0_r pos) at 1. rewrite (byte_at_holds _ _ _ 0 _ Htag eq_refl).
  cbn [mbind checked_bind mret checked_ret]. rewrite code_char_of by lia.
  rewrite (proj2 (Z.eqb_neq _ _)) by (unfold TAG_END_OF_ATTRIBUTES; lia).
  rewrite (proj2 (Z.leb_gt _ _)) by lia.
  rewrite (value_attribute_holds _ name v) by done. cbv zeta.
  replace (pos + 1 + (4 + length name))%nat with (pos + (5 + length name))%nat by lia.
  replace (pos + 1 + (4 + length name + length v))%nat
    with (pos + length ([char_of tag] ++ append_uint16 [] (Z.of_nat (length name)) ++ name ++
                        append_uint16 [] (Z.of_nat (length v)) ++ v))%nat
    by (rewrite !length_app; change (length (append_uint16 [] _)) with 2%nat; cbn [length]; lia).
  destruct (in_printer_group s); [|done]. by destruct (decode_attribute _ _ _ _ _) as [[p|e]|].
Qed.

(** The values of one attribute: the first with the name, the rest without. *)
Lemma attribute_loop_values fuel pos tag n vs fs first_name s :
  Forall2 (decodes n) vs fs -> 0x10 <= tag < 256 -> n <> [] -> short n = true ->
  effective_name first_name s = n -> (first_name = n \/ first_name = []) ->
  let raws := match vs with
              | [] => []
              | v :: vs => (tag, first_name, v) :: ((fun v => (tag, [], v)) <$> vs)
              end in
  holds data pos (encode_raw raws) -> in_printer_group s = true -> vs <> [] ->
  attribute_loop (length raws + fuel) data (length data) pos s =
  attribute_loop fuel data (length data) (pos + length (encode_raw raws))
    (Ipp_state (result_printers s) (apply_all fs (current_printer s)) true true n).
Proof.
  intros H Ht Hne Hsn. revert pos first_name s. induction H as [|v f vs fs [Hv Hd] Hvs IH];
    intros pos first_name s Hname Hfirst raws Hh Hin Hnil; [done|].
  subst raws. cbn [length Nat.add]. rewrite encode_raw_cons in Hh. pose proof Hh as [H1 H2]%holds_app.
  assert (raw_ok (tag, first_name, v) = true) as Hok.
  { unfold raw_ok. cbn [fst snd]. rewrite Hv.
    assert (short first_name = true) as -> by by destruct Hfirst as [-> | ->].
    lia. }
  rewrite (attribute_loop_raw _ _ (tag, first_name, v)) by (done || (cbn [fst snd]; by rewrite Hname)).
  cbn [fst snd]. rewrite Hin, Hname. cbv zeta.
  pose proof H1 as H1v. unfold append_raw in H1v. cbn [fst snd] in H1v.
  rewrite append_string_attr_parts in H1v by (done || by destruct Hfirst as [-> | ->]).
  cbn [app] in H1v. change (char_of tag :: ?l) with ([char_of tag] ++ l) in H1v.
  rewrite !app_assoc in H1v. apply holds_app in H1v as [_ H1v]. rewrite !length_app in H1v.
  change (length (append_uint16 [] _)) with 2%nat in H1v. cbn [length] in H1v.
  replace (pos + (1 + 2 + length first_name + 2))%nat with (pos + (5 + length first_name))%nat in H1v by lia.
  rewrite (Hd _ _ _ H1v). cbn [mbind checked_bind mret checked_ret].
  destruct vs as [|v2 vs].
  - inversion Hvs; subst. cbn [fmap list_fmap length Nat.add]. rewrite encode_raw_cons.
    cbn. by rewrite app_nil_r.
  - specialize (IH (pos + length (append_raw [] (tag, first_name, v)))%nat []
      (Ipp_state (result_printers s) (f (current_printer s)) true true n) eq_refl (or_intror eq_refl)).
    cbv zeta in IH. cbn [fmap list_fmap] in *. rewrite IH by done.
    rewrite (encode_raw_cons (tag, first_name, v)), length_app, Nat.add_assoc. done.
Qed.

End loop.

Section groups.
Variable data : text.

Lemma tag_range a : attribute_ok a = true -> 0x10 <= ipp_tag a < 256.
Proof.
  intros H. destruct a; cbn [ipp_tag attribute_ok] in *; try lia.
Qed.

Lemma name_ok a : attribute_ok a = true -> ipp_name a <> [] /\ short (ipp_name a) = true.
Proof.
  intros H. destruct a; cbn [ipp_name attribute_ok] in *; try done.
  rewrite !andb_true_iff, negb_true_iff, empty_false in H. tauto.
Qed.

Lemma values_ne a : ipp_values a <> [].
Proof. by destruct a. Qed.

(** An attribute inside the group of a printer. *)
Lemma attribute_loop_attribute a fuel pos s :
  attribute_ok a = true -> holds data pos (encode_raw (raw_attributes a)) -> in_printer_group s = true ->
  attribute_loop (length (raw_attributes a) + fuel) data (length data) pos s =
  attribute_loop fuel data (length data) (pos + length (encode_raw (raw_attributes a)))
    (Ipp_state (result_printers s) (ipp_effect (current_printer s) a) true true (ipp_name a)).
Proof.
  intros Hok Hh Hin. destruct (name_ok a Hok) as [Hne Hs].
  pose proof (attribute_loop_values data fuel pos (ipp_tag a) (ipp_name a) (ipp_values a) (value_effects a)
    (ipp_name a) s (decodes_values a Hok) (tag_range a Hok) Hne Hs) as H.
  rewrite <- value_effects_spec. apply H; try done; [|by left|apply values_ne].
  unfold effective_name. by rewrite (proj2 (empty_false _) Hne).
Qed.

Lemma encode_attributes_cons a l : encode_attributes (a :: l) = encode_raw (raw_attributes a) ++ encode_attributes l.
Proof. unfold encode_attributes. cbn [mbind list_bind]. apply encode_raw_app. Qed.

Definition raw_count (attributes : list ipp_attribute) : nat := length (attributes ≫= raw_attributes).

(** All attributes of a printer. *)
Lemma attribute_loop_group attributes fuel pos s :
  forallb attribute_ok attributes = true -> holds data pos (encode_attributes attributes) ->
  in_printer_group s = true ->
  exists name has, attribute_loop (raw_count attributes + fuel) data (length data) pos s =
    attribute_loop fuel data (length data) (pos + length (encode_attributes attributes))
      (Ipp_state (result_printers s) (foldl ipp_effect (current_printer s) attributes) true has name).
Proof.
  revert pos s. induction attributes as [|a attributes IH]; intros pos s Hok Hh Hin.
  - exists (current_attr_name s), (current_group_has_attributes s). cbn. rewrite Nat.add_0_r.
    destruct s. cbn in *. by rewrite Hin.
  - cbn [forallb] in Hok. apply andb_true_iff in Hok as [Ha Hok].
    rewrite encode_attributes_cons in Hh |- *. apply holds_app in Hh as [H1 H2].
    unfold raw_count. cbn [mbind list_bind]. rewrite length_app, <- Nat.add_assoc.
    rewrite attribute_loop_attribute by done.
    destruct (IH _ (Ipp_state (result_printers s) (ipp_effect (current_printer s) a) true true (ipp_name a))
      Hok H2 eq_refl) as (name & has & E).
    exists name, has. unfold raw_count in E. rewrite E, length_app, Nat.add_assoc. done.
Qed.

(** Attributes outside such a group are skipped. *)
Lemma attribute_loop_skip_raw raws fuel pos s :
  forallb raw_ok raws = true -> holds data pos (encode_raw raws) -> in_printer_group s = false ->
  (forall a, head raws = Some a -> effective_name a.1.2 s <> []) ->
  exists name, attribute_loop (length raws + fuel) data (length data) pos s =
    attribute_loop fuel data (length data) (pos + length (encode_raw raws))
      (Ipp_state (result_printers s) (current_printer s) false (current_group_has_attributes s) name).
Proof.
  revert pos s. induction raws as [|a raws IH]; intros pos s Hok Hh Hin Hn.
  - exists (current_attr_name s). cbn. rewrite Nat.add_0_r. destruct s. cbn in *. by rewrite Hin.
  - cbn [forallb] in Hok. apply andb_true_iff in Hok as [Ha Hok]. rewrite encode_raw_cons in Hh |- *.
    apply holds_app in Hh as [H1 H2]. cbn [length Nat.add].
    specialize (Hn a eq_refl). rewrite (attribute_loop_raw data _ _ a) by done. rewrite Hin. cbv zeta.
    destruct (IH _ (Ipp_state (result_printers s) (current_printer s) false
      (current_group_has_attributes s) (effective_name a.1.2 s)) Hok H2 eq_refl) as (name & E).
    { intros b _. unfold effective_name at 1. cbn [current_attr_name].
      destruct b.1.2; [done|discriminate]. }
    exists name. by rewrite E, length_app, Nat.add_assoc.
Qed.

Lemma raws_ok a : attribute_ok a = true -> forallb raw_ok (raw_attributes a) = true.
Proof.
  intros H. pose proof (tag_range a H). destruct (name_ok a H) as [_ Hn].
  pose proof (decodes_values a H) as Hv. unfold raw_attributes.
  destruct Hv as [|v f vs fs [Hs _] Hvs]; [done|]. cbn [forallb]. rewrite andb_true_iff. split.
  - unfold raw_ok. cbn [fst snd]. rewrite Hs, Hn. lia.
  - apply forallb_forall. intros b Hb%list_elem_of_In. apply list_elem_of_fmap in Hb as (v2 & -> & Hv2).
    unfold raw_ok. cbn [fst snd].
    apply list_elem_of_lookup in Hv2 as [i Hi]. destruct (Forall2_lookup_l _ _ _ _ _ Hvs Hi) as (g & _ & Hg & _).
    rewrite Hg. change (short []) with true. lia.
Qed.

Lemma attribute_loop_skip attributes fuel pos s :
  forallb attribute_ok attributes = true -> holds data pos (encode_attributes attributes) ->
  in_printer_group s = false ->
  exists name, attribute_loop (raw_count attributes + fuel) data (length data) pos s =
    attribute_loop fuel data (length data) (pos + length (encode_attributes attributes))
      (Ipp_state (result_printers s) (current_printer s) false (current_group_has_attributes s) name).
Proof.
  intros Hok Hh Hin. apply attribute_loop_skip_raw; try done.
  - apply forallb_forall. intros b Hb%list_elem_of_In. apply list_elem_of_bind in Hb as (a & Hb & Ha).
    rewrite forallb_forall in Hok. apply list_elem_of_In, Hok, raws_ok in Ha.
    rewrite forallb_forall in Ha. by apply Ha, list_elem_of_In.
  - intros b Hb. destruct attributes as [|a attributes]; [done|]. cbn [forallb] in Hok.
    apply andb_true_iff in Hok as [Ha _]. destruct (name_ok a Ha) as [Hne _].
    cbn [mbind list_bind] in Hb. unfold raw_attributes in Hb. pose proof (values_ne a).
    destruct (ipp_values a); [done|]. cbn in Hb. injection Hb as <-. unfold effective_name. cbn [fst snd].
    by rewrite (proj2 (empty_false _) Hne).
Qed.

End groups.

(** ** Groups *)

Lemma effect_names p a :
  match a with Ipp_name _ => True | _ => pi_id (ipp_effect p a) = pi_id p /\ pi_name (ipp_effect p a) = pi_name p end.
Proof.
  assert (forall A (f : printer_info -> A -> printer_info) l,
    (forall p x, pi_id (f p x) = pi_id p /\ pi_name (f p x) = pi_name p) ->
    forall p, pi_id (foldl f p l) = pi_id p /\ pi_name (foldl f p l) = pi_name p) as Hfold.
  { intros A f l Hf. induction l as [|x l IH]; intros q; [done|]. cbn [foldl].
    destruct (IH (f q x)) as [-> ->]. apply Hf. }
  destruct a; try done; cbn [ipp_effect].
  - unfold printer_of_type. cbv zeta. by repeat case_match.
  - by apply (Hfold _ (fun p v => with_capabilities (add_media v) p) (first :: more)).
  - by apply (Hfold _ (fun p r => with_capabilities (add_resolution (resolution_name r)) p) (first :: more)).
  - apply (Hfold _ add_sides (first :: more)). intros q v. unfold add_sides. by case_match.
Qed.

Definition has_names (p : printer_info) : Prop := pi_id p <> [] /\ pi_name p <> [].

Lemma effect_has_names p a : attribute_ok a = true -> has_names p -> has_names (ipp_effect p a).
Proof.
  intros Hok [Hi Hn]. pose proof (effect_names p a) as H. unfold has_names.
  destruct a; try (destruct H as [-> ->]; done).
  cbn [attribute_ok] in Hok. apply andb_true_iff in Hok as [_ Hv%negb_true_iff%empty_false]. by split.
Qed.

Lemma group_has_names g p :
  forallb attribute_ok g = true -> named_group g = true \/ has_names p ->
  has_names (foldl ipp_effect p g).
Proof.
  revert p. induction g as [|a g IH]; intros p Hok Hn; [by destruct Hn|]. cbn [forallb foldl] in *.
  apply andb_true_iff in Hok as [Ha Hok]. apply IH; [done|].
  destruct Hn as [Hn|Hn]; [|right; by apply effect_has_names].
  unfold named_group in Hn. cbn [existsb] in Hn. apply orb_true_iff in Hn as [Hn|Hn]; [right|by left].
  destruct a; try done. cbn [attribute_ok] in Ha. apply andb_true_iff in Ha as [_ Hv%negb_true_iff%empty_false].
  by split.
Qed.

(** Completing a group adds its printer. *)
Lemma finish_group g rs has name :
  forallb attribute_ok g = true -> named_group g = true ->
  finish_current_printer (Ipp_state rs (foldl ipp_effect empty_printer g) true has name) =
  Some (Ipp_state (rs ++ [printer_of_group g]) empty_printer true false name).
Proof.
  intros Hok Hn. destruct (group_has_names g empty_printer Hok (or_introl Hn)) as [Hi Hna].
  unfold finish_current_printer, printer_of_group, classified. cbn [current_printer current_group_has_attributes].
  set (p := foldl ipp_effect empty_printer g) in *.
  rewrite (proj2 (empty_false (pi_id p)) Hi), (proj2 (empty_false (pi_name p)) Hna), andb_false_r.
  done.
Qed.

Definition encode_group (g : list ipp_attribute) : text :=
  char_of TAG_PRINTER_ATTRIBUTES :: encode_attributes g.

Definition group_cost (gs : list (list ipp_attribute)) : nat :=
  foldr (fun g n => 1 + raw_count g + n)%nat 0%nat gs.

Section response.
Variable data : text.

(** One iteration on a delimiter. *)
Lemma attribute_loop_delimiter fuel pos tag s :
  holds data pos [char_of tag] -> 0 <= tag <= 0x0F -> tag <> TAG_END_OF_ATTRIBUTES ->
  attribute_loop (S fuel) data (length data) pos s =
  s ← check (delimiter tag s); attribute_loop fuel data (length data) (pos + 1) s.
Proof.
  intros H Ht Hne. cbn [attribute_loop]. pose proof (holds_bound _ _ _ H) as Hb. cbn in Hb.
  rewrite (proj2 (Nat.ltb_lt _ _)) by lia.
  rewrite <- (Nat.add_0_r pos) at 1. rewrite (byte_at_holds _ _ _ 0 _ H eq_refl).
  cbn [mbind checked_bind mret checked_ret]. rewrite code_char_of by lia.
  rewrite (proj2 (Z.eqb_neq _ _)), (proj2 (Z.leb_le _ _)) by lia. done.
Qed.

Lemma attribute_loop_end fuel pos s :
  holds data pos [char_of TAG_END_OF_ATTRIBUTES] ->
  attribute_loop (S fuel) data (length data) pos s = mret (s, (pos + 1)%nat, true).
Proof.
  intros H. cbn [attribute_loop]. pose proof (holds_bound _ _ _ H) as Hb. cbn in Hb.
  rewrite (proj2 (Nat.ltb_lt _ _)) by lia.
  rewrite <- (Nat.add_0_r pos) at 1. rewrite (byte_at_holds _ _ _ 0 _ H eq_refl). done.
Qed.

Definition groups_ok (gs : list (list ipp_attribute)) : bool :=
  forallb (fun g => forallb attribute_ok g && named_group g) gs.

(** The groups that follow one whose attributes were read. *)
Lemma attribute_loop_groups gs g0 fuel pos rs has name :
  groups_ok (g0 :: gs) = true ->
  holds data pos (concat (encode_group <$> gs) ++ [char_of TAG_END_OF_ATTRIBUTES]) ->
  exists s, attribute_loop (group_cost gs + S fuel) data (length data) pos
      (Ipp_state rs (foldl ipp_effect empty_printer g0) true has name) =
    mret (s, (pos + length (concat (encode_group <$> gs)) + 1)%nat, true) /\
    in_printer_group s = true /\
    exists s', finish_current_printer s = Some s' /\
      result_printers s' = rs ++ (printer_of_group <$> g0 :: gs).
Proof.
  revert g0 pos rs has name. induction gs as [|g gs IH]; intros g0 pos rs has name Hok Hh;
    unfold groups_ok in Hok; cbn [forallb] in Hok; apply andb_true_iff in Hok as [[Hg0 Hn0]%andb_true_iff Hok].
  - cbn [group_cost foldr Nat.add fmap list_fmap concat app] in *. eexists. split_and!.
    + rewrite attribute_loop_end by done. by rewrite Nat.add_0_r.
    + done.
    + eexists. split; [by apply finish_group|]. done.
  - cbn [fmap list_fmap concat] in Hh |- *. unfold encode_group at 1 in Hh. rewrite <- app_assoc in Hh.
    change (char_of TAG_PRINTER_ATTRIBUTES :: ?l) with ([char_of TAG_PRINTER_ATTRIBUTES] ++ l) in Hh.
    cbn [app] in Hh. change (char_of TAG_PRINTER_ATTRIBUTES :: ?l) with ([char_of TAG_PRINTER_ATTRIBUTES] ++ l) in Hh.
    apply holds_app in Hh as [H1 Hh]. apply holds_app in Hh as [H2 H3].
    change (length [char_of TAG_PRINTER_ATTRIBUTES]) with 1%nat in *.
    cbn [group_cost foldr]. fold (group_cost gs). cbn [Nat.add].
    rewrite (attribute_loop_delimiter _ _ TAG_PRINTER_ATTRIBUTES) by (done || unfold TAG_PRINTER_ATTRIBUTES; lia).
    unfold delimiter. cbn [in_printer_group]. rewrite Z.eqb_refl, finish_group by done.
    cbn [check mbind checked_bind]. pose proof Hok as Hg. cbn [forallb] in Hg.
    apply andb_true_iff in Hg as [[Hg Hn]%andb_true_iff _].
    rewrite <- Nat.add_assoc.
    destruct (attribute_loop_group data g (group_cost gs + S fuel) (pos + 1)
      (with_group true (Ipp_state (rs ++ [printer_of_group g0]) empty_printer true false name)) Hg H2 eq_refl)
      as (name' & has' & E).
    rewrite E. destruct (IH g (pos + 1 + length (encode_attributes g))%nat (rs ++ [printer_of_group g0])
      has' name' Hok H3) as (s & Es & Hin & s' & Hs' & Hr).
    exists s. split_and!.
    + cbn [with_group result_printers current_printer]. rewrite Es. do 3 f_equal.
      rewrite length_app. unfold encode_group at 2. cbn [length]. lia.
    + done.
    + exists s'. split; [done|]. rewrite Hr, <- app_assoc. done.
Qed.

End response.

(** ** Enough fuel *)

Lemma encode_raw_length raws : (length raws <= length (encode_raw raws))%nat.
Proof.
  induction raws as [|a raws IH]; [done|]. rewrite encode_raw_cons, length_app. cbn [length].
  unfold append_raw, append_string_attr, append_uint16. cbv zeta. rewrite !length_app. cbn [length]. lia.
Qed.

Lemma group_cost_length gs : (group_cost gs <= length (concat (encode_group <$> gs)))%nat.
Proof.
  induction gs as [|g gs IH]; [done|]. cbn [fmap list_fmap concat group_cost foldr].
  fold (group_cost gs). rewrite length_app. unfold encode_group at 1. cbn [length].
  pose proof (encode_raw_length (g ≫= raw_attributes)). unfold raw_count, encode_attributes. lia.
Qed.

(** The bytes after the header: the groups in sequence. *)
Lemma response_groups data r fuel :
  response_ok r = true ->
  holds data 8 ([char_of TAG_OPERATION_ATTRIBUTES] ++ encode_attributes (operation_attributes r) ++
                concat (encode_group <$> printer_groups r) ++ [char_of TAG_END_OF_ATTRIBUTES]) ->
  exists s, attribute_loop (1 + (raw_count (operation_attributes r) + (group_cost (printer_groups r) + S fuel)))
      data (length data) 8 (Ipp_state [] empty_printer false false []) =
    mret (s, (8 + length ([char_of TAG_OPERATION_ATTRIBUTES] ++ encode_attributes (operation_attributes r) ++
                concat (encode_group <$> printer_groups r) ++ [char_of TAG_END_OF_ATTRIBUTES]))%nat, true) /\
    if in_printer_group s then
      exists s', finish_current_printer s = Some s' /\ result_printers s' = printer_of_group <$> printer_groups r
    else result_printers s = printer_of_group <$> printer_groups r.
Proof.
  unfold response_ok. rewrite !andb_true_iff. intros [[[[[[[_ _] _] _] _] _] Hop] Hgs] H.
  apply holds_app in H as [H1 H]. apply holds_app in H as [H2 H].
  change (length [char_of TAG_OPERATION_ATTRIBUTES]) with 1%nat in *.
  change (1 + ?n)%nat with (S n).
  rewrite (attribute_loop_delimiter _ _ _ TAG_OPERATION_ATTRIBUTES)
    by (done || unfold TAG_OPERATION_ATTRIBUTES; lia).
  cbn [delimiter check mbind checked_bind in_printer_group with_group].
  destruct (attribute_loop_skip data (operation_attributes r) (group_cost (printer_groups r) + S fuel) (8 + 1)
    (with_group false (Ipp_state [] empty_printer false false [])) Hop H2 eq_refl) as (name & E).
  change (delimiter TAG_OPERATION_ATTRIBUTES (Ipp_state [] empty_printer false false []))
    with (Value (with_group false (Ipp_state [] empty_printer false false []))).
  cbn [check mbind checked_bind]. rewrite E. cbn [with_group result_printers current_printer current_group_has_attributes].
  destruct (printer_groups r) as [|g gs] eqn:Eg.
  - cbn [group_cost foldr Nat.add fmap list_fmap concat app] in *. eexists. split.
    + rewrite attribute_loop_end by done. do 3 f_equal. cbn [length]. rewrite length_app. cbn [length]. lia.
    + done.
  - pose proof Hgs as Hg. cbn [forallb] in Hg. apply andb_true_iff in Hg as [[Hg Hn]%andb_true_iff _].
    cbn [fmap list_fmap concat] in H. unfold encode_group at 1 in H. rewrite <- app_assoc in H.
    cbn [app] in H. change (char_of TAG_PRINTER_ATTRIBUTES :: ?l) with ([char_of TAG_PRINTER_ATTRIBUTES] ++ l) in H.
    apply holds_app in H as [H3 H]. apply holds_app in H as [H4 H5].
    change (length [char_of TAG_PRINTER_ATTRIBUTES]) with 1%nat in *.
    cbn [group_cost foldr]. fold (group_cost gs). cbn [Nat.add].
    rewrite (attribute_loop_delimiter _ _ _ TAG_PRINTER_ATTRIBUTES)
      by (done || unfold TAG_PRINTER_ATTRIBUTES; lia).
    unfold delimiter. cbn [in_printer_group]. rewrite Z.eqb_refl. cbn [check mbind checked_bind].
    rewrite <- Nat.add_assoc.
    match goal with |- context [attribute_loop _ data (length data) ?pos ?s] =>
      destruct (attribute_loop_group data g (group_cost gs + S fuel) pos s Hg H4 eq_refl) as (name' & has' & E')
    end.
    rewrite E'. cbn [with_group result_printers current_printer].
    match goal with |- context [attribute_loop _ data (length data) ?pos (Ipp_state ?rs _ _ ?has ?name)] =>
      destruct (attribute_loop_groups data gs g fuel pos rs has name Hgs H5) as (s & Es & Hin & s' & Hs' & Hr)
    end.
    exists s. rewrite Es, Hin. split; [|by exists s'].
    do 3 f_equal. cbn [fmap list_fmap concat]. rewrite !length_app. unfold encode_group at 2. cbn [length]. lia.
Qed.

Lemma ipp_round_trip (r : ipp_response) :
  response_ok r = true ->
  parse_ipp_printers_response (encode_response r) (length (encode_response r)) =
  Some (Value (printer_of_group <$> printer_groups r)).
Proof.
  intros Hok. pose proof Hok as Hr. unfold response_ok in Hr. rewrite !andb_true_iff in Hr.
  destruct Hr as [[[[[[[Hm1 Hm2] Hs1] Hs2] Hi1] Hi2] _] _].
  set (head := append_uint32 (append_uint16 [char_of 2; char_of (response_minor r)] (response_status r))
                 (response_id r)).
  set (tail := [char_of TAG_OPERATION_ATTRIBUTES] ++ encode_attributes (operation_attributes r) ++
               concat (encode_group <$> printer_groups r) ++ [char_of TAG_END_OF_ATTRIBUTES]).
  assert (encode_response r = head ++ tail) as E by done. rewrite E.
  pose proof (holds_whole (head ++ tail)) as [Hhead Htail]%holds_app.
  change (length head) with 8%nat in Htail.
  assert (holds (head ++ tail) 0 ([char_of 2; char_of (response_minor r)] ++
    append_uint16 [] (response_status r) ++ append_uint32 [] (response_id r))) as Hh by exact Hhead.
  apply holds_app in Hh as [Hv Hst]. apply holds_app in Hst as [Hst Hid]. cbn [length Nat.add] in Hst, Hid.
  assert (length (head ++ tail) = 8 + length tail)%nat as Hlen by (rewrite length_app; done).
  unfold parse_ipp_printers_response. rewrite (proj2 (Nat.ltb_ge _ 8)) by lia.
  pose proof (byte_at_holds _ 0 _ 0 _ Hv eq_refl) as Hb0. pose proof (byte_at_holds _ 0 _ 1 _ Hv eq_refl) as Hb1.
  cbn [Nat.add] in Hb0, Hb1. rewrite Hb0, Hb1.
  cbn [mbind checked_bind mret checked_ret]. rewrite !code_char_of by lia.
  rewrite (proj2 (Z.ltb_ge 2 _)) by lia. cbn [Z.eqb Pos.eqb negb andb orb].
  rewrite (read_uint32_holds _ 0 _ 4 (response_id r)) by (done || zlia).
  cbn [mbind checked_bind mret checked_ret].
  rewrite (proj2 (Z.eqb_neq _ 0)), (proj2 (Z.ltb_ge _ (response_id r))) by zlia. cbn [orb].
  rewrite (read_uint16_holds _ 0 _ 2 (response_status r)) by (done || zlia).
  cbn [mbind checked_bind mret checked_ret]. unfold ipp_status.
  rewrite (proj2 (Z.ltb_ge _ (response_status r))) by lia. cbn [check mbind checked_bind].
  pose proof (encode_raw_length (operation_attributes r ≫= raw_attributes)) as Hop.
  pose proof (group_cost_length (printer_groups r)) as Hgc.
  assert (S (length (head ++ tail)) =
    1 + (raw_count (operation_attributes r) + (group_cost (printer_groups r) +
      S (length (head ++ tail) - 1 - raw_count (operation_attributes r) - group_cost (printer_groups r)))))%nat as Hf.
  { rewrite Hlen. unfold tail, raw_count, encode_attributes. rewrite !length_app. cbn [length]. lia. }
  destruct (response_groups (head ++ tail) r
    (length (head ++ tail) - 1 - raw_count (operation_attributes r) - group_cost (printer_groups r)) Hok Htail)
    as (s & Es & Hs).
  rewrite Hf, Es. cbn [mbind checked_bind mret checked_ret fst snd]. cbv zeta. fold tail.
  rewrite <- Hlen, Nat.eqb_refl. cbn [negb orb].
  destruct (in_printer_group s); [destruct Hs as (s' & -> & ->)|rewrite Hs]; done.
Qed.

(** C13: an answer of a print server is read back: one printer for each group,
    with what its attributes say, the last of a kind deciding and the values
    of sets accumulating, and its type classified unless the flags said it;
    the attributes of the operation and those the library does not read have
    no effect. *)
Theorem parse_ipp_printers_response_text (r : ipp_response) :
  response_ok r = true ->
  parse_ipp_printers_response (encode_response r) (length (encode_response r)) =
  Some (Value (printer_of_group <$> printer_groups r)).
Proof. apply ipp_round_trip. Qed.

Lemma parse_ipp_printers_response_text_witness :
  let answer := Ipp_response 0 0 1 [Ipp_other 0x47 (lit "attributes-charset") (lit "utf-8")]
    [[Ipp_name (lit "Office"); Ipp_uri (lit "ipp://p"); Ipp_state_of 4; Ipp_type 0x0C;
      Ipp_media (lit "A4") [lit "A5"]; Ipp_resolutions (600, 600, 3) []; Ipp_copies_range 1 99];
     [Ipp_jobs 2; Ipp_name (lit "Fax"); Ipp_accepting false]] in
  parse_ipp_printers_response (encode_response answer) (length (encode_response answer)) =
  Some (Value
    [Printer_info (lit "Office") (lit "Office") [] [] [] (lit "ipp://p") type_network state_processing
       None None None None
       (Printer_capabilities (Some true) (Some true) (Some true) None [lit "A4"; lit "A5"]
          [lit "600x600 dpi"] (Some 99));
     Printer_info (lit "Fax") (lit "Fax") [] [] [] [] type_virtual_printer state_unknown
       None None (Some false) (Some 2) no_capabilities]).
Proof.
  intros answer. etransitivity; [apply (parse_ipp_printers_response_text answer)|]; vm_compute; reflexivity.
Defined.
