(* ===== verification/PrinterLinux.v ===== *)
(** * The Linux printer backend

    [include/syscape/detail/printer/linux.hpp]: the exchange with the CUPS
    daemon, the printers found in sysfs, the merge of the two, the snapshot and
    the queries on it. *)
From S2P Require Import Prelude Result CppText Utf8 System Buffer NaturalOrder Printer PrinterHttp.
From S2P Require Import PrinterIpp PrinterIppFormat.

(** The parsers have a result on every input ([parse_http_is_some],
    [parse_ipp_is_some]). *)
Definition decode_http (response : text) : result text := is_Some_proj (parse_http_is_some response).

Definition decode_ipp (data : text) : result (list printer_info) := is_Some_proj (parse_ipp_is_some data).

(** ** The calls the backend makes

    [getenv]; [stat], as [errno] or whether the file is a character device;
    and a socket: what [connect] to a path comes to, the outcomes of the
    [send] calls that follow one another (the value returned and [errno];
    after them everything left is accepted), and those of the [recv] calls
    (after them the peer has closed). *)

Inductive connect_outcome :=
  | Socket_failed (errno : Z)
  | Option_failed (errno : Z)
  | Connect_failed (errno : Z)
  | Connected.

Inductive receive_outcome :=
  | Receive_bytes (chunk : text)
  | Receive_error (errno : Z).

Class PrinterKernel (W : Type) := {
  getenv : text -> W -> option text * W;
  stat_character : text -> W -> (Z + bool) * W;
  connect_unix : text -> W -> connect_outcome * W;
  send_socket : text -> W -> list (Z * Z) * W;
  receive_socket : W -> list receive_outcome * W
}.

Definition ECONNREFUSED : Z := 111.

Section backend.
Context {W : Type} `{Kernel W} `{PrinterKernel W}.
Variable char_is_signed : bool.

(** ** The socket *)

Definition socket_paths : list text :=
  lit <$> ["/var/run/cups/cups.sock"; "/run/cups/cups.sock"; "/var/run/cups.sock"]%string.

(** Whether a path was connected to. *)
Fixpoint connect_loop (paths : list text) : query W bool := fun w =>
  match paths with
  | [] => (Value false, w)
  | path :: paths =>
      match connect_unix path w with
      | (Socket_failed errno, w) => (fail_native errno, w)
      | (Option_failed errno, w) => (fail_native errno, w)
      | (Connected, w) => (Value true, w)
      | (Connect_failed errno, w) =>
          if negb (errno =? ENOENT) && negb (errno =? ECONNREFUSED) then (fail_native errno, w)
          else connect_loop paths w
      end
  end.

Definition http_request (size : nat) : text :=
  lit "POST / HTTP/1.1" ++ [ch_cr; ch_lf] ++ lit "Host: localhost" ++ [ch_cr; ch_lf] ++
  lit "User-Agent: syscape" ++ [ch_cr; ch_lf] ++ lit "Connection: close" ++ [ch_cr; ch_lf] ++
  lit "Content-Type: application/ipp" ++ [ch_cr; ch_lf] ++ lit "Content-Length: " ++
  to_decimal (Z.of_nat size) ++ [ch_cr; ch_lf; ch_cr; ch_lf].

Fixpoint send_loop (outcomes : list (Z * Z)) (left : Z) : result unit :=
  match outcomes with
  | [] => Value tt
  | (n, errno) :: outcomes =>
      if left <=? 0 then Value tt
      else if 0 <? n then send_loop outcomes (left - n)
      else if (n <? 0) && (errno =? EINTR) then send_loop outcomes left
      else if (n <? 0) && (errno =? EAGAIN) then fail errc_temporarily_unavailable
      else fail_native errno
  end.

Definition maximum_response : Z := 16 * 1024 * 1024.

Fixpoint receive_loop (outcomes : list receive_outcome) (recv_buf : text) : result text :=
  match outcomes with
  | [] | Receive_bytes [] :: _ => Value recv_buf
  | Receive_bytes chunk :: outcomes =>
      let recv_buf := recv_buf ++ chunk in
      if maximum_response <? Z.of_nat (length recv_buf) then fail errc_value_too_large
      else receive_loop outcomes recv_buf
  | Receive_error errno :: outcomes =>
      if errno =? EINTR then receive_loop outcomes recv_buf
      else if errno =? EAGAIN then fail errc_temporarily_unavailable
      else fail_native errno
  end.

Definition query_cups_socket (ipp_request : text) : query W text :=
  connected ← connect_loop socket_paths;
  if negb connected then pure (fail errc_not_supported)
  else
    let send_buf := http_request (length ipp_request) ++ ipp_request in
    (fun w => match send_socket send_buf w with
              | (outcomes, w) => (send_loop outcomes (Z.of_nat (length send_buf)), w)
              end);;
    recv_buf ← (fun w => match receive_socket w with
                         | (outcomes, w) => (receive_loop outcomes [], w)
                         end);
    if empty recv_buf then pure (fail errc_malformed_data) else pure (decode_http recv_buf).

(** ** Printers in sysfs *)

Definition usb_printer_name (name : text) : bool :=
  negb (length name <=? 2)%nat && starts_with (lit "lp") name &&
  forallb (fun c => (48 <=? code c) && (code c <=? 57)) (drop 2 name).

(** One of the two texts of the device, absent when the file is. *)
Definition optional_text (content : result text) : result (option text) :=
  match content with
  | Value v => Value (Some v)
  | Failure e => if matches_std_errc e ENOENT then Value None else Failure e
  end.

Definition valid_line (content : option text) : result (option text) :=
  match content with
  | Some v => v ← validate_utf8 (trim_line_end v); mret (Some v)
  | None => mret None
  end.

Definition full_name (vendor product : option text) : text :=
  let name := default [] vendor in
  match product with
  | Some product =>
      (if negb (empty name) && negb (empty product) then name ++ lit " " else name) ++ product
  | None => name
  end.

Definition usb_printer (name : text) : query W printer_info :=
  let p := with_type type_local (with_names name name empty_printer) in
  let device_node := lit "/dev/usb/" ++ name in
  p ← (fun w => match stat_character device_node w with
                | (inr true, w) => (Value (with_uri device_node p), w)
                | (inr false, w) => (Value p, w)
                | (inl errno, w) =>
                    if negb (errno =? ENOENT) && negb (errno =? ENOTDIR) then (fail_native errno, w)
                    else (Value p, w)
                end);
  let dev_path := lit "/sys/class/usbmisc/" ++ name ++ lit "/device" in
  vendor ← attempt (read_text_file (dev_path ++ lit "/../manufacturer") default_maximum_size);
  product ← attempt (read_text_file (dev_path ++ lit "/../product") default_maximum_size);
  vendor ← pure (optional_text vendor);
  product ← pure (optional_text product);
  vendor ← pure (valid_line vendor);
  product ← pure (valid_line product);
  let full := full_name vendor product in
  mret (if empty full then p else with_driver full (with_names (pi_id p) full p)).

Fixpoint usb_loop (names : list text) (found : list printer_info) : query W (list printer_info) :=
  match names with
  | [] => mret found
  | name :: names =>
      if negb (usb_printer_name name) then usb_loop names found
      else p ← usb_printer name; usb_loop names (found ++ [p])
  end.

Definition discover_sysfs_usb_printers : query W (list printer_info) := fun w =>
  match list_directory (lit "/sys/class/usbmisc") w with
  | (inl errno, w) =>
      if (errno =? ENOENT) || (errno =? ENOTDIR) then (Value [], w) else (fail_native errno, w)
  | (inr (names, errno), w) =>
      (found ← usb_loop names []; if negb (errno =? 0) then pure (fail_native errno) else mret found) w
  end.

(** [value == nullptr || *value == 0] *)
Definition unset (value : option text) : bool :=
  match value with Some (_ :: _) => false | _ => true end.

Definition environment_default_printer : query W (option text) := fun w =>
  let '(value, w) := getenv (lit "LPDEST") w in
  let '(value, w) := if unset value then getenv (lit "PRINTER") w else (value, w) in
  match value with
  | Some (c :: v) => (v ← validate_utf8 (c :: v); mret (Some v), w)
  | _ => (Value None, w)
  end.

(** ** The merge *)

Definition is_usb_uri (item : printer_info) : bool := starts_with_ignore_case (uri item) (lit "usb://").

Definition matching_identity (usb item : printer_info) : bool :=
  let usb_identity := normalized_printer_identity (pi_name usb) in
  negb (empty usb_identity) &&
  (same (normalized_printer_identity (pi_id item)) usb_identity ||
   same (normalized_printer_identity (pi_name item)) usb_identity ||
   is_usb_uri item && same (normalized_printer_identity (uri item)) usb_identity).

Definition same_printer (usb item : printer_info) : bool :=
  same (pi_id item) (pi_id usb) ||
  negb (empty (uri usb)) && same (uri item) (uri usb) ||
  (is_usb_uri item || bool_decide (pi_type item = type_local)) &&
  (matching_identity usb item ||
   negb (empty (pi_name usb)) && equals_ignore_case (pi_name item) (pi_name usb) ||
   negb (empty (driver_name usb)) && equals_ignore_case (driver_name item) (driver_name usb)).

Definition merge_usb_printers (l usb_list : list printer_info) : list printer_info :=
  foldl (fun l usb => if existsb (same_printer usb) l then l else l ++ [usb]) l usb_list.

(** ** The snapshot *)

Record printer_snapshot := Printer_snapshot {
  items : list printer_info;
  default_error : option error_code;
  default_known : bool;
  default_name : text
}.

(** What the daemon says about the default, when the environment says nothing. *)
Definition daemon_default (answer : result text) : option error_code * bool * text :=
  match answer with
  | Failure e =>
      (Some (if matches_errc e errc_not_supported then make_error_code errc_temporarily_unavailable
             else e), false, [])
  | Value data =>
      match decode_ipp data with
      | Failure e => if matches_errc e errc_not_found then (None, true, []) else (Some e, false, [])
      | Value [] => (None, true, [])
      | Value (p :: _) => (None, true, pi_name p)
      end
  end.

(** What the configuration file says about it. *)
Definition marked_name (printers : list printer_info) : text :=
  match list_find marked_default printers with Some (_, item) => pi_name item | None => [] end.

Definition authoritative_snapshot (data : text) (environment : option text) : query W printer_snapshot :=
  items ← pure (decode_ipp data);
  match environment with
  | Some name => mret (Printer_snapshot items None true name)
  | None =>
      answer ← attempt (query_cups_socket (build_get_default_request 1));
      let '(error, known, name) := daemon_default answer in
      mret (Printer_snapshot items error known name)
  end.

Definition configured_snapshot (environment : option text) : query W printer_snapshot :=
  conf_text ← attempt (read_text_file (lit "/etc/cups/printers.conf") default_maximum_size);
  match conf_text with
  | Value conf_text =>
      items ← pure (parse_cups_printers_conf conf_text);
      mret (match environment with
            | Some name => Printer_snapshot items None true name
            | None => Printer_snapshot items None true (marked_name items)
            end)
  | Failure e =>
      if matches_std_errc e ENOENT then
        mret (match environment with
              | Some name => Printer_snapshot [] None true name
              | None => Printer_snapshot [] None false []
              end)
      else pure (Failure e)
  end.

(** The steps after the list: devices of sysfs, marks, order. *)
Definition complete_snapshot (snapshot : printer_snapshot) (usb_list : list printer_info)
    : printer_snapshot :=
  let items := merge_usb_printers (items snapshot) usb_list in
  let items := if default_known snapshot then set_default_by_name items (default_name snapshot)
               else items in
  Printer_snapshot (std_sort (fun a b => natural_less char_is_signed (pi_name a) (pi_name b)) items)
    (default_error snapshot) (default_known snapshot) (default_name snapshot).

Definition query_printer_snapshot : query W printer_snapshot :=
  environment_default ← environment_default_printer;
  sock_res ← attempt (query_cups_socket (build_get_printers_request 1));
  snapshot ← match sock_res with
             | Value data => authoritative_snapshot data environment_default
             | Failure e =>
                 if negb (matches_errc e errc_not_supported) then pure (Failure e)
                 else configured_snapshot environment_default
             end;
  usb_list ← discover_sysfs_usb_printers;
  mret (complete_snapshot snapshot usb_list).

(** ** Queries *)

Definition printers : query W (list printer_info) :=
  snapshot ← query_printer_snapshot; mret (items snapshot).

Definition printer_count : query W Z := l ← printers; mret (Z.of_nat (length l)).

Definition default_printer : query W printer_info :=
  snapshot ← query_printer_snapshot;
  pure (resolve_snapshot_default (items snapshot) (default_known snapshot) (default_error snapshot)).

(** The two passes over the list. *)
Definition find_in (l : list printer_info) (name_or_id : text) : result printer_info :=
  match list_find (fun item => same (pi_id item) name_or_id || same (pi_name item) name_or_id) l with
  | Some (_, item) => Value item
  | None =>
      match list_find (fun item => equals_ignore_case (pi_id item) name_or_id ||
                                   equals_ignore_case (pi_name item) name_or_id) l with
      | Some (_, item) => Value item
      | None => fail errc_not_found
      end
  end.

Definition find_printer (name_or_id : text) : query W printer_info :=
  l ← printers; pure (find_in l name_or_id).

End backend.

(** ** The merge *)

Lemma merge_snoc l us u :
  merge_usb_printers l (us ++ [u]) =
  if existsb (same_printer u) (merge_usb_printers l us) then merge_usb_printers l us
  else merge_usb_printers l us ++ [u].
Proof. unfold merge_usb_printers. by rewrite foldl_app. Qed.

(** The merge keeps the printers of the daemon in their order and appends
    some of the devices, in theirs; no appended device is the same printer as
    one before it, and every device that is left out is the same printer as one
    in the list. *)
Lemma merge_added (l usb_list : list printer_info) :
  exists added, merge_usb_printers l usb_list = l ++ added /\ sublist added usb_list /\
    (forall i usb, added !! i = Some usb -> existsb (same_printer usb) (l ++ take i added) = false) /\
    (forall usb, usb ∈ usb_list -> usb ∈ added \/ existsb (same_printer usb) (l ++ added) = true).
Proof.
  induction usb_list as [|u us IH] using rev_ind.
  { exists []. cbn. rewrite app_nil_r. split_and!; [done|constructor|done|]. intros usb H. by inversion H. }
  destruct IH as (added & E & Hsub & Hnew & Hall). rewrite merge_snoc, E.
  destruct (existsb (same_printer u) (l ++ added)) eqn:B.
  - exists added. split_and!; [done|by apply sublist_inserts_r|done|].
    intros usb. rewrite elem_of_app, list_elem_of_singleton. intros [H| ->]; [by apply Hall|by right].
  - exists (added ++ [u]). split_and!.
    + by rewrite <- app_assoc.
    + by apply sublist_app.
    + intros i usb Hi. apply lookup_app_Some in Hi as [Hi|[Hi Hu]].
      * rewrite take_app_le by (apply lookup_lt_Some in Hi; lia). by apply Hnew.
      * apply list_lookup_singleton_Some in Hu as [Hz <-]. rewrite take_app_ge, Hz by done. cbn.
        by rewrite app_nil_r.
    + intros usb. rewrite elem_of_app, list_elem_of_singleton. intros [H| ->]; [|left; set_solver].
      destruct (Hall usb H) as [?|Hs]; [left; set_solver|right].
      rewrite app_assoc, existsb_app, Hs. done.
Qed.

(** ** What the socket delivers *)

(** The bytes received before the peer closes, interruptions left out. *)
Fixpoint received (outcomes : list receive_outcome) : option text :=
  match outcomes with
  | [] | Receive_bytes [] :: _ => Some []
  | Receive_bytes chunk :: outcomes => app chunk <$> received outcomes
  | Receive_error errno :: outcomes => if errno =? EINTR then received outcomes else None
  end.

Lemma receive_loop_received outcomes buf content :
  received outcomes = Some content -> Z.of_nat (length (buf ++ content)) <= maximum_response ->
  receive_loop outcomes buf = Value (buf ++ content).
Proof.
  revert buf content. induction outcomes as [|[[|c chunk]|errno] outcomes IH]; intros buf content H Hl.
  - injection H as <-. cbn. by rewrite app_nil_r.
  - injection H as <-. cbn. by rewrite app_nil_r.
  - cbn [received receive_loop] in *. destruct (received outcomes) as [k|]; [|done]. cbn in H.
    injection H as <-. change (c :: chunk ++ k) with ((c :: chunk) ++ k) in *. rewrite app_assoc in Hl |- *.
    rewrite (proj2 (Z.ltb_ge _ _)) by (rewrite length_app in Hl; lia). by apply IH.
  - cbn [received receive_loop] in *. destruct (errno =? EINTR); [by apply IH|done].
Qed.

(** Calls to [send] that are accepted in part or interrupted. *)
Definition sends (outcomes : list (Z * Z)) : bool :=
  forallb (fun o => (0 <? o.1) || (o.1 <? 0) && (o.2 =? EINTR)) outcomes.

Lemma send_loop_sends outcomes left : sends outcomes = true -> send_loop outcomes left = Value tt.
Proof.
  revert left. induction outcomes as [|[n errno] outcomes IH]; intros left H; [done|].
  unfold sends in H. cbn [forallb fst snd] in H. apply andb_true_iff in H as [Ho H]. cbn [send_loop].
  destruct (left <=? 0); [done|]. destruct (0 <? n); [by apply IH|]. cbn [orb] in Ho. rewrite Ho.
  by apply IH.
Qed.

Lemma is_Some_proj_eq {A} (o : option A) (H : is_Some o) x : o = Some x -> is_Some_proj H = x.
Proof. intros E. subst o. reflexivity. Qed.

(** ** What is sent *)

(** A text of fewer than 256 bytes after its length. *)
Definition sized (v : string) : text := char_of 0 :: char_of (Z.of_nat (String.length v)) :: lit v.

(** A request of the printing protocol, version 2.0 and number 1, for an
    operation of the extension of CUPS. *)
Definition request_bytes (operation : Z) : text :=
  (char_of <$> [2; 0; 0x40; operation; 0; 0; 0; 1; 1]) ++
  char_of 0x47 :: sized "attributes-charset" ++ sized "utf-8" ++
  char_of 0x48 :: sized "attributes-natural-language" ++ sized "en" ++
  concat ((fun attribute => char_of 0x44 :: sized (fst attribute) ++ sized (snd attribute)) <$>
    [("requested-attributes", "printer-name"); ("", "printer-info"); ("", "printer-location");
     ("", "printer-make-and-model"); ("", "device-uri"); ("", "printer-state"); ("", "printer-is-accepting-jobs");
     ("", "printer-is-shared"); ("", "queued-job-count"); ("", "color-supported"); ("", "printer-type");
     ("", "media-supported"); ("", "printer-resolution-supported"); ("", "copies-supported"); ("", "sides-supported")]%string) ++
  [char_of 3].

(** The message it is posted with. *)
Definition posted_bytes (operation : Z) : text :=
  concat ((fun line => lit line ++ [ch_cr; ch_lf]) <$>
    ["POST / HTTP/1.1"; "Host: localhost"; "User-Agent: syscape"; "Connection: close";
     "Content-Type: application/ipp"; "Content-Length: 411"; ""]%string) ++ request_bytes operation.

Definition get_default : Z := 1.
Definition get_printers : Z := 2.

Lemma posted_printers :
  http_request (length (build_get_printers_request 1)) ++ build_get_printers_request 1 = posted_bytes get_printers.
Proof. vm_compute. reflexivity. Qed.

Lemma posted_default :
  http_request (length (build_get_default_request 1)) ++ build_get_default_request 1 = posted_bytes get_default.
Proof. vm_compute. reflexivity. Qed.

Section queries.
Context {W : Type} `{Kernel W} `{PrinterKernel W}.

(** The first path that accepts a connection, after paths that do not exist or
    refuse it. *)
Inductive reached : list text -> W -> W -> Prop :=
| Reached path paths w w1 : connect_unix path w = (Connected, w1) -> reached (path :: paths) w w1
| Passed path paths errno w w1 w2 :
    connect_unix path w = (Connect_failed errno, w1) -> errno = ENOENT \/ errno = ECONNREFUSED ->
    reached paths w1 w2 -> reached (path :: paths) w w2.

(** The daemon answers a request: one of its paths accepts the connection, the
    request is sent, and the calls to [recv] deliver a text. *)
Definition daemon_answers (operation : Z) (w : W) (content : text) (w' : W) : Prop :=
  exists w1 w2 outcomes1 outcomes2,
    reached (lit <$> ["/var/run/cups/cups.sock"; "/run/cups/cups.sock"; "/var/run/cups.sock"]%string) w w1 /\
    send_socket (posted_bytes operation) w1 = (outcomes1, w2) /\ sends outcomes1 = true /\
    receive_socket w2 = (outcomes2, w') /\ received outcomes2 = Some content.

Lemma reached_connects paths w w1 : reached paths w w1 -> connect_loop paths w = (Value true, w1).
Proof.
  induction 1 as [path paths w w1 Hc|path paths errno w w1 w2 Hc He _ IH]; cbn [connect_loop]; rewrite Hc; [done|].
  by destruct He as [-> | ->].
Qed.

Lemma query_cups_socket_answer request operation w content w' :
  http_request (length request) ++ request = posted_bytes operation ->
  daemon_answers operation w content w' -> content <> [] -> Z.of_nat (length content) <= maximum_response ->
  query_cups_socket request w = (decode_http content, w').
Proof.
  intros Hreq (w1 & w2 & o1 & o2 & Hc%reached_connects & Hs & Hok & Hr & Hcontent) Hne Hl. unfold query_cups_socket.
  unfold mbind at 1, query_bind at 1. change socket_paths with
    (lit <$> ["/var/run/cups/cups.sock"; "/run/cups/cups.sock"; "/var/run/cups.sock"]%string). rewrite Hc. cbn [negb].
  unfold mbind at 1, query_bind at 1. rewrite Hreq, Hs, send_loop_sends by done.
  unfold mbind, query_bind. rewrite Hr, (receive_loop_received _ _ content) by done. cbn [app].
  by rewrite (proj2 (empty_false _) Hne).
Qed.

(** An exchange that succeeds: the answer is, after any interim responses, a
    response of a status from 200 to 299 whose body, framed in any way, is a
    well-formed response of the printing protocol. *)
Definition exchanged (operation : Z) (w : W) (r : ipp_response) (w' : W) : Prop :=
  exists (interims : list http_interim) (m : http_final),
    daemon_answers operation w (concat (encode_interim <$> interims) ++ encode_final m) w' /\
    Z.of_nat (length (concat (encode_interim <$> interims) ++ encode_final m)) <= 16777216 /\
    forallb interim_ok interims = true /\ final_ok m = true /\ status m < 300 /\
    body_data (body m) = encode_response r /\ response_ok r = true.

Lemma exchanged_socket operation request w r w' :
  http_request (length request) ++ request = posted_bytes operation -> exchanged operation w r w' ->
  query_cups_socket request w = (Value (encode_response r), w') /\
  decode_ipp (encode_response r) = Value (printer_of_group <$> printer_groups r).
Proof.
  intros Hreq (interims & m & Hanswer & Hlen & Hi & Hm & Hstatus & Hbody & Hr). split.
  - rewrite (query_cups_socket_answer _ _ _ _ _ Hreq Hanswer).
    + f_equal. apply is_Some_proj_eq. rewrite http_round_trip by done. rewrite Hbody.
      unfold final_ok in Hm. rewrite !andb_true_iff in Hm. destruct Hm as [[[[[Hs%Z.leb_le _] _] _] _] _].
      unfold final_status. repeat (rewrite (proj2 (Z.eqb_neq _ _)) by lia). cbn [orb].
      by rewrite (proj2 (Z.ltb_ge _ _)), (proj2 (Z.leb_gt _ _)) by lia.
    + intros E. apply (f_equal length) in E. rewrite length_app in E. unfold encode_final in E.
      rewrite !length_app in E. pose proof (with_crlf_length (status_text (status m) (reason m))). simpl in E. lia.
    + exact Hlen.
  - apply is_Some_proj_eq. by apply ipp_round_trip.
Qed.

(** ** The environment *)

Inductive environment_says (w : W) : option text -> W -> Prop :=
| Lpdest_says v w1 :
    getenv (lit "LPDEST") w = (Some v, w1) -> v <> [] -> is_valid_utf8 v = true -> environment_says w (Some v) w1
| Printer_says unset w1 v w2 :
    getenv (lit "LPDEST") w = (unset, w1) -> default [] unset = [] ->
    getenv (lit "PRINTER") w1 = (Some v, w2) -> v <> [] -> is_valid_utf8 v = true -> environment_says w (Some v) w2
| Nothing_said unset w1 unset' w2 :
    getenv (lit "LPDEST") w = (unset, w1) -> default [] unset = [] ->
    getenv (lit "PRINTER") w1 = (unset', w2) -> default [] unset' = [] -> environment_says w None w2.

Lemma environment_default_said w environment w1 :
  environment_says w environment w1 -> environment_default_printer w = (Value environment, w1).
Proof.
  unfold environment_default_printer. intros [v w2 Hl Hne Hu|o w2 v w3 Hl Ho Hp Hne Hu|o w2 o' w3 Hl Ho Hp Ho'].
  - rewrite Hl. destruct v as [|c v]; [done|]. cbn [unset]. unfold validate_utf8. by rewrite Hu.
  - rewrite Hl. destruct o as [[|c u]|]; [|done|]; cbn [unset]; rewrite Hp; (destruct v as [|d v]; [done|]);
      unfold validate_utf8; by rewrite Hu.
  - rewrite Hl. destruct o as [[|c u]|]; [|done|]; cbn [unset]; rewrite Hp; by destruct o' as [[|d v]|].
Qed.

(** The name of the default printer: that of the environment, and otherwise
    that of the first printer the daemon answers a second request with. *)
Inductive default_said : option text -> W -> text -> W -> Prop :=
| Said_by_environment name w : default_said (Some name) w name w
| Said_by_daemon w r w1 :
    exchanged get_default w r w1 ->
    default_said None w (match printer_groups r with [] => [] | g :: _ => pi_name (printer_of_group g) end) w1.

Lemma authoritative_default r environment w name w1 :
  decode_ipp (encode_response r) = Value (printer_of_group <$> printer_groups r) -> default_said environment w name w1 ->
  authoritative_snapshot (encode_response r) environment w =
  (Value (Printer_snapshot (printer_of_group <$> printer_groups r) None true name), w1).
Proof.
  intros Hipp [name' w2|w2 r' w3 He]; unfold authoritative_snapshot, mbind, query_bind, pure; rewrite Hipp; [done|].
  unfold attempt. destruct (exchanged_socket _ _ _ _ _ posted_default He) as [-> Hd]. unfold daemon_default. rewrite Hd.
  by destruct (printer_groups r').
Qed.

(** ** The devices of sysfs *)

(** What a file of a device says: nothing when it does not exist, and else its
    text in UTF-8, of at most a mebibyte, without the line ends after it. *)
Inductive line_says (path : text) (w : W) : option text -> W -> Prop :=
| Line_missing w1 : open_file path w = (inl ENOENT, w1) -> line_says path w None w1
| Line_here events w1 line ends :
    open_file path w = (inr events, w1) -> delivered events = (line ++ ends, None) ->
    Z.of_nat (length (line ++ ends)) <= 1048576 -> Forall (fun c => c = ch_lf \/ c = ch_cr) ends ->
    (forall c, last line = Some c -> c <> ch_lf /\ c <> ch_cr) -> is_valid_utf8 line = true ->
    line_says path w (Some line) w1.

(** The manufacturer and the product, whichever are there. *)
Definition device_label (vendor product : option text) : text :=
  match default [] vendor, default [] product with
  | [], p => p
  | v, [] => v
  | v, p => v ++ lit " " ++ p
  end.

Definition device_printer (name node label : text) (character : bool) : printer_info :=
  let p := with_type type_local (with_names name name empty_printer) in
  let p := if character then with_uri node p else p in
  if bool_decide (label = []) then p else with_driver label (with_names name label p).

Inductive usb_device (name : text) (w : W) : printer_info -> W -> Prop :=
| Usb_device status character w1 vendor w2 product w3 :
    stat_character (lit "/dev/usb/" ++ name) w = (status, w1) ->
    status = inr character \/ (status = inl ENOENT \/ status = inl ENOTDIR) /\ character = false ->
    line_says (lit "/sys/class/usbmisc/" ++ name ++ lit "/device/../manufacturer") w1 vendor w2 ->
    line_says (lit "/sys/class/usbmisc/" ++ name ++ lit "/device/../product") w2 product w3 ->
    usb_device name w (device_printer name (lit "/dev/usb/" ++ name) (device_label vendor product) character) w3.

(** The entries that are printers: [lp] and digits. *)
Definition printer_entry (name : text) : Prop :=
  exists digits, name = lit "lp" ++ digits /\ digits <> [] /\ Forall (fun c => 48 <= code c <= 57) digits.

Inductive usb_scanned : list text -> W -> list printer_info -> W -> Prop :=
| Scan_end w : usb_scanned [] w [] w
| Scan_other name names w l w1 :
    ~ printer_entry name -> usb_scanned names w l w1 -> usb_scanned (name :: names) w l w1
| Scan_printer name names w p w1 l w2 :
    printer_entry name -> usb_device name w p w1 -> usb_scanned names w1 l w2 -> usb_scanned (name :: names) w (p :: l) w2.

Inductive usb_found (w : W) : list printer_info -> W -> Prop :=
| No_directory errno w1 :
    list_directory (lit "/sys/class/usbmisc") w = (inl errno, w1) -> errno = ENOENT \/ errno = ENOTDIR -> usb_found w [] w1
| Directory names w1 l w2 :
    list_directory (lit "/sys/class/usbmisc") w = (inr (names, 0), w1) -> usb_scanned names w1 l w2 -> usb_found w l w2.

Lemma line_read path w line w1 :
  line_says path w line w1 ->
  exists content, read_text_file path default_maximum_size w = (content, w1) /\
    (v ← optional_text content; valid_line v) = Value line.
Proof.
  unfold read_text_file. intros [w2 Ho|events w2 l ends Ho Hd Hlen He Hl Hu]; rewrite Ho; [by eexists|].
  eexists. split; [reflexivity|]. rewrite read_loop_delivered, Hd by done. unfold read_outcome. cbn [app].
  rewrite (proj2 (Z.ltb_ge _ _)) by exact Hlen. cbn [optional_text mbind result_bind valid_line].
  assert (trim_line_end (l ++ ends) = l) as ->.
  { unfold trim_line_end. rewrite drop_back_app, drop_back_id; [done| |].
    - intros c [Hc1 Hc2]%Hl. by rewrite (proj2 (is_char_false _ _)), (proj2 (is_char_false _ _)) by congruence.
    - eapply Forall_impl; [exact He|]. intros c Hc. cbn. rewrite orb_true_iff, !is_char_true. destruct Hc; auto. }
  unfold validate_utf8. by rewrite Hu.
Qed.

Lemma device_label_full vendor product : full_name vendor product = device_label vendor product.
Proof. destruct vendor as [[|c v]|], product as [[|d q]|]; cbn; rewrite ?app_nil_r; try done; by rewrite <- app_assoc. Qed.

Lemma usb_device_read name w p w1 : usb_device name w p w1 -> usb_printer name w = (Value p, w1).
Proof.
  intros [status character w2 vendor w3 product w4 Hs Hc Hv Hp].
  apply line_read in Hv as (cv & Rv & Hv). apply line_read in Hp as (cp & Rp & Hp).
  unfold usb_printer. set (p0 := with_type _ _). set (node := lit "/dev/usb/" ++ name) in *.
  unfold mbind at 1, query_bind at 1. rewrite Hs.
  set (q := if character then with_uri node p0 else p0).
  assert (match status with
          | inr true => (Value (with_uri node p0), w2)
          | inr false => (Value p0, w2)
          | inl errno => if negb (errno =? ENOENT) && negb (errno =? ENOTDIR) then (fail_native errno, w2) else (Value p0, w2)
          end = (Value q, w2)) as ->.
  { unfold q. destruct Hc as [-> | [[-> | ->] ->]]; [by destruct character|done..]. }
  cbv zeta. unfold mbind, query_bind, attempt. rewrite <- !app_assoc.
  change (lit "/device" ++ lit "/../manufacturer") with (lit "/device/../manufacturer").
  change (lit "/device" ++ lit "/../product") with (lit "/device/../product"). rewrite Rv, Rp. unfold pure.
  apply bind_value in Hv as (ov & -> & ->), Hp as (op & -> & ->). unfold mret, query_ret. rewrite device_label_full.
  unfold device_printer. fold p0. fold q. destruct (device_label vendor product); [done|]. by destruct character.
Qed.

Lemma printer_entry_name name : usb_printer_name name = true <-> printer_entry name.
Proof.
  unfold usb_printer_name, printer_entry. rewrite !andb_true_iff, negb_true_iff, Nat.leb_gt. split.
  - intros [[Hl Hp%starts_with_true] Hd]. destruct Hp as [digits ->]. exists digits. split; [done|]. split.
    + intros ->. cbn in Hl. lia.
    + apply Forall_forall. intros c Hc. cbn [drop app lit] in Hd. rewrite forallb_forall in Hd.
      apply list_elem_of_In in Hc. apply Hd in Hc. lia.
  - intros (digits & -> & Hne & Hd). split; [split|].
    + destruct digits; [done|]. cbn. lia.
    + apply starts_with_app.
    + apply forallb_forall. intros c Hc%list_elem_of_In. rewrite Forall_forall in Hd. specialize (Hd c Hc). lia.
Qed.

Lemma usb_scanned_loop names w l w1 found :
  usb_scanned names w l w1 -> usb_loop names found w = (Value (found ++ l), w1).
Proof.
  intros Hs. revert found. induction Hs as [w|name names w l w1 Hn _ IH|name names w p w1 l w2 Hn Hd _ IH]; intros found; cbn [usb_loop].
  - by rewrite app_nil_r.
  - destruct (usb_printer_name name) eqn:E; [by apply printer_entry_name in E|]. apply IH.
  - apply printer_entry_name in Hn. rewrite Hn. cbn [negb]. unfold mbind, query_bind. rewrite (usb_device_read _ _ _ _ Hd), IH.
    by rewrite <- app_assoc.
Qed.

Lemma usb_found_discovered w l w1 : usb_found w l w1 -> discover_sysfs_usb_printers w = (Value l, w1).
Proof.
  unfold discover_sysfs_usb_printers. intros [errno w2 Hl He|names w2 l' w3 Hl Hs]; rewrite Hl.
  - by destruct He as [-> | ->].
  - unfold mbind, query_bind. by rewrite (usb_scanned_loop _ _ _ _ [] Hs).
Qed.

End queries.

(** ** The same printer *)

(** A device of sysfs is the printer [item]: by its identifier or its node, or,
    for a local printer or one on USB, by its name in a normal form, its name
    or its driver. *)
Definition same_device (usb item : printer_info) : Prop :=
  pi_id item = pi_id usb \/ (uri usb <> [] /\ uri item = uri usb) \/
  ((starts_with_ignore_case (uri item) (lit "usb://") = true \/ pi_type item = type_local) /\
   ((normalized_printer_identity (pi_name usb) <> [] /\
     (normalized_printer_identity (pi_id item) = normalized_printer_identity (pi_name usb) \/
      normalized_printer_identity (pi_name item) = normalized_printer_identity (pi_name usb) \/
      (starts_with_ignore_case (uri item) (lit "usb://") = true /\
       normalized_printer_identity (uri item) = normalized_printer_identity (pi_name usb)))) \/
    (pi_name usb <> [] /\ equals_ignore_case (pi_name item) (pi_name usb) = true) \/
    (driver_name usb <> [] /\ equals_ignore_case (driver_name item) (driver_name usb) = true))).

Lemma nonempty_true t : negb (empty t) = true <-> t <> [].
Proof. by rewrite negb_true_iff, empty_false. Qed.

Lemma same_printer_device usb item : same_printer usb item = true <-> same_device usb item.
Proof.
  unfold same_printer, same_device, matching_identity, is_usb_uri. cbv zeta.
  rewrite !orb_true_iff, !andb_true_iff, !orb_true_iff, !andb_true_iff, !orb_true_iff, !andb_true_iff.
  rewrite !nonempty_true, !same_true, bool_decide_eq_true. tauto.
Qed.

Lemma same_printer_exists usb l : existsb (same_printer usb) l = true <-> Exists (same_device usb) l.
Proof.
  rewrite existsb_exists, Exists_exists. by setoid_rewrite same_printer_device; setoid_rewrite list_elem_of_In.
Qed.

(** ** The order and the default of a snapshot *)

Definition before (char_is_signed : bool) (a b : printer_info) : bool :=
  natural_less char_is_signed (pi_name a) (pi_name b).

Lemma sorted_by_name char_is_signed l :
  StronglySorted (not_after (before char_is_signed)) (std_sort (before char_is_signed) l).
Proof.
  apply (std_sort_key_sorted _ (fun p => key char_is_signed (pi_name p))).
  intros a b. apply natural_less_key.
Qed.

Lemma list_find_first {A} (P : A -> Prop) `{forall x, Decision (P x)} (l : list A) x :
  (exists i, list_find P l = Some (i, x)) <->
  exists l1 l2, l = l1 ++ x :: l2 /\ P x /\ Forall (fun y => ~ P y) l1.
Proof.
  split.
  - intros [i Hi]. apply list_find_Some in Hi as (Hl & HP & Hbefore).
    exists (take i l), (drop (S i) l). split_and!; [by rewrite take_drop_middle|done|].
    apply Forall_lookup. intros j y Hj. apply lookup_take_Some in Hj as [Hj Hlt]. by eapply Hbefore.
  - intros (l1 & l2 & -> & HP & Hf). exists (length l1). apply list_find_Some. split_and!; [|done|].
    + by rewrite lookup_app_r, Nat.sub_diag by lia.
    + intros j y Hj Hlt. rewrite lookup_app_l in Hj by done. eapply Forall_lookup in Hf; [|exact Hj]. done.
Qed.

Lemma marked_default_spec p : marked_default p = true <-> is_default p = Some true.
Proof. unfold marked_default. destruct (is_default p) as [[]|]; split; done. Qed.

Lemma resolve_default_value l known error p :
  resolve_snapshot_default l known error = Value p <->
  exists l1 l2, l = l1 ++ p :: l2 /\ is_default p = Some true /\
                Forall (fun q => is_default q <> Some true) l1.
Proof.
  assert (resolve_snapshot_default l known error = Value p <->
          exists i, list_find marked_default l = Some (i, p)) as ->.
  { unfold resolve_snapshot_default, marked_default_printer. destruct l as [|q l].
    { split; [done|]. by intros [i Hi]. }
    destruct (list_find _ (q :: l)) as [[i x]|] eqn:E.
    - split; [by intros [= <-]; exists i|]. by intros [j [= <- <-]].
    - split; [|by intros [j Hj]]. destruct error; [done|]. by destruct known. }
  rewrite list_find_first. setoid_rewrite Is_true_true. setoid_rewrite marked_default_spec. done.
Qed.

(** Every list of printers the backend returns is in natural order of the
    names; [printer_count] is its length; and [default_printer] answers from
    the same snapshot: it returns the first printer of the list that is marked
    as the default, and fails when none is. *)
Theorem printers_snapshot_spec {W} `{Kernel W} `{PrinterKernel W} (char_is_signed : bool) (w : W)
    (l : list printer_info) (w' : W) :
  printers char_is_signed w = (Value l, w') ->
  StronglySorted (not_after (before char_is_signed)) l /\
  printer_count char_is_signed w = (Value (Z.of_nat (length l)), w') /\
  snd (default_printer char_is_signed w) = w' /\
  (forall p, fst (default_printer char_is_signed w) = Value p <->
     exists l1 l2, l = l1 ++ p :: l2 /\ is_default p = Some true /\
                   Forall (fun q => is_default q <> Some true) l1).
Proof.
  intros Hl. unfold printer_count, default_printer. unfold mbind at 1, query_bind at 1. rewrite Hl.
  unfold printers in Hl. unfold mbind, query_bind in Hl |- *.
  destruct (query_printer_snapshot char_is_signed w) as [[snapshot|e] w1] eqn:E; [|done].
  injection Hl as <- <-. cbn [fst snd pure]. split_and!; [|done|done|intros p; apply resolve_default_value].
  unfold query_printer_snapshot, mbind, query_bind in E.
  repeat case_match; simplify_eq; injection E as <- _; exact (sorted_by_name _ _).
Qed.

(** A system without files, whose daemon gives one answer to every request. *)
Definition answering (environment : option text) (answer : text) : PrinterKernel unit := {|
  getenv name w := (environment, w);
  stat_character path w := (inl ENOENT, w);
  connect_unix path w := (Connected, w);
  send_socket bytes w := ([(100, 0); (-1, EINTR)], w);
  receive_socket w :=
    ([Receive_bytes (take 20 answer); Receive_error EINTR; Receive_bytes (drop 20 answer)], w)
|}.

Definition answer_of (r : ipp_response) : text :=
  encode_final (Http_final 200 (Some (lit "OK")) [] [] (Body_of_length (encode_response r))).

Lemma printers_snapshot_spec_witness :
  let r := Ipp_response 0 0 1 [] [[Ipp_name (lit "Q10")]; [Ipp_name (lit "Q9")]] in
  let l := [with_default (Some true) (with_names (lit "Q9") (lit "Q9") empty_printer);
            with_default (Some false) (with_names (lit "Q10") (lit "Q10") empty_printer)] in
  @printers unit (static_kernel []) (answering (Some (lit "Q9")) (answer_of r)) true tt = (Value l, tt) /\
  StronglySorted (not_after (before true)) l /\
  (forall p, fst (@default_printer unit (static_kernel []) (answering (Some (lit "Q9")) (answer_of r)) true tt)
               = Value p <->
     exists l1 l2, l = l1 ++ p :: l2 /\ is_default p = Some true /\
                   Forall (fun q => is_default q <> Some true) l1).
Proof.
  intros r l.
  assert (@printers unit (static_kernel []) (answering (Some (lit "Q9")) (answer_of r)) true tt = (Value l, tt))
    as Hl by (vm_compute; reflexivity).
  destruct (@printers_snapshot_spec unit (static_kernel []) (answering (Some (lit "Q9")) (answer_of r))
    true tt l tt Hl) as (Hs & _ & _ & Hd).
  split; [exact Hl|]. split; [exact Hs|exact Hd].
Defined.

(** A printer of the list, marked as the default or not. *)
Definition named_default (name : text) (p : printer_info) : printer_info :=
  with_default (Some (bool_decide (pi_id p = name \/ pi_name p = name))) p.

Lemma set_default_named l name : set_default_by_name l name = named_default name <$> l.
Proof.
  unfold set_default_by_name. apply list_fmap_ext. intros _ p _. unfold named_default. do 2 f_equal.
  apply eq_true_iff_eq. by rewrite orb_true_iff, !same_true, bool_decide_eq_true.
Qed.

(** C15: the components together: when the daemon, behind one of its sockets,
    answers the request for the printers with a well-formed response, in
    whatever pieces, interim responses, chunks and headers, and the environment
    names the default or the daemon answers a second request for it in the same
    way, [printers] succeeds and returns, in natural order, the printers of the
    response and those devices of sysfs that are not the same printer as one
    already in the list, each marked by the name of the default. *)
Theorem printers_from_daemon {W} `{Kernel W} `{PrinterKernel W} (char_is_signed : bool)
    (w w1 w2 w3 w4 : W) (environment : option text) (name : text) (r : ipp_response) (usb : list printer_info) :
  environment_says w environment w1 -> exchanged get_printers w1 r w2 -> default_said environment w2 name w3 ->
  usb_found w3 usb w4 ->
  exists l added, printers char_is_signed w = (Value l, w4) /\
    StronglySorted (not_after (before char_is_signed)) l /\
    l ≡ₚ named_default name <$> (printer_of_group <$> printer_groups r) ++ added /\ sublist added usb /\
    (forall i p, added !! i = Some p -> ~ Exists (same_device p) ((printer_of_group <$> printer_groups r) ++ take i added)) /\
    (forall p, p ∈ usb -> p ∈ added \/ Exists (same_device p) ((printer_of_group <$> printer_groups r) ++ added)).
Proof.
  intros Henv He Hdefault Husb. destruct (exchanged_socket _ _ _ _ _ posted_printers He) as [Hsocket Hipp].
  destruct (merge_added (printer_of_group <$> printer_groups r) usb) as (added & Hm & Hsub & Hnew & Hall).
  eexists _, added. split; [|split; [apply sorted_by_name|split; [|split; [done|split]]]].
  - unfold printers, query_printer_snapshot, mbind, query_bind. rewrite (environment_default_said _ _ _ Henv). unfold attempt at 1.
    rewrite Hsocket, (authoritative_default _ _ _ _ _ Hipp Hdefault), (usb_found_discovered _ _ _ Husb). reflexivity.
  - cbn [complete_snapshot items default_known default_name]. by rewrite std_sort_permutation, set_default_named, Hm.
  - intros i p Hi Hs%same_printer_exists. by rewrite (Hnew i p Hi) in Hs.
  - intros p Hp. destruct (Hall p Hp) as [|Hs]; [by left|]. right. by apply same_printer_exists.
Qed.

(** A daemon behind the second of its sockets, which answers each request with
    a response of its own; the state is what was sent last. *)
Definition serving (printers_answer default_answer : text) : PrinterKernel text := {|
  getenv name w := (if bool_decide (name = lit "PRINTER") then Some [] else None, w);
  stat_character path w := (inr true, w);
  connect_unix path w :=
    (if bool_decide (path = lit "/var/run/cups/cups.sock") then Connect_failed ECONNREFUSED else Connected, w);
  send_socket bytes w := ([(100, 0); (-1, EINTR)], bytes);
  receive_socket w :=
    let answer := if bool_decide (w = posted_bytes get_default) then default_answer else printers_answer in
    ([Receive_bytes (take 20 answer); Receive_error EINTR; Receive_bytes (drop 20 answer)], w)
|}.

Definition usb_kernel : Kernel text := {|
  open_file path w :=
    (if bool_decide (path = lit "/sys/class/usbmisc/lp0/device/../product")
     then inr [Read_bytes (lit "Fax" ++ [ch_lf])] else inl ENOENT, w);
  list_directory path w := (if bool_decide (path = lit "/sys/class/usbmisc") then inr (lit <$> ["."; "lp0"]%string, 0) else inl ENOENT, w);
  sysconf name w := ((0, EINVAL), w)
|}.

Definition two_queues : ipp_response := Ipp_response 0 0 1 [] [[Ipp_name (lit "Q10")]; [Ipp_name (lit "Q9")]].

Definition one_queue : ipp_response := Ipp_response 0 0 1 [] [[Ipp_name (lit "Q9")]].

Lemma served w operation r :
  (operation = get_printers /\ r = two_queues \/ operation = get_default /\ r = one_queue) ->
  @exchanged text (serving (answer_of two_queues) (answer_of one_queue)) operation w r (posted_bytes operation).
Proof.
  intros Hr. exists [], (Http_final 200 (Some (lit "OK")) [] [] (Body_of_length (encode_response r))).
  destruct Hr as [[-> ->]|[-> ->]]; (split; [|split_and!; first [reflexivity | vm_compute; discriminate | vm_compute; reflexivity]]).
  all: eexists w, _, [(100, 0); (-1, EINTR)], _; split_and!; [|reflexivity..| |].
  all: try (eapply Passed; [vm_compute; reflexivity|by right|]; apply Reached; vm_compute; reflexivity).
  all: vm_compute; reflexivity.
Qed.

Lemma printers_from_daemon_witness :
  exists l added,
    @printers text usb_kernel (serving (answer_of two_queues) (answer_of one_queue)) true [] = (Value l, posted_bytes get_default) /\
    StronglySorted (not_after (before true)) l /\
    l ≡ₚ named_default (lit "Q9") <$> (printer_of_group <$> printer_groups two_queues) ++ added /\
    sublist added [device_printer (lit "lp0") (lit "/dev/usb/lp0") (lit "Fax") true].
Proof.
  destruct (@printers_from_daemon text usb_kernel (serving (answer_of two_queues) (answer_of one_queue)) true
    [] [] (posted_bytes get_printers) (posted_bytes get_default) (posted_bytes get_default) None (lit "Q9") two_queues
    [device_printer (lit "lp0") (lit "/dev/usb/lp0") (lit "Fax") true]) as (l & added & Hl & Hs & Hp & Hsub & _).
  - by eapply (Nothing_said _ None).
  - apply served. by left.
  - apply (Said_by_daemon _ one_queue), served. by right.
  - eapply Directory; [reflexivity|]. apply Scan_other.
    { intros (digits & E & _). by destruct digits. }
    eapply Scan_printer; [exists (lit "0"); by_compute| |apply Scan_end].
    set (w := posted_bytes get_default).
    apply (Usb_device (lit "lp0") w (inr true) true w None w (Some (lit "Fax")) w); [reflexivity|by left|by apply Line_missing|].
    apply (Line_here _ w [Read_bytes (lit "Fax" ++ [ch_lf])] w (lit "Fax") [ch_lf]); [reflexivity..| | | |reflexivity].
    + vm_compute. discriminate.
    + by_compute.
    + intros c [= <-]. by split.
  - exists l, added. split; [exact Hl|]. split; [exact Hs|]. split; [exact Hp|exact Hsub].
Defined.
