(* ===== verification/Power.v ===== *)
(** * Power supplies

    The enumerations of [include/syscape/power.hpp], the records and checks of
    [include/syscape/detail/power/common.hpp] and the Linux backend
    [include/syscape/detail/power/linux.hpp], which reads the power-supply class
    of sysfs.  A value with a flag that says whether it is there is an
    [option]. *)
From S2P Require Import Prelude Result CppText Utf8 System Float.

(** ** power.hpp *)

Inductive battery_state := state_unknown | charging | discharging | not_charging | full.

Inductive battery_health :=
  | health_unknown | good | dead | overheat | over_voltage | under_voltage | blown_fuse | cell_imbalance
  | unspecified_failure | cold | warm | cool | hot.

Inductive battery_technology :=
  | technology_unknown | lithium_ion | lithium_polymer | nickel_metal_hydride | nickel_cadmium | lead_acid
  | technology_other.

Inductive power_source_type :=
  | source_unknown | mains | usb | usb_pd | wireless | ups | source_other.

#[global] Instance battery_state_eq_dec : EqDecision battery_state.
Proof. solve_decision. Defined.

(** ** common.hpp *)

Inductive external_presence := no_evidence | external_connected | external_disconnected.

Record battery_record := Battery_record {
  identifier : text;
  present : bool;
  condition : battery_state;
  health : battery_health;
  technology : battery_technology;
  manufacturer : text;
  model_name : text;
  serial_number : text;
  charge_percent : option Z;
  cycle_count : option Z;
  health_percent : option Z;
  energy_design_mwh : option Z;
  energy_full_mwh : option Z;
  energy_now_mwh : option Z;
  charge_design_mah : option Z;
  charge_full_mah : option Z;
  charge_now_mah : option Z;
  voltage_millivolts : option Z;
  voltage_min_design_millivolts : option Z;
  power_rate_milliwatts : option Z;
  temperature_celsius : option double
}.

Record power_source_record := Power_source_record {
  source_identifier : text;
  source_type : power_source_type;
  online : option bool;
  source_description : text;
  max_voltage_millivolts : option Z;
  max_power_milliwatts : option Z
}.

Definition validate_battery_record (r : battery_record) : result unit :=
  reject (negb (is_valid_utf8 (identifier r)) || negb (is_valid_utf8 (manufacturer r)) ||
          negb (is_valid_utf8 (model_name r)) || negb (is_valid_utf8 (serial_number r)))
    errc_invalid_encoding;;
  reject (match charge_percent r with Some p => 100 <? p | None => false end) errc_malformed_data.

Definition validate_battery_records (records : result (list battery_record)) : result (list battery_record) :=
  records ← records; for_each validate_battery_record records;; mret records.

Definition validate_power_source_records (records : result (list power_source_record))
    : result (list power_source_record) :=
  records ← records;
  for_each (fun r => reject (negb (is_valid_utf8 (source_identifier r)) ||
                             negb (is_valid_utf8 (source_description r))) errc_invalid_encoding) records;;
  mret records.

(** ** linux.hpp: the parsers *)

Definition power_supply_root : text := lit "/sys/class/power_supply/".

Inductive supply_class := class_battery | class_external_source.

#[global] Instance supply_class_eq_dec : EqDecision supply_class.
Proof. solve_decision. Defined.

Definition power_blank (c : ascii) : bool :=
  is_char c " " || is_char c ch_tab || is_char c ch_cr || is_char c ch_lf.

Definition trim_attribute (input : text) : text := trim power_blank input.

(** The first rendering of a table that the value equals. *)
Fixpoint rendering {A} (table : list (string * A)) (input : text) : option A :=
  match table with
  | [] => None
  | (name, v) :: table => if same input (lit name) then Some v else rendering table input
  end.

Definition documented {A} (table : list (string * A)) (input : text) : result A :=
  match rendering table (trim_attribute input) with
  | Some v => Value v
  | None => fail errc_malformed_data
  end.

Definition parse_status (input : text) : result battery_state :=
  documented [("Charging", charging); ("Discharging", discharging); ("Not charging", not_charging);
              ("Full", full); ("Unknown", state_unknown)]%string input.

Definition health_renderings : list (string * battery_health) :=
  [("Good", good); ("Overheat", overheat); ("Over heat", overheat); ("Dead", dead);
   ("Over voltage", over_voltage); ("Overvoltage", over_voltage); ("Under voltage", under_voltage);
   ("Undervoltage", under_voltage); ("Blown fuse", blown_fuse); ("Cell imbalance", cell_imbalance);
   ("Unspecified failure", unspecified_failure); ("Safety timer expire", unspecified_failure);
   ("Watchdog timer expire", unspecified_failure); ("Calibration required", unspecified_failure);
   ("Over current", unspecified_failure); ("Cold", cold); ("Warm", warm); ("Cool", cool); ("Hot", hot);
   ("Unknown", health_unknown); ("No battery", health_unknown)]%string.

Definition parse_health (input : text) : result battery_health := documented health_renderings input.

Definition technology_renderings : list (string * battery_technology) :=
  [("Li-ion", lithium_ion); ("Li-Ion", lithium_ion); ("Lithium-ion", lithium_ion);
   ("Li-poly", lithium_polymer); ("Li-Poly", lithium_polymer); ("Li-Po", lithium_polymer);
   ("Lithium-polymer", lithium_polymer); ("NiMH", nickel_metal_hydride); ("Ni-MH", nickel_metal_hydride);
   ("NiCd", nickel_cadmium); ("Ni-Cd", nickel_cadmium); ("Lead-acid", lead_acid); ("Pb-acid", lead_acid);
   ("PbAc", lead_acid); ("Unknown", technology_unknown)]%string.

Definition parse_technology (input : text) : result battery_technology :=
  let v := trim_attribute input in
  match rendering technology_renderings v with
  | Some t => Value t
  | None => if negb (empty v) then Value technology_other else fail errc_malformed_data
  end.

Definition parse_power_source_type (input : text) : result power_source_type :=
  let v := trim_attribute input in
  match rendering [("Mains", mains); ("USB", usb); ("Wireless", wireless); ("UPS", ups)]%string v with
  | Some t => Value t
  | None =>
      if same v (lit "Battery") then fail errc_malformed_data
      else if same v (lit "Unknown") then Value source_unknown
      else if negb (empty v) then Value source_other
      else fail errc_malformed_data
  end.

Definition parse_usb_power_type (usb_type_content : text) : power_source_type :=
  let trimmed := trim_attribute usb_type_content in
  let delivery names v := existsb (fun n => same v (lit n)) names in
  let plain :=
    if delivery ["PD"; "PD_DRP"; "PD_PPS"; "USB_PD"; "USB_PD_DRP"; "USB-PD"]%string trimmed
    then usb_pd else usb in
  match find "[" trimmed 0 with
  | None => plain
  | Some open_bracket =>
      match find "]" trimmed open_bracket with
      | None => plain
      | Some close_bracket =>
          if (open_bracket + 1 <? close_bracket)%nat then
            if delivery ["PD"; "PD_DRP"; "PD_PPS"; "USB_PD"; "USB_PD_DRP"]%string
                 (substr (open_bracket + 1) (close_bracket - open_bracket - 1) trimmed)
            then usb_pd else usb
          else plain
      end
  end.

Definition parse_u64 (input : text) : result Z :=
  let v := trim_attribute input in
  if empty v then fail errc_malformed_data
  else
    let parsed := from_chars_unsigned uint64_max 10 v in
    if out_of_range parsed then fail errc_value_too_large
    else if negb (consumed parsed v) then fail errc_malformed_data
    else Value (fc_value parsed).

Definition parse_i64 (input : text) : result Z :=
  let v := trim_attribute input in
  if empty v then fail errc_malformed_data
  else
    let parsed := from_chars_signed int64_min int64_max 10 v in
    if out_of_range parsed then fail errc_value_too_large
    else if negb (consumed parsed v) then fail errc_malformed_data
    else Value (fc_value parsed).

Definition parse_temperature (input : text) : result double :=
  let v := trim_attribute input in
  if empty v then fail errc_malformed_data
  else
    let parsed := from_chars_signed int64_min int64_max 10 v in
    if negb (consumed parsed v) then fail errc_malformed_data
    else Value (double_div (to_double (fc_value parsed)) (to_double 10)).

Definition parse_capacity_percent (input : text) : result Z :=
  let v := trim_attribute input in
  if empty v then fail errc_malformed_data
  else
    let parsed := from_chars_unsigned uint32_max 10 v in
    if negb (consumed parsed v) then fail errc_malformed_data
    else if 100 <? fc_value parsed then fail errc_malformed_data
    else Value (fc_value parsed).

Definition parse_flag (input : text) : result bool :=
  documented [("0", false); ("1", true)]%string input.

Definition parse_online (input : text) : result bool :=
  documented [("0", false); ("1", true); ("2", true)]%string input.

Definition parse_cycle_count (input : text) : result Z := parse_u64 input.

Definition classify_supply_type (input : text) : result supply_class :=
  documented [("Battery", class_battery); ("Mains", class_external_source); ("UPS", class_external_source);
              ("USB", class_external_source); ("Wireless", class_external_source);
              ("Unknown", class_external_source)]%string input.

(** ** linux.hpp: derived values *)

(** Micro to milli, in a type of [w] bits. *)
Definition milli (w : Z) (micro : Z) : Z := wrap w (micro / 1000).

(** The health in percent, from the energies or else the charges. *)
Definition derived_health (energy_full energy_design charge_full charge_design : option Z) : option Z :=
  let ratio amount design := wrap 32 (wrap 64 (amount * 100) / design) in
  match energy_full, energy_design with
  | Some amount, Some design =>
      if 0 <? design then Some (ratio amount design)
      else match charge_full, charge_design with
           | Some amount, Some design => if 0 <? design then Some (ratio amount design) else None
           | _, _ => None
           end
  | _, _ =>
      match charge_full, charge_design with
      | Some amount, Some design => if 0 <? design then Some (ratio amount design) else None
      | _, _ => None
      end
  end.

(** The rate the platform records, with the sign of the condition. *)
Definition recorded_rate (condition : battery_state) (raw_uw : Z) : Z :=
  let mw := Z.quot raw_uw 1000 in
  if bool_decide (condition = discharging) then (if mw <? 0 then mw else - mw)
  else (if mw <? 0 then - mw else mw).

(** The rate derived from a current and a voltage. *)
Definition derived_rate (condition : battery_state) (raw_ua uv_now : Z) : Z :=
  let abs_ua := if raw_ua <? 0 then wrap 64 (- raw_ua) else raw_ua in
  let mw := wrap 64 (abs_ua * uv_now) / 1000000000 in
  if bool_decide (condition = discharging) then - mw else mw.

(** ** linux.hpp: the queries *)

Section power_queries.
Context {W : Type} `{Kernel W}.

(** An attribute of an entry, [None] when the file does not exist. *)
Definition read_optional_attribute (entry attribute : text) : query W (option text) :=
  content ← attempt (read_text_file (power_supply_root ++ entry ++ "/"%char :: attribute) default_maximum_size);
  pure (match content with
        | Value content => Value (Some content)
        | Failure e => if bool_decide (e = native_error ENOENT) then Value None else Failure e
        end).

(** The parsed value of an attribute that exists. *)
Definition attribute {A} (entry : text) (name : string) (parse : text -> result A) : query W (option A) :=
  read ← read_optional_attribute entry (lit name);
  pure (match read with
        | Some content => v ← parse content; mret (Some v)
        | None => Value None
        end).

Definition trimmed_text (content : text) : result text := Value (trim_attribute content).

(** Micro-units in milli-units of 64 bits. *)
Definition milli_u64 (content : text) : result Z := v ← parse_u64 content; mret (milli 64 v).

Definition power_rate (entry : text) (condition : battery_state) (uv_now : Z) : query W (option Z) :=
  rate ← attribute entry "power_now" parse_i64;
  match rate with
  | Some raw_uw => mret (Some (recorded_rate condition raw_uw))
  | None =>
      current ← read_optional_attribute entry (lit "current_now");
      match current with
      | Some content =>
          if 0 <? uv_now then
            raw_ua ← pure (parse_i64 content); mret (Some (derived_rate condition raw_ua uv_now))
          else mret None
      | None => mret None
      end
  end.

(** The attributes of a battery, in the order they are read. *)
Definition battery_attributes (entry : text) : query W battery_record :=
  present ← attribute entry "present" parse_flag;
  condition ← attribute entry "status" parse_status;
  health ← attribute entry "health" parse_health;
  technology ← attribute entry "technology" parse_technology;
  manufacturer ← attribute entry "manufacturer" trimmed_text;
  model ← attribute entry "model_name" trimmed_text;
  serial ← attribute entry "serial_number" trimmed_text;
  percent ← attribute entry "capacity" parse_capacity_percent;
  count ← attribute entry "cycle_count" parse_cycle_count;
  energy_design ← attribute entry "energy_full_design" milli_u64;
  energy_full ← attribute entry "energy_full" milli_u64;
  energy_now ← attribute entry "energy_now" milli_u64;
  charge_design ← attribute entry "charge_full_design" milli_u64;
  charge_full ← attribute entry "charge_full" milli_u64;
  charge_now ← attribute entry "charge_now" milli_u64;
  uv_now ← attribute entry "voltage_now" parse_u64;
  uv_min ← attribute entry "voltage_min_design" parse_u64;
  let condition := default state_unknown condition in
  rate ← power_rate entry condition (default 0 uv_now);
  temperature ← attribute entry "temp" parse_temperature;
  mret (Battery_record entry (default true present) condition (default health_unknown health)
    (default technology_unknown technology) (default [] manufacturer) (default [] model) (default [] serial)
    percent (match count with Some n => if negb (n =? 0) then Some n else None | None => None end)
    (derived_health energy_full energy_design charge_full charge_design)
    energy_design energy_full energy_now charge_design charge_full charge_now
    (milli 32 <$> uv_now) (milli 32 <$> uv_min) rate temperature).

(** [None] when the entry is not a battery. *)
Definition collect_battery (entry : text) : query W (option battery_record) :=
  class ← attribute entry "type" classify_supply_type;
  match class with
  | Some class_battery => record ← battery_attributes entry; mret (Some record)
  | _ => mret None
  end.

(** The type of a source that is not a battery. *)
Definition source_type_of (entry type_str : text) : query W power_source_type :=
  if same type_str (lit "Mains") then mret mains
  else if same type_str (lit "UPS") then mret ups
  else if same type_str (lit "Wireless") then mret wireless
  else if same type_str (lit "USB") then
    usb_type ← read_optional_attribute entry (lit "usb_type");
    mret (match usb_type with Some content => parse_usb_power_type content | None => usb end)
  else if same type_str (lit "Unknown") then mret source_unknown
  else if negb (empty type_str) then mret source_other
  else pure (fail errc_malformed_data).

Definition collect_power_source (entry : text) : query W (option power_source_record) :=
  type_attr ← attribute entry "type" trimmed_text;
  match type_attr with
  | None => mret None
  | Some type_str =>
      if same type_str (lit "Battery") then mret None
      else
        t ← source_type_of entry type_str;
        online ← attribute entry "online" parse_online;
        model ← attribute entry "model_name" trimmed_text;
        uv ← attribute entry "voltage_max" parse_u64;
        mret (Some (Power_source_record entry t online (default [] model) (milli 32 <$> uv) None))
  end.

(** The walk over the entries, collecting what [visit] finds. *)
Fixpoint visit_loop {A} (visit : text -> query W (option A)) (names : list text) : query W (list A) :=
  match names with
  | [] => mret []
  | name :: names =>
      if starts_with (lit ".") name then visit_loop visit names
      else
        found ← visit name;
        rest ← visit_loop visit names;
        mret (match found with Some v => v :: rest | None => rest end)
  end.

Definition walk_supplies {A} (visit : text -> query W (option A)) : query W (list A) := fun w =>
  match list_directory power_supply_root w with
  | (inl errno, w) =>
      ((if bool_decide (native_error errno = native_error ENOENT) then Value [] else fail_native errno), w)
  | (inr (names, errno), w) =>
      (found ← visit_loop visit names;
       if negb (errno =? 0) then pure (fail_native errno) else mret found) w
  end.

Definition batteries : query W (list battery_record) :=
  records ← walk_supplies collect_battery;
  mret (std_sort (fun l r => text_less (identifier l) (identifier r)) records).

Definition power_sources : query W (list power_source_record) :=
  records ← walk_supplies collect_power_source;
  mret (std_sort (fun l r => text_less (source_identifier l) (source_identifier r)) records).

(** What one supply says about external power. *)
Definition supply_evidence (entry : text) : query W (option bool) :=
  class ← attribute entry "type" classify_supply_type;
  match class with
  | None => mret None
  | Some class_external_source => attribute entry "online" parse_online
  | Some class_battery =>
      condition ← attribute entry "status" parse_status;
      mret (if bool_decide (condition = Some discharging) then Some false else None)
  end.

Definition external_power_online : query W external_presence :=
  evidence ← walk_supplies supply_evidence;
  mret (if bool_decide (true ∈ evidence) then external_connected
        else if bool_decide (false ∈ evidence) then external_disconnected
        else no_evidence).

Definition seconds_until_empty : query W Z := pure (fail errc_not_supported).

(** The public query: the backend and its check. *)
Definition checked_batteries : query W (list battery_record) :=
  records ← attempt batteries; pure (validate_battery_records records).

Definition checked_external_power_online : query W bool :=
  presence ← external_power_online;
  pure (match presence with
        | external_connected => Value true
        | external_disconnected => Value false
        | no_evidence => fail errc_not_found
        end).

End power_queries.


(** ** Lemmas on the parsers *)

Lemma parse_u64_bound input v : parse_u64 input = Value v -> 0 <= v <= uint64_max.
Proof.
  unfold parse_u64. destruct (empty _); [done|]. destruct (out_of_range _); [done|].
  destruct (negb _); [done|]. intros [= <-]. apply fc_value_bound; zlia.
Qed.

Lemma parse_i64_bound input v : parse_i64 input = Value v -> int64_min <= v <= int64_max.
Proof.
  unfold parse_i64. destruct (empty _); [done|]. destruct (out_of_range _); [done|].
  destruct (negb _); [done|]. intros [= <-]. apply fc_signed_bound; zlia.
Qed.

Lemma parse_capacity_bound input v : parse_capacity_percent input = Value v -> 0 <= v <= 100.
Proof.
  unfold parse_capacity_percent. destruct (empty _); [done|]. destruct (negb _); [done|].
  split_if; [done|]. intros [= <-].
  pose proof (fc_value_bound uint32_max 10 (trim_attribute input) ltac:(zlia)). zlia.
Qed.

(** ** Derived values *)

Lemma recorded_rate_sign c raw :
  (c = discharging -> recorded_rate c raw <= 0) /\ (c <> discharging -> 0 <= recorded_rate c raw).
Proof.
  unfold recorded_rate. destruct (bool_decide (c = discharging)) eqn:E; bool_to_prop;
    (split; [intros|intros]; try done; split_if; lia).
Qed.

Lemma derived_rate_sign c raw uv :
  (c = discharging -> derived_rate c raw uv <= 0) /\ (c <> discharging -> 0 <= derived_rate c raw uv).
Proof.
  unfold derived_rate. cbv zeta.
  assert (0 <= wrap 64 ((if raw <? 0 then wrap 64 (- raw) else raw) * uv) / 1000000000) as Hp
    by (apply Z.div_pos; [unfold wrap; apply Z.mod_pos_bound|]; lia).
  destruct (bool_decide (c = discharging)) eqn:E; bool_to_prop; split; intros; try done; lia.
Qed.

(** While the product of the magnitudes of the current (in microamperes)
    and the voltage (in microvolts) fits 64 bits, the derived rate is that
    product in milliwatts rounded down, negative exactly for a discharging
    battery; the derived health is the full over the design amount in percent
    rounded down while a hundred times the full amount fits 64 bits and the
    ratio 32. *)
Theorem derived_values_exact (c : battery_state) (raw_ua uv_now amount design : Z) :
  int64_min <= raw_ua <= int64_max -> 0 <= uv_now -> Z.abs raw_ua * uv_now <= uint64_max ->
  0 <= amount -> 0 < design -> amount * 100 <= uint64_max -> amount * 100 / design <= uint32_max ->
  derived_rate c raw_ua uv_now =
    (if bool_decide (c = discharging) then -1 else 1) * (Z.abs raw_ua * uv_now / 10 ^ 9) /\
  derived_health (Some amount) (Some design) None None = Some (amount * 100 / design) /\
  derived_health None None (Some amount) (Some design) = Some (amount * 100 / design).
Proof.
  intros Hr Hv Hp Ha Hd Hm Hq. unfold_bounds. split.
  - unfold derived_rate. cbv zeta.
    assert ((if raw_ua <? 0 then wrap 64 (- raw_ua) else raw_ua) = Z.abs raw_ua) as ->.
    { split_if; [unfold wrap; rewrite Z.mod_small|]; lia. }
    unfold wrap. rewrite Z.mod_small by lia. change (10 ^ 9) with 1000000000. split_if; lia.
  - unfold derived_health. rewrite (proj2 (Z.ltb_lt 0 design)) by done. cbv zeta iota.
    unfold wrap. rewrite (Z.mod_small (amount * 100)) by lia.
    pose proof (Z.div_pos (amount * 100) design ltac:(lia) Hd).
    rewrite Z.mod_small by lia. done.
Qed.

Lemma derived_values_exact_witness :
  derived_rate discharging (-1500000) 12000000 =
    (if bool_decide (discharging = discharging) then -1 else 1) * (Z.abs (-1500000) * 12000000 / 10 ^ 9) /\
  derived_health (Some 45000) (Some 50000) None None = Some (45000 * 100 / 50000) /\
  derived_health None None (Some 45000) (Some 50000) = Some (45000 * 100 / 50000).
Proof. apply (derived_values_exact discharging (-1500000) 12000000 45000 50000); zlia || (vm_compute; done). Defined.

(** ** The queries *)

(** The entries the walk does not skip. *)
Definition visible (names : list text) : list text :=
  filter (fun n => starts_with (lit ".") n = false) names.

(** What the attributes of a battery give, before the encoding check. *)
Definition attributes_ok (r : battery_record) : Prop :=
  (forall p, charge_percent r = Some p -> 0 <= p <= 100) /\
  (forall n, cycle_count r = Some n -> 0 < n <= uint64_max) /\
  (forall v, power_rate_milliwatts r = Some v ->
     (condition r = discharging -> v <= 0) /\ (condition r <> discharging -> 0 <= v)) /\
  health_percent r = derived_health (energy_full_mwh r) (energy_design_mwh r)
                       (charge_full_mah r) (charge_design_mah r).

Definition battery_ok (r : battery_record) : Prop :=
  attributes_ok r /\ is_valid_utf8 (identifier r) = true /\ is_valid_utf8 (manufacturer r) = true /\
  is_valid_utf8 (model_name r) = true /\ is_valid_utf8 (serial_number r) = true.

Lemma validate_battery_record_value r :
  attributes_ok r -> validate_battery_record r = Value () -> battery_ok r.
Proof.
  intros Ha. unfold validate_battery_record. intros Hv. inv_result. split; [done|].
  rewrite !orb_false_iff, !negb_false_iff in *. tauto.
Qed.

Section power_results.
Context {W : Type} `{Kernel W}.

Lemma power_attribute_yields {A} entry name (parse : text -> result A) (P : A -> Prop) :
  (forall c v, parse c = Value v -> P v) ->
  yields (attribute entry name parse) (fun o => forall v, o = Some v -> P v).
Proof.
  intros HP. unfold attribute. apply yields_skip. intros [content|]; apply yields_pure.
  - intros o. destruct (parse content) as [v|e] eqn:E; [|done]. intros [= <-] v' [= <-]. by apply (HP content).
  - by intros o [= <-].
Qed.

Lemma power_rate_yields entry c uv :
  yields (power_rate entry c uv)
    (fun o => forall v, o = Some v -> (c = discharging -> v <= 0) /\ (c <> discharging -> 0 <= v)).
Proof.
  unfold power_rate. apply yields_skip. intros [raw|].
  - apply yields_ret. intros v [= <-]. apply recorded_rate_sign.
  - apply yields_skip. intros [content|]; [|by apply yields_ret]. split_if; [|by apply yields_ret].
    apply yields_skip. intros raw. apply yields_ret. intros v [= <-]. apply derived_rate_sign.
Qed.

Lemma battery_attributes_yields entry : yields (battery_attributes entry) (fun r => identifier r = entry /\ attributes_ok r).
Proof.
  unfold battery_attributes. do 7 (apply yields_skip; intros ?).
  eapply yields_bind; [apply power_attribute_yields, parse_capacity_bound|]. intros percent Hp.
  eapply yields_bind; [apply power_attribute_yields, parse_u64_bound|]. intros count Hc.
  do 8 (apply yields_skip; intros ?). cbv zeta.
  eapply yields_bind; [apply power_rate_yields|]. intros rate Hr.
  apply yields_skip. intros t. apply yields_ret. split; [done|]. unfold attributes_ok. cbn.
  split_and!; [exact Hp| |exact Hr|done].
  intros n. destruct count as [k|]; [|done]. destruct (Z.eqb_spec k 0); [done|]. intros [= <-].
  specialize (Hc k eq_refl). lia.
Qed.

Lemma collect_battery_yields entry :
  yields (collect_battery entry) (fun o => forall r, o = Some r -> identifier r = entry /\ attributes_ok r).
Proof.
  unfold collect_battery. apply yields_skip. intros [[]|]; try by apply yields_ret.
  eapply yields_bind; [apply battery_attributes_yields|]. intros r Hr. apply yields_ret. by intros ? [= <-].
Qed.

(** What the walk collects: one value at most per visible entry, in order. *)
Lemma visit_loop_yields {A} (visit : text -> query W (option A)) (P : text -> A -> Prop) names :
  (forall name, yields (visit name) (fun o => forall v, o = Some v -> P name v)) ->
  yields (visit_loop visit names)
    (fun l => exists k, k `sublist_of` visible names /\ Forall2 P k l).
Proof.
  intros Hv. induction names as [|name names IH]; cbn [visit_loop]; unfold visible.
  - apply yields_ret. exists []. by split; [|constructor].
  - rewrite filter_cons. destruct (starts_with (lit ".") name) eqn:E.
    + rewrite decide_False by done. exact IH.
    + rewrite decide_True by done. eapply yields_bind; [apply Hv|]. intros found Hf.
      eapply yields_bind; [exact IH|]. intros rest (k & Hk & Hr). apply yields_ret.
      destruct found as [v|].
      * exists (name :: k). split; [by apply sublist_skip|]. constructor; [by apply Hf|done].
      * exists k. split; [by apply sublist_cons|done].
Qed.

Lemma walk_supplies_value {A} (visit : text -> query W (option A)) w l w' :
  walk_supplies visit w = (Value l, w') ->
  match list_directory power_supply_root w with
  | (inl errno, _) => errno = ENOENT /\ l = []
  | (inr (names, errno), w1) => errno = 0 /\ visit_loop visit names w1 = (Value l, w')
  end.
Proof.
  unfold walk_supplies. destruct (list_directory _ w) as [[errno|[names errno]] w1].
  - destruct (bool_decide _) eqn:E; [|done]. bool_to_prop. intros [= <- _]. split; [|done].
    by injection E.
  - unfold mbind, query_bind. destruct (visit_loop visit names w1) as [[found|e] w2]; [|done].
    destruct (Z.eqb_spec errno 0) as [->|]; [|done]. cbn. by intros [= -> ->].
Qed.

(** The batteries are listed by identifier, in the order of their bytes;
    they are among the entries of the power-supply directory, no entry more
    than once; and each has texts in UTF-8, a charge of at most a hundred
    percent, a positive cycle count, a power rate that is never positive while
    it discharges and never negative otherwise, and the health its full and
    design amounts give.  A machine without the directory has no batteries. *)
Theorem batteries_listed (w : W) (l : list battery_record) (w' : W) :
  checked_batteries w = (Value l, w') ->
  StronglySorted (not_after (fun a b => text_less (identifier a) (identifier b))) l /\
  Forall battery_ok l /\
  match fst (list_directory power_supply_root w) with
  | inl errno => errno = ENOENT /\ l = []
  | inr (names, errno) => errno = 0 /\ identifier <$> l ⊆+ visible names
  end.
Proof.
  unfold checked_batteries, attempt, batteries. unfold mbind, query_bind.
  destruct (walk_supplies collect_battery w) as [[found|e] w1] eqn:Hw; [|done]. cbn [pure mret query_ret].
  set (sorted := std_sort _ found). intros [= Hv <-].
  unfold validate_battery_records in Hv. inv_result.
  match goal with H : for_each _ _ = _ |- _ => apply for_each_value in H as Hall end.
  injection Hv as <-. apply walk_supplies_value in Hw. split.
  { apply (std_sort_key_sorted _ (fun r => code <$> identifier r)). done. }
  destruct (list_directory power_supply_root w) as [[errno|[names errno]] w2]; cbn [fst].
  - destruct Hw as [-> ->]. by split; [constructor|].
  - destruct Hw as [-> Hw]. eapply visit_loop_yields in Hw as (k & Hk & Hf); [|exact collect_battery_yields].
    assert (identifier <$> found = k) as Hid.
    { clear -Hf. induction Hf as [|n r k l [<- _] _ IH]; csimpl; [done|by rewrite IH]. }
    assert (Forall attributes_ok sorted) as Hok.
    { unfold sorted. rewrite std_sort_permutation. clear -Hf. induction Hf as [|n r k l [_ Hr] _ IH]; by constructor. }
    split; [|split; [done|]].
    + eapply Forall_impl; [apply Forall_and; split; [exact Hok|exact Hall]|].
      intros r [? ?]. by apply validate_battery_record_value.
    + unfold sorted. rewrite std_sort_permutation, Hid. by apply sublist_submseteq.
Qed.

End power_results.

(** ** External power *)

Section stable_files.
Context {W : Type} `{Kernel W} (files : text -> Z + list read_event).
Context (stable : forall path w, open_file path w = (files path, w)).

(** What reading an attribute of a supply gives. *)
Definition supply_file (entry : text) (name : string) : result text :=
  match files (power_supply_root ++ entry ++ "/"%char :: lit name) with
  | inl errno => fail_native errno
  | inr events => read_loop default_maximum_size events []
  end.

(** A supply says that external power is there ([true]) or not ([false]): an
    external source that is online or offline, a battery that discharges. *)
Definition supply_says (b : bool) (entry : text) : Prop :=
  exists type_content class, supply_file entry "type" = Value type_content /\
    classify_supply_type type_content = Value class /\
    match class with
    | class_external_source =>
        exists content, supply_file entry "online" = Value content /\ parse_online content = Value b
    | class_battery =>
        b = false /\
        exists content, supply_file entry "status" = Value content /\ parse_status content = Value discharging
    end.

Lemma attribute_stable {A} entry name (parse : text -> result A) w :
  attribute entry name parse w =
  (match supply_file entry name with
   | Value content => v ← parse content; mret (Some v)
   | Failure e => if bool_decide (e = native_error ENOENT) then Value None else Failure e
   end, w).
Proof.
  assert (read_text_file (power_supply_root ++ entry ++ "/"%char :: lit name) default_maximum_size w
          = (supply_file entry name, w)) as Hr.
  { unfold read_text_file, supply_file. rewrite stable. by destruct (files _). }
  unfold attribute, read_optional_attribute, attempt, mbind, query_bind. rewrite Hr. unfold pure.
  destruct (supply_file entry name) as [content|e]; [done|]. by case_bool_decide.
Qed.

(** An attribute that was read: absent, or parsed. *)
Lemma attribute_stable_value {A} entry name (parse : text -> result A) w o w' :
  attribute entry name parse w = (Value o, w') ->
  w' = w /\ forall v, o = Some v <-> exists content, supply_file entry name = Value content /\ parse content = Value v.
Proof.
  rewrite attribute_stable. destruct (supply_file entry name) as [content|e].
  - destruct (parse content) as [u|e] eqn:E; [|done]. intros [= <- <-]. split; [done|]. intros v. split.
    + intros [= ->]. by exists content.
    + intros (c & [= <-] & Hp). congruence.
  - destruct (bool_decide _); [|done]. intros [= <- <-]. split; [done|]. intros v. split; [done|].
    by intros (c & ? & ?).
Qed.

Lemma supply_evidence_says entry w o w' :
  supply_evidence entry w = (Value o, w') -> w' = w /\ forall b, o = Some b <-> supply_says b entry.
Proof.
  unfold supply_evidence, mbind, query_bind.
  destruct (attribute entry "type" classify_supply_type w) as [[class|e] w1] eqn:Hc; [|done].
  apply attribute_stable_value in Hc as [-> Hc]. destruct class as [[]|].
  - destruct (attribute entry "status" parse_status w) as [[s|e] w2] eqn:Hs; [|done].
    apply attribute_stable_value in Hs as [-> Hs]. intros [= <- <-]. split; [done|]. intros b.
    destruct (proj1 (Hc _) Logic.eq_refl) as (t & Ht & Hcl). split.
    + case_bool_decide as E; [|done]. intros [= <-]. exists t, class_battery. split_and!; [done..|]. by apply Hs.
    + intros (t' & class & Ht' & Hcl' & Hsay). rewrite Ht in Ht'. injection Ht' as <-. rewrite Hcl in Hcl'.
      injection Hcl' as <-. destruct Hsay as [-> Hsay]. apply Hs in Hsay as ->. by rewrite bool_decide_eq_true_2.
  - intros Ho. apply attribute_stable_value in Ho as [-> Ho]. split; [done|]. intros b. rewrite Ho.
    destruct (proj1 (Hc _) Logic.eq_refl) as (t & Ht & Hcl). split.
    + intros Hb. by exists t, class_external_source.
    + intros (t' & class & Ht' & Hcl' & Hsay). rewrite Ht in Ht'. injection Ht' as <-. rewrite Hcl in Hcl'.
      by injection Hcl' as <-.
  - intros [= <- <-]. split; [done|]. intros b. split; [done|]. intros (t & class & Ht & Hcl & _).
    specialize (Hc class). destruct Hc as [_ Hc]. by specialize (Hc (ex_intro _ t (conj Ht Hcl))).
Qed.

Lemma evidence_loop names w l w' :
  visit_loop supply_evidence names w = (Value l, w') ->
  forall b, b ∈ l <-> Exists (supply_says b) (visible names).
Proof.
  revert w l w'. induction names as [|name names IH]; intros w l w'; cbn [visit_loop]; unfold visible.
  - intros [= <- <-] b. rewrite Exists_nil. set_solver.
  - rewrite filter_cons. destruct (starts_with (lit ".") name) eqn:E.
    + rewrite decide_False by done. apply IH.
    + rewrite decide_True by done. unfold mbind, query_bind.
      destruct (supply_evidence name w) as [[found|e] w1] eqn:Hf; [|done].
      destruct (visit_loop supply_evidence names w1) as [[rest|e] w2] eqn:Hl; [|done].
      intros [= <- <-] b. apply supply_evidence_says in Hf as [-> Hf]. specialize (IH _ _ _ Hl b).
      rewrite Exists_cons, <- Hf, <- IH. destruct found as [v|]; [rewrite elem_of_cons|]; naive_solver.
Qed.

(** On a file system that does not change during the call, external power
    is reported as connected exactly when some visible supply is an external
    source that is online, and as disconnected exactly when there is none and
    some external source is offline or some battery discharges. *)
Theorem external_power_online_spec (names : list text) (w : W) (p : external_presence) (w' : W) :
  list_directory power_supply_root w = (inr (names, 0), w) ->
  external_power_online w = (Value p, w') ->
  (p = external_connected <-> Exists (supply_says true) (visible names)) /\
  (p = external_disconnected <->
     ~ Exists (supply_says true) (visible names) /\ Exists (supply_says false) (visible names)).
Proof.
  intros Hd. unfold external_power_online, mbind, query_bind.
  destruct (walk_supplies supply_evidence w) as [[l|e] w1] eqn:Hw; [|done]. intros [= <- <-].
  apply walk_supplies_value in Hw. rewrite Hd in Hw. destruct Hw as [_ Hw].
  pose proof (evidence_loop _ _ _ _ Hw) as He. rewrite <- !He.
  repeat case_bool_decide; naive_solver.
Qed.

End stable_files.

(** ** A machine with one adapter and one battery *)

Definition laptop_files : list (string * string) := [
  ("/sys/class/power_supply/BAT0/type", "Battery"); ("/sys/class/power_supply/BAT0/status", "Discharging");
  ("/sys/class/power_supply/BAT0/capacity", "87"); ("/sys/class/power_supply/BAT0/energy_full", "45000000");
  ("/sys/class/power_supply/BAT0/energy_full_design", "50000000");
  ("/sys/class/power_supply/BAT0/voltage_now", "12000000");
  ("/sys/class/power_supply/BAT0/current_now", "1500000"); ("/sys/class/power_supply/BAT0/cycle_count", "0");
  ("/sys/class/power_supply/AC/type", "Mains"); ("/sys/class/power_supply/AC/online", "0")]%string.

Definition laptop : Kernel unit :=
  listing_kernel laptop_files [("/sys/class/power_supply/", [".."; "BAT0"; "AC"])]%string.

Definition laptop_battery : battery_record :=
  Battery_record (lit "BAT0") true discharging health_unknown technology_unknown [] [] [] (Some 87) None
    (Some 90) (Some 50000) (Some 45000) None None None None (Some 12000) None (Some (-18000)) None.

Lemma batteries_listed_witness :
  @checked_batteries unit laptop tt = (Value [laptop_battery], tt) /\
  StronglySorted (not_after (fun a b => text_less (identifier a) (identifier b))) [laptop_battery] /\
  Forall battery_ok [laptop_battery] /\
  identifier <$> [laptop_battery] ⊆+ visible (lit <$> [".."; "BAT0"; "AC"]%string).
Proof.
  assert (@checked_batteries unit laptop tt = (Value [laptop_battery], tt)) as Hl by (vm_compute; reflexivity).
  split; [exact Hl|]. destruct (@batteries_listed unit laptop tt [laptop_battery] tt Hl) as (Hs & Hok & Hk).
  split; [exact Hs|]. split; [exact Hok|]. exact (proj2 Hk).
Defined.

Lemma external_power_online_spec_witness :
  let files := static_file laptop_files in
  let names := lit <$> [".."; "BAT0"; "AC"]%string in
  @external_power_online unit laptop tt = (Value external_disconnected, tt) /\
  (external_disconnected = external_connected <-> Exists (supply_says files true) (visible names)) /\
  (external_disconnected = external_disconnected <->
     ~ Exists (supply_says files true) (visible names) /\ Exists (supply_says files false) (visible names)).
Proof.
  intros files names.
  assert (@external_power_online unit laptop tt = (Value external_disconnected, tt)) as Hp
    by (vm_compute; reflexivity).
  split; [exact Hp|].
  refine (@external_power_online_spec unit laptop files _ names tt external_disconnected tt _ Hp);
    [reflexivity|vm_compute; reflexivity].
Defined.
