(* ===== verification/Wifi.v ===== *)
(** * Wireless networks: records, addresses, channels and profiles

    The records of [include/syscape/wifi.hpp],
    [include/syscape/detail/wifi/common.hpp], and the text formats of
    [include/syscape/detail/wifi/linux.hpp]: /proc/net/wireless, the profiles
    of NetworkManager and the file names of iwd.  Queries are in [WifiLinux]. *)
From S2P Require Import Prelude Result CppText Utf8 Buffer NaturalOrder Printer.

(** ** wifi.hpp *)

Inductive adapter_power_state := power_unknown | power_on | power_off | power_blocked.

Inductive wifi_standard :=
  | standard_unknown | legacy_802_11 | wifi_4 | wifi_5 | wifi_6 | wifi_6e | wifi_7.

Inductive frequency_band :=
  | band_unknown | band_2_4_ghz | band_5_ghz | band_6_ghz | band_60_ghz.

Inductive security_type :=
  | security_unknown | security_open | wep | wpa_personal | wpa_enterprise | wpa2_personal
  | wpa2_enterprise | wpa3_personal | wpa3_enterprise | wpa3_owe.

Inductive operation_mode := mode_unknown | station | access_point | ad_hoc | mesh.

Inductive connection_state :=
  | connection_unknown | disconnected | connecting | authenticating | connected.

#[global] Instance adapter_power_state_eq_dec : EqDecision adapter_power_state.
Proof. solve_decision. Defined.

#[global] Instance frequency_band_eq_dec : EqDecision frequency_band.
Proof. solve_decision. Defined.

#[global] Instance connection_state_eq_dec : EqDecision connection_state.
Proof. solve_decision. Defined.

Record network_connection := Network_connection {
  ssid : text;
  bssid : text;
  signal_dbm : option Z;
  signal_quality_percent : option Z;
  frequency_mhz : option Z;
  channel : option Z;
  band : frequency_band;
  standard : wifi_standard;
  security : security_type;
  transmit_rate_mbps : option Z;
  receive_rate_mbps : option Z
}.

Record adapter_info := Adapter_info {
  ai_id : text;
  ai_name : text;
  mac_address : option text;
  power_state : adapter_power_state;
  mode : operation_mode;
  state : connection_state;
  connection : option network_connection;
  supported_standards : list wifi_standard;
  supported_bands : list frequency_band
}.

Record configured_network := Configured_network {
  cn_ssid : text;
  adapter_id : option text;
  cn_security : security_type;
  auto_connect : option bool;
  is_hidden : option bool
}.

(** ** common.hpp

    [trim_whitespace], [natural_less] and [parse_int] are the functions of the
    printer domain word for word. *)

Definition trim_whitespace (input : text) : text := trim blank input.

Definition natural_less (char_is_signed : bool) (l r : text) : bool :=
  NaturalOrder.natural_less char_is_signed l r.

Definition parse_int (max base : Z) (input : text) : option Z := Printer.parse_int max base input.

(** [parse_signed_int<IntType>] between [min] and [max]. *)
Definition parse_signed_int (min max : Z) (input : text) : option Z :=
  let input := trim_whitespace input in
  if empty input then None
  else
    let parsed := from_chars_signed min max 10 input in
    if consumed parsed input then Some (fc_value parsed) else None.

Definition hex_digit_char (digit : Z) : ascii := nth (Z.to_nat digit) (lit "0123456789ABCDEF") ch_nul.

(** One byte of an address. *)
Definition mac_byte (byte : Z) : text :=
  [hex_digit_char (Z.land (Z.shiftr byte 4) 0x0F); hex_digit_char (Z.land byte 0x0F)].

Definition format_mac_bytes (bytes : list Z) : text := join ":" (mac_byte <$> bytes).

(** The two digits that start at [at_]. *)
Definition mac_pair (raw : text) (at_ : nat) : option Z :=
  match parse_int uint8_max 16 (substr at_ 1 raw), parse_int uint8_max 16 (substr (at_ + 1) 1 raw) with
  | Some hi, Some lo => Some (wrap 8 (Z.lor (Z.shiftl hi 4) lo))
  | _, _ => None
  end.

(** The six bytes, [stride] characters apart; [sep] stands before all but the
    first when there is one. *)
Fixpoint mac_loop (indices : list nat) (stride : nat) (sep : option ascii) (raw : text)
    : option (list Z) :=
  match indices with
  | [] => Some []
  | i :: indices =>
      if match sep with
         | Some sep => (0 <? i)%nat && negb (bool_decide (raw !! (i * stride - 1)%nat = Some sep))
         | None => false
         end
      then None
      else byte ← mac_pair raw (i * stride); (fun bytes => byte :: bytes) <$> mac_loop indices stride sep raw
  end.

Definition normalize_mac_address (raw : text) : option text :=
  let raw := trim_whitespace raw in
  let third := nth 2 raw ch_nul in
  let bytes :=
    if (length raw =? 17)%nat && (is_char third ":" || is_char third "-")
    then mac_loop (seq 0 6) 3 (Some third) raw
    else if (length raw =? 12)%nat then mac_loop (seq 0 6) 2 None raw
    else None in
  format_mac_bytes <$> bytes.

Definition in_band (low high freq : Z) : bool := (low <=? freq) && (freq <=? high).

Definition frequency_to_band (freq_mhz : Z) : frequency_band :=
  if in_band 2400 2500 freq_mhz then band_2_4_ghz
  else if in_band 4900 5895 freq_mhz then band_5_ghz
  else if in_band 5925 7125 freq_mhz then band_6_ghz
  else if in_band 57000 71000 freq_mhz then band_60_ghz
  else band_unknown.

(** The channel numbered from [base] in steps of five. *)
Definition numbered (base freq_mhz : Z) : option Z :=
  if (freq_mhz - base) mod 5 =? 0 then Some ((freq_mhz - base) / 5) else None.

Definition frequency_to_channel (freq_mhz : Z) : option Z :=
  if in_band 2412 2472 freq_mhz then numbered 2407 freq_mhz
  else if freq_mhz =? 2484 then Some 14
  else if in_band 5000 5895 freq_mhz then numbered 5000 freq_mhz
  else if in_band 5955 7115 freq_mhz then numbered 5950 freq_mhz
  else None.

Definition rssi_to_quality_percent (rssi_dbm : Z) : Z :=
  if rssi_dbm <=? -100 then 0
  else if -50 <=? rssi_dbm then 100
  else wrap 8 (2 * (rssi_dbm + 100)).

Definition is_active (a : adapter_info) : bool :=
  bool_decide (state a = connected) || match connection a with Some _ => true | None => false end.

(** The loop that looks for the only active adapter. *)
Fixpoint select_loop (adapters : list adapter_info) (selected : option adapter_info)
    : result adapter_info :=
  match adapters with
  | [] => match selected with Some a => Value a | None => fail errc_not_supported end
  | a :: adapters =>
      if is_active a then
        match selected with
        | Some _ => fail errc_not_supported
        | None => select_loop adapters (Some a)
        end
      else select_loop adapters selected
  end.

Definition select_default_adapter (adapters : list adapter_info) : result adapter_info :=
  match adapters with
  | [] => fail errc_not_found
  | [a] => Value a
  | _ => select_loop adapters None
  end.

(** ** linux.hpp: /proc/net/wireless *)

Record wireless_proc_entry := Wireless_proc_entry {
  interface_name : text;
  status : Z;
  link_quality : option Z;
  entry_signal : option Z;
  noise_dbm : option Z
}.

Definition collect_token (token : text) (tokens : list text) : step (list text) (list text) :=
  Next (tokens ++ [token]).

Definition split_tokens (rest : text) : list text :=
  match each_token blank (fun _ => true) rest collect_token [] with
  | Next (tokens, _) => tokens
  | Return tokens => tokens
  end.

(** A value whose final dots mark it as updated. *)
Definition without_dots (token : text) : text := drop_back (fun c => is_char c ".") token.

Definition wireless_entry (name : text) (tokens : list text) : wireless_proc_entry :=
  Wireless_proc_entry name
    (match tokens !! 0%nat with Some t => default 0 (parse_int uint16_max 16 t) | None => 0 end)
    (match tokens !! 1%nat with Some t => parse_int uint8_max 10 (without_dots t) | None => None end)
    (match tokens !! 2%nat with Some t => parse_signed_int (-32768) 32767 (without_dots t) | None => None end)
    (match tokens !! 3%nat with Some t => parse_signed_int (-32768) 32767 (without_dots t) | None => None end).

(** A line of the file; the first two are headers. *)
Definition wireless_line (line : text) (s : nat * list wireless_proc_entry)
    : step (nat * list wireless_proc_entry) (list wireless_proc_entry) :=
  let line_index := S (fst s) in
  if (line_index <=? 2)%nat then Next (line_index, snd s)
  else
    let line := trim_whitespace line in
    if empty line then Next (line_index, snd s)
    else
      match find ":" line 0 with
      | None => Next (line_index, snd s)
      | Some colon_pos =>
          let name := trim_whitespace (substr 0 colon_pos line) in
          let rest := trim_whitespace (substr_from (S colon_pos) line) in
          Next (line_index, snd s ++ [wireless_entry name (split_tokens rest)])
      end.

Definition parse_proc_net_wireless_text (content : text) : list wireless_proc_entry :=
  match each_field ch_lf content wireless_line (0%nat, []) with
  | Next (_, entries) => entries
  | Return entries => entries
  end.

(** ** linux.hpp: the profiles of NetworkManager *)

(** The loop over a list of decimal bytes; [None] when the value is not one. *)
Definition byte_token (token : text) (bytes : text) : step text (option text) :=
  let token := trim_whitespace token in
  if empty token then Next bytes
  else
    match parse_int uint8_max 10 token with
    | None => Return None
    | Some byte => Next (bytes ++ [char_of byte])
    end.

Definition decimal_list (input : text) : option text :=
  match each_field ";" input byte_token [] with
  | Next bytes => Some bytes
  | Return outcome => outcome
  end.

Fixpoint unescape (input : text) : result text :=
  match input with
  | [] => Value []
  | c :: input =>
      if negb (is_char c "\") then rest ← unescape input; mret (c :: rest)
      else
        match input with
        | [] => fail errc_malformed_data
        | e :: input =>
            let put d := rest ← unescape input; mret (d :: rest) in
            if is_char e "s" then put " "%char
            else if is_char e "n" then put ch_lf
            else if is_char e "t" then put ch_tab
            else if is_char e "r" then put ch_cr
            else if is_char e "\" then put "\"%char
            else if is_char e ";" then put ";"%char
            else if is_char e "," then put ","%char
            else fail errc_malformed_data
        end
  end.

Definition checked_text (input : text) : result text :=
  if negb (is_valid_utf8 input) then fail errc_invalid_encoding else Value input.

Definition decode_network_manager_string (input : text) : result text :=
  let listed :=
    if bool_decide (last input = Some ";"%char) then decimal_list input else None in
  match listed with
  | Some bytes => checked_text bytes
  | None => decoded ← unescape input; checked_text decoded
  end.

Definition one_of (words : list string) (input : text) : bool := existsb (fun w => same input (lit w)) words.

Definition parse_network_manager_bool (input : text) : result bool :=
  if one_of ["true"; "yes"; "on"; "1"]%string input then Value true
  else if one_of ["false"; "no"; "off"; "0"]%string input then Value false
  else fail errc_malformed_data.

Record profile_state := Profile_state {
  current_ssid : text;
  autoconnect : option bool;
  hidden : option bool;
  current_section : text;
  has_wifi_security : bool;
  has_wep_key : bool;
  key_management : text;
  allows_wpa : bool;
  allows_rsn : bool
}.

Definition empty_profile : profile_state := Profile_state [] None None [] false false [] false false.

Definition with_ssid (v : text) (s : profile_state) : profile_state :=
  Profile_state v (autoconnect s) (hidden s) (current_section s) (has_wifi_security s) (has_wep_key s)
    (key_management s) (allows_wpa s) (allows_rsn s).

Definition with_autoconnect (v : bool) (s : profile_state) : profile_state :=
  Profile_state (current_ssid s) (Some v) (hidden s) (current_section s) (has_wifi_security s)
    (has_wep_key s) (key_management s) (allows_wpa s) (allows_rsn s).

Definition with_hidden (v : bool) (s : profile_state) : profile_state :=
  Profile_state (current_ssid s) (autoconnect s) (Some v) (current_section s) (has_wifi_security s)
    (has_wep_key s) (key_management s) (allows_wpa s) (allows_rsn s).

Definition with_section (v : text) (s : profile_state) : profile_state :=
  Profile_state (current_ssid s) (autoconnect s) (hidden s) v (has_wifi_security s) (has_wep_key s)
    (key_management s) (allows_wpa s) (allows_rsn s).

Definition with_key_management (v : text) (s : profile_state) : profile_state :=
  Profile_state (current_ssid s) (autoconnect s) (hidden s) (current_section s) true (has_wep_key s) v
    (allows_wpa s) (allows_rsn s).

Definition with_wep_key (s : profile_state) : profile_state :=
  Profile_state (current_ssid s) (autoconnect s) (hidden s) (current_section s) (has_wifi_security s)
    true (key_management s) (allows_wpa s) (allows_rsn s).

Definition with_protocols (wpa rsn : bool) (s : profile_state) : profile_state :=
  Profile_state (current_ssid s) (autoconnect s) (hidden s) (current_section s) (has_wifi_security s)
    (has_wep_key s) (key_management s) wpa rsn.

Definition wifi_section (s : profile_state) : bool :=
  one_of ["wifi"; "802-11-wireless"]%string (current_section s).

Definition security_section (s : profile_state) : bool :=
  one_of ["wifi-security"; "802-11-wireless-security"]%string (current_section s).

Definition wep_key_name (key : text) : bool :=
  (length key =? 8)%nat && same (substr 0 7 key) (lit "wep-key") &&
  match key !! 7%nat with Some c => (48 <=? code c) && (code c <=? 51) | None => false end.

(** A [key=value] line of a section. *)
Definition profile_entry (key val : text) (s : profile_state) : result profile_state :=
  if same key (lit "ssid") && wifi_section s then
    decoded_ssid ← decode_network_manager_string val; mret (with_ssid decoded_ssid s)
  else if one_of ["key-mgmt"; "key_mgmt"]%string key && security_section s then
    mret (with_key_management val s)
  else if same key (lit "proto") && security_section s then
    mret (with_protocols (contains (lit "wpa") val) (contains (lit "rsn") val) s)
  else if wep_key_name key && security_section s then mret (with_wep_key s)
  else if same key (lit "autoconnect") && same (current_section s) (lit "connection") then
    v ← parse_network_manager_bool val; mret (with_autoconnect v s)
  else if same key (lit "hidden") && wifi_section s then
    v ← parse_network_manager_bool val; mret (with_hidden v s)
  else mret s.

Definition profile_line (line : text) (s : profile_state)
    : step profile_state (result (option configured_network)) :=
  let line := trim_whitespace line in
  if empty line || starts_with (lit "#") line || starts_with (lit ";") line then Next s
  else if starts_with (lit "[") line && bool_decide (last line = Some "]"%char)
  then Next (with_section (substr 1 (length line - 2) line) s)
  else
    match find "=" line 0 with
    | None => Next s
    | Some eq_pos =>
        s' <-? profile_entry (trim_whitespace (substr 0 eq_pos line))
                 (trim_whitespace (substr_from (S eq_pos) line)) s;
        Next s'
    end.

(** The security the collected keys stand for. *)
Definition profile_security (s : profile_state) : security_type :=
  let management words := one_of words (key_management s) in
  let generation wpa rsn :=
    if negb (Bool.eqb (allows_wpa s) (allows_rsn s)) then (if allows_wpa s then wpa else rsn)
    else security_unknown in
  if negb (has_wifi_security s) then security_open
  else if management ["sae"; "SAE"]%string then wpa3_personal
  else if management ["owe"; "OWE"]%string then wpa3_owe
  else if management ["wpa-eap-suite-b-192"; "WPA-EAP-SUITE-B-192"]%string then wpa3_enterprise
  else if management ["none"; "NONE"]%string then (if has_wep_key s then wep else security_open)
  else if management ["ieee8021x"; "IEEE8021X"]%string then wep
  else if management ["wpa-psk"; "WPA-PSK"]%string then generation wpa_personal wpa2_personal
  else if management ["wpa-eap"; "WPA-EAP"]%string then generation wpa_enterprise wpa2_enterprise
  else security_unknown.

Definition parse_network_manager_profile (content : text) : result (option configured_network) :=
  finish (each_field ch_lf content profile_line empty_profile)
    (fun s =>
       if empty (current_ssid s) then Value None
       else Value (Some (Configured_network (current_ssid s) None (profile_security s) (autoconnect s)
                           (hidden s)))).

(** ** linux.hpp: the profiles of iwd *)

Fixpoint hex_pairs (fuel : nat) (encoded : text) : option text :=
  match fuel with
  | O => Some []
  | S fuel =>
      match encoded with
      | [] => Some []
      | _ =>
          byte ← parse_int uint8_max 16 (substr 0 2 encoded);
          (fun decoded => char_of byte :: decoded) <$> hex_pairs fuel (substr_from 2 encoded)
      end
  end.

Definition decode_iwd_ssid (encoded : text) : result text :=
  match encoded with
  | "="%char :: digits =>
      if empty digits || negb (length digits mod 2 =? 0)%nat then fail errc_malformed_data
      else
        match hex_pairs (length digits) digits with
        | None => fail errc_malformed_data
        | Some decoded => checked_text decoded
        end
  | _ => checked_text encoded
  end.

Definition has_extension (extension name : text) : bool :=
  (length extension <? length name)%nat &&
  same (substr_from (length name - length extension) name) extension.

(** The length of the extension and the security it stands for; zero when the
    file is not a profile. *)
Definition iwd_extension (name : text) : nat * security_type :=
  if has_extension (lit ".psk") name then (4%nat, security_unknown)
  else if has_extension (lit ".open") name then (5%nat, security_open)
  else if has_extension (lit ".8021x") name then (6%nat, security_unknown)
  else (0%nat, security_unknown).

(** ** Strings of NetworkManager

    A specification: a string as a key file holds it, character by character
    plain or escaped, or as a list of decimal bytes. *)

Definition escapes : list (ascii * ascii) :=
  [(" ", "s"); (ch_lf, "n"); (ch_tab, "t"); (ch_cr, "r"); ("\", "\"); (";", ";"); (",", ",")]%char.

(** The letter that stands for a character behind a backslash. *)
Definition escape_letter (c : ascii) : option ascii :=
  snd ∘ snd <$> list_find (fun e => fst e = c) escapes.

Definition escape_char (escaped : bool) (c : ascii) : text :=
  if escaped then match escape_letter c with Some e => ["\"%char; e] | None => [c] end else [c].

Definition escape_text (choices : list (bool * ascii)) : text :=
  concat ((fun x => escape_char x.1 x.2) <$> choices).

(** A backslash is escaped, and so is a semicolon at the end. *)
Definition choices_ok (choices : list (bool * ascii)) : Prop :=
  ((false, "\"%char) ∉ choices) /\ last choices <> Some (false, ";"%char).

Definition byte_list_text (input : text) : text :=
  concat ((fun c => to_decimal (code c) ++ [";"%char]) <$> input).

Lemma unescape_plain c l : c <> "\"%char -> unescape (c :: l) = (rest ← unescape l; mret (c :: rest)).
Proof. intros Hc. cbn [unescape]. by rewrite (proj2 (is_char_false c "\") Hc). Qed.

Lemma unescape_escape_pair c e l :
  escape_letter c = Some e -> unescape ("\"%char :: e :: l) = (rest ← unescape l; mret (c :: rest)).
Proof.
  unfold escape_letter. destruct (list_find _ escapes) as [[i [c' e']]|] eqn:E; [|done].
  cbn. intros [= <-]. apply list_find_Some in E as (Hi & Hc & _). cbn in Hc. subst c'.
  do 7 (destruct i as [|i]; [injection Hi as <- <-; reflexivity|]). done.
Qed.

Lemma unescape_text choices :
  (false, "\"%char) ∉ choices -> unescape (escape_text choices) = Value (snd <$> choices).
Proof.
  induction choices as [|[escaped c] choices IH]; intros Hno; [done|].
  apply not_elem_of_cons in Hno as [Hc Hno]. specialize (IH Hno).
  change (escape_text ((escaped, c) :: choices)) with (escape_char escaped c ++ escape_text choices).
  rewrite fmap_cons. cbn [fst snd]. unfold escape_char. destruct escaped; [destruct (escape_letter c) as [e|] eqn:E|].
  - cbn [app]. rewrite (unescape_escape_pair c e) by done. by rewrite IH.
  - cbn [app]. rewrite unescape_plain; [by rewrite IH|]. intros ->. discriminate E.
  - cbn [app]. rewrite unescape_plain; [by rewrite IH|]. intros ->. by apply Hc.
Qed.

Lemma digits_blank_free l : Forall (fun c => 48 <= code c <= 57) l -> Forall (fun c => blank c = false) l.
Proof. intros H. eapply Forall_impl; [exact H|]. intros c Hc. unfold blank. simpl in Hc. lia. Qed.

Lemma parse_int_decimal max n :
  0 <= n <= max -> parse_int max 10 (to_decimal n) = Some n.
Proof.
  intros Hn. unfold parse_int. rewrite parse_int_numeric by (apply numeric_to_decimal; lia).
  rewrite numeral_to_decimal by lia. by rewrite (proj2 (Z.leb_le _ _)) by lia.
Qed.

Lemma byte_token_decimal c bytes : byte_token (to_decimal (code c)) bytes = Next (bytes ++ [c]).
Proof.
  unfold byte_token. pose proof (code_bound c) as Hc. unfold trim_whitespace.
  rewrite trim_trimmed by (by apply trimmed_Forall, digits_blank_free, to_decimal_Forall; lia).
  rewrite (proj2 (empty_false _)) by (apply to_decimal_ne; lia).
  rewrite parse_int_decimal by (unfold uint8_max; lia). by rewrite char_of_code.
Qed.

Lemma decimal_list_text input : decimal_list (byte_list_text input) = Some input.
Proof.
  unfold decimal_list, byte_list_text. rewrite each_field_fields.
  rewrite <- (app_nil_r (concat _)).
  assert ((fun c => to_decimal (code c) ++ [";"%char]) <$> input =
          (fun f => f ++ [";"%char]) <$> ((fun c => to_decimal (code c)) <$> input)) as ->
    by (by rewrite <- list_fmap_compose).
  rewrite fields_concat, app_nil_r.
  - assert (forall acc, fold_steps byte_token ((fun c => to_decimal (code c)) <$> input) acc = Next (acc ++ input))
      as H; [|by rewrite H].
    induction input as [|c input IH]; intros acc; [by rewrite app_nil_r|].
    rewrite fmap_cons. cbn [fold_steps]. rewrite byte_token_decimal, IH. by rewrite <- app_assoc.
  - apply Forall_fmap, Forall_forall. intros c _. pose proof (code_bound c). simpl.
    apply not_in_digits; [apply to_decimal_Forall; lia|]. vm_compute. intuition congruence.
Qed.

Lemma fields_last_escape p :
  exists fs f, fields ";" (p ++ ["\"; ";"]%char) = fs ++ [f ++ ["\"%char]].
Proof.
  induction p as [|c p (fs & f & IH)]; [by exists [], []|]. cbn [app fields]. rewrite IH.
  destruct (is_char ";" c); [by exists ([] :: fs), f|].
  destruct fs as [|g fs]; cbn [app]; [by exists [], (c :: f)|by exists ((c :: g) :: fs), f].
Qed.

Lemma parse_int_some_numeric max input v :
  parse_int max 10 input = Some v -> numeric 10 (trim blank input) = true.
Proof.
  unfold parse_int, Printer.parse_int, Printer.trim_whitespace. cbn [Z.eqb]. cbv zeta.
  change (10 =? 16) with false. cbv iota. destruct (empty _); [done|].
  destruct (consumed _ _) eqn:E; [|done]. by apply consumed_unsigned in E as [E _].
Qed.

Lemma trim_last_char p l c : p c = false -> exists l', trim p (l ++ [c]) = l' ++ [c].
Proof.
  intros Hc. unfold trim. induction l as [|d l IH]; cbn [app drop_front].
  - rewrite Hc. exists []. rewrite drop_back_id; [done|]. by intros ? [= <-].
  - destruct (p d); [done|]. exists (d :: l). rewrite drop_back_id; [done|].
    intros e. rewrite app_comm_cons, last_snoc. by intros [= <-].
Qed.

Lemma byte_token_escape f bytes : byte_token (f ++ ["\"%char]) bytes = Return None.
Proof.
  unfold byte_token, trim_whitespace.
  destruct (trim_last_char blank f "\" eq_refl) as [l' E]. rewrite E.
  rewrite (proj2 (empty_false _)) by (by destruct l').
  destruct (parse_int uint8_max 10 (l' ++ _)) as [v|] eqn:Ep; [|done].
  apply parse_int_some_numeric in Ep. rewrite <- E, trim_idem, E in Ep.
  apply numeric_Forall in Ep. rewrite Forall_app, Forall_singleton in Ep. destruct Ep as [_ Ep].
  vm_compute in Ep. intuition congruence.
Qed.

Lemma decimal_list_escape p : decimal_list (p ++ ["\"; ";"]%char) = None.
Proof.
  unfold decimal_list. rewrite each_field_fields. destruct (fields_last_escape p) as (fs & f & ->).
  rewrite fold_steps_app.
  pose proof (fold_steps_inv (fun _ => True) (fun r => r = None) byte_token fs [] I) as H.
  destruct (fold_steps byte_token fs []) as [s|r].
  - cbn [fold_steps]. by rewrite byte_token_escape.
  - apply H. intros token bytes _. unfold byte_token. repeat case_match; simplify_eq; done.
Qed.

Lemma escape_text_last choices :
  choices_ok choices -> last (escape_text choices) = Some ";"%char ->
  exists p, escape_text choices = p ++ ["\"; ";"]%char.
Proof.
  intros [_ Hlast] Hl. destruct choices as [|[escaped c] choices _] using rev_ind; [done|].
  rewrite last_snoc in Hlast. unfold escape_text in *. rewrite fmap_app, concat_app in *.
  cbn [fmap list_fmap concat fst snd] in *. rewrite app_nil_r in *.
  set (p := concat _) in *. exists p. f_equal. unfold escape_char in *.
  destruct escaped; [|rewrite last_snoc in Hl; congruence].
  destruct (escape_letter c) as [e|] eqn:E; [|rewrite last_snoc in Hl; injection Hl as ->; discriminate E].
  change ["\"%char; e] with (["\"%char] ++ [e]) in Hl. rewrite app_assoc, last_snoc in Hl. by injection Hl as ->.
Qed.

(** A network name written into a key file is read back whichever way it
    was written, with any choice of escapes or as a list of decimal bytes; the
    only error is [invalid_encoding], for a name that is not UTF-8. *)
Theorem decode_network_manager_string_text (choices : list (bool * ascii)) :
  choices_ok choices ->
  let name := snd <$> choices in
  decode_network_manager_string (escape_text choices) = checked_text name /\
  decode_network_manager_string (byte_list_text name) = checked_text name.
Proof.
  intros Hok name. unfold decode_network_manager_string. split.
  - rewrite unescape_text by apply Hok. case_bool_decide as Hl; [|done].
    apply escape_text_last in Hl as [p Hp]; [|done]. by rewrite Hp, decimal_list_escape.
  - destruct name as [|c l] eqn:E using rev_ind; [done|]. rewrite decimal_list_text.
    rewrite bool_decide_eq_true_2; [done|]. unfold byte_list_text. rewrite fmap_app, concat_app.
    cbn [fmap list_fmap concat]. by rewrite app_nil_r, app_assoc, last_snoc.
Qed.

Lemma decode_network_manager_string_text_witness :
  let choices := [(false, "1"); (true, ";"); (true, " "); (true, "\"); (false, ";"); (true, ";")]%char in
  escape_text choices = lit "1\;\s\\;\;" /\ byte_list_text (snd <$> choices) = lit "49;59;32;92;59;59;" /\
  decode_network_manager_string (escape_text choices) = Value (lit "1; \;;") /\
  decode_network_manager_string (byte_list_text (snd <$> choices)) = Value (lit "1; \;;").
Proof.
  intros choices. split; [reflexivity|]. split; [vm_compute; reflexivity|].
  apply (decode_network_manager_string_text choices). split; [|discriminate].
  unfold choices. rewrite !not_elem_of_cons. split_and!; try discriminate. apply not_elem_of_nil.
Defined.

(** ** Addresses

    A specification: six bytes in hexadecimal digits of either case, with
    colons, with dashes or without separators. *)

Definition hex_digit_text (upper : bool) (d : Z) : ascii :=
  char_of (if d <? 10 then 48 + d else if upper then 55 + d else 87 + d).

Definition address_digits (cases : list bool) (digits : list Z) : text :=
  zip_with hex_digit_text cases digits.

(** The twelve digits of six bytes. *)
Definition nibbles (bytes : list Z) : list Z := concat ((fun b => [b / 16; b mod 16]) <$> bytes).

(** The digits in pairs, [sep] between them. *)
Fixpoint paired (sep : text) (digits : text) : text :=
  match digits with
  | a :: b :: ((_ :: _) as rest) => a :: b :: sep ++ paired sep rest
  | _ => digits
  end.

Definition address_text (sep : option ascii) (cases : list bool) (bytes : list Z) : text :=
  paired (match sep with Some c => [c] | None => [] end) (address_digits cases (nibbles bytes)).

Definition separator_ok (sep : option ascii) : Prop :=
  sep = None \/ sep = Some ":"%char \/ sep = Some "-"%char.

Lemma hex_digit_text_value upper d :
  0 <= d < 16 -> parse_int uint8_max 16 [hex_digit_text upper d] = Some d.
Proof.
  intros Hd.
  assert (forallb (fun d => bool_decide (parse_int uint8_max 16 [hex_digit_text upper d] = Some d)) (seqZ 0 16) = true)
    as H by (destruct upper; vm_compute; reflexivity).
  rewrite forallb_forall in H. specialize (H d ltac:(apply list_elem_of_In, elem_of_seqZ; lia)).
  by apply bool_decide_eq_true_1 in H.
Qed.

Lemma hex_digit_text_blank upper d : 0 <= d < 16 -> blank (hex_digit_text upper d) = false.
Proof.
  intros Hd. assert (forallb (fun d => negb (blank (hex_digit_text upper d))) (seqZ 0 16) = true)
    as H by (destruct upper; vm_compute; reflexivity).
  rewrite forallb_forall in H. apply negb_true_iff, H, list_elem_of_In, elem_of_seqZ. lia.
Qed.

Lemma mac_pair_digits raw i u v b :
  raw !! i = Some (hex_digit_text u (b / 16)) -> raw !! S i = Some (hex_digit_text v (b mod 16)) ->
  is_byte b -> mac_pair raw i = Some b.
Proof.
  unfold is_byte. intros Hi Hj Hb. unfold mac_pair, substr.
  rewrite (drop_S _ _ _ Hi), Nat.add_1_r, (drop_S _ _ _ Hj). cbn [take].
  rewrite !hex_digit_text_value by (Z.to_euclidean_division_equations; lia). f_equal.
  unfold wrap. change (2 ^ 8) with 256. rewrite Z.shiftl_mul_pow2, (lor_add 4) by
    (try apply Z.mod_mul; Z.to_euclidean_division_equations; lia).
  change (2 ^ 4) with 16. rewrite Z.mod_small; Z.to_euclidean_division_equations; lia.
Qed.

Lemma trim_nonblank l : Forall (fun c => blank c = false) l -> trim_whitespace l = l.
Proof. intros H. by apply trim_trimmed, trimmed_Forall. Qed.

(** Any notation of six bytes, in digits of either case, with colons,
    dashes or no separators and with blanks around it, is brought to the one
    form with capital digits and colons. *)
Theorem normalize_mac_address_text (sep : option ascii) (cases : list bool) (bytes : list Z)
    (before after : text) :
  separator_ok sep -> length cases = 12%nat -> length bytes = 6%nat -> Forall is_byte bytes ->
  Forall (fun c => blank c = true) before -> Forall (fun c => blank c = true) after ->
  normalize_mac_address (before ++ address_text sep cases bytes ++ after) = Some (format_mac_bytes bytes).
Proof.
  intros Hsep Hc Hb Hbytes Hbefore Hafter.
  do 6 (destruct bytes as [|? bytes]; [discriminate Hb|]). destruct bytes; [|discriminate Hb].
  do 12 (destruct cases as [|? cases]; [discriminate Hc|]). destruct cases; [|discriminate Hc].
  repeat match goal with H : Forall is_byte (_ :: _) |- _ => apply Forall_cons in H as [? H] end.
  assert (forall u x, is_byte x -> blank (hex_digit_text u (x / 16)) = false /\ blank (hex_digit_text u (x mod 16)) = false)
    as Hblank by (unfold is_byte; intros u x Hx; split; apply hex_digit_text_blank;
                  Z.to_euclidean_division_equations; lia).
  unfold normalize_mac_address, trim_whitespace. rewrite trim_app; [|done| |done].
  - destruct Hsep as [->|[->| ->]]; cbn -[mac_pair hex_digit_text format_mac_bytes];
      repeat (erewrite mac_pair_digits by (reflexivity || assumption); cbn -[mac_pair hex_digit_text format_mac_bytes]);
      reflexivity.
  - apply trimmed_Forall.
    destruct Hsep as [->|[->| ->]]; cbn -[hex_digit_text];
      repeat (constructor; [first [by apply Hblank|reflexivity]|]); constructor.
Qed.

Lemma normalize_mac_address_text_witness :
  let bytes := [0x00; 0x1B; 0x44; 0x11; 0x3A; 0xB7] in
  address_text (Some "-"%char) (repeat false 12) bytes = lit "00-1b-44-11-3a-b7" /\
  normalize_mac_address (lit " " ++ address_text (Some "-"%char) (repeat false 12) bytes ++ [ch_lf]) =
  Some (lit "00:1B:44:11:3A:B7").
Proof.
  intros bytes. split; [vm_compute; reflexivity|].
  etransitivity; [apply normalize_mac_address_text|vm_compute; reflexivity].
  - by right; right.
  - reflexivity.
  - reflexivity.
  - repeat constructor; unfold is_byte; lia.
  - by repeat constructor.
  - by repeat constructor.
Defined.

(** ** Channels *)

(** The bands with their numbering. *)
Definition channel_plan : list (frequency_band * Z * Z * Z) :=
  [(band_2_4_ghz, 2407, 1, 13); (band_5_ghz, 5000, 0, 179); (band_6_ghz, 5950, 1, 233)].

Lemma numbered_spec base f c : numbered base f = Some c <-> f = base + 5 * c.
Proof.
  unfold numbered. destruct (Z.eqb_spec ((f - base) mod 5) 0) as [E|E].
  - split; [intros [= <-]|intros ->; f_equal]; Z.to_euclidean_division_equations; lia.
  - split; [done|]. intros ->. Z.to_euclidean_division_equations; lia.
Qed.

(** Decides the tests of a frequency by arithmetic. *)
Ltac decide_bands :=
  unfold frequency_to_band, frequency_to_channel, in_band in *;
  repeat match goal with
  | |- context [if ?b then _ else _] => first [replace b with true by lia | replace b with false by lia]
  | H : context [if ?b then _ else _] |- _ =>
      first [replace b with true in H by lia | replace b with false in H by lia]
  end.

(** The channel of a frequency follows the numbering of its band: number
    [c] is [c] steps of 5 MHz above the base of the band, 14 is 2484 MHz, and no
    other frequency has a channel; so a channel determines its frequency
    within a band. *)
Theorem frequency_to_channel_plan (f c : Z) :
  frequency_to_channel f = Some c <->
  (f = 2484 /\ c = 14) \/
  (exists b base low high, (b, base, low, high) ∈ channel_plan /\ low <= c <= high /\ f = base + 5 * c /\
     frequency_to_band f = b).
Proof.
  split.
  - intros H. unfold frequency_to_channel in H.
    destruct (in_band 2412 2472 f) eqn:E1; [|destruct (Z.eqb_spec f 2484) as [->|];
      [|destruct (in_band 5000 5895 f) eqn:E2; [|destruct (in_band 5955 7115 f) eqn:E3; [|done]]]];
      [| |apply numbered_spec in H..]; [apply numbered_spec in H| | |].
    + right. exists band_2_4_ghz, 2407, 1, 13. unfold in_band in E1. split; [left|]. split_and!; [lia..|by decide_bands].
    + left. injection H. lia.
    + right. exists band_5_ghz, 5000, 0, 179. unfold in_band in E2. split; [right; left|].
      split_and!; [lia..|by decide_bands].
    + right. exists band_6_ghz, 5950, 1, 233. unfold in_band in E3. split; [right; right; left|].
      split_and!; [lia..|by decide_bands].
  - intros [[-> ->]|(b & base & low & high & Hp & Hc & Hf & _)]; [done|]. unfold channel_plan in Hp.
    repeat (apply elem_of_cons in Hp as [Hp|Hp]; [injection Hp as -> -> -> ->; decide_bands; by apply numbered_spec|]).
    by apply elem_of_nil in Hp.
Qed.
