(* ===== verification/WifiLinux.v ===== *)
(** * The Linux wireless backend

    The queries of [include/syscape/detail/wifi/linux.hpp]: the wireless
    extensions, radio switches, adapters and configured networks. *)
From S2P Require Import Prelude Result CppText Utf8 System Float NaturalOrder Printer Wifi.

(** ** The system calls

    [stat_directory]: whether [stat] succeeds and finds a directory.
    [inet_socket]: the descriptor and the [errno].  The [ioctl]s: what a
    successful call leaves in its request. *)

Record wext_freq := Wext_freq {
  freq_m : Z;
  freq_e : Z
}.

Record wext_essid := Wext_essid {
  essid_flags : Z;
  essid_length : Z;
  essid_buf : text
}.

Class WifiKernel (W : Type) := {
  stat_directory : text -> W -> option bool * W;
  inet_socket : W -> (Z * Z) * W;
  ioctl_ap : Z -> text -> W -> option (list Z) * W;
  ioctl_essid : Z -> text -> W -> option wext_essid * W;
  ioctl_freq : Z -> text -> W -> option wext_freq * W;
  ioctl_rate : Z -> text -> W -> option Z * W;
  ioctl_name : Z -> text -> W -> option text * W;
  ioctl_mode : Z -> text -> W -> option Z * W
}.

(** ** Frequencies and addresses *)

Definition is_associated_bssid (bytes : list Z) : bool :=
  let six := take 6 bytes in
  negb (forallb (fun b => b =? 0x00) six) && negb (forallb (fun b => b =? 0xFF) six).

Fixpoint times_ten (n : nat) (frequency_hz : extended) : extended :=
  match n with O => frequency_hz | S n => times_ten n (extended_mul frequency_hz (to_extended 10)) end.

Fixpoint tenth (n : nat) (frequency_hz : extended) : extended :=
  match n with O => frequency_hz | S n => tenth n (extended_div frequency_hz (to_extended 10)) end.

Definition megahertz (frequency : wext_freq) : extended :=
  let frequency_hz := to_extended (freq_m frequency) in
  let frequency_hz :=
    if 0 <? freq_e frequency then times_ten (Z.to_nat (freq_e frequency)) frequency_hz
    else tenth (Z.to_nat (- freq_e frequency)) frequency_hz in
  extended_div frequency_hz (to_extended 1000000).

Definition with_channel (v : option Z) (c : network_connection) : network_connection :=
  Network_connection (ssid c) (bssid c) (signal_dbm c) (signal_quality_percent c) (frequency_mhz c) v
    (band c) (standard c) (security c) (transmit_rate_mbps c) (receive_rate_mbps c).

Definition with_frequency (v : Z) (b : frequency_band) (c : network_connection) : network_connection :=
  Network_connection (ssid c) (bssid c) (signal_dbm c) (signal_quality_percent c) (Some v) (channel c)
    b (standard c) (security c) (transmit_rate_mbps c) (receive_rate_mbps c).

Definition with_rate (v : Z) (c : network_connection) : network_connection :=
  Network_connection (ssid c) (bssid c) (signal_dbm c) (signal_quality_percent c) (frequency_mhz c)
    (channel c) (band c) (standard c) (security c) (Some v) (receive_rate_mbps c).

Definition with_standard (v : wifi_standard) (c : network_connection) : network_connection :=
  Network_connection (ssid c) (bssid c) (signal_dbm c) (signal_quality_percent c) (frequency_mhz c)
    (channel c) (band c) v (security c) (transmit_rate_mbps c) (receive_rate_mbps c).

Definition with_signal (v : Z) (c : network_connection) : network_connection :=
  Network_connection (ssid c) (bssid c) (Some v) (Some (rssi_to_quality_percent v)) (frequency_mhz c)
    (channel c) (band c) (standard c) (security c) (transmit_rate_mbps c) (receive_rate_mbps c).

Definition apply_wext_frequency (frequency : wext_freq) (connection : network_connection)
    : network_connection :=
  if (freq_e frequency =? 0) && (0 <? freq_m frequency) && (freq_m frequency <=? 233)
  then with_channel (Some (freq_m frequency)) connection
  else
    let value := megahertz frequency in
    if extended_lt value (to_extended 1) || extended_lt (to_extended uint32_max) value then connection
    else
      let mhz := truncate value in
      let b := frequency_to_band mhz in
      if bool_decide (b = band_unknown) then connection
      else with_channel (frequency_to_channel mhz) (with_frequency mhz b connection).

(** ** Names in the request *)

(** The bytes before the first NUL. *)
Definition c_string (bytes : text) : text :=
  match find ch_nul bytes 0 with Some i => substr 0 i bytes | None => bytes end.

Definition ssid_of (r : wext_essid) : result text :=
  let buf := take 32 (essid_buf r) ++ [ch_nul] in
  let raw_ssid := substr 0 (Nat.min (Z.to_nat (essid_length r)) 32) buf in
  checked_text (drop_back (fun c => is_char c ch_nul) raw_ssid).

Definition standard_of (name : text) (b : frequency_band) : option wifi_standard :=
  let proto_name := c_string (take 15 name) in
  let names x := contains (lit x) proto_name in
  if names "802.11be"%string || names "WiFi 7"%string then Some wifi_7
  else if names "802.11ax"%string || names "WiFi 6"%string then
    Some (if bool_decide (b = band_6_ghz) then wifi_6e else wifi_6)
  else if names "802.11ac"%string || names "WiFi 5"%string then Some wifi_5
  else if names "802.11n"%string || names "WiFi 4"%string then Some wifi_4
  else if names "802.11"%string then Some legacy_802_11
  else None.

Definition operation_of (m : Z) : operation_mode :=
  match m with
  | 2 => station
  | 3 => access_point
  | 1 => ad_hoc
  | 7 => mesh
  | _ => mode_unknown
  end.

Definition usable_name (sock : Z) (ifname : text) : bool :=
  negb ((sock <? 0) || empty ifname || (16 <=? length ifname)%nat).

(** The signal of the interface in /proc/net/wireless: that of its first line. *)
Definition enrich (ifname : text) (entries : list wireless_proc_entry) (c : network_connection)
    : network_connection :=
  match list_find (fun e => same (interface_name e) ifname) entries with
  | Some (_, e) =>
      match entry_signal e with
      | Some signal => if (-127 <=? signal) && (signal <=? 0) then with_signal signal c else c
      | None => c
      end
  | None => c
  end.

(** ** Queries *)

Section wifi_queries.
Context {W : Type} `{Kernel W} `{WifiKernel W} (char_is_signed : bool).

(** A call that cannot fail the query. *)
Definition ask {A} (call : W -> A * W) : query W A := fun w =>
  match call w with (v, w) => (Value v, w) end.

Definition read_sysfs_string (path : text) : query W (option text) :=
  content ← attempt (read_text_file path 4096);
  pure (match content with
        | Failure e =>
            if matches_std_errc e ENOENT || matches_std_errc e ENOTDIR then Value None else Failure e
        | Value content =>
            let trimmed := trim_whitespace (trim_line_end content) in
            if empty trimmed then Value None
            else if negb (is_valid_utf8 trimmed) then fail errc_invalid_encoding
            else Value (Some trimmed)
        end).

Definition is_wireless_interface (ifname : text) : query W bool :=
  let net_dir := lit "/sys/class/net/" ++ ifname in
  wireless ← ask (stat_directory (net_dir ++ lit "/wireless"));
  match wireless with
  | Some true => mret true
  | _ => phy ← ask (stat_directory (net_dir ++ lit "/phy80211")); mret (bool_decide (is_Some phy))
  end.

Definition switched_on (value : option text) : bool :=
  match value with Some v => same v (lit "1") | None => false end.

(** The loop over the entries: [true] when a switch blocks the radio. *)
Fixpoint rfkill_loop (directory_path : text) (names : list text) : query W bool :=
  match names with
  | [] => mret false
  | name :: names =>
      if (length name <? 6)%nat || negb (same (substr 0 6 name) (lit "rfkill"))
      then rfkill_loop directory_path names
      else
        let path := directory_path ++ "/"%char :: name in
        hard ← attempt (read_sysfs_string (path ++ lit "/hard"));
        soft ← attempt (read_sysfs_string (path ++ lit "/soft"));
        hard ← pure hard;
        soft ← pure soft;
        if switched_on hard || switched_on soft then mret true else rfkill_loop directory_path names
  end.

Definition read_rfkill_directory (directory_path : text) : query W adapter_power_state := fun w =>
  match list_directory directory_path w with
  | (inl errno, w) =>
      ((if (errno =? ENOENT) || (errno =? ENOTDIR) then Value power_unknown else fail_native errno), w)
  | (inr (names, errno), w) =>
      (blocked ← rfkill_loop directory_path names;
       if (blocked : bool) then mret power_blocked
       else if negb (errno =? 0) then pure (fail_native errno)
       else mret power_unknown) w
  end.

Definition query_rfkill_state (ifname net_root : text) : query W adapter_power_state :=
  let net_dir := net_root ++ "/"%char :: ifname in
  direct ← read_rfkill_directory net_dir;
  if negb (bool_decide (direct = power_unknown)) then mret direct
  else read_rfkill_directory (net_dir ++ lit "/phy80211").

Definition read_proc_net_wireless : query W (list wireless_proc_entry) :=
  content ← attempt (read_text_file (lit "/proc/net/wireless") 4096);
  mret (match content with Value content => parse_proc_net_wireless_text content | Failure _ => [] end).

(** The name of the network, once the interface is associated. *)
Definition query_ssid (sock : Z) (ifname : text) : query W text :=
  essid ← ask (ioctl_essid sock ifname);
  pure (match essid with
        | Some r => if essid_flags r =? 0 then Value [] else ssid_of r
        | None => Value []
        end).

Definition query_wext_connection (sock : Z) (ifname : text) : query W (option network_connection) :=
  if negb (usable_name sock ifname) then pure (fail errc_invalid_argument)
  else
    ap ← ask (ioctl_ap sock ifname);
    match ap with
    | None => mret None
    | Some raw_bssid =>
        if negb (is_associated_bssid raw_bssid) then mret None
        else
          ssid ← query_ssid sock ifname;
          let conn := Network_connection ssid (format_mac_bytes (take 6 raw_bssid)) None None None None
                        band_unknown standard_unknown security_unknown None None in
          freq ← ask (ioctl_freq sock ifname);
          let conn := match freq with Some f => apply_wext_frequency f conn | None => conn end in
          rate ← ask (ioctl_rate sock ifname);
          let conn :=
            match rate with
            | Some r => if 0 <? r then with_rate (r / 1000000) conn else conn
            | None => conn
            end in
          name ← ask (ioctl_name sock ifname);
          let conn :=
            match name with
            | Some n => match standard_of n (band conn) with Some s => with_standard s conn | None => conn end
            | None => conn
            end in
          mret (Some conn)
    end.

Definition query_wext_mode (sock : Z) (ifname : text) : query W operation_mode :=
  if negb (usable_name sock ifname) then mret mode_unknown
  else
    m ← ask (ioctl_mode sock ifname);
    mret (match m with Some m => operation_of m | None => mode_unknown end).

(** ** Adapters *)

Fixpoint interface_loop (names : list text) : query W (list text) :=
  match names with
  | [] => mret []
  | name :: names =>
      if same name (lit ".") || same name (lit "..") then interface_loop names
      else
        wireless ← is_wireless_interface name;
        rest ← interface_loop names;
        mret (if (wireless : bool) then name :: rest else rest)
  end.

Definition interface_names : query W (list text) := fun w =>
  match list_directory (lit "/sys/class/net") w with
  | (inl errno, w) => (fail_native errno, w)
  | (inr (names, errno), w) =>
      (ifnames ← interface_loop names;
       if negb (errno =? 0) then pure (fail_native errno)
       else mret (std_sort (natural_less char_is_signed) ifnames)) w
  end.

Definition adapter_mac (mac_str : option text) : result (option text) :=
  match mac_str with
  | None => Value None
  | Some v =>
      match normalize_mac_address v with
      | None => fail errc_malformed_data
      | Some mac => Value (Some mac)
      end
  end.

Definition operational_state (oper_str : option text) : connection_state :=
  match oper_str with
  | Some v =>
      if same v (lit "down") then disconnected
      else if same v (lit "dormant") || same v (lit "testing") then connecting
      else connection_unknown
  | None => connection_unknown
  end.

(** One adapter; [sock] is negative when no socket could be opened. *)
Definition query_adapter (sock : Z) (proc_wireless : list wireless_proc_entry) (ifname : text)
    : query W adapter_info :=
  let net_dir := lit "/sys/class/net/" ++ ifname in
  mac_str ← read_sysfs_string (net_dir ++ lit "/address");
  mac ← pure (adapter_mac mac_str);
  oper_str ← read_sysfs_string (net_dir ++ lit "/operstate");
  power ← query_rfkill_state ifname (lit "/sys/class/net");
  m ← (if 0 <=? sock then query_wext_mode sock ifname else mret mode_unknown);
  conn ← (if 0 <=? sock then query_wext_connection sock ifname else mret None);
  mret (match conn with
        | Some c =>
            Adapter_info ifname ifname mac
              (if bool_decide (power = power_unknown) then power_on else power) m connected
              (Some (enrich ifname proc_wireless c)) [] []
        | None => Adapter_info ifname ifname mac power m (operational_state oper_str) None [] []
        end).

Fixpoint adapter_loop (sock : Z) (proc_wireless : list wireless_proc_entry) (ifnames : list text)
    : query W (list adapter_info) :=
  match ifnames with
  | [] => mret []
  | ifname :: ifnames =>
      info ← query_adapter sock proc_wireless ifname;
      rest ← adapter_loop sock proc_wireless ifnames;
      mret (info :: rest)
  end.

Definition adapters : query W (list adapter_info) :=
  ifnames ← interface_names;
  sock ← ask inet_socket;
  proc_wireless ← read_proc_net_wireless;
  adapter_loop (fst sock) proc_wireless ifnames.

Definition adapter_count : query W Z := l ← adapters; mret (Z.of_nat (length l)).

Definition default_adapter : query W adapter_info := l ← adapters; pure (select_default_adapter l).

Definition current_connection (adapter_id : text) : query W (option network_connection) :=
  sock ← ask inet_socket;
  if fst sock <? 0 then pure (fail_native (snd sock))
  else
    target_id ← (if empty adapter_id then def ← default_adapter; mret (ai_id def) else mret adapter_id);
    wireless ← is_wireless_interface target_id;
    if negb wireless then pure (fail errc_not_found)
    else
      conn ← query_wext_connection (fst sock) target_id;
      match conn with
      | None => mret None
      | Some c => proc_wireless ← read_proc_net_wireless; mret (Some (enrich target_id proc_wireless c))
      end.

(** ** Configured networks *)

Definition nm_dir_path : text := lit "/etc/NetworkManager/system-connections".

Definition iwd_dir_path : text := lit "/var/lib/iwd".

Fixpoint nm_loop (names : list text) : query W (list configured_network) :=
  match names with
  | [] => mret []
  | name :: names =>
      if same name (lit ".") || same name (lit "..") then nm_loop names
      else
        file_content ← read_text_file (nm_dir_path ++ "/"%char :: name) 16384;
        profile ← pure (parse_network_manager_profile file_content);
        rest ← nm_loop names;
        mret (match profile with Some net => net :: rest | None => rest end)
  end.

Fixpoint iwd_loop (names : list text) : result (list configured_network) :=
  match names with
  | [] => mret []
  | name :: names =>
      if same name (lit ".") || same name (lit "..") then iwd_loop names
      else
        let '(suffix_size, security) := iwd_extension name in
        if (suffix_size =? 0)%nat then iwd_loop names
        else
          ssid ← decode_iwd_ssid (substr 0 (length name - suffix_size) name);
          rest ← iwd_loop names;
          mret (Configured_network ssid None security None None :: rest)
  end.

(** A directory that may be missing, and the loop over its names. *)
Definition optional_directory {A} (path : text) (loop : list text -> query W (list A)) : query W (list A) :=
  fun w =>
  match list_directory path w with
  | (inl errno, w) =>
      ((if (errno =? ENOENT) || (errno =? ENOTDIR) then Value [] else fail_native errno), w)
  | (inr (names, errno), w) =>
      (found ← loop names; if negb (errno =? 0) then pure (fail_native errno) else mret found) w
  end.

Definition configured_networks : query W (list configured_network) :=
  nm ← optional_directory nm_dir_path nm_loop;
  iwd ← optional_directory iwd_dir_path (fun names => pure (iwd_loop names));
  mret (nm ++ iwd).

End wifi_queries.

(** ** What the adapters satisfy *)

Definition connection_ok (c : network_connection) : Prop :=
  is_valid_utf8 (ssid c) = true /\
  match frequency_mhz c with
  | Some f => band c = frequency_to_band f /\ band c <> band_unknown /\ channel c = frequency_to_channel f
  | None => band c = band_unknown /\ forall n, channel c = Some n -> 1 <= n <= 233
  end /\
  match signal_dbm c with
  | Some s =>
      -127 <= s <= 0 /\ signal_quality_percent c = Some (rssi_to_quality_percent s) /\
      0 <= rssi_to_quality_percent s <= 100
  | None => signal_quality_percent c = None
  end.

(** A connection and the state that claims it go together, and a connected
    radio is not reported as off or unknown. *)
Definition adapter_ok (a : adapter_info) : Prop :=
  ai_name a = ai_id a /\ (state a = connected <-> is_Some (connection a)) /\
  (forall c, connection a = Some c -> connection_ok c /\ power_state a <> power_unknown) /\
  (forall mac, mac_address a = Some mac -> exists bytes, length bytes = 6%nat /\ mac = format_mac_bytes bytes).

Lemma rssi_quality_bound s : 0 <= rssi_to_quality_percent s <= 100.
Proof.
  unfold rssi_to_quality_percent. repeat split_if; try lia. unfold wrap. change (2 ^ 8) with 256.
  rewrite Z.mod_small; lia.
Qed.

Lemma apply_frequency_ok f c : connection_ok c -> frequency_mhz c = None -> connection_ok (apply_wext_frequency f c).
Proof.
  intros (Hs & Hf & Hq) Hn. rewrite Hn in Hf. unfold apply_wext_frequency.
  destruct ((freq_e f =? 0) && (0 <? freq_m f) && (freq_m f <=? 233)) eqn:E.
  - unfold connection_ok. cbn [ssid frequency_mhz band channel signal_dbm signal_quality_percent with_channel].
    rewrite Hn. split_and!; [done|apply Hf| |done]. intros n [= <-]. lia.
  - destruct (_ || _); [by split_and!; rewrite ?Hn|]. case_bool_decide; [by split_and!; rewrite ?Hn|].
    unfold connection_ok. cbn. done.
Qed.

Lemma enrich_ok name entries c :
  connection_ok c -> signal_dbm c = None -> connection_ok (enrich name entries c).
Proof.
  intros (Hs & Hf & Hq) Hn. unfold enrich.
  destruct (list_find _ entries) as [[i e]|]; [|done]. destruct (entry_signal e) as [s|]; [|done].
  destruct (_ && _) eqn:E; [|done]. unfold connection_ok, with_signal. cbn -[rssi_to_quality_percent].
  pose proof (rssi_quality_bound s). split_and!; try done; lia.
Qed.

Lemma checked_text_value input v : checked_text input = Value v -> v = input /\ is_valid_utf8 v = true.
Proof. unfold checked_text. destruct (is_valid_utf8 input) eqn:E; [|done]. by intros [= <-]. Qed.

Section wifi_results.
Context {W : Type} `{Kernel W} `{WifiKernel W} (char_is_signed : bool).

Lemma query_ssid_yields sock ifname : yields (query_ssid sock ifname) (fun s => is_valid_utf8 s = true).
Proof.
  unfold query_ssid. apply yields_skip. intros essid. apply yields_pure. intros v Hv.
  destruct essid as [r|]; [|by injection Hv as <-]. destruct (_ =? 0); [by injection Hv as <-|].
  by apply checked_text_value in Hv as [_ ?].
Qed.

Lemma query_connection_yields sock ifname :
  yields (query_wext_connection sock ifname)
    (fun r => forall c, r = Some c -> connection_ok c /\ signal_dbm c = None).
Proof.
  unfold query_wext_connection. destruct (negb _); [by apply yields_pure|].
  apply yields_skip. intros [raw|]; [|by apply yields_ret].
  destruct (negb _); [by apply yields_ret|]. eapply yields_bind; [apply query_ssid_yields|]. intros s Hs.
  apply yields_skip. intros freq. apply yields_skip. intros rate. apply yields_skip. intros name.
  apply yields_ret. intros c [= <-]. set (c0 := Network_connection s _ _ _ _ _ _ _ _ _ _).
  assert (connection_ok c0 /\ signal_dbm c0 = None) as [H1 H2] by (by unfold connection_ok).
  set (c1 := match freq with Some f => _ | None => _ end).
  assert (connection_ok c1 /\ signal_dbm c1 = None) as [H3 H4].
  { unfold c1. destruct freq as [f|]; [|done]. split; [by apply apply_frequency_ok|].
    unfold apply_wext_frequency. repeat case_match; done. }
  set (c2 := match rate with Some r => _ | None => _ end).
  assert (connection_ok c2 /\ signal_dbm c2 = None) as [H5 H6]
    by (unfold c2; destruct rate as [r|]; [destruct (0 <? r)|]; done).
  destruct name as [n|]; [|done]. by destruct (standard_of n (band c2)).
Qed.

Lemma normalized_bytes v mac :
  normalize_mac_address v = Some mac -> exists bytes, length bytes = 6%nat /\ mac = format_mac_bytes bytes.
Proof.
  assert (forall indices stride sep raw bytes, mac_loop indices stride sep raw = Some bytes ->
          length bytes = length indices) as Hlen.
  { induction indices as [|i indices IH]; intros stride sep raw bytes; cbn [mac_loop]; [by intros [= <-]|].
    destruct (match sep with Some _ => _ | None => _ end); [done|].
    destruct (mac_pair raw (i * stride)) as [b|]; [|done]. cbn.
    destruct (mac_loop indices stride sep raw) as [bs|] eqn:E; [|done]. intros [= <-]. cbn.
    by rewrite (IH _ _ _ _ E). }
  unfold normalize_mac_address. cbv zeta. intros Hm.
  destruct ((length _ =? 17)%nat && _); [|destruct (length _ =? 12)%nat; [|done]].
  all: destruct (mac_loop _ _ _ _) as [bytes|] eqn:E; [|done]; injection Hm as <-; exists bytes;
    split; [by apply Hlen in E|done].
Qed.

Lemma query_adapter_yields sock entries ifname :
  yields (query_adapter sock entries ifname) (fun a => adapter_ok a /\ ai_id a = ifname).
Proof.
  unfold query_adapter. apply yields_skip. intros mac_str. apply yields_pure_bind. intros mac Hmac.
  assert (forall m, mac = Some m -> exists bytes, length bytes = 6%nat /\ m = format_mac_bytes bytes) as Hm.
  { intros m ->. destruct mac_str as [v|]; [|done]. unfold adapter_mac in Hmac.
    destruct (normalize_mac_address v) as [k|] eqn:E; [|done]. injection Hmac as ->. by eapply normalized_bytes. }
  apply yields_skip. intros oper. apply yields_skip. intros power. apply yields_skip. intros m.
  apply (yields_bind _ _ (fun r => forall c, r = Some c -> connection_ok c /\ signal_dbm c = None)).
  { destruct (0 <=? sock); [apply query_connection_yields|by apply yields_ret]. }
  intros conn Hc. apply yields_ret. unfold adapter_ok. destruct conn as [c|]; cbn.
  - destruct (Hc c eq_refl) as [H1 H2]. split_and!; try done.
    intros c' [= <-]. split; [by apply enrich_ok|]. by case_bool_decide.
  - split_and!; try done. split; [|by intros [? [=]]]. unfold operational_state. repeat case_match; done.
Qed.

Lemma adapter_loop_yields sock entries ifnames :
  yields (adapter_loop sock entries ifnames) (fun l => Forall adapter_ok l /\ ai_id <$> l = ifnames).
Proof.
  induction ifnames as [|n ifnames IH]; cbn [adapter_loop]; [by apply yields_ret|].
  eapply yields_bind; [apply query_adapter_yields|]. intros a [Ha Hid].
  eapply yields_bind; [apply IH|]. intros l [Hl Hids]. apply yields_ret.
  split; [by constructor|]. rewrite fmap_cons. by rewrite Hid, Hids.
Qed.

Lemma interface_names_yields :
  yields (interface_names char_is_signed) (StronglySorted (not_after (natural_less char_is_signed))).
Proof.
  intros w l w'. unfold interface_names. destruct (list_directory _ w) as [[errno|[names errno]] w1]; [done|].
  unfold mbind, query_bind. destruct (interface_loop names w1) as [[found|e] w2]; [|done].
  destruct (negb _); [done|]. intros [= <- _].
  apply (std_sort_key_sorted _ (key char_is_signed)). intros a b. apply natural_less_key.
Qed.

(** The adapters are in natural order of their names; an adapter is
    reported as connected exactly when it has a connection, whose radio is then
    not unknown; a connection's band and channel are those of its frequency,
    and its signal and quality are in range and belong together. *)
Theorem adapters_listed (w : W) (l : list adapter_info) (w' : W) :
  adapters char_is_signed w = (Value l, w') ->
  StronglySorted (not_after (natural_less char_is_signed)) (ai_id <$> l) /\ Forall adapter_ok l.
Proof.
  intros Hl.
  assert (yields (adapters char_is_signed)
    (fun l => StronglySorted (not_after (natural_less char_is_signed)) (ai_id <$> l) /\ Forall adapter_ok l))
    as Hy; [|exact (Hy _ _ _ Hl)].
  unfold adapters. eapply yields_bind; [apply interface_names_yields|]. intros names Hn.
  apply yields_skip. intros sock. apply yields_skip. intros entries.
  eapply yields_weaken; [apply adapter_loop_yields|]. intros k [Hok Hid]. by rewrite Hid.
Qed.

End wifi_results.

(** Two interfaces; the first is associated at 5180 MHz. *)
Definition radio_kernel : WifiKernel unit := {|
  stat_directory path w :=
    (if contains (lit "wlan") path && contains (lit "/wireless") path then Some true else None, w);
  inet_socket w := ((3, 0), w);
  ioctl_ap sock name w :=
    (if same name (lit "wlan2") then Some [0x00; 0x1B; 0x44; 0x11; 0x3A; 0xB7; 0; 0] else None, w);
  ioctl_essid sock name w := (Some (Wext_essid 1 4 (lit "home" ++ repeat ch_nul 29)), w);
  ioctl_freq sock name w := (Some (Wext_freq 5180 6), w);
  ioctl_rate sock name w := (Some 866700000, w);
  ioctl_name sock name w := (Some (lit "IEEE 802.11ac" ++ repeat ch_nul 3), w);
  ioctl_mode sock name w := (Some 2, w)
|}.

Definition radio_files : Kernel unit :=
  listing_kernel [("/sys/class/net/wlan2/address", "00:1b:44:11:3a:b8")]%string
    [("/sys/class/net", ["wlan10"; "eth0"; "wlan2"])]%string.

Lemma adapters_listed_witness :
  let l :=
    [Adapter_info (lit "wlan2") (lit "wlan2") (Some (lit "00:1B:44:11:3A:B8")) power_on station connected
       (Some (Network_connection (lit "home") (lit "00:1B:44:11:3A:B7") None None (Some 5180) (Some 36)
                band_5_ghz wifi_5 security_unknown (Some 866) None)) [] [];
     Adapter_info (lit "wlan10") (lit "wlan10") None power_unknown station connection_unknown None [] []] in
  @adapters unit radio_files radio_kernel true tt = (Value l, tt) /\
  StronglySorted (not_after (natural_less true)) (ai_id <$> l) /\ Forall adapter_ok l.
Proof.
  intros l. assert (@adapters unit radio_files radio_kernel true tt = (Value l, tt)) as Hl
    by (vm_compute; reflexivity).
  split; [exact Hl|]. exact (@adapters_listed unit radio_files radio_kernel true tt l tt Hl).
Defined.

(** ** The default adapter *)

Lemma select_loop_spec l selected a :
  select_loop l selected = Value a <->
  match selected with
  | Some s => s = a /\ Forall (fun x => is_active x = false) l
  | None => exists l1 l2, l = l1 ++ a :: l2 /\ is_active a = true /\
              Forall (fun x => is_active x = false) (l1 ++ l2)
  end.
Proof.
  revert selected. induction l as [|x l IH]; intros selected; cbn [select_loop].
  - destruct selected as [s|]; [|split; [done|by intros ([|] & ? & ? & _)]].
    split; [by intros [= <-]|by intros [-> _]].
  - destruct (is_active x) eqn:Ex; [destruct selected as [s|]|].
    + split; [done|]. rewrite Forall_cons. intros (_ & Hx & _). congruence.
    + rewrite IH. split.
      * intros [<- Hl]. exists [], l. done.
      * intros ([|y l1] & l2 & E & Ha & Hf); [by injection E as <- <-|].
        injection E as <- ->. apply Forall_cons in Hf as [Hf _]. congruence.
    + rewrite IH. destruct selected as [s|]; [rewrite Forall_cons; tauto|]. split.
      * intros (l1 & l2 & -> & Ha & Hf). exists (x :: l1), l2. split_and!; [done|done|by constructor].
      * intros ([|y l1] & l2 & E & Ha & Hf); [injection E as <- <-; congruence|].
        injection E as <- ->. apply Forall_cons in Hf as [_ Hf]. by exists l1, l2.
Qed.

(** The default adapter is the only one there is, or the only active one;
    otherwise there is no default, and with several adapters the answer is
    [not_supported]. *)
Theorem select_default_adapter_spec (l : list adapter_info) :
  (forall a, select_default_adapter l = Value a <->
     l = [a] \/
     (2 <= length l)%nat /\ exists l1 l2, l = l1 ++ a :: l2 /\ is_active a = true /\
                              Forall (fun x => is_active x = false) (l1 ++ l2)) /\
  (forall e, select_default_adapter l = Failure e <->
     l = [] /\ e = make_error_code errc_not_found \/
     (2 <= length l)%nat /\ e = make_error_code errc_not_supported /\
     (forall a, select_default_adapter l <> Value a)).
Proof.
  assert (forall l s e, select_loop l s = Failure e -> e = make_error_code errc_not_supported) as Hf.
  { clear l. intros l. induction l as [|x l IH]; intros s e; cbn [select_loop].
    - destruct s; [done|]. by intros [= <-].
    - destruct (is_active x); [destruct s; [by intros [= <-]|]|]; apply IH. }
  unfold select_default_adapter. destruct l as [|x [|y l]].
  - split; [intros a; split; [done|]|intros e; split; [intros [= <-]; by left|]].
    + intros [?|[H _]]; [done|simpl in H; lia].
    + intros [[_ ->]|[H _]]; [done|simpl in H; lia].
  - split; [intros a; split; [intros [= <-]; by left|]|intros e; split; [done|]].
    + intros [[= <-]|[H _]]; [done|simpl in H; lia].
    + intros [[? _]|[H _]]; [done|simpl in H; lia].
  - split; [intros a; rewrite select_loop_spec|intros e].
    + split; [intros H; right; split; [simpl; lia|exact H]|]. intros [?|[_ H]]; [done|exact H].
    + split.
      * intros H. right. split_and!; [simpl; lia|by eapply Hf|]. intros a. congruence.
      * intros [[? _]|(_ & -> & H)]; [done|]. destruct (select_loop _ None) as [a|e] eqn:E; [by destruct (H a)|].
        f_equal. by apply Hf in E.
Qed.
