(* ===== verification/Hardware.v ===== *)
(** * Hardware identity and SMBIOS memory devices

    [include/syscape/detail/hardware/common.hpp] with the records and
    enumerations of [include/syscape/hardware.hpp]: classification of recorded
    bytes, UUID text, the orders by which devices are sorted, and the parser of
    the SMBIOS structure table with its memory accesses. *)
From S2P Require Import Prelude Result CppText Order Utf8 Buffer Float.

(** ** hardware.hpp *)

Inductive form_factor :=
  | ff_unknown | ff_other | ff_desktop | ff_low_profile_desktop | ff_pizza_box | ff_mini_tower
  | ff_tower | ff_portable | ff_laptop | ff_notebook | ff_hand_held | ff_docking_station
  | ff_all_in_one | ff_sub_notebook | ff_space_saving | ff_lunch_box | ff_main_server
  | ff_expansion_chassis | ff_sub_chassis | ff_bus_expansion_chassis | ff_peripheral_chassis
  | ff_raid_chassis | ff_rack_mount_chassis | ff_sealed_case_pc | ff_multi_system
  | ff_compact_pci | ff_advanced_tca | ff_blade | ff_blade_enclosure | ff_tablet
  | ff_convertible | ff_detachable | ff_iot_gateway | ff_embedded_pc | ff_mini_pc | ff_stick_pc.

Inductive pci_class :=
  | pci_unknown | pci_unclassified | pci_mass_storage | pci_network_controller
  | pci_display_controller | pci_multimedia_controller | pci_memory_controller | pci_bridge
  | pci_communication_controller | pci_generic_system_peripheral | pci_input_device_controller
  | pci_docking_station | pci_processor | pci_serial_bus_controller | pci_wireless_controller
  | pci_intelligent_controller | pci_satellite_communication | pci_encryption_controller
  | pci_signal_processing_controller | pci_processing_accelerator
  | pci_non_essential_instrumentation.

Inductive memory_form_factor :=
  | mff_unknown | mff_other | mff_simm | mff_sip | mff_chip | mff_dip | mff_zip | mff_soj
  | mff_proprietary | mff_dimm | mff_tsop | mff_row_of_chips | mff_rimm | mff_sodimm | mff_srimm
  | mff_fb_dimm | mff_die | mff_camm.

Inductive memory_type :=
  | mt_unknown | mt_other | mt_dram | mt_edram | mt_vram | mt_sram | mt_ram | mt_rom | mt_flash
  | mt_eeprom | mt_feprom | mt_eprom | mt_cdram | mt_three_d_ram | mt_sdram | mt_sgram
  | mt_rdram | mt_ddr | mt_ddr2 | mt_ddr2_fb_dimm | mt_ddr3 | mt_fbd2 | mt_ddr4 | mt_lpddr
  | mt_lpddr2 | mt_lpddr3 | mt_lpddr4 | mt_logical_non_volatile | mt_hbm | mt_hbm2 | mt_ddr5
  | mt_lpddr5 | mt_hbm3.

Inductive memory_device_state := mds_unknown | mds_not_installed | mds_installed.

#[global] Instance memory_device_state_eq_dec : EqDecision memory_device_state.
Proof. solve_decision. Defined.

(** [static_cast<std::uint8_t>(state)]. *)
Definition state_value (s : memory_device_state) : Z :=
  match s with mds_unknown => 0 | mds_not_installed => 1 | mds_installed => 2 end.

Inductive memory_speed_unit := unit_unknown | unit_megahertz | unit_megatransfers_per_second.

Record memory_speed := Memory_speed { speed_value : Z; speed_unit : memory_speed_unit }.

Record pci_device := Pci_device {
  pci_domain : option Z;
  pci_bus : option Z;
  pci_device_number : option Z;
  pci_function : option Z;
  pci_vendor_id : Z;
  pci_device_id : Z;
  pci_subsystem_vendor_id : option Z;
  pci_subsystem_device_id : option Z;
  pci_class_code : option Z;
  pci_subclass_code : option Z;
  pci_programming_interface : option Z;
  pci_device_class : pci_class;
  pci_driver : option text;
  pci_slot_name : option text
}.

Record usb_device := Usb_device {
  usb_bus_number : option Z;
  usb_device_address : option Z;
  usb_port_number : option Z;
  usb_vendor_id : Z;
  usb_product_id : Z;
  usb_bcd_device : option Z;
  usb_device_class : option Z;
  usb_device_subclass : option Z;
  usb_device_protocol : option Z;
  usb_manufacturer : option text;
  usb_product : option text;
  usb_serial_number : option text;
  usb_speed_mbps : option double
}.

Record memory_device := Memory_device {
  md_locator : text;
  md_bank_locator : option text;
  md_state : memory_device_state;
  md_size_bytes : option Z;
  md_form_factor : memory_form_factor;
  md_type : memory_type;
  md_speed : option memory_speed;
  md_configured_speed : option memory_speed;
  md_manufacturer : option text;
  md_serial_number : option text;
  md_part_number : option text
}.

(** ** Classification *)

Definition validate_identity_text (v : result text) : result text :=
  t ← v;
  reject (empty t) errc_malformed_data;;
  reject (negb (is_valid_utf8 t)) errc_invalid_encoding;;
  Value t.

Definition classify_chassis (recorded : Z) : result form_factor :=
  match recorded with
  | 1 => Value ff_other
  | 2 => Value ff_unknown
  | 3 => Value ff_desktop
  | 4 => Value ff_low_profile_desktop
  | 5 => Value ff_pizza_box
  | 6 => Value ff_mini_tower
  | 7 => Value ff_tower
  | 8 => Value ff_portable
  | 9 => Value ff_laptop
  | 10 => Value ff_notebook
  | 11 => Value ff_hand_held
  | 12 => Value ff_docking_station
  | 13 => Value ff_all_in_one
  | 14 => Value ff_sub_notebook
  | 15 => Value ff_space_saving
  | 16 => Value ff_lunch_box
  | 17 => Value ff_main_server
  | 18 => Value ff_expansion_chassis
  | 19 => Value ff_sub_chassis
  | 20 => Value ff_bus_expansion_chassis
  | 21 => Value ff_peripheral_chassis
  | 22 => Value ff_raid_chassis
  | 23 => Value ff_rack_mount_chassis
  | 24 => Value ff_sealed_case_pc
  | 25 => Value ff_multi_system
  | 26 => Value ff_compact_pci
  | 27 => Value ff_advanced_tca
  | 28 => Value ff_blade
  | 29 => Value ff_blade_enclosure
  | 30 => Value ff_tablet
  | 31 => Value ff_convertible
  | 32 => Value ff_detachable
  | 33 => Value ff_iot_gateway
  | 34 => Value ff_embedded_pc
  | 35 => Value ff_mini_pc
  | 36 => Value ff_stick_pc
  | _ => fail errc_malformed_data
  end.

Definition classify_pci_class (recorded : Z) : pci_class :=
  match recorded with
  | 0 => pci_unclassified
  | 1 => pci_mass_storage
  | 2 => pci_network_controller
  | 3 => pci_display_controller
  | 4 => pci_multimedia_controller
  | 5 => pci_memory_controller
  | 6 => pci_bridge
  | 7 => pci_communication_controller
  | 8 => pci_generic_system_peripheral
  | 9 => pci_input_device_controller
  | 10 => pci_docking_station
  | 11 => pci_processor
  | 12 => pci_serial_bus_controller
  | 13 => pci_wireless_controller
  | 14 => pci_intelligent_controller
  | 15 => pci_satellite_communication
  | 16 => pci_encryption_controller
  | 17 => pci_signal_processing_controller
  | 18 => pci_processing_accelerator
  | 19 => pci_non_essential_instrumentation
  | _ => pci_unknown
  end.

Definition classify_memory_form_factor (recorded : Z) : memory_form_factor :=
  match recorded with
  | 1 => mff_other
  | 2 => mff_unknown
  | 3 => mff_simm
  | 4 => mff_sip
  | 5 => mff_chip
  | 6 => mff_dip
  | 7 => mff_zip
  | 8 => mff_soj
  | 9 => mff_proprietary
  | 10 => mff_dimm
  | 11 => mff_tsop
  | 12 => mff_row_of_chips
  | 13 => mff_rimm
  | 14 => mff_sodimm
  | 15 => mff_srimm
  | 16 => mff_fb_dimm
  | 17 => mff_die
  | 18 => mff_camm
  | _ => mff_unknown
  end.

Definition classify_memory_type (recorded : Z) : memory_type :=
  match recorded with
  | 1 => mt_other
  | 2 => mt_unknown
  | 3 => mt_dram
  | 4 => mt_edram
  | 5 => mt_vram
  | 6 => mt_sram
  | 7 => mt_ram
  | 8 => mt_rom
  | 9 => mt_flash
  | 10 => mt_eeprom
  | 11 => mt_feprom
  | 12 => mt_eprom
  | 13 => mt_cdram
  | 14 => mt_three_d_ram
  | 15 => mt_sdram
  | 16 => mt_sgram
  | 17 => mt_rdram
  | 18 => mt_ddr
  | 19 => mt_ddr2
  | 20 => mt_ddr2_fb_dimm
  | 24 => mt_ddr3
  | 25 => mt_fbd2
  | 26 => mt_ddr4
  | 27 => mt_lpddr
  | 28 => mt_lpddr2
  | 29 => mt_lpddr3
  | 30 => mt_lpddr4
  | 31 => mt_logical_non_volatile
  | 32 => mt_hbm
  | 33 => mt_hbm2
  | 34 => mt_ddr5
  | 35 => mt_lpddr5
  | 36 => mt_hbm3
  | _ => mt_unknown
  end.

(** ** UUIDs *)

(** The loop's [saw_nonzero] and [saw_not_ff]. *)
Definition uuid_records_no_identifier (octets : list Z) : bool :=
  let '(saw_nonzero, saw_not_ff) :=
    foldl (fun '(saw_nonzero, saw_not_ff) octet =>
             (if negb (octet =? 0) then true else saw_nonzero,
              if negb (octet =? 0xFF) then true else saw_not_ff)) (false, false) octets in
  negb saw_nonzero || negb saw_not_ff.

(** [digits[d]]. *)
Definition lower_hex (d : Z) : ascii := char_of (if d <? 10 then 48 + d else 97 + d - 10).

(** The lambda [fixed]: the last [width] hexadecimal digits. *)
Fixpoint fixed (v : Z) (width : nat) : text :=
  match width with
  | O => []
  | S width => fixed (Z.shiftr v 4) width ++ [lower_hex (Z.land v 0xF)]
  end.

Definition render_canonical_uuid (time_low time_mid time_hi_and_version : Z) (remaining : list Z)
    : text :=
  fixed time_low 8 ++ ["-"%char] ++ fixed time_mid 4 ++ ["-"%char] ++ fixed time_hi_and_version 4 ++
  ["-"%char] ++ fixed (nth 0 remaining 0) 2 ++ fixed (nth 1 remaining 0) 2 ++ ["-"%char] ++
  concat ((fun index => fixed (nth index remaining 0) 2) <$> seq 2 6).

Definition hex_digit_value (letter : ascii) : Z :=
  let c := code letter in
  if (48 <=? c) && (c <=? 57) then c - 48
  else if (97 <=? c) && (c <=? 102) then c - 97 + 10
  else if (65 <=? c) && (c <=? 70) then c - 65 + 10
  else -1.

Definition hyphen_positions : list nat := [8; 13; 18; 23]%nat.

(** The loop on what is left of the text from [position]. *)
Fixpoint uuid_loop (rest : text) (position : nat) (all_zero all_ff : bool) (canonical : text)
    : result (bool * bool * text) :=
  match rest with
  | [] => Value (all_zero, all_ff, canonical)
  | c :: rest =>
      if existsb (Nat.eqb position) hyphen_positions then
        if negb (is_char c "-") then fail errc_malformed_data
        else uuid_loop rest (S position) all_zero all_ff (canonical ++ ["-"%char])
      else
        let digit := hex_digit_value c in
        if digit <? 0 then fail errc_malformed_data
        else uuid_loop rest (S position)
               (if negb (digit =? 0) then false else all_zero)
               (if negb (digit =? 0xF) then false else all_ff)
               (canonical ++ [if digit <? 10 then char_of (48 + digit) else char_of (97 + digit - 10)])
  end.

Definition validate_uuid_text (v : result text) : result text :=
  t ← v;
  reject (negb (length t =? 36)%nat) errc_malformed_data;;
  '(all_zero, all_ff, canonical) ← uuid_loop t 0 true true [];
  reject (all_zero || all_ff) errc_not_found;;
  Value canonical.

Definition compare_pci_devices (a b : pci_device) : bool :=
  then_by (optional_less Z.ltb) (pci_domain a) (pci_domain b) (
  then_by (optional_less Z.ltb) (pci_bus a) (pci_bus b) (
  then_by (optional_less Z.ltb) (pci_device_number a) (pci_device_number b) (
  then_by (optional_less Z.ltb) (pci_function a) (pci_function b) (
  then_by Z.ltb (pci_vendor_id a) (pci_vendor_id b) (
  then_by Z.ltb (pci_device_id a) (pci_device_id b) (
  then_by (optional_less Z.ltb) (pci_subsystem_vendor_id a) (pci_subsystem_vendor_id b) (
  then_by (optional_less Z.ltb) (pci_subsystem_device_id a) (pci_subsystem_device_id b) (
  then_by (optional_less Z.ltb) (pci_class_code a) (pci_class_code b) (
  then_by (optional_less Z.ltb) (pci_subclass_code a) (pci_subclass_code b) (
  then_by (optional_less Z.ltb) (pci_programming_interface a) (pci_programming_interface b) (
  then_by (optional_less text_less) (pci_driver a) (pci_driver b) (
  optional_less text_less (pci_slot_name a) (pci_slot_name b))))))))))))).

Definition compare_usb_devices (a b : usb_device) : bool :=
  then_by (optional_less Z.ltb) (usb_bus_number a) (usb_bus_number b) (
  then_by (optional_less Z.ltb) (usb_device_address a) (usb_device_address b) (
  then_by (optional_less Z.ltb) (usb_port_number a) (usb_port_number b) (
  then_by Z.ltb (usb_vendor_id a) (usb_vendor_id b) (
  then_by Z.ltb (usb_product_id a) (usb_product_id b) (
  then_by (optional_less Z.ltb) (usb_bcd_device a) (usb_bcd_device b) (
  then_by (optional_less Z.ltb) (usb_device_class a) (usb_device_class b) (
  then_by (optional_less Z.ltb) (usb_device_subclass a) (usb_device_subclass b) (
  then_by (optional_less Z.ltb) (usb_device_protocol a) (usb_device_protocol b) (
  then_by (optional_less text_less) (usb_manufacturer a) (usb_manufacturer b) (
  then_by (optional_less text_less) (usb_product a) (usb_product b) (
  optional_less text_less (usb_serial_number a) (usb_serial_number b)))))))))))).

Definition compare_memory_devices (a b : memory_device) : bool :=
  then_by text_less (md_locator a) (md_locator b) (
  then_by (optional_less text_less) (md_bank_locator a) (md_bank_locator b) (
  then_by Z.ltb (state_value (md_state a)) (state_value (md_state b)) (
  then_by (optional_less Z.ltb) (md_size_bytes a) (md_size_bytes b) (
  then_by (optional_less text_less) (md_manufacturer a) (md_manufacturer b) (
  then_by (optional_less text_less) (md_serial_number a) (md_serial_number b) (
  optional_less text_less (md_part_number a) (md_part_number b))))))).

(** ** The SMBIOS structure table *)

Definition read_le_u16 (memory : list Z) (pos : nat) : checked Z :=
  b0 ← load_byte memory pos;
  b1 ← load_byte memory (pos + 1);
  mret (Z.lor b0 (wrap 16 (Z.shiftl b1 8))).

Definition read_le_u32 (memory : list Z) (pos : nat) : checked Z :=
  b0 ← load_byte memory pos;
  b1 ← load_byte memory (pos + 1);
  b2 ← load_byte memory (pos + 2);
  b3 ← load_byte memory (pos + 3);
  mret (Z.lor (Z.lor (Z.lor b0 (wrap 32 (Z.shiftl b1 8))) (wrap 32 (Z.shiftl b2 16)))
          (wrap 32 (Z.shiftl b3 24))).

Record structure_view := Structure_view {
  formatted : nat;
  formatted_size : nat;
  strings : nat;
  strings_size : nat
}.

(** [while (end < strings_size && strings[end] != 0U) ++end;] *)
Fixpoint string_end (fuel : nat) (memory : list Z) (structure : structure_view) (stop : nat)
    : checked nat :=
  match fuel with
  | O => None
  | S fuel =>
      if (stop <? strings_size structure)%nat then
        b ← load_byte memory (strings structure + stop);
        if negb (b =? 0) then string_end fuel memory structure (S stop) else mret stop
      else mret stop
  end.

(** The loop over the strings, [seen] of eight bits. *)
Fixpoint extract_loop (fuel : nat) (memory : list Z) (structure : structure_view) (index : Z)
    (seen : Z) (start : nat) : checked (option text) :=
  match fuel with
  | O => None
  | S fuel =>
      if (strings_size structure <=? start)%nat then check (fail errc_malformed_data)
      else
        stop ← string_end (S (strings_size structure)) memory structure start;
        if seen =? index then
          if (start <? stop)%nat then
            bytes ← load memory (strings structure + start) (stop - start);
            mret (Some (char_of <$> bytes))
          else mret None
        else if (strings_size structure <=? stop)%nat then check (fail errc_malformed_data)
        else extract_loop fuel memory structure index (wrap 8 (seen + 1)) (S stop)
  end.

(** The copied string, if present. *)
Definition extract_string (memory : list Z) (structure : structure_view) (index : Z)
    : checked (option text) :=
  if index =? 0 then mret None
  else extract_loop (S (strings_size structure)) memory structure index 1 0.

(** [destination], cleared when the string is absent, with [present]. *)
Definition store_string (memory : list Z) (structure : structure_view) (index : Z)
    : checked (bool * text) :=
  extracted ← extract_string memory structure index;
  mret (match extracted with Some v => (true, v) | None => (false, []) end).

(** The string whose index is the byte at an offset, as an optional field. *)
Definition optional_string (memory : list Z) (view : structure_view) (offset : nat)
    : checked (option text) :=
  index ← load_byte memory (formatted view + offset);
  stored ← store_string memory view index;
  mret (let '(present, v) := stored in if present && negb (empty v) then Some v else None).

(** Fields a revision of the format may leave out. *)
Definition later_string (memory : list Z) (view : structure_view) (needed offset : nat)
    : checked (option text) :=
  if (needed <=? formatted_size view)%nat then optional_string memory view offset else mret None.

(** The size field, with the state it implies. *)
Definition device_size (memory : list Z) (view : structure_view)
    : checked (memory_device_state * option Z) :=
  raw_size ← read_le_u16 memory (formatted view + 0x0C);
  if raw_size =? 0 then mret (mds_not_installed, None)
  else if raw_size =? 0xFFFF then mret (mds_installed, None)
  else if raw_size =? 0x7FFF then
    check (reject (formatted_size view <? 0x20)%nat errc_malformed_data);;
    ext_size ← read_le_u32 memory (formatted view + 0x1C);
    check (reject (negb (Z.land ext_size 0x80000000 =? 0) || (ext_size =? 0)) errc_malformed_data);;
    mret (mds_installed, Some (wrap 64 (wrap 64 (ext_size * 1024) * 1024)))
  else if negb (Z.land raw_size 0x8000 =? 0) then
    let size_kb := Z.land raw_size 0x7FFF in
    check (reject (size_kb =? 0) errc_malformed_data);;
    mret (mds_installed, Some (wrap 64 (size_kb * 1024)))
  else mret (mds_installed, Some (wrap 64 (wrap 64 (raw_size * 1024) * 1024))).

(** A speed field at [offset], present from [needed] bytes on, with its
    extension at [extended], present from [extended_needed] on. *)
Definition device_speed (memory : list Z) (view : structure_view) (unit : memory_speed_unit)
    (needed offset extended_needed extended : nat) : checked (option memory_speed) :=
  if (needed <=? formatted_size view)%nat then
    speed ← read_le_u16 memory (formatted view + offset);
    if negb (speed =? 0) && negb (speed =? 0xFFFF) then mret (Some (Memory_speed speed unit))
    else if (speed =? 0xFFFF) && (extended_needed <=? formatted_size view)%nat then
      ext_speed ← read_le_u32 memory (formatted view + extended);
      check (reject (negb (Z.land ext_speed 0x80000000 =? 0)) errc_malformed_data);;
      mret (if negb (ext_speed =? 0) then Some (Memory_speed ext_speed unit) else None)
    else mret None
  else mret None.

(** The structure of type 17. *)
Definition memory_device_of (memory : list Z) (view : structure_view) (unit : memory_speed_unit)
    : checked memory_device :=
  check (reject (formatted_size view <? 0x15)%nat errc_malformed_data);;
  locator_index ← load_byte memory (formatted view + 0x10);
  locator ← store_string memory view locator_index;
  bank ← optional_string memory view 0x11;
  size ← device_size memory view;
  recorded_form ← load_byte memory (formatted view + 0x0E);
  recorded_type ← load_byte memory (formatted view + 0x12);
  speed ← device_speed memory view unit 0x17 0x15 0x58 0x54;
  manufacturer ← later_string memory view 0x18 0x17;
  serial_number ← later_string memory view 0x19 0x18;
  part_number ← later_string memory view 0x1B 0x1A;
  configured ← device_speed memory view unit 0x22 0x20 0x5C 0x58;
  mret (Memory_device (snd locator) bank (fst size) (snd size)
          (classify_memory_form_factor recorded_form) (classify_memory_type recorded_type)
          speed configured manufacturer serial_number part_number).

(** [while (scan + 1U < size && !(data[scan] == 0U && data[scan + 1U] == 0U)) ++scan;] *)
Fixpoint scan_terminator (fuel : nat) (memory : list Z) (size scan : nat) : checked nat :=
  match fuel with
  | O => None
  | S fuel =>
      if (scan + 1 <? size)%nat then
        a ← load_byte memory scan;
        if a =? 0 then
          b ← load_byte memory (scan + 1);
          if b =? 0 then mret scan else scan_terminator fuel memory size (S scan)
        else scan_terminator fuel memory size (S scan)
      else mret scan
  end.

(** [for (index = trailing; index < size; ++index) if (data[index] != 0U) ...] *)
Fixpoint trailing_zeros (fuel : nat) (memory : list Z) (size index : nat) : checked unit :=
  match fuel with
  | O => None
  | S fuel =>
      if (index <? size)%nat then
        b ← load_byte memory index;
        check (reject (negb (b =? 0)) errc_malformed_data);;
        trailing_zeros fuel memory size (S index)
      else mret ()
  end.

(** The loop over the structures; without an end marker the table is malformed. *)
Fixpoint structure_loop (fuel : nat) (memory : list Z) (size : nat) (unit : memory_speed_unit)
    (cursor : nat) (devices : list memory_device) : checked (list memory_device) :=
  match fuel with
  | O => None
  | S fuel =>
      if (cursor <? size)%nat then
        check (reject (size - cursor <? 4)%nat errc_malformed_data);;
        type ← load_byte memory cursor;
        recorded ← load_byte memory (cursor + 1);
        let formatted_size := Z.to_nat recorded in
        check (reject ((formatted_size <? 4)%nat || (size - cursor <? formatted_size)%nat)
                 errc_malformed_data);;
        let strings_offset := (cursor + formatted_size)%nat in
        scan ← scan_terminator (S size) memory size strings_offset;
        check (reject (size <=? scan + 1)%nat errc_malformed_data);;
        let strings_size := Z.to_nat (wrap 32 (Z.of_nat (scan - strings_offset))) in
        let view := Structure_view cursor formatted_size strings_offset strings_size in
        if type =? 127 then
          check (reject (negb (formatted_size =? 4)%nat) errc_malformed_data);;
          trailing_zeros (S size) memory size (scan + 2);;
          mret devices
        else
          devices ← (if type =? 17 then
                       device ← memory_device_of memory view unit; mret (devices ++ [device])
                     else mret devices);
          structure_loop fuel memory size unit (strings_offset + strings_size + 2) devices
      else check (fail errc_malformed_data)
  end.

(** [data] is not null: it is the address 0 of [memory]. *)
Definition parse_smbios_memory_devices (memory : list Z) (size : nat) (unit : memory_speed_unit)
    : checked (list memory_device) :=
  check (reject (size =? 0)%nat errc_malformed_data);;
  devices ← structure_loop (S size) memory size unit 0 [];
  mret (std_sort compare_memory_devices devices).

(** ** Boundary checks *)

Definition valid_text (t : option text) : result unit :=
  match t with
  | Some t => reject (negb (is_valid_utf8 t)) errc_invalid_encoding
  | None => Value ()
  end.

Definition validate_pci_devices (devices : result (list pci_device)) : result (list pci_device) :=
  v ← devices;
  for_each (fun dev => valid_text (pci_driver dev);; valid_text (pci_slot_name dev)) v;;
  Value v.

Definition validate_usb_devices (devices : result (list usb_device)) : result (list usb_device) :=
  v ← devices;
  for_each (fun dev => valid_text (usb_manufacturer dev);; valid_text (usb_product dev);;
                       valid_text (usb_serial_number dev)) v;;
  Value v.

Definition validate_memory_devices (devices : result (list memory_device))
    : result (list memory_device) :=
  v ← devices;
  for_each (fun dev => valid_text (Some (md_locator dev));; valid_text (md_bank_locator dev);;
                       valid_text (md_manufacturer dev);; valid_text (md_serial_number dev);;
                       valid_text (md_part_number dev)) v;;
  Value v.

(** ** The orders are lexicographic *)

Definition pci_key (d : pci_device) : list Z :=
  encode (pci_domain d) ++ encode (pci_bus d) ++ encode (pci_device_number d) ++
  encode (pci_function d) ++ encode (pci_vendor_id d) ++ encode (pci_device_id d) ++
  encode (pci_subsystem_vendor_id d) ++ encode (pci_subsystem_device_id d) ++
  encode (pci_class_code d) ++ encode (pci_subclass_code d) ++
  encode (pci_programming_interface d) ++ encode (pci_driver d) ++ encode (pci_slot_name d) ++ [].

Definition usb_key (d : usb_device) : list Z :=
  encode (usb_bus_number d) ++ encode (usb_device_address d) ++ encode (usb_port_number d) ++
  encode (usb_vendor_id d) ++ encode (usb_product_id d) ++ encode (usb_bcd_device d) ++
  encode (usb_device_class d) ++ encode (usb_device_subclass d) ++ encode (usb_device_protocol d) ++
  encode (usb_manufacturer d) ++ encode (usb_product d) ++ encode (usb_serial_number d) ++ [].

Definition memory_key (d : memory_device) : list Z :=
  encode (md_locator d) ++ encode (md_bank_locator d) ++ encode (state_value (md_state d)) ++
  encode (md_size_bytes d) ++ encode (md_manufacturer d) ++ encode (md_serial_number d) ++
  encode (md_part_number d) ++ [].

Lemma compare_pci_devices_key a b : compare_pci_devices a b = lexicographic (pci_key a) (pci_key b).
Proof.
  unfold compare_pci_devices, pci_key. repeat apply then_by_encode.
  apply less_encode, optional_text_irreflexive.
Qed.

Lemma compare_usb_devices_key a b : compare_usb_devices a b = lexicographic (usb_key a) (usb_key b).
Proof.
  unfold compare_usb_devices, usb_key. repeat apply then_by_encode.
  apply less_encode, optional_text_irreflexive.
Qed.

Lemma compare_memory_devices_key a b :
  compare_memory_devices a b = lexicographic (memory_key a) (memory_key b).
Proof.
  unfold compare_memory_devices, memory_key. repeat apply then_by_encode.
  apply less_encode, optional_text_irreflexive.
Qed.

(** ** The parser stays inside its table *)

Lemma le_u16_value b0 b1 :
  is_byte b0 -> is_byte b1 -> Z.lor b0 (wrap 16 (Z.shiftl b1 8)) = b0 + 256 * b1.
Proof.
  unfold is_byte. intros H0 H1. rewrite Z.shiftl_mul_pow2 by lia. unfold wrap.
  rewrite Z.mod_small by lia. rewrite Z.lor_comm, (lor_add 8) by (lia || apply Z.mod_mul; lia).
  change (2 ^ 8) with 256. lia.
Qed.

Lemma le_u32_value b0 b1 b2 b3 :
  is_byte b0 -> is_byte b1 -> is_byte b2 -> is_byte b3 ->
  Z.lor (Z.lor (Z.lor b0 (wrap 32 (Z.shiftl b1 8))) (wrap 32 (Z.shiftl b2 16)))
    (wrap 32 (Z.shiftl b3 24)) = b0 + 256 * b1 + 65536 * b2 + 16777216 * b3.
Proof.
  unfold is_byte. intros H0 H1 H2 H3. rewrite !Z.shiftl_mul_pow2 by lia. unfold wrap.
  rewrite (Z.mod_small (b1 * _)), (Z.mod_small (b2 * _)), (Z.mod_small (b3 * _)) by lia.
  rewrite (Z.lor_comm b0), (lor_add 8 (b1 * 2 ^ 8)) by (lia || apply Z.mod_mul; lia).
  rewrite (Z.lor_comm (_ + b0)), (lor_add 16 (b2 * 2 ^ 16)) by (lia || apply Z.mod_mul; lia).
  rewrite (Z.lor_comm (b2 * 2 ^ 16 + _)), (lor_add 24) by (lia || apply Z.mod_mul; lia).
  change (2 ^ 8) with 256. change (2 ^ 16) with 65536. change (2 ^ 24) with 16777216. lia.
Qed.

(** ** What a table says

    A structure of the table: the bytes of its formatted area, and those of its
    strings without the two zeros that end them. *)
Record structure := Structure { formatted_area : list Z; strings_area : list Z }.

Definition area_byte (area : list Z) (offset : nat) : Z := nth offset area 0.

Definition area_word (area : list Z) (offset : nat) : Z := area_byte area offset + 256 * area_byte area (offset + 1).

Definition area_double_word (area : list Z) (offset : nat) : Z :=
  area_word area offset + 65536 * area_word area (offset + 2).

Definition structure_type (s : structure) : Z := area_byte (formatted_area s) 0.

Definition structure_bytes (s : structure) : list Z := formatted_area s ++ strings_area s ++ [0; 0].

(** The second byte is the length of the formatted area, and the two zeros at
    the end are the first ones after it. *)
Definition delimited (s : structure) : Prop :=
  (4 <= length (formatted_area s))%nat /\ area_byte (formatted_area s) 1 = Z.of_nat (length (formatted_area s)) /\
  forall i, (i < length (strings_area s))%nat ->
    area_byte (strings_area s) i <> 0 \/ area_byte (strings_area s) (S i) <> 0.

(** The structures up to the end marker, and nothing but zeros after it. *)
Inductive table_says : list Z -> list structure -> Prop :=
| Table_end marker padding :
    delimited marker -> structure_type marker = 127 -> length (formatted_area marker) = 4%nat ->
    Forall (fun b => b = 0) padding -> table_says (structure_bytes marker ++ padding) []
| Table_structure s bytes ss :
    delimited s -> structure_type s <> 127 -> table_says bytes ss ->
    table_says (structure_bytes s ++ bytes) (s :: ss).

(** The strings, each ended by a zero but the last. *)
Fixpoint string_list (area : list Z) : list (list Z) :=
  match area with
  | [] => [[]]
  | b :: area =>
      if b =? 0 then [] :: string_list area
      else match string_list area with s :: ss => (b :: s) :: ss | [] => [[b]] end
  end.

(** The string of a number, counted from one; zero is no string. *)
Definition string_says (s : structure) (number : Z) (t : option text) : Prop :=
  if number =? 0 then t = None
  else exists bytes, string_list (strings_area s) !! (Z.to_nat number - 1)%nat = Some bytes /\
    t = match bytes with [] => None | _ => Some (char_of <$> bytes) end.

(** A field in a formatted area that may be too short for it. *)
Definition string_field (s : structure) (offset : nat) (t : option text) : Prop :=
  if (offset <? length (formatted_area s))%nat then string_says s (area_byte (formatted_area s) offset) t else t = None.

(** The size at 0Ch, in mebibytes or, with its highest bit, in kibibytes; 7FFFh
    refers to the mebibytes at 1Ch. *)
Inductive recorded_size (area : list Z) : memory_device_state -> option Z -> Prop :=
| Nothing_installed : area_word area 0x0C = 0 -> recorded_size area mds_not_installed None
| Size_unknown : area_word area 0x0C = 65535 -> recorded_size area mds_installed None
| Mebibytes amount :
    area_word area 0x0C = amount -> 0 < amount < 32767 -> recorded_size area mds_installed (Some (amount * 1048576))
| Kibibytes amount :
    area_word area 0x0C = 32768 + amount -> 0 < amount < 32767 -> recorded_size area mds_installed (Some (amount * 1024))
| Extended_mebibytes amount :
    area_word area 0x0C = 32767 -> (0x20 <= length area)%nat -> area_double_word area 0x1C = amount ->
    0 < amount < 2 ^ 31 -> recorded_size area mds_installed (Some (amount * 1048576)).

(** A speed, of which 0 is unknown and FFFFh refers to an extension. *)
Inductive recorded_speed (area : list Z) (unit : memory_speed_unit) (offset extended : nat) : option memory_speed -> Prop :=
| Speed_absent : (length area < offset + 2)%nat -> recorded_speed area unit offset extended None
| Speed_unknown : area_word area offset = 0 -> recorded_speed area unit offset extended None
| Speed_here speed :
    (offset + 2 <= length area)%nat -> area_word area offset = speed -> 0 < speed < 65535 ->
    recorded_speed area unit offset extended (Some (Memory_speed speed unit))
| Extension_absent :
    area_word area offset = 65535 -> (length area < extended + 4)%nat -> recorded_speed area unit offset extended None
| Extension_unknown :
    area_word area offset = 65535 -> area_double_word area extended = 0 -> recorded_speed area unit offset extended None
| Speed_extended speed :
    area_word area offset = 65535 -> (extended + 4 <= length area)%nat -> area_double_word area extended = speed ->
    0 < speed < 2 ^ 31 -> recorded_speed area unit offset extended (Some (Memory_speed speed unit)).

(** A structure of type 17 as a device. *)
Record describes (unit : memory_speed_unit) (s : structure) (d : memory_device) : Prop := {
  describes_length : (0x15 <= length (formatted_area s))%nat;
  describes_size : recorded_size (formatted_area s) (md_state d) (md_size_bytes d);
  describes_form : md_form_factor d = classify_memory_form_factor (area_byte (formatted_area s) 0x0E);
  describes_locator : string_says s (area_byte (formatted_area s) 0x10) (if empty (md_locator d) then None else Some (md_locator d));
  describes_bank : string_field s 0x11 (md_bank_locator d);
  describes_type : md_type d = classify_memory_type (area_byte (formatted_area s) 0x12);
  describes_speed : recorded_speed (formatted_area s) unit 0x15 0x54 (md_speed d);
  describes_manufacturer : string_field s 0x17 (md_manufacturer d);
  describes_serial : string_field s 0x18 (md_serial_number d);
  describes_part : string_field s 0x1A (md_part_number d);
  describes_configured : recorded_speed (formatted_area s) unit 0x20 0x58 (md_configured_speed d)
}.

Lemma string_list_nil area : string_list area <> [].
Proof. destruct area as [|b area]; [done|]. cbn [string_list]. destruct (b =? 0); [done|]. by destruct (string_list area). Qed.

(** The first string and the rest. *)
Lemma string_list_first area first rest :
  Forall (fun b => b <> 0) first -> rest = [] \/ (exists after, rest = 0 :: after) -> area = first ++ rest ->
  string_list area = first :: match rest with [] => [] | _ :: after => string_list after end.
Proof.
  intros Hf Hr ->. induction Hf as [|b first Hb _ IH]; cbn [app string_list].
  - destruct Hr as [-> | [after ->]]; done.
  - rewrite (proj2 (Z.eqb_neq _ _)) by done. by rewrite IH.
Qed.

Section table.
Variable memory : list Z.
Hypothesis memory_bytes : Forall is_byte memory.

Definition view_ok (view : structure_view) : Prop :=
  (formatted view + formatted_size view <= length memory)%nat /\
  (strings view + strings_size view <= length memory)%nat.

(** The structure in view. *)
Definition viewed (view : structure_view) : structure :=
  Structure (take (formatted_size view) (drop (formatted view) memory)) (take (strings_size view) (drop (strings view) memory)).

Lemma viewed_length view : view_ok view -> length (formatted_area (viewed view)) = formatted_size view.
Proof. intros [Hv _]. cbn. rewrite length_take, length_drop. lia. Qed.

Lemma strings_length view : view_ok view -> length (strings_area (viewed view)) = strings_size view.
Proof. intros [_ Hv]. cbn. rewrite length_take, length_drop. lia. Qed.

Lemma load_byte_value pos :
  (pos < length memory)%nat -> ensures (load_byte memory pos) (fun b => b = area_byte memory pos /\ is_byte b).
Proof.
  intros Hp. unfold load_byte. destruct (lookup_lt_is_Some_2 memory pos Hp) as [b E]. rewrite E. simpl. split.
  - symmetry. by apply nth_lookup_Some.
  - by eapply Forall_lookup_1.
Qed.

Lemma area_byte_take_drop n pos i : (i < n)%nat -> area_byte (take n (drop pos memory)) i = area_byte memory (pos + i).
Proof. intros Hi. unfold area_byte. by rewrite !nth_lookup, lookup_take_lt, lookup_drop by done. Qed.

Lemma load_formatted view i :
  view_ok view -> (i < formatted_size view)%nat ->
  ensures (load_byte memory (formatted view + i)) (fun b => b = area_byte (formatted_area (viewed view)) i /\ is_byte b).
Proof. intros [Hv _] Hi. cbn [viewed formatted_area]. rewrite area_byte_take_drop by done. apply load_byte_value. lia. Qed.

Lemma read_word view i :
  view_ok view -> (i + 1 < formatted_size view)%nat ->
  ensures (read_le_u16 memory (formatted view + i))
    (fun v => v = area_word (formatted_area (viewed view)) i /\ 0 <= v < 2 ^ 16).
Proof.
  intros Hv Hi. unfold read_le_u16. rewrite <- Nat.add_assoc.
  eapply ensures_bind; [apply load_formatted; [done|lia]|]. intros b0 [-> H0].
  eapply ensures_bind; [apply load_formatted; [done|lia]|]. intros b1 [-> H1].
  cbn [mret checked_ret ensures]. rewrite le_u16_value by done. unfold area_word, is_byte in *. split; [done|lia].
Qed.

Lemma read_double_word view i :
  view_ok view -> (i + 3 < formatted_size view)%nat ->
  ensures (read_le_u32 memory (formatted view + i))
    (fun v => v = area_double_word (formatted_area (viewed view)) i /\ 0 <= v < 2 ^ 32).
Proof.
  intros Hv Hi. unfold read_le_u32. rewrite <- !Nat.add_assoc.
  eapply ensures_bind; [apply load_formatted; [done|lia]|]. intros b0 [-> H0].
  eapply ensures_bind; [apply load_formatted; [done|lia]|]. intros b1 [-> H1].
  eapply ensures_bind; [apply load_formatted; [done|lia]|]. intros b2 [-> H2].
  eapply ensures_bind; [apply load_formatted; [done|lia]|]. intros b3 [-> H3].
  cbn [mret checked_ret ensures]. rewrite le_u32_value by done. unfold is_byte in *. split; [|lia].
  unfold area_double_word, area_word. replace (i + 2 + 1)%nat with (i + 3)%nat by lia. lia.
Qed.

(** The end of the string that begins at [start]: its first zero, or the end of
    the strings. *)
Lemma string_end_ensures view fuel stop :
  view_ok view -> (stop <= strings_size view)%nat -> (strings_size view < fuel + stop)%nat ->
  ensures (string_end fuel memory view stop) (fun e => (stop <= e <= strings_size view)%nat /\
    (forall i, (stop <= i < e)%nat -> area_byte (strings_area (viewed view)) i <> 0) /\
    ((e < strings_size view)%nat -> area_byte (strings_area (viewed view)) e = 0)).
Proof.
  intros Hv. revert stop. induction fuel as [|fuel IH]; intros stop Hs Hf; [lia|].
  cbn [string_end]. destruct (Nat.ltb_spec stop (strings_size view)).
  2: { simpl. split; [lia|]. split; intros; lia. }
  eapply ensures_bind; [apply load_byte_value; destruct Hv; lia|]. intros b [Hb _].
  assert (b = area_byte (strings_area (viewed view)) stop) as -> by (cbn [viewed strings_area]; by rewrite area_byte_take_drop).
  destruct (Z.eqb_spec (area_byte (strings_area (viewed view)) stop) 0) as [Hz|Hz]; cbn [negb].
  { simpl. split; [lia|]. split; [intros; lia|done]. }
  specialize (IH (S stop) ltac:(lia) ltac:(lia)).
  destruct (string_end fuel memory view (S stop)) as [[e|e]|]; simpl in *; [|done..].
  destruct IH as (He & Hnz & Hend). split; [lia|]. split; [|done]. intros i Hi.
  destruct (decide (i = stop)) as [->|]; [done|]. apply Hnz. lia.
Qed.

Lemma string_list_drop area start stop :
  (start <= stop <= length area)%nat -> (forall i, (start <= i < stop)%nat -> area_byte area i <> 0) ->
  ((stop < length area)%nat -> area_byte area stop = 0) ->
  string_list (drop start area) = take (stop - start) (drop start area) ::
    (if (stop <? length area)%nat then string_list (drop (S stop) area) else []).
Proof.
  intros Hs Hnz Hend. erewrite (string_list_first _ (take (stop - start) (drop start area)) (drop stop area)).
  - f_equal. destruct (Nat.ltb_spec stop (length area)) as [Hl|Hl].
    + destruct (lookup_lt_is_Some_2 area stop Hl) as [b E]. by rewrite (drop_S _ _ _ E).
    + by rewrite drop_ge.
  - apply Forall_lookup. intros i b Hb. assert (i < stop - start)%nat as Hi.
    { apply lookup_lt_Some in Hb. rewrite length_take in Hb. lia. }
    rewrite lookup_take_lt, lookup_drop in Hb by done. apply (nth_lookup_Some _ _ 0) in Hb as <-. apply Hnz. lia.
  - destruct (Nat.ltb_spec stop (length area)) as [Hl|Hl]; [|left; by rewrite drop_ge].
    right. destruct (lookup_lt_is_Some_2 area stop Hl) as [b E]. exists (drop (S stop) area). rewrite (drop_S _ _ _ E).
    apply (nth_lookup_Some _ _ 0) in E. unfold area_byte in Hend. by rewrite <- E, Hend.
  - rewrite <- (take_drop (stop - start) (drop start area)) at 1. rewrite drop_drop. do 2 f_equal. lia.
Qed.

(** A text of the strings. *)
Definition text_of (bytes : list Z) : option text := match bytes with [] => None | _ => Some (char_of <$> bytes) end.

Lemma extract_loop_ensures view index fuel seen start :
  view_ok view -> (strings_size view < fuel + start)%nat -> (0 < fuel)%nat -> 1 <= seen <= index -> index < 256 ->
  ensures (extract_loop fuel memory view index seen start) (fun t => exists bytes,
    string_list (drop start (strings_area (viewed view))) !! Z.to_nat (index - seen) = Some bytes /\ t = text_of bytes).
Proof.
  intros Hv. pose proof (strings_length view Hv) as Hlen. revert seen start.
  induction fuel as [|fuel IH]; intros seen start Hf Hpos Hseen Hindex; [lia|].
  cbn [extract_loop]. destruct (Nat.leb_spec (strings_size view) start); [apply ensures_fail|].
  eapply ensures_bind; [apply string_end_ensures; [done|lia..]|]. intros stop (Hstop & Hnz & Hend).
  pose proof (string_list_drop (strings_area (viewed view)) start stop ltac:(lia) Hnz ltac:(by rewrite Hlen)) as Hlist.
  rewrite Hlist. destruct (Z.eqb_spec seen index) as [->|Hne].
  - rewrite Z.sub_diag. cbn [Z.to_nat lookup list_lookup].
    assert (take (stop - start) (drop start (strings_area (viewed view))) =
            take (stop - start) (drop (strings view + start) memory)) as Htake.
    { cbn [viewed strings_area]. rewrite skipn_firstn_comm, take_take, drop_drop. f_equal. lia. }
    destruct (Nat.ltb_spec start stop).
    + unfold load. rewrite (proj2 (Nat.leb_le _ _)) by (destruct Hv; lia). checked_step. cbn [ensures]. eexists. split; [reflexivity|].
      rewrite <- Htake. destruct (take (stop - start) (drop start (strings_area (viewed view)))) as [|b bytes] eqn:E; [|done].
      apply (f_equal length) in E. rewrite length_take, length_drop in E. cbn [length] in E. lia.
    + simpl. eexists. split; [reflexivity|]. by replace (stop - start)%nat with 0%nat by lia.
  - destruct (Nat.leb_spec (strings_size view) stop); [apply ensures_fail|].
    assert (wrap 8 (seen + 1) = seen + 1) as -> by (apply Z.mod_small; lia).
    rewrite Hlen, (proj2 (Nat.ltb_lt _ _)) by lia.
    replace (Z.to_nat (index - seen)) with (S (Z.to_nat (index - (seen + 1)))) by lia.
    apply IH; lia.
Qed.

Lemma store_string_ensures view index :
  view_ok view -> is_byte index ->
  ensures (store_string memory view index) (fun stored => exists t,
    string_says (viewed view) index t /\ t <> Some [] /\ stored = match t with Some v => (true, v) | None => (false, []) end).
Proof.
  intros Hv Hi. unfold is_byte in Hi. unfold store_string, extract_string, string_says.
  eapply (ensures_bind _ _ (fun t => string_says (viewed view) index t /\ t <> Some [])).
  - unfold string_says. destruct (Z.eqb_spec index 0); [done|].
    pose proof (extract_loop_ensures view index (S (strings_size view)) 1 0 Hv ltac:(lia) ltac:(lia) ltac:(lia) ltac:(lia)) as He.
    destruct (extract_loop _ _ _ _ _ _) as [[t|e]|]; [|done..]. simpl in He |- *. destruct He as (bytes & Hb & ->).
    split; [|by destruct bytes]. exists bytes. split; [|done]. rewrite <- Hb. f_equal. lia.
  - intros t [Ht Hne]. simpl. eauto.
Qed.

Lemma optional_string_ensures view offset :
  view_ok view -> (offset < formatted_size view)%nat ->
  ensures (optional_string memory view offset) (string_field (viewed view) offset).
Proof.
  intros Hv Ho. unfold optional_string, string_field. rewrite viewed_length, (proj2 (Nat.ltb_lt _ _)) by done.
  eapply ensures_bind; [by apply load_formatted|]. intros index [Hi Hb].
  eapply ensures_bind; [by apply store_string_ensures|]. intros stored (t & Ht & Hne & ->). rewrite <- Hi.
  destruct t as [[|c t]|]; [done|exact Ht..].
Qed.

Lemma later_string_ensures view offset :
  view_ok view -> ensures (later_string memory view (S offset) offset) (string_field (viewed view) offset).
Proof.
  intros Hv. unfold later_string. destruct (Nat.leb_spec (S offset) (formatted_size view)).
  - apply optional_string_ensures; [done|lia].
  - unfold string_field. by rewrite viewed_length, (proj2 (Nat.ltb_ge _ _)) by first [done|lia].
Qed.

Lemma land_bit v n : 0 <= n -> 0 <= v < 2 ^ (n + 1) -> Z.land v (2 ^ n) = 0 -> v < 2 ^ n.
Proof.
  intros Hn Hv Hl. apply Z.nle_gt. intros Hge.
  assert (Z.testbit v n = true) as Ht.
  { rewrite Z.testbit_true by done. rewrite Z.pow_add_r in Hv by lia.
    assert (v / 2 ^ n = 1) as -> by (symmetry; apply (Z.div_unique v (2 ^ n) 1 (v - 2 ^ n)); lia). done. }
  assert (Z.testbit (Z.land v (2 ^ n)) n = true) as Ht'
    by (by rewrite Z.land_spec, Ht, Z.pow2_bits_true).
  by rewrite Hl, Z.bits_0 in Ht'.
Qed.

Lemma land_bit_set v n : 0 <= n -> 0 <= v < 2 ^ n -> Z.land v (2 ^ n) = 0.
Proof.
  intros Hn Hv. apply Z.bits_inj_0. intros i. rewrite Z.land_spec, Z.pow2_bits_eqb by done.
  destruct (Z.eqb_spec n i) as [<-|]; [|by rewrite andb_false_r]. rewrite andb_true_r.
  destruct (Z.eq_dec v 0) as [->|]; [apply Z.bits_0|]. apply Z.bits_above_log2; [lia|]. apply Z.log2_lt_pow2; lia.
Qed.

Lemma device_size_ensures view :
  view_ok view -> (0x15 <= formatted_size view)%nat ->
  ensures (device_size memory view) (fun s => recorded_size (formatted_area (viewed view)) (fst s) (snd s)).
Proof.
  intros Hv Hlen. unfold device_size.
  eapply ensures_bind; [apply read_word; [done|lia]|]. intros raw [Hraw Hr]. symmetry in Hraw.
  destruct (Z.eqb_spec raw 0) as [->|]; [by apply Nothing_installed|]. destruct (Z.eqb_spec raw 0xFFFF) as [->|]; [by apply Size_unknown|].
  destruct (Z.eqb_spec raw 0x7FFF) as [->|].
  - apply ensures_reject. intros Hlong%Nat.ltb_ge.
    eapply ensures_bind; [apply read_double_word; [done|lia]|]. intros ext [Hext He]. symmetry in Hext.
    apply ensures_reject. intros [Hl%negb_false_iff%Z.eqb_eq Hz%Z.eqb_neq]%orb_false_iff. apply (land_bit ext 31) in Hl; [|lia..].
    cbn [mret checked_ret ensures fst snd]. unfold wrap. rewrite (Z.mod_small (ext * 1024)), Z.mod_small by lia.
    rewrite <- Z.mul_assoc. apply Extended_mebibytes; [done|by rewrite viewed_length|done|lia].
  - destruct (Z.eqb_spec (Z.land raw 0x8000) 0) as [Hl|Hl]; cbn [negb].
    + apply (land_bit raw 15) in Hl; [|lia..]. cbn [mret checked_ret ensures fst snd]. unfold wrap.
      rewrite (Z.mod_small (raw * 1024)), Z.mod_small by lia. rewrite <- Z.mul_assoc. apply Mebibytes; [done|lia].
    + cbv zeta. apply ensures_reject. change 0x7FFF with (Z.ones 15). rewrite Z.land_ones by lia.
      assert (2 ^ 15 <= raw) as Hge by (apply Z.nlt_ge; intros Hlt; apply Hl, (land_bit_set raw 15); lia).
      assert (raw mod 2 ^ 15 = raw - 2 ^ 15) as -> by (symmetry; apply (Z.mod_unique raw (2 ^ 15) 1); lia).
      intros Hz%Z.eqb_neq. cbn [mret checked_ret ensures fst snd]. unfold wrap. rewrite Z.mod_small by lia. apply Kibibytes; lia.
Qed.

Lemma device_speed_ensures view unit offset extended :
  view_ok view ->
  ensures (device_speed memory view unit (offset + 2) offset (extended + 4) extended)
    (recorded_speed (formatted_area (viewed view)) unit offset extended).
Proof.
  intros Hv. pose proof (viewed_length view Hv) as Hlen. unfold device_speed.
  destruct (Nat.leb_spec (offset + 2) (formatted_size view)); [|apply Speed_absent; lia].
  eapply ensures_bind; [apply read_word; [done|lia]|]. intros speed [Hspeed Hs]. symmetry in Hspeed.
  destruct (Z.eqb_spec speed 0) as [->|Hne]; [by apply Speed_unknown|].
  destruct (Z.eqb_spec speed 0xFFFF) as [->|]; cbn [negb andb]; [|apply Speed_here; [lia|done|lia]].
  destruct (Nat.leb_spec (extended + 4) (formatted_size view)); [|apply Extension_absent; [done|lia]].
  eapply ensures_bind; [apply read_double_word; [done|lia]|]. intros ext [Hext He]. symmetry in Hext.
  apply ensures_reject. intros Hl%negb_false_iff%Z.eqb_eq. apply (land_bit ext 31) in Hl; [|lia..].
  destruct (Z.eqb_spec ext 0) as [->|]; [by apply Extension_unknown|]. apply Speed_extended; [done|lia|done|lia].
Qed.

Lemma memory_device_of_ensures view unit :
  view_ok view -> ensures (memory_device_of memory view unit) (describes unit (viewed view)).
Proof.
  intros Hv. unfold memory_device_of.
  apply ensures_reject. intros Hl%Nat.ltb_ge.
  eapply ensures_bind; [apply load_formatted; [done|lia]|]. intros locator_index [Hi Hb].
  eapply ensures_bind; [by apply store_string_ensures|]. intros locator (t & Ht & Hne & ->). rewrite Hi in Ht.
  eapply ensures_bind; [apply optional_string_ensures; [done|lia]|]. intros bank Hbank.
  eapply ensures_bind; [by apply device_size_ensures|]. intros [state size] Hsize.
  eapply ensures_bind; [apply load_formatted; [done|lia]|]. intros form [-> _].
  eapply ensures_bind; [apply load_formatted; [done|lia]|]. intros type [-> _].
  eapply ensures_bind; [by apply (device_speed_ensures view unit 0x15 0x54)|]. intros speed Hspeed.
  eapply ensures_bind; [by apply later_string_ensures|]. intros manufacturer Hm.
  eapply ensures_bind; [by apply later_string_ensures|]. intros serial Hs.
  eapply ensures_bind; [by apply later_string_ensures|]. intros part Hp.
  eapply ensures_bind; [by apply (device_speed_ensures view unit 0x20 0x58)|]. intros configured Hc.
  constructor; cbn [md_state md_size_bytes md_form_factor md_locator md_bank_locator md_type md_speed md_manufacturer
    md_serial_number md_part_number md_configured_speed fst snd]; try done.
  - by rewrite viewed_length.
  - destruct t as [[|c t]|]; [done|exact Ht..].
Qed.

(** The end of the strings: the first two zeros, if they are in the table. *)
Lemma scan_terminator_ensures fuel size scan :
  (size <= length memory)%nat -> (size < fuel + scan)%nat -> (0 < fuel)%nat ->
  ensures (scan_terminator fuel memory size scan) (fun e => (scan <= e)%nat /\
    (forall i, (scan <= i < e)%nat -> area_byte memory i <> 0 \/ area_byte memory (S i) <> 0) /\
    ((e + 1 < size)%nat -> area_byte memory e = 0 /\ area_byte memory (S e) = 0)).
Proof.
  intros Hsize. revert scan. induction fuel as [|fuel IH]; intros scan Hf Hpos; [lia|].
  cbn [scan_terminator]. destruct (Nat.ltb_spec (scan + 1) size).
  2: { simpl. split; [lia|]. split; intros; lia. }
  assert (area_byte memory scan <> 0 \/ area_byte memory (S scan) <> 0 ->
    ensures (scan_terminator fuel memory size (S scan)) (fun e => (scan <= e)%nat /\
      (forall i, (scan <= i < e)%nat -> area_byte memory i <> 0 \/ area_byte memory (S i) <> 0) /\
      ((e + 1 < size)%nat -> area_byte memory e = 0 /\ area_byte memory (S e) = 0))) as Hnext.
  { intros Hnz. specialize (IH (S scan) ltac:(lia) ltac:(lia)).
    destruct (scan_terminator _ _ _ _) as [[e|e]|]; simpl in *; [|done..]. destruct IH as (He & Hb & Hend).
    split; [lia|]. split; [|done]. intros i Hi. destruct (decide (i = scan)) as [->|]; [done|]. apply Hb. lia. }
  eapply ensures_bind; [apply load_byte_value; lia|]. intros a [-> _].
  destruct (Z.eqb_spec (area_byte memory scan) 0); [|by apply Hnext; left].
  eapply ensures_bind; [apply load_byte_value; lia|]. intros b [-> _]. rewrite Nat.add_1_r.
  destruct (Z.eqb_spec (area_byte memory (S scan)) 0); [|by apply Hnext; right].
  simpl. split; [lia|]. split; [intros; lia|done].
Qed.

Lemma trailing_zeros_ensures fuel size index :
  (size <= length memory)%nat -> (size < fuel + index)%nat -> (0 < fuel)%nat ->
  ensures (trailing_zeros fuel memory size index) (fun _ => forall i, (index <= i < size)%nat -> area_byte memory i = 0).
Proof.
  intros Hsize. revert index. induction fuel as [|fuel IH]; intros index Hf Hpos; [lia|].
  cbn [trailing_zeros]. destruct (Nat.ltb_spec index size); [|simpl; intros; lia].
  eapply ensures_bind; [apply load_byte_value; lia|]. intros b [-> _].
  apply ensures_reject. intros Hz%negb_false_iff%Z.eqb_eq. specialize (IH (S index) ltac:(lia) ltac:(lia)).
  destruct (trailing_zeros _ _ _ _) as [[u|e]|]; simpl in *; [|done..]. intros i Hi.
  destruct (decide (i = index)) as [->|]; [done|]. apply IH. lia.
Qed.

(** The bytes of the structure in view, up to the two zeros after its strings. *)
Lemma viewed_bytes view stop :
  view_ok view -> strings view = (formatted view + formatted_size view)%nat -> stop = (strings view + strings_size view)%nat ->
  (stop + 2 <= length memory)%nat -> area_byte memory stop = 0 -> area_byte memory (S stop) = 0 ->
  drop (formatted view) memory = structure_bytes (viewed view) ++ drop (stop + 2) memory.
Proof.
  intros Hv Hs -> Hl H0 H1. unfold structure_bytes. cbn [viewed formatted_area strings_area].
  rewrite <- (take_drop (formatted_size view) (drop (formatted view) memory)) at 1. rewrite <- !app_assoc. f_equal.
  rewrite drop_drop, <- Hs. rewrite <- (take_drop (strings_size view) (drop (strings view) memory)) at 1. f_equal.
  rewrite drop_drop. unfold area_byte in H0, H1.
  destruct (lookup_lt_is_Some_2 memory (strings view + strings_size view) ltac:(lia)) as [a Ea].
  destruct (lookup_lt_is_Some_2 memory (S (strings view + strings_size view)) ltac:(lia)) as [b Eb].
  rewrite (drop_S _ _ _ Ea), (drop_S _ _ _ Eb). rewrite (nth_lookup_Some _ _ _ _ Ea) in H0.
  rewrite (nth_lookup_Some _ _ _ _ Eb) in H1. subst a b. cbn [app]. do 3 f_equal. lia.
Qed.

Lemma viewed_delimited view :
  view_ok view -> strings view = (formatted view + formatted_size view)%nat -> (4 <= formatted_size view)%nat ->
  area_byte memory (formatted view + 1) = Z.of_nat (formatted_size view) ->
  (forall i, (strings view <= i < strings view + strings_size view)%nat -> area_byte memory i <> 0 \/ area_byte memory (S i) <> 0) ->
  area_byte memory (strings view + strings_size view) = 0 ->
  delimited (viewed view).
Proof.
  intros Hv Hs Hfour Hlen Hnz Hend. unfold delimited. rewrite viewed_length, strings_length by done. cbn [viewed formatted_area strings_area].
  rewrite area_byte_take_drop by lia. split; [done|]. split; [done|]. intros i Hi. rewrite area_byte_take_drop by done.
  destruct (Hnz (strings view + i)%nat ltac:(lia)) as [Hb|Hb]; [by left|]. right.
  destruct (decide (S i < strings_size view)%nat) as [Hlt|Hge].
  - rewrite area_byte_take_drop by done. by rewrite Nat.add_succ_r.
  - destruct Hb. rewrite <- Hend. f_equal. lia.
Qed.

(** What the loop over the structures returns. *)
Definition loop_says (unit : memory_speed_unit) (size cursor : nat) (devices l : list memory_device) : Prop :=
  exists found, l = devices ++ found /\ (Z.of_nat size < 2 ^ 32 -> exists ss,
    table_says (drop cursor memory) ss /\
    Forall2 (describes unit) (List.filter (fun s => structure_type s =? 17) ss) found).

(** The view the loop makes at [cursor] when the strings end at [scan]. *)
Lemma view_at cursor recorded scan :
  (cursor + Z.to_nat recorded <= scan)%nat -> (scan + 2 <= length memory)%nat -> (4 <= Z.to_nat recorded)%nat ->
  recorded = area_byte memory (cursor + 1) ->
  (forall i, (cursor + Z.to_nat recorded <= i < scan)%nat -> area_byte memory i <> 0 \/ area_byte memory (S i) <> 0) ->
  area_byte memory scan = 0 -> area_byte memory (S scan) = 0 ->
  let n := Z.to_nat (wrap 32 (Z.of_nat (scan - (cursor + Z.to_nat recorded)))) in
  let view := Structure_view cursor (Z.to_nat recorded) (cursor + Z.to_nat recorded) n in
  view_ok view /\ structure_type (viewed view) = area_byte memory cursor /\ (cursor + Z.to_nat recorded + n <= scan)%nat /\
  (Z.of_nat (length memory) < 2 ^ 32 -> (cursor + Z.to_nat recorded + n)%nat = scan /\ delimited (viewed view) /\
    drop cursor memory = structure_bytes (viewed view) ++ drop (scan + 2) memory).
Proof.
  intros Hscan Hl Hfour Hrec Hnz Hz0 Hz1 n view.
  assert (n <= scan - (cursor + Z.to_nat recorded))%nat as Hle.
  { pose proof (Z.mod_le (Z.of_nat (scan - (cursor + Z.to_nat recorded))) (2 ^ 32) ltac:(lia) ltac:(lia)). unfold n, wrap. lia. }
  assert (view_ok view) as Hv by (split; simpl; lia). split; [done|]. split; [|split; [lia|]].
  { unfold structure_type. cbn [viewed view formatted_area formatted formatted_size].
    rewrite area_byte_take_drop by lia. by rewrite Nat.add_0_r. }
  intros Hs. assert (cursor + Z.to_nat recorded + n = scan)%nat as Hn by (unfold n, wrap; rewrite Z.mod_small by lia; lia).
  split; [done|]. split.
  - apply viewed_delimited; cbn [view formatted formatted_size strings strings_size]; [done|done|lia| |by rewrite Hn..].
    rewrite <- Hrec. lia.
  - apply (viewed_bytes view scan); [done|done|by rewrite <- Hn|lia|done|done].
Qed.

Lemma loop_says_end unit size cursor devices view scan :
  size = length memory -> (Z.of_nat size < 2 ^ 32 -> delimited (viewed view) /\
    drop cursor memory = structure_bytes (viewed view) ++ drop (scan + 2) memory) ->
  structure_type (viewed view) = 127 -> length (formatted_area (viewed view)) = 4%nat ->
  (forall i, (scan + 2 <= i < size)%nat -> area_byte memory i = 0) ->
  loop_says unit size cursor devices devices.
Proof.
  intros Hsize Hb Ht Hl Hz. exists []. split; [by rewrite app_nil_r|]. intros [Hd ->]%Hb. exists []. split; [|constructor].
  apply Table_end; try done. apply Forall_lookup. intros i b Hi. rewrite lookup_drop in Hi.
  pose proof (lookup_lt_Some _ _ _ Hi) as Hlt. apply (nth_lookup_Some _ _ 0) in Hi as <-. apply Hz. lia.
Qed.

Lemma loop_says_step unit size cursor next devices found l view :
  (Z.of_nat size < 2 ^ 32 -> delimited (viewed view) /\ drop cursor memory = structure_bytes (viewed view) ++ drop next memory) ->
  structure_type (viewed view) <> 127 ->
  Forall2 (describes unit) (List.filter (fun s => structure_type s =? 17) [viewed view]) found ->
  loop_says unit size next (devices ++ found) l -> loop_says unit size cursor devices l.
Proof.
  intros Hb Ht Hf (found' & -> & Hn). exists (found ++ found'). split; [by rewrite app_assoc|]. intros Hs.
  destruct (Hb Hs) as [Hd ->]. destruct (Hn Hs) as (ss & Hss & Hf'). exists (viewed view :: ss).
  split; [by apply Table_structure|]. change (viewed view :: ss) with ([viewed view] ++ ss). rewrite List.filter_app.
  by apply Forall2_app.
Qed.

Lemma structure_loop_ensures fuel size unit cursor devices :
  size = length memory -> (size < fuel + cursor)%nat -> (0 < fuel)%nat ->
  ensures (structure_loop fuel memory size unit cursor devices) (loop_says unit size cursor devices).
Proof.
  intros Hsize. revert cursor devices. induction fuel as [|fuel IH]; intros cursor devices Hf Hpos; [lia|].
  cbn [structure_loop]. destruct (Nat.ltb_spec cursor size); [|apply ensures_fail].
  apply ensures_reject. intros Hfour%Nat.ltb_ge.
  eapply ensures_bind; [apply load_byte_value; lia|]. intros type [Htype _].
  eapply ensures_bind; [apply load_byte_value; lia|]. intros recorded [Hrec _]. cbv zeta.
  apply ensures_reject. intros [Hlow%Nat.ltb_ge Hhigh%Nat.ltb_ge]%orb_false_iff.
  eapply ensures_bind; [apply scan_terminator_ensures; lia|]. intros scan (Hscan & Hnz & Hterm).
  apply ensures_reject. intros Hend%Nat.leb_gt. destruct (Hterm Hend) as [Hz0 Hz1].
  pose proof (view_at cursor recorded scan Hscan ltac:(lia) Hlow Hrec Hnz Hz0 Hz1) as Hview. cbv zeta in Hview.
  set (n := Z.to_nat (wrap 32 _)) in Hview |- *. set (view := Structure_view _ _ _ n) in Hview |- *.
  destruct Hview as (Hv & Hty & Hle & Hbytes). rewrite <- Hsize in Hbytes. rewrite <- Htype in Hty.
  destruct (Z.eqb_spec type 127) as [H127|H127].
  - apply ensures_reject. intros H4%negb_false_iff%Nat.eqb_eq.
    eapply ensures_bind; [apply trailing_zeros_ensures; lia|]. intros u Hzeros. cbn [mret checked_ret ensures].
    eapply (loop_says_end _ _ _ _ view); [done|by intros [_ Hb]%Hbytes|by rewrite Hty| |exact Hzeros]. by rewrite viewed_length.
  - eapply (ensures_bind _ _ (fun ds => exists found, ds = devices ++ found /\
      Forall2 (describes unit) (List.filter (fun s => structure_type s =? 17) [viewed view]) found)).
    + cbn [List.filter]. rewrite Hty. destruct (Z.eqb_spec type 17) as [|_].
      * eapply ensures_bind; [by apply memory_device_of_ensures|]. intros d Hok. exists [d]. split; [done|]. by constructor.
      * exists []. split; [by rewrite app_nil_r|constructor].
    + intros ds (found & -> & Hfound). specialize (IH (cursor + Z.to_nat recorded + n + 2)%nat (devices ++ found) ltac:(lia) ltac:(lia)).
      destruct (structure_loop _ _ _ _ _ _) as [[l|e]|]; [|done..]. simpl in IH |- *.
      eapply loop_says_step; [|by rewrite Hty|exact Hfound|exact IH]. intros Hs. destruct (Hbytes Hs) as (-> & Hd & Hb). done.
Qed.

End table.

(** The devices are those of the structures of type 17, sorted. *)
Definition devices_of_table (memory : list Z) (unit : memory_speed_unit) (devices : list memory_device) : Prop :=
  StronglySorted (not_after compare_memory_devices) devices /\
  (Z.of_nat (length memory) < 2 ^ 32 -> exists ss found, table_says memory ss /\
    Forall2 (describes unit) (List.filter (fun s => structure_type s =? 17) ss) found /\ devices ≡ₚ found).

Lemma parse_smbios_ensures (memory : list Z) (size : nat) (unit : memory_speed_unit) :
  Forall is_byte memory -> size = length memory ->
  ensures (parse_smbios_memory_devices memory size unit) (devices_of_table memory unit).
Proof.
  intros Hb Hsize. unfold parse_smbios_memory_devices.
  apply ensures_reject. intros _.
  eapply ensures_bind; [apply structure_loop_ensures; [done|done|lia..]|].
  intros devices (found & -> & Hf). cbn [app mret checked_ret ensures]. split.
  - apply (std_sort_key_sorted _ memory_key), compare_memory_devices_key.
  - rewrite Hsize in Hf. intros (ss & Hss & Hd)%Hf. exists ss, found. split; [done|]. split; [done|]. apply std_sort_permutation.
Qed.

(** Whatever the bytes of the table, the SMBIOS parser reads only inside
    it and ends, and the devices it returns are sorted and are those of the
    structures of the table. *)
Theorem smbios_memory_devices_safe (memory : list Z) (unit : memory_speed_unit) :
  Forall is_byte memory ->
  ensures (parse_smbios_memory_devices memory (length memory) unit) (devices_of_table memory unit).
Proof. intros Hb. by apply parse_smbios_ensures. Qed.

(** A table of one memory device of four gibibytes, without its optional
    fields, and the end marker. *)
Definition sample_table : list Z :=
  [17; 21; 0; 1; 0; 0; 0; 0; 0; 0; 0; 0; 0; 16; 9; 0; 1; 0; 26; 0; 0;
   68; 73; 77; 77; 0; 0;
   127; 4; 0; 2; 0; 0; 0; 0].

Lemma smbios_memory_devices_safe_witness :
  exists devices, parse_smbios_memory_devices sample_table 35 unit_unknown = Some (Value devices) /\
    devices = [Memory_device (lit "DIMM") None mds_installed (Some 4294967296) mff_proprietary mt_ddr4
                 None None None None None] /\ devices_of_table sample_table unit_unknown devices.
Proof.
  assert (Forall is_byte sample_table) as Hb by (unfold sample_table, is_byte; repeat constructor; lia).
  pose proof (smbios_memory_devices_safe sample_table unit_unknown Hb) as H. change (length sample_table) with 35%nat in H.
  destruct (parse_smbios_memory_devices sample_table 35 unit_unknown) as [[devices|e]|] eqn:E;
    [|vm_compute in E; discriminate E|destruct H].
  exists devices. split; [reflexivity|]. split; [|exact H].
  vm_compute in E. injection E as <-. reflexivity.
Defined.

(** ** UUID text *)

(** Thirty-two digits with the hyphens of the canonical form. *)
Definition hyphenated (cs : text) : text :=
  take 8 cs ++ "-"%char :: take 4 (drop 8 cs) ++ "-"%char :: take 4 (drop 12 cs) ++ "-"%char ::
  take 4 (drop 16 cs) ++ "-"%char :: drop 20 cs.

Definition hex_letter (c : ascii) : bool := 0 <=? hex_digit_value c.
Definition lowered (cs : text) : text := (fun c => lower_hex (hex_digit_value c)) <$> cs.
Definition all_digits (d : Z) (cs : text) : bool := forallb (fun c => hex_digit_value c =? d) cs.

(** A run of digits, at positions without hyphens. *)
Lemma uuid_loop_run cs rest position az aff out :
  (forall i, (i < length cs)%nat -> existsb (Nat.eqb (position + i)) hyphen_positions = false) ->
  uuid_loop (cs ++ rest) position az aff out =
  if forallb hex_letter cs
  then uuid_loop rest (position + length cs) (az && all_digits 0 cs) (aff && all_digits 0xF cs)
         (out ++ lowered cs)
  else fail errc_malformed_data.
Proof.
  revert position az aff out. induction cs as [|c cs IH]; intros position az aff out Hpos.
  - simpl. by rewrite Nat.add_0_r, !andb_true_r, app_nil_r.
  - cbn [app uuid_loop]. pose proof (Hpos 0%nat ltac:(simpl; lia)) as H0. rewrite Nat.add_0_r in H0.
    rewrite H0. cbv zeta. unfold all_digits, hex_letter, lowered in *. csimpl.
    rewrite (Z.ltb_antisym 0). destruct (Z.leb_spec 0 (hex_digit_value c)); cbn [negb andb]; [|done].
    rewrite IH.
    + destruct (forallb _ cs); [|done]. replace (S position + length cs)%nat with (position + S (length cs))%nat by lia.
      rewrite <- app_assoc. cbn [app]. unfold lower_hex.
      f_equal; [..|by destruct (hex_digit_value c <? 10)];
        [destruct (hex_digit_value c =? 0)|destruct (hex_digit_value c =? 0xF)]; cbn [negb andb];
        by rewrite ?andb_true_r, ?andb_false_r.
    + intros i Hi. rewrite Nat.add_succ_comm. apply Hpos. simpl. lia.
Qed.

Lemma uuid_loop_hyphen c rest position az aff out :
  existsb (Nat.eqb position) hyphen_positions = true ->
  uuid_loop (c :: rest) position az aff out =
  if is_char c "-" then uuid_loop rest (S position) az aff (out ++ ["-"%char])
  else fail errc_malformed_data.
Proof. intros H. cbn [uuid_loop]. rewrite H. by destruct (is_char c "-"). Qed.

(** The whole text, in its five groups. *)
Definition grouped (c1 c2 c3 c4 : ascii) (p1 p2 p3 p4 p5 : text) : text :=
  p1 ++ c1 :: p2 ++ c2 :: p3 ++ c3 :: p4 ++ c4 :: p5.

Definition hyphen : ascii := "-".

Lemma hyphenated_parts p1 p2 p3 p4 p5 :
  length p1 = 8%nat -> length p2 = 4%nat -> length p3 = 4%nat -> length p4 = 4%nat ->
  hyphenated (p1 ++ p2 ++ p3 ++ p4 ++ p5) = grouped hyphen hyphen hyphen hyphen p1 p2 p3 p4 p5.
Proof.
  intros H1 H2 H3 H4.
  do 8 (destruct p1 as [|? p1]; [done|]). destruct p1; [|done].
  do 4 (destruct p2 as [|? p2]; [done|]). destruct p2; [|done].
  do 4 (destruct p3 as [|? p3]; [done|]). destruct p3; [|done].
  do 4 (destruct p4 as [|? p4]; [done|]). destruct p4; [|done]. reflexivity.
Qed.

Lemma parts_of n (t : text) :
  (n < length t)%nat -> exists p c rest, t = p ++ c :: rest /\ length p = n /\ length rest = (length t - n - 1)%nat.
Proof.
  intros H. destruct (lookup_lt_is_Some_2 t n H) as [c Hc].
  exists (take n t), c, (drop (S n) t). split_and!.
  - symmetry. by apply take_drop_middle.
  - rewrite length_take. lia.
  - rewrite length_drop. lia.
Qed.

Lemma group_split (t : text) :
  length t = 36%nat -> exists c1 c2 c3 c4 p1 p2 p3 p4 p5, t = grouped c1 c2 c3 c4 p1 p2 p3 p4 p5 /\
    length p1 = 8%nat /\ length p2 = 4%nat /\ length p3 = 4%nat /\ length p4 = 4%nat /\ length p5 = 12%nat.
Proof.
  intros H. destruct (parts_of 8 t) as (p1 & c1 & t1 & -> & H1 & L1); [lia|].
  destruct (parts_of 4 t1) as (p2 & c2 & t2 & -> & H2 & L2); [lia|].
  destruct (parts_of 4 t2) as (p3 & c3 & t3 & -> & H3 & L3); [lia|].
  destruct (parts_of 4 t3) as (p4 & c4 & t4 & -> & H4 & L4); [lia|].
  exists c1, c2, c3, c4, p1, p2, p3, p4, t4. split_and!; [done|lia..].
Qed.

Lemma uuid_loop_grouped c1 c2 c3 c4 p1 p2 p3 p4 p5 :
  length p1 = 8%nat -> length p2 = 4%nat -> length p3 = 4%nat -> length p4 = 4%nat -> length p5 = 12%nat ->
  uuid_loop (grouped c1 c2 c3 c4 p1 p2 p3 p4 p5) 0 true true [] =
  let cs := p1 ++ p2 ++ p3 ++ p4 ++ p5 in
  if forallb hex_letter cs && forallb (fun c => is_char c "-") [c1; c2; c3; c4]
  then Value (all_digits 0 cs, all_digits 0xF cs, hyphenated (lowered cs))
  else fail errc_malformed_data.
Proof.
  intros H1 H2 H3 H4 H5. cbv zeta. unfold grouped.
  assert (forall q n i, (i < n)%nat -> forallb (fun i => negb (existsb (Nat.eqb (q + i)) hyphen_positions)) (seq 0 n) = true ->
    existsb (Nat.eqb (q + i)) hyphen_positions = false) as Hseq.
  { intros q n i Hi Hall. rewrite forallb_forall in Hall. apply negb_true_iff, Hall, in_seq. lia. }
  rewrite uuid_loop_run by (intros i Hi; apply (Hseq 0%nat 8%nat); [lia|reflexivity]).
  rewrite H1. cbn [Nat.add]. rewrite !forallb_app. destruct (forallb hex_letter p1); [|done].
  rewrite uuid_loop_hyphen by done. cbn [forallb]. destruct (is_char c1 "-"); [|by rewrite andb_false_r].
  rewrite uuid_loop_run by (intros i Hi; apply (Hseq 9%nat 4%nat); [lia|reflexivity]).
  rewrite H2. cbn [Nat.add]. destruct (forallb hex_letter p2); [|done].
  rewrite uuid_loop_hyphen by done. destruct (is_char c2 "-"); [|by rewrite andb_false_r].
  rewrite uuid_loop_run by (intros i Hi; apply (Hseq 14%nat 4%nat); [lia|reflexivity]).
  rewrite H3. cbn [Nat.add]. destruct (forallb hex_letter p3); [|done].
  rewrite uuid_loop_hyphen by done. destruct (is_char c3 "-"); [|by rewrite andb_false_r].
  rewrite uuid_loop_run by (intros i Hi; apply (Hseq 19%nat 4%nat); [lia|reflexivity]).
  rewrite H4. cbn [Nat.add]. destruct (forallb hex_letter p4); [|done].
  rewrite uuid_loop_hyphen by done. destruct (is_char c4 "-"); [|by rewrite andb_false_r].
  rewrite <- (app_nil_r p5) at 1.
  rewrite uuid_loop_run by (intros i Hi; apply (Hseq 24%nat 12%nat); [lia|reflexivity]).
  destruct (forallb hex_letter p5); [|done]. cbn [andb uuid_loop].
  assert (forall cs ds, lowered (cs ++ ds) = lowered cs ++ lowered ds) as Hlow by (intros; apply fmap_app).
  rewrite !Hlow, hyphenated_parts by (unfold lowered; by rewrite length_fmap).
  unfold all_digits, grouped, hyphen. rewrite !forallb_app. rewrite <- !app_assoc. cbn [app andb].
  by rewrite <- !andb_assoc.
Qed.

Lemma hex_letter_fixed v n : 0 <= v -> forallb hex_letter (fixed v n) = true /\ lowered (fixed v n) = fixed v n.
Proof.
  assert (forall d, 0 <= d < 16 -> hex_digit_value (lower_hex d) = d) as Hd.
  { intros d Hd. unfold hex_digit_value, lower_hex.
    rewrite code_char_of by (destruct (Z.ltb_spec d 10); lia). cbv zeta.
    repeat split_if; lia. }
  revert v. induction n as [|n IH]; intros v Hv; [done|]. cbn [fixed].
  assert (0 <= Z.land v 0xF < 16) as Hb.
  { change 0xF with (Z.ones 4). rewrite Z.land_ones by lia. by apply Z.mod_pos_bound. }
  destruct (IH (Z.shiftr v 4)) as [H1 H2]; [by apply Z.shiftr_nonneg|].
  rewrite forallb_app, H1. unfold lowered in *. rewrite fmap_app, H2. cbn [forallb andb]. csimpl.
  unfold hex_letter. rewrite (Hd _ Hb). split; [|done]. rewrite andb_true_r. apply Z.leb_le. lia.
Qed.

Lemma hex_letters v n : 0 <= v -> forallb hex_letter (fixed v n) = true.
Proof. apply hex_letter_fixed. Qed.

Lemma hex_lowered v n : 0 <= v -> lowered (fixed v n) = fixed v n.
Proof. apply hex_letter_fixed. Qed.

Lemma fixed_length v n : length (fixed v n) = n.
Proof. revert v. induction n as [|n IH]; intros v; [done|]. cbn [fixed]. rewrite length_app, IH. simpl. lia. Qed.

(** UUID text.  Thirty-two hexadecimal digits of either case in the
    hyphenated form are accepted and rewritten in lower case, except all zeros
    and all [F]s, which record no identifier; every other text is malformed.
    What [render_canonical_uuid] writes is in that form already. *)
Lemma validate_uuid_text_spec :
  (forall cs, length cs = 32%nat -> forallb hex_letter cs = true ->
     validate_uuid_text (Value (hyphenated cs)) =
     if all_digits 0 cs || all_digits 0xF cs then fail errc_not_found
     else Value (hyphenated (lowered cs))) /\
  (forall t, (~ exists cs, length cs = 32%nat /\ forallb hex_letter cs = true /\ t = hyphenated cs) ->
     validate_uuid_text (Value t) = fail errc_malformed_data) /\
  (forall time_low time_mid time_hi remaining,
     Forall (fun v => 0 <= v) ([time_low; time_mid; time_hi] ++ remaining) -> length remaining = 8%nat ->
     exists cs, render_canonical_uuid time_low time_mid time_hi remaining = hyphenated cs /\
       length cs = 32%nat /\ forallb hex_letter cs = true /\ lowered cs = cs).
Proof.
  split_and!.
  - intros cs Hlen Hhex. unfold validate_uuid_text.
    assert (exists p1 p2 p3 p4 p5, cs = p1 ++ p2 ++ p3 ++ p4 ++ p5 /\ length p1 = 8%nat /\
      length p2 = 4%nat /\ length p3 = 4%nat /\ length p4 = 4%nat /\ length p5 = 12%nat)
      as (p1 & p2 & p3 & p4 & p5 & -> & H1 & H2 & H3 & H4 & H5).
    { exists (take 8 cs), (take 4 (drop 8 cs)), (take 4 (drop 12 cs)), (take 4 (drop 16 cs)), (drop 20 cs).
      do 32 (destruct cs as [|? cs]; [done|]). destruct cs; [|done]. done. }
    rewrite hyphenated_parts by done. cbn [mbind result_bind].
    assert (length (grouped hyphen hyphen hyphen hyphen p1 p2 p3 p4 p5) = 36%nat) as ->.
    { unfold grouped. rewrite length_app. simpl. rewrite length_app. simpl.
      rewrite length_app. simpl. rewrite length_app. simpl. lia. }
    cbn [Nat.eqb negb reject mbind result_bind]. rewrite uuid_loop_grouped by done. cbv zeta.
    rewrite Hhex. cbn [andb forallb]. rewrite (proj2 (is_char_true hyphen "-") eq_refl).
    cbn [andb mbind result_bind]. by destruct (_ || _).
  - intros t Hno. unfold validate_uuid_text. cbn [mbind result_bind].
    destruct (Nat.eqb_spec (length t) 36) as [Hlen|]; [|done]. cbn [negb reject].
    destruct (group_split t Hlen)
      as (c1 & c2 & c3 & c4 & p1 & p2 & p3 & p4 & p5 & -> & H1 & H2 & H3 & H4 & H5).
    rewrite uuid_loop_grouped by done. cbv zeta. destruct (_ && _) eqn:E; [|done]. exfalso. apply Hno.
    apply andb_true_iff in E as [Hhex Hc]. exists (p1 ++ p2 ++ p3 ++ p4 ++ p5). split_and!; [|done|].
    + rewrite !length_app. lia.
    + rewrite hyphenated_parts by done. cbn [forallb] in Hc. rewrite !andb_true_iff, !is_char_true in Hc.
      by destruct Hc as (-> & -> & -> & -> & _).
  - intros tl tm th rem Hv Hlen. do 8 (destruct rem as [|? rem]; [done|]). destruct rem; [|done].
    rewrite !Forall_app, !Forall_cons in Hv.
    exists (fixed tl 8 ++ fixed tm 4 ++ fixed th 4 ++ (fixed z 2 ++ fixed z0 2) ++
            (fixed z1 2 ++ fixed z2 2 ++ fixed z3 2 ++ fixed z4 2 ++ fixed z5 2 ++ fixed z6 2)).
    assert (forall cs ds, lowered (cs ++ ds) = lowered cs ++ lowered ds) as Hlow by (intros; apply fmap_app).
    split_and!.
    + rewrite hyphenated_parts by (rewrite ?length_app, ?fixed_length; done).
      unfold render_canonical_uuid, grouped. cbn [nth]. csimpl. by rewrite ?app_nil_r, <- ?app_assoc.
    + rewrite !length_app, !fixed_length. done.
    + rewrite !forallb_app. by rewrite !hex_letters by tauto.
    + rewrite !Hlow. by rewrite !hex_lowered by tauto.
Qed.

