(* ===== verification/HardwareLinux.v ===== *)
(** * The Linux hardware backend

    [include/syscape/detail/hardware/linux.hpp] and the queries of
    [include/syscape/hardware.hpp]: the identity attributes of the firmware,
    the PCI and USB devices of sysfs and the memory devices of the firmware
    table.  [stat] and [readlink] are the class [HardwareKernel]. *)
From S2P Require Import Prelude Result CppText Order Utf8 Buffer System Float Hardware.

(** ** Parsers *)

Definition attribute_blank (c : ascii) : bool := is_char c " " || is_char c ch_tab || is_char c ch_cr || is_char c ch_lf.

Definition trim_attribute (v : text) : text := trim attribute_blank v.

Definition parse_number (input : text) : result Z :=
  let v := trim_attribute input in
  if empty v then fail errc_malformed_data
  else
    let outcome := from_chars_unsigned uint32_max 10 v in
    if negb (consumed outcome v) then fail errc_malformed_data else Value (fc_value outcome).

(** The digits behind an optional prefix. *)
Definition hex_digits (v : text) : text :=
  match v with
  | zero :: x :: rest => if is_char zero "0" && (is_char x "x" || is_char x "X") then rest else v
  | _ => v
  end.

Definition parse_hex_u32 (input : text) : result Z :=
  let v := hex_digits (trim_attribute input) in
  if empty v then fail errc_malformed_data
  else
    let outcome := from_chars_unsigned uint32_max 16 v in
    if negb (consumed outcome v) then fail errc_malformed_data else Value (fc_value outcome).

(** The variables of the loop of [parse_usb_speed_mbps]. *)
Record speed_state := Speed_state {
  whole : Z;
  fraction : Z;
  divisor : Z;
  saw_dot : bool;
  saw_digit : bool
}.

Definition speed_step (character : ascii) (s : speed_state) : result speed_state :=
  if is_char character "." && negb (saw_dot s) then
    Value (Speed_state (whole s) (fraction s) (divisor s) true (saw_digit s))
  else if (code character <? 48) || (57 <? code character) then fail errc_malformed_data
  else
    let digit := code character - 48 in
    if negb (saw_dot s) then
      if (uint64_max - digit) / 10 <? whole s then fail errc_value_too_large
      else Value (Speed_state (wrap 64 (whole s * 10 + digit)) (fraction s) (divisor s) (saw_dot s) true)
    else if (uint64_max / 10 <? divisor s) || ((uint64_max - digit) / 10 <? fraction s) then fail errc_value_too_large
    else Value (Speed_state (whole s) (wrap 64 (fraction s * 10 + digit)) (wrap 64 (divisor s * 10)) (saw_dot s) true).

Definition parse_usb_speed_mbps (input : text) : result (option double) :=
  let v := trim_attribute input in
  if empty v then fail errc_malformed_data
  else if same v (lit "unknown") then Value None
  else
    s ← fold_result speed_step v (Speed_state 0 0 1 false false);
    if negb (saw_digit s) || (saw_dot s && (divisor s =? 1)) then fail errc_malformed_data
    else Value (Some (double_add (to_double (whole s)) (double_div (to_double (fraction s)) (to_double (divisor s))))).

Definition parse_usb_port (input : text) : result (option Z) :=
  let v := trim_attribute input in
  if empty v then fail errc_malformed_data
  else
    let v := match rfind "." v with Some dot => substr_from (dot + 1) v | None => v end in
    parsed ← parse_number v;
    if parsed =? 0 then Value None
    else if 255 <? parsed then fail errc_malformed_data else Value (Some (wrap 8 parsed)).

Definition device_attribute_disappeared (e : error_code) : bool :=
  bool_decide (e = native_error ENOENT) || bool_decide (e = native_error ENODEV).

(** A field of an address: hexadecimal, whole, at most [limit]. *)
Definition bdf_field (field : text) (limit : Z) : option Z :=
  let r := from_chars_unsigned uint32_max 16 field in
  if negb (consumed r field) || (limit <? fc_value r) then None else Some (fc_value r).

(** [<domain>:<bus>:<device>.<function>] *)
Definition parse_pci_bdf (name : text) : option (Z * Z * Z * Z) :=
  first_colon ← find ":" name 0;
  guard (first_colon <> 0%nat);;
  second_colon ← find ":" name (first_colon + 1);
  dot ← find "." name (second_colon + 1);
  let domain_str := substr 0 first_colon name in
  let bus_str := substr (first_colon + 1) (second_colon - first_colon - 1) name in
  let dev_str := substr (second_colon + 1) (dot - second_colon - 1) name in
  let fn_str := substr_from (dot + 1) name in
  guard (forallb (fun t => negb (empty t)) [domain_str; bus_str; dev_str; fn_str] = true);;
  dom ← bdf_field domain_str 0xFFFF;
  b ← bdf_field bus_str 0xFF;
  d ← bdf_field dev_str 0x1F;
  f ← bdf_field fn_str 0x07;
  Some (wrap 16 dom, wrap 8 b, wrap 8 d, wrap 8 f).

(** A hexadecimal or decimal attribute with an upper bound. *)
Definition hex_up_to (limit : Z) (content : text) : result Z :=
  v ← parse_hex_u32 content;
  _ ← reject (limit <? v) errc_malformed_data;
  Value v.

Definition number_up_to (limit : Z) (content : text) : result Z :=
  v ← parse_number content;
  _ ← reject (limit <? v) errc_malformed_data;
  Value v.

Definition trimmed_text (content : text) : result (option text) :=
  let t := trim_attribute content in Value (if negb (empty t) then Some t else None).

(** The name behind the last slash of a link, if there is one. *)
Definition link_name (link : text) : option text :=
  let v := match rfind "/" link with Some last_slash => substr_from (last_slash + 1) link | None => link end in
  if negb (empty v) then Some v else None.

(** ** Queries *)

(** [stat]: [errno], or whether the file is a directory; [readlink]: [errno],
    or the target, of which the buffer takes the first 1023 bytes. *)
Class HardwareKernel (W : Type) := {
  stat_directory : text -> W -> (Z + bool) * W;
  read_link : text -> W -> (Z + text) * W
}.

Section hardware.
Context {W : Type} `{Kernel W} `{HardwareKernel W}.

Definition dmi_id_root : text := lit "/sys/class/dmi/id/".

Definition dmi_interface_present : query W bool := fun w =>
  match stat_directory dmi_id_root w with
  | (inl errno, w) => (if (errno =? ENOENT) || (errno =? ENOTDIR) then Value false else fail_native errno, w)
  | (inr is_directory, w) => (Value is_directory, w)
  end.

Definition read_attribute (attribute : text) : query W text :=
  content ← attempt (read_text_file (dmi_id_root ++ attribute) default_maximum_size);
  pure (match content with
        | Failure e => if bool_decide (e = native_error ENOENT) then fail errc_not_found else Failure e
        | Value content =>
            let trimmed := trim_attribute content in
            if empty trimmed then fail errc_not_found else Value trimmed
        end).

Definition read_dmi_attribute (attribute : string) : query W text :=
  present ← dmi_interface_present;
  if negb (present : bool) then pure (fail errc_not_supported) else read_attribute (lit attribute).

(** An identity query: the attribute, checked at the boundary. *)
Definition identity (attribute : string) : query W text :=
  v ← attempt (read_dmi_attribute attribute);
  pure (validate_identity_text v).

Definition system_manufacturer := identity "sys_vendor".
Definition system_product_name := identity "product_name".
Definition system_product_version := identity "product_version".
Definition motherboard_manufacturer := identity "board_vendor".
Definition motherboard_product_name := identity "board_name".
Definition motherboard_version := identity "board_version".
Definition firmware_vendor := identity "bios_vendor".
Definition firmware_version := identity "bios_version".
Definition firmware_release_date := identity "bios_date".

Definition chassis_form_factor : query W form_factor :=
  rendered ← read_dmi_attribute "chassis_type";
  pure (recorded ← parse_number rendered;
        _ ← reject (255 <? recorded) errc_malformed_data;
        classify_chassis (wrap 8 recorded)).

Definition hardware_uuid : query W text :=
  v ← attempt (read_dmi_attribute "product_uuid");
  pure (validate_uuid_text v).

(** *** Devices *)

(** An attribute that may have disappeared. *)
Definition if_present {A} (path : text) (parse : text -> result A) : query W (option A) :=
  content ← attempt (read_text_file path default_maximum_size);
  match content with
  | Value content => v ← pure (parse content); mret (Some v)
  | Failure e => if device_attribute_disappeared e then mret None else pure (Failure e)
  end.

(** [dev.driver]: the target of the link, in a buffer of 1023 bytes. *)
Definition read_driver (path : text) : query W (option text) := fun w =>
  match read_link path w with
  | (inr target, w) =>
      let link := take 1023 target in
      (if (0 <? length link)%nat then
         if (length link =? 1023)%nat then fail errc_value_too_large else Value (link_name link)
       else Value None, w)
  | (inl errno, w) =>
      (if negb ((errno =? ENOENT) || (errno =? ENODEV) || (errno =? EINVAL)) then fail_native errno else Value None, w)
  end.

(** The loop body behind the address; [None] skips the device. *)
Definition read_pci_device (dev_path : text) (domain bus device function : Z) : query W (option pci_device) :=
  vendor ← if_present (dev_path ++ lit "/vendor") (hex_up_to 0xFFFF);
  match vendor with
  | None => mret None
  | Some vendor_val =>
      device_id ← if_present (dev_path ++ lit "/device") (hex_up_to 0xFFFF);
      match device_id with
      | None => mret None
      | Some device_val =>
          class ← if_present (dev_path ++ lit "/class") (hex_up_to 0xFFFFFF);
          match class with
          | None => mret None
          | Some class_val =>
              let base_class := Z.land (Z.shiftr class_val 16) 0xFF in
              subsystem_vendor ← if_present (dev_path ++ lit "/subsystem_vendor") (hex_up_to 0xFFFF);
              subsystem_device ← if_present (dev_path ++ lit "/subsystem_device") (hex_up_to 0xFFFF);
              driver ← read_driver (dev_path ++ lit "/driver");
              mret (Some (Pci_device (Some domain) (Some bus) (Some device) (Some function) vendor_val device_val
                subsystem_vendor subsystem_device (Some base_class) (Some (Z.land (Z.shiftr class_val 8) 0xFF))
                (Some (Z.land class_val 0xFF)) (classify_pci_class base_class) driver None))
          end
      end
  end.

Definition hidden_name (name : text) : bool := match name with c :: _ => is_char c "." | [] => false end.

Definition visit_pci (pci_dir_path name : text) : query W (option pci_device) :=
  if hidden_name name then mret None
  else
    match parse_pci_bdf name with
    | None => mret None
    | Some (domain, bus, device, function) =>
        read_pci_device (pci_dir_path ++ "/"%char :: name) domain bus device function
    end.

Definition read_usb_device (dev_path : text) : query W (option usb_device) :=
  vendor ← if_present (dev_path ++ lit "/idVendor") (hex_up_to 0xFFFF);
  match vendor with
  | None => mret None
  | Some vendor_val =>
      product_id ← if_present (dev_path ++ lit "/idProduct") (hex_up_to 0xFFFF);
      match product_id with
      | None => mret None
      | Some product_val =>
          bus ← if_present (dev_path ++ lit "/busnum") (number_up_to 255);
          address ← if_present (dev_path ++ lit "/devnum") (number_up_to 127);
          port ← if_present (dev_path ++ lit "/devpath") parse_usb_port;
          bcd ← if_present (dev_path ++ lit "/bcdDevice") (hex_up_to 0xFFFF);
          class ← if_present (dev_path ++ lit "/bDeviceClass") (hex_up_to 0xFF);
          subclass ← if_present (dev_path ++ lit "/bDeviceSubClass") (hex_up_to 0xFF);
          protocol ← if_present (dev_path ++ lit "/bDeviceProtocol") (hex_up_to 0xFF);
          manufacturer ← if_present (dev_path ++ lit "/manufacturer") trimmed_text;
          product ← if_present (dev_path ++ lit "/product") trimmed_text;
          serial ← if_present (dev_path ++ lit "/serial") trimmed_text;
          speed ← if_present (dev_path ++ lit "/speed") parse_usb_speed_mbps;
          mret (Some (Usb_device bus address (mjoin port) vendor_val product_val bcd class subclass protocol
            (mjoin manufacturer) (mjoin product) (mjoin serial) (mjoin speed)))
      end
  end.

Definition visit_usb (usb_dir_path name : text) : query W (option usb_device) :=
  if hidden_name name then mret None
  else if bool_decide (find ":" name 0 <> None) then mret None
  else read_usb_device (usb_dir_path ++ "/"%char :: name).

(** The loop over the names of a directory. *)
Fixpoint device_loop {A} (visit : text -> query W (option A)) (names : list text) (result_devices : list A) : query W (list A) :=
  match names with
  | [] => mret result_devices
  | name :: names =>
      dev ← visit name;
      device_loop visit names (match dev with Some dev => result_devices ++ [dev] | None => result_devices end)
  end.

Definition devices_in {A} (visit : text -> query W (option A)) (less : A -> A -> bool) (dir_path : text) : query W (list A) := fun w =>
  match list_directory dir_path w with
  | (inl errno, w) => (if (errno =? ENOENT) || (errno =? ENOTDIR) then fail errc_not_supported else fail_native errno, w)
  | (inr (names, errno), w) =>
      (result_devices ← device_loop visit names [];
       if negb (errno =? 0) then pure (fail_native errno) else mret (std_sort less result_devices)) w
  end.

Definition pci_dir_path : text := lit "/sys/bus/pci/devices".

Definition usb_dir_path : text := lit "/sys/bus/usb/devices".

Definition pci_devices_backend : query W (list pci_device) := devices_in (visit_pci pci_dir_path) compare_pci_devices pci_dir_path.

Definition usb_devices_backend : query W (list usb_device) := devices_in (visit_usb usb_dir_path) compare_usb_devices usb_dir_path.

Definition pci_devices : query W (list pci_device) :=
  devices ← attempt pci_devices_backend;
  pure (validate_pci_devices devices).

Definition usb_devices : query W (list usb_device) :=
  devices ← attempt usb_devices_backend;
  pure (validate_usb_devices devices).

(** The firmware table, whose bytes are those of the file.  [None] is an access
    outside of it. *)
Definition memory_devices_backend (w : W) : checked (list memory_device) * W :=
  match read_text_file (lit "/sys/firmware/dmi/tables/DMI") (4 * 1024 * 1024) w with
  | (Failure e, w) =>
      (Some (if bool_decide (e = native_error ENOENT) || bool_decide (e = native_error ENODEV) then fail errc_not_supported
             else Failure e), w)
  | (Value table, w) => (parse_smbios_memory_devices (code <$> table) (length table) unit_unknown, w)
  end.

Definition memory_devices (w : W) : checked (list memory_device) * W :=
  let '(devices, w) := memory_devices_backend w in (validate_memory_devices <$> devices, w).

End hardware.

(** ** The address of a PCI device *)

Lemma find_from c l pos : find c l pos = (fun i => pos + i)%nat <$> find c (drop pos l) 0.
Proof. unfold find. rewrite drop_0. by destruct (find_first _ _). Qed.

Lemma bdf_field_some field limit v :
  limit <= uint32_max ->
  bdf_field field limit = Some v <-> numeric 16 field = true /\ numeral 16 field = v /\ v <= limit.
Proof.
  intros Hl. unfold bdf_field. destruct (consumed (from_chars_unsigned uint32_max 16 field) field) eqn:C.
  - rewrite (consumed_value _ _ _ C). apply consumed_unsigned in C as [Hn Hb]. cbn [negb orb].
    destruct (Z.ltb_spec limit (numeral 16 field)); split.
    + done.
    + intros (_ & <- & ?). lia.
    + by intros [= <-].
    + by intros (_ & -> & _).
  - split; [done|]. intros (Hn & <- & Hb). rewrite (proj2 (consumed_unsigned uint32_max 16 field)) in C; [done|]. split; [done|lia].
Qed.

(** Four hexadecimal fields with their separators and bounds. *)
Definition bdf_denotes (name : text) (address : Z * Z * Z * Z) : Prop :=
  exists t1 t2 t3 t4, name = t1 ++ ":"%char :: t2 ++ ":"%char :: t3 ++ "."%char :: t4 /\
    Forall (fun t => numeric 16 t = true) [t1; t2; t3; t4] /\
    numeral 16 t1 <= 0xFFFF /\ numeral 16 t2 <= 0xFF /\ numeral 16 t3 <= 0x1F /\ numeral 16 t4 <= 0x07 /\
    address = (numeral 16 t1, numeral 16 t2, numeral 16 t3, numeral 16 t4).

Lemma hex_no_char c l : numeric 16 l = true -> is_digit_in 16 c = false -> c ∉ l.
Proof.
  intros [_ Hd]%numeric_split Hc Hin. rewrite forallb_forall in Hd. apply list_elem_of_In, Hd in Hin. congruence.
Qed.

Lemma numeric_ne base t : numeric base t = true -> t <> [].
Proof. by intros [? _]%numeric_split. Qed.

Lemma wrap_numeral k t limit : numeral 16 t <= limit -> limit < 2 ^ k -> wrap k (numeral 16 t) = numeral 16 t.
Proof. intros Hl Hk. pose proof (numeral_nonneg 16 t ltac:(lia)). unfold wrap. apply Z.mod_small. lia. Qed.

Lemma parse_pci_bdf_sound name address : parse_pci_bdf name = Some address -> bdf_denotes name address.
Proof.
  unfold parse_pci_bdf, bdf_denotes.
  destruct (find ":" name 0) as [i|] eqn:E1; [|done]. apply find_split in E1 as (H1 & _ & L1). cbn [mbind option_bind].
  case_guard; [|done]. cbn [mbind option_bind]. rewrite Nat.add_1_r, find_from. set (rest1 := substr_from (S i) name) in *.
  change (drop (S i) name) with rest1. destruct (find ":" rest1 0) as [j|] eqn:E2; [|done]. apply find_split in E2 as (H2 & _ & L2).
  cbn [fmap option_fmap option_map mbind option_bind]. replace (S i + j + 1)%nat with (S i + S j)%nat by lia.
  rewrite find_from. rewrite <- drop_drop. change (drop (S i) name) with rest1. set (rest2 := substr_from (S j) rest1) in *.
  change (drop (S j) rest1) with rest2. destruct (find "." rest2 0) as [k|] eqn:E3; [|done]. apply find_split in E3 as (H3 & _ & L3).
  cbn [fmap option_fmap option_map mbind option_bind].
  replace (substr (S i) (S i + j - i - 1) name) with (substr 0 j rest1)
    by (unfold substr, rest1, substr_from; rewrite drop_0; f_equal; lia).
  replace (substr (S i + S j) (S i + S j + k - (S i + j) - 1) name) with (substr 0 k rest2)
    by (unfold substr, rest2, rest1, substr_from; rewrite drop_0, drop_drop; f_equal; lia).
  replace (substr_from (S i + S j + k + 1) name) with (substr_from (S k) rest2)
    by (unfold rest2, rest1, substr_from; rewrite !drop_drop; f_equal; lia).
  case_guard; [|done]. cbn [mbind option_bind].
  destruct (bdf_field (substr 0 i name) _) as [dom|] eqn:F1; [|done]. destruct (bdf_field (substr 0 j rest1) _) as [b|] eqn:F2; [|done].
  destruct (bdf_field (substr 0 k rest2) _) as [d|] eqn:F3; [|done]. destruct (bdf_field (substr_from (S k) rest2) _) as [f|] eqn:F4; [|done].
  apply bdf_field_some in F1 as (N1 & <- & B1), F2 as (N2 & <- & B2), F3 as (N3 & <- & B3), F4 as (N4 & <- & B4);
    [|by vm_compute..]. intros Heq. apply (inj Some) in Heq as <-.
  exists (substr 0 i name), (substr 0 j rest1), (substr 0 k rest2), (substr_from (S k) rest2).
  rewrite (wrap_numeral 16 _ _ B1), (wrap_numeral 8 _ _ B2), (wrap_numeral 8 _ _ B3), (wrap_numeral 8 _ _ B4) by done.
  rewrite <- H3, <- H2, <- H1. split; [done|]. split; [by repeat constructor|done].
Qed.

Lemma parse_pci_bdf_complete name address : bdf_denotes name address -> parse_pci_bdf name = Some address.
Proof.
  unfold parse_pci_bdf, bdf_denotes.
  intros (t1 & t2 & t3 & t4 & -> & Hn & B1 & B2 & B3 & B4 & ->).
  apply Forall_cons in Hn as [N1 Hn]. apply Forall_cons in Hn as [N2 Hn]. apply Forall_cons in Hn as [N3 Hn].
  apply Forall_cons in Hn as [N4 _]. set (rest2 := t3 ++ "."%char :: t4). set (rest1 := t2 ++ ":"%char :: rest2).
  destruct (find_app_parts ":" t1 rest1 (hex_no_char ":" t1 N1 eq_refl)) as (-> & S1 & R1). cbn [mbind option_bind].
  rewrite option_guard_True by (intros Hz%nil_length_inv; by apply numeric_ne in N1).
  rewrite Nat.add_1_r, find_from. change (drop (S (length t1)) ?l) with (substr_from (S (length t1)) l). rewrite R1.
  destruct (find_app_parts ":" t2 rest2 (hex_no_char ":" t2 N2 eq_refl)) as (E2 & S2 & R2). fold rest1 in E2, S2, R2. rewrite E2.
  cbn [fmap option_fmap option_map mbind option_bind]. replace (S (length t1) + length t2 + 1)%nat with (S (length t1) + S (length t2))%nat by lia.
  assert (drop (S (length t1) + S (length t2)) (t1 ++ ":"%char :: rest1) = rest2) as D2.
  { rewrite <- drop_drop. change (drop (S (length t1)) ?l) with (substr_from (S (length t1)) l). rewrite R1. exact R2. }
  rewrite find_from, D2.
  destruct (find_app_parts "." t3 t4 (hex_no_char "." t3 N3 eq_refl)) as (E3 & S3 & R3). fold rest2 in E3, S3, R3. rewrite E3.
  cbn [fmap option_fmap option_map mbind option_bind].
  assert (substr (S (length t1)) (S (length t1) + length t2 - length t1 - 1) (t1 ++ ":"%char :: rest1) = t2) as ->.
  { unfold substr in *. change (drop (S (length t1)) ?l) with (substr_from (S (length t1)) l). rewrite R1. rewrite drop_0 in S2.
    by replace (S (length t1) + length t2 - length t1 - 1)%nat with (length t2) by lia. }
  assert (substr (S (length t1) + S (length t2)) (S (length t1) + S (length t2) + length t3 - (S (length t1) + length t2) - 1)
    (t1 ++ ":"%char :: rest1) = t3) as ->.
  { unfold substr in *. rewrite D2. rewrite drop_0 in S3.
    by replace (S (length t1) + S (length t2) + length t3 - (S (length t1) + length t2) - 1)%nat with (length t3) by lia. }
  assert (substr_from (S (length t1) + S (length t2) + length t3 + 1) (t1 ++ ":"%char :: rest1) = t4) as ->.
  { unfold substr_from in *. replace (S (length t1) + S (length t2) + length t3 + 1)%nat
      with ((S (length t1) + S (length t2)) + S (length t3))%nat by lia. by rewrite <- drop_drop, D2. }
  rewrite S1. cbn [forallb]. rewrite !(proj2 (empty_false _)) by (by eapply numeric_ne). cbn [negb andb].
  rewrite option_guard_True by done. cbn [mbind option_bind].
  rewrite (proj2 (bdf_field_some t1 0xFFFF _ ltac:(done)) (conj N1 (conj eq_refl B1))). cbn [mbind option_bind].
  rewrite (proj2 (bdf_field_some t2 0xFF _ ltac:(done)) (conj N2 (conj eq_refl B2))). cbn [mbind option_bind].
  rewrite (proj2 (bdf_field_some t3 0x1F _ ltac:(done)) (conj N3 (conj eq_refl B3))). cbn [mbind option_bind].
  rewrite (proj2 (bdf_field_some t4 0x07 _ ltac:(done)) (conj N4 (conj eq_refl B4))). cbn [mbind option_bind].
  by rewrite (wrap_numeral 16 _ _ B1), (wrap_numeral 8 _ _ B2), (wrap_numeral 8 _ _ B3), (wrap_numeral 8 _ _ B4) by done.
Qed.

(** ** The speed of a USB device *)

Definition all_decimal (t : text) : Prop := Forall (fun c => 48 <= code c <= 57) t.

(** A decimal number with an optional fraction of at most nineteen digits,
    whole part and fraction within 64 bits. *)
Definition speed_denotes (v : text) (d : double) : Prop :=
  exists w f, (v = w /\ w <> [] /\ f = [] \/ v = w ++ "."%char :: f /\ f <> []) /\ all_decimal w /\ all_decimal f /\
    (length f <= 19)%nat /\ numeral 10 w <= uint64_max /\ numeral 10 f <= uint64_max /\
    d = double_add (to_double (numeral 10 w)) (double_div (to_double (numeral 10 f)) (to_double (10 ^ Z.of_nat (length f)))).

Lemma digit_value c : 48 <= code c <= 57 -> digit_of 10 c = Some (code c - 48).
Proof.
  intros Hc. unfold digit_of. rewrite (proj2 (Z.leb_le 48 _)), (proj2 (Z.leb_le _ 57)) by lia. cbn [andb].
  by rewrite (proj2 (Z.ltb_lt _ 10)) by lia.
Qed.

(** The value of digits behind a value. *)
Definition value_after (acc : Z) (t : text) : Z := acc * 10 ^ Z.of_nat (length t) + numeral 10 t.

Lemma numeral_cons c t : 48 <= code c <= 57 -> all_decimal t -> numeral 10 (c :: t) = (code c - 48) * 10 ^ Z.of_nat (length t) + numeral 10 t.
Proof.
  intros Hc Ht. unfold numeral. cbn [digit_run]. rewrite (digit_value c Hc).
  change ((code c - 48) :: digit_run 10 t) with ([code c - 48] ++ digit_run 10 t). rewrite digits_value_app.
  assert (length (digit_run 10 t) = length t) as ->.
  { apply digit_run_numeric, forallb_true. eapply Forall_impl; [exact Ht|]. intros d Hd. unfold is_digit_in. by rewrite (digit_value d Hd). }
  unfold digits_value at 1. cbn [foldl]. lia.
Qed.

Lemma value_after_cons acc c t :
  48 <= code c <= 57 -> all_decimal t -> value_after acc (c :: t) = value_after (acc * 10 + (code c - 48)) t.
Proof.
  intros Hc Ht. unfold value_after. rewrite numeral_cons by done. cbn [length]. rewrite Nat2Z.inj_succ, Z.pow_succ_r by lia. lia.
Qed.

Lemma value_after_grows acc t : 0 <= acc -> acc <= value_after acc t.
Proof.
  intros Ha. unfold value_after. pose proof (numeral_nonneg 10 t ltac:(lia)).
  assert (0 < 10 ^ Z.of_nat (length t)) by (apply Z.pow_pos_nonneg; lia). nia.
Qed.

Lemma decimal_step v digit : 0 <= digit <= 9 -> 0 <= v -> (((uint64_max - digit) / 10 <? v) = false <-> v * 10 + digit <= uint64_max).
Proof.
  intros Hd Hv. rewrite Z.ltb_ge. split; intros Hle.
  - pose proof (Z.mul_div_le (uint64_max - digit) 10 ltac:(lia)). lia.
  - apply Z.div_le_lower_bound; lia.
Qed.

Lemma is_point c : is_char c "." = true -> code c = 46.
Proof. by intros ->%is_char_true. Qed.

Lemma decimal_range c : (code c <? 48) || (57 <? code c) = false <-> 48 <= code c <= 57.
Proof. rewrite orb_false_iff, !Z.ltb_ge. lia. Qed.

Lemma fraction_step c w f d seen :
  speed_step c (Speed_state w f d true seen) =
  if (code c <? 48) || (57 <? code c) then fail errc_malformed_data
  else if (uint64_max / 10 <? d) || ((uint64_max - (code c - 48)) / 10 <? f) then fail errc_value_too_large
  else Value (Speed_state w (wrap 64 (f * 10 + (code c - 48))) (wrap 64 (d * 10)) true true).
Proof. unfold speed_step. cbn [saw_dot negb whole fraction divisor saw_digit]. by rewrite andb_false_r. Qed.

Lemma whole_step c w f d seen :
  c <> "."%char ->
  speed_step c (Speed_state w f d false seen) =
  if (code c <? 48) || (57 <? code c) then fail errc_malformed_data
  else if (uint64_max - (code c - 48)) / 10 <? w then fail errc_value_too_large
  else Value (Speed_state (wrap 64 (w * 10 + (code c - 48))) f d false true).
Proof. intros Hc%is_char_false. unfold speed_step. by rewrite Hc. Qed.

(** The digits behind the point. *)
Lemma fraction_run t w f d seen s :
  0 <= f <= uint64_max -> 0 < d <= uint64_max ->
  fold_result speed_step t (Speed_state w f d true seen) = Value s <->
  all_decimal t /\ value_after f t <= uint64_max /\ (t <> [] -> d * 10 ^ Z.of_nat (length t) <= uint64_max) /\
  s = Speed_state w (value_after f t) (d * 10 ^ Z.of_nat (length t)) true (seen || negb (empty t)).
Proof.
  revert f d seen. induction t as [|c t IH]; intros f d seen Hf Hd; cbn [fold_result].
  { unfold value_after. cbn [length]. change (numeral 10 []) with 0. rewrite Z.pow_0_r, !Z.mul_1_r, Z.add_0_r, orb_false_r. split.
    - intros [= <-]. split; [constructor|]. split; [lia|]. by split.
    - by intros (_ & _ & _ & ->). }
  rewrite fraction_step.
  destruct ((code c <? 48) || (57 <? code c)) eqn:Ec.
  { split; [done|]. intros (Hall & _). apply Forall_cons in Hall as [Hc%decimal_range _]. congruence. }
  apply decimal_range in Ec. pose proof (decimal_step f (code c - 48) ltac:(lia) ltac:(lia)) as Hfs.
  destruct (Z.ltb_spec (uint64_max / 10) d) as [Hbig|Hsmall]; cbn [orb].
  { split; [done|]. intros (_ & _ & Hlen & _). exfalso. specialize (Hlen ltac:(done)). cbn [length] in Hlen.
    rewrite Nat2Z.inj_succ, Z.pow_succ_r in Hlen by lia.
    assert (d * 10 <= uint64_max) as Hd10 by (assert (0 < 10 ^ Z.of_nat (length t)) by (apply Z.pow_pos_nonneg; lia); nia).
    apply (Z.div_le_mono _ _ 10) in Hd10; [|lia]. rewrite Z.div_mul in Hd10; lia. }
  assert (d * 10 <= uint64_max) as Hd10 by (pose proof (Z.mul_div_le uint64_max 10 ltac:(lia)); lia).
  destruct ((uint64_max - (code c - 48)) / 10 <? f) eqn:Ef.
  { split; [done|]. intros (Hall & Hv & _). apply Forall_cons in Hall as [_ Hall]. rewrite value_after_cons in Hv by done.
    pose proof (value_after_grows (f * 10 + (code c - 48)) t ltac:(lia)). discriminate (proj2 Hfs ltac:(lia)). }
  pose proof (proj1 Hfs eq_refl). cbn [mbind result_bind]. unfold wrap. rewrite !Z.mod_small by (unfold uint64_max in *; lia). rewrite IH by lia.
  cbn [length empty negb]. rewrite orb_true_r, Nat2Z.inj_succ, Z.pow_succ_r by lia. cbn [orb]. unfold all_decimal. rewrite Forall_cons.
  replace (d * 10 * 10 ^ Z.of_nat (length t)) with (d * (10 * 10 ^ Z.of_nat (length t))) by ring. split.
  - intros (Hall & Hv & Hl & ->). rewrite value_after_cons by done. split; [done|]. split; [done|]. split; [|done].
    intros _. destruct t; [cbn [length]; rewrite Z.pow_0_r; lia|by apply Hl].
  - intros ([_ Hall] & Hv & Hl & ->). rewrite value_after_cons in * by done. split; [done|]. split; [done|]. split; [|done].
    intros _. by apply Hl.
Qed.

(** The digits in front of it. *)
Lemma whole_run t rest w f d seen s :
  ("."%char ∉ t) -> 0 <= w <= uint64_max ->
  fold_result speed_step (t ++ rest) (Speed_state w f d false seen) = Value s <->
  all_decimal t /\ value_after w t <= uint64_max /\
  fold_result speed_step rest (Speed_state (value_after w t) f d false (seen || negb (empty t))) = Value s.
Proof.
  revert w seen. induction t as [|c t IH]; intros w seen Hp Hw; cbn [app fold_result].
  { unfold value_after. cbn [length]. change (numeral 10 []) with 0. rewrite Z.pow_0_r, !Z.mul_1_r, Z.add_0_r, orb_false_r. split.
    - intros Hs. split; [constructor|]. by split; [lia|].
    - by intros (_ & _ & ?). }
  apply not_elem_of_cons in Hp as [Hc Hp]. rewrite whole_step by done.
  destruct ((code c <? 48) || (57 <? code c)) eqn:Ec.
  { split; [done|]. intros (Hall & _). apply Forall_cons in Hall as [Hd%decimal_range _]. congruence. }
  apply decimal_range in Ec. pose proof (decimal_step w (code c - 48) ltac:(lia) ltac:(lia)) as Hfs.
  destruct ((uint64_max - (code c - 48)) / 10 <? w) eqn:Ef.
  { split; [done|]. intros (Hall & Hv & _). apply Forall_cons in Hall as [_ Hall]. rewrite value_after_cons in Hv by done.
    pose proof (value_after_grows (w * 10 + (code c - 48)) t ltac:(lia)). discriminate (proj2 Hfs ltac:(lia)). }
  pose proof (proj1 Hfs eq_refl). cbn [mbind result_bind]. unfold wrap. rewrite Z.mod_small by (unfold uint64_max in *; lia). rewrite IH by (done || lia).
  cbn [empty negb]. rewrite orb_true_r. cbn [orb]. unfold all_decimal. rewrite Forall_cons. split.
  - intros (Hall & Hv & Hs). by rewrite value_after_cons.
  - intros ([_ Hall] & Hv & Hs). by rewrite value_after_cons in *.
Qed.

Lemma value_after_0 t : value_after 0 t = numeral 10 t.
Proof. unfold value_after. lia. Qed.

Lemma digits_fit n : 10 ^ Z.of_nat n <= uint64_max <-> (n <= 19)%nat.
Proof.
  split; intros Hn.
  - destruct (decide (n <= 19)%nat) as [|Hgt]; [done|]. assert (10 ^ 20 <= 10 ^ Z.of_nat n) by (apply Z.pow_le_mono_r; lia).
    unfold uint64_max in *. lia.
  - assert (10 ^ Z.of_nat n <= 10 ^ 19) by (apply Z.pow_le_mono_r; lia). unfold uint64_max. lia.
Qed.

Definition start : speed_state := Speed_state 0 0 1 false false.

(** Behind the point. *)
Lemma fraction_run_start w f seen s :
  fold_result speed_step ("."%char :: f) (Speed_state w 0 1 false seen) = Value s <->
  all_decimal f /\ numeral 10 f <= uint64_max /\ (length f <= 19)%nat /\
  s = Speed_state w (numeral 10 f) (10 ^ Z.of_nat (length f)) true (seen || negb (empty f)).
Proof.
  cbn [fold_result]. change (speed_step "." (Speed_state w 0 1 false seen)) with (Value (Speed_state w 0 1 true seen)).
  cbn [mbind result_bind]. rewrite fraction_run, value_after_0, Z.mul_1_l by (unfold uint64_max; lia). rewrite digits_fit.
  split; intros (Hall & Hv & Hl & ->); (split; [done|]; split; [done|]; split; [|done]); [|done].
  destruct f; [simpl; lia|by apply Hl].
Qed.

Lemma speed_run_point w f s :
  ("."%char ∉ w) ->
  fold_result speed_step (w ++ "."%char :: f) start = Value s <->
  all_decimal w /\ numeral 10 w <= uint64_max /\ all_decimal f /\ numeral 10 f <= uint64_max /\ (length f <= 19)%nat /\
  s = Speed_state (numeral 10 w) (numeral 10 f) (10 ^ Z.of_nat (length f)) true (negb (empty w) || negb (empty f)).
Proof.
  intros Hp. unfold start. rewrite whole_run, value_after_0, fraction_run_start by (done || unfold uint64_max; lia). done.
Qed.

Lemma speed_run_whole w s :
  ("."%char ∉ w) ->
  fold_result speed_step w start = Value s <->
  all_decimal w /\ numeral 10 w <= uint64_max /\ s = Speed_state (numeral 10 w) 0 1 false (negb (empty w)).
Proof.
  intros Hp. unfold start. rewrite <- (app_nil_r w) at 1. rewrite whole_run, value_after_0 by (done || unfold uint64_max; lia).
  cbn [fold_result orb]. split; [by intros (? & ? & [= <-])|by intros (? & ? & ->)].
Qed.

Lemma decimal_no_point t : all_decimal t -> "."%char ∉ t.
Proof. intros Ht. apply not_in_digits; [done|]. by vm_compute; intros []. Qed.

(** The speed of a USB device is read exactly: besides the word unknown the
    parser accepts a decimal number, whose whole part may be missing when it
    has a fraction, the whole part and the fraction within 64 bits and the
    fraction of at most nineteen digits, and nothing else; the value is that of
    the two parts in binary64, and no step of the computation wraps around. *)
Theorem parse_usb_speed_denotes (input : text) (d : double) :
  parse_usb_speed_mbps input = Value (Some d) <-> speed_denotes (trim_attribute input) d.
Proof.
  unfold parse_usb_speed_mbps. fold start. set (v := trim_attribute input). clearbody v.
  assert (same v (lit "unknown") = true -> ~ speed_denotes v d) as Hu.
  { intros ->%same_true (w & f & Hv & Hw & _). destruct Hv as [(<- & _)|(Hv & _)].
    - by apply Forall_cons in Hw as [[] _].
    - destruct w as [|c w]; [done|]. injection Hv as <- _. by apply Forall_cons in Hw as [[] _]. }
  destruct (empty v) eqn:Ee.
  { apply empty_true in Ee as ->. split; [done|]. intros (w & f & Hv & _). by destruct Hv as [(<- & ? & _)|(Hv & _)]; [|destruct w]. }
  destruct (same v (lit "unknown")) eqn:Es; [split; [done|intros Hd; by apply Hu in Hd]|]. clear Hu Es.
  split.
  - intros (s & Hs & Hd)%bind_value. destruct (decide ("."%char ∈ v)) as [Hin|Hout].
    + apply list_elem_of_split_l in Hin as (w & f & -> & Hp).
      apply (speed_run_point w f s Hp) in Hs as (Hw & Hbw & Hf & Hbf & Hl & ->). cbn [saw_digit saw_dot divisor whole fraction] in Hd.
      exists w, f. assert (f <> []) as Hne by (intros ->; cbn in Hd; by rewrite orb_true_r in Hd).
      destruct (_ || _) in Hd; [done|]. injection Hd as <-. split; [by right|done].
    + apply (speed_run_whole v s Hout) in Hs as (Hw & Hbw & ->). cbn [saw_digit saw_dot divisor whole fraction] in Hd. rewrite Ee in Hd.
      injection Hd as <-. exists v, []. apply empty_false in Ee. split; [by left|]. split; [done|]. split; [constructor|]. simpl. split; [lia|]. done.
  - intros (w & f & Hv & Hw & Hf & Hl & Hbw & Hbf & ->). pose proof (decimal_no_point w Hw) as Hp.
    destruct Hv as [(-> & Hne & ->)|(-> & Hne)].
    + rewrite (proj2 (speed_run_whole w _ Hp)) by done. cbn [mbind result_bind saw_digit saw_dot divisor whole fraction]. by rewrite Ee.
    + rewrite (proj2 (speed_run_point w f _ Hp)) by done. cbn [mbind result_bind saw_digit saw_dot divisor whole fraction].
      rewrite (proj2 (empty_false f)) by done. rewrite orb_true_r. cbn [negb orb andb].
      rewrite (proj2 (Z.eqb_neq _ 1)); [done|]. destruct f as [|c f]; [done|]. cbn [length]. rewrite Nat2Z.inj_succ, Z.pow_succ_r by lia.
      assert (0 < 10 ^ Z.of_nat (length f)) by (apply Z.pow_pos_nonneg; lia). lia.
Qed.

(** ** Devices *)

Lemma numeral_bound_16 t : 0 <= numeral 16 t.
Proof. apply numeral_nonneg. lia. Qed.

Definition byte_bound (v : option Z) : Prop := forall n, v = Some n -> 0 <= n <= 0xFF.
Definition word_bound (v : option Z) : Prop := forall n, v = Some n -> 0 <= n <= 0xFFFF.

Definition pci_ok (d : pci_device) : Prop :=
  word_bound (pci_domain d) /\ byte_bound (pci_bus d) /\ byte_bound (pci_device_number d) /\ byte_bound (pci_function d) /\
  word_bound (Some (pci_vendor_id d)) /\ word_bound (Some (pci_device_id d)) /\
  word_bound (pci_subsystem_vendor_id d) /\ word_bound (pci_subsystem_device_id d) /\
  Forall byte_bound [pci_class_code d; pci_subclass_code d; pci_programming_interface d] /\
  (forall base, pci_class_code d = Some base -> pci_device_class d = classify_pci_class base) /\
  pci_driver d <> Some [].

Definition usb_ok (d : usb_device) : Prop :=
  Forall byte_bound [usb_bus_number d; usb_device_address d; usb_port_number d; usb_device_class d; usb_device_subclass d;
                     usb_device_protocol d] /\
  word_bound (Some (usb_vendor_id d)) /\ word_bound (Some (usb_product_id d)) /\ word_bound (usb_bcd_device d) /\
  usb_port_number d <> Some 0 /\ Forall (fun t => t <> Some []) [usb_manufacturer d; usb_product d; usb_serial_number d].

Lemma parse_hex_nonneg input v : parse_hex_u32 input = Value v -> 0 <= v.
Proof.
  unfold parse_hex_u32. destruct (empty _); [done|]. destruct (negb _); [done|]. intros [= <-].
  apply fc_value_bound; unfold uint32_max; lia.
Qed.

Lemma parse_number_nonneg input v : parse_number input = Value v -> 0 <= v.
Proof.
  unfold parse_number. destruct (empty _); [done|]. destruct (negb _); [done|]. intros [= <-].
  apply fc_value_bound; unfold uint32_max; lia.
Qed.

Lemma hex_up_to_bound limit content v : hex_up_to limit content = Value v -> 0 <= v <= limit.
Proof. unfold hex_up_to. intros (n & Hn%parse_hex_nonneg & ([] & Hl%reject_value%Z.ltb_ge & [= <-])%bind_value)%bind_value. done. Qed.

Lemma number_up_to_bound limit content v : number_up_to limit content = Value v -> 0 <= v <= limit.
Proof. unfold number_up_to. intros (n & Hn%parse_number_nonneg & ([] & Hl%reject_value%Z.ltb_ge & [= <-])%bind_value)%bind_value. done. Qed.

Lemma parse_usb_port_bound content o : parse_usb_port content = Value o -> forall v, o = Some v -> 0 < v <= 0xFF.
Proof.
  unfold parse_usb_port. destruct (empty _); [done|]. intros (n & Hn%parse_number_nonneg & Hv)%bind_value v ->.
  destruct (Z.eqb_spec n 0); [done|]. destruct (Z.ltb_spec 255 n); [done|]. injection Hv as <-. unfold wrap. rewrite Z.mod_small by lia. lia.
Qed.

Lemma trimmed_text_nonempty content o : trimmed_text content = Value o -> o <> Some [].
Proof. unfold trimmed_text. intros [= <-]. by destruct (trim_attribute content). Qed.

Section results.
Context {W : Type} `{Kernel W} `{HardwareKernel W}.

Lemma yields_if_present {A} path (parse : text -> result A) (P : A -> Prop) :
  (forall content v, parse content = Value v -> P v) ->
  yields (W := W) (if_present path parse) (fun o => forall v, o = Some v -> P v).
Proof.
  intros HP. unfold if_present. apply yields_skip. intros [content|e].
  - apply yields_pure_bind. intros v Hv. apply yields_ret. intros ? [= <-]. by eapply HP.
  - destruct (device_attribute_disappeared e); [by apply yields_ret|by apply yields_pure].
Qed.

Lemma yields_driver path : yields (W := W) (read_driver path) (fun o => o <> Some []).
Proof.
  intros w v w'. unfold read_driver. destruct (read_link path w) as [[errno|target] w1].
  - intros [= Hv <-]. destruct (negb _); [done|]. by injection Hv as <-.
  - intros [= Hv <-]. destruct (0 <? _)%nat; [|by injection Hv as <-]. destruct (_ =? _)%nat; [done|]. injection Hv as <-.
    unfold link_name. by destruct (match rfind _ _ with Some _ => _ | None => _ end).
Qed.

Lemma yields_pci dev_path domain bus device function :
  word_bound (Some domain) -> byte_bound (Some bus) -> byte_bound (Some device) -> byte_bound (Some function) ->
  yields (W := W) (read_pci_device dev_path domain bus device function) (fun o => forall d, o = Some d -> pci_ok d).
Proof.
  intros Hdom Hb Hd Hf. unfold read_pci_device.
  eapply yields_bind; [apply (yields_if_present _ _ _ (hex_up_to_bound 0xFFFF))|]. intros [vendor|] Hv; [|by apply yields_ret].
  eapply yields_bind; [apply (yields_if_present _ _ _ (hex_up_to_bound 0xFFFF))|]. intros [id|] Hi; [|by apply yields_ret].
  eapply yields_bind; [apply (yields_if_present _ _ _ (hex_up_to_bound 0xFFFFFF))|]. intros [class|] Hc; [|by apply yields_ret].
  cbv zeta. eapply yields_bind; [apply (yields_if_present _ _ _ (hex_up_to_bound 0xFFFF))|]. intros sv Hsv.
  eapply yields_bind; [apply (yields_if_present _ _ _ (hex_up_to_bound 0xFFFF))|]. intros sd Hsd.
  eapply yields_bind; [apply yields_driver|]. intros driver Hdr. apply yields_ret. intros d [= <-].
  assert (forall x, byte_bound (Some (Z.land x 0xFF))) as Hbyte.
  { intros x n [= <-]. rewrite (land_mask 8) by done. pose proof (Z.mod_pos_bound x (2 ^ 8) ltac:(done)). lia. }
  unfold pci_ok. cbn. do 4 (split; [done|]). split; [by intros ? [= <-]; apply Hv|]. split; [by intros ? [= <-]; apply Hi|].
  do 2 (split; [done|]). split; [do 3 (constructor; [apply Hbyte|]); constructor|]. split; [by intros ? [= <-]|done].
Qed.

Lemma mjoin_some {A} (o : option (option A)) v : mjoin o = Some v -> o = Some (Some v).
Proof. destruct o as [[?|]|]; cbn; congruence. Qed.

Lemma yields_usb dev_path : yields (W := W) (read_usb_device dev_path) (fun o => forall d, o = Some d -> usb_ok d).
Proof.
  unfold read_usb_device.
  eapply yields_bind; [apply (yields_if_present _ _ _ (hex_up_to_bound 0xFFFF))|]. intros [vendor|] Hv; [|by apply yields_ret].
  eapply yields_bind; [apply (yields_if_present _ _ _ (hex_up_to_bound 0xFFFF))|]. intros [id|] Hi; [|by apply yields_ret].
  eapply yields_bind; [apply (yields_if_present _ _ _ (number_up_to_bound 255))|]. intros bus Hbus.
  eapply yields_bind; [apply (yields_if_present _ _ _ (number_up_to_bound 127))|]. intros address Ha.
  eapply yields_bind; [apply (yields_if_present _ _ _ parse_usb_port_bound)|]. intros port Hp.
  eapply yields_bind; [apply (yields_if_present _ _ _ (hex_up_to_bound 0xFFFF))|]. intros bcd Hbcd.
  do 3 (eapply yields_bind; [apply (yields_if_present _ _ _ (hex_up_to_bound 0xFF))|]; intros ? ?).
  do 3 (eapply yields_bind; [apply (yields_if_present _ _ _ trimmed_text_nonempty)|]; intros ? ?).
  apply yields_skip. intros speed. apply yields_ret. intros d [= <-]. cbv beta in *.
  assert (forall o : option (option text), (forall v, o = Some v -> v <> Some []) -> mjoin o <> Some []) as Hne.
  { intros o Ho Hj%mjoin_some. by apply (Ho _ Hj). }
  assert (byte_bound (mjoin port) /\ mjoin port <> Some 0) as [Hport Hzero].
  { split; [intros n Hn%mjoin_some|intros Hn%mjoin_some]; specialize (Hp _ Hn _ eq_refl); lia. }
  unfold usb_ok. cbn. split.
  { constructor; [done|]. constructor; [intros n Hn; specialize (Ha n Hn); cbv beta in Ha; lia|].
    do 4 (constructor; [done|]). constructor. }
  split; [by intros ? [= <-]; apply Hv|]. split; [by intros ? [= <-]; apply Hi|]. split; [done|]. split; [done|].
  do 3 (constructor; [by apply Hne|]). constructor.
Qed.

End results.

(** ** The lists of devices *)

Section still.
Context {W : Type} `{Kernel W} `{HardwareKernel W} (w : W).
Context (open_quiet : forall path, snd (open_file path w) = w) (list_quiet : forall path, snd (list_directory path w) = w)
  (link_quiet : forall path, snd (read_link path w) = w).

Lemma quiet_if_present {A} path (parse : text -> result A) : quiet w (if_present path parse).
Proof.
  unfold if_present. apply quiet_bind; [apply quiet_attempt, (quiet_read w open_quiet)|]. intros [content|e] _.
  - apply quiet_bind; [apply quiet_pure|]. intros. apply quiet_ret.
  - destruct (device_attribute_disappeared e); [apply quiet_ret|apply quiet_pure].
Qed.

Lemma quiet_driver path : quiet w (read_driver path).
Proof. unfold quiet, read_driver. pose proof (link_quiet path). by destruct (read_link path w) as [[?|?] ?]. Qed.

Lemma quiet_visit_pci dir name : quiet w (visit_pci dir name).
Proof.
  unfold visit_pci. destruct (hidden_name name); [apply quiet_ret|]. destruct (parse_pci_bdf name) as [[[[dom b] d] f]|]; [|apply quiet_ret].
  unfold read_pci_device. repeat first [apply quiet_if_present | apply quiet_driver | apply quiet_ret | apply quiet_bind; [|intros] | case_match].
Qed.

Lemma quiet_visit_usb dir name : quiet w (visit_usb dir name).
Proof.
  unfold visit_usb. destruct (hidden_name name); [apply quiet_ret|]. case_bool_decide; [apply quiet_ret|].
  unfold read_usb_device. repeat first [apply quiet_if_present | apply quiet_ret | apply quiet_bind; [|intros] | case_match].
Qed.

Lemma device_loop_found {A} (visit : text -> query W (option A)) names devices r w' :
  (forall name, quiet w (visit name)) -> device_loop visit names devices w = (r, w') ->
  w' = w /\ forall l, r = Value l ->
  exists found, Forall2 (fun name o => fst (visit name w) = Value o) names found /\ l = devices ++ omap id found.
Proof.
  intros Hq. revert devices. induction names as [|name names IH]; intros devices; cbn [device_loop].
  { intros [= <- <-]. split; [done|]. intros ? [= <-]. exists []. by rewrite app_nil_r. }
  unfold mbind, query_bind. pose proof (Hq name) as Hn. unfold quiet in Hn.
  destruct (visit name w) as [[o|e] w1] eqn:Ev; cbn in Hn; subst w1; [|intros [= <- <-]; by split].
  intros Hl. destruct (IH _ Hl) as [-> Hr]. split; [done|]. intros l Hv. destruct (Hr l Hv) as (found & Hf & ->).
  exists (o :: found). split; [constructor; [by rewrite Ev|done]|]. destruct o; [by rewrite <- app_assoc|done].
Qed.

Lemma devices_in_found {A} (visit : text -> query W (option A)) less dir_path (P : A -> Prop) l :
  (forall name, quiet w (visit name)) -> (forall name, yields (visit name) (fun o => forall d, o = Some d -> P d)) ->
  fst (devices_in visit less dir_path w) = Value l ->
  exists names found, fst (list_directory dir_path w) = inr (names, 0) /\
    Forall2 (fun name o => fst (visit name w) = Value o) names found /\ l = std_sort less (omap id found) /\ Forall P l.
Proof.
  intros Hq Hy. unfold devices_in. pose proof (list_quiet dir_path) as Hl.
  destruct (list_directory dir_path w) as [[errno|[names errno]] w1]; cbn [fst snd] in Hl |- *; subst w1; [by destruct (_ || _)|].
  unfold mbind, query_bind. destruct (device_loop visit names [] w) as [r w1] eqn:El.
  destruct (device_loop_found _ _ _ _ _ Hq El) as [-> Hr]. destruct r as [devices|e]; [|done].
  destruct (Z.eqb_spec errno 0) as [->|]; [|done]. intros [= <-]. destruct (Hr _ eq_refl) as (found & Hf & ->).
  exists names, found. split; [done|]. split; [done|]. split; [done|]. rewrite std_sort_permutation. cbn [app].
  clear El Hr. induction Hf as [|name o names found Hn _ IH]; [constructor|]. destruct o as [d|]; [|exact IH].
  constructor; [|exact IH]. destruct (visit name w) as [v w1] eqn:Ev. cbn in Hn. subst v. by apply (Hy _ _ _ _ Ev).
Qed.

(** The devices of the buses are complete and sorted: on a system that
    stands still the PCI devices are the readings of every visible name of the
    directory, in the order of their addresses, where a name is left out only
    when it is not an address or a mandatory attribute of it is gone; the
    fields are within their widths, the class decides the kind of device, and
    the USB devices, without the names of interfaces, likewise. *)
Theorem bus_devices_listed :
  (forall l, fst (pci_devices w) = Value l ->
     exists names found, fst (list_directory pci_dir_path w) = inr (names, 0) /\
       Forall2 (fun name o => fst (visit_pci pci_dir_path name w) = Value o) names found /\ l ≡ₚ omap id found /\
       StronglySorted (not_after compare_pci_devices) l /\ Forall pci_ok l) /\
  (forall l, fst (usb_devices w) = Value l ->
     exists names found, fst (list_directory usb_dir_path w) = inr (names, 0) /\
       Forall2 (fun name o => fst (visit_usb usb_dir_path name w) = Value o) names found /\ l ≡ₚ omap id found /\
       StronglySorted (not_after compare_usb_devices) l /\ Forall usb_ok l).
Proof.
  split; intros l; [unfold pci_devices, pci_devices_backend|unfold usb_devices, usb_devices_backend];
    unfold mbind, query_bind, attempt, pure; destruct (devices_in _ _ _ w) as [r w1] eqn:Ed; cbn [fst];
    intros (l' & -> & ([] & _ & [= <-])%bind_value)%bind_value; apply (f_equal fst) in Ed; cbn [fst] in Ed.
  - apply (devices_in_found _ _ _ pci_ok) in Ed as (names & found & Hn & Hf & -> & Hok);
      [|apply quiet_visit_pci|].
    + exists names, found. split; [done|]. split; [done|]. split; [apply std_sort_permutation|]. split; [|done].
      apply (std_sort_key_sorted _ pci_key), compare_pci_devices_key.
    + intros name. unfold visit_pci. destruct (hidden_name name); [by apply yields_ret|].
      destruct (parse_pci_bdf name) as [[[[dom b] d] f]|] eqn:Eb; [|by apply yields_ret].
      apply parse_pci_bdf_sound in Eb as (t1 & t2 & t3 & t4 & _ & _ & B1 & B2 & B3 & B4 & [= -> -> -> ->]).
      apply yields_pci; intros n [= <-]; (split; [apply numeral_bound_16|lia]).
  - apply (devices_in_found _ _ _ usb_ok) in Ed as (names & found & Hn & Hf & -> & Hok);
      [|apply quiet_visit_usb|].
    + exists names, found. split; [done|]. split; [done|]. split; [apply std_sort_permutation|]. split; [|done].
      apply (std_sort_key_sorted _ usb_key), compare_usb_devices_key.
    + intros name. unfold visit_usb. destruct (hidden_name name); [by apply yields_ret|]. case_bool_decide; [by apply yields_ret|].
      apply yields_usb.
Qed.

End still.

(** ** The memory devices *)

(** A text that is reported is not empty and in UTF-8. *)
Definition proper_text (t : option text) : Prop := forall v, t = Some v -> v <> [] /\ is_valid_utf8 v = true.

Lemma string_field_nonempty s offset t : string_field s offset t -> t <> Some [].
Proof.
  unfold string_field, string_says. destruct (_ <? _)%nat; [|by intros ->]. destruct (_ =? 0); [by intros ->|].
  by intros ([|b bytes] & _ & ->).
Qed.

Lemma proper_field s offset t : string_field s offset t -> valid_text t = Value () -> proper_text t.
Proof.
  intros Hs Hv v ->. split; [intros ->; by apply string_field_nonempty in Hs|]. by apply reject_value, negb_false_iff in Hv.
Qed.

Lemma validated_texts unit s d :
  describes unit s d ->
  (valid_text (Some (md_locator d));; valid_text (md_bank_locator d);; valid_text (md_manufacturer d);;
   valid_text (md_serial_number d);; valid_text (md_part_number d)) = Value () ->
  is_valid_utf8 (md_locator d) = true /\
  Forall proper_text [md_bank_locator d; md_manufacturer d; md_serial_number d; md_part_number d].
Proof.
  intros [] ([] & Hu & ([] & ? & ([] & ? & ([] & ? & ?)%bind_value)%bind_value)%bind_value)%bind_value.
  apply reject_value, negb_false_iff in Hu. split; [done|]. do 4 (constructor; [by eapply proper_field|]). done.
Qed.

(** C30: the firmware table is read safely from the file: whatever the system
    delivers, every access of the parser is inside the bytes that were read.
    What the query returns is sorted and is exactly the memory devices of the
    table, one for each structure of type 17 in it up to the end marker, with
    the capacity recorded in the size field, in kibibytes, mebibytes or
    extended, the speeds with their extensions, and the strings the fields
    number, which are in UTF-8. *)
Theorem memory_devices_safe {W} `{Kernel W} (w : W) :
  exists r, fst (memory_devices w) = Some r /\
  forall l, r = Value l -> StronglySorted (not_after compare_memory_devices) l /\
    exists table ss found, file_delivers w (lit "/sys/firmware/dmi/tables/DMI") table /\ table_says (code <$> table) ss /\
      Forall2 (describes unit_unknown) (List.filter (fun s => structure_type s =? 17) ss) found /\ l ≡ₚ found /\
      Forall (fun d => is_valid_utf8 (md_locator d) = true /\
        Forall proper_text [md_bank_locator d; md_manufacturer d; md_serial_number d; md_part_number d]) l.
Proof.
  unfold memory_devices, memory_devices_backend. destruct (read_text_file _ _ w) as [[table|e] w1] eqn:Er.
  2: { eexists. split; [reflexivity|]. intros l Hl. exfalso. by destruct (_ || _). }
  assert (Forall is_byte (code <$> table)) as Hb by (apply Forall_fmap, Forall_true; intros c; apply code_bound).
  pose proof (parse_smbios_ensures (code <$> table) (length table) unit_unknown Hb ltac:(by rewrite length_fmap)) as He.
  destruct (parse_smbios_memory_devices _ _ _) as [[devices|e]|]; [|by eexists|done].
  eexists. split; [reflexivity|]. intros l Hl. cbn in Hl. apply bind_value in Hl as ([] & Hc%for_each_value & [= <-]).
  destruct He as [Hs Hok]. split; [done|]. apply read_text_file_delivers in Er as [Er Hlen]; [|done].
  destruct Hok as (ss & found & Hss & Hf & Hp); [rewrite length_fmap; lia|]. exists table, ss, found. split_and!; try done.
  rewrite Hp in Hc |- *. clear -Hf Hc. induction Hf as [|s d sts ds Hd _ IH]; [constructor|].
  apply Forall_cons in Hc as [Hv Hc]. constructor; [by eapply validated_texts|by apply IH].
Qed.

(** A table of three devices, of 64 gibibytes by the extended size, of 512
    kibibytes and of four gibibytes, with another structure between them. *)
Definition memory_table : list Z :=
  [17; 32; 1; 0; 0; 0; 0; 0; 72; 0; 72; 0; 0xFF; 0x7F; 9; 0; 1; 2; 26; 0; 0; 0xA0; 0x0F; 0; 0; 0; 0; 0; 0; 0; 1; 0;
   66; 49; 0; 67; 0; 0;
   1; 4; 2; 0; 0; 0;
   17; 21; 3; 0; 0; 0; 0; 0; 8; 0; 8; 0; 0x00; 0x82; 9; 0; 1; 0; 26; 0; 0; 65; 0; 0;
   17; 21; 4; 0; 0; 0; 0; 0; 8; 0; 8; 0; 0x00; 0x10; 9; 0; 1; 0; 26; 0; 0; 66; 0; 0;
   127; 4; 5; 0; 0; 0; 0; 0].

Definition table_kernel : Kernel unit := {|
  open_file path w := (if bool_decide (path = lit "/sys/firmware/dmi/tables/DMI")
                       then inr [Read_bytes (char_of <$> memory_table)] else inl ENOENT, w);
  list_directory path w := (inl ENOENT, w);
  sysconf name w := ((0, EINVAL), w)
|}.

Lemma memory_devices_safe_witness :
  exists l, fst (@memory_devices unit table_kernel tt) = Some (Value l) /\
    (fun d => (md_locator d, md_bank_locator d, md_size_bytes d)) <$> l =
      [(lit "A", None, Some 524288); (lit "B", None, Some 4294967296); (lit "B1", Some (lit "C"), Some 68719476736)] /\
    exists table ss found, @file_delivers unit table_kernel tt (lit "/sys/firmware/dmi/tables/DMI") table /\ table_says (code <$> table) ss /\
      Forall2 (describes unit_unknown) (List.filter (fun s => structure_type s =? 17) ss) found /\ l ≡ₚ found.
Proof.
  destruct (@memory_devices_safe unit table_kernel tt) as (r & Hr & Hl).
  destruct r as [l|e]; [|vm_compute in Hr; discriminate Hr]. exists l. split; [exact Hr|]. split.
  - vm_compute in Hr. injection Hr as <-. reflexivity.
  - destruct (Hl l eq_refl) as (_ & table & ss & found & Ht & Hss & Hf & Hp & _). exists table, ss, found.
    split; [exact Ht|]. split; [exact Hss|]. split; [exact Hf|exact Hp].
Defined.

Definition device_files : list (string * string) := [
  ("/sys/bus/pci/devices/0000:00:1f.2/vendor", "0x8086"); ("/sys/bus/pci/devices/0000:00:1f.2/device", "0xa282");
  ("/sys/bus/pci/devices/0000:00:1f.2/class", "0x010601"); ("/sys/bus/pci/devices/0000:00:02.0/vendor", "0x8086");
  ("/sys/bus/pci/devices/0000:00:02.0/device", "0x5912"); ("/sys/bus/pci/devices/0000:00:02.0/class", "0x030000")]%string.

Definition device_kernel : Kernel unit :=
  listing_kernel device_files [("/sys/bus/pci/devices", ["."; "0000:00:1f.2"; "0000:00:02.0"; "0000:00:03.0"])]%string.

Definition device_machine : HardwareKernel unit := {|
  stat_directory path w := (inr true, w);
  read_link path w := (if bool_decide (path = lit "/sys/bus/pci/devices/0000:00:02.0/driver")
                       then inr (lit "../../../bus/pci/drivers/i915") else inl ENOENT, w)
|}.

Definition sample_devices : list pci_device :=
  let device number function id base sub interface kind driver := Pci_device (Some 0) (Some 0) (Some number) (Some function) 0x8086 id
    None None (Some base) (Some sub) (Some interface) kind driver None in
  [device 2 0 0x5912 3 0 0 pci_display_controller (Some (lit "i915")); device 0x1f 2 0xa282 1 6 1 pci_mass_storage None].

Lemma bus_devices_listed_witness :
  fst (@pci_devices unit device_kernel device_machine tt) = Value sample_devices /\
  StronglySorted (not_after compare_pci_devices) sample_devices /\ Forall pci_ok sample_devices.
Proof.
  assert (fst (@pci_devices unit device_kernel device_machine tt) = Value sample_devices) as Hl by (vm_compute; reflexivity).
  split; [exact Hl|].
  destruct (proj1 (@bus_devices_listed unit device_kernel device_machine tt (fun _ => eq_refl) (fun _ => eq_refl)
    ltac:(intros path; reflexivity)) _ Hl) as (names & found & _ & _ & _ & Hs & Hok).
  by split.
Defined.
