(* ===== verification/DeviceText.v ===== *)
(** * What the device backends repeat

    The input, bluetooth, camera and audio domains each have their copy of
    these helpers ([detail/<domain>/common.hpp] and [linux.hpp]): trimming,
    the search that ignores case, whole numbers, and the reader of a sysfs
    attribute. *)
From S2P Require Import Prelude Result CppText Utf8 System.

(** [static_cast<unsigned char>(c) <= ' ']. *)
Definition blank (c : ascii) : bool := code c <=? 32.

Definition trim_blank (v : text) : text := trim blank v.

Definition contains_part (v needle : text) : bool :=
  if empty needle then true
  else if (length v <? length needle)%nat then false
  else existsb (fun i => ignore_case_loop (substr i (length needle) v) needle)
         (seq 0 (S (length v - length needle))).

(** A whole number in a base, after trimming. *)
Definition parse_number (max base : Z) (input : text) : result Z :=
  let trimmed := trim_blank input in
  if empty trimmed then fail errc_malformed_data
  else
    let res := from_chars_unsigned max base trimmed in
    if out_of_range res then fail errc_value_too_large
    else if negb (consumed res trimmed) then fail errc_malformed_data
    else Value (fc_value res).

Section sysfs.
Context {W : Type} `{Kernel W}.

(** An attribute that may be missing or empty. *)
Definition sysfs_text (path : text) : query W (option text) :=
  content ← attempt (read_text_file path 4096);
  match content with
  | Failure e => if matches_std_errc e ENOENT || matches_std_errc e ENOTDIR then mret None else pure (Failure e)
  | Value content =>
      let trimmed := trim_blank (trim_line_end content) in
      if empty trimmed then mret None
      else if negb (is_valid_utf8 trimmed) then pure (fail errc_invalid_encoding)
      else mret (Some trimmed)
  end.
End sysfs.

Definition hidden (name : text) : bool := match name with c :: _ => is_char c "." | [] => false end.

(** ** Lemmas *)

Lemma hex_not_blank c : is_digit_in 16 c = true -> blank c = false.
Proof.
  unfold is_digit_in, digit_of, blank. intros Hc. apply Z.leb_gt. apply Z.nle_gt. intros Hle. revert Hc.
  by repeat (rewrite (proj2 (Z.leb_gt _ _)) by lia; cbn [andb]).
Qed.

Lemma device_digit_not_blank c : is_digit_in 10 c = true -> blank c = false.
Proof. rewrite digit_code. unfold blank. intros Hc. apply Z.leb_gt. lia. Qed.

Lemma device_number_bound max base v n : 0 < base -> 0 <= max -> parse_number max base v = Value n -> 0 <= n <= max.
Proof.
  intros Hb Hm. unfold parse_number. destruct (empty _); [done|]. destruct (out_of_range _); [done|].
  destruct (negb _); [done|]. intros [= <-]. by apply fc_value_bound.
Qed.

(** What a whole number between blanks is read as. *)
Lemma parse_number_value max base v :
  trimmed blank v -> numeric base v = true -> numeral base v <= max -> parse_number max base v = Value (numeral base v).
Proof.
  intros Ht Hn Hv. unfold parse_number, trim_blank. rewrite trim_trimmed by done.
  pose proof (proj1 (numeric_split base v) Hn) as [Hne _]. rewrite (proj2 (empty_false v) Hne), out_of_range_numeric by done.
  rewrite (proj2 (Z.leb_le _ _) Hv). cbn [negb].
  pose proof (proj2 (consumed_unsigned max base v) (conj Hn Hv)) as Hc. by rewrite Hc, consumed_value.
Qed.

Lemma yields_sysfs_text {W} `{Kernel W} path :
  yields (W := W) (sysfs_text path) (fun v => forall t, v = Some t -> t <> [] /\ is_valid_utf8 t = true).
Proof.
  apply yields_skip. intros [content|e].
  - cbv zeta. destruct (empty (trim_blank (trim_line_end content))) eqn:E; [by apply yields_ret|].
    destruct (is_valid_utf8 _) eqn:Hu; cbn [negb]; [|by apply yields_pure].
    apply yields_ret. intros t [= <-]. split; [by apply empty_false|done].
  - destruct (_ || _); [by apply yields_ret|by apply yields_pure].
Qed.

Lemma quiet_sysfs_text {W} `{Kernel W} (w : W) (open_quiet : forall path, snd (open_file path w) = w) path :
  quiet w (sysfs_text path).
Proof.
  apply quiet_bind; [apply quiet_attempt, quiet_read, open_quiet|]. intros [content|e] _.
  - cbv zeta. destruct (empty _); [done|]. by destruct (negb _).
  - by destruct (_ || _).
Qed.

(** ** The search that ignores case *)

Lemma contains_part_spec v needle :
  contains_part v needle = true <-> exists a m b, v = a ++ m ++ b /\ tolower <$> m = tolower <$> needle.
Proof.
  unfold contains_part. destruct needle as [|x needle]; cbn [empty].
  - split; [|done]. intros _. by exists [], [], v.
  - generalize (x :: needle). intros n. destruct (Nat.ltb_spec (length v) (length n)) as [Hlt|Hge].
    + split; [done|]. intros (a & m & b & -> & Hm). apply (f_equal length) in Hm. rewrite !length_fmap in Hm.
      rewrite !length_app in Hlt. lia.
    + rewrite existsb_exists. split.
      * intros (i & [_ Hi]%in_seq & Hm). cbn in Hi. exists (take i v), (substr i (length n) v), (drop (length n) (drop i v)).
        unfold substr in *. split; [by rewrite take_drop, take_drop|].
        apply ignore_case_loop_spec; [|done]. rewrite length_take, length_drop. lia.
      * intros (a & m & b & -> & Hm). pose proof (f_equal length Hm) as Hl. rewrite !length_fmap in Hl.
        exists (length a). rewrite !length_app in Hge. split; [apply in_seq; rewrite !length_app; lia|].
        unfold substr. rewrite drop_app_length, <- Hl, take_app_length. by apply ignore_case_loop_spec.
Qed.

Lemma contains_part_app a m b needle : contains_part m needle = true -> contains_part (a ++ m ++ b) needle = true.
Proof.
  rewrite !contains_part_spec. intros (x & k & y & -> & Hk). exists (a ++ x), k, (y ++ b).
  split; [by rewrite <- !app_assoc|done].
Qed.

(** A character that does not occur in the needle separates what is searched. *)
Lemma contains_part_cut a c b needle :
  needle <> [] -> tolower c ∉ tolower <$> needle ->
  contains_part (a ++ c :: b) needle = contains_part a needle || contains_part b needle.
Proof.
  intros Hne Hc. apply eq_true_iff_eq. rewrite orb_true_iff. split.
  - rewrite !contains_part_spec. intros (x & m & y & E & Hm).
    assert (c ∉ m) as Hcm. { intros Hin. apply Hc. rewrite <- Hm. by apply list_elem_of_fmap_2. }
    assert (m <> []) as Hmn by (intros ->; by destruct needle).
    apply app_eq_inv in E as [(k & -> & E)|(k & -> & E)].
    + apply app_eq_inv in E as [(k' & -> & E)|(k' & -> & E)].
      * destruct k' as [|d k']; simplify_eq/=.
        { rewrite app_nil_r in Hm. left. exists x, k, []. by rewrite app_nil_r. }
        destruct Hcm. set_solver.
      * left. by exists x, m, k'.
    + destruct k as [|d k]; simplify_eq/=.
      * destruct m as [|d m]; [done|]. simplify_eq/=. destruct Hcm. set_solver.
      * right. by exists k, m, y.
  - intros [Ha|Hb].
    + apply (contains_part_app [] a (c :: b)) in Ha. done.
    + apply (contains_part_app (a ++ [c]) b []) in Hb. by rewrite app_nil_r, <- app_assoc in Hb.
Qed.

(** Text without the first character of the needle does not contain it. *)
Lemma contains_part_none c needle v : Forall (fun d => tolower d <> tolower c) v -> contains_part v (c :: needle) = false.
Proof.
  intros Hv. apply not_true_iff_false. rewrite contains_part_spec. intros (a & m & b & -> & Hm).
  destruct m as [|d m]; [done|]. simplify_eq/=. apply Forall_app in Hv as [_ Hv]. by apply Forall_cons in Hv as [? _].
Qed.
