(* ===== verification/Input.v ===== *)
(** * Input devices

    The records of [include/syscape/input.hpp], the parsers and filters of
    [include/syscape/detail/input/common.hpp] and the Linux backend
    [include/syscape/detail/input/linux.hpp] with the public queries.
    [devices_text] is the kernel's format of the device list, a
    specification. *)
From S2P Require Import Prelude Result CppText Utf8 System DeviceText.

(** ** input.hpp *)

Inductive device_type :=
  | type_unknown | type_keyboard | type_mouse | type_touchpad | type_touchscreen | type_joystick
  | type_gamepad | type_drawing_tablet | type_button_or_switch.

#[global] Instance device_type_eq_dec : EqDecision device_type.
Proof. solve_decision. Defined.

Inductive bus_type := bus_unknown | bus_usb | bus_bluetooth | bus_pci | bus_i2c | bus_isa_serio | bus_virtual.

#[global] Instance bus_type_eq_dec : EqDecision bus_type.
Proof. solve_decision. Defined.

Record input_device_id := Input_device_id {
  id_bus : bus_type;
  vendor_id : Z;
  product_id : Z;
  version_id : Z
}.

Record input_device := Input_device {
  device_id : text;
  device_name : text;
  device_kind : device_type;
  device_bus : bus_type;
  hardware_id : option input_device_id;
  physical_location : option text;
  sysfs_path : option text;
  unique_id : option text;
  device_handlers : list text;
  is_integrated : option bool
}.

(** ** common.hpp *)

Definition trim_whitespace (v : text) : text := trim_blank v.

Definition contains_ignore_case (v needle : text) : bool := contains_part v needle.

Definition parse_hex_u16 (input : text) : result Z := parse_number uint16_max 16 input.

Definition parse_u32 (input : text) : result Z := parse_number uint32_max 10 input.

Definition bus_from_numeric_id (bus_id : Z) : bus_type :=
  if bus_id =? 1 then bus_pci
  else if (bus_id =? 2) || (bus_id =? 16) || (bus_id =? 17) || (bus_id =? 18) then bus_isa_serio
  else if bus_id =? 3 then bus_usb
  else if bus_id =? 5 then bus_bluetooth
  else if (bus_id =? 6) || (bus_id =? 25) then bus_virtual
  else if bus_id =? 24 then bus_i2c
  else bus_unknown.

Definition is_type (t : device_type) (d : input_device) : bool := bool_decide (device_kind d = t).

Definition filter_by_type (devices : list input_device) (target_type : device_type) : list input_device :=
  List.filter (is_type target_type) devices.

Definition filter_touch_devices (devices : list input_device) : list input_device :=
  List.filter (fun d => is_type type_touchpad d || is_type type_touchscreen d || is_type type_drawing_tablet d) devices.

Definition filter_gamepads (devices : list input_device) : list input_device :=
  List.filter (fun d => is_type type_gamepad d || is_type type_joystick d) devices.

(** ** linux.hpp: words, handlers and bitmaps *)

Record raw_input_entry := Raw_input_entry {
  bus : Z;
  vendor : Z;
  product : Z;
  version : Z;
  name : text;
  phys : text;
  sysfs : text;
  uniq : text;
  handlers : list text;
  prop_mask : text;
  ev_mask : text;
  key_mask : text;
  rel_mask : text;
  abs_mask : text;
  sw_mask : text
}.

Definition empty_entry : raw_input_entry := Raw_input_entry 0 0 0 0 [] [] [] [] [] [] [] [] [] [] [].

Definition split_words (v : text) : list text :=
  match each_token (R := unit) blank (fun _ => true) v (fun word words => Next (words ++ [word])) [] with
  | Next (words, _) => words
  | Return _ => []
  end.

Definition has_handler (handlers : list text) (needle : text) : bool := existsb (fun h => same h needle) handlers.

Definition has_handler_prefix (handlers : list text) (prefix : text) : bool :=
  existsb (starts_with prefix) handlers.

Definition low_bitmap_bit_is_set (bitmap : text) (bit : Z) : bool :=
  if 64 <=? bit then false
  else
    let trimmed := trim_whitespace bitmap in
    if empty trimmed then false
    else
      let word := match find_last_of [" "%char; ch_tab] trimmed with
                  | None => trimmed
                  | Some separator => substr_from (S separator) trimmed
                  end in
      let parsed := from_chars_unsigned uint64_max 16 word in
      consumed parsed word && negb (Z.land (fc_value parsed) (wrap 64 (Z.shiftl 1 bit)) =? 0).

Definition is_valid_hex_bitmap (bitmap : text) : bool :=
  let words := split_words bitmap in
  match words with
  | [] => false
  | _ => forallb (fun word => consumed (from_chars_unsigned uint64_max 16 word) word) words
  end.

(** ** linux.hpp: classification *)

Definition classify_device (e : raw_input_entry) : device_type :=
  let named needle := contains_ignore_case (name e) (lit needle) in
  let has_keys := low_bitmap_bit_is_set (ev_mask e) 1 in
  let has_relative_axes := low_bitmap_bit_is_set (ev_mask e) 2 in
  let has_absolute_axes := low_bitmap_bit_is_set (ev_mask e) 3 in
  let has_switches := low_bitmap_bit_is_set (ev_mask e) 5 in
  let direct := low_bitmap_bit_is_set (prop_mask e) 1 in
  let pointer := low_bitmap_bit_is_set (prop_mask e) 0 in
  let buttonpad := low_bitmap_bit_is_set (prop_mask e) 2 in
  if (has_keys || has_absolute_axes) &&
     (has_handler_prefix (handlers e) (lit "js") || named "gamepad" || named "joystick" || named "controller")
  then type_gamepad
  else if has_absolute_axes &&
     ((direct && pointer) || named "tablet" || named "wacom" || named "digitizer" || named "stylus")
  then type_drawing_tablet
  else if has_absolute_axes &&
     (buttonpad || (pointer && negb direct) || named "touchpad" || named "trackpad" || named "synaptics" ||
      named "glidepoint" || named "clickpad")
  then type_touchpad
  else if has_absolute_axes && ((direct && negb pointer) || named "touchscreen" || named "touch screen")
  then type_touchscreen
  else if has_switches ||
     (has_keys && (named "power button" || named "sleep button" || named "lid switch" || named "video bus" ||
                   named "switch" || named "pwrbtn"))
  then type_button_or_switch
  else if (has_relative_axes || has_absolute_axes) &&
     (has_handler_prefix (handlers e) (lit "mouse") || named "mouse" || named "trackball" ||
      named "pointing stick" || named "trackpoint")
  then type_mouse
  else if has_keys && (has_handler (handlers e) (lit "kbd") || named "keyboard" || named "keypad")
  then type_keyboard
  else type_unknown.

(** ** linux.hpp: the device list *)

Definition leaf_or_handler (e : raw_input_entry) : text :=
  if negb (empty (sysfs e)) then
    match rfind "/" (sysfs e) with
    | Some slash => if (S slash <? length (sysfs e))%nat then substr_from (S slash) (sysfs e) else sysfs e
    | None => sysfs e
    end
  else
    let id := match list_find (fun h => starts_with (lit "event") h = true) (handlers e) with
              | Some (_, h) => h
              | None => []
              end in
    if empty id then match handlers e with h :: _ => h | [] => [] end else id.

Definition if_not_empty (v : text) : option text := if negb (empty v) then Some v else None.

Definition device_of (e : raw_input_entry) : input_device := {|
  device_id := leaf_or_handler e;
  device_name := name e;
  device_kind := classify_device e;
  device_bus := bus_from_numeric_id (bus e);
  hardware_id := Some (Input_device_id (bus_from_numeric_id (bus e)) (vendor e) (product e) (version e));
  physical_location := if_not_empty (phys e);
  sysfs_path := if_not_empty (sysfs e);
  unique_id := if_not_empty (uniq e);
  device_handlers := handlers e;
  is_integrated := None
|}.

(** The variables of the loop. *)
Record parse_state := Parse_state {
  devices_found : list input_device;
  current : raw_input_entry;
  in_entry : bool
}.

Definition entry_utf8 (e : raw_input_entry) : bool :=
  is_valid_utf8 (name e) && is_valid_utf8 (phys e) && is_valid_utf8 (sysfs e) && is_valid_utf8 (uniq e) &&
  forallb is_valid_utf8 (handlers e).

Definition finish_entry (st : parse_state) : result parse_state :=
  if negb (in_entry st) then Value st
  else if negb (entry_utf8 (current st)) then fail errc_malformed_data
  else Value (Parse_state (devices_found st ++ [device_of (current st)]) empty_entry false).

Definition parse_key_hex (payload key : text) : result Z :=
  match find_part key payload with
  | None => fail errc_malformed_data
  | Some pos =>
      let val_start := (pos + length key)%nat in
      let val_end := scan (fun c => negb (blank c)) payload val_start in
      parse_hex_u16 (substr val_start (val_end - val_start) payload)
  end.

(** The members of an entry the lines assign. *)
Definition with_ids (b v p r : Z) (e : raw_input_entry) : raw_input_entry :=
  Raw_input_entry b v p r (name e) (phys e) (sysfs e) (uniq e) (handlers e)
    (prop_mask e) (ev_mask e) (key_mask e) (rel_mask e) (abs_mask e) (sw_mask e).

Definition with_texts (n p s u : text) (hs : list text) (e : raw_input_entry) : raw_input_entry :=
  Raw_input_entry (bus e) (vendor e) (product e) (version e) n p s u hs
    (prop_mask e) (ev_mask e) (key_mask e) (rel_mask e) (abs_mask e) (sw_mask e).

Definition with_masks (pm em km rm am sm : text) (e : raw_input_entry) : raw_input_entry :=
  Raw_input_entry (bus e) (vendor e) (product e) (version e) (name e) (phys e) (sysfs e) (uniq e) (handlers e)
    pm em km rm am sm.

Definition with_name (n : text) (e : raw_input_entry) := with_texts n (phys e) (sysfs e) (uniq e) (handlers e) e.
Definition with_phys (p : text) (e : raw_input_entry) := with_texts (name e) p (sysfs e) (uniq e) (handlers e) e.
Definition with_sysfs (s : text) (e : raw_input_entry) := with_texts (name e) (phys e) s (uniq e) (handlers e) e.
Definition with_uniq (u : text) (e : raw_input_entry) := with_texts (name e) (phys e) (sysfs e) u (handlers e) e.
Definition with_handlers (hs : list text) (e : raw_input_entry) :=
  with_texts (name e) (phys e) (sysfs e) (uniq e) hs e.

(** [if (payload.rfind(key, 0) == 0) member = payload.substr(key.size());] *)
Definition assign (key : string) (payload : text) (set : text -> raw_input_entry -> raw_input_entry)
    (e : raw_input_entry) : raw_input_entry :=
  if starts_with (lit key) payload then set (substr_from (length (lit key)) payload) e else e.

Definition identity_line (payload : text) (e : raw_input_entry) : result raw_input_entry :=
  let key k := parse_key_hex payload (lit k) in
  match key "Bus=", key "Vendor=", key "Product=", key "Version=" with
  | Value b, Value v, Value p, Value r => Value (with_ids b v p r e)
  | _, _, _, _ => fail errc_malformed_data
  end.

Definition name_line (payload : text) (e : raw_input_entry) : result raw_input_entry :=
  match find_part (lit "Name=") payload with
  | None => fail errc_malformed_data
  | Some name_pos =>
      let v := substr_from (name_pos + 5) payload in
      let quote := char_of 34 in
      let v := if (2 <=? length v)%nat && bool_decide (v !! 0%nat = Some quote) && bool_decide (last v = Some quote)
               then substr 1 (length v - 2) v else v in
      Value (with_name v e)
  end.

Definition mask_line (payload : text) (e : raw_input_entry) : result raw_input_entry :=
  match find "=" payload 0 with
  | None => fail errc_malformed_data
  | Some equals =>
      if (equals =? 0)%nat || negb (is_valid_hex_bitmap (substr_from (S equals) payload)) then fail errc_malformed_data
      else
        let has k := starts_with (lit k) payload in
        let rest n := substr_from n payload in
        let set pm em km rm am sm := with_masks pm em km rm am sm e in
        Value (if has "PROP=" then set (rest 5%nat) (ev_mask e) (key_mask e) (rel_mask e) (abs_mask e) (sw_mask e)
               else if has "EV=" then set (prop_mask e) (rest 3%nat) (key_mask e) (rel_mask e) (abs_mask e) (sw_mask e)
               else if has "KEY=" then set (prop_mask e) (ev_mask e) (rest 4%nat) (rel_mask e) (abs_mask e) (sw_mask e)
               else if has "REL=" then set (prop_mask e) (ev_mask e) (key_mask e) (rest 4%nat) (abs_mask e) (sw_mask e)
               else if has "ABS=" then set (prop_mask e) (ev_mask e) (key_mask e) (rel_mask e) (rest 4%nat) (sw_mask e)
               else if has "SW=" then set (prop_mask e) (ev_mask e) (key_mask e) (rel_mask e) (abs_mask e) (rest 3%nat)
               else e)
  end.

(** A line of an entry, by its tag. *)
Definition entry_line (tag : ascii) (payload : text) (e : raw_input_entry) : result raw_input_entry :=
  if is_char tag "N" then name_line payload e
  else if is_char tag "P" then Value (assign "Phys=" payload with_phys e)
  else if is_char tag "S" then Value (assign "Sysfs=" payload with_sysfs e)
  else if is_char tag "U" then Value (assign "Uniq=" payload with_uniq e)
  else if is_char tag "H" then Value (assign "Handlers=" payload (fun v => with_handlers (split_words v)) e)
  else if is_char tag "B" then mask_line payload e
  else fail errc_malformed_data.

Definition tag_line (tag : ascii) (payload : text) (st : parse_state) : result parse_state :=
  if is_char tag "I" then
    st ← (if in_entry st then finish_entry st else Value st);
    e ← identity_line payload (current st);
    mret (Parse_state (devices_found st) e true)
  else if negb (in_entry st) then fail errc_malformed_data
  else
    e ← entry_line tag payload (current st);
    mret (Parse_state (devices_found st) e true).

Definition parse_line (line : text) (st : parse_state) : step parse_state (result (list input_device)) :=
  let trimmed := trim_whitespace line in
  st <-? (if empty trimmed then finish_entry st
          else if (length trimmed <? 3)%nat then fail errc_malformed_data
          else match trimmed with
               | tag :: colon :: rest =>
                   if negb (is_char colon ":") then fail errc_malformed_data
                   else tag_line tag (trim_whitespace rest) st
               | _ => fail errc_malformed_data
               end);
  Next st.

Definition parse_proc_bus_input_devices (content : text) : result (list input_device) :=
  finish (each_field ch_lf content parse_line (Parse_state [] empty_entry false)) (fun st =>
    devices_found <$> finish_entry st).

(** ** The queries *)

Section Queries.
Context {W : Type} `{Kernel W}.

(** The directory handle is only opened: what it lists is not looked at. *)
Definition class_directory : query W (list input_device) := fun w =>
  match list_directory (lit "/sys/class/input") w with
  | (inr _, w) => (Value [], w)
  | (inl errno, w) => (if errno =? ENOENT then fail errc_not_supported else fail_native errno, w)
  end.

Definition devices : query W (list input_device) :=
  content ← attempt (read_text_file (lit "/proc/bus/input/devices") default_maximum_size);
  match content with
  | Value content => pure (parse_proc_bus_input_devices content)
  | Failure e => if bool_decide (e = native_error ENOENT) then class_directory else pure (Failure e)
  end.

Definition keyboards : query W (list input_device) := all ← devices; mret (filter_by_type all type_keyboard).

Definition mice : query W (list input_device) := all ← devices; mret (filter_by_type all type_mouse).

Definition touch_devices : query W (list input_device) := all ← devices; mret (filter_touch_devices all).

Definition gamepads : query W (list input_device) := all ← devices; mret (filter_gamepads all).

Definition device_count : query W Z := all ← devices; mret (Z.of_nat (length all)).
End Queries.

(** ** Words, numbers and bitmaps *)



Definition word (h : text) : Prop := h <> [] /\ Forall (fun c => blank c = false) h.

(** A word a bitmap consists of: a hexadecimal number of 64 bits. *)
Definition hex_word (w : text) : Prop := numeric 16 w = true /\ numeral 16 w <= uint64_max.

(** A bitmap as the kernel prints it: its words, the lowest last. *)
Definition bitmap_text (ws : list text) : text := join " "%char ws.

Lemma numeric_word w : numeric 16 w = true -> word w.
Proof.
  unfold numeric. rewrite andb_true_iff, negb_true_iff, forallb_true. intros [He Hw].
  split; [by apply empty_false|]. eapply Forall_impl; [exact Hw|]. apply hex_not_blank.
Qed.



Lemma hex_words ws : Forall hex_word ws -> Forall word ws.
Proof. intros Hws. eapply Forall_impl; [exact Hws|]. intros v [Hv _]. by apply numeric_word. Qed.



Lemma join_snoc ws w : ws <> [] -> join " "%char (ws ++ [w]) = join " "%char ws ++ " "%char :: w.
Proof.
  induction ws as [|v ws IH]; [done|]. intros _. destruct ws as [|v' ws]; [done|].
  change ((v :: v' :: ws) ++ [w]) with (v :: (v' :: ws) ++ [w]).
  transitivity (v ++ " "%char :: join " "%char ((v' :: ws) ++ [w])); [done|].
  rewrite IH by done. change (join " "%char (v :: v' :: ws)) with (v ++ " "%char :: join " "%char (v' :: ws)).
  by rewrite <- app_assoc.
Qed.

Lemma words_trimmed hs : Forall word hs -> trimmed blank (join " "%char hs).
Proof.
  intros Hhs. split.
  - intros c Hc. destruct Hhs as [|h hs [Hne Hw] _]; [done|].
    destruct h as [|d h]; [done|]. apply Forall_cons in Hw as [Hd _]. destruct hs; simplify_eq/=; done.
  - destruct (decide (hs = [])) as [->|Hne]; [done|].
    destruct (exists_last Hne) as (hs' & h & ->). apply Forall_app in Hhs as [_ Hh].
    apply Forall_singleton in Hh as [Hwn Hw]. intros c Hc.
    assert (last h = Some c) as Hl.
    { destruct hs' as [|v hs']; [done|]. rewrite join_snoc in Hc by done.
      rewrite last_app_cons, last_cons in Hc. destruct (last h) eqn:E; [done|]. by apply last_None in E. }
    apply last_Some in Hl as [h' ->]. apply Forall_app in Hw as [_ Hw]. by inversion Hw.
Qed.

Lemma bitmap_trimmed ws : Forall hex_word ws -> trimmed blank (bitmap_text ws).
Proof. intros Hws. by apply words_trimmed, hex_words. Qed.

(** A capability bit of a bitmap the kernel prints - hexadecimal words of
    64 bits, the lowest last - is read from its last word, whatever the
    words before it. *)
Theorem low_bitmap_bits (ws : list text) (w : text) (bit : Z) :
  Forall hex_word ws -> hex_word w -> 0 <= bit ->
  low_bitmap_bit_is_set (bitmap_text (ws ++ [w])) bit = (bit <? 64) && Z.testbit (numeral 16 w) bit.
Proof.
  intros Hws Hw Hbit. unfold low_bitmap_bit_is_set. rewrite Z.leb_antisym.
  destruct (Z.ltb_spec bit 64) as [Hlt|]; [|done]. cbn [negb andb].
  assert (trim_whitespace (bitmap_text (ws ++ [w])) = bitmap_text (ws ++ [w])) as ->.
  { unfold trim_whitespace, trim_blank. apply trim_trimmed, bitmap_trimmed. apply Forall_app. by split; [|constructor]. }
  destruct (numeric_word w (proj1 Hw)) as [Hne Hb].
  assert (consumed (from_chars_unsigned uint64_max 16 w) w &&
    negb (Z.land (fc_value (from_chars_unsigned uint64_max 16 w)) (wrap 64 (Z.shiftl 1 bit)) =? 0) = Z.testbit (numeral 16 w) bit) as Hv.
  { pose proof (proj2 (consumed_unsigned uint64_max 16 w) Hw) as Hc. rewrite Hc, consumed_value by done. simpl.
    apply land_bit_wrapped. lia. }
  assert (Forall (fun c => bool_decide (c ∈ [" "%char; ch_tab]) = false) w) as Hsep.
  { eapply Forall_impl; [exact Hb|]. intros c Hc. apply bool_decide_eq_false. intros Hin. unfold blank in Hc.
    repeat (apply elem_of_cons in Hin as [->|Hin]; [done|]). by apply elem_of_nil in Hin. }
  destruct (decide (ws = [])) as [->|Hwn].
  - change (bitmap_text ([] ++ [w])) with w. rewrite (proj2 (empty_false w) Hne). unfold find_last_of.
    by rewrite find_last_none.
  - unfold bitmap_text. rewrite join_snoc by done. unfold find_last_of. rewrite find_last_app by done.
    rewrite substr_suffix. by destruct (join " "%char ws).
Qed.

Lemma low_bitmap_bits_witness :
  Forall hex_word [lit "7"] /\ hex_word (lit "1000B") /\ 0 <= 3 /\
  low_bitmap_bit_is_set (bitmap_text ([lit "7"] ++ [lit "1000B"])) 3 = true.
Proof.
  assert (Forall hex_word [lit "7"]) as Hws by (repeat constructor; by_compute).
  assert (hex_word (lit "1000B")) as Hw by (split; [reflexivity|by_compute]).
  split; [exact Hws|]. split; [exact Hw|]. split; [lia|].
  exact (eq_trans (low_bitmap_bits [lit "7"] (lit "1000B") 3 Hws Hw ltac:(lia)) eq_refl).
Defined.

(** ** The kernel's format of the device list

    Each device is a block of lines [X: payload] and a blank line.  The
    handlers are followed by a space each; a bitmap is printed when the device
    has it, and [others] are the bitmaps the library does not use. *)












(** *** One line *)








(** *** The identity line *)






(** *** Names and bitmaps *)






(** *** The list *)





















(** ** Every device is well formed *)

(** The identifier is the last component of the path, or a handler. *)
Definition device_ok (d : input_device) : Prop :=
  Forall (fun v => is_valid_utf8 v = true) (device_id d :: device_name d :: device_handlers d) /\
  (forall v, v ∈ [physical_location d; sysfs_path d; unique_id d] -> v <> Some [] /\
     forall t, v = Some t -> is_valid_utf8 t = true) /\
  (exists v p r, hardware_id d = Some (Input_device_id (device_bus d) v p r) /\
     Forall (fun n => 0 <= n <= uint16_max) [v; p; r]) /\
  device_kind d <> type_joystick /\ is_integrated d = None.

Definition ids_ok (e : raw_input_entry) : Prop := Forall (fun n => 0 <= n <= uint16_max) [vendor e; product e; version e].

Lemma entry_utf8_true e : entry_utf8 e = true <->
  Forall (fun v => is_valid_utf8 v = true) (name e :: phys e :: sysfs e :: uniq e :: handlers e).
Proof. unfold entry_utf8. rewrite !andb_true_iff, forallb_true, !Forall_cons. tauto. Qed.

Lemma leaf_utf8 e : entry_utf8 e = true -> is_valid_utf8 (leaf_or_handler e) = true.
Proof.
  rewrite entry_utf8_true, !Forall_cons. intros (_ & _ & Hs & _ & Hh). unfold leaf_or_handler.
  destruct (empty (sysfs e)); cbn [negb].
  - assert (is_valid_utf8 (match handlers e with h :: _ => h | [] => [] end) = true) as Hhead.
    { by destruct Hh as [|h hs Hh _]. }
    destruct (list_find _ _) as [[i h]|] eqn:E; [|done]. cbv zeta. destruct (empty h); [done|].
    apply list_find_Some in E as (Hi & _ & _). rewrite Forall_forall in Hh. eapply Hh, list_elem_of_lookup_2, Hi.
  - destruct (rfind "/" (sysfs e)) as [i|] eqn:E; [|done]. destruct (_ <? _)%nat; [|done].
    apply find_last_split in E as (c & Hl & <-%is_char_true). unfold substr_from.
    rewrite Hl in Hs. by apply valid_utf8_cut in Hs as [_ Hs].
Qed.

Lemma classify_never_joystick e : classify_device e <> type_joystick.
Proof. unfold classify_device. cbv zeta. by repeat match goal with |- context [if ?b then _ else _] => destruct b end. Qed.

Lemma device_of_ok e : entry_utf8 e = true -> ids_ok e -> device_ok (device_of e).
Proof.
  intros Hu Hids. pose proof (leaf_utf8 e Hu) as Hl. apply entry_utf8_true in Hu. rewrite !Forall_cons in Hu.
  destruct Hu as (Hn & Hp & Hs & Hq & Hh). split; [by rewrite !Forall_cons|]. split; [|split; [|split]].
  - intros v Hv. cbn in Hv. unfold if_not_empty in Hv.
    repeat (apply elem_of_cons in Hv as [->|Hv]; [split; [by destruct (negb _) eqn:E; [intros [= Hx]; rewrite Hx in E|]|
      intros t; destruct (negb _); [by intros [= <-]|done]]|]). by apply elem_of_nil in Hv.
  - by eexists _, _, _.
  - apply classify_never_joystick.
  - done.
Qed.

Definition state_ok (st : parse_state) : Prop := Forall device_ok (devices_found st) /\ ids_ok (current st).

Lemma finish_entry_ok st st' : state_ok st -> finish_entry st = Value st' -> state_ok st'.
Proof.
  intros [Hd Hc]. unfold finish_entry. destruct (in_entry st); cbn [negb]; [|by intros [= <-]].
  destruct (entry_utf8 (current st)) eqn:E; cbn [negb]; [|done]. intros [= <-]. split; cbn [devices_found current].
  - apply Forall_app. split; [done|]. constructor; [by apply device_of_ok|done].
  - repeat constructor; unfold uint16_max; simpl; lia.
Qed.

Lemma entry_line_ids tag payload e e' : entry_line tag payload e = Value e' -> ids_ok e -> ids_ok e'.
Proof.
  unfold entry_line, name_line, mask_line, assign. intros He Hi. cbv zeta in He.
  repeat match type of He with context [if ?b then _ else _] => destruct b end; simplify_eq; try done;
    repeat (case_match; simplify_eq; try done).
Qed.

Lemma parse_hex_u16_bound v n : parse_hex_u16 v = Value n -> 0 <= n <= uint16_max.
Proof. by apply device_number_bound. Qed.

Lemma identity_line_ids payload e e' : identity_line payload e = Value e' -> ids_ok e'.
Proof.
  unfold identity_line, parse_key_hex. intros He. cbv zeta in He.
  repeat case_match; simplify_eq; repeat constructor; by eapply parse_hex_u16_bound.
Qed.

Lemma parse_line_ok line st : state_ok st ->
  match parse_line line st with Next st' => state_ok st' | Return r => forall l, r <> Value l end.
Proof.
  intros Hst. unfold parse_line. cbv zeta.
  match goal with |- context [try_step ?r _] => assert (forall st', r = Value st' -> state_ok st') as Hr end.
  - destruct (empty _); [intros st'; by apply finish_entry_ok|]. destruct (_ <? _)%nat; [done|].
    destruct (trim_whitespace line) as [|tag [|colon rest]]; [done..|]. destruct (negb _); [done|].
    unfold tag_line. destruct (is_char tag "I").
    + intros st' (st1 & H1 & (e & He & [= <-])%bind_value)%bind_value.
      assert (state_ok st1) as [Hd _].
      { destruct (in_entry st); [by eapply finish_entry_ok|by simplify_eq]. }
      split; [done|]. by eapply identity_line_ids.
    + destruct (negb (in_entry st)); [done|]. intros st' (e & He & [= <-])%bind_value. destruct Hst as [Hd Hi].
      split; [done|]. by eapply entry_line_ids.
  - destruct (if empty _ then _ else _) as [st'|err]; [by apply Hr|done].
Qed.

(** Whatever the device list contains, every device the query returns is
    well formed: its name, identifier, paths and handlers are UTF-8, an optional
    text is absent rather than empty, the hardware numbers fit sixteen bits,
    and the bus is the one of the hardware identity. *)
Theorem devices_well_formed {W} `{Kernel W} : yields (W := W) devices (Forall device_ok).
Proof.
  apply yields_skip. intros [content|e].
  - apply yields_pure. intros l. unfold parse_proc_bus_input_devices. rewrite each_field_fields.
    pose proof (fold_steps_inv state_ok (fun r => forall l, r <> Value l) parse_line (fields ch_lf content)
      (Parse_state [] empty_entry false)) as Hinv.
    destruct (fold_steps _ _ _) as [st|r].
    + cbn [finish]. intros Hl. destruct (finish_entry st) as [st'|] eqn:E; [|done]. injection Hl as <-.
      assert (state_ok st) as Hst; [|by eapply finish_entry_ok in E as [? _]].
      apply Hinv; [|apply parse_line_ok]. split; [done|]. repeat constructor; unfold uint16_max; simpl; lia.
    + intros Hr. exfalso. eapply Hinv; [|apply parse_line_ok|exact Hr].
      split; [done|]. repeat constructor; unfold uint16_max; simpl; lia.
  - destruct (bool_decide _); [|by apply yields_pure].
    intros w v w'. unfold class_directory. destruct (list_directory _ _) as [[errno|[names errno]] w1].
    + destruct (errno =? ENOENT); [by intros [= Hx]|by intros [= Hx]].
    + by intros [= <- <-].
Qed.
