(* ===== verification/Bluetooth.v ===== *)
(** * Bluetooth adapters and devices

    The records of [include/syscape/bluetooth.hpp], the conversions of
    [include/syscape/detail/bluetooth/common.hpp] and the Linux backend
    [include/syscape/detail/bluetooth/linux.hpp] with the public queries.
    [readlink] and the calls on the controller socket are the class
    [BluetoothKernel]; [natural_less] is in [NaturalOrder]. *)
From S2P Require Import Prelude Result CppText Utf8 System DeviceText NaturalOrder.

(** ** bluetooth.hpp *)

Inductive adapter_power_state := power_unknown | power_on | power_off | power_blocked.

#[global] Instance adapter_power_state_eq_dec : EqDecision adapter_power_state.
Proof. solve_decision. Defined.

Inductive adapter_bus_type := bus_unknown | bus_built_in | bus_usb | bus_pci | bus_uart | bus_sdio | bus_virtual.

#[global] Instance adapter_bus_type_eq_dec : EqDecision adapter_bus_type.
Proof. solve_decision. Defined.

Inductive major_device_class :=
  | class_unknown | class_computer | class_phone | class_audio_video | class_peripheral | class_imaging
  | class_wearable | class_toy | class_health | class_network_access_point | class_miscellaneous.

Record adapter_info := Adapter_info {
  adapter_id : text;
  adapter_name : text;
  adapter_address : option text;
  power_state : adapter_power_state;
  bus : adapter_bus_type;
  is_discoverable : option bool;
  is_connectable : option bool;
  hci_version : option Z;
  hci_revision : option Z;
  lmp_version : option Z;
  lmp_subversion : option Z;
  manufacturer_id : option Z
}.

Record device_info := Device_info {
  device_name : option text;
  device_address : text;
  device_adapter_id : option text;
  device_type : major_device_class;
  is_connected : option bool;
  is_paired : option bool;
  is_trusted : option bool;
  is_blocked : option bool;
  class_of_device : option Z;
  rssi_dbm : option Z;
  battery_percentage : option Z
}.

(** ** common.hpp *)

Definition trim_whitespace (v : text) : text := trim_blank v.

(** [parse_int<IntType>]: [chars] is [std::from_chars] of the type. *)
Definition parse_int (chars : Z -> text -> from_chars_result) (base : Z) (input : text) : option Z :=
  let input := trim_whitespace input in
  let input := if (base =? 16) && (2 <=? length input)%nat && bool_decide (input !! 0%nat = Some "0"%char) &&
                  (bool_decide (input !! 1%nat = Some "x"%char) || bool_decide (input !! 1%nat = Some "X"%char))
               then substr_from 2 input else input in
  if empty input then None
  else
    let res := chars base input in
    if consumed res input then Some (fc_value res) else None.

Definition int_chars : Z -> text -> from_chars_result := from_chars_signed int32_min int32_max.

(** The loop over the characters: the digits in upper case. *)
Fixpoint mac_digits (input hex_digits : text) : option text :=
  match input with
  | [] => Some hex_digits
  | c :: input =>
      if is_digit_in 16 c then
        mac_digits input (hex_digits ++ [if (97 <=? code c) && (code c <=? 122) then char_of (code c - 32) else c])
      else if negb (is_char c ":") && negb (is_char c "-") && negb (is_char c ".") then None
      else mac_digits input hex_digits
  end.

(** Pairs of digits separated by colons. *)
Fixpoint mac_pairs (hex_digits : text) : text :=
  match hex_digits with
  | a :: b :: rest => a :: b :: match rest with [] => [] | _ => ":"%char :: mac_pairs rest end
  | _ => []
  end.

Definition normalize_mac_address (input : text) : option text :=
  match mac_digits (trim_whitespace input) [] with
  | None => None
  | Some hex_digits => if negb (length hex_digits =? 12)%nat then None else Some (mac_pairs hex_digits)
  end.

(** The two characters of a byte. *)
Definition byte_digits (b : Z) : text := [hex_digit (Z.land (Z.shiftr b 4) 0x0F); hex_digit (Z.land b 0x0F)].

Definition format_mac_bytes (bytes : list Z) (little_endian : bool) : text :=
  join ":" ((fun i => byte_digits (nth (if little_endian then 5 - i else i)%nat bytes 0)) <$> seq 0 6).

Definition decode_major_device_class (class_of_device : Z) : major_device_class :=
  let major := Z.land (Z.shiftr class_of_device 8) 0x1F in
  if major =? 0 then class_miscellaneous
  else if major =? 1 then class_computer
  else if major =? 2 then class_phone
  else if major =? 3 then class_network_access_point
  else if major =? 4 then class_audio_video
  else if major =? 5 then class_peripheral
  else if major =? 6 then class_imaging
  else if major =? 7 then class_wearable
  else if major =? 8 then class_toy
  else if major =? 9 then class_health
  else class_unknown.

(** ** linux.hpp: the calls *)

Definition EAFNOSUPPORT : Z := 97.
Definition EPROTONOSUPPORT : Z := 93.
(** What [HCIGETDEVINFO] writes of [hci_dev_info], and [HCIGETCONNLIST] of
    [hci_conn_list_req]. *)
Record hci_dev_info := Hci_dev_info { hci_name : text; hci_bdaddr : list Z; hci_flags : Z }.

Record hci_conn_list := Hci_conn_list { conn_num : Z; conn_bdaddr : list (list Z) }.

(** [readlink] into a buffer of the given size: the bytes, or [None] when it
    fails; [hci_socket]: [errno] when [socket] fails; the two requests on the
    socket: success and data, or failure.  The connection list is requested
    again while it is interrupted: the [errno]s of the calls that fail before
    the last one, and the outcome of that one. *)
Class BluetoothKernel (W : Type) := {
  read_link : text -> Z -> W -> option text * W;
  hci_socket : W -> option Z * W;
  get_dev_info : Z -> W -> option hci_dev_info * W;
  get_conn_list : Z -> W -> (list Z * (Z + hci_conn_list)) * W
}.

Section bluetooth.
Context {W : Type} `{Kernel W} `{BluetoothKernel W}.
Variable char_is_signed : bool.

Definition read_sysfs_string (path : text) : query W (option text) := sysfs_text path.

(** [read_sysfs_int<int>(path)]. *)
Definition read_sysfs_int (path : text) : query W (option Z) :=
  str ← read_sysfs_string path;
  match str with
  | None => mret None
  | Some str =>
      match parse_int int_chars 10 str with
      | None => pure (fail errc_malformed_data)
      | Some v => mret (Some v)
      end
  end.

Definition bus_of_target (target : text) : adapter_bus_type :=
  let has part := contains (lit part) target in
  if has "usb" then bus_usb
  else if has "pci" then bus_pci
  else if has "sdio" then bus_sdio
  else if has "serial" || has "tty" || has "uart" then bus_uart
  else if has "platform" || has "amba" then bus_built_in
  else if has "virtio" || has "vhci" then bus_virtual
  else bus_unknown.

Definition detect_bus_type (adapter_dir : text) : query W adapter_bus_type := fun w =>
  match read_link (adapter_dir ++ lit "/device/subsystem") 1023 w with
  | (Some target, w) => (Value (if negb (empty target) then bus_of_target target else bus_unknown), w)
  | (None, w) => (Value bus_unknown, w)
  end.

(** *** Kill switches *)

(** Both files are read before either result is looked at. *)
Definition read_both {A B} (first : query W A) (second : query W B) : query W (A * B) :=
  a ← attempt first;
  b ← attempt second;
  a ← pure a;
  b ← pure b;
  mret (a, b).

Definition switch_blocked (rf_path : text) : query W bool :=
  switches ← read_both (read_sysfs_int (rf_path ++ lit "/soft")) (read_sysfs_int (rf_path ++ lit "/hard"));
  let (soft, hard) := switches : option Z * option Z in
  mret (if bool_decide (is_Some soft) || bool_decide (is_Some hard)
        then (default 0 soft =? 1) || (default 0 hard =? 1) else false).

Definition adapter_switch (adapter_dir name : text) : query W bool :=
  if starts_with (lit "rfkill") name then switch_blocked (adapter_dir ++ "/"%char :: name) else mret false.

Definition class_switch (adapter_id rfkill_root name : text) : query W bool :=
  if hidden name then mret false
  else
    let rf_path := rfkill_root ++ "/"%char :: name in
    identity ← read_both (read_sysfs_string (rf_path ++ lit "/name")) (read_sysfs_string (rf_path ++ lit "/type"));
    let (name, type) := identity : option text * option text in
    if bool_decide (name = Some adapter_id) && bool_decide (type = Some (lit "bluetooth"))
    then switch_blocked rf_path else mret false.

(** The loop over the entries; it ends at the first switch that blocks. *)
Fixpoint switch_loop (visit : text -> query W bool) (names : list text) (errno : Z) : query W bool :=
  match names with
  | [] => if negb (errno =? 0) then pure (fail_native errno) else mret false
  | name :: names =>
      blocked ← visit name;
      if (blocked : bool) then mret true else switch_loop visit names errno
  end.

Definition switches_in (dir : text) (visit : text -> query W bool) : query W bool := fun w =>
  match list_directory dir w with
  | (inl _, w) => (Value false, w)
  | (inr (names, errno), w) => switch_loop visit names errno w
  end.

Definition default_rfkill_root : text := lit "/sys/class/rfkill".

Definition detect_rfkill_state (adapter_id adapter_dir rfkill_root : text) : query W adapter_power_state :=
  blocked ← switches_in adapter_dir (adapter_switch adapter_dir);
  if (blocked : bool) then mret power_blocked
  else
    blocked ← switches_in rfkill_root (class_switch adapter_id rfkill_root);
    mret (if (blocked : bool) then power_blocked else power_unknown).

(** *** Adapters *)

Definition apply_hci_flags (flags : Z) (i : adapter_info) : adapter_info :=
  let flag bit := negb (Z.land flags (wrap 32 (Z.shiftl 1 bit)) =? 0) in
  {| adapter_id := adapter_id i; adapter_name := adapter_name i; adapter_address := adapter_address i;
     power_state := if negb (bool_decide (power_state i = power_blocked)) then (if flag 0 then power_on else power_off)
                    else power_state i;
     bus := bus i; is_discoverable := Some (flag 4); is_connectable := Some (flag 3); hci_version := hci_version i;
     hci_revision := hci_revision i; lmp_version := lmp_version i; lmp_subversion := lmp_subversion i;
     manufacturer_id := manufacturer_id i |}.

(** The members the queries assign. *)
Definition with_identity (name : text) (address : option text) (i : adapter_info) : adapter_info :=
  {| adapter_id := adapter_id i; adapter_name := name; adapter_address := address; power_state := power_state i;
     bus := bus i; is_discoverable := is_discoverable i; is_connectable := is_connectable i; hci_version := hci_version i;
     hci_revision := hci_revision i; lmp_version := lmp_version i; lmp_subversion := lmp_subversion i;
     manufacturer_id := manufacturer_id i |}.

Definition with_name (name : text) (i : adapter_info) : adapter_info := with_identity name (adapter_address i) i.

(** The bytes of the array before its first NUL. *)
Definition device_label (di : hci_dev_info) : text :=
  take (prefix_length (fun c => negb (is_char c ch_nul)) (take 8 (hci_name di))) (take 8 (hci_name di)).

Definition query_hci_ioctl (dev_id : Z) (i : adapter_info) : query W adapter_info := fun w =>
  match hci_socket w with
  | (Some _, w) => (Value i, w)
  | (None, w) =>
      match get_dev_info (wrap 16 dev_id) w with
      | (None, w) => (Value i, w)
      | (Some di, w) =>
          let address := if negb (bool_decide (is_Some (adapter_address i)))
                         then Some (format_mac_bytes (hci_bdaddr di) true) else adapter_address i in
          let dname := device_label di in
          let name := if empty (adapter_name i) && negb (empty dname) && is_valid_utf8 dname
                      then dname else adapter_name i in
          (Value (apply_hci_flags (hci_flags di) (with_identity name address i)), w)
      end
  end.

Definition new_adapter (id name : text) (address : option text) (state : adapter_power_state) (b : adapter_bus_type)
    : adapter_info :=
  Adapter_info id name address state b None None None None None None None.

Definition read_address (adapter_dir : text) : query W (option text) :=
  addr ← read_sysfs_string (adapter_dir ++ lit "/address");
  match addr with
  | None => mret None
  | Some addr =>
      match normalize_mac_address addr with
      | None => pure (fail errc_malformed_data)
      | Some norm => mret (Some norm)
      end
  end.

Definition adapter_number (name : text) : Z :=
  if (3 <? length name)%nat then default 0 (parse_int int_chars 10 (substr_from 3 name)) else 0.

Definition read_adapter (sys_bluetooth name : text) : query W adapter_info :=
  let adapter_dir := sys_bluetooth ++ "/"%char :: name in
  label ← read_sysfs_string (adapter_dir ++ lit "/name");
  address ← read_address adapter_dir;
  state ← detect_rfkill_state name adapter_dir default_rfkill_root;
  bus ← detect_bus_type adapter_dir;
  label ← (if bool_decide (bus = bus_usb) && empty (default [] label)
           then prod ← read_sysfs_string (adapter_dir ++ lit "/device/../product"); mret (default [] prod)
           else mret (default [] label));
  info ← query_hci_ioctl (adapter_number name) (new_adapter name label address state bus);
  mret (if empty (adapter_name info) then with_name name info else info).

Fixpoint adapter_loop (sys_bluetooth : text) (names : list text) (result_list : list adapter_info)
    : query W (list adapter_info) :=
  match names with
  | [] => mret result_list
  | name :: names =>
      info ← read_adapter sys_bluetooth name;
      adapter_loop sys_bluetooth names (result_list ++ [info])
  end.

(** The error of a directory that does not open. *)
Definition open_failure {A} (errno : Z) : result A :=
  if (errno =? EACCES) || (errno =? EPERM) then fail errc_permission_denied else fail_native errno.

Definition is_adapter (name : text) : bool := negb (hidden name) && starts_with (lit "hci") name.

Definition sys_bluetooth : text := lit "/sys/class/bluetooth".

Definition adapters : query W (list adapter_info) := fun w =>
  match list_directory sys_bluetooth w with
  | (inl errno, w) => (if errno =? ENOENT then Value [] else open_failure errno, w)
  | (inr (names, errno), w) =>
      if negb (errno =? 0) then (fail_native errno, w)
      else adapter_loop sys_bluetooth (std_sort (natural_less char_is_signed) (List.filter is_adapter names)) [] w
  end.

Definition adapter_count : query W Z := res ← adapters; mret (Z.of_nat (length res)).

Definition default_adapter : query W adapter_info :=
  res ← adapters;
  match res with
  | [] => pure (fail errc_not_found)
  | first :: _ =>
      mret (match list_find (fun ad => adapter_id ad = lit "hci0") res with
            | Some (_, ad) => ad
            | None => first
            end)
  end.

(** *** Connections *)

Definition socket_failure {A} (errno : Z) : result A :=
  if (errno =? EACCES) || (errno =? EPERM) then fail errc_permission_denied
  else if (errno =? EAFNOSUPPORT) || (errno =? EPROTONOSUPPORT) then fail errc_not_supported
  else fail_native errno.

Definition request_failure {A} (errno : Z) : result A :=
  if (errno =? EACCES) || (errno =? EPERM) then fail errc_permission_denied
  else if (errno =? EOPNOTSUPP) || (errno =? ENOTTY) then fail errc_not_supported
  else fail_native errno.

(** [do { ... } while (ioctl_result < 0 && errno == EINTR);] *)
Fixpoint request_loop (failures : list Z) (last : Z + hci_conn_list) : result hci_conn_list :=
  match failures with
  | [] => match last with inl errno => request_failure errno | inr cl => Value cl end
  | errno :: failures => if errno =? EINTR then request_loop failures last else request_failure errno
  end.

Definition connected_device (id : text) (bdaddr : list Z) : device_info :=
  Device_info None (format_mac_bytes bdaddr true) (Some id) class_unknown (Some true) None None None None None None.

(** The array has 64 elements; those the request does not write are zero. *)
Definition listed_devices (id : text) (cl : hci_conn_list) : list device_info :=
  (fun i => connected_device id (nth i (conn_bdaddr cl) [])) <$> seq 0 (Z.to_nat (Z.min (conn_num cl) 64)).

Definition adapter_connections (ad : adapter_info) : query W (list device_info) :=
  if (length (adapter_id ad) <=? 3)%nat then pure (fail errc_malformed_data)
  else
    match parse_int (from_chars_unsigned uint16_max) 10 (substr_from 3 (adapter_id ad)) with
    | None => pure (fail errc_malformed_data)
    | Some parsed => fun w =>
        let (outcome, w) := get_conn_list parsed w in
        (cl ← request_loop (fst outcome) (snd outcome); mret (listed_devices (adapter_id ad) cl), w)
    end.

Fixpoint connection_loop (ads : list adapter_info) (result_list : list device_info) : query W (list device_info) :=
  match ads with
  | [] => mret result_list
  | ad :: ads =>
      found ← adapter_connections ad;
      connection_loop ads (result_list ++ found)
  end.

Definition connected_devices : query W (list device_info) :=
  ads ← adapters;
  match ads with
  | [] => mret []
  | _ => fun w =>
      match hci_socket w with
      | (Some errno, w) => (socket_failure errno, w)
      | (None, w) => connection_loop ads [] w
      end
  end.

(** *** Pairing records *)

Definition parse_flag (v : text) : result bool :=
  if negb (same v (lit "true")) && negb (same v (lit "false")) && negb (same v (lit "1")) && negb (same v (lit "0"))
  then fail errc_malformed_data
  else Value (same v (lit "true") || same v (lit "1")).

Definition parse_class (v : text) : option Z :=
  match parse_int (from_chars_unsigned uint32_max) 16 v with
  | Some cod => Some cod
  | None => parse_int (from_chars_unsigned uint32_max) 10 v
  end.

(** The members a pairing record assigns. *)
Definition with_record (name : option text) (type : major_device_class) (paired trusted blocked : option bool)
    (cod : option Z) (d : device_info) : device_info :=
  Device_info name (device_address d) (device_adapter_id d) type (is_connected d) paired trusted blocked cod
    (rssi_dbm d) (battery_percentage d).

Definition info_setting (key v : text) (d : device_info) : result device_info :=
  let is_key k := same key (lit k) in
  if is_key "Name" || is_key "Alias" then
    if negb (is_valid_utf8 v) then fail errc_invalid_encoding
    else Value (match device_name d with
                | None => with_record (Some v) (device_type d) (is_paired d) (is_trusted d) (is_blocked d)
                            (class_of_device d) d
                | Some _ => d
                end)
  else if is_key "Class" then
    match parse_class v with
    | None => fail errc_malformed_data
    | Some cod => Value (with_record (device_name d) (decode_major_device_class cod) (is_paired d) (is_trusted d)
                           (is_blocked d) (Some cod) d)
    end
  else if is_key "Trusted" then
    b ← parse_flag v;
    mret (with_record (device_name d) (device_type d) (is_paired d) (Some b) (is_blocked d) (class_of_device d) d)
  else if is_key "Blocked" then
    b ← parse_flag v;
    mret (with_record (device_name d) (device_type d) (is_paired d) (is_trusted d) (Some b) (class_of_device d) d)
  else if is_key "Bonded" then
    b ← parse_flag v;
    mret (with_record (device_name d) (device_type d) (Some b) (is_trusted d) (is_blocked d) (class_of_device d) d)
  else Value d.

Definition info_line (line : text) (d : device_info) : step device_info (result device_info) :=
  let line := trim_whitespace line in
  match line with
  | [] => Next d
  | front :: _ =>
      if is_char front "[" || is_char front "#" then Next d
      else
        match find "=" line 0 with
        | None => Next d
        | Some eq =>
            d <-? info_setting (trim_whitespace (substr 0 eq line)) (trim_whitespace (substr_from (S eq) line)) d;
            Next d
        end
  end.

Definition parse_info (content : text) (d : device_info) : result device_info :=
  finish (each_field ch_lf content info_line d) Value.

Definition new_paired (address : text) : device_info :=
  Device_info None address None class_unknown None (Some true) None None None None None.

Definition visit_device (adapter_path name : text) (result_list : list device_info) : query W (list device_info) :=
  if hidden name then mret result_list
  else
    match normalize_mac_address name with
    | None => mret result_list
    | Some dev_mac =>
        content ← attempt (read_text_file (adapter_path ++ "/"%char :: name ++ lit "/info") 16384);
        match content with
        | Failure e =>
            if matches_std_errc e ENOENT then mret result_list
            else if matches_std_errc e EACCES then pure (fail errc_permission_denied)
            else pure (Failure e)
        | Value content =>
            dev ← pure (parse_info content (new_paired dev_mac));
            mret (if negb (bool_decide (is_paired dev = Some false)) then result_list ++ [dev] else result_list)
        end
    end.

(** The loop over the entries of a directory. *)
Fixpoint record_loop (visit : text -> list device_info -> query W (list device_info)) (names : list text) (errno : Z)
    (result_list : list device_info) : query W (list device_info) :=
  match names with
  | [] => if negb (errno =? 0) then pure (fail_native errno) else mret result_list
  | name :: names =>
      result_list ← visit name result_list;
      record_loop visit names errno result_list
  end.

Definition records_in (dir : text) (visit : text -> list device_info -> query W (list device_info))
    (result_list : list device_info) : query W (list device_info) := fun w =>
  match list_directory dir w with
  | (inl errno, w) => (if errno =? ENOENT then Value result_list else open_failure errno, w)
  | (inr (names, errno), w) => record_loop visit names errno result_list w
  end.

Definition visit_adapter (bluez_root name : text) (result_list : list device_info) : query W (list device_info) :=
  if hidden name then mret result_list
  else
    match normalize_mac_address name with
    | None => mret result_list
    | Some _ =>
        let adapter_path := bluez_root ++ "/"%char :: name in
        records_in adapter_path (visit_device adapter_path) result_list
    end.

Definition paired_devices_in (bluez_root : text) : query W (list device_info) :=
  records_in bluez_root (visit_adapter bluez_root) [].

Definition paired_devices : query W (list device_info) := paired_devices_in (lit "/var/lib/bluetooth").
End bluetooth.

(** ** Addresses *)

Definition mac_char (c : ascii) : bool := is_digit_in 16 c || is_char c ":" || is_char c "-" || is_char c ".".

(** Twelve digits as the address they write. *)
Definition mac_of (ds : list Z) : text := mac_pairs (hex_digit <$> ds).

(** The text of an address: twelve digits in upper case, in pairs. *)
Definition mac_text (m : text) : Prop := exists ds, length ds = 12%nat /\ Forall (fun d => 0 <= d < 16) ds /\ m = mac_of ds.

Lemma upper_digit c d : digit_of 16 c = Some d ->
  (if (97 <=? code c) && (code c <=? 122) then char_of (code c - 32) else c) = hex_digit d.
Proof.
  unfold digit_of, hex_digit. pose proof (code_bound c). cbv zeta.
  repeat split_if; try lia; intros [= <-]; repeat split_if; try lia;
    first [f_equal; lia|rewrite <- (char_of_code c) at 1; f_equal; lia].
Qed.

Lemma mac_digits_spec input acc :
  mac_digits input acc = if forallb mac_char input then Some (acc ++ (hex_digit <$> omap (digit_of 16) input)) else None.
Proof.
  revert acc. induction input as [|c input IH]; intros acc; [by rewrite app_nil_r|]. cbn [mac_digits forallb].
  unfold mac_char at 1, is_digit_in. destruct (digit_of 16 c) as [d|] eqn:E.
  - rewrite IH, (upper_digit c d E). cbn [orb andb]. destruct (forallb _ _); [|done].
    cbn [omap list_omap]. rewrite E. cbn [fmap list_fmap]. by rewrite <- app_assoc.
  - cbn [orb]. rewrite IH. change (omap (digit_of 16) (c :: input)) with
      (match digit_of 16 c with Some y => y :: omap (digit_of 16) input | None => omap (digit_of 16) input end).
    rewrite E. by destruct (is_char c ":"), (is_char c "-"), (is_char c ".").
Qed.

Lemma digits_in_range input : Forall (fun d => 0 <= d < 16) (omap (digit_of 16) input).
Proof.
  apply Forall_forall. intros d (c & _ & Hc)%list_elem_of_omap. by eapply digit_of_bound.
Qed.

(** An address is accepted exactly when it has twelve hexadecimal digits
    and otherwise only colons, hyphens and dots; the result is these digits in
    upper case, in pairs separated by colons. *)
Theorem normalize_mac_address_spec (input m : text) :
  normalize_mac_address input = Some m <->
  Forall (fun c => mac_char c = true) (trim_whitespace input) /\
  length (omap (digit_of 16) (trim_whitespace input)) = 12%nat /\
  m = mac_of (omap (digit_of 16) (trim_whitespace input)).
Proof.
  unfold normalize_mac_address. rewrite mac_digits_spec, <- forallb_true. cbn [app].
  destruct (forallb mac_char _); [|naive_solver].
  rewrite length_fmap. destruct (Nat.eqb_spec (length (omap (digit_of 16) (trim_whitespace input))) 12); cbn [negb]; naive_solver.
Qed.

(** The text of six bytes. *)
Lemma format_mac_text bytes little_endian : mac_text (format_mac_bytes bytes little_endian).
Proof.
  unfold format_mac_bytes. set (f := fun i => nth (if little_endian then 5 - i else i)%nat bytes 0).
  change ((fun i : nat => byte_digits (nth (if little_endian then (5 - i)%nat else i) bytes 0)) <$> seq 0 6)
    with ((fun i => byte_digits (f i)) <$> seq 0 6).
  exists (concat ((fun i => [Z.land (Z.shiftr (f i) 4) 0x0F; Z.land (f i) 0x0F]) <$> seq 0 6)).
  split; [done|]. split; [|done].
  assert (forall x, 0 <= Z.land x 0x0F < 16) as Hl.
  { intros x. rewrite (land_mask 4 x 0x0F) by (done || lia). apply Z.mod_pos_bound. lia. }
  repeat (apply Forall_cons_2; [apply Hl|]). done.
Qed.

Lemma mac_pairs_digits hs : (length hs = 12)%nat -> Forall (fun c => is_digit_in 16 c = true) hs ->
  Forall (fun c => mac_char c = true) (mac_pairs hs) /\ trim_whitespace (mac_pairs hs) = mac_pairs hs /\
  omap (digit_of 16) (mac_pairs hs) = omap (digit_of 16) hs.
Proof.
  intros Hlen Hhs. do 12 (destruct hs as [|? hs]; [done|]). destruct hs; [|done]. clear Hlen. cbn [mac_pairs].
  assert (forall c, is_digit_in 16 c = true -> mac_char c = true /\ blank c = false) as Hc.
  { intros c Hc. unfold mac_char. rewrite Hc. split; [done|by apply hex_not_blank]. }
  rewrite !Forall_cons in Hhs. destruct_and!. split; [|split].
  - repeat (apply Forall_cons_2; [first [by apply Hc|done]|]). done.
  - apply trim_trimmed. split; cbn; intros x [= <-]; by apply Hc.
  - done.
Qed.

(** An address in its normal form is its own normal form. *)
Lemma normalize_mac_text m : mac_text m -> normalize_mac_address m = Some m.
Proof.
  intros (ds & Hlen & Hds & ->). apply normalize_mac_address_spec. unfold mac_of.
  assert (Forall (fun c => is_digit_in 16 c = true) (hex_digit <$> ds)) as Hd.
  { apply Forall_fmap. eapply Forall_impl; [exact Hds|]. intros d Hd. unfold compose, is_digit_in.
    by rewrite digit_of_hex_digit. }
  destruct (mac_pairs_digits (hex_digit <$> ds)) as (H1 & H2 & H3); [by rewrite length_fmap|done|].
  rewrite H2, H3. assert (omap (digit_of 16) (hex_digit <$> ds) = ds) as ->; [|done].
  clear -Hds. induction Hds as [|d ds Hd _ IH]; [done|]. csimpl. by rewrite digit_of_hex_digit, IH.
Qed.

Lemma normalized_mac input m : normalize_mac_address input = Some m -> mac_text m.
Proof.
  rewrite normalize_mac_address_spec. intros (_ & Hlen & ->). eexists. split; [exact Hlen|].
  split; [apply digits_in_range|done].
Qed.

(** ** Pairing records *)

(** The settings of a record: the lines [key=value] that are not comments or
    section titles. *)
Definition setting_of (line : text) : option (text * text) :=
  let line := trim_whitespace line in
  match line with
  | [] => None
  | front :: _ =>
      if is_char front "[" || is_char front "#" then None
      else (fun eq => (trim_whitespace (substr 0 eq line), trim_whitespace (substr_from (S eq) line))) <$> find "=" line 0
  end.

Definition settings (content : text) : list (text * text) := omap setting_of (fields ch_lf content).

(** The values of a key, in the order of the record. *)
Definition values_of (keys : list string) (s : list (text * text)) : list text :=
  omap (fun kv => if bool_decide (fst kv ∈ lit <$> keys) then Some (snd kv) else None) s.

Definition last_or {A} (old : option A) (l : list A) : option A := match last l with Some x => Some x | None => old end.

Definition is_flag (v : text) : Prop := v ∈ lit <$> ["true"; "false"; "1"; "0"]%string.

Definition flag_value (v : text) : bool := same v (lit "true") || same v (lit "1").

(** What a record must satisfy to be accepted. *)
Definition settings_ok (s : list (text * text)) : Prop :=
  Forall (fun v => is_valid_utf8 v = true) (values_of ["Name"; "Alias"]%string s) /\
  Forall (fun v => is_Some (parse_class v)) (values_of ["Class"]%string s) /\
  Forall is_flag (values_of ["Trusted"; "Blocked"; "Bonded"]%string s).

(** The device after the settings: the first name or alias, and the last value
    of every other key. *)
Definition record_of (d : device_info) (s : list (text * text)) : device_info :=
  let flag old key := last_or old (flag_value <$> values_of [key] s) in
  let cod := last (omap parse_class (values_of ["Class"]%string s)) in
  with_record
    (match device_name d with Some n => Some n | None => head (values_of ["Name"; "Alias"]%string s) end)
    (match cod with Some cod => decode_major_device_class cod | None => device_type d end)
    (flag (is_paired d) "Bonded"%string) (flag (is_trusted d) "Trusted"%string) (flag (is_blocked d) "Blocked"%string)
    (match cod with Some cod => Some cod | None => class_of_device d end) d.

Definition apply_setting (kv : text * text) (d : device_info) : step device_info (result device_info) :=
  d <-? info_setting (fst kv) (snd kv) d; Next d.

Lemma info_line_setting line d :
  info_line line d = match setting_of line with Some kv => apply_setting kv d | None => Next d end.
Proof.
  unfold info_line, setting_of. destruct (trim_whitespace line) as [|front rest]; [done|].
  destruct (_ || _); [done|]. by destruct (find _ _ _).
Qed.

Lemma parse_info_settings content d :
  parse_info content d = finish (fold_steps apply_setting (settings content) d) Value.
Proof.
  unfold parse_info, settings. rewrite each_field_fields. f_equal.
  induction (fields ch_lf content) as [|line lines IH] in d |- *; [done|]. cbn [fold_steps omap list_omap].
  rewrite info_line_setting. destruct (setting_of line); [|apply IH]. cbn [fold_steps].
  by destruct (apply_setting _ _).
Qed.

Lemma parse_flag_spec v : parse_flag v = if decide (is_flag v) then Value (flag_value v) else fail errc_malformed_data.
Proof.
  unfold parse_flag, flag_value, is_flag, same. cbn [fmap list_fmap].
  destruct (decide _) as [Hv|Hv].
  - assert (bool_decide (v = lit "true") || bool_decide (v = lit "false") || bool_decide (v = lit "1") ||
            bool_decide (v = lit "0") = true) as Hb.
    { rewrite !orb_true_iff, !bool_decide_eq_true. set_solver. }
    by destruct (bool_decide (v = lit "true")), (bool_decide (v = lit "false")), (bool_decide (v = lit "1")),
      (bool_decide (v = lit "0")).
  - rewrite !bool_decide_eq_false_2 by set_solver. done.
Qed.

Lemma values_of_cons keys k v s :
  values_of keys ((k, v) :: s) = if bool_decide (k ∈ lit <$> keys) then v :: values_of keys s else values_of keys s.
Proof. unfold values_of. cbn [omap list_omap fst snd]. by destruct (bool_decide _). Qed.

Lemma last_or_cons {A} old (x : A) l : last_or old (x :: l) = last_or (Some x) l.
Proof. unfold last_or. rewrite last_cons. by destruct (last l). Qed.

Definition known_keys : list string := ["Name"; "Alias"; "Class"; "Trusted"; "Blocked"; "Bonded"].

(** Evaluates the comparisons of two known keys. *)
Ltac decide_keys :=
  repeat match goal with
  | |- context [bool_decide (lit ?a ∈ lit <$> ?l)] =>
      let b := eval vm_compute in (bool_decide (lit a ∈ lit <$> l)) in change (bool_decide (lit a ∈ lit <$> l)) with b
  | |- context [same (lit ?a) (lit ?b)] =>
      let v := eval vm_compute in (same (lit a) (lit b)) in change (same (lit a) (lit b)) with v
  end; cbv iota.

(** One outcome of a setting: accepted with a result, or rejected. *)
Lemma accepted {A} (x y : A) (P : Prop) : P -> Value x = Value y <-> P /\ y = x.
Proof. intros HP. split; [by intros [= ->]|by intros [_ ->]]. Qed.

Lemma rejected {A} e (x y : A) (P : Prop) : ~ P -> Failure e = Value y <-> P /\ y = x.
Proof. intros HP. split; [done|by intros [? _]]. Qed.

Ltac single_setting := split_and!; repeat (apply Forall_cons_2; [by eauto|]); apply Forall_nil_2.

Lemma setting_spec k v d d1 : info_setting k v d = Value d1 <-> settings_ok [(k, v)] /\ d1 = record_of d [(k, v)].
Proof.
  unfold settings_ok, record_of, info_setting. cbv zeta. rewrite !values_of_cons. change (values_of ?keys []) with (@nil text).
  destruct (decide (k ∈ lit <$> known_keys)) as [Hk|Hk].
  - unfold known_keys in Hk. cbn [fmap list_fmap] in Hk.
    repeat (apply elem_of_cons in Hk as [->|Hk]; [decide_keys|]); [..|by apply elem_of_nil in Hk];
      destruct d as [[]]; cbn -[is_valid_utf8 parse_class is_flag]; rewrite ?parse_flag_spec.
    1-4: destruct (is_valid_utf8 v) eqn:E; cbn [negb];
      [apply accepted; single_setting|apply rejected; intros (Hu & _); apply Forall_inv in Hu; congruence].
    1, 2: destruct (parse_class v) as [cod|] eqn:E; cbn;
      [apply accepted; single_setting|
       apply rejected; intros (_ & Hu & _); apply Forall_inv in Hu; rewrite E in Hu; by destruct Hu].
    all: destruct (decide (is_flag v)) as [E|E]; cbn;
      [apply accepted; single_setting|apply rejected; intros (_ & _ & Hu); by apply Forall_inv in Hu].
  - assert (forall x, x ∈ known_keys -> k <> lit x) as Hs.
    { intros x Hx ->. apply Hk. by apply list_elem_of_fmap_2. }
    assert (forall x, x ∈ known_keys -> same k (lit x) = false) as Hf by (intros x Hx; by apply bool_decide_eq_false, Hs).
    rewrite !Hf by by_compute. cbn [orb].
    assert (forall keys, keys ⊆ known_keys -> bool_decide (k ∈ lit <$> keys) = false) as Hb.
    { intros keys Hkeys. apply bool_decide_eq_false. intros (x & -> & Hx)%list_elem_of_fmap. by eapply Hs; [apply Hkeys|]. }
    rewrite !Hb by (unfold known_keys; set_solver). cbn. destruct d as [[]]; cbn; apply accepted; single_setting.
Qed.

Lemma settings_ok_cons kv s : settings_ok (kv :: s) <-> settings_ok [kv] /\ settings_ok s.
Proof.
  destruct kv as [k v]. unfold settings_ok. rewrite !values_of_cons. change (values_of ?keys []) with (@nil text).
  repeat destruct (bool_decide _); rewrite ?Forall_cons, ?Forall_nil; tauto.
Qed.

Lemma record_of_cons kv s d : record_of d (kv :: s) = record_of (record_of d [kv]) s.
Proof.
  destruct kv as [k v]. unfold record_of. cbv zeta. rewrite !values_of_cons. change (values_of ?keys []) with (@nil text).
  destruct d as [n]. unfold with_record. f_equal; cbn; destruct (bool_decide _); cbn; try done.
  - by destruct n.
  - by destruct n.
  - destruct (parse_class v); [|done]. rewrite last_cons. by destruct (last _).
  - by rewrite last_or_cons.
  - by rewrite last_or_cons.
  - by rewrite last_or_cons.
  - destruct (parse_class v); [|done]. rewrite last_cons. by destruct (last _).
Qed.

Lemma parse_info_spec content d d' :
  parse_info content d = Value d' <-> settings_ok (settings content) /\ d' = record_of d (settings content).
Proof.
  rewrite parse_info_settings. generalize (settings content). intros s.
  induction s as [|kv s IH] in d |- *.
  - cbn. destruct d as [[]]; apply accepted; by split_and!.
  - cbn [fold_steps]. unfold apply_setting at 1. destruct kv as [k v]. cbn [fst snd].
    rewrite settings_ok_cons, record_of_cons. pose proof (setting_spec k v d) as Hs.
    destruct (info_setting k v d) as [d1|e]; cbn [try_step].
    + rewrite IH. destruct (Hs d1) as [Hd _]. destruct Hd as [Hok ->]; [done|]. naive_solver.
    + cbn. split; [done|]. intros [[Hok _] _]. discriminate (proj2 (Hs _) (conj Hok eq_refl)).
Qed.

Section still.
Context {W : Type} `{Kernel W} `{BluetoothKernel W}.
Variable w : W.
Hypothesis open_still : forall path, snd (open_file path w) = w.
Hypothesis list_still : forall path, snd (list_directory path w) = w.

(** The devices found in a directory, entry by entry. *)
Definition entries_found (found_at : text -> list device_info -> Prop) (dir : text) (found : list device_info) : Prop :=
  match fst (list_directory dir w) with
  | inl errno => errno = ENOENT /\ found = []
  | inr (names, errno) => errno = 0 /\ exists founds, Forall2 found_at names founds /\ found = concat founds
  end.

Definition entry_address (name : text) : option text := if hidden name then None else normalize_mac_address name.

(** The record of a device: its settings, and whether it is bonded. *)
Definition device_found (adapter_path name : text) (found : list device_info) : Prop :=
  match entry_address name with
  | None => found = []
  | Some mac =>
      match fst (read_text_file (adapter_path ++ "/"%char :: name ++ lit "/info") 16384 w) with
      | Failure e => matches_std_errc e ENOENT = true /\ found = []
      | Value content =>
          settings_ok (settings content) /\
          found = (let dev := record_of (new_paired mac) (settings content) in
                   if bool_decide (is_paired dev = Some false) then [] else [dev])
      end
  end.

Definition adapter_found (bluez_root name : text) (found : list device_info) : Prop :=
  match entry_address name with
  | None => found = []
  | Some _ => entries_found (device_found (bluez_root ++ "/"%char :: name)) (bluez_root ++ "/"%char :: name) found
  end.

(** A visit leaves the state and appends what the predicate describes. *)
Definition finds (visit : text -> list device_info -> query W (list device_info))
    (found_at : text -> list device_info -> Prop) : Prop := forall name acc,
  quiet w (visit name acc) /\
  forall r, fst (visit name acc w) = Value r <-> exists found, found_at name found /\ r = acc ++ found.

Lemma record_loop_finds visit found_at names errno acc :
  finds visit found_at ->
  quiet w (record_loop visit names errno acc) /\
  forall r, fst (record_loop visit names errno acc w) = Value r <->
    errno = 0 /\ exists founds, Forall2 found_at names founds /\ r = acc ++ concat founds.
Proof.
  intros Hv. induction names as [|name names IH] in acc |- *; cbn [record_loop].
  - destruct (Z.eqb_spec errno 0) as [->|Hne]; cbn [negb]; (split; [done|]); intros r; cbn.
    + split; [intros [= <-]; split; [done|]; exists []; by rewrite app_nil_r|].
      intros (_ & founds & Hf & ->). apply Forall2_nil_inv_l in Hf as ->. by rewrite app_nil_r.
    + split; [done|]. by intros [? _].
  - destruct (Hv name acc) as [Hq Hr]. split.
    { apply quiet_bind; [done|]. intros v _. apply IH. }
    intros r. rewrite quiet_value by done. setoid_rewrite Hr. split.
    + intros (x & (found & Hf & ->) & Hx). apply IH in Hx as (-> & founds & Hfs & ->).
      split; [done|]. exists (found :: founds). split; [by constructor|]. by rewrite <- app_assoc.
    + intros (-> & founds & Hfs & ->). apply Forall2_cons_inv_l in Hfs as (found & founds' & Hf & Hfs & ->).
      exists (acc ++ found). split; [by exists found|]. apply IH. split; [done|]. exists founds'.
      split; [done|]. by rewrite <- app_assoc.
Qed.

Lemma records_in_finds visit found_at dir acc :
  finds visit found_at ->
  quiet w (records_in dir visit acc) /\
  forall r, fst (records_in dir visit acc w) = Value r <-> exists found, entries_found found_at dir found /\ r = acc ++ found.
Proof.
  intros Hv. unfold quiet, records_in, entries_found. pose proof (list_still dir) as Hl.
  destruct (list_directory dir w) as [[errno|[names errno]] w1]; cbn in Hl |- *; subst w1.
  - split; [done|]. intros r. destruct (Z.eqb_spec errno ENOENT) as [->|Hne].
    + split; [intros [= <-]; exists []; by rewrite app_nil_r|]. intros (? & (_ & ->) & ->). by rewrite app_nil_r.
    + unfold open_failure. split; [by destruct (_ || _)|]. by intros (? & [? _] & _).
  - destruct (record_loop_finds visit found_at names errno acc Hv) as [Hq Hr]. split; [done|].
    intros r. rewrite Hr. naive_solver.
Qed.

Lemma visit_device_finds adapter_path : finds (visit_device adapter_path) (device_found adapter_path).
Proof.
  intros name acc. unfold visit_device, device_found, entry_address.
  assert (forall r : list device_info, Value acc = Value r <-> exists found, found = [] /\ r = acc ++ found) as Hnone.
  { intros r. split; [intros [= <-]; exists []; by rewrite app_nil_r|]. intros (? & -> & ->). by rewrite app_nil_r. }
  destruct (hidden name); [by split|]. destruct (normalize_mac_address name) as [mac|]; [|by split].
  set (path := adapter_path ++ _). pose proof (quiet_read w open_still path 16384) as Hq.
  unfold quiet, mbind, query_bind, attempt in *. destruct (read_text_file path 16384 w) as [[content|e] w1]; cbn in Hq |- *; subst w1.
  - destruct (parse_info content (new_paired mac)) as [dev|e] eqn:E; cbn.
    + split; [done|]. apply parse_info_spec in E as [Hok ->]. intros r.
      destruct (bool_decide _); cbn; (split; [intros [= <-]|intros (? & [_ ->] & ->)]); rewrite ?app_nil_r; try done;
        eexists; (split; [done|]); by rewrite ?app_nil_r.
    + split; [done|]. intros r. split; [done|]. intros (found & [Hok _] & _).
      by rewrite (proj2 (parse_info_spec _ _ _) (conj Hok eq_refl)) in E.
  - destruct (matches_std_errc e ENOENT); cbn; [split; [done|]; intros r; rewrite Hnone; naive_solver|].
    destruct (matches_std_errc e EACCES); cbn; (split; [done|]); intros r; (split; [done|]); by intros (? & [? _] & _).
Qed.

Lemma visit_adapter_finds bluez_root : finds (visit_adapter bluez_root) (adapter_found bluez_root).
Proof.
  intros name acc. unfold visit_adapter, adapter_found, entry_address.
  assert (forall r : list device_info, Value acc = Value r <-> exists found, found = [] /\ r = acc ++ found) as Hnone.
  { intros r. split; [intros [= <-]; exists []; by rewrite app_nil_r|]. intros (? & -> & ->). by rewrite app_nil_r. }
  destruct (hidden name); [by split|]. destruct (normalize_mac_address name); [|by split].
  apply records_in_finds, visit_device_finds.
Qed.

(** C32: the paired devices are exactly those of the pairing records, adapter by
    adapter and device by device in the order of the directories, each with
    what its record says - the first name or alias, the last class and flags,
    and not the devices whose record ends unbonded.  The query succeeds exactly
    when every directory opens and every record that exists has valid names,
    classes and flags. *)
Theorem paired_devices_denote (bluez_root : text) (l : list device_info) :
  fst (paired_devices_in bluez_root w) = Value l <-> entries_found (adapter_found bluez_root) bluez_root l.
Proof.
  destruct (records_in_finds _ _ bluez_root [] (visit_adapter_finds bluez_root)) as [_ Hr].
  unfold paired_devices_in. rewrite Hr. naive_solver.
Qed.
End still.

Definition record_files : list (string * string) := [
  ("/b/00:1A:7D:DA:71:13/AC:12:2F:00:01:02/info",
   String.concat (String.String ch_lf String.EmptyString) ["[General]"; "Name=Headset"; "Alias=Mine"; "Class=0x240404"; "Trusted=false"; "Trusted = true"; "Blocked=0"; ""])]%string.

Definition record_kernel : Kernel unit := listing_kernel record_files [
  ("/b", ["."; "00:1A:7D:DA:71:13"; "cache"]); ("/b/00:1A:7D:DA:71:13", ["settings"; "AC:12:2F:00:01:02"; "ac:12:2f:00:01:03"])]%string.

Definition sample_device : device_info :=
  Device_info (Some (lit "Headset")) (lit "AC:12:2F:00:01:02") None class_audio_video None (Some true) (Some true)
    (Some false) (Some 0x240404) None None.

Lemma paired_devices_denote_witness :
  @entries_found unit record_kernel tt (@adapter_found unit record_kernel tt (lit "/b")) (lit "/b") [sample_device].
Proof.
  refine (proj1 (@paired_devices_denote unit record_kernel tt (fun path => eq_refl) (fun path => eq_refl) (lit "/b") [sample_device]) _).
  vm_compute. reflexivity.
Defined.

(** ** Adapters *)

Section adapters.
Context {W : Type} `{Kernel W} `{BluetoothKernel W}.
Variable char_is_signed : bool.

(** A name is UTF-8, unless it is the identifier, which stands in for it. *)
Definition adapter_ok (a : adapter_info) : Prop :=
  adapter_name a <> [] /\
  (adapter_name a = adapter_id a \/ is_valid_utf8 (adapter_name a) = true) /\
  (forall m, adapter_address a = Some m -> mac_text m) /\
  (is_Some (is_discoverable a) <-> is_Some (is_connectable a)) /\
  (power_state a = power_on \/ power_state a = power_off -> is_Some (is_connectable a)).

Lemma yields_address dir : yields (W := W) (read_address dir) (fun a => forall m, a = Some m -> mac_text m).
Proof.
  apply yields_skip. intros [addr|]; [|by apply yields_ret].
  destruct (normalize_mac_address addr) as [norm|] eqn:E; [|by apply yields_pure].
  apply yields_ret. intros m [= <-]. by eapply normalized_mac.
Qed.

Lemma yields_rfkill id dir root :
  yields (W := W) (detect_rfkill_state id dir root) (fun s => s = power_blocked \/ s = power_unknown).
Proof.
  apply yields_skip. intros []; [by apply yields_ret; left|]. apply yields_skip.
  intros []; apply yields_ret; [by left|by right].
Qed.

Lemma yields_hci dev_id id name address state b :
  (state = power_blocked \/ state = power_unknown) -> (name = [] \/ is_valid_utf8 name = true) ->
  (forall m, address = Some m -> mac_text m) ->
  yields (W := W) (query_hci_ioctl dev_id (new_adapter id name address state b)) (fun a =>
    adapter_id a = id /\ (adapter_name a = [] \/ is_valid_utf8 (adapter_name a) = true) /\
    (forall m, adapter_address a = Some m -> mac_text m) /\
    (is_Some (is_discoverable a) <-> is_Some (is_connectable a)) /\
    (power_state a = power_on \/ power_state a = power_off -> is_Some (is_connectable a))).
Proof.
  intros Hs Hn Ha w v w'. unfold query_hci_ioctl.
  assert (power_state (new_adapter id name address state b) = power_on \/
          power_state (new_adapter id name address state b) = power_off -> False) as Hno.
  { cbn. intros [->| ->]; by destruct Hs. }
  destruct (hci_socket w) as [[errno|] w1]; [intros [= <- _]; split_and!; try done; by intros ?%Hno|].
  destruct (get_dev_info _ w1) as [[di|] w2]; [|intros [= <- _]; split_and!; try done; by intros ?%Hno].
  intros [= <- _]. cbn -[is_valid_utf8 format_mac_bytes]. split_and!; [done| | |by split; eexists|by eexists].
  - destruct (empty name && negb (empty (device_label di)) && is_valid_utf8 (device_label di)) eqn:E; [right|done].
    by apply andb_true_iff in E as [_ E].
  - destruct (negb _); [|done]. intros m [= <-]. apply format_mac_text.
Qed.

Lemma yields_adapter dir name : name <> [] ->
  yields (W := W) (read_adapter dir name) (fun a => adapter_id a = name /\ adapter_ok a).
Proof.
  intros Hne. unfold read_adapter. cbv zeta.
  eapply yields_bind; [apply yields_sysfs_text|]. intros label Hlabel.
  eapply yields_bind; [apply yields_address|]. intros address Haddress.
  eapply yields_bind; [apply yields_rfkill|]. intros state Hstate.
  apply yields_skip. intros b.
  apply (yields_bind _ _ (fun label => label = [] \/ is_valid_utf8 label = true)).
  { assert (forall v : option text, (forall t, v = Some t -> t <> [] /\ is_valid_utf8 t = true) ->
      default [] v = [] \/ is_valid_utf8 (default [] v) = true) as Hd.
    { intros [t|] Ht; [right; by apply Ht|by left]. }
    destruct (_ && _); [|by apply yields_ret, Hd].
    eapply yields_bind; [apply yields_sysfs_text|]. intros prod Hprod. by apply yields_ret, Hd. }
  intros label' Hlabel'. eapply yields_bind; [by apply yields_hci|].
  intros a (Hid & Hname & Ha & Hd & Hp). apply yields_ret. destruct (empty (adapter_name a)) eqn:E.
  - cbn. split; [done|]. split; cbn; [done|]. split; [left; by rewrite Hid|]. done.
  - apply empty_false in E. split; [done|]. split; [done|]. split; [right; by destruct Hname|]. done.
Qed.

Lemma yields_adapter_loop dir names acc : Forall (fun name => name <> []) names -> Forall adapter_ok acc ->
  yields (W := W) (adapter_loop dir names acc) (fun l => adapter_id <$> l = (adapter_id <$> acc) ++ names /\ Forall adapter_ok l).
Proof.
  intros Hne. revert acc. induction Hne as [|name names Hn _ IH]; intros acc Hacc; cbn [adapter_loop].
  - apply yields_ret. by rewrite app_nil_r.
  - eapply yields_bind; [by apply yields_adapter|]. intros a [Hid Ha].
    eapply yields_weaken; [apply IH; apply Forall_app; split; [done|by constructor]|].
    intros l [-> Hl]. split; [|done]. by rewrite fmap_app, <- app_assoc; cbn; rewrite Hid.
Qed.

(** The adapters are the entries of the class directory that are called
    [hci...], each once and in natural order, so that [hci2] is before [hci10];
    each has a name, an address in normal form, and connectability exactly
    with discoverability, and is on or off only when the controller was asked. *)
Theorem bluetooth_adapters_listed (w w' : W) (l : list adapter_info) :
  adapters char_is_signed w = (Value l, w') ->
  StronglySorted (not_after (natural_less char_is_signed)) (adapter_id <$> l) /\ Forall adapter_ok l /\
  match fst (list_directory sys_bluetooth w) with
  | inr (names, errno) => errno = 0 /\ adapter_id <$> l ≡ₚ List.filter is_adapter names
  | inl errno => errno = ENOENT /\ l = []
  end.
Proof.
  unfold adapters. destruct (list_directory sys_bluetooth w) as [[errno|[names errno]] w1]; cbn [fst].
  - destruct (Z.eqb_spec errno ENOENT); [intros [= <- _]; by repeat constructor|].
    unfold open_failure. by destruct (_ || _).
  - destruct (Z.eqb_spec errno 0); cbn [negb]; [|done]. intros Hl.
    set (sorted := std_sort _ _) in Hl.
    assert (sorted ≡ₚ List.filter is_adapter names) as Hp by apply std_sort_permutation.
    assert (Forall (fun name => name <> []) sorted) as Hne.
    { apply Forall_forall. intros name Hin. rewrite Hp in Hin. apply list_elem_of_In, filter_In in Hin as [_ Hn].
      by intros ->. }
    apply (yields_adapter_loop _ _ [] Hne) in Hl as [Hids Hok]; [|constructor]. cbn in Hids. rewrite Hids.
    split; [|by split].
    apply (std_sort_key_sorted _ (key char_is_signed)). apply natural_less_key.
Qed.
End adapters.

Definition adapter_kernel : Kernel unit := listing_kernel [
  ("/sys/class/bluetooth/hci10/name", "desk"); ("/sys/class/bluetooth/hci2/address", "ac-12-2f-00-01-02")]%string [
  ("/sys/class/bluetooth", ["."; "hci10"; "hci2"; "other"])]%string.

Definition adapter_calls : BluetoothKernel unit := {|
  read_link path size w := (None, w);
  hci_socket w := (None, w);
  get_dev_info dev_id w := (if dev_id =? 2 then Some (Hci_dev_info (lit "hci2") [1; 2; 3; 4; 5; 6] 0x11) else None, w);
  get_conn_list dev_id w := (([], inl EPERM), w)
|}.

Definition sample_adapters : list adapter_info := [
  Adapter_info (lit "hci2") (lit "hci2") (Some (lit "AC:12:2F:00:01:02")) power_on bus_unknown (Some true) (Some false)
    None None None None None;
  Adapter_info (lit "hci10") (lit "desk") None power_unknown bus_unknown None None None None None None None].

Lemma bluetooth_adapters_listed_witness :
  StronglySorted (not_after (natural_less true)) (adapter_id <$> sample_adapters) /\ Forall adapter_ok sample_adapters /\
  0 = 0 /\ adapter_id <$> sample_adapters ≡ₚ List.filter is_adapter (lit <$> ["."; "hci10"; "hci2"; "other"]%string).
Proof.
  refine (@bluetooth_adapters_listed unit adapter_kernel adapter_calls true tt tt sample_adapters _).
  vm_compute. reflexivity.
Defined.

(** ** Connections *)

(** What follows [hci] in the identifier of an adapter is a number. *)
Definition numbered (ad : adapter_info) : Prop :=
  is_Some (parse_int (from_chars_unsigned uint16_max) 10 (substr_from 3 (adapter_id ad))).

Section connections.
Context {W : Type} `{Kernel W} `{BluetoothKernel W}.
Variable char_is_signed : bool.

Lemma yields_connection_loop ads acc :
  yields (W := W) (connection_loop ads acc) (fun l => Forall numbered ads /\
    (Forall (fun d => mac_text (device_address d) /\ is_connected d = Some true) acc ->
     Forall (fun d => mac_text (device_address d) /\ is_connected d = Some true) l)).
Proof.
  induction ads as [|ad ads IH] in acc |- *; cbn [connection_loop]; [by apply yields_ret|].
  apply (yields_bind _ _ (fun found => numbered ad /\
    Forall (fun d => mac_text (device_address d) /\ is_connected d = Some true) found)).
  - unfold adapter_connections. destruct (_ <=? _)%nat; [by apply yields_pure|].
    unfold numbered. destruct (parse_int _ 10 _) as [n|]; [|by apply yields_pure].
    intros w v w'. destruct (get_conn_list n w) as [[failures last] w1]. cbn [fst snd].
    destruct (request_loop failures last) as [cl|e]; [|done]. intros [= <- _]. split; [by eexists|].
    unfold listed_devices. apply Forall_fmap, Forall_forall. intros i _. split; [apply format_mac_text|done].
  - intros found [Hn Hf]. eapply yields_weaken; [apply IH|]. intros l [Hads Hl]. split; [by constructor|].
    intros Hacc. apply Hl, Forall_app. by split.
Qed.

(** The connected devices have normal addresses; but the query succeeds only
    when every entry the adapters come from is called by a number: an entry
    such as [hci0:11], which the kernel adds for a connection, is taken for
    an adapter, and makes it fail. *)
Theorem connected_devices_numbered (w w1 w2 : W) (ads : list adapter_info) (l : list device_info) :
  adapters char_is_signed w = (Value ads, w1) -> connected_devices char_is_signed w = (Value l, w2) ->
  Forall numbered ads /\ Forall (fun d => mac_text (device_address d) /\ is_connected d = Some true) l.
Proof.
  intros Ha. unfold connected_devices, mbind, query_bind. rewrite Ha. destruct ads as [|ad ads]; [by intros [= <- _]|].
  destruct (hci_socket w1) as [[errno|] w3]; [unfold socket_failure; by repeat destruct (_ || _)|].
  intros Hl. apply yields_connection_loop in Hl as [Hn Hl]. split; [done|by apply Hl].
Qed.
End connections.

Lemma link_entry_is_adapter : is_adapter (lit "hci0:11") = true /\
  parse_int (from_chars_unsigned uint16_max) 10 (substr_from 3 (lit "hci0:11")) = None.
Proof. by vm_compute. Qed.
