(* ===== verification/Camera.v ===== *)
(** * Cameras

    The records of [include/syscape/camera.hpp], the helpers of
    [include/syscape/detail/camera/common.hpp] and the Linux backend
    [include/syscape/detail/camera/linux.hpp] with the public queries.
    Opening a device file and the capability request are the class
    [CameraKernel]; [natural_less] is [NaturalOrder.camera_natural_less]. *)
From S2P Require Import Prelude Result CppText Utf8 System DeviceText NaturalOrder.

(** ** camera.hpp *)

Inductive camera_facing := facing_unknown | facing_front | facing_back | facing_external.

Inductive camera_connection := connection_unknown | connection_built_in | connection_usb | connection_pci | connection_virtual.

#[global] Instance camera_connection_eq_dec : EqDecision camera_connection.
Proof. solve_decision. Defined.

Record camera_device_id := Camera_device_id {
  vendor_id : option Z;
  product_id : option Z;
  revision : option Z
}.

Record camera_capabilities := Camera_capabilities {
  has_video_capture : option bool;
  has_video_output : option bool;
  has_metadata_capture : option bool;
  has_streaming : option bool;
  has_touch_device : option bool
}.

Record camera_device := Camera_device {
  device_id : text;
  device_name : text;
  device_path : option text;
  sysfs_path : option text;
  driver : option text;
  card : option text;
  bus_info : option text;
  facing : camera_facing;
  connection : camera_connection;
  hardware_id : option camera_device_id;
  is_integrated : option bool;
  capabilities : option camera_capabilities
}.

(** ** common.hpp *)

Definition trim_whitespace (v : text) : text := trim_blank v.

Definition contains_ignore_case (v needle : text) : bool := contains_part v needle.

Definition parse_u32 (input : text) : result Z := parse_number uint32_max 10 input.

Definition without_prefix (v : text) : text :=
  if starts_with (lit "0x") v || starts_with (lit "0X") v then substr_from 2 v else v.

Definition parse_hex_u16 (input : text) : result Z :=
  let trimmed := without_prefix (trim_whitespace input) in
  if empty trimmed then fail errc_malformed_data
  else
    let res := from_chars_unsigned uint16_max 16 trimmed in
    if out_of_range res then fail errc_value_too_large
    else if negb (consumed res trimmed) then fail errc_malformed_data
    else Value (fc_value res).

Definition captures (dev : camera_device) : bool :=
  match capabilities dev with Some caps => default false (has_video_capture caps) | None => false end.

Definition filter_capture_devices (devices : list camera_device) : list camera_device := List.filter captures devices.

(** ** linux.hpp *)

(** [linux/videodev2.h]: the flags and the members of [v4l2_capability]. *)
Definition V4L2_CAP_VIDEO_CAPTURE : Z := 0x00000001.
Definition V4L2_CAP_VIDEO_OUTPUT : Z := 0x00000002.
Definition V4L2_CAP_VIDEO_CAPTURE_MPLANE : Z := 0x00001000.
Definition V4L2_CAP_VIDEO_OUTPUT_MPLANE : Z := 0x00002000.
Definition V4L2_CAP_META_CAPTURE : Z := 0x00800000.
Definition V4L2_CAP_STREAMING : Z := 0x04000000.
Definition V4L2_CAP_TOUCH : Z := 0x10000000.
Definition V4L2_CAP_DEVICE_CAPS : Z := 0x80000000.

Record v4l2_capability := V4l2_capability {
  cap_driver : text;
  cap_card : text;
  cap_bus_info : text;
  cap_capabilities : Z;
  cap_device_caps : Z
}.

(** [open]: the [errno] of a failure.  The request on the open device is
    repeated while it is interrupted: the [errno]s of the calls that fail
    before the last one, and its outcome. *)
Class CameraKernel (W : Type) := {
  open_device : text -> W -> option Z * W;
  query_capability : text -> W -> (list Z * (Z + v4l2_capability)) * W
}.

Definition detect_facing_from_panel (panel : text) : camera_facing :=
  let has part := contains_ignore_case panel (lit part) in
  if has "top" || has "front" then facing_front
  else if has "back" || has "bottom" then facing_back
  else if has "external" then facing_external
  else facing_unknown.

(** [data] is the array, zero after the bytes given. *)
Definition v4l2_text (data : text) (size : nat) : result (option text) :=
  let length := prefix_length (fun c => negb (is_char c ch_nul)) (take size data) in
  if (length =? size)%nat then fail errc_malformed_data
  else if (length =? 0)%nat then Value None
  else
    let v := take length data in
    if negb (is_valid_utf8 v) then fail errc_invalid_encoding else Value (Some v).

(** [do { ... } while (ioctl_result != 0 && errno == EINTR);] *)
Fixpoint request_loop (failures : list Z) (last : Z + v4l2_capability) : Z + v4l2_capability :=
  match failures with
  | [] => last
  | errno :: failures => if errno =? EINTR then request_loop failures last else inl errno
  end.

Definition capabilities_of (cap : v4l2_capability) : camera_capabilities :=
  let device_caps := if negb (Z.land (cap_capabilities cap) V4L2_CAP_DEVICE_CAPS =? 0) then cap_device_caps cap
                     else cap_capabilities cap in
  let has flags := Some (negb (Z.land device_caps flags =? 0)) in
  Camera_capabilities (has (Z.lor V4L2_CAP_VIDEO_CAPTURE V4L2_CAP_VIDEO_CAPTURE_MPLANE))
    (has (Z.lor V4L2_CAP_VIDEO_OUTPUT V4L2_CAP_VIDEO_OUTPUT_MPLANE))
    (has V4L2_CAP_META_CAPTURE) (has V4L2_CAP_STREAMING) (has V4L2_CAP_TOUCH).

Definition no_capabilities : camera_capabilities := Camera_capabilities (Some false) None None None None.

(** What the device file tells: capabilities, driver, card and bus. *)
Record device_facts := Device_facts {
  fact_capabilities : option camera_capabilities;
  fact_driver : option text;
  fact_card : option text;
  fact_bus_info : option text
}.

Definition no_facts : device_facts := Device_facts None None None None.

Definition facts_of (cap : v4l2_capability) : result device_facts :=
  driver ← v4l2_text (cap_driver cap) 16;
  card ← v4l2_text (cap_card cap) 32;
  bus ← v4l2_text (cap_bus_info cap) 32;
  mret (Device_facts (Some (capabilities_of cap)) driver card bus).

Section camera.
Context {W : Type} `{Kernel W} `{CameraKernel W}.
Variable char_is_signed : bool.

Definition read_sysfs_string (path : text) : query W (option text) := sysfs_text path.

(** Both attributes are read before either result is looked at. *)
Definition parse_usb_ids (usb_dev_dir : text) : query W (option camera_device_id) :=
  vendor_str ← attempt (read_sysfs_string (usb_dev_dir ++ lit "/idVendor"));
  product_str ← attempt (read_sysfs_string (usb_dev_dir ++ lit "/idProduct"));
  vendor_str ← pure vendor_str;
  product_str ← pure product_str;
  match vendor_str, product_str with
  | None, None => mret None
  | Some vendor_str, Some product_str =>
      vendor ← pure (parse_hex_u16 vendor_str);
      product ← pure (parse_hex_u16 product_str);
      bcd_str ← read_sysfs_string (usb_dev_dir ++ lit "/bcdDevice");
      match bcd_str with
      | None => mret (Some (Camera_device_id (Some vendor) (Some product) None))
      | Some bcd_str =>
          bcd ← pure (parse_hex_u16 bcd_str);
          mret (Some (Camera_device_id (Some vendor) (Some product) (Some bcd)))
      end
  | _, _ => pure (fail errc_malformed_data)
  end.

Definition query_device (device_path : text) (require_capture_capability : bool) : query W device_facts := fun w =>
  match open_device device_path w with
  | (Some errno, w) => (if require_capture_capability then fail_native errno else Value no_facts, w)
  | (None, w) =>
      let (outcome, w) := query_capability device_path w in
      (match request_loop (fst outcome) (snd outcome) with
       | inr cap => facts_of cap
       | inl errno => if require_capture_capability then fail_native errno else Value no_facts
       end, w)
  end.

Definition read_facing (sysfs_entry parent_usb : text) : query W camera_facing :=
  panel ← read_sysfs_string (parent_usb ++ lit "/physical_location/panel");
  match panel with
  | Some panel => mret (detect_facing_from_panel panel)
  | None =>
      panel_direct ← read_sysfs_string (sysfs_entry ++ lit "/device/physical_location/panel");
      mret (match panel_direct with Some panel => detect_facing_from_panel panel | None => facing_unknown end)
  end.

Definition removable_state (removable : option text) : option bool :=
  match removable with
  | Some v => if same v (lit "fixed") then Some true else if same v (lit "removable") then Some false else None
  | None => None
  end.

Definition is_subdevice (id : text) : bool := starts_with (lit "v4l-subdev") id.

Definition read_device (base_dir id : text) (require_capture_capability : bool) : query W camera_device :=
  let sysfs_entry := base_dir ++ "/"%char :: id in
  let dev_path := lit "/dev/" ++ id in
  let parent_usb := sysfs_entry ++ lit "/device/.." in
  name ← read_sysfs_string (sysfs_entry ++ lit "/name");
  facts ← (if is_subdevice id then mret (Device_facts (Some no_capabilities) None None None)
           else query_device dev_path require_capture_capability);
  hw_id ← parse_usb_ids parent_usb;
  removable ← read_sysfs_string (parent_usb ++ lit "/removable");
  facing ← read_facing sysfs_entry parent_usb;
  mret {| device_id := id; device_name := default id name; device_path := Some dev_path; sysfs_path := Some sysfs_entry;
          driver := fact_driver facts; card := fact_card facts; bus_info := fact_bus_info facts; facing := facing;
          connection := match hw_id with Some _ => connection_usb | None => connection_unknown end;
          hardware_id := hw_id; is_integrated := removable_state removable; capabilities := fact_capabilities facts |}.

Definition is_camera (id : text) : bool := negb (hidden id) && (starts_with (lit "video") id || is_subdevice id).

Fixpoint device_loop (base_dir : text) (require_capture_capability : bool) (names : list text) (errno : Z)
    (device_list : list camera_device) : query W (list camera_device) :=
  match names with
  | [] => if negb (errno =? 0) then pure (fail_native errno) else mret device_list
  | name :: names =>
      if negb (is_camera name) then device_loop base_dir require_capture_capability names errno device_list
      else
        dev ← read_device base_dir name require_capture_capability;
        device_loop base_dir require_capture_capability names errno (device_list ++ [dev])
  end.

Definition base_dir : text := lit "/sys/class/video4linux".

Definition device_less (a b : camera_device) : bool := camera_natural_less char_is_signed (device_id a) (device_id b).

Definition enumerate_devices (require_capture_capability : bool) : query W (list camera_device) := fun w =>
  match list_directory base_dir w with
  | (inl errno, w) => (if errno =? ENOENT then Value [] else fail_native errno, w)
  | (inr (names, errno), w) =>
      (device_list ← device_loop base_dir require_capture_capability names errno [];
       mret (std_sort device_less device_list)) w
  end.

Definition devices : query W (list camera_device) := enumerate_devices false.

Definition device_count : query W Z := res ← devices; mret (Z.of_nat (length res)).

Definition capture_devices : query W (list camera_device) :=
  res ← enumerate_devices true;
  mret (filter_capture_devices res).

Definition default_device : query W camera_device := pure (fail errc_not_supported).
End camera.

(** ** Capabilities *)

Lemma land_bits_zero x a b i j : a = 2 ^ i -> b = 2 ^ j -> 0 <= i -> 0 <= j ->
  negb (Z.land x (Z.lor a b) =? 0) = Z.testbit x i || Z.testbit x j.
Proof.
  intros -> -> Hi Hj. rewrite Z.land_lor_distr_r.
  rewrite <- (land_power_bit x i), <- (land_power_bit x j) by lia.
  destruct (Z.eqb_spec (Z.lor (Z.land x (2 ^ i)) (Z.land x (2 ^ j))) 0) as [Hz|Hz].
  - apply Z.lor_eq_0_iff in Hz as [-> ->]. done.
  - destruct (Z.eqb_spec (Z.land x (2 ^ i)) 0) as [Ha|]; [|done]. destruct (Z.eqb_spec (Z.land x (2 ^ j)) 0) as [Hb|]; [|done].
    rewrite Ha, Hb in Hz. by destruct Hz.
Qed.

(** The capabilities are bits of the word of the device when the driver has
    one, else of the word of the whole physical device. *)
Lemma capabilities_bits cap :
  let bits := if Z.testbit (cap_capabilities cap) 31 then cap_device_caps cap else cap_capabilities cap in
  capabilities_of cap = Camera_capabilities (Some (Z.testbit bits 0 || Z.testbit bits 12))
    (Some (Z.testbit bits 1 || Z.testbit bits 13)) (Some (Z.testbit bits 23)) (Some (Z.testbit bits 26))
    (Some (Z.testbit bits 28)).
Proof.
  cbv zeta. unfold capabilities_of.
  change V4L2_CAP_DEVICE_CAPS with (2 ^ 31). rewrite land_power_bit by lia.
  set (bits := if Z.testbit (cap_capabilities cap) 31 then cap_device_caps cap else cap_capabilities cap).
  rewrite (land_bits_zero bits _ _ 0 12), (land_bits_zero bits _ _ 1 13) by (done || lia).
  change V4L2_CAP_META_CAPTURE with (2 ^ 23). change V4L2_CAP_STREAMING with (2 ^ 26). change V4L2_CAP_TOUCH with (2 ^ 28).
  by rewrite !land_power_bit by lia.
Qed.

(** ** Every camera is well formed *)

Definition u16_or_none (v : option Z) : Prop := forall n, v = Some n -> 0 <= n <= uint16_max.

Definition utf8_or_none (v : option text) : Prop := forall t, v = Some t -> t <> [] /\ is_valid_utf8 t = true.

Definition camera_ok (d : camera_device) : Prop :=
  device_name d <> [] /\ (device_name d = device_id d \/ is_valid_utf8 (device_name d) = true) /\
  device_path d = Some (lit "/dev/" ++ device_id d) /\ sysfs_path d = Some (base_dir ++ "/"%char :: device_id d) /\
  utf8_or_none (driver d) /\ utf8_or_none (card d) /\ utf8_or_none (bus_info d) /\
  (connection d = connection_usb <-> is_Some (hardware_id d)) /\
  (forall id, hardware_id d = Some id -> u16_or_none (vendor_id id) /\ u16_or_none (product_id id) /\ u16_or_none (revision id)).

Lemma usb_hex_u16_bound v n : parse_hex_u16 v = Value n -> 0 <= n <= uint16_max.
Proof.
  unfold parse_hex_u16. destruct (empty _); [done|]. destruct (out_of_range _); [done|].
  destruct (negb _); [done|]. intros [= <-]. by apply fc_value_bound.
Qed.

Lemma v4l2_text_utf8 data size v : v4l2_text data size = Value v -> utf8_or_none v.
Proof.
  unfold v4l2_text. cbv zeta. destruct (_ =? size)%nat; [done|].
  set (n := prefix_length _ _). destruct (Nat.eqb_spec n 0) as [|Hn]; [by intros [= <-]|].
  destruct (is_valid_utf8 _) eqn:E; [|done]. intros [= <-] t [= <-]. split; [|done].
  intros Ht. apply (f_equal length) in Ht. rewrite length_take in Ht. cbn in Ht.
  pose proof (prefix_length_le (fun c => negb (is_char c ch_nul)) (take size data)) as Hle. rewrite length_take in Hle.
  fold n in Hle. lia.
Qed.

(** The nodes of the class directory that are cameras, by the names the kernel
    gives them. *)
Definition node_name (id : text) : bool :=
  bool_decide (take 5 id = lit "video") || bool_decide (take 10 id = lit "v4l-subdev").

Lemma starts_with_take prefix v : starts_with prefix v = bool_decide (take (length prefix) v = prefix).
Proof.
  destruct (starts_with prefix v) eqn:E.
  - apply starts_with_true in E as [rest ->]. by rewrite take_app_length, bool_decide_eq_true_2.
  - rewrite bool_decide_eq_false_2; [done|]. intros Ht. rewrite <- (take_drop (length prefix) v), Ht, starts_with_app in E. done.
Qed.

Lemma is_camera_node id : is_camera id = node_name id.
Proof.
  unfold is_camera, is_subdevice, node_name. rewrite !starts_with_take. change (length (lit "video")) with 5%nat.
  change (length (lit "v4l-subdev")) with 10%nat. destruct id as [|c id]; [done|].
  destruct (hidden (c :: id)) eqn:E; cbn [negb andb]; [|done]. apply is_char_true in E as ->.
  by rewrite !bool_decide_eq_false_2 by done.
Qed.

(** The device is known to capture. *)
Definition known_to_capture (d : camera_device) : bool :=
  bool_decide ((capabilities d ≫= has_video_capture) = Some true).

Lemma captures_known d : captures d = known_to_capture d.
Proof.
  unfold captures, known_to_capture. destruct (capabilities d) as [[[[|]|] o m s t]|]; reflexivity.
Qed.

(** What a video node may do, from the answer of its driver: bit 31 of the word
    of the physical device says that the node has a word of its own. *)
Definition answered_capabilities (cap : v4l2_capability) : camera_capabilities :=
  let word := if Z.testbit (cap_capabilities cap) 31 then cap_device_caps cap else cap_capabilities cap in
  {| has_video_capture := Some (Z.testbit word 0 || Z.testbit word 12);
     has_video_output := Some (Z.testbit word 1 || Z.testbit word 13);
     has_metadata_capture := Some (Z.testbit word 23);
     has_streaming := Some (Z.testbit word 26);
     has_touch_device := Some (Z.testbit word 28) |}.

Section results.
Context {W : Type} `{Kernel W} `{CameraKernel W}.
Variable char_is_signed : bool.

(** The driver of a node answers the request, after calls that were
    interrupted; or the node cannot be opened or does not answer. *)
Definition answers (path : text) (cap : v4l2_capability) : Prop := exists w1 w2 interrupted w3,
  open_device path w1 = (None, w2) /\ query_capability path w2 = ((interrupted, inr cap), w3) /\
  Forall (fun errno => errno = EINTR) interrupted.

Definition silent (path : text) : Prop := exists w1 opened w2 failures last w3,
  open_device path w1 = (opened, w2) /\
  (is_Some opened \/
   query_capability path w2 = ((failures, last), w3) /\
   ((exists errno, errno ∈ failures /\ errno <> EINTR) \/ exists errno, last = inl errno)).

(** The capabilities of a device are what its node answers; a subdevice does
    not capture and is not asked; and only where they are not required they are
    left open, for a node that does not answer. *)
Definition capabilities_known (required : bool) (d : camera_device) : Prop :=
  if bool_decide (take 10 (device_id d) = lit "v4l-subdev")
  then capabilities d = Some (Camera_capabilities (Some false) None None None None)
  else (exists cap, answers (lit "/dev/" ++ device_id d) cap /\ capabilities d = Some (answered_capabilities cap)) \/
       required = false /\ silent (lit "/dev/" ++ device_id d) /\ capabilities d = None.

Definition capabilities_from (path : text) (required : bool) (capabilities : option camera_capabilities) : Prop :=
  (exists cap, answers path cap /\ capabilities = Some (answered_capabilities cap)) \/
  required = false /\ silent path /\ capabilities = None.

Definition facts_ok (path : text) (required : bool) (f : device_facts) : Prop :=
  utf8_or_none (fact_driver f) /\ utf8_or_none (fact_card f) /\ utf8_or_none (fact_bus_info f) /\
  capabilities_from path required (fact_capabilities f).

Lemma request_loop_outcome failures last :
  match request_loop failures last with
  | inr cap => last = inr cap /\ Forall (fun errno => errno = EINTR) failures
  | inl errno => (exists errno, errno ∈ failures /\ errno <> EINTR) \/ exists errno, last = inl errno
  end.
Proof.
  induction failures as [|errno failures IH]; cbn [request_loop]; [destruct last; eauto|].
  destruct (Z.eqb_spec errno EINTR) as [->|Hne]; [|left; exists errno; split; [left|done]].
  destruct (request_loop failures last).
  - destruct IH as [(e & He & Hn)|]; [left; exists e; split; [by right|done]|by right].
  - destruct IH. split; [done|by constructor].
Qed.

Lemma facts_of_ok path cap f required : answers path cap -> facts_of cap = Value f -> facts_ok path required f.
Proof.
  intros Ha (d & Hd & (c & Hc & (b & Hb & [= <-])%bind_value)%bind_value)%bind_value.
  split_and!; [by eapply v4l2_text_utf8..|]. left. exists cap. split; [done|]. cbn [fact_capabilities]. by rewrite capabilities_bits.
Qed.

Lemma no_facts_ok path : silent path -> facts_ok path false no_facts.
Proof. intros Hs. repeat split; try done. by right. Qed.

Lemma yields_query path required : yields (W := W) (query_device path required) (facts_ok path required).
Proof.
  intros w v w'. unfold query_device. destruct (open_device path w) as [[errno|] w1] eqn:Eo.
  - destruct required; intros [= <- <-]. apply no_facts_ok. exists w, (Some errno), w1, [], (inl 0), w1. eauto.
  - destruct (query_capability path w1) as [[failures last] w2] eqn:Eq. cbn [fst snd].
    pose proof (request_loop_outcome failures last) as Ho. destruct (request_loop failures last) as [errno|cap].
    + destruct required; intros [= <- <-]. apply no_facts_ok. exists w, None, w1, failures, last, w2. auto.
    + destruct Ho as [-> Hi]. intros [= Hf <-]. eapply facts_of_ok; [|exact Hf]. exists w, w1, failures, w2. done.
Qed.

Definition ids_ok (v : option camera_device_id) : Prop := forall id, v = Some id ->
  u16_or_none (vendor_id id) /\ u16_or_none (product_id id) /\ u16_or_none (revision id).

Lemma yields_usb_ids dir : yields (W := W) (parse_usb_ids dir) ids_ok.
Proof.
  apply yields_skip. intros v. apply yields_skip. intros p. apply yields_pure_bind. intros v' _.
  apply yields_pure_bind. intros p' _. destruct v' as [vs|], p' as [ps|]; try (by apply yields_pure); [|by apply yields_ret].
  apply yields_pure_bind. intros n Hn%usb_hex_u16_bound. apply yields_pure_bind. intros m Hm%usb_hex_u16_bound.
  apply yields_skip. intros [b|].
  - apply yields_pure_bind. intros k Hk%usb_hex_u16_bound. apply yields_ret. intros id [= <-].
    split_and!; by intros ? [= <-].
  - apply yields_ret. intros id [= <-]. split_and!; by intros ? [= <-].
Qed.

Lemma yields_device id required : id <> [] ->
  yields (W := W) (read_device base_dir id required) (fun d => device_id d = id /\ camera_ok d /\
    capabilities_known required d).
Proof.
  intros Hid. eapply yields_bind; [apply yields_sysfs_text|]. intros name Hname.
  apply (yields_bind _ _ (fun f => utf8_or_none (fact_driver f) /\ utf8_or_none (fact_card f) /\ utf8_or_none (fact_bus_info f) /\
    if bool_decide (take 10 id = lit "v4l-subdev")
    then fact_capabilities f = Some (Camera_capabilities (Some false) None None None None)
    else capabilities_from (lit "/dev/" ++ id) required (fact_capabilities f))).
  { unfold is_subdevice. rewrite starts_with_take. change (length (lit "v4l-subdev")) with 10%nat.
    destruct (bool_decide _); [apply yields_ret; by repeat split|apply yields_query]. }
  intros f (Hd & Hc & Hb & Hcap). eapply yields_bind; [apply yields_usb_ids|]. intros hw Hhw.
  apply yields_skip. intros removable. apply yields_skip. intros facing. apply yields_ret.
  split; [done|]. split; [|done]. unfold camera_ok. cbn [device_name device_id device_path sysfs_path driver card bus_info
    connection hardware_id]. split_and!; try done.
  - destruct name as [n|]; [by apply Hname|done].
  - destruct name as [n|]; [right; by apply Hname|by left].
  - by destruct hw; [eexists|].
Qed.

Lemma yields_device_loop required names errno acc :
  Forall (fun d => camera_ok d /\ capabilities_known required d) acc ->
  yields (W := W) (device_loop base_dir required names errno acc) (fun l => errno = 0 /\
    device_id <$> l = (device_id <$> acc) ++ List.filter is_camera names /\
    Forall (fun d => camera_ok d /\ capabilities_known required d) l).
Proof.
  induction names as [|name names IH] in acc |- *; intros Hacc; cbn [device_loop List.filter].
  - destruct (Z.eqb_spec errno 0); cbn [negb]; [|by apply yields_pure]. apply yields_ret. by rewrite app_nil_r.
  - destruct (is_camera name) eqn:E; cbn [negb]; [|by apply IH].
    eapply yields_bind; [apply yields_device; by intros ->|]. intros d (Hid & Hok & Hcap).
    eapply yields_weaken; [apply IH; apply Forall_app; split; [done|by apply Forall_singleton]|].
    intros l (He & -> & Hl). split; [done|]. split; [|done]. by rewrite fmap_app, <- app_assoc; cbn; rewrite Hid.
Qed.

(** C33: the cameras are the video nodes and subdevices of the class directory,
    each once and in natural order, with a name, the paths of the node, texts
    in UTF-8, numbers of sixteen bits, and a USB connection exactly with a
    hardware identity.  What a device can do is what the bits of its driver's
    answer say, and a subdevice does not capture; when capture is asked for
    every node has answered, and the result is exactly the devices of the list
    that capture. *)
Theorem cameras_listed (w w' : W) (required : bool) (l : list camera_device) :
  enumerate_devices char_is_signed required w = (Value l, w') ->
  StronglySorted (not_after (device_less char_is_signed)) l /\ Forall camera_ok l /\
  Forall (capabilities_known required) l /\
  (required = true -> fst (capture_devices char_is_signed w) = Value (List.filter known_to_capture l)) /\
  match fst (list_directory (lit "/sys/class/video4linux") w) with
  | inr (names, errno) => errno = 0 /\ device_id <$> l ≡ₚ List.filter node_name names
  | inl errno => errno = ENOENT /\ l = []
  end.
Proof.
  intros Hl. assert (required = true -> fst (capture_devices char_is_signed w) = Value (List.filter known_to_capture l)) as Hcap.
  { intros ->. unfold capture_devices, mbind, query_bind, filter_capture_devices. rewrite Hl.
    by rewrite (filter_ext _ _ captures_known). }
  unfold enumerate_devices in Hl. change (lit "/sys/class/video4linux") with base_dir.
  destruct (list_directory base_dir w) as [[errno|[names errno]] w1]; cbn [fst].
  - destruct (Z.eqb_spec errno ENOENT); [|done]. injection Hl as <- _. by repeat split; try constructor; auto.
  - unfold mbind, query_bind in Hl. destruct (device_loop _ _ _ _ _ _) as [[found|e] w2] eqn:E; [|done].
    injection Hl as <- _. apply yields_device_loop in E as (-> & Hids & Hok); [|constructor]. cbn in Hids.
    rewrite (filter_ext _ _ is_camera_node) in Hids.
    pose proof (std_sort_permutation (device_less char_is_signed) found) as Hp.
    rewrite <- Hp in Hok. apply Forall_and in Hok as [Hok Hreq]. split; [|split; [done|split; [done|split; [done|]]]].
    + apply (std_sort_key_sorted _ (fun d => key char_is_signed (device_id d))). intros a b. unfold device_less.
      apply camera_natural_less_key.
    + split; [done|]. by rewrite Hp, Hids.
Qed.
End results.

Definition camera_kernel : Kernel unit := listing_kernel [
  ("/sys/class/video4linux/video10/name", "Front camera"); ("/sys/class/video4linux/video10/device/../idVendor", "5986");
  ("/sys/class/video4linux/video10/device/../idProduct", "0x04f2");
  ("/sys/class/video4linux/video10/device/../physical_location/panel", "top")]%string [
  ("/sys/class/video4linux", [".."; "video10"; "radio0"; "v4l-subdev1"; "video2"])]%string.

Definition camera_calls : CameraKernel unit := {|
  open_device path w := (None, w);
  query_capability path w :=
    (([EINTR], inr (V4l2_capability (lit "uvcvideo") (lit "Cam") [] 0x84a00001
       (if bool_decide (path = lit "/dev/video2") then 0x04a00000 else 0x04200001))), w)
|}.

Definition sample_camera (id name : text) (facing : camera_facing) (bits : Z) (hw : option camera_device_id) : camera_device :=
  Camera_device id name (Some (lit "/dev/" ++ id)) (Some (base_dir ++ "/"%char :: id)) (Some (lit "uvcvideo"))
    (Some (lit "Cam")) None facing (match hw with Some _ => connection_usb | None => connection_unknown end) hw None
    (Some (Camera_capabilities (Some (Z.testbit bits 0)) (Some false) (Some (Z.testbit bits 23)) (Some true) (Some false))).

Definition sample_subdevice : camera_device :=
  Camera_device (lit "v4l-subdev1") (lit "v4l-subdev1") (Some (lit "/dev/v4l-subdev1"))
    (Some (lit "/sys/class/video4linux/v4l-subdev1")) None None None facing_unknown connection_unknown None None
    (Some (Camera_capabilities (Some false) None None None None)).

Definition sample_cameras : list camera_device := [
  sample_subdevice;
  sample_camera (lit "video2") (lit "video2") facing_unknown 0x04a00000 None;
  sample_camera (lit "video10") (lit "Front camera") facing_front 0x04200001
    (Some (Camera_device_id (Some 0x5986) (Some 0x04f2) None))].

Lemma cameras_listed_witness :
  StronglySorted (not_after (device_less true)) sample_cameras /\ Forall camera_ok sample_cameras /\
  Forall (@capabilities_known unit camera_calls true) sample_cameras /\
  (true = true ->
     fst (@capture_devices unit camera_kernel camera_calls true tt) = Value (List.filter known_to_capture sample_cameras)) /\
  0 = 0 /\
  device_id <$> sample_cameras ≡ₚ List.filter node_name (lit <$> [".."; "video10"; "radio0"; "v4l-subdev1"; "video2"]%string).
Proof.
  refine (@cameras_listed unit camera_kernel camera_calls true tt tt true sample_cameras _).
  vm_compute. reflexivity.
Defined.
