(* ===== verification/Audio.v ===== *)
(** * Audio devices

    The records of [include/syscape/audio.hpp], the helpers of
    [include/syscape/detail/audio/common.hpp] and the Linux backend
    [include/syscape/detail/audio/linux.hpp] with the public queries.
    [cards_text] and [pcms_text] are the kernel's formats of its two files,
    specifications. *)
From Stdlib Require Import Btauto.
From S2P Require Import Prelude Result CppText Utf8 System DeviceText.

(** ** audio.hpp *)

Inductive audio_device_direction := direction_unknown | direction_playback | direction_capture | direction_duplex.

#[global] Instance audio_device_direction_eq_dec : EqDecision audio_device_direction.
Proof. solve_decision. Defined.

Inductive audio_device_state := state_unknown | state_active | state_disabled | state_unplugged | state_not_present.

Record audio_device := Audio_device {
  device_id : text;
  device_name : text;
  direction : audio_device_direction;
  state : audio_device_state;
  card_name : option text;
  driver_name : option text;
  playback_channels : option Z;
  capture_channels : option Z;
  sample_rate_hz : option Z;
  min_sample_rate_hz : option Z;
  max_sample_rate_hz : option Z;
  is_default_playback : option bool;
  is_default_capture : option bool
}.

(** ** common.hpp *)

Definition trim_whitespace (v : text) : text := trim_blank v.

Definition contains_ignore_case (v needle : text) : bool := contains_part v needle.

Definition parse_u32 (input : text) : result Z := parse_number uint32_max 10 input.

Definition matches_direction (target_dir : audio_device_direction) (dev : audio_device) : bool :=
  bool_decide (direction dev = target_dir) || bool_decide (direction dev = direction_duplex).

Definition filter_by_direction (devices : list audio_device) (target_dir : audio_device_direction) : list audio_device :=
  List.filter (matches_direction target_dir) devices.

Definition find_default_device (devices : list audio_device) (target_dir : audio_device_direction) : result audio_device :=
  let is_default dev := if bool_decide (target_dir = direction_playback) then default false (is_default_playback dev)
                        else default false (is_default_capture dev) in
  match list_find (fun dev => matches_direction target_dir dev && is_default dev = true) devices with
  | Some (_, dev) => Value dev
  | None => fail errc_not_found
  end.

(** ** linux.hpp *)

Record alsa_card_info := Alsa_card_info {
  card_index : Z;
  card_id : text;
  driver : text;
  short_name : text;
  long_name : text
}.

Record alsa_pcm_info := Alsa_pcm_info {
  pcm_card_index : Z;
  device_index : Z;
  pcm_id : text;
  pcm_name : text;
  has_playback : bool;
  has_capture : bool
}.

(** [driver - name], after the colon. *)
Definition card_names (after_colon : text) : text * text :=
  match find_text (lit " - ") after_colon 0 with
  | Some dash_pos => (trim_whitespace (substr 0 dash_pos after_colon), trim_whitespace (substr_from (dash_pos + 3) after_colon))
  | None => ([], after_colon)
  end.

Definition card_header (trimmed : text) : result alsa_card_info :=
  match find "[" trimmed 0, find "]" trimmed 0 with
  | Some bracket_open, Some bracket_close =>
      if (bracket_close <=? bracket_open)%nat then fail errc_malformed_data
      else
        index ← parse_u32 (trim_whitespace (substr 0 bracket_open trimmed));
        let id := trim_whitespace (substr (S bracket_open) (bracket_close - bracket_open - 1) trimmed) in
        let names := match find ":" trimmed bracket_close with
                     | Some colon_pos => card_names (trim_whitespace (substr_from (S colon_pos) trimmed))
                     | None => ([], [])
                     end in
        if negb (is_valid_utf8 id) || negb (is_valid_utf8 (fst names)) || negb (is_valid_utf8 (snd names))
        then fail errc_invalid_encoding
        else Value (Alsa_card_info index id (fst names) (snd names) [])
  | _, _ => fail errc_malformed_data
  end.

Definition with_long_name (v : text) (c : alsa_card_info) : alsa_card_info :=
  Alsa_card_info (card_index c) (card_id c) (driver c) (short_name c) v.

(** A line that is not a header, when there is a card before it. *)
Definition continuation (trimmed : text) (cards : list alsa_card_info) : result (list alsa_card_info) :=
  match last cards with
  | None => Value cards
  | Some c =>
      if empty (long_name c) then
        if negb (is_valid_utf8 trimmed) then fail errc_invalid_encoding
        else Value (removelast cards ++ [with_long_name trimmed c])
      else Value cards
  end.

Definition card_line (line : text) (cards : list alsa_card_info) : step (list alsa_card_info) (result (list alsa_card_info)) :=
  let trimmed := trim_whitespace line in
  match trimmed with
  | [] => Next cards
  | front :: _ =>
      if starts_with (lit "---") trimmed then Next cards
      else if is_digit_in 10 front then
        card <-? card_header trimmed;
        Next (cards ++ [card])
      else
        cards <-? continuation trimmed cards;
        Next cards
  end.

Definition parse_proc_asound_cards (content : text) : result (list alsa_card_info) :=
  finish (each_field ch_lf content card_line []) Value.

(** What follows the numbers: identifier, name and the text with the streams. *)
Definition pcm_parts (rest : text) : text * text * text :=
  match find ":" rest 0 with
  | Some colon2 =>
      let rest2 := substr_from (S colon2) rest in
      let id := trim_whitespace (substr 0 colon2 rest) in
      match find ":" rest2 0 with
      | Some colon3 => (id, trim_whitespace (substr 0 colon3 rest2), substr_from (S colon3) rest2)
      | None => (id, trim_whitespace rest2, rest2)
      end
  | None => (trim_whitespace rest, trim_whitespace rest, rest)
  end.

Definition pcm_line (line : text) (pcms : list alsa_pcm_info) : step (list alsa_pcm_info) (result (list alsa_pcm_info)) :=
  let trimmed := trim_whitespace line in
  if empty trimmed then Next pcms
  else
    match find ":" trimmed 0 with
    | None => Next pcms
    | Some colon1 =>
        let num_part := trim_whitespace (substr 0 colon1 trimmed) in
        match find "-" num_part 0 with
        | None => Next pcms
        | Some dash_pos =>
            match parse_u32 (substr 0 dash_pos num_part), parse_u32 (substr_from (S dash_pos) num_part) with
            | Value card, Value device =>
                let '(id, name, streams) := pcm_parts (substr_from (S colon1) trimmed) in
                let has part := contains_ignore_case streams (lit part) || contains_ignore_case trimmed (lit part) in
                if negb (is_valid_utf8 id) || negb (is_valid_utf8 name) then Return (fail errc_invalid_encoding)
                else Next (pcms ++ [Alsa_pcm_info card device id name (has "playback") (has "capture")])
            | _, _ => Return (fail errc_malformed_data)
            end
        end
    end.

Definition parse_proc_asound_pcm (content : text) : result (list alsa_pcm_info) :=
  finish (each_field ch_lf content pcm_line []) Value.

(** [card_map.emplace(c.index, c)]: the first card of an index stays. *)
Definition card_map (cards : list alsa_card_info) : gmap Z alsa_card_info :=
  foldl (fun m c => match m !! card_index c with Some _ => m | None => <[card_index c := c]> m end) (∅ : gmap Z alsa_card_info) cards.

Definition direction_of (pcm : alsa_pcm_info) : audio_device_direction :=
  if has_playback pcm && has_capture pcm then direction_duplex
  else if has_playback pcm then direction_playback
  else if has_capture pcm then direction_capture
  else direction_unknown.

Definition card_label (c : alsa_card_info) : option text :=
  if negb (empty (short_name c)) then Some (short_name c)
  else if negb (empty (long_name c)) then Some (long_name c)
  else if negb (empty (card_id c)) then Some (card_id c)
  else None.

Definition device_of (cards : gmap Z alsa_card_info) (pcm : alsa_pcm_info) : audio_device :=
  let card := cards !! pcm_card_index pcm in
  {| device_id := lit "hw:" ++ to_decimal (pcm_card_index pcm) ++ lit "," ++ to_decimal (device_index pcm);
     device_name := if empty (pcm_name pcm) then pcm_id pcm else pcm_name pcm;
     direction := direction_of pcm; state := state_unknown;
     card_name := c ← card; card_label c;
     driver_name := c ← card; if negb (empty (driver c)) then Some (driver c) else None;
     playback_channels := None; capture_channels := None; sample_rate_hz := None; min_sample_rate_hz := None;
     max_sample_rate_hz := None; is_default_playback := None; is_default_capture := None |}.

Section audio.
Context {W : Type} `{Kernel W}.

(** The directory handle is only opened. *)
Definition sound_directory : query W (list audio_device) := fun w =>
  match list_directory (lit "/sys/class/sound") w with
  | (inr _, w) => (Value [], w)
  | (inl _, w) => (fail errc_not_supported, w)
  end.

Definition cards_path : text := lit "/proc/asound/cards".

Definition pcm_path : text := lit "/proc/asound/pcm".

Definition collect_devices : query W (list audio_device) :=
  cards_content ← attempt (read_text_file cards_path default_maximum_size);
  match cards_content with
  | Failure e => if negb (bool_decide (e = native_error ENOENT)) then pure (Failure e) else sound_directory
  | Value cards_content =>
      cards ← pure (parse_proc_asound_cards cards_content);
      pcm_content ← attempt (read_text_file pcm_path default_maximum_size);
      match pcm_content with
      | Value pcm_content =>
          pcms ← pure (parse_proc_asound_pcm pcm_content);
          mret (device_of (card_map cards) <$> (pcms : list alsa_pcm_info))
      | Failure e => if bool_decide (e = native_error ENOENT) then mret [] else pure (Failure e)
      end
  end.

Definition devices : query W (list audio_device) := collect_devices.

Definition playback_devices : query W (list audio_device) :=
  all ← collect_devices;
  mret (filter_by_direction all direction_playback).

Definition capture_devices : query W (list audio_device) :=
  all ← collect_devices;
  mret (filter_by_direction all direction_capture).

Definition default_playback_device : query W audio_device := pure (fail errc_not_supported).

Definition default_capture_device : query W audio_device := pure (fail errc_not_supported).

Definition device_count : query W Z := all ← collect_devices; mret (Z.of_nat (length all)).
End audio.

(** ** The kernel's formats

    A card is two lines, [ 0 [id      ]: driver - short name] and an indented
    long name; a device is one line, [00-01: id : name : playback 1 : capture
    1], with the streams it has. *)

Record printed_card := Printed_card {
  index_indent : text;
  index_text : text;
  id_fill : text;
  name_indent : text;
  card : alsa_card_info
}.

Definition card_lines (p : printed_card) : list text :=
  let c := card p in
  [index_indent p ++ index_text p ++ lit " [" ++ card_id c ++ id_fill p ++ lit "]: " ++ driver c ++ lit " - " ++ short_name c;
   name_indent p ++ long_name c].

Definition cards_text (ps : list printed_card) : text :=
  concat ((fun line => line ++ [ch_lf]) <$> concat (card_lines <$> ps)).

Definition blanks (v : text) : Prop := Forall (fun c => blank c = true) v /\ (ch_lf ∉ v).

Definition decimal_of (t : text) (n : Z) : Prop := numeric 10 t = true /\ numeral 10 t = n /\ n <= uint32_max.

Definition plain (v : text) : Prop := trimmed blank v /\ (ch_lf ∉ v) /\ is_valid_utf8 v = true.

(** A long name that is not taken for a header or a remark: it does not begin
    with a digit or with three hyphens. *)
Definition not_header (v : text) : Prop :=
  starts_with (lit "---") v = false /\ exists c l, v = c :: l /\ is_digit_in 10 c = false.

Record printable_card (p : printed_card) : Prop := {
  card_blanks : blanks (index_indent p) /\ blanks (id_fill p) /\ blanks (name_indent p);
  card_number : decimal_of (index_text p) (card_index (card p));
  card_texts : Forall plain [card_id (card p); driver (card p); short_name (card p); long_name (card p)];
  card_id_closed : "]"%char ∉ card_id (card p);
  card_driver_word : driver (card p) <> [] /\ Forall (fun c => blank c = false) (driver (card p));
  card_short_name : short_name (card p) <> [];
  card_long_name : not_header (long_name (card p))
}.

Lemma numeric_plain t : numeric 10 t = true -> t <> [] /\ trimmed blank t /\ Forall (fun c => blank c = false) t.
Proof.
  intros Hn. apply numeric_split in Hn as [Hne Hd]. apply forallb_true in Hd.
  assert (Forall (fun c => blank c = false) t) as Hb by (eapply Forall_impl; [exact Hd|apply device_digit_not_blank]).
  split; [done|]. split; [by apply trimmed_Forall|done].
Qed.

Lemma decimal_parsed t n : decimal_of t n -> parse_u32 t = Value n.
Proof. intros (Hn & <- & Hm). apply parse_number_value; [by apply numeric_plain|done|done]. Qed.

Lemma trim_between a v b : Forall (fun c => blank c = true) a -> trimmed blank v -> Forall (fun c => blank c = true) b ->
  trim_whitespace (a ++ v ++ b) = v.
Proof. apply trim_app. Qed.

Lemma trim_front a v : Forall (fun c => blank c = true) a -> trimmed blank v -> trim_whitespace (a ++ v) = v.
Proof. intros Ha Hv. rewrite <- (app_nil_r v) at 1. by apply trim_between. Qed.

(** A text that begins and ends with characters that are not blank. *)
Lemma trimmed_ends a m b : a <> [] -> b <> [] -> trimmed blank a -> trimmed blank b -> trimmed blank (a ++ m ++ b).
Proof.
  intros Ha Hb [Hf _] [_ Hl]. split.
  - intros c Hc. destruct a as [|x a]; [done|]. by apply Hf.
  - intros c Hc. destruct b as [|x b]; [done|]. apply Hl. by rewrite app_assoc, last_app_cons in Hc.
Qed.

Lemma card_names_text d s :
  d <> [] -> Forall (fun c => blank c = false) d -> s <> [] -> trimmed blank s -> card_names (d ++ lit " - " ++ s) = (d, s).
Proof.
  intros Hne Hd Hs Ht. unfold card_names, find_text. rewrite drop_0.
  assert (find_part (lit " - ") (d ++ lit " - " ++ s) = Some (length d)) as ->.
  { apply (find_part_first " "%char (lit "- ")). intros Hin. rewrite Forall_forall in Hd. by apply Hd in Hin. }
  cbn [fmap option_fmap option_map]. rewrite Nat.add_0_l, substr_prefix. f_equal.
  - by apply trim_trimmed, trimmed_Forall.
  - replace (substr_from (length d + 3) (d ++ lit " - " ++ s)) with s; [by apply trim_trimmed|].
    unfold substr_from. by rewrite <- drop_drop, drop_app_length.
Qed.

(** The header line, trimmed. *)
Definition header_text (p : printed_card) : text :=
  let c := card p in
  index_text p ++ lit " [" ++ card_id c ++ id_fill p ++ lit "]: " ++ driver c ++ lit " - " ++ short_name c.

Definition without_long_name (c : alsa_card_info) : alsa_card_info := with_long_name [] c.

(** The places of the brackets and of the colon. *)
Lemma header_places (a b names : text) :
  "["%char ∉ a -> "]"%char ∉ a -> "]"%char ∉ b ->
  let line := a ++ "["%char :: b ++ "]"%char :: ":"%char :: " "%char :: names in
  find "[" line 0 = Some (length a) /\ find "]" line 0 = Some (length a + S (length b))%nat /\
  substr 0 (length a) line = a /\ substr (S (length a)) (length a + S (length b) - length a - 1) line = b /\
  find ":" line (length a + S (length b)) = Some (length a + S (S (length b)))%nat /\
  substr_from (S (length a + S (S (length b)))) line = " "%char :: names.
Proof.
  intros Ha1 Ha2 Hb line. set (rest := "]"%char :: ":"%char :: " "%char :: names) in line.
  assert (line = (a ++ "["%char :: b) ++ rest) as Hl by (unfold line; by rewrite <- app_assoc).
  assert (length (a ++ "["%char :: b) = length a + S (length b))%nat as Hlen by by rewrite length_app.
  split_and!.
  - by apply find_app.
  - rewrite Hl, <- Hlen. apply find_app. rewrite not_elem_of_app, not_elem_of_cons. done.
  - apply substr_prefix.
  - unfold substr, line. replace (length a + S (length b) - length a - 1)%nat with (length b) by lia.
    rewrite (cons_middle "["%char a), app_assoc, <- (Nat.add_1_r (length a)).
    change (length a + 1)%nat with (length a + length ["["%char])%nat. by rewrite <- length_app, drop_app_length, take_app_length.
  - unfold find. rewrite Hl, <- Hlen, drop_app_length. change (find_first (is_char ":") rest) with (Some 1%nat).
    cbn [fmap option_fmap option_map]. f_equal. rewrite Hlen. lia.
  - unfold substr_from. rewrite Hl. replace (S (length a + S (S (length b)))) with (length (a ++ "["%char :: b) + 2)%nat by lia.
    by rewrite <- drop_drop, drop_app_length.
Qed.

Lemma header_split p :
  header_text p = (index_text p ++ [" "%char]) ++ "["%char :: (card_id (card p) ++ id_fill p) ++
    "]"%char :: ":"%char :: " "%char :: driver (card p) ++ lit " - " ++ short_name (card p).
Proof. unfold header_text. by rewrite <- !app_assoc. Qed.

Lemma card_header_text p : printable_card p -> card_header (header_text p) = Value (without_long_name (card p)).
Proof.
  intros [(_ & [Hfill _] & _) Hn Htexts Hid [Hdne Hd] Hs _].
  rewrite !Forall_cons in Htexts. destruct Htexts as ((Hit & _ & Hiu) & (Hdt & _ & Hdu) & (Hst & _ & Hsu) & _).
  pose proof (numeric_plain _ (proj1 Hn)) as (Hne & Ht & Hb).
  assert (forall c, ~ (48 <= code c <= 57) -> c <> " "%char -> c ∉ index_text p ++ [" "%char]) as Hnot.
  { intros c Hc Hsp. rewrite not_elem_of_app, list_elem_of_singleton. split; [by apply numeric_no_char; [apply Hn|]|done]. }
  assert ("]"%char ∉ card_id (card p) ++ id_fill p) as Hclose.
  { rewrite not_elem_of_app. split; [done|]. intros Hin. rewrite Forall_forall in Hfill. by apply Hfill in Hin. }
  rewrite header_split. unfold card_header.
  destruct (header_places _ _ (driver (card p) ++ lit " - " ++ short_name (card p))
    (Hnot "["%char ltac:(by_compute) ltac:(done)) (Hnot "]"%char ltac:(by_compute) ltac:(done)) Hclose) as (-> & -> & -> & -> & -> & ->).
  rewrite (proj2 (Nat.leb_gt _ _)) by lia.
  assert (trim_whitespace (index_text p ++ [" "%char]) = index_text p) as ->.
  { apply (trim_between []); [done|done|by constructor]. }
  rewrite (decimal_parsed _ _ Hn). cbn [mbind result_bind]. cbv zeta.
  assert (trim_whitespace (card_id (card p) ++ id_fill p) = card_id (card p)) as -> by by apply (trim_between []).
  assert (trim_whitespace (" "%char :: driver (card p) ++ lit " - " ++ short_name (card p)) =
    driver (card p) ++ lit " - " ++ short_name (card p)) as ->.
  { apply (trim_front [" "%char]); [by constructor|]. by apply trimmed_ends. }
  rewrite card_names_text by done. cbn [fst snd]. by rewrite Hiu, Hdu, Hsu.
Qed.

Lemma header_line p cards : printable_card p ->
  card_line (index_indent p ++ header_text p) cards = Next (cards ++ [without_long_name (card p)]).
Proof.
  intros Hp. pose proof (card_header_text p Hp) as Hh. destruct Hp as [([Hin _] & _ & _) Hn Htexts _ _ Hs _].
  rewrite !Forall_cons in Htexts. destruct Htexts as (_ & _ & (Hst & _ & _) & _).
  destruct (numeric_plain _ (proj1 Hn)) as (Hne & Ht & _).
  assert (trimmed blank (header_text p)) as Htr.
  { unfold header_text. rewrite !(app_assoc (lit " [")), !(app_assoc (_ ++ _)). by apply trimmed_ends. }
  unfold card_line. rewrite trim_front by done. cbv zeta.
  pose proof (proj1 (numeric_split 10 _) (proj1 Hn)) as [_ Hd]. apply forallb_true in Hd.
  destruct (index_text p) as [|c t] eqn:E; [done|]. apply Forall_cons in Hd as [Hc _].
  assert (exists rest, header_text p = c :: rest) as [rest Er].
  { unfold header_text. rewrite E. by eexists. }
  rewrite Er in Hh |- *. cbv iota.
  assert (starts_with (lit "---") (c :: rest) = false) as ->.
  { apply bool_decide_eq_false. intros [= -> _]. done. }
  by rewrite Hc, Hh.
Qed.

Lemma long_name_line p cards : printable_card p ->
  card_line (name_indent p ++ long_name (card p)) (cards ++ [without_long_name (card p)]) = Next (cards ++ [card p]).
Proof.
  intros [(_ & _ & [Hin _]) _ Htexts _ _ _ [Hs (c & l & Hl & Hc)]].
  rewrite !Forall_cons in Htexts. destruct Htexts as (_ & _ & _ & (Ht & _ & Hu) & _).
  unfold card_line. rewrite trim_front by done. cbv zeta. rewrite Hs. unfold continuation.
  rewrite last_snoc. cbn [without_long_name with_long_name long_name empty].
  rewrite Hu. cbn [negb]. rewrite removelast_last. rewrite Hl at 1. rewrite Hc. cbn [try_step].
  by destruct (card p).
Qed.

Lemma cards_no_lf p : printable_card p -> Forall (fun l => ch_lf ∉ l) (card_lines p).
Proof.
  intros [([_ H1] & [_ H2] & [_ H3]) Hn Ht _ _ _ _]. rewrite !Forall_cons in Ht.
  destruct Ht as ((_ & H4 & _) & (_ & H5 & _) & (_ & H6 & _) & (_ & H7 & _) & _).
  assert (ch_lf ∉ index_text p) as H8 by (by apply numeric_no_char; [apply Hn|by_compute]).
  unfold card_lines. apply Forall_cons_2; [|apply Forall_cons_2; [|apply Forall_nil_2]]; rewrite !not_elem_of_app;
    split_and!; first [done|by_compute].
Qed.

Lemma parse_cards_text (ps : list printed_card) :
  Forall printable_card ps -> parse_proc_asound_cards (cards_text ps) = Value (card <$> ps).
Proof.
  intros Hps. unfold parse_proc_asound_cards. rewrite each_field_fields. unfold cards_text.
  rewrite <- (app_nil_r (concat _)), fields_concat.
  2: { apply Forall_concat, Forall_fmap. eapply Forall_impl; [exact Hps|]. apply cards_no_lf. }
  rewrite app_nil_r.
  assert (forall found, fold_steps card_line (concat (card_lines <$> ps)) found = Next (found ++ (card <$> ps))) as Hfold.
  { induction Hps as [|p ps Hp _ IH]; intros found; [by rewrite app_nil_r|]. rewrite !fmap_cons.
    change (concat (card_lines p :: ?l)) with ((index_indent p ++ header_text p) :: (name_indent p ++ long_name (card p)) :: concat l).
    cbn [fold_steps]. rewrite header_line, long_name_line by done. by rewrite IH, <- app_assoc. }
  by rewrite Hfold.
Qed.

(** A line that begins with a digit is taken for a header wherever it stands:
    a long name such as [8x8 interface at usb-1] makes the query fail. *)
Lemma digit_line_malformed (before after : list text) (line : text) (c : ascii) (l : text) (cards : list alsa_card_info) :
  Forall (fun f => ch_lf ∉ f) before -> (ch_lf ∉ line) ->
  fold_steps card_line before [] = Next cards ->
  trim_whitespace line = c :: l -> is_digit_in 10 c = true -> ("["%char ∉ c :: l) ->
  parse_proc_asound_cards (concat ((fun f => f ++ [ch_lf]) <$> before) ++ line ++ ch_lf :: concat after) = fail errc_malformed_data.
Proof.
  intros Hb Hl Hf Ht Hc Hn. unfold parse_proc_asound_cards. rewrite each_field_fields, fields_concat, fields_app by done.
  rewrite fold_steps_app, Hf. cbn [fold_steps]. unfold card_line at 1. rewrite Ht.
  assert (starts_with (lit "---") (c :: l) = false) as ->.
  { apply bool_decide_eq_false. intros [= -> _]. done. }
  rewrite Hc. unfold card_header. by rewrite find_none.
Qed.

(** A line of the second file: a device has at least one stream. *)
Record printed_pcm := Printed_pcm {
  card_text : text;
  device_text : text;
  playback_count : text;
  capture_count : text;
  pcm : alsa_pcm_info
}.

Definition streams_text (p : printed_pcm) : text :=
  match has_playback (pcm p), has_capture (pcm p) with
  | true, true => lit "playback " ++ playback_count p ++ lit " : capture " ++ capture_count p
  | true, false => lit "playback " ++ playback_count p
  | false, _ => lit "capture " ++ capture_count p
  end.

Definition number_text (p : printed_pcm) : text := card_text p ++ "-"%char :: device_text p.

Definition pcm_text (p : printed_pcm) : text :=
  number_text p ++ ":"%char :: (" "%char :: pcm_id (pcm p) ++ [" "%char]) ++ ":"%char ::
  (" "%char :: pcm_name (pcm p) ++ [" "%char]) ++ ":"%char :: " "%char :: streams_text p.

Definition pcms_text (ps : list printed_pcm) : text := concat ((fun p => pcm_text p ++ [ch_lf]) <$> ps).

Definition pcm_word (v : text) : Prop := plain v /\ (":"%char ∉ v).

Record printable_pcm (p : printed_pcm) : Prop := {
  pcm_numbers : decimal_of (card_text p) (pcm_card_index (pcm p)) /\ decimal_of (device_text p) (device_index (pcm p));
  pcm_counts : numeric 10 (playback_count p) = true /\ numeric 10 (capture_count p) = true;
  pcm_words : pcm_word (pcm_id (pcm p)) /\ pcm_word (pcm_name (pcm p));
  pcm_streams : has_playback (pcm p) || has_capture (pcm p) = true
}.

(** What the search over the whole line finds: a stream, or its word in one of
    the names. *)
Definition mentions (word : text) (streams : alsa_pcm_info -> bool) (p : alsa_pcm_info) : bool :=
  streams p || contains_ignore_case (pcm_id p) word || contains_ignore_case (pcm_name p) word.

Definition observed (p : alsa_pcm_info) : alsa_pcm_info :=
  Alsa_pcm_info (pcm_card_index p) (device_index p) (pcm_id p) (pcm_name p)
    (mentions (lit "playback") has_playback p) (mentions (lit "capture") has_capture p).

(** The device of a line, with the first card that has its index. *)
Definition described_device (cards : list alsa_card_info) (p : alsa_pcm_info) (d : audio_device) : Prop :=
  device_id d = lit "hw:" ++ to_decimal (pcm_card_index p) ++ lit "," ++ to_decimal (device_index p) /\
  device_name d = (if empty (pcm_name p) then pcm_id p else pcm_name p) /\
  matches_direction direction_playback d = mentions (lit "playback") has_playback p /\
  matches_direction direction_capture d = mentions (lit "capture") has_capture p /\
  let first := snd <$> list_find (fun c => card_index c = pcm_card_index p) cards in
  card_name d = short_name <$> first /\ driver_name d = driver <$> first.

Lemma number_text_parts p : printable_pcm p ->
  find ":" (pcm_text p) 0 = Some (length (number_text p)) /\
  substr 0 (length (number_text p)) (pcm_text p) = number_text p /\
  substr_from (S (length (number_text p))) (pcm_text p) =
    (" "%char :: pcm_id (pcm p) ++ [" "%char]) ++ ":"%char :: (" "%char :: pcm_name (pcm p) ++ [" "%char]) ++ ":"%char ::
    " "%char :: streams_text p.
Proof.
  intros [[[Hc _] [Hd _]] _ _ _]. apply find_app_parts. unfold number_text. rewrite not_elem_of_app, not_elem_of_cons.
  split_and!; [by apply numeric_no_char; [|by_compute]|done|by apply numeric_no_char; [|by_compute]].
Qed.

Lemma pcm_parts_text p : printable_pcm p ->
  pcm_parts ((" "%char :: pcm_id (pcm p) ++ [" "%char]) ++ ":"%char :: (" "%char :: pcm_name (pcm p) ++ [" "%char]) ++
    ":"%char :: " "%char :: streams_text p) = (pcm_id (pcm p), pcm_name (pcm p), " "%char :: streams_text p).
Proof.
  intros [_ _ [[(Hit & _) Hic] [(Hnt & _) Hnc]] _]. unfold pcm_parts.
  assert (forall v, ":"%char ∉ v -> ":"%char ∉ " "%char :: v ++ [" "%char]) as Hcol.
  { intros v Hv. rewrite not_elem_of_cons, not_elem_of_app, list_elem_of_singleton. done. }
  assert (forall v, trimmed blank v -> trim_whitespace (" "%char :: v ++ [" "%char]) = v) as Htrim.
  { intros v Hv. apply (trim_between [" "%char] v [" "%char]); [by constructor|done|by constructor]. }
  destruct (find_app_parts ":"%char _ ((" "%char :: pcm_name (pcm p) ++ [" "%char]) ++ ":"%char :: " "%char :: streams_text p)
    (Hcol _ Hic)) as (-> & -> & ->). cbv zeta.
  destruct (find_app_parts ":"%char _ (" "%char :: streams_text p) (Hcol _ Hnc)) as (-> & -> & ->).
  by rewrite !Htrim.
Qed.

Lemma numeric_without (c : ascii) (needle t : text) :
  57 < tolower c -> numeric 10 t = true -> contains_part t (c :: needle) = false.
Proof.
  intros Hc Hn. apply numeric_split in Hn as [_ Hd]. apply forallb_true in Hd.
  apply contains_part_none. eapply Forall_impl; [exact Hd|]. intros d Hdd%digit_code E.
  unfold tolower in E at 1. rewrite (proj2 (Z.leb_gt 65 _)) in E by lia. cbn [andb] in E. lia.
Qed.

(** A word surrounded by spaces is searched word by word. *)
Lemma contains_after_space (a b : text) c needle :
  tolower " "%char ∉ tolower <$> c :: needle ->
  contains_part (a ++ " "%char :: b) (c :: needle) = contains_part a (c :: needle) || contains_part b (c :: needle).
Proof. intros Hs. by apply contains_part_cut. Qed.

Lemma contains_at_colon (a b : text) c needle :
  tolower ":"%char ∉ tolower <$> c :: needle ->
  contains_part (a ++ ":"%char :: b) (c :: needle) = contains_part a (c :: needle) || contains_part b (c :: needle).
Proof. intros Hs. by apply contains_part_cut. Qed.

Lemma contains_padded (v : text) c needle :
  tolower " "%char ∉ tolower <$> c :: needle ->
  contains_part (" "%char :: v ++ [" "%char]) (c :: needle) = contains_part v (c :: needle).
Proof.
  intros Hs. change (" "%char :: v ++ [" "%char]) with ([] ++ " "%char :: v ++ [" "%char]).
  rewrite !contains_after_space by done. change (contains_part [] (c :: needle)) with false. by rewrite orb_false_r.
Qed.

Lemma streams_found p (c : ascii) (needle : text) :
  printable_pcm p -> (c :: needle = lit "playback" \/ c :: needle = lit "capture") ->
  contains_part (" "%char :: streams_text p) (c :: needle) =
    (if bool_decide (c :: needle = lit "playback") then has_playback (pcm p) else has_capture (pcm p)).
Proof.
  intros [_ [Hp Hc] _ Hs] Hw.
  assert (tolower " "%char ∉ tolower <$> c :: needle) as Hsp by (destruct Hw as [-> | ->]; by_compute).
  assert (57 < tolower c) as Hlow by (destruct Hw as [[= -> _] | [= -> _]]; by_compute).
  pose proof (numeric_without c needle _ Hlow Hp) as Hp'. pose proof (numeric_without c needle _ Hlow Hc) as Hc'.
  change (" "%char :: streams_text p) with ([] ++ " "%char :: streams_text p).
  rewrite contains_after_space by done. change (contains_part [] (c :: needle)) with false. unfold streams_text.
  destruct (has_playback (pcm p)), (has_capture (pcm p)); try done.
  - change (lit "playback " ++ ?a ++ lit " : capture " ++ ?b)
      with (lit "playback" ++ " "%char :: a ++ " "%char :: (":"%char :: (" "%char :: lit "capture" ++ " "%char :: b))).
    rewrite !contains_after_space, Hp' by done.
    change (":"%char :: " "%char :: ?a) with ([":"%char] ++ " "%char :: a).
    rewrite !contains_after_space, Hc' by done.
    destruct Hw as [-> | ->]; by_compute.
  - change (lit "playback " ++ ?a) with (lit "playback" ++ " "%char :: a).
    rewrite contains_after_space, Hp' by done. destruct Hw as [-> | ->]; by_compute.
  - change (lit "capture " ++ ?a) with (lit "capture" ++ " "%char :: a).
    rewrite contains_after_space, Hc' by done. destruct Hw as [-> | ->]; by_compute.
Qed.

Lemma line_found p (c : ascii) (needle : text) :
  printable_pcm p -> (c :: needle = lit "playback" \/ c :: needle = lit "capture") ->
  contains_part (pcm_text p) (c :: needle) =
    mentions (c :: needle) (if bool_decide (c :: needle = lit "playback") then has_playback else has_capture) (pcm p).
Proof.
  intros Hp Hw. pose proof (streams_found p c needle Hp Hw) as Hs. destruct Hp as [[[Hc _] [Hd _]] _ _ _].
  assert (tolower " "%char ∉ tolower <$> c :: needle /\ tolower ":"%char ∉ tolower <$> c :: needle /\
    tolower "-"%char ∉ tolower <$> c :: needle) as (Hsp & Hco & Hda) by (destruct Hw as [-> | ->]; by_compute).
  assert (57 < tolower c) as Hlow by (destruct Hw as [[= -> _] | [= -> _]]; by_compute).
  unfold pcm_text. rewrite !contains_at_colon, !contains_padded by done. rewrite Hs. unfold number_text.
  rewrite contains_part_cut, (numeric_without c needle _ Hlow Hc), (numeric_without c needle _ Hlow Hd) by done.
  unfold mentions, contains_ignore_case. destruct (bool_decide _); btauto.
Qed.

Lemma words_found p : printable_pcm p ->
  contains_part (pcm_text p) (lit "playback") = mentions (lit "playback") has_playback (pcm p) /\
  contains_part (pcm_text p) (lit "capture") = mentions (lit "capture") has_capture (pcm p) /\
  contains_part (" "%char :: streams_text p) (lit "playback") = has_playback (pcm p) /\
  contains_part (" "%char :: streams_text p) (lit "capture") = has_capture (pcm p).
Proof.
  intros Hp. split_and!.
  - exact (line_found p "p"%char (lit "layback") Hp (or_introl eq_refl)).
  - exact (line_found p "c"%char (lit "apture") Hp (or_intror eq_refl)).
  - exact (streams_found p "p"%char (lit "layback") Hp (or_introl eq_refl)).
  - exact (streams_found p "c"%char (lit "apture") Hp (or_intror eq_refl)).
Qed.

Lemma pcm_text_trimmed p : printable_pcm p -> trimmed blank (pcm_text p).
Proof.
  intros [[[Hc _] _] [Hp Hq] _ _]. unfold pcm_text, number_text.
  destruct (numeric_plain _ Hc) as (Hne & Ht & _).
  assert (exists m n, numeric 10 n = true /\ streams_text p = m ++ n) as (m & n & Hn & ->).
  { unfold streams_text. destruct (has_playback (pcm p)), (has_capture (pcm p)).
    - exists (lit "playback " ++ playback_count p ++ lit " : capture "), (capture_count p). by rewrite <- !app_assoc.
    - by exists (lit "playback "), (playback_count p).
    - by exists (lit "capture "), (capture_count p).
    - by exists (lit "capture "), (capture_count p). }
  destruct (numeric_plain _ Hn) as (Hne' & Ht' & _).
  match goal with |- trimmed _ ((?a ++ ?b) ++ ?c :: ?i ++ ?d :: ?j ++ ?e :: ?f :: m ++ n) =>
    replace ((a ++ b) ++ c :: i ++ d :: j ++ e :: f :: m ++ n) with (a ++ (b ++ c :: i ++ d :: j ++ e :: f :: m) ++ n) end.
  - by apply trimmed_ends.
  - by rewrite <- !app_assoc, <- !app_comm_cons, <- !app_assoc, <- !app_comm_cons, <- !app_assoc.
Qed.

Lemma pcm_line_text p pcms : printable_pcm p -> pcm_line (pcm_text p) pcms = Next (pcms ++ [observed (pcm p)]).
Proof.
  intros Hp. pose proof (pcm_text_trimmed p Hp) as Ht.
  destruct (words_found p Hp) as (Hplay & Hcap & Hplay' & Hcap').
  destruct (number_text_parts p Hp) as (Hfind & Hnum & Hrest). pose proof (pcm_parts_text p Hp) as Hparts.
  destruct Hp as [[Hc Hd] _ [[(Hit & _ & Hiu) _] [(Hnt & _ & Hnu) _]] _].
  destruct (numeric_plain _ (proj1 Hc)) as (Hcne & Hct & _). destruct (numeric_plain _ (proj1 Hd)) as (Hdne & Hdt & _).
  unfold pcm_line. cbv zeta. assert (trim_whitespace (pcm_text p) = pcm_text p) as -> by by apply trim_trimmed.
  assert (empty (pcm_text p) = false) as ->.
  { unfold pcm_text, number_text. by destruct (card_text p). }
  rewrite Hfind, Hnum, Hrest, Hparts.
  assert (trim_whitespace (number_text p) = number_text p) as ->.
  { apply trim_trimmed. by apply (trimmed_ends _ ["-"%char]). }
  destruct (find_app_parts "-"%char (card_text p) (device_text p)) as (Hdash & Hleft & Hright).
  { by apply numeric_no_char; [apply Hc|by_compute]. }
  unfold number_text. rewrite Hdash, Hleft, Hright, (decimal_parsed _ _ Hc), (decimal_parsed _ _ Hd).
  rewrite Hiu, Hnu. cbn [negb orb]. unfold contains_ignore_case.
  rewrite !Hplay, !Hcap, !Hplay', !Hcap'. do 2 f_equal. unfold observed, mentions. f_equal. f_equal; btauto.
Qed.

Lemma pcm_no_lf p : printable_pcm p -> ch_lf ∉ pcm_text p.
Proof.
  intros [[[Hc _] [Hd _]] [Hp Hq] [[(_ & Hi & _) _] [(_ & Hn & _) _]] _].
  assert (forall t, numeric 10 t = true -> ch_lf ∉ t) as Hnum by (intros t Ht; by apply numeric_no_char; [|by_compute]).
  apply Hnum in Hc, Hd, Hp, Hq. unfold pcm_text, number_text, streams_text.
  repeat first [rewrite not_elem_of_app | rewrite not_elem_of_cons].
  split_and!; try first [done|by_compute].
  destruct (has_playback (pcm p)), (has_capture (pcm p)); rewrite !not_elem_of_app; split_and!; first [done|by_compute].
Qed.

Lemma parse_pcms_text (ps : list printed_pcm) :
  Forall printable_pcm ps -> parse_proc_asound_pcm (pcms_text ps) = Value ((fun p => observed (pcm p)) <$> ps).
Proof.
  intros Hps. unfold parse_proc_asound_pcm. rewrite each_field_fields. unfold pcms_text.
  assert ((fun p => pcm_text p ++ [ch_lf]) <$> ps = (fun f => f ++ [ch_lf]) <$> (pcm_text <$> ps)) as ->.
  { by rewrite <- list_fmap_compose. }
  rewrite <- (app_nil_r (concat _)), fields_concat.
  2: { apply Forall_fmap. eapply Forall_impl; [exact Hps|]. apply pcm_no_lf. }
  rewrite app_nil_r.
  assert (forall found, fold_steps pcm_line (pcm_text <$> ps) found = Next (found ++ ((fun p => observed (pcm p)) <$> ps))) as Hfold.
  { induction Hps as [|p ps Hp _ IH]; intros found; [by rewrite app_nil_r|]. rewrite !fmap_cons. cbn [fold_steps].
    rewrite pcm_line_text by done. by rewrite IH, <- app_assoc. }
  by rewrite Hfold.
Qed.

(** Emplacing keeps the first card of an index. *)
Lemma card_map_lookup cards i : card_map cards !! i = snd <$> list_find (fun c => card_index c = i) cards.
Proof.
  unfold card_map.
  assert (forall m : gmap Z alsa_card_info,
    foldl (fun m c => match m !! card_index c with Some _ => m | None => <[card_index c := c]> m end) m cards !! i =
    match m !! i with Some c => Some c | None => snd <$> list_find (fun c => card_index c = i) cards end) as Hm.
  { induction cards as [|c cards IH]; intros m; cbn [foldl list_find]; [by destruct (m !! i)|]. rewrite IH.
    destruct (decide (card_index c = i)) as [<-|Hne].
    - destruct (m !! card_index c) eqn:E; [by rewrite E|by rewrite lookup_insert_eq].
    - assert (match m !! card_index c with Some _ => m | None => <[card_index c:=c]> m end !! i = m !! i) as ->.
      { destruct (m !! card_index c); [done|by rewrite lookup_insert_ne]. }
      destruct (m !! i); [done|]. by destruct (list_find _ cards) as [[]|]. }
  by rewrite Hm, lookup_empty.
Qed.

Lemma device_described cards p :
  Forall (fun c => short_name c <> [] /\ driver c <> []) cards ->
  described_device cards p (device_of (card_map cards) (observed p)).
Proof.
  intros Hc. unfold described_device, device_of. rewrite card_map_lookup. cbn [device_id device_name card_name driver_name].
  split_and!; [done|done| | | |]; cbn [observed pcm_card_index].
  1,2: unfold matches_direction, direction_of; cbn [direction observed has_playback has_capture];
    by destruct (mentions (lit "playback") has_playback p), (mentions (lit "capture") has_capture p).
  all: destruct (list_find _ cards) as [[n c]|] eqn:E; [|done]; apply list_find_Some in E as (E & _ & _);
    apply list_elem_of_lookup_2 in E; rewrite Forall_forall in Hc; apply Hc in E as [Hs Hd]; cbn.
  - unfold card_label. by rewrite (proj2 (empty_false _) Hs).
  - by rewrite (proj2 (empty_false _) Hd).
Qed.

Section results.
Context {W : Type} `{Kernel W}.

(** C34: from the kernel's card and device files, the query returns one device
    for each line, in order, with its address, its name, the names of the first
    card that has its index, and as playback or capture device exactly when the
    line has that stream or one of its names has that word; and the playback
    query keeps exactly those. *)
Theorem audio_devices_denote (w : W) (cards : list printed_card) (pcms : list printed_pcm) :
  Forall printable_card cards -> Forall printable_pcm pcms -> (forall path, snd (open_file path w) = w) ->
  fst (read_text_file cards_path default_maximum_size w) = Value (cards_text cards) ->
  fst (read_text_file pcm_path default_maximum_size w) = Value (pcms_text pcms) ->
  exists ds, fst (devices w) = Value ds /\
    Forall2 (described_device (card <$> cards)) (pcm <$> pcms) ds /\
    fst (playback_devices w) = Value (List.filter (matches_direction direction_playback) ds).
Proof.
  intros Hcards Hpcms open_quiet Hread Hread'.
  assert (fst (collect_devices w) = Value (device_of (card_map (card <$> cards)) <$> ((fun p => observed (pcm p)) <$> pcms))) as Hds.
  { unfold collect_devices, attempt, mbind, query_bind. pose proof (quiet_read w open_quiet cards_path default_maximum_size) as Hq.
    unfold quiet in Hq. destruct (read_text_file cards_path default_maximum_size w) as [r w1]. cbn in Hread, Hq. subst r w1.
    cbn [pure]. rewrite parse_cards_text by done.
    destruct (read_text_file pcm_path default_maximum_size w) as [r w1]. cbn in Hread'. subst r. by rewrite parse_pcms_text. }
  eexists. split; [exact Hds|]. split.
  - rewrite <- list_fmap_compose, Forall2_fmap. apply Forall_Forall2_diag. apply Forall_forall. intros p _. cbn. apply device_described.
    apply Forall_fmap. eapply Forall_impl; [exact Hcards|]. intros c [_ _ _ _ [Hd _] Hs _]. done.
  - unfold playback_devices, mbind, query_bind. destruct (collect_devices w) as [r w1]. cbn in Hds. by subst r.
Qed.
End results.

Definition sample_cards : list printed_card := [
  Printed_card (lit " ") (lit "0") (lit "            ") (lit "                      ")
    (Alsa_card_info 0 (lit "PCH") (lit "HDA-Intel") (lit "HDA Intel PCH") (lit "HDA Intel PCH at 0xf7e10000 irq 31"))].

Definition sample_pcms : list printed_pcm := [
  Printed_pcm (lit "00") (lit "00") (lit "1") (lit "1") (Alsa_pcm_info 0 0 (lit "ALC887 Analog") (lit "ALC887 Analog") true true);
  Printed_pcm (lit "01") (lit "00") (lit "1") (lit "1") (Alsa_pcm_info 1 0 (lit "USB Audio") (lit "Playback loop") false true)].

Definition audio_kernel : Kernel unit := static_kernel [
  ("/proc/asound/cards", String.string_of_list_ascii (cards_text sample_cards));
  ("/proc/asound/pcm", String.string_of_list_ascii (pcms_text sample_pcms))]%string.

(** A fact of a concrete text. *)
Ltac plain_compute :=
  unfold pcm_word, plain, blanks, decimal_of, not_header, trimmed; repeat match goal with |- _ /\ _ => split end;
  first [by_compute | by (intros ? [= <-]) | by (eexists _, _; split; [reflexivity|by_compute]) | done].

Lemma audio_devices_denote_witness :
  Forall printable_card sample_cards /\ Forall printable_pcm sample_pcms /\
  exists ds, fst (@devices unit audio_kernel tt) = Value ds /\
    Forall2 (described_device (card <$> sample_cards)) (pcm <$> sample_pcms) ds /\
    fst (@playback_devices unit audio_kernel tt) = Value (List.filter (matches_direction direction_playback) ds).
Proof.
  assert (Forall printable_card sample_cards) as Hcards.
  { apply Forall_singleton. constructor; try plain_compute. repeat (apply Forall_cons_2; [plain_compute|]). constructor. }
  assert (Forall printable_pcm sample_pcms) as Hpcms.
  { repeat apply Forall_cons_2; [..|constructor]; constructor; plain_compute. }
  split; [exact Hcards|]. split; [exact Hpcms|].
  refine (@audio_devices_denote unit audio_kernel tt sample_cards sample_pcms Hcards Hpcms (fun path => eq_refl) _ _);
    vm_compute; reflexivity.
Defined.
