(* ===== verification/Gpu.v ===== *)
(** * Graphics devices

    The records of [include/syscape/gpu.hpp], the classification of vendors of
    [include/syscape/detail/gpu/common.hpp] and the Linux backend
    [include/syscape/detail/gpu/linux.hpp] with the public queries.
    [realpath] and [readlink] are the class [GpuKernel]. *)
From S2P Require Import Prelude Result CppText Utf8 System Order DeviceText.

(** ** gpu.hpp *)

Inductive gpu_vendor :=
  | vendor_unknown | vendor_amd | vendor_nvidia | vendor_intel | vendor_apple | vendor_arm_mali
  | vendor_qualcomm_adreno | vendor_broadcom_videocore | vendor_imagination_powervr | vendor_microsoft
  | vendor_vmware | vendor_virtio | vendor_other.

#[global] Instance gpu_vendor_eq_dec : EqDecision gpu_vendor.
Proof. solve_decision. Defined.

Record gpu_device := Gpu_device {
  gpu_id : text;
  name : option text;
  vendor : gpu_vendor;
  vendor_name : text;
  vendor_id : option Z;
  device_id : option Z;
  driver : option text;
  vram_bytes : option Z;
  is_primary : option bool
}.

#[global] Instance gpu_device_eq_dec : EqDecision gpu_device.
Proof. solve_decision. Defined.

(** ** common.hpp *)

Definition ascii_lower (c : ascii) : Z := tolower c.

Definition ascii_is_alphanumeric (c : ascii) : bool :=
  ((97 <=? code c) && (code c <=? 122)) || ((65 <=? code c) && (code c <=? 90)) || ((48 <=? code c) && (code c <=? 57)).

Definition case_insensitive_contains (v needle : text) : bool := contains_part v needle.

(** The token stands at [i], and no identifier goes on to its left or right. *)
Definition token_at (v token : text) (i : nat) : bool :=
  ignore_case_loop (substr i (length token) v) token &&
  match i with O => true | S j => match v !! j with Some c => negb (ascii_is_alphanumeric c) | None => true end end &&
  match v !! (i + length token)%nat with Some c => negb (ascii_is_alphanumeric c) | None => true end.

Definition case_insensitive_contains_token (v token : text) : bool :=
  if empty token then false
  else if (length v <? length token)%nat then false
  else existsb (token_at v token) (seq 0 (S (length v - length token))).

Definition gpu_blank (c : ascii) : bool :=
  (code c =? 0) || is_char c " " || is_char c ch_tab || is_char c ch_cr || is_char c ch_lf.

Definition trim_whitespace (input : text) : text := drop_front gpu_blank (drop_back gpu_blank input).

Definition without_prefix (v : text) : text :=
  match v with
  | z :: x :: rest => if is_char z "0" && (is_char x "x" || is_char x "X") then rest else v
  | _ => v
  end.

Fixpoint hex_loop (input : text) (result_val : Z) : result Z :=
  match input with
  | [] => Value result_val
  | c :: input =>
      match digit_of 16 c with
      | None => fail errc_malformed_data
      | Some digit =>
          if Z.shiftr uint32_max 4 <? result_val then fail errc_value_too_large
          else hex_loop input (Z.lor (wrap 32 (Z.shiftl result_val 4)) digit)
      end
  end.

Definition parse_hex (input : text) : result Z :=
  let digits := without_prefix (trim_whitespace input) in
  if empty digits then fail errc_malformed_data else hex_loop digits 0.

Definition classify_pci_vendor_id (vendor_id : Z) : gpu_vendor :=
  if (vendor_id =? 0x1002) || (vendor_id =? 0x1022) then vendor_amd
  else if vendor_id =? 0x10de then vendor_nvidia
  else if (vendor_id =? 0x8086) || (vendor_id =? 0x8087) then vendor_intel
  else if vendor_id =? 0x106b then vendor_apple
  else if vendor_id =? 0x13b5 then vendor_arm_mali
  else if vendor_id =? 0x5143 then vendor_qualcomm_adreno
  else if vendor_id =? 0x14e4 then vendor_broadcom_videocore
  else if vendor_id =? 0x1010 then vendor_imagination_powervr
  else if vendor_id =? 0x1414 then vendor_microsoft
  else if vendor_id =? 0x15ad then vendor_vmware
  else if vendor_id =? 0x1af4 then vendor_virtio
  else if (vendor_id =? 0x1ab8) || (vendor_id =? 0x1b36) then vendor_other
  else if negb (vendor_id =? 0) then vendor_other
  else vendor_unknown.

Definition vendor_to_string (v : gpu_vendor) : text :=
  lit match v with
      | vendor_amd => "AMD"
      | vendor_nvidia => "NVIDIA"
      | vendor_intel => "Intel"
      | vendor_apple => "Apple"
      | vendor_arm_mali => "ARM"
      | vendor_qualcomm_adreno => "Qualcomm"
      | vendor_broadcom_videocore => "Broadcom"
      | vendor_imagination_powervr => "Imagination Technologies"
      | vendor_microsoft => "Microsoft"
      | vendor_vmware => "VMware"
      | vendor_virtio => "Red Hat / VirtIO"
      | vendor_other => "Other"
      | vendor_unknown => "Unknown"
      end.

Definition classify_vendor_name (v : text) : gpu_vendor :=
  let contains part := case_insensitive_contains v (lit part) in
  let token part := case_insensitive_contains_token v (lit part) in
  if contains "nvidia"%string then vendor_nvidia
  else if token "amd"%string || token "ati"%string || contains "radeon"%string || contains "advanced micro devices"%string
  then vendor_amd
  else if contains "intel"%string then vendor_intel
  else if contains "apple"%string then vendor_apple
  else if contains "mali"%string || contains "immortalis"%string || token "arm"%string then vendor_arm_mali
  else if contains "adreno"%string || contains "qualcomm"%string then vendor_qualcomm_adreno
  else if contains "videocore"%string || contains "broadcom"%string then vendor_broadcom_videocore
  else if contains "powervr"%string || contains "imagination"%string then vendor_imagination_powervr
  else if contains "microsoft"%string || contains "basic render"%string then vendor_microsoft
  else if contains "vmware"%string || contains "svga"%string then vendor_vmware
  else if contains "virtio"%string || contains "red hat"%string then vendor_virtio
  else if negb (empty v) then vendor_other
  else vendor_unknown.

(** ** linux.hpp *)

(** [realpath]: [errno] or the resolved path; [readlink] on a buffer of a size:
    [errno] or the bytes it stored. *)
Class GpuKernel (W : Type) := {
  realpath : text -> W -> (Z + text) * W;
  readlink : text -> Z -> W -> (Z + text) * W
}.

Definition pci_devices_root : text := lit "/sys/bus/pci/devices/".

Definition drm_class_root : text := lit "/sys/class/drm/".

Definition path_basename (path : text) : text :=
  match rfind "/" path with Some slash_pos => substr_from (S slash_pos) path | None => path end.

Definition parse_decimal_u64 (input : text) : result Z :=
  let trimmed := trim_whitespace input in
  if empty trimmed then fail errc_malformed_data
  else
    let parsed := from_chars_unsigned uint64_max 10 trimmed in
    if out_of_range parsed then fail errc_value_too_large
    else if negb (consumed parsed trimmed) then fail errc_malformed_data
    else Value (fc_value parsed).

Definition is_one_of (v : text) (names : list string) : bool := existsb (fun n => same v (lit n)) names.

Definition classify_driver_or_node (v : text) : gpu_vendor :=
  if is_one_of v ["panfrost"; "mali"; "lima"; "mali_kbase"]%string then vendor_arm_mali
  else if is_one_of v ["vc4"; "v3d"; "bcm2835"; "bcm2711"; "bcm2712"]%string then vendor_broadcom_videocore
  else if is_one_of v ["adreno"; "msm"; "kgsl"; "kgsl-3d0"]%string then vendor_qualcomm_adreno
  else if is_one_of v ["powervr"; "pvr"; "pvrsrvkm"]%string then vendor_imagination_powervr
  else if is_one_of v ["tegra"; "tegra-drm"; "tegra_drm"; "nouveau"; "nvidia"]%string then vendor_nvidia
  else if is_one_of v ["amdgpu"; "radeon"]%string then vendor_amd
  else if is_one_of v ["i915"; "xe"]%string then vendor_intel
  else if is_one_of v ["virtio-gpu"; "virtio_gpu"]%string then vendor_virtio
  else if is_one_of v ["vboxvideo"]%string then vendor_other
  else vendor_unknown.

(** What an attribute that may be missing is read as. *)
Definition parse_if_any {A} (parse : text -> result A) (content : option text) : result (option A) :=
  match content with Some t => v ← parse t; Value (Some v) | None => Value None end.

Definition parse_boot_vga (content : text) : result bool :=
  let trimmed := trim_whitespace content in
  if same trimmed (lit "1") then Value true
  else if same trimmed (lit "0") then Value false
  else fail errc_malformed_data.

(** A name, absent when it is blank. *)
Definition parse_name (content : option text) : result (option text) :=
  match content with
  | None => Value None
  | Some t =>
      let label := trim_whitespace t in
      if empty label then Value None
      else if negb (is_valid_utf8 label) then fail errc_invalid_encoding
      else Value (Some label)
  end.

Definition vendor_of (vendor_id : option Z) (driver : option text) : gpu_vendor :=
  match vendor_id, driver with
  | Some vid, _ => classify_pci_vendor_id vid
  | None, Some d => classify_driver_or_node d
  | None, None => vendor_unknown
  end.

(** The name of a DRM node of a card: [card] and digits. *)
Definition is_card_node (entry_name : text) : bool :=
  (4 <? length entry_name)%nat && same (substr 0 4 entry_name) (lit "card") &&
  forallb (is_digit_in 10) (substr_from 4 entry_name).

Definition is_dot_entry (entry_name : text) : bool := same entry_name (lit ".") || same entry_name (lit "..").

Definition device_less (a b : gpu_device) : bool := text_less (gpu_id a) (gpu_id b).

Section gpu.
Context {W : Type} `{Kernel W} `{GpuKernel W}.

(** Empty when the path does not exist. *)
Definition canonical_path (path : text) : query W text := fun w =>
  match realpath path w with
  | (inl errno, w) => (if errno =? ENOENT then Value [] else fail_native errno, w)
  | (inr resolved, w) => (Value resolved, w)
  end.

Definition read_driver_name (device_dir : text) : query W (option text) := fun w =>
  match readlink (device_dir ++ lit "/driver") 1024 w with
  | (inl errno, w) => (if (errno =? ENOENT) || (errno =? EINVAL) then Value None else fail_native errno, w)
  | (inr target, w) =>
      (if 1024 <=? Z.of_nat (length target) then fail errc_value_too_large
       else
         let found := path_basename target in
         if empty found then Value None
         else if negb (is_valid_utf8 found) then fail errc_invalid_encoding
         else Value (Some found), w)
  end.

Definition read_vram_bytes (device_dir : text) : query W (option Z) :=
  amd_vram ← attempt (read_text_file (device_dir ++ lit "/mem_info_vram_total") 64);
  pure (match amd_vram with
        | Value t => v ← parse_decimal_u64 t; Value (Some v)
        | Failure e =>
            if negb (matches_std_errc e ENOENT) && negb (matches_std_errc e EOPNOTSUPP) then Failure e else Value None
        end).

(** An attribute of the device that may be missing. *)
Definition attribute {A} (dev_path : text) (file : string) (size : Z) (parse : text -> result A) : query W (option A) :=
  content ← content_if_any (dev_path ++ lit file) size;
  pure (parse_if_any parse content).

(** The label, and the name of the device-tree node when there is none. *)
Definition read_name (dev_path : text) : query W (option text) :=
  label_text ← content_if_any (dev_path ++ lit "/label") 256;
  label ← pure (parse_name label_text);
  match (label : option text) with
  | Some _ => mret label
  | None =>
      of_node ← content_if_any (dev_path ++ lit "/of_node/name") 256;
      pure (parse_name of_node)
  end.

Definition inspect_device (dev_id dev_path : text) : query W gpu_device :=
  if negb (is_valid_utf8 dev_id) then pure (fail errc_invalid_encoding)
  else
    vendor_id ← attribute dev_path "/vendor" 64 parse_hex;
    device_id ← attribute dev_path "/device" 64 parse_hex;
    driver ← read_driver_name dev_path;
    is_primary ← attribute dev_path "/boot_vga" 16 parse_boot_vga;
    vram_bytes ← read_vram_bytes dev_path;
    name ← read_name dev_path;
    let vendor := vendor_of vendor_id driver in
    mret (Gpu_device dev_id name vendor (vendor_to_string vendor) vendor_id device_id driver vram_bytes is_primary).

(** A device that cannot be found any more is left out. *)
Definition inspect_into (dev_id dev_path : text) (found : list gpu_device) : query W (list gpu_device) :=
  inspected ← attempt (inspect_device dev_id dev_path);
  match inspected with
  | Value dev => mret (found ++ [dev])
  | Failure e => if negb (matches_std_errc e ENOENT) then pure (Failure e) else mret found
  end.

Definition drm_entry (entry_name : text) (st : list gpu_device * list text) : query W (list gpu_device * list text) :=
  if is_dot_entry entry_name || negb (is_card_node entry_name) then mret st
  else
    let card_path := drm_class_root ++ entry_name in
    canon ← canonical_path (card_path ++ lit "/device");
    let target_dev_path := if empty canon then card_path else canon in
    let seen := if negb (empty target_dev_path) then snd st ++ [target_dev_path] else snd st in
    found ← inspect_into entry_name target_dev_path (fst st);
    mret (found, seen).

Definition pci_entry (seen : list text) (entry_name : text) (found : list gpu_device) : query W (list gpu_device) :=
  if is_dot_entry entry_name then mret found
  else
    let dev_path := pci_devices_root ++ entry_name in
    class_text ← attempt (read_text_file (dev_path ++ lit "/class") 64);
    match class_text with
    | Failure e => if matches_std_errc e ENOENT then mret found else pure (Failure e)
    | Value class_text =>
        pci_class ← pure (parse_hex class_text);
        if negb (Z.shiftr pci_class 16 =? 3) then mret found
        else
          canon ← canonical_path dev_path;
          if existsb (fun s => same s canon) seen then mret found
          else inspect_into entry_name dev_path found
    end.

(** One directory: its entries in order, then the error [readdir] ended with. *)
Fixpoint entries_loop {S} (visit : text -> S -> query W S) (names : list text) (errno : Z) (st : S) : query W S :=
  match names with
  | [] => if negb (errno =? 0) then pure (fail_native errno) else mret st
  | entry_name :: names => st ← visit entry_name st; entries_loop visit names errno st
  end.

(** The state after the directory, and whether it could be opened. *)
Definition walk_directory {S} (path : text) (visit : text -> S -> query W S) (st : S) : query W (S * bool) := fun w =>
  match list_directory path w with
  | (inl errno, w) => (if negb (errno =? ENOENT) then fail_native errno else Value (st, false), w)
  | (inr (names, errno), w) => (st ← entries_loop visit names errno st; mret (st, true)) w
  end.

Definition collect_devices : query W (list gpu_device) :=
  drm ← walk_directory drm_class_root drm_entry ([], []);
  pci ← walk_directory pci_devices_root (pci_entry (snd (fst drm))) (fst (fst drm));
  if negb (snd pci) && negb (snd drm) then pure (fail errc_not_supported)
  else mret (std_sort device_less (fst pci)).

Definition devices : query W (list gpu_device) := collect_devices.

Definition device_count : query W Z := res ← collect_devices; mret (Z.of_nat (length res)).

Definition primary_device : query W gpu_device :=
  res ← collect_devices;
  match list_find (fun dev => is_primary dev = Some true) res with
  | Some (_, dev) => mret dev
  | None => pure (fail errc_not_found)
  end.
End gpu.

(** ** Numbers and tokens *)

Lemma gpu_hex_step v d : 0 <= v <= uint32_max / 16 -> 0 <= d < 16 -> Z.lor (wrap 32 (Z.shiftl v 4)) d = v * 16 + d.
Proof.
  unfold uint32_max. change (4294967295 / 16) with 268435455. intros Hv Hd. rewrite Z.shiftl_mul_pow2 by lia.
  unfold wrap. rewrite Z.mod_small by lia. rewrite (lor_add 4) by first [lia|by apply Z.mod_mul]. lia.
Qed.

Lemma gpu_hex_loop l v n :
  0 <= v <= uint32_max ->
  hex_loop l v = Value n <-> forallb (is_digit_in 16) l = true /\ n = hex_digits_value l v /\ n <= uint32_max.
Proof.
  unfold hex_digits_value. revert v. induction l as [|c l IH]; intros v Hv; cbn [forallb hex_loop digit_run].
  - cbn [foldl]. split; [intros [= <-]; repeat split; lia|]. by intros (_ & -> & _).
  - unfold is_digit_in at 1. destruct (digit_of 16 c) as [d|] eqn:Ed; [|split; [done|by intros [? _]]].
    apply digit_of_bound in Ed. cbn [foldl andb]. change (Z.shiftr uint32_max 4) with (uint32_max / 16).
    pose proof (hex_digits_value_ge l (v * 16 + d) ltac:(lia)) as Hge. unfold hex_digits_value in Hge.
    unfold uint32_max in *. change (4294967295 / 16) with 268435455.
    destruct (Z.ltb_spec 268435455 v); [split; [done|]; intros (_ & -> & ?); lia|].
    rewrite gpu_hex_step by (done || (unfold uint32_max; change (4294967295 / 16) with 268435455; lia)). apply IH. lia.
Qed.

(** A number parses exactly when it consists of hexadecimal digits whose value
    fits 32 bits, with blanks around and [0x] before them allowed, and then to
    that value. *)
Lemma gpu_parse_hex_spec input n :
  parse_hex input = Value n <->
  numeric 16 (without_prefix (trim_whitespace input)) = true /\
  n = numeral 16 (without_prefix (trim_whitespace input)) /\ n <= uint32_max.
Proof.
  unfold parse_hex. cbv zeta. set (digits := without_prefix _). rewrite numeric_split.
  destruct (empty digits) eqn:E.
  - apply empty_true in E. rewrite E. split; [done|]. by intros [[? _] _].
  - apply empty_false in E. rewrite gpu_hex_loop by (unfold uint32_max; lia).
    change (hex_digits_value digits 0) with (numeral 16 digits). tauto.
Qed.

(** A token is found exactly where it stands between characters that do not
    continue a word. *)
Lemma contains_token_spec v token :
  case_insensitive_contains_token v token = true <->
  token <> [] /\ exists a m b, v = a ++ m ++ b /\ tolower <$> m = tolower <$> token /\
    (forall c, last a = Some c -> ascii_is_alphanumeric c = false) /\
    (forall c, head b = Some c -> ascii_is_alphanumeric c = false).
Proof.
  unfold case_insensitive_contains_token. destruct (empty token) eqn:E.
  { apply empty_true in E. split; [done|]. by intros [? _]. }
  apply empty_false in E. destruct (Nat.ltb_spec (length v) (length token)) as [Hlt|Hge].
  { split; [done|]. intros (_ & a & m & b & -> & Hm & _). apply (f_equal length) in Hm. rewrite !length_fmap in Hm.
    rewrite !length_app in Hlt. lia. }
  rewrite existsb_exists. unfold token_at. split.
  - intros (i & [_ Hi]%in_seq & [[Hm Hl]%andb_true_iff Hr]%andb_true_iff). cbn in Hi. split; [done|].
    exists (take i v), (substr i (length token) v), (drop (length token) (drop i v)). unfold substr in *.
    split; [by rewrite take_drop, take_drop|]. split.
    { apply ignore_case_loop_spec; [|done]. rewrite length_take, length_drop. lia. }
    split.
    + intros c Hc. destruct i as [|j]; [done|]. rewrite last_lookup, length_take, Nat.min_l in Hc by lia. cbn in Hc.
      rewrite lookup_take_lt in Hc by lia. rewrite Hc in Hl. by apply negb_true_iff.
    + intros c Hc. rewrite head_lookup, drop_drop, lookup_drop, Nat.add_0_r in Hc. rewrite Hc in Hr. by apply negb_true_iff.
  - intros (_ & a & m & b & -> & Hm & Ha & Hb). pose proof (f_equal length Hm) as Hl. rewrite !length_fmap in Hl.
    exists (length a). rewrite !length_app in Hge. split; [apply in_seq; rewrite !length_app; lia|].
    rewrite !andb_true_iff. split_and!.
    + unfold substr. rewrite drop_app_length, <- Hl, take_app_length. by apply ignore_case_loop_spec.
    + destruct (length a) as [|j] eqn:Ej; [done|]. destruct ((a ++ m ++ b) !! j) as [c|] eqn:Ec; [|done].
      rewrite lookup_app_l in Ec by lia. rewrite Ha; [done|]. by rewrite last_lookup, Ej.
    + destruct ((a ++ m ++ b) !! _) as [c|] eqn:Ec; [|done].
      rewrite app_assoc, lookup_app_r in Ec by (rewrite length_app; lia). rewrite length_app, Hl, Nat.sub_diag in Ec.
      rewrite Hb; [done|]. by rewrite head_lookup.
Qed.

(** ** Failures that are not a missing file *)

Create HintDb gpu.

Definition not_missing {A} (r : result A) : Prop := forall e, r = Failure e -> matches_std_errc e ENOENT = false.

Lemma not_missing_value {A} (v : A) : not_missing (Value v).
Proof. done. Qed.

Lemma not_missing_fail {A} e : matches_std_errc (make_error_code e) ENOENT = false -> not_missing (@fail A e).
Proof. by intros He ? [= <-]. Qed.

Lemma not_missing_native {A} errno : errno <> ENOENT -> not_missing (@fail_native A errno).
Proof.
  intros Hn e [= <-]. unfold matches_std_errc, equivalent, native_error, make_error_condition. cbn.
  rewrite bool_decide_eq_false_2 by (by intros [= ->]). cbn. rewrite (proj2 (Z.eqb_neq _ _) Hn). by rewrite ?andb_false_r.
Qed.

Lemma not_missing_hex input : not_missing (parse_hex input).
Proof.
  unfold parse_hex. destruct (empty _); [by apply not_missing_fail|]. generalize 0. generalize (without_prefix (trim_whitespace input)).
  intros l. induction l as [|c l IH]; intros v; cbn [hex_loop]; [done|]. destruct (digit_of 16 c); [|by apply not_missing_fail].
  split_if; [by apply not_missing_fail|apply IH].
Qed.

Lemma not_missing_vga content : not_missing (parse_boot_vga content).
Proof. unfold parse_boot_vga. by repeat (split_if; [done|]); apply not_missing_fail. Qed.

Lemma not_missing_decimal content : not_missing (parse_decimal_u64 content).
Proof. unfold parse_decimal_u64. repeat (split_if; [by apply not_missing_fail|]). done. Qed.

Lemma not_missing_name content : not_missing (parse_name content).
Proof. unfold parse_name. destruct content; [|done]. split_if; [done|]. by split_if; [apply not_missing_fail|]. Qed.

Lemma not_missing_any {A} (parse : text -> result A) content :
  (forall t, not_missing (parse t)) -> not_missing (parse_if_any parse content).
Proof.
  intros Hp. destruct content as [t|]; [|done]. cbn. intros e. specialize (Hp t). destruct (parse t) as [v|e']; [done|].
  intros [= <-]. by apply Hp.
Qed.

#[local] Hint Resolve not_missing_value not_missing_hex not_missing_vga not_missing_decimal not_missing_name not_missing_any : gpu.

Section still.
Context {W : Type} `{Kernel W} `{GpuKernel W} (w : W).
Context (open_quiet : forall path, snd (open_file path w) = w) (list_quiet : forall path, snd (list_directory path w) = w)
  (realpath_quiet : forall path, snd (realpath path w) = w) (readlink_quiet : forall path size, snd (readlink path size w) = w).

(** Quiet, and no failure that says the file is missing. *)
Definition firm {A} (m : query W A) : Prop := quiet w m /\ not_missing (fst (m w)).

Lemma firm_bind {A B} (m : query W A) (f : A -> query W B) : firm m -> (forall v, firm (f v)) -> firm (v ← m; f v).
Proof.
  intros [Hq Hm] Hf. split; [apply quiet_bind; [done|]; intros; apply Hf|].
  unfold mbind, query_bind, quiet in *. destruct (m w) as [[v|e] w1]; cbn in *; subst; [apply Hf|].
  intros e' [= <-]. by apply Hm.
Qed.

Lemma firm_pure {A} (r : result A) : not_missing r -> firm (pure r).
Proof. by split. Qed.

Lemma firm_ret {A} (v : A) : firm (mret v).
Proof. by split. Qed.

Lemma firm_content path size : firm (content_if_any path size).
Proof.
  split; [by apply quiet_if_any|]. unfold content_if_any, attempt, mbind, query_bind, pure.
  destruct (read_text_file path size w) as [[t|e] w1]; cbn; [done|]. destruct (matches_std_errc e ENOENT) eqn:E; [done|].
  by intros e' [= <-].
Qed.

Lemma firm_attribute {A} path file size (parse : text -> result A) :
  (forall t, not_missing (parse t)) -> firm (attribute path file size parse).
Proof. intros Hp. apply firm_bind; [apply firm_content|]. intros. by apply firm_pure, not_missing_any. Qed.

Lemma firm_driver path : firm (read_driver_name path).
Proof.
  unfold firm, quiet, read_driver_name. pose proof (readlink_quiet (path ++ lit "/driver") 1024) as Hq.
  destruct (readlink _ _ w) as [[errno|target] w1]; cbn [fst snd] in *; (split; [done|]).
  - destruct (Z.eqb_spec errno ENOENT); [done|]. cbn. split_if; [done|]. by apply not_missing_native.
  - split_if; [by apply not_missing_fail|]. destruct (empty (path_basename target)); [done|].
    destruct (is_valid_utf8 (path_basename target)); cbn; [done|by apply not_missing_fail].
Qed.

Lemma firm_vram path : firm (read_vram_bytes path).
Proof.
  split; [apply quiet_bind; [apply quiet_attempt, quiet_read, open_quiet|done]|].
  unfold read_vram_bytes, attempt, mbind, query_bind, pure.
  destruct (read_text_file _ _ w) as [[t|e] w1]; cbn.
  - exact (not_missing_any parse_decimal_u64 (Some t) not_missing_decimal).
  - destruct (matches_std_errc e ENOENT) eqn:E; [done|]. cbn. split_if; [|done]. by intros e' [= <-].
Qed.

Lemma firm_name path : firm (read_name path).
Proof.
  apply firm_bind; [apply firm_content|]. intros. apply firm_bind; [by apply firm_pure, not_missing_name|].
  intros [label|]; [apply firm_ret|]. apply firm_bind; [apply firm_content|]. intros. by apply firm_pure, not_missing_name.
Qed.

Lemma firm_inspect dev_id path : firm (inspect_device dev_id path).
Proof.
  unfold inspect_device. split_if; [by apply firm_pure, not_missing_fail|].
  repeat (apply firm_bind; [first [apply firm_driver|apply firm_vram|apply firm_name|apply firm_attribute; auto with gpu]|intros]).
  apply firm_ret.
Qed.

Lemma inspect_into_value dev_id path found found' :
  fst (inspect_into dev_id path found w) = Value found' <->
  exists d, fst (inspect_device dev_id path w) = Value d /\ found' = found ++ [d].
Proof.
  destruct (firm_inspect dev_id path) as [Hq Hm]. unfold quiet, not_missing in *.
  unfold inspect_into, attempt, mbind, query_bind. destruct (inspect_device dev_id path w) as [[d|e] w1]; cbn in *.
  - split; [intros [= <-]; eauto|]. by intros (? & [= <-] & ->).
  - rewrite Hm by done. cbn. split; [done|]. by intros (? & ? & _).
Qed.

Lemma quiet_into dev_id path found : quiet w (inspect_into dev_id path found).
Proof.
  apply quiet_bind; [apply quiet_attempt; by apply firm_inspect|]. intros [d|e] _; [done|]. by destruct (negb _).
Qed.

Lemma quiet_canonical path : quiet w (canonical_path path).
Proof. unfold quiet, canonical_path. pose proof (realpath_quiet path). by destruct (realpath path w) as [[?|?] w1]. Qed.

(** The names of a directory that could be opened. *)
Definition names_in (path : text) : list text := match fst (list_directory path w) with inr (names, _) => names | inl _ => [] end.

Definition canonical (path : text) : text := match fst (realpath path w) with inr resolved => resolved | inl _ => [] end.

Definition card_names : list text := List.filter (fun n => negb (is_dot_entry n) && is_card_node n) (names_in drm_class_root).

(** The directory of the device behind a card. *)
Definition card_target (n : text) : text :=
  let resolved := canonical (drm_class_root ++ n ++ lit "/device") in
  if empty resolved then drm_class_root ++ n else resolved.

Definition display_controller (n : text) : bool :=
  match fst (read_text_file (pci_devices_root ++ n ++ lit "/class") 64 w) with
  | Value class_text => match parse_hex class_text with Value pci_class => Z.shiftr pci_class 16 =? 3 | Failure _ => false end
  | Failure _ => false
  end.

(** A display controller that is not the device behind a card. *)
Definition is_other_controller (n : text) : bool :=
  negb (is_dot_entry n) && display_controller n &&
  negb (existsb (fun s => same s (canonical (pci_devices_root ++ n))) (card_target <$> card_names)).

Definition controller_names : list text := List.filter is_other_controller (names_in pci_devices_root).

(** The devices, with the directory each is read from. *)
Definition sources : list (text * text) :=
  ((fun n => (n, card_target n)) <$> card_names) ++ ((fun n => (n, pci_devices_root ++ n)) <$> controller_names).

Definition read_from (source : text * text) (d : gpu_device) : Prop :=
  fst (inspect_device (fst source) (snd source) w) = Value d.

Lemma canonical_path_value path v : fst (canonical_path path w) = Value v -> v = canonical path.
Proof.
  unfold canonical_path, canonical. destruct (realpath path w) as [[errno|resolved] w1]; cbn; [|by intros [= ->]].
  split_if; [by intros [= ->]|done].
Qed.

Lemma drm_entry_value n st st' :
  fst (drm_entry n st w) = Value st' ->
  if negb (is_dot_entry n) && is_card_node n
  then exists d, read_from (n, card_target n) d /\ st' = (fst st ++ [d], snd st ++ [card_target n])
  else st' = st.
Proof.
  unfold drm_entry. rewrite <- (negb_involutive (is_card_node n)) at 2. rewrite <- negb_orb.
  destruct (_ || _); cbn [negb]; [by intros [= ->]|].
  intros (canon & Hc%canonical_path_value & Hv)%(quiet_value w); [|by apply quiet_canonical].
  rewrite <- app_assoc in Hc. fold (card_target n) in Hv.
  assert ((if empty canon then drm_class_root ++ n else canon) = card_target n) as Ht by (by subst canon).
  rewrite Ht in Hv. assert (empty (card_target n) = false) as Hne.
  { rewrite <- Ht. destruct (empty canon) eqn:E; [done|done]. }
  rewrite Hne in Hv. cbn [negb] in Hv. apply (quiet_value w) in Hv as (found & Hf & [= <-]); [|by apply quiet_into].
  apply inspect_into_value in Hf as (d & Hd & ->). by exists d.
Qed.

Lemma quiet_drm_entry n st : quiet w (drm_entry n st).
Proof.
  unfold drm_entry. destruct (_ || _); [done|]. apply quiet_bind; [by apply quiet_canonical|]. intros.
  apply quiet_bind; [by apply quiet_into|done].
Qed.

Lemma drm_loop_value names errno st st' :
  fst (entries_loop drm_entry names errno st w) = Value st' ->
  let cards := List.filter (fun n => negb (is_dot_entry n) && is_card_node n) names in
  exists ds, Forall2 read_from ((fun n => (n, card_target n)) <$> cards) ds /\
    st' = (fst st ++ ds, snd st ++ (card_target <$> cards)).
Proof.
  revert st. induction names as [|n names IH]; intros st; cbn [entries_loop List.filter].
  - destruct (errno =? 0); [|done]. intros [= <-]. exists []. split; [constructor|]. by rewrite !app_nil_r, <- surjective_pairing.
  - intros (st1 & H1%drm_entry_value & H2)%(quiet_value w); [|apply quiet_drm_entry].
    apply IH in H2 as (ds & Hds & ->). destruct (_ && _); [|by subst st1; eauto].
    destruct H1 as (d & Hd & ->). exists (d :: ds). cbn. split; [by constructor|]. by rewrite <- !app_assoc.
Qed.

Lemma pci_entry_value seen n found found' :
  fst (pci_entry seen n found w) = Value found' ->
  if negb (is_dot_entry n) && display_controller n &&
     negb (existsb (fun s => same s (canonical (pci_devices_root ++ n))) seen)
  then exists d, read_from (n, pci_devices_root ++ n) d /\ found' = found ++ [d]
  else found' = found.
Proof.
  unfold pci_entry. destruct (is_dot_entry n); cbn [negb andb]; [by intros [= ->]|].
  intros (class_text & Hc & Hv)%(quiet_value w); [|by apply quiet_attempt, quiet_read].
  unfold display_controller. rewrite <- app_assoc in Hc. unfold attempt in Hc.
  destruct (read_text_file (pci_devices_root ++ n ++ lit "/class") 64 w) as [[t|e] w1]; injection Hc as <-; cbn [fst].
  2: { destruct (matches_std_errc _ _); [by injection Hv as ->|done]. }
  apply (quiet_value w) in Hv as (pci_class & Hp & Hv); [|done]. cbn in Hp. rewrite Hp.
  destruct (Z.shiftr pci_class 16 =? 3); cbn [negb andb] in *; [|by injection Hv as ->].
  apply (quiet_value w) in Hv as (canon & ->%canonical_path_value & Hv); [|by apply quiet_canonical].
  destruct (existsb _ _); cbn [negb]; [by injection Hv as ->|]. by apply inspect_into_value in Hv.
Qed.

Lemma quiet_pci_entry seen n found : quiet w (pci_entry seen n found).
Proof.
  unfold pci_entry. destruct (is_dot_entry n); [done|]. apply quiet_bind; [by apply quiet_attempt, quiet_read|].
  intros [t|e] _; [|by destruct (matches_std_errc _ _)]. apply quiet_bind; [done|]. intros c _.
  destruct (negb _); [done|]. apply quiet_bind; [by apply quiet_canonical|]. intros canon _.
  destruct (existsb _ _); [done|by apply quiet_into].
Qed.

Lemma pci_loop_value seen names errno found found' :
  fst (entries_loop (pci_entry seen) names errno found w) = Value found' ->
  let others := List.filter (fun n => negb (is_dot_entry n) && display_controller n &&
     negb (existsb (fun s => same s (canonical (pci_devices_root ++ n))) seen)) names in
  exists ds, Forall2 read_from ((fun n => (n, pci_devices_root ++ n)) <$> others) ds /\ found' = found ++ ds.
Proof.
  revert found. induction names as [|n names IH]; intros found; cbn [entries_loop List.filter].
  - destruct (errno =? 0); [|done]. intros [= <-]. exists []. split; [constructor|]. by rewrite app_nil_r.
  - intros (found1 & H1%pci_entry_value & H2)%(quiet_value w); [|apply quiet_pci_entry].
    apply IH in H2 as (ds & Hds & ->). destruct (_ && _); [|by subst found1; eauto].
    destruct H1 as (d & Hd & ->). exists (d :: ds). cbn. split; [by constructor|]. by rewrite <- app_assoc.
Qed.

Lemma quiet_entries {S} (visit : text -> S -> query W S) names errno st :
  (forall n st, quiet w (visit n st)) -> quiet w (entries_loop visit names errno st).
Proof.
  intros Hv. revert st. induction names as [|n names IH]; intros st; cbn [entries_loop]; [by destruct (negb _)|].
  apply quiet_bind; [apply Hv|auto].
Qed.

Lemma quiet_walk {S} path (visit : text -> S -> query W S) st :
  (forall n st, quiet w (visit n st)) -> quiet w (walk_directory path visit st).
Proof.
  intros Hv. unfold quiet, walk_directory. pose proof (list_quiet path) as Hl.
  destruct (list_directory path w) as [[errno|[names errno]] w1]; cbn in Hl; subst w1; [done|].
  apply quiet_bind; [by apply quiet_entries|done].
Qed.

Lemma walk_value {S} path (visit : text -> S -> query W S) st st' opened :
  (forall n st, quiet w (visit n st)) -> fst (walk_directory path visit st w) = Value (st', opened) ->
  exists errno, fst (entries_loop visit (names_in path) errno st w) = Value st'.
Proof.
  intros Hv. unfold walk_directory, names_in. pose proof (list_quiet path) as Hl.
  destruct (list_directory path w) as [[errno|[names errno]] w1]; cbn [fst snd] in *; subst w1.
  - split_if; [done|]. intros [= <- <-]. by exists 0.
  - intros (st1 & H1 & [= <- <-])%(quiet_value w); [|by apply quiet_entries]. by exists errno.
Qed.

Lemma collect_value l :
  fst (collect_devices w) = Value l -> exists ds, Forall2 read_from sources ds /\ l = std_sort device_less ds.
Proof.
  unfold collect_devices. intros ([[found seen] drm] & Hdrm & Hv)%(quiet_value w); [|by apply quiet_walk, quiet_drm_entry].
  apply walk_value in Hdrm as [errno Hdrm]; [|apply quiet_drm_entry]. apply drm_loop_value in Hdrm as (ds & Hds & E).
  cbn in E. injection E as -> ->. cbn [fst snd] in Hv.
  apply (quiet_value w) in Hv as ([found' pci] & Hpci & Hv); [|by apply quiet_walk, quiet_pci_entry].
  apply walk_value in Hpci as [errno' Hpci]; [|apply quiet_pci_entry]. apply pci_loop_value in Hpci as (ds' & Hds' & ->).
  cbn [fst snd] in Hv. destruct (_ && _); [done|]. injection Hv as <-. exists (ds ++ ds'). split; [by apply Forall2_app|done].
Qed.
End still.

(** ** What is reported of a device *)

Definition good_name (v : option text) : Prop := forall t, v = Some t -> t <> [] /\ is_valid_utf8 t = true.

Definition bounded_by (max : Z) (v : option Z) : Prop := forall n, v = Some n -> n <= max.

Record device_ok (d : gpu_device) : Prop := {
  ok_id : is_valid_utf8 (gpu_id d) = true;
  ok_names : good_name (name d) /\ good_name (driver d);
  ok_vendor : vendor d = vendor_of (vendor_id d) (driver d) /\ vendor_name d = vendor_to_string (vendor d);
  ok_numbers : bounded_by uint32_max (vendor_id d) /\ bounded_by uint32_max (device_id d) /\ bounded_by uint64_max (vram_bytes d)
}.

Lemma parse_name_good content v : parse_name content = Value v -> good_name v.
Proof.
  unfold parse_name. destruct content as [t|]; [|by intros [= <-]]. destruct (empty (trim_whitespace t)) eqn:E; [by intros [= <-]|].
  destruct (is_valid_utf8 (trim_whitespace t)) eqn:Hu; [|done]. cbn [negb]. intros [= <-] t' [= <-].
  split; [by apply empty_false|done].
Qed.

Section results.
Context {W : Type} `{Kernel W} `{GpuKernel W}.

Lemma yields_hex path file size : yields (W := W) (attribute path file size parse_hex) (bounded_by uint32_max).
Proof.
  apply yields_skip. intros [t|]; [|by intros w v w' [= <- <-]]. apply yields_pure. cbn. intros v.
  destruct (parse_hex t) as [n|] eqn:E; [|done]. intros [= <-] n' [= <-]. by apply gpu_parse_hex_spec in E as (_ & _ & ?).
Qed.

Lemma yields_name path : yields (W := W) (read_name path) good_name.
Proof.
  apply yields_skip. intros label. apply yields_pure_bind. intros [l|] Hl%parse_name_good; [by apply yields_ret|].
  apply yields_skip. intros node. apply yields_pure. intros v. apply parse_name_good.
Qed.

Lemma yields_gpu_driver path : yields (W := W) (read_driver_name path) good_name.
Proof.
  intros w v w'. unfold read_driver_name. destruct (readlink _ _ w) as [[errno|target] w1].
  - intros [= Hv _]. destruct (_ || _); [by injection Hv as <-|done].
  - intros [= Hv _]. revert Hv. destruct (1024 <=? _); [done|].
    destruct (empty (path_basename target)) eqn:E; [by intros [= <-]|].
    destruct (is_valid_utf8 (path_basename target)) eqn:Hu; cbn [negb]; [|done]. intros [= <-] t [= <-].
    split; [by apply empty_false|done].
Qed.

Lemma yields_vram path : yields (W := W) (read_vram_bytes path) (bounded_by uint64_max).
Proof.
  apply yields_skip. intros [t|e]; apply yields_pure; cbn; intros v; [|by destruct (_ && _); [|intros [= <-]]].
  unfold parse_decimal_u64. destruct (empty _); [done|]. destruct (out_of_range _); [done|]. destruct (negb _); [done|].
  cbn. intros [= <-] n [= <-]. by apply fc_value_bound.
Qed.

Lemma inspect_ok dev_id path : yields (W := W) (inspect_device dev_id path) (fun d => gpu_id d = dev_id /\ device_ok d).
Proof.
  unfold inspect_device. destruct (is_valid_utf8 dev_id) eqn:Hid; cbn [negb]; [|by apply yields_pure].
  eapply yields_bind; [apply yields_hex|]. intros vid Hvid. eapply yields_bind; [apply yields_hex|]. intros did Hdid.
  eapply yields_bind; [apply yields_gpu_driver|]. intros drv Hdrv. apply yields_skip. intros primary.
  eapply yields_bind; [apply yields_vram|]. intros vram Hvram. eapply yields_bind; [apply yields_name|]. intros n Hn.
  apply yields_ret. split; [done|by split].
Qed.

Lemma sources_read (w : W) ss ds :
  Forall2 (read_from w) ss ds -> gpu_id <$> ds = fst <$> ss /\ Forall device_ok ds.
Proof.
  induction 1 as [|s d ss ds Hd _ [IHi IHo]]; [done|]. unfold read_from in Hd.
  destruct (inspect_device (fst s) (snd s) w) as [r w1] eqn:E. cbn in Hd. subst r. apply inspect_ok in E as [Hid Hok].
  rewrite !fmap_cons, IHi, Hid. split; [done|by constructor].
Qed.

(** C35: while the system does not change, the devices are the cards of the
    graphics class and the display controllers of the bus whose directory is
    not that of a card, each read from its own directory and none lost, in the
    order of their names and well formed. *)
Theorem gpu_devices_denote (w : W) (l : list gpu_device) :
  (forall path, snd (open_file path w) = w) -> (forall path, snd (list_directory path w) = w) ->
  (forall path, snd (realpath path w) = w) -> (forall path size, snd (readlink path size w) = w) ->
  fst (devices w) = Value l ->
  (exists ds, Forall2 (read_from w) (sources w) ds /\ l ≡ₚ ds) /\
  gpu_id <$> l ≡ₚ card_names w ++ controller_names w /\
  StronglySorted (not_after device_less) l /\ Forall device_ok l.
Proof.
  intros Ho Hl Hr Hk (ds & Hds & ->)%collect_value; try done.
  pose proof (std_sort_permutation device_less ds) as Hp. split; [by exists ds|].
  pose proof Hds as [Hids Hok]%sources_read. split; [|split].
  - rewrite (Permutation_map gpu_id Hp). change (map gpu_id ds) with (gpu_id <$> ds). rewrite Hids. unfold sources.
    by rewrite fmap_app, <- !list_fmap_compose; unfold compose; cbn [fst]; rewrite !list_fmap_id.
  - apply (std_sort_key_sorted _ (fun d => code <$> gpu_id d)). done.
  - by rewrite Hp.
Qed.
End results.

Definition gpu_kernel : Kernel unit := listing_kernel [
  ("/sys/devices/gpu0/vendor", "0x8086"); ("/sys/devices/gpu0/device", "0x9A49"); ("/sys/devices/gpu0/boot_vga", "1");
  ("/sys/bus/pci/devices/0000:00:02.0/class", "0x030000"); ("/sys/bus/pci/devices/0000:01:00.0/class", "0x030200");
  ("/sys/bus/pci/devices/0000:02:00.0/class", "0x020000"); ("/sys/bus/pci/devices/0000:01:00.0/vendor", "0x10de");
  ("/sys/bus/pci/devices/0000:01:00.0/label", "GPU 1")]%string [
  ("/sys/class/drm/", [".."; "card0"; "card0-DP-1"; "renderD128"]);
  ("/sys/bus/pci/devices/", ["."; "0000:00:02.0"; "0000:01:00.0"; "0000:02:00.0"])]%string.

Definition gpu_calls : GpuKernel unit := {|
  realpath path w :=
    (if bool_decide (path = lit "/sys/class/drm/card0/device") || bool_decide (path = lit "/sys/bus/pci/devices/0000:00:02.0")
     then inr (lit "/sys/devices/gpu0") else inl ENOENT, w);
  readlink path size w := (if bool_decide (path = lit "/sys/devices/gpu0/driver") then inr (lit "../../drivers/i915") else inl ENOENT, w)
|}.

Definition sample_gpus : list gpu_device := [
  Gpu_device (lit "0000:01:00.0") (Some (lit "GPU 1")) vendor_nvidia (lit "NVIDIA") (Some 0x10de) None None None None;
  Gpu_device (lit "card0") None vendor_intel (lit "Intel") (Some 0x8086) (Some 0x9A49) (Some (lit "i915")) None (Some true)].

Lemma gpu_devices_denote_witness :
  (exists ds, Forall2 (@read_from unit gpu_kernel gpu_calls tt) (@sources unit gpu_kernel gpu_calls tt) ds /\ sample_gpus ≡ₚ ds) /\
  gpu_id <$> sample_gpus ≡ₚ @card_names unit gpu_kernel tt ++ @controller_names unit gpu_kernel gpu_calls tt /\
  StronglySorted (not_after device_less) sample_gpus /\ Forall device_ok sample_gpus.
Proof.
  refine (@gpu_devices_denote unit gpu_kernel gpu_calls tt sample_gpus _ _ _ _ _); [done..|].
  vm_compute. reflexivity.
Defined.
