(* ===== verification/Locale.v ===== *)
(** * Locale and time zone

    The boundary checks of [include/syscape/detail/locale/common.hpp], the
    backend [include/syscape/detail/locale/posix.hpp] with the preferences of
    [include/syscape/detail/locale/preferences_linux.hpp], and the public
    queries of [include/syscape/locale.hpp].  The calls of the C library are
    the class [LocaleKernel]. *)
From S2P Require Import Prelude Result CppText Utf8 System.

(** ** common.hpp *)

Definition validate_utf8_label (value : result text) : result text :=
  v ← value;
  if empty v then fail errc_malformed_data
  else if negb (is_valid_utf8 v) then fail errc_invalid_encoding
  else Value v.

Definition seconds_per_day : Z := 24 * 60 * 60.

Definition validate_utc_offset_seconds (value : result Z) : result Z :=
  v ← value;
  if (v <=? - seconds_per_day) || (seconds_per_day <=? v) then fail errc_malformed_data else Value v.

Fixpoint check_languages (entries : list text) : result unit :=
  match entries with
  | [] => Value tt
  | entry :: entries =>
      if empty entry then fail errc_malformed_data
      else if negb (is_valid_utf8 entry) then fail errc_invalid_encoding
      else check_languages entries
  end.

Definition validate_language_list (value : result (list text)) : result (list text) :=
  v ← value;
  match v with
  | [] => fail errc_malformed_data
  | _ => _ ← check_languages v; Value v
  end.

(** ** posix.hpp *)

Definition digit (v : text) (index : nat) : Z :=
  match v !! index with
  | Some c => if (48 <=? code c) && (code c <=? 57) then code c - 48 else -1
  | None => -1
  end.

Definition parse_gmt_offset_text (v : text) : result Z :=
  if negb (length v =? 5)%nat && negb (length v =? 7)%nat then fail errc_malformed_data
  else
    let front c := match v with d :: _ => is_char d c | [] => false end in
    let negative := front "-"%char in
    if negb negative && negb (front "+"%char) then fail errc_malformed_data
    else
      let hours := digit v 1 * 10 + digit v 2 in
      let minutes := digit v 3 * 10 + digit v 4 in
      let extended := (length v =? 7)%nat in
      let seconds := if extended then digit v 5 * 10 + digit v 6 else 0 in
      if (digit v 1 <? 0) || (digit v 2 <? 0) || (digit v 3 <? 0) || (digit v 4 <? 0) ||
         (extended && ((digit v 5 <? 0) || (digit v 6 <? 0))) ||
         (23 <? hours) || (59 <? minutes) || (59 <? seconds)
      then fail errc_malformed_data
      else
        let magnitude := hours * 3600 + minutes * 60 + seconds in
        Value (if negative then - magnitude else magnitude).

(** What opening a zone file gives: whether [fstat] says it is a regular file,
    or its [errno], and what successive [read] calls deliver. *)
Record zone_file := Zone_file {
  regular : Z + bool;
  reads : list read_event
}.

(** [setlocale(LC_ALL, nullptr)] and [nl_langinfo(CODESET)]; [time], none on
    failure; [localtime_r], its [errno] or the text [strftime] makes of the
    time with ["%z"], empty when it declines; [getenv]; [getcwd] on a buffer of
    a size, its [errno] or the path; [readlink] on a buffer of a size: the
    [errno] values of the calls before the one whose outcome follows; [open] of
    a zone file. *)
Class LocaleKernel (W : Type) := {
  setlocale : W -> option text * W;
  nl_langinfo : W -> option text * W;
  time_now : W -> option Z * W;
  render_offset : Z -> W -> (Z + text) * W;
  getenv : text -> W -> option text * W;
  getcwd : Z -> W -> (Z + text) * W;
  readlink : text -> Z -> W -> (list Z * (Z + text)) * W;
  open_zone : text -> W -> (Z + zone_file) * W
}.

(** ** preferences_linux.hpp *)

Definition default_zoneinfo_root : text := lit "/usr/share/zoneinfo".

Definition localtime_link : text := lit "/etc/localtime".

(** One part of a path: [.] and the empty part change nothing, [..] takes back
    the last component. *)
Definition append_part (part : text) (components : list text) : list text :=
  if negb (empty part) && negb (same part (lit ".")) then
    if same part (lit "..") then removelast components else components ++ [part]
  else components.

Fixpoint append_loop (fuel : nat) (value : text) (begin : nat) (components : list text) : list text :=
  match fuel with
  | O => components
  | S fuel =>
      match find "/" value begin with
      | None => append_part (substr_from begin value) components
      | Some stop => append_loop fuel value (S stop) (append_part (substr begin (stop - begin) value) components)
      end
  end.

Definition append_components (value : text) (components : list text) : list text :=
  append_loop (S (length value)) value 0 components.

Definition is_absolute (path : text) : bool := match path with c :: _ => is_char c "/" | [] => false end.

(** A path made of components. *)
Definition path_text (components : list text) : text :=
  match components with [] => lit "/" | _ => concat (cons "/"%char <$> components) end.

Definition normalize_absolute_path (path base : text) : text :=
  let components := if negb (is_absolute path) then append_components base [] else [] in
  path_text (append_components path components).

Definition starts_below (root normalized : text) : bool :=
  starts_with root normalized && (length root + 1 <? length normalized)%nat &&
  match normalized !! length root with Some c => is_char c "/" | None => false end.

(** The part of [zone_identifier_from_target] after the root is known. *)
Definition identifier_below (normalized normalized_root : text) : result text :=
  if same normalized_root (lit "/") then
    if same normalized (lit "/") then fail errc_not_found else Value (substr_from 1 normalized)
  else if negb (starts_below normalized_root normalized) then fail errc_not_found
  else Value (substr_from (length normalized_root + 1) normalized).

(** The calls of [readlink] with one buffer: interrupted ones are repeated. *)
Fixpoint repeat_interrupted (failures : list Z) (last : Z + text) : Z + text :=
  match failures with
  | [] => last
  | errno :: failures => if errno =? EINTR then repeat_interrupted failures last else inl errno
  end.

(** The four bytes at the start of a zone file. *)
Fixpoint magic_loop (events : list read_event) (magic : text) : result text :=
  if (length magic <? 4)%nat then
    match events with
    | [] | Read_bytes [] :: _ => fail errc_malformed_data
    | Read_bytes chunk :: events => magic_loop events (magic ++ chunk)
    | Read_error errno :: events => if negb (errno =? EINTR) then fail_native errno else magic_loop events magic
    end
  else Value magic.

Definition check_zone_file (file : zone_file) : result unit :=
  match regular file with
  | inl errno => fail_native errno
  | inr false => fail errc_malformed_data
  | inr true =>
      magic ← magic_loop (reads file) [];
      if negb (same (take 4 magic) (lit "TZif")) then fail errc_malformed_data else Value tt
  end.

Section locale.
Context {W : Type} `{LocaleKernel W}.

Definition current_locale : query W text := fun w =>
  let (name, w) := setlocale w in (match name with Some v => Value v | None => fail errc_malformed_data end, w).

Definition text_encoding : query W text := fun w =>
  let (name, w) := nl_langinfo w in (match name with Some v => Value v | None => Value [] end, w).

Definition utc_offset_seconds : query W Z := fun w =>
  match time_now w with
  | (None, w) => (fail_native EOVERFLOW, w)
  | (Some now, w) =>
      match render_offset now w with
      | (inl errno, w) => (fail_native errno, w)
      | (inr [], w) => (fail errc_not_found, w)
      | (inr formatted, w) => (parse_gmt_offset_text formatted, w)
      end
  end.

Definition preferred_languages : query W (list text) := pure (fail errc_not_supported).

Definition country_region_code : query W text := pure (fail errc_not_supported).

(** The sizes are 256, 512, ... 8192. *)
Fixpoint cwd_loop (attempts : nat) (size : Z) : query W text := fun w =>
  match attempts with
  | O => (fail errc_value_too_large, w)
  | S attempts =>
      match getcwd size w with
      | (inr path, w) => (Value path, w)
      | (inl errno, w) =>
          if negb (errno =? ERANGE) then (fail_native errno, w)
          else if 8192 <=? size then (fail errc_value_too_large, w)
          else cwd_loop attempts (size * 2) w
      end
  end.

Definition current_working_directory : query W text := cwd_loop 6 256.

Definition absolute_zoneinfo_root (zoneinfo_root : text) : query W text :=
  if empty zoneinfo_root then pure (fail errc_not_found)
  else if is_absolute zoneinfo_root then mret (normalize_absolute_path zoneinfo_root (lit "/"))
  else
    working_directory ← current_working_directory;
    mret (normalize_absolute_path zoneinfo_root working_directory).

Definition zone_identifier_from_target (target zoneinfo_root target_base : text) : query W text :=
  normalized_root ← absolute_zoneinfo_root zoneinfo_root;
  pure (identifier_below (normalize_absolute_path target target_base) normalized_root).

(** The sizes are 256, 512, ... 8192. *)
Fixpoint link_loop (attempts : nat) (path : text) (size : Z) : query W text := fun w =>
  match attempts with
  | O => (fail errc_value_too_large, w)
  | S attempts =>
      let (calls, w) := readlink path size w in
      match repeat_interrupted (fst calls) (snd calls) with
      | inl errno => (fail_native errno, w)
      | inr target =>
          if Z.of_nat (length target) <? size then (Value target, w)
          else if 8192 <=? size then (fail errc_value_too_large, w)
          else link_loop attempts path (size * 2) w
      end
  end.

Definition read_link_target (path : text) : query W text := link_loop 6 path 256.

(** The identifier, when the file it names is a zone file. *)
Definition open_identified (target identifier : text) : query W text := fun w =>
  match open_zone target w with
  | (inl errno, w) =>
      (if (errno =? ENOENT) || (errno =? ENOTDIR) then fail errc_not_found else fail_native errno, w)
  | (inr file, w) => (_ ← check_zone_file file; Value identifier, w)
  end.

Definition identifier_for_zone_file (filespec zoneinfo_root : text) : query W text :=
  normalized_root ← absolute_zoneinfo_root zoneinfo_root;
  let target := if is_absolute filespec then normalize_absolute_path filespec (lit "/")
                else normalize_absolute_path filespec normalized_root in
  identifier ← zone_identifier_from_target target normalized_root (lit "/");
  open_identified target identifier.

Definition configured_localtime_identifier : query W text :=
  target ← attempt (read_link_target localtime_link);
  match target with
  | Failure e =>
      if bool_decide (e = native_error ENOENT) then mret (lit "UTC")
      else if bool_decide (e = native_error EINVAL) then pure (fail errc_not_found)
      else pure (Failure e)
  | Value target =>
      identifier_for_zone_file (normalize_absolute_path target (lit "/etc")) default_zoneinfo_root
  end.

Definition time_zone_identifier : query W text := fun w =>
  match getenv (lit "TZ") w with
  | (None, w) => configured_localtime_identifier w
  | (Some spec, w) =>
      if empty spec || same spec (lit ":") then (Value (lit "UTC"), w)
      else
        let filespec := match spec with c :: rest => if is_char c ":" then rest else spec | [] => spec end in
        let (configured_root, w) := getenv (lit "TZDIR") w in
        let root := match configured_root with Some (c :: r) => c :: r | _ => default_zoneinfo_root end in
        identifier_for_zone_file filespec root w
  end.

(** ** locale.hpp *)

(** The boundary check on the result of a backend. *)
Definition checked {A} (check : result A -> result A) (backend : query W A) : query W A :=
  v ← attempt backend; pure (check v).

Definition checked_current_locale : query W text := checked validate_utf8_label current_locale.

Definition checked_text_encoding : query W text := checked validate_utf8_label text_encoding.

Definition checked_utc_offset_seconds : query W Z := checked validate_utc_offset_seconds utc_offset_seconds.

Definition checked_preferred_languages : query W (list text) := checked validate_language_list preferred_languages.

Definition checked_country_region_code : query W text := checked validate_utf8_label country_region_code.

Definition checked_time_zone_identifier : query W text := checked validate_utf8_label time_zone_identifier.
End locale.

(** ** Offsets *)

(** A number below one hundred in two digits. *)
Definition two_digits (n : Z) : text := [digit_char (n / 10); digit_char (n mod 10)].

Definition offset_text (negative : bool) (hours minutes : Z) (seconds : option Z) : text :=
  (if negative then "-"%char else "+"%char) :: two_digits hours ++ two_digits minutes ++
  match seconds with Some s => two_digits s | None => [] end.

Lemma digit_cases v i : digit v i < 0 \/ exists c, v !! i = Some c /\ 0 <= digit v i <= 9 /\ c = digit_char (digit v i).
Proof.
  unfold digit. destruct (v !! i) as [c|]; [|by left]. destruct (_ && _) eqn:E; [|by left].
  right. exists c. rewrite andb_true_iff, !Z.leb_le in E. split; [done|]. split; [lia|]. unfold digit_char.
  replace (48 + (code c - 48)) with (code c) by lia. by rewrite char_of_code.
Qed.

Lemma digit_here v i d : v !! i = Some (digit_char d) -> 0 <= d < 10 -> digit v i = d.
Proof.
  intros Hv Hd. unfold digit. rewrite Hv. pose proof (digit_char_range d Hd) as Hr.
  rewrite (proj2 (Z.leb_le _ _)), (proj2 (Z.leb_le _ _)) by lia. cbn [andb]. unfold digit_char. rewrite code_char_of by lia. lia.
Qed.

Lemma two_digits_parts n : 0 <= n < 100 -> 0 <= n / 10 < 10 /\ 0 <= n mod 10 < 10 /\ n / 10 * 10 + n mod 10 = n.
Proof.
  intros Hn. pose proof (Z.div_mod n 10 ltac:(lia)). pose proof (Z.mod_pos_bound n 10 ltac:(lia)).
  split; [split; [apply Z.div_pos; lia|apply Z.div_lt_upper_bound; lia]|]. lia.
Qed.

Lemma parse_offset_text negative h m s :
  0 <= h <= 23 -> 0 <= m <= 59 -> (forall x, s = Some x -> 0 <= x <= 59) ->
  parse_gmt_offset_text (offset_text negative h m s) =
    Value (if negative then - (h * 3600 + m * 60 + default 0 s) else h * 3600 + m * 60 + default 0 s).
Proof.
  intros Hh Hm Hs. destruct (two_digits_parts h ltac:(lia)) as (Hh1 & Hh2 & Hh3).
  destruct (two_digits_parts m ltac:(lia)) as (Hm1 & Hm2 & Hm3).
  set (v := offset_text negative h m s).
  assert (digit v 1 = h / 10 /\ digit v 2 = h mod 10 /\ digit v 3 = m / 10 /\ digit v 4 = m mod 10) as (H1 & H2 & H3 & H4).
  { split_and!; apply digit_here; first [done|lia]. }
  unfold parse_gmt_offset_text. rewrite H1, H2, H3, H4, Hh3, Hm3.
  rewrite !(proj2 (Z.ltb_ge _ _)) by lia.
  destruct s as [x|].
  - specialize (Hs x eq_refl). destruct (two_digits_parts x ltac:(lia)) as (Hx1 & Hx2 & Hx3).
    assert (digit v 5 = x / 10 /\ digit v 6 = x mod 10) as (H5 & H6) by (split; apply digit_here; first [done|lia]).
    rewrite H5, H6, Hx3. change (length v) with 7%nat. cbn [Nat.eqb negb andb orb]. rewrite !(proj2 (Z.ltb_ge _ _)) by lia.
    by destruct negative.
  - change (length v) with 5%nat. cbn [Nat.eqb negb andb orb]. rewrite !(proj2 (Z.ltb_ge _ _)) by lia.
    by destruct negative.
Qed.

(** An offset text parses exactly when it is a sign, hours, minutes and
    possibly seconds of two digits each in range, and then to the seconds they
    make. *)
Theorem parse_gmt_offset_spec v n :
  parse_gmt_offset_text v = Value n <->
  exists negative h m s, 0 <= h <= 23 /\ 0 <= m <= 59 /\ (forall x, s = Some x -> 0 <= x <= 59) /\
    v = offset_text negative h m s /\
    n = (if negative then - (h * 3600 + m * 60 + default 0 s) else h * 3600 + m * 60 + default 0 s).
Proof.
  split; [|intros (? & h & m & s & ? & ? & ? & -> & ->); by apply parse_offset_text].
  unfold parse_gmt_offset_text. cbv zeta. pose (front := fun c => match v with d :: _ => is_char d c | [] => false end).
  change (match v with d :: _ => is_char d "-" | [] => false end) with (front "-"%char).
  change (match v with d :: _ => is_char d "+" | [] => false end) with (front "+"%char).
  destruct (negb _ && negb (length v =? 7)%nat) eqn:El; [done|]. destruct (negb _ && negb (front "+"%char)) eqn:Ef; [done|].
  match goal with |- (if ?b then _ else _) = _ -> _ => destruct b eqn:Ed; [done|] end. intros [= <-].
  rewrite !orb_false_iff, !Z.ltb_ge in Ed. destruct Ed as [[[[[[[D1 D2] D3] D4] Ds] Hh] Hm] Hs].
  assert (forall i, 0 <= digit v i -> exists c, v !! i = Some c /\ 0 <= digit v i <= 9 /\ c = digit_char (digit v i)) as Hd.
  { intros i Hi. destruct (digit_cases v i) as [?|?]; [lia|done]. }
  destruct (Hd _ D1) as (c1 & L1 & R1 & E1), (Hd _ D2) as (c2 & L2 & R2 & E2).
  destruct (Hd _ D3) as (c3 & L3 & R3 & E3), (Hd _ D4) as (c4 & L4 & R4 & E4).
  assert (forall a b, 0 <= a <= 9 -> 0 <= b <= 9 -> two_digits (a * 10 + b) = [digit_char a; digit_char b]) as Htwo.
  { intros a b Ha Hb. unfold two_digits. rewrite Z.div_add_l, Z.div_small, Z.add_0_r by lia.
    by rewrite Z.add_comm, Z.mod_add, Z.mod_small by lia. }
  exists (front "-"%char), (digit v 1 * 10 + digit v 2), (digit v 3 * 10 + digit v 4),
    (if (length v =? 7)%nat then Some (digit v 5 * 10 + digit v 6) else None).
  split; [lia|]. split; [lia|]. unfold offset_text. rewrite !Htwo by done. rewrite <- E1, <- E2, <- E3, <- E4.
  assert (exists r, v = (if front "-"%char then "-"%char else "+"%char) :: c1 :: c2 :: c3 :: c4 :: r) as [r Hr].
  { unfold front in Ef |- *. destruct v as [|c v]; [done|]. exists (drop 4 v).
    destruct v as [|? [|? [|? [|? v]]]]; try done. injection L1 as ->. injection L2 as ->. injection L3 as ->. injection L4 as ->.
    cbn [drop]. f_equal. destruct (is_char c "-") eqn:Em; [by apply is_char_true in Em as ->|].
    cbn [negb andb] in Ef. apply negb_false_iff in Ef. by apply is_char_true in Ef as ->. }
  destruct (Nat.eqb_spec (length v) 7) as [E7|E7].
  - apply orb_false_iff in Ds as [D5%Z.ltb_ge D6%Z.ltb_ge]. destruct (Hd _ D5) as (c5 & L5 & R5 & E5), (Hd _ D6) as (c6 & L6 & R6 & E6).
    split; [intros x [= <-]; lia|]. split; [|done]. rewrite Htwo, <- E5, <- E6 by done.
    rewrite Hr in E7, L5, L6 |- *. destruct r as [|? [|? [|]]]; try done. by injection L5 as ->; injection L6 as ->.
  - split; [done|]. split; [|done]. rewrite andb_false_iff, !negb_false_iff, !Nat.eqb_eq in El.
    destruct El as [El|El]; [|done]. rewrite Hr in El |- *. by destruct r.
Qed.

(** ** Paths *)

(** A component that names something: no separator, not empty, [.] or [..]. *)
Definition segment (s : text) : Prop := ("/"%char ∉ s) /\ s ∉ [[]; lit "."; lit ".."].

Definition resolve (parts components : list text) : list text := foldl (fun cs part => append_part part cs) components parts.

(** The components a path denotes, from a base directory if it is relative. *)
Definition segments_of (path base : text) : list text :=
  resolve (split_at "/" path) (if is_absolute path then [] else resolve (split_at "/" base) []).

Lemma append_loop_split fuel value begin components :
  (length value - begin < fuel)%nat ->
  append_loop fuel value begin components = resolve (split_at "/" (drop begin value)) components.
Proof.
  revert begin components. induction fuel as [|fuel IH]; intros begin components Hf; [lia|]. cbn [append_loop].
  rewrite split_at_from. destruct (find "/" value begin) as [stop|] eqn:E; [|done].
  unfold find in E. destruct (find_first _ _) as [i|] eqn:Ei; [|done]. injection E as <-.
  apply find_first_lt in Ei. rewrite length_drop in Ei. rewrite IH by lia. done.
Qed.

Lemma normalize_segments path base : normalize_absolute_path path base = path_text (segments_of path base).
Proof.
  unfold normalize_absolute_path, segments_of, append_components. rewrite !append_loop_split by lia. rewrite !drop_0.
  by destruct (is_absolute path).
Qed.

Lemma append_part_segment part cs : ("/"%char ∉ part) -> Forall segment cs -> Forall segment (append_part part cs).
Proof.
  intros Hp Hcs. unfold append_part. destruct (empty part) eqn:E; [done|]. apply empty_false in E.
  destruct (same part (lit ".")) eqn:Ed; [done|]. apply same_false in Ed. cbn [negb andb].
  destruct (same part (lit "..")) eqn:Edd.
  - induction Hcs as [|c cs Hc Hcs IH]; [done|]. cbn [removelast]. destruct cs; [done|]. by constructor.
  - apply same_false in Edd. apply Forall_app. split; [done|]. apply Forall_singleton. split; [done|].
    rewrite !not_elem_of_cons. by split_and!; [| | |apply not_elem_of_nil].
Qed.

Lemma resolve_segments parts cs :
  Forall (fun part => "/"%char ∉ part) parts -> Forall segment cs -> Forall segment (resolve parts cs).
Proof.
  intros Hp. revert cs. induction Hp as [|part parts Hpart _ IH]; intros cs Hcs; [done|].
  by apply IH, append_part_segment.
Qed.

Lemma segments_of_ok path base : Forall segment (segments_of path base).
Proof.
  apply resolve_segments; [apply split_at_clean|]. destruct (is_absolute path); [constructor|].
  apply resolve_segments; [apply split_at_clean|constructor].
Qed.

Lemma resolve_own ss cs : Forall segment ss -> resolve ss cs = cs ++ ss.
Proof.
  intros Hs. revert cs. induction Hs as [|s ss [_ Hs] _ IH]; intros cs; [by rewrite app_nil_r|].
  unfold resolve in *. cbn [foldl]. rewrite IH. rewrite !not_elem_of_cons in Hs. destruct Hs as (Hne & Hd & Hdd & _).
  unfold append_part. rewrite (proj2 (empty_false s) Hne), (proj2 (same_false _ _) Hd), (proj2 (same_false _ _) Hdd).
  cbn [negb andb]. by rewrite <- app_assoc.
Qed.

Lemma path_text_join ss : ss <> [] -> path_text ss = "/"%char :: join "/" ss.
Proof. intros Hne. rewrite <- concat_join by done. by destruct ss. Qed.

Lemma split_path_text ss : Forall segment ss -> ss <> [] -> split_at "/" (path_text ss) = [] :: ss.
Proof.
  intros Hs Hne. rewrite path_text_join by done. cbn [split_at]. change (is_char "/" "/"%char) with true. cbv iota.
  f_equal. apply split_at_join; [done|]. eapply Forall_impl; [exact Hs|]. by intros s [? _].
Qed.

(** A path made of components denotes them. *)
Lemma segments_of_path_text ss base : Forall segment ss -> segments_of (path_text ss) base = ss.
Proof.
  intros Hs. unfold segments_of. destruct ss as [|s ss]; [done|].
  assert (is_absolute (path_text (s :: ss)) = true) as -> by by rewrite path_text_join.
  rewrite split_path_text by done. change (resolve ([] :: ?l) []) with (resolve l []). by rewrite resolve_own.
Qed.

Lemma split_at_middle separator a b : split_at separator (a ++ separator :: b) = split_at separator a ++ split_at separator b.
Proof.
  induction a as [|c a IH]; cbn [split_at app].
  - by rewrite (proj2 (is_char_true separator separator) eq_refl).
  - rewrite IH. destruct (is_char separator c); [done|]. destruct (split_at_cons separator a) as (f & fs & ->). done.
Qed.

(** Below a directory in the sense of texts is below it in the sense of
    components. *)
Lemma identifier_below_spec ts rs id :
  Forall segment ts -> Forall segment rs ->
  identifier_below (path_text ts) (path_text rs) = Value id <->
  exists ss, ss <> [] /\ ts = rs ++ ss /\ id = join "/" ss.
Proof.
  intros Ht Hr. unfold identifier_below. destruct rs as [|r rs].
  - change (path_text []) with (lit "/"). change (same (lit "/") (lit "/")) with true. cbv iota.
    destruct ts as [|t ts].
    + split; [done|]. by intros (ss & Hne & E & _).
    + rewrite path_text_join by done. assert (same ("/"%char :: join "/" (t :: ts)) (lit "/") = false) as ->.
      { apply same_false. apply Forall_cons in Ht as [[_ Hn] _]. rewrite not_elem_of_cons in Hn. destruct Hn as [Hn _].
        intros [= E]. destruct ts; cbn in E; [done|]. by apply app_eq_nil in E as [-> _]. }
      split; [intros [= <-]; by exists (t :: ts)|]. intros (ss & Hne & E & ->). cbn [app] in E. by subst ss.
  - set (root := r :: rs) in *. assert (root <> []) as Hroot by done.
    assert (same (path_text root) (lit "/") = false) as ->.
    { apply same_false. rewrite path_text_join by done. apply Forall_cons in Hr as [[_ Hn] _]. rewrite not_elem_of_cons in Hn.
      intros [= E]. destruct rs; cbn in E; [by destruct Hn|]. apply app_eq_nil in E as [-> _]. by destruct Hn. }
    unfold starts_below. split.
    + destruct (_ && _) eqn:E; cbn [negb]; [|done]. rewrite !andb_true_iff, Nat.ltb_lt in E. destruct E as [[Hp Hl] Hc].
      apply starts_with_true in Hp as [rest Hp]. rewrite Hp in Hc, Hl |- *. rewrite length_app in Hl.
      rewrite lookup_app_r, Nat.sub_diag in Hc by lia. destruct rest as [|c rest]; [done|]. apply is_char_true in Hc as ->.
      intros [= <-]. exists (split_at "/" rest). unfold substr_from. rewrite <- drop_drop, drop_app_length. cbn [drop].
      destruct (split_at_cons "/" rest) as (f & fs & Ef). split; [by rewrite Ef|]. split; [|by rewrite join_split_at].
      assert (ts <> []) as Hts.
      { intros ->. rewrite (path_text_join root) in Hp by done. apply (f_equal length) in Hp. rewrite length_app in Hp. cbn in Hp. lia. }
      apply (f_equal (split_at "/")) in Hp. rewrite split_at_middle, !split_path_text in Hp by done. by injection Hp.
    + intros (ss & Hne & -> & ->). apply Forall_app in Ht as [_ Hs].
      assert (path_text (root ++ ss) = path_text root ++ "/"%char :: join "/" ss) as Hp.
      { rewrite <- path_text_join by done. unfold path_text. destruct (root ++ ss) eqn:E; [done|]. rewrite <- E.
        destruct ss; [done|]. unfold root. by rewrite fmap_app, concat_app. }
      rewrite Hp, starts_with_app, length_app, lookup_app_r, Nat.sub_diag by lia. cbn [lookup length].
      assert (length (join "/" ss) <> 0%nat) as Hlen.
      { destruct ss as [|s ss]; [done|]. apply Forall_cons in Hs as [[_ Hn] _]. rewrite not_elem_of_cons in Hn.
        destruct Hn as [Hn _]. destruct ss; cbn; [by destruct s|]. rewrite length_app. by destruct s. }
      rewrite (proj2 (Nat.ltb_lt _ _)) by lia. change (is_char "/" "/"%char) with true. cbn [andb negb].
      unfold substr_from. by rewrite <- drop_drop, drop_app_length.
Qed.

(** ** Identifiers *)

Lemma magic_loop_delivered events magic m :
  magic_loop events magic = Value m ->
  (4 <= length m)%nat /\ take 4 m = take 4 (magic ++ fst (delivered events)).
Proof.
  revert magic. induction events as [|[chunk|errno] events IH]; intros magic; cbn [magic_loop delivered];
    destruct (Nat.ltb_spec (length magic) 4) as [Hlt|Hge]; try done.
  1, 3, 5: intros [= <-]; split; [done|]; by rewrite take_app_le.
  - destruct chunk as [|c chunk]; [done|]. intros [Hl Ht]%IH. split; [done|]. rewrite Ht.
    destruct (delivered events) as [content e]. by rewrite <- app_assoc.
  - destruct (errno =? EINTR); [|done]. apply IH.
Qed.

(** The directory the components of a path lead to from the directory [here]:
    the empty component and [.] stay in it, [..] leaves it for its parent, and
    any other component enters the directory of that name. *)
Fixpoint walk (here parts : list text) : list text :=
  match parts with
  | [] => here
  | part :: parts =>
      if bool_decide (part = [] \/ part = lit ".") then walk here parts
      else if bool_decide (part = lit "..") then walk (take (length here - 1) here) parts
      else walk (here ++ [part]) parts
  end.

(** The place a path names: one that begins with a slash from the root. *)
Definition place (here : list text) (path : text) : list text :=
  walk (if bool_decide (head path = Some "/"%char) then [] else here) (split_at "/" path).

Lemma removelast_take {A} (l : list A) : removelast l = take (length l - 1) l.
Proof.
  induction l as [|x [|y l] IH]; [done|done|]. change (removelast (x :: y :: l)) with (x :: removelast (y :: l)).
  rewrite IH. cbn [length]. by rewrite !Nat.sub_succ, !Nat.sub_0_r.
Qed.

Lemma resolve_walk parts here : resolve parts here = walk here parts.
Proof.
  revert here. induction parts as [|part parts IH]; intros here; [done|]. unfold resolve in *. cbn [foldl walk]. rewrite IH.
  unfold append_part. destruct (empty part) eqn:Ee.
  { apply empty_true in Ee as ->. by rewrite bool_decide_eq_true_2 by auto. }
  apply empty_false in Ee. destruct (same part (lit ".")) eqn:Ed.
  { apply same_true in Ed as ->. by rewrite bool_decide_eq_true_2 by auto. }
  apply same_false in Ed. rewrite bool_decide_eq_false_2 by tauto. cbn [negb andb]. destruct (same part (lit "..")) eqn:Edd.
  - apply same_true in Edd as ->. by rewrite bool_decide_eq_true_2, removelast_take by done.
  - apply same_false in Edd. by rewrite bool_decide_eq_false_2 by done.
Qed.

Lemma is_absolute_head path : is_absolute path = bool_decide (head path = Some "/"%char).
Proof.
  destruct path as [|c path]; [done|]. cbn. destruct (is_char c "/") eqn:E.
  - apply is_char_true in E as ->. by rewrite bool_decide_eq_true_2.
  - rewrite bool_decide_eq_false_2; [done|]. intros [= ->]. by rewrite (proj2 (is_char_true "/"%char "/"%char) eq_refl) in E.
Qed.

Lemma walk_root path : walk [] (split_at "/" path) = place [] path.
Proof. unfold place. by destruct (bool_decide _). Qed.

Lemma segments_of_place path base : segments_of path base = place (place [] base) path.
Proof.
  unfold segments_of. rewrite !resolve_walk, is_absolute_head, walk_root. unfold place at 2. by destruct (bool_decide _).
Qed.

Section results.
Context {W : Type} `{LocaleKernel W}.

(** A zone file: it can be opened, is regular, and the bytes it delivers start
    with the mark of the format. *)
Definition zone_here (path : text) : Prop := exists w1 file w2,
  open_zone path w1 = (inr file, w2) /\ regular file = inr true /\ starts_with (lit "TZif") (fst (delivered (reads file))) = true.

(** The path [filespec], seen from the directory [here], names a zone file
    below the directory [root], and the identifier is the way down to it. *)
Definition zone_named (root here : list text) (filespec id : text) : Prop := exists ss,
  Forall segment ss /\ ss <> [] /\ id = join "/" ss /\ place here filespec = root ++ ss /\
  zone_here ("/"%char :: join "/" (root ++ ss)).

(** The directory of the zones under a value of [TZDIR]: the system's when it
    is not set or empty, and one relative to the working directory when it does
    not begin with a slash. *)
Inductive zone_directory : option text -> list text -> Prop :=
| System_directory configured :
    default [] configured = [] -> zone_directory configured [lit "usr"; lit "share"; lit "zoneinfo"]
| Absolute_directory name :
    head name = Some "/"%char -> zone_directory (Some name) (place [] name)
| Relative_directory name size w1 working w2 :
    name <> [] -> head name <> Some "/"%char -> getcwd size w1 = (inr working, w2) ->
    zone_directory (Some name) (place (place [] working) name).

(** What a call of [readlink] says of [/etc/localtime]: its target, complete
    because it does not fill the buffer, after calls that were interrupted; or
    that there is no such file. *)
Definition localtime_names (target : text) : Prop := exists size w1 interrupted w2,
  readlink (lit "/etc/localtime") size w1 = ((interrupted, inr target), w2) /\
  Forall (fun errno => errno = EINTR) interrupted /\ Z.of_nat (length target) < size.

Definition localtime_missing : Prop := exists size w1 failures last w2,
  readlink (lit "/etc/localtime") size w1 = ((failures, last), w2) /\ (ENOENT ∈ failures \/ last = inl ENOENT).

Lemma check_zone_file_mark file :
  check_zone_file file = Value tt -> regular file = inr true /\ starts_with (lit "TZif") (fst (delivered (reads file))) = true.
Proof.
  unfold check_zone_file. destruct (regular file) as [|[|]]; try done. destruct (magic_loop _ _) as [m|] eqn:Em; [|done]. cbn [mbind result_bind].
  destruct (same _ _) eqn:E; [|done]. intros _. split; [done|]. apply same_true in E.
  apply magic_loop_delivered in Em as [_ Ht]. cbn [app] in Ht. unfold starts_with. change (length (lit "TZif")) with 4%nat. rewrite <- Ht, E. done.
Qed.

Lemma cwd_loop_asks attempts size w r w' :
  cwd_loop attempts size w = (Value r, w') -> exists size w1 w2, getcwd size w1 = (inr r, w2).
Proof.
  revert size w. induction attempts as [|attempts IH]; intros size w; [done|]. cbn [cwd_loop].
  destruct (getcwd size w) as [[errno|path] w1] eqn:E.
  - destruct (negb _); [done|]. destruct (8192 <=? size); [done|apply IH].
  - intros [= <- _]. eauto.
Qed.

Lemma repeat_interrupted_outcome failures last :
  match repeat_interrupted failures last with
  | inr target => last = inr target /\ Forall (fun errno => errno = EINTR) failures
  | inl errno => errno ∈ failures \/ last = inl errno
  end.
Proof.
  induction failures as [|errno failures IH]; cbn [repeat_interrupted].
  - destruct last; auto.
  - destruct (Z.eqb_spec errno EINTR) as [->|_]; [|by left; left].
    destruct (repeat_interrupted failures last); [destruct IH; [left; by right|by right]|].
    destruct IH. split; [done|by constructor].
Qed.

Lemma link_loop_says attempts size w r w' :
  link_loop attempts localtime_link size w = (r, w') ->
  match r with Value target => localtime_names target | Failure e => e = native_error ENOENT -> localtime_missing end.
Proof.
  revert size w. induction attempts as [|attempts IH]; intros size w; [by intros [= <- _]|]. cbn [link_loop].
  destruct (readlink localtime_link size w) as [[failures last] w1] eqn:E. cbn [fst snd].
  pose proof (repeat_interrupted_outcome failures last) as Ho. destruct (repeat_interrupted failures last) as [errno|target].
  - intros [= <- _] [= ->]. exists size, w, failures, last, w1. done.
  - destruct Ho as [-> Hi]. destruct (Z.ltb_spec (Z.of_nat (length target)) size) as [Hlt|].
    + intros [= <- _]. exists size, w, failures, w1. done.
    + destruct (8192 <=? size); [by intros [= <- _]|apply IH].
Qed.

Lemma absolute_path_text rs : Forall segment rs -> head (path_text rs) = Some "/"%char.
Proof. intros _. destruct rs; [done|]. by rewrite path_text_join. Qed.

Lemma place_path_text here rs : Forall segment rs -> place here (path_text rs) = rs.
Proof.
  intros Hrs. transitivity (segments_of (path_text rs) (lit "/")); [|by apply segments_of_path_text].
  rewrite segments_of_place. unfold place. by rewrite absolute_path_text, bool_decide_eq_true_2.
Qed.

Lemma yields_root root configured :
  root = (match configured with Some (c :: r) => c :: r | _ => default_zoneinfo_root end) ->
  yields (W := W) (absolute_zoneinfo_root root) (fun v => exists rs, Forall segment rs /\ v = path_text rs /\
    zone_directory configured rs).
Proof.
  intros Hroot. assert (configured = Some root \/ default [] configured = [] /\ root = default_zoneinfo_root) as Hc
    by (destruct configured as [[|c r]|]; subst root; cbn; auto).
  clear Hroot. unfold absolute_zoneinfo_root. destruct (empty root) eqn:En; [by apply yields_pure|]. apply empty_false in En.
  destruct (is_absolute root) eqn:E.
  - apply yields_ret. exists (segments_of root (lit "/")). split; [apply segments_of_ok|]. split; [apply normalize_segments|].
    rewrite is_absolute_head, bool_decide_eq_true in E. destruct Hc as [-> | [Hd ->]]; [|by apply System_directory].
    rewrite segments_of_place. by apply Absolute_directory.
  - rewrite is_absolute_head, bool_decide_eq_false in E. destruct Hc as [Hc|[_ ->]]; [|by destruct E].
    eapply yields_bind with (Q := fun dir => exists size w1 w2, getcwd size w1 = (inr dir, w2)).
    { intros w v w'. apply cwd_loop_asks. }
    intros dir (size & w1 & w2 & Hdir). apply yields_ret. exists (segments_of root dir).
    split; [apply segments_of_ok|]. split; [apply normalize_segments|]. rewrite Hc, segments_of_place. by eapply Relative_directory.
Qed.

(** The root the backend has made absolute stays as it is. *)
Lemma yields_root_again rs :
  Forall segment rs -> yields (W := W) (absolute_zoneinfo_root (path_text rs)) (fun v => v = path_text rs).
Proof.
  intros Hrs. unfold absolute_zoneinfo_root. destruct (empty _); [by apply yields_pure|].
  rewrite is_absolute_head, absolute_path_text, bool_decide_eq_true_2 by done. apply yields_ret.
  by rewrite normalize_segments, segments_of_path_text.
Qed.

Lemma yields_opened target identifier :
  yields (W := W) (open_identified target identifier) (fun id => id = identifier /\ zone_here target).
Proof.
  intros w1 id w2. unfold open_identified. destruct (open_zone _ w1) as [[errno|file] w3] eqn:Eo.
  - by destruct (_ || _).
  - destruct (check_zone_file file) as [[]|] eqn:Ec; [|done]. intros [= <- <-]. split; [done|].
    apply check_zone_file_mark in Ec as [Hreg Hm]. exists w1, file, w3. done.
Qed.

Lemma yields_zone filespec root configured :
  root = (match configured with Some (c :: r) => c :: r | _ => default_zoneinfo_root end) ->
  yields (W := W) (identifier_for_zone_file filespec root) (fun id => exists rs,
    zone_directory configured rs /\ zone_named rs rs filespec id).
Proof.
  intros Hroot. unfold identifier_for_zone_file. eapply yields_bind; [by eapply yields_root|]. intros r (rs & Hrs & -> & Hdir). cbv zeta.
  set (target := if is_absolute filespec then _ else _). set (ts := place rs filespec).
  assert (Forall segment ts /\ target = path_text ts) as [Hts ->].
  { assert (ts = segments_of filespec (path_text rs)) as Hts by (by rewrite segments_of_place, place_path_text).
    split; [rewrite Hts; apply segments_of_ok|]. unfold target. rewrite !normalize_segments.
    destruct (is_absolute filespec) eqn:Ea; rewrite Hts; [|done]. unfold segments_of. by rewrite Ea. }
  eapply yields_bind with (Q := fun id => identifier_below (path_text ts) (path_text rs) = Value id).
  { unfold zone_identifier_from_target. eapply yields_bind; [by apply yields_root_again|]. intros r ->.
    rewrite normalize_segments, segments_of_path_text by done. by apply yields_pure. }
  intros id Hid. apply identifier_below_spec in Hid as (ss & Hne & Hss & ->); try done.
  eapply yields_weaken; [apply yields_opened|]. intros id [-> Hz]. exists rs. split; [done|]. exists ss.
  rewrite Hss in Hts, Hz. apply Forall_app in Hts as [_ Hs]. split_and!; try done.
  rewrite path_text_join in Hz; [done|]. by destruct rs.
Qed.

Lemma yields_localtime :
  yields (W := W) configured_localtime_identifier (fun id =>
    localtime_missing /\ id = lit "UTC" \/
    exists target, localtime_names target /\ zone_named [lit "usr"; lit "share"; lit "zoneinfo"] [lit "etc"] target id).
Proof.
  unfold configured_localtime_identifier.
  eapply yields_bind with (Q := fun r => match r with
    Value target => localtime_names target | Failure e => e = native_error ENOENT -> localtime_missing end).
  { intros w v w'. unfold attempt. destruct (read_link_target _ w) as [r w1] eqn:E. intros [= <- _]. by eapply link_loop_says. }
  intros [target|e] Ht.
  - eapply yields_weaken; [by eapply (yields_zone _ _ None)|]. intros id (rs & Hdir & ss & Hs & Hne & -> & Hp & Hz).
    inversion Hdir; subst. right. exists target. split; [done|]. exists ss. split_and!; try done.
    rewrite <- Hp. unfold place at 2. rewrite normalize_segments, absolute_path_text by apply segments_of_ok.
    rewrite bool_decide_eq_true_2, walk_root, place_path_text by first [done|apply segments_of_ok].
    by rewrite segments_of_place.
  - destruct (bool_decide_reflect (e = native_error ENOENT)) as [He|_]; [apply yields_ret; auto|].
    by destruct (bool_decide (e = native_error EINVAL)); apply yields_pure.
Qed.

(** C36: a time-zone identifier is a sequence of path components, none of them
    empty, [.] or [..], and names a regular file of the zone format below the
    directory of the zones.  With [TZ] set, less a colon it begins with, it
    names that file from the directory [TZDIR] says, relative to the working
    directory if need be, or from [/usr/share/zoneinfo] when it says none; with
    [TZ] not set the target of [/etc/localtime] names it, from [/etc] and below
    [/usr/share/zoneinfo] whatever [TZDIR] says.  The only other identifier is
    [UTC], when [TZ] is empty or a colon, or is not set and there is no
    [/etc/localtime]. *)
Theorem time_zone_located (w w' : W) (id : text) :
  checked_time_zone_identifier w = (Value id, w') ->
  id <> [] /\ is_valid_utf8 id = true /\
  match getenv (lit "TZ") w with
  | (None, _) =>
      localtime_missing /\ id = lit "UTC" \/
      exists target, localtime_names target /\ zone_named [lit "usr"; lit "share"; lit "zoneinfo"] [lit "etc"] target id
  | (Some spec, w1) =>
      (spec = [] \/ spec = lit ":") /\ id = lit "UTC" \/
      exists filespec root, (spec = ":"%char :: filespec \/ spec = filespec /\ head spec <> Some ":"%char) /\
        zone_directory (fst (getenv (lit "TZDIR") w1)) root /\ zone_named root root filespec id
  end.
Proof.
  unfold checked_time_zone_identifier, checked, attempt, mbind, query_bind.
  destruct (time_zone_identifier w) as [[v|e] w1] eqn:E; [|done]. unfold pure. intros [= Hv _]. revert Hv.
  unfold validate_utf8_label. cbn [mbind result_bind]. destruct (empty v) eqn:Ee; [done|].
  destruct (is_valid_utf8 v) eqn:Hu; cbn [negb]; [|done]. intros [= <-]. split; [by apply empty_false|]. split; [done|].
  unfold time_zone_identifier in E. destruct (getenv (lit "TZ") w) as [[spec|] w2]; [|by eapply yields_localtime].
  destruct (empty spec || _) eqn:Es.
  { injection E as <- _. left. split; [|done]. apply orb_true_iff in Es as [Es%empty_true|Es%same_true]; auto. }
  right. cbv zeta in E. destruct (getenv (lit "TZDIR") w2) as [configured w3]. cbn [fst].
  eapply yields_zone in E as (root & Hdir & Hz); [|reflexivity]. eexists _, root. split; [|done].
  destruct spec as [|c rest]; [done|]. destruct (is_char c ":") eqn:Ec; [apply is_char_true in Ec as ->; by left|].
  right. split; [done|]. intros [= ->]. by rewrite (proj2 (is_char_true ":"%char ":"%char) eq_refl) in Ec.
Qed.

(** The boundary check accepts every offset of the backend. *)
Theorem utc_offset_in_range (w : W) : fst (checked_utc_offset_seconds w) = fst (utc_offset_seconds w).
Proof.
  unfold checked_utc_offset_seconds, checked, attempt, mbind, query_bind, pure.
  destruct (utc_offset_seconds w) as [[n|e] w1] eqn:E; cbn [fst]; [|done]. revert E. unfold utc_offset_seconds.
  destruct (time_now w) as [[now|] w2]; [|done]. destruct (render_offset now w2) as [[errno|[|c v]] w3]; try done.
  intros [= (negative & h & m & s & Hh & Hm & Hs & _ & ->)%parse_gmt_offset_spec _].
  assert (0 <= default 0 s <= 59) as Hd by (destruct s as [x|]; cbn; [by apply Hs|lia]).
  unfold validate_utc_offset_seconds, seconds_per_day. cbn [mbind result_bind].
  rewrite (proj2 (Z.leb_gt _ _)) by (destruct negative; lia). rewrite (proj2 (Z.leb_gt _ _)) by (destruct negative; lia). done.
Qed.
End results.

(** A machine with a link to a zone, and with the variables of an environment. *)
Definition locale_calls (environment : list (text * text)) : LocaleKernel unit := {|
  setlocale w := (Some (lit "C"), w);
  nl_langinfo w := (Some (lit "UTF-8"), w);
  time_now w := (Some 0, w);
  render_offset now w := (inr (lit "+0100"), w);
  getenv name w := (snd <$> List.find (fun entry => same (fst entry) name) environment, w);
  getcwd size w := (if size <? 512 then inl ERANGE else inr (lit "/opt"), w);
  readlink path size w := (([EINTR], inr (lit "../usr/share/zoneinfo/./Europe//Berlin")), w);
  open_zone path w :=
    (if bool_decide (path = lit "/usr/share/zoneinfo/Europe/Berlin" \/ path = lit "/opt/zones/Asia/Tokyo")
     then inr (Zone_file (inr true) [Read_bytes (lit "TZ"); Read_error EINTR; Read_bytes (lit "if")]) else inl ENOENT, w)
|}.

Definition tokyo_environment : list (text * text) :=
  [(lit "TZ", lit ":Asia/./Tokyo"); (lit "TZDIR", lit "zones")].

Lemma time_zone_located_witness :
  (lit "Europe/Berlin" <> [] /\ is_valid_utf8 (lit "Europe/Berlin") = true /\
   (@localtime_missing unit (locale_calls []) /\ lit "Europe/Berlin" = lit "UTC" \/
    exists target, @localtime_names unit (locale_calls []) target /\
      @zone_named unit (locale_calls []) [lit "usr"; lit "share"; lit "zoneinfo"] [lit "etc"] target (lit "Europe/Berlin"))) /\
  (lit "Asia/Tokyo" <> [] /\ is_valid_utf8 (lit "Asia/Tokyo") = true /\
   ((lit ":Asia/./Tokyo" = [] \/ lit ":Asia/./Tokyo" = lit ":") /\ lit "Asia/Tokyo" = lit "UTC" \/
    exists filespec root,
      (lit ":Asia/./Tokyo" = ":"%char :: filespec \/ lit ":Asia/./Tokyo" = filespec /\ head (lit ":Asia/./Tokyo") <> Some ":"%char) /\
      @zone_directory unit (locale_calls tokyo_environment) (Some (lit "zones")) root /\
      @zone_named unit (locale_calls tokyo_environment) root root filespec (lit "Asia/Tokyo"))).
Proof.
  split.
  - refine (@time_zone_located unit (locale_calls []) tt tt (lit "Europe/Berlin") _). vm_compute. reflexivity.
  - refine (@time_zone_located unit (locale_calls tokyo_environment) tt tt (lit "Asia/Tokyo") _). vm_compute. reflexivity.
Defined.
