(* ===== verification/Passwd.v ===== *)
(** * The password database

    [include/syscape/detail/posix/passwd.hpp]: the entry of a user, looked up
    with a growing buffer.  [geteuid] and [getpwuid_r] are the class
    [PasswdKernel]. *)
From S2P Require Import Prelude Result CppText System.

(** A [passwd] entry; a null pointer is [None]. *)
Record passwd := Passwd { pw_name : option text; pw_dir : option text; pw_shell : option text }.

Record fields := Fields { field_name : text; field_directory : text; field_shell : text }.

(** [getpwuid_r] for a user on a buffer of a size: its error number, or the
    entry if there is one. *)
Class PasswdKernel (W : Type) := {
  geteuid : W -> Z * W;
  getpwuid_r : Z -> Z -> W -> (Z + option passwd) * W
}.

Definition initial_size : Z := 1024.

Definition maximum_size : Z := 1024 * 1024.

Definition fields_of (pointer : passwd) : fields :=
  Fields (default [] (pw_name pointer)) (default [] (pw_dir pointer)) (default [] (pw_shell pointer)).

(** What one call means when its buffer was large enough. *)
Definition settle (outcome : Z + option passwd) : result fields :=
  match outcome with
  | inl outcome => fail_native outcome
  | inr None => fail errc_not_found
  | inr (Some pointer) => Value (fields_of pointer)
  end.

Section passwd.
Context {W : Type}.

(** The sizes are 1024, 2048, ... 2^20. *)
Fixpoint lookup_loop (lookup : Z -> W -> (Z + option passwd) * W) (attempts : nat) (size : Z) : query W fields := fun w =>
  match attempts with
  | O => (fail_native ERANGE, w)
  | S attempts =>
      match lookup size w with
      | (inl outcome, w) =>
          if (outcome =? ERANGE) && (size <? maximum_size)
          then lookup_loop lookup attempts (if size <=? maximum_size / 2 then size * 2 else maximum_size) w
          else (settle (inl outcome), w)
      | (inr found, w) => (settle (inr found), w)
      end
  end.

Definition lookup_with_growth (lookup : Z -> W -> (Z + option passwd) * W) : query W fields :=
  lookup_loop lookup 11 initial_size.

Context `{PasswdKernel W}.

Definition entry_by_uid (uid : Z) : query W fields := lookup_with_growth (getpwuid_r uid).

Definition current_entry : query W fields := fun w => let (uid, w) := geteuid w in entry_by_uid uid w.
End passwd.

(** The buffer doubles until the call is content or the maximum is reached, and
    the outcome of that call is the result; eleven calls are enough. *)
Lemma lookup_grows {W} (lookup : Z -> W -> (Z + option passwd) * W) (w : W) (k : nat) :
  (forall size, snd (lookup size w) = w) -> (k <= 10)%nat ->
  (forall j, (j < k)%nat -> fst (lookup (1024 * 2 ^ Z.of_nat j) w) = inl ERANGE) ->
  (k = 10%nat \/ fst (lookup (1024 * 2 ^ Z.of_nat k) w) <> inl ERANGE) ->
  fst (lookup_with_growth lookup w) = settle (fst (lookup (1024 * 2 ^ Z.of_nat k) w)).
Proof.
  intros Hq Hk Hbefore Hlast. unfold lookup_with_growth, initial_size.
  assert (forall i, (i <= k)%nat -> fst (lookup_loop lookup (11 - i) (1024 * 2 ^ Z.of_nat i) w) =
    settle (fst (lookup (1024 * 2 ^ Z.of_nat k) w))) as Hi; [|by apply (Hi 0%nat); lia].
  intros i Hik. remember (k - i)%nat as d eqn:Ed. revert i Hik Ed. induction d as [|d IH]; intros i Hik Ed.
  - replace i with k in * by lia. replace (11 - k)%nat with (S (10 - k)) by lia. cbn [lookup_loop].
    specialize (Hq (1024 * 2 ^ Z.of_nat k)). destruct (lookup _ w) as [[outcome|found] w1]; [|done]. cbn [fst].
    destruct (Z.eqb_spec outcome ERANGE) as [->|]; [|done]. cbn [andb]. destruct Hlast as [->|]; [done|done].
  - replace (11 - i)%nat with (S (11 - S i)) by lia. cbn [lookup_loop]. pose proof (Hbefore i ltac:(lia)) as Hb.
    specialize (Hq (1024 * 2 ^ Z.of_nat i)). destruct (lookup _ w) as [outcome w1]. cbn in Hb, Hq. subst outcome w1.
    change (ERANGE =? ERANGE) with true. cbn [andb]. unfold maximum_size.
    assert (1024 * 2 ^ Z.of_nat i <= 524288).
    { change 524288 with (1024 * 2 ^ 9). apply Z.mul_le_mono_nonneg_l; [lia|]. apply Z.pow_le_mono_r; lia. }
    rewrite (proj2 (Z.ltb_lt _ _)) by lia. change (1024 * 1024 / 2) with 524288. rewrite (proj2 (Z.leb_le _ _)) by done.
    rewrite <- (IH (S i)) by lia.
    assert (1024 * 2 ^ Z.of_nat i * 2 = 1024 * 2 ^ Z.of_nat (S i)) as -> by (rewrite Nat2Z.inj_succ, Z.pow_succ_r by lia; lia). done.
Qed.
