(* ===== verification/Environment.v ===== *)
(** * The process environment

    The checks of [include/syscape/detail/environment/common.hpp], the backend
    [include/syscape/detail/environment/posix_common.hpp] and [posix.hpp], and
    the public queries of [include/syscape/environment.hpp].  The calls of the
    C library are the class [EnvironmentKernel]; the password database is
    [Passwd]. *)
From S2P Require Import Prelude Result CppText Utf8 System Order Passwd.

(** ** environment.hpp *)

Record environment_variable := Environment_variable { name : text; value : text }.

#[global] Instance environment_variable_eq_dec : EqDecision environment_variable.
Proof. solve_decision. Defined.

(** ** common.hpp *)

Definition has_char (c : ascii) (v : text) : bool := match find c v 0 with Some _ => true | None => false end.

Definition validate_variable_name (v : text) : result unit :=
  if empty v then fail errc_invalid_argument
  else if has_char "=" v || has_char ch_nul v then fail errc_invalid_argument
  else if negb (is_valid_utf8 v) then fail errc_invalid_encoding
  else Value tt.

Definition validate_executable_name (v : text) : result unit :=
  if empty v then fail errc_invalid_argument
  else if has_char ch_nul v then fail errc_invalid_argument
  else if negb (is_valid_utf8 v) then fail errc_invalid_encoding
  else Value tt.

Definition validate_utf8_path (v : result text) : result text :=
  path ← v;
  if empty path then fail errc_malformed_data
  else if negb (is_valid_utf8 path) then fail errc_invalid_encoding
  else Value path.

(** [while (path.size() > 1 && path.back() == '/') path.pop_back();], on the
    path from its back. *)
Fixpoint pop_slashes (l : text) : text :=
  match l with
  | c :: (_ :: _) as rest => if is_char c "/" then pop_slashes rest else l
  | _ => l
  end.

Definition normalize_directory_path (path : text) : text :=
  if empty path then path else reverse (pop_slashes (reverse path)).

(** ** posix_common.hpp *)

(** [getenv]; [environ], none for a null pointer; [getcwd], its [errno] or the
    path; [stat], none on failure, or whether the file is regular; [access] for
    execution; [isatty], its result and [errno]. *)
Class EnvironmentKernel (W : Type) := {
  getenv : text -> W -> option text * W;
  environ : W -> option (list text) * W;
  getcwd : W -> (Z + text) * W;
  stat_regular : text -> W -> option bool * W;
  may_execute : text -> W -> bool * W;
  isatty : Z -> W -> (Z * Z) * W
}.

Definition variable_less (a b : environment_variable) : bool :=
  then_by text_less (name a) (name b) (text_less (value a) (value b)).

(** One entry of the environment: what it adds to the list, or the error. *)
Definition add_entry (entry : text) (vars : list environment_variable) : result (list environment_variable) :=
  match find "=" entry 0 with
  | None | Some O => Value vars
  | Some eq =>
      let name := substr 0 eq entry in
      let value := substr_from (S eq) entry in
      if negb (is_valid_utf8 name) || negb (is_valid_utf8 value) then fail errc_invalid_encoding
      else Value (vars ++ [Environment_variable name value])
  end.

Fixpoint entries_loop (entries : list text) (vars : list environment_variable) : result (list environment_variable) :=
  match entries with
  | [] => Value vars
  | entry :: entries => vars ← add_entry entry vars; entries_loop entries vars
  end.

Definition is_absolute (path : text) : bool := match path with c :: _ => is_char c "/" | [] => false end.

(** The slashes that follow the one the text begins with. *)
Fixpoint skip_slashes (s : text) : text :=
  match s with
  | c :: ((d :: _) as rest) => if is_char d "/" then skip_slashes rest else s
  | _ => s
  end.

(** The loop of [make_absolute_normalized_path] on what is left of the path. *)
Fixpoint normalize_loop (fuel : nat) (s normalized : text) : text :=
  match fuel with
  | O => normalized
  | S fuel =>
      match s with
      | [] => normalized
      | c :: rest =>
          if is_char c "/" then
            let s := skip_slashes s in
            match s with
            | _ :: ((d :: ((e :: _) as after)) as next) =>
                if is_char d "." && is_char e "/" then normalize_loop fuel after normalized
                else normalize_loop fuel next (normalized ++ [c])
            | [_; d] => if is_char d "." then normalized else normalize_loop fuel [d] (normalized ++ [c])
            | _ => normalize_loop fuel (tail s) (normalized ++ [c])
            end
          else normalize_loop fuel rest (normalized ++ [c])
      end
  end.

Definition ends_with_slash (v : text) : bool := match last v with Some c => is_char c "/" | None => false end.

Definition normalize_absolute (path : text) : text :=
  let normalized := normalize_loop (S (length path)) path [] in
  if empty normalized then lit "/"
  else if (1 <? length normalized)%nat && ends_with_slash normalized then removelast normalized
  else normalized.

(** A directory of the search path and a name. *)
Definition join_path (dir name : text) : text := if ends_with_slash dir then dir ++ name else dir ++ "/"%char :: name.

Definition candidate_in (dir name : text) : text := if empty dir then name else join_path dir name.

Section environment.
Context {W : Type} `{EnvironmentKernel W} `{PasswdKernel W}.

Definition get_raw (v : text) : query W text := fun w =>
  let (found, w) := getenv v w in (match found with Some found => Value found | None => fail errc_not_found end, w).

Definition get (v : text) : query W text :=
  _ ← pure (validate_variable_name v);
  found ← get_raw v;
  if negb (is_valid_utf8 found) then pure (fail errc_invalid_encoding) else mret found.

Definition has (v : text) : query W bool :=
  _ ← pure (validate_variable_name v);
  found ← attempt (get_raw v);
  match found with
  | Value _ => mret true
  | Failure e => if matches_errc e errc_not_found then mret false else pure (Failure e)
  end.

Definition environment_variables : query W (list environment_variable) := fun w =>
  match environ w with
  | (None, w) => (Value [], w)
  | (Some entries, w) => (vars ← entries_loop entries []; Value (std_sort variable_less vars), w)
  end.

Definition current_working_directory : query W text := fun w =>
  match getcwd w with
  | (inl errno, w) => (fail_native errno, w)
  | (inr cwd, w) =>
      (if empty cwd then fail errc_malformed_data
       else if negb (is_valid_utf8 cwd) then fail errc_invalid_encoding
       else Value (normalize_directory_path cwd), w)
  end.

Definition make_absolute_normalized_path (path : text) : query W text :=
  if empty path then pure (fail errc_invalid_argument)
  else if is_absolute path then mret (normalize_absolute path)
  else
    cwd ← current_working_directory;
    mret (normalize_absolute (join_path cwd path)).

Definition is_executable_file (path : text) (w : W) : bool * W :=
  match stat_regular path w with
  | (Some true, w) => may_execute path w
  | (_, w) => (false, w)
  end.

(** The directories of the search path, one after the other. *)
Fixpoint search_loop (fuel : nat) (v path_view : text) : query W text :=
  match fuel with
  | O => pure (fail errc_not_found)
  | S fuel => fun w =>
      let colon_pos := find ":" path_view 0 in
      let dir := match colon_pos with None => path_view | Some stop => substr 0 stop path_view end in
      let candidate := candidate_in dir v in
      let (executable, w) := is_executable_file candidate w in
      if executable then
        if negb (is_valid_utf8 candidate) then (fail errc_invalid_encoding, w)
        else make_absolute_normalized_path candidate w
      else
        match colon_pos with
        | None => (fail errc_not_found, w)
        | Some stop => search_loop fuel v (substr_from (S stop) path_view) w
        end
  end.

Definition find_direct (v : text) : query W text := fun w =>
  let (executable, w) := is_executable_file v w in
  if executable then make_absolute_normalized_path v w else (fail errc_not_found, w).

Definition find_in_path (v : text) : query W text := fun w =>
  match getenv (lit "PATH") w with
  | (None, w) => (fail errc_not_found, w)
  | (Some path_env, w) => search_loop (S (length path_env)) v path_env w
  end.

Definition find_executable (v : text) : query W text :=
  _ ← pure (validate_executable_name v);
  if has_char "/" v then find_direct v else find_in_path v.

Definition passwd_home_directory : query W text :=
  found ← current_entry;
  if is_absolute (field_directory found) then mret (field_directory found) else pure (fail errc_not_found).

(** The value of a variable when it is an absolute path. *)
Definition absolute_variable (v : string) (w : W) : option text * W :=
  let (found, w) := getenv (lit v) w in
  (match found with Some path => if is_absolute path then Some path else None | None => None end, w).

Definition home_directory : query W text := fun w =>
  match absolute_variable "HOME" w with
  | (Some home, w) => (Value (normalize_directory_path home), w)
  | (None, w) => (passwd_home ← passwd_home_directory; mret (normalize_directory_path passwd_home)) w
  end.

Definition is_interactive_fd (fd : Z) : query W bool := fun w =>
  let '((answer, error), w) := isatty fd w in
  (if answer =? 1 then Value true
   else if (error =? ENOTTY) || (error =? EINVAL) || (error =? EBADF) || (error =? ENXIO) || (error =? EOPNOTSUPP)
   then Value false
   else fail_native error, w).

Definition is_interactive_stdin : query W bool := is_interactive_fd 0.

Definition is_interactive_stdout : query W bool := is_interactive_fd 1.

Definition is_interactive_stderr : query W bool := is_interactive_fd 2.

(** ** posix.hpp *)

Definition temp_directory : query W text := fun w =>
  match absolute_variable "TMPDIR" w with
  | (Some tmpdir, w) => (Value (normalize_directory_path tmpdir), w)
  | (None, w) => (Value (lit "/tmp"), w)
  end.

(** A directory of the desktop standard: the variable, or a directory of the
    home directory. *)
Definition standard_directory (v : string) (below_home : string) : query W text := fun w =>
  match absolute_variable v w with
  | (Some path, w) => (Value (normalize_directory_path path), w)
  | (None, w) => (home ← home_directory; mret (home ++ lit below_home)) w
  end.

Definition config_directory : query W text := standard_directory "XDG_CONFIG_HOME" "/.config".

Definition data_directory : query W text := standard_directory "XDG_DATA_HOME" "/.local/share".

Definition cache_directory : query W text := standard_directory "XDG_CACHE_HOME" "/.cache".

(** ** environment.hpp *)

Definition checked (backend : query W text) : query W text := v ← attempt backend; pure (validate_utf8_path v).

Definition checked_current_working_directory : query W text := checked current_working_directory.

Definition checked_find_executable (v : text) : query W text :=
  _ ← pure (validate_executable_name v); find_executable v.

Definition checked_temp_directory : query W text := checked temp_directory.

Definition checked_home_directory : query W text := checked home_directory.

Definition checked_config_directory : query W text := checked config_directory.

Definition checked_data_directory : query W text := checked data_directory.

Definition checked_cache_directory : query W text := checked cache_directory.
End environment.

(** ** Normalized paths *)

(** The components that stay. *)
Definition kept (s : text) : bool := negb (empty s) && negb (same s (lit ".")).

(** What the loop makes of the components that follow a slash. *)
Fixpoint kept_text (parts : list text) : text :=
  match parts with
  | [] => []
  | [part] => if empty part then lit "/" else if same part (lit ".") then [] else "/"%char :: part
  | part :: parts => (if kept part then "/"%char :: part else []) ++ kept_text parts
  end.

Lemma normalize_loop_word fuel p s out :
  ("/"%char ∉ p) -> normalize_loop (length p + fuel) (p ++ s) out = normalize_loop fuel s (out ++ p).
Proof.
  revert out. induction p as [|c p IH]; intros out Hp; [by rewrite app_nil_r|].
  apply not_elem_of_cons in Hp as [Hc Hp]. cbn [length app Nat.add normalize_loop].
  assert (is_char c "/" = false) as -> by (apply is_char_false; congruence). rewrite IH by done. by rewrite <- app_assoc.
Qed.

Lemma normalize_loop_slashes fuel s out :
  normalize_loop fuel ("/"%char :: "/"%char :: s) out = normalize_loop fuel ("/"%char :: s) out.
Proof. by destruct fuel. Qed.

(** More fuel than characters changes nothing. *)
Lemma normalize_loop_fuel f g s out :
  (length s < f)%nat -> (length s < g)%nat -> normalize_loop f s out = normalize_loop g s out.
Proof.
  assert (forall s, (length (skip_slashes s) <= length s)%nat) as Hskip.
  { clear s. induction s as [|c s IH]; [cbn; lia|]. destruct s as [|d s]; [cbn; lia|].
    change (skip_slashes (c :: d :: s)) with (if is_char d "/" then skip_slashes (d :: s) else c :: d :: s).
    destruct (is_char d "/"); [|lia]. cbn [length] in *. lia. }
  revert g s out. induction f as [|f IH]; intros [|g] s out Hf Hg; try lia. cbn [normalize_loop].
  destruct s as [|c s]; [done|]. cbn [length] in *. destruct (is_char c "/"); [|apply IH; lia].
  specialize (Hskip (c :: s)). cbv zeta. destruct (skip_slashes (c :: s)) as [|c1 [|d [|e after]]]; cbn [length tail] in *.
  - apply IH; cbn; lia.
  - apply IH; cbn; lia.
  - destruct (is_char d "."); [done|]. apply IH; cbn; lia.
  - destruct (_ && _); apply IH; cbn [length]; lia.
Qed.

(** A component that stays is copied with the slash before it. *)
Lemma normalize_loop_kept fuel p s out :
  kept p = true -> ("/"%char ∉ p) -> (s = [] \/ head s = Some "/"%char) -> (length p + length s < fuel)%nat ->
  normalize_loop (S fuel) ("/"%char :: p ++ s) out = normalize_loop fuel s (out ++ "/"%char :: p).
Proof.
  intros Hk Hp Hs Hf. unfold kept in Hk. apply andb_true_iff in Hk as [Hne Hdot].
  destruct p as [|c p]; [done|]. rewrite negb_true_iff, same_false in Hdot.
  apply not_elem_of_cons in Hp as [Hc Hp]. assert (is_char c "/" = false) as Hc' by (apply is_char_false; congruence).
  assert (normalize_loop fuel (c :: p ++ s) (out ++ ["/"%char]) = normalize_loop fuel s (out ++ "/"%char :: c :: p)) as Hpush.
  { pose proof (normalize_loop_word (fuel - length (c :: p)) (c :: p) s (out ++ ["/"%char])) as E.
    rewrite not_elem_of_cons, Nat.add_comm, Nat.sub_add, <- app_assoc in E by (cbn [length] in *; lia).
    cbn [app] in E. rewrite E by done. apply normalize_loop_fuel; cbn [length] in *; lia. }
  cbn [app normalize_loop skip_slashes]. change (is_char "/" "/"%char) with true. rewrite Hc'. cbv iota zeta.
  destruct p as [|e after]; cbn [app] in *.
  - assert (is_char c "." = false) as -> by (apply is_char_false; intros ->; by apply Hdot).
    destruct s; cbn [andb]; exact Hpush.
  - apply not_elem_of_cons in Hp as [He _]. assert (is_char e "/" = false) as -> by (apply is_char_false; congruence).
    rewrite andb_false_r. exact Hpush.
Qed.

(** A dot is left out, with the slash before it. *)
Lemma normalize_loop_dot fuel s out :
  normalize_loop (S fuel) ("/"%char :: lit "." ++ "/"%char :: s) out = normalize_loop fuel ("/"%char :: s) out.
Proof. done. Qed.

Lemma normalize_loop_parts parts fuel out :
  parts <> [] -> Forall (fun p => "/"%char ∉ p) parts -> (length (join "/" parts) + 1 < fuel)%nat ->
  normalize_loop fuel ("/"%char :: join "/" parts) out = out ++ kept_text parts.
Proof.
  intros Hne Hp. revert fuel out. induction Hp as [|p parts Hp Hps IH]; intros fuel out Hf; [done|].
  destruct fuel as [|fuel]; [lia|]. destruct (decide (parts = [])) as [->|Hparts].
  - cbn [join kept_text] in *. destruct (kept p) eqn:Hk.
    + rewrite <- (app_nil_r p) at 1. rewrite normalize_loop_kept by (auto || (cbn [length] in *; lia)).
      apply andb_true_iff in Hk as [He%negb_true_iff Hd%negb_true_iff]. rewrite He, Hd. by destruct fuel.
    + apply andb_false_iff in Hk as [He%negb_false_iff%empty_true|Hd%negb_false_iff%same_true]; subst p.
      * by destruct fuel.
      * cbn. by rewrite app_nil_r.
  - rewrite join_cons in Hf |- * by done. rewrite length_app in Hf. cbn [length] in Hf.
    destruct parts as [|q parts]; [done|].
    change (kept_text (p :: q :: parts)) with ((if kept p then "/"%char :: p else []) ++ kept_text (q :: parts)).
    destruct (kept p) eqn:Hk.
    + rewrite normalize_loop_kept by (auto || (cbn [length] in *; lia)).
      rewrite IH by (done || lia). by rewrite <- app_assoc.
    + apply andb_false_iff in Hk as [He%negb_false_iff%empty_true|Hd%negb_false_iff%same_true]; subst p; cbn [length] in Hf.
      * cbn [app]. rewrite normalize_loop_slashes. apply IH; [done|lia].
      * rewrite normalize_loop_dot. apply IH; [done|]. change (length (lit ".")) with 1%nat in Hf. lia.
Qed.

Lemma kept_text_split parts :
  parts <> [] -> kept_text parts = concat (cons "/"%char <$> List.filter kept parts) ++ (if bool_decide (last parts = Some []) then lit "/" else []).
Proof.
  intros Hne. induction parts as [|p parts IH]; [done|]. destruct parts as [|q parts].
  - cbn [kept_text List.filter last]. unfold kept. destruct p as [|c p]; [done|]. cbn [empty negb andb].
    rewrite bool_decide_eq_false_2 by done. destruct (same _ _); [done|]. cbn. by rewrite !app_nil_r.
  - change (kept_text (p :: q :: parts)) with ((if kept p then "/"%char :: p else []) ++ kept_text (q :: parts)).
    change (last (p :: q :: parts)) with (last (q :: parts)). rewrite IH by done. rewrite app_assoc. f_equal.
    change (List.filter kept (p :: q :: parts)) with (if kept p then p :: List.filter kept (q :: parts) else List.filter kept (q :: parts)).
    by destruct (kept p).
Qed.

Lemma ends_with_slash_app a b : b <> [] -> ends_with_slash (a ++ b) = ends_with_slash b.
Proof. destruct b as [|c b]; [done|]. intros _. unfold ends_with_slash. by rewrite last_app_cons. Qed.

Lemma ends_with_slash_none v : ("/"%char ∉ v) -> ends_with_slash v = false.
Proof.
  intros Hv. unfold ends_with_slash. destruct (last v) as [c|] eqn:E; [|done]. apply is_char_false. intros ->.
  apply Hv. by apply last_Some_elem_of.
Qed.

(** Joined components do not end with a slash. *)
Lemma join_no_slash ks :
  Forall (fun k => k <> [] /\ "/"%char ∉ k) ks -> ks <> [] -> ends_with_slash (concat (cons "/"%char <$> ks)) = false.
Proof.
  intros Hk Hne. destruct (exists_last Hne) as (ks' & k & ->). apply Forall_app in Hk as [_ Hk]. apply Forall_inv in Hk as [Hkn Hkc].
  rewrite fmap_app, concat_app. cbn [fmap list_fmap concat]. rewrite app_nil_r, cons_middle, app_assoc.
  rewrite ends_with_slash_app by done. by apply ends_with_slash_none.
Qed.

(** The normalized path is the components of the path that are neither empty
    nor a dot, with one slash before each. *)
Lemma normalize_absolute_components p :
  normalize_absolute ("/"%char :: p) = "/"%char :: join "/" (List.filter kept (split_at "/" p)).
Proof.
  destruct (split_at_cons "/" p) as (f & fs & Ef). pose proof (split_at_clean "/" p) as Hclean.
  assert (normalize_loop (S (length ("/"%char :: p))) ("/"%char :: p) [] = kept_text (split_at "/" p)) as Hloop.
  { rewrite <- (join_split_at "/" p) at 1 2. by rewrite normalize_loop_parts; [|by rewrite Ef|done|cbn [length]; lia]. }
  unfold normalize_absolute. rewrite Hloop. cbv zeta.
  rewrite kept_text_split by (by rewrite Ef). set (ks := List.filter kept (split_at "/" p)).
  assert (Forall (fun k => k <> [] /\ "/"%char ∉ k) ks) as Hks.
  { apply Forall_forall. intros k Hk. unfold ks in Hk. rewrite list_elem_of_In, filter_In, <- list_elem_of_In in Hk.
    destruct Hk as [Hk [Hkept _]%andb_true_iff]. rewrite Forall_forall in Hclean. split; [|by apply Hclean].
    by apply empty_false, negb_true_iff. }
  clearbody ks. destruct (decide (ks = [])) as [->|Hne]; [by destruct (bool_decide _)|].
  pose proof (join_no_slash ks Hks Hne) as Hend. rewrite concat_join in Hend |- * by done.
  assert (1 <? length ("/"%char :: join "/" ks) = true)%nat as Hlen.
  { destruct ks as [|k ks]; [done|]. apply Forall_cons in Hks as [[Hk _] _]. rewrite join_concat. by destruct k. }
  destruct (bool_decide _); cbn [app empty] in *.
  - change ("/"%char :: join "/" ks ++ lit "/") with (("/"%char :: join "/" ks) ++ ["/"%char]).
    rewrite ends_with_slash_app, removelast_last by done. rewrite length_app. cbn [length].
    rewrite (proj2 (Nat.ltb_lt _ _)) by lia. done.
  - by rewrite app_nil_r, Hend, andb_false_r.
Qed.

(** ** Finding a program *)

Section search.
Context {W : Type} `{EnvironmentKernel W} `{PasswdKernel W} (w : W).
Context (stat_quiet : forall path, snd (stat_regular path w) = w) (access_quiet : forall path, snd (may_execute path w) = w).

Definition executable (path : text) : bool := match fst (stat_regular path w) with Some true => fst (may_execute path w) | _ => false end.

Lemma is_executable_eq path : is_executable_file path w = (executable path, w).
Proof.
  unfold is_executable_file, executable. pose proof (stat_quiet path) as Hs. pose proof (access_quiet path) as Ha.
  destruct (stat_regular path w) as [[[|]|] w1]; cbn in *; subst; [|done..]. by destruct (may_execute path w) as [b w1]; cbn in *; subst.
Qed.

(** The absolute path of a program that was found. *)
Definition absolute_form (path result : text) : Prop := exists a,
  (if is_absolute path then a = path else exists dir, fst (current_working_directory w) = Value dir /\ a = join_path dir path) /\
  result = normalize_absolute a /\
  forall rest, a = "/"%char :: rest -> result = "/"%char :: join "/" (List.filter kept (split_at "/" rest)).

Lemma make_absolute_form path p :
  path <> [] -> fst (make_absolute_normalized_path path w) = Value p <-> absolute_form path p.
Proof.
  intros Hne. unfold make_absolute_normalized_path, absolute_form. rewrite (proj2 (empty_false _) Hne).
  assert (forall a, forall rest, a = "/"%char :: rest ->
    normalize_absolute a = "/"%char :: join "/" (List.filter kept (split_at "/" rest))) as Hform.
  { intros a rest ->. apply normalize_absolute_components. }
  destruct (is_absolute path).
  - split; [intros [= <-]; eauto|]. by intros (a & -> & -> & _).
  - unfold mbind, query_bind. destruct (current_working_directory w) as [[dir|e] w1]; cbn [fst].
    + split; [intros [= <-]; exists (join_path dir path); eauto 8|]. intros (a & (d & E & ->) & -> & _). by injection E as ->.
    + split; [done|]. by intros (a & (? & ? & _) & _).
Qed.

Lemma candidate_nonempty dir v : v <> [] -> candidate_in dir v <> [].
Proof. intros Hv. unfold candidate_in, join_path. destruct dir; cbn; [done|]. by destruct (ends_with_slash _). Qed.

Lemma search_loop_first fuel v path p :
  v <> [] -> (length path < fuel)%nat ->
  fst (search_loop fuel v path w) = Value p <->
  exists before c after, (fun dir => candidate_in dir v) <$> split_at ":" path = before ++ c :: after /\
    Forall (fun d => executable d = false) before /\ executable c = true /\ is_valid_utf8 c = true /\ absolute_form c p.
Proof.
  intros Hv. revert path. induction fuel as [|fuel IH]; intros path Hf; [lia|]. cbn [search_loop]. cbv zeta.
  rewrite split_at_find, find_0. set (found := find_first (is_char ":") path).
  set (dir := match found with None => path | Some stop => substr 0 stop path end). rewrite is_executable_eq.
  assert (exists dirs, match found with None => [path] | Some i => take i path :: split_at ":" (drop (S i) path) end = dir :: dirs /\
    dirs = match found with None => [] | Some i => split_at ":" (drop (S i) path) end) as (dirs & -> & Hdirs).
  { unfold dir, substr. destruct found; [rewrite drop_0|]; eauto. }
  destruct (executable (candidate_in dir v)) eqn:Ex.
  - transitivity (is_valid_utf8 (candidate_in dir v) = true /\ absolute_form (candidate_in dir v) p).
    { destruct (is_valid_utf8 (candidate_in dir v)); cbn [negb]; [|split; [done|by intros [? _]]].
      rewrite make_absolute_form by (by apply candidate_nonempty). tauto. }
    split; [intros [Hu Ha]; exists [], (candidate_in dir v), ((fun d => candidate_in d v) <$> dirs); auto|].
    intros (before & c & after & E & Hb & Hc & Hu & Ha). destruct before as [|d before]; [by injection E as -> _|].
    injection E as <- _. apply Forall_inv in Hb. congruence.
  - transitivity (exists before c after, (fun d => candidate_in d v) <$> dirs = before ++ c :: after /\
      Forall (fun d => executable d = false) before /\ executable c = true /\ is_valid_utf8 c = true /\ absolute_form c p).
    { subst dirs. unfold found in *. destruct (find_first _ path) as [stop|] eqn:Ef.
      - apply find_first_lt in Ef. apply IH. unfold substr_from. rewrite length_drop. lia.
      - split; [done|]. intros (before & c & after & E & _). by destruct before. }
    split; intros (before & c & after & E & Hb & Hc & Hu & Ha).
    + exists (candidate_in dir v :: before), c, after. rewrite fmap_cons, E. split_and!; [done|by constructor|done..].
    + destruct before as [|d before]; [injection E as <- _; congruence|]. injection E as <- E. apply Forall_cons in Hb as [_ Hb].
      exists before, c, after. auto.
Qed.
End search.

Section results.
Context {W : Type} `{EnvironmentKernel W} `{PasswdKernel W}.

(** C37: a name without a slash is looked up in the directories of [PATH] in
    order, an empty one standing for the working directory: the result is the
    absolute path, without empty components and dots, of the first candidate
    that is an executable regular file, and there is none exactly when no
    candidate is one or its path is not UTF-8. *)
Theorem executable_found (w : W) (v path p : text) :
  (forall path, snd (stat_regular path w) = w) -> (forall path, snd (may_execute path w) = w) ->
  getenv (lit "PATH") w = (Some path, w) -> validate_executable_name v = Value tt -> ("/"%char ∉ v) ->
  fst (checked_find_executable v w) = Value p <->
  exists before c after, (fun dir => candidate_in dir v) <$> split_at ":" path = before ++ c :: after /\
    Forall (fun d => executable w d = false) before /\ executable w c = true /\ is_valid_utf8 c = true /\ absolute_form w c p.
Proof.
  intros Hs Ha Hpath Hv Hslash. unfold checked_find_executable, find_executable, mbind, query_bind, pure. rewrite Hv.
  unfold has_char. rewrite find_none by done. unfold find_in_path. rewrite Hpath.
  apply search_loop_first; [done|done| |lia]. intros ->. done.
Qed.
End results.

Definition environment_calls : EnvironmentKernel unit := {|
  getenv name w := (if bool_decide (name = lit "PATH") then Some (lit "/usr//bin:./tools/:/bin") else None, w);
  environ w := (None, w);
  getcwd w := (inr (lit "/home/me/"), w);
  stat_regular path w := (if bool_decide (path = lit "/usr//bin/cc") then Some false else Some true, w);
  may_execute path w := (true, w);
  isatty fd w := ((1, 0), w)
|}.

Definition no_passwd : PasswdKernel unit := {| geteuid w := (0, w); getpwuid_r uid size w := (inr None, w) |}.

Lemma executable_found_witness :
  fst (@checked_find_executable unit environment_calls (lit "cc") tt) = Value (lit "/home/me/tools/cc").
Proof.
  refine (proj2 (@executable_found unit environment_calls tt (lit "cc") (lit "/usr//bin:./tools/:/bin") (lit "/home/me/tools/cc")
    (fun path => eq_refl) (fun path => eq_refl) eq_refl eq_refl _) _); [by_compute|].
  exists [lit "/usr//bin/cc"], (lit "./tools/cc"), [lit "/bin/cc"].
  split; [reflexivity|]. split; [by repeat constructor|]. split; [reflexivity|]. split; [vm_compute; reflexivity|].
  exists (lit "/home/me/./tools/cc"). split; [exists (lit "/home/me"); split; [vm_compute; reflexivity|reflexivity]|].
  split; [vm_compute; reflexivity|]. by intros rest [= <-].
Defined.

(** ** The list of variables *)

Definition entry_text (x : environment_variable) : text := name x ++ "="%char :: value x.

Definition variable_ok (x : environment_variable) : Prop :=
  name x <> [] /\ ("="%char ∉ name x) /\ is_valid_utf8 (name x) = true /\ is_valid_utf8 (value x) = true.

Lemma add_entry_text x vars : variable_ok x -> add_entry (entry_text x) vars = Value (vars ++ [x]).
Proof.
  intros (Hne & Heq & Hn & Hv). unfold add_entry, entry_text.
  destruct (find_app_parts "="%char (name x) (value x) Heq) as (-> & Hl & Hr).
  destruct (length (name x)) as [|n] eqn:En; [by destruct (name x)|]. rewrite Hl, Hr, Hn, Hv. by destruct x.
Qed.

(** Whatever is returned is well formed. *)
Lemma add_entry_ok entry vars vars' : Forall variable_ok vars -> add_entry entry vars = Value vars' -> Forall variable_ok vars'.
Proof.
  intros Hvars. unfold add_entry. destruct (find "=" entry 0) as [[|eq]|] eqn:E; [by intros [= <-]| |by intros [= <-]].
  apply find_split in E as (E & Hno & Hlen).
  destruct (is_valid_utf8 (substr 0 (S eq) entry)) eqn:Hn; [|done]. destruct (is_valid_utf8 (substr_from _ entry)) eqn:Hv; [|done].
  intros [= <-]. apply Forall_app. split; [done|]. apply Forall_cons_2; [|constructor]. split_and!; try done.
  cbn [name]. intros Hnil. by rewrite Hnil in Hlen.
Qed.

Section variables.
Context {W : Type} `{EnvironmentKernel W}.

(** An environment that is printed variable by variable reads back, in order
    of names and values. *)
Theorem environment_text (w : W) (vars : list environment_variable) :
  Forall variable_ok vars -> fst (environ w) = Some (entry_text <$> vars) ->
  exists l, fst (environment_variables w) = Value l /\ l ≡ₚ vars /\ StronglySorted (not_after variable_less) l.
Proof.
  intros Hok He. exists (std_sort variable_less vars). split; [|split; [apply std_sort_permutation|]].
  - unfold environment_variables. destruct (environ w) as [found w1]. cbn in He. subst found.
    assert (forall acc, entries_loop (entry_text <$> vars) acc = Value (acc ++ vars)) as Hl.
    { clear w1. induction Hok as [|x vars Hx _ IH]; intros acc; [by rewrite app_nil_r|]. rewrite fmap_cons. cbn [entries_loop].
      rewrite add_entry_text by done. cbn [mbind result_bind]. by rewrite IH, <- app_assoc. }
    by rewrite Hl.
  - apply (std_sort_key_sorted _ (fun x => encode (name x) ++ encode (value x) ++ [])). intros a b. unfold variable_less.
    apply then_by_encode, less_encode. apply lexicographic_irrefl.
Qed.

(** Every variable has a name without [=], and texts in UTF-8. *)
Theorem environment_well_formed (w w' : W) (l : list environment_variable) :
  environment_variables w = (Value l, w') -> Forall variable_ok l.
Proof.
  unfold environment_variables. destruct (environ w) as [[entries|] w1]; [|by intros [= <- _]].
  destruct (entries_loop entries []) as [vars|] eqn:E; [|done]. cbn [mbind result_bind]. intros [= <- _].
  rewrite (std_sort_permutation variable_less vars). revert E. generalize (@Forall_nil_2 _ variable_ok). generalize (@nil environment_variable).
  induction entries as [|entry entries IH]; intros acc Hacc; cbn [entries_loop]; [by intros [= <-]|].
  destruct (add_entry entry acc) as [acc'|] eqn:Ea; [|done]. apply IH. by eapply add_entry_ok.
Qed.
End variables.
