(* ===== verification/User.v ===== *)
(** * Users and login sessions

    The records and checks of [include/syscape/detail/user/common.hpp], the
    backend [include/syscape/detail/user/posix.hpp], and the public queries of
    [include/syscape/user.hpp].  The calls of the C library are the class
    [UserKernel]; the password database is [Passwd]. *)
From S2P Require Import Prelude Result CppText Utf8 System Order Os Passwd.

(** ** common.hpp *)

Inductive privilege_state := unprivileged | privileged.

Inductive session_type :=
  | session_unknown | session_console | session_graphical | session_remote | session_pseudo_terminal
  | session_system | session_other.

#[global] Instance session_type_eq_dec : EqDecision session_type.
Proof. solve_decision. Defined.

Inductive session_state := state_unknown | state_active | state_idle | state_disconnected | state_other.

#[global] Instance session_state_eq_dec : EqDecision session_state.
Proof. solve_decision. Defined.

(** The login time in nanoseconds since the epoch. *)
Record session_info := Session_info {
  user_name : text;
  terminal : text;
  session_id : option text;
  pid : option Z;
  type : session_type;
  state : session_state;
  remote_host : option text;
  login_time : option Z
}.

Definition extract_logged_in_users (sessions_result : result (list session_info)) : result (list text) :=
  sessions ← sessions_result;
  let users := user_name <$> List.filter (fun s => negb (empty (user_name s))) (sessions : list session_info) in
  Value (std_unique (std_sort text_less users)).

Definition validate_utf8_name (value : result text) : result text :=
  v ← value;
  if empty v then fail errc_malformed_data
  else if negb (is_valid_utf8 v) then fail errc_invalid_encoding
  else Value v.

Definition validate_utf8_path (value : result text) : result text :=
  v ← value;
  if empty v then fail errc_malformed_data
  else if negb (is_valid_utf8 v) then fail errc_invalid_encoding
  else Value v.

Definition validate_utf8_shell (value : result text) : result text :=
  v ← value;
  if negb (is_valid_utf8 v) then fail errc_invalid_encoding else Value v.

(** ** posix.hpp *)

(** An entry of the login database; its arrays with what follows their NUL. *)
Record utmpx := Utmpx {
  ut_type : Z;
  ut_user : text;
  ut_line : text;
  ut_id : text;
  ut_host : text;
  ut_pid : Z;
  tv_sec : Z;
  tv_usec : Z
}.

Definition USER_PROCESS : Z := 7.

Fixpoint fixed_array_to_string (array : text) : text :=
  match array with
  | [] => []
  | c :: array => if is_char c ch_nul then [] else c :: fixed_array_to_string array
  end.

Definition begins (prefix : string) (v : text) : bool := starts_with (lit prefix) v.

Definition is_one_of (v : text) (names : list string) : bool := existsb (fun n => same v (lit n)) names.

(** The host of a pseudo terminal is another machine. *)
Definition is_remote_host (remote_host : text) : bool :=
  negb (empty remote_host) && negb (is_one_of remote_host [":0"; ":0.0"; "localhost"; "127.0.0.1"; "::1"]%string) &&
  negb (begins ":" remote_host) && negb (begins "tmux(" remote_host) && negb (begins "screen(" remote_host).

Definition classify_posix_session_type (terminal remote_host : text) : session_type :=
  if begins ":" terminal || begins ":" remote_host || contains (lit "X11") terminal || contains (lit "wayland") terminal
  then session_graphical
  else if begins "tty" terminal || same terminal (lit "console") then session_console
  else if begins "pts/" terminal || begins "pty" terminal || begins "ttyp" terminal then
    if is_remote_host remote_host then session_remote else session_pseudo_terminal
  else if negb (empty remote_host) && negb (begins ":" remote_host) then session_remote
  else session_other.

(** Seconds and microseconds as a time point in nanoseconds. *)
Definition time_point (seconds microseconds : Z) : Z :=
  wrap_signed 64 (wrap_signed 64 (wrap_signed 64 (seconds * 1000000) + microseconds) * 1000).

Definition session_of (entry : utmpx) : session_info :=
  let user := fixed_array_to_string (ut_user entry) in
  let line := fixed_array_to_string (ut_line entry) in
  let id := fixed_array_to_string (ut_id entry) in
  let host := fixed_array_to_string (ut_host entry) in
  let kind := classify_posix_session_type line host in
  {| user_name := user; terminal := line;
     session_id := if empty id then None else Some id;
     pid := if 0 <? ut_pid entry then Some (ut_pid entry) else None;
     type := kind; state := state_active;
     remote_host := if bool_decide (kind = session_remote) && negb (empty host) then Some host else None;
     login_time := if 0 <? tv_sec entry then Some (time_point (tv_sec entry) (tv_usec entry)) else None |}.

(** One entry of the database. *)
Definition add_session (entry : utmpx) (sessions : list session_info) : result (list session_info) :=
  let valid array := is_valid_utf8 (fixed_array_to_string array) in
  if negb (ut_type entry =? USER_PROCESS) then Value sessions
  else if empty (fixed_array_to_string (ut_user entry)) then Value sessions
  else if negb (valid (ut_user entry)) then fail errc_invalid_encoding
  else if negb (valid (ut_line entry)) then fail errc_invalid_encoding
  else if negb (empty (fixed_array_to_string (ut_id entry))) && negb (valid (ut_id entry)) then fail errc_invalid_encoding
  else if negb (empty (fixed_array_to_string (ut_host entry))) && negb (valid (ut_host entry)) then fail errc_invalid_encoding
  else Value (sessions ++ [session_of entry]).

Fixpoint utmpx_loop (entries : list utmpx) (sessions : list session_info) : result (list session_info) :=
  match entries with
  | [] => Value sessions
  | entry :: entries => sessions ← add_session entry sessions; utmpx_loop entries sessions
  end.

Definition session_less (a b : session_info) : bool :=
  then_by text_less (user_name a) (user_name b) (
  then_by text_less (terminal a) (terminal b) (
  then_by (optional_less text_less) (session_id a) (session_id b) (
  optional_less Z.ltb (pid a) (pid b)))).

Definition parse_utmpx_entries (entries : list utmpx) : result (list session_info) :=
  sessions ← utmpx_loop entries [];
  Value (std_sort session_less sessions).

Definition narrow_identifier (value : Z) : result Z :=
  if uint32_max <? value then fail errc_value_too_large else Value (wrap 32 value).

Fixpoint narrow_loop (recorded : list Z) (narrowed : list Z) : result (list Z) :=
  match recorded with
  | [] => Value narrowed
  | identifier :: recorded => value ← narrow_identifier identifier; narrow_loop recorded (narrowed ++ [value])
  end.

Definition ascending_unique (narrowed : list Z) : list Z := std_unique (std_sort Z.ltb narrowed).

Definition extract_name (f : fields) : result text :=
  if empty (field_name f) then fail errc_malformed_data else Value (field_name f).

Definition extract_home_directory (f : fields) : result text :=
  match field_directory f with
  | c :: _ => if is_char c "/" then Value (field_directory f) else fail errc_malformed_data
  | [] => fail errc_malformed_data
  end.

Definition extract_shell (f : fields) : result text := Value (field_shell f).

Definition map_login_failure (outcome : Z) : error_code :=
  if (outcome =? ENXIO) || (outcome =? ENOTTY) || (outcome =? ENOENT) then make_error_code errc_not_found
  else native_error outcome.

(** The real and effective identifiers; [getgroups] on a buffer for a number of
    groups: [errno] or the groups; [getlogin_r] on a buffer of a size: its error
    number or the name; the entries [getutxent] returns one after the other. *)
Class UserKernel (W : Type) := {
  getuid : W -> Z * W;
  getgid : W -> Z * W;
  getegid : W -> Z * W;
  getgroups : Z -> W -> (Z + list Z) * W;
  getlogin_r : Z -> W -> (Z + text) * W;
  utmpx_entries : W -> list utmpx * W
}.

Definition maximum_size : Z := 1024 * 1024.

Definition next_size (size : Z) : Z := if size <=? maximum_size / 2 then size * 2 else maximum_size.

Section user.
Context {W : Type} `{PasswdKernel W} `{UserKernel W}.

Definition sessions : query W (list session_info) := fun w =>
  let (entries, w) := utmpx_entries w in (parse_utmpx_entries entries, w).

Definition identifier (call : W -> Z * W) : query W Z := fun w => let (value, w) := call w in (narrow_identifier value, w).

Definition real_user_id : query W Z := identifier getuid.

Definition effective_user_id : query W Z := identifier geteuid.

Definition real_group_id : query W Z := identifier getgid.

Definition effective_group_id : query W Z := identifier getegid.

Definition current_passwd_entry : query W fields := current_entry.

Definition login_user_name : query W text := f ← current_passwd_entry; pure (extract_name f).

Definition home_directory : query W text := f ← current_passwd_entry; pure (extract_home_directory f).

Definition shell : query W text := f ← current_passwd_entry; pure (extract_shell f).

(** The sizes are 64, 128, ... 2^20. *)
Fixpoint groups_loop (attempts : nat) (size : Z) : query W (list Z) := fun w =>
  match attempts with
  | O => (fail_native ERANGE, w)
  | S attempts =>
      match getgroups size w with
      | (inr recorded, w) => (Value recorded, w)
      | (inl failure_code, w) =>
          let growable := (failure_code =? ERANGE) || (failure_code =? EINVAL) in
          if negb growable || (maximum_size <=? size) then (fail_native failure_code, w)
          else groups_loop attempts (next_size size) w
      end
  end.

Definition supplementary_groups : query W (list Z) :=
  recorded ← groups_loop 15 64;
  narrowed ← pure (narrow_loop recorded []);
  mret (ascending_unique narrowed).

Definition privilege : query W privilege_state := fun w =>
  let (uid, w) := geteuid w in (Value (if uid =? 0 then privileged else unprivileged), w).

(** The sizes are 256, 512, ... 2^20. *)
Fixpoint login_loop (attempts : nat) (size : Z) : query W text := fun w =>
  match attempts with
  | O => (Failure (map_login_failure ERANGE), w)
  | S attempts =>
      match getlogin_r size w with
      | (inr name, w) => (if empty name then fail errc_malformed_data else Value name, w)
      | (inl outcome, w) =>
          if ((outcome =? ERANGE) || (outcome =? EINVAL)) && (size <? maximum_size)
          then login_loop attempts (next_size size) w
          else (Failure (map_login_failure outcome), w)
      end
  end.

Definition login_name : query W text := login_loop 13 256.

(** ** user.hpp *)

Definition checked {A} (check : result A -> result A) (backend : query W A) : query W A :=
  v ← attempt backend; pure (check v).

Definition checked_login_name : query W text := checked validate_utf8_name login_name.

Definition checked_user_name : query W text := checked validate_utf8_name login_user_name.

Definition checked_home_directory : query W text := checked validate_utf8_path home_directory.

Definition checked_shell : query W text := checked validate_utf8_shell shell.

Definition logged_in_users : query W (list text) :=
  found ← attempt sessions; pure (extract_logged_in_users found).
End user.

(** ** Sessions *)

(** A login of a user, and whether its texts are UTF-8. *)
Definition is_login (entry : utmpx) : bool :=
  (ut_type entry =? USER_PROCESS) && negb (empty (fixed_array_to_string (ut_user entry))).

Definition login_valid (entry : utmpx) : bool :=
  forallb (fun array => is_valid_utf8 (fixed_array_to_string array)) [ut_user entry; ut_line entry; ut_id entry; ut_host entry].

(** The text of an array: what stands before the first NUL. *)
Lemma fixed_array_text (v rest : text) :
  ch_nul ∉ v -> fixed_array_to_string (v ++ ch_nul :: rest) = v /\ fixed_array_to_string v = v.
Proof.
  induction v as [|c v IH]; intros Hv; [done|]. apply not_elem_of_cons in Hv as [Hc Hv].
  cbn [fixed_array_to_string app]. assert (is_char c ch_nul = false) as -> by (apply is_char_false; congruence).
  destruct (IH Hv) as [-> ->]. done.
Qed.

Lemma add_session_spec entry acc :
  add_session entry acc =
  if is_login entry then if login_valid entry then Value (acc ++ [session_of entry]) else fail errc_invalid_encoding
  else Value acc.
Proof.
  unfold add_session, is_login, login_valid. cbn [forallb]. destruct (ut_type entry =? USER_PROCESS); cbn [negb andb]; [|done].
  destruct (empty (fixed_array_to_string (ut_user entry))); cbn [negb]; [done|].
  assert (forall v, negb (empty v) && negb (is_valid_utf8 v) = negb (is_valid_utf8 v)) as Hempty by by intros [|c v].
  rewrite !Hempty. by destruct (is_valid_utf8 (fixed_array_to_string (ut_user entry))),
    (is_valid_utf8 (fixed_array_to_string (ut_line entry))), (is_valid_utf8 (fixed_array_to_string (ut_id entry))),
    (is_valid_utf8 (fixed_array_to_string (ut_host entry))).
Qed.

Lemma utmpx_loop_spec entries acc :
  utmpx_loop entries acc =
  if forallb login_valid (List.filter is_login entries) then Value (acc ++ (session_of <$> List.filter is_login entries))
  else fail errc_invalid_encoding.
Proof.
  revert acc. induction entries as [|e entries IH]; intros acc; [by rewrite app_nil_r|].
  cbn [utmpx_loop List.filter]. rewrite add_session_spec. destruct (is_login e); [|apply IH].
  cbn [forallb]. destruct (login_valid e); [|done]. cbn [mbind result_bind andb]. rewrite IH.
  destruct (forallb _ _); [|done]. by rewrite fmap_cons, <- app_assoc.
Qed.

(** What is reported of a login: a remote host only for a remote session. *)
Record session_ok (s : session_info) : Prop := {
  ok_name : user_name s <> [] /\ is_valid_utf8 (user_name s) = true;
  ok_terminal : is_valid_utf8 (terminal s) = true;
  ok_id : forall v, session_id s = Some v -> v <> [] /\ is_valid_utf8 v = true;
  ok_pid : forall p, pid s = Some p -> 0 < p;
  ok_host : forall v, remote_host s = Some v -> type s = session_remote /\ v <> [] /\ is_valid_utf8 v = true
}.

Lemma session_of_ok entry : is_login entry = true -> login_valid entry = true -> session_ok (session_of entry).
Proof.
  unfold is_login, login_valid. cbn [forallb]. rewrite !andb_true_iff. intros [_ Hne%negb_true_iff%empty_false] (Hu & Hl & Hi & Hh & _).
  split; cbn [session_of user_name terminal session_id pid type remote_host]; [done|done| | |].
  - intros v. destruct (empty _) eqn:E; [done|]. intros [= <-]. split; [by apply empty_false|done].
  - intros p. destruct (Z.ltb_spec 0 (ut_pid entry)); [by intros [= <-]|done].
  - intros v. destruct (bool_decide _) eqn:E; [|done]. apply bool_decide_eq_true in E.
    destruct (empty _) eqn:Eh; [done|]. intros [= <-]. split; [done|]. split; [by apply empty_false|done].
Qed.

Lemma session_less_sorted l : StronglySorted (not_after session_less) (std_sort session_less l).
Proof.
  apply (std_sort_key_sorted _ (fun s => encode (user_name s) ++ encode (terminal s) ++ encode (session_id s) ++ encode (pid s) ++ [])).
  intros a b. unfold session_less. do 3 apply then_by_encode. apply less_encode.
  destruct (pid a) as [p|]; [|done]. cbn. apply Z.ltb_irrefl.
Qed.

Lemma text_less_antisym a b : not_after text_less a b -> not_after text_less b a -> a = b.
Proof.
  intros Hab Hba. assert (code <$> a = code <$> b) as E.
  { by apply (not_after_key_antisym text_less (fmap code) (fun a b => eq_refl)). }
  assert (Inj (=) (=) code) as Hinj by (intros c d Ec; by rewrite <- (char_of_code c), <- (char_of_code d), Ec).
  by apply (inj (fmap code)) in E.
Qed.

Lemma sorted_unique_texts l :
  StronglySorted (fun a b => not_after text_less a b /\ a <> b) (std_unique (std_sort text_less l)) /\
  forall v, v ∈ std_unique (std_sort text_less l) <-> v ∈ l.
Proof.
  split.
  - apply std_unique_sorted; [apply text_less_antisym|]. by apply (std_sort_key_sorted _ (fmap code)).
  - intros v. by rewrite std_unique_elem, (std_sort_permutation text_less l).
Qed.

Section sessions.
Context {W : Type} `{PasswdKernel W} `{UserKernel W}.

(** C40: the query succeeds exactly when the texts of every login are UTF-8, and
    then returns a well-formed session for each, ordered by user, terminal,
    identifier and process; the users logged in are exactly the names of these
    sessions, each once and in ascending order. *)
Theorem sessions_listed (w : W) :
  let logins := List.filter is_login (fst (utmpx_entries w)) in
  (Forall (fun e => login_valid e = true) logins ->
   exists l us, fst (sessions w) = Value l /\ fst (logged_in_users w) = Value us /\
     l ≡ₚ session_of <$> logins /\ Forall session_ok l /\ StronglySorted (not_after session_less) l /\
     StronglySorted (fun a b => not_after text_less a b /\ a <> b) us /\
     forall u, u ∈ us <-> exists e, e ∈ logins /\ fixed_array_to_string (ut_user e) = u) /\
  (~ Forall (fun e => login_valid e = true) logins ->
   fst (sessions w) = fail errc_invalid_encoding /\ fst (logged_in_users w) = fail errc_invalid_encoding).
Proof.
  cbv zeta. unfold logged_in_users, sessions, attempt, mbind, query_bind, pure.
  destruct (utmpx_entries w) as [entries w1]. cbn [fst]. unfold parse_utmpx_entries. rewrite utmpx_loop_spec.
  set (logins := List.filter is_login entries).
  assert (forall e, e ∈ logins -> is_login e = true) as Hlogin.
  { intros e He. unfold logins in He. rewrite list_elem_of_In, filter_In in He. by destruct He. }
  split.
  - intros Hv. rewrite (proj2 (forallb_true _ _) Hv). cbn [app mbind result_bind extract_logged_in_users].
    set (l := std_sort session_less (session_of <$> logins)). exists l. eexists. split; [done|]. split; [done|].
    assert (l ≡ₚ session_of <$> logins) as Hp by apply std_sort_permutation. split; [done|].
    assert (Forall session_ok l) as Hok.
    { rewrite Hp. apply Forall_fmap. rewrite Forall_forall in Hv |- *. intros e He. apply session_of_ok; auto. }
    split; [done|]. split; [apply session_less_sorted|].
    split; [apply sorted_unique_texts|]. intros u. rewrite (proj2 (sorted_unique_texts _)), list_elem_of_fmap. split.
    + intros (s & -> & Hs). rewrite list_elem_of_In, filter_In, <- list_elem_of_In in Hs. destruct Hs as [Hs _].
      rewrite Hp in Hs. apply list_elem_of_fmap in Hs as (e & -> & He). by exists e.
    + intros (e & He & <-). exists (session_of e). split; [done|]. rewrite list_elem_of_In, filter_In, <- list_elem_of_In. split.
      * rewrite Hp. by apply list_elem_of_fmap_2.
      * pose proof (Hlogin e He) as Hl. by apply andb_true_iff in Hl as [_ Hl].
  - intros Hv. destruct (forallb _ _) eqn:E; [|done]. by apply forallb_true in E.
Qed.
End sessions.

(** ** Groups *)

Lemma narrow_loop_spec recorded acc l :
  Forall (Z.le 0) recorded -> narrow_loop recorded acc = Value l <-> Forall (fun x => x <= uint32_max) recorded /\ l = acc ++ recorded.
Proof.
  intros Hr. revert acc. induction Hr as [|x recorded Hx _ IH]; intros acc; cbn [narrow_loop].
  - rewrite app_nil_r. split; [by intros [= <-]|by intros [_ ->]].
  - unfold narrow_identifier. rewrite Forall_cons. destruct (Z.ltb_spec uint32_max x) as [Hbig|Hsmall].
    + split; [done|]. intros [[? _] _]. lia.
    + cbn [mbind result_bind]. rewrite IH, <- app_assoc. unfold wrap. rewrite Z.mod_small by (unfold uint32_max in *; lia). tauto.
Qed.

Lemma ascending_unique_spec l :
  StronglySorted Z.lt (ascending_unique l) /\ forall x, x ∈ ascending_unique l <-> x ∈ l.
Proof.
  unfold ascending_unique. split.
  - assert (StronglySorted (fun a b => not_after Z.ltb a b /\ a <> b) (std_unique (std_sort Z.ltb l))) as Hs.
    { apply std_unique_sorted; [intros a b; unfold not_after; rewrite !Z.ltb_ge; lia|].
      apply std_sort_sorted; [intros a b c|intros a b]; unfold not_after; rewrite !Z.ltb_ge; lia. }
    induction Hs as [|a l' _ IH Ha]; [constructor|]. constructor; [done|]. eapply Forall_impl; [exact Ha|].
    intros b [Hb Hne]. unfold not_after in Hb. apply Z.ltb_ge in Hb. lia.
  - intros x. by rewrite std_unique_elem, (std_sort_permutation Z.ltb l).
Qed.

Section groups.
Context {W : Type} `{PasswdKernel W} `{UserKernel W}.

Lemma yields_groups attempts size :
  yields (W := W) (groups_loop attempts size) (fun recorded => exists size w1 w2, getgroups size w1 = (inr recorded, w2)).
Proof.
  revert size. induction attempts as [|attempts IH]; intros size w recorded w'; cbn [groups_loop]; [done|].
  destruct (getgroups size w) as [[code|found] w1] eqn:E.
  - destruct (_ || _); [done|]. apply IH.
  - intros [= <- <-]. by exists size, w, w1.
Qed.

(** The supplementary groups are exactly those of the system's answer, each
    once and ascending, and fit 32 bits. *)
Theorem supplementary_groups_exact (w w' : W) (l : list Z) :
  (forall size w1 recorded w2, getgroups size w1 = (inr recorded, w2) -> Forall (Z.le 0) recorded) ->
  supplementary_groups w = (Value l, w') ->
  exists size w1 recorded w2, getgroups size w1 = (inr recorded, w2) /\
    StronglySorted Z.lt l /\ Forall (fun x => 0 <= x <= uint32_max) l /\ forall x, x ∈ l <-> x ∈ recorded.
Proof.
  intros Hunsigned. revert w l w'. unfold supplementary_groups. eapply yields_bind; [apply yields_groups|].
  intros recorded (size & w1 & w2 & Hg). pose proof (Hunsigned _ _ _ _ Hg) as Hn. apply yields_pure_bind.
  intros narrowed [Hmax ->]%narrow_loop_spec; [|done]. apply yields_ret. exists size, w1, recorded, w2. split; [done|].
  destruct (ascending_unique_spec recorded) as [Hs He]. split; [done|]. split; [|done].
  apply Forall_forall. intros x Hx%He. rewrite Forall_forall in Hn, Hmax. split; auto.
Qed.
End groups.

Definition two_logins : list utmpx := [
  Utmpx 2 (lit "reboot") (lit "~") [] [] 0 5 0;
  Utmpx 7 (lit "mia" ++ [ch_nul] ++ lit "x") (lit "pts/1") (lit "ts/1") (lit "host") 77 10 3;
  Utmpx 7 (lit "ada") (lit "tty1") [] [] 12 9 0;
  Utmpx 7 (lit "mia") (lit "pts/0") [] (lit "::1") 0 0 0].

Definition user_calls : UserKernel unit := {|
  getuid w := (1000, w); getgid w := (1000, w); getegid w := (1000, w);
  getgroups size w := (if size <? 128 then inl EINVAL else inr [27; 4; 27], w);
  getlogin_r size w := (inl ENXIO, w);
  utmpx_entries w := (two_logins, w)
|}.

Definition root_passwd : PasswdKernel unit := {| geteuid w := (0, w); getpwuid_r uid size w := (inr None, w) |}.

Lemma sessions_listed_witness :
  exists l us, fst (@sessions unit user_calls tt) = Value l /\ fst (@logged_in_users unit user_calls tt) = Value us /\
     l ≡ₚ session_of <$> List.filter is_login two_logins /\ Forall session_ok l /\ StronglySorted (not_after session_less) l /\
     StronglySorted (fun a b => not_after text_less a b /\ a <> b) us /\
     forall u, u ∈ us <-> exists e, e ∈ List.filter is_login two_logins /\ fixed_array_to_string (ut_user e) = u.
Proof. refine (proj1 (@sessions_listed unit user_calls tt) _). repeat constructor. Defined.

Lemma supplementary_groups_exact_witness :
  exists size w1 recorded w2, @getgroups unit user_calls size w1 = (inr recorded, w2) /\
    StronglySorted Z.lt [4; 27] /\ Forall (fun x => 0 <= x <= uint32_max) [4; 27] /\ forall x, x ∈ [4; 27] <-> x ∈ recorded.
Proof.
  refine (@supplementary_groups_exact unit user_calls tt tt [4; 27] _ _); [|vm_compute; reflexivity].
  intros size w1 recorded w2. cbn. destruct (size <? 128); [done|]. intros [= <- <-]. repeat constructor; lia.
Defined.
