(* ===== verification/Dns.v ===== *)
(** * The resolver configuration, and the public network queries

    [include/syscape/detail/network/dns_linux.hpp]: the lines of a
    resolv.conf file, the addresses they name and the configuration they
    record; and the functions of [include/syscape/network.hpp], each the
    backend's query, its boundary check and the conversion of the records.

    The C library's [inet_pton] is a parameter for each family: the bytes of
    the address, in network order, when the text is an address.  The kernel
    keeps its state while the theorems read it: what is stated is the snapshot
    of one configuration. *)
From S2P Require Import Prelude Result CppText Utf8 System Buffer Network NetworkStats.

(** ** Lines and words *)

Definition resolver_blank (c : ascii) : bool := is_char c " " || is_char c ch_tab.

Definition resolver_line_end (c : ascii) : bool := is_char c ch_cr || is_char c ch_lf.

Definition tokenize_resolver_line (line : text) : list text :=
  let line := drop_back resolver_line_end line in
  let offset := scan resolver_blank line 0 in
  if match line !! offset with Some c => is_char c "#" || is_char c ";" | None => false end then []
  else
    match each_token resolver_blank (fun _ => true) (drop offset line)
            (fun token (tokens : list text) => Next (R := list text) (tokens ++ [token])) [] with
    | Next (tokens, _) => tokens
    | Return tokens => tokens
    end.

(** ** Addresses *)

Definition resolver_text_size : nat := 64.
Definition IF_NAMESIZE : nat := 16.

(** What the loop over the lines holds. *)
Record resolver_state := Resolver_state {
  rs_servers : list dns_server_record;
  search_list : list text;
  domain_value : option text;
  last_was_search : bool
}.

Section resolver.
Context {W : Type} `{Kernel W} `{InterfaceApi W}.
Context (inet_pton4 inet_pton6 : text -> option (list Z)).

Definition parse_resolver_address (token : text) : result ip_address_record :=
  if empty token || (resolver_text_size <=? length token)%nat || bool_decide (ch_nul ∈ token)
  then fail errc_malformed_data
  else
    match inet_pton4 token with
    | Some bytes => Value (Ip_address_record ipv4 (take 4 bytes ++ repeat 0 12) 0)
    | None =>
        match inet_pton6 token with
        | Some bytes => Value (Ip_address_record ipv6 (take 16 bytes) 0)
        | None => fail errc_malformed_data
        end
    end.

(** The zone of a scoped literal: an interface that is gone skips the server. *)
Definition scoped_server (address : ip_address_record) (zone : text)
    : query W (option ip_address_record) :=
  if negb (is_ipv4 (ip_family address)) then
    pure (reject (IF_NAMESIZE <=? length zone)%nat errc_malformed_data);;
    index ← attempt (index_of zone);
    mret (match index with
          | Value index => Some (Ip_address_record (ip_family address) (ip_value address) index)
          | Failure _ => None
          end)
  else pure (fail errc_malformed_data).

Definition parse_resolver_server (token : text) : query W (option ip_address_record) :=
  match find "%" token 0 with
  | None => address ← pure (parse_resolver_address token); mret (Some address)
  | Some zone_start =>
      let literal := substr 0 zone_start token in
      let zone := substr_from (S zone_start) token in
      if empty zone || bool_decide (("%"%char : ascii) ∈ zone) then pure (fail errc_malformed_data)
      else
        address ← pure (parse_resolver_address literal);
        scoped_server address zone
  end.

(** ** Directives *)

(** What one line does to the state. *)
Definition resolver_directive (line : text) (s : resolver_state) : query W resolver_state :=
  match tokenize_resolver_line line with
  | [] => mret s
  | directive :: arguments =>
      if same directive (lit "nameserver") then
        match arguments with
        | [token] =>
            server ← parse_resolver_server token;
            mret (match server with
                  | Some address =>
                      Resolver_state (rs_servers s ++ [Dns_server_record address None])
                        (search_list s) (domain_value s) (last_was_search s)
                  | None => s
                  end)
        | _ => pure (fail errc_malformed_data)
        end
      else if same directive (lit "search") then
        match arguments with
        | [] => pure (fail errc_malformed_data)
        | _ => mret (Resolver_state (rs_servers s) arguments (domain_value s) true)
        end
      else if same directive (lit "domain") then
        match arguments with
        | [domain] => mret (Resolver_state (rs_servers s) (search_list s) (Some domain) false)
        | _ => pure (fail errc_malformed_data)
        end
      else mret s
  end.

Definition resolver_step (line : text) (sw : resolver_state * W)
    : step (resolver_state * W) (result dns_record * W) :=
  let '(s, w) := sw in
  match resolver_directive line s w with
  | (Value s, w) => Next (s, w)
  | (Failure e, w) => Return (Failure e, w)
  end.

(** After the last line: [has_domain] is whether a domain was assigned. *)
Definition resolver_record (s : resolver_state) : dns_record :=
  if last_was_search s then Dns_record (rs_servers s) (Some (search_list s)) None
  else
    match domain_value s with
    | Some domain => Dns_record (rs_servers s) (Some [domain]) (Some domain)
    | None => Dns_record (rs_servers s) (Some []) None
    end.

Definition no_resolver : resolver_state := Resolver_state [] [] None false.

Definition parse_resolver_conf (content : text) : query W dns_record := fun w =>
  match each_field ch_lf content resolver_step (no_resolver, w) with
  | Next (s, w) => (Value (resolver_record s), w)
  | Return r => r
  end.

Definition load_dns : query W dns_record :=
  content ← attempt (read_text_file (lit "/etc/resolv.conf") default_maximum_size);
  match content with
  | Value content => parse_resolver_conf content
  | Failure e => pure (if matches_std_errc e ENOENT then fail errc_not_found else Failure e)
  end.

(** ** network.hpp *)

(** [network::dns]; the public record has the fields of the backend's. *)
Definition dns : query W dns_record :=
  record ← attempt load_dns;
  pure (validate_dns_record record).

End resolver.

(** ** Words of a line *)

Definition comment_start (c : ascii) : bool := is_char c "#" || is_char c ";".

(** A word: no blank and no end of line in it. *)
Definition resolver_word (word : text) : Prop :=
  word <> [] /\ Forall (fun c => resolver_blank c = false /\ resolver_line_end c = false) word.

Lemma scan_tokens_front (sep : ascii -> bool) (l : text) : tokens sep (drop (scan sep l 0) l) = tokens sep l.
Proof. pose proof (scan_tokens sep l 0 ltac:(lia)) as (_ & Ht & _). by rewrite drop_0 in Ht. Qed.

Lemma fold_collect {R} (l acc : list text) :
  fold_steps (fun token (ts : list text) => Next (R := R) (ts ++ [token])) l acc = Next (acc ++ l).
Proof.
  revert acc. induction l as [|t l IH]; intros acc; simpl; [by rewrite app_nil_r|].
  by rewrite IH, <- app_assoc.
Qed.

(** The loops of the tokenizer compute the words between blanks. *)
Lemma tokenize_tokens line :
  tokenize_resolver_line line =
  let body := drop_back resolver_line_end line in
  if match body !! scan resolver_blank body 0 with Some c => comment_start c | None => false end then []
  else tokens resolver_blank body.
Proof.
  unfold tokenize_resolver_line, comment_start. cbv zeta.
  destruct (match _ !! _ with Some _ => _ | None => _ end); [done|].
  match goal with |- context [each_token ?sep ?more ?input ?body ?s] =>
    pose proof (each_token_tokens sep more input body s) as Ht;
    rewrite fold_while_true, fold_collect, scan_tokens_front in Ht;
    destruct (each_token sep more input body s) as [[ts pos]|ts] end; [by injection Ht|done].
Qed.

Lemma blank_not_end c : resolver_blank c = true -> resolver_line_end c = false.
Proof.
  unfold resolver_blank, resolver_line_end. rewrite orb_true_iff, orb_false_iff, !is_char_true, !is_char_false.
  by intros [-> | ->].
Qed.

Lemma Forall_join (P : ascii -> Prop) sep ws : P sep -> Forall (Forall P) ws -> Forall P (join sep ws).
Proof.
  intros Hs. induction 1 as [|w ws Hw Hws IH]; [constructor|].
  destruct ws as [|w' ws]; [done|]. rewrite join_cons by done. apply Forall_app. split; [done|]. by constructor.
Qed.

Lemma scan_lead (p : ascii -> bool) lead l :
  Forall (fun c => p c = true) lead -> (forall c, l !! 0%nat = Some c -> p c = false) ->
  scan p (lead ++ l) 0 = length lead.
Proof.
  intros Hlead Hl. unfold scan. rewrite drop_0. induction Hlead as [|c lead Hc _ IH]; simpl; [|rewrite Hc; simpl in *; lia].
  destruct l as [|c l]; simpl; [done|]. by rewrite Hl.
Qed.

Lemma tokens_lead (sep : ascii -> bool) lead l :
  Forall (fun c => sep c = true) lead -> tokens sep (lead ++ l) = tokens sep l.
Proof. induction 1 as [|c lead Hc _ IH]; [done|]. simpl. by rewrite Hc. Qed.

(** The words of a written line, with blanks before it and a line end, possibly
    a carriage return, after it. *)
Lemma tokenize_words lead words line_end :
  Forall (fun c => resolver_blank c = true) lead ->
  Forall resolver_word words -> words <> [] ->
  Forall (fun c => resolver_line_end c = true) line_end ->
  (forall c word rest, words = (c :: word) :: rest -> comment_start c = false) ->
  tokenize_resolver_line (lead ++ join " " words ++ line_end) = words.
Proof.
  intros Hlead Hwords Hne Hend Hstart. rewrite tokenize_tokens. cbv zeta.
  destruct words as [|[|c word] rest]; [done|by apply Forall_cons_1 in Hwords as [[? _] _]|].
  assert (tokens resolver_blank (join " " ((c :: word) :: rest)) = (c :: word) :: rest) as Htokens.
  { rewrite <- (tokens_skip resolver_blank " ") by done. rewrite <- concat_join by done.
    apply tokens_concat; [done|]. eapply Forall_impl; [exact Hwords|]. intros w [Hw Hc].
    split; [done|]. eapply Forall_impl; [exact Hc|]. by intros d [? _]. }
  assert (drop_back resolver_line_end (lead ++ join " " ((c :: word) :: rest) ++ line_end)
    = lead ++ join " " ((c :: word) :: rest)) as ->.
  { rewrite app_assoc, drop_back_app by done. apply drop_back_id. intros d Hd.
    apply last_Some_elem_of in Hd. revert d Hd. apply Forall_forall, Forall_app. split.
    - eapply Forall_impl; [exact Hlead|]. intros d Hd. by apply blank_not_end.
    - apply Forall_join; [done|]. eapply Forall_impl; [exact Hwords|]. intros w [_ Hw].
      eapply Forall_impl; [exact Hw|]. by intros d [_ ?]. }
  apply Forall_cons_1 in Hwords as [[_ Hc] _]. apply Forall_cons_1 in Hc as [[Hc _] _].
  assert (join " " ((c :: word) :: rest) !! 0%nat = Some c) as Hhead by (by destruct rest).
  rewrite scan_lead by (done || by rewrite Hhead; intros d [= <-]).
  rewrite lookup_app_r, Nat.sub_diag, Hhead by done. rewrite (Hstart c word rest) by done. rewrite <- Htokens at 2. by apply tokens_lead.
Qed.

(** ** The configuration a file records *)

(** The words of every line. *)
Definition resolver_words (content : text) : list (list text) :=
  tokenize_resolver_line <$> fields ch_lf content.

(** The arguments of a line that gives a directive. *)
Definition arguments_of (directive : text) (words : list text) : option (list text) :=
  match words with
  | word :: arguments => if same word directive then Some arguments else None
  | [] => None
  end.

(** A search list or a domain. *)
Definition list_of (words : list text) : option (list text + text) :=
  match arguments_of (lit "search") words, arguments_of (lit "domain") words with
  | Some domains, _ => Some (inl domains)
  | None, Some [domain] => Some (inr domain)
  | None, _ => None
  end.

(** The lists a choice stands for. *)
Definition chosen_list (choice : option (list text + text)) : list text :=
  match choice with Some (inl domains) => domains | Some (inr domain) => [domain] | None => [] end.

Definition chosen_domain (choice : option (list text + text)) : option text :=
  match choice with Some (inr domain) => Some domain | _ => None end.

Section specification.
Context {W : Type} `{Kernel W} `{InterfaceApi W}.
Context (inet_pton4 inet_pton6 : text -> option (list Z)).
Context (w : W) (index_quiet : forall name, quiet w (index_of name)).

(** What a server's text means in the state of the system. *)
Definition server_meaning (token : text) : result (option ip_address_record) :=
  fst (parse_resolver_server inet_pton4 inet_pton6 token w).

(** The error of a line, when it has one. *)
Definition line_fault (words : list text) : option error_code :=
  match arguments_of (lit "nameserver") words with
  | Some [token] => match server_meaning token with Failure e => Some e | Value _ => None end
  | Some _ => Some (make_error_code errc_malformed_data)
  | None =>
      match arguments_of (lit "search") words, arguments_of (lit "domain") words with
      | Some [], _ => Some (make_error_code errc_malformed_data)
      | None, Some [_] | Some _, _ | None, None => None
      | None, Some _ => Some (make_error_code errc_malformed_data)
      end
  end.

(** The server of a line. *)
Definition line_server (words : list text) : option dns_server_record :=
  match arguments_of (lit "nameserver") words with
  | Some [token] =>
      match server_meaning token with
      | Value (Some address) => Some (Dns_server_record address None)
      | _ => None
      end
  | _ => None
  end.

(** The servers of all lines, in their order, and the last list. *)
Definition recorded_configuration (lines : list (list text)) : dns_record :=
  let choice := last (omap list_of lines) in
  Dns_record (omap line_server lines) (Some (chosen_list choice)) (chosen_domain choice).

(** The first error of the lines, or their configuration. *)
Definition configuration_meaning (lines : list (list text)) : result dns_record :=
  match head (omap line_fault lines) with
  | Some e => Failure e
  | None => Value (recorded_configuration lines)
  end.

Definition state_choice (s : resolver_state) : option (list text + text) :=
  if last_was_search s then Some (inl (search_list s)) else inr <$> domain_value s.

Lemma resolver_record_choice s :
  resolver_record s = Dns_record (rs_servers s) (Some (chosen_list (state_choice s))) (chosen_domain (state_choice s)).
Proof. unfold resolver_record, state_choice. destruct (last_was_search s); [done|]. by destruct (domain_value s). Qed.

Lemma server_quiet token : quiet w (parse_resolver_server inet_pton4 inet_pton6 token).
Proof using index_quiet.
  unfold parse_resolver_server. destruct (find _ _ _); [|by apply quiet_bind; [apply quiet_pure|intros; apply quiet_ret]].
  destruct (_ || _); [apply quiet_pure|]. apply quiet_bind; [apply quiet_pure|]. intros address _.
  unfold scoped_server. destruct (negb _); [|apply quiet_pure].
  apply quiet_bind; [apply quiet_pure|]. intros _ _. apply quiet_bind; [by apply quiet_attempt|]. intros. apply quiet_ret.
Qed.

Lemma server_run token : parse_resolver_server inet_pton4 inet_pton6 token w = (server_meaning token, w).
Proof using index_quiet. rewrite <- (server_quiet token) at 2. apply surjective_pairing. Qed.

(** A line without an error adds its server and replaces the list. *)
Lemma resolver_directive_meaning line s :
  let words := tokenize_resolver_line line in
  exists s', resolver_directive inet_pton4 inet_pton6 line s w =
    (match line_fault words with Some e => Failure e | None => Value s' end, w) /\
  (line_fault words = None ->
   rs_servers s' = rs_servers s ++ option_list (line_server words) /\
   state_choice s' = match list_of words with Some c => Some c | None => state_choice s end).
Proof using index_quiet.
  cbv zeta. unfold resolver_directive, line_fault, line_server, list_of, arguments_of.
  destruct (tokenize_resolver_line line) as [|word arguments].
  { exists s. split; [done|]. by rewrite app_nil_r. }
  destruct (same word (lit "nameserver")) eqn:Hn.
  { apply same_true in Hn as ->. destruct arguments as [|token [|]];
      [by exists s| |by exists s].
    unfold mbind, query_bind. rewrite server_run. destruct (server_meaning token) as [[address|]|e]; [| |by exists s].
    - eexists. split; [done|]. intros _. by split.
    - exists s. split; [done|]. intros _. split; [by rewrite app_nil_r|done]. }
  destruct (same word (lit "search")) eqn:Hs.
  { destruct arguments; [by exists s|]. eexists. split; [done|]. intros _. split; [by rewrite app_nil_r|done]. }
  destruct (same word (lit "domain")); [|exists s; split; [done|]; intros _; by rewrite app_nil_r].
  destruct arguments as [|domain [|]]; [by exists s| |by exists s].
  eexists. split; [done|]. intros _. split; [by rewrite app_nil_r|done].
Qed.

Lemma resolver_lines lines s :
  match head (omap line_fault (tokenize_resolver_line <$> lines)) with
  | Some e => fold_steps (resolver_step inet_pton4 inet_pton6) lines (s, w) = Return (Failure e, w)
  | None => exists s',
      fold_steps (resolver_step inet_pton4 inet_pton6) lines (s, w) = Next (s', w) /\
      rs_servers s' = rs_servers s ++ omap line_server (tokenize_resolver_line <$> lines) /\
      state_choice s' = match last (omap list_of (tokenize_resolver_line <$> lines)) with
                        | Some c => Some c | None => state_choice s end
  end.
Proof using index_quiet.
  revert s. induction lines as [|line lines IH]; intros s; csimpl.
  { exists s. split; [done|]. by rewrite app_nil_r. }
  destruct (resolver_directive_meaning line s) as (s1 & Hrun & Hmeaning). rewrite Hrun.
  destruct (line_fault (tokenize_resolver_line line)) as [e|]; [done|].
  destruct (Hmeaning eq_refl) as [Hservers Hchoice]. specialize (IH s1).
  destruct (head _) as [e|]; [done|]. destruct IH as (s2 & -> & Hs2 & Hc2).
  exists s2. split; [done|]. split.
  - rewrite Hs2, Hservers, <- app_assoc. f_equal. by destruct (line_server _).
  - rewrite Hc2, Hchoice. destruct (list_of _) as [c|]; [|done]. rewrite last_cons. by destruct (last _).
Qed.

(** The loop computes the meaning of the lines. *)
Lemma parse_resolver_conf_meaning content :
  parse_resolver_conf inet_pton4 inet_pton6 content w =
  (configuration_meaning (resolver_words content), w).
Proof using index_quiet.
  unfold parse_resolver_conf, configuration_meaning, resolver_words. rewrite each_field_fields.
  pose proof (resolver_lines (fields ch_lf content) no_resolver) as Hlines.
  destruct (head _) as [e|]; [by rewrite Hlines|].
  destruct Hlines as (s & -> & Hservers & Hchoice). rewrite resolver_record_choice, Hservers, Hchoice.
  unfold recorded_configuration. simpl. by destruct (last _).
Qed.

(** ** The boundary check *)

Lemma server_meaning_valid token address :
  server_meaning token = Value (Some address) -> validate_ip_address address = Value ().
Proof using index_quiet.
  assert (forall t a, parse_resolver_address inet_pton4 inet_pton6 t = Value a -> validate_ip_address a = Value ()) as Ha.
  { intros t a. unfold parse_resolver_address. destruct (_ || _); [done|].
    destruct (inet_pton4 t) as [bytes|]; [|destruct (inet_pton6 t); [by intros [= <-]|done]].
    intros [= <-]. unfold validate_ip_address. cbn [ip_family ip_scope_id ip_value is_ipv4 bool_decide].
    apply reject_value, not_true_iff_false. intros Hb. revert Hb. apply not_true_iff_false, nonzero_byte_false.
    rewrite take_ge by done. rewrite drop_app, length_take.
    apply Forall_app. split; [rewrite drop_ge by (rewrite length_take; lia); constructor|].
    apply Forall_drop. by repeat constructor. }
  unfold server_meaning, parse_resolver_server. destruct (find _ _ _).
  - destruct (_ || _); [done|]. rewrite quiet_value by apply quiet_pure. intros (a & Hp & Hs). revert Hs.
    unfold scoped_server. destruct (is_ipv4 (ip_family a)) eqn:Hf; simpl; [done|].
    rewrite quiet_value by apply quiet_pure. intros (_ & _ & Hs). revert Hs.
    rewrite quiet_value by (by apply quiet_attempt). intros (r & _ & [= Hr]). destruct r as [index|]; [|done].
    injection Hr as <-. unfold validate_ip_address. simpl. rewrite Hf. by destruct (ip_family a).
  - rewrite quiet_value by apply quiet_pure. intros (a & Hp & [= <-]). by apply (Ha token).
Qed.

(** Whatever the file records, only the text of a domain can be refused. *)
Lemma validate_recorded lines :
  validate_dns_record (Value (recorded_configuration lines)) =
  (for_each validate_domain (chosen_list (last (omap list_of lines)));;
   Value (recorded_configuration lines)).
Proof using index_quiet.
  unfold validate_dns_record, recorded_configuration. cbn [servers search_domains domain_name].
  assert (for_each validate_dns_server (omap line_server lines) = Value ()) as Hs.
  { apply for_each_value, Forall_forall. intros s (words & _ & Hw)%list_elem_of_omap. revert Hw. unfold line_server.
    destruct (arguments_of _ _) as [[|token [|]]|]; [done| |done|done].
    destruct (server_meaning token) as [[address|]|] eqn:Ht; [|done|done]. intros [= <-].
    unfold validate_dns_server. simpl. by rewrite (server_meaning_valid token address Ht). }
  simpl. rewrite Hs. simpl. destruct (last _) as [[domains|domain]|]; simpl; [by destruct (for_each _ _) as [[]|]| |done].
  by destruct (validate_domain domain) as [[]|].
Qed.

End specification.

(** C38: the resolver query reads /etc/resolv.conf whole or fails.  A file
    that does not exist is not found, another failure of the read is the
    query's.  Otherwise the first line with an error gives the query's error:
    a nameserver line without exactly one well-formed address, a search line
    without a domain, a domain line without exactly one.  When there is none,
    the servers are those of the nameserver lines in their order, without the
    ones scoped to an interface that is gone; the search list and the local
    domain are those of the last line that is a search or a domain line,
    whichever it is; and the boundary check refuses nothing but the text of
    such a domain. *)
Theorem resolver_configuration_read {W : Type} `{Kernel W} `{InterfaceApi W}
    (inet_pton4 inet_pton6 : text -> option (list Z)) (w : W)
    (index_quiet : forall name, quiet w (index_of name)) (file : result text)
    (read : read_text_file (lit "/etc/resolv.conf") default_maximum_size w = (file, w)) :
  dns inet_pton4 inet_pton6 w =
  (match file with
   | Value content =>
       let lines := resolver_words content in
       match head (omap (line_fault inet_pton4 inet_pton6 w) lines) with
       | Some e => Failure e
       | None =>
           let choice := last (omap list_of lines) in
           for_each validate_domain (chosen_list choice);;
           Value (Dns_record (omap (line_server inet_pton4 inet_pton6 w) lines)
                    (Some (chosen_list choice)) (chosen_domain choice))
       end
   | Failure e => if matches_std_errc e ENOENT then fail errc_not_found else Failure e
   end, w).
Proof.
  unfold dns, load_dns. unfold mbind, query_bind, attempt. rewrite read. destruct file as [content|e].
  - rewrite parse_resolver_conf_meaning by done. unfold pure, configuration_meaning. cbv zeta. f_equal.
    destruct (head _) as [e|]; [done|]. by rewrite validate_recorded.
  - unfold pure. by destruct (matches_std_errc e ENOENT).
Qed.

(** Interface two is up. *)
Definition wlan_api : InterfaceApi unit := {|
  index_of name := pure (if same name (lit "wlan0") then Value 2 else fail_native ENXIO);
  mtu_of _ := mret 1500
|}.

Lemma resolver_configuration_read_witness :
  let content := (lit "search lan example.org" ++ [ch_lf] ++ lit "# stub" ++ [ch_lf] ++
    lit "nameserver 192.0.2.53" ++ [ch_lf] ++ lit " nameserver fe80::1%wlan0" ++ [ch_cr; ch_lf] ++
    lit "options edns0" ++ [ch_lf] ++ lit "nameserver fe80::1%gone0" ++ [ch_lf] ++ lit "domain home.arpa") in
  let inet_pton4 := fun t => if same t (lit "192.0.2.53") then Some [192; 0; 2; 53] else None in
  let inet_pton6 := fun t => if same t (lit "fe80::1") then Some (254 :: 128 :: repeat 0 13 ++ [1]) else None in
  let files : Kernel unit := {|
    open_file path w := (if same path (lit "/etc/resolv.conf") then inr [Read_bytes content] else inl ENOENT, w);
    list_directory path w := (inl ENOENT, w);
    sysconf name w := ((0, EINVAL), w) |} in
  @dns unit files wlan_api inet_pton4 inet_pton6 tt =
  (Value (Dns_record
     [Dns_server_record (Ip_address_record ipv4 ([192; 0; 2; 53] ++ repeat 0 12) 0) None;
      Dns_server_record (Ip_address_record ipv6 (254 :: 128 :: repeat 0 13 ++ [1]) 2) None]
     (Some [lit "home.arpa"]) (Some (lit "home.arpa"))), tt).
Proof.
  intros content inet_pton4 inet_pton6 files.
  rewrite (@resolver_configuration_read unit files wlan_api inet_pton4 inet_pton6 tt) with (file := Value content).
  - vm_compute. reflexivity.
  - intros name. done.
  - vm_compute. reflexivity.
Defined.
