(* ===== verification/NetworkPublic.v ===== *)
(** * The public network queries

    [include/syscape/network.hpp]: each function is the query of the selected
    backend, its boundary check and the copy of the records.  The backend is
    an interface, the class [NetworkBackend], with the Linux functions of
    [NetworkStats.v] and [Dns.v] as an instance whose remaining queries are
    arguments; a public record has the fields of the backend's. *)
From S2P Require Import Prelude Result CppText Utf8 System Buffer Network NetworkStats Dns.

Class NetworkBackend (W : Type) := {
  backend_interfaces : query W (list interface_record);
  backend_routes : query W (list route_record);
  backend_dns : query W dns_record;
  backend_statistics : query W (list statistics_record);
  backend_statistics_by_name : text -> query W statistics_record;
  backend_statistics_by_index : Z -> query W statistics_record
}.

(** An explicit gateway of a default route. *)
Record gateway_entry := Gateway_entry {
  gateway_address : ip_address_record;
  gateway_interface_index : Z;
  gateway_metric : option Z
}.

#[global] Instance gateway_entry_eq_dec : EqDecision gateway_entry.
Proof. assert (EqDecision ip_address_record) by solve_decision. solve_decision. Defined.

Definition gateway_of (route : route_record) : option gateway_entry :=
  match next_hop route with
  | Some hop =>
      if prefix_length route =? 0 then Some (Gateway_entry hop (interface_index route) (metric route)) else None
  | None => None
  end.

Section queries.
Context {W : Type} `{NetworkBackend W}.

Definition interfaces : query W (list interface_record) :=
  records ← attempt backend_interfaces; pure (validate_interface_records records).

Definition routes : query W (list route_record) :=
  records ← attempt backend_routes; pure (validate_route_records records).

Definition default_gateways : query W (list gateway_entry) :=
  listed ← routes; mret (omap gateway_of listed).

Definition public_dns : query W dns_record :=
  record ← attempt backend_dns; pure (validate_dns_record record).

Definition statistics : query W (list statistics_record) :=
  records ← attempt backend_statistics; pure (validate_statistics_records records).

Definition statistics_of_name (interface_name : text) : query W statistics_record :=
  pure (reject (empty interface_name || bool_decide (ch_nul ∈ interface_name)) errc_invalid_argument);;
  pure (reject (negb (is_valid_utf8 interface_name)) errc_invalid_encoding);;
  record ← attempt (backend_statistics_by_name interface_name);
  pure (validate_statistics_record record).

Definition statistics_of_index (index : Z) : query W statistics_record :=
  pure (reject (index =? 0) errc_invalid_argument);;
  record ← attempt (backend_statistics_by_index index);
  pure (validate_statistics_record record).

End queries.

(** The Linux backend: the two queries that end in socket calls, and
    [if_indextoname], are arguments. *)
Definition linux_network {W : Type} `{Kernel W} `{InterfaceApi W} (inet_pton4 inet_pton6 : text -> option (list Z))
    (if_indextoname : Z -> W -> option text * W) (interfaces : query W (list interface_record))
    (routes : query W (list route_record)) : NetworkBackend W := {|
  backend_interfaces := interfaces;
  backend_routes := routes;
  backend_dns := load_dns inet_pton4 inet_pton6;
  backend_statistics := interface_statistics;
  backend_statistics_by_name := statistics_by_name;
  backend_statistics_by_index := statistics_by_index if_indextoname
|}.

(** ** Queries and checks *)

Lemma attempt_check {W A} (m : query W A) (check : result A -> result A) (w : W) :
  (r ← attempt m; pure (check r)) w = (check (fst (m w)), snd (m w)).
Proof. unfold mbind, query_bind, attempt, pure. by destruct (m w). Qed.

(** The public resolver query over the Linux backend is that of [Dns.v]. *)
Lemma linux_dns {W : Type} `{Kernel W} `{InterfaceApi W} (inet_pton4 inet_pton6 : text -> option (list Z))
    (if_indextoname : Z -> W -> option text * W) (interfaces : query W (list interface_record))
    (routes : query W (list route_record)) :
  @public_dns W (linux_network inet_pton4 inet_pton6 if_indextoname interfaces routes) = dns inet_pton4 inet_pton6.
Proof. done. Qed.

(** A default route goes to every address. *)
Lemma default_route_unspecified r :
  address_typed (destination r) -> route_ok r -> prefix_length r = 0 -> is_unspecified (destination r) = true.
Proof.
  intros Ht (_ & _ & _ & Hbits & _) Hp. destruct (significant_bytes _ Ht) as (Hl & Hb & Hsize). unfold is_unspecified.
  apply negb_true_iff, nonzero_byte_false. change (Forall (fun b => b = 0) (significant (destination r))).
  rewrite Hp, Z.sub_0_r, Z.mod_small in Hbits.
  - by apply be_value_zero in Hbits.
  - pose proof (be_value_bound _ Hb) as Hbound. by rewrite Hl, Hsize in Hbound.
Qed.

(** Whatever routes the backend reports, the default gateways are the explicit
    next hops of its routes to every address, in their order, when all routes
    are well formed, and otherwise the query fails. *)
Lemma default_gateways_exact {W : Type} `{NetworkBackend W} (w w' : W) (records : list route_record) :
  Forall (fun r => address_typed (destination r) /\ 0 <= prefix_length r) records ->
  backend_routes w = (Value records, w') ->
  (Forall route_ok records /\ default_gateways w = (Value (omap gateway_of records), w') /\
   Forall (fun g => exists r hop, r ∈ records /\ is_unspecified (destination r) = true /\ next_hop r = Some hop /\
     g = Gateway_entry hop (interface_index r) (metric r) /\ ip_family hop = ip_family (destination r) /\
     gateway_interface_index g <> 0) (omap gateway_of records)) \/
  (~ Forall route_ok records /\ exists e, default_gateways w = (Failure e, w')).
Proof.
  intros Htyped Hroutes.
  assert (routes w = (validate_route_records (Value records), w')) as Hrun
    by (unfold routes; rewrite (attempt_check (W := W)), Hroutes; done).
  unfold default_gateways, mbind, query_bind. rewrite Hrun.
  pose proof (fun out => validate_route_records_spec records out Htyped) as Hspec.
  destruct (validate_route_records (Value records)) as [out|e].
  - destruct (proj1 (Hspec out) eq_refl) as [-> Hok]. left. split; [done|]. split; [done|].
    apply Forall_forall. intros g (r & Hr & Hg)%list_elem_of_omap. unfold gateway_of in Hg.
    destruct (next_hop r) as [hop|] eqn:Hhop; [|done]. destruct (Z.eqb_spec (prefix_length r) 0) as [Hp|]; [|done].
    injection Hg as <-. rewrite Forall_forall in Hok, Htyped. pose proof (Hok r Hr) as Hrok.
    destruct (Htyped r Hr) as [Ht _]. exists r, hop.
    split; [done|]. split; [by apply default_route_unspecified|]. split; [done|]. split; [done|].
    destruct Hrok as (_ & Hi & _ & _ & Hnext). rewrite Hhop in Hnext. by destruct Hnext as [_ ?].
  - right. split; [|by exists e]. intros Hok. discriminate (proj2 (Hspec records) (conj eq_refl Hok)).
Qed.
