(* ===== verification/NetworkLinux.v ===== *)
(** * The system calls of the Linux network backend

    The parts of [include/syscape/detail/network/posix.hpp] and
    [include/syscape/detail/network/routes_linux.hpp] that call the system:
    the native interface of the conversion, [interfaces] and [routes], over a
    class of the calls.  The loops that repeat an interrupted [send] or [ioctl]
    are represented by the outcome of their last call; the messages [recvmsg]
    delivers are the list that the receive loop of [NetworkRoutes.v] reads. *)
From S2P Require Import Prelude Result CppText Utf8 System Buffer Network NetworkStats NetworkRoutes NetworkRoutesFormat Dns NetworkPublic.

Definition IFNAMSIZ : nat := 16.

(** Each call: its [errno] or its result.  [if_nametoindex] leaves an index
    and [errno], the [ioctl] its return value, [errno] and the recorded MTU;
    [bind] returns zero or leaves [errno]. *)
Class NetworkCalls (W : Type) := {
  if_nametoindex : text -> W -> (Z * Z) * W;
  datagram_socket : W -> (Z + Z) * W;
  ioctl_mtu : Z -> text -> W -> (Z * Z * Z) * W;
  getifaddrs : W -> (Z + list ifaddrs_row) * W;
  netlink_socket : W -> (Z + Z) * W;
  netlink_bind : Z -> W -> (Z + unit) * W;
  netlink_send : Z -> list Z -> W -> (Z + Z) * W;
  netlink_receive : Z -> W -> list received * W
}.

(** The header and the message of the request, with the byte order of the
    machine: a dump of the routes of every family. *)
Definition route_request (big_endian : bool) : list Z :=
  uint_bytes big_endian 4 28 ++ uint_bytes big_endian 2 26 ++ uint_bytes big_endian 2 0x301 ++
  uint_bytes big_endian 4 1 ++ uint_bytes big_endian 4 0 ++ repeat 0 12.

Section calls.
Context {W : Type} `{NetworkCalls W}.

Definition native_index (name : text) : query W Z := fun w =>
  let '((resolved, errno), w) := if_nametoindex name w in (native_index_of resolved errno, w).

Definition read_mtu (descriptor : Z) (name : text) : query W Z := fun w =>
  let '((outcome, errno, mtu), w) := ioctl_mtu descriptor name w in (mtu_result outcome errno mtu, w).

Definition native_mtu (name : text) : query W Z := fun w =>
  if (IFNAMSIZ <=? length name)%nat then (fail errc_malformed_data, w)
  else
    match datagram_socket w with
    | (inl errno, w) => (fail_native errno, w)
    | (inr descriptor, w) => read_mtu descriptor name w
    end.

Definition native_interface_api : InterfaceApi W := {|
  index_of := native_index;
  mtu_of := native_mtu
|}.

Definition linux_interfaces : query W (list interface_record) := fun w =>
  match getifaddrs w with
  | (inl errno, w) => (fail_native errno, w)
  | (inr rows, w) => @convert_ifaddrs W native_interface_api rows w
  end.

(** [None] is a receive loop that the system stops answering. *)
Definition linux_routes (big_endian : bool) (w : W) : option (result (list route_record) * W) :=
  match netlink_socket w with
  | (inl errno, w) => Some (fail_native errno, w)
  | (inr descriptor, w) =>
      match netlink_bind descriptor w with
      | (inl errno, w) => Some (fail_native errno, w)
      | (inr _, w) =>
          match netlink_send descriptor (route_request big_endian) w with
          | (inl errno, w) => Some (fail_native errno, w)
          | (inr sent, w) =>
              if negb (sent =? Z.of_nat (length (route_request big_endian))) then Some (fail errc_io_error, w)
              else
                let '(messages, w) := netlink_receive descriptor w in
                match receive_loop big_endian messages (Linux_route_dump_state [] false) with
                | Some routes => Some (routes, w)
                | None => None
                end
          end
      end
  end.

End calls.

(** ** Interfaces *)

Section facts.
Context {W : Type} `{NetworkCalls W}.

(** An index that fits its type stays nonzero. *)
Lemma native_index_nonzero :
  (forall name w resolved errno w', if_nametoindex name w = ((resolved, errno), w') -> 0 <= resolved < 2 ^ 32) ->
  forall name, yields (native_index name) (fun i => i <> 0).
Proof.
  intros Hfit name w v w'. unfold native_index. destruct (if_nametoindex name w) as [[resolved errno] w1] eqn:E.
  specialize (Hfit name w resolved errno w1 E). unfold native_index_of.
  destruct (Z.eqb_spec resolved 0); [done|]. intros [= <- _]. unfold wrap. by rewrite Z.mod_small by lia.
Qed.

(** With nonempty UTF-8 names the public query returns what the backend
    converts: one record for each name, in the order of first sight. *)
Lemma linux_interfaces_public (w w1 : W) (rows : list ifaddrs_row) (routes_query : query W (list route_record))
    (dns_query : query W dns_record) (all : query W (list statistics_record))
    (by_name : text -> query W statistics_record) (by_index : Z -> query W statistics_record) :
  (forall name w resolved errno w', if_nametoindex name w = ((resolved, errno), w') -> 0 <= resolved < 2 ^ 32) ->
  Forall (fun name => name <> [] /\ is_valid_utf8 name = true) (row_names rows) ->
  getifaddrs w = (inr rows, w1) ->
  @interfaces W (Build_NetworkBackend W linux_interfaces routes_query dns_query all by_name by_index) w = linux_interfaces w /\
  forall records w', linux_interfaces w = (Value records, w') -> if_name <$> records = first_sight (row_names rows).
Proof.
  intros Hfit Hnames Hrows. unfold interfaces. rewrite (attempt_check (W := W)). cbn [backend_interfaces].
  unfold linux_interfaces. rewrite Hrows.
  pose proof (@convert_ifaddrs_valid W native_interface_api (native_index_nonzero Hfit) rows w1) as Hvalid.
  destruct (@convert_ifaddrs W native_interface_api rows w1) as [[records|e] w2] eqn:E; cbn [fst snd].
  - destruct (Hvalid w2 records Hnames eq_refl) as [Hn Hv]. rewrite Hv. split; [done|].
    by intros records' w' [= <- _].
  - by split.
Qed.

(** ** Routes *)

(** When the calls succeed and the kernel dumps routes, the query returns one
    record for each next hop, and the default gateways are those of the routes
    to every address. *)
Lemma linux_routes_dump (big_endian : bool) (w w1 w2 w3 w4 : W) (descriptor : Z)
    (initial : list (list wire_message)) (last : list wire_message) (rest : list received) :
  netlink_socket w = (inr descriptor, w1) -> netlink_bind descriptor w1 = (inr (), w2) ->
  netlink_send descriptor (route_request big_endian) w2 = (inr 28, w3) ->
  netlink_receive descriptor w3 =
    (((fun d => Received (encode_datagram big_endian 1 d) false 0) <$> initial ++ [last]) ++ rest, w4) ->
  forallb (datagram_fits big_endian 1) (initial ++ [last]) = true ->
  existsb ends_dump (mjoin initial) = false -> existsb ends_dump last = true ->
  linux_routes big_endian w = Some (Value (mjoin (initial ++ [last]) ≫= routes_of_message), w4).
Proof.
  intros Hsocket Hbind Hsend Hreceive Hfit Hi Hl. unfold linux_routes. rewrite Hsocket, Hbind, Hsend.
  assert (length (route_request big_endian) = 28%nat) as -> by (by destruct big_endian).
  rewrite Hreceive. by rewrite receive_dump.
Qed.

End facts.
