(* ===== verification/RedoxProcesses.v ===== *)
(** * The process list of Redox OS

    [include/syscape/detail/process_list/redox.hpp]: the table of contexts
    the kernel prints at /scheme/sys/context, one line for each thread, the
    merge of the threads of a process, and the queries over it.

    The reader of the file is a parameter of the queries, as in the source; the
    native one is [read_context_file].  A view with a position is modelled by
    what is left of it; the loops over lines and tokens are those of
    [CppText.v]. *)
From S2P Require Import Prelude Result CppText System Process ProcessList.

(** ** Characters, numbers and quantities *)

Definition is_digit (c : ascii) : bool := (48 <=? code c) && (code c <=? 57).

Definition is_space (c : ascii) : bool := is_char c " " || is_char c ch_tab.

Fixpoint uint_loop (s : text) (value : Z) : option Z :=
  match s with
  | [] => Some value
  | c :: s =>
      if negb (is_digit c) then None
      else
        let digit := code c - 48 in
        if (uint32_max - digit) / 10 <? value then None
        else uint_loop s (wrap 32 (value * 10 + digit))
  end.

Definition parse_uint (s : text) : option Z := if empty s then None else uint_loop s 0.

Definition parse_pid (s : text) : option Z := parse_uint s.

Fixpoint memory_val_loop (s : text) (first saw_dot : bool) : bool :=
  match s with
  | [] => true
  | c :: s =>
      if is_char c "." then
        if saw_dot || first || empty s then false else memory_val_loop s false true
      else if negb (is_digit c) then false
      else memory_val_loop s false saw_dot
  end.

Definition is_valid_memory_val (s : text) : bool :=
  if empty s then false else memory_val_loop s true false.

(** The first word after blanks, and what follows it. *)
Definition read_token (rest : text) : text * text :=
  let rest := drop_front is_space rest in
  let size := prefix_length (fun c => negb (is_space c)) rest in
  (take size rest, drop size rest).

(** The unit at the front: one or two characters. *)
Definition memory_unit (rest : text) : option (text * text) :=
  match rest with
  | c :: rest' =>
      if is_char c "B" then Some ([c], rest')
      else if is_char c "K" || is_char c "M" || is_char c "G" || is_char c "T" || is_char c "P" then
        match rest' with
        | d :: rest'' => if is_char d "B" then Some ([c; d], rest'') else None
        | [] => None
        end
      else None
  | [] => None
  end.

(** The quantity, its unit and what follows. *)
Definition parse_memory_field (rest : text) (is_private : bool) : option (text * text * text) :=
  if empty (drop_front is_space rest) then None
  else
    let '(val, rest) := read_token rest in
    if negb (is_valid_memory_val val) then None
    else
      match memory_unit (drop_front is_space rest) with
      | None => None
      | Some (unit, rest) =>
          if is_private &&
             match rest with next_c :: _ => negb (is_space next_c) && negb (is_digit next_c) | [] => false end
          then None
          else Some (val, unit, rest)
      end.

Definition process_state_priority (s : process_state) : Z :=
  match s with
  | running => 4
  | sleeping => 3
  | stopped => 2
  | unknown => 1
  | zombie => 0
  end.

(** ** The header *)

Fixpoint header_words (names : list text) (rest : text) : bool :=
  match names with
  | [] => empty (fst (read_token rest))
  | name :: names =>
      let '(token, rest) := read_token rest in
      same token name && header_words names rest
  end.

Definition is_header_line (l : text) : bool :=
  header_words [lit "PID"; lit "EUID"; lit "EGID"; lit "STAT"; lit "CPU"; lit "AFFINITY"; lit "TIME";
                lit "PRIVATE"; lit "SHARED"; lit "NAME"] l.

(** ** One line of the table *)

(** The state two or three characters stand for. *)
Definition context_state (stat_tok : text) : option process_state :=
  match stat_tok with
  | mem_cat :: sched_stat :: more =>
      if negb (is_char mem_cat "K") && negb (is_char mem_cat "U") && negb (is_char mem_cat "R") then None
      else if negb (is_char sched_stat "R") && negb (is_char sched_stat "S") &&
              negb (is_char sched_stat "B") && negb (is_char sched_stat "Z") then None
      else
        match more with
        | [] =>
            Some (if is_char sched_stat "R" then running
                  else if is_char sched_stat "S" || is_char sched_stat "B" then sleeping
                  else if is_char sched_stat "Z" then zombie else unknown)
        | [plus] => if is_char plus "+" then Some running else None
        | _ => None
        end
  | _ => None
  end.

Definition context_cpu (cpu_tok : text) : bool :=
  if empty cpu_tok then false else if same cpu_tok (lit "?") then true else forallb is_digit cpu_tok.

(** [rem[i]] where the source has compared [i] with the size. *)
Definition at_digit (rem : text) (i : nat) : bool :=
  match rem !! i with Some c => is_digit c | None => false end.

Definition at_char (rem : text) (i : nat) (d : ascii) : bool :=
  match rem !! i with Some c => is_char c d | None => false end.

(** The affinity and the time, which may abut: what follows the time. *)
Definition affinity_and_time (rem : text) : option text :=
  match find ":" rem 0 with
  | None => None
  | Some colon1 =>
      if (colon1 <? 2)%nat then None
      else if negb (at_digit rem (colon1 - 1)) || negb (at_digit rem (colon1 - 2)) then None
      else if (length rem <=? colon1 + 8)%nat then None
      else if negb (at_digit rem (colon1 + 1)) || negb (at_digit rem (colon1 + 2)) ||
              negb (at_char rem (colon1 + 3) ":") || negb (at_digit rem (colon1 + 4)) ||
              negb (at_digit rem (colon1 + 5)) || negb (at_char rem (colon1 + 6) ".") ||
              negb (at_digit rem (colon1 + 7)) || negb (at_digit rem (colon1 + 8)) then None
      else
        match rem !! (colon1 + 9)%nat with
        | None => None
        | Some next_c =>
            if negb (is_space next_c) && negb (is_digit next_c) then None
            else if empty (drop_back is_space (substr 0 (colon1 - 2) rem)) then None
            else Some (substr_from (colon1 + 9) rem)
        end
  end.

(** An entry that records a process and a state. *)
Definition context_entry (pid : Z) (state : process_state) : process_entry :=
  Process_entry pid None None None None None None None None state None None None None None None None.

Definition row_value {A} (o : option A) : result A :=
  match o with Some v => Value v | None => fail errc_malformed_data end.

Definition context_row (line : text) : result process_entry :=
  let '(pid_tok, rest) := read_token line in
  pid ← row_value (parse_pid pid_tok);
  let '(euid_tok, rest) := read_token rest in
  _ ← row_value (parse_uint euid_tok);
  let '(egid_tok, rest) := read_token rest in
  _ ← row_value (parse_uint egid_tok);
  let '(stat_tok, rest) := read_token rest in
  state ← row_value (context_state stat_tok);
  let '(cpu_tok, rest) := read_token rest in
  reject (negb (context_cpu cpu_tok)) errc_malformed_data;;
  let rem := drop_front is_space rest in
  reject (empty rem) errc_malformed_data;;
  rest ← row_value (affinity_and_time rem);
  private ← row_value (parse_memory_field rest true);
  _ ← row_value (parse_memory_field (snd private) false);
  Value (context_entry pid state).

(** ** The table *)

Definition trim_row (line : text) : text :=
  drop_front is_space (drop_back (fun c => is_char c ch_cr || is_space c) line).

(** The state: whether the header was seen, and the entries. *)
Definition context_step (line : text) (s : bool * list process_entry)
    : step (bool * list process_entry) (result (list process_entry)) :=
  let line := trim_row line in
  let '(saw_header, raw_entries) := s in
  match line with
  | [] => Next s
  | front :: _ =>
      if is_char front "#" then Next s
      else if negb saw_header then
        if negb (is_header_line line) then Return (fail errc_malformed_data) else Next (true, raw_entries)
      else entry <-? context_row line; Next (saw_header, raw_entries ++ [entry])
  end.

Definition with_state (state : process_state) (e : process_entry) : process_entry :=
  Process_entry (pe_pid e) (pe_ppid e) (pe_uid e) (pe_gid e) (pe_user_name e) (pe_name e)
    (pe_executable_path e) (pe_command_line e) (pe_working_directory e) state (pe_user_cpu_time e)
    (pe_kernel_cpu_time e) (pe_start_time e) (pe_resident_memory_bytes e) (pe_virtual_memory_bytes e)
    (pe_thread_count e) (pe_priority e).

(** The merge with the entry before, which [list.back()] is. *)
Definition merge_entry (l : list process_entry) (entry : process_entry) : list process_entry :=
  match last l with
  | None => [entry]
  | Some back =>
      if negb (pe_pid back =? pe_pid entry) then l ++ [entry]
      else if process_state_priority (pe_state back) <? process_state_priority (pe_state entry)
      then removelast l ++ [with_state (pe_state entry) back]
      else l
  end.

Definition parse_sys_context (content : text) : result (list process_entry) :=
  match each_field ch_lf content context_step (false, []) with
  | Return r => r
  | Next (saw_header, raw_entries) =>
      if negb saw_header || bool_decide (raw_entries = []) then fail errc_malformed_data
      else
        Value (foldl merge_entry []
                 (std_sort (fun a b => pe_pid a <? pe_pid b) raw_entries))
  end.

(** ** The reader and the queries *)

Definition context_file_limit : Z := 1048576.

(** What a failed call is reported as. *)
Definition context_denied (errno : Z) : error_code :=
  if (errno =? EACCES) || (errno =? EPERM) then make_error_code errc_permission_denied else native_error errno.

Fixpoint context_read_loop (events : list read_event) (content : text) : result text :=
  match events with
  | [] | Read_bytes [] :: _ => Value content
  | Read_bytes chunk :: events =>
      if context_file_limit <? Z.of_nat (length content) + Z.of_nat (length chunk)
      then fail errc_value_too_large else context_read_loop events (content ++ chunk)
  | Read_error errno :: events =>
      if errno =? EINTR then context_read_loop events content else Failure (context_denied errno)
  end.

Section queries.
Context {W : Type}.

(** The calls of [open] until one is not interrupted; [None] when [fuel] calls
    were. *)
Fixpoint read_context_file `{Kernel W} (fuel : nat) : partial W text := fun w =>
  match fuel with
  | O => None
  | S fuel =>
      match open_file (lit "/scheme/sys/context") w with
      | (inr events, w) => Some (context_read_loop events [], w)
      | (inl errno, w) =>
          if errno =? EINTR then read_context_file fuel w
          else Some (if errno =? ENOENT then fail errc_not_supported else Failure (context_denied errno), w)
      end
  end.

Context (reader : query W text).

Definition context_processes : query W (list process_entry) :=
  content ← reader;
  parsed ← pure (parse_sys_context content);
  mret (sort_processes parsed).

Definition context_process_count : query W Z :=
  procs ← context_processes;
  mret (wrap 32 (Z.of_nat (length procs))).

Definition find_context_process (pid : Z) : query W process_entry :=
  if pid =? 0 then pure (fail errc_not_found)
  else
    procs ← context_processes;
    pure (match list_find (fun entry => pe_pid entry = pid) procs with
          | Some (_, entry) => Value entry
          | None => fail errc_not_found
          end).

End queries.

(** ** A table as the kernel prints it *)

Record context_row_data := Context_row_data {
  row_pid : Z;
  row_euid : Z;
  row_egid : Z;
  row_category : ascii;
  row_status : ascii;
  row_on_cpu : bool;
  row_cpu : option Z;
  row_affinity : text;
  row_hours : text;
  row_time : Z * Z * Z;
  row_private : text * text;
  row_shared : text * text;
  row_name : text
}.

(** The blanks between the columns. *)
Record row_layout := Row_layout {
  after_pid : text;
  after_euid : text;
  after_egid : text;
  after_stat : text;
  after_cpu : text;
  after_affinity : text;
  after_time : text;
  after_private : text;
  after_shared : text
}.

Definition blanks (l : text) : Prop := Forall (fun c => is_space c = true) l.

Definition two_digits (v : Z) : text := [digit_char (v / 10); digit_char (v mod 10)].

Definition quantity_text (q : text * text) : text := fst q ++ [" "%char] ++ snd q.

Definition time_text (hours : text) (t : Z * Z * Z) : text :=
  let '(minutes, seconds, hundredths) := t in
  hours ++ [":"%char] ++ two_digits minutes ++ [":"%char] ++ two_digits seconds ++ ["."%char] ++ two_digits hundredths.

Definition row_text (y : row_layout) (r : context_row_data) : text :=
  to_decimal (row_pid r) ++ after_pid y ++ to_decimal (row_euid r) ++ after_euid y ++
  to_decimal (row_egid r) ++ after_egid y ++
  [row_category r; row_status r] ++ (if row_on_cpu r then ["+"%char] else []) ++ after_stat y ++
  match row_cpu r with Some cpu => to_decimal cpu | None => lit "?" end ++ after_cpu y ++
  row_affinity r ++ after_affinity y ++ time_text (row_hours r) (row_time r) ++ after_time y ++
  quantity_text (row_private r) ++ after_private y ++ quantity_text (row_shared r) ++ after_shared y ++
  row_name r.

(** A quantity: digits, possibly a point and digits after it, and a unit. *)
Definition quantity_ok (q : text * text) : Prop :=
  is_valid_memory_val (fst q) = true /\
  snd q ∈ [lit "B"; lit "KB"; lit "MB"; lit "GB"; lit "TB"; lit "PB"].

(** What the kernel writes: the identifiers fit, each of the first columns is
    followed by a blank, and the affinity has no blank at an end and no colon.
    The affinity may abut the time, the time the private memory, and that the
    shared one. *)
Definition row_ok (y : row_layout) (r : context_row_data) : Prop :=
  0 <= row_pid r <= uint32_max /\ 0 <= row_euid r <= uint32_max /\ 0 <= row_egid r <= uint32_max /\
  row_category r ∈ ["K"%char; "U"%char; "R"%char] /\ row_status r ∈ ["R"%char; "S"%char; "B"%char; "Z"%char] /\
  match row_cpu r with Some cpu => 0 <= cpu | None => True end /\
  row_affinity r <> [] /\ trimmed is_space (row_affinity r) /\
  (":"%char ∉ row_affinity r) /\ (ch_lf ∉ row_affinity r) /\
  (2 <= length (row_hours r))%nat /\ Forall (fun c => is_digit c = true) (row_hours r) /\
  (let '(minutes, seconds, hundredths) := row_time r in
   0 <= minutes < 100 /\ 0 <= seconds < 100 /\ 0 <= hundredths < 100) /\
  quantity_ok (row_private r) /\ quantity_ok (row_shared r) /\ (ch_lf ∉ row_name r) /\
  Forall (fun l => blanks l /\ l <> []) [after_pid y; after_euid y; after_egid y; after_stat y; after_cpu y] /\
  Forall blanks [after_affinity y; after_time y; after_private y; after_shared y].

(** The state of a row. *)
Definition row_state (r : context_row_data) : process_state :=
  if row_on_cpu r then running
  else if is_char (row_status r) "R" then running
  else if is_char (row_status r) "Z" then zombie else sleeping.

Definition table_header : text :=
  lit "PID   EUID  EGID  STAT  CPU   AFFINITY   TIME        PRIVATE SHARED  NAME".

Definition table_text (rows : list (row_layout * context_row_data)) : text :=
  concat ((fun line => line ++ [ch_lf]) <$> (table_header :: ((fun p => row_text (fst p) (snd p)) <$> rows))).

(** ** Words and numbers *)

Lemma is_digit_true c : is_digit c = true <-> 48 <= code c <= 57.
Proof. unfold is_digit. rewrite andb_true_iff, !Z.leb_le. lia. Qed.

Lemma is_digit_decimal c : is_digit c = is_digit_in 10 c.
Proof. apply eq_true_iff_eq. by rewrite is_digit_true, digit_code. Qed.

Lemma digit_not_space c : is_digit c = true -> is_space c = false.
Proof.
  rewrite is_digit_true. intros Hc. unfold is_space. apply orb_false_iff. rewrite !is_char_false.
  split; intros ->; vm_compute in Hc; intuition congruence.
Qed.

Lemma digit_char_digit d : 0 <= d < 10 -> is_digit (digit_char d) = true.
Proof. intros Hd. apply is_digit_true. by apply digit_char_range. Qed.

Lemma decimal_chars n : 0 <= n -> Forall (fun c => is_digit c = true) (to_decimal n).
Proof. intros Hn. eapply Forall_impl; [by apply to_decimal_Forall|]. intros c. apply is_digit_true. Qed.

Lemma digits_not_space l : Forall (fun c => is_digit c = true) l -> Forall (fun c => is_space c = false) l.
Proof. intros H. eapply Forall_impl; [exact H|]. intros c. apply digit_not_space. Qed.

Lemma uint_loop_value l v :
  Forall (fun c => is_digit c = true) l -> 0 <= v ->
  foldl (fun v d => v * 10 + d) v (digit_run 10 l) <= uint32_max ->
  uint_loop l v = Some (foldl (fun v d => v * 10 + d) v (digit_run 10 l)).
Proof.
  intros Hl. revert v. induction Hl as [|c l Hc Hl IH]; intros v Hv; [done|].
  pose proof Hc as Hd. apply is_digit_true in Hd.
  assert (digit_of 10 c = Some (code c - 48)) as Hof.
  { unfold digit_of. cbv zeta. rewrite (proj2 (Z.leb_le 48 _)), (proj2 (Z.leb_le _ 57)) by lia. simpl.
    by rewrite (proj2 (Z.ltb_lt _ 10)) by lia. }
  cbn [uint_loop digit_run]. rewrite Hof, Hc. cbn [negb foldl]. set (d := code c - 48). intros Htotal.
  assert (v * 10 + d <= uint32_max) as Hmax.
  { etrans; [|exact Htotal]. rewrite digits_value_acc.
    pose proof (digits_value_bound 10 (digit_run 10 l) ltac:(lia) (digit_run_bound 10 l)) as [Hlow _].
    assert (1 <= 10 ^ Z.of_nat (length (digit_run 10 l))); [|subst d; nia].
    change 1 with (10 ^ 0). apply Z.pow_le_mono_r; lia. }
  rewrite (proj2 (Z.ltb_ge _ _)) by (apply Z.div_le_lower_bound; lia).
  assert (wrap 32 (v * 10 + d) = v * 10 + d) as -> by (unfold wrap; apply Z.mod_small; subst d; zlia).
  apply IH; [subst d; lia|done].
Qed.

Lemma parse_uint_decimal n : 0 <= n <= uint32_max -> parse_uint (to_decimal n) = Some n.
Proof.
  intros Hn. unfold parse_uint. rewrite (proj2 (empty_false _) (to_decimal_ne n ltac:(lia))).
  pose proof (numeral_to_decimal n ltac:(lia)) as Hv. unfold numeral, digits_value in Hv.
  rewrite uint_loop_value; [by rewrite Hv|apply decimal_chars; lia|lia|rewrite Hv; lia].
Qed.

(** Text that starts with a blank, or is empty. *)
Definition word_end (rest : text) : Prop := match rest with [] => True | c :: _ => is_space c = true end.

Lemma blanks_word_end l rest : blanks l -> l <> [] -> word_end (l ++ rest).
Proof. intros Hl Hne. by destruct Hl. Qed.

Lemma read_token_word lead word rest :
  blanks lead -> Forall (fun c => is_space c = false) word -> word <> [] -> word_end rest ->
  read_token (lead ++ word ++ rest) = (word, rest).
Proof.
  intros Hlead Hword Hne Hrest. unfold read_token. rewrite drop_front_app by done.
  rewrite drop_front_id.
  2:{ intros c. destruct Hword as [|d word Hd _]; [done|]. by intros [= <-]. }
  assert (prefix_length (fun c => negb (is_space c)) (word ++ rest) = length word) as ->.
  { clear Hne. induction Hword as [|c word Hc _ IH]; simpl; [|by rewrite Hc, IH].
    destruct rest as [|c rest]; [done|]. simpl in *. by rewrite Hrest. }
  by rewrite take_app_length, drop_app_length.
Qed.

(** ** Quantities and times *)

Lemma memory_val_chars s first saw_dot :
  memory_val_loop s first saw_dot = true -> Forall (fun c => is_space c = false /\ c <> ch_lf) s.
Proof.
  revert first saw_dot. induction s as [|c s IH]; intros first saw_dot; simpl; [by constructor|].
  destruct (is_char c ".") eqn:Hdot.
  - destruct (_ || _); [done|]. intros Hs. constructor; [|by eapply IH]. by apply is_char_true in Hdot as ->.
  - destruct (is_digit c) eqn:Hd; cbn [negb]; [|done]. intros Hs. constructor; [|exact (IH _ _ Hs)].
    split; [by apply digit_not_space|]. intros ->. vm_compute in Hd. done.
Qed.

Lemma memory_val_text val :
  is_valid_memory_val val = true ->
  Forall (fun c => is_space c = false /\ c <> ch_lf) val /\ exists c val', val = c :: val' /\ is_digit c = true.
Proof.
  unfold is_valid_memory_val. destruct val as [|c val]; simpl; [done|]. intros H. split.
  - by apply (memory_val_chars (c :: val) true false).
  - exists c, val. split; [done|]. destruct (is_char c "."); [done|]. by destruct (is_digit c).
Qed.

(** A quantity is read, and the next one may follow at once. *)
Lemma parse_memory_field_text lead q rest is_private :
  blanks lead -> quantity_ok q ->
  (is_private = true -> match rest with c :: _ => is_space c = true \/ is_digit c = true | [] => True end) ->
  parse_memory_field (lead ++ quantity_text q ++ rest) is_private = Some (fst q, snd q, rest).
Proof.
  intros Hlead [Hval Hunit] Hrest. destruct q as [val unit]. cbn [fst snd] in *.
  destruct (memory_val_text val Hval) as [Hchars (c & val' & Hc & Hd)].
  assert (Forall (fun c => is_space c = false) val) as Hword
    by (eapply Forall_impl; [exact Hchars|]; by intros d [? _]).
  unfold parse_memory_field, quantity_text. cbn [fst snd]. rewrite <- !app_assoc.
  rewrite drop_front_app by done. rewrite (drop_front_id is_space (val ++ _)).
  2:{ intros d. rewrite Hc. intros [= <-]. by apply digit_not_space. }
  assert (empty (val ++ [" "%char] ++ unit ++ rest) = false) as -> by (by rewrite Hc).
  rewrite read_token_word; [|done|done|by rewrite Hc|done]. rewrite Hval. cbn [negb app].
  change (drop_front is_space (" "%char :: unit ++ rest)) with (drop_front is_space (unit ++ rest)).
  rewrite drop_front_id by (intros d; repeat (apply elem_of_cons in Hunit as [->|Hunit]; [by intros [= <-]|]); by apply elem_of_nil in Hunit).
  assert (memory_unit (unit ++ rest) = Some (unit, rest)) as ->.
  { repeat (apply elem_of_cons in Hunit as [->|Hunit]; [done|]). by apply elem_of_nil in Hunit. }
  destruct is_private; [|done]. specialize (Hrest eq_refl). destruct rest as [|n rest]; [done|]. cbn [andb].
  by destruct Hrest as [-> | ->]; rewrite ?andb_false_r.
Qed.

Lemma affinity_and_time_text q a b m1 m2 s1 s2 c1 c2 n rest :
  (":"%char ∉ q) -> (exists c, q !! 0%nat = Some c /\ is_space c = false) ->
  Forall (fun c => is_digit c = true) [a; b; m1; m2; s1; s2; c1; c2] ->
  is_space n = true \/ is_digit n = true ->
  affinity_and_time (q ++ [a; b; ":"%char; m1; m2; ":"%char; s1; s2; "."%char; c1; c2] ++ n :: rest) = Some (n :: rest).
Proof.
  intros Hq (c & Hc & Hspace) Hdigits Hn. unfold affinity_and_time.
  set (tail := [m1; m2; ":"%char; s1; s2; "."%char; c1; c2] ++ n :: rest).
  assert (q ++ [a; b; ":"%char; m1; m2; ":"%char; s1; s2; "."%char; c1; c2] ++ n :: rest
    = (q ++ [a; b]) ++ ":"%char :: tail) as Hrem by (rewrite <- app_assoc; done).
  repeat match goal with H : Forall _ (_ :: _) |- _ => apply Forall_cons_1 in H as [? ?] end.
  assert (":"%char ∉ q ++ [a; b]) as Hcolon.
  { rewrite elem_of_app, !elem_of_cons, elem_of_nil. intros [|[<-|[<-|[]]]]; done. }
  rewrite Hrem, find_app by done. rewrite <- Hrem. rewrite !length_app. cbn [length].
  rewrite (proj2 (Nat.ltb_ge _ 2)) by lia.
  assert (forall i d, ([a; b; ":"%char; m1; m2; ":"%char; s1; s2; "."%char; c1; c2] ++ n :: rest) !! i = Some d ->
    (q ++ [a; b; ":"%char; m1; m2; ":"%char; s1; s2; "."%char; c1; c2] ++ n :: rest) !! (length q + i)%nat = Some d) as Hat.
  { intros i d <-. rewrite lookup_app_r by lia. f_equal. lia. }
  unfold at_digit, at_char. change (q ++ [a; b] ++ ?l) with (q ++ a :: b :: l).
  replace (length q + 2 - 1)%nat with (length q + 1)%nat by lia. replace (length q + 2 - 2)%nat with (length q + 0)%nat by lia.
  rewrite <- !Nat.add_assoc. cbn [Nat.add].
  repeat (erewrite Hat; [|reflexivity]).
  repeat match goal with H : is_digit _ = true |- _ => rewrite H; clear H end. cbn [negb orb andb].
  rewrite (proj2 (Nat.leb_gt _ _)) by lia. cbn [is_char bool_decide].
  assert (negb (is_space n) && negb (is_digit n) = false) as -> by (destruct Hn as [-> | ->]; by rewrite ?andb_false_r).
  rewrite Nat.add_0_r, substr_prefix.
  assert (empty (drop_back is_space q) = false) as ->.
  { apply empty_false. intros Hnil. destruct (drop_back_split is_space q) as (l & Hl & Hblank).
    rewrite Hnil in Hl. cbn [app] in Hl. subst l. apply Forall_lookup_1 with (i := 0%nat) (x := c) in Hblank; [congruence|done]. }
  f_equal. unfold substr_from. by rewrite drop_app_add.
Qed.

(** ** Rows *)

(** A row up to the unit of the shared memory, and what is left of it. *)
Definition row_front (y : row_layout) (r : context_row_data) (tail : text) : text :=
  to_decimal (row_pid r) ++ after_pid y ++ to_decimal (row_euid r) ++ after_euid y ++
  to_decimal (row_egid r) ++ after_egid y ++
  ([row_category r; row_status r] ++ (if row_on_cpu r then ["+"%char] else [])) ++ after_stat y ++
  match row_cpu r with Some cpu => to_decimal cpu | None => lit "?" end ++ after_cpu y ++
  row_affinity r ++ after_affinity y ++ time_text (row_hours r) (row_time r) ++ after_time y ++
  quantity_text (row_private r) ++ after_private y ++ quantity_text (row_shared r) ++ tail.

Lemma row_text_front y r : row_text y r = row_front y r (after_shared y ++ row_name r).
Proof. unfold row_text, row_front. by rewrite <- !app_assoc. Qed.

Lemma context_state_text y r :
  row_ok y r ->
  context_state ([row_category r; row_status r] ++ (if row_on_cpu r then ["+"%char] else [])) = Some (row_state r).
Proof.
  intros (_ & _ & _ & Hcat & Hstat & _). unfold row_state.
  repeat (apply elem_of_cons in Hcat as [-> | Hcat]; [|]); [| | |by apply elem_of_nil in Hcat];
    repeat (apply elem_of_cons in Hstat as [-> | Hstat]; [|]); try (by apply elem_of_nil in Hstat); by destruct (row_on_cpu r).
Qed.

Lemma context_cpu_text cpu :
  match cpu with Some cpu => 0 <= cpu | None => True end ->
  let text := match cpu with Some cpu => to_decimal cpu | None => lit "?" end in
  context_cpu text = true /\ text <> [] /\ Forall (fun c => is_space c = false) text.
Proof.
  destruct cpu as [cpu|]; cbv zeta; [|by repeat constructor]. intros Hcpu.
  pose proof (to_decimal_ne cpu Hcpu) as Hne. pose proof (decimal_chars cpu Hcpu) as Hchars.
  split; [|split; [done|by apply digits_not_space]].
  unfold context_cpu. rewrite (proj2 (empty_false _)) by done. destruct (same _ _); [done|].
  by apply forallb_true.
Qed.

Lemma hours_end hours :
  (2 <= length hours)%nat -> Forall (fun c => is_digit c = true) hours ->
  exists front a b, hours = front ++ [a; b] /\ is_digit a = true /\ is_digit b = true /\
    Forall (fun c => is_digit c = true) front.
Proof.
  intros Hl Hd. destruct hours as [|b front _] using rev_ind; [simpl in Hl; lia|].
  destruct front as [|a front _] using rev_ind; [simpl in Hl; lia|].
  apply Forall_app in Hd as [Hd [Hb _]%Forall_cons_1]. apply Forall_app in Hd as [Hd [Ha _]%Forall_cons_1].
  exists front, a, b. by rewrite <- app_assoc.
Qed.

(** The affinity, the time and what separates them from the private memory. *)
Lemma affinity_row y r rest :
  row_ok y r ->
  affinity_and_time (row_affinity r ++ after_affinity y ++ time_text (row_hours r) (row_time r) ++
    after_time y ++ quantity_text (row_private r) ++ rest) =
  Some (after_time y ++ quantity_text (row_private r) ++ rest).
Proof.
  intros (_ & _ & _ & _ & _ & _ & Hne & [Hhead _] & Hcolon & _ & Hlen & Hhours & Htime & [Hval _] & _ & _ & _ & Hblanks).
  apply Forall_cons_1 in Hblanks as [Haff Hblanks]. apply Forall_cons_1 in Hblanks as [Hat _].
  destruct (hours_end _ Hlen Hhours) as (front & a & b & -> & Ha & Hb & Hfront).
  destruct (row_time r) as [[m s] h]. destruct Htime as (Hm & Hs & Hh).
  destruct (memory_val_text _ Hval) as [_ (c & val & Hc & Hd)].
  assert (exists n tail, after_time y ++ quantity_text (row_private r) ++ rest = n :: tail /\
    (is_space n = true \/ is_digit n = true)) as (n & tail & Hn & Hnext).
  { unfold quantity_text. rewrite Hc. destruct Hat as [|n l Hn _]; do 2 eexists; (split; [reflexivity|]); [by right|by left]. }
  rewrite Hn. unfold time_text, two_digits.
  pose proof (affinity_and_time_text (row_affinity r ++ after_affinity y ++ front) a b
    (digit_char (m / 10)) (digit_char (m mod 10)) (digit_char (s / 10)) (digit_char (s mod 10))
    (digit_char (h / 10)) (digit_char (h mod 10)) n tail) as Hread.
  rewrite <- !app_assoc in Hread |- *. cbn [app] in Hread |- *. apply Hread; clear Hread.
  - rewrite !elem_of_app. intros [?|[Hin|Hin]]; [done| |].
    + by apply (proj1 (Forall_forall _ _) Haff) in Hin.
    + by apply (proj1 (Forall_forall _ _) Hfront) in Hin.
  - destruct (row_affinity r) as [|d aff]; [done|]. exists d. split; [done|]. by apply Hhead.
  - repeat constructor; try done; apply digit_char_digit;
      (split; [apply Z.div_pos; lia|apply Z.div_lt_upper_bound; lia]) || (apply Z.mod_pos_bound; lia).
  - done.
Qed.

(** Whatever follows the shared memory, the row is read. *)
Lemma context_row_front y r tail :
  row_ok y r -> context_row (row_front y r tail) = Value (context_entry (row_pid r) (row_state r)).
Proof.
  intros Hok. pose proof Hok as (Hpid & Heuid & Hegid & _ & _ & Hcpu & Hne & [Hhead _] & _ & _ & _ & _ & _ & Hpriv & Hshared & _ & Hgaps & Hblanks).
  repeat match goal with H : Forall _ (_ :: _) |- _ => apply Forall_cons_1 in H as [? ?] end.
  repeat match goal with H : blanks _ /\ _ |- _ => destruct H end.
  destruct (context_cpu_text _ Hcpu) as (Hcpu' & Hcpune & Hcpuchars).
  pose proof (context_state_text y r Hok) as Hstate.
  assert (Forall (fun c => is_space c = false) ([row_category r; row_status r] ++ (if row_on_cpu r then ["+"%char] else []))) as Hstat.
  { destruct Hok as (_ & _ & _ & Hcat & Hst & _). repeat constructor; [| |by destruct (row_on_cpu r); repeat constructor].
    - repeat (apply elem_of_cons in Hcat as [-> | Hcat]; [done|]). by apply elem_of_nil in Hcat.
    - repeat (apply elem_of_cons in Hst as [-> | Hst]; [done|]). by apply elem_of_nil in Hst. }
  unfold context_row, row_front.
  pose proof (fun v (H : 0 <= v <= uint32_max) => digits_not_space _ (decimal_chars v (proj1 H))) as Hspace.
  pose proof (fun v (H : 0 <= v <= uint32_max) => to_decimal_ne v (proj1 H)) as Hdec.
  pose proof (fun word rest => read_token_word [] word rest ltac:(constructor)) as Hfirst. cbn [app] in Hfirst.
  rewrite Hfirst by (auto using blanks_word_end). unfold parse_pid. rewrite parse_uint_decimal by done.
  cbn [row_value mbind result_bind].
  rewrite read_token_word by (auto using blanks_word_end). rewrite parse_uint_decimal by done. cbn [row_value mbind result_bind].
  rewrite read_token_word by (auto using blanks_word_end). rewrite parse_uint_decimal by done. cbn [row_value mbind result_bind].
  rewrite read_token_word by (auto using blanks_word_end || done). rewrite Hstate. cbn [row_value mbind result_bind].
  rewrite read_token_word by (auto using blanks_word_end). rewrite Hcpu'. cbn [negb reject mbind result_bind].
  rewrite drop_front_app by done. rewrite drop_front_id.
  2:{ intros c. destruct (row_affinity r) as [|d l]; [done|]. intros [= <-]. by apply Hhead. }
  rewrite (proj2 (empty_false _)) by (by destruct (row_affinity r)). cbn [reject mbind result_bind].
  rewrite (affinity_row y) by done. cbn [row_value mbind result_bind].
  rewrite parse_memory_field_text; [|done|done|].
  - cbn [row_value mbind result_bind snd]. by rewrite parse_memory_field_text.
  - intros _. destruct Hshared as [Hval _]. destruct (memory_val_text _ Hval) as [_ (c & val & Hc & Hd)].
    unfold quantity_text. rewrite Hc. destruct (after_private y) as [|d l]; [by right|]. left.
    by match goal with H : blanks (d :: l) |- _ => apply Forall_cons_1 in H as [? _] end.
Qed.

Lemma drop_back_keep (p : ascii -> bool) front tail c :
  last front = Some c -> p c = false -> drop_back p (front ++ tail) = front ++ drop_back p tail.
Proof.
  intros Hlast Hc. destruct (drop_back_split p tail) as (blank & Ht & Hb). rewrite Ht at 1.
  rewrite app_assoc, drop_back_app by done. apply drop_back_id. intros d. rewrite last_app.
  destruct (last (drop_back p tail)) as [e|] eqn:He; [|congruence].
  intros [= <-]. by apply (drop_back_last p tail).
Qed.

Lemma row_front_app y r tail : row_front y r tail = row_front y r [] ++ tail.
Proof. unfold row_front. rewrite <- !app_assoc. by rewrite app_nil_l. Qed.

Lemma row_front_last y r : row_ok y r -> last (row_front y r []) = Some "B"%char.
Proof.
  intros (_ & _ & _ & _ & _ & _ & _ & _ & _ & _ & _ & _ & _ & _ & [_ Hunit] & _).
  unfold row_front, quantity_text. rewrite app_nil_r, !app_assoc, last_app.
  repeat (apply elem_of_cons in Hunit as [-> | Hunit]; [done|]). by apply elem_of_nil in Hunit.
Qed.

Lemma trim_row_text y r :
  row_ok y r -> exists c tail', trim_row (row_text y r) = row_front y r tail' /\
    row_front y r tail' !! 0%nat = Some c /\ is_digit c = true.
Proof.
  intros Hok. unfold trim_row. rewrite row_text_front, row_front_app.
  rewrite (drop_back_keep _ _ _ "B"%char) by (done || by apply row_front_last).
  rewrite <- row_front_app. set (tail' := drop_back _ _). destruct Hok as (Hpid & _).
  pose proof (decimal_chars (row_pid r) ltac:(lia)) as Hd. pose proof (to_decimal_ne (row_pid r) ltac:(lia)) as Hne.
  assert (exists c, row_front y r tail' !! 0%nat = Some c /\ is_digit c = true) as (c & Hc & Hdigit).
  { unfold row_front. destruct Hd as [|c l Hc _]; [done|]. by exists c. }
  exists c, tail'. split; [|done]. apply drop_front_id. rewrite Hc. intros d [= <-]. by apply digit_not_space.
Qed.

Lemma digits_no_lf l : Forall (fun c => is_digit c = true) l -> Forall (fun c => c <> ch_lf) l.
Proof. intros H. eapply Forall_impl; [exact H|]. intros c Hc ->. done. Qed.

Lemma blanks_no_lf l : blanks l -> Forall (fun c => c <> ch_lf) l.
Proof. intros H. eapply Forall_impl; [exact H|]. intros c Hc ->. done. Qed.

Lemma quantity_no_lf q : quantity_ok q -> Forall (fun c => c <> ch_lf) (quantity_text q).
Proof.
  intros [Hval Hunit]. unfold quantity_text. destruct (memory_val_text _ Hval) as [Hchars _].
  apply Forall_app. split; [eapply Forall_impl; [exact Hchars|]; by intros c [_ ?]|].
  repeat (apply elem_of_cons in Hunit as [-> | Hunit]; [by repeat constructor|]). by apply elem_of_nil in Hunit.
Qed.

Lemma no_lf_Forall l : (ch_lf ∉ l) <-> Forall (fun c => c <> ch_lf) l.
Proof. rewrite Forall_forall. split; [by intros Hl c Hc ->|]. intros Hl Hin. by apply (Hl ch_lf). Qed.

Lemma row_no_lf y r : row_ok y r -> ch_lf ∉ row_text y r.
Proof.
  intros Hok. pose proof Hok as (Hpid & Heuid & Hegid & Hcat & Hst & Hcpu & _ & _ & _ & Haff & _ & Hhours & Htime & Hpriv & Hshared & Hname & Hgaps & Hblanks).
  repeat match goal with H : Forall _ (_ :: _) |- _ => apply Forall_cons_1 in H as [? ?] end.
  repeat match goal with H : blanks _ /\ _ |- _ => destruct H end.
  apply no_lf_Forall. unfold row_text. generalize (quantity_no_lf _ Hpriv), (quantity_no_lf _ Hshared).
  generalize (quantity_text (row_private r)), (quantity_text (row_shared r)). intros private shared Hprivate Hmemory.
  repeat (apply Forall_app; split); auto using blanks_no_lf; try (apply digits_no_lf, decimal_chars; lia).
  - repeat constructor.
    + repeat (apply elem_of_cons in Hcat as [-> | Hcat]; [done|]). by apply elem_of_nil in Hcat.
    + repeat (apply elem_of_cons in Hst as [-> | Hst]; [done|]). by apply elem_of_nil in Hst.
  - by destruct (row_on_cpu r); repeat constructor.
  - destruct (row_cpu r); [by apply digits_no_lf, decimal_chars|by repeat constructor].
  - by apply no_lf_Forall.
  - unfold time_text, two_digits. destruct (row_time r) as [[m s] h]. destruct Htime as (Hm & Hs & Hh).
    repeat (apply Forall_app; split); [by apply digits_no_lf|by repeat constructor| |by repeat constructor| |by repeat constructor|];
      apply digits_no_lf; repeat constructor; apply digit_char_digit;
      (split; [apply Z.div_pos; lia|apply Z.div_lt_upper_bound; lia]) || (apply Z.mod_pos_bound; lia).
  - by apply no_lf_Forall.
Qed.

(** ** The merge *)

(** The states have distinct priorities. *)
Lemma priority_inj s1 s2 : process_state_priority s1 = process_state_priority s2 -> s1 = s2.
Proof. by destruct s1, s2. Qed.

Definition pid_before (a b : process_entry) : Prop := pe_pid a < pe_pid b.

(** An entry that records a process of the list in the best of its states. *)
Definition best_of (l : list process_entry) (e : process_entry) : Prop :=
  exists r, r ∈ l /\ e = context_entry (pe_pid r) (pe_state r) /\
  forall r', r' ∈ l -> pe_pid r' = pe_pid r -> process_state_priority (pe_state r') <= process_state_priority (pe_state r).

Definition merged (l m : list process_entry) : Prop :=
  StronglySorted pid_before m /\ (forall e, e ∈ m <-> best_of l e) /\
  forall r, r ∈ l -> exists e, e ∈ m /\ pe_pid e = pe_pid r.

Lemma best_of_other l x e : pe_pid e <> pe_pid x -> best_of (l ++ [x]) e <-> best_of l e.
Proof.
  intros Hne. unfold best_of. split; intros (r & Hr & -> & Hbest); cbn [pe_pid context_entry] in Hne; exists r.
  - apply elem_of_app in Hr as [Hr|Hr%list_elem_of_singleton]; [|by subst r].
    split; [done|]. split; [done|]. intros r' Hr'. apply Hbest, elem_of_app. by left.
  - split; [apply elem_of_app; by left|]. split; [done|]. intros r' [Hr'|Hr'%list_elem_of_singleton]%elem_of_app Hp; [by apply Hbest|].
    subst r'. congruence.
Qed.


(** Where an entry of the same process exists, it decides. *)
Lemma best_of_same l x back e :
  best_of l back -> pe_pid back = pe_pid x -> x = context_entry (pe_pid x) (pe_state x) -> pe_pid e = pe_pid x ->
  best_of (l ++ [x]) e <->
  e = if process_state_priority (pe_state back) <? process_state_priority (pe_state x) then x else back.
Proof.
  intros (b & Hb & -> & Hbest) Hpid Hx He. cbn [pe_pid pe_state context_entry] in *.
  split.
  - intros (r & [Hr|Hr%list_elem_of_singleton]%elem_of_app & -> & Hr'); cbn [pe_pid pe_state context_entry] in *.
    + pose proof (Hr' x ltac:(set_solver) ltac:(congruence)). pose proof (Hr' b ltac:(set_solver) ltac:(congruence)).
      pose proof (Hbest r Hr ltac:(congruence)). rewrite (proj2 (Z.ltb_ge _ _)) by lia.
      f_equal; [congruence|]. apply priority_inj. lia.
    + subst r. pose proof (Hr' b ltac:(set_solver) ltac:(congruence)) as Hle.
      destruct (Z.ltb_spec (process_state_priority (pe_state b)) (process_state_priority (pe_state x))); [by symmetry|].
      f_equal; [congruence|]. apply priority_inj. lia.
  - destruct (Z.ltb_spec (process_state_priority (pe_state b)) (process_state_priority (pe_state x))) as [Hlt|Hge]; intros ->.
    + exists x. split; [set_solver|]. split; [done|].
      intros r [Hr|Hr%list_elem_of_singleton]%elem_of_app Hp; [|by subst r].
      pose proof (Hbest r Hr ltac:(congruence)). lia.
    + exists b. split; [set_solver|]. split; [done|].
      intros r [Hr|Hr%list_elem_of_singleton]%elem_of_app Hp; [by apply Hbest|by subst r].
Qed.

Lemma best_of_new l x e :
  (forall r, r ∈ l -> pe_pid r < pe_pid x) -> x = context_entry (pe_pid x) (pe_state x) -> pe_pid e = pe_pid x ->
  best_of (l ++ [x]) e <-> e = x.
Proof.
  intros Hl Hx He. split.
  - intros (r & [Hr|Hr%list_elem_of_singleton]%elem_of_app & -> & _); cbn [pe_pid context_entry] in He.
    + pose proof (Hl r Hr). lia.
    + subst r. by symmetry.
  - intros ->. exists x. split; [set_solver|]. split; [done|].
    intros r [Hr|Hr%list_elem_of_singleton]%elem_of_app Hp; [pose proof (Hl r Hr); lia|by subst r].
Qed.

(** It is enough to look at the process of the new entry. *)
Lemma merged_from l m m' x y :
  merged l m -> (forall e, e ∈ m' -> pe_pid e < pe_pid x) -> StronglySorted pid_before m' ->
  (forall e, pe_pid e <> pe_pid x -> e ∈ m <-> e ∈ m') -> pe_pid y = pe_pid x ->
  (forall e, pe_pid e = pe_pid x -> best_of (l ++ [x]) e <-> e = y) ->
  merged (l ++ [x]) (m' ++ [y]).
Proof.
  intros (_ & Hm & Hall) Hbelow Hsorted Hsame Hy Hbest.
  assert (forall e, e ∈ m' ++ [y] <-> best_of (l ++ [x]) e) as Hiff.
  { intros e. rewrite elem_of_app, list_elem_of_singleton. destruct (Z.eq_dec (pe_pid e) (pe_pid x)) as [He|He].
    - rewrite Hbest by done. split; [|by right]. intros [Hin|]; [|done]. pose proof (Hbelow e Hin). lia.
    - rewrite best_of_other, <- Hm, Hsame by done. split; [|by left]. by intros [| ->]. }
  split; [|split; [done|]].
  - apply StronglySorted_app. split; [|split; [done|by repeat constructor]].
    intros e1 e2 H1 H2%list_elem_of_singleton. subst e2. unfold pid_before. rewrite Hy. by apply Hbelow.
  - intros r [Hr|Hr%list_elem_of_singleton]%elem_of_app.
    + destruct (Hall r Hr) as (e & He & Hp). destruct (Z.eq_dec (pe_pid e) (pe_pid x)) as [Hex|Hex].
      * exists y. split; [set_solver|congruence].
      * exists e. split; [|done]. apply elem_of_app. left. by apply Hsame.
    + subst r. exists y. split; [set_solver|done].
Qed.

Lemma merge_step l m x :
  merged l m -> (forall e, e ∈ l -> pe_pid e <= pe_pid x) -> x = context_entry (pe_pid x) (pe_state x) ->
  merged (l ++ [x]) (merge_entry m x).
Proof.
  intros Hmerged Hle Hx. pose proof Hmerged as (Hsorted & Hm & Hall). unfold merge_entry.
  destruct m as [|back m' _] using rev_ind.
  { apply (merged_from l [] [] x x); [done|set_solver|constructor|done|done|].
    intros e He. apply best_of_new; [|done|done].
    intros r Hr. destruct (Hall r Hr) as (e' & He' & _). by apply elem_of_nil in He'. }
  rewrite last_snoc, removelast_last. apply StronglySorted_app in Hsorted as Hparts.
  destruct Hparts as (Hbelow & Hm' & _).
  assert (forall e, e ∈ m' -> pe_pid e < pe_pid back) as Hlast by (intros e He; apply Hbelow; [done|by apply list_elem_of_singleton]).
  assert (best_of l back) as Hback by (apply Hm; set_solver).
  assert (pe_pid back <= pe_pid x) as Hbx by (destruct Hback as (r & Hr & -> & _); exact (Hle r Hr)).
  destruct (Z.eqb_spec (pe_pid back) (pe_pid x)) as [Hp|Hp]; cbn [negb].
  - pose proof (fun e => best_of_same l x back e Hback Hp Hx) as Hsame.
    assert (forall y, pe_pid y = pe_pid x -> (forall e, pe_pid e = pe_pid x -> best_of (l ++ [x]) e <-> e = y) ->
      merged (l ++ [x]) (m' ++ [y])) as Hmake.
    { intros y Hy Hbest. apply (merged_from l (m' ++ [back]) m' x y); [done| |done| |done|done].
      - intros e He. rewrite <- Hp. by apply Hlast.
      - intros e He. rewrite elem_of_app, list_elem_of_singleton. split; [|by left]. intros [| ->]; [done|congruence]. }
    destruct (_ <? _); apply Hmake; [done| |done|by intros e He; apply Hsame].
    intros e He. rewrite Hsame by done. destruct Hback as (r & _ & -> & _). cbn [pe_pid context_entry] in Hp.
    change (with_state (pe_state x) (context_entry (pe_pid r) (pe_state r))) with (context_entry (pe_pid r) (pe_state x)).
    by rewrite Hp, <- Hx.
  - assert (forall e, e ∈ m' ++ [back] -> pe_pid e < pe_pid x) as Hlt.
    { intros e [He|He%list_elem_of_singleton]%elem_of_app; [pose proof (Hlast e He); lia|subst e; lia]. }
    apply (merged_from l (m' ++ [back]) (m' ++ [back]) x x); [done|done|done|done|done|].
    intros e He. apply best_of_new; [|done|done].
    intros r Hr. destruct (Hall r Hr) as (e' & He' & <-). by apply Hlt.
Qed.

Lemma merge_sorted l :
  StronglySorted (fun a b => pe_pid a <= pe_pid b) l ->
  Forall (fun e => e = context_entry (pe_pid e) (pe_state e)) l -> merged l (foldl merge_entry [] l).
Proof.
  induction l as [|x l IH] using rev_ind; intros Hs Hplain.
  { split; [constructor|]. split; [|by intros r ?%elem_of_nil].
    intros e. split; [by intros ?%elem_of_nil|]. by intros (r & ?%elem_of_nil & _). }
  rewrite foldl_snoc. apply StronglySorted_app in Hs as (Hle & Hs & _).
  apply Forall_app in Hplain as [Hplain [Hx _]%Forall_cons_1].
  apply merge_step; [by apply IH| |done]. intros e He. apply Hle; [done|by apply list_elem_of_singleton].
Qed.

(** ** Tables *)

Definition row_entries (rows : list (row_layout * context_row_data)) : list process_entry :=
  (fun p => context_entry (row_pid (snd p)) (row_state (snd p))) <$> rows.

Lemma context_step_row y r entries :
  row_ok y r -> context_step (row_text y r) (true, entries) =
  Next (true, entries ++ [context_entry (row_pid r) (row_state r)]).
Proof.
  intros Hok. unfold context_step. destruct (trim_row_text y r Hok) as (c & tail & -> & Hc & Hd).
  pose proof (context_row_front y r tail Hok) as Hrow. destruct (row_front y r tail) as [|d l]; [done|].
  injection Hc as ->. assert (is_char c "#" = false) as -> by (apply is_char_false; intros ->; done).
  cbn [negb]. by rewrite Hrow.
Qed.

Lemma context_rows_text rows entries :
  Forall (fun p => row_ok (fst p) (snd p)) rows ->
  fold_steps context_step ((fun p => row_text (fst p) (snd p)) <$> rows) (true, entries) =
  Next (true, entries ++ row_entries rows).
Proof.
  intros Hrows. revert entries. induction Hrows as [|[y r] rows Hrow _ IH]; intros entries; [by rewrite app_nil_r|].
  rewrite fmap_cons. cbn [fold_steps fst snd] in Hrow |- *. rewrite context_step_row by done. rewrite IH. by rewrite <- app_assoc.
Qed.

Lemma best_of_perm l k e : l ≡ₚ k -> best_of l e <-> best_of k e.
Proof. intros Hp. unfold best_of. setoid_rewrite Hp. done. Qed.

Lemma parse_table_text rows :
  Forall (fun p => row_ok (fst p) (snd p)) rows -> rows <> [] ->
  exists l, parse_sys_context (table_text rows) = Value l /\ merged (row_entries rows) l.
Proof.
  intros Hrows Hne. unfold parse_sys_context, table_text. rewrite each_field_fields.
  rewrite <- (app_nil_r (concat _)), fields_concat, app_nil_r.
  2:{ constructor; [by apply no_lf_Forall; repeat constructor|]. apply Forall_fmap.
      eapply Forall_impl; [exact Hrows|]. intros [y r] Hrow. by apply row_no_lf. }
  cbn [fold_steps]. change (context_step table_header (false, [])) with
    (Next (R := result (list process_entry)) (true, @nil process_entry)).
  cbv beta iota. rewrite context_rows_text by done. cbn [negb orb app].
  rewrite bool_decide_eq_false_2 by (by destruct rows). eexists. split; [done|].
  set (sorted := std_sort _ _). assert (sorted ≡ₚ row_entries rows) as Hp by apply std_sort_permutation.
  assert (merged sorted (foldl merge_entry [] sorted)) as (Hs & Hm & Hall).
  { apply merge_sorted.
    - exact (sort_processes_sorted (row_entries rows)).
    - rewrite Hp. apply Forall_fmap, Forall_forall. by intros [y r] _. }
  split; [done|]. split; [intros e; by rewrite Hm, best_of_perm|]. intros r Hr. apply Hall. by rewrite Hp.
Qed.

Lemma sorted_strict l :
  StronglySorted (fun a b => pe_pid a <= pe_pid b) l -> NoDup (pe_pid <$> l) -> StronglySorted pid_before l.
Proof.
  induction 1 as [|x l _ IH Hx]; intros Hnd; constructor; rewrite fmap_cons in Hnd; apply NoDup_cons in Hnd as [Hno Hnd].
  - by apply IH.
  - apply Forall_forall. intros e He. pose proof (proj1 (Forall_forall _ _) Hx e He) as Hle. cbv beta in Hle. unfold pid_before.
    destruct (Z.eq_dec (pe_pid x) (pe_pid e)) as [Heq|]; [|lia].
    exfalso. apply Hno. rewrite Heq. by apply list_elem_of_fmap_2.
Qed.

Lemma strict_NoDup l : StronglySorted pid_before l -> NoDup (pe_pid <$> l).
Proof.
  induction 1 as [|x l _ IH Hx]; [constructor|]. rewrite fmap_cons. apply NoDup_cons. split; [|done].
  intros (e & Heq & He)%list_elem_of_fmap. pose proof (proj1 (Forall_forall _ _) Hx e He) as Hlt. unfold pid_before in Hlt. lia.
Qed.

Lemma sort_strict l : StronglySorted pid_before l -> StronglySorted pid_before (sort_processes l).
Proof.
  intros Hl. apply sorted_strict; [exact (sort_processes_sorted l)|].
  rewrite (Permutation_map pe_pid (std_sort_permutation (fun a b => pe_pid a <? pe_pid b) l) : pe_pid <$> sort_processes l ≡ₚ pe_pid <$> l).
  by apply strict_NoDup.
Qed.

Lemma best_of_unique l e1 e2 : best_of l e1 -> best_of l e2 -> pe_pid e1 = pe_pid e2 -> e1 = e2.
Proof.
  intros (r1 & H1 & -> & Hb1) (r2 & H2 & -> & Hb2) Hp. cbn [pe_pid context_entry] in Hp.
  pose proof (Hb1 r2 H2 ltac:(congruence)). pose proof (Hb2 r1 H1 Hp).
  f_equal; [done|]. apply priority_inj. lia.
Qed.

Lemma best_of_rows rows e :
  best_of (row_entries rows) e <->
  exists r, r ∈ rows.*2 /\ e = context_entry (row_pid r) (row_state r) /\
  forall r', r' ∈ rows.*2 -> row_pid r' = row_pid r ->
    process_state_priority (row_state r') <= process_state_priority (row_state r).
Proof.
  assert (row_entries rows = (fun r => context_entry (row_pid r) (row_state r)) <$> rows.*2) as ->
    by (unfold row_entries; by rewrite <- list_fmap_compose).
  unfold best_of. split.
  - intros (e' & (r & -> & Hr)%list_elem_of_fmap & -> & Hbest). exists r. split; [done|]. split; [done|].
    intros r' Hr' Hp. apply (Hbest (context_entry (row_pid r') (row_state r'))); [|done].
    by apply (list_elem_of_fmap_2 (fun r => context_entry (row_pid r) (row_state r))).
  - intros (r & Hr & -> & Hbest). exists (context_entry (row_pid r) (row_state r)).
    split; [by apply (list_elem_of_fmap_2 (fun r => context_entry (row_pid r) (row_state r)))|]. split; [done|].
    intros e' (r' & -> & Hr')%list_elem_of_fmap Hp. by apply Hbest.
Qed.

(** C39: from a table of contexts in the format of the kernel, with columns
    of any widths, an affinity that may abut the time, a time that may abut
    the private memory and any thread names, the process list of Redox has
    one entry for each process identifier, in ascending order, with the state
    of highest priority among its threads and no other field; and each of them
    but process zero is found by its identifier. *)
Theorem contexts_listed {W : Type} (reader : query W text) (rows : list (row_layout * context_row_data)) (w w' : W)
    (rows_ok : Forall (fun p => row_ok (fst p) (snd p)) rows) (some_rows : rows <> [])
    (read : reader w = (Value (table_text rows), w')) :
  exists l, context_processes reader w = (Value l, w') /\
    StronglySorted (fun a b => pe_pid a < pe_pid b) l /\
    (forall e, e ∈ l <->
       exists r, r ∈ rows.*2 /\ e = context_entry (row_pid r) (row_state r) /\
       forall r', r' ∈ rows.*2 -> row_pid r' = row_pid r ->
         process_state_priority (row_state r') <= process_state_priority (row_state r)) /\
    forall e, e ∈ l -> pe_pid e <> 0 -> find_context_process reader (pe_pid e) w = (Value e, w').
Proof.
  destruct (parse_table_text rows rows_ok some_rows) as (l & Hparse & Hsorted & Hl & _).
  assert (forall e, e ∈ sort_processes l <-> best_of (row_entries rows) e) as Hin
    by (intros e; rewrite <- Hl; unfold sort_processes; by rewrite std_sort_permutation).
  assert (context_processes reader w = (Value (sort_processes l), w')) as Hrun.
  { unfold context_processes, mbind, query_bind. rewrite read. unfold pure. by rewrite Hparse. }
  exists (sort_processes l). split; [done|]. split; [by apply sort_strict|].
  split; [intros e; by rewrite Hin, best_of_rows|].
  intros e He Hne. unfold find_context_process. rewrite (proj2 (Z.eqb_neq _ _) Hne).
  unfold mbind, query_bind. rewrite Hrun. unfold pure.
  destruct (list_find _ _) as [[i e']|] eqn:Hfind.
  - apply list_find_Some in Hfind as (Hi & Hp & _). apply list_elem_of_lookup_2 in Hi.
    apply Hin in Hi, He. rewrite (best_of_unique (row_entries rows) e' e Hi He Hp). reflexivity.
  - apply list_find_None, (proj1 (Forall_forall _ _)) with (x := e) in Hfind; [|exact He]. destruct (Hfind eq_refl).
Qed.

Lemma contexts_listed_witness :
  let layout := Row_layout (lit "     ") (lit "     ") (lit "     ") (lit "   ") (lit "     ") [] [] (lit " ") (lit " ") in
  let kmain := Context_row_data 0 0 0 "K" "R" false (Some 0) (lit "0xffffffffff") (lit "123") (4, 5, 6)
                 (lit "1.5", lit "KB") (lit "0", lit "B") (lit "[kmain]") in
  let idle := Context_row_data 7 0 0 "U" "B" false None (lit "01") (lit "00") (0, 0, 1)
                (lit "12", lit "MB") (lit "4", lit "KB") (lit "worker thread") in
  let busy := Context_row_data 7 0 0 "U" "R" true (Some 1) (lit "01") (lit "00") (0, 59, 1)
                (lit "12", lit "MB") (lit "4", lit "KB") (lit "worker") in
  let rows := [(layout, idle); (layout, kmain); (layout, busy)] in
  exists l, context_processes (mret (table_text rows) : query unit text) tt = (Value l, tt) /\
    l = [context_entry 0 running; context_entry 7 running].
Proof.
  intros layout kmain idle busy rows.
  destruct (contexts_listed (mret (table_text rows) : query unit text) rows tt tt) as (l & Hl & _).
  - repeat (apply Forall_cons_2; [repeat match goal with
      | |- row_ok _ _ => unfold row_ok
      | |- _ /\ _ => split
      | |- match row_time _ with _ => _ end => vm_compute; repeat split; intro; discriminate
      | |- trimmed _ _ => split
      | |- forall c, _ = Some c -> _ => intros c Hc; vm_compute in Hc; injection Hc as <-; reflexivity
      | |- _ => by_compute
      end|]). constructor.
  - discriminate.
  - reflexivity.
  - exists l. split; [done|]. vm_compute in Hl. by injection Hl.
Defined.
