(* ===== verification/Redox.v ===== *)
(** * Files, resolver configuration and identity on Redox OS

    [include/syscape/detail/network/redox.hpp] and
    [include/syscape/detail/os/redox.hpp]: the reading of a small file, the
    resolver configuration in /etc/net/dns or /etc/resolv.conf, and the
    operating-system facts from os-release, [uname] and the clock.

    [inet_pton] is a parameter for each family, as in [Dns.v]; [uname] and the
    clocks are parameters too.  An interrupted [open] is tried again, so
    the reading of a file has fuel. *)
From S2P Require Import Prelude Result CppText System Network Os Process ProcessList Dns.

(** ** Reading a file *)

Definition redox_file_limit : Z := 65536.

Definition redox_denied (errno : Z) : error_code :=
  if (errno =? EACCES) || (errno =? EPERM) then make_error_code errc_permission_denied else native_error errno.

Fixpoint redox_read_loop (events : list read_event) (content : text) : result text :=
  match events with
  | [] | Read_bytes [] :: _ => Value content
  | Read_bytes chunk :: events =>
      if redox_file_limit - Z.of_nat (length content) <? Z.of_nat (length chunk)
      then fail errc_value_too_large else redox_read_loop events (content ++ chunk)
  | Read_error errno :: events =>
      if errno =? EINTR then redox_read_loop events content else Failure (redox_denied errno)
  end.

Fixpoint redox_read_file {W} `{Kernel W} (fuel : nat) (path : text) : partial W text := fun w =>
  match fuel with
  | O => None
  | S fuel =>
      match open_file path w with
      | (inr events, w) => Some (redox_read_loop events [], w)
      | (inl errno, w) =>
          if errno =? EINTR then redox_read_file fuel path w
          else Some (if errno =? ENOENT then fail errc_not_found else Failure (redox_denied errno), w)
      end
  end.

(** ** network/redox.hpp *)

(** The loop of [tokenize_resolver_line] over what is left of the line. *)
Fixpoint redox_token_loop (fuel : nat) (line : text) (tokens : list text) : list text :=
  match fuel with
  | O => tokens
  | S fuel =>
      let line := drop_front resolver_blank line in
      match line with
      | [] => tokens
      | c :: _ =>
          if comment_start c then tokens
          else
            let size := CppText.prefix_length (fun c => negb (resolver_blank c || comment_start c)) line in
            redox_token_loop fuel (drop size line) (tokens ++ [take size line])
      end
  end.

Definition redox_resolver_line (line : text) : list text :=
  let line := drop_back resolver_line_end line in
  redox_token_loop (S (length line)) line [].

Definition INET6_ADDRSTRLEN : nat := 46.

(** The numeric zone of an address. *)
Fixpoint scope_loop (zone : text) (parsed_scope : Z) : result Z :=
  match zone with
  | [] => Value parsed_scope
  | c :: zone =>
      let digit := code c - 48 in
      if (uint32_max - digit) / 10 <? parsed_scope then fail errc_value_too_large
      else scope_loop zone (wrap 32 (parsed_scope * 10 + digit))
  end.

Definition scope_of (zone : text) : result Z :=
  if empty zone then Value 0
  else if forallb (fun c => (48 <=? code c) && (code c <=? 57)) zone then scope_loop zone 0
  else fail errc_not_supported.

Section resolver.
Context (inet_pton4 inet_pton6 : text -> option (list Z)).

Definition redox_address (literal zone : text) : result ip_address_record :=
  if empty literal || (INET6_ADDRSTRLEN <=? length literal)%nat || bool_decide (ch_nul ∈ literal)
  then fail errc_malformed_data
  else
    match (if empty zone then inet_pton4 literal else None) with
    | Some bytes => Value (Ip_address_record ipv4 (take 4 bytes ++ repeat 0 12) 0)
    | None =>
        match inet_pton6 literal with
        | Some bytes => scope ← scope_of zone; Value (Ip_address_record ipv6 (take 16 bytes) scope)
        | None => fail errc_malformed_data
        end
    end.

Definition redox_resolver_address (token : text) : result ip_address_record :=
  if existsb (fun c => (code c <? 33) || (126 <? code c)) token then fail errc_malformed_data
  else
    match find "%" token 0 with
    | None => redox_address token []
    | Some zone_offset =>
        let literal := substr 0 zone_offset token in
        let zone := substr_from (S zone_offset) token in
        if empty literal || empty zone || bool_decide ("%"%char ∈ zone) then fail errc_malformed_data
        else redox_address literal zone
    end.

Definition add_server (token : text) (s : resolver_state) : result resolver_state :=
  address ← redox_resolver_address token;
  Value (Resolver_state (rs_servers s ++ [Dns_server_record address None]) (search_list s) (domain_value s) (last_was_search s)).

Definition redox_directive (is_resolv_conf : bool) (line : text) (s : resolver_state) : result resolver_state :=
  match redox_resolver_line line with
  | [] => Value s
  | directive :: arguments =>
      if same directive (lit "nameserver") then
        match arguments with token :: _ => add_server token s | [] => fail errc_malformed_data end
      else if same directive (lit "search") then
        Value (Resolver_state (rs_servers s) arguments (domain_value s) true)
      else if same directive (lit "domain") then
        match arguments with
        | domain :: _ => Value (Resolver_state (rs_servers s) (search_list s) (Some domain) false)
        | [] => fail errc_malformed_data
        end
      else if negb is_resolv_conf then fold_result add_server (directive :: arguments) s
      else Value s
  end.

Definition redox_dns_step (is_resolv_conf : bool) (line : text) (s : resolver_state)
    : step resolver_state (result dns_record) :=
  s <-? redox_directive is_resolv_conf line s; Next s.

Definition parse_dns_content (content : text) (is_resolv_conf : bool) : result dns_record :=
  match each_field ch_lf content (redox_dns_step is_resolv_conf) no_resolver with
  | Return r => r
  | Next s =>
      Value (if last_was_search s then Dns_record (rs_servers s) (Some (search_list s)) None
             else
               match domain_value s with
               | Some domain => Dns_record (rs_servers s) (Some [domain]) (Some domain)
               | None => Dns_record (rs_servers s) (if is_resolv_conf then Some [] else None) None
               end)
  end.

(** [network_backend::dns]: the file of the system, else the one of POSIX. *)
Definition redox_dns {W} `{Kernel W} (fuel : nat) : partial W dns_record := fun w =>
  match redox_read_file fuel (lit "/etc/net/dns") w with
  | None => None
  | Some (Value content, w) => Some (parse_dns_content content false, w)
  | Some (Failure e, w) =>
      if matches_errc e errc_not_found then
        match redox_read_file fuel (lit "/etc/resolv.conf") w with
        | None => None
        | Some (Value content, w) => Some (parse_dns_content content true, w)
        | Some (Failure e, w) => Some (Failure e, w)
        end
      else Some (Failure e, w)
  end.

End resolver.

(** ** os/redox.hpp *)

Definition ini_space (c : ascii) : bool := is_char c " " || is_char c ch_tab.
Definition ini_line_end (c : ascii) : bool := is_char c ch_cr || ini_space c.
Definition ini_front (c : ascii) : bool := is_char c " " || is_char c "034".
Definition ini_back (c : ascii) : bool := is_char c " " || is_char c "034" || is_char c ch_cr.

(** The value a line gives the key, when it is not empty. *)
Definition ini_line (key line : text) : option text :=
  let line := drop_front ini_space (drop_back ini_line_end line) in
  if starts_with key line && (length key <? length line)%nat &&
     match line !! length key with Some c => is_char c "=" | None => false end
  then
    let val := drop_back ini_back (drop_front ini_front (substr_from (S (length key)) line)) in
    if empty val then None else Some val
  else None.

Definition find_ini_value (content key : text) : text :=
  match each_field ch_lf content
          (fun line (_ : unit) => match ini_line key line with Some val => Return val | None => Next () end) () with
  | Return val => val
  | Next _ => []
  end.

Definition redox_uptime_value (tv_sec tv_nsec : Z) : result Z :=
  if (tv_sec <? 0) || (tv_nsec <? 0) || (1000000000 <=? tv_nsec) then fail errc_malformed_data
  else if int64_max / 1000 <? tv_sec then fail errc_value_too_large
  else
    let milliseconds := wrap 64 (wrap 64 (tv_sec * 1000) + Z.quot tv_nsec 1000000) in
    if int64_max <? milliseconds then fail errc_value_too_large else Value milliseconds.

Definition parse_host_name (content : text) : result text :=
  let content := drop_back (fun c => is_char c ch_lf || is_char c ch_cr || is_char c " " || is_char c ch_tab) content in
  if empty content then fail errc_not_found
  else if existsb (fun c => (code c <? 33) || (code c =? 127)) content then fail errc_malformed_data
  else Value content.

(** The names of [uname]. *)
Record redox_utsname := Redox_utsname { redox_sysname : text; redox_release : text; redox_version : text }.

Section identity.
Context {W : Type} `{Kernel W}.
Context (uname : W -> (Z + redox_utsname) * W) (clock_gettime : W -> (Z + Z * Z) * W) (now : W -> Z * W).

(** A failed [uname]; [errno] may be left zero. *)
Definition redox_names : query W redox_utsname := fun w =>
  match uname w with
  | (inr names, w) => (Value names, w)
  | (inl errno, w) => (if errno =? 0 then fail errc_io_error else fail_native errno, w)
  end.

Definition redox_kernel_name : query W text :=
  names ← redox_names;
  pure (if empty (redox_sysname names) then fail errc_not_found else Value (redox_sysname names)).

Definition redox_kernel_version : query W text :=
  names ← redox_names;
  pure (if negb (empty (redox_version names)) then Value (redox_version names)
        else if negb (empty (redox_release names)) then Value (redox_release names)
        else fail errc_not_found).

(** The value of a key of os-release, empty when the file cannot be read. *)
Definition os_release_value (fuel : nat) (key : text) (w : W) : option (text * W) :=
  match redox_read_file fuel (lit "/etc/os-release") w with
  | None => None
  | Some (Value file, w) => Some (find_ini_value file key, w)
  | Some (Failure _, w) => Some ([], w)
  end.

Definition redox_product_name (fuel : nat) : partial W text := fun w =>
  match os_release_value fuel (lit "NAME") w with
  | None => None
  | Some (name, w) => Some (Value (if empty name then lit "Redox OS" else name), w)
  end.

Definition redox_product_version (fuel : nat) : partial W text := fun w =>
  match os_release_value fuel (lit "VERSION_ID") w with
  | None => None
  | Some (version_id, w) =>
      if negb (empty version_id) then Some (Value version_id, w)
      else
        Some ((names ← redox_names;
               pure (if negb (empty (redox_release names)) then Value (redox_release names)
                     else fail errc_not_found)) w)
  end.

Definition redox_host_name (fuel : nat) : partial W text := fun w =>
  match redox_read_file fuel (lit "/etc/hostname") w with
  | None => None
  | Some (Value file, w) => Some (parse_host_name file, w)
  | Some (Failure e, w) => Some (Failure e, w)
  end.

Definition monotonic_uptime : query W Z := fun w =>
  match clock_gettime w with
  | (inr (tv_sec, tv_nsec), w) => (redox_uptime_value tv_sec tv_nsec, w)
  | (inl errno, w) =>
      ((if (errno =? EACCES) || (errno =? EPERM) then fail errc_permission_denied
        else if errno =? 0 then fail errc_io_error else fail_native errno), w)
  end.

(** The clock counts nanoseconds; the conversion to them wraps. *)
Definition redox_started (elapsed : Z) : query W Z := fun w =>
  let '(time, w) := now w in
  let duration := wrap_signed 64 (elapsed * 1000000) in
  (if time <? duration then fail errc_malformed_data else Value (wrap_signed 64 (time - duration)), w).

Definition redox_boot_time : query W Z := elapsed ← monotonic_uptime; redox_started elapsed.

Definition redox_uptime : query W Z := monotonic_uptime.

End identity.

(** ** Files *)

(** What the loop makes of the delivered bytes: the limit is looked at first. *)
Definition redox_outcome (content : text) (errno : option Z) : result text :=
  if redox_file_limit <? Z.of_nat (length content) then fail errc_value_too_large
  else match errno with Some errno => Failure (redox_denied errno) | None => Value content end.

(** The pieces and interruptions of a read do not matter. *)
Lemma redox_read_delivered events content :
  Z.of_nat (length content) <= redox_file_limit ->
  redox_read_loop events content =
  redox_outcome (content ++ fst (delivered events)) (snd (delivered events)).
Proof.
  revert content. induction events as [|[[|c chunk]|errno] events IH]; intros content Hc; cbn [redox_read_loop delivered].
  1,2: unfold redox_outcome; cbn [fst snd]; rewrite app_nil_r, (proj2 (Z.ltb_ge _ _)) by done; done.
  - destruct (delivered events) as [rest err] eqn:E. cbn [fst snd] in IH |- *.
    destruct (Z.ltb_spec (redox_file_limit - Z.of_nat (length content)) (Z.of_nat (length (c :: chunk)))) as [Hlt|Hge].
    + unfold redox_outcome. rewrite (proj2 (Z.ltb_lt _ _)); [done|]. rewrite !length_app in *. lia.
    + rewrite IH by (rewrite length_app; lia). by rewrite <- app_assoc.
  - destruct (errno =? EINTR); [by apply IH|].
    unfold redox_outcome. cbn [fst snd]. by rewrite app_nil_r, (proj2 (Z.ltb_ge _ _)).
Qed.

(** ** Lines of the resolver configuration *)

(** The line up to a comment. *)
Definition before_comment (line : text) : text :=
  take (CppText.prefix_length (fun c => negb (comment_start c)) line) line.

Lemma before_comment_cons c line :
  before_comment (c :: line) = if comment_start c then [] else c :: before_comment line.
Proof. unfold before_comment. simpl. by destruct (comment_start c). Qed.

Lemma before_comment_blank line :
  before_comment (drop_front resolver_blank line) = drop_front resolver_blank (before_comment line).
Proof.
  induction line as [|c line IH]; [done|]. rewrite before_comment_cons. cbn [drop_front].
  destruct (resolver_blank c) eqn:Hb.
  - assert (comment_start c = false) as ->.
    { revert Hb. unfold resolver_blank, comment_start. rewrite orb_true_iff, orb_false_iff, !is_char_true, !is_char_false.
      by intros [-> | ->]. }
    cbn [drop_front]. by rewrite Hb, IH.
  - rewrite before_comment_cons. destruct (comment_start c); [done|]. cbn [drop_front]. by rewrite Hb.
Qed.

Lemma before_comment_word line :
  let size := CppText.prefix_length (fun c => negb (resolver_blank c || comment_start c)) line in
  take size line = take (CppText.prefix_length (fun c => negb (resolver_blank c)) (before_comment line)) (before_comment line) /\
  before_comment (drop size line) = drop (CppText.prefix_length (fun c => negb (resolver_blank c)) (before_comment line)) (before_comment line).
Proof.
  induction line as [|c line [IH1 IH2]]; [done|]. cbv zeta. rewrite before_comment_cons. cbn [CppText.prefix_length].
  destruct (resolver_blank c) eqn:Hb, (comment_start c) eqn:Hc; cbn [orb negb]; cbn [CppText.prefix_length take drop].
  - by rewrite before_comment_cons, Hc.
  - rewrite Hb. cbn [negb take drop]. by rewrite before_comment_cons, Hc.
  - by rewrite before_comment_cons, Hc.
  - rewrite Hb. cbn [negb take drop]. by rewrite IH1, IH2.
Qed.

Lemma tokens_front (sep : ascii -> bool) l : tokens sep (drop_front sep l) = tokens sep l.
Proof. induction l as [|c l IH]; [done|]. cbn [drop_front]. destruct (sep c) eqn:Hc; [by rewrite tokens_skip|done]. Qed.

(** The tokens of a line are the words before a comment. *)
Lemma redox_token_loop_tokens fuel line acc :
  (length line < fuel)%nat ->
  redox_token_loop fuel line acc = acc ++ tokens resolver_blank (before_comment line).
Proof.
  revert line acc. induction fuel as [|fuel IH]; intros line acc Hfuel; [lia|]. cbn [redox_token_loop].
  rewrite <- (tokens_front resolver_blank (before_comment line)), <- before_comment_blank.
  destruct (drop_front_split resolver_blank line) as (lead & Hline & _).
  pose proof (drop_front_head resolver_blank line) as Hhead.
  destruct (drop_front resolver_blank line) as [|c rest]; [by rewrite app_nil_r|].
  specialize (Hhead c eq_refl). destruct (comment_start c) eqn:Hc.
  { by rewrite before_comment_cons, Hc, app_nil_r. }
  destruct (before_comment_word (c :: rest)) as [Htake Hdrop].
  assert (length (c :: rest) <= length line)%nat as Hlen by (rewrite Hline, length_app; lia).
  rewrite IH.
  - rewrite Htake, Hdrop. rewrite <- app_assoc. f_equal.
    rewrite before_comment_cons, Hc. by rewrite (tokens_cons resolver_blank c (before_comment rest)).
  - rewrite length_drop. cbn [CppText.prefix_length]. rewrite Hhead, Hc. cbn [orb negb length] in *. lia.
Qed.

Lemma redox_resolver_words line :
  redox_resolver_line line = tokens resolver_blank (before_comment (drop_back resolver_line_end line)).
Proof. unfold redox_resolver_line. by rewrite redox_token_loop_tokens by lia. Qed.

(** ** The configuration a file records *)

Section configuration.
Context (inet_pton4 inet_pton6 : text -> option (list Z)) (is_resolv_conf : bool).

Definition addresses (words : list text) : result (list ip_address_record) :=
  mapM (redox_resolver_address inet_pton4 inet_pton6) words.

(** The servers of a line, or its error. *)
Definition redox_line (words : list text) : result (list ip_address_record) :=
  match words with
  | [] => Value []
  | directive :: arguments =>
      if same directive (lit "nameserver") then
        match arguments with token :: _ => addresses [token] | [] => fail errc_malformed_data end
      else if same directive (lit "search") then Value []
      else if same directive (lit "domain") then
        match arguments with _ :: _ => Value [] | [] => fail errc_malformed_data end
      else if is_resolv_conf then Value [] else addresses words
  end.

(** The search list or the domain of a line. *)
Definition redox_list_of (words : list text) : option (list text + text) :=
  match words with
  | directive :: arguments =>
      if same directive (lit "search") then Some (inl arguments)
      else if same directive (lit "domain") then inr <$> head arguments else None
  | [] => None
  end.

Definition server_of (address : ip_address_record) : dns_server_record := Dns_server_record address None.

Lemma add_servers words s :
  fold_result (add_server inet_pton4 inet_pton6) words s =
  (found ← addresses words;
   Value (Resolver_state (rs_servers s ++ (server_of <$> found)) (search_list s) (domain_value s) (last_was_search s))).
Proof.
  unfold addresses. revert s. induction words as [|word words IH]; intros s; cbn [fold_result mapM].
  { cbn. rewrite app_nil_r. by destruct s. }
  assert (add_server inet_pton4 inet_pton6 word s =
    match redox_resolver_address inet_pton4 inet_pton6 word with
    | Value address => Value (Resolver_state (rs_servers s ++ [server_of address]) (search_list s) (domain_value s) (last_was_search s))
    | Failure e => Failure e
    end) as -> by reflexivity.
  destruct (redox_resolver_address _ _ word) as [address|e]; [|done]. cbn [mbind result_bind].
  rewrite IH. cbn [rs_servers search_list domain_value last_was_search].
  destruct (mapM _ words) as [found|e]; [|done]. cbn. by rewrite <- app_assoc.
Qed.

Lemma redox_directive_meaning line s :
  match redox_line (redox_resolver_line line) with
  | Failure e => redox_directive inet_pton4 inet_pton6 is_resolv_conf line s = Failure e
  | Value found => exists s',
      redox_directive inet_pton4 inet_pton6 is_resolv_conf line s = Value s' /\
      rs_servers s' = rs_servers s ++ (server_of <$> found) /\
      state_choice s' = match redox_list_of (redox_resolver_line line) with Some c => Some c | None => state_choice s end
  end.
Proof.
  unfold redox_directive, redox_line, redox_list_of.
  destruct (redox_resolver_line line) as [|directive arguments]; [exists s; by rewrite app_nil_r|].
  destruct (same directive (lit "nameserver")) eqn:Hn.
  { apply same_true in Hn as ->. destruct arguments as [|token arguments]; [done|]. unfold addresses. cbn [mapM].
    unfold add_server. destruct (redox_resolver_address _ _ token) as [address|e]; [|done]. by eexists. }
  destruct (same directive (lit "search")) eqn:Hs; [eexists; split; [done|]; by rewrite app_nil_r|].
  destruct (same directive (lit "domain")) eqn:Hd.
  { destruct arguments as [|domain arguments]; [done|]. eexists. split; [done|]. by rewrite app_nil_r. }
  destruct is_resolv_conf; cbn [negb]; [exists s; by rewrite app_nil_r|].
  rewrite add_servers. destruct (addresses _) as [found|e]; [|done]. by eexists.
Qed.

Lemma redox_lines lines s :
  match mapM redox_line (redox_resolver_line <$> lines) with
  | Failure e => fold_steps (redox_dns_step inet_pton4 inet_pton6 is_resolv_conf) lines s = Return (Failure e)
  | Value found => exists s',
      fold_steps (redox_dns_step inet_pton4 inet_pton6 is_resolv_conf) lines s = Next s' /\
      rs_servers s' = rs_servers s ++ (server_of <$> concat found) /\
      state_choice s' = match last (omap redox_list_of (redox_resolver_line <$> lines)) with
                        | Some c => Some c | None => state_choice s end
  end.
Proof.
  revert s. induction lines as [|line lines IH]; intros s.
  { exists s. split; [done|]. by rewrite app_nil_r. }
  rewrite fmap_cons. cbn [mapM fold_steps]. pose proof (redox_directive_meaning line s) as Hline.
  unfold redox_dns_step at 1 3. destruct (redox_line _) as [found|e]; [|cbn; by rewrite Hline].
  destruct Hline as (s1 & -> & Hs1 & Hc1). cbn [try_step mbind result_bind]. specialize (IH s1).
  destruct (mapM redox_line _) as [rest|e]; [|exact IH]. cbn. destruct IH as (s2 & Hfold & Hs2 & Hc2).
  exists s2. split; [exact Hfold|]. split.
  - by rewrite Hs2, Hs1, fmap_app, <- app_assoc.
  - rewrite Hc2, Hc1. destruct (redox_list_of _) as [c|]; [|done]. rewrite last_cons. by destruct (last _).
Qed.

(** The resolver file of Redox: the first error of its lines, or the servers
    of the lines in order, and the list of the last search or domain line,
    which is a list even when there is none only in /etc/resolv.conf. *)
Lemma parse_dns_content_meaning content :
  parse_dns_content inet_pton4 inet_pton6 content is_resolv_conf =
  (found ← mapM redox_line (redox_resolver_line <$> fields ch_lf content);
   let choice := last (omap redox_list_of (redox_resolver_line <$> fields ch_lf content)) in
   Value (Dns_record (server_of <$> concat found)
     (match choice with None => if is_resolv_conf then Some [] else None | _ => Some (chosen_list choice) end)
     (chosen_domain choice))).
Proof.
  unfold parse_dns_content. rewrite each_field_fields.
  pose proof (redox_lines (fields ch_lf content) no_resolver) as Hlines.
  destruct (mapM redox_line _) as [found|e]; [|by rewrite Hlines].
  destruct Hlines as (s & -> & Hs & Hc). cbn [rs_servers no_resolver app] in Hs. cbn [mbind result_bind]. cbv zeta.
  unfold state_choice in Hc. cbn [last_was_search no_resolver domain_value fmap option_fmap option_map] in Hc.
  rewrite <- Hs. destruct (last _) as [c|]; destruct (last_was_search s), (domain_value s); by inversion Hc.
Qed.

End configuration.

(** ** Operating-system facts *)

(** The uptime is exact in milliseconds, or too large exactly when these do
    not fit. *)
Lemma redox_uptime_exact tv_sec tv_nsec :
  0 <= tv_sec -> 0 <= tv_nsec < 1000000000 ->
  redox_uptime_value tv_sec tv_nsec =
  let milliseconds := tv_sec * 1000 + tv_nsec / 1000000 in
  if int64_max <? milliseconds then fail errc_value_too_large else Value milliseconds.
Proof.
  intros Hs Hn. unfold redox_uptime_value. rewrite (proj2 (Z.ltb_ge tv_sec 0)), (proj2 (Z.ltb_ge tv_nsec 0)), (proj2 (Z.leb_gt _ _)) by lia.
  cbn [orb]. rewrite Z.quot_div_nonneg by lia. assert (0 <= tv_nsec / 1000000 < 1000) as Hms.
  { split; [apply Z.div_pos; lia|apply Z.div_lt_upper_bound; lia]. }
  change (int64_max / 1000) with 9223372036854775. cbv zeta.
  destruct (Z.ltb_spec 9223372036854775 tv_sec) as [Hlt|Hge].
  - by rewrite (proj2 (Z.ltb_lt _ _)) by zlia.
  - unfold wrap. rewrite (Z.mod_small (tv_sec * 1000)) by zlia. by rewrite Z.mod_small by zlia.
Qed.

(** A boot time is the present less the uptime, to the millisecond. *)
Lemma redox_boot_time_exact {W} (clock_gettime : W -> (Z + Z * Z) * W) (now : W -> Z * W) w1 w2 w3 tv_sec tv_nsec time :
  clock_gettime w1 = (inr (tv_sec, tv_nsec), w2) -> now w2 = (time, w3) ->
  0 <= tv_nsec < 1000000000 -> 0 <= tv_sec -> tv_sec * 1000000000 + tv_nsec <= time <= int64_max ->
  redox_boot_time clock_gettime now w1 =
  (Value (time - (tv_sec * 1000 + tv_nsec / 1000000) * 1000000), w3).
Proof.
  intros Hclock Hnow Hn Hs Ht. unfold redox_boot_time, monotonic_uptime, mbind, query_bind. rewrite Hclock.
  rewrite redox_uptime_exact by done. cbv zeta. pose proof (Z.mul_div_le tv_nsec 1000000 ltac:(lia)) as Hle.
  assert (0 <= tv_nsec / 1000000) as Hms by (apply Z.div_pos; lia).
  rewrite (proj2 (Z.ltb_ge _ _)) by zlia. unfold redox_started. rewrite Hnow. cbv zeta.
  rewrite (wrap_signed_small (_ * 1000000)) by zlia. rewrite (proj2 (Z.ltb_ge _ _)) by lia.
  by rewrite wrap_signed_small by zlia.
Qed.

(** The value of a key is that of the first line that gives it one. *)
Lemma find_ini_value_first content key :
  find_ini_value content key = default [] (head (omap (ini_line key) (fields ch_lf content))).
Proof.
  unfold find_ini_value. rewrite each_field_fields.
  induction (fields ch_lf content) as [|line lines IH]; [done|]. csimpl. by destruct (ini_line key line).
Qed.

Definition quote : ascii := "034"%char.

(** A written line gives its key the value between the quotes, and no other
    key one. *)
Lemma ini_line_text key name value :
  ("="%char ∉ key) -> ("="%char ∉ name) -> trimmed ini_space (name ++ ["="%char; quote]) ->
  value <> [] -> trimmed (fun c => ini_front c || ini_back c) value ->
  ini_line key (name ++ ["="%char; quote] ++ value ++ [quote]) = if same name key then Some value else None.
Proof.
  intros Hkey Hname [Hfront _] Hne [Hv1 Hv2]. unfold ini_line.
  set (line := name ++ ["="%char; quote] ++ value ++ [quote]).
  assert (drop_front ini_space (drop_back ini_line_end line) = line) as ->.
  { rewrite (drop_back_id ini_line_end).
    - apply drop_front_id. intros c Hc. apply Hfront. subst line. by destruct name.
    - intros c. subst line. rewrite !app_assoc, last_snoc. by intros [= <-]. }
  destruct (same name key) eqn:Hsame.
  - apply same_true in Hsame as ->. assert (starts_with key line = true) as -> by apply starts_with_app.
    assert (length key < length line)%nat as Hlen by (subst line; rewrite !length_app; simpl; lia).
    rewrite (proj2 (Nat.ltb_lt _ _) Hlen). assert (line !! length key = Some "="%char) as -> by (subst line; by rewrite lookup_app_r, Nat.sub_diag).
    cbn [andb is_char]. change line with (key ++ "="%char :: quote :: value ++ [quote]). rewrite substr_suffix.
    assert (drop_back ini_back (drop_front ini_front (quote :: value ++ [quote])) = value) as ->.
    { change (quote :: value ++ [quote]) with ([quote] ++ value ++ [quote]). rewrite drop_front_app by (by repeat constructor).
      destruct value as [|c value]; [done|]. rewrite drop_front_id.
      - rewrite drop_back_app by (by repeat constructor). apply drop_back_id. intros d Hd. apply Hv2, orb_false_iff in Hd as [_ ?]. done.
      - intros d [= <-]. pose proof (Hv1 c eq_refl) as Hcv. cbv beta in Hcv. by apply orb_false_iff in Hcv as [? _]. }
    rewrite (proj2 (empty_false _)) by done. reflexivity.
  - apply same_false in Hsame.
    destruct (starts_with key line) eqn:Hstart; cbn [andb]; [|done].
    destruct (_ <? _)%nat; cbn [andb]; [|done]. destruct (line !! length key) as [c|] eqn:Hc; [|done].
    destruct (is_char c "=") eqn:He; [|done]. apply is_char_true in He as ->. exfalso. apply Hsame.
    apply starts_with_true in Hstart as (rest & Hrest). rewrite Hrest, lookup_app_r, Nat.sub_diag in Hc by done.
    destruct rest as [|d rest]; [done|]. injection Hc as ->.
    pose proof (find_app "=" name ([quote] ++ value ++ [quote]) Hname) as H1.
    pose proof (find_app "=" key rest Hkey) as H2. change (name ++ "="%char :: [quote] ++ value ++ [quote]) with line in H1.
    rewrite Hrest, H2 in H1. injection H1 as Hl. subst line. by apply app_inj_1 in Hrest as [? _].
Qed.
